(* ===== verification/_CoqProject ===== *)
-Q . S2P
Prelude.v
Text.v
ShellParser.v
Types.v
CodecError.v
FileRecords.v
Requests.v
Responses.v
MeiResponses.v
Pdu.v
Validate.v
Crc.v
Stream.v
Mbap.v
Rtu.v
RtuTcp.v
Owned.v
RtuConfig.v
Assembler.v
Session.v
Deadlines.v
Seconds.v
LegacyTiming.v
Transaction.v
Bits.v
Store.v
Memory.v
DeviceId.v
Handler.v
Server.v
Service.v
ServerTasks.v
Pool.v
Ledger.v
Lending.v
Client.v
Methods.v
Calls.v
Loopback.v
RemoteCalls.v
PoolTasks.v
Probes.v
PythonStore.v
Identification.v
Gateway.v
GatewayCalls.v
ClientTasks.v
Simulator.v
Discover.v
Listener.v
TlsServer.v
Shell.v
Dashboard.v
Serve.v
Transports.v
Tls.v
PythonClient.v
