(* ===== verification/Prelude.v ===== *)
(** * A verification development of rusty-modbus

    rusty-modbus is a Modbus stack in Rust, a workspace of crates under
    [src/crates]. This library models the parts that decide what bytes mean, which
    request a response belongs to, what a server answers and who may use a pooled
    connection, as executable definitions translated from the source, and proves
    that they do what the Modbus specifications and the interfaces between the parts
    ask for.

    ** The program

    - [rusty-modbus-types]: constants, enumerations and the MBAP header.
    - [rusty-modbus-codec]: the protocol data units. Each request and response type
      has a decoder over a byte slice and an encoder into a byte buffer; [decode.rs]
      dispatches on the function code; [validate.rs] holds the checks a server runs.
    - [rusty-modbus-frame]: the framings that carry PDUs over a byte stream
      (Modbus/TCP with its MBAP header, RTU with its CRC, RTU over TCP with two
      boundary policies), and responses that own their bytes.
    - [rusty-modbus-rtu]: serial line timing, and an assembler that cuts timestamped
      bytes into RTU frames by the silence between them.
    - [rusty-modbus-client]: a ring of 16 transactions in flight that matches
      responses to requests, a verdict on whether the session may be reused, attempts
      with retries and deadlines around them, and a typed method per Modbus function.
    - [rusty-modbus-server]: a request handler over a data store (a trait, with an
      in-memory implementation on packed bit tables), the device identification
      pages, and the tasks of a running server: supervisor, connections, shutdown.
    - [rusty-modbus-pool]: connections lent to many tasks: budgets per device,
      reservations for pending connects, leases, client sessions that come back, idle
      validation and shutdown.
    - [rusty-modbus-gateway]: a server that passes requests on to devices on RTU
      buses. [rusty-modbus-sim]: a server filled from a configuration.
    - [rusty-modbus-tcp], [rusty-modbus-tls] (and the rest of [rusty-modbus-rtu]): the
      transports: connecting, listening, sending and receiving frames with timeouts.
    - [rusty-modbus-cli]: the command line tool: one-shot commands, an interactive
      shell, a dashboard, discovery of devices and a server. [rusty-modbus-python]: the
      client, the server and its stores as Python classes.

    Data flows from a transport through a frame decoder to the PDU dispatcher and the
    request handler on the server side, and on the client side to
    [OwnedResponsePdu::from_pdu] and the ring; the pool lends the transports the
    client sessions run on.

    ** The files

    - [Prelude]: the result type of a Rust call, the state monad for code behind an
      exclusive reference, slices and buffers, machine integers, loops with fuel,
      and the lemmas, hint and rewrite databases the components share.
    - [Text]: the strings and number formats of the standard library that the command
      line tool uses. [ShellParser]: cli/shell_parser.rs.
    - [Types]: crate types. Enumerations are inductive types with the Rust names and
      their wire conversions.
    - [CodecError]: codec/error.rs and the [Encode] trait. The classes [Encode],
      [EncodeSpec] and [PduCodec] state what a message type promises (its wire image,
      when it can be encoded, that decoding inverts encoding); the dispatch theorems
      are proved against them and every message discharges them. Also the tactics
      that run decoders and encoders symbolically.
    - [FileRecords], [Requests], [Responses], [MeiResponses]: codec/request and
      codec/response, one [Module] per Rust type with [decode], [encode_into],
      [encoded_len] and its accessors, followed by its instances.
    - [Pdu]: codec/pdu.rs and decode.rs. [Validate]: codec/validate.rs.
    - [Crc]: frame/crc.rs. [Stream]: frame/frame.rs and error.rs, the reading loop of
      a transport, and the class [StreamDecoder] of decoders whose result does not
      depend on how the stream is cut. [Mbap], [Rtu], [RtuTcp]: the codecs of the
      same names in frame/.
    - [Owned]: frame/owned.rs.
    - [RtuConfig]: rtu/config.rs (strict configuration) and unit_id.rs.
      [Assembler]: rtu/assembler.rs. [Seconds]: durations from floating-point seconds.
      [LegacyTiming]: the compatibility timers of rtu/config.rs.
    - [Session]: client/session.rs. [Transaction]: client/transaction.rs and error.rs.
    - [Deadlines]: instants and durations that saturate. [Client]: client/client.rs,
      config.rs and the frame handling of reader.rs; what happens while a request
      waits is up to the class [Runtime], with one operation per await, and
      [RuntimeLaws] says what the other tasks may do to the ring. [Methods]: the
      request methods of client/methods over a class [Connection]. [Calls]: what they
      promise, for any connection that keeps [ConnectionLaws], and that the client
      keeps them.
    - [Bits]: server/store/bits.rs, the packed bit tables of the in-memory store.
    - [Store]: server/store/mod.rs and file_record.rs, the trait [DataStore] as a
      class and its default methods. [Memory]: server/store/memory.rs, the instance
      [memory_store], against abstract tables [Tables].
    - [DeviceId]: server/device_id.rs. [Handler]: server/handler.rs and
      response_encode.rs, with the store as the state behind [DataStore]. [Server]:
      the class [StoreLaws] of what a store promises the handler, and the handler
      over any such store. [Service]: what the Modbus functions do to the tables
      ([serve]), and the handler over the in-memory store. [ServerTasks]:
      server/server.rs, lifecycle.rs and config.rs, a transition system of 23 kinds
      of steps of the supervisor, the connections and the callers of [stop].
    - [Pool]: pool/pool.rs, connection.rs, client_handoff.rs, health.rs, config.rs and
      backoff.rs; every critical section of the mutex is one action. [Ledger]: what the
      accounting has to agree with, one lemma per movement of a charge or a
      connection. [Lending]: the pool with all its holders as a transition system of
      20 events in any order. [PoolTasks]: the background tasks of pool.rs and health.rs,
      the callers of [get] and of the shutdown, as tasks that take those actions.
      [Probes]: the one read of a probe, with the client it uses.
    - [Loopback]: a runtime whose peer answers each request through the MBAP encoder
      and decoder; the class [Peer] is what it does, [PeerLaws] that it answers with
      the right transaction, and the server of [Handler] is one. [RemoteCalls]: the
      client's methods over any peer, and over the server. [Identification]: the paged
      identification method, over any connection and over the server.
    - [Gateway]: gateway/routing.rs, translator.rs, config.rs and the request loop of
      gateway.rs; what the buses do is up to the class [Backends]. [GatewayCalls]: a device
      on a bus with strict RTU framing, and the gateway in front of it as a peer.
    - [ClientTasks]: client/lifecycle.rs and the loops of reader.rs, a transition
      system of 27 kinds of steps of the operations, the reader, the deadline task,
      the callers of [shutdown] and [abort] and the coordinator.
    - [Simulator]: sim/config.rs, simulator.rs and scenario.rs.
    - [Discover], [Shell], [Dashboard], [Serve]: the commands of the command line tool
      (cli/discover.rs; output.rs, commands.rs, shell.rs and main.rs; dashboard.rs with
      its modules; server.rs), over the client's methods and the server.
    - [Listener]: tcp/listener.rs and config.rs, the admission of sockets as interleaved
      atomic accesses. [TlsServer]: server/tls.rs, its supervisor and one task per
      socket. [Transports]: the two halves of the TCP, TLS, serial and RTU-over-TCP
      transports (tcp/connect.rs, tls/connect.rs, rtu/serial.rs, rtu/rtu_tcp.rs) over a
      class [Framed] with its documented laws. [Tls]: the rest of the tls crate, over
      the parsers and the handshakes of its libraries.
    - [PythonStore]: python/server.rs and errors.rs, any Python object as the store of a
      server. [PythonClient]: the configuration classes, errors, clients and the start of
      a server in python/.

    ** How code is modelled

    A [u8], [u16], [u64] or [usize] is a [Z]; its range is a hypothesis or part of a
    well-formedness predicate, and arithmetic that can leave the range is written
    out: subtraction that would underflow is [Panic], counters saturate or wrap as
    in the source. A slice index or range out of bounds, [unreachable!] and [expect]
    are [Panic] too, so a theorem that a call returns also shows that none of these
    can happen. A function behind [&mut] is a state transition that yields the
    state on error paths as well. Loops are structural recursions over what they
    consume, or have fuel: [consume_loop] gets one more round than there are bytes
    and every round takes one; the reading loop of [Stream] likewise; the object
    iterator gets 256 rounds for at most 255 objects; [register_loop] gets 32 rounds
    because any 31 consecutive transaction IDs meet all 16 slots, also across the
    wrap of the counter; [parse_write_groups] gets one round per byte of the request;
    [checkout_idle] gets one more round than there are idle entries, and a round
    removes one; the retry loop of [Client] gets one round more than [max_retries]; the
    bisection of [Deadlines] gets 95 rounds for an interval below 2^94 nanoseconds;
    the page loop of the device identification method has three. In each case a theorem
    shows that the fuel never runs out.
    [debug_assert!] is checked as a debug build checks it.
    A step of a concurrent component is one critical section or atomic access; the
    clock and what a socket shows when it is inspected are arguments of the step.
    Where the source takes several, one after the other, and the model one step, the
    step stands at the first: an accepted socket is admitted at the read of the
    shutdown deadline, so that its task is spawned together with that read ([Accepted] in
    [ServerTasks], [admit_socket] in [TlsServer], which also reserves the connection in
    the same step; [Listener] has the reservation access by access); a seal notifies
    the watch channel together with its lock section; [register], [cancel_all] and [expire]
    of the transaction ring, which take the locks of the slots one by one, are one step
    each. Interleavings inside these are not covered.

    ** What the theorems show

    - Codec ([Pdu], [Responses], [MeiResponses], [Validate]): the dispatchers accept
      exactly the images of well-formed messages, return on every input, and are
      inverse to the encoders; encoders are memory safe and transactional; the several
      walks over file records agree; the validators are exact.
    - Framing ([Crc], [Mbap], [Rtu], [RtuTcp]): the table-driven CRC is the shift
      register of its definition and detects every burst of 16 bits; each decoder
      returns a frame exactly when the buffer starts with one and leaves the buffer
      alone otherwise; streams decode to the frames sent however they are cut; the
      strict length grammar for RTU over TCP agrees with the PDU codec.
    - Serial lines ([RtuConfig], [Assembler]): timers are the shortest that cover 1.5
      and 3.5 characters; the assembler refines an abstract line discipline given as a
      step relation, and from a timeline of bursts it emits exactly the clean ones.
    - Client ([Owned], [Session], [Transaction]): owned responses agree with the codec;
      the first retirement of a session wins under every interleaving of the atomic
      accesses; the ring refines a set of transactions in flight: registration finds a
      slot if there is one, responses reach the request with their ID, and nobody gets
      two replies.
    - Server ([Memory], [DeviceId], [Server], [Service]): every operation of the store,
      setup and optimised overrides included, is its plain counterpart on abstract tables; over any
      lawful store, any bytes get a reply of legal size and function code or, for a
      broadcast, none; over the in-memory store the reply and the tables after it are
      those of the Modbus function specification; a client that follows the markers
      gets every identification object.
    - Requests ([Client], [Calls]): whatever the other tasks do, an attempt returns, its
      transaction leaves the ring and a doubtful session is retired; retries end in
      time and never repeat a write that may have taken effect; a method returns a
      value only for the one reply that says so.
    - Server tasks ([ServerTasks]): under every interleaving nothing panics, a sealed
      server admits nothing more, all callers of [stop] get the same outcome, which
      comes once the deadline has passed.
    - Client tasks ([ClientTasks]): under every interleaving nothing panics and no more
      operations are active than the capacity; a sealed client admits nothing more; a
      shutdown returns once the tasks have ended, a session is eligible for reuse only
      when it was drained, and shutting down ends.
    - Client and server together ([RemoteCalls]): every method is the plain operation
      on the server's tables.
    - Gateway ([Gateway], [GatewayCalls]): routes are found exactly; every request is
      answered once, with its transaction and a legal PDU, whatever the bus does, and a
      broadcast is sent once to each bus of the table; a client behind the gateway works on the tables of the device as if next to it.
    - Simulator ([Simulator]): a configuration is accepted exactly when it makes sense,
      and a client then reads what it lists.
    - Pool ([Lending]): whatever the tasks do, the accounting equals the charges held,
      budgets hold, a connection has one owner and is never lent again after raw
      access; an acquisition does what the budgets allow; failed connects leave no
      trace; no wake-up is lost. [PoolTasks]: the same for the tasks as they are written;
      nobody sleeps while there is something for him that was there before his attempt, only the
      health task can panic, when its interval is zero, and a shutdown completes.
    - Transports ([Listener], [TlsServer], [Transports], [Tls]): limits hold under
      concurrent accepts and every handshake is counted once; what one side of a
      transport sends the other receives, however it is cut and whenever a call times
      out; writes to a serial line are t3.5 apart; a TLS connection is made with the
      intended profile only, and the role reported is the one the certificate grants.
    - Command line ([ShellParser], [Shell], [Dashboard], [Discover], [Serve]): commands are
      parsed exactly and mean the plain operations on the tables of the server; the
      dashboard shows what the tables hold, row by row, and its keys and commands move the
      range as they say; a scan reports exactly the units that answer.
    - Python ([PythonStore], [PythonClient]): a server asks the object exactly what the
      request asks for, and maps any answer, and any exception by its class, to a reply; the methods of the clients are
      the plain operations, and errors are the exceptions of their class; [LegacyTiming]
      and [Seconds]: the floating-point conversions.

    ** What is not modelled

    Sockets, serial ports, timers, handshakes, cryptography, the parsers of YAML, PEM,
    X.509, CIDR ranges and JSON, and the scheduling of tasks are those of third-party
    libraries: they are parameters, or steps that may come in any order. [Display] and
    [Debug] implementations, log messages and their labels, metrics that are only
    reported, and capacity management of buffers are left out. Of the transaction ring the
    two halves of [complete_oldest_response] are separate steps.

    Of client and server, the abort of the tasks when the value is dropped is left out; of
    the gateway, the listener and its stop; of the command line tool, the parsing of
    arguments, the drawing of the dashboard, logging, and waiting for signals; of the
    simulator, its command line; of the Python package, what PyO3 and the runtimes do:
    conversions of values, awaiting, connecting and the context managers. Benchmarks,
    examples and tests are not part of the model. *)
From stdpp Require Export prelude.
From Stdlib Require Export ZArith Lia ZifyBool.

Declare Scope modbus_scope.
Delimit Scope modbus_scope with modbus.
#[global] Open Scope Z_scope.
#[global] Open Scope modbus_scope.

(** ** Results, panics and loops

    [res E A] is the outcome of a Rust computation: [Result<A, E>] extended
    with the two ways a call can fail to return: a panic (an index out of
    bounds, a slice range error, an arithmetic underflow, [unreachable!]) and
    a loop that has used up the fuel its definition gives it. *)
Inductive res (E A : Type) : Type :=
  | Ok (a : A)
  | Err (e : E)
  | Panic
  | OutOfFuel.
Arguments Ok {E A} a.
Arguments Err {E A} e.
Arguments Panic {E A}.
Arguments OutOfFuel {E A}.

Definition returns {E A} (r : res E A) : Prop :=
  match r with Ok _ | Err _ => True | Panic | OutOfFuel => False end.

Definition rbind {E A B} (r : res E A) (k : A → res E B) : res E B :=
  match r with
  | Ok a => k a
  | Err e => Err e
  | Panic => Panic
  | OutOfFuel => OutOfFuel
  end.

(** [Result::map] *)
Definition rmap {E A B} (f : A → B) (r : res E A) : res E B :=
  rbind r (λ a, Ok (f a)).

(** A call that cannot return an error, in a function that can *)
Definition infallible {E A} (r : res Empty_set A) : res E A :=
  match r with
  | Ok a => Ok a
  | Err e => match e with end
  | Panic => Panic
  | OutOfFuel => OutOfFuel
  end.

(** [Option::ok_or] *)
Definition ok_or {E A} (o : option A) (e : E) : res E A :=
  match o with Some a => Ok a | None => Err e end.

(** [debug_assert!(c)], as a debug build runs it *)
Definition debug_assert {E} (c : bool) : res E unit := if c then Ok tt else Panic.

Notation "'let?' x ':=' c 'in' k" := (rbind c (λ x, k))
  (at level 10, x pattern, c at level 200, k at level 200,
   format "'[v' 'let?'  x  ':='  c  'in' '/' k ']'") : modbus_scope.
Notation "'do?' c 'in' k" := (rbind c (λ _, k))
  (at level 10, c at level 200, k at level 200,
   format "'[v' 'do?'  c  'in' '/' k ']'") : modbus_scope.

(** ** Mutable state

    [ST S E A] is a Rust function that mutates a value of type [S] through an
    exclusive reference and returns a [Result<A, E>]; the state it leaves
    behind is part of the outcome on every path, error paths included. *)
Definition ST (S E A : Type) : Type := S → res E A * S.

Definition st_ret {S E A} (a : A) : ST S E A := λ s, (Ok a, s).
Definition st_err {S E A} (e : E) : ST S E A := λ s, (Err e, s).
Definition st_panic {S E A} : ST S E A := λ s, (Panic, s).
Definition st_bind {S E A B} (m : ST S E A) (k : A → ST S E B) : ST S E B :=
  λ s, match m s with
       | (Ok a, s') => k a s'
       | (Err e, s') => (Err e, s')
       | (Panic, s') => (Panic, s')
       | (OutOfFuel, s') => (OutOfFuel, s')
       end.
Definition st_get {S E} : ST S E S := λ s, (Ok s, s).
Definition st_modify {S E} (f : S → S) : ST S E unit := λ s, (Ok tt, f s).
Definition st_lift {S E A} (r : res E A) : ST S E A := λ s, (r, s).

Notation "x '<-' c ';;' k" := (st_bind c (λ x, k))
  (at level 100, c at next level, right associativity,
   format "'[v' x  '<-'  c ';;' '/' k ']'") : modbus_scope.
Notation "c ';;;' k" := (st_bind c (λ _, k))
  (at level 100, right associativity,
   format "'[v' c ';;;' '/' k ']'") : modbus_scope.

(** ** Machine integers

    A [u8], [u16], [u32], [u64] or [usize] is a [Z] with its range stated where
    it matters. *)
Abbreviation is_u8 x := (0 ≤ x < 256).
Abbreviation is_u16 x := (0 ≤ x < 65536).
Abbreviation is_u64 x := (0 ≤ x < 18446744073709551616).

Definition u8_max : Z := 255.
Definition u16_max : Z := 65535.
Definition u64_max : Z := 18446744073709551615.

(** [checked_sub] as the plain operator [-] uses it: underflow panics. *)
Definition usub {E} (a b : Z) : res E Z := if b <=? a then Ok (a - b) else Panic.

(** [usize::div_ceil] *)
Definition div_ceil (a b : Z) : Z := (a + b - 1) / b.

(** [is_multiple_of] *)
Definition is_multiple_of (a b : Z) : bool := a mod b =? 0.

(** ** Byte strings *)
Abbreviation bytes := (list Z).

Definition blen {A} (l : list A) : Z := Z.of_nat (length l).
Definition is_empty {A} (l : list A) : bool := blen l =? 0.
Definition byte_ok (b : Z) : Prop := is_u8 b.
Definition bytes_ok (l : bytes) : Prop := Forall byte_ok l.

(** [slice.get(i)] *)
Definition get {A} (l : list A) (i : Z) : option A :=
  if 0 <=? i then l !! Z.to_nat i else None.
(** [slice\[i\]] *)
Definition idx {E A} (l : list A) (i : Z) : res E A :=
  match get l i with Some a => Ok a | None => Panic end.
(** [slice\[i..\]] *)
Definition slice_from {E A} (l : list A) (i : Z) : res E (list A) :=
  if (0 <=? i) && (i <=? blen l) then Ok (drop (Z.to_nat i) l) else Panic.
(** [slice\[..j\]] *)
Definition slice_to {E A} (l : list A) (j : Z) : res E (list A) :=
  if (0 <=? j) && (j <=? blen l) then Ok (take (Z.to_nat j) l) else Panic.
(** [slice\[i..j\]] *)
Definition slice {E A} (l : list A) (i j : Z) : res E (list A) :=
  if (0 <=? i) && (i <=? j) && (j <=? blen l)
  then Ok (take (Z.to_nat (j - i)) (drop (Z.to_nat i) l)) else Panic.

(** [iter().position(p)] *)
Fixpoint position {A} (p : A → bool) (l : list A) : option Z :=
  match l with
  | [] => None
  | x :: l => if p x then Some 0 else option_map (λ i, i + 1) (position p l)
  end.
(** [slice\[i\] = v] on the state *)
Definition buf_set {E A} (i : Z) (v : A) : ST (list A) E unit :=
  λ b, if (0 <=? i) && (i <? blen b) then (Ok tt, <[Z.to_nat i:=v]> b) else (Panic, b).
(** [slice\[i..j\].copy_from_slice(src)] on the state: a range or length error panics *)
Definition buf_copy {E A} (i j : Z) (src : list A) : ST (list A) E unit :=
  λ b, if (0 <=? i) && (i <=? j) && (j <=? blen b) && (j - i =? blen src)
       then (Ok tt, take (Z.to_nat i) b ++ src ++ drop (Z.to_nat j) b)
       else (Panic, b).

(** [u16::to_be_bytes], [u16::from_be_bytes] and the little-endian pair *)
Definition to_be_bytes (x : Z) : bytes := [x / 256 mod 256; x mod 256].
Definition from_be_bytes (a b : Z) : Z := a * 256 + b.
Definition to_le_bytes (x : Z) : bytes := [x mod 256; x / 256 mod 256].
Definition from_le_bytes (a b : Z) : Z := b * 256 + a.
Arguments from_be_bytes : simpl never.
Arguments from_le_bytes : simpl never.
Arguments to_be_bytes : simpl never.
Arguments to_le_bytes : simpl never.
Arguments blen : simpl never.
Arguments is_empty : simpl never.

(** [slice.chunks_exact(n)]: the consecutive chunks of [n] elements, the shorter
    remainder dropped. A chunk takes at least one element, so the length of the
    list bounds their number. *)
Fixpoint chunks_exact_go {A} (fuel n : nat) (l : list A) : list (list A) :=
  match fuel with
  | O => []
  | S fuel => if (length l <? n)%nat then [] else take n l :: chunks_exact_go fuel n (drop n l)
  end.
Definition chunks_exact {A} (n : Z) (l : list A) : list (list A) :=
  chunks_exact_go (length l) (Z.to_nat n) l.

(** [for x in l { f(x)?; }] *)
Fixpoint for_each {E A} (f : A → res E unit) (l : list A) : res E unit :=
  match l with
  | [] => Ok tt
  | x :: l => do? f x in for_each f l
  end.

(** [while !remaining.is_empty() { let n = step(remaining)?; remaining = &remaining\[n..\]; }] *)
Fixpoint consume_loop {E} (step : bytes → res E Z) (fuel : nat) (remaining : bytes) : res E unit :=
  match fuel with
  | O => OutOfFuel
  | S fuel =>
      if is_empty remaining then Ok tt else
      let? n := step remaining in
      let? remaining := slice_from remaining n in
      consume_loop step fuel remaining
  end.
(** Every iteration consumes at least one byte: the length is enough fuel. *)
Definition consume {E} (step : bytes → res E Z) (l : bytes) : res E unit :=
  consume_loop step (S (length l)) l.

(** A byte string that is a sequence of groups. *)
Definition groups (P : bytes → Prop) (l : bytes) : Prop :=
  ∃ gs, l = concat gs ∧ Forall P gs.

(** A big-endian 16-bit word read from [data\[i\], data\[j\]] *)
Definition be16_at {E} (data : bytes) (i j : Z) : res E Z :=
  let? a := idx data i in
  let? b := idx data j in
  Ok (from_be_bytes a b).

(** [overlay img buf] is [buf] with its first bytes replaced by [img]: what a
    buffer holds after a writer that fills it from the front. *)
Definition overlay {A} (img buf : list A) : list A := img ++ drop (length img) buf.

(** * Lemmas shared by the components *)
Create HintDb modbus.
Create Rewrite HintDb be16.
Create Rewrite HintDb blen.

Ltac zify_bools := repeat match goal with
  | H : (_ && _)%bool = true |- _ => apply andb_prop in H as [? ?]
  | H : (_ || _)%bool = false |- _ => apply orb_false_iff in H as [? ?]
  end.

Section Results.
Context {E A B : Type}.
Implicit Types (r : res E A) (k : A → res E B).

Lemma rbind_Ok r k b : rbind r k = Ok b ↔ ∃ a, r = Ok a ∧ k a = Ok b.
Proof. destruct r; naive_solver. Qed.
Lemma rbind_returns r k :
  returns r → (∀ a, r = Ok a → returns (k a)) → returns (rbind r k).
Proof. destruct r; naive_solver. Qed.
Lemma ok_or_Ok (o : option A) (e : E) a : ok_or o e = Ok a ↔ o = Some a.
Proof. destruct o; naive_solver. Qed.
Lemma ok_or_returns (o : option A) (e : E) : returns (ok_or o e).
Proof. by destruct o. Qed.
Lemma usub_Ok a b : b ≤ a → usub (E:=E) a b = Ok (a - b).
Proof. intros. unfold usub. by replace (b <=? a) with true by lia. Qed.
End Results.

Lemma blen_concat {A} n (gs : list (list A)) : Forall (λ g, blen g = n) gs →
  blen (concat gs) = n * blen gs.
Proof.
  induction 1 as [|g gs Hg _ IH]; [unfold blen; simpl; lia|].
  unfold blen in *. simpl. rewrite length_app. lia.
Qed.
Lemma blen_concat_mod {A} n (gs : list (list A)) : 0 < n → Forall (λ g, blen g = n) gs →
  blen (concat gs) mod n = 0.
Proof. intros Hn Hg. by rewrite (blen_concat n), Z.mul_comm, Z.mod_mul by (done || lia). Qed.

Section ForEach.
Context {E A : Type}.

Lemma for_each_Ok (f : A → res E unit) l :
  for_each f l = Ok tt ↔ Forall (λ x, f x = Ok tt) l.
Proof.
  induction l as [|x l IH]; [by split|]. simpl. rewrite rbind_Ok, Forall_cons, <-IH.
  split; [intros ([] & ? & ?)|intros []]; naive_solver.
Qed.
Lemma for_each_returns (f : A → res E unit) l :
  Forall (λ x, returns (f x)) l → returns (for_each f l).
Proof. induction 1; [done|]. by apply rbind_returns. Qed.
End ForEach.

Section Lists.
Context {A : Type}.
Implicit Types (l k : list A) (a : A).

Lemma blen_nil : blen (@nil A) = 0.
Proof. done. Qed.
Lemma blen_cons a l : blen (a :: l) = 1 + blen l.
Proof. unfold blen. rewrite length_cons. lia. Qed.
Lemma blen_app l k : blen (l ++ k) = blen l + blen k.
Proof. unfold blen. rewrite length_app. lia. Qed.
Lemma blen_nonneg l : 0 ≤ blen l.
Proof. unfold blen. lia. Qed.
Lemma blen_drop n l : 0 ≤ n → blen (drop (Z.to_nat n) l) = Z.max 0 (blen l - n).
Proof. intros. unfold blen. rewrite length_drop. lia. Qed.
Lemma blen_take n l : 0 ≤ n → blen (take (Z.to_nat n) l) = Z.min n (blen l).
Proof. intros. unfold blen. rewrite length_take. lia. Qed.
Lemma blen_replicate n a : blen (replicate n a) = Z.of_nat n.
Proof. unfold blen. by rewrite length_replicate. Qed.
Lemma blen_0_nil l : blen l = 0 → l = [].
Proof. destruct l; [done|]. rewrite blen_cons. pose proof (blen_nonneg l). lia. Qed.
Lemma is_empty_true l : is_empty l = true ↔ l = [].
Proof.
  unfold is_empty. rewrite Z.eqb_eq. split; [apply blen_0_nil|by intros ->].
Qed.
Lemma is_empty_cons a l : is_empty (a :: l) = false.
Proof. unfold is_empty. rewrite blen_cons. pose proof (blen_nonneg l). lia. Qed.

Lemma get_cons_0 a l : get (a :: l) 0 = Some a.
Proof. done. Qed.
Lemma get_Some_lt l i a : get l i = Some a → 0 ≤ i < blen l.
Proof.
  unfold get, blen. destruct (0 <=? i) eqn:?; [|done].
  intros ?%lookup_lt_Some. lia.
Qed.
Lemma get_lt_is_Some l i : 0 ≤ i < blen l → ∃ a, get l i = Some a.
Proof.
  unfold get, blen. intros ?. replace (0 <=? i) with true by lia.
  apply lookup_lt_is_Some_2. lia.
Qed.
Lemma get_None_ge l i : get l i = None → i < 0 ∨ blen l ≤ i.
Proof.
  intros Hn. destruct (Z_lt_le_dec i 0); [by left|]. right.
  destruct (Z_lt_le_dec i (blen l)) as [Hlt|]; [|done].
  destruct (get_lt_is_Some l i) as [a Ha]; [lia|]. congruence.
Qed.
Lemma get_app_l l k i : i < blen l → get (l ++ k) i = get l i.
Proof.
  unfold get, blen. intros ?. destruct (0 <=? i) eqn:?; [|done].
  rewrite lookup_app_l; [done|lia].
Qed.
Lemma get_app_r l k i : blen l ≤ i → get (l ++ k) i = get k (i - blen l).
Proof.
  unfold get, blen. intros ?. replace (0 <=? i) with true by lia.
  replace (0 <=? i - Z.of_nat (length l)) with true by lia.
  rewrite lookup_app_r by lia. f_equal. lia.
Qed.
Lemma get_cons_later x l i (k : Z) : i < k → get (x :: l) (k - i) = get l (k - (i + 1)).
Proof.
  intros Hk. change (x :: l) with ([x] ++ l). rewrite get_app_r by (change (blen [x]) with 1; lia).
  f_equal. change (blen [x]) with 1. lia.
Qed.
Lemma get_drop l i n : 0 ≤ i → 0 ≤ n → get (drop (Z.to_nat n) l) i = get l (n + i).
Proof.
  intros. unfold get. replace (0 <=? i) with true by lia.
  replace (0 <=? n + i) with true by lia.
  rewrite lookup_drop. f_equal. lia.
Qed.
Lemma get_take l i n : i < n → get (take (Z.to_nat n) l) i = get l i.
Proof.
  unfold get. intros. destruct (0 <=? i) eqn:?; [|done].
  rewrite lookup_take_lt; [done|lia].
Qed.

Lemma idx_Ok {E} l i a : idx (E:=E) l i = Ok a ↔ get l i = Some a.
Proof. unfold idx. destruct (get l i); naive_solver. Qed.
Lemma idx_lt {E} l i : 0 ≤ i < blen l → ∃ a, idx (E:=E) l i = Ok a ∧ get l i = Some a.
Proof. intros (a & Ha)%get_lt_is_Some. exists a. by rewrite idx_Ok. Qed.

Lemma slice_from_Ok {E} l i :
  0 ≤ i ≤ blen l → slice_from (E:=E) l i = Ok (drop (Z.to_nat i) l).
Proof. intros. unfold slice_from. by replace (_ && _)%bool with true by lia. Qed.
Lemma slice_to_Ok {E} l i :
  0 ≤ i ≤ blen l → slice_to (E:=E) l i = Ok (take (Z.to_nat i) l).
Proof. intros. unfold slice_to. by replace (_ && _)%bool with true by lia. Qed.
Lemma slice_Ok {E} l i j : 0 ≤ i ≤ j → j ≤ blen l →
  slice (E:=E) l i j = Ok (take (Z.to_nat (j - i)) (drop (Z.to_nat i) l)).
Proof. intros. unfold slice. by replace (_ && _)%bool with true by lia. Qed.

Lemma chunks_exact_go_enough n f g l : (0 < n)%nat → (length l ≤ f)%nat → (length l ≤ g)%nat →
  chunks_exact_go f n l = chunks_exact_go g n l.
Proof.
  intros Hn. revert g l. induction f as [|f IH]; intros g l Hf Hg.
  - destruct l; [|simpl in Hf; lia]. destruct g; [done|]. simpl. by destruct n; [lia|].
  - destruct g as [|g]; simpl.
    + destruct l; [|simpl in Hg; lia]. simpl. by destruct n; [lia|].
    + case_match; [done|]. f_equal. rewrite Nat.ltb_ge in *. apply IH; rewrite length_drop; lia.
Qed.
Lemma chunks_exact_short n l : 0 < n → blen l < n → chunks_exact n l = [].
Proof.
  unfold chunks_exact, blen. intros. destruct l; [done|]. cbn [chunks_exact_go length] in *.
  by rewrite (proj2 (Nat.ltb_lt _ _)) by lia.
Qed.
Lemma chunks_exact_app n l k : 0 < n → blen l = n →
  chunks_exact n (l ++ k) = l :: chunks_exact n k.
Proof.
  intros Hn Hl. unfold chunks_exact, blen in *. rewrite length_app.
  destruct l as [|a l]; [simpl in Hl; lia|]. simpl in Hl. cbn [length Nat.add].
  change ((a :: l) ++ k) with (a :: (l ++ k)). cbn [chunks_exact_go].
  rewrite length_cons, length_app. rewrite (proj2 (Nat.ltb_ge _ _)) by lia.
  change (a :: (l ++ k)) with ((a :: l) ++ k).
  rewrite take_app_length' , drop_app_length' by (simpl; lia).
  f_equal. apply chunks_exact_go_enough; lia.
Qed.
Lemma chunks_exact_concat_inv n (gs : list (list A)) : 0 < n → Forall (λ g, blen g = n) gs →
  chunks_exact n (concat gs) = gs.
Proof.
  intros Hn. induction 1; [by apply chunks_exact_short|].
  simpl. by rewrite chunks_exact_app, IHForall.
Qed.
Lemma chunks_exact_split n l : 0 < n → blen l mod n = 0 →
  ∃ gs, l = concat gs ∧ Forall (λ g, blen g = n) gs.
Proof.
  intros Hn. remember (length l) as m eqn:Hm. revert l Hm.
  induction (lt_wf m) as [m _ IH]. intros l -> Hmod.
  destruct (decide (l = [])) as [->|Hne]; [by exists []|].
  assert (n ≤ blen l) as Hle.
  { destruct (Z_lt_le_dec (blen l) n); [|done]. pose proof (blen_nonneg l).
    rewrite Z.mod_small in Hmod by lia. apply blen_0_nil in Hmod. done. }
  rewrite <-(take_drop (Z.to_nat n) l) in Hmod. rewrite blen_app, blen_take in Hmod by lia.
  rewrite Z.min_l in Hmod by lia. rewrite Z.add_comm, Z.add_mod, Z_mod_same_full in Hmod by lia.
  rewrite Z.add_0_r, Z.mod_mod in Hmod by lia.
  destruct (IH (length (drop (Z.to_nat n) l))) with (l := drop (Z.to_nat n) l)
    as (gs & Hgs & Hall); [rewrite length_drop; unfold blen in *; lia|done|done|].
  exists (take (Z.to_nat n) l :: gs). split; [simpl; by rewrite <-Hgs, take_drop|].
  constructor; [|done]. rewrite blen_take by lia. lia.
Qed.

Lemma overlay_nil l : overlay [] l = l.
Proof. done. Qed.
Lemma overlay_all img l : length img = length l → overlay img l = img.
Proof. intros Hl. unfold overlay. by rewrite drop_ge, app_nil_r by lia. Qed.
Lemma blen_overlay img l : blen img ≤ blen l → blen (overlay img l) = blen l.
Proof.
  unfold overlay, blen. rewrite length_app, length_drop. lia.
Qed.
Lemma buf_copy_overlay {E} i j (src img buf : list A) :
  i = blen img → j = i + blen src → j ≤ blen buf →
  buf_copy (E:=E) i j src (overlay img buf) = (Ok tt, overlay (img ++ src) buf).
Proof.
  intros -> -> Hle. unfold buf_copy.
  pose proof (blen_nonneg img). pose proof (blen_nonneg src).
  rewrite blen_overlay by lia.
  replace (_ && _)%bool with true by lia. f_equal. unfold overlay, blen in *.
  rewrite Nat2Z.id, take_app_length, drop_app, drop_drop, length_app.
  rewrite (drop_ge img) by lia. rewrite app_nil_l, <-app_assoc.
  do 3 f_equal. lia.
Qed.
Lemma buf_set_overlay {E} i v (img buf : list A) :
  i = blen img → i < blen buf →
  buf_set (E:=E) i v (overlay img buf) = (Ok tt, overlay (img ++ [v]) buf).
Proof.
  intros -> Hlt. unfold buf_set. pose proof (blen_nonneg img).
  rewrite blen_overlay by lia.
  replace (_ && _)%bool with true by lia. f_equal. unfold overlay, blen in *.
  rewrite Nat2Z.id, insert_app_r_alt, Nat.sub_diag by lia.
  rewrite <-app_assoc. f_equal. rewrite length_app. simpl.
  rewrite <-drop_drop. destruct (drop (length img) buf) eqn:Hd; [|done].
  apply (f_equal length) in Hd. rewrite length_drop in Hd. simpl in Hd. lia.
Qed.
End Lists.

Section Bytes.
Implicit Types (l k : bytes) (a b x : Z).

Lemma bytes_ok_nil : bytes_ok [].
Proof. constructor. Qed.
Lemma bytes_ok_cons a l : bytes_ok (a :: l) ↔ is_u8 a ∧ bytes_ok l.
Proof. unfold bytes_ok. by rewrite Forall_cons. Qed.
Lemma bytes_ok_app l k : bytes_ok (l ++ k) ↔ bytes_ok l ∧ bytes_ok k.
Proof. unfold bytes_ok. by rewrite Forall_app. Qed.
Lemma bytes_ok_drop n l : bytes_ok l → bytes_ok (drop n l).
Proof. apply Forall_drop. Qed.
Lemma bytes_ok_take n l : bytes_ok l → bytes_ok (take n l).
Proof. apply Forall_take. Qed.
Lemma get_byte_ok l i a : bytes_ok l → get l i = Some a → is_u8 a.
Proof.
  unfold get. intros Hl. destruct (0 <=? i); [|done].
  intros Ha. apply (Forall_lookup_1 _ _ _ _ Hl Ha).
Qed.

Lemma from_be_bytes_u16 a b : is_u8 a → is_u8 b → is_u16 (from_be_bytes a b).
Proof. unfold from_be_bytes. lia. Qed.
Lemma from_to_be_bytes x :
  is_u16 x → from_be_bytes (x / 256 mod 256) (x mod 256) = x.
Proof.
  intros. unfold from_be_bytes. rewrite (Z.mod_small (x / 256)).
  - rewrite (Z.div_mod x 256) at 3; lia.
  - split; [apply Z.div_pos; lia|apply Z.div_lt_upper_bound; lia].
Qed.
Lemma from_be_bytes_hi a b : is_u8 a → is_u8 b → from_be_bytes a b / 256 mod 256 = a.
Proof.
  intros Ha Hb. unfold from_be_bytes.
  by rewrite Z.div_add_l, (Z.div_small b), Z.add_0_r, (Z.mod_small a) by lia.
Qed.
Lemma from_be_bytes_lo a b : is_u8 b → from_be_bytes a b mod 256 = b.
Proof.
  intros Hb. unfold from_be_bytes. by rewrite Z.add_comm, Z.mod_add, Z.mod_small by lia.
Qed.
Lemma to_from_be_bytes a b :
  is_u8 a → is_u8 b → to_be_bytes (from_be_bytes a b) = [a; b].
Proof.
  intros. unfold to_be_bytes. by rewrite from_be_bytes_hi, from_be_bytes_lo.
Qed.
Lemma blen_to_be_bytes x : blen (to_be_bytes x) = 2.
Proof. done. Qed.
Lemma blen_to_le_bytes x : blen (to_le_bytes x) = 2.
Proof. done. Qed.
Lemma to_be_bytes_ok x : bytes_ok (to_be_bytes x).
Proof.
  unfold to_be_bytes. repeat constructor; apply Z.mod_pos_bound; lia.
Qed.
Lemma to_le_bytes_ok x : bytes_ok (to_le_bytes x).
Proof.
  unfold to_le_bytes. repeat constructor; apply Z.mod_pos_bound; lia.
Qed.
Lemma from_to_le_bytes x :
  is_u16 x → from_le_bytes (x mod 256) (x / 256 mod 256) = x.
Proof. apply from_to_be_bytes. Qed.
Lemma to_from_le_bytes a b :
  is_u8 a → is_u8 b → to_le_bytes (from_le_bytes a b) = [a; b].
Proof.
  intros. unfold to_le_bytes, from_le_bytes.
  change (b * 256 + a) with (from_be_bytes b a).
  by rewrite from_be_bytes_hi, from_be_bytes_lo.
Qed.
Lemma from_be_bytes_inj a b a' b' : is_u8 a → is_u8 b → is_u8 a' → is_u8 b' →
  from_be_bytes a b = from_be_bytes a' b' → a = a' ∧ b = b'.
Proof. unfold from_be_bytes. lia. Qed.
Lemma be16_at_cons_0 {E} a b l : be16_at (E:=E) (a :: b :: l) 0 1 = Ok (from_be_bytes a b).
Proof. done. Qed.
End Bytes.

(** A [consume] loop accepts exactly the sequences of the groups its body
    recognises, and always ends. *)
Section Consume.
Context {E : Type} (step : bytes → res E Z) (P : bytes → Prop).
Context (step_spec : ∀ l n, bytes_ok l → l ≠ [] →
  step l = Ok n ↔ ∃ g rest, l = g ++ rest ∧ P g ∧ n = blen g).
Context (group_pos : ∀ g, P g → 0 < blen g).
Context (step_returns : ∀ l, bytes_ok l → l ≠ [] → returns (step l)).

Lemma consume_loop_Ok fuel l : bytes_ok l → (length l < fuel)%nat →
  consume_loop step fuel l = Ok tt ↔ groups P l.
Proof.
  revert l. induction fuel as [|fuel IH]; intros l Hl Hf; [lia|]. simpl.
  destruct l as [|a l0]; [split; [exists []; by split|done]|].
  rewrite is_empty_cons. set (l := a :: l0) in *.
  assert (l ≠ []) as Hne by done. clearbody l. rewrite rbind_Ok. split.
  - intros (n & Hs & Hk). apply step_spec in Hs as (g & rest & -> & HP & ->); try done.
    pose proof (group_pos g HP).
    rewrite slice_from_Ok in Hk by (rewrite blen_app; pose proof (blen_nonneg rest); lia).
    simpl in Hk. unfold blen in Hk. rewrite Nat2Z.id, drop_app_length in Hk.
    apply bytes_ok_app in Hl as [? ?]. rewrite length_app in Hf.
    apply IH in Hk as (gs & -> & Hgs); [|done|unfold blen in *; lia].
    exists (g :: gs). split; [done|by constructor].
  - intros (gs & Hc & Hgs). destruct gs as [|g gs]; [done|]. simpl in Hc. inv Hgs.
    apply bytes_ok_app in Hl as [? ?]. assert (0 < blen g) by auto. exists (blen g). split.
    + apply step_spec; [by apply bytes_ok_app|done|by exists g, (concat gs)].
    + rewrite slice_from_Ok by (rewrite blen_app; pose proof (blen_nonneg (concat gs)); lia).
      simpl. unfold blen. rewrite Nat2Z.id, drop_app_length.
      rewrite length_app in Hf. apply IH; [done|unfold blen in *; lia|by exists gs].
Qed.
Lemma consume_Ok l : bytes_ok l → consume step l = Ok tt ↔ groups P l.
Proof. intros. apply consume_loop_Ok; [done|lia]. Qed.
Lemma consume_loop_returns fuel l :
  bytes_ok l → (length l < fuel)%nat → returns (consume_loop step fuel l).
Proof.
  revert l. induction fuel as [|fuel IH]; intros l Hl Hf; [lia|]. simpl.
  destruct l as [|a l0]; [done|]. rewrite is_empty_cons. set (l := a :: l0) in *.
  assert (l ≠ []) as Hne by done. clearbody l.
  apply rbind_returns; [by apply step_returns|]. intros n Hn.
  apply step_spec in Hn as (g & rest & -> & HP & ->); try done. pose proof (group_pos g HP).
  rewrite slice_from_Ok by (rewrite blen_app; pose proof (blen_nonneg rest); lia). simpl.
  unfold blen in *. rewrite Nat2Z.id, drop_app_length. rewrite length_app in Hf.
  apply bytes_ok_app in Hl as [_ ?]. apply IH; [done|lia].
Qed.
Lemma consume_returns l : bytes_ok l → returns (consume step l).
Proof. intros. apply consume_loop_returns; [done|lia]. Qed.
End Consume.

#[export] Hint Rewrite from_to_be_bytes from_be_bytes_hi from_be_bytes_lo
  from_to_le_bytes using (first [assumption | lia]) : be16.
#[export] Hint Rewrite @blen_nil @blen_cons @blen_app @blen_replicate
  blen_to_be_bytes blen_to_le_bytes : blen.
#[export] Hint Resolve for_each_returns : modbus.
#[export] Hint Resolve bytes_ok_nil to_be_bytes_ok to_le_bytes_ok bytes_ok_drop
  bytes_ok_take from_be_bytes_u16 : modbus.

(** A decidable property of every byte is checked by evaluation. *)
Definition u8_all (P : Z → bool) : bool := forallb P (Z.of_nat <$> seq 0 256).

Lemma u8_all_spec (P : Z → bool) : u8_all P = true → ∀ b, is_u8 b → P b = true.
Proof.
  unfold u8_all. rewrite forallb_forall. intros HP b Hb. apply HP.
  apply list_elem_of_In, list_elem_of_fmap. exists (Z.to_nat b).
  split; [lia|]. apply elem_of_seq. lia.
Qed.
