(* ===== verification/Text.v ===== *)
(** * Strings

    The parts of the standard library's [str], [char] and integer parsing and
    printing that the command line tool uses. A string is the list of its
    characters, each the code point of a Unicode scalar value. *)
From stdpp Require Import strings.
From S2P Require Import Prelude.
#[local] Open Scope Z_scope.

Abbreviation text := (list Z).
(** A literal of ASCII characters *)
Definition chars (s : string) : text := map (λ c, Z.of_N (Ascii.N_of_ascii c)) (String.list_ascii_of_string s).

(** [char::len_utf8] and [str::len], which counts bytes *)
Definition len_utf8 (c : Z) : Z := if c <? 0x80 then 1 else if c <? 0x800 then 2 else if c <? 0x10000 then 3 else 4.
Definition str_len (s : text) : Z := foldr (λ c n, len_utf8 c + n) 0 s.

(** [char::is_whitespace]: the property White_Space *)
Definition is_whitespace (c : Z) : bool :=
  ((0x09 <=? c) && (c <=? 0x0D)) || (c =? 0x20) || (c =? 0x85) || (c =? 0xA0) || (c =? 0x1680)
  || ((0x2000 <=? c) && (c <=? 0x200A)) || (c =? 0x2028) || (c =? 0x2029) || (c =? 0x202F) || (c =? 0x205F) || (c =? 0x3000).

(** [str::split_whitespace]: the runs of other characters; [word] is the run read so far *)
Definition flush (word : text) : list text := match word with [] => [] | _ => [word] end.
Fixpoint split_words (word s : text) : list text :=
  match s with
  | [] => flush word
  | c :: s => if is_whitespace c then flush word ++ split_words [] s else split_words (word ++ [c]) s
  end.
Definition split_whitespace (s : text) : list text := split_words [] s.

(** [str::trim] *)
Fixpoint trim_start (s : text) : text :=
  match s with
  | [] => []
  | c :: s' => if is_whitespace c then trim_start s' else s
  end.
Definition trim (s : text) : text := reverse (trim_start (reverse (trim_start s))).

(** [str::strip_prefix] and [str::starts_with] *)
Fixpoint strip_prefix (p s : text) : option text :=
  match p, s with
  | [], _ => Some s
  | x :: p, y :: s => if x =? y then strip_prefix p s else None
  | _ :: _, [] => None
  end.
Definition starts_with (p s : text) : bool := match strip_prefix p s with Some _ => true | None => false end.

(** [slice.join(sep)] *)
Fixpoint join (sep : text) (l : list text) : text :=
  match l with
  | [] => []
  | [s] => s
  | s :: l => s ++ sep ++ join sep l
  end.

(** [str::contains] of a character *)
Definition contains (c : Z) (s : text) : bool := existsb (Z.eqb c) s.
(** [str::splitn(2, c)] of a string that contains [c]: before and after the first one *)
Fixpoint split_once (c : Z) (s : text) : option (text * text) :=
  match s with
  | [] => None
  | x :: s => if x =? c then Some ([], s)
              else match split_once c s with Some (a, b) => Some (x :: a, b) | None => None end
  end.
Definition splitn_2 (c : Z) (s : text) : list text :=
  match split_once c s with Some (a, b) => [a; b] | None => [s] end.

(** [str::rsplit_once]: before and after the last one *)
Definition rsplit_once (c : Z) (s : text) : option (text * text) :=
  match split_once c (reverse s) with Some (a, b) => Some (reverse b, reverse a) | None => None end.

(** [str::to_ascii_lowercase] *)
Definition to_ascii_lowercase (s : text) : text := map (λ c, if (65 <=? c) && (c <=? 90) then c + 32 else c) s.

(** ** Integers as text *)
Module ParseIntError.
Inductive t : Type := Empty | InvalidDigit | PosOverflow.
Definition fmt (e : t) : text :=
  match e with
  | Empty => chars "cannot parse integer from empty string"
  | InvalidDigit => chars "invalid digit found in string"
  | PosOverflow => chars "number too large to fit in target type"
  end.
End ParseIntError.

(** [char::to_digit] for a radix up to 16 *)
Definition to_digit (radix c : Z) : option Z :=
  let d := if (48 <=? c) && (c <=? 57) then c - 48
           else if (97 <=? c) && (c <=? 102) then c - 87
           else if (65 <=? c) && (c <=? 70) then c - 55 else 16 in
  if d <? radix then Some d else None.

(** [from_str_radix] of an unsigned type with the maximum [max] *)
Fixpoint digits_loop (radix max result : Z) (s : text) : res ParseIntError.t Z :=
  match s with
  | [] => Ok result
  | c :: s =>
      match to_digit radix c with
      | None => Err ParseIntError.InvalidDigit
      | Some x =>
          if max <? result * radix then Err ParseIntError.PosOverflow else
          if max <? result * radix + x then Err ParseIntError.PosOverflow else
          digits_loop radix max (result * radix + x) s
      end
  end.
Definition PLUS : Z := 43.
Definition MINUS : Z := 45.
Definition from_str_radix (radix max : Z) (s : text) : res ParseIntError.t Z :=
  match s with
  | [] => Err ParseIntError.Empty
  | [c] => if (c =? PLUS) || (c =? MINUS) then Err ParseIntError.InvalidDigit else digits_loop radix max 0 s
  | c :: digits => digits_loop radix max 0 (if c =? PLUS then digits else s)
  end.
(** [str::parse] of an unsigned integer *)
Definition parse_uint (max : Z) (s : text) : res ParseIntError.t Z := from_str_radix 10 max s.

(** Digits of a number, most significant first; a number below [radix ^ fuel] needs [fuel] digits at most. *)
Definition digit_char (d : Z) : Z := if d <? 10 then 48 + d else 55 + d.
Fixpoint to_digits (fuel : nat) (radix n : Z) : text :=
  match fuel with
  | O => []
  | S fuel => (if n <? radix then [] else to_digits fuel radix (n / radix)) ++ [digit_char (n mod radix)]
  end.
(** [to_string] of an unsigned integer up to 64 bits *)
Definition to_string (n : Z) : text := to_digits 20 10 n.

(** Padding of formatted values: [{:>w}], and [{:#06X}] of a [u16] *)
Definition pad_left (fill : Z) (width : Z) (s : text) : text := replicate (Z.to_nat (width - blen s)) fill ++ s.
Definition right_aligned (width : Z) (s : text) : text := pad_left 32 width s.
Definition hex_06 (n : Z) : text := chars "0x" ++ pad_left 48 4 (to_digits 16 16 n).

(** * Specifications *)

Definition blank (s : text) : Prop := Forall (λ c, is_whitespace c = true) s.
Definition word (w : text) : Prop := w ≠ [] ∧ Forall (λ c, is_whitespace c = false) w.
(** What may follow a word: nothing, or something that starts with a blank *)
Definition word_ends (s : text) : Prop := match s with [] => True | c :: _ => is_whitespace c = true end.

(** [laid_out s ws]: the line [s] is the words [ws], with blanks around and between them *)
Inductive laid_out : text → list text → Prop :=
  | laid_blank p : blank p → laid_out p []
  | laid_word p w s ws : blank p → word w → word_ends s → laid_out s ws → laid_out (p ++ w ++ s) (w :: ws).

(** The number the digits [ds] stand for *)
Fixpoint positional (radix : Z) (ds : list Z) : Z :=
  match ds with
  | [] => 0
  | d :: ds => d * radix ^ blen ds + positional radix ds
  end.
(** A non-empty sequence of digits, after a plus sign if there is one *)
Definition numeral (radix : Z) (s : text) (n : Z) : Prop :=
  ∃ body ds, (s = body ∨ s = PLUS :: body) ∧ body ≠ [] ∧ Forall2 (λ c d, to_digit radix c = Some d) body ds ∧ n = positional radix ds.

(** * Lemmas *)

Section Words.

Lemma split_words_blank w p s : blank p → split_words w (p ++ s) = match p with [] => split_words w s | _ => flush w ++ split_words [] s end.
Proof.
  intros Hp. revert w. induction Hp as [|c p Hc Hp IH]; intros w; [done|].
  cbn [app split_words]. rewrite Hc, IH. by destruct p.
Qed.
Lemma split_words_word w v s : Forall (λ c, is_whitespace c = false) v → split_words w (v ++ s) = split_words (w ++ v) s.
Proof.
  intros Hv. revert w. induction Hv as [|c v Hc Hv IH]; intros w; [by rewrite app_nil_r|].
  cbn [app split_words]. by rewrite Hc, IH, <-app_assoc.
Qed.
Lemma split_laid_out s ws : laid_out s ws → split_whitespace s = ws.
Proof.
  unfold split_whitespace. induction 1 as [p Hp|p w s ws Hp [Hne Hw] Hs _ IH].
  - rewrite <-(app_nil_r p), split_words_blank by done. by destruct p.
  - rewrite split_words_blank by done. cbn [flush app].
    assert (split_words [] (w ++ s) = w :: ws) as Hgoal; [|by destruct p].
    rewrite split_words_word by done. destruct s as [|c s]; [cbn in *; subst ws; by destruct w|].
    cbn in Hs, IH |- *. rewrite Hs in *. cbn in IH. rewrite IH. by destruct w.
Qed.
Lemma laid_out_blanks p s ws : blank p → laid_out s ws → laid_out (p ++ s) ws.
Proof.
  intros Hp [p' Hp'|p' w s' ws' Hp' Hw Hs' Hl].
  - constructor. by apply Forall_app.
  - rewrite app_assoc. constructor; try done. by apply Forall_app.
Qed.
Lemma laid_out_split_words w s : Forall (λ c, is_whitespace c = false) w → laid_out (w ++ s) (split_words w s).
Proof.
  revert w. induction s as [|c s IH]; intros w Hw.
  - destruct w as [|c w]; [constructor; constructor|]. cbn [split_words flush].
    apply (laid_word [] (c :: w) [] []); [constructor|by split|done|repeat constructor].
  - cbn [split_words]. destruct (is_whitespace c) eqn:Hc.
    + assert (laid_out (c :: s) (split_words [] s)) as Hrest.
      { apply (laid_out_blanks [c]); [by repeat constructor|]. by apply (IH []). }
      destruct w as [|x w]; [done|]. apply (laid_word [] (x :: w) (c :: s)); [constructor|by split|done|done].
    + specialize (IH (w ++ [c])). rewrite <-app_assoc in IH. apply IH. apply Forall_app. by repeat constructor.
Qed.
Lemma split_whitespace_exact s ws : split_whitespace s = ws ↔ laid_out s ws.
Proof. split; [intros <-; by apply (laid_out_split_words [])|apply split_laid_out]. Qed.
Lemma split_words_trailing w s q : blank q → split_words w (s ++ q) = split_words w s.
Proof.
  intros Hq. revert w. induction s as [|c s IH]; intros w; cbn [app split_words]; [|by rewrite !IH].
  rewrite <-(app_nil_r q), split_words_blank by done. destruct q; [done|]. apply app_nil_r.
Qed.
(** Trimming a line takes nothing from its words. *)
Lemma trim_start_split s : ∃ p, blank p ∧ s = p ++ trim_start s.
Proof.
  induction s as [|c s (p & Hp & Hs)]; [exists []; by split; [constructor|]|]. cbn. destruct (is_whitespace c) eqn:Hc; [|exists []; by split; [constructor|]].
  exists (c :: p). split; [by constructor|]. cbn. by rewrite <-Hs.
Qed.
Lemma split_whitespace_trim s : split_whitespace (trim s) = split_whitespace s.
Proof.
  unfold trim. destruct (trim_start_split s) as (p & Hp & Hs). destruct (trim_start_split (reverse (trim_start s))) as (q & Hq & Hr).
  assert (trim_start s = reverse (trim_start (reverse (trim_start s))) ++ reverse q) as Ht by (by rewrite <-reverse_app, <-Hr, reverse_involutive).
  assert (split_whitespace s = split_whitespace (trim_start s)) as ->.
  { unfold split_whitespace. rewrite Hs at 1. rewrite split_words_blank by done. by destruct p. }
  set (u := trim_start s) in *. rewrite Ht at 2. unfold split_whitespace. rewrite split_words_trailing; [done|]. unfold blank. by rewrite Forall_reverse.
Qed.
Lemma trim_start_empty s : trim_start s = [] ↔ blank s.
Proof.
  induction s as [|c s IH]; cbn; [by split; [constructor|]|]. destruct (is_whitespace c) eqn:Hc.
  - rewrite IH. split; [by constructor|]. by intros [_ ?]%Forall_cons.
  - split; [done|]. intros [? _]%Forall_cons. congruence.
Qed.
Lemma trim_empty s : trim s = [] ↔ split_whitespace s = [].
Proof.
  rewrite split_whitespace_exact. split.
  - intros Ht. apply split_whitespace_exact. by rewrite <-split_whitespace_trim, Ht.
  - inversion 1 as [p Hp|]; subst. apply trim_start_empty in Hp. unfold trim. by rewrite Hp.
Qed.
Lemma laid_out_words s ws : laid_out s ws → Forall word ws.
Proof. induction 1; by constructor. Qed.

End Words.

Section Strings.

Lemma strip_prefix_Some p s r : strip_prefix p s = Some r ↔ s = p ++ r.
Proof.
  revert s. induction p as [|x p IH]; intros [|y s]; cbn; try naive_solver.
  destruct (Z.eqb_spec x y) as [->|]; [rewrite IH|]; naive_solver.
Qed.
Lemma starts_with_prefix p s : starts_with p s = true ↔ p `prefix_of` s.
Proof.
  unfold starts_with. destruct (strip_prefix p s) as [r|] eqn:Hr.
  - apply strip_prefix_Some in Hr as ->. split; [|done]. intros _. by exists r.
  - split; [done|]. intros [r Hs]. apply strip_prefix_Some in Hs. congruence.
Qed.
Lemma strip_prefix_None p s : strip_prefix p s = None ↔ ¬ p `prefix_of` s.
Proof. rewrite <-starts_with_prefix. unfold starts_with. destruct (strip_prefix p s); naive_solver. Qed.

Lemma len_utf8_pos c : 1 ≤ len_utf8 c.
Proof. unfold len_utf8. repeat case_match; lia. Qed.
Lemma str_len_app s t : str_len (s ++ t) = str_len s + str_len t.
Proof. induction s as [|c s IH]; [done|]. unfold str_len in *. cbn. lia. Qed.
Lemma str_len_pos s : 0 ≤ str_len s ∧ (s ≠ [] → 0 < str_len s).
Proof. induction s as [|c s [IH _]]; [done|]. pose proof (len_utf8_pos c). unfold str_len in *. cbn. split; [|intros _]; lia. Qed.
(** A proper extension of a string is longer, in bytes as in characters. *)
Lemma str_len_extends p s : p `prefix_of` s → (str_len p <? str_len s) = negb (bool_decide (p = s)).
Proof.
  intros [r ->]. rewrite str_len_app. pose proof (str_len_pos r) as [Hr Hpos]. destruct r as [|c r].
  - rewrite app_nil_r. rewrite bool_decide_eq_true_2 by done. cbn. lia.
  - rewrite bool_decide_eq_false_2; [specialize (Hpos ltac:(done)); cbn [negb]; lia|].
    intros Heq. apply (f_equal length) in Heq. rewrite length_app in Heq. cbn in Heq. lia.
Qed.

Lemma contains_elem c s : contains c s = true ↔ c ∈ s.
Proof.
  induction s as [|x s IH]; cbn; [set_solver|]. rewrite orb_true_iff, Z.eqb_eq, elem_of_cons. unfold contains in IH. by rewrite IH.
Qed.
Lemma split_once_None c s : split_once c s = None ↔ c ∉ s.
Proof.
  induction s as [|x s IH]; cbn; [set_solver|]. rewrite not_elem_of_cons. destruct (Z.eqb_spec x c) as [->|Hx]; [naive_solver|].
  destruct (split_once c s) as [[]|]; naive_solver.
Qed.
Lemma split_once_first c a b : c ∉ a → split_once c (a ++ c :: b) = Some (a, b).
Proof.
  induction a as [|x a IH]; cbn; [by rewrite Z.eqb_refl|]. rewrite not_elem_of_cons. intros [Hx Ha].
  by destruct (Z.eqb_spec x c) as [->|]; [|rewrite IH].
Qed.
Lemma split_once_Some c s a b : split_once c s = Some (a, b) ↔ s = a ++ c :: b ∧ c ∉ a.
Proof.
  split; [|intros [-> Ha]; by apply split_once_first]. revert a. induction s as [|x s IH]; intros a; cbn; [done|].
  destruct (Z.eqb_spec x c) as [->|Hx]; [intros [= <- <-]; set_solver|].
  destruct (split_once c s) as [[a' b']|]; [|done]. intros [= <- <-]. destruct (IH a') as [-> Ha]; [done|].
  split; [done|]. by apply not_elem_of_cons.
Qed.

Lemma rsplit_once_Some c s a b : rsplit_once c s = Some (a, b) ↔ s = a ++ c :: b ∧ c ∉ b.
Proof.
  assert (∀ x y, split_once c (reverse s) = Some (x, y) ↔ s = reverse y ++ c :: reverse x ∧ c ∉ x) as Hs.
  { intros x y. rewrite split_once_Some. split; intros [Heq Hc]; split; try done.
    - rewrite <-(reverse_involutive s), Heq, reverse_app, reverse_cons, <-app_assoc. done.
    - rewrite Heq, reverse_app, reverse_cons, !reverse_involutive, <-app_assoc. done. }
  unfold rsplit_once. split.
  - destruct (split_once c (reverse s)) as [[x y]|] eqn:Hx; [|done]. intros [= <- <-]. destruct (proj1 (Hs x y) eq_refl) as [-> Hc]. split; [done|]. by rewrite elem_of_reverse.
  - intros [Heq Hc]. assert (split_once c (reverse s) = Some (reverse b, reverse a)) as ->; [|by rewrite !reverse_involutive].
    apply Hs. rewrite !reverse_involutive, elem_of_reverse. done.
Qed.

(** Words joined by a space are laid out that way. *)
Lemma laid_out_join ws : Forall word ws → laid_out (join [32] ws) ws.
Proof.
  induction 1 as [|w ws Hw Hws IH]; [do 2 constructor|]. destruct ws as [|w' ws].
  - cbn [join]. rewrite <-(app_nil_r w) at 1. apply (laid_word [] w [] []); [constructor|done|done|do 2 constructor].
  - change (join [32] (w :: w' :: ws)) with (w ++ [32] ++ join [32] (w' :: ws)).
    apply (laid_word [] w); [constructor|done|done|]. apply laid_out_blanks; [by repeat constructor|done].
Qed.

End Strings.

Section Numbers.
Context (radix : Z) (Hradix : 2 ≤ radix ≤ 16).
Implicit Types (s : text) (ds : list Z).
Abbreviation digits := (Forall2 (λ c d, to_digit radix c = Some d)).

Lemma to_digit_range c d : to_digit radix c = Some d → 0 ≤ d < radix.
Proof using Hradix. unfold to_digit. intros. repeat case_match; simplify_eq; lia. Qed.
Lemma to_digit_plus : to_digit radix PLUS = None ∧ to_digit radix MINUS = None.
Proof using Hradix. unfold to_digit, PLUS, MINUS. cbn. destruct (Z.ltb_spec 16 radix); [lia|done]. Qed.
Lemma digit_char_digit d : 0 ≤ d < radix → to_digit radix (digit_char d) = Some d.
Proof using Hradix. unfold to_digit, digit_char. intros. repeat case_match; try lia; f_equal; lia. Qed.

Lemma positional_nonneg s ds : digits s ds → 0 ≤ positional radix ds.
Proof using Hradix.
  induction 1 as [|c d s ds Hd _ IH]; cbn; [done|]. apply to_digit_range in Hd. pose proof (Z.pow_nonneg radix (blen ds)). nia.
Qed.
Lemma positional_snoc ds d : positional radix (ds ++ [d]) = positional radix ds * radix + d.
Proof using Hradix.
  induction ds as [|x ds IH]; [cbn [positional app]; change (blen []) with 0; lia|]. cbn [positional app]. rewrite IH. unfold blen. rewrite length_app. cbn [length].
  rewrite Nat2Z.inj_add, Z.pow_add_r by lia. change (radix ^ Z.of_nat 1) with (radix * 1). lia.
Qed.
Lemma digits_loop_spec max r s : 0 ≤ r ≤ max →
  match digits_loop radix max r s with
  | Ok n => n ≤ max ∧ ∃ ds, digits s ds ∧ n = r * radix ^ blen ds + positional radix ds
  | Err ParseIntError.PosOverflow => ∃ s1 s2 ds, s = s1 ++ s2 ∧ digits s1 ds ∧ max < r * radix ^ blen ds + positional radix ds
  | Err ParseIntError.InvalidDigit => ∃ s1 c s2, s = s1 ++ c :: s2 ∧ to_digit radix c = None
  | _ => False
  end.
Proof using Hradix.
  revert r. induction s as [|c s IH]; intros r Hr; cbn [digits_loop].
  - split; [lia|]. exists []. split; [constructor|]. cbn [positional]. change (blen []) with 0. lia.
  - destruct (to_digit radix c) as [x|] eqn:Hx; [|by exists [], c, s]. pose proof (to_digit_range _ _ Hx).
    assert (∀ ds, (r * radix + x) * radix ^ blen ds + positional radix ds = r * radix ^ blen (x :: ds) + positional radix (x :: ds)) as Hstep.
    { intros ds. cbn [positional]. unfold blen. cbn [length]. rewrite Nat2Z.inj_succ, Z.pow_succ_r by lia. lia. }
    assert (max < r * radix + x → ∃ s1 s2 ds, c :: s = s1 ++ s2 ∧ digits s1 ds ∧ max < r * radix ^ blen ds + positional radix ds) as Hover.
    { intros ?. exists [c], s, [x]. split_and!; [done|by repeat constructor|]. rewrite <-(Hstep []). cbn [positional]. change (blen []) with 0. lia. }
    destruct (Z.ltb_spec max (r * radix)); [apply Hover; lia|]. destruct (Z.ltb_spec max (r * radix + x)); [by apply Hover|].
    specialize (IH (r * radix + x) ltac:(nia)). destruct (digits_loop radix max (r * radix + x) s) as [n|[]| |]; try done.
    + destruct IH as [Hn (ds & Hds & ->)]. split; [done|]. exists (x :: ds). split; [by constructor|]. apply Hstep.
    + destruct IH as (s1 & c' & s2 & -> & Hc'). by exists (c :: s1), c', s2.
    + destruct IH as (s1 & s2 & ds & -> & Hds & Hlt). exists (c :: s1), s2, (x :: ds). rewrite <-Hstep. by split_and!; [|constructor|].
Qed.
Lemma digits_loop_returns max r s : 0 ≤ r ≤ max → returns (digits_loop radix max r s).
Proof using Hradix. intros Hr. pose proof (digits_loop_spec max r s Hr). by destruct (digits_loop radix max r s) as [n|[]| |]. Qed.
Lemma digits_functional s ds1 ds2 : digits s ds1 → digits s ds2 → ds1 = ds2.
Proof using. intros H1. revert ds2. induction H1; inversion 1; subst; f_equal; [congruence|auto]. Qed.
Lemma digits_loop_Ok max s ds : 0 ≤ max → digits s ds → positional radix ds ≤ max → digits_loop radix max 0 s = Ok (positional radix ds).
Proof using Hradix.
  intros Hmax Hds Hle. pose proof (digits_loop_spec max 0 s ltac:(lia)) as Hspec. destruct (digits_loop radix max 0 s) as [n|[]| |]; try done.
  - destruct Hspec as [_ (ds' & Hds' & ->)]. rewrite (digits_functional _ _ _ Hds Hds'). f_equal; lia.
  - destruct Hspec as (s1 & c & s2 & -> & Hc). apply Forall2_app_inv_l in Hds as (l1 & l2 & _ & Hl2 & _). inversion Hl2. congruence.
  - destruct Hspec as (s1 & s2 & ds1 & -> & Hds1 & Hlt). apply Forall2_app_inv_l in Hds as (l1 & l2 & Hl1 & Hl2 & ->).
    rewrite (digits_functional _ _ _ Hds1 Hl1) in Hlt. exfalso.
    assert (positional radix (l1 ++ l2) = positional radix l1 * radix ^ blen l2 + positional radix l2) as Happ.
    { clear. induction l1 as [|x l1 IH]; [done|]. cbn [app positional]. rewrite IH. unfold blen. rewrite length_app, Nat2Z.inj_add, Z.pow_add_r by lia. lia. }
    pose proof (positional_nonneg _ _ Hl1). pose proof (positional_nonneg _ _ Hl2). assert (0 < radix ^ blen l2) by (apply Z.pow_pos_nonneg; unfold blen; lia). nia.
Qed.

(** Parsing an integer succeeds exactly on the numerals in range. *)
Lemma from_str_radix_Ok max s n : 0 ≤ max → from_str_radix radix max s = Ok n ↔ numeral radix s n ∧ n ≤ max.
Proof using Hradix.
  intros Hmax. destruct to_digit_plus as [Hplus Hminus].
  assert (∀ s, s ≠ [] → digits_loop radix max 0 s = Ok n ↔ n ≤ max ∧ ∃ ds, digits s ds ∧ n = positional radix ds) as Hloop.
  { intros s' _. split; [|intros [Hn (ds & Hds & ->)]; by apply digits_loop_Ok]. intros Heq.
    pose proof (digits_loop_spec max 0 s' ltac:(lia)) as Hspec. rewrite Heq in Hspec. naive_solver lia. }
  assert (∀ b, numeral radix (PLUS :: b) n ↔ b ≠ [] ∧ ∃ ds, digits b ds ∧ n = positional radix ds) as Hsigned.
  { intros b. split; [|intros [Hb (ds & Hds & ->)]; exists b, ds; naive_solver].
    intros (body & ds & [<-|[= <-]] & Hne & Hds & ->); [|by eauto]. inversion Hds. congruence. }
  assert (∀ c b, c ≠ PLUS → numeral radix (c :: b) n ↔ ∃ ds, digits (c :: b) ds ∧ n = positional radix ds) as Hplain.
  { intros c b Hc. split; [|intros (ds & Hds & ->); by exists (c :: b), ds; split_and!; [left|..]].
    intros (body & ds & [<-|[= ? _]] & Hne & Hds & ->); [by eauto|done]. }
  destruct s as [|c [|c' s]]; cbn [from_str_radix].
  - split; [done|]. intros [(body & ds & [<-|?] & ? & _) _]; done.
  - destruct (Z.eqb_spec c PLUS) as [->|Hc]; [rewrite Hsigned; naive_solver|]. rewrite Hplain by done.
    destruct (Z.eqb_spec c MINUS) as [->|Hm]; cbn [orb]; [|rewrite Hloop by done; naive_solver].
    split; [done|]. intros [(ds & Hds & _) _]. inversion Hds. congruence.
  - destruct (Z.eqb_spec c PLUS) as [->|Hc]; [rewrite Hsigned|rewrite Hplain by done]; rewrite Hloop by done; naive_solver.
Qed.
Lemma from_str_radix_returns max s : 0 ≤ max → returns (from_str_radix radix max s).
Proof using Hradix. intros. unfold from_str_radix. repeat case_match; try done; apply digits_loop_returns; lia. Qed.

(** Printed numbers are numerals. *)
Lemma to_digits_digits fuel n : 0 ≤ n < radix ^ Z.of_nat fuel → ∃ ds, digits (to_digits fuel radix n) ds ∧ positional radix ds = n.
Proof using Hradix.
  revert n. induction fuel as [|fuel IH]; intros n Hn; [exists []; split; [constructor|cbn in *; lia]|].
  rewrite Nat2Z.inj_succ, Z.pow_succ_r in Hn by lia. pose proof (Z.mod_pos_bound n radix ltac:(lia)). pose proof (Z.div_mod n radix ltac:(lia)).
  assert (digits [digit_char (n mod radix)] [n mod radix]) as Hlast by (repeat constructor; by apply digit_char_digit).
  cbn [to_digits]. destruct (Z.ltb_spec n radix).
  - exists [n mod radix]. split; [done|]. rewrite <-(app_nil_l [n mod radix]), positional_snoc. cbn. rewrite Z.mod_small; lia.
  - destruct (IH (n / radix)) as (ds & Hds & Heq); [split; [apply Z.div_pos; lia|apply Z.div_lt_upper_bound; lia]|].
    exists (ds ++ [n mod radix]). split; [by apply Forall2_app|]. rewrite positional_snoc. lia.
Qed.
Lemma to_digits_nonempty fuel n : (0 < fuel)%nat → to_digits fuel radix n ≠ [].
Proof using. destruct fuel; [lia|]. intros _. cbn. by destruct (if n <? radix then [] else to_digits fuel radix (n / radix)). Qed.
Lemma digits_zeros k s ds : digits s ds → digits (replicate k 48 ++ s) (replicate k 0 ++ ds) ∧ positional radix (replicate k 0 ++ ds) = positional radix ds.
Proof using Hradix.
  intros Hds. induction k as [|k [IH1 IH2]]; [done|]. cbn. split; [|lia]. constructor; [|done].
  apply (digit_char_digit 0). lia.
Qed.
End Numbers.

Lemma word_digits radix s ds : 2 ≤ radix ≤ 16 → s ≠ [] → Forall2 (λ c d, to_digit radix c = Some d) s ds → word s.
Proof.
  intros Hr Hne Hds. split; [done|]. clear Hne. induction Hds as [|c d s ds Hd _ IH]; constructor; [|done].
  assert (48 ≤ c ≤ 102) by (unfold to_digit in Hd; repeat case_match; simplify_eq; lia). clear -H. unfold is_whitespace.
  repeat apply orb_false_intro; lia.
Qed.
Lemma to_string_numeral n : 0 ≤ n < 10 ^ 20 → numeral 10 (to_string n) n ∧ word (to_string n).
Proof.
  intros Hn. destruct (to_digits_digits 10 ltac:(lia) 20 n Hn) as (ds & Hds & <-). fold (to_string (positional 10 ds)) in Hds.
  assert (to_string (positional 10 ds) ≠ []) by (apply to_digits_nonempty; lia).
  split; [exists (to_string (positional 10 ds)), ds; split_and!; [by left|done..]|]. by apply (word_digits 10 _ ds ltac:(lia)).
Qed.
