(* ===== verification/ShellParser.v ===== *)
(** * The parser of the interactive shell (crates/rusty-modbus-cli: src/shell_parser.rs)

    Lines to commands, and the completion of partial lines. An error is its message. *)
From stdpp Require Import strings.
From S2P Require Import Prelude Text.
#[local] Open Scope Z_scope.

Definition COMMANDS : list text :=
  [chars "discover"; chars "exit"; chars "help"; chars "quit"; chars "read"; chars "set"; chars "status"; chars "write"].
Definition DISCOVER_KEYS : list text := [chars "units"].
Definition READ_TYPES : list text := [chars "coils"; chars "discrete-inputs"; chars "holding-registers"; chars "input-registers"].
Definition WRITE_TYPES : list text := [chars "coil"; chars "coils"; chars "register"; chars "registers"].
Definition SET_KEYS : list text := [chars "unit-id"].

Module ShellCommand.
Inductive t : Type :=
  | ReadCoils (address quantity : Z)
  | ReadDiscreteInputs (address quantity : Z)
  | ReadHoldingRegisters (address quantity : Z)
  | ReadInputRegisters (address quantity : Z)
  | WriteCoil (address : Z) (value : bool)
  | WriteCoils (address : Z) (values : list bool)
  | WriteRegister (address value : Z)
  | WriteRegisters (address : Z) (values : list Z)
  | DiscoverUnits (unit_id_range : text)
  | SetUnitId (id : Z)
  | Status
  | Help
  | Exit
  | Empty.
End ShellCommand.
Module ParseError.
Record t : Type := mk { message : text }.
End ParseError.

(** [.map_err(|e| ParseError(format!("invalid ... '{s}': {e}")))] *)
Definition invalid_number {A} (what s : text) (r : res ParseIntError.t A) : res ParseError.t A :=
  match r with
  | Ok a => Ok a
  | Err e => Err (ParseError.mk (what ++ chars " '" ++ s ++ chars "': " ++ ParseIntError.fmt e))
  | Panic => Panic
  | OutOfFuel => OutOfFuel
  end.
(** [s.strip_prefix("0x").or_else(|| s.strip_prefix("0X"))] *)
Definition strip_hex (s : text) : option text :=
  match strip_prefix (chars "0x") s with Some hex => Some hex | None => strip_prefix (chars "0X") s end.
Definition parse_u16 (s : text) : res ParseError.t Z :=
  match strip_hex s with
  | Some hex => invalid_number (chars "invalid hex value") s (from_str_radix 16 u16_max hex)
  | None => invalid_number (chars "invalid number") s (parse_uint u16_max s)
  end.
Definition parse_u8 (s : text) : res ParseError.t Z := invalid_number (chars "invalid number") s (parse_uint u8_max s).

Definition on_words : list text := [chars "on"; chars "true"; chars "1"].
Definition off_words : list text := [chars "off"; chars "false"; chars "0"].
Definition parse_bool (s : text) : res ParseError.t bool :=
  let lower := to_ascii_lowercase s in
  if decide (lower ∈ on_words) then Ok true
  else if decide (lower ∈ off_words) then Ok false
  else Err (ParseError.mk (chars "invalid coil value '" ++ lower ++ chars "'. Use: on/off, true/false, 1/0")).

(** [iter().map(f).collect::<Result<Vec<_>, _>>()] *)
Fixpoint try_collect {E A B} (f : A → res E B) (l : list A) : res E (list B) :=
  match l with
  | [] => Ok []
  | x :: l => let? y := f x in let? ys := try_collect f l in Ok (y :: ys)
  end.

Definition default_units : text := chars "1-247".
Definition parse_discover (tokens : list text) : res ParseError.t ShellCommand.t :=
  let usage := Err (ParseError.mk (chars "usage: discover units [unit-id-range]")) in
  match tokens with
  | [] => Ok (ShellCommand.DiscoverUnits default_units)
  | [key] => if decide (key = chars "units") then Ok (ShellCommand.DiscoverUnits default_units) else usage
  | [key; range] => if decide (key = chars "units") then Ok (ShellCommand.DiscoverUnits range) else usage
  | _ => usage
  end.

Definition parse_set (tokens : list text) : res ParseError.t ShellCommand.t :=
  if negb (bool_decide (head tokens = Some (chars "unit-id"))) || negb (blen tokens =? 2)
  then Err (ParseError.mk (chars "usage: set unit-id <id>")) else
  let? token := idx tokens 1 in
  let? id := parse_u8 token in
  Ok (ShellCommand.SetUnitId id).

Definition unknown_type (other : text) (use : string) : ParseError.t :=
  ParseError.mk (chars "unknown register type: '" ++ other ++ chars "'. Use: " ++ chars use).

Definition parse_read (tokens : list text) : res ParseError.t ShellCommand.t :=
  if negb (blen tokens =? 3) then Err (ParseError.mk (chars "usage: read <type> <address> <quantity>")) else
  let? token := idx tokens 1 in
  let? address := parse_u16 token in
  let? token := idx tokens 2 in
  let? quantity := parse_u16 token in
  let? kind := idx tokens 0 in
  if decide (kind = chars "coils") then Ok (ShellCommand.ReadCoils address quantity)
  else if decide (kind = chars "discrete-inputs") then Ok (ShellCommand.ReadDiscreteInputs address quantity)
  else if decide (kind = chars "holding-registers") then Ok (ShellCommand.ReadHoldingRegisters address quantity)
  else if decide (kind = chars "input-registers") then Ok (ShellCommand.ReadInputRegisters address quantity)
  else Err (unknown_type kind "coils, discrete-inputs, holding-registers, input-registers").

Definition parse_write (tokens : list text) : res ParseError.t ShellCommand.t :=
  if blen tokens <? 3 then Err (ParseError.mk (chars "usage: write <type> <address> <value(s)>")) else
  let? token := idx tokens 1 in
  let? address := parse_u16 token in
  let? kind := idx tokens 0 in
  if decide (kind = chars "coil") then
    if negb (blen tokens =? 3) then Err (ParseError.mk (chars "usage: write coil <address> <on|off>")) else
    let? token := idx tokens 2 in
    let? value := parse_bool token in
    Ok (ShellCommand.WriteCoil address value)
  else if decide (kind = chars "coils") then
    let? rest := slice_from tokens 2 in
    let? values := try_collect parse_bool rest in
    Ok (ShellCommand.WriteCoils address values)
  else if decide (kind = chars "register") then
    if negb (blen tokens =? 3) then Err (ParseError.mk (chars "usage: write register <address> <value>")) else
    let? token := idx tokens 2 in
    let? value := parse_u16 token in
    Ok (ShellCommand.WriteRegister address value)
  else if decide (kind = chars "registers") then
    let? rest := slice_from tokens 2 in
    let? values := try_collect parse_u16 rest in
    Ok (ShellCommand.WriteRegisters address values)
  else Err (unknown_type kind "coil, coils, register, registers").

Definition parse_command (line : text) : res ParseError.t ShellCommand.t :=
  let tokens := split_whitespace line in
  if is_empty tokens then Ok ShellCommand.Empty else
  let? first := idx tokens 0 in
  let? rest := slice_from tokens 1 in
  if decide (first = chars "help") then Ok ShellCommand.Help
  else if decide (first = chars "status") then Ok ShellCommand.Status
  else if decide (first = chars "exit") then Ok ShellCommand.Exit
  else if decide (first = chars "quit") then Ok ShellCommand.Exit
  else if decide (first = chars "discover") then parse_discover rest
  else if decide (first = chars "set") then parse_set rest
  else if decide (first = chars "read") then parse_read rest
  else if decide (first = chars "write") then parse_write rest
  else Err (ParseError.mk (chars "unknown command: '" ++ first ++ chars "'. Type 'help' for available commands")).

(** ** Completion *)

(** [while !candidate.starts_with(&prefix) { prefix.pop(); }]: the empty prefix fits, so
    one round per character and one more are enough. *)
Fixpoint shrink_loop {E} (fuel : nat) (candidate prefix : text) : res E text :=
  match fuel with
  | O => OutOfFuel
  | S fuel => if starts_with prefix candidate then Ok prefix else shrink_loop fuel candidate (removelast prefix)
  end.
Definition shrink {E} (candidate prefix : text) : res E text := shrink_loop (S (length prefix)) candidate prefix.
Fixpoint shrink_all {E} (prefix : text) (candidates : list text) : res E text :=
  match candidates with
  | [] => Ok prefix
  | candidate :: candidates => let? prefix := shrink candidate prefix in shrink_all prefix candidates
  end.
Definition common_prefix {E} (matches : list text) : res E text :=
  let? first := idx matches 0 in
  let? rest := slice_from matches 1 in
  shrink_all first rest.

Definition complete_token {E} (prefix : text) (candidates : list text) : res E (option text) :=
  match List.filter (starts_with prefix) candidates with
  | [] => Ok None
  | [completion] => Ok (Some completion)
  | matches =>
      let? completion := common_prefix matches in
      Ok (if str_len prefix <? str_len completion then Some completion else None)
  end.

Definition replace_token {E} (tokens : list text) (index : Z) (completion : text) : res E text :=
  let? completed := (if index =? blen tokens then Ok (tokens ++ [completion])
                     else match buf_set index completion tokens with
                          | (Ok _, completed) => Ok completed
                          | (Err e, _) => Err e | (Panic, _) => Panic | (OutOfFuel, _) => OutOfFuel
                          end) in
  Ok (join [32] completed).

(** The candidates for the second word after the first *)
Definition second_words (first : text) : option (list text) :=
  if decide (first = chars "read") then Some READ_TYPES
  else if decide (first = chars "write") then Some WRITE_TYPES
  else if decide (first = chars "set") then Some SET_KEYS
  else if decide (first = chars "discover") then Some DISCOVER_KEYS
  else None.
Definition completion_site (tokens : list text) (trailing_space : bool) : option (text * list text * Z) :=
  match tokens with
  | [] => Some ([], COMMANDS, 0)
  | [partial] =>
      if negb trailing_space then Some (partial, COMMANDS, 0)
      else option_map (λ candidates, ([], candidates, 1)) (second_words partial)
  | [first; partial] =>
      if negb trailing_space then option_map (λ candidates, (partial, candidates, 1)) (second_words first) else None
  | _ => None
  end.
Definition complete_command {E} (line : text) : res E (option text) :=
  let trailing_space := match last line with Some c => is_whitespace c | None => false end in
  let tokens := split_whitespace line in
  match completion_site tokens trailing_space with
  | None => Ok None
  | Some (prefix, candidates, token_index) =>
      let? completion := complete_token prefix candidates in
      match completion with
      | None => Ok None
      | Some completion => rmap Some (replace_token tokens token_index completion)
      end
  end.

(** * Specifications *)

(** How a 16-bit number is written: in decimal, or in hexadecimal after 0x or 0X *)
Definition writes_u16 (w : text) (n : Z) : Prop :=
  n ≤ u16_max ∧ (numeral 10 w n ∨ ∃ hex, (w = chars "0x" ++ hex ∨ w = chars "0X" ++ hex) ∧ numeral 16 hex n).
Definition writes_u8 (w : text) (n : Z) : Prop := n ≤ u8_max ∧ numeral 10 w n.
(** How the state of a coil is written, in any case *)
Definition writes_bool (w : text) (b : bool) : Prop := to_ascii_lowercase w ∈ (if b then on_words else off_words).

(** The grammar of the shell *)
Inductive command_form : list text → ShellCommand.t → Prop :=
  | form_empty : command_form [] ShellCommand.Empty
  | form_help ws : command_form (chars "help" :: ws) ShellCommand.Help
  | form_status ws : command_form (chars "status" :: ws) ShellCommand.Status
  | form_exit ws : command_form (chars "exit" :: ws) ShellCommand.Exit
  | form_quit ws : command_form (chars "quit" :: ws) ShellCommand.Exit
  | form_discover : command_form [chars "discover"] (ShellCommand.DiscoverUnits default_units)
  | form_discover_units : command_form [chars "discover"; chars "units"] (ShellCommand.DiscoverUnits default_units)
  | form_discover_range r : command_form [chars "discover"; chars "units"; r] (ShellCommand.DiscoverUnits r)
  | form_set w id : writes_u8 w id → command_form [chars "set"; chars "unit-id"; w] (ShellCommand.SetUnitId id)
  | form_read kind a q address quantity command :
      writes_u16 a address → writes_u16 q quantity →
      (kind, command) ∈ [(chars "coils", ShellCommand.ReadCoils address quantity);
                         (chars "discrete-inputs", ShellCommand.ReadDiscreteInputs address quantity);
                         (chars "holding-registers", ShellCommand.ReadHoldingRegisters address quantity);
                         (chars "input-registers", ShellCommand.ReadInputRegisters address quantity)] →
      command_form [chars "read"; kind; a; q] command
  | form_coil a v address value : writes_u16 a address → writes_bool v value →
      command_form [chars "write"; chars "coil"; a; v] (ShellCommand.WriteCoil address value)
  | form_coils a vs address values : writes_u16 a address → vs ≠ [] → Forall2 writes_bool vs values →
      command_form (chars "write" :: chars "coils" :: a :: vs) (ShellCommand.WriteCoils address values)
  | form_register a v address value : writes_u16 a address → writes_u16 v value →
      command_form [chars "write"; chars "register"; a; v] (ShellCommand.WriteRegister address value)
  | form_registers a vs address values : writes_u16 a address → vs ≠ [] → Forall2 writes_u16 vs values →
      command_form (chars "write" :: chars "registers" :: a :: vs) (ShellCommand.WriteRegisters address values).

(** * Lemmas *)

Lemma invalid_number_Ok {A} what s (r : res ParseIntError.t A) a : invalid_number what s r = Ok a ↔ r = Ok a.
Proof. destruct r; naive_solver. Qed.
Lemma invalid_number_returns {A} what s (r : res ParseIntError.t A) : returns r → returns (invalid_number what s r).
Proof. by destruct r. Qed.

Lemma strip_hex_Some s hex : strip_hex s = Some hex ↔ s = chars "0x" ++ hex ∨ s = chars "0X" ++ hex.
Proof.
  unfold strip_hex. destruct (strip_prefix (chars "0x") s) as [h|] eqn:Hx.
  - apply strip_prefix_Some in Hx as ->. split; [intros [= ->]; by left|]. intros [?|?]; simplify_eq/=. done.
  - rewrite strip_prefix_Some. split; [by right|]. intros [Hs|]; [|done]. apply strip_prefix_Some in Hs. congruence.
Qed.
(** [x] is not a decimal digit *)
Lemma numeral_not_hex s hex n : strip_hex s = Some hex → ¬ numeral 10 s n.
Proof.
  intros Hs%strip_hex_Some (body & ds & Hbody & _ & Hds & _). assert (∃ c d1 r, body = c :: d1 :: r ∧ (d1 = 120 ∨ d1 = 88)) as (c & d1 & r & -> & Hd1).
  { destruct Hbody as [<-|Hb]; destruct Hs as [-> | ->]; try discriminate Hb; cbn; eauto 10. }
  inversion Hds as [|? ? ? ? _ Htl]; subst. inversion Htl as [|? ? ? ? Hd]; subst. by destruct Hd1 as [->| ->].
Qed.
Lemma parse_u16_Ok w n : parse_u16 w = Ok n ↔ writes_u16 w n.
Proof.
  unfold parse_u16, writes_u16, parse_uint. destruct (strip_hex w) as [hex|] eqn:Hw; rewrite invalid_number_Ok, from_str_radix_Ok by (unfold u16_max; lia).
  - pose proof (λ n, numeral_not_hex w hex n Hw). split; [intros []; split; [done|]; right; exists hex; split; [by apply strip_hex_Some|done]|].
    intros [Hn [?|(hex' & Hhex & ?)]]; [naive_solver|]. apply strip_hex_Some in Hhex. by simplify_eq.
  - split; [naive_solver|]. intros [Hn [?|(hex' & Hhex & _)]]; [done|]. apply strip_hex_Some in Hhex. congruence.
Qed.
Lemma parse_u8_Ok w n : parse_u8 w = Ok n ↔ writes_u8 w n.
Proof. unfold parse_u8, writes_u8, parse_uint. rewrite invalid_number_Ok, from_str_radix_Ok by (unfold u8_max; lia). naive_solver. Qed.
Lemma on_off_words w : w ∈ on_words → w ∉ off_words.
Proof. unfold on_words, off_words. rewrite !elem_of_cons, elem_of_nil. intros [->|[->|[->|[]]]]; by intros [?|[?|[?|?]]]. Qed.
Lemma parse_bool_Ok w b : parse_bool w = Ok b ↔ writes_bool w b.
Proof.
  unfold parse_bool, writes_bool. pose proof (on_off_words (to_ascii_lowercase w)). repeat case_decide; destruct b; naive_solver.
Qed.
Lemma parse_u16_returns w : returns (parse_u16 w).
Proof. unfold parse_u16, parse_uint. case_match; apply invalid_number_returns, from_str_radix_returns; unfold u16_max; lia. Qed.
Lemma parse_u8_returns w : returns (parse_u8 w).
Proof. apply invalid_number_returns, from_str_radix_returns; unfold u8_max; lia. Qed.
Lemma parse_bool_returns w : returns (parse_bool w).
Proof. unfold parse_bool. by repeat case_decide. Qed.

Lemma try_collect_Ok {E A B} (f : A → res E B) l r : try_collect f l = Ok r ↔ Forall2 (λ x y, f x = Ok y) l r.
Proof.
  revert r. induction l as [|x l IH]; intros r; cbn.
  - split; [intros [= <-]; constructor|by inversion 1].
  - rewrite rbind_Ok. setoid_rewrite rbind_Ok. setoid_rewrite IH. split; [|inversion 1; subst; eauto 10].
    intros (y & Hy & ys & Hys & [= <-]). by constructor.
Qed.
Lemma try_collect_returns {E A B} (f : A → res E B) l : (∀ x, returns (f x)) → returns (try_collect f l).
Proof. intros Hf. induction l as [|x l IH]; [done|]. cbn. repeat (apply rbind_returns; [done|intros ? _]). done. Qed.

(** Resolve comparisons of literals *)
Ltac literals := repeat (first [rewrite decide_True by done | rewrite decide_False by done]).
(** Take apart a run of the parser that succeeded *)
Ltac run_parser H := repeat match type of H with
  | rbind _ _ = Ok _ => let H' := fresh "Hrun" in apply rbind_Ok in H as (? & H' & H)
  | (if decide _ then _ else _) = Ok _ => case_decide; [subst|]
  | (if ?b then _ else _) = Ok _ => let Hb := fresh "Hb" in destruct b eqn:Hb; [try discriminate H|try discriminate H]
  | Ok _ = Ok _ => injection H as <-
  | Err _ = Ok _ => discriminate H
  end.

Section Grammar.
Implicit Types (ws tokens : list text) (c : ShellCommand.t).
#[local] Hint Constructors command_form : core.

Lemma parse_discover_Ok tokens c : parse_discover tokens = Ok c → command_form (chars "discover" :: tokens) c.
Proof.
  intros H. destruct tokens as [|key [|range [|x tokens]]]; cbn [parse_discover] in H; run_parser H; auto.
Qed.
Lemma parse_set_Ok tokens c : parse_set tokens = Ok c → command_form (chars "set" :: tokens) c.
Proof.
  intros H. unfold parse_set in H. destruct tokens as [|key [|w [|x tokens]]]; run_parser H; apply orb_false_iff in Hb as [Hhead Hlen];
    try (unfold blen in Hlen; cbn in Hlen; lia).
  injection Hrun as <-. apply negb_false_iff, bool_decide_eq_true in Hhead. injection Hhead as ->. apply parse_u8_Ok in Hrun0. auto.
Qed.
Lemma parse_read_Ok tokens c : parse_read tokens = Ok c → command_form (chars "read" :: tokens) c.
Proof.
  intros H. unfold parse_read in H. destruct tokens as [|kind [|a [|q [|x tokens]]]]; run_parser H;
    try (unfold blen in Hb; cbn in Hb; lia); injection Hrun as <-; injection Hrun1 as <-; injection Hrun3 as ->;
    apply parse_u16_Ok in Hrun0, Hrun2; eapply form_read; eauto; set_solver.
Qed.
Lemma slice_from_2 {E A} (x y : A) l : slice_from (E:=E) (x :: y :: l) 2 = Ok l.
Proof. unfold slice_from. unfold blen. cbn [length]. by rewrite (proj2 (Z.leb_le 2 _)) by lia. Qed.
Lemma collect_u16_Ok vs values : try_collect parse_u16 vs = Ok values ↔ Forall2 writes_u16 vs values.
Proof. rewrite try_collect_Ok. split; intros H; (eapply Forall2_impl; [exact H|]; intros; by apply parse_u16_Ok). Qed.
Lemma collect_bool_Ok vs values : try_collect parse_bool vs = Ok values ↔ Forall2 writes_bool vs values.
Proof. rewrite try_collect_Ok. split; intros H; (eapply Forall2_impl; [exact H|]; intros; by apply parse_bool_Ok). Qed.
Lemma parse_write_Ok tokens c : parse_write tokens = Ok c → command_form (chars "write" :: tokens) c.
Proof.
  intros H. unfold parse_write in H. destruct tokens as [|kind [|a [|v tokens]]]; try discriminate H.
  run_parser H; injection Hrun as <-; injection Hrun1 as ->; apply parse_u16_Ok in Hrun0;
    try (destruct tokens; [|unfold blen in Hb0; cbn in Hb0; lia]; injection Hrun2 as <-);
    try (rewrite slice_from_2 in Hrun2; injection Hrun2 as <-).
  - apply parse_bool_Ok in Hrun3. auto.
  - apply collect_bool_Ok in Hrun3. auto.
  - apply parse_u16_Ok in Hrun3. auto.
  - apply collect_u16_Ok in Hrun3. auto.
Qed.
Lemma slice_from_1 {E A} (x : A) l : slice_from (E:=E) (x :: l) 1 = Ok l.
Proof. unfold slice_from. unfold blen. cbn [length]. by rewrite (proj2 (Z.leb_le 1 _)) by lia. Qed.
Lemma parse_command_form line c : parse_command line = Ok c → command_form (split_whitespace line) c.
Proof.
  unfold parse_command. destruct (split_whitespace line) as [|w ws]; intros H; [by injection H as <-|].
  change (is_empty (w :: ws)) with false in H. rewrite slice_from_1 in H. change (idx (w :: ws) 0) with (@Ok ParseError.t _ w) in H.
  cbn [rbind] in H. run_parser H; eauto using parse_discover_Ok, parse_set_Ok, parse_read_Ok, parse_write_Ok.
Qed.

Lemma parse_read_form kind a q address quantity c : writes_u16 a address → writes_u16 q quantity →
  (kind, c) ∈ [(chars "coils", ShellCommand.ReadCoils address quantity);
               (chars "discrete-inputs", ShellCommand.ReadDiscreteInputs address quantity);
               (chars "holding-registers", ShellCommand.ReadHoldingRegisters address quantity);
               (chars "input-registers", ShellCommand.ReadInputRegisters address quantity)] →
  parse_read [kind; a; q] = Ok c.
Proof.
  intros Ha%parse_u16_Ok Hq%parse_u16_Ok Hk. unfold parse_read.
  change (idx [kind; a; q] 0) with (@Ok ParseError.t _ kind). change (idx [kind; a; q] 1) with (@Ok ParseError.t _ a).
  change (idx [kind; a; q] 2) with (@Ok ParseError.t _ q). cbn [rbind]. rewrite Ha. cbn [rbind]. rewrite Hq. cbn [rbind].
  change (negb (blen [kind; a; q] =? 3)) with false. cbn match.
  rewrite !elem_of_cons, elem_of_nil in Hk. destruct Hk as [[= -> ->]|[[= -> ->]|[[= -> ->]|[[= -> ->]|[]]]]]; by literals.
Qed.
Lemma parse_write_eq kind a v vs address : writes_u16 a address →
  parse_write (kind :: a :: v :: vs) =
  if decide (kind = chars "coil") then
    if negb (blen (kind :: a :: v :: vs) =? 3) then Err (ParseError.mk (chars "usage: write coil <address> <on|off>"))
    else let? value := parse_bool v in Ok (ShellCommand.WriteCoil address value)
  else if decide (kind = chars "coils") then let? values := try_collect parse_bool (v :: vs) in Ok (ShellCommand.WriteCoils address values)
  else if decide (kind = chars "register") then
    if negb (blen (kind :: a :: v :: vs) =? 3) then Err (ParseError.mk (chars "usage: write register <address> <value>"))
    else let? value := parse_u16 v in Ok (ShellCommand.WriteRegister address value)
  else if decide (kind = chars "registers") then let? values := try_collect parse_u16 (v :: vs) in Ok (ShellCommand.WriteRegisters address values)
  else Err (unknown_type kind "coil, coils, register, registers").
Proof.
  intros Ha%parse_u16_Ok. unfold parse_write. rewrite slice_from_2. rewrite (proj2 (Z.ltb_ge (blen (kind :: a :: v :: vs)) 3)) by (unfold blen; cbn [length]; lia).
  change (idx (kind :: a :: v :: vs) 0) with (@Ok ParseError.t _ kind). change (idx (kind :: a :: v :: vs) 1) with (@Ok ParseError.t _ a).
  change (idx (kind :: a :: v :: vs) 2) with (@Ok ParseError.t _ v). cbn [rbind]. by rewrite Ha.
Qed.
Lemma parse_write_form tokens c : command_form (chars "write" :: tokens) c → parse_write tokens = Ok c.
Proof.
  inversion 1 as [| | | | | | | | | |a v address value Ha Hv|a vs address values Ha Hne Hvs|a v address value Ha Hv|a vs address values Ha Hne Hvs]; subst.
  - rewrite (parse_write_eq _ _ _ _ address) by done. literals. apply parse_bool_Ok in Hv. by rewrite Hv.
  - destruct vs as [|v vs]; [done|]. rewrite (parse_write_eq _ _ _ _ address) by done. literals. apply collect_bool_Ok in Hvs. by rewrite Hvs.
  - rewrite (parse_write_eq _ _ _ _ address) by done. literals. apply parse_u16_Ok in Hv. by rewrite Hv.
  - destruct vs as [|v vs]; [done|]. rewrite (parse_write_eq _ _ _ _ address) by done. literals. apply collect_u16_Ok in Hvs. by rewrite Hvs.
Qed.
Lemma parse_set_form w id : writes_u8 w id → parse_set [chars "unit-id"; w] = Ok (ShellCommand.SetUnitId id).
Proof. intros Hw%parse_u8_Ok. change (parse_set [chars "unit-id"; w]) with (let? id := parse_u8 w in Ok (ShellCommand.SetUnitId id)). by rewrite Hw. Qed.
Lemma form_parse_command line c : command_form (split_whitespace line) c → parse_command line = Ok c.
Proof.
  unfold parse_command. destruct (split_whitespace line) as [|w ws]; [by inversion 1|].
  change (is_empty (w :: ws)) with false. rewrite slice_from_1. change (idx (w :: ws) 0) with (@Ok ParseError.t _ w). cbn [rbind].
  inversion 1; subst; literals; auto using parse_write_form, parse_set_form; try reflexivity.
  eapply parse_read_form; eauto.
Qed.

#[local] Hint Resolve parse_u16_returns parse_u8_returns parse_bool_returns try_collect_returns : core.
Ltac parser_returns := repeat first
  [ exact I | progress auto | case_decide | apply rbind_returns; [|intros ? _]
  | match goal with |- returns (if ?b then _ else _) => let Hb := fresh "Hb" in destruct b eqn:Hb end ].
Lemma idx_returns {E A} (l : list A) i : 0 ≤ i < blen l → returns (idx (E:=E) l i).
Proof. intros Hi. unfold idx, get. rewrite (proj2 (Z.leb_le 0 i)) by lia. destruct (lookup_lt_is_Some_2 l (Z.to_nat i)) as [x ->]; [unfold blen in Hi; lia|done]. Qed.
Lemma parse_command_returns line : returns (parse_command line).
Proof.
  unfold parse_command. destruct (split_whitespace line) as [|w tokens]; [done|].
  change (is_empty (w :: tokens)) with false. rewrite slice_from_1. change (idx (w :: tokens) 0) with (@Ok ParseError.t _ w). cbn [rbind].
  repeat case_decide; try exact I.
  - destruct tokens as [|? [|? [|]]]; cbn [parse_discover]; by repeat case_decide.
  - unfold parse_set. parser_returns. apply idx_returns. lia.
  - unfold parse_read. parser_returns; apply idx_returns; lia.
  - unfold parse_write. parser_returns; try (apply idx_returns; lia); unfold slice_from; by rewrite (proj2 (Z.leb_le 2 _)) by lia.
Qed.
End Grammar.

(** ** Completion *)
Section Completion.
Implicit Types (p s candidate : text) (candidates ms : list text).

(** [p] starts every one of [ms] *)
Definition shared_prefix (ms : list text) (p : text) : Prop := ∀ m, m ∈ ms → p `prefix_of` m.
(** and no longer string does *)
Definition greatest_prefix (ms : list text) (p : text) : Prop := shared_prefix ms p ∧ ∀ q, shared_prefix ms q → q `prefix_of` p.

Lemma shrink_loop_spec {E} fuel candidate p : (length p < fuel)%nat →
  ∃ p', shrink_loop (E:=E) fuel candidate p = Ok p' ∧ p' `prefix_of` p ∧ p' `prefix_of` candidate ∧
    ∀ q, q `prefix_of` p → q `prefix_of` candidate → q `prefix_of` p'.
Proof.
  revert p. induction fuel as [|fuel IH]; intros p Hlen; [lia|]. cbn [shrink_loop].
  destruct (starts_with p candidate) eqn:Hs; [apply starts_with_prefix in Hs; by exists p|].
  destruct p as [|c p] using rev_ind; [done|]. clear IHp. rewrite removelast_last. rewrite length_app in Hlen. cbn in Hlen.
  destruct (IH p ltac:(lia)) as (p' & -> & Hp & Hc & Hmax). exists p'. split_and!; [done|by apply prefix_app_r|done|].
  intros q [r Hq] Hqc. destruct r as [|x r] using rev_ind.
  - rewrite app_nil_r in Hq. subst q. apply starts_with_prefix in Hqc. congruence.
  - clear IHr. rewrite app_assoc in Hq. apply app_inj_tail in Hq as [-> _]. apply Hmax; [by exists r|done].
Qed.
Lemma shrink_all_spec {E} p candidates :
  ∃ p', shrink_all (E:=E) p candidates = Ok p' ∧ greatest_prefix (p :: candidates) p'.
Proof.
  revert p. induction candidates as [|c candidates IH]; intros p; cbn [shrink_all].
  - exists p. split; [done|]. split; [intros m ->%list_elem_of_singleton; done|intros q Hq; apply Hq; set_solver].
  - unfold shrink. destruct (shrink_loop_spec (E:=E) (S (length p)) c p ltac:(lia)) as (p1 & -> & Hp & Hc & Hmax). cbn [rbind].
    destruct (IH p1) as (p' & -> & Hsh & Hgr). exists p'. split; [done|]. split.
    + intros m Hm. assert (p' `prefix_of` p1) by (apply Hsh; set_solver). apply elem_of_cons in Hm as [->|[->|Hm]%elem_of_cons]; [by etrans..|apply Hsh; set_solver].
    + intros q Hq. apply Hgr. intros m [->|Hm]%elem_of_cons; [apply Hmax; apply Hq; set_solver|apply Hq; set_solver].
Qed.

(** The candidates that continue the word typed so far *)
Definition fits (prefix : text) (candidates : list text) (m : text) : Prop := m ∈ candidates ∧ prefix `prefix_of` m.
(** [c] is the longest continuation that all of them share: more than was typed, unless
    there is only one and it is complete *)
Definition completes (prefix : text) (candidates : list text) (c : text) : Prop :=
  (∃ m, fits prefix candidates m) ∧ (∀ m, fits prefix candidates m → c `prefix_of` m) ∧
  (∀ q, (∀ m, fits prefix candidates m → q `prefix_of` m) → q `prefix_of` c) ∧
  (c ≠ prefix ∨ ∀ m, fits prefix candidates m → m = prefix).

Lemma elem_of_matches prefix candidates m : m ∈ List.filter (starts_with prefix) candidates ↔ fits prefix candidates m.
Proof. rewrite list_elem_of_In, filter_In, <-list_elem_of_In. unfold fits. by rewrite starts_with_prefix. Qed.
Lemma prefix_antisym (p q : text) : p `prefix_of` q → q `prefix_of` p → p = q.
Proof. intros [r ->] [r' Heq]. destruct r; [by rewrite app_nil_r|]. apply (f_equal length) in Heq. rewrite !length_app in Heq. cbn in Heq. lia. Qed.
Lemma completes_unique prefix candidates c c' : completes prefix candidates c → completes prefix candidates c' → c = c'.
Proof. intros (_ & H1 & H2 & _) (_ & H1' & H2' & _). apply prefix_antisym; auto. Qed.
Lemma complete_token_spec {E} prefix candidates : NoDup candidates →
  ∃ o, complete_token (E:=E) prefix candidates = Ok o ∧ ∀ c, o = Some c ↔ completes prefix candidates c.
Proof.
  intros Hnd. unfold complete_token. pose proof (elem_of_matches prefix candidates) as Hms.
  assert (NoDup (List.filter (starts_with prefix) candidates)) as Hnd'.
  { apply NoDup_ListNoDup, List.NoDup_filter, NoDup_ListNoDup, Hnd. }
  destruct (List.filter (starts_with prefix) candidates) as [|m1 [|m2 ms]].
  - exists None. split; [done|]. intros c. split; [done|]. intros [[m Hm%Hms] _]. by apply elem_of_nil in Hm.
  - exists (Some m1). split; [done|]. assert (∀ m, fits prefix candidates m ↔ m = m1) as Hone by (intros; rewrite <-Hms; set_solver).
    assert (completes prefix candidates m1) as Hc.
    { split_and!; [exists m1; by apply Hone|by intros m ->%Hone|intros q Hq; by apply Hq, Hone|].
      destruct (decide (m1 = prefix)); [right; intros m ->%Hone; done|by left]. }
    intros c. split; [by intros [= <-]|]. intros Hc'. by rewrite (completes_unique _ _ _ _ Hc Hc').
  - unfold common_prefix. rewrite slice_from_1. change (idx (m1 :: m2 :: ms) 0) with (@Ok E _ m1). cbn [rbind].
    destruct (shrink_all_spec (E:=E) m1 (m2 :: ms)) as (p & -> & Hsh & Hgr). cbn [rbind].
    assert (prefix `prefix_of` p) as Hp by (apply Hgr; intros m [_ ?]%Hms; done). rewrite (str_len_extends _ _ Hp).
    eexists. split; [done|]. assert (p ≠ prefix → completes prefix candidates p) as Hc.
    { intros Hne. split_and!; [exists m1; apply Hms; set_solver|intros m Hm%Hms; by apply Hsh|intros q Hq; apply Hgr; intros m Hm%Hms; auto|by left]. }
    case_bool_decide as Hpp; cbn [negb]; intros c; split; try done.
    + intros (_ & H1 & H2 & [Hne|Hall]).
      * destruct Hne. apply prefix_antisym; [|apply H2; by intros m []]. rewrite Hpp. apply Hgr. intros m Hm%Hms. auto.
      * rewrite (Hall m1), (Hall m2) in Hnd' by (apply Hms; set_solver). by apply NoDup_cons in Hnd' as [[]%not_elem_of_cons _].
    + intros [= <-]. by apply Hc.
    + intros Hc'. f_equal. eapply completes_unique; [|done]. by apply Hc.
Qed.

(** Where the cursor stands: after the words [done], in a word of which [prefix] is typed,
    with the words that may stand there *)
Definition ends_blank (line : text) : bool := match last line with Some c => is_whitespace c | None => false end.
Inductive cursor (line : text) : list text → text → list text → Prop :=
  | cursor_start : laid_out line [] → cursor line [] [] COMMANDS
  | cursor_command w : laid_out line [w] → ends_blank line = false → cursor line [] w COMMANDS
  | cursor_argument w candidates : laid_out line [w] → ends_blank line = true → second_words w = Some candidates → cursor line [w] [] candidates
  | cursor_argument_word w p candidates : laid_out line [w; p] → ends_blank line = false → second_words w = Some candidates → cursor line [w] p candidates.

Lemma second_words_cases w candidates : second_words w = Some candidates →
  (w = chars "read" ∧ candidates = READ_TYPES) ∨ (w = chars "write" ∧ candidates = WRITE_TYPES) ∨
  (w = chars "set" ∧ candidates = SET_KEYS) ∨ (w = chars "discover" ∧ candidates = DISCOVER_KEYS).
Proof. unfold second_words. repeat case_decide; naive_solver. Qed.
Lemma candidates_NoDup w candidates : second_words w = Some candidates → NoDup candidates.
Proof. intros [[_ ->]|[[_ ->]|[[_ ->]|[_ ->]]]]%second_words_cases; apply (bool_decide_unpack _); vm_compute; exact I. Qed.
Lemma COMMANDS_NoDup : NoDup COMMANDS.
Proof. apply (bool_decide_unpack _); vm_compute; exact I. Qed.

Lemma completion_site_cursor line :
  match completion_site (split_whitespace line) (ends_blank line) with
  | Some (prefix, candidates, i) => NoDup candidates ∧ ∃ ctx, cursor line ctx prefix candidates ∧
      ∀ E c, replace_token (E:=E) (split_whitespace line) i c = Ok (join [32] (ctx ++ [c]))
  | None => ∀ ctx prefix candidates, ¬ cursor line ctx prefix candidates
  end.
Proof.
  assert (laid_out line (split_whitespace line)) as Hl by by apply split_whitespace_exact.
  assert (∀ ws, laid_out line ws → ws = split_whitespace line) as Hu by (intros ws H; symmetry; by apply split_whitespace_exact).
  revert Hl Hu. destruct (split_whitespace line) as [|w [|p [|x ws]]]; intros Hl Hu; cbn [completion_site]; destruct (ends_blank line) eqn:Hb; cbn [negb];
    try (destruct (second_words w) as [candidates|] eqn:Hw; cbn [option_map]);
    try (split; [solve [eauto using candidates_NoDup, COMMANDS_NoDup]|eexists; split; [by econstructor|done]]).
  all: intros ctx prefix cs [H|? H|? ? H ? Hs|? ? ? H ? Hs]; apply Hu in H; simplify_eq; congruence.
Qed.
Lemma cursor_unique line ctx1 p1 c1 ctx2 p2 c2 : cursor line ctx1 p1 c1 → cursor line ctx2 p2 c2 → ctx1 = ctx2 ∧ p1 = p2 ∧ c1 = c2.
Proof.
  assert (∀ ws ws', laid_out line ws → laid_out line ws' → ws = ws') as Hu.
  { intros ws ws' <-%split_whitespace_exact <-%split_whitespace_exact. done. }
  intros [H|? H|? ? H ? Hs|? ? ? H ? Hs] [H'|? H'|? ? H' ? Hs'|? ? ? H' ? Hs']; pose proof (Hu _ _ H H'); simplify_eq; try congruence; split_and!; congruence.
Qed.
Lemma complete_command_spec {E} line : ∃ o, complete_command (E:=E) line = Ok o ∧
  ∀ out, o = Some out ↔ ∃ ctx prefix candidates c, cursor line ctx prefix candidates ∧ completes prefix candidates c ∧ out = join [32] (ctx ++ [c]).
Proof.
  unfold complete_command. pose proof (completion_site_cursor line) as Hsite. fold (ends_blank line).
  destruct (completion_site (split_whitespace line) (ends_blank line)) as [[[prefix candidates] i]|]; [|exists None; naive_solver].
  destruct Hsite as [Hnd (ctx & Hcur & Hrep)]. destruct (complete_token_spec (E:=E) prefix candidates Hnd) as (o & -> & Ho). cbn [rbind].
  assert (∀ out, (∃ ctx prefix candidates c, cursor line ctx prefix candidates ∧ completes prefix candidates c ∧ out = join [32] (ctx ++ [c])) ↔
    ∃ c, o = Some c ∧ out = join [32] (ctx ++ [c])) as Hout.
  { intros out. setoid_rewrite Ho. split; [|intros (c & Hc & ->); eauto 10]. intros (ctx' & p' & cs' & c & Hcur' & Hc & ->).
    destruct (cursor_unique _ _ _ _ _ _ _ Hcur Hcur') as (-> & -> & ->). eauto. }
  destruct o as [c|]; [rewrite Hrep|]; eexists; (split; [reflexivity|]); intros out; rewrite Hout; naive_solver.
Qed.

(** The words a command has there *)
Lemma form_first w ws c : command_form (w :: ws) c → w ∈ COMMANDS.
Proof. unfold COMMANDS. inversion 1; subst; set_solver. Qed.
Lemma form_second w k ws c candidates : command_form (w :: k :: ws) c → second_words w = Some candidates → k ∈ candidates.
Proof.
  intros Hf Hs. destruct (second_words_cases _ _ Hs) as [[-> ->]|[[-> ->]|[[-> ->]|[-> ->]]]]; inversion Hf; subst; set_solver.
Qed.
Lemma cursor_word line ctx prefix candidates w ws c : cursor line ctx prefix candidates → command_form (ctx ++ w :: ws) c → w ∈ candidates.
Proof. destruct 1; cbn [app]; eauto using form_first, form_second. Qed.
End Completion.

(** ** Writing commands *)
Definition command_ok (c : ShellCommand.t) : Prop :=
  match c with
  | ShellCommand.ReadCoils a q | ShellCommand.ReadDiscreteInputs a q
  | ShellCommand.ReadHoldingRegisters a q | ShellCommand.ReadInputRegisters a q => is_u16 a ∧ is_u16 q
  | ShellCommand.WriteCoil a _ => is_u16 a
  | ShellCommand.WriteCoils a vs => is_u16 a ∧ vs ≠ []
  | ShellCommand.WriteRegister a v => is_u16 a ∧ is_u16 v
  | ShellCommand.WriteRegisters a vs => is_u16 a ∧ vs ≠ [] ∧ Forall (λ v, is_u16 v) vs
  | ShellCommand.DiscoverUnits r => word r
  | ShellCommand.SetUnitId id => is_u8 id
  | _ => True
  end.
Definition bool_word (b : bool) : text := if b then chars "on" else chars "off".
Definition command_words (c : ShellCommand.t) : list text :=
  match c with
  | ShellCommand.ReadCoils a q => [chars "read"; chars "coils"; to_string a; to_string q]
  | ShellCommand.ReadDiscreteInputs a q => [chars "read"; chars "discrete-inputs"; to_string a; to_string q]
  | ShellCommand.ReadHoldingRegisters a q => [chars "read"; chars "holding-registers"; to_string a; to_string q]
  | ShellCommand.ReadInputRegisters a q => [chars "read"; chars "input-registers"; to_string a; to_string q]
  | ShellCommand.WriteCoil a v => [chars "write"; chars "coil"; to_string a; bool_word v]
  | ShellCommand.WriteCoils a vs => chars "write" :: chars "coils" :: to_string a :: map bool_word vs
  | ShellCommand.WriteRegister a v => [chars "write"; chars "register"; to_string a; to_string v]
  | ShellCommand.WriteRegisters a vs => chars "write" :: chars "registers" :: to_string a :: map to_string vs
  | ShellCommand.DiscoverUnits r => [chars "discover"; chars "units"; r]
  | ShellCommand.SetUnitId id => [chars "set"; chars "unit-id"; to_string id]
  | ShellCommand.Status => [chars "status"]
  | ShellCommand.Help => [chars "help"]
  | ShellCommand.Exit => [chars "exit"]
  | ShellCommand.Empty => []
  end.

Lemma numeral_nonneg radix s n : 2 ≤ radix ≤ 16 → numeral radix s n → 0 ≤ n.
Proof. intros Hr (body & ds & _ & _ & Hds & ->). by apply (positional_nonneg radix Hr body). Qed.
Lemma writes_u16_range w n : writes_u16 w n → is_u16 n.
Proof.
  unfold writes_u16, u16_max. intros [Hn [H|(hex & _ & H)]]; apply numeral_nonneg in H; lia.
Qed.
Lemma writes_u8_range w n : writes_u8 w n → is_u8 n.
Proof. unfold writes_u8, u8_max. intros [Hn H]. apply numeral_nonneg in H; lia. Qed.
Lemma to_string_u16 n : is_u16 n → writes_u16 (to_string n) n.
Proof. intros. split; [unfold u16_max; lia|]. left. apply to_string_numeral. lia. Qed.
Lemma to_string_u8 n : is_u8 n → writes_u8 (to_string n) n.
Proof. intros. split; [unfold u8_max; lia|]. apply to_string_numeral. lia. Qed.
Lemma bool_word_writes b : writes_bool (bool_word b) b.
Proof. unfold writes_bool. destruct b; cbn [bool_word]; apply (bool_decide_unpack _); vm_compute; exact I. Qed.

Lemma command_form_ok ws c : Forall word ws → command_form ws c → command_ok c.
Proof.
  intros Hws Hf. destruct Hf as [| | | | | | |r|w id Hid|kind a q address quantity c Ha Hq Hk|a v address value Ha Hv|a vs address values Ha Hne Hvs|a v address value Ha Hv|a vs address values Ha Hne Hvs];
    cbn [command_ok]; try done; try (split; [done|repeat constructor]).
  - by do 3 apply Forall_cons in Hws as [? Hws].
  - by apply writes_u8_range in Hid.
  - apply writes_u16_range in Ha, Hq. rewrite !elem_of_cons, elem_of_nil in Hk. by destruct Hk as [[= -> ->]|[[= -> ->]|[[= -> ->]|[[= -> ->]|[]]]]].
  - by apply writes_u16_range in Ha.
  - apply writes_u16_range in Ha. split; [done|by destruct Hvs].
  - by apply writes_u16_range in Ha, Hv.
  - apply writes_u16_range in Ha. split_and!; [lia..|by destruct Hvs|].
    clear -Hvs. induction Hvs as [|w v ws vs Hv _ IH]; constructor; [by apply writes_u16_range in Hv|done].
Qed.
Lemma command_words_form c : command_ok c → command_form (command_words c) c.
Proof.
  destruct c; cbn [command_ok command_words]; intros; destruct_and?; try constructor; auto using to_string_u16, to_string_u8, bool_word_writes;
    try (eapply form_read; [by apply to_string_u16..|set_solver]).
  - by destruct values.
  - clear. induction values; constructor; auto using bool_word_writes.
  - by destruct values.
  - match goal with H : Forall _ values |- _ => clear -H; induction H; constructor; auto using to_string_u16 end.
Qed.

Lemma parse_command_spec (line : text) :
  returns (parse_command line) ∧
  (∀ c, parse_command line = Ok c ↔ ∃ ws, laid_out line ws ∧ command_form ws c) ∧
  (∀ c, parse_command line = Ok c → command_ok c).
Proof.
  assert (∀ c, parse_command line = Ok c ↔ ∃ ws, laid_out line ws ∧ command_form ws c) as Hc.
  { intros c. split.
    - intros Hf%parse_command_form. exists (split_whitespace line). split; [by apply split_whitespace_exact|done].
    - intros (ws & <-%split_whitespace_exact & Hf). by apply form_parse_command. }
  split; [apply parse_command_returns|]. split; [exact Hc|].
  intros c (ws & Hl & Hf)%Hc. apply (command_form_ok ws); [by apply (laid_out_words line)|done].
Qed.

(** * Theorems *)

(** Parsing always returns, without a panic, and it is the grammar: a line is the
    command [c] exactly when it is laid out, with any blanks around and between
    them, as words that the grammar reads as [c]: numbers in range, in decimal or
    hexadecimal, the right number of words. The command has arguments in range. *)
Theorem parse_command_exact (line : text) :
  returns (parse_command line) ∧
  (∀ c, parse_command line = Ok c ↔ ∃ ws, laid_out line ws ∧ command_form ws c) ∧
  (∀ c, parse_command line = Ok c → command_ok c).
Proof. apply parse_command_spec. Qed.

(** Every command that can be entered can be written down: its words, laid out with
    any blanks, are parsed as the command. *)
Theorem command_roundtrip (line : text) (c : ShellCommand.t) :
  command_ok c → laid_out line (command_words c) → parse_command line = Ok c.
Proof. intros Hc Hl%split_whitespace_exact. apply form_parse_command. rewrite Hl. by apply command_words_form. Qed.

(** Completion always returns, and completes a word exactly to the longest string that all
    words which may stand there and start like it have in common; it gives up only when
    there is none or nothing to add. No command is lost: whatever valid command starts
    with the words typed goes on with the completion. *)
Theorem completion_exact (line : text) :
  ∃ o, @complete_command Empty_set line = Ok o ∧
  (∀ out, o = Some out ↔ ∃ ctx prefix candidates c,
     cursor line ctx prefix candidates ∧ completes prefix candidates c ∧ out = join [32] (ctx ++ [c])) ∧
  (∀ ctx prefix candidates c w ws command, cursor line ctx prefix candidates → completes prefix candidates c →
     command_form (ctx ++ w :: ws) command → prefix `prefix_of` w → c `prefix_of` w).
Proof.
  destruct (@complete_command_spec Empty_set line) as (o & Heq & Ho). exists o. split_and!; [done|done|].
  intros ctx prefix candidates c w ws command Hcur (_ & Hc & _) Hf Hp. apply Hc. split; [by eapply cursor_word|done].
Qed.
