(* ===== verification/Types.v ===== *)
(** * Foundation types (crates/rusty-modbus-types)

    The constants, enumerations and headers every other component uses: each
    enumeration in a [Module] named after the Rust type, with its wire
    conversions, and the MBAP header. Newtypes over an integer ([Address],
    [Quantity], [UnitId], [TransactionId]) are the integer itself. *)
From S2P Require Import Prelude.

(** ** Constants (constants.rs) *)
Definition MAX_PDU_SIZE : Z := 253.
Definition MBAP_HEADER_LEN : Z := 7.
Definition MAX_TCP_ADU_SIZE : Z := MBAP_HEADER_LEN + MAX_PDU_SIZE.
Definition MAX_RTU_ADU_SIZE : Z := 256.
Definition RTU_CRC_LEN : Z := 2.
Definition MODBUS_PROTOCOL_ID : Z := 0x0000.
Definition UNIT_ID_TCP_DEVICE : Z := 0xFF.
Definition UNIT_ID_BROADCAST : Z := 0x00.
Definition UNIT_ID_MIN_SLAVE : Z := 1.
Definition UNIT_ID_MAX_SLAVE : Z := 247.
Definition MAX_READ_COILS : Z := 2000.
Definition MAX_READ_DISCRETE_INPUTS : Z := 2000.
Definition MAX_READ_REGISTERS : Z := 125.
Definition MAX_WRITE_COILS : Z := 1968.
Definition MAX_WRITE_REGISTERS : Z := 123.
Definition MAX_RW_READ_REGISTERS : Z := 125.
Definition MAX_RW_WRITE_REGISTERS : Z := 121.
Definition MAX_FIFO_VALUES : Z := 31.
Definition MAX_CLIENT_TRANSACTIONS : Z := 16.

(** ** Coil values (coil.rs) *)
Module CoilValue.
Inductive t : Type := On | Off.

Definition from_wire (value : Z) : option t :=
  if value =? 0xFF00 then Some On
  else if value =? 0x0000 then Some Off
  else None.

Definition to_wire (self : t) : Z :=
  match self with On => 0xFF00 | Off => 0x0000 end.

Definition from_bool (b : bool) : t := if b then On else Off.

Definition as_bool (self : t) : bool :=
  match self with On => true | Off => false end.
End CoilValue.

(** ** Function codes (function.rs) *)
Module FunctionCode.
Inductive t : Type :=
  | ReadCoils
  | ReadDiscreteInputs
  | ReadHoldingRegisters
  | ReadInputRegisters
  | WriteSingleCoil
  | WriteSingleRegister
  | ReadExceptionStatus
  | Diagnostics
  | GetCommEventCounter
  | GetCommEventLog
  | WriteMultipleCoils
  | WriteMultipleRegisters
  | ReportServerId
  | ReadFileRecord
  | WriteFileRecord
  | MaskWriteRegister
  | ReadWriteMultipleRegisters
  | ReadFifoQueue
  | EncapsulatedInterfaceTransport
  | Custom (v : Z).

Definition from_byte (byte : Z) : t :=
  match byte with
  | 0x01 => ReadCoils
  | 0x02 => ReadDiscreteInputs
  | 0x03 => ReadHoldingRegisters
  | 0x04 => ReadInputRegisters
  | 0x05 => WriteSingleCoil
  | 0x06 => WriteSingleRegister
  | 0x07 => ReadExceptionStatus
  | 0x08 => Diagnostics
  | 0x0B => GetCommEventCounter
  | 0x0C => GetCommEventLog
  | 0x0F => WriteMultipleCoils
  | 0x10 => WriteMultipleRegisters
  | 0x11 => ReportServerId
  | 0x14 => ReadFileRecord
  | 0x15 => WriteFileRecord
  | 0x16 => MaskWriteRegister
  | 0x17 => ReadWriteMultipleRegisters
  | 0x18 => ReadFifoQueue
  | 0x2B => EncapsulatedInterfaceTransport
  | other => Custom other
  end.

Definition from_raw (byte : Z) : option t :=
  if (byte =? 0) || negb (Z.land byte 0x80 =? 0) then None
  else Some (from_byte byte).

Definition from_exception_raw (byte : Z) : t := from_byte (Z.land byte 0x7F).

Definition is_exception_response (byte : Z) : bool :=
  negb (Z.land byte 0x80 =? 0).

Definition code (self : t) : Z :=
  match self with
  | ReadCoils => 0x01
  | ReadDiscreteInputs => 0x02
  | ReadHoldingRegisters => 0x03
  | ReadInputRegisters => 0x04
  | WriteSingleCoil => 0x05
  | WriteSingleRegister => 0x06
  | ReadExceptionStatus => 0x07
  | Diagnostics => 0x08
  | GetCommEventCounter => 0x0B
  | GetCommEventLog => 0x0C
  | WriteMultipleCoils => 0x0F
  | WriteMultipleRegisters => 0x10
  | ReportServerId => 0x11
  | ReadFileRecord => 0x14
  | WriteFileRecord => 0x15
  | MaskWriteRegister => 0x16
  | ReadWriteMultipleRegisters => 0x17
  | ReadFifoQueue => 0x18
  | EncapsulatedInterfaceTransport => 0x2B
  | Custom v => v
  end.

Definition exception_code (self : t) : Z := Z.lor (code self) 0x80.
End FunctionCode.

(** ** Exception codes (exception.rs) *)
Module ExceptionCode.
Inductive t : Type :=
  | IllegalFunction
  | IllegalDataAddress
  | IllegalDataValue
  | ServerDeviceFailure
  | Acknowledge
  | ServerDeviceBusy
  | NegativeAcknowledge
  | MemoryParityError
  | GatewayPathUnavailable
  | GatewayTargetDeviceFailedToRespond
  | Custom (v : Z).

Definition from_raw (byte : Z) : t :=
  match byte with
  | 0x01 => IllegalFunction
  | 0x02 => IllegalDataAddress
  | 0x03 => IllegalDataValue
  | 0x04 => ServerDeviceFailure
  | 0x05 => Acknowledge
  | 0x06 => ServerDeviceBusy
  | 0x07 => NegativeAcknowledge
  | 0x08 => MemoryParityError
  | 0x0A => GatewayPathUnavailable
  | 0x0B => GatewayTargetDeviceFailedToRespond
  | other => Custom other
  end.

Definition code (self : t) : Z :=
  match self with
  | IllegalFunction => 0x01
  | IllegalDataAddress => 0x02
  | IllegalDataValue => 0x03
  | ServerDeviceFailure => 0x04
  | Acknowledge => 0x05
  | ServerDeviceBusy => 0x06
  | NegativeAcknowledge => 0x07
  | MemoryParityError => 0x08
  | GatewayPathUnavailable => 0x0A
  | GatewayTargetDeviceFailedToRespond => 0x0B
  | Custom v => v
  end.
End ExceptionCode.

(** ** Diagnostic sub-functions (diagnostic.rs) *)
Module DiagnosticSubFunction.
Inductive t : Type :=
  | ReturnQueryData
  | RestartCommunicationsOption
  | ReturnDiagnosticRegister
  | ChangeAsciiInputDelimiter
  | ForceListenOnlyMode
  | ClearCountersAndDiagRegister
  | ReturnBusMessageCount
  | ReturnBusCommunicationErrorCount
  | ReturnBusExceptionErrorCount
  | ReturnServerMessageCount
  | ReturnServerNoResponseCount
  | ReturnServerNakCount
  | ReturnServerBusyCount
  | ReturnBusCharacterOverrunCount
  | ClearOverrunCounterAndFlag.

Definition from_raw (value : Z) : option t :=
  match value with
  | 0x0000 => Some ReturnQueryData
  | 0x0001 => Some RestartCommunicationsOption
  | 0x0002 => Some ReturnDiagnosticRegister
  | 0x0003 => Some ChangeAsciiInputDelimiter
  | 0x0004 => Some ForceListenOnlyMode
  | 0x000A => Some ClearCountersAndDiagRegister
  | 0x000B => Some ReturnBusMessageCount
  | 0x000C => Some ReturnBusCommunicationErrorCount
  | 0x000D => Some ReturnBusExceptionErrorCount
  | 0x000E => Some ReturnServerMessageCount
  | 0x000F => Some ReturnServerNoResponseCount
  | 0x0010 => Some ReturnServerNakCount
  | 0x0011 => Some ReturnServerBusyCount
  | 0x0012 => Some ReturnBusCharacterOverrunCount
  | 0x0014 => Some ClearOverrunCounterAndFlag
  | _ => None
  end.

Definition code (self : t) : Z :=
  match self with
  | ReturnQueryData => 0x0000
  | RestartCommunicationsOption => 0x0001
  | ReturnDiagnosticRegister => 0x0002
  | ChangeAsciiInputDelimiter => 0x0003
  | ForceListenOnlyMode => 0x0004
  | ClearCountersAndDiagRegister => 0x000A
  | ReturnBusMessageCount => 0x000B
  | ReturnBusCommunicationErrorCount => 0x000C
  | ReturnBusExceptionErrorCount => 0x000D
  | ReturnServerMessageCount => 0x000E
  | ReturnServerNoResponseCount => 0x000F
  | ReturnServerNakCount => 0x0010
  | ReturnServerBusyCount => 0x0011
  | ReturnBusCharacterOverrunCount => 0x0012
  | ClearOverrunCounterAndFlag => 0x0014
  end.
End DiagnosticSubFunction.

(** ** MEI types and device identification codes (mei.rs) *)
Module MeiType.
Inductive t : Type := CanOpenGeneralReference | ReadDeviceIdentification.

Definition from_raw (byte : Z) : option t :=
  match byte with
  | 0x0D => Some CanOpenGeneralReference
  | 0x0E => Some ReadDeviceIdentification
  | _ => None
  end.

Definition code (self : t) : Z :=
  match self with CanOpenGeneralReference => 0x0D | ReadDeviceIdentification => 0x0E end.
End MeiType.

Module DeviceIdCode.
Inductive t : Type := BasicStream | RegularStream | ExtendedStream | Individual.

Definition from_raw (byte : Z) : option t :=
  match byte with
  | 0x01 => Some BasicStream
  | 0x02 => Some RegularStream
  | 0x03 => Some ExtendedStream
  | 0x04 => Some Individual
  | _ => None
  end.

Definition code (self : t) : Z :=
  match self with
  | BasicStream => 0x01
  | RegularStream => 0x02
  | ExtendedStream => 0x03
  | Individual => 0x04
  end.
End DeviceIdCode.

Module DeviceIdObject.
Inductive t : Type :=
  | VendorName
  | ProductCode
  | MajorMinorRevision
  | VendorUrl
  | ProductName
  | ModelName
  | UserApplicationName.

Definition from_raw (byte : Z) : option t :=
  match byte with
  | 0x00 => Some VendorName
  | 0x01 => Some ProductCode
  | 0x02 => Some MajorMinorRevision
  | 0x03 => Some VendorUrl
  | 0x04 => Some ProductName
  | 0x05 => Some ModelName
  | 0x06 => Some UserApplicationName
  | _ => None
  end.

Definition code (self : t) : Z :=
  match self with
  | VendorName => 0x00
  | ProductCode => 0x01
  | MajorMinorRevision => 0x02
  | VendorUrl => 0x03
  | ProductName => 0x04
  | ModelName => 0x05
  | UserApplicationName => 0x06
  end.
End DeviceIdObject.

(** ** Unit identifiers (model.rs) *)
Module UnitId.
Definition is_broadcast (self : Z) : bool := self =? UNIT_ID_BROADCAST.
Definition is_tcp_device (self : Z) : bool := self =? UNIT_ID_TCP_DEVICE.
Definition is_valid_slave (self : Z) : bool :=
  (UNIT_ID_MIN_SLAVE <=? self) && (self <=? UNIT_ID_MAX_SLAVE).
End UnitId.

(** ** The MBAP header (header.rs) *)
Module MbapHeader.
Record t : Type := mk {
  transaction_id : Z;
  protocol_id : Z;
  length : Z;
  unit_id : Z;
}.

Definition try_new (transaction_id unit_id pdu_length : Z) : option t :=
  if MAX_PDU_SIZE <? pdu_length then None
  else if u16_max <? pdu_length + 1 then None
  else Some (mk transaction_id MODBUS_PROTOCOL_ID (pdu_length + 1) unit_id).

(** [MbapHeader::new]: [expect] on [try_new] *)
Definition new (transaction_id unit_id pdu_length : Z) : res Empty_set t :=
  match try_new transaction_id unit_id pdu_length with
  | Some h => Ok h
  | None => Panic
  end.

Definition pdu_length (self : t) : Z := Z.max 0 (length self - 1).

Definition adu_length (self : t) : Z := (MBAP_HEADER_LEN - 1) + length self.

(** The packed big-endian layout [#\[repr(C, packed)\]] gives the struct, as
    [IntoBytes::as_bytes] and [FromBytes::ref_from_bytes] see it. *)
Definition as_bytes (self : t) : bytes :=
  to_be_bytes (transaction_id self) ++ to_be_bytes (protocol_id self)
    ++ to_be_bytes (length self) ++ [unit_id self].

Definition ref_from_bytes (b : bytes) : option t :=
  match b with
  | [t1; t0; p1; p0; l1; l0; u] =>
      Some (mk (from_be_bytes t1 t0) (from_be_bytes p1 p0) (from_be_bytes l1 l0) u)
  | _ => None
  end.

Definition ok (self : t) : Prop :=
  is_u16 (transaction_id self) ∧ is_u16 (protocol_id self)
    ∧ is_u16 (length self) ∧ is_u8 (unit_id self).
End MbapHeader.

#[export] Instance CoilValue_eq_dec : EqDecision CoilValue.t.
Proof. solve_decision. Defined.
#[export] Instance FunctionCode_eq_dec : EqDecision FunctionCode.t.
Proof. solve_decision. Defined.
#[export] Instance ExceptionCode_eq_dec : EqDecision ExceptionCode.t.
Proof. solve_decision. Defined.
#[export] Instance DiagnosticSubFunction_eq_dec : EqDecision DiagnosticSubFunction.t.
Proof. solve_decision. Defined.
#[export] Instance MeiType_eq_dec : EqDecision MeiType.t.
Proof. solve_decision. Defined.
#[export] Instance DeviceIdCode_eq_dec : EqDecision DeviceIdCode.t.
Proof. solve_decision. Defined.

(** * Wire round trips of the enumerations *)

(** [Custom] only ever carries a byte that has no named variant. *)
Definition fc_canonical (fc : FunctionCode.t) : Prop :=
  match fc with FunctionCode.Custom v => FunctionCode.from_byte v = FunctionCode.Custom v | _ => True end.
Definition ec_canonical (ec : ExceptionCode.t) : Prop :=
  match ec with ExceptionCode.Custom v => ExceptionCode.from_raw v = ExceptionCode.Custom v | _ => True end.

Lemma FunctionCode_code_from_byte b : FunctionCode.code (FunctionCode.from_byte b) = b.
Proof. unfold FunctionCode.from_byte. by repeat case_match. Qed.
Lemma FunctionCode_from_byte_code fc :
  fc_canonical fc → FunctionCode.from_byte (FunctionCode.code fc) = fc.
Proof. by destruct fc. Qed.
Lemma FunctionCode_from_byte_canonical b : fc_canonical (FunctionCode.from_byte b).
Proof. unfold FunctionCode.from_byte. by repeat case_match. Qed.
Lemma ExceptionCode_code_from_raw b : ExceptionCode.code (ExceptionCode.from_raw b) = b.
Proof. unfold ExceptionCode.from_raw. by repeat case_match. Qed.
Lemma ExceptionCode_from_raw_code ec :
  ec_canonical ec → ExceptionCode.from_raw (ExceptionCode.code ec) = ec.
Proof. by destruct ec. Qed.
Lemma ExceptionCode_from_raw_canonical b : ec_canonical (ExceptionCode.from_raw b).
Proof. unfold ExceptionCode.from_raw. by repeat case_match. Qed.

Lemma CoilValue_from_to_wire v : CoilValue.from_wire (CoilValue.to_wire v) = Some v.
Proof. by destruct v. Qed.
Lemma CoilValue_from_wire_Some x v :
  CoilValue.from_wire x = Some v ↔ x = CoilValue.to_wire v.
Proof.
  unfold CoilValue.from_wire. split; [|intros ->; by destruct v].
  repeat case_match; intros; simplify_eq; simpl; lia.
Qed.
Lemma CoilValue_to_wire_u16 v : is_u16 (CoilValue.to_wire v).
Proof. destruct v; simpl; lia. Qed.
Lemma DiagnosticSubFunction_from_raw_Some x v :
  DiagnosticSubFunction.from_raw x = Some v ↔ x = DiagnosticSubFunction.code v.
Proof.
  unfold DiagnosticSubFunction.from_raw. split; [|intros ->; by destruct v].
  repeat case_match; intros; by simplify_eq.
Qed.
Lemma DiagnosticSubFunction_code_u16 v : is_u16 (DiagnosticSubFunction.code v).
Proof. destruct v; simpl; lia. Qed.
Lemma MeiType_from_raw_Some x v : MeiType.from_raw x = Some v ↔ x = MeiType.code v.
Proof.
  unfold MeiType.from_raw. split; [|intros ->; by destruct v].
  repeat case_match; intros; by simplify_eq.
Qed.
Lemma DeviceIdCode_from_raw_Some x v :
  DeviceIdCode.from_raw x = Some v ↔ x = DeviceIdCode.code v.
Proof.
  unfold DeviceIdCode.from_raw. split; [|intros ->; by destruct v].
  repeat case_match; intros; by simplify_eq.
Qed.
Lemma DeviceIdObject_from_raw_Some x v :
  DeviceIdObject.from_raw x = Some v ↔ x = DeviceIdObject.code v.
Proof.
  unfold DeviceIdObject.from_raw. split; [|intros ->; by destruct v].
  repeat case_match; intros; by simplify_eq.
Qed.

(** Bit arithmetic on the exception flag, checked on every byte. *)
Lemma exception_flag_clear b : is_u8 b → (Z.land b 0x80 =? 0) = (b <? 128).
Proof.
  intros Hb. apply eqb_prop.
  by apply (u8_all_spec (λ b, eqb (Z.land b 0x80 =? 0) (b <? 128))).
Qed.
Lemma exception_flag_set b : is_u8 b → Z.lor b 0x80 = if b <? 128 then b + 128 else b.
Proof.
  intros Hb. apply Z.eqb_eq.
  by apply (u8_all_spec (λ b, Z.lor b 0x80 =? if b <? 128 then b + 128 else b)).
Qed.
Lemma exception_flag_strip b : is_u8 b → Z.land b 0x7F = if b <? 128 then b else b - 128.
Proof.
  intros Hb. apply Z.eqb_eq.
  by apply (u8_all_spec (λ b, Z.land b 0x7F =? if b <? 128 then b else b - 128)).
Qed.

Lemma FunctionCode_from_raw_Some b fc : is_u8 b →
  FunctionCode.from_raw b = Some fc ↔
    1 ≤ b < 128 ∧ fc_canonical fc ∧ b = FunctionCode.code fc.
Proof.
  intros Hb. unfold FunctionCode.from_raw. rewrite exception_flag_clear by done.
  destruct ((b =? 0) || negb (b <? 128))%bool eqn:Ht.
  - split; [done|]. lia.
  - split.
    + intros [= <-]. split; [lia|]. split; [apply FunctionCode_from_byte_canonical|].
      by rewrite FunctionCode_code_from_byte.
    + intros (_ & Hc & ->). by rewrite FunctionCode_from_byte_code.
Qed.
Lemma FunctionCode_from_raw_None b : is_u8 b →
  FunctionCode.from_raw b = None ↔ b = 0 ∨ 128 ≤ b.
Proof.
  intros Hb. unfold FunctionCode.from_raw. rewrite exception_flag_clear by done.
  destruct ((b =? 0) || negb (b <? 128))%bool eqn:Ht; split; try done; lia.
Qed.

(** * The MBAP header is its seven bytes *)
Lemma MbapHeader_as_bytes_length h : blen (MbapHeader.as_bytes h) = 7.
Proof. done. Qed.
Lemma MbapHeader_as_bytes_ok h : MbapHeader.ok h → bytes_ok (MbapHeader.as_bytes h).
Proof.
  intros (_ & _ & _ & Hu). unfold MbapHeader.as_bytes.
  rewrite !bytes_ok_app. repeat split; try apply to_be_bytes_ok. by constructor.
Qed.
Lemma MbapHeader_ref_from_as_bytes h : MbapHeader.ok h →
  MbapHeader.ref_from_bytes (MbapHeader.as_bytes h) = Some h.
Proof.
  intros (Ht & Hp & Hl & Hu). destruct h as [t p l u]; simpl in *.
  unfold MbapHeader.as_bytes, to_be_bytes; simpl. by autorewrite with be16.
Qed.
Lemma MbapHeader_ref_from_bytes_Some b h : bytes_ok b →
  MbapHeader.ref_from_bytes b = Some h → b = MbapHeader.as_bytes h ∧ MbapHeader.ok h.
Proof.
  intros Hb. destruct b as [|a1 [|a2 [|a3 [|a4 [|a5 [|a6 [|a7 [|]]]]]]]]; try done.
  simpl. intros [= <-]. rewrite !bytes_ok_cons in Hb. destruct_and!. unfold MbapHeader.as_bytes; simpl.
  autorewrite with be16. split; [done|].
  unfold MbapHeader.ok; simpl. repeat split; try apply from_be_bytes_u16; lia.
Qed.
