(* ===== verification/CodecError.v ===== *)
(** * Codec errors and the [Encode] trait
    (crates/rusty-modbus-codec: src/error.rs, src/request/mod.rs)

    The two error enumerations with the check helpers the decoders and encoders
    call, and the [Encode] trait as a class together with the contract its
    documentation states, [EncodeSpec], which every message type discharges and
    the server's response encoder relies on. *)
From S2P Require Import Prelude Types.

Module DecodeError.
Inductive t : Type :=
  | Truncated (expected actual : Z)
  | LengthMismatch (expected actual : Z)
  | PduTooLarge (length maximum : Z)
  | UnknownFunctionCode (fc : Z)
  | ByteCountMismatch (declared actual : Z)
  | ByteCountOutOfRange (count minimum maximum : Z)
  | QuantityOutOfRange (quantity : Z)
  | InvalidCoilValue (v : Z)
  | InvalidReferenceType (rt : Z)
  | InvalidFileRecordLength (length : Z)
  | FileRecordOutOfRange (file_number record_number record_length : Z)
  | UnknownMeiType (mt : Z)
  | UnknownExceptionCode (ec : Z)
  | UnknownDiagnosticSubFunction (sf : Z)
  | InvalidDiagnosticDataLength (length : Z)
  | InvalidRegisterDataLength (length : Z)
  | InvalidDeviceIdCode (code : Z)
  | InvalidDeviceIdConformityLevel (level : Z)
  | InvalidDeviceIdMoreFollows (value : Z)
  | InvalidDeviceIdNextObjectId (object_id : Z)
  | InvalidDeviceIdObjectCount (count : Z).

Definition check_exact_len (data : bytes) (expected : Z) : res t unit :=
  match blen data ?= expected with
  | Lt => Err (Truncated expected (blen data))
  | Eq => Ok tt
  | Gt => Err (LengthMismatch expected (blen data))
  end.

Definition check_register_data_len (length : Z) : res t unit :=
  if is_multiple_of length 2 then Ok tt else Err (InvalidRegisterDataLength length).
End DecodeError.

Module EncodeError.
Inductive t : Type :=
  | BufferTooSmall (required available : Z)
  | PduTooLarge (length maximum : Z)
  | QuantityOutOfRange (quantity : Z)
  | ByteCountMismatch (declared actual : Z)
  | ByteCountOutOfRange (count minimum maximum : Z)
  | InvalidReferenceType (rt : Z)
  | InvalidFileRecordLength (length : Z)
  | FileRecordOutOfRange (file_number record_number record_length : Z)
  | InvalidDiagnosticDataLength (length : Z)
  | InvalidRegisterDataLength (length : Z).

Definition check_pdu_len (length : Z) : res t unit :=
  let maximum := MAX_PDU_SIZE in
  if maximum <? length then Err (PduTooLarge length maximum) else Ok tt.

Definition check_quantity (quantity max : Z) : res t unit :=
  if (quantity =? 0) || (max <? quantity) then Err (QuantityOutOfRange quantity) else Ok tt.

Definition check_byte_count (declared actual : Z) : res t unit :=
  if declared =? actual then Ok tt else Err (ByteCountMismatch declared actual).

Definition check_byte_count_range (count minimum maximum : Z) : res t unit :=
  if (minimum <=? count) && (count <=? maximum) then Ok tt
  else Err (ByteCountOutOfRange count minimum maximum).

Definition check_register_data_len (length : Z) : res t unit :=
  if is_multiple_of length 2 then Ok tt else Err (InvalidRegisterDataLength length).

(** The guard every [encode_into] starts with:
    [if buf.len() < len { return Err(BufferTooSmall { .. }) }]. *)
Definition check_buffer (len : Z) : ST bytes t unit :=
  buf <- st_get;;
  if blen buf <? len then st_err (BufferTooSmall len (blen buf)) else st_ret tt.
End EncodeError.

(** ** The [Encode] trait (request/mod.rs) *)
Class Encode (T : Type) : Type := {
  encode_into : T → ST bytes EncodeError.t Z;
  encoded_len : T → Z;
}.

(** The contract of the trait. [wf x] says that the fields of [x] are in the
    ranges of their Rust types, [wire x] is the PDU of [x] and [encodable x]
    the protocol condition on its fields: an encodable value fills the front
    of any buffer that can hold it with exactly its PDU and reports its
    length, which never exceeds the 253-byte ceiling; in a short buffer every
    value, and in any buffer every value that is not encodable, is an error
    that leaves the buffer alone. In particular no call panics. *)
Class EncodeSpec (T : Type) `{Encode T} : Type := {
  wf : T → Prop;
  wire : T → bytes;
  encodable : T → Prop;
  encode_into_ok x buf :
    wf x → encodable x → encoded_len x ≤ blen buf →
    encode_into x buf = (Ok (encoded_len x), overlay (wire x) buf);
  encode_into_short x buf :
    blen buf < encoded_len x →
    encode_into x buf = (Err (EncodeError.BufferTooSmall (encoded_len x) (blen buf)), buf);
  encode_into_reject x buf :
    wf x → encoded_len x ≤ blen buf → encodable x ∨ ∃ e, encode_into x buf = (Err e, buf);
  wire_length x : wf x → encodable x → blen (wire x) = encoded_len x;
  wire_ok x : wf x → bytes_ok (wire x);
  wire_bounded x : wf x → encodable x → encoded_len x ≤ MAX_PDU_SIZE;
}.

(** What the codec promises for a message type with function code [fc]: the
    decoder accepts exactly the images of well-formed values that satisfy
    [decodable], returns the value they are the image of, and never panics. *)
Class PduCodec (T : Type) (fc : Z) (decode : bytes → res DecodeError.t T) `{EncodeSpec T} : Type := {
  decodable : T → Prop;
  decode_complete x : wf x → decodable x →
    ∃ data, wire x = fc :: data ∧ decode data = Ok x;
  decode_sound data x : bytes_ok data → decode data = Ok x →
    wf x ∧ decodable x ∧ wire x = fc :: data;
  decode_returns data : bytes_ok data → returns (decode data);
}.

Create HintDb codec.
Create Rewrite HintDb check_ok.
Create Rewrite HintDb check_iff.

(** * Proof automation for decoders and encoders *)

Lemma check_exact_len_Ok data n :
  DecodeError.check_exact_len data n = Ok tt ↔ blen data = n.
Proof. unfold DecodeError.check_exact_len. destruct (Z.compare_spec (blen data) n); naive_solver lia. Qed.

Lemma check_exact_len_cases data n :
  (blen data = n ∧ DecodeError.check_exact_len data n = Ok tt) ∨
  (∃ e, DecodeError.check_exact_len data n = Err e).
Proof. unfold DecodeError.check_exact_len. destruct (Z.compare_spec (blen data) n); eauto. Qed.

Lemma check_pdu_len_Ok n u : EncodeError.check_pdu_len n = Ok u ↔ n ≤ MAX_PDU_SIZE.
Proof. unfold EncodeError.check_pdu_len. destruct u. case_match; naive_solver lia. Qed.
Lemma check_quantity_Ok q max u : EncodeError.check_quantity q max = Ok u ↔ q ≠ 0 ∧ q ≤ max.
Proof. unfold EncodeError.check_quantity. destruct u. case_match; naive_solver lia. Qed.
Lemma check_byte_count_Ok a b u : EncodeError.check_byte_count a b = Ok u ↔ a = b.
Proof. unfold EncodeError.check_byte_count. destruct u. case_match; naive_solver lia. Qed.
Lemma check_byte_count_range_Ok c lo hi u :
  EncodeError.check_byte_count_range c lo hi = Ok u ↔ lo ≤ c ≤ hi.
Proof. unfold EncodeError.check_byte_count_range. destruct u. case_match; naive_solver lia. Qed.
Lemma check_register_data_len_Ok n u :
  EncodeError.check_register_data_len n = Ok u ↔ n mod 2 = 0.
Proof.
  unfold EncodeError.check_register_data_len, is_multiple_of. destruct u. case_match; naive_solver lia.
Qed.
Lemma check_pdu_len_returns n : returns (EncodeError.check_pdu_len n).
Proof. unfold EncodeError.check_pdu_len. by case_match. Qed.
Lemma check_quantity_returns q max : returns (EncodeError.check_quantity q max).
Proof. unfold EncodeError.check_quantity. by case_match. Qed.
Lemma check_byte_count_returns a b : returns (EncodeError.check_byte_count a b).
Proof. unfold EncodeError.check_byte_count. by case_match. Qed.
Lemma check_byte_count_range_returns c lo hi : returns (EncodeError.check_byte_count_range c lo hi).
Proof. unfold EncodeError.check_byte_count_range. by case_match. Qed.
Lemma check_register_data_len_returns n : returns (EncodeError.check_register_data_len n).
Proof. unfold EncodeError.check_register_data_len. by case_match. Qed.

Lemma check_exact_len_returns data n : returns (DecodeError.check_exact_len data n).
Proof. unfold DecodeError.check_exact_len. by case_match. Qed.

Lemma check_buffer_short buf len : blen buf < len →
  EncodeError.check_buffer len buf = (Err (EncodeError.BufferTooSmall len (blen buf)), buf).
Proof.
  intros. unfold EncodeError.check_buffer, st_bind, st_get.
  by replace (blen buf <? len) with true by lia.
Qed.
Lemma check_buffer_ok buf len : len ≤ blen buf →
  EncodeError.check_buffer len buf = (Ok tt, buf).
Proof.
  intros. unfold EncodeError.check_buffer, st_bind, st_get.
  by replace (blen buf <? len) with false by lia.
Qed.

#[export] Hint Resolve check_exact_len_returns check_pdu_len_returns check_quantity_returns
  check_byte_count_returns check_byte_count_range_returns check_register_data_len_returns : modbus.

Section StateLaws.
Context {S E A B : Type}.
Implicit Types (m : ST S E A) (k : A → ST S E B).

Lemma st_bind_Ok m k s a s' : m s = (Ok a, s') → st_bind m k s = k a s'.
Proof. unfold st_bind. by intros ->. Qed.
Lemma st_bind_Err m k s e s' : m s = (Err e, s') → st_bind m k s = (Err e, s').
Proof. unfold st_bind. by intros ->. Qed.
Lemma st_bind_lift (r : res E A) k s :
  st_bind (st_lift r) k s =
    match r with
    | Ok a => k a s
    | Err e => (Err e, s)
    | Panic => (Panic, s)
    | OutOfFuel => (OutOfFuel, s)
    end.
Proof. by destruct r. Qed.
End StateLaws.

Lemma check_pdu_len_ok n : n ≤ MAX_PDU_SIZE → EncodeError.check_pdu_len n = Ok tt.
Proof. intros. unfold EncodeError.check_pdu_len. by replace (_ <? _) with false by lia. Qed.
Lemma check_quantity_ok q max : 1 ≤ q ≤ max → EncodeError.check_quantity q max = Ok tt.
Proof. intros. unfold EncodeError.check_quantity. by replace (_ || _)%bool with false by lia. Qed.
Lemma check_byte_count_ok a b : a = b → EncodeError.check_byte_count a b = Ok tt.
Proof. intros. unfold EncodeError.check_byte_count. by replace (_ =? _) with true by lia. Qed.
Lemma check_byte_count_range_ok c lo hi :
  lo ≤ c ≤ hi → EncodeError.check_byte_count_range c lo hi = Ok tt.
Proof. intros. unfold EncodeError.check_byte_count_range. by replace (_ && _)%bool with true by lia. Qed.
Lemma check_register_data_len_ok n :
  n mod 2 = 0 → EncodeError.check_register_data_len n = Ok tt.
Proof.
  intros. unfold EncodeError.check_register_data_len, is_multiple_of.
  by replace (_ =? _) with true by lia.
Qed.

(** [enc_arith] closes the arithmetic side conditions of an encoder, whose
    atoms are the lengths of the payload fields. *)
Ltac enc_arith :=
  autorewrite with blen;
  repeat match goal with
  | |- context [blen ?l] => lazymatch goal with _ : 0 ≤ blen l |- _ => fail | _ => pose proof (blen_nonneg l) end
  | _ : context [blen ?l] |- _ => lazymatch goal with _ : 0 ≤ blen l |- _ => fail | _ => pose proof (blen_nonneg l) end
  end; unfold MAX_PDU_SIZE in *;
  first [lia | Z.to_euclidean_division_equations; lia].

(** One successful step of an encoder: a check that passes, or a write that
    extends the image at the front of the buffer. *)
Ltac check_passes :=
  first
  [ assumption
  | first [ apply check_pdu_len_ok | apply check_quantity_ok | apply check_byte_count_ok
          | apply check_byte_count_range_ok | apply check_register_data_len_ok ]; enc_arith
  | autorewrite with check_ok; reflexivity ].
Ltac enc_step :=
  lazymatch goal with
  | |- st_bind (st_lift ?r) _ _ = _ =>
      let Hr := fresh "Hr" in
      assert (r = Ok tt) as Hr by check_passes; rewrite st_bind_lift, Hr; clear Hr
  | |- st_bind (buf_set _ _) _ _ = _ => erewrite st_bind_Ok by (apply buf_set_overlay; enc_arith)
  | |- st_bind (buf_copy _ _ _) _ _ = _ => erewrite st_bind_Ok by (apply buf_copy_overlay; enc_arith)
  end.

Ltac enc_ok :=
  erewrite st_bind_Ok by (apply check_buffer_ok; assumption);
  match goal with |- _ ?b = (Ok _, overlay _ ?b) => rewrite <-(overlay_nil b) at 1 end;
  repeat enc_step; unfold st_ret; rewrite ?app_nil_l, <-?app_assoc; try reflexivity.

Ltac enc_short := intros; erewrite st_bind_Err by (apply check_buffer_short; done); reflexivity.

(** Every check either reports its error or adds its condition to the context,
    where the conditions together make the value encodable. *)
Ltac enc_reject tac :=
  erewrite st_bind_Ok by (apply check_buffer_ok; assumption);
  repeat match goal with
  | |- _ ∨ ∃ e, st_bind (st_lift ?r) _ ?s = _ =>
      let Hr := fresh "Hr" in
      let Hret := fresh "Hret" in
      rewrite st_bind_lift;
      assert (Hret : returns r) by eauto with modbus;
      destruct r eqn:Hr; [clear Hret|by right; eexists|destruct Hret|destruct Hret]
  end;
  left; rewrite ?check_pdu_len_Ok, ?check_quantity_Ok, ?check_byte_count_Ok,
    ?check_byte_count_range_Ok, ?check_register_data_len_Ok in *; autorewrite with check_iff in *; tac.

Ltac enum_cases :=
  repeat match goal with
  | v : CoilValue.t |- _ => destruct v
  | v : DiagnosticSubFunction.t |- _ => destruct v
  | v : MeiType.t |- _ => destruct v
  | v : DeviceIdCode.t |- _ => destruct v
  end;
  cbn [CoilValue.to_wire DiagnosticSubFunction.code MeiType.code DeviceIdCode.code] in *.

Ltac bytes_ok_solve :=
  repeat lazymatch goal with
  | |- bytes_ok (to_be_bytes _) => apply to_be_bytes_ok
  | |- bytes_ok [] => apply bytes_ok_nil
  | |- bytes_ok (_ ++ _) => apply bytes_ok_app; split
  | |- bytes_ok (_ :: _) => apply bytes_ok_cons; split
  end; try assumption; try lia; try (apply Z.mod_pos_bound; lia).

Ltac codec_open x := destruct x; simpl in *; autounfold with codec in *; simpl in *; destruct_and?.

(** The six obligations of [EncodeSpec] for a message whose checks are
    arithmetic. *)
Ltac enc_spec :=
  [> intros x buf Hwf Hen Hl; codec_open x; enc_ok
  | intros x buf Hl; simpl in *; autounfold with codec in *; enc_short
  | intros x buf Hwf Hl; codec_open x; enc_reject enc_arith
  | intros x Hwf Hen; codec_open x; enc_arith
  | intros x Hwf; codec_open x; enum_cases; bytes_ok_solve
  | intros x Hwf Hen; codec_open x; enc_arith ].

(** ** Consequences of the contract *)
Section Contract.
Context {T : Type} `{!Encode T, !EncodeSpec T}.
Implicit Types (x : T) (buf : bytes).

Lemma encode_into_inv x buf n buf' : wf x → encode_into x buf = (Ok n, buf') →
  encodable x ∧ n = encoded_len x ∧ encoded_len x ≤ blen buf ∧ buf' = overlay (wire x) buf.
Proof.
  intros Hwf He. destruct (Z_lt_le_dec (blen buf) (encoded_len x)) as [Hlt|Hle].
  { rewrite encode_into_short in He by done. congruence. }
  destruct (encode_into_reject x buf Hwf Hle) as [Hen|[e Hr]]; [|congruence].
  rewrite encode_into_ok in He by done. naive_solver.
Qed.
Lemma encode_into_returns x buf : wf x → returns (encode_into x buf).1.
Proof.
  intros Hwf. destruct (Z_lt_le_dec (blen buf) (encoded_len x)) as [Hlt|Hle].
  { by rewrite encode_into_short. }
  destruct (encode_into_reject x buf Hwf Hle) as [Hen|[e ->]]; [|done].
  by rewrite encode_into_ok.
Qed.
Lemma encode_into_error x buf e buf' : wf x → encode_into x buf = (Err e, buf') → buf' = buf.
Proof.
  intros Hwf He. destruct (Z_lt_le_dec (blen buf) (encoded_len x)) as [Hlt|Hle].
  { rewrite encode_into_short in He by done. congruence. }
  destruct (encode_into_reject x buf Hwf Hle) as [Hen|[e' Hr]]; [|congruence].
  rewrite encode_into_ok in He by done. congruence.
Qed.
Lemma take_overlay x buf : wf x → encodable x →
  take (Z.to_nat (encoded_len x)) (overlay (wire x) buf) = wire x.
Proof.
  intros. rewrite <-wire_length by done. unfold overlay, blen. by rewrite Nat2Z.id, take_app_length.
Qed.
End Contract.

Section Codec.
Context {T : Type} {fc : Z} {decode : bytes → res DecodeError.t T}.
Context `{!Encode T, !EncodeSpec T, !PduCodec T fc decode}.

(** What an encoder writes, its decoder reads back. *)
Lemma encode_decode x buf n buf' : wf x → decodable x → encode_into x buf = (Ok n, buf') →
  ∃ data, take (Z.to_nat n) buf' = fc :: data ∧ n ≤ MAX_PDU_SIZE ∧ blen (fc :: data) = n
    ∧ bytes_ok data ∧ decode data = Ok x.
Proof.
  intros Hwf Hd He. apply encode_into_inv in He as (Hen & -> & Hle & ->); [|done].
  rewrite take_overlay by done. destruct (decode_complete x Hwf Hd) as (data & Hw & Hdec).
  exists data. rewrite <-Hw. split_and!; [done|by apply wire_bounded|by apply wire_length| |done].
  pose proof (wire_ok x Hwf) as Hok. rewrite Hw in Hok. by apply bytes_ok_cons in Hok as [_ ?].
Qed.
(** What a decoder accepts, its encoder reproduces. *)
Lemma decode_encode data x buf : bytes_ok data → decode data = Ok x → encodable x →
  blen data < blen buf → encode_into x buf = (Ok (1 + blen data), overlay (fc :: data) buf).
Proof.
  intros Hb Hd Hen Hl. apply decode_sound in Hd as (Hwf & _ & Hw); [|done].
  pose proof (wire_length x Hwf Hen) as Hlen. rewrite Hw, blen_cons in Hlen.
  rewrite encode_into_ok by (done || lia). by rewrite Hw, Hlen.
Qed.
End Codec.

(** ** Decoders *)

Ltac dec_arith :=
  autorewrite with blen in *;
  repeat match goal with
  | |- context [blen ?l] => lazymatch goal with _ : 0 ≤ blen l |- _ => fail | _ => pose proof (blen_nonneg l) end
  | _ : context [blen ?l] |- _ => lazymatch goal with _ : 0 ≤ blen l |- _ => fail | _ => pose proof (blen_nonneg l) end
  end; first [lia | Z.to_euclidean_division_equations; lia].

(** [cells d n] splits off the first [n] bytes of [d]. *)
Ltac cells d n :=
  lazymatch n with
  | O => idtac
  | S ?m => let b := fresh "b" in destruct d as [|b d]; [|cells d m]
  end.

(** Evaluates reads at literal positions of a list given by its first cells. *)
Ltac dec_reads :=
  repeat match goal with
  | |- context [be16_at (E:=?E) ?l ?i ?j] =>
      let r := eval cbv [be16_at idx get Z.leb Z.compare Z.to_nat Pos.to_nat Pos.iter_op
                         Nat.add lookup list_lookup rbind] in (be16_at (E:=E) l i j) in
      lazymatch r with Ok _ => change (be16_at (E:=E) l i j) with r end
  | |- context [idx (E:=?E) ?l ?i] =>
      let r := eval cbv [idx get Z.leb Z.compare Z.to_nat Pos.to_nat Pos.iter_op
                         Nat.add lookup list_lookup rbind] in (idx (E:=E) l i) in
      lazymatch r with Ok _ => change (idx (E:=E) l i) with r end
  end.

(** One step of a decoder whose outcome the context decides. *)
Ltac dec_step :=
  first
  [ progress dec_reads
  | progress cbn [rbind rmap]
  | match goal with
    | |- context [DecodeError.check_exact_len ?d ?n] =>
        rewrite (proj2 (check_exact_len_Ok d n)) by dec_arith
    | |- context [usub ?a ?b] => rewrite (usub_Ok a b) by dec_arith
    | |- context [slice_from ?l ?i] =>
        rewrite (slice_from_Ok l i) by dec_arith;
        let n := eval vm_compute in (Z.to_nat i) in
        change (Z.to_nat i) with n; rewrite ?skipn_cons, ?drop_0
    | |- context [if ?c then _ else _] =>
        first [replace c with false by dec_arith | replace c with true by dec_arith]
    end ].
(** ... and one it does not decide: split on the guard. *)
Ltac dec_split :=
  match goal with
  | |- context [if ?c then _ else _] => let Hc := fresh "Hc" in destruct c eqn:Hc
  | |- context [ok_or ?o _] => let Hc := fresh "Hc" in destruct o eqn:Hc; cbn [ok_or]
  | |- context [DecodeError.check_exact_len ?d ?n] =>
      let Hc := fresh "Hc" in
      destruct (check_exact_len_cases d n) as [[Hc ->]|[? ->]]
  end.
Ltac dec_run := repeat dec_step.
Ltac dec_cases := repeat first [dec_step | dec_split].

(** Enumerations on the wire: a recognised raw value is the code of its variant. *)
Ltac enum_inv :=
  repeat match goal with
  | H : CoilValue.from_wire _ = Some _ |- _ => apply CoilValue_from_wire_Some in H
  | H : DiagnosticSubFunction.from_raw _ = Some _ |- _ => apply DiagnosticSubFunction_from_raw_Some in H
  | H : MeiType.from_raw _ = Some _ |- _ => apply MeiType_from_raw_Some in H
  | H : DeviceIdCode.from_raw _ = Some _ |- _ => apply DeviceIdCode_from_raw_Some in H
  end;
  repeat match goal with
  | H : _ = CoilValue.to_wire _ |- _ => rewrite <-H; clear H
  | H : _ = DiagnosticSubFunction.code _ |- _ => rewrite <-H; clear H
  | H : _ = MeiType.code _ |- _ => rewrite <-H; clear H
  | H : _ = DeviceIdCode.code _ |- _ => rewrite <-H; clear H
  end.
(** The obligations of [PduCodec] for a decoder that reads [n] fixed bytes. *)
Ltac dec_complete :=
  intros x Hwf Hdec; eexists; split; [reflexivity|]; codec_open x; enum_cases; unfold to_be_bytes;
  rewrite <-?app_comm_cons, ?app_nil_l; dec_run; autorewrite with be16; dec_run; simpl; rewrite ?drop_0; try done.
Ltac dec_sound n :=
  intros data x Hb Hd; autounfold with codec in *; revert Hd; cells data n;
  [> (intros Hd; discriminate Hd) .. | ];
  rewrite ?bytes_ok_cons in Hb; destruct_and?; dec_cases;
  intros Hd; try discriminate Hd; injection Hd as <-; simpl; autounfold with codec; simpl; rewrite ?drop_0; enum_inv;
  repeat match goal with
  | |- context [from_be_bytes ?a ?b] =>
      lazymatch goal with
      | _ : is_u16 (from_be_bytes a b) |- _ => fail
      | _ => assert (is_u16 (from_be_bytes a b)) by (apply from_be_bytes_u16; lia)
      end
  end;
  try (assert (data = []) as -> by (apply blen_0_nil; dec_arith));
  unfold to_be_bytes; autorewrite with be16; split_and?; try reflexivity; try assumption; try dec_arith.
Ltac dec_returns n :=
  intros data Hb; clear Hb; autounfold with codec; cells data n; [> exact I .. | ];
  dec_cases; exact I.
