(* ===== verification/FileRecords.v ===== *)
(** * File record requests (crates/rusty-modbus-codec/src/request/file.rs)

    FC 14 and FC 15 carry a sequence of sub-requests; the decoder and the
    encoder each walk it with a validator of their own. Both walks accept
    exactly the byte strings that are a sequence of images of valid
    sub-requests, stated by [read_groups] and [write_groups]. *)
From S2P Require Import Prelude Types CodecError.
Import DecodeError.

Definition READ_FILE_RECORD_MIN_BYTE_COUNT : Z := 0x07.
Definition READ_FILE_RECORD_MAX_BYTE_COUNT : Z := 0xF5.
Definition WRITE_FILE_RECORD_MIN_BYTE_COUNT : Z := 0x09.
Definition WRITE_FILE_RECORD_MAX_BYTE_COUNT : Z := 0xFB.
Definition FILE_RECORD_REFERENCE_TYPE : Z := 0x06.
Definition MIN_FILE_NUMBER : Z := 0x0001.
Definition MAX_RECORD_NUMBER : Z := 0x270F.
Definition RECORD_COUNT : Z := 0x2710.

Definition check_file_record_byte_count (byte_count minimum maximum : Z) : res DecodeError.t unit :=
  let count := byte_count in
  if (minimum <=? count) && (count <=? maximum) then Ok tt
  else Err (ByteCountOutOfRange count minimum maximum).

(** The [checked_add] of two [u16] values in [usize] cannot overflow. *)
Definition check_file_record_range (file_number record_number record_length : Z)
    : res DecodeError.t unit :=
  let end_ := record_number + record_length in
  if (file_number <? MIN_FILE_NUMBER) || (record_length =? 0)
     || (MAX_RECORD_NUMBER <? record_number) || (RECORD_COUNT <? end_)
  then Err (FileRecordOutOfRange file_number record_number record_length)
  else Ok tt.

Definition check_file_record_range_encode (file_number record_number record_length : Z)
    : res EncodeError.t unit :=
  let end_ := record_number + record_length in
  if (file_number <? MIN_FILE_NUMBER) || (record_length =? 0)
     || (MAX_RECORD_NUMBER <? record_number) || (RECORD_COUNT <? end_)
  then Err (EncodeError.FileRecordOutOfRange file_number record_number record_length)
  else Ok tt.

Module FileSubRequest.
Record t : Type := mk {
  reference_type : Z;
  file_number : Z;
  record_number : Z;
  record_length : Z;
}.

Definition decode (data : bytes) : res DecodeError.t t :=
  do? check_exact_len data 7 in
  let? reference_type := idx data 0 in
  if negb (reference_type =? FILE_RECORD_REFERENCE_TYPE)
  then Err (InvalidReferenceType reference_type) else
  let? file_number := be16_at data 1 2 in
  let? record_number := be16_at data 3 4 in
  let? record_length := be16_at data 5 6 in
  do? check_file_record_range file_number record_number record_length in
  Ok (mk reference_type file_number record_number record_length).
End FileSubRequest.

Definition validate_file_sub_request_encode (data : bytes) : res EncodeError.t FileSubRequest.t :=
  if blen data <? 7 then Err (EncodeError.InvalidFileRecordLength (blen data)) else
  let? reference_type := idx data 0 in
  if negb (reference_type =? FILE_RECORD_REFERENCE_TYPE)
  then Err (EncodeError.InvalidReferenceType reference_type) else
  let? file_number := be16_at data 1 2 in
  let? record_number := be16_at data 3 4 in
  let? record_length := be16_at data 5 6 in
  do? check_file_record_range_encode file_number record_number record_length in
  Ok (FileSubRequest.mk reference_type file_number record_number record_length).

Definition validate_read_file_sub_requests (sub_requests : bytes) : res DecodeError.t unit :=
  if negb (is_multiple_of (blen sub_requests) 7)
  then Err (InvalidFileRecordLength (blen sub_requests)) else
  for_each (λ chunk, do? FileSubRequest.decode chunk in Ok tt) (chunks_exact 7 sub_requests).

Definition validate_read_file_sub_requests_encode (sub_requests : bytes) : res EncodeError.t unit :=
  if negb (is_multiple_of (blen sub_requests) 7)
  then Err (EncodeError.InvalidFileRecordLength (blen sub_requests)) else
  for_each (λ chunk, do? validate_file_sub_request_encode chunk in Ok tt) (chunks_exact 7 sub_requests).

Definition validate_write_file_sub_requests (sub_requests : bytes) : res DecodeError.t unit :=
  consume (λ remaining,
    if blen remaining <? 7 then Err (InvalidFileRecordLength (blen remaining)) else
    let? head := slice_to remaining 7 in
    let? sub := FileSubRequest.decode head in
    let value_bytes := FileSubRequest.record_length sub * 2 in
    let group_len := 7 + value_bytes in
    if blen remaining <? group_len then Err (ByteCountMismatch group_len (blen remaining))
    else Ok group_len) sub_requests.

Definition validate_write_file_sub_requests_encode (sub_requests : bytes) : res EncodeError.t unit :=
  consume (λ remaining,
    if blen remaining <? 7 then Err (EncodeError.InvalidFileRecordLength (blen remaining)) else
    let? head := slice_to remaining 7 in
    let? sub := validate_file_sub_request_encode head in
    let value_bytes := FileSubRequest.record_length sub * 2 in
    let group_len := 7 + value_bytes in
    if blen remaining <? group_len
    then Err (EncodeError.ByteCountMismatch group_len (blen remaining))
    else Ok group_len) sub_requests.

Module ReadFileRecordRequest.
Record t : Type := mk { byte_count : Z; sub_requests : bytes }.

Definition decode (data : bytes) : res DecodeError.t t :=
  if is_empty data then Err (Truncated 1 0) else
  let? byte_count := idx data 0 in
  do? check_file_record_byte_count byte_count
        READ_FILE_RECORD_MIN_BYTE_COUNT READ_FILE_RECORD_MAX_BYTE_COUNT in
  let? remaining := usub (blen data) 1 in
  if negb (byte_count =? remaining) then Err (ByteCountMismatch byte_count remaining) else
  let? sub_requests := slice_from data 1 in
  do? validate_read_file_sub_requests sub_requests in
  Ok (mk byte_count sub_requests).

Definition encoded_len (self : t) : Z := 2 + blen (sub_requests self).

Definition encode_into (self : t) : ST bytes EncodeError.t Z :=
  let len := encoded_len self in
  EncodeError.check_buffer len;;;
  st_lift (EncodeError.check_byte_count_range (byte_count self)
             READ_FILE_RECORD_MIN_BYTE_COUNT READ_FILE_RECORD_MAX_BYTE_COUNT);;;
  st_lift (EncodeError.check_byte_count (byte_count self) (blen (sub_requests self)));;;
  st_lift (validate_read_file_sub_requests_encode (sub_requests self));;;
  st_lift (EncodeError.check_pdu_len len);;;
  buf_set 0 (FunctionCode.code FunctionCode.ReadFileRecord);;;
  buf_set 1 (byte_count self);;;
  buf_copy 2 (2 + blen (sub_requests self)) (sub_requests self);;;
  st_ret len.
End ReadFileRecordRequest.

Module WriteFileRecordRequest.
Record t : Type := mk { byte_count : Z; sub_requests : bytes }.

Definition decode (data : bytes) : res DecodeError.t t :=
  if is_empty data then Err (Truncated 1 0) else
  let? byte_count := idx data 0 in
  do? check_file_record_byte_count byte_count
        WRITE_FILE_RECORD_MIN_BYTE_COUNT WRITE_FILE_RECORD_MAX_BYTE_COUNT in
  let? remaining := usub (blen data) 1 in
  if negb (byte_count =? remaining) then Err (ByteCountMismatch byte_count remaining) else
  let? sub_requests := slice_from data 1 in
  do? validate_write_file_sub_requests sub_requests in
  Ok (mk byte_count sub_requests).

Definition encoded_len (self : t) : Z := 2 + blen (sub_requests self).

Definition encode_into (self : t) : ST bytes EncodeError.t Z :=
  let len := encoded_len self in
  EncodeError.check_buffer len;;;
  st_lift (EncodeError.check_byte_count_range (byte_count self)
             WRITE_FILE_RECORD_MIN_BYTE_COUNT WRITE_FILE_RECORD_MAX_BYTE_COUNT);;;
  st_lift (EncodeError.check_byte_count (byte_count self) (blen (sub_requests self)));;;
  st_lift (validate_write_file_sub_requests_encode (sub_requests self));;;
  st_lift (EncodeError.check_pdu_len len);;;
  buf_set 0 (FunctionCode.code FunctionCode.WriteFileRecord);;;
  buf_set 1 (byte_count self);;;
  buf_copy 2 (2 + blen (sub_requests self)) (sub_requests self);;;
  st_ret len.
End WriteFileRecordRequest.

(** ** The grammar of the sub-requests *)
Definition FileSubRequest_wf (x : FileSubRequest.t) : Prop :=
  is_u16 (FileSubRequest.file_number x) ∧ is_u16 (FileSubRequest.record_number x)
  ∧ is_u16 (FileSubRequest.record_length x).
Definition FileSubRequest_valid (x : FileSubRequest.t) : Prop :=
  FileSubRequest.reference_type x = 6 ∧ 1 ≤ FileSubRequest.file_number x
  ∧ FileSubRequest.record_number x ≤ 9999 ∧ 1 ≤ FileSubRequest.record_length x
  ∧ FileSubRequest.record_number x + FileSubRequest.record_length x ≤ 10000.
Definition FileSubRequest_wire (x : FileSubRequest.t) : bytes :=
  FileSubRequest.reference_type x :: to_be_bytes (FileSubRequest.file_number x)
    ++ to_be_bytes (FileSubRequest.record_number x) ++ to_be_bytes (FileSubRequest.record_length x).

(** One sub-request of FC 14, one sub-request with its record data of FC 15. *)
Definition read_group (g : bytes) : Prop :=
  ∃ x, FileSubRequest_wf x ∧ FileSubRequest_valid x ∧ g = FileSubRequest_wire x.
Definition write_group (g : bytes) : Prop :=
  ∃ x values, FileSubRequest_wf x ∧ FileSubRequest_valid x
    ∧ g = FileSubRequest_wire x ++ values ∧ blen values = 2 * FileSubRequest.record_length x.

#[export] Hint Unfold FileSubRequest.decode FileSubRequest_wf FileSubRequest_valid FileSubRequest_wire
  check_file_record_range check_file_record_range_encode FILE_RECORD_REFERENCE_TYPE MIN_FILE_NUMBER
  MAX_RECORD_NUMBER RECORD_COUNT validate_file_sub_request_encode check_file_record_byte_count
  READ_FILE_RECORD_MIN_BYTE_COUNT READ_FILE_RECORD_MAX_BYTE_COUNT
  WRITE_FILE_RECORD_MIN_BYTE_COUNT WRITE_FILE_RECORD_MAX_BYTE_COUNT : codec.

Lemma FileSubRequest_decode_wire x : FileSubRequest_wf x → FileSubRequest_valid x →
  FileSubRequest.decode (FileSubRequest_wire x) = Ok x.
Proof.
  intros Hwf Hv. codec_open x. unfold to_be_bytes. simpl. dec_run. autorewrite with be16. by dec_run.
Qed.
Lemma FileSubRequest_decode_inv data x : bytes_ok data → FileSubRequest.decode data = Ok x →
  FileSubRequest_wf x ∧ FileSubRequest_valid x ∧ data = FileSubRequest_wire x.
Proof. revert data x. dec_sound 7%nat. Qed.
Lemma FileSubRequest_decode_returns data : bytes_ok data → returns (FileSubRequest.decode data).
Proof. revert data. dec_returns 7%nat. Qed.

(** The encoder's check of a sub-request is the decoder's, with the encoder's errors. *)
Lemma validate_file_sub_request_encode_agrees data x : blen data = 7 →
  validate_file_sub_request_encode data = Ok x ↔ FileSubRequest.decode data = Ok x.
Proof.
  intros Hl. autounfold with codec. do 7 (destruct data as [|? data]; [done|]).
  dec_cases; naive_solver.
Qed.
Lemma validate_file_sub_request_encode_returns data :
  bytes_ok data → returns (validate_file_sub_request_encode data).
Proof. revert data. dec_returns 7%nat. Qed.
(** ** The walks accept exactly the grammar *)
Lemma FileSubRequest_wire_length x : blen (FileSubRequest_wire x) = 7.
Proof. done. Qed.
Lemma FileSubRequest_wire_ok x :
  FileSubRequest_valid x → bytes_ok (FileSubRequest_wire x).
Proof. intros (Hr & _). unfold FileSubRequest_wire. rewrite Hr. bytes_ok_solve. Qed.

Lemma read_walk_Ok {E} (check : bytes → res E FileSubRequest.t) p :
  (∀ c x, blen c = 7 → check c = Ok x ↔ FileSubRequest.decode c = Ok x) → bytes_ok p →
  blen p mod 7 = 0 ∧ for_each (λ chunk, do? check chunk in Ok tt) (chunks_exact 7 p) = Ok tt
  ↔ groups read_group p.
Proof.
  intros Hcheck Hp. split.
  - intros [Hm Hall]. apply chunks_exact_split in Hm as (gs & -> & Hlen); [|done].
    rewrite chunks_exact_concat_inv, for_each_Ok in Hall by done. exists gs. split; [done|].
    rewrite Forall_forall in *. intros g Hg. specialize (Hall g Hg).
    apply rbind_Ok in Hall as (x & Hx & _). apply Hcheck in Hx; [|by apply Hlen].
    apply FileSubRequest_decode_inv in Hx as (? & ? & ?); [by exists x|].
    unfold bytes_ok in *. rewrite Forall_concat, Forall_forall in Hp. by apply Hp.
  - intros (gs & -> & Hgs).
    assert (Forall (λ g, blen g = 7) gs) as Hlen.
    { eapply Forall_impl; [exact Hgs|]. by intros g (x & _ & _ & ->). }
    split; [by apply blen_concat_mod|]. rewrite chunks_exact_concat_inv, for_each_Ok by done.
    eapply Forall_impl; [exact Hgs|]. intros g (x & Hwf & Hv & ->). simpl.
    by rewrite (proj2 (Hcheck (FileSubRequest_wire x) x eq_refl)) by by apply FileSubRequest_decode_wire.
Qed.

Lemma validate_read_file_sub_requests_Ok p : bytes_ok p →
  validate_read_file_sub_requests p = Ok tt ↔ groups read_group p.
Proof.
  intros. rewrite <-(read_walk_Ok FileSubRequest.decode) by done.
  unfold validate_read_file_sub_requests, is_multiple_of. case_match; naive_solver lia.
Qed.
Lemma validate_read_file_sub_requests_encode_Ok p : bytes_ok p →
  validate_read_file_sub_requests_encode p = Ok tt ↔ groups read_group p.
Proof.
  intros. rewrite <-(read_walk_Ok validate_file_sub_request_encode)
    by (try done; apply validate_file_sub_request_encode_agrees).
  unfold validate_read_file_sub_requests_encode, is_multiple_of. case_match; naive_solver lia.
Qed.
Lemma chunks_exact_ok n p : bytes_ok p → Forall bytes_ok (chunks_exact n p).
Proof.
  unfold chunks_exact. generalize (length p), (Z.to_nat n). intros fuel m. revert p.
  induction fuel; intros p Hp; [constructor|]. simpl. case_match; constructor; auto with modbus.
Qed.
Lemma validate_read_file_sub_requests_returns p : bytes_ok p → returns (validate_read_file_sub_requests p).
Proof.
  intros Hp. unfold validate_read_file_sub_requests. case_match; [done|]. apply for_each_returns.
  eapply Forall_impl; [by apply chunks_exact_ok|]. intros c Hc. by apply rbind_returns; [apply FileSubRequest_decode_returns|].
Qed.
Lemma validate_read_file_sub_requests_encode_returns p :
  bytes_ok p → returns (validate_read_file_sub_requests_encode p).
Proof.
  intros Hp. unfold validate_read_file_sub_requests_encode. case_match; [done|].
  apply for_each_returns. eapply Forall_impl; [by apply chunks_exact_ok|]. intros c Hc. by apply rbind_returns; [apply validate_file_sub_request_encode_returns|].
Qed.

(** Both write walks have the same body up to their errors. *)
Section WriteWalk.
Context {E : Type} (check : bytes → res E FileSubRequest.t) (short : Z → E) (mismatch : Z → Z → E).
Context (check_agrees : ∀ c x, blen c = 7 → check c = Ok x ↔ FileSubRequest.decode c = Ok x).
Context (check_returns : ∀ c, bytes_ok c → returns (check c)).

Definition write_step (remaining : bytes) : res E Z :=
  if blen remaining <? 7 then Err (short (blen remaining)) else
  let? head := slice_to remaining 7 in
  let? sub := check head in
  let value_bytes := FileSubRequest.record_length sub * 2 in
  let group_len := 7 + value_bytes in
  if blen remaining <? group_len then Err (mismatch group_len (blen remaining)) else Ok group_len.

Lemma write_step_Ok l n : bytes_ok l →
  write_step l = Ok n ↔ ∃ g rest, l = g ++ rest ∧ write_group g ∧ n = blen g.
Proof.
  intros Hl. unfold write_step. split.
  - destruct (blen l <? 7) eqn:H7; [done|]. rewrite slice_to_Ok by lia. simpl.
    rewrite rbind_Ok. intros (x & Hx & Hn).
    assert (blen (take (Z.to_nat 7) l) = 7) by (rewrite blen_take; lia).
    apply check_agrees, FileSubRequest_decode_inv in Hx as (Hwf & Hv & Heq);
      [|by auto with modbus|done].
    case_match; [done|]. injection Hn as <-. set (k := 7 + _) in *.
    assert (7 ≤ k) by (destruct Hv; unfold k; lia).
    exists (take (Z.to_nat k) l), (drop (Z.to_nat k) l). rewrite take_drop.
    split_and!; [done| |rewrite blen_take; lia].
    exists x, (drop 7 (take (Z.to_nat k) l)). split_and!; [done..| |].
    + rewrite <-Heq. change (Z.to_nat 7) with 7%nat.
      rewrite <-(take_drop 7 (take (Z.to_nat k) l)) at 1. by rewrite take_take, Nat.min_l by lia.
    + change 7%nat with (Z.to_nat 7). rewrite blen_drop, blen_take by lia. unfold k in *. lia.
  - intros (g & rest & -> & (x & d & Hwf & Hv & -> & Hd) & ->).
    rewrite !blen_app, FileSubRequest_wire_length.
    pose proof (blen_nonneg rest). pose proof (blen_nonneg d).
    replace (_ <? 7) with false by lia.
    rewrite slice_to_Ok by (rewrite !blen_app, FileSubRequest_wire_length; lia). cbn [rbind].
    change (Z.to_nat 7) with (length (FileSubRequest_wire x)).
    rewrite <-app_assoc, take_app_length.
    rewrite (proj2 (check_agrees (FileSubRequest_wire x) x eq_refl)) by by apply FileSubRequest_decode_wire.
    cbn [rbind]. replace (_ <? _) with false by lia. f_equal. lia.
Qed.
Lemma write_group_pos g : write_group g → 0 < blen g.
Proof.
  intros (x & d & _ & _ & -> & _). rewrite blen_app, FileSubRequest_wire_length.
  pose proof (blen_nonneg d). lia.
Qed.
Lemma write_step_returns l : bytes_ok l → returns (write_step l).
Proof.
  intros. unfold write_step. case_match; [done|]. rewrite slice_to_Ok by lia. simpl.
  apply rbind_returns; [by auto with modbus|]. intros. by case_match.
Qed.
End WriteWalk.

Lemma validate_write_file_sub_requests_Ok p : bytes_ok p →
  validate_write_file_sub_requests p = Ok tt ↔ groups write_group p.
Proof.
  apply consume_Ok; [|exact write_group_pos]. intros. by apply (write_step_Ok FileSubRequest.decode).
Qed.
Lemma validate_write_file_sub_requests_encode_Ok p : bytes_ok p →
  validate_write_file_sub_requests_encode p = Ok tt ↔ groups write_group p.
Proof.
  apply consume_Ok; [|exact write_group_pos]. intros.
  apply (write_step_Ok validate_file_sub_request_encode); [|done].
  apply validate_file_sub_request_encode_agrees.
Qed.
Lemma validate_write_file_sub_requests_returns p :
  bytes_ok p → returns (validate_write_file_sub_requests p).
Proof.
  apply (consume_returns _ write_group); [|exact write_group_pos|]; intros.
  - by apply (write_step_Ok FileSubRequest.decode).
  - apply (write_step_returns FileSubRequest.decode); [|done]. apply FileSubRequest_decode_returns.
Qed.
Lemma validate_write_file_sub_requests_encode_returns p :
  bytes_ok p → returns (validate_write_file_sub_requests_encode p).
Proof.
  apply (consume_returns _ write_group); [|exact write_group_pos|]; intros.
  - apply (write_step_Ok validate_file_sub_request_encode); [|done].
    apply validate_file_sub_request_encode_agrees.
  - apply (write_step_returns validate_file_sub_request_encode); [|done].
    apply validate_file_sub_request_encode_returns.
Qed.
#[export] Hint Resolve validate_read_file_sub_requests_returns validate_write_file_sub_requests_returns
  validate_read_file_sub_requests_encode_returns validate_write_file_sub_requests_encode_returns : modbus.

(** ** The codec contract of FC 14 and FC 15 requests *)
#[export] Instance ReadFileRecordRequest_Encode : Encode ReadFileRecordRequest.t :=
  {| encode_into := ReadFileRecordRequest.encode_into; encoded_len := ReadFileRecordRequest.encoded_len |}.
Definition ReadFileRecordRequest_wf (x : ReadFileRecordRequest.t) : Prop :=
  is_u8 (ReadFileRecordRequest.byte_count x) ∧ bytes_ok (ReadFileRecordRequest.sub_requests x).
Definition ReadFileRecordRequest_wire (x : ReadFileRecordRequest.t) : bytes :=
  0x14 :: (ReadFileRecordRequest.byte_count x) :: (ReadFileRecordRequest.sub_requests x).
Definition ReadFileRecordRequest_encodable (x : ReadFileRecordRequest.t) : Prop :=
  7 ≤ (ReadFileRecordRequest.byte_count x) ≤ 245
  ∧ (ReadFileRecordRequest.byte_count x) = blen (ReadFileRecordRequest.sub_requests x) ∧ groups read_group (ReadFileRecordRequest.sub_requests x).
#[export] Hint Unfold ReadFileRecordRequest.decode ReadFileRecordRequest.encode_into
  ReadFileRecordRequest.encoded_len ReadFileRecordRequest_wf ReadFileRecordRequest_wire
  ReadFileRecordRequest_encodable : codec.
#[export] Instance ReadFileRecordRequest_spec : EncodeSpec ReadFileRecordRequest.t.
Proof.
  refine {| wf := ReadFileRecordRequest_wf; wire := ReadFileRecordRequest_wire; encodable := ReadFileRecordRequest_encodable |}.
  - intros x buf Hwf Hen Hl. codec_open x.
    assert (validate_read_file_sub_requests_encode sub_requests = Ok tt) by by apply validate_read_file_sub_requests_encode_Ok.
    enc_ok.
  - intros x buf Hl. simpl in *. autounfold with codec in *. enc_short.
  - intros x buf Hwf Hl. codec_open x.
    enc_reject ltac:(destruct a1; rewrite validate_read_file_sub_requests_encode_Ok in Hr1 by done; split_and!; [enc_arith..|done]).
  - intros x Hwf Hen. codec_open x. enc_arith.
  - intros x Hwf. codec_open x. bytes_ok_solve.
  - intros x Hwf Hen. codec_open x. enc_arith.
Defined.
#[export] Instance ReadFileRecordRequest_codec : PduCodec ReadFileRecordRequest.t 0x14 ReadFileRecordRequest.decode.
Proof.
  refine {| decodable := ReadFileRecordRequest_encodable |}.
  - intros x Hwf Hd. eexists; split; [reflexivity|]. codec_open x.
    dec_run. simpl. by rewrite (proj2 (validate_read_file_sub_requests_Ok sub_requests ltac:(done))).
  - intros data x Hb. autounfold with codec. cells data 1%nat; [done|]. rewrite is_empty_cons.
    apply bytes_ok_cons in Hb as [Hb0 Hb]. dec_cases; try done. rewrite rbind_Ok.
    intros ([] & Hv & Hx). injection Hx as <-. apply validate_read_file_sub_requests_Ok in Hv; [|done]. simpl.
    autounfold with codec. simpl. split_and!; try done; dec_arith.
  - intros data Hb. autounfold with codec. cells data 1%nat; [done|]. rewrite is_empty_cons.
    apply bytes_ok_cons in Hb as [Hb0 Hb]. dec_cases; try done.
    apply rbind_returns; [by auto with modbus|done].
Defined.

#[export] Instance WriteFileRecordRequest_Encode : Encode WriteFileRecordRequest.t :=
  {| encode_into := WriteFileRecordRequest.encode_into; encoded_len := WriteFileRecordRequest.encoded_len |}.
Definition WriteFileRecordRequest_wf (x : WriteFileRecordRequest.t) : Prop :=
  is_u8 (WriteFileRecordRequest.byte_count x) ∧ bytes_ok (WriteFileRecordRequest.sub_requests x).
Definition WriteFileRecordRequest_wire (x : WriteFileRecordRequest.t) : bytes :=
  0x15 :: (WriteFileRecordRequest.byte_count x) :: (WriteFileRecordRequest.sub_requests x).
Definition WriteFileRecordRequest_encodable (x : WriteFileRecordRequest.t) : Prop :=
  9 ≤ (WriteFileRecordRequest.byte_count x) ≤ 251
  ∧ (WriteFileRecordRequest.byte_count x) = blen (WriteFileRecordRequest.sub_requests x) ∧ groups write_group (WriteFileRecordRequest.sub_requests x).
#[export] Hint Unfold WriteFileRecordRequest.decode WriteFileRecordRequest.encode_into
  WriteFileRecordRequest.encoded_len WriteFileRecordRequest_wf WriteFileRecordRequest_wire
  WriteFileRecordRequest_encodable : codec.
#[export] Instance WriteFileRecordRequest_spec : EncodeSpec WriteFileRecordRequest.t.
Proof.
  refine {| wf := WriteFileRecordRequest_wf; wire := WriteFileRecordRequest_wire; encodable := WriteFileRecordRequest_encodable |}.
  - intros x buf Hwf Hen Hl. codec_open x.
    assert (validate_write_file_sub_requests_encode sub_requests = Ok tt) by by apply validate_write_file_sub_requests_encode_Ok.
    enc_ok.
  - intros x buf Hl. simpl in *. autounfold with codec in *. enc_short.
  - intros x buf Hwf Hl. codec_open x.
    enc_reject ltac:(destruct a1; rewrite validate_write_file_sub_requests_encode_Ok in Hr1 by done; split_and!; [enc_arith..|done]).
  - intros x Hwf Hen. codec_open x. enc_arith.
  - intros x Hwf. codec_open x. bytes_ok_solve.
  - intros x Hwf Hen. codec_open x. enc_arith.
Defined.
#[export] Instance WriteFileRecordRequest_codec : PduCodec WriteFileRecordRequest.t 0x15 WriteFileRecordRequest.decode.
Proof.
  refine {| decodable := WriteFileRecordRequest_encodable |}.
  - intros x Hwf Hd. eexists; split; [reflexivity|]. codec_open x.
    dec_run. simpl. by rewrite (proj2 (validate_write_file_sub_requests_Ok sub_requests ltac:(done))).
  - intros data x Hb. autounfold with codec. cells data 1%nat; [done|]. rewrite is_empty_cons.
    apply bytes_ok_cons in Hb as [Hb0 Hb]. dec_cases; try done. rewrite rbind_Ok.
    intros ([] & Hv & Hx). injection Hx as <-. apply validate_write_file_sub_requests_Ok in Hv; [|done]. simpl.
    autounfold with codec. simpl. split_and!; try done; dec_arith.
  - intros data Hb. autounfold with codec. cells data 1%nat; [done|]. rewrite is_empty_cons.
    apply bytes_ok_cons in Hb as [Hb0 Hb]. dec_cases; try done.
    apply rbind_returns; [by auto with modbus|done].
Defined.

