(* ===== verification/Requests.v ===== *)
(** * Request PDUs (crates/rusty-modbus-codec/src/request)

    One module per request type, holding its record, its [decode] and its
    [encode_into] in the order of the source. The instances after each module
    discharge the codec's contract for it: [X_wf] states the ranges of the
    field types, [X_wire] the PDU the Modbus specification gives the request
    and [X_encodable] (where the decoder accepts a different set,
    [X_decodable]) the protocol conditions on the fields. *)
From S2P Require Import Prelude Types CodecError.
Import DecodeError.

(** ** FC 01-04: bit and register reads (bit_read.rs, reg_read.rs) *)
Module ReadCoilsRequest.
Record t : Type := mk { address : Z; quantity : Z }.
Definition MAX_QUANTITY : Z := 2000.

Definition decode (data : bytes) : res DecodeError.t t :=
  do? check_exact_len data 4 in
  let? address := be16_at data 0 1 in
  let? quantity := be16_at data 2 3 in
  if (quantity =? 0) || (MAX_QUANTITY <? quantity) then Err (QuantityOutOfRange quantity)
  else Ok (mk address quantity).

Definition encoded_len (self : t) : Z := 5.

Definition encode_into (self : t) : ST bytes EncodeError.t Z :=
  let len := encoded_len self in
  EncodeError.check_buffer len;;;
  st_lift (EncodeError.check_quantity (quantity self) MAX_QUANTITY);;;
  st_lift (EncodeError.check_pdu_len len);;;
  buf_set 0 (FunctionCode.code FunctionCode.ReadCoils);;;
  buf_copy 1 3 (to_be_bytes (address self));;;
  buf_copy 3 5 (to_be_bytes (quantity self));;;
  st_ret len.
End ReadCoilsRequest.

#[export] Instance ReadCoilsRequest_Encode : Encode ReadCoilsRequest.t :=
  {| encode_into := ReadCoilsRequest.encode_into; encoded_len := ReadCoilsRequest.encoded_len |}.
Definition ReadCoilsRequest_wf (x : ReadCoilsRequest.t) : Prop :=
  is_u16 (ReadCoilsRequest.address x) ∧ is_u16 (ReadCoilsRequest.quantity x).
Definition ReadCoilsRequest_wire (x : ReadCoilsRequest.t) : bytes :=
  0x01 :: to_be_bytes (ReadCoilsRequest.address x) ++ to_be_bytes (ReadCoilsRequest.quantity x).
Definition ReadCoilsRequest_encodable (x : ReadCoilsRequest.t) : Prop :=
  1 ≤ (ReadCoilsRequest.quantity x) ≤ 2000.
#[export] Hint Unfold ReadCoilsRequest.decode ReadCoilsRequest.encode_into
  ReadCoilsRequest.encoded_len ReadCoilsRequest.MAX_QUANTITY ReadCoilsRequest_wf
  ReadCoilsRequest_wire ReadCoilsRequest_encodable : codec.
#[export] Instance ReadCoilsRequest_spec : EncodeSpec ReadCoilsRequest.t.
Proof.
  refine {| wf := ReadCoilsRequest_wf; wire := ReadCoilsRequest_wire; encodable := ReadCoilsRequest_encodable |}.
  all: enc_spec.
Defined.
#[export] Instance ReadCoilsRequest_codec : PduCodec ReadCoilsRequest.t 0x01 ReadCoilsRequest.decode.
Proof.
  refine {| decodable := ReadCoilsRequest_encodable |}.
  - dec_complete.
  - dec_sound 4%nat.
  - dec_returns 4%nat.
Defined.

Module ReadDiscreteInputsRequest.
Record t : Type := mk { address : Z; quantity : Z }.
Definition MAX_QUANTITY : Z := 2000.

Definition decode (data : bytes) : res DecodeError.t t :=
  do? check_exact_len data 4 in
  let? address := be16_at data 0 1 in
  let? quantity := be16_at data 2 3 in
  if (quantity =? 0) || (MAX_QUANTITY <? quantity) then Err (QuantityOutOfRange quantity)
  else Ok (mk address quantity).

Definition encoded_len (self : t) : Z := 5.

Definition encode_into (self : t) : ST bytes EncodeError.t Z :=
  let len := encoded_len self in
  EncodeError.check_buffer len;;;
  st_lift (EncodeError.check_quantity (quantity self) MAX_QUANTITY);;;
  st_lift (EncodeError.check_pdu_len len);;;
  buf_set 0 (FunctionCode.code FunctionCode.ReadDiscreteInputs);;;
  buf_copy 1 3 (to_be_bytes (address self));;;
  buf_copy 3 5 (to_be_bytes (quantity self));;;
  st_ret len.
End ReadDiscreteInputsRequest.

#[export] Instance ReadDiscreteInputsRequest_Encode : Encode ReadDiscreteInputsRequest.t :=
  {| encode_into := ReadDiscreteInputsRequest.encode_into; encoded_len := ReadDiscreteInputsRequest.encoded_len |}.
Definition ReadDiscreteInputsRequest_wf (x : ReadDiscreteInputsRequest.t) : Prop :=
  is_u16 (ReadDiscreteInputsRequest.address x) ∧ is_u16 (ReadDiscreteInputsRequest.quantity x).
Definition ReadDiscreteInputsRequest_wire (x : ReadDiscreteInputsRequest.t) : bytes :=
  0x02 :: to_be_bytes (ReadDiscreteInputsRequest.address x) ++ to_be_bytes (ReadDiscreteInputsRequest.quantity x).
Definition ReadDiscreteInputsRequest_encodable (x : ReadDiscreteInputsRequest.t) : Prop :=
  1 ≤ (ReadDiscreteInputsRequest.quantity x) ≤ 2000.
#[export] Hint Unfold ReadDiscreteInputsRequest.decode ReadDiscreteInputsRequest.encode_into
  ReadDiscreteInputsRequest.encoded_len ReadDiscreteInputsRequest.MAX_QUANTITY
  ReadDiscreteInputsRequest_wf ReadDiscreteInputsRequest_wire
  ReadDiscreteInputsRequest_encodable : codec.
#[export] Instance ReadDiscreteInputsRequest_spec : EncodeSpec ReadDiscreteInputsRequest.t.
Proof.
  refine {| wf := ReadDiscreteInputsRequest_wf; wire := ReadDiscreteInputsRequest_wire; encodable := ReadDiscreteInputsRequest_encodable |}.
  all: enc_spec.
Defined.
#[export] Instance ReadDiscreteInputsRequest_codec : PduCodec ReadDiscreteInputsRequest.t 0x02 ReadDiscreteInputsRequest.decode.
Proof.
  refine {| decodable := ReadDiscreteInputsRequest_encodable |}.
  - dec_complete.
  - dec_sound 4%nat.
  - dec_returns 4%nat.
Defined.

Module ReadHoldingRegistersRequest.
Record t : Type := mk { address : Z; quantity : Z }.
Definition MAX_QUANTITY : Z := 125.

Definition decode (data : bytes) : res DecodeError.t t :=
  do? check_exact_len data 4 in
  let? address := be16_at data 0 1 in
  let? quantity := be16_at data 2 3 in
  if (quantity =? 0) || (MAX_QUANTITY <? quantity) then Err (QuantityOutOfRange quantity)
  else Ok (mk address quantity).

Definition encoded_len (self : t) : Z := 5.

Definition encode_into (self : t) : ST bytes EncodeError.t Z :=
  let len := encoded_len self in
  EncodeError.check_buffer len;;;
  st_lift (EncodeError.check_quantity (quantity self) MAX_QUANTITY);;;
  st_lift (EncodeError.check_pdu_len len);;;
  buf_set 0 (FunctionCode.code FunctionCode.ReadHoldingRegisters);;;
  buf_copy 1 3 (to_be_bytes (address self));;;
  buf_copy 3 5 (to_be_bytes (quantity self));;;
  st_ret len.
End ReadHoldingRegistersRequest.

#[export] Instance ReadHoldingRegistersRequest_Encode : Encode ReadHoldingRegistersRequest.t :=
  {| encode_into := ReadHoldingRegistersRequest.encode_into; encoded_len := ReadHoldingRegistersRequest.encoded_len |}.
Definition ReadHoldingRegistersRequest_wf (x : ReadHoldingRegistersRequest.t) : Prop :=
  is_u16 (ReadHoldingRegistersRequest.address x) ∧ is_u16 (ReadHoldingRegistersRequest.quantity x).
Definition ReadHoldingRegistersRequest_wire (x : ReadHoldingRegistersRequest.t) : bytes :=
  0x03 :: to_be_bytes (ReadHoldingRegistersRequest.address x) ++ to_be_bytes (ReadHoldingRegistersRequest.quantity x).
Definition ReadHoldingRegistersRequest_encodable (x : ReadHoldingRegistersRequest.t) : Prop :=
  1 ≤ (ReadHoldingRegistersRequest.quantity x) ≤ 125.
#[export] Hint Unfold ReadHoldingRegistersRequest.decode ReadHoldingRegistersRequest.encode_into
  ReadHoldingRegistersRequest.encoded_len ReadHoldingRegistersRequest.MAX_QUANTITY
  ReadHoldingRegistersRequest_wf ReadHoldingRegistersRequest_wire
  ReadHoldingRegistersRequest_encodable : codec.
#[export] Instance ReadHoldingRegistersRequest_spec : EncodeSpec ReadHoldingRegistersRequest.t.
Proof.
  refine {| wf := ReadHoldingRegistersRequest_wf; wire := ReadHoldingRegistersRequest_wire; encodable := ReadHoldingRegistersRequest_encodable |}.
  all: enc_spec.
Defined.
#[export] Instance ReadHoldingRegistersRequest_codec : PduCodec ReadHoldingRegistersRequest.t 0x03 ReadHoldingRegistersRequest.decode.
Proof.
  refine {| decodable := ReadHoldingRegistersRequest_encodable |}.
  - dec_complete.
  - dec_sound 4%nat.
  - dec_returns 4%nat.
Defined.

Module ReadInputRegistersRequest.
Record t : Type := mk { address : Z; quantity : Z }.
Definition MAX_QUANTITY : Z := 125.

Definition decode (data : bytes) : res DecodeError.t t :=
  do? check_exact_len data 4 in
  let? address := be16_at data 0 1 in
  let? quantity := be16_at data 2 3 in
  if (quantity =? 0) || (MAX_QUANTITY <? quantity) then Err (QuantityOutOfRange quantity)
  else Ok (mk address quantity).

Definition encoded_len (self : t) : Z := 5.

Definition encode_into (self : t) : ST bytes EncodeError.t Z :=
  let len := encoded_len self in
  EncodeError.check_buffer len;;;
  st_lift (EncodeError.check_quantity (quantity self) MAX_QUANTITY);;;
  st_lift (EncodeError.check_pdu_len len);;;
  buf_set 0 (FunctionCode.code FunctionCode.ReadInputRegisters);;;
  buf_copy 1 3 (to_be_bytes (address self));;;
  buf_copy 3 5 (to_be_bytes (quantity self));;;
  st_ret len.
End ReadInputRegistersRequest.

#[export] Instance ReadInputRegistersRequest_Encode : Encode ReadInputRegistersRequest.t :=
  {| encode_into := ReadInputRegistersRequest.encode_into; encoded_len := ReadInputRegistersRequest.encoded_len |}.
Definition ReadInputRegistersRequest_wf (x : ReadInputRegistersRequest.t) : Prop :=
  is_u16 (ReadInputRegistersRequest.address x) ∧ is_u16 (ReadInputRegistersRequest.quantity x).
Definition ReadInputRegistersRequest_wire (x : ReadInputRegistersRequest.t) : bytes :=
  0x04 :: to_be_bytes (ReadInputRegistersRequest.address x) ++ to_be_bytes (ReadInputRegistersRequest.quantity x).
Definition ReadInputRegistersRequest_encodable (x : ReadInputRegistersRequest.t) : Prop :=
  1 ≤ (ReadInputRegistersRequest.quantity x) ≤ 125.
#[export] Hint Unfold ReadInputRegistersRequest.decode ReadInputRegistersRequest.encode_into
  ReadInputRegistersRequest.encoded_len ReadInputRegistersRequest.MAX_QUANTITY
  ReadInputRegistersRequest_wf ReadInputRegistersRequest_wire
  ReadInputRegistersRequest_encodable : codec.
#[export] Instance ReadInputRegistersRequest_spec : EncodeSpec ReadInputRegistersRequest.t.
Proof.
  refine {| wf := ReadInputRegistersRequest_wf; wire := ReadInputRegistersRequest_wire; encodable := ReadInputRegistersRequest_encodable |}.
  all: enc_spec.
Defined.
#[export] Instance ReadInputRegistersRequest_codec : PduCodec ReadInputRegistersRequest.t 0x04 ReadInputRegistersRequest.decode.
Proof.
  refine {| decodable := ReadInputRegistersRequest_encodable |}.
  - dec_complete.
  - dec_sound 4%nat.
  - dec_returns 4%nat.
Defined.

(** ** FC 05 and FC 0F: bit writes (bit_write.rs) *)
Module WriteSingleCoilRequest.
Record t : Type := mk { address : Z; value : CoilValue.t }.

Definition decode (data : bytes) : res DecodeError.t t :=
  do? check_exact_len data 4 in
  let? address := be16_at data 0 1 in
  let? raw_value := be16_at data 2 3 in
  let? value := ok_or (CoilValue.from_wire raw_value) (InvalidCoilValue raw_value) in
  Ok (mk address value).

Definition encoded_len (self : t) : Z := 5.

Definition encode_into (self : t) : ST bytes EncodeError.t Z :=
  let len := encoded_len self in
  EncodeError.check_buffer len;;;
  st_lift (EncodeError.check_pdu_len len);;;
  buf_set 0 (FunctionCode.code FunctionCode.WriteSingleCoil);;;
  buf_copy 1 3 (to_be_bytes (address self));;;
  buf_copy 3 5 (to_be_bytes (CoilValue.to_wire (value self)));;;
  st_ret len.
End WriteSingleCoilRequest.

#[export] Instance WriteSingleCoilRequest_Encode : Encode WriteSingleCoilRequest.t :=
  {| encode_into := WriteSingleCoilRequest.encode_into; encoded_len := WriteSingleCoilRequest.encoded_len |}.
Definition WriteSingleCoilRequest_wf (x : WriteSingleCoilRequest.t) : Prop :=
  is_u16 (WriteSingleCoilRequest.address x).
Definition WriteSingleCoilRequest_wire (x : WriteSingleCoilRequest.t) : bytes :=
  0x05 :: to_be_bytes (WriteSingleCoilRequest.address x) ++ to_be_bytes (CoilValue.to_wire (WriteSingleCoilRequest.value x)).
Definition WriteSingleCoilRequest_encodable (x : WriteSingleCoilRequest.t) : Prop :=
  True.
#[export] Hint Unfold WriteSingleCoilRequest.decode WriteSingleCoilRequest.encode_into
  WriteSingleCoilRequest.encoded_len WriteSingleCoilRequest_wf WriteSingleCoilRequest_wire
  WriteSingleCoilRequest_encodable : codec.
#[export] Instance WriteSingleCoilRequest_spec : EncodeSpec WriteSingleCoilRequest.t.
Proof.
  refine {| wf := WriteSingleCoilRequest_wf; wire := WriteSingleCoilRequest_wire; encodable := WriteSingleCoilRequest_encodable |}.
  all: enc_spec.
Defined.
#[export] Instance WriteSingleCoilRequest_codec : PduCodec WriteSingleCoilRequest.t 0x05 WriteSingleCoilRequest.decode.
Proof.
  refine {| decodable := WriteSingleCoilRequest_encodable |}.
  - dec_complete.
  - dec_sound 4%nat.
  - dec_returns 4%nat.
Defined.

Module WriteMultipleCoilsRequest.
Record t : Type := mk { address : Z; quantity : Z; byte_count : Z; coil_values : bytes }.
Definition MAX_QUANTITY : Z := 1968.

Definition decode (data : bytes) : res DecodeError.t t :=
  if blen data <? 5 then Err (Truncated 5 (blen data)) else
  let? address := be16_at data 0 1 in
  let? quantity := be16_at data 2 3 in
  if (quantity =? 0) || (MAX_QUANTITY <? quantity) then Err (QuantityOutOfRange quantity) else
  let? byte_count := idx data 4 in
  let expected_bytes := div_ceil quantity 8 in
  if negb (byte_count =? expected_bytes) then Err (ByteCountMismatch byte_count expected_bytes) else
  let? remaining := usub (blen data) 5 in
  if negb (byte_count =? remaining) then Err (ByteCountMismatch byte_count remaining) else
  let? coil_values := slice_from data 5 in
  Ok (mk address quantity byte_count coil_values).

Definition encoded_len (self : t) : Z := 6 + blen (coil_values self).

Definition encode_into (self : t) : ST bytes EncodeError.t Z :=
  let len := encoded_len self in
  EncodeError.check_buffer len;;;
  st_lift (EncodeError.check_quantity (quantity self) MAX_QUANTITY);;;
  let expected_bytes := div_ceil (quantity self) 8 in
  st_lift (EncodeError.check_byte_count (byte_count self) expected_bytes);;;
  st_lift (EncodeError.check_byte_count expected_bytes (blen (coil_values self)));;;
  st_lift (EncodeError.check_pdu_len len);;;
  buf_set 0 (FunctionCode.code FunctionCode.WriteMultipleCoils);;;
  buf_copy 1 3 (to_be_bytes (address self));;;
  buf_copy 3 5 (to_be_bytes (quantity self));;;
  buf_set 5 (byte_count self);;;
  buf_copy 6 (6 + blen (coil_values self)) (coil_values self);;;
  st_ret len.
End WriteMultipleCoilsRequest.

#[export] Instance WriteMultipleCoilsRequest_Encode : Encode WriteMultipleCoilsRequest.t :=
  {| encode_into := WriteMultipleCoilsRequest.encode_into; encoded_len := WriteMultipleCoilsRequest.encoded_len |}.
Definition WriteMultipleCoilsRequest_wf (x : WriteMultipleCoilsRequest.t) : Prop :=
  is_u16 (WriteMultipleCoilsRequest.address x) ∧ is_u16 (WriteMultipleCoilsRequest.quantity x) ∧ is_u8 (WriteMultipleCoilsRequest.byte_count x) ∧ bytes_ok (WriteMultipleCoilsRequest.coil_values x).
Definition WriteMultipleCoilsRequest_wire (x : WriteMultipleCoilsRequest.t) : bytes :=
  0x0F :: to_be_bytes (WriteMultipleCoilsRequest.address x) ++ to_be_bytes (WriteMultipleCoilsRequest.quantity x) ++ (WriteMultipleCoilsRequest.byte_count x) :: (WriteMultipleCoilsRequest.coil_values x).
Definition WriteMultipleCoilsRequest_encodable (x : WriteMultipleCoilsRequest.t) : Prop :=
  1 ≤ (WriteMultipleCoilsRequest.quantity x) ≤ 1968
  ∧ (WriteMultipleCoilsRequest.byte_count x) = ((WriteMultipleCoilsRequest.quantity x) + 7) / 8 ∧ blen (WriteMultipleCoilsRequest.coil_values x) = ((WriteMultipleCoilsRequest.quantity x) + 7) / 8.
#[export] Hint Unfold WriteMultipleCoilsRequest.decode WriteMultipleCoilsRequest.encode_into
  WriteMultipleCoilsRequest.encoded_len WriteMultipleCoilsRequest.MAX_QUANTITY
  WriteMultipleCoilsRequest_wf WriteMultipleCoilsRequest_wire
  WriteMultipleCoilsRequest_encodable div_ceil : codec.
#[export] Instance WriteMultipleCoilsRequest_spec : EncodeSpec WriteMultipleCoilsRequest.t.
Proof.
  refine {| wf := WriteMultipleCoilsRequest_wf; wire := WriteMultipleCoilsRequest_wire; encodable := WriteMultipleCoilsRequest_encodable |}.
  all: enc_spec.
Defined.
#[export] Instance WriteMultipleCoilsRequest_codec : PduCodec WriteMultipleCoilsRequest.t 0x0F WriteMultipleCoilsRequest.decode.
Proof.
  refine {| decodable := WriteMultipleCoilsRequest_encodable |}.
  - dec_complete.
  - dec_sound 5%nat.
  - dec_returns 5%nat.
Defined.

(** ** FC 06, 10, 16 and 17: register writes (reg_write.rs) *)
Module WriteSingleRegisterRequest.
Record t : Type := mk { address : Z; value : Z }.

Definition decode (data : bytes) : res DecodeError.t t :=
  do? check_exact_len data 4 in
  let? address := be16_at data 0 1 in
  let? value := be16_at data 2 3 in
  Ok (mk address value).

Definition encoded_len (self : t) : Z := 5.

Definition encode_into (self : t) : ST bytes EncodeError.t Z :=
  let len := encoded_len self in
  EncodeError.check_buffer len;;;
  st_lift (EncodeError.check_pdu_len len);;;
  buf_set 0 (FunctionCode.code FunctionCode.WriteSingleRegister);;;
  buf_copy 1 3 (to_be_bytes (address self));;;
  buf_copy 3 5 (to_be_bytes (value self));;;
  st_ret len.
End WriteSingleRegisterRequest.

#[export] Instance WriteSingleRegisterRequest_Encode : Encode WriteSingleRegisterRequest.t :=
  {| encode_into := WriteSingleRegisterRequest.encode_into; encoded_len := WriteSingleRegisterRequest.encoded_len |}.
Definition WriteSingleRegisterRequest_wf (x : WriteSingleRegisterRequest.t) : Prop :=
  is_u16 (WriteSingleRegisterRequest.address x) ∧ is_u16 (WriteSingleRegisterRequest.value x).
Definition WriteSingleRegisterRequest_wire (x : WriteSingleRegisterRequest.t) : bytes :=
  0x06 :: to_be_bytes (WriteSingleRegisterRequest.address x) ++ to_be_bytes (WriteSingleRegisterRequest.value x).
Definition WriteSingleRegisterRequest_encodable (x : WriteSingleRegisterRequest.t) : Prop :=
  True.
#[export] Hint Unfold WriteSingleRegisterRequest.decode WriteSingleRegisterRequest.encode_into
  WriteSingleRegisterRequest.encoded_len WriteSingleRegisterRequest_wf
  WriteSingleRegisterRequest_wire WriteSingleRegisterRequest_encodable : codec.
#[export] Instance WriteSingleRegisterRequest_spec : EncodeSpec WriteSingleRegisterRequest.t.
Proof.
  refine {| wf := WriteSingleRegisterRequest_wf; wire := WriteSingleRegisterRequest_wire; encodable := WriteSingleRegisterRequest_encodable |}.
  all: enc_spec.
Defined.
#[export] Instance WriteSingleRegisterRequest_codec : PduCodec WriteSingleRegisterRequest.t 0x06 WriteSingleRegisterRequest.decode.
Proof.
  refine {| decodable := WriteSingleRegisterRequest_encodable |}.
  - dec_complete.
  - dec_sound 4%nat.
  - dec_returns 4%nat.
Defined.

Module WriteMultipleRegistersRequest.
Record t : Type := mk { address : Z; quantity : Z; byte_count : Z; register_values : bytes }.
Definition MAX_QUANTITY : Z := 123.

Definition decode (data : bytes) : res DecodeError.t t :=
  if blen data <? 5 then Err (Truncated 5 (blen data)) else
  let? address := be16_at data 0 1 in
  let? quantity := be16_at data 2 3 in
  if (quantity =? 0) || (MAX_QUANTITY <? quantity) then Err (QuantityOutOfRange quantity) else
  let? byte_count := idx data 4 in
  if negb (byte_count =? quantity * 2) then Err (ByteCountMismatch byte_count (quantity * 2)) else
  let? remaining := usub (blen data) 5 in
  if negb (byte_count =? remaining) then Err (ByteCountMismatch byte_count remaining) else
  let? register_values := slice_from data 5 in
  Ok (mk address quantity byte_count register_values).

Definition encoded_len (self : t) : Z := 6 + blen (register_values self).

Definition encode_into (self : t) : ST bytes EncodeError.t Z :=
  let len := encoded_len self in
  EncodeError.check_buffer len;;;
  st_lift (EncodeError.check_quantity (quantity self) MAX_QUANTITY);;;
  let expected_bytes := quantity self * 2 in
  st_lift (EncodeError.check_byte_count (byte_count self) expected_bytes);;;
  st_lift (EncodeError.check_byte_count expected_bytes (blen (register_values self)));;;
  st_lift (EncodeError.check_pdu_len len);;;
  buf_set 0 (FunctionCode.code FunctionCode.WriteMultipleRegisters);;;
  buf_copy 1 3 (to_be_bytes (address self));;;
  buf_copy 3 5 (to_be_bytes (quantity self));;;
  buf_set 5 (byte_count self);;;
  buf_copy 6 (6 + blen (register_values self)) (register_values self);;;
  st_ret len.
End WriteMultipleRegistersRequest.

#[export] Instance WriteMultipleRegistersRequest_Encode : Encode WriteMultipleRegistersRequest.t :=
  {| encode_into := WriteMultipleRegistersRequest.encode_into; encoded_len := WriteMultipleRegistersRequest.encoded_len |}.
Definition WriteMultipleRegistersRequest_wf (x : WriteMultipleRegistersRequest.t) : Prop :=
  is_u16 (WriteMultipleRegistersRequest.address x) ∧ is_u16 (WriteMultipleRegistersRequest.quantity x) ∧ is_u8 (WriteMultipleRegistersRequest.byte_count x) ∧ bytes_ok (WriteMultipleRegistersRequest.register_values x).
Definition WriteMultipleRegistersRequest_wire (x : WriteMultipleRegistersRequest.t) : bytes :=
  0x10 :: to_be_bytes (WriteMultipleRegistersRequest.address x) ++ to_be_bytes (WriteMultipleRegistersRequest.quantity x) ++ (WriteMultipleRegistersRequest.byte_count x) :: (WriteMultipleRegistersRequest.register_values x).
Definition WriteMultipleRegistersRequest_encodable (x : WriteMultipleRegistersRequest.t) : Prop :=
  1 ≤ (WriteMultipleRegistersRequest.quantity x) ≤ 123
  ∧ (WriteMultipleRegistersRequest.byte_count x) = 2 * (WriteMultipleRegistersRequest.quantity x) ∧ blen (WriteMultipleRegistersRequest.register_values x) = 2 * (WriteMultipleRegistersRequest.quantity x).
#[export] Hint Unfold WriteMultipleRegistersRequest.decode
  WriteMultipleRegistersRequest.encode_into WriteMultipleRegistersRequest.encoded_len
  WriteMultipleRegistersRequest.MAX_QUANTITY WriteMultipleRegistersRequest_wf
  WriteMultipleRegistersRequest_wire WriteMultipleRegistersRequest_encodable : codec.
#[export] Instance WriteMultipleRegistersRequest_spec : EncodeSpec WriteMultipleRegistersRequest.t.
Proof.
  refine {| wf := WriteMultipleRegistersRequest_wf; wire := WriteMultipleRegistersRequest_wire; encodable := WriteMultipleRegistersRequest_encodable |}.
  all: enc_spec.
Defined.
#[export] Instance WriteMultipleRegistersRequest_codec : PduCodec WriteMultipleRegistersRequest.t 0x10 WriteMultipleRegistersRequest.decode.
Proof.
  refine {| decodable := WriteMultipleRegistersRequest_encodable |}.
  - dec_complete.
  - dec_sound 5%nat.
  - dec_returns 5%nat.
Defined.

Module MaskWriteRegisterRequest.
Record t : Type := mk { address : Z; and_mask : Z; or_mask : Z }.

Definition decode (data : bytes) : res DecodeError.t t :=
  do? check_exact_len data 6 in
  let? address := be16_at data 0 1 in
  let? and_mask := be16_at data 2 3 in
  let? or_mask := be16_at data 4 5 in
  Ok (mk address and_mask or_mask).

Definition encoded_len (self : t) : Z := 7.

Definition encode_into (self : t) : ST bytes EncodeError.t Z :=
  let len := encoded_len self in
  EncodeError.check_buffer len;;;
  st_lift (EncodeError.check_pdu_len len);;;
  buf_set 0 (FunctionCode.code FunctionCode.MaskWriteRegister);;;
  buf_copy 1 3 (to_be_bytes (address self));;;
  buf_copy 3 5 (to_be_bytes (and_mask self));;;
  buf_copy 5 7 (to_be_bytes (or_mask self));;;
  st_ret len.
End MaskWriteRegisterRequest.

#[export] Instance MaskWriteRegisterRequest_Encode : Encode MaskWriteRegisterRequest.t :=
  {| encode_into := MaskWriteRegisterRequest.encode_into; encoded_len := MaskWriteRegisterRequest.encoded_len |}.
Definition MaskWriteRegisterRequest_wf (x : MaskWriteRegisterRequest.t) : Prop :=
  is_u16 (MaskWriteRegisterRequest.address x) ∧ is_u16 (MaskWriteRegisterRequest.and_mask x) ∧ is_u16 (MaskWriteRegisterRequest.or_mask x).
Definition MaskWriteRegisterRequest_wire (x : MaskWriteRegisterRequest.t) : bytes :=
  0x16 :: to_be_bytes (MaskWriteRegisterRequest.address x) ++ to_be_bytes (MaskWriteRegisterRequest.and_mask x)
    ++ to_be_bytes (MaskWriteRegisterRequest.or_mask x).
Definition MaskWriteRegisterRequest_encodable (x : MaskWriteRegisterRequest.t) : Prop :=
  True.
#[export] Hint Unfold MaskWriteRegisterRequest.decode MaskWriteRegisterRequest.encode_into
  MaskWriteRegisterRequest.encoded_len MaskWriteRegisterRequest_wf MaskWriteRegisterRequest_wire
  MaskWriteRegisterRequest_encodable : codec.
#[export] Instance MaskWriteRegisterRequest_spec : EncodeSpec MaskWriteRegisterRequest.t.
Proof.
  refine {| wf := MaskWriteRegisterRequest_wf; wire := MaskWriteRegisterRequest_wire; encodable := MaskWriteRegisterRequest_encodable |}.
  all: enc_spec.
Defined.
#[export] Instance MaskWriteRegisterRequest_codec : PduCodec MaskWriteRegisterRequest.t 0x16 MaskWriteRegisterRequest.decode.
Proof.
  refine {| decodable := MaskWriteRegisterRequest_encodable |}.
  - dec_complete.
  - dec_sound 6%nat.
  - dec_returns 6%nat.
Defined.

Module ReadWriteMultipleRegistersRequest.
Record t : Type := mk {
  read_address : Z;
  read_quantity : Z;
  write_address : Z;
  write_quantity : Z;
  write_byte_count : Z;
  write_register_values : bytes;
}.
Definition MAX_READ_QUANTITY : Z := 125.
Definition MAX_WRITE_QUANTITY : Z := 121.

Definition decode (data : bytes) : res DecodeError.t t :=
  if blen data <? 9 then Err (Truncated 9 (blen data)) else
  let? read_address := be16_at data 0 1 in
  let? read_quantity := be16_at data 2 3 in
  if (read_quantity =? 0) || (MAX_READ_QUANTITY <? read_quantity)
  then Err (QuantityOutOfRange read_quantity) else
  let? write_address := be16_at data 4 5 in
  let? write_quantity := be16_at data 6 7 in
  if (write_quantity =? 0) || (MAX_WRITE_QUANTITY <? write_quantity)
  then Err (QuantityOutOfRange write_quantity) else
  let? write_byte_count := idx data 8 in
  if negb (write_byte_count =? write_quantity * 2)
  then Err (ByteCountMismatch write_byte_count (write_quantity * 2)) else
  let? remaining := usub (blen data) 9 in
  if negb (write_byte_count =? remaining)
  then Err (ByteCountMismatch write_byte_count remaining) else
  let? write_register_values := slice_from data 9 in
  Ok (mk read_address read_quantity write_address write_quantity write_byte_count
         write_register_values).

Definition encoded_len (self : t) : Z := 10 + blen (write_register_values self).

Definition encode_into (self : t) : ST bytes EncodeError.t Z :=
  let len := encoded_len self in
  EncodeError.check_buffer len;;;
  st_lift (EncodeError.check_quantity (read_quantity self) MAX_READ_QUANTITY);;;
  st_lift (EncodeError.check_quantity (write_quantity self) MAX_WRITE_QUANTITY);;;
  let expected_bytes := write_quantity self * 2 in
  st_lift (EncodeError.check_byte_count (write_byte_count self) expected_bytes);;;
  st_lift (EncodeError.check_byte_count expected_bytes (blen (write_register_values self)));;;
  st_lift (EncodeError.check_pdu_len len);;;
  buf_set 0 (FunctionCode.code FunctionCode.ReadWriteMultipleRegisters);;;
  buf_copy 1 3 (to_be_bytes (read_address self));;;
  buf_copy 3 5 (to_be_bytes (read_quantity self));;;
  buf_copy 5 7 (to_be_bytes (write_address self));;;
  buf_copy 7 9 (to_be_bytes (write_quantity self));;;
  buf_set 9 (write_byte_count self);;;
  buf_copy 10 (10 + blen (write_register_values self)) (write_register_values self);;;
  st_ret len.
End ReadWriteMultipleRegistersRequest.

#[export] Instance ReadWriteMultipleRegistersRequest_Encode : Encode ReadWriteMultipleRegistersRequest.t :=
  {| encode_into := ReadWriteMultipleRegistersRequest.encode_into; encoded_len := ReadWriteMultipleRegistersRequest.encoded_len |}.
Definition ReadWriteMultipleRegistersRequest_wf (x : ReadWriteMultipleRegistersRequest.t) : Prop :=
  is_u16 (ReadWriteMultipleRegistersRequest.read_address x) ∧ is_u16 (ReadWriteMultipleRegistersRequest.read_quantity x)
  ∧ is_u16 (ReadWriteMultipleRegistersRequest.write_address x) ∧ is_u16 (ReadWriteMultipleRegistersRequest.write_quantity x)
  ∧ is_u8 (ReadWriteMultipleRegistersRequest.write_byte_count x) ∧ bytes_ok (ReadWriteMultipleRegistersRequest.write_register_values x).
Definition ReadWriteMultipleRegistersRequest_wire (x : ReadWriteMultipleRegistersRequest.t) : bytes :=
  0x17 :: to_be_bytes (ReadWriteMultipleRegistersRequest.read_address x) ++ to_be_bytes (ReadWriteMultipleRegistersRequest.read_quantity x)
    ++ to_be_bytes (ReadWriteMultipleRegistersRequest.write_address x) ++ to_be_bytes (ReadWriteMultipleRegistersRequest.write_quantity x)
    ++ (ReadWriteMultipleRegistersRequest.write_byte_count x) :: (ReadWriteMultipleRegistersRequest.write_register_values x).
Definition ReadWriteMultipleRegistersRequest_encodable (x : ReadWriteMultipleRegistersRequest.t) : Prop :=
  1 ≤ (ReadWriteMultipleRegistersRequest.read_quantity x) ≤ 125 ∧ 1 ≤ (ReadWriteMultipleRegistersRequest.write_quantity x) ≤ 121
  ∧ (ReadWriteMultipleRegistersRequest.write_byte_count x) = 2 * (ReadWriteMultipleRegistersRequest.write_quantity x)
  ∧ blen (ReadWriteMultipleRegistersRequest.write_register_values x) = 2 * (ReadWriteMultipleRegistersRequest.write_quantity x).
#[export] Hint Unfold ReadWriteMultipleRegistersRequest.decode
  ReadWriteMultipleRegistersRequest.encode_into ReadWriteMultipleRegistersRequest.encoded_len
  ReadWriteMultipleRegistersRequest.MAX_READ_QUANTITY
  ReadWriteMultipleRegistersRequest.MAX_WRITE_QUANTITY ReadWriteMultipleRegistersRequest_wf
  ReadWriteMultipleRegistersRequest_wire ReadWriteMultipleRegistersRequest_encodable : codec.
#[export] Instance ReadWriteMultipleRegistersRequest_spec : EncodeSpec ReadWriteMultipleRegistersRequest.t.
Proof.
  refine {| wf := ReadWriteMultipleRegistersRequest_wf; wire := ReadWriteMultipleRegistersRequest_wire; encodable := ReadWriteMultipleRegistersRequest_encodable |}.
  all: enc_spec.
Defined.
#[export] Instance ReadWriteMultipleRegistersRequest_codec : PduCodec ReadWriteMultipleRegistersRequest.t 0x17 ReadWriteMultipleRegistersRequest.decode.
Proof.
  refine {| decodable := ReadWriteMultipleRegistersRequest_encodable |}.
  - dec_complete.
  - dec_sound 9%nat.
  - dec_returns 9%nat.
Defined.

(** ** FC 08: diagnostics (diagnostic.rs) *)
Definition check_diagnostic_data_len_decode (data : bytes) : res DecodeError.t unit :=
  if is_multiple_of (blen data) 2 then Ok tt else Err (InvalidDiagnosticDataLength (blen data)).

Definition check_diagnostic_data_len_encode (data : bytes) : res EncodeError.t unit :=
  if is_multiple_of (blen data) 2 then Ok tt
  else Err (EncodeError.InvalidDiagnosticDataLength (blen data)).

Lemma check_diagnostic_encode_ok data :
  blen data mod 2 = 0 → check_diagnostic_data_len_encode data = Ok tt.
Proof.
  intros. unfold check_diagnostic_data_len_encode, is_multiple_of. by replace (_ =? _) with true by lia.
Qed.
Lemma check_diagnostic_encode_iff data u :
  check_diagnostic_data_len_encode data = Ok u ↔ blen data mod 2 = 0.
Proof.
  unfold check_diagnostic_data_len_encode, is_multiple_of. destruct u. case_match; naive_solver lia.
Qed.
Lemma check_diagnostic_encode_returns data : returns (check_diagnostic_data_len_encode data).
Proof. unfold check_diagnostic_data_len_encode. by case_match. Qed.
#[export] Hint Rewrite check_diagnostic_encode_ok using enc_arith : check_ok.
#[export] Hint Rewrite check_diagnostic_encode_iff : check_iff.
#[export] Hint Resolve check_diagnostic_encode_returns : modbus.

Module DiagnosticsRequest.
Record t : Type := mk { sub_function : DiagnosticSubFunction.t; data : bytes }.

Definition decode (data : bytes) : res DecodeError.t t :=
  if blen data <? 2 then Err (Truncated 2 (blen data)) else
  let? raw_sub := be16_at data 0 1 in
  let? sub_function := ok_or (DiagnosticSubFunction.from_raw raw_sub)
                             (UnknownDiagnosticSubFunction raw_sub) in
  let? payload := slice_from data 2 in
  do? check_diagnostic_data_len_decode payload in
  Ok (mk sub_function payload).

Definition encoded_len (self : t) : Z := 3 + blen (data self).

Definition encode_into (self : t) : ST bytes EncodeError.t Z :=
  let len := encoded_len self in
  EncodeError.check_buffer len;;;
  st_lift (check_diagnostic_data_len_encode (data self));;;
  st_lift (EncodeError.check_pdu_len len);;;
  buf_set 0 (FunctionCode.code FunctionCode.Diagnostics);;;
  buf_copy 1 3 (to_be_bytes (DiagnosticSubFunction.code (sub_function self)));;;
  buf_copy 3 (3 + blen (data self)) (data self);;;
  st_ret len.
End DiagnosticsRequest.

#[export] Instance DiagnosticsRequest_Encode : Encode DiagnosticsRequest.t :=
  {| encode_into := DiagnosticsRequest.encode_into; encoded_len := DiagnosticsRequest.encoded_len |}.
Definition DiagnosticsRequest_wf (x : DiagnosticsRequest.t) : Prop :=
  bytes_ok (DiagnosticsRequest.data x).
Definition DiagnosticsRequest_wire (x : DiagnosticsRequest.t) : bytes :=
  0x08 :: to_be_bytes (DiagnosticSubFunction.code (DiagnosticsRequest.sub_function x))
    ++ (DiagnosticsRequest.data x).
Definition DiagnosticsRequest_encodable (x : DiagnosticsRequest.t) : Prop :=
  blen (DiagnosticsRequest.data x) mod 2 = 0 ∧ blen (DiagnosticsRequest.data x) ≤ 250.
Definition DiagnosticsRequest_decodable (x : DiagnosticsRequest.t) : Prop :=
  blen (DiagnosticsRequest.data x) mod 2 = 0.
#[export] Hint Unfold DiagnosticsRequest.decode DiagnosticsRequest.encode_into
  DiagnosticsRequest.encoded_len DiagnosticsRequest_wf DiagnosticsRequest_wire
  DiagnosticsRequest_encodable DiagnosticsRequest_decodable check_diagnostic_data_len_decode
  is_multiple_of : codec.
#[export] Instance DiagnosticsRequest_spec : EncodeSpec DiagnosticsRequest.t.
Proof.
  refine {| wf := DiagnosticsRequest_wf; wire := DiagnosticsRequest_wire; encodable := DiagnosticsRequest_encodable |}.
  all: enc_spec.
Defined.
#[export] Instance DiagnosticsRequest_codec : PduCodec DiagnosticsRequest.t 0x08 DiagnosticsRequest.decode.
Proof.
  refine {| decodable := DiagnosticsRequest_decodable |}.
  - dec_complete.
  - dec_sound 2%nat.
  - dec_returns 2%nat.
Defined.

(** ** FC 18: FIFO queues (fifo.rs) *)
Module ReadFifoQueueRequest.
Record t : Type := mk { fifo_pointer_address : Z }.

Definition decode (data : bytes) : res DecodeError.t t :=
  do? check_exact_len data 2 in
  let? fifo_pointer_address := be16_at data 0 1 in
  Ok (mk fifo_pointer_address).

Definition encoded_len (self : t) : Z := 3.

Definition encode_into (self : t) : ST bytes EncodeError.t Z :=
  let len := encoded_len self in
  EncodeError.check_buffer len;;;
  st_lift (EncodeError.check_pdu_len len);;;
  buf_set 0 (FunctionCode.code FunctionCode.ReadFifoQueue);;;
  buf_copy 1 3 (to_be_bytes (fifo_pointer_address self));;;
  st_ret len.
End ReadFifoQueueRequest.

#[export] Instance ReadFifoQueueRequest_Encode : Encode ReadFifoQueueRequest.t :=
  {| encode_into := ReadFifoQueueRequest.encode_into; encoded_len := ReadFifoQueueRequest.encoded_len |}.
Definition ReadFifoQueueRequest_wf (x : ReadFifoQueueRequest.t) : Prop :=
  is_u16 (ReadFifoQueueRequest.fifo_pointer_address x).
Definition ReadFifoQueueRequest_wire (x : ReadFifoQueueRequest.t) : bytes :=
  0x18 :: to_be_bytes (ReadFifoQueueRequest.fifo_pointer_address x).
Definition ReadFifoQueueRequest_encodable (x : ReadFifoQueueRequest.t) : Prop :=
  True.
#[export] Hint Unfold ReadFifoQueueRequest.decode ReadFifoQueueRequest.encode_into
  ReadFifoQueueRequest.encoded_len ReadFifoQueueRequest_wf ReadFifoQueueRequest_wire
  ReadFifoQueueRequest_encodable : codec.
#[export] Instance ReadFifoQueueRequest_spec : EncodeSpec ReadFifoQueueRequest.t.
Proof.
  refine {| wf := ReadFifoQueueRequest_wf; wire := ReadFifoQueueRequest_wire; encodable := ReadFifoQueueRequest_encodable |}.
  all: enc_spec.
Defined.
#[export] Instance ReadFifoQueueRequest_codec : PduCodec ReadFifoQueueRequest.t 0x18 ReadFifoQueueRequest.decode.
Proof.
  refine {| decodable := ReadFifoQueueRequest_encodable |}.
  - dec_complete.
  - dec_sound 2%nat.
  - dec_returns 2%nat.
Defined.

(** ** FC 2B: encapsulated interface transport (mei.rs, device_id.rs) *)
Module EncapsulatedInterfaceRequest.
Record t : Type := mk { mei_type : MeiType.t; data : bytes }.

Definition decode (data : bytes) : res DecodeError.t t :=
  if is_empty data then Err (Truncated 1 0) else
  let? b0 := idx data 0 in
  let? mei_type := ok_or (MeiType.from_raw b0) (UnknownMeiType b0) in
  let? payload := slice_from data 1 in
  do? (if bool_decide (mei_type = MeiType.ReadDeviceIdentification) then
         do? check_exact_len payload 2 in
         let? p0 := idx payload 0 in
         do? ok_or (DeviceIdCode.from_raw p0) (InvalidDeviceIdCode p0) in
         Ok tt
       else Ok tt) in
  Ok (mk mei_type payload).

Definition encoded_len (self : t) : Z := 2 + blen (data self).

Definition encode_into (self : t) : ST bytes EncodeError.t Z :=
  let len := encoded_len self in
  EncodeError.check_buffer len;;;
  st_lift (EncodeError.check_pdu_len len);;;
  buf_set 0 (FunctionCode.code FunctionCode.EncapsulatedInterfaceTransport);;;
  buf_set 1 (MeiType.code (mei_type self));;;
  buf_copy 2 (2 + blen (data self)) (data self);;;
  st_ret len.
End EncapsulatedInterfaceRequest.

(** A Read Device Identification request carries a read code and an object id. *)
Definition mei_request_shape (mei_type : MeiType.t) (data : bytes) : Prop :=
  match mei_type with
  | MeiType.ReadDeviceIdentification =>
      ∃ code object_id, data = [DeviceIdCode.code code; object_id]
  | MeiType.CanOpenGeneralReference => True
  end.

#[export] Instance EncapsulatedInterfaceRequest_Encode : Encode EncapsulatedInterfaceRequest.t :=
  {| encode_into := EncapsulatedInterfaceRequest.encode_into; encoded_len := EncapsulatedInterfaceRequest.encoded_len |}.
Definition EncapsulatedInterfaceRequest_wf (x : EncapsulatedInterfaceRequest.t) : Prop :=
  bytes_ok (EncapsulatedInterfaceRequest.data x).
Definition EncapsulatedInterfaceRequest_wire (x : EncapsulatedInterfaceRequest.t) : bytes :=
  0x2B :: MeiType.code (EncapsulatedInterfaceRequest.mei_type x) :: (EncapsulatedInterfaceRequest.data x).
Definition EncapsulatedInterfaceRequest_encodable (x : EncapsulatedInterfaceRequest.t) : Prop :=
  blen (EncapsulatedInterfaceRequest.data x) ≤ 251.
Definition EncapsulatedInterfaceRequest_decodable (x : EncapsulatedInterfaceRequest.t) : Prop :=
  mei_request_shape (EncapsulatedInterfaceRequest.mei_type x) (EncapsulatedInterfaceRequest.data x).
#[export] Hint Unfold EncapsulatedInterfaceRequest.decode
  EncapsulatedInterfaceRequest.encode_into EncapsulatedInterfaceRequest.encoded_len
  EncapsulatedInterfaceRequest_wf EncapsulatedInterfaceRequest_wire
  EncapsulatedInterfaceRequest_encodable EncapsulatedInterfaceRequest_decodable : codec.
#[export] Instance EncapsulatedInterfaceRequest_spec : EncodeSpec EncapsulatedInterfaceRequest.t.
Proof.
  refine {| wf := EncapsulatedInterfaceRequest_wf; wire := EncapsulatedInterfaceRequest_wire; encodable := EncapsulatedInterfaceRequest_encodable |}.
  all: enc_spec.
Defined.
#[export] Instance EncapsulatedInterfaceRequest_codec : PduCodec EncapsulatedInterfaceRequest.t 0x2B EncapsulatedInterfaceRequest.decode.
Proof.
  refine {| decodable := EncapsulatedInterfaceRequest_decodable |}.
  - intros [[] d] Hwf Hd; eexists; (split; [reflexivity|]).
    + autounfold with codec. simpl. by dec_run.
    + destruct Hd as (c & o & Hd). simpl in *. subst d. by destruct c.
  - intros data x Hb. autounfold with codec. cells data 1%nat; [done|].
    rewrite is_empty_cons. apply bytes_ok_cons in Hb as [Hb0 Hb]. dec_cases; try done.
    all: match goal with H : bool_decide _ = _ |- _ =>
           apply bool_decide_eq_true in H || apply bool_decide_eq_false in H end.
    + cells data 2%nat; try done. dec_cases; try done. intros [= <-]; enum_inv.
      assert (data = []) as -> by (apply blen_0_nil; dec_arith). subst.
      split_and!; [done|by eexists _, _|done].
    + intros [= <-]; enum_inv. subst. by destruct t0.
  - intros data. autounfold with codec. cells data 1%nat; [done|].
    dec_cases; try done. cells data 1%nat; [dec_arith|]. dec_cases; done.
Defined.

Module ReadDeviceIdentificationRequest.
Record t : Type := mk { device_id_code : DeviceIdCode.t; object_id : Z }.

Definition decode (data : bytes) : res DecodeError.t t :=
  do? check_exact_len data 3 in
  let? b0 := idx data 0 in
  if negb (b0 =? MeiType.code MeiType.ReadDeviceIdentification) then Err (UnknownMeiType b0) else
  let? b1 := idx data 1 in
  let? device_id_code := ok_or (DeviceIdCode.from_raw b1) (InvalidDeviceIdCode b1) in
  let? object_id := idx data 2 in
  Ok (mk device_id_code object_id).

Definition encoded_len (self : t) : Z := 4.

Definition encode_into (self : t) : ST bytes EncodeError.t Z :=
  let len := encoded_len self in
  EncodeError.check_buffer len;;;
  st_lift (EncodeError.check_pdu_len len);;;
  buf_set 0 (FunctionCode.code FunctionCode.EncapsulatedInterfaceTransport);;;
  buf_set 1 (MeiType.code MeiType.ReadDeviceIdentification);;;
  buf_set 2 (DeviceIdCode.code (device_id_code self));;;
  buf_set 3 (object_id self);;;
  st_ret len.
End ReadDeviceIdentificationRequest.

#[export] Instance ReadDeviceIdentificationRequest_Encode : Encode ReadDeviceIdentificationRequest.t :=
  {| encode_into := ReadDeviceIdentificationRequest.encode_into; encoded_len := ReadDeviceIdentificationRequest.encoded_len |}.
Definition ReadDeviceIdentificationRequest_wf (x : ReadDeviceIdentificationRequest.t) : Prop :=
  is_u8 (ReadDeviceIdentificationRequest.object_id x).
Definition ReadDeviceIdentificationRequest_wire (x : ReadDeviceIdentificationRequest.t) : bytes :=
  [0x2B; 0x0E; DeviceIdCode.code (ReadDeviceIdentificationRequest.device_id_code x); (ReadDeviceIdentificationRequest.object_id x)].
Definition ReadDeviceIdentificationRequest_encodable (x : ReadDeviceIdentificationRequest.t) : Prop :=
  True.
#[export] Hint Unfold ReadDeviceIdentificationRequest.decode
  ReadDeviceIdentificationRequest.encode_into ReadDeviceIdentificationRequest.encoded_len
  ReadDeviceIdentificationRequest_wf ReadDeviceIdentificationRequest_wire
  ReadDeviceIdentificationRequest_encodable : codec.
#[export] Instance ReadDeviceIdentificationRequest_spec : EncodeSpec ReadDeviceIdentificationRequest.t.
Proof.
  refine {| wf := ReadDeviceIdentificationRequest_wf; wire := ReadDeviceIdentificationRequest_wire; encodable := ReadDeviceIdentificationRequest_encodable |}.
  all: enc_spec.
Defined.
#[export] Instance ReadDeviceIdentificationRequest_codec : PduCodec ReadDeviceIdentificationRequest.t 0x2B ReadDeviceIdentificationRequest.decode.
Proof.
  refine {| decodable := ReadDeviceIdentificationRequest_encodable |}.
  - dec_complete.
  - dec_sound 3%nat. simpl in *. repeat f_equal. lia.
  - dec_returns 3%nat.
Defined.

