(* ===== verification/Responses.v ===== *)
(** * Response PDUs (crates/rusty-modbus-codec/src/response)

    The response types, laid out as the requests are: a module per Rust type
    with its decoder, accessors and encoder, followed by the instances that
    discharge the codec's contract for it. *)
From S2P Require Import Prelude Types CodecError FileRecords Requests.
Import DecodeError.

(** [array\[i\]] at a constant position of a fixed-size array *)
Definition at_ (l : bytes) (i : nat) : Z := nth i l 0.

(** ** FC 01-04: reads (bit_read.rs, reg_read.rs) *)
Module ReadCoilsResponse.
Record t : Type := mk { byte_count : Z; coil_status : bytes }.

(** The value of the coil at [index]; panics when its byte is not there. *)
Definition coil (self : t) (index : Z) : res DecodeError.t bool :=
  let byte_idx := index / 8 in
  let bit_idx := index mod 8 in
  let? byte := idx (coil_status self) byte_idx in
  Ok (Z.land (Z.shiftr byte bit_idx) 1 =? 1).

Definition decode (data : bytes) : res DecodeError.t t :=
  if is_empty data then Err (Truncated 1 0) else
  let? byte_count := idx data 0 in
  let? coil_status := slice_from data 1 in
  if negb (blen coil_status =? byte_count)
  then Err (ByteCountMismatch byte_count (blen coil_status)) else
  Ok (mk byte_count coil_status).

Definition encoded_len (self : t) : Z := 1 + 1 + byte_count self.

Definition encode_into (self : t) : ST bytes EncodeError.t Z :=
  let len := encoded_len self in
  EncodeError.check_buffer len;;;
  st_lift (EncodeError.check_byte_count (byte_count self) (blen (coil_status self)));;;
  st_lift (EncodeError.check_pdu_len len);;;
  buf_set 0 (FunctionCode.code FunctionCode.ReadCoils);;;
  buf_set 1 (byte_count self);;;
  buf_copy 2 (2 + byte_count self) (coil_status self);;;
  st_ret len.
End ReadCoilsResponse.

#[export] Instance ReadCoilsResponse_Encode : Encode ReadCoilsResponse.t :=
  {| encode_into := ReadCoilsResponse.encode_into; encoded_len := ReadCoilsResponse.encoded_len |}.
Definition ReadCoilsResponse_wf (x : ReadCoilsResponse.t) : Prop :=
  is_u8 (ReadCoilsResponse.byte_count x) ∧ bytes_ok (ReadCoilsResponse.coil_status x).
Definition ReadCoilsResponse_wire (x : ReadCoilsResponse.t) : bytes :=
  0x01 :: (ReadCoilsResponse.byte_count x) :: (ReadCoilsResponse.coil_status x).
Definition ReadCoilsResponse_encodable (x : ReadCoilsResponse.t) : Prop :=
  blen (ReadCoilsResponse.coil_status x) = (ReadCoilsResponse.byte_count x) ∧ (ReadCoilsResponse.byte_count x) ≤ 251.
Definition ReadCoilsResponse_decodable (x : ReadCoilsResponse.t) : Prop :=
  blen (ReadCoilsResponse.coil_status x) = (ReadCoilsResponse.byte_count x).
#[export] Hint Unfold ReadCoilsResponse.decode ReadCoilsResponse.encode_into
  ReadCoilsResponse.encoded_len ReadCoilsResponse_wf ReadCoilsResponse_wire
  ReadCoilsResponse_encodable ReadCoilsResponse_decodable : codec.
#[export] Instance ReadCoilsResponse_spec : EncodeSpec ReadCoilsResponse.t.
Proof.
  refine {| wf := ReadCoilsResponse_wf; wire := ReadCoilsResponse_wire; encodable := ReadCoilsResponse_encodable |}.
  all: enc_spec.
Defined.
#[export] Instance ReadCoilsResponse_codec : PduCodec ReadCoilsResponse.t 0x01 ReadCoilsResponse.decode.
Proof.
  refine {| decodable := ReadCoilsResponse_decodable |}.
  - dec_complete.
  - dec_sound 1%nat.
  - dec_returns 1%nat.
Defined.

Module ReadDiscreteInputsResponse.
Record t : Type := mk { byte_count : Z; coil_status : bytes }.

(** The value of the coil at [index]; panics when its byte is not there. *)
Definition coil (self : t) (index : Z) : res DecodeError.t bool :=
  let byte_idx := index / 8 in
  let bit_idx := index mod 8 in
  let? byte := idx (coil_status self) byte_idx in
  Ok (Z.land (Z.shiftr byte bit_idx) 1 =? 1).

Definition decode (data : bytes) : res DecodeError.t t :=
  if is_empty data then Err (Truncated 1 0) else
  let? byte_count := idx data 0 in
  let? coil_status := slice_from data 1 in
  if negb (blen coil_status =? byte_count)
  then Err (ByteCountMismatch byte_count (blen coil_status)) else
  Ok (mk byte_count coil_status).

Definition encoded_len (self : t) : Z := 1 + 1 + byte_count self.

Definition encode_into (self : t) : ST bytes EncodeError.t Z :=
  let len := encoded_len self in
  EncodeError.check_buffer len;;;
  st_lift (EncodeError.check_byte_count (byte_count self) (blen (coil_status self)));;;
  st_lift (EncodeError.check_pdu_len len);;;
  buf_set 0 (FunctionCode.code FunctionCode.ReadDiscreteInputs);;;
  buf_set 1 (byte_count self);;;
  buf_copy 2 (2 + byte_count self) (coil_status self);;;
  st_ret len.
End ReadDiscreteInputsResponse.

#[export] Instance ReadDiscreteInputsResponse_Encode : Encode ReadDiscreteInputsResponse.t :=
  {| encode_into := ReadDiscreteInputsResponse.encode_into; encoded_len := ReadDiscreteInputsResponse.encoded_len |}.
Definition ReadDiscreteInputsResponse_wf (x : ReadDiscreteInputsResponse.t) : Prop :=
  is_u8 (ReadDiscreteInputsResponse.byte_count x) ∧ bytes_ok (ReadDiscreteInputsResponse.coil_status x).
Definition ReadDiscreteInputsResponse_wire (x : ReadDiscreteInputsResponse.t) : bytes :=
  0x02 :: (ReadDiscreteInputsResponse.byte_count x) :: (ReadDiscreteInputsResponse.coil_status x).
Definition ReadDiscreteInputsResponse_encodable (x : ReadDiscreteInputsResponse.t) : Prop :=
  blen (ReadDiscreteInputsResponse.coil_status x) = (ReadDiscreteInputsResponse.byte_count x) ∧ (ReadDiscreteInputsResponse.byte_count x) ≤ 251.
Definition ReadDiscreteInputsResponse_decodable (x : ReadDiscreteInputsResponse.t) : Prop :=
  blen (ReadDiscreteInputsResponse.coil_status x) = (ReadDiscreteInputsResponse.byte_count x).
#[export] Hint Unfold ReadDiscreteInputsResponse.decode ReadDiscreteInputsResponse.encode_into
  ReadDiscreteInputsResponse.encoded_len ReadDiscreteInputsResponse_wf
  ReadDiscreteInputsResponse_wire ReadDiscreteInputsResponse_encodable
  ReadDiscreteInputsResponse_decodable : codec.
#[export] Instance ReadDiscreteInputsResponse_spec : EncodeSpec ReadDiscreteInputsResponse.t.
Proof.
  refine {| wf := ReadDiscreteInputsResponse_wf; wire := ReadDiscreteInputsResponse_wire; encodable := ReadDiscreteInputsResponse_encodable |}.
  all: enc_spec.
Defined.
#[export] Instance ReadDiscreteInputsResponse_codec : PduCodec ReadDiscreteInputsResponse.t 0x02 ReadDiscreteInputsResponse.decode.
Proof.
  refine {| decodable := ReadDiscreteInputsResponse_decodable |}.
  - dec_complete.
  - dec_sound 1%nat.
  - dec_returns 1%nat.
Defined.

Module ReadHoldingRegistersResponse.
Record t : Type := mk { byte_count : Z; register_data : bytes }.

Definition count (self : t) : Z := blen (register_data self) / 2.

(** The register at [index]; panics when its bytes are not there. *)
Definition register (self : t) (index : Z) : res DecodeError.t Z :=
  let off := index * 2 in
  be16_at (register_data self) off (off + 1).

Definition registers (self : t) : list Z :=
  map (λ c, from_be_bytes (at_ c 0) (at_ c 1)) (chunks_exact 2 (register_data self)).

Definition raw (self : t) : bytes := register_data self.

Definition decode (data : bytes) : res DecodeError.t t :=
  if is_empty data then Err (Truncated 1 0) else
  let? byte_count := idx data 0 in
  let? register_data := slice_from data 1 in
  if negb (blen register_data =? byte_count)
  then Err (ByteCountMismatch byte_count (blen register_data)) else
  do? check_register_data_len (blen register_data) in
  Ok (mk byte_count register_data).

Definition encoded_len (self : t) : Z := 1 + 1 + byte_count self.

Definition encode_into (self : t) : ST bytes EncodeError.t Z :=
  let len := encoded_len self in
  EncodeError.check_buffer len;;;
  st_lift (EncodeError.check_byte_count (byte_count self) (blen (register_data self)));;;
  st_lift (EncodeError.check_pdu_len len);;;
  st_lift (EncodeError.check_register_data_len (blen (register_data self)));;;
  buf_set 0 (FunctionCode.code FunctionCode.ReadHoldingRegisters);;;
  buf_set 1 (byte_count self);;;
  buf_copy 2 (2 + byte_count self) (register_data self);;;
  st_ret len.
End ReadHoldingRegistersResponse.

#[export] Instance ReadHoldingRegistersResponse_Encode : Encode ReadHoldingRegistersResponse.t :=
  {| encode_into := ReadHoldingRegistersResponse.encode_into; encoded_len := ReadHoldingRegistersResponse.encoded_len |}.
Definition ReadHoldingRegistersResponse_wf (x : ReadHoldingRegistersResponse.t) : Prop :=
  is_u8 (ReadHoldingRegistersResponse.byte_count x) ∧ bytes_ok (ReadHoldingRegistersResponse.register_data x).
Definition ReadHoldingRegistersResponse_wire (x : ReadHoldingRegistersResponse.t) : bytes :=
  0x03 :: (ReadHoldingRegistersResponse.byte_count x) :: (ReadHoldingRegistersResponse.register_data x).
Definition ReadHoldingRegistersResponse_encodable (x : ReadHoldingRegistersResponse.t) : Prop :=
  blen (ReadHoldingRegistersResponse.register_data x) = (ReadHoldingRegistersResponse.byte_count x) ∧ (ReadHoldingRegistersResponse.byte_count x) ≤ 251 ∧ (ReadHoldingRegistersResponse.byte_count x) mod 2 = 0.
Definition ReadHoldingRegistersResponse_decodable (x : ReadHoldingRegistersResponse.t) : Prop :=
  blen (ReadHoldingRegistersResponse.register_data x) = (ReadHoldingRegistersResponse.byte_count x) ∧ (ReadHoldingRegistersResponse.byte_count x) mod 2 = 0.
#[export] Hint Unfold ReadHoldingRegistersResponse.decode
  ReadHoldingRegistersResponse.encode_into ReadHoldingRegistersResponse.encoded_len
  ReadHoldingRegistersResponse_wf ReadHoldingRegistersResponse_wire
  ReadHoldingRegistersResponse_encodable ReadHoldingRegistersResponse_decodable
  check_register_data_len is_multiple_of : codec.
#[export] Instance ReadHoldingRegistersResponse_spec : EncodeSpec ReadHoldingRegistersResponse.t.
Proof.
  refine {| wf := ReadHoldingRegistersResponse_wf; wire := ReadHoldingRegistersResponse_wire; encodable := ReadHoldingRegistersResponse_encodable |}.
  all: enc_spec.
Defined.
#[export] Instance ReadHoldingRegistersResponse_codec : PduCodec ReadHoldingRegistersResponse.t 0x03 ReadHoldingRegistersResponse.decode.
Proof.
  refine {| decodable := ReadHoldingRegistersResponse_decodable |}.
  - dec_complete.
  - dec_sound 1%nat.
  - dec_returns 1%nat.
Defined.

Module ReadInputRegistersResponse.
Record t : Type := mk { byte_count : Z; register_data : bytes }.

Definition count (self : t) : Z := blen (register_data self) / 2.

(** The register at [index]; panics when its bytes are not there. *)
Definition register (self : t) (index : Z) : res DecodeError.t Z :=
  let off := index * 2 in
  be16_at (register_data self) off (off + 1).

Definition registers (self : t) : list Z :=
  map (λ c, from_be_bytes (at_ c 0) (at_ c 1)) (chunks_exact 2 (register_data self)).

Definition raw (self : t) : bytes := register_data self.

Definition decode (data : bytes) : res DecodeError.t t :=
  if is_empty data then Err (Truncated 1 0) else
  let? byte_count := idx data 0 in
  let? register_data := slice_from data 1 in
  if negb (blen register_data =? byte_count)
  then Err (ByteCountMismatch byte_count (blen register_data)) else
  do? check_register_data_len (blen register_data) in
  Ok (mk byte_count register_data).

Definition encoded_len (self : t) : Z := 1 + 1 + byte_count self.

Definition encode_into (self : t) : ST bytes EncodeError.t Z :=
  let len := encoded_len self in
  EncodeError.check_buffer len;;;
  st_lift (EncodeError.check_byte_count (byte_count self) (blen (register_data self)));;;
  st_lift (EncodeError.check_pdu_len len);;;
  st_lift (EncodeError.check_register_data_len (blen (register_data self)));;;
  buf_set 0 (FunctionCode.code FunctionCode.ReadInputRegisters);;;
  buf_set 1 (byte_count self);;;
  buf_copy 2 (2 + byte_count self) (register_data self);;;
  st_ret len.
End ReadInputRegistersResponse.

#[export] Instance ReadInputRegistersResponse_Encode : Encode ReadInputRegistersResponse.t :=
  {| encode_into := ReadInputRegistersResponse.encode_into; encoded_len := ReadInputRegistersResponse.encoded_len |}.
Definition ReadInputRegistersResponse_wf (x : ReadInputRegistersResponse.t) : Prop :=
  is_u8 (ReadInputRegistersResponse.byte_count x) ∧ bytes_ok (ReadInputRegistersResponse.register_data x).
Definition ReadInputRegistersResponse_wire (x : ReadInputRegistersResponse.t) : bytes :=
  0x04 :: (ReadInputRegistersResponse.byte_count x) :: (ReadInputRegistersResponse.register_data x).
Definition ReadInputRegistersResponse_encodable (x : ReadInputRegistersResponse.t) : Prop :=
  blen (ReadInputRegistersResponse.register_data x) = (ReadInputRegistersResponse.byte_count x) ∧ (ReadInputRegistersResponse.byte_count x) ≤ 251 ∧ (ReadInputRegistersResponse.byte_count x) mod 2 = 0.
Definition ReadInputRegistersResponse_decodable (x : ReadInputRegistersResponse.t) : Prop :=
  blen (ReadInputRegistersResponse.register_data x) = (ReadInputRegistersResponse.byte_count x) ∧ (ReadInputRegistersResponse.byte_count x) mod 2 = 0.
#[export] Hint Unfold ReadInputRegistersResponse.decode ReadInputRegistersResponse.encode_into
  ReadInputRegistersResponse.encoded_len ReadInputRegistersResponse_wf
  ReadInputRegistersResponse_wire ReadInputRegistersResponse_encodable
  ReadInputRegistersResponse_decodable : codec.
#[export] Instance ReadInputRegistersResponse_spec : EncodeSpec ReadInputRegistersResponse.t.
Proof.
  refine {| wf := ReadInputRegistersResponse_wf; wire := ReadInputRegistersResponse_wire; encodable := ReadInputRegistersResponse_encodable |}.
  all: enc_spec.
Defined.
#[export] Instance ReadInputRegistersResponse_codec : PduCodec ReadInputRegistersResponse.t 0x04 ReadInputRegistersResponse.decode.
Proof.
  refine {| decodable := ReadInputRegistersResponse_decodable |}.
  - dec_complete.
  - dec_sound 1%nat.
  - dec_returns 1%nat.
Defined.

(** ** FC 05 and FC 0F: bit writes (bit_write.rs) *)
Module WriteSingleCoilResponse.
Record t : Type := mk { address : Z; value : CoilValue.t }.

Definition decode (data : bytes) : res DecodeError.t t :=
  do? check_exact_len data 4 in
  let? address := be16_at data 0 1 in
  let? raw_value := be16_at data 2 3 in
  let? value := ok_or (CoilValue.from_wire raw_value) (InvalidCoilValue raw_value) in
  Ok (mk address value).

Definition encoded_len (self : t) : Z := 1 + 4.

Definition encode_into (self : t) : ST bytes EncodeError.t Z :=
  let len := encoded_len self in
  EncodeError.check_buffer len;;;
  st_lift (EncodeError.check_pdu_len len);;;
  buf_set 0 (FunctionCode.code FunctionCode.WriteSingleCoil);;;
  let addr := to_be_bytes (address self) in
  buf_set 1 (at_ addr 0);;;
  buf_set 2 (at_ addr 1);;;
  let val := to_be_bytes (CoilValue.to_wire (value self)) in
  buf_set 3 (at_ val 0);;;
  buf_set 4 (at_ val 1);;;
  st_ret len.
End WriteSingleCoilResponse.

#[export] Instance WriteSingleCoilResponse_Encode : Encode WriteSingleCoilResponse.t :=
  {| encode_into := WriteSingleCoilResponse.encode_into; encoded_len := WriteSingleCoilResponse.encoded_len |}.
Definition WriteSingleCoilResponse_wf (x : WriteSingleCoilResponse.t) : Prop :=
  is_u16 (WriteSingleCoilResponse.address x).
Definition WriteSingleCoilResponse_wire (x : WriteSingleCoilResponse.t) : bytes :=
  0x05 :: to_be_bytes (WriteSingleCoilResponse.address x) ++ to_be_bytes (CoilValue.to_wire (WriteSingleCoilResponse.value x)).
Definition WriteSingleCoilResponse_encodable (x : WriteSingleCoilResponse.t) : Prop :=
  True.
#[export] Hint Unfold WriteSingleCoilResponse.decode WriteSingleCoilResponse.encode_into
  WriteSingleCoilResponse.encoded_len WriteSingleCoilResponse_wf WriteSingleCoilResponse_wire
  WriteSingleCoilResponse_encodable : codec.
#[export] Instance WriteSingleCoilResponse_spec : EncodeSpec WriteSingleCoilResponse.t.
Proof.
  refine {| wf := WriteSingleCoilResponse_wf; wire := WriteSingleCoilResponse_wire; encodable := WriteSingleCoilResponse_encodable |}.
  all: enc_spec.
Defined.
#[export] Instance WriteSingleCoilResponse_codec : PduCodec WriteSingleCoilResponse.t 0x05 WriteSingleCoilResponse.decode.
Proof.
  refine {| decodable := WriteSingleCoilResponse_encodable |}.
  - dec_complete.
  - dec_sound 4%nat.
  - dec_returns 4%nat.
Defined.

Module WriteMultipleCoilsResponse.
Record t : Type := mk { address : Z; quantity : Z }.

Definition decode (data : bytes) : res DecodeError.t t :=
  do? check_exact_len data 4 in
  let? address := be16_at data 0 1 in
  let? quantity := be16_at data 2 3 in
  Ok (mk address quantity).

Definition encoded_len (self : t) : Z := 1 + 4.

Definition encode_into (self : t) : ST bytes EncodeError.t Z :=
  let len := encoded_len self in
  EncodeError.check_buffer len;;;
  st_lift (EncodeError.check_quantity (quantity self) MAX_WRITE_COILS);;;
  st_lift (EncodeError.check_pdu_len len);;;
  buf_set 0 (FunctionCode.code FunctionCode.WriteMultipleCoils);;;
  let addr := to_be_bytes (address self) in
  buf_set 1 (at_ addr 0);;;
  buf_set 2 (at_ addr 1);;;
  let qty := to_be_bytes (quantity self) in
  buf_set 3 (at_ qty 0);;;
  buf_set 4 (at_ qty 1);;;
  st_ret len.
End WriteMultipleCoilsResponse.

#[export] Instance WriteMultipleCoilsResponse_Encode : Encode WriteMultipleCoilsResponse.t :=
  {| encode_into := WriteMultipleCoilsResponse.encode_into; encoded_len := WriteMultipleCoilsResponse.encoded_len |}.
Definition WriteMultipleCoilsResponse_wf (x : WriteMultipleCoilsResponse.t) : Prop :=
  is_u16 (WriteMultipleCoilsResponse.address x) ∧ is_u16 (WriteMultipleCoilsResponse.quantity x).
Definition WriteMultipleCoilsResponse_wire (x : WriteMultipleCoilsResponse.t) : bytes :=
  0x0F :: to_be_bytes (WriteMultipleCoilsResponse.address x) ++ to_be_bytes (WriteMultipleCoilsResponse.quantity x).
Definition WriteMultipleCoilsResponse_encodable (x : WriteMultipleCoilsResponse.t) : Prop :=
  1 ≤ (WriteMultipleCoilsResponse.quantity x) ≤ MAX_WRITE_COILS.
Definition WriteMultipleCoilsResponse_decodable (x : WriteMultipleCoilsResponse.t) : Prop :=
  True.
#[export] Hint Unfold WriteMultipleCoilsResponse.decode WriteMultipleCoilsResponse.encode_into
  WriteMultipleCoilsResponse.encoded_len WriteMultipleCoilsResponse_wf
  WriteMultipleCoilsResponse_wire WriteMultipleCoilsResponse_encodable
  WriteMultipleCoilsResponse_decodable : codec.
#[export] Instance WriteMultipleCoilsResponse_spec : EncodeSpec WriteMultipleCoilsResponse.t.
Proof.
  refine {| wf := WriteMultipleCoilsResponse_wf; wire := WriteMultipleCoilsResponse_wire; encodable := WriteMultipleCoilsResponse_encodable |}.
  all: enc_spec.
Defined.
#[export] Instance WriteMultipleCoilsResponse_codec : PduCodec WriteMultipleCoilsResponse.t 0x0F WriteMultipleCoilsResponse.decode.
Proof.
  refine {| decodable := WriteMultipleCoilsResponse_decodable |}.
  - dec_complete.
  - dec_sound 4%nat.
  - dec_returns 4%nat.
Defined.

(** ** FC 06, 10, 16 and 17: register writes (reg_write.rs) *)
Module WriteSingleRegisterResponse.
Record t : Type := mk { address : Z; value : Z }.

Definition decode (data : bytes) : res DecodeError.t t :=
  do? check_exact_len data 4 in
  let? address := be16_at data 0 1 in
  let? value := be16_at data 2 3 in
  Ok (mk address value).

Definition encoded_len (self : t) : Z := 1 + 4.

Definition encode_into (self : t) : ST bytes EncodeError.t Z :=
  let len := encoded_len self in
  EncodeError.check_buffer len;;;
  st_lift (EncodeError.check_pdu_len len);;;
  buf_set 0 (FunctionCode.code FunctionCode.WriteSingleRegister);;;
  let addr := to_be_bytes (address self) in
  buf_set 1 (at_ addr 0);;;
  buf_set 2 (at_ addr 1);;;
  let val := to_be_bytes (value self) in
  buf_set 3 (at_ val 0);;;
  buf_set 4 (at_ val 1);;;
  st_ret len.
End WriteSingleRegisterResponse.

#[export] Instance WriteSingleRegisterResponse_Encode : Encode WriteSingleRegisterResponse.t :=
  {| encode_into := WriteSingleRegisterResponse.encode_into; encoded_len := WriteSingleRegisterResponse.encoded_len |}.
Definition WriteSingleRegisterResponse_wf (x : WriteSingleRegisterResponse.t) : Prop :=
  is_u16 (WriteSingleRegisterResponse.address x) ∧ is_u16 (WriteSingleRegisterResponse.value x).
Definition WriteSingleRegisterResponse_wire (x : WriteSingleRegisterResponse.t) : bytes :=
  0x06 :: to_be_bytes (WriteSingleRegisterResponse.address x) ++ to_be_bytes (WriteSingleRegisterResponse.value x).
Definition WriteSingleRegisterResponse_encodable (x : WriteSingleRegisterResponse.t) : Prop :=
  True.
#[export] Hint Unfold WriteSingleRegisterResponse.decode WriteSingleRegisterResponse.encode_into
  WriteSingleRegisterResponse.encoded_len WriteSingleRegisterResponse_wf
  WriteSingleRegisterResponse_wire WriteSingleRegisterResponse_encodable : codec.
#[export] Instance WriteSingleRegisterResponse_spec : EncodeSpec WriteSingleRegisterResponse.t.
Proof.
  refine {| wf := WriteSingleRegisterResponse_wf; wire := WriteSingleRegisterResponse_wire; encodable := WriteSingleRegisterResponse_encodable |}.
  all: enc_spec.
Defined.
#[export] Instance WriteSingleRegisterResponse_codec : PduCodec WriteSingleRegisterResponse.t 0x06 WriteSingleRegisterResponse.decode.
Proof.
  refine {| decodable := WriteSingleRegisterResponse_encodable |}.
  - dec_complete.
  - dec_sound 4%nat.
  - dec_returns 4%nat.
Defined.

Module WriteMultipleRegistersResponse.
Record t : Type := mk { address : Z; quantity : Z }.

Definition decode (data : bytes) : res DecodeError.t t :=
  do? check_exact_len data 4 in
  let? address := be16_at data 0 1 in
  let? quantity := be16_at data 2 3 in
  Ok (mk address quantity).

Definition encoded_len (self : t) : Z := 1 + 4.

Definition encode_into (self : t) : ST bytes EncodeError.t Z :=
  let len := encoded_len self in
  EncodeError.check_buffer len;;;
  st_lift (EncodeError.check_quantity (quantity self) MAX_WRITE_REGISTERS);;;
  st_lift (EncodeError.check_pdu_len len);;;
  buf_set 0 (FunctionCode.code FunctionCode.WriteMultipleRegisters);;;
  let addr := to_be_bytes (address self) in
  buf_set 1 (at_ addr 0);;;
  buf_set 2 (at_ addr 1);;;
  let qty := to_be_bytes (quantity self) in
  buf_set 3 (at_ qty 0);;;
  buf_set 4 (at_ qty 1);;;
  st_ret len.
End WriteMultipleRegistersResponse.

#[export] Instance WriteMultipleRegistersResponse_Encode : Encode WriteMultipleRegistersResponse.t :=
  {| encode_into := WriteMultipleRegistersResponse.encode_into; encoded_len := WriteMultipleRegistersResponse.encoded_len |}.
Definition WriteMultipleRegistersResponse_wf (x : WriteMultipleRegistersResponse.t) : Prop :=
  is_u16 (WriteMultipleRegistersResponse.address x) ∧ is_u16 (WriteMultipleRegistersResponse.quantity x).
Definition WriteMultipleRegistersResponse_wire (x : WriteMultipleRegistersResponse.t) : bytes :=
  0x10 :: to_be_bytes (WriteMultipleRegistersResponse.address x) ++ to_be_bytes (WriteMultipleRegistersResponse.quantity x).
Definition WriteMultipleRegistersResponse_encodable (x : WriteMultipleRegistersResponse.t) : Prop :=
  1 ≤ (WriteMultipleRegistersResponse.quantity x) ≤ MAX_WRITE_REGISTERS.
Definition WriteMultipleRegistersResponse_decodable (x : WriteMultipleRegistersResponse.t) : Prop :=
  True.
#[export] Hint Unfold WriteMultipleRegistersResponse.decode
  WriteMultipleRegistersResponse.encode_into WriteMultipleRegistersResponse.encoded_len
  WriteMultipleRegistersResponse_wf WriteMultipleRegistersResponse_wire
  WriteMultipleRegistersResponse_encodable WriteMultipleRegistersResponse_decodable : codec.
#[export] Instance WriteMultipleRegistersResponse_spec : EncodeSpec WriteMultipleRegistersResponse.t.
Proof.
  refine {| wf := WriteMultipleRegistersResponse_wf; wire := WriteMultipleRegistersResponse_wire; encodable := WriteMultipleRegistersResponse_encodable |}.
  all: enc_spec.
Defined.
#[export] Instance WriteMultipleRegistersResponse_codec : PduCodec WriteMultipleRegistersResponse.t 0x10 WriteMultipleRegistersResponse.decode.
Proof.
  refine {| decodable := WriteMultipleRegistersResponse_decodable |}.
  - dec_complete.
  - dec_sound 4%nat.
  - dec_returns 4%nat.
Defined.

Module MaskWriteRegisterResponse.
Record t : Type := mk { address : Z; and_mask : Z; or_mask : Z }.

Definition decode (data : bytes) : res DecodeError.t t :=
  do? check_exact_len data 6 in
  let? address := be16_at data 0 1 in
  let? and_mask := be16_at data 2 3 in
  let? or_mask := be16_at data 4 5 in
  Ok (mk address and_mask or_mask).

Definition encoded_len (self : t) : Z := 1 + 6.

Definition encode_into (self : t) : ST bytes EncodeError.t Z :=
  let len := encoded_len self in
  EncodeError.check_buffer len;;;
  st_lift (EncodeError.check_pdu_len len);;;
  buf_set 0 (FunctionCode.code FunctionCode.MaskWriteRegister);;;
  let addr := to_be_bytes (address self) in
  buf_set 1 (at_ addr 0);;;
  buf_set 2 (at_ addr 1);;;
  let and_m := to_be_bytes (and_mask self) in
  buf_set 3 (at_ and_m 0);;;
  buf_set 4 (at_ and_m 1);;;
  let or_m := to_be_bytes (or_mask self) in
  buf_set 5 (at_ or_m 0);;;
  buf_set 6 (at_ or_m 1);;;
  st_ret len.
End MaskWriteRegisterResponse.

#[export] Instance MaskWriteRegisterResponse_Encode : Encode MaskWriteRegisterResponse.t :=
  {| encode_into := MaskWriteRegisterResponse.encode_into; encoded_len := MaskWriteRegisterResponse.encoded_len |}.
Definition MaskWriteRegisterResponse_wf (x : MaskWriteRegisterResponse.t) : Prop :=
  is_u16 (MaskWriteRegisterResponse.address x) ∧ is_u16 (MaskWriteRegisterResponse.and_mask x) ∧ is_u16 (MaskWriteRegisterResponse.or_mask x).
Definition MaskWriteRegisterResponse_wire (x : MaskWriteRegisterResponse.t) : bytes :=
  0x16 :: to_be_bytes (MaskWriteRegisterResponse.address x) ++ to_be_bytes (MaskWriteRegisterResponse.and_mask x)
    ++ to_be_bytes (MaskWriteRegisterResponse.or_mask x).
Definition MaskWriteRegisterResponse_encodable (x : MaskWriteRegisterResponse.t) : Prop :=
  True.
#[export] Hint Unfold MaskWriteRegisterResponse.decode MaskWriteRegisterResponse.encode_into
  MaskWriteRegisterResponse.encoded_len MaskWriteRegisterResponse_wf
  MaskWriteRegisterResponse_wire MaskWriteRegisterResponse_encodable : codec.
#[export] Instance MaskWriteRegisterResponse_spec : EncodeSpec MaskWriteRegisterResponse.t.
Proof.
  refine {| wf := MaskWriteRegisterResponse_wf; wire := MaskWriteRegisterResponse_wire; encodable := MaskWriteRegisterResponse_encodable |}.
  all: enc_spec.
Defined.
#[export] Instance MaskWriteRegisterResponse_codec : PduCodec MaskWriteRegisterResponse.t 0x16 MaskWriteRegisterResponse.decode.
Proof.
  refine {| decodable := MaskWriteRegisterResponse_encodable |}.
  - dec_complete.
  - dec_sound 6%nat.
  - dec_returns 6%nat.
Defined.

Module ReadWriteMultipleRegistersResponse.
Record t : Type := mk { byte_count : Z; register_data : bytes }.

Definition count (self : t) : Z := blen (register_data self) / 2.

(** The register at [index]; panics when its bytes are not there. *)
Definition register (self : t) (index : Z) : res DecodeError.t Z :=
  let off := index * 2 in
  be16_at (register_data self) off (off + 1).

Definition registers (self : t) : list Z :=
  map (λ c, from_be_bytes (at_ c 0) (at_ c 1)) (chunks_exact 2 (register_data self)).

Definition raw (self : t) : bytes := register_data self.

Definition decode (data : bytes) : res DecodeError.t t :=
  if is_empty data then Err (Truncated 1 0) else
  let? byte_count := idx data 0 in
  let? register_data := slice_from data 1 in
  if negb (blen register_data =? byte_count)
  then Err (ByteCountMismatch byte_count (blen register_data)) else
  do? check_register_data_len (blen register_data) in
  Ok (mk byte_count register_data).

Definition encoded_len (self : t) : Z := 1 + 1 + byte_count self.

Definition encode_into (self : t) : ST bytes EncodeError.t Z :=
  let len := encoded_len self in
  EncodeError.check_buffer len;;;
  st_lift (EncodeError.check_byte_count (byte_count self) (blen (register_data self)));;;
  st_lift (EncodeError.check_pdu_len len);;;
  st_lift (EncodeError.check_register_data_len (blen (register_data self)));;;
  buf_set 0 (FunctionCode.code FunctionCode.ReadWriteMultipleRegisters);;;
  buf_set 1 (byte_count self);;;
  buf_copy 2 (2 + byte_count self) (register_data self);;;
  st_ret len.
End ReadWriteMultipleRegistersResponse.

#[export] Instance ReadWriteMultipleRegistersResponse_Encode : Encode ReadWriteMultipleRegistersResponse.t :=
  {| encode_into := ReadWriteMultipleRegistersResponse.encode_into; encoded_len := ReadWriteMultipleRegistersResponse.encoded_len |}.
Definition ReadWriteMultipleRegistersResponse_wf (x : ReadWriteMultipleRegistersResponse.t) : Prop :=
  is_u8 (ReadWriteMultipleRegistersResponse.byte_count x) ∧ bytes_ok (ReadWriteMultipleRegistersResponse.register_data x).
Definition ReadWriteMultipleRegistersResponse_wire (x : ReadWriteMultipleRegistersResponse.t) : bytes :=
  0x17 :: (ReadWriteMultipleRegistersResponse.byte_count x) :: (ReadWriteMultipleRegistersResponse.register_data x).
Definition ReadWriteMultipleRegistersResponse_encodable (x : ReadWriteMultipleRegistersResponse.t) : Prop :=
  blen (ReadWriteMultipleRegistersResponse.register_data x) = (ReadWriteMultipleRegistersResponse.byte_count x) ∧ (ReadWriteMultipleRegistersResponse.byte_count x) ≤ 251 ∧ (ReadWriteMultipleRegistersResponse.byte_count x) mod 2 = 0.
Definition ReadWriteMultipleRegistersResponse_decodable (x : ReadWriteMultipleRegistersResponse.t) : Prop :=
  blen (ReadWriteMultipleRegistersResponse.register_data x) = (ReadWriteMultipleRegistersResponse.byte_count x) ∧ (ReadWriteMultipleRegistersResponse.byte_count x) mod 2 = 0.
#[export] Hint Unfold ReadWriteMultipleRegistersResponse.decode
  ReadWriteMultipleRegistersResponse.encode_into ReadWriteMultipleRegistersResponse.encoded_len
  ReadWriteMultipleRegistersResponse_wf ReadWriteMultipleRegistersResponse_wire
  ReadWriteMultipleRegistersResponse_encodable ReadWriteMultipleRegistersResponse_decodable : codec.
#[export] Instance ReadWriteMultipleRegistersResponse_spec : EncodeSpec ReadWriteMultipleRegistersResponse.t.
Proof.
  refine {| wf := ReadWriteMultipleRegistersResponse_wf; wire := ReadWriteMultipleRegistersResponse_wire; encodable := ReadWriteMultipleRegistersResponse_encodable |}.
  all: enc_spec.
Defined.
#[export] Instance ReadWriteMultipleRegistersResponse_codec : PduCodec ReadWriteMultipleRegistersResponse.t 0x17 ReadWriteMultipleRegistersResponse.decode.
Proof.
  refine {| decodable := ReadWriteMultipleRegistersResponse_decodable |}.
  - dec_complete.
  - dec_sound 1%nat.
  - dec_returns 1%nat.
Defined.

(** ** FC 07, 08, 0B, 0C and 11: diagnostics (diagnostic.rs) *)
Module ReadExceptionStatusResponse.
Record t : Type := mk { status : Z }.

Definition decode (data : bytes) : res DecodeError.t t :=
  do? check_exact_len data 1 in
  let? status := idx data 0 in
  Ok (mk status).

Definition encoded_len (self : t) : Z := 1 + 1.

Definition encode_into (self : t) : ST bytes EncodeError.t Z :=
  let len := encoded_len self in
  EncodeError.check_buffer len;;;
  st_lift (EncodeError.check_pdu_len len);;;
  buf_set 0 (FunctionCode.code FunctionCode.ReadExceptionStatus);;;
  buf_set 1 (status self);;;
  st_ret len.
End ReadExceptionStatusResponse.

#[export] Instance ReadExceptionStatusResponse_Encode : Encode ReadExceptionStatusResponse.t :=
  {| encode_into := ReadExceptionStatusResponse.encode_into; encoded_len := ReadExceptionStatusResponse.encoded_len |}.
Definition ReadExceptionStatusResponse_wf (x : ReadExceptionStatusResponse.t) : Prop :=
  is_u8 (ReadExceptionStatusResponse.status x).
Definition ReadExceptionStatusResponse_wire (x : ReadExceptionStatusResponse.t) : bytes :=
  [0x07; (ReadExceptionStatusResponse.status x)].
Definition ReadExceptionStatusResponse_encodable (x : ReadExceptionStatusResponse.t) : Prop :=
  True.
#[export] Hint Unfold ReadExceptionStatusResponse.decode ReadExceptionStatusResponse.encode_into
  ReadExceptionStatusResponse.encoded_len ReadExceptionStatusResponse_wf
  ReadExceptionStatusResponse_wire ReadExceptionStatusResponse_encodable : codec.
#[export] Instance ReadExceptionStatusResponse_spec : EncodeSpec ReadExceptionStatusResponse.t.
Proof.
  refine {| wf := ReadExceptionStatusResponse_wf; wire := ReadExceptionStatusResponse_wire; encodable := ReadExceptionStatusResponse_encodable |}.
  all: enc_spec.
Defined.
#[export] Instance ReadExceptionStatusResponse_codec : PduCodec ReadExceptionStatusResponse.t 0x07 ReadExceptionStatusResponse.decode.
Proof.
  refine {| decodable := ReadExceptionStatusResponse_encodable |}.
  - dec_complete.
  - dec_sound 1%nat.
  - dec_returns 1%nat.
Defined.

Module DiagnosticsResponse.
Record t : Type := mk { sub_function : DiagnosticSubFunction.t; data : bytes }.

Definition decode (data : bytes) : res DecodeError.t t :=
  if blen data <? 2 then Err (Truncated 2 (blen data)) else
  let? raw_sub := be16_at data 0 1 in
  let? sub_function := ok_or (DiagnosticSubFunction.from_raw raw_sub)
                             (UnknownDiagnosticSubFunction raw_sub) in
  let? payload := slice_from data 2 in
  do? check_diagnostic_data_len_decode payload in
  Ok (mk sub_function payload).

Definition encoded_len (self : t) : Z := 1 + 2 + blen (data self).

Definition encode_into (self : t) : ST bytes EncodeError.t Z :=
  let len := encoded_len self in
  EncodeError.check_buffer len;;;
  st_lift (check_diagnostic_data_len_encode (data self));;;
  st_lift (EncodeError.check_pdu_len len);;;
  buf_set 0 (FunctionCode.code FunctionCode.Diagnostics);;;
  let sf := to_be_bytes (DiagnosticSubFunction.code (sub_function self)) in
  buf_set 1 (at_ sf 0);;;
  buf_set 2 (at_ sf 1);;;
  buf_copy 3 (3 + blen (data self)) (data self);;;
  st_ret len.
End DiagnosticsResponse.

#[export] Instance DiagnosticsResponse_Encode : Encode DiagnosticsResponse.t :=
  {| encode_into := DiagnosticsResponse.encode_into; encoded_len := DiagnosticsResponse.encoded_len |}.
Definition DiagnosticsResponse_wf (x : DiagnosticsResponse.t) : Prop :=
  bytes_ok (DiagnosticsResponse.data x).
Definition DiagnosticsResponse_wire (x : DiagnosticsResponse.t) : bytes :=
  0x08 :: to_be_bytes (DiagnosticSubFunction.code (DiagnosticsResponse.sub_function x))
    ++ (DiagnosticsResponse.data x).
Definition DiagnosticsResponse_encodable (x : DiagnosticsResponse.t) : Prop :=
  blen (DiagnosticsResponse.data x) mod 2 = 0 ∧ blen (DiagnosticsResponse.data x) ≤ 250.
Definition DiagnosticsResponse_decodable (x : DiagnosticsResponse.t) : Prop :=
  blen (DiagnosticsResponse.data x) mod 2 = 0.
#[export] Hint Unfold DiagnosticsResponse.decode DiagnosticsResponse.encode_into
  DiagnosticsResponse.encoded_len DiagnosticsResponse_wf DiagnosticsResponse_wire
  DiagnosticsResponse_encodable DiagnosticsResponse_decodable : codec.
#[export] Instance DiagnosticsResponse_spec : EncodeSpec DiagnosticsResponse.t.
Proof.
  refine {| wf := DiagnosticsResponse_wf; wire := DiagnosticsResponse_wire; encodable := DiagnosticsResponse_encodable |}.
  all: enc_spec.
Defined.
#[export] Instance DiagnosticsResponse_codec : PduCodec DiagnosticsResponse.t 0x08 DiagnosticsResponse.decode.
Proof.
  refine {| decodable := DiagnosticsResponse_decodable |}.
  - dec_complete.
  - dec_sound 2%nat.
  - dec_returns 2%nat.
Defined.

Module GetCommEventCounterResponse.
Record t : Type := mk { status : Z; event_count : Z }.

Definition decode (data : bytes) : res DecodeError.t t :=
  do? check_exact_len data 4 in
  let? status := be16_at data 0 1 in
  let? event_count := be16_at data 2 3 in
  Ok (mk status event_count).

Definition encoded_len (self : t) : Z := 1 + 4.

Definition encode_into (self : t) : ST bytes EncodeError.t Z :=
  let len := encoded_len self in
  EncodeError.check_buffer len;;;
  st_lift (EncodeError.check_pdu_len len);;;
  buf_set 0 (FunctionCode.code FunctionCode.GetCommEventCounter);;;
  let st := to_be_bytes (status self) in
  buf_set 1 (at_ st 0);;;
  buf_set 2 (at_ st 1);;;
  let ec := to_be_bytes (event_count self) in
  buf_set 3 (at_ ec 0);;;
  buf_set 4 (at_ ec 1);;;
  st_ret len.
End GetCommEventCounterResponse.

#[export] Instance GetCommEventCounterResponse_Encode : Encode GetCommEventCounterResponse.t :=
  {| encode_into := GetCommEventCounterResponse.encode_into; encoded_len := GetCommEventCounterResponse.encoded_len |}.
Definition GetCommEventCounterResponse_wf (x : GetCommEventCounterResponse.t) : Prop :=
  is_u16 (GetCommEventCounterResponse.status x) ∧ is_u16 (GetCommEventCounterResponse.event_count x).
Definition GetCommEventCounterResponse_wire (x : GetCommEventCounterResponse.t) : bytes :=
  0x0B :: to_be_bytes (GetCommEventCounterResponse.status x) ++ to_be_bytes (GetCommEventCounterResponse.event_count x).
Definition GetCommEventCounterResponse_encodable (x : GetCommEventCounterResponse.t) : Prop :=
  True.
#[export] Hint Unfold GetCommEventCounterResponse.decode GetCommEventCounterResponse.encode_into
  GetCommEventCounterResponse.encoded_len GetCommEventCounterResponse_wf
  GetCommEventCounterResponse_wire GetCommEventCounterResponse_encodable : codec.
#[export] Instance GetCommEventCounterResponse_spec : EncodeSpec GetCommEventCounterResponse.t.
Proof.
  refine {| wf := GetCommEventCounterResponse_wf; wire := GetCommEventCounterResponse_wire; encodable := GetCommEventCounterResponse_encodable |}.
  all: enc_spec.
Defined.
#[export] Instance GetCommEventCounterResponse_codec : PduCodec GetCommEventCounterResponse.t 0x0B GetCommEventCounterResponse.decode.
Proof.
  refine {| decodable := GetCommEventCounterResponse_encodable |}.
  - dec_complete.
  - dec_sound 4%nat.
  - dec_returns 4%nat.
Defined.

Module GetCommEventLogResponse.
Record t : Type := mk {
  byte_count : Z;
  status : Z;
  event_count : Z;
  message_count : Z;
  events : bytes;
}.

Definition decode (data : bytes) : res DecodeError.t t :=
  if blen data <? 7 then Err (Truncated 7 (blen data)) else
  let? byte_count := idx data 0 in
  let? status := be16_at data 1 2 in
  let? event_count := be16_at data 3 4 in
  let? message_count := be16_at data 5 6 in
  let? events := slice_from data 7 in
  if byte_count <? 6 then Err (ByteCountMismatch byte_count (6 + blen events)) else
  let? declared_events_len := usub byte_count 6 in
  if negb (blen events =? declared_events_len)
  then Err (ByteCountMismatch byte_count (6 + blen events)) else
  Ok (mk byte_count status event_count message_count events).

Definition encoded_len (self : t) : Z := 1 + 1 + 6 + blen (events self).

Definition encode_into (self : t) : ST bytes EncodeError.t Z :=
  let len := encoded_len self in
  EncodeError.check_buffer len;;;
  st_lift (EncodeError.check_byte_count (byte_count self) (6 + blen (events self)));;;
  st_lift (EncodeError.check_pdu_len len);;;
  buf_set 0 (FunctionCode.code FunctionCode.GetCommEventLog);;;
  buf_set 1 (byte_count self);;;
  let st := to_be_bytes (status self) in
  buf_set 2 (at_ st 0);;;
  buf_set 3 (at_ st 1);;;
  let ec := to_be_bytes (event_count self) in
  buf_set 4 (at_ ec 0);;;
  buf_set 5 (at_ ec 1);;;
  let mc := to_be_bytes (message_count self) in
  buf_set 6 (at_ mc 0);;;
  buf_set 7 (at_ mc 1);;;
  buf_copy 8 (8 + blen (events self)) (events self);;;
  st_ret len.
End GetCommEventLogResponse.

#[export] Instance GetCommEventLogResponse_Encode : Encode GetCommEventLogResponse.t :=
  {| encode_into := GetCommEventLogResponse.encode_into; encoded_len := GetCommEventLogResponse.encoded_len |}.
Definition GetCommEventLogResponse_wf (x : GetCommEventLogResponse.t) : Prop :=
  is_u8 (GetCommEventLogResponse.byte_count x) ∧ is_u16 (GetCommEventLogResponse.status x)
  ∧ is_u16 (GetCommEventLogResponse.event_count x) ∧ is_u16 (GetCommEventLogResponse.message_count x)
  ∧ bytes_ok (GetCommEventLogResponse.events x).
Definition GetCommEventLogResponse_wire (x : GetCommEventLogResponse.t) : bytes :=
  0x0C :: (GetCommEventLogResponse.byte_count x) :: to_be_bytes (GetCommEventLogResponse.status x)
    ++ to_be_bytes (GetCommEventLogResponse.event_count x) ++ to_be_bytes (GetCommEventLogResponse.message_count x) ++ (GetCommEventLogResponse.events x).
Definition GetCommEventLogResponse_encodable (x : GetCommEventLogResponse.t) : Prop :=
  (GetCommEventLogResponse.byte_count x) = 6 + blen (GetCommEventLogResponse.events x) ∧ (GetCommEventLogResponse.byte_count x) ≤ 251.
Definition GetCommEventLogResponse_decodable (x : GetCommEventLogResponse.t) : Prop :=
  (GetCommEventLogResponse.byte_count x) = 6 + blen (GetCommEventLogResponse.events x).
#[export] Hint Unfold GetCommEventLogResponse.decode GetCommEventLogResponse.encode_into
  GetCommEventLogResponse.encoded_len GetCommEventLogResponse_wf GetCommEventLogResponse_wire
  GetCommEventLogResponse_encodable GetCommEventLogResponse_decodable : codec.
#[export] Instance GetCommEventLogResponse_spec : EncodeSpec GetCommEventLogResponse.t.
Proof.
  refine {| wf := GetCommEventLogResponse_wf; wire := GetCommEventLogResponse_wire; encodable := GetCommEventLogResponse_encodable |}.
  all: enc_spec.
Defined.
#[export] Instance GetCommEventLogResponse_codec : PduCodec GetCommEventLogResponse.t 0x0C GetCommEventLogResponse.decode.
Proof.
  refine {| decodable := GetCommEventLogResponse_decodable |}.
  - dec_complete.
  - dec_sound 7%nat.
  - dec_returns 7%nat.
Defined.

Module ReportServerIdResponse.
Record t : Type := mk { byte_count : Z; data : bytes }.

Definition decode (data : bytes) : res DecodeError.t t :=
  if is_empty data then Err (Truncated 1 0) else
  let? byte_count := idx data 0 in
  let? payload := slice_from data 1 in
  if negb (blen payload =? byte_count)
  then Err (ByteCountMismatch byte_count (blen payload)) else
  Ok (mk byte_count payload).

Definition encoded_len (self : t) : Z := 1 + 1 + byte_count self.

Definition encode_into (self : t) : ST bytes EncodeError.t Z :=
  let len := encoded_len self in
  EncodeError.check_buffer len;;;
  st_lift (EncodeError.check_byte_count (byte_count self) (blen (data self)));;;
  st_lift (EncodeError.check_pdu_len len);;;
  buf_set 0 (FunctionCode.code FunctionCode.ReportServerId);;;
  buf_set 1 (byte_count self);;;
  buf_copy 2 (2 + byte_count self) (data self);;;
  st_ret len.
End ReportServerIdResponse.

#[export] Instance ReportServerIdResponse_Encode : Encode ReportServerIdResponse.t :=
  {| encode_into := ReportServerIdResponse.encode_into; encoded_len := ReportServerIdResponse.encoded_len |}.
Definition ReportServerIdResponse_wf (x : ReportServerIdResponse.t) : Prop :=
  is_u8 (ReportServerIdResponse.byte_count x) ∧ bytes_ok (ReportServerIdResponse.data x).
Definition ReportServerIdResponse_wire (x : ReportServerIdResponse.t) : bytes :=
  0x11 :: (ReportServerIdResponse.byte_count x) :: (ReportServerIdResponse.data x).
Definition ReportServerIdResponse_encodable (x : ReportServerIdResponse.t) : Prop :=
  blen (ReportServerIdResponse.data x) = (ReportServerIdResponse.byte_count x) ∧ (ReportServerIdResponse.byte_count x) ≤ 251.
Definition ReportServerIdResponse_decodable (x : ReportServerIdResponse.t) : Prop :=
  blen (ReportServerIdResponse.data x) = (ReportServerIdResponse.byte_count x).
#[export] Hint Unfold ReportServerIdResponse.decode ReportServerIdResponse.encode_into
  ReportServerIdResponse.encoded_len ReportServerIdResponse_wf ReportServerIdResponse_wire
  ReportServerIdResponse_encodable ReportServerIdResponse_decodable : codec.
#[export] Instance ReportServerIdResponse_spec : EncodeSpec ReportServerIdResponse.t.
Proof.
  refine {| wf := ReportServerIdResponse_wf; wire := ReportServerIdResponse_wire; encodable := ReportServerIdResponse_encodable |}.
  all: enc_spec.
Defined.
#[export] Instance ReportServerIdResponse_codec : PduCodec ReportServerIdResponse.t 0x11 ReportServerIdResponse.decode.
Proof.
  refine {| decodable := ReportServerIdResponse_decodable |}.
  - dec_complete.
  - dec_sound 1%nat.
  - dec_returns 1%nat.
Defined.

(** ** FC 18: FIFO queues (fifo.rs) *)
Module ReadFifoQueueResponse.
Record t : Type := mk { byte_count : Z; fifo_count : Z; fifo_values : bytes }.

Definition decode (data : bytes) : res DecodeError.t t :=
  if blen data <? 4 then Err (Truncated 4 (blen data)) else
  let? byte_count := be16_at data 0 1 in
  let? fifo_count := be16_at data 2 3 in
  let? fifo_values := slice_from data 4 in
  if byte_count <? 2 then Err (ByteCountMismatch byte_count (2 + blen fifo_values)) else
  let? expected_remaining := usub byte_count 2 in
  if negb (blen fifo_values =? expected_remaining)
  then Err (ByteCountMismatch expected_remaining (blen fifo_values)) else
  if 31 <? fifo_count then Err (QuantityOutOfRange fifo_count) else
  let expected_data_len := fifo_count * 2 in
  if negb (blen fifo_values =? expected_data_len)
  then Err (ByteCountMismatch expected_data_len (blen fifo_values)) else
  Ok (mk byte_count fifo_count fifo_values).

Definition check_fifo_count (fifo_count : Z) : res EncodeError.t unit :=
  if MAX_FIFO_VALUES <? fifo_count then Err (EncodeError.QuantityOutOfRange fifo_count) else Ok tt.

Definition encoded_len (self : t) : Z := 1 + 2 + 2 + blen (fifo_values self).

Definition encode_into (self : t) : ST bytes EncodeError.t Z :=
  let len := encoded_len self in
  EncodeError.check_buffer len;;;
  st_lift (EncodeError.check_byte_count (byte_count self) (2 + blen (fifo_values self)));;;
  st_lift (check_fifo_count (fifo_count self));;;
  let expected_data_len := fifo_count self * 2 in
  st_lift (EncodeError.check_byte_count expected_data_len (blen (fifo_values self)));;;
  st_lift (EncodeError.check_pdu_len len);;;
  buf_set 0 (FunctionCode.code FunctionCode.ReadFifoQueue);;;
  let bc := to_be_bytes (byte_count self) in
  buf_set 1 (at_ bc 0);;;
  buf_set 2 (at_ bc 1);;;
  let fc := to_be_bytes (fifo_count self) in
  buf_set 3 (at_ fc 0);;;
  buf_set 4 (at_ fc 1);;;
  buf_copy 5 (5 + blen (fifo_values self)) (fifo_values self);;;
  st_ret len.
End ReadFifoQueueResponse.

Lemma check_fifo_count_ok n : n ≤ 31 → ReadFifoQueueResponse.check_fifo_count n = Ok tt.
Proof.
  intros. unfold ReadFifoQueueResponse.check_fifo_count, MAX_FIFO_VALUES.
  by replace (_ <? _) with false by lia.
Qed.
Lemma check_fifo_count_iff n u : ReadFifoQueueResponse.check_fifo_count n = Ok u ↔ n ≤ 31.
Proof.
  unfold ReadFifoQueueResponse.check_fifo_count, MAX_FIFO_VALUES. destruct u.
  case_match; naive_solver lia.
Qed.
Lemma check_fifo_count_returns n : returns (ReadFifoQueueResponse.check_fifo_count n).
Proof. unfold ReadFifoQueueResponse.check_fifo_count. by case_match. Qed.
#[export] Hint Rewrite check_fifo_count_ok using enc_arith : check_ok.
#[export] Hint Rewrite check_fifo_count_iff : check_iff.
#[export] Hint Resolve check_fifo_count_returns : modbus.

#[export] Instance ReadFifoQueueResponse_Encode : Encode ReadFifoQueueResponse.t :=
  {| encode_into := ReadFifoQueueResponse.encode_into; encoded_len := ReadFifoQueueResponse.encoded_len |}.
Definition ReadFifoQueueResponse_wf (x : ReadFifoQueueResponse.t) : Prop :=
  is_u16 (ReadFifoQueueResponse.byte_count x) ∧ is_u16 (ReadFifoQueueResponse.fifo_count x)
  ∧ bytes_ok (ReadFifoQueueResponse.fifo_values x).
Definition ReadFifoQueueResponse_wire (x : ReadFifoQueueResponse.t) : bytes :=
  0x18 :: to_be_bytes (ReadFifoQueueResponse.byte_count x) ++ to_be_bytes (ReadFifoQueueResponse.fifo_count x)
    ++ (ReadFifoQueueResponse.fifo_values x).
Definition ReadFifoQueueResponse_encodable (x : ReadFifoQueueResponse.t) : Prop :=
  (ReadFifoQueueResponse.byte_count x) = 2 + blen (ReadFifoQueueResponse.fifo_values x) ∧ (ReadFifoQueueResponse.fifo_count x) ≤ 31
  ∧ blen (ReadFifoQueueResponse.fifo_values x) = 2 * (ReadFifoQueueResponse.fifo_count x).
#[export] Hint Unfold ReadFifoQueueResponse.decode ReadFifoQueueResponse.encode_into
  ReadFifoQueueResponse.encoded_len ReadFifoQueueResponse_wf ReadFifoQueueResponse_wire
  ReadFifoQueueResponse_encodable : codec.
#[export] Instance ReadFifoQueueResponse_spec : EncodeSpec ReadFifoQueueResponse.t.
Proof.
  refine {| wf := ReadFifoQueueResponse_wf; wire := ReadFifoQueueResponse_wire; encodable := ReadFifoQueueResponse_encodable |}.
  all: enc_spec.
Defined.
#[export] Instance ReadFifoQueueResponse_codec : PduCodec ReadFifoQueueResponse.t 0x18 ReadFifoQueueResponse.decode.
Proof.
  refine {| decodable := ReadFifoQueueResponse_encodable |}.
  - dec_complete.
  - dec_sound 4%nat.
  - dec_returns 4%nat.
Defined.

(** ** Exception responses (exception.rs) *)
Module ExceptionResponse.
Record t : Type := mk { function_code : FunctionCode.t; exception_code : ExceptionCode.t }.

Definition decode (fc_byte : Z) (data : bytes) : res DecodeError.t t :=
  do? check_exact_len data 1 in
  let raw_function_code := Z.land fc_byte 0x7F in
  if raw_function_code =? 0 then Err (UnknownFunctionCode raw_function_code) else
  let function_code := FunctionCode.from_exception_raw fc_byte in
  let? d0 := idx data 0 in
  let exception_code := ExceptionCode.from_raw d0 in
  Ok (mk function_code exception_code).

Definition encoded_len (self : t) : Z := 2.

Definition encode_into (self : t) : ST bytes EncodeError.t Z :=
  let len := encoded_len self in
  EncodeError.check_buffer len;;;
  st_lift (EncodeError.check_pdu_len len);;;
  buf_set 0 (FunctionCode.exception_code (function_code self));;;
  buf_set 1 (ExceptionCode.code (exception_code self));;;
  st_ret len.
End ExceptionResponse.

#[export] Instance ExceptionResponse_Encode : Encode ExceptionResponse.t :=
  {| encode_into := ExceptionResponse.encode_into; encoded_len := ExceptionResponse.encoded_len |}.
Definition ExceptionResponse_wf (x : ExceptionResponse.t) : Prop :=
  is_u8 (FunctionCode.code (ExceptionResponse.function_code x))
  ∧ is_u8 (ExceptionCode.code (ExceptionResponse.exception_code x)).
Definition ExceptionResponse_wire (x : ExceptionResponse.t) : bytes :=
  [FunctionCode.exception_code (ExceptionResponse.function_code x); ExceptionCode.code (ExceptionResponse.exception_code x)].
Definition ExceptionResponse_encodable (x : ExceptionResponse.t) : Prop :=
  True.
#[export] Hint Unfold ExceptionResponse.encode_into ExceptionResponse.encoded_len
  ExceptionResponse_wf ExceptionResponse_wire ExceptionResponse_encodable : codec.
#[export] Instance ExceptionResponse_spec : EncodeSpec ExceptionResponse.t.
Proof.
  refine {| wf := ExceptionResponse_wf; wire := ExceptionResponse_wire; encodable := ExceptionResponse_encodable |}.
  1-4, 6: shelve.
  - intros [f e] [Hf He]. unfold ExceptionResponse_wire; simpl in *.
    unfold FunctionCode.exception_code. rewrite exception_flag_set by done.
    case_match; bytes_ok_solve.
  Unshelve. all: intros x; simpl; autounfold with codec; simpl; intros; (by enc_ok) || enc_short || naive_solver lia || done.
Defined.

(** What the decoder of an exception response accepts: a function code byte
    whose low seven bits are not zero, and one exception code. *)
Definition ExceptionResponse_decodable (x : ExceptionResponse.t) : Prop :=
  fc_canonical (ExceptionResponse.function_code x) ∧ ec_canonical (ExceptionResponse.exception_code x)
  ∧ 1 ≤ FunctionCode.code (ExceptionResponse.function_code x) < 128.

Lemma ExceptionResponse_decode_wire x : ExceptionResponse_wf x → ExceptionResponse_decodable x →
  ExceptionResponse_wire x = [FunctionCode.code (ExceptionResponse.function_code x) + 128;
                              ExceptionCode.code (ExceptionResponse.exception_code x)] ∧
  ExceptionResponse.decode (FunctionCode.code (ExceptionResponse.function_code x) + 128)
    [ExceptionCode.code (ExceptionResponse.exception_code x)] = Ok x.
Proof.
  destruct x as [f e]. intros [Hf He] (Hcf & Hce & Hr). simpl in *.
  unfold ExceptionResponse_wire, ExceptionResponse.decode, FunctionCode.exception_code,
    FunctionCode.from_exception_raw; simpl.
  rewrite exception_flag_set by done. rewrite exception_flag_strip by lia.
  replace (_ <? 128) with true by lia. split; [done|].
  replace (_ <? 128) with false by lia. rewrite Z.add_simpl_r.
  replace (_ =? 0) with false by lia.
  by rewrite FunctionCode_from_byte_code, ExceptionCode_from_raw_code.
Qed.
Lemma ExceptionResponse_decode_inv fc data x : 128 ≤ fc < 256 → bytes_ok data →
  ExceptionResponse.decode fc data = Ok x →
  ExceptionResponse_wf x ∧ ExceptionResponse_decodable x ∧ ExceptionResponse_wire x = fc :: data.
Proof.
  intros Hfc Hb. unfold ExceptionResponse.decode, FunctionCode.from_exception_raw.
  rewrite exception_flag_strip by lia. replace (fc <? 128) with false by lia.
  cells data 1%nat; [done|]. apply bytes_ok_cons in Hb as [? _]. dec_cases; try done.
  intros [= <-]. assert (data = []) as -> by (apply blen_0_nil; dec_arith).
  unfold ExceptionResponse_wf, ExceptionResponse_decodable, ExceptionResponse_wire,
    FunctionCode.exception_code; simpl.
  rewrite FunctionCode_code_from_byte, ExceptionCode_code_from_raw, exception_flag_set by lia.
  replace (_ <? 128) with true by lia. rewrite Z.sub_add.
  split_and!; try lia; try done.
  - apply FunctionCode_from_byte_canonical.
  - apply ExceptionCode_from_raw_canonical.
Qed.
Lemma ExceptionResponse_decode_returns fc data : returns (ExceptionResponse.decode fc data).
Proof.
  unfold ExceptionResponse.decode. cells data 1%nat; [done|]. by dec_cases.
Qed.

(** ** FC 14 and FC 15: file records (file.rs) *)
Definition READ_FILE_RECORD_RESPONSE_MIN_BYTE_COUNT : Z := 0x04.
Definition READ_FILE_RECORD_RESPONSE_MAX_BYTE_COUNT : Z := 0xFA.

Definition validate_read_file_response_payload (payload : bytes) : res DecodeError.t unit :=
  consume (λ remaining,
    let? response_len := idx remaining 0 in
    if (response_len <? 3) || (response_len mod 2 =? 0)
    then Err (InvalidFileRecordLength response_len) else
    let group_len := 1 + response_len in
    if blen remaining <? group_len then Err (ByteCountMismatch group_len (blen remaining)) else
    let? reference_type := idx remaining 1 in
    if negb (reference_type =? FILE_RECORD_REFERENCE_TYPE)
    then Err (InvalidReferenceType reference_type)
    else Ok group_len) payload.

Definition validate_read_file_response_payload_encode (payload : bytes) : res EncodeError.t unit :=
  consume (λ remaining,
    let? response_len := idx remaining 0 in
    if (response_len <? 3) || (response_len mod 2 =? 0)
    then Err (EncodeError.InvalidFileRecordLength response_len) else
    let group_len := 1 + response_len in
    if blen remaining <? group_len
    then Err (EncodeError.ByteCountMismatch group_len (blen remaining)) else
    let? reference_type := idx remaining 1 in
    if negb (reference_type =? FILE_RECORD_REFERENCE_TYPE)
    then Err (EncodeError.InvalidReferenceType reference_type)
    else Ok group_len) payload.

Definition validate_write_file_payload (payload : bytes) : res DecodeError.t unit :=
  consume (λ remaining,
    if blen remaining <? 7 then Err (InvalidFileRecordLength (blen remaining)) else
    let? reference_type := idx remaining 0 in
    if negb (reference_type =? FILE_RECORD_REFERENCE_TYPE)
    then Err (InvalidReferenceType reference_type) else
    let? file_number := be16_at remaining 1 2 in
    let? record_number := be16_at remaining 3 4 in
    let? record_length := be16_at remaining 5 6 in
    do? check_file_record_range file_number record_number record_length in
    let group_len := 7 + record_length * 2 in
    if blen remaining <? group_len then Err (ByteCountMismatch group_len (blen remaining))
    else Ok group_len) payload.

Definition validate_write_file_payload_encode (payload : bytes) : res EncodeError.t unit :=
  consume (λ remaining,
    if blen remaining <? 7 then Err (EncodeError.InvalidFileRecordLength (blen remaining)) else
    let? reference_type := idx remaining 0 in
    if negb (reference_type =? FILE_RECORD_REFERENCE_TYPE)
    then Err (EncodeError.InvalidReferenceType reference_type) else
    let? file_number := be16_at remaining 1 2 in
    let? record_number := be16_at remaining 3 4 in
    let? record_length := be16_at remaining 5 6 in
    do? check_file_record_range_encode file_number record_number record_length in
    let group_len := 7 + record_length * 2 in
    if blen remaining <? group_len
    then Err (EncodeError.ByteCountMismatch group_len (blen remaining))
    else Ok group_len) payload.

Module ReadFileRecordResponse.
Record t : Type := mk { byte_count : Z; data : bytes }.

Definition decode (data : bytes) : res DecodeError.t t :=
  if is_empty data then Err (Truncated 1 0) else
  let? byte_count := idx data 0 in
  do? check_file_record_byte_count byte_count READ_FILE_RECORD_RESPONSE_MIN_BYTE_COUNT READ_FILE_RECORD_RESPONSE_MAX_BYTE_COUNT in
  let? payload := slice_from data 1 in
  if negb (blen payload =? byte_count) then Err (ByteCountMismatch byte_count (blen payload)) else
  do? validate_read_file_response_payload payload in
  Ok (mk byte_count payload).

Definition encoded_len (self : t) : Z := 1 + 1 + byte_count self.

Definition encode_into (self : t) : ST bytes EncodeError.t Z :=
  let len := encoded_len self in
  EncodeError.check_buffer len;;;
  st_lift (EncodeError.check_byte_count_range (byte_count self)
             READ_FILE_RECORD_RESPONSE_MIN_BYTE_COUNT READ_FILE_RECORD_RESPONSE_MAX_BYTE_COUNT);;;
  st_lift (EncodeError.check_byte_count (byte_count self) (blen (data self)));;;
  st_lift (validate_read_file_response_payload_encode (data self));;;
  st_lift (EncodeError.check_pdu_len len);;;
  buf_set 0 (FunctionCode.code FunctionCode.ReadFileRecord);;;
  buf_set 1 (byte_count self);;;
  buf_copy 2 (2 + byte_count self) (data self);;;
  st_ret len.
End ReadFileRecordResponse.

Module WriteFileRecordResponse.
Record t : Type := mk { byte_count : Z; data : bytes }.

Definition decode (data : bytes) : res DecodeError.t t :=
  if is_empty data then Err (Truncated 1 0) else
  let? byte_count := idx data 0 in
  do? check_file_record_byte_count byte_count WRITE_FILE_RECORD_MIN_BYTE_COUNT WRITE_FILE_RECORD_MAX_BYTE_COUNT in
  let? payload := slice_from data 1 in
  if negb (blen payload =? byte_count) then Err (ByteCountMismatch byte_count (blen payload)) else
  do? validate_write_file_payload payload in
  Ok (mk byte_count payload).

Definition encoded_len (self : t) : Z := 1 + 1 + byte_count self.

Definition encode_into (self : t) : ST bytes EncodeError.t Z :=
  let len := encoded_len self in
  EncodeError.check_buffer len;;;
  st_lift (EncodeError.check_byte_count_range (byte_count self)
             WRITE_FILE_RECORD_MIN_BYTE_COUNT WRITE_FILE_RECORD_MAX_BYTE_COUNT);;;
  st_lift (EncodeError.check_byte_count (byte_count self) (blen (data self)));;;
  st_lift (validate_write_file_payload_encode (data self));;;
  st_lift (EncodeError.check_pdu_len len);;;
  buf_set 0 (FunctionCode.code FunctionCode.WriteFileRecord);;;
  buf_set 1 (byte_count self);;;
  buf_copy 2 (2 + byte_count self) (data self);;;
  st_ret len.
End WriteFileRecordResponse.

(** A record group of an FC 14 response: its length byte, the reference type
    and at least one register. *)
Definition read_response_group (g : bytes) : Prop :=
  ∃ values, g = (1 + blen values) :: 6 :: values
    ∧ 2 ≤ blen values ≤ 254 ∧ blen values mod 2 = 0.

#[export] Hint Unfold READ_FILE_RECORD_RESPONSE_MIN_BYTE_COUNT
  READ_FILE_RECORD_RESPONSE_MAX_BYTE_COUNT : codec.

Section ReadResponseWalk.
Context {E : Type} (bad_len : Z → E) (mismatch : Z → Z → E) (bad_type : Z → E).
Definition read_response_step (remaining : bytes) : res E Z :=
  let? response_len := idx remaining 0 in
  if (response_len <? 3) || (response_len mod 2 =? 0) then Err (bad_len response_len) else
  let group_len := 1 + response_len in
  if blen remaining <? group_len then Err (mismatch group_len (blen remaining)) else
  let? reference_type := idx remaining 1 in
  if negb (reference_type =? FILE_RECORD_REFERENCE_TYPE) then Err (bad_type reference_type)
  else Ok group_len.

Lemma read_response_group_pos g : read_response_group g → 0 < blen g.
Proof. intros (v & -> & _). rewrite !blen_cons. pose proof (blen_nonneg v). lia. Qed.
Lemma read_response_step_Ok l n : bytes_ok l → l ≠ [] →
  read_response_step l = Ok n ↔ ∃ g rest, l = g ++ rest ∧ read_response_group g ∧ n = blen g.
Proof.
  intros Hl Hne. unfold read_response_step, FILE_RECORD_REFERENCE_TYPE. split.
  - destruct l as [|k l]; [done|]. apply bytes_ok_cons in Hl as [Hk Hl]. dec_cases; try done.
    destruct l as [|t l]; [dec_arith|]. dec_cases; try done. intros [= <-].
    assert (t = 6) as -> by lia. autorewrite with blen in *.
    exists (k :: 6 :: take (Z.to_nat (k - 1)) l), (drop (Z.to_nat (k - 1)) l).
    assert (blen (take (Z.to_nat (k - 1)) l) = k - 1) as Hlen by (rewrite blen_take; lia).
    split_and!; [by simpl; rewrite take_drop| |rewrite !blen_cons, Hlen; lia].
    exists (take (Z.to_nat (k - 1)) l). rewrite Hlen. split_and!; [f_equal; lia|lia..|].
    Z.to_euclidean_division_equations; lia.
  - intros (g & rest & -> & (v & -> & Hv & Hm) & ->). simpl.
    pose proof (blen_nonneg rest). dec_reads. cbn [rbind].
    replace (_ || _)%bool with false by (Z.to_euclidean_division_equations; lia).
    dec_run. by rewrite !blen_cons.
Qed.
Lemma read_response_step_returns l : l ≠ [] → returns (read_response_step l).
Proof.
  intros Hne. unfold read_response_step. destruct l as [|k l]; [done|]. dec_cases; try done.
  destruct l as [|t l]; [dec_arith|]. by dec_cases.
Qed.
End ReadResponseWalk.

Section WriteResponseWalk.
Context {E : Type} (short : Z → E) (bad_type : Z → E) (bad_range : Z → Z → Z → E) (mismatch : Z → Z → E).
Definition write_response_step (remaining : bytes) : res E Z :=
  if blen remaining <? 7 then Err (short (blen remaining)) else
  let? reference_type := idx remaining 0 in
  if negb (reference_type =? FILE_RECORD_REFERENCE_TYPE) then Err (bad_type reference_type) else
  let? file_number := be16_at remaining 1 2 in
  let? record_number := be16_at remaining 3 4 in
  let? record_length := be16_at remaining 5 6 in
  do? (if (file_number <? MIN_FILE_NUMBER) || (record_length =? 0)
          || (MAX_RECORD_NUMBER <? record_number) || (RECORD_COUNT <? record_number + record_length)
       then Err (bad_range file_number record_number record_length)
       else Ok tt) in
  let group_len := 7 + record_length * 2 in
  if blen remaining <? group_len then Err (mismatch group_len (blen remaining)) else Ok group_len.

(** The echo of FC 15 is walked without slicing the header off; it accepts the
    groups the request's walk accepts. *)
Lemma write_response_step_agrees l n :
  write_response_step l = Ok n ↔
  write_step FileSubRequest.decode InvalidFileRecordLength ByteCountMismatch l = Ok n.
Proof.
  unfold write_response_step, write_step. destruct (blen l <? 7) eqn:H7; [done|].
  do 7 (destruct l as [|? l]; [dec_arith|]). rewrite slice_to_Ok by dec_arith.
  change (take (Z.to_nat 7) _) with [z; z0; z1; z2; z3; z4; z5]. cbn [rbind].
  unfold FileSubRequest.decode, check_file_record_range, FILE_RECORD_REFERENCE_TYPE.
  dec_cases; simpl in *; congruence || done || (split; congruence).
Qed.
Lemma write_response_step_Ok l n : bytes_ok l →
  write_response_step l = Ok n ↔ ∃ g rest, l = g ++ rest ∧ write_group g ∧ n = blen g.
Proof. intros. by rewrite write_response_step_agrees, write_step_Ok. Qed.
Lemma write_response_step_returns l : returns (write_response_step l).
Proof.
  unfold write_response_step. destruct (blen l <? 7) eqn:H7; [done|].
  do 7 (destruct l as [|? l]; [dec_arith|]). by dec_cases.
Qed.
End WriteResponseWalk.

Lemma validate_read_file_response_payload_Ok p : bytes_ok p →
  validate_read_file_response_payload p = Ok tt ↔ groups read_response_group p.
Proof. apply consume_Ok; [apply read_response_step_Ok|exact read_response_group_pos]. Qed.
Lemma validate_read_file_response_payload_encode_Ok p : bytes_ok p →
  validate_read_file_response_payload_encode p = Ok tt ↔ groups read_response_group p.
Proof. apply consume_Ok; [apply read_response_step_Ok|exact read_response_group_pos]. Qed.
Lemma validate_read_file_response_payload_returns p :
  bytes_ok p → returns (validate_read_file_response_payload p).
Proof.
  apply (consume_returns _ read_response_group);
    [apply read_response_step_Ok|exact read_response_group_pos|intros; by apply read_response_step_returns].
Qed.
Lemma validate_read_file_response_payload_encode_returns p :
  bytes_ok p → returns (validate_read_file_response_payload_encode p).
Proof.
  apply (consume_returns _ read_response_group);
    [apply read_response_step_Ok|exact read_response_group_pos|intros; by apply read_response_step_returns].
Qed.
Lemma validate_write_file_payload_Ok p : bytes_ok p →
  validate_write_file_payload p = Ok tt ↔ groups write_group p.
Proof. apply consume_Ok; [intros; by apply write_response_step_Ok|exact write_group_pos]. Qed.
Lemma validate_write_file_payload_encode_Ok p : bytes_ok p →
  validate_write_file_payload_encode p = Ok tt ↔ groups write_group p.
Proof. apply consume_Ok; [intros; by apply write_response_step_Ok|exact write_group_pos]. Qed.
Lemma validate_write_file_payload_returns p : bytes_ok p → returns (validate_write_file_payload p).
Proof.
  apply (consume_returns _ write_group);
    [intros; by apply write_response_step_Ok|exact write_group_pos|intros; apply write_response_step_returns].
Qed.
Lemma validate_write_file_payload_encode_returns p :
  bytes_ok p → returns (validate_write_file_payload_encode p).
Proof.
  apply (consume_returns _ write_group);
    [intros; by apply write_response_step_Ok|exact write_group_pos|intros; apply write_response_step_returns].
Qed.
#[export] Hint Resolve validate_read_file_response_payload_returns validate_write_file_payload_returns
  validate_read_file_response_payload_encode_returns validate_write_file_payload_encode_returns : modbus.

#[export] Instance ReadFileRecordResponse_Encode : Encode ReadFileRecordResponse.t :=
  {| encode_into := ReadFileRecordResponse.encode_into; encoded_len := ReadFileRecordResponse.encoded_len |}.
Definition ReadFileRecordResponse_wf (x : ReadFileRecordResponse.t) : Prop :=
  is_u8 (ReadFileRecordResponse.byte_count x) ∧ bytes_ok (ReadFileRecordResponse.data x).
Definition ReadFileRecordResponse_wire (x : ReadFileRecordResponse.t) : bytes :=
  0x14 :: (ReadFileRecordResponse.byte_count x) :: (ReadFileRecordResponse.data x).
Definition ReadFileRecordResponse_encodable (x : ReadFileRecordResponse.t) : Prop :=
  4 ≤ (ReadFileRecordResponse.byte_count x) ≤ 250
  ∧ (ReadFileRecordResponse.byte_count x) = blen (ReadFileRecordResponse.data x) ∧ groups read_response_group (ReadFileRecordResponse.data x).
#[export] Hint Unfold ReadFileRecordResponse.decode ReadFileRecordResponse.encode_into
  ReadFileRecordResponse.encoded_len ReadFileRecordResponse_wf ReadFileRecordResponse_wire
  ReadFileRecordResponse_encodable : codec.
#[export] Instance ReadFileRecordResponse_spec : EncodeSpec ReadFileRecordResponse.t.
Proof.
  refine {| wf := ReadFileRecordResponse_wf; wire := ReadFileRecordResponse_wire; encodable := ReadFileRecordResponse_encodable |}.
  - intros x buf Hwf Hen Hl. codec_open x.
    assert (validate_read_file_response_payload_encode data = Ok tt) by by apply validate_read_file_response_payload_encode_Ok.
    enc_ok.
  - intros x buf Hl. simpl in *. autounfold with codec in *. enc_short.
  - intros x buf Hwf Hl. codec_open x.
    enc_reject ltac:(destruct a1; rewrite validate_read_file_response_payload_encode_Ok in Hr1 by done; split_and!; [enc_arith..|done]).
  - intros x Hwf Hen. codec_open x. enc_arith.
  - intros x Hwf. codec_open x. bytes_ok_solve.
  - intros x Hwf Hen. codec_open x. enc_arith.
Defined.
#[export] Instance ReadFileRecordResponse_codec : PduCodec ReadFileRecordResponse.t 0x14 ReadFileRecordResponse.decode.
Proof.
  refine {| decodable := ReadFileRecordResponse_encodable |}.
  - intros x Hwf Hd. eexists; split; [reflexivity|]. codec_open x.
    dec_run. simpl. by rewrite (proj2 (validate_read_file_response_payload_Ok data ltac:(done))).
  - intros data x Hb. autounfold with codec. cells data 1%nat; [done|]. rewrite is_empty_cons.
    apply bytes_ok_cons in Hb as [Hb0 Hb]. dec_cases; try done. rewrite rbind_Ok.
    intros ([] & Hv & Hx). injection Hx as <-. apply validate_read_file_response_payload_Ok in Hv; [|done]. simpl.
    autounfold with codec. simpl. split_and!; try done; dec_arith.
  - intros data Hb. autounfold with codec. cells data 1%nat; [done|]. rewrite is_empty_cons.
    apply bytes_ok_cons in Hb as [Hb0 Hb]. dec_cases; try done.
    apply rbind_returns; [by auto with modbus|done].
Defined.

#[export] Instance WriteFileRecordResponse_Encode : Encode WriteFileRecordResponse.t :=
  {| encode_into := WriteFileRecordResponse.encode_into; encoded_len := WriteFileRecordResponse.encoded_len |}.
Definition WriteFileRecordResponse_wf (x : WriteFileRecordResponse.t) : Prop :=
  is_u8 (WriteFileRecordResponse.byte_count x) ∧ bytes_ok (WriteFileRecordResponse.data x).
Definition WriteFileRecordResponse_wire (x : WriteFileRecordResponse.t) : bytes :=
  0x15 :: (WriteFileRecordResponse.byte_count x) :: (WriteFileRecordResponse.data x).
Definition WriteFileRecordResponse_encodable (x : WriteFileRecordResponse.t) : Prop :=
  9 ≤ (WriteFileRecordResponse.byte_count x) ≤ 251
  ∧ (WriteFileRecordResponse.byte_count x) = blen (WriteFileRecordResponse.data x) ∧ groups write_group (WriteFileRecordResponse.data x).
#[export] Hint Unfold WriteFileRecordResponse.decode WriteFileRecordResponse.encode_into
  WriteFileRecordResponse.encoded_len WriteFileRecordResponse_wf WriteFileRecordResponse_wire
  WriteFileRecordResponse_encodable : codec.
#[export] Instance WriteFileRecordResponse_spec : EncodeSpec WriteFileRecordResponse.t.
Proof.
  refine {| wf := WriteFileRecordResponse_wf; wire := WriteFileRecordResponse_wire; encodable := WriteFileRecordResponse_encodable |}.
  - intros x buf Hwf Hen Hl. codec_open x.
    assert (validate_write_file_payload_encode data = Ok tt) by by apply validate_write_file_payload_encode_Ok.
    enc_ok.
  - intros x buf Hl. simpl in *. autounfold with codec in *. enc_short.
  - intros x buf Hwf Hl. codec_open x.
    enc_reject ltac:(destruct a1; rewrite validate_write_file_payload_encode_Ok in Hr1 by done; split_and!; [enc_arith..|done]).
  - intros x Hwf Hen. codec_open x. enc_arith.
  - intros x Hwf. codec_open x. bytes_ok_solve.
  - intros x Hwf Hen. codec_open x. enc_arith.
Defined.
#[export] Instance WriteFileRecordResponse_codec : PduCodec WriteFileRecordResponse.t 0x15 WriteFileRecordResponse.decode.
Proof.
  refine {| decodable := WriteFileRecordResponse_encodable |}.
  - intros x Hwf Hd. eexists; split; [reflexivity|]. codec_open x.
    dec_run. simpl. by rewrite (proj2 (validate_write_file_payload_Ok data ltac:(done))).
  - intros data x Hb. autounfold with codec. cells data 1%nat; [done|]. rewrite is_empty_cons.
    apply bytes_ok_cons in Hb as [Hb0 Hb]. dec_cases; try done. rewrite rbind_Ok.
    intros ([] & Hv & Hx). injection Hx as <-. apply validate_write_file_payload_Ok in Hv; [|done]. simpl.
    autounfold with codec. simpl. split_and!; try done; dec_arith.
  - intros data Hb. autounfold with codec. cells data 1%nat; [done|]. rewrite is_empty_cons.
    apply bytes_ok_cons in Hb as [Hb0 Hb]. dec_cases; try done.
    apply rbind_returns; [by auto with modbus|done].
Defined.

(** * Theorems *)

(** The four walks over write-file-record payloads (request decoder, request
    encoder, response decoder, response encoder) and their grammar agree: each
    accepts a payload if and only if it is a sequence of sub-requests in the file
    model, each followed by exactly its record data, and each always returns. *)
Theorem write_file_walks_agree p : bytes_ok p →
  (validate_write_file_sub_requests p = Ok tt ↔ groups write_group p) ∧
  (validate_write_file_sub_requests_encode p = Ok tt ↔ groups write_group p) ∧
  (validate_write_file_payload p = Ok tt ↔ groups write_group p) ∧
  (validate_write_file_payload_encode p = Ok tt ↔ groups write_group p) ∧
  returns (validate_write_file_sub_requests p) ∧ returns (validate_write_file_sub_requests_encode p) ∧
  returns (validate_write_file_payload p) ∧ returns (validate_write_file_payload_encode p).
Proof.
  intros Hp. split_and!.
  - by apply validate_write_file_sub_requests_Ok.
  - by apply validate_write_file_sub_requests_encode_Ok.
  - by apply validate_write_file_payload_Ok.
  - by apply validate_write_file_payload_encode_Ok.
  - by apply validate_write_file_sub_requests_returns.
  - by apply validate_write_file_sub_requests_encode_returns.
  - by apply validate_write_file_payload_returns.
  - by apply validate_write_file_payload_encode_returns.
Qed.
Lemma write_file_walks_agree_witness : groups write_group [6; 0; 4; 0; 7; 0; 1; 0xAB; 0xCD].
Proof.
  refine (proj1 (proj1 (proj2 (proj2 (write_file_walks_agree [6; 0; 4; 0; 7; 0; 1; 0xAB; 0xCD] _)))) eq_refl).
  repeat constructor; lia.
Defined.

Section Registers.
Implicit Types (l : bytes) (i : Z).
Lemma chunks2_nth l i : 0 ≤ i < blen l / 2 →
  get (map (λ c, from_be_bytes (at_ c 0) (at_ c 1)) (chunks_exact 2 l)) i
  = match be16_at (E:=DecodeError.t) l (i * 2) (i * 2 + 1) with Ok v => Some v | _ => None end
  ∧ ∃ v, be16_at (E:=DecodeError.t) l (i * 2) (i * 2 + 1) = Ok v.
Proof.
  remember (length l) as m eqn:Hm. revert l i Hm. induction (lt_wf m) as [m _ IH].
  intros l i -> Hi. destruct l as [|a [|b l]];
    [autorewrite with blen in Hi; Z.to_euclidean_division_equations; lia..|].
  change (a :: b :: l) with ([a; b] ++ l). rewrite chunks_exact_app by done. cbn [map at_ nth].
  destruct (decide (i = 0)) as [->|Hne]; [split; [done|by eexists]|].
  assert (1 ≤ i) as Hi1 by lia.
  assert (∀ A (x : A) k, get (x :: k) i = get k (i - 1)) as Hg.
  { intros A x k. change (x :: k) with ([x] ++ k). by rewrite get_app_r by done. }
  assert (be16_at (E:=DecodeError.t) ([a; b] ++ l) (i * 2) (i * 2 + 1)
          = be16_at l ((i - 1) * 2) ((i - 1) * 2 + 1)) as ->.
  { unfold be16_at, idx. rewrite !get_app_r by (unfold blen; simpl; lia).
    replace (i * 2 - blen [a; b]) with ((i - 1) * 2) by (unfold blen; simpl; lia).
    by replace (i * 2 + 1 - blen [a; b]) with ((i - 1) * 2 + 1) by (unfold blen; simpl; lia). }
  rewrite Hg. apply (IH (length l)); [simpl; lia|done|].
  rewrite !blen_cons in Hi. Z.to_euclidean_division_equations; lia.
Qed.
End Registers.

(** The register accessors of a decoded read response agree: [count] is half
    the declared byte count, [registers] has [count] items, and [register i]
    returns item [i] of [registers] for every [i] below [count], never panicking. *)
Theorem read_registers_accessors data x :
  bytes_ok data → ReadHoldingRegistersResponse.decode data = Ok x →
  let n := ReadHoldingRegistersResponse.count x in
  2 * n = ReadHoldingRegistersResponse.byte_count x ∧
  blen (ReadHoldingRegistersResponse.registers x) = n ∧
  ∀ i, 0 ≤ i < n → ∃ v, ReadHoldingRegistersResponse.register x i = Ok v
    ∧ get (ReadHoldingRegistersResponse.registers x) i = Some v ∧ is_u16 v.
Proof.
  intros Hb Hd. apply decode_sound in Hd as (Hwf & Hdec & Hw); [|done].
  codec_open x. unfold ReadHoldingRegistersResponse.count, ReadHoldingRegistersResponse.registers,
    ReadHoldingRegistersResponse.register; simpl.
  assert (2 * (blen register_data / 2) = byte_count) as Hn by (Z.to_euclidean_division_equations; lia).
  split_and!; [done| |].
  - destruct (chunks_exact_split 2 register_data) as (gs & -> & Hlen);
      [done|Z.to_euclidean_division_equations; lia|].
    rewrite chunks_exact_concat_inv, (blen_concat 2) in * by done.
    unfold blen. rewrite length_map. fold (blen gs). Z.to_euclidean_division_equations; lia.
  - intros i Hi. destruct (chunks2_nth register_data i Hi) as [Hg [v Hv]].
    exists v. rewrite Hg, Hv. split_and!; [done|done|..].
    all: unfold be16_at, idx in Hv; repeat case_match; simplify_eq/=.
    all: apply from_be_bytes_u16; eapply get_byte_ok; done.
Qed.
Lemma read_registers_accessors_witness :
  ∃ v, ReadHoldingRegistersResponse.register
         (ReadHoldingRegistersResponse.mk 4 [0x02; 0x2B; 0x00; 0x64]) 1 = Ok v
    ∧ get (ReadHoldingRegistersResponse.registers
             (ReadHoldingRegistersResponse.mk 4 [0x02; 0x2B; 0x00; 0x64])) 1 = Some v ∧ is_u16 v.
Proof.
  refine (proj2 (proj2 (read_registers_accessors [4; 0x02; 0x2B; 0x00; 0x64] _ _ eq_refl)) 1 _).
  - repeat constructor; lia.
  - vm_compute. split; [discriminate|reflexivity].
Defined.
