(* ===== verification/MeiResponses.v ===== *)
(** * Encapsulated interface responses
    (crates/rusty-modbus-codec/src/response: device_id.rs, mei.rs)

    The device identification response with its object list, the iterator over
    it, and the FC 2B response that carries it. *)
From S2P Require Import Prelude Types CodecError.
Import DecodeError.

(** ** FC 2B / MEI 0E: device identification (device_id.rs) *)
Definition valid_conformity_level (level : Z) : bool :=
  match level with
  | 0x01 | 0x02 | 0x03 | 0x81 | 0x82 | 0x83 => true
  | _ => false
  end.

Module DeviceIdObjectEntry.
Record t : Type := mk { id : Z; value : bytes }.
End DeviceIdObjectEntry.

Module DeviceIdObjectIter.
Record t : Type := mk { data : bytes; remaining : Z }.

(** [Iterator::next]: the item and the iterator it leaves *)
Definition next (self : t) : res DecodeError.t (option DeviceIdObjectEntry.t * t) :=
  if (remaining self =? 0) || (blen (data self) <? 2) then Ok (None, self) else
  let? id := idx (data self) 0 in
  let? len := idx (data self) 1 in
  if blen (data self) <? 2 + len then Ok (None, mk [] 0) else
  let? value := slice (data self) 2 (2 + len) in
  let? rest := slice_from (data self) (2 + len) in
  let? fewer := usub (remaining self) 1 in
  Ok (Some (DeviceIdObjectEntry.mk id value), mk rest fewer).

(** The items a [for] loop over the iterator sees, at most [fuel] of them *)
Fixpoint collect (fuel : nat) (self : t) : res DecodeError.t (list DeviceIdObjectEntry.t) :=
  match fuel with
  | O => OutOfFuel
  | S fuel =>
      let? (item, self) := next self in
      match item with
      | None => Ok []
      | Some x => rmap (cons x) (collect fuel self)
      end
  end.
End DeviceIdObjectIter.

Module ReadDeviceIdentificationResponse.
Record t : Type := mk {
  device_id_code : DeviceIdCode.t;
  conformity_level : Z;
  more_follows : bool;
  next_object_id : Z;
  num_objects : Z;
  object_data : bytes;
}.

(** [for _ in 0..num_objects]: the offset behind the objects, [data_len] being
    the length of the whole field, for the error values. *)
Fixpoint scan_objects (object_data : bytes) (data_len : Z) (n : nat) (offset : Z)
    : res DecodeError.t Z :=
  match n with
  | O => Ok offset
  | S n =>
      if blen object_data <? offset + 2 then Err (Truncated (6 + offset + 2) data_len) else
      let? obj_len := idx object_data (offset + 1) in
      let offset := offset + (2 + obj_len) in
      if blen object_data <? offset then Err (Truncated (6 + offset) data_len) else
      scan_objects object_data data_len n offset
  end.

Definition decode (data : bytes) : res DecodeError.t t :=
  if blen data <? 6 then Err (Truncated 6 (blen data)) else
  let? b0 := idx data 0 in
  if negb (b0 =? MeiType.code MeiType.ReadDeviceIdentification) then Err (UnknownMeiType b0) else
  let? b1 := idx data 1 in
  let? device_id_code := ok_or (DeviceIdCode.from_raw b1) (InvalidDeviceIdCode b1) in
  let? conformity_level := idx data 2 in
  if negb (valid_conformity_level conformity_level)
  then Err (InvalidDeviceIdConformityLevel conformity_level) else
  let? b3 := idx data 3 in
  let? more_follows := (if b3 =? 0x00 then Ok false else if b3 =? 0xFF then Ok true
                        else Err (InvalidDeviceIdMoreFollows b3)) in
  let? next_object_id := idx data 4 in
  if negb more_follows && negb (next_object_id =? 0)
  then Err (InvalidDeviceIdNextObjectId next_object_id) else
  let? num_objects := idx data 5 in
  if bool_decide (device_id_code = DeviceIdCode.Individual) && negb (num_objects =? 1)
  then Err (InvalidDeviceIdObjectCount num_objects) else
  let? object_data := slice_from data 6 in
  let? offset := scan_objects object_data (blen data) (Z.to_nat num_objects) 0 in
  if negb (offset =? blen object_data) then Err (LengthMismatch (6 + offset) (blen data)) else
  Ok (mk device_id_code conformity_level more_follows next_object_id num_objects object_data).

Definition objects (self : t) : DeviceIdObjectIter.t :=
  DeviceIdObjectIter.mk (object_data self) (num_objects self).
End ReadDeviceIdentificationResponse.

(** ** FC 2B: encapsulated interface transport (mei.rs) *)
Module EncapsulatedInterfaceResponse.
Record t : Type := mk { mei_type : MeiType.t; data : bytes }.

Definition decode (data : bytes) : res DecodeError.t t :=
  if is_empty data then Err (Truncated 1 0) else
  let? b0 := idx data 0 in
  let? mei_type := ok_or (MeiType.from_raw b0) (UnknownMeiType b0) in
  do? (if bool_decide (mei_type = MeiType.ReadDeviceIdentification)
       then (do? ReadDeviceIdentificationResponse.decode data in Ok tt)
       else Ok tt) in
  let? payload := slice_from data 1 in
  Ok (mk mei_type payload).

Definition encoded_len (self : t) : Z := 1 + 1 + blen (data self).

Definition encode_into (self : t) : ST bytes EncodeError.t Z :=
  let len := encoded_len self in
  EncodeError.check_buffer len;;;
  st_lift (EncodeError.check_pdu_len len);;;
  buf_set 0 (FunctionCode.code FunctionCode.EncapsulatedInterfaceTransport);;;
  buf_set 1 (MeiType.code (mei_type self));;;
  buf_copy 2 (2 + blen (data self)) (data self);;;
  st_ret len.
End EncapsulatedInterfaceResponse.

(** *** The object list is its grammar *)
Definition device_object_wire (x : DeviceIdObjectEntry.t) : bytes :=
  DeviceIdObjectEntry.id x :: blen (DeviceIdObjectEntry.value x) :: DeviceIdObjectEntry.value x.
Definition device_objects_wire (xs : list DeviceIdObjectEntry.t) : bytes :=
  concat (device_object_wire <$> xs).
Definition device_object_wf (x : DeviceIdObjectEntry.t) : Prop :=
  is_u8 (DeviceIdObjectEntry.id x) ∧ bytes_ok (DeviceIdObjectEntry.value x)
  ∧ blen (DeviceIdObjectEntry.value x) ≤ 255.

Lemma scan_objects_wire pre xs dl : 
  ReadDeviceIdentificationResponse.scan_objects (pre ++ device_objects_wire xs) dl
    (length xs) (blen pre) = Ok (blen (pre ++ device_objects_wire xs)).
Proof.
  revert pre. induction xs as [|[id v] xs IH]; intros pre; simpl.
  - unfold device_objects_wire; simpl. by rewrite app_nil_r.
  - change (device_objects_wire (_ :: xs)) with ((id :: blen v :: v) ++ device_objects_wire xs).
    pose proof (blen_nonneg (device_objects_wire xs)). pose proof (blen_nonneg v).
    pose proof (blen_nonneg pre).
    rewrite !blen_app, !blen_cons. replace (_ <? _) with false by lia.
    unfold idx. rewrite get_app_r, get_app_l by (rewrite ?blen_cons; lia).
    replace (blen pre + 1 - blen pre) with 1 by lia. simpl.
    replace (_ <? _) with false by lia. specialize (IH (pre ++ id :: blen v :: v)).
    rewrite <-app_assoc in IH. simpl in IH. etrans; [|etrans; [exact IH|]].
    all: simpl; f_equal; autorewrite with blen; lia.
Qed.
Lemma scan_objects_inv n pre l dl off : bytes_ok l →
  ReadDeviceIdentificationResponse.scan_objects (pre ++ l) dl n (blen pre) = Ok off →
  ∃ xs rest, l = device_objects_wire xs ++ rest ∧ length xs = n ∧ Forall device_object_wf xs
    ∧ off = blen (pre ++ device_objects_wire xs).
Proof.
  revert pre l. induction n as [|n IH]; intros pre l Hl; simpl.
  - intros [= <-]. exists [], l. unfold device_objects_wire; simpl. by rewrite app_nil_r.
  - pose proof (blen_nonneg pre). case_match; [done|]. rewrite blen_app in *.
    destruct l as [|id [|k l]]; [dec_arith..|]. rewrite !bytes_ok_cons in Hl. destruct Hl as (? & ? & Hl).
    unfold idx. rewrite get_app_r by lia. replace (blen pre + 1 - blen pre) with 1 by lia.
    simpl. case_match; [done|]. autorewrite with blen in *.
    set (v := take (Z.to_nat k) l). assert (blen v = k) as Hv by (unfold v; rewrite blen_take; lia).
    intros Hs. destruct (IH (pre ++ id :: k :: v) (drop (Z.to_nat k) l)) as (xs & rest & Hd & Hn & Hwf & Ho).
    + by auto with modbus.
    + rewrite <-app_assoc. simpl. unfold v at 1. rewrite take_drop, blen_app, !blen_cons, Hv.
      rewrite <-Hs. f_equal. lia.
    + exists (DeviceIdObjectEntry.mk id v :: xs), rest.
      change (device_objects_wire (_ :: xs)) with ((id :: blen v :: v) ++ device_objects_wire xs).
      rewrite Hv, <-app_assoc, <-Hd. split_and!.
      * simpl. unfold v. by rewrite take_drop.
      * by f_equal/=.
      * constructor; [|done]. unfold device_object_wf, v; simpl. fold v. split_and!; [lia..|by apply bytes_ok_take|lia].
      * by rewrite Ho, <-app_assoc.
Qed.
Lemma scan_objects_returns n pre l dl : bytes_ok l →
  returns (ReadDeviceIdentificationResponse.scan_objects (pre ++ l) dl n (blen pre)).
Proof.
  revert pre l. induction n as [|n IH]; intros pre l Hl; simpl; [done|].
  pose proof (blen_nonneg pre). case_match; [done|]. rewrite blen_app in *.
  destruct l as [|id [|k l]]; [dec_arith..|]. rewrite !bytes_ok_cons in Hl. destruct Hl as (? & ? & Hl).
  unfold idx. rewrite get_app_r by lia. replace (blen pre + 1 - blen pre) with 1 by lia.
  simpl. case_match; [done|]. autorewrite with blen in *.
  set (v := take (Z.to_nat k) l). assert (blen v = k) as Hv by (unfold v; rewrite blen_take; lia).
  specialize (IH (pre ++ id :: k :: v) (drop (Z.to_nat k) l)).
  rewrite <-app_assoc in IH. simpl in IH. unfold v in IH at 1.
  rewrite take_drop, blen_app, !blen_cons, Hv in IH.
  replace (blen pre + (2 + k)) with (blen pre + (1 + (1 + k))) by lia. apply IH. by auto with modbus.
Qed.

(** *** The response *)
Definition ReadDeviceIdentificationResponse_wf (x : ReadDeviceIdentificationResponse.t) : Prop :=
  is_u8 (ReadDeviceIdentificationResponse.next_object_id x)
  ∧ is_u8 (ReadDeviceIdentificationResponse.num_objects x).
Definition ReadDeviceIdentificationResponse_holds (x : ReadDeviceIdentificationResponse.t)
    (xs : list DeviceIdObjectEntry.t) : Prop :=
  Forall device_object_wf xs
  ∧ ReadDeviceIdentificationResponse.object_data x = device_objects_wire xs
  ∧ ReadDeviceIdentificationResponse.num_objects x = blen xs.
Definition ReadDeviceIdentificationResponse_valid (x : ReadDeviceIdentificationResponse.t) : Prop :=
  ReadDeviceIdentificationResponse.conformity_level x ∈ [0x01; 0x02; 0x03; 0x81; 0x82; 0x83]
  ∧ (ReadDeviceIdentificationResponse.more_follows x = false →
     ReadDeviceIdentificationResponse.next_object_id x = 0)
  ∧ (ReadDeviceIdentificationResponse.device_id_code x = DeviceIdCode.Individual →
     ReadDeviceIdentificationResponse.num_objects x = 1)
  ∧ ∃ xs, ReadDeviceIdentificationResponse_holds x xs.
Definition ReadDeviceIdentificationResponse_wire (x : ReadDeviceIdentificationResponse.t) : bytes :=
  0x0E :: DeviceIdCode.code (ReadDeviceIdentificationResponse.device_id_code x)
  :: ReadDeviceIdentificationResponse.conformity_level x
  :: (if ReadDeviceIdentificationResponse.more_follows x then 0xFF else 0x00)
  :: ReadDeviceIdentificationResponse.next_object_id x
  :: ReadDeviceIdentificationResponse.num_objects x
  :: ReadDeviceIdentificationResponse.object_data x.

Lemma valid_conformity_level_spec l :
  valid_conformity_level l = true ↔ l ∈ [0x01; 0x02; 0x03; 0x81; 0x82; 0x83].
Proof.
  rewrite !elem_of_cons. split.
  - unfold valid_conformity_level. repeat case_match; intros; subst; try done; naive_solver.
  - intros H. assert (l = 1 ∨ l = 2 ∨ l = 3 ∨ l = 0x81 ∨ l = 0x82 ∨ l = 0x83) as Hl.
    { rewrite elem_of_nil in H. naive_solver. }
    destruct_or! Hl; by subst.
Qed.
Lemma device_objects_wire_ok xs : Forall device_object_wf xs → bytes_ok (device_objects_wire xs).
Proof.
  unfold device_objects_wire. induction 1 as [|x xs (Hi & Hv & Hl) _ IH]; [constructor|]. simpl.
  pose proof (blen_nonneg (DeviceIdObjectEntry.value x)).
  apply bytes_ok_cons; split; [done|]. apply bytes_ok_cons; split; [lia|]. by apply bytes_ok_app.
Qed.

Lemma ReadDeviceIdentificationResponse_decode_wire x :
  ReadDeviceIdentificationResponse_wf x → ReadDeviceIdentificationResponse_valid x →
  ReadDeviceIdentificationResponse.decode (ReadDeviceIdentificationResponse_wire x) = Ok x.
Proof.
  destruct x as [c l m nx n od]. intros [Hnx Hn] (Hl & Hm & Hi & xs & Hxs & Hod & Hnum). simpl in *.
  apply valid_conformity_level_spec in Hl.
  unfold ReadDeviceIdentificationResponse.decode, ReadDeviceIdentificationResponse_wire; simpl.
  dec_run. replace (DeviceIdCode.from_raw _) with (Some c) by by destruct c. cbn [ok_or].
  dec_run.
  assert ((if (if m then 255 else 0) =? 0 then Ok false
           else if (if m then 255 else 0) =? 255 then Ok true
           else Err (InvalidDeviceIdMoreFollows (if m then 255 else 0))) = Ok m :> res DecodeError.t bool)
    as -> by by destruct m.
  cbn [rbind].
  replace (negb m && negb (nx =? 0))%bool with false by (destruct m; [done|rewrite Hm; done]).
  dec_run. replace (_ && negb (n =? 1))%bool with false
    by (case_bool_decide as Hc; [rewrite Hi by done|]; done).
  dec_run. subst. replace (Z.to_nat (blen xs)) with (length xs) by (unfold blen; lia).
  rewrite (scan_objects_wire [] xs). simpl. by rewrite Z.eqb_refl.
Qed.
Lemma ReadDeviceIdentificationResponse_decode_inv data x : bytes_ok data →
  ReadDeviceIdentificationResponse.decode data = Ok x →
  ReadDeviceIdentificationResponse_wf x ∧ ReadDeviceIdentificationResponse_valid x
  ∧ data = ReadDeviceIdentificationResponse_wire x.
Proof.
  intros Hb. unfold ReadDeviceIdentificationResponse.decode. cells data 6%nat; try done.
  rewrite !bytes_ok_cons in Hb. destruct_and!. dec_cases; try done.
  all: rewrite rbind_Ok; intros (off & Hs & Hx).
  all: destruct (negb _) eqn:Hoff in Hx; [done|]; injection Hx as <-.
  all: apply (scan_objects_inv _ []) in Hs as (xs & rest & -> & Hn & Hwf & ->); [|done].
  all: simpl in Hoff; assert (rest = []) as -> by (apply blen_0_nil; rewrite blen_app in Hoff; lia).
  all: rewrite app_nil_r; enum_inv; unfold ReadDeviceIdentificationResponse_wf,
    ReadDeviceIdentificationResponse_valid, ReadDeviceIdentificationResponse_wire; simpl in *.
  all: split_and!; try lia; try done.
  all: try (apply valid_conformity_level_spec; by destruct (valid_conformity_level _)).
  all: try (exists xs; split_and!; simpl; [done..|unfold blen; lia]).
  all: try (intros ->; simpl in *; lia).
  all: repeat f_equal; simpl in *; try lia.
Qed.
Lemma ReadDeviceIdentificationResponse_decode_returns data : bytes_ok data →
  returns (ReadDeviceIdentificationResponse.decode data).
Proof.
  intros Hb. unfold ReadDeviceIdentificationResponse.decode. cells data 6%nat; try done.
  rewrite !bytes_ok_cons in Hb. destruct_and!. dec_cases; try done.
  all: apply rbind_returns; [by apply (scan_objects_returns _ [])|by intros; case_match].
Qed.

(** *** The iterator returns the objects of the list *)
Lemma DeviceIdObjectIter_next_wire x xs n : 0 < n →
  DeviceIdObjectIter.next (DeviceIdObjectIter.mk (device_object_wire x ++ xs) n)
  = Ok (Some x, DeviceIdObjectIter.mk xs (n - 1)).
Proof.
  destruct x as [id v]. intros Hn. unfold DeviceIdObjectIter.next, device_object_wire; simpl.
  pose proof (blen_nonneg v). pose proof (blen_nonneg xs).
  replace (_ || _)%bool with false by dec_arith. dec_reads. cbn [rbind].
  replace (_ <? _) with false by dec_arith. rewrite slice_Ok by dec_arith.
  rewrite slice_from_Ok by dec_arith. rewrite usub_Ok by lia. cbn [rbind].
  change (Z.to_nat 2) with 2%nat. rewrite !skipn_cons, drop_0.
  replace (2 + blen v - 2) with (blen v) by lia.
  replace (Z.to_nat (2 + blen v)) with (S (S (length v))) by (unfold blen; lia).
  rewrite !skipn_cons. unfold blen. by rewrite Nat2Z.id, take_app_length, drop_app_length.
Qed.
Lemma DeviceIdObjectIter_collect_wire xs : 
  DeviceIdObjectIter.collect (S (length xs)) (DeviceIdObjectIter.mk (device_objects_wire xs) (blen xs))
  = Ok xs.
Proof.
  induction xs as [|x xs IH]; [done|].
  change (device_objects_wire (x :: xs)) with (device_object_wire x ++ device_objects_wire xs).
  cbn [DeviceIdObjectIter.collect length] in *.
  rewrite DeviceIdObjectIter_next_wire by (rewrite blen_cons; pose proof (blen_nonneg xs); lia).
  cbn [rbind]. replace (blen (x :: xs) - 1) with (blen xs) by (rewrite blen_cons; lia). by rewrite IH.
Qed.

Lemma DeviceIdObjectIter_collect_more f g it xs : (f ≤ g)%nat →
  DeviceIdObjectIter.collect f it = Ok xs → DeviceIdObjectIter.collect g it = Ok xs.
Proof.
  revert g it xs. induction f as [|f IH]; intros [|g] it xs Hle; try done; [lia|]. simpl.
  rewrite !rbind_Ok. intros ([o it'] & Hn & Hc). exists (o, it'). split; [done|].
  destruct o; [|done]. unfold rmap in *. apply rbind_Ok in Hc as (ys & Hys & ?).
  rewrite (IH g it' ys); [done|lia|done].
Qed.

(** *** The FC 2B response *)
Definition mei_response_shape (mei_type : MeiType.t) (data : bytes) : Prop :=
  match mei_type with
  | MeiType.ReadDeviceIdentification =>
      ∃ r, ReadDeviceIdentificationResponse_wf r ∧ ReadDeviceIdentificationResponse_valid r
        ∧ 0x0E :: data = ReadDeviceIdentificationResponse_wire r
  | MeiType.CanOpenGeneralReference => True
  end.

#[export] Instance EncapsulatedInterfaceResponse_Encode : Encode EncapsulatedInterfaceResponse.t :=
  {| encode_into := EncapsulatedInterfaceResponse.encode_into; encoded_len := EncapsulatedInterfaceResponse.encoded_len |}.
Definition EncapsulatedInterfaceResponse_wf (x : EncapsulatedInterfaceResponse.t) : Prop :=
  bytes_ok (EncapsulatedInterfaceResponse.data x).
Definition EncapsulatedInterfaceResponse_wire (x : EncapsulatedInterfaceResponse.t) : bytes :=
  0x2B :: MeiType.code (EncapsulatedInterfaceResponse.mei_type x) :: (EncapsulatedInterfaceResponse.data x).
Definition EncapsulatedInterfaceResponse_encodable (x : EncapsulatedInterfaceResponse.t) : Prop :=
  blen (EncapsulatedInterfaceResponse.data x) ≤ 251.
Definition EncapsulatedInterfaceResponse_decodable (x : EncapsulatedInterfaceResponse.t) : Prop :=
  mei_response_shape (EncapsulatedInterfaceResponse.mei_type x) (EncapsulatedInterfaceResponse.data x).
#[export] Hint Unfold EncapsulatedInterfaceResponse.decode
  EncapsulatedInterfaceResponse.encode_into EncapsulatedInterfaceResponse.encoded_len
  EncapsulatedInterfaceResponse_wf EncapsulatedInterfaceResponse_wire
  EncapsulatedInterfaceResponse_encodable EncapsulatedInterfaceResponse_decodable : codec.
#[export] Instance EncapsulatedInterfaceResponse_spec : EncodeSpec EncapsulatedInterfaceResponse.t.
Proof.
  refine {| wf := EncapsulatedInterfaceResponse_wf; wire := EncapsulatedInterfaceResponse_wire; encodable := EncapsulatedInterfaceResponse_encodable |}.
  all: enc_spec.
Defined.
#[export] Instance EncapsulatedInterfaceResponse_codec : PduCodec EncapsulatedInterfaceResponse.t 0x2B EncapsulatedInterfaceResponse.decode.
Proof.
  refine {| decodable := EncapsulatedInterfaceResponse_decodable |}.
  - intros [[] d] Hwf Hd; eexists; (split; [reflexivity|]); simpl.
    + autounfold with codec. simpl. by dec_run.
    + destruct Hd as (r & Hr & Hv & Heq). simpl in Heq. autounfold with codec.
      rewrite is_empty_cons, Heq.
      assert (idx (E:=DecodeError.t) (ReadDeviceIdentificationResponse_wire r) 0 = Ok 0x0E) as -> by done.
      cbn [rbind ok_or MeiType.from_raw]. rewrite bool_decide_true by done.
      rewrite ReadDeviceIdentificationResponse_decode_wire by done. cbn [rbind].
      rewrite <-Heq. by dec_run.
  - intros data x Hb. autounfold with codec. cells data 1%nat; [done|]. rewrite is_empty_cons.
    pose proof Hb as Hb'. apply bytes_ok_cons in Hb' as [_ Hb']. dec_cases; try done.
    + rewrite rbind_Ok. intros ([] & (r & Hr & _)%rbind_Ok & Hx). injection Hx as <-. enum_inv.
      apply bool_decide_eq_true in Hc0 as ->.
      apply ReadDeviceIdentificationResponse_decode_inv in Hr as (? & ? & Hw); [|done].
      assert (b = 14) as -> by (by injection Hw). split_and!; [done|by exists r|done].
    + intros [= <-]. apply bool_decide_eq_false in Hc0. enum_inv. subst. by destruct t0.
  - intros data Hb. autounfold with codec. cells data 1%nat; [done|]. rewrite is_empty_cons.
    dec_cases; try done. apply rbind_returns; [|done]. apply rbind_returns; [|done].
    by apply ReadDeviceIdentificationResponse_decode_returns.
Defined.

(** * Theorems *)

(** The object list of a decoded device identification response: iterating
    over it ends and returns exactly [num_objects] objects, and their encodings
    one after the other are the whole of the object data, with no byte left over. *)
Theorem device_objects_complete data x :
  bytes_ok data → ReadDeviceIdentificationResponse.decode data = Ok x →
  ∃ xs,
    DeviceIdObjectIter.collect 256 (ReadDeviceIdentificationResponse.objects x) = Ok xs ∧
    blen xs = ReadDeviceIdentificationResponse.num_objects x ∧
    device_objects_wire xs = ReadDeviceIdentificationResponse.object_data x ∧
    Forall device_object_wf xs.
Proof.
  intros Hb Hd.
  apply ReadDeviceIdentificationResponse_decode_inv in Hd as ([_ Hn] & (_ & _ & _ & xs & Hwf & Hod & Hnum) & _); [|done].
  exists xs. unfold ReadDeviceIdentificationResponse.objects. rewrite Hod, Hnum. split_and!; try done.
  apply (DeviceIdObjectIter_collect_more (S (length xs))); [|apply DeviceIdObjectIter_collect_wire].
  unfold blen in Hnum. lia.
Qed.
Lemma device_objects_complete_witness :
  ∃ xs, DeviceIdObjectIter.collect 256
          (DeviceIdObjectIter.mk [0; 2; 0x41; 0x42; 1; 1; 0x43] 2) = Ok xs
    ∧ blen xs = 2 ∧ device_objects_wire xs = [0; 2; 0x41; 0x42; 1; 1; 0x43]
    ∧ Forall device_object_wf xs.
Proof.
  refine (device_objects_complete
    [0x0E; 1; 1; 0; 0; 2; 0; 2; 0x41; 0x42; 1; 1; 0x43] _ _ eq_refl).
  repeat constructor; lia.
Defined.
