(* ===== verification/Pdu.v ===== *)
(** * PDU dispatch (crates/rusty-modbus-codec: src/pdu.rs, src/decode.rs)

    The typed request and response PDUs and the two dispatchers that produce
    them from bytes. The theorems: both dispatchers accept exactly the images of
    well-formed PDUs and always return; encoding and decoding are inverse. *)
From S2P Require Import Prelude Types CodecError FileRecords Requests Responses MeiResponses.
Import DecodeError.

Module PduRef.
Record t : Type := mk { function_code : Z; data : bytes }.
End PduRef.

Module RequestPdu.
Inductive t : Type :=
  | ReadCoils (x : ReadCoilsRequest.t)
  | ReadDiscreteInputs (x : ReadDiscreteInputsRequest.t)
  | ReadHoldingRegisters (x : ReadHoldingRegistersRequest.t)
  | ReadInputRegisters (x : ReadInputRegistersRequest.t)
  | WriteSingleCoil (x : WriteSingleCoilRequest.t)
  | WriteSingleRegister (x : WriteSingleRegisterRequest.t)
  | ReadExceptionStatus
  | Diagnostics (x : DiagnosticsRequest.t)
  | GetCommEventCounter
  | GetCommEventLog
  | WriteMultipleCoils (x : WriteMultipleCoilsRequest.t)
  | WriteMultipleRegisters (x : WriteMultipleRegistersRequest.t)
  | ReportServerId
  | ReadFileRecord (x : ReadFileRecordRequest.t)
  | WriteFileRecord (x : WriteFileRecordRequest.t)
  | MaskWriteRegister (x : MaskWriteRegisterRequest.t)
  | ReadWriteMultipleRegisters (x : ReadWriteMultipleRegistersRequest.t)
  | ReadFifoQueue (x : ReadFifoQueueRequest.t)
  | EncapsulatedInterface (x : EncapsulatedInterfaceRequest.t)
  | Custom (fc : Z) (data : bytes).
End RequestPdu.

Module ResponsePdu.
Inductive t : Type :=
  | ReadCoils (x : ReadCoilsResponse.t)
  | ReadDiscreteInputs (x : ReadDiscreteInputsResponse.t)
  | ReadHoldingRegisters (x : ReadHoldingRegistersResponse.t)
  | ReadInputRegisters (x : ReadInputRegistersResponse.t)
  | WriteSingleCoil (x : WriteSingleCoilResponse.t)
  | WriteSingleRegister (x : WriteSingleRegisterResponse.t)
  | ReadExceptionStatus (x : ReadExceptionStatusResponse.t)
  | Diagnostics (x : DiagnosticsResponse.t)
  | GetCommEventCounter (x : GetCommEventCounterResponse.t)
  | GetCommEventLog (x : GetCommEventLogResponse.t)
  | WriteMultipleCoils (x : WriteMultipleCoilsResponse.t)
  | WriteMultipleRegisters (x : WriteMultipleRegistersResponse.t)
  | ReportServerId (x : ReportServerIdResponse.t)
  | ReadFileRecord (x : ReadFileRecordResponse.t)
  | WriteFileRecord (x : WriteFileRecordResponse.t)
  | MaskWriteRegister (x : MaskWriteRegisterResponse.t)
  | ReadWriteMultipleRegisters (x : ReadWriteMultipleRegistersResponse.t)
  | ReadFifoQueue (x : ReadFifoQueueResponse.t)
  | EncapsulatedInterface (x : EncapsulatedInterfaceResponse.t)
  | Custom (fc : Z) (data : bytes)
  | Exception (x : ExceptionResponse.t).
End ResponsePdu.

Definition decode_pdu_ref (pdu : bytes) : res DecodeError.t PduRef.t :=
  if MAX_PDU_SIZE <? blen pdu then Err (PduTooLarge (blen pdu) MAX_PDU_SIZE) else
  if is_empty pdu then Err (Truncated 1 0) else
  let? function_code := idx pdu 0 in
  let? data := slice_from pdu 1 in
  Ok (PduRef.mk function_code data).

Definition decode_request (pdu : bytes) : res DecodeError.t RequestPdu.t :=
  let? pdu_ref := decode_pdu_ref pdu in
  let fc := PduRef.function_code pdu_ref in
  let data := PduRef.data pdu_ref in
  let? fc_enum := ok_or (FunctionCode.from_raw fc) (UnknownFunctionCode fc) in
  match fc_enum with
  | FunctionCode.ReadCoils => rmap RequestPdu.ReadCoils (ReadCoilsRequest.decode data)
  | FunctionCode.ReadDiscreteInputs =>
      rmap RequestPdu.ReadDiscreteInputs (ReadDiscreteInputsRequest.decode data)
  | FunctionCode.ReadHoldingRegisters =>
      rmap RequestPdu.ReadHoldingRegisters (ReadHoldingRegistersRequest.decode data)
  | FunctionCode.ReadInputRegisters =>
      rmap RequestPdu.ReadInputRegisters (ReadInputRegistersRequest.decode data)
  | FunctionCode.WriteSingleCoil =>
      rmap RequestPdu.WriteSingleCoil (WriteSingleCoilRequest.decode data)
  | FunctionCode.WriteSingleRegister =>
      rmap RequestPdu.WriteSingleRegister (WriteSingleRegisterRequest.decode data)
  | FunctionCode.ReadExceptionStatus => do? check_exact_len data 0 in Ok RequestPdu.ReadExceptionStatus
  | FunctionCode.Diagnostics => rmap RequestPdu.Diagnostics (DiagnosticsRequest.decode data)
  | FunctionCode.GetCommEventCounter => do? check_exact_len data 0 in Ok RequestPdu.GetCommEventCounter
  | FunctionCode.GetCommEventLog => do? check_exact_len data 0 in Ok RequestPdu.GetCommEventLog
  | FunctionCode.WriteMultipleCoils =>
      rmap RequestPdu.WriteMultipleCoils (WriteMultipleCoilsRequest.decode data)
  | FunctionCode.WriteMultipleRegisters =>
      rmap RequestPdu.WriteMultipleRegisters (WriteMultipleRegistersRequest.decode data)
  | FunctionCode.ReportServerId => do? check_exact_len data 0 in Ok RequestPdu.ReportServerId
  | FunctionCode.ReadFileRecord =>
      rmap RequestPdu.ReadFileRecord (ReadFileRecordRequest.decode data)
  | FunctionCode.WriteFileRecord =>
      rmap RequestPdu.WriteFileRecord (WriteFileRecordRequest.decode data)
  | FunctionCode.MaskWriteRegister =>
      rmap RequestPdu.MaskWriteRegister (MaskWriteRegisterRequest.decode data)
  | FunctionCode.ReadWriteMultipleRegisters =>
      rmap RequestPdu.ReadWriteMultipleRegisters (ReadWriteMultipleRegistersRequest.decode data)
  | FunctionCode.ReadFifoQueue => rmap RequestPdu.ReadFifoQueue (ReadFifoQueueRequest.decode data)
  | FunctionCode.EncapsulatedInterfaceTransport =>
      rmap RequestPdu.EncapsulatedInterface (EncapsulatedInterfaceRequest.decode data)
  | FunctionCode.Custom fc => Ok (RequestPdu.Custom fc data)
  end.

Definition decode_response (pdu : bytes) : res DecodeError.t ResponsePdu.t :=
  let? pdu_ref := decode_pdu_ref pdu in
  let fc := PduRef.function_code pdu_ref in
  let data := PduRef.data pdu_ref in
  if FunctionCode.is_exception_response fc
  then rmap ResponsePdu.Exception (ExceptionResponse.decode fc data) else
  let? fc_enum := ok_or (FunctionCode.from_raw fc) (UnknownFunctionCode fc) in
  match fc_enum with
  | FunctionCode.ReadCoils => rmap ResponsePdu.ReadCoils (ReadCoilsResponse.decode data)
  | FunctionCode.ReadDiscreteInputs =>
      rmap ResponsePdu.ReadDiscreteInputs (ReadDiscreteInputsResponse.decode data)
  | FunctionCode.ReadHoldingRegisters =>
      rmap ResponsePdu.ReadHoldingRegisters (ReadHoldingRegistersResponse.decode data)
  | FunctionCode.ReadInputRegisters =>
      rmap ResponsePdu.ReadInputRegisters (ReadInputRegistersResponse.decode data)
  | FunctionCode.WriteSingleCoil =>
      rmap ResponsePdu.WriteSingleCoil (WriteSingleCoilResponse.decode data)
  | FunctionCode.WriteSingleRegister =>
      rmap ResponsePdu.WriteSingleRegister (WriteSingleRegisterResponse.decode data)
  | FunctionCode.ReadExceptionStatus =>
      rmap ResponsePdu.ReadExceptionStatus (ReadExceptionStatusResponse.decode data)
  | FunctionCode.Diagnostics => rmap ResponsePdu.Diagnostics (DiagnosticsResponse.decode data)
  | FunctionCode.GetCommEventCounter =>
      rmap ResponsePdu.GetCommEventCounter (GetCommEventCounterResponse.decode data)
  | FunctionCode.GetCommEventLog =>
      rmap ResponsePdu.GetCommEventLog (GetCommEventLogResponse.decode data)
  | FunctionCode.WriteMultipleCoils =>
      rmap ResponsePdu.WriteMultipleCoils (WriteMultipleCoilsResponse.decode data)
  | FunctionCode.WriteMultipleRegisters =>
      rmap ResponsePdu.WriteMultipleRegisters (WriteMultipleRegistersResponse.decode data)
  | FunctionCode.ReportServerId =>
      rmap ResponsePdu.ReportServerId (ReportServerIdResponse.decode data)
  | FunctionCode.ReadFileRecord =>
      rmap ResponsePdu.ReadFileRecord (ReadFileRecordResponse.decode data)
  | FunctionCode.WriteFileRecord =>
      rmap ResponsePdu.WriteFileRecord (WriteFileRecordResponse.decode data)
  | FunctionCode.MaskWriteRegister =>
      rmap ResponsePdu.MaskWriteRegister (MaskWriteRegisterResponse.decode data)
  | FunctionCode.ReadWriteMultipleRegisters =>
      rmap ResponsePdu.ReadWriteMultipleRegisters (ReadWriteMultipleRegistersResponse.decode data)
  | FunctionCode.ReadFifoQueue =>
      rmap ResponsePdu.ReadFifoQueue (ReadFifoQueueResponse.decode data)
  | FunctionCode.EncapsulatedInterfaceTransport =>
      rmap ResponsePdu.EncapsulatedInterface (EncapsulatedInterfaceResponse.decode data)
  | FunctionCode.Custom fc => Ok (ResponsePdu.Custom fc data)
  end.

(** ** The image of a PDU and the values that have one

    [request_ok] collects the type ranges and the protocol conditions of the
    variant; [request_wire] is its PDU. *)
Definition custom_ok (fc : Z) (data : bytes) : Prop :=
  1 ≤ fc < 128 ∧ FunctionCode.from_byte fc = FunctionCode.Custom fc ∧ bytes_ok data.

Definition request_ok (r : RequestPdu.t) : Prop :=
  match r with
  | RequestPdu.ReadCoils x => wf x ∧ decodable x
  | RequestPdu.ReadDiscreteInputs x => wf x ∧ decodable x
  | RequestPdu.ReadHoldingRegisters x => wf x ∧ decodable x
  | RequestPdu.ReadInputRegisters x => wf x ∧ decodable x
  | RequestPdu.WriteSingleCoil x => wf x ∧ decodable x
  | RequestPdu.WriteSingleRegister x => wf x ∧ decodable x
  | RequestPdu.ReadExceptionStatus => True
  | RequestPdu.Diagnostics x => wf x ∧ decodable x
  | RequestPdu.GetCommEventCounter => True
  | RequestPdu.GetCommEventLog => True
  | RequestPdu.WriteMultipleCoils x => wf x ∧ decodable x
  | RequestPdu.WriteMultipleRegisters x => wf x ∧ decodable x
  | RequestPdu.ReportServerId => True
  | RequestPdu.ReadFileRecord x => wf x ∧ decodable x
  | RequestPdu.WriteFileRecord x => wf x ∧ decodable x
  | RequestPdu.MaskWriteRegister x => wf x ∧ decodable x
  | RequestPdu.ReadWriteMultipleRegisters x => wf x ∧ decodable x
  | RequestPdu.ReadFifoQueue x => wf x ∧ decodable x
  | RequestPdu.EncapsulatedInterface x => wf x ∧ decodable x
  | RequestPdu.Custom fc data => custom_ok fc data
  end.
Definition request_wire (r : RequestPdu.t) : bytes :=
  match r with
  | RequestPdu.ReadCoils x => wire x
  | RequestPdu.ReadDiscreteInputs x => wire x
  | RequestPdu.ReadHoldingRegisters x => wire x
  | RequestPdu.ReadInputRegisters x => wire x
  | RequestPdu.WriteSingleCoil x => wire x
  | RequestPdu.WriteSingleRegister x => wire x
  | RequestPdu.ReadExceptionStatus => [0x07]
  | RequestPdu.Diagnostics x => wire x
  | RequestPdu.GetCommEventCounter => [0x0B]
  | RequestPdu.GetCommEventLog => [0x0C]
  | RequestPdu.WriteMultipleCoils x => wire x
  | RequestPdu.WriteMultipleRegisters x => wire x
  | RequestPdu.ReportServerId => [0x11]
  | RequestPdu.ReadFileRecord x => wire x
  | RequestPdu.WriteFileRecord x => wire x
  | RequestPdu.MaskWriteRegister x => wire x
  | RequestPdu.ReadWriteMultipleRegisters x => wire x
  | RequestPdu.ReadFifoQueue x => wire x
  | RequestPdu.EncapsulatedInterface x => wire x
  | RequestPdu.Custom fc data => fc :: data
  end.
(** The encoder of a request, for the variants the crate has one for. *)
Definition request_encoder (r : RequestPdu.t) : option (ST bytes EncodeError.t Z) :=
  match r with
  | RequestPdu.ReadCoils x => Some (encode_into x)
  | RequestPdu.ReadDiscreteInputs x => Some (encode_into x)
  | RequestPdu.ReadHoldingRegisters x => Some (encode_into x)
  | RequestPdu.ReadInputRegisters x => Some (encode_into x)
  | RequestPdu.WriteSingleCoil x => Some (encode_into x)
  | RequestPdu.WriteSingleRegister x => Some (encode_into x)
  | RequestPdu.Diagnostics x => Some (encode_into x)
  | RequestPdu.WriteMultipleCoils x => Some (encode_into x)
  | RequestPdu.WriteMultipleRegisters x => Some (encode_into x)
  | RequestPdu.ReadFileRecord x => Some (encode_into x)
  | RequestPdu.WriteFileRecord x => Some (encode_into x)
  | RequestPdu.MaskWriteRegister x => Some (encode_into x)
  | RequestPdu.ReadWriteMultipleRegisters x => Some (encode_into x)
  | RequestPdu.ReadFifoQueue x => Some (encode_into x)
  | RequestPdu.EncapsulatedInterface x => Some (encode_into x)
  | _ => None
  end.

Definition response_ok (r : ResponsePdu.t) : Prop :=
  match r with
  | ResponsePdu.ReadCoils x => wf x ∧ decodable x
  | ResponsePdu.ReadDiscreteInputs x => wf x ∧ decodable x
  | ResponsePdu.ReadHoldingRegisters x => wf x ∧ decodable x
  | ResponsePdu.ReadInputRegisters x => wf x ∧ decodable x
  | ResponsePdu.WriteSingleCoil x => wf x ∧ decodable x
  | ResponsePdu.WriteSingleRegister x => wf x ∧ decodable x
  | ResponsePdu.ReadExceptionStatus x => wf x ∧ decodable x
  | ResponsePdu.Diagnostics x => wf x ∧ decodable x
  | ResponsePdu.GetCommEventCounter x => wf x ∧ decodable x
  | ResponsePdu.GetCommEventLog x => wf x ∧ decodable x
  | ResponsePdu.WriteMultipleCoils x => wf x ∧ decodable x
  | ResponsePdu.WriteMultipleRegisters x => wf x ∧ decodable x
  | ResponsePdu.ReportServerId x => wf x ∧ decodable x
  | ResponsePdu.ReadFileRecord x => wf x ∧ decodable x
  | ResponsePdu.WriteFileRecord x => wf x ∧ decodable x
  | ResponsePdu.MaskWriteRegister x => wf x ∧ decodable x
  | ResponsePdu.ReadWriteMultipleRegisters x => wf x ∧ decodable x
  | ResponsePdu.ReadFifoQueue x => wf x ∧ decodable x
  | ResponsePdu.EncapsulatedInterface x => wf x ∧ decodable x
  | ResponsePdu.Custom fc data => custom_ok fc data
  | ResponsePdu.Exception x => wf x ∧ ExceptionResponse_decodable x
  end.
Definition response_wire (r : ResponsePdu.t) : bytes :=
  match r with
  | ResponsePdu.ReadCoils x => wire x
  | ResponsePdu.ReadDiscreteInputs x => wire x
  | ResponsePdu.ReadHoldingRegisters x => wire x
  | ResponsePdu.ReadInputRegisters x => wire x
  | ResponsePdu.WriteSingleCoil x => wire x
  | ResponsePdu.WriteSingleRegister x => wire x
  | ResponsePdu.ReadExceptionStatus x => wire x
  | ResponsePdu.Diagnostics x => wire x
  | ResponsePdu.GetCommEventCounter x => wire x
  | ResponsePdu.GetCommEventLog x => wire x
  | ResponsePdu.WriteMultipleCoils x => wire x
  | ResponsePdu.WriteMultipleRegisters x => wire x
  | ResponsePdu.ReportServerId x => wire x
  | ResponsePdu.ReadFileRecord x => wire x
  | ResponsePdu.WriteFileRecord x => wire x
  | ResponsePdu.MaskWriteRegister x => wire x
  | ResponsePdu.ReadWriteMultipleRegisters x => wire x
  | ResponsePdu.ReadFifoQueue x => wire x
  | ResponsePdu.EncapsulatedInterface x => wire x
  | ResponsePdu.Custom fc data => fc :: data
  | ResponsePdu.Exception x => wire x
  end.
Definition response_encoder (r : ResponsePdu.t) : option (ST bytes EncodeError.t Z) :=
  match r with
  | ResponsePdu.ReadCoils x => Some (encode_into x)
  | ResponsePdu.ReadDiscreteInputs x => Some (encode_into x)
  | ResponsePdu.ReadHoldingRegisters x => Some (encode_into x)
  | ResponsePdu.ReadInputRegisters x => Some (encode_into x)
  | ResponsePdu.WriteSingleCoil x => Some (encode_into x)
  | ResponsePdu.WriteSingleRegister x => Some (encode_into x)
  | ResponsePdu.ReadExceptionStatus x => Some (encode_into x)
  | ResponsePdu.Diagnostics x => Some (encode_into x)
  | ResponsePdu.GetCommEventCounter x => Some (encode_into x)
  | ResponsePdu.GetCommEventLog x => Some (encode_into x)
  | ResponsePdu.WriteMultipleCoils x => Some (encode_into x)
  | ResponsePdu.WriteMultipleRegisters x => Some (encode_into x)
  | ResponsePdu.ReportServerId x => Some (encode_into x)
  | ResponsePdu.ReadFileRecord x => Some (encode_into x)
  | ResponsePdu.WriteFileRecord x => Some (encode_into x)
  | ResponsePdu.MaskWriteRegister x => Some (encode_into x)
  | ResponsePdu.ReadWriteMultipleRegisters x => Some (encode_into x)
  | ResponsePdu.ReadFifoQueue x => Some (encode_into x)
  | ResponsePdu.EncapsulatedInterface x => Some (encode_into x)
  | ResponsePdu.Custom fc data => None
  | ResponsePdu.Exception x => Some (encode_into x)
  end.

(** ** Dispatch lemmas *)
Lemma decode_pdu_ref_Ok pdu p : decode_pdu_ref pdu = Ok p ↔
  pdu = PduRef.function_code p :: PduRef.data p ∧ blen pdu ≤ 253.
Proof.
  unfold decode_pdu_ref, MAX_PDU_SIZE. destruct p as [fc data]; simpl. split.
  - cells pdu 1%nat; [done|]. rewrite is_empty_cons. dec_cases; try done. intros [= -> ->].
    split; [done|]. dec_arith.
  - intros [-> Hl]. rewrite is_empty_cons. by dec_run.
Qed.
Lemma decode_pdu_ref_returns pdu : returns (decode_pdu_ref pdu).
Proof.
  unfold decode_pdu_ref. cells pdu 1%nat; [done|]. rewrite is_empty_cons. by dec_cases.
Qed.

(** A dispatcher arm accepts what its decoder accepts. *)
Section Arm.
Context {T R : Type} {fc : Z} {decode : bytes → res DecodeError.t T}.
Context `{!Encode T, !EncodeSpec T, !PduCodec T fc decode} (mk : T → R).

Lemma arm_sound data r : bytes_ok data → rmap mk (decode data) = Ok r →
  ∃ x, r = mk x ∧ wf x ∧ decodable x ∧ wire x = fc :: data.
Proof.
  intros Hb. unfold rmap. rewrite rbind_Ok. intros (x & Hx & [= <-]).
  exists x. split; [done|]. by apply decode_sound.
Qed.
Lemma arm_complete x : wf x → decodable x →
  ∃ data, wire x = fc :: data ∧ rmap mk (decode data) = Ok (mk x).
Proof.
  intros Hwf Hd. destruct (decode_complete x Hwf Hd) as (data & ? & Hdec).
  exists data. by rewrite Hdec.
Qed.
Lemma arm_returns data : bytes_ok data → returns (rmap mk (decode data)).
Proof. intros. apply rbind_returns; [by apply decode_returns|done]. Qed.
End Arm.

Lemma decode_request_sound pdu r : bytes_ok pdu → decode_request pdu = Ok r →
  request_ok r ∧ pdu = request_wire r ∧ blen pdu ≤ 253.
Proof.
  intros Hb. unfold decode_request. rewrite rbind_Ok. intros ([fc data] & Hp & Hr).
  apply decode_pdu_ref_Ok in Hp as [-> Hl]. simpl in *.
  apply bytes_ok_cons in Hb as [Hfc Hb]. apply rbind_Ok in Hr as (f & Hf & Hr).
  apply ok_or_Ok, FunctionCode_from_raw_Some in Hf as (Hr1 & Hc & ->); [|done].
  destruct f; simpl in *;
    first [ eapply arm_sound in Hr as (x & -> & ? & ? & Hw); [by cbn [request_ok request_wire response_ok response_wire]; rewrite Hw|done]
          | apply rbind_Ok in Hr as ([] & Hn & [= <-]);
            apply check_exact_len_Ok, blen_0_nil in Hn as ->; done
          | injection Hr as <-; repeat split; by try lia ].
Qed.
Lemma decode_request_complete r :
  request_ok r → blen (request_wire r) ≤ 253 → decode_request (request_wire r) = Ok r.
Proof.
  intros Hr Hl.
  assert (∀ fc data, request_wire r = fc :: data →
    decode_request (request_wire r) = decode_request (fc :: data) ∧
    decode_pdu_ref (fc :: data) = Ok (PduRef.mk fc data)) as Hp.
  { intros fc data Heq. rewrite Heq in *. split; [done|]. by apply decode_pdu_ref_Ok. }
  destruct r; cbn [request_ok request_wire response_ok response_wire] in *;
    first [ destruct Hr as [Hwf Hd];
            match goal with |- _ = Ok (?C ?x) =>
              destruct (arm_complete C x Hwf Hd) as (data & Hw & Hdec) end;
            destruct (Hp _ _ Hw) as [-> Hp1]; unfold decode_request; rewrite Hp1; exact Hdec
          | done | idtac ].
  destruct Hr as (Hr & Hc & _). destruct (Hp _ _ eq_refl) as [_ Hp1].
  unfold decode_request. rewrite Hp1. cbn [rbind PduRef.function_code PduRef.data].
  assert (FunctionCode.from_raw fc = Some (FunctionCode.Custom fc)) as ->; [|done].
  by apply FunctionCode_from_raw_Some; [lia|].
Qed.

Lemma decode_response_sound pdu r : bytes_ok pdu → decode_response pdu = Ok r →
  response_ok r ∧ pdu = response_wire r ∧ blen pdu ≤ 253.
Proof.
  intros Hb. unfold decode_response. rewrite rbind_Ok. intros ([fc data] & Hp & Hr).
  apply decode_pdu_ref_Ok in Hp as [-> Hl]. simpl in *.
  apply bytes_ok_cons in Hb as [Hfc Hb].
  unfold FunctionCode.is_exception_response in Hr. rewrite exception_flag_clear in Hr by done.
  destruct (negb (fc <? 128)) eqn:Hx.
  { apply rbind_Ok in Hr as (x & Hd & [= <-]).
    apply ExceptionResponse_decode_inv in Hd as (? & ? & Hw); [|lia|done]. simpl. by rewrite Hw. }
  apply rbind_Ok in Hr as (f & Hf & Hr).
  apply ok_or_Ok, FunctionCode_from_raw_Some in Hf as (Hr1 & Hc & ->); [|done].
  destruct f; simpl in *;
    first [ eapply arm_sound in Hr as (x & -> & ? & ? & Hw); [by cbn [request_ok request_wire response_ok response_wire]; rewrite Hw|done]
          | injection Hr as <-; repeat split; by try lia ].
Qed.
Lemma decode_response_complete r :
  response_ok r → blen (response_wire r) ≤ 253 → decode_response (response_wire r) = Ok r.
Proof.
  intros Hr Hl.
  assert (∀ fc data, response_wire r = fc :: data →
    decode_response (response_wire r) = decode_response (fc :: data) ∧
    decode_pdu_ref (fc :: data) = Ok (PduRef.mk fc data)) as Hp.
  { intros fc data Heq. rewrite Heq in *. split; [done|]. by apply decode_pdu_ref_Ok. }
  destruct r; cbn [request_ok request_wire response_ok response_wire] in *;
    first [ destruct Hr as [Hwf Hd];
            match goal with |- _ = Ok (?C ?x) =>
              destruct (arm_complete C x Hwf Hd) as (data & Hw & Hdec) end;
            destruct (Hp _ _ Hw) as [-> Hp1]; unfold decode_response; rewrite Hp1; exact Hdec
          | idtac ].
  - destruct Hr as (Hr & Hc & _). destruct (Hp _ _ eq_refl) as [_ Hp1].
    unfold decode_response. rewrite Hp1. cbn [rbind PduRef.function_code PduRef.data].
    unfold FunctionCode.is_exception_response. rewrite exception_flag_clear by lia.
    replace (fc <? 128) with true by lia. simpl.
    assert (FunctionCode.from_raw fc = Some (FunctionCode.Custom fc)) as ->; [|done].
    by apply FunctionCode_from_raw_Some; [lia|].
  - destruct Hr as [Hwf Hd]. pose proof Hd as (_ & _ & Hfc).
    destruct (ExceptionResponse_decode_wire x Hwf Hd) as [Hw Hdec].
    destruct (Hp _ _ Hw) as [-> Hp1]. unfold decode_response. rewrite Hp1. simpl.
    unfold FunctionCode.is_exception_response. rewrite exception_flag_clear by lia.
    replace (_ <? 128) with false by lia. simpl. by rewrite Hdec.
Qed.

(** ** Encoders of decoded values *)
Section Reencode.
Context {T : Type} `{!Encode T, !EncodeSpec T}.
Lemma encode_wire (x : T) buf : wf x → encodable x → blen (wire x) ≤ blen buf →
  encode_into x buf = (Ok (blen (wire x)), overlay (wire x) buf).
Proof. intros Hwf Hen Hl. rewrite wire_length in * by done. by apply encode_into_ok. Qed.
End Reencode.

(** A request that was decoded is encodable: the encoders refuse nothing the
    decoders accept. *)
Lemma request_reencode_wire r enc buf : request_ok r → blen (request_wire r) ≤ 253 →
  request_encoder r = Some enc → blen (request_wire r) ≤ blen buf →
  enc buf = (Ok (blen (request_wire r)), overlay (request_wire r) buf).
Proof.
  intros Hr Hl He Hbuf. destruct r; cbn [request_encoder] in He; try done.
  all: apply (inj Some) in He as <-; cbn [request_ok request_wire] in *; destruct Hr as [Hwf Hd].
  all: apply encode_wire; [exact Hwf| |exact Hbuf].
  all: clear Hbuf; first [exact Hd | codec_open x; dec_arith].
Qed.

(** The two responses that echo a quantity are decoded with any quantity but
    only encoded with one in range. *)
Definition echo_in_range (r : ResponsePdu.t) : Prop :=
  match r with
  | ResponsePdu.WriteMultipleCoils x => 1 ≤ WriteMultipleCoilsResponse.quantity x ≤ 1968
  | ResponsePdu.WriteMultipleRegisters x => 1 ≤ WriteMultipleRegistersResponse.quantity x ≤ 123
  | _ => True
  end.
Lemma response_reencode_wire r enc buf : response_ok r → blen (response_wire r) ≤ 253 →
  echo_in_range r → response_encoder r = Some enc → blen (response_wire r) ≤ blen buf →
  enc buf = (Ok (blen (response_wire r)), overlay (response_wire r) buf).
Proof.
  intros Hr Hl Hq He Hbuf. destruct r; cbn [response_encoder] in He; try done.
  all: apply (inj Some) in He as <-; cbn [response_ok response_wire echo_in_range] in *; destruct Hr as [Hwf Hd].
  all: apply encode_wire; [exact Hwf| |exact Hbuf].
  all: clear Hbuf; first [exact Hd | exact Hq | codec_open x; dec_arith | done].
Qed.

(** Inversion of a successful encoding of a typed PDU. *)
Lemma request_encoder_inv r enc buf n buf' : request_ok r → request_encoder r = Some enc →
  enc buf = (Ok n, buf') →
  take (Z.to_nat n) buf' = request_wire r ∧ n = blen (request_wire r) ∧ n ≤ 253.
Proof.
  intros Hr He Hok. destruct r; cbn [request_encoder] in He; try done.
  all: apply (inj Some) in He as <-; cbn [request_ok request_wire] in *; destruct Hr as [Hwf _].
  all: apply encode_into_inv in Hok as (Hen & -> & _ & ->); [|exact Hwf].
  all: split_and!; [by apply take_overlay|symmetry; by apply wire_length|by apply wire_bounded].
Qed.
Lemma response_encoder_inv r enc buf n buf' : response_ok r → response_encoder r = Some enc →
  enc buf = (Ok n, buf') →
  take (Z.to_nat n) buf' = response_wire r ∧ n = blen (response_wire r) ∧ n ≤ 253.
Proof.
  intros Hr He Hok. destruct r; cbn [response_encoder] in He; try done.
  all: apply (inj Some) in He as <-; cbn [response_ok response_wire] in *; destruct Hr as [Hwf _].
  all: apply encode_into_inv in Hok as (Hen & -> & _ & ->); [|exact Hwf].
  all: split_and!; [by apply take_overlay|symmetry; by apply wire_length|by apply wire_bounded].
Qed.

Lemma dispatchers_return pdu : bytes_ok pdu →
  returns (decode_request pdu) ∧ returns (decode_response pdu).
Proof.
  intros Hb. unfold decode_request, decode_response.
  split; (apply rbind_returns; [apply decode_pdu_ref_returns|]);
    intros [fc data] [-> _]%decode_pdu_ref_Ok; cbn [PduRef.function_code PduRef.data] in *;
    apply bytes_ok_cons in Hb as [_ Hb].
  2: case_match; [apply rbind_returns; [apply ExceptionResponse_decode_returns|done]|].
  all: apply rbind_returns; [apply ok_or_returns|]; intros f _; destruct f; cbv beta iota zeta;
    first [ by eapply arm_returns | by apply rbind_returns; [apply check_exact_len_returns|] | done ].
Qed.

(** * Theorems *)

(** C12. [decode_request] accepts exactly the well-formed request PDUs: on any
    byte string it returns [r] if and only if the fields of [r] are in range, the
    protocol conditions of its function code hold, the bytes are the image the
    Modbus specification gives [r], and there are at most 253 of them. *)
Theorem decode_request_exact pdu r : bytes_ok pdu →
  decode_request pdu = Ok r ↔ request_ok r ∧ pdu = request_wire r ∧ blen pdu ≤ 253.
Proof.
  intros Hb. split; [by apply decode_request_sound|].
  intros (Hr & -> & Hl). by apply decode_request_complete.
Qed.
Lemma decode_request_exact_witness :
  request_ok (RequestPdu.ReadCoils (ReadCoilsRequest.mk 19 37)).
Proof.
  refine (proj1 (proj1 (decode_request_exact [0x01; 0x00; 0x13; 0x00; 0x25] _ _) eq_refl)).
  repeat constructor; lia.
Defined.

(** C13. [decode_response] accepts exactly the well-formed response PDUs,
    exception responses included. *)
Theorem decode_response_exact pdu r : bytes_ok pdu →
  decode_response pdu = Ok r ↔ response_ok r ∧ pdu = response_wire r ∧ blen pdu ≤ 253.
Proof.
  intros Hb. split; [by apply decode_response_sound|].
  intros (Hr & -> & Hl). by apply decode_response_complete.
Qed.
Lemma decode_response_exact_witness :
  response_ok (ResponsePdu.Exception
    (ExceptionResponse.mk FunctionCode.ReadCoils ExceptionCode.IllegalDataAddress)).
Proof.
  refine (proj1 (proj1 (decode_response_exact [0x81; 0x02] _ _) eq_refl)).
  repeat constructor; lia.
Defined.

(** Both dispatchers return on every input: no byte string, however
    malformed, makes them index out of bounds, underflow or loop. *)
Theorem decode_total pdu : bytes_ok pdu →
  returns (decode_request pdu) ∧ returns (decode_response pdu).
Proof. apply dispatchers_return. Qed.
Lemma decode_total_witness : returns (decode_request [0x15; 0x0A; 0x06; 0x00]).
Proof. refine (proj1 (decode_total _ _)). repeat constructor; lia. Defined.

(** The dedicated encoder of Read Device Identification writes a request of the
    encapsulated interface. *)
Lemma device_identification_encoded x buf n buf' : is_u8 (ReadDeviceIdentificationRequest.object_id x) →
  ReadDeviceIdentificationRequest.encode_into x buf = (Ok n, buf') →
  n = 4 ∧ decode_request (take (Z.to_nat n) buf') = Ok (RequestPdu.EncapsulatedInterface (EncapsulatedInterfaceRequest.mk MeiType.ReadDeviceIdentification
    [DeviceIdCode.code (ReadDeviceIdentificationRequest.device_id_code x); ReadDeviceIdentificationRequest.object_id x])) ∧
  ReadDeviceIdentificationRequest.decode (drop 1 (take (Z.to_nat n) buf')) = Ok x.
Proof.
  intros Hx Hok. change (encode_into x buf = (Ok n, buf')) in Hok. apply encode_into_inv in Hok as (_ & -> & _ & ->); [|exact Hx].
  rewrite (take_overlay x buf) by done. split; [done|].
  destruct x as [[] o]; split; reflexivity.
Qed.

(** C30. Round trip of the request codec in both directions: whatever the encoder
    of a well-formed request (its fields within their types and within what the
    protocol allows, [request_ok]) wrote, with the length it reported,
    [decode_request] reads back as the same request, of at most 253 bytes; and
    whatever request [decode_request] accepted, its encoder puts the same bytes at the
    front of any buffer that can hold them, leaves the rest of the buffer alone and
    reports their number. What the dedicated encoder of Read Device Identification
    wrote is read back by its own decoder, and by [decode_request] as the request of
    the encapsulated interface with its read code and object id. *)
Theorem request_roundtrip r enc : request_encoder r = Some enc →
  (∀ buf n buf', request_ok r → enc buf = (Ok n, buf') →
     n ≤ 253 ∧ decode_request (take (Z.to_nat n) buf') = Ok r) ∧
  (∀ pdu buf, bytes_ok pdu → decode_request pdu = Ok r → blen pdu ≤ blen buf →
     enc buf = (Ok (blen pdu), overlay pdu buf)) ∧
  (∀ x buf n buf', is_u8 (ReadDeviceIdentificationRequest.object_id x) →
     ReadDeviceIdentificationRequest.encode_into x buf = (Ok n, buf') →
     n = 4 ∧ decode_request (take (Z.to_nat n) buf') = Ok (RequestPdu.EncapsulatedInterface
       (EncapsulatedInterfaceRequest.mk MeiType.ReadDeviceIdentification
         [DeviceIdCode.code (ReadDeviceIdentificationRequest.device_id_code x); ReadDeviceIdentificationRequest.object_id x])) ∧
     ReadDeviceIdentificationRequest.decode (drop 1 (take (Z.to_nat n) buf')) = Ok x).
Proof.
  intros He. split_and!; [| |apply device_identification_encoded].
  - intros buf n buf' Hr Hok. destruct (request_encoder_inv _ _ _ _ _ Hr He Hok) as (-> & -> & Hl).
    split; [done|by apply decode_request_complete].
  - intros pdu buf Hb Hd Hl. apply decode_request_sound in Hd as (Hr & -> & Hle); [|done].
    by apply request_reencode_wire.
Qed.
Lemma request_roundtrip_witness :
  decode_request [0x10; 0; 1; 0; 2; 4; 0; 10; 1; 2]
  = Ok (RequestPdu.WriteMultipleRegisters (WriteMultipleRegistersRequest.mk 1 2 4 [0; 10; 1; 2])) ∧
  encode_into (WriteSingleCoilRequest.mk 172 CoilValue.On) (replicate 6 7)
  = (Ok 5, [0x05; 0x00; 0xAC; 0xFF; 0x00; 7]).
Proof.
  split.
  - refine (proj2 (proj1 (request_roundtrip
      (RequestPdu.WriteMultipleRegisters (WriteMultipleRegistersRequest.mk 1 2 4 [0; 10; 1; 2])) _ eq_refl)
      (replicate 12 0) 10 _ _ eq_refl)).
    split; [|split; [simpl; lia|done]].
    split_and!; simpl; try lia. repeat constructor; lia.
  - refine (proj1 (proj2 (request_roundtrip (RequestPdu.WriteSingleCoil (WriteSingleCoilRequest.mk 172 CoilValue.On)) _ eq_refl))
      [0x05; 0x00; 0xAC; 0xFF; 0x00] (replicate 6 7) _ eq_refl _).
    + repeat constructor; lia.
    + vm_compute. discriminate.
Defined.

(** Round trip of the response codec in both directions: an encoded
    response decodes to itself, and a decoded response re-encodes to the bytes it
    came from (for the two quantity echoes, when the quantity is one the encoder
    accepts). *)
Theorem response_roundtrip r enc buf :
  response_ok r → response_encoder r = Some enc →
  (∀ n buf', enc buf = (Ok n, buf') →
     n ≤ 253 ∧ decode_response (take (Z.to_nat n) buf') = Ok r) ∧
  (∀ pdu, bytes_ok pdu → decode_response pdu = Ok r → echo_in_range r → blen pdu ≤ blen buf →
     enc buf = (Ok (blen pdu), overlay pdu buf)).
Proof.
  intros Hr He. split.
  - intros n buf' Hok. destruct (response_encoder_inv _ _ _ _ _ Hr He Hok) as (-> & -> & Hl).
    split; [done|by apply decode_response_complete].
  - intros pdu Hb Hd Hq Hl. apply decode_response_sound in Hd as (_ & -> & Hle); [|done].
    by apply response_reencode_wire.
Qed.
Lemma response_roundtrip_witness :
  decode_response [0x03; 2; 0x12; 0x34]
  = Ok (ResponsePdu.ReadHoldingRegisters (ReadHoldingRegistersResponse.mk 2 [0x12; 0x34])).
Proof.
  refine (proj2 (proj1 (response_roundtrip
    (ResponsePdu.ReadHoldingRegisters (ReadHoldingRegistersResponse.mk 2 [0x12; 0x34]))
    _ (replicate 4 0) _ eq_refl) 4 _ eq_refl)).
  split; [|done]. split_and!; simpl; try lia. repeat constructor; lia.
Defined.

(** An encoder never panics, never writes more than 253 bytes, changes the
    buffer only on success, and on success changes only the bytes it reports. *)
Theorem response_encode_safe r enc buf :
  response_ok r → response_encoder r = Some enc →
  match enc buf with
  | (Ok n, buf') => 0 < n ≤ 253 ∧ n ≤ blen buf ∧ blen buf' = blen buf
                    ∧ drop (Z.to_nat n) buf' = drop (Z.to_nat n) buf
  | (Err _, buf') => buf' = buf
  | _ => False
  end.
Proof.
  intros Hr He. destruct (enc buf) as [[n|e| |] buf'] eqn:Hok.
  - destruct r; cbn [response_encoder] in He; try done.
    all: apply (inj Some) in He as <-; cbn [response_ok] in *; destruct Hr as [Hwf Hd].
    all: apply encode_into_inv in Hok as (Hen & -> & Hl & ->); [|exact Hwf].
    all: pose proof (wire_bounded _ Hwf Hen); pose proof (wire_length _ Hwf Hen) as Hw.
    all: split_and!; [ codec_open x; dec_arith | done | done
                     | rewrite blen_overlay; [done|by rewrite Hw]
                     | rewrite <-Hw; unfold overlay, blen; by rewrite Nat2Z.id, drop_app_length ].
  - destruct r; cbn [response_encoder] in He; try done.
    all: apply (inj Some) in He as <-; cbn [response_ok] in *; destruct Hr as [Hwf Hd].
    all: by apply encode_into_error in Hok.
  - destruct r; cbn [response_encoder] in He; try done.
    all: apply (inj Some) in He as <-; cbn [response_ok] in *; destruct Hr as [Hwf Hd].
    all: pose proof (encode_into_returns x buf Hwf) as Hret; rewrite Hok in Hret; done.
  - destruct r; cbn [response_encoder] in He; try done.
    all: apply (inj Some) in He as <-; cbn [response_ok] in *; destruct Hr as [Hwf Hd].
    all: pose proof (encode_into_returns x buf Hwf) as Hret; rewrite Hok in Hret; done.
Qed.
Lemma response_encode_safe_witness :
  0 < 2 ≤ 253 ∧ 2 ≤ blen (replicate 3 0) ∧ blen [0x83; 2; 0] = blen (replicate 3 0)
  ∧ drop (Z.to_nat 2) [0x83; 2; 0] = drop (Z.to_nat 2) (replicate 3 0).
Proof.
  refine (response_encode_safe
    (ResponsePdu.Exception (ExceptionResponse.mk FunctionCode.ReadHoldingRegisters
                                                 ExceptionCode.IllegalDataAddress))
    _ (replicate 3 0) _ eq_refl).
  split; [split; simpl; lia|]. split_and!; simpl; try done.
Defined.
