(* ===== verification/Validate.v ===== *)
(** * Server-side request validation (crates/rusty-modbus-codec/src/validate.rs)

    The per-function-code checks a server runs on the fields of a request, and
    their relation to the decoders: on a decoded request only the address check
    can still fail. *)
From S2P Require Import Prelude Types CodecError FileRecords Requests.

Definition validate_address_range (address quantity : Z) : res ExceptionCode.t unit :=
  if 0x10000 <? address + quantity then Err ExceptionCode.IllegalDataAddress else Ok tt.

Definition validate_read_coils (address quantity : Z) : res ExceptionCode.t unit :=
  if (quantity =? 0) || (MAX_READ_COILS <? quantity) then Err ExceptionCode.IllegalDataValue else
  do? validate_address_range address quantity in Ok tt.

Definition validate_read_discrete_inputs (address quantity : Z) : res ExceptionCode.t unit :=
  if (quantity =? 0) || (MAX_READ_DISCRETE_INPUTS <? quantity)
  then Err ExceptionCode.IllegalDataValue else
  do? validate_address_range address quantity in Ok tt.

Definition validate_read_registers (address quantity : Z) : res ExceptionCode.t unit :=
  if (quantity =? 0) || (MAX_READ_REGISTERS <? quantity)
  then Err ExceptionCode.IllegalDataValue else
  do? validate_address_range address quantity in Ok tt.

Definition validate_write_single_coil (coil_value : Z) : res ExceptionCode.t unit :=
  if negb (coil_value =? 0x0000) && negb (coil_value =? 0xFF00)
  then Err ExceptionCode.IllegalDataValue else Ok tt.

Definition validate_write_coils (address quantity byte_count : Z) : res ExceptionCode.t unit :=
  if (quantity =? 0) || (MAX_WRITE_COILS <? quantity) then Err ExceptionCode.IllegalDataValue else
  let expected_bytes := div_ceil quantity 8 in
  if negb (byte_count =? expected_bytes) then Err ExceptionCode.IllegalDataValue else
  do? validate_address_range address quantity in Ok tt.

Definition validate_write_registers (address quantity byte_count : Z) : res ExceptionCode.t unit :=
  if (quantity =? 0) || (MAX_WRITE_REGISTERS <? quantity)
  then Err ExceptionCode.IllegalDataValue else
  if negb (byte_count =? quantity * 2) then Err ExceptionCode.IllegalDataValue else
  do? validate_address_range address quantity in Ok tt.

Definition validate_mask_write_address (address : Z) : res ExceptionCode.t unit :=
  validate_address_range address 1.

Definition validate_read_write_registers
    (read_address read_quantity write_address write_quantity write_byte_count : Z)
    : res ExceptionCode.t unit :=
  if (read_quantity =? 0) || (MAX_RW_READ_REGISTERS <? read_quantity)
  then Err ExceptionCode.IllegalDataValue else
  if (write_quantity =? 0) || (MAX_RW_WRITE_REGISTERS <? write_quantity)
  then Err ExceptionCode.IllegalDataValue else
  if negb (write_byte_count =? write_quantity * 2) then Err ExceptionCode.IllegalDataValue else
  do? validate_address_range read_address read_quantity in
  do? validate_address_range write_address write_quantity in
  Ok tt.

(** ** What each check answers

    [range_verdict data_ok ranges r] says that [r] is the answer Figure 9 of the
    application protocol prescribes: the data value is judged before the address
    ranges, and a range [(a, n)] is inside the table when its last element
    [a + n - 1] is at most 65535. *)
Definition range_verdict (data_ok : Prop) (ranges : list (Z * Z)) (r : res ExceptionCode.t unit) : Prop :=
  (r = Err ExceptionCode.IllegalDataValue ∧ ¬ data_ok) ∨
  (r = Err ExceptionCode.IllegalDataAddress ∧ data_ok
     ∧ Exists (λ '(a, n), 65535 < a + n - 1) ranges) ∨
  (r = Ok tt ∧ data_ok ∧ Forall (λ '(a, n), a + n - 1 ≤ 65535) ranges).

Ltac verdict :=
  unfold range_verdict; cbn [rbind];
  repeat (case_match; try (left; split; [reflexivity|]; Z.to_euclidean_division_equations; lia));
  first [ right; left; split; [reflexivity|]; split;
          [Z.to_euclidean_division_equations; lia
          | first [ apply Exists_cons_hd; lia | apply Exists_cons_tl, Exists_cons_hd; lia ] ]
        | right; right; split; [reflexivity|]; split;
          [Z.to_euclidean_division_equations; lia | repeat constructor; lia ] ].

Lemma validate_read_coils_verdict a q : is_u16 q →
  range_verdict (1 ≤ q ≤ 2000) [(a, q)] (validate_read_coils a q).
Proof.
  intros. unfold validate_read_coils, validate_address_range, MAX_READ_COILS. verdict.
Qed.
Lemma validate_read_discrete_inputs_verdict a q : is_u16 q →
  range_verdict (1 ≤ q ≤ 2000) [(a, q)] (validate_read_discrete_inputs a q).
Proof.
  intros. unfold validate_read_discrete_inputs, validate_address_range, MAX_READ_DISCRETE_INPUTS. verdict.
Qed.
Lemma validate_read_registers_verdict a q : is_u16 q →
  range_verdict (1 ≤ q ≤ 125) [(a, q)] (validate_read_registers a q).
Proof.
  intros. unfold validate_read_registers, validate_address_range, MAX_READ_REGISTERS. verdict.
Qed.
Lemma validate_write_coils_verdict a q bc : is_u16 q →
  range_verdict (1 ≤ q ≤ 1968 ∧ bc = (q + 7) / 8) [(a, q)] (validate_write_coils a q bc).
Proof.
  intros. unfold validate_write_coils, validate_address_range, MAX_WRITE_COILS, div_ceil. verdict.
Qed.
Lemma validate_write_registers_verdict a q bc : is_u16 q →
  range_verdict (1 ≤ q ≤ 123 ∧ bc = 2 * q) [(a, q)] (validate_write_registers a q bc).
Proof.
  intros. unfold validate_write_registers, validate_address_range, MAX_WRITE_REGISTERS. verdict.
Qed.
Lemma validate_read_write_registers_verdict ra rq wa wq bc : is_u16 rq → is_u16 wq →
  range_verdict (1 ≤ rq ≤ 125 ∧ 1 ≤ wq ≤ 121 ∧ bc = 2 * wq) [(ra, rq); (wa, wq)]
    (validate_read_write_registers ra rq wa wq bc).
Proof.
  intros. unfold validate_read_write_registers, validate_address_range, MAX_RW_READ_REGISTERS,
    MAX_RW_WRITE_REGISTERS. verdict.
Qed.
(** * Theorems *)

(** C31. The validators judge in the order the specification gives: data values
    first, then the address ranges. Each accepts exactly the requests whose
    quantity (and byte count) is in range and whose last addressed element exists,
    address 65535 included. *)
Theorem validators_exact a q bc wa wq :
  is_u16 q → is_u16 wq →
  range_verdict (1 ≤ q ≤ 2000) [(a, q)] (validate_read_coils a q) ∧
  range_verdict (1 ≤ q ≤ 2000) [(a, q)] (validate_read_discrete_inputs a q) ∧
  range_verdict (1 ≤ q ≤ 125) [(a, q)] (validate_read_registers a q) ∧
  range_verdict (1 ≤ q ≤ 1968 ∧ bc = (q + 7) / 8) [(a, q)] (validate_write_coils a q bc) ∧
  range_verdict (1 ≤ q ≤ 123 ∧ bc = 2 * q) [(a, q)] (validate_write_registers a q bc) ∧
  range_verdict (1 ≤ q ≤ 125 ∧ 1 ≤ wq ≤ 121 ∧ bc = 2 * wq) [(a, q); (wa, wq)]
    (validate_read_write_registers a q wa wq bc).
Proof.
  intros Hq Hw. split_and!.
  - by apply validate_read_coils_verdict.
  - by apply validate_read_discrete_inputs_verdict.
  - by apply validate_read_registers_verdict.
  - by apply validate_write_coils_verdict.
  - by apply validate_write_registers_verdict.
  - by apply validate_read_write_registers_verdict.
Qed.
Lemma validators_exact_witness :
  range_verdict (1 ≤ 1 ≤ 125 ∧ 1 ≤ 1 ≤ 121 ∧ 2 = 2 * 1) [(65535, 1); (65535, 1)]
    (validate_read_write_registers 65535 1 65535 1 2).
Proof.
  refine (proj2 (proj2 (proj2 (proj2 (proj2 (validators_exact 65535 1 2 65535 1 _ _)))))); lia.
Defined.

(** Decoding subsumes the data-value checks: for a request a decoder
    accepted, validation can only complain about the address range, and does so
    exactly when the last addressed element is beyond 65535. *)
Theorem validate_decoded data :
  bytes_ok data →
  (∀ x, ReadCoilsRequest.decode data = Ok x →
    (validate_read_coils (ReadCoilsRequest.address x) (ReadCoilsRequest.quantity x)
     = if 65536 <? ReadCoilsRequest.address x + ReadCoilsRequest.quantity x
       then Err ExceptionCode.IllegalDataAddress else Ok tt)) ∧
  (∀ x, ReadHoldingRegistersRequest.decode data = Ok x →
    (validate_read_registers (ReadHoldingRegistersRequest.address x)
       (ReadHoldingRegistersRequest.quantity x)
     = if 65536 <? ReadHoldingRegistersRequest.address x + ReadHoldingRegistersRequest.quantity x
       then Err ExceptionCode.IllegalDataAddress else Ok tt)) ∧
  (∀ x, WriteMultipleCoilsRequest.decode data = Ok x →
    (validate_write_coils (WriteMultipleCoilsRequest.address x)
       (WriteMultipleCoilsRequest.quantity x) (WriteMultipleCoilsRequest.byte_count x)
     = if 65536 <? WriteMultipleCoilsRequest.address x + WriteMultipleCoilsRequest.quantity x
       then Err ExceptionCode.IllegalDataAddress else Ok tt)) ∧
  (∀ x, WriteMultipleRegistersRequest.decode data = Ok x →
    (validate_write_registers (WriteMultipleRegistersRequest.address x)
       (WriteMultipleRegistersRequest.quantity x) (WriteMultipleRegistersRequest.byte_count x)
     = if 65536 <? WriteMultipleRegistersRequest.address x + WriteMultipleRegistersRequest.quantity x
       then Err ExceptionCode.IllegalDataAddress else Ok tt)).
Proof.
  intros Hb. split_and!; intros x Hd; apply decode_sound in Hd as (Hwf & Hv & _); [|done| |done| |done| |done].
  all: codec_open x; unfold validate_read_coils, validate_read_registers, validate_write_coils,
    validate_write_registers, validate_address_range, MAX_READ_COILS, MAX_READ_REGISTERS,
    MAX_WRITE_COILS, MAX_WRITE_REGISTERS, div_ceil.
  all: repeat match goal with |- context [if ?c then Err ExceptionCode.IllegalDataValue else _] =>
         replace c with false by (Z.to_euclidean_division_equations; lia) end.
  all: by destruct (_ <? _).
Qed.
Lemma validate_decoded_witness : validate_read_coils 65530 7 = Err ExceptionCode.IllegalDataAddress.
Proof.
  refine (proj1 (validate_decoded [0xFF; 0xFA; 0; 7] _) (ReadCoilsRequest.mk 65530 7) eq_refl).
  repeat constructor; lia.
Defined.
