(* ===== verification/Crc.v ===== *)
(** * CRC-16/Modbus (crates/rusty-modbus-frame/src/crc.rs)

    The table-driven checksum of RTU framing. The table is the one the source
    computes at compile time. Theorems: the table-driven update is the bit-serial
    division by the reflected polynomial; a frame verifies exactly when its
    checksum, trailer included, is zero; every error burst of at most 16 bits is
    detected. *)
From S2P Require Import Prelude Types.

(** One iteration of the inner loop of [CRC_TABLE]'s initialiser *)
Definition crc_bit (crc : Z) : Z :=
  if negb (Z.land crc 1 =? 0) then Z.lxor (Z.shiftr crc 1) 0xA001 else Z.shiftr crc 1.

Definition crc_table_entry (i : Z) : Z := Nat.iter 8 crc_bit i.

Definition CRC_TABLE : list Z := map (λ i, crc_table_entry (Z.of_nat i)) (seq 0 256).

(** The index is masked to a byte, so the read is always in bounds. *)
Definition crc16_update (crc byte : Z) : Z :=
  let index := Z.land (Z.lxor crc byte) 0xFF in
  Z.lxor (Z.shiftr crc 8) (nth (Z.to_nat index) CRC_TABLE 0).

Definition crc16 (data : bytes) : Z := fold_left crc16_update data 0xFFFF.

Definition verify_crc (frame : bytes) : res Empty_set bool :=
  if blen frame <? 3 then Ok false else
  let? data_end := usub (blen frame) 2 in
  let? data := slice_to frame data_end in
  let expected := crc16 data in
  let? lo := idx frame data_end in
  let? hi := idx frame (data_end + 1) in
  let actual := from_le_bytes lo hi in
  Ok (expected =? actual).

(** ** Bit arithmetic *)
Lemma testbit_bound n a : 0 ≤ n → 0 ≤ a → (∀ i, n ≤ i → Z.testbit a i = false) → a < 2 ^ n.
Proof.
  intros Hn Ha Hb. replace a with (a mod 2 ^ n); [apply Z.mod_pos_bound; lia|].
  apply Z.bits_inj'. intros i Hi. destruct (Z_lt_le_dec i n).
  - by rewrite Z.mod_pow2_bits_low by lia.
  - rewrite Z.mod_pow2_bits_high by lia. by rewrite Hb.
Qed.
Lemma bound_testbit n a i : 0 ≤ a < 2 ^ n → n ≤ i → Z.testbit a i = false.
Proof.
  intros [Ha Hlt] Hi. destruct (decide (a = 0)) as [->|]; [apply Z.testbit_0_l|].
  apply Z.bits_above_log2; [done|]. apply Z.log2_lt_pow2; [lia|].
  eapply Z.lt_le_trans; [exact Hlt|]. apply Z.pow_le_mono_r; [lia|done].
Qed.
Lemma lxor_bound n a b : 0 ≤ n → 0 ≤ a < 2 ^ n → 0 ≤ b < 2 ^ n → 0 ≤ Z.lxor a b < 2 ^ n.
Proof.
  intros Hn Ha Hb. assert (0 ≤ Z.lxor a b) by (apply Z.lxor_nonneg; lia). split; [done|].
  apply testbit_bound; [done|done|]. intros i Hi.
  by rewrite Z.lxor_spec, (bound_testbit n a), (bound_testbit n b) by lia.
Qed.
Lemma lxor_u16 a b : is_u16 a → is_u16 b → is_u16 (Z.lxor a b).
Proof. apply (lxor_bound 16). lia. Qed.
Lemma lxor_u8 a b : is_u8 a → is_u8 b → is_u8 (Z.lxor a b).
Proof. apply (lxor_bound 8). lia. Qed.
Lemma lxor_cancel a b : Z.lxor a b = 0 ↔ a = b.
Proof. apply Z.lxor_eq_0_iff. Qed.

(** ** The shift register is linear and loses nothing *)
Lemma crc_bit_alt x : crc_bit x = Z.lxor (Z.shiftr x 1) (if Z.testbit x 0 then 0xA001 else 0).
Proof.
  unfold crc_bit. change (Z.land x 1) with (Z.land x (Z.ones 1)). rewrite Z.land_ones by lia. change (2 ^ 1) with 2.
  rewrite <-Z.bit0_mod. destruct (Z.testbit x 0); simpl; [done|]. by rewrite Z.lxor_0_r.
Qed.
Lemma crc_bit_lxor a b : crc_bit (Z.lxor a b) = Z.lxor (crc_bit a) (crc_bit b).
Proof.
  rewrite !crc_bit_alt, Z.shiftr_lxor, Z.lxor_spec.
  apply Z.bits_inj'. intros i Hi. rewrite !Z.lxor_spec.
  destruct (Z.testbit a 0), (Z.testbit b 0); simpl; rewrite ?Z.testbit_0_l.
  all: by destruct (Z.testbit (Z.shiftr a 1) i), (Z.testbit (Z.shiftr b 1) i), (Z.testbit 0xA001 i).
Qed.
Lemma crc_bit_0 : crc_bit 0 = 0.
Proof. done. Qed.
Lemma crc_bit_double x : crc_bit (2 * x) = x.
Proof.
  rewrite crc_bit_alt, Z.testbit_even_0, Z.lxor_0_r, Z.shiftr_div_pow2 by lia.
  change (2 ^ 1) with 2. rewrite Z.mul_comm. by apply Z.div_mul.
Qed.
Lemma shiftr1_bound x : is_u16 x → 0 ≤ Z.shiftr x 1 < 32768.
Proof. intros. rewrite Z.shiftr_div_pow2 by lia. change (2 ^ 1) with 2. Z.to_euclidean_division_equations; lia. Qed.
Lemma crc_bit_u16 x : is_u16 x → is_u16 (crc_bit x).
Proof.
  intros Hx. rewrite crc_bit_alt. pose proof (shiftr1_bound x Hx).
  apply lxor_u16; [lia|]. case_match; lia.
Qed.
Lemma crc_bit_eq_0 x : is_u16 x → crc_bit x = 0 → x = 0.
Proof.
  intros Hx. rewrite crc_bit_alt. pose proof (shiftr1_bound x Hx) as Hs.
  rewrite lxor_cancel. destruct (Z.testbit x 0) eqn:Hb; [lia|]. intros Hz.
  rewrite Z.shiftr_div_pow2 in Hz by lia. change (2 ^ 1) with 2 in Hz.
  rewrite Z.bit0_eqb in Hb. Z.to_euclidean_division_equations; lia.
Qed.

Lemma iter_crc_bit_lxor n a b :
  Nat.iter n crc_bit (Z.lxor a b) = Z.lxor (Nat.iter n crc_bit a) (Nat.iter n crc_bit b).
Proof. induction n; simpl; [done|]. by rewrite IHn, crc_bit_lxor. Qed.
Lemma iter_crc_bit_u16 n x : is_u16 x → is_u16 (Nat.iter n crc_bit x).
Proof. intros. induction n; simpl; [done|]. by apply crc_bit_u16. Qed.
Lemma iter_crc_bit_eq_0 n x : is_u16 x → Nat.iter n crc_bit x = 0 → x = 0.
Proof.
  intros Hx. induction n; simpl; [done|]. intros Hz. apply IHn, crc_bit_eq_0; [|done].
  by apply iter_crc_bit_u16.
Qed.
Lemma iter_crc_bit_0 n : Nat.iter n crc_bit 0 = 0.
Proof. induction n; simpl; [done|]. by rewrite IHn. Qed.
Lemma iter_crc_bit_shift n x : Nat.iter n crc_bit (2 ^ Z.of_nat n * x) = x.
Proof.
  revert x. induction n as [|n IH]; intros x; [simpl; lia|].
  rewrite Nat2Z.inj_succ, Z.pow_succ_r by lia. rewrite Nat.iter_succ_r.
  rewrite <-Z.mul_assoc, crc_bit_double. apply IH.
Qed.

(** ** The table-driven update *)
Lemma CRC_TABLE_lookup i : is_u8 i → nth (Z.to_nat i) CRC_TABLE 0 = crc_table_entry i.
Proof.
  intros Hi. unfold CRC_TABLE.
  rewrite (nth_indep _ 0 (crc_table_entry (Z.of_nat 0))) by (rewrite length_map, length_seq; lia).
  rewrite (map_nth (λ i, crc_table_entry (Z.of_nat i))). rewrite seq_nth by lia. f_equal. lia.
Qed.
Lemma land_255 x : Z.land x 0xFF = x mod 256.
Proof. change 0xFF with (Z.ones 8). by rewrite Z.land_ones by lia. Qed.
Lemma split_byte x : 0 ≤ x → x = Z.lxor (256 * Z.shiftr x 8) (Z.land x 0xFF).
Proof.
  intros Hx. change (256 * Z.shiftr x 8) with (2 ^ 8 * Z.shiftr x 8).
  rewrite (Z.mul_comm (2 ^ 8)), <-Z.shiftl_mul_pow2 by lia.
  apply Z.bits_inj'. intros i Hi. rewrite Z.lxor_spec, Z.land_spec.
  change 255 with (Z.ones 8).
  destruct (Z_lt_le_dec i 8).
  - rewrite Z.shiftl_spec_low, Z.ones_spec_low by lia. by destruct (Z.testbit x i).
  - rewrite Z.shiftl_spec_high, Z.shiftr_spec, Z.ones_spec_high by lia.
    replace (i - 8 + 8) with i by lia. by destruct (Z.testbit x i).
Qed.
Lemma shiftr8_lxor_u8 crc byte : is_u8 byte → Z.shiftr (Z.lxor crc byte) 8 = Z.shiftr crc 8.
Proof.
  intros. rewrite Z.shiftr_lxor, (Z.shiftr_div_pow2 byte), (Z.div_small byte) by lia.
  apply Z.lxor_0_r.
Qed.
Lemma crc16_update_serial crc byte : is_u16 crc → is_u8 byte →
  crc16_update crc byte = Nat.iter 8 crc_bit (Z.lxor crc byte).
Proof.
  intros Hc Hb. unfold crc16_update. set (x := Z.lxor crc byte).
  assert (is_u16 x) as Hx by (apply lxor_u16; lia).
  rewrite CRC_TABLE_lookup by (rewrite land_255; apply Z.mod_pos_bound; lia).
  rewrite (split_byte x) at 2 by lia. rewrite iter_crc_bit_lxor.
  change 256 with (2 ^ Z.of_nat 8). rewrite iter_crc_bit_shift.
  unfold x at 2. by rewrite shiftr8_lxor_u8.
Qed.
Lemma crc16_update_u16 crc byte : is_u16 crc → is_u8 byte → is_u16 (crc16_update crc byte).
Proof.
  intros. rewrite crc16_update_serial by done. apply iter_crc_bit_u16, lxor_u16; lia.
Qed.
Lemma crc16_fold_u16 data c : bytes_ok data → is_u16 c → is_u16 (fold_left crc16_update data c).
Proof.
  intros Hd. revert c. induction Hd; intros c Hc; simpl; [done|].
  apply IHHd. by apply crc16_update_u16.
Qed.
Lemma crc16_u16 data : bytes_ok data → is_u16 (crc16 data).
Proof. intros. apply crc16_fold_u16; [done|lia]. Qed.

(** ** Bit streams

    On the wire a byte is sent least significant bit first; [crc_bits] is the
    shift register fed one bit at a time. *)
Definition byte_bits (b : Z) : list bool := map (λ i, Z.testbit b (Z.of_nat i)) (seq 0 8).
Definition bits (l : bytes) : list bool := concat (map byte_bits l).
Definition crc_bits (c : Z) (w : list bool) : Z :=
  fold_left (λ c b, crc_bit (Z.lxor c (Z.b2z b))) w c.
Definition xor_bits (u v : list bool) : list bool := zip_with xorb u v.
Fixpoint word (w : list bool) : Z :=
  match w with [] => 0 | b :: w => Z.b2z b + 2 * word w end.

Lemma b2z_u8 b : is_u8 (Z.b2z b).
Proof. destruct b; simpl; lia. Qed.
Lemma b2z_lxor_double b x : Z.b2z b + 2 * x = Z.lxor (Z.b2z b) (2 * x).
Proof.
  destruct b; simpl Z.b2z; [|by rewrite Z.lxor_0_l].
  apply Z.bits_inj'. intros i Hi. rewrite Z.lxor_spec.
  destruct (decide (i = 0)) as [->|].
  - by rewrite Z.add_comm, Z.testbit_odd_0, Z.testbit_even_0.
  - replace i with (Z.succ (i - 1)) by lia.
    rewrite Z.add_comm, Z.testbit_odd_succ, Z.testbit_even_succ by lia.
    by rewrite (Z.bits_above_log2 1) by (simpl; lia).
Qed.
Lemma word_bound w : 0 ≤ word w < 2 ^ blen w.
Proof.
  induction w as [|b w IH]; [done|]. rewrite blen_cons, Z.pow_add_r by (pose proof (blen_nonneg w); lia).
  change (2 ^ 1) with 2. simpl word. destruct b; simpl Z.b2z; lia.
Qed.
Lemma word_eq_0 w : word w = 0 → w = replicate (length w) false.
Proof.
  induction w as [|b w IH]; [done|]. simpl. pose proof (word_bound w).
  destruct b; simpl Z.b2z; [lia|]. intros. f_equal. apply IH. lia.
Qed.
Lemma word_byte_bits b : is_u8 b → word (byte_bits b) = b.
Proof.
  intros Hb. apply Z.eqb_eq. by apply (u8_all_spec (λ b, word (byte_bits b) =? b)).
Qed.
Lemma byte_bits_inj a b : is_u8 a → is_u8 b → byte_bits a = byte_bits b → a = b.
Proof. intros Ha Hb Heq. by rewrite <-(word_byte_bits a), <-(word_byte_bits b), Heq. Qed.
Lemma bits_inj l k : bytes_ok l → bytes_ok k → bits l = bits k → l = k.
Proof.
  intros Hl. revert k. induction Hl as [|a l Ha Hl IH]; intros [|b k] Hk Heq; try done.
  apply bytes_ok_cons in Hk as [Hb Hk].
  change (byte_bits a ++ bits l = byte_bits b ++ bits k) in Heq.
  apply app_inj_1 in Heq as [? ?]; [|done]. f_equal; [by apply byte_bits_inj|by apply IH].
Qed.

(** Feeding [w] bit by bit is xoring the word in and shifting [length w] times. *)
Lemma crc_bits_word w c : crc_bits c w = Nat.iter (length w) crc_bit (Z.lxor c (word w)).
Proof.
  revert c. induction w as [|b w IH]; intros c; [simpl; by rewrite Z.lxor_0_r|].
  change (crc_bits c (b :: w)) with (crc_bits (crc_bit (Z.lxor c (Z.b2z b))) w).
  rewrite IH. simpl length. rewrite Nat.iter_succ_r. f_equal.
  simpl word. rewrite b2z_lxor_double, <-Z.lxor_assoc, (crc_bit_lxor (Z.lxor c (Z.b2z b))). by rewrite crc_bit_double.
Qed.
Lemma crc_bits_app c u v : crc_bits c (u ++ v) = crc_bits (crc_bits c u) v.
Proof. apply fold_left_app. Qed.
Lemma crc_fold_bits l c : bytes_ok l → is_u16 c → fold_left crc16_update l c = crc_bits c (bits l).
Proof.
  intros Hl. revert c. induction Hl as [|b l Hb Hl IH]; intros c Hc; [done|].
  change (bits (b :: l)) with (byte_bits b ++ bits l). rewrite crc_bits_app. simpl fold_left.
  rewrite IH by by apply crc16_update_u16. f_equal.
  by rewrite crc16_update_serial, crc_bits_word, word_byte_bits.
Qed.
Lemma crc_bits_lxor c d u v : length u = length v →
  crc_bits (Z.lxor c d) (xor_bits u v) = Z.lxor (crc_bits c u) (crc_bits d v).
Proof.
  revert c d v. induction u as [|a u IH]; intros c d [|b v] Hl; try done.
  simpl. rewrite <-IH by (simpl in Hl; lia). f_equal. rewrite <-crc_bit_lxor. f_equal.
  apply Z.bits_inj'. intros i Hi. rewrite !Z.lxor_spec.
  destruct a, b; simpl; rewrite ?Z.testbit_0_l; by destruct (Z.testbit c i), (Z.testbit d i), (Z.testbit 1 i).
Qed.
Lemma crc_bits_u16 c w : is_u16 c → is_u16 (crc_bits c w).
Proof.
  revert c. induction w as [|b w IH]; intros c Hc; [done|]. simpl. apply IH, crc_bit_u16, lxor_u16; [done|].
  pose proof (b2z_u8 b). lia.
Qed.
Lemma crc_bits_zeros_eq_0 n c : is_u16 c → crc_bits c (replicate n false) = 0 → c = 0.
Proof.
  intros Hc. rewrite crc_bits_word. replace (word (replicate n false)) with 0.
  - rewrite Z.lxor_0_r. by apply iter_crc_bit_eq_0.
  - induction n; [done|]. simpl. lia.
Qed.
Lemma crc_bits_zeros n : crc_bits 0 (replicate n false) = 0.
Proof. induction n; [done|]. simpl. done. Qed.
Lemma xor_bits_self u : xor_bits u u = replicate (length u) false.
Proof. induction u as [|b u IH]; [done|]. simpl. rewrite xorb_nilpotent. by f_equal. Qed.
Lemma xor_bits_app u v u' v' : length u = length u' →
  xor_bits (u ++ v) (u' ++ v') = xor_bits u u' ++ xor_bits v v'.
Proof.
  revert u'. induction u as [|a u IH]; intros [|b u'] Hl; try done. simpl. f_equal. apply IH. simpl in Hl. lia.
Qed.
Lemma xor_bits_zero u v : length u = length v →
  xor_bits u v = replicate (length u) false → u = v.
Proof.
  revert v. induction u as [|a u IH]; intros [|b v] Hl; try done. simpl. intros [= Hab Hr].
  assert (a = b) as -> by by destruct a, b. f_equal. apply IH; [simpl in Hl; lia|done].
Qed.
(** Two streams that differ only inside a window of 16 bits and leave the
    register in the same state are equal. *)
Lemma burst_detected c p w w' s : is_u16 c → length w = length w' → (length w ≤ 16)%nat →
  crc_bits c (p ++ w ++ s) = crc_bits c (p ++ w' ++ s) → w = w'.
Proof.
  intros Hc Hlen H16 Heq. apply lxor_cancel in Heq.
  rewrite <-crc_bits_lxor in Heq by (rewrite !length_app; lia).
  rewrite Z.lxor_nilpotent, !xor_bits_app, !xor_bits_self in Heq by done.
  rewrite !crc_bits_app, crc_bits_zeros in Heq.
  apply crc_bits_zeros_eq_0 in Heq; [|apply crc_bits_u16; lia].
  rewrite crc_bits_word, Z.lxor_0_l in Heq.
  assert (length (xor_bits w w') = length w) as Hx by (unfold xor_bits; rewrite length_zip_with; lia).
  apply iter_crc_bit_eq_0 in Heq.
  - apply xor_bits_zero; [done|]. rewrite <-Hx at 1. by apply word_eq_0.
  - pose proof (word_bound (xor_bits w w')) as Hw. unfold blen in Hw. rewrite Hx in Hw.
    assert (2 ^ Z.of_nat (length w) ≤ 2 ^ 16) by (apply Z.pow_le_mono_r; lia). lia.
Qed.

(** ** Verification *)
Lemma verify_crc_app m a b : m ≠ [] →
  verify_crc (m ++ [a; b]) = Ok (crc16 m =? from_le_bytes a b).
Proof.
  intros Hm. unfold verify_crc. rewrite blen_app. change (blen [a; b]) with 2.
  assert (0 < blen m) by (destruct m; [done|]; rewrite blen_cons; pose proof (blen_nonneg m); lia).
  replace (_ <? 3) with false by lia. rewrite usub_Ok by lia. cbn [rbind].
  replace (blen m + 2 - 2) with (blen m) by lia.
  rewrite slice_to_Ok by (rewrite blen_app; pose proof (blen_nonneg m); change (blen [a; b]) with 2; lia).
  cbn [rbind]. unfold idx. rewrite !get_app_r by lia. replace (blen m - blen m) with 0 by lia.
  replace (blen m + 1 - blen m) with 1 by lia. cbn. unfold blen. by rewrite Nat2Z.id, take_app_length.
Qed.
(** A list of at least three elements ends in two elements after others. *)
Lemma last_two (l : bytes) : 3 ≤ blen l → ∃ m a b, m ≠ [] ∧ l = m ++ [a; b].
Proof.
  intros Hl. induction l as [|b l _] using rev_ind; [done|].
  induction l as [|a m _] using rev_ind; [done|]. exists m, a, b. rewrite <-app_assoc in *.
  split; [|done]. by intros ->.
Qed.
Lemma verify_crc_short f : blen f < 3 → verify_crc f = Ok false.
Proof. intros. unfold verify_crc. by replace (_ <? 3) with true by lia. Qed.
Lemma verify_crc_inv f : verify_crc f = Ok true →
  ∃ m, m ≠ [] ∧ ∃ a b, f = m ++ [a; b] ∧ crc16 m = from_le_bytes a b.
Proof.
  intros Hv. destruct (Z_lt_le_dec (blen f) 3); [by rewrite verify_crc_short in Hv|].
  destruct (last_two f) as (m & a & b & Hm & ->); [lia|].
  rewrite verify_crc_app in Hv by done. exists m. split; [done|]. exists a, b. split; [done|].
  apply Z.eqb_eq. by injection Hv.
Qed.
Lemma verify_crc_returns f : returns (verify_crc f).
Proof.
  destruct (Z_lt_le_dec (blen f) 3); [by rewrite verify_crc_short|].
  destruct (last_two f) as (m & a & b & Hm & ->); [lia|].
  by rewrite verify_crc_app.
Qed.

(** Two more bytes bring the register to zero exactly when they are its own. *)
Lemma crc_two_bytes_zero c a b : is_u16 c → is_u8 a → is_u8 b →
  crc16_update (crc16_update c a) b = 0 ↔ c = from_le_bytes a b.
Proof.
  intros Hc Ha Hb.
  assert (fold_left crc16_update [a; b] c = crc_bits c (bits [a; b])) as He
    by by apply crc_fold_bits; [repeat constructor; lia|].
  simpl fold_left in He. rewrite He, crc_bits_word.
  change (length (bits [a; b])) with 16%nat.
  assert (word (bits [a; b]) = from_le_bytes a b) as ->.
  { change (bits [a; b]) with (byte_bits a ++ byte_bits b ++ []). rewrite app_nil_r.
    unfold from_le_bytes. rewrite <-(word_byte_bits a), <-(word_byte_bits b) at 2 by done.
    generalize (byte_bits b). intros wb. simpl byte_bits. simpl. lia. }
  assert (is_u16 (from_le_bytes a b)) by (unfold from_le_bytes; lia).
  split.
  - intros Hz%iter_crc_bit_eq_0; [by apply lxor_cancel|by apply lxor_u16].
  - intros ->. by rewrite Z.lxor_nilpotent, iter_crc_bit_0.
Qed.
Lemma crc16_app2 m a b : crc16 (m ++ [a; b]) = crc16_update (crc16_update (crc16 m) a) b.
Proof. unfold crc16. by rewrite fold_left_app. Qed.
Lemma verify_crc_residue f : bytes_ok f → verify_crc f = Ok true ↔ 3 ≤ blen f ∧ crc16 f = 0.
Proof.
  intros Hf. destruct (Z_lt_le_dec (blen f) 3) as [Hs|Hl].
  { rewrite verify_crc_short by done. split; [done|lia]. }
  destruct (last_two f) as (m & a & b & Hm & ->); [lia|].
  rewrite verify_crc_app, crc16_app2 by done.
  apply bytes_ok_app in Hf as [Hfm [Ha [Hb _]%bytes_ok_cons]%bytes_ok_cons].
  rewrite crc_two_bytes_zero by (done || by apply crc16_u16).
  rewrite <-Z.eqb_eq. split; [by intros [= ->]|by intros [_ ->]].
Qed.

(** The shift register of the CRC-16/Modbus definition, for one message bit: the
    feedback bit is the lowest register bit plus the message bit, and the taps are
    those of x^16 + x^15 + x^2 + 1, reflected. *)
Definition register_step (register : Z) (bit : bool) : Z :=
  let feedback := xorb (Z.odd register) bit in
  Z.lxor (register / 2) (if feedback then 2 ^ 15 + 2 ^ 13 + 2 ^ 0 else 0).

Lemma crc_bit_register c b : crc_bit (Z.lxor c (Z.b2z b)) = register_step c b.
Proof.
  unfold crc_bit, register_step. change 1 with (Z.ones 1) at 1. rewrite Z.land_ones by lia.
  change (2 ^ 1) with 2. rewrite Zmod_odd, <-(Z.bit0_odd (Z.lxor _ _)), Z.lxor_spec, Z.bit0_odd.
  replace (Z.testbit (Z.b2z b) 0) with b by by destruct b.
  rewrite Z.shiftr_lxor, (Z.shiftr_div_pow2 c) by lia. change (2 ^ 1) with 2.
  replace (Z.shiftr (Z.b2z b) 1) with 0 by by destruct b. rewrite Z.lxor_0_r.
  by destruct (xorb (Z.odd c) b); cbn [negb Z.eqb]; rewrite ?Z.lxor_0_r.
Qed.
Lemma crc_bits_register w c : crc_bits c w = fold_left register_step w c.
Proof. revert c. induction w as [|b w IH]; intros c; [done|]. simpl. by rewrite IH, crc_bit_register. Qed.

(** * Theorems *)

(** C32. The table-driven checksum is CRC-16/Modbus: it equals the bit-serial
    shift register of its definition, started at 0xFFFF and fed the bytes least
    significant bit first, and it is a 16-bit value. *)
Theorem crc16_reference data : bytes_ok data →
  crc16 data = fold_left register_step (bits data) 0xFFFF ∧ is_u16 (crc16 data).
Proof.
  intros Hd. rewrite <-crc_bits_register. split; [by apply crc_fold_bits|by apply crc16_u16].
Qed.
(** The check value of the catalogue, for the digits 1 to 9 in ASCII *)
Lemma crc16_reference_witness : crc16 [49; 50; 51; 52; 53; 54; 55; 56; 57] = 0x4B37.
Proof.
  transitivity (fold_left register_step (bits [49; 50; 51; 52; 53; 54; 55; 56; 57]) 0xFFFF).
  - apply crc16_reference. repeat constructor; lia.
  - vm_compute. reflexivity.
Defined.

(** A frame verifies exactly when it has at least three bytes and the
    checksum of all of it, trailer included, is zero; [verify_crc] returns on every
    input. *)
Theorem verify_crc_exact f : bytes_ok f →
  returns (verify_crc f) ∧ (verify_crc f = Ok true ↔ 3 ≤ blen f ∧ crc16 f = 0).
Proof. intros Hf. split; [apply verify_crc_returns|by apply verify_crc_residue]. Qed.
Lemma verify_crc_exact_witness : verify_crc [0x01; 0x04; 0x02; 0xFF; 0xFF; 0xB8; 0x80] = Ok true.
Proof.
  refine (proj2 (proj2 (verify_crc_exact [0x01; 0x04; 0x02; 0xFF; 0xFF; 0xB8; 0x80] _)) _).
  - repeat constructor; lia.
  - vm_compute. split; [discriminate|reflexivity].
Defined.

(** C33. Every error burst of at most 16 bits is detected: a frame that differs
    from a verifying one only inside a window of 16 consecutive bits, wherever it
    lies (trailer included), does not verify. *)
Theorem verify_crc_burst f f' p w w' s :
  bytes_ok f → bytes_ok f' → bits f = p ++ w ++ s → bits f' = p ++ w' ++ s →
  length w = length w' → (length w ≤ 16)%nat → f ≠ f' →
  verify_crc f = Ok true → verify_crc f' = Ok false.
Proof.
  intros Hf Hf' Hb Hb' Hlen H16 Hne Hv.
  pose proof (verify_crc_returns f') as Hr.
  destruct (verify_crc f') as [[]|[]| |] eqn:Hv'; try done. destruct Hne.
  apply verify_crc_residue in Hv as [_ Hv], Hv' as [_ Hv']; try done.
  unfold crc16 in *. rewrite crc_fold_bits in Hv, Hv' by (done || lia).
  apply bits_inj; [done..|]. rewrite Hb, Hb' in *. f_equal. f_equal.
  apply (burst_detected 0xFFFF p _ _ s); [lia|done..|congruence].
Qed.
Lemma verify_crc_burst_witness : verify_crc [0x01; 0x04; 0x03; 0xFE; 0xFF; 0xB8; 0x80] = Ok false.
Proof.
  apply (verify_crc_burst [0x01; 0x04; 0x02; 0xFF; 0xFF; 0xB8; 0x80] _
    (bits [0x01; 0x04]) (bits [0x02; 0xFF]) (bits [0x03; 0xFE]) (bits [0xFF; 0xB8; 0x80])).
  1-2: repeat constructor; lia.
  1-3: reflexivity.
  - vm_compute. lia.
  - discriminate.
  - vm_compute. reflexivity.
Defined.
