(* ===== verification/Stream.v ===== *)
(** * Frames and byte streams (crates/rusty-modbus-frame: src/error.rs, src/frame.rs)

    The frame type and the errors shared by the codecs, and the contract of a
    stream decoder. A transport appends what it receives to a buffer and calls
    [decode] until it returns [None]; [feed] is that loop. A decoder that meets
    [StreamDecoder] returns the frames that were sent however the stream is cut
    into pieces. *)
From S2P Require Import Prelude Types CodecError.

Module FrameError.
Inductive t : Type :=
  | InvalidProtocolId (proto : Z)
  | LengthOverflow (length : Z)
  | InvalidLength (declared minimum : Z)
  | LengthMismatch (declared actual : Z)
  | InvalidPduLength (length minimum : Z)
  | PduLengthOverflow (length maximum : Z)
  | CrcMismatch (expected actual : Z)
  | IndeterminateRtuOverTcpFrameLength (function_code : Z)
  | InvalidRtuOverTcpFrameLength (length maximum : Z)
  | Truncated
  | Io
  | Decode (e : DecodeError.t).
End FrameError.

Module FrameHeader.
Inductive t : Type := Mbap (h : MbapHeader.t) | Rtu (unit_id : Z).
End FrameHeader.

Module Frame.
Record t : Type := mk { header : FrameHeader.t; pdu : bytes }.

Definition unit_id (self : t) : Z :=
  match header self with
  | FrameHeader.Mbap h => MbapHeader.unit_id h
  | FrameHeader.Rtu unit_id => unit_id
  end.
End Frame.

(** [BytesMut::split_to]: removes and returns the first [n] bytes *)
Definition split_to {E} (n : Z) : ST bytes E bytes :=
  λ s, if (0 <=? n) && (n <=? blen s) then (Ok (take (Z.to_nat n) s), drop (Z.to_nat n) s)
       else (Panic, s).
(** [BufMut::put_slice] on a growable buffer *)
Definition put_slice {E} (l : bytes) : ST bytes E unit := λ s, (Ok tt, s ++ l).
Definition put_u8 {E} (b : Z) : ST bytes E unit := put_slice [b].
Definition put_u16_le {E} (x : Z) : ST bytes E unit := put_slice (to_le_bytes x).

Lemma split_to_app {E} n (p q : bytes) : n = blen p → split_to (E:=E) n (p ++ q) = (Ok p, q).
Proof.
  intros ->. unfold split_to. rewrite blen_app. pose proof (blen_nonneg p). pose proof (blen_nonneg q).
  replace (_ && _)%bool with true by lia. unfold blen.
  by rewrite Nat2Z.id, take_app_length, drop_app_length.
Qed.

(** ** The reading loop *)
Section Loop.
Context {E F : Type} (decode : ST bytes E (option F)).

(** Calls [decode] until it has no frame, an error or a panic to report. *)
Fixpoint drain (fuel : nat) (buf : bytes) : list F * res E unit * bytes :=
  match fuel with
  | O => ([], OutOfFuel, buf)
  | S fuel =>
      match decode buf with
      | (Ok (Some f), buf) => let '(fs, r, buf) := drain fuel buf in (f :: fs, r, buf)
      | (Ok None, buf) => ([], Ok tt, buf)
      | (Err e, buf) => ([], Err e, buf)
      | (Panic, buf) => ([], Panic, buf)
      | (OutOfFuel, buf) => ([], OutOfFuel, buf)
      end
  end.
(** One call to [drain] per piece received; an error ends the connection. *)
Fixpoint feed (buf : bytes) (pieces : list bytes) : list F * res E unit * bytes :=
  match pieces with
  | [] => ([], Ok tt, buf)
  | c :: pieces =>
      match drain (S (length (buf ++ c))) (buf ++ c) with
      | (fs, Ok _, buf) => let '(gs, r, buf) := feed buf pieces in (fs ++ gs, r, buf)
      | (fs, r, buf) => (fs, r, buf)
      end
  end.
End Loop.

(** The contract: [decode] splits the image of a frame off the front of the
    buffer whatever follows it, and waits, leaving the buffer alone, while it has
    only a proper prefix of one. *)
Class StreamDecoder {E F : Type} (decode : ST bytes E (option F)) (image : F → bytes)
    (frame_ok : F → Prop) : Prop := {
  stream_image_nonempty f : frame_ok f → image f ≠ [];
  stream_nil : decode [] = (Ok None, []);
  stream_frame f rest : frame_ok f → decode (image f ++ rest) = (Ok (Some f), rest);
  stream_prefix f p q : frame_ok f → image f = p ++ q → q ≠ [] → decode p = (Ok None, p);
}.

Section Stream.
Context {E F : Type} (decode : ST bytes E (option F)) (image : F → bytes) (frame_ok : F → Prop).
Context `{!StreamDecoder decode image frame_ok}.

Abbreviation images fs := (concat (map image fs)).

(** [partial fs p]: [p] is a proper prefix of the image of the first of [fs]. *)
Definition partial (fs : list F) (p : bytes) : Prop :=
  match fs with [] => p = [] | f :: _ => ∃ q, image f = p ++ q ∧ q ≠ [] end.

Lemma decode_partial fs p : Forall frame_ok fs → partial fs p → decode p = (Ok None, p).
Proof.
  destruct fs as [|f fs]; simpl; [intros _ ->; apply stream_nil|].
  intros [Hf _]%Forall_cons (q & Hq & Hne). by eapply stream_prefix.
Qed.
Lemma drain_images fuel fs gs p : Forall frame_ok fs → Forall frame_ok gs → partial gs p →
  (length (images fs ++ p) < fuel)%nat → drain decode fuel (images fs ++ p) = (fs, Ok tt, p).
Proof.
  intros Hfs Hgs Hp. revert fuel. induction Hfs as [|f fs Hf Hfs IH]; intros fuel Hfuel.
  - destruct fuel; [simpl in Hfuel; lia|]. simpl. by rewrite (decode_partial gs).
  - destruct fuel as [|fuel]; [lia|]. simpl in *. rewrite <-app_assoc in *.
    rewrite stream_frame by done. rewrite IH; [done|].
    assert (image f ≠ []) as Hne by by apply stream_image_nonempty.
    rewrite length_app in Hfuel. destruct (image f); [done|]. simpl in *. lia.
Qed.
(** Any prefix of a stream of images is some whole images and a partial one. *)
Lemma images_prefix fs p q : Forall frame_ok fs → images fs = p ++ q →
  ∃ fs1 fs2 r, fs = fs1 ++ fs2 ∧ p = images fs1 ++ r ∧ partial fs2 r ∧ images fs2 = r ++ q.
Proof.
  revert p. induction fs as [|f fs IH]; intros p Hok Heq; simpl in *.
  - symmetry in Heq. apply app_eq_nil in Heq as [-> ->]. by exists [], [], [].
  - apply Forall_cons in Hok as [Hf Hok].
    destruct (decide (length (image f) ≤ length p)%nat) as [Hle|Hlt].
    + assert (p = image f ++ drop (length (image f)) p) as Hp.
      { rewrite <-(take_drop (length (image f)) p) at 1. f_equal.
        apply (f_equal (take (length (image f)))) in Heq.
        by rewrite take_app_length, take_app_le in Heq by done. }
      rewrite Hp, <-app_assoc in Heq. apply app_inv_head in Heq.
      apply IH in Heq as (fs1 & fs2 & r & -> & Hd & ? & ?); [|done].
      exists (f :: fs1), fs2, r. split_and!; try done. simpl.
      by rewrite <-app_assoc, <-Hd.
    + exists [], (f :: fs), p. split_and!; try done.
      exists (drop (length p) (image f)). split.
      * rewrite <-(take_drop (length p) (image f)) at 1. f_equal.
        apply (f_equal (take (length p))) in Heq.
        by rewrite take_app_length, take_app_le in Heq by lia.
      * intros Hd%(f_equal length). rewrite length_drop in Hd. simpl in Hd. lia.
Qed.
Lemma feed_images pieces fs buf : Forall frame_ok fs → partial fs buf →
  images fs = buf ++ concat pieces → feed decode buf pieces = (fs, Ok tt, []).
Proof.
  revert fs buf. induction pieces as [|c pieces IH]; intros fs buf Hok Hp Heq;
    cbn [feed concat] in *.
  - rewrite app_nil_r in Heq. destruct fs as [|f fs]; [by simpl in Hp; subst|].
    destruct Hp as (q & Hq & Hne). simpl in Heq. rewrite Hq, <-app_assoc in Heq.
    destruct Hne. rewrite <-(app_nil_r buf) in Heq at 2. apply app_inv_head in Heq.
    by apply app_eq_nil in Heq as [-> _].
  - rewrite app_assoc in Heq.
    destruct (images_prefix fs (buf ++ c) (concat pieces)) as (fs1 & fs2 & r & -> & Hbc & Hr & H2);
      [done..|].
    apply Forall_app in Hok as [Hok1 Hok2].
    rewrite Hbc, (drain_images _ fs1 fs2 r) by (done || lia).
    by rewrite (IH fs2 r).
Qed.
End Stream.
