(* ===== verification/Mbap.v ===== *)
(** * Modbus/TCP framing (crates/rusty-modbus-frame/src/mbap.rs)

    The MBAP codec: decoding splits one ADU off the receive buffer, encoding
    appends one to the send buffer. *)
From S2P Require Import Prelude Types CodecError Stream.

Definition MAX_MBAP_LENGTH : Z := MAX_PDU_SIZE + 1.
Definition MIN_MBAP_LENGTH : Z := 2.

Module MbapCodec.
(** [src.reserve] changes the capacity only; it has no counterpart here. *)
Definition decode : ST bytes FrameError.t (option Frame.t) :=
  src <- st_get;;
  if blen src <? MBAP_HEADER_LEN then st_ret None else
  head <- st_lift (slice_to src MBAP_HEADER_LEN);;
  header <- st_lift (ok_or (MbapHeader.ref_from_bytes head) FrameError.Truncated);;
  let proto := MbapHeader.protocol_id header in
  if negb (proto =? MODBUS_PROTOCOL_ID) then st_err (FrameError.InvalidProtocolId proto) else
  let length := MbapHeader.length header in
  if length <? MIN_MBAP_LENGTH then st_err (FrameError.InvalidLength length MIN_MBAP_LENGTH) else
  if MAX_MBAP_LENGTH <? length then st_err (FrameError.LengthOverflow length) else
  let total := (MBAP_HEADER_LEN - 1) + length in
  if blen src <? total then st_ret None else
  adu <- split_to total;;
  pdu <- st_lift (slice_from adu MBAP_HEADER_LEN);;
  st_ret (Some (Frame.mk (FrameHeader.Mbap header) pdu)).
End MbapCodec.

Definition validate_outgoing_header (header : MbapHeader.t) (pdu_len : Z) : res FrameError.t unit :=
  let proto := MbapHeader.protocol_id header in
  if negb (proto =? MODBUS_PROTOCOL_ID) then Err (FrameError.InvalidProtocolId proto) else
  if MAX_PDU_SIZE <? pdu_len
  then Err (FrameError.LengthOverflow (if pdu_len <=? u16_max then pdu_len else u16_max)) else
  let? actual := (if pdu_len + 1 <=? u16_max then Ok (pdu_len + 1) else Panic) in
  if actual <? MIN_MBAP_LENGTH then Err (FrameError.InvalidLength actual MIN_MBAP_LENGTH) else
  let declared := MbapHeader.length header in
  if declared <? MIN_MBAP_LENGTH then Err (FrameError.InvalidLength declared MIN_MBAP_LENGTH) else
  if MAX_MBAP_LENGTH <? declared then Err (FrameError.LengthOverflow declared) else
  if negb (declared =? actual) then Err (FrameError.LengthMismatch declared actual) else
  Ok tt.

Module MbapEncoder.
(** [Encoder<Frame>] *)
Definition encode (frame : Frame.t) : ST bytes FrameError.t unit :=
  match Frame.header frame with
  | FrameHeader.Rtu _ => st_err (FrameError.InvalidProtocolId 0xFFFF)
  | FrameHeader.Mbap header =>
      st_lift (validate_outgoing_header header (blen (Frame.pdu frame)));;;
      put_slice (MbapHeader.as_bytes header);;;
      put_slice (Frame.pdu frame);;;
      st_ret tt
  end.

(** [Encoder<(MbapHeader, Bytes)>] *)
Definition encode_pair (item : MbapHeader.t * bytes) : ST bytes FrameError.t unit :=
  let '(header, pdu) := item in
  st_lift (validate_outgoing_header header (blen pdu));;;
  put_slice (MbapHeader.as_bytes header);;;
  put_slice pdu;;;
  st_ret tt.
End MbapEncoder.

(** ** The ADU of a header and a PDU *)
Definition mbap_frame (h : MbapHeader.t) (pdu : bytes) : Frame.t := Frame.mk (FrameHeader.Mbap h) pdu.
Definition mbap_image (f : Frame.t) : bytes :=
  match Frame.header f with
  | FrameHeader.Mbap h => MbapHeader.as_bytes h ++ Frame.pdu f
  | FrameHeader.Rtu _ => []
  end.
Definition mbap_ok (f : Frame.t) : Prop :=
  match Frame.header f with
  | FrameHeader.Mbap h =>
      MbapHeader.ok h ∧ MbapHeader.protocol_id h = 0
      ∧ MbapHeader.length h = 1 + blen (Frame.pdu f) ∧ 1 ≤ blen (Frame.pdu f) ≤ 253
  | FrameHeader.Rtu _ => False
  end.

(** The header decides everything before the body is looked at. *)
Lemma mbap_decode_header h rest : MbapHeader.ok h →
  MbapCodec.decode (MbapHeader.as_bytes h ++ rest) =
  (if negb (MbapHeader.protocol_id h =? 0)
   then (Err (FrameError.InvalidProtocolId (MbapHeader.protocol_id h)), MbapHeader.as_bytes h ++ rest)
   else if MbapHeader.length h <? 2
   then (Err (FrameError.InvalidLength (MbapHeader.length h) 2), MbapHeader.as_bytes h ++ rest)
   else if 254 <? MbapHeader.length h
   then (Err (FrameError.LengthOverflow (MbapHeader.length h)), MbapHeader.as_bytes h ++ rest)
   else if blen rest <? MbapHeader.length h - 1
   then (Ok None, MbapHeader.as_bytes h ++ rest)
   else (Ok (Some (mbap_frame h (take (Z.to_nat (MbapHeader.length h - 1)) rest))),
         drop (Z.to_nat (MbapHeader.length h - 1)) rest)).
Proof.
  intros Hh. unfold MbapCodec.decode, MBAP_HEADER_LEN, MODBUS_PROTOCOL_ID, MIN_MBAP_LENGTH,
    MAX_MBAP_LENGTH, MAX_PDU_SIZE.
  set (src := MbapHeader.as_bytes h ++ rest).
  assert (blen src = 7 + blen rest) as Hl by (unfold src; by rewrite blen_app).
  pose proof (blen_nonneg rest).
  unfold st_bind at 1, st_get. replace (blen src <? 7) with false by lia.
  rewrite st_bind_lift, slice_to_Ok by lia. assert (take (Z.to_nat 7) src = MbapHeader.as_bytes h) as -> by done.
  rewrite st_bind_lift, MbapHeader_ref_from_as_bytes by done. cbn [ok_or].
  change (253 + 1) with 254. change (7 - 1) with 6.
  repeat (case_match; [done|]). rewrite Hl. case_match.
  { by replace (blen rest <? _) with true by lia. }
  replace (blen rest <? _) with false by lia.
  set (n := MbapHeader.length h - 1) in *.
  assert (src = (MbapHeader.as_bytes h ++ take (Z.to_nat n) rest) ++ drop (Z.to_nat n) rest) as Hsrc
    by (by rewrite <-app_assoc, take_drop).
  rewrite Hsrc. erewrite st_bind_Ok by (apply split_to_app; rewrite blen_app, blen_take by lia;
    rewrite MbapHeader_as_bytes_length; lia).
  rewrite st_bind_lift, slice_from_Ok; [done|].
  rewrite blen_app, MbapHeader_as_bytes_length. pose proof (blen_nonneg (take (Z.to_nat n) rest)). lia.
Qed.
Lemma mbap_decode_short src : blen src < 7 → MbapCodec.decode src = (Ok None, src).
Proof.
  intros. unfold MbapCodec.decode, MBAP_HEADER_LEN. unfold st_bind at 1, st_get.
  by replace (blen src <? 7) with true by lia.
Qed.
(** Seven bytes are always a header. *)
Lemma seven_bytes_header src : bytes_ok src → 7 ≤ blen src →
  ∃ h rest, src = MbapHeader.as_bytes h ++ rest ∧ MbapHeader.ok h.
Proof.
  intros Hb Hl. cells src 7%nat; try (autorewrite with blen in Hl; lia).
  destruct (MbapHeader.ref_from_bytes [b; b0; b1; b2; b3; b4; b5]) as [h|] eqn:Hh; [|done].
  apply MbapHeader_ref_from_bytes_Some in Hh as [Hh ?].
  - exists h, src. by rewrite <-Hh.
  - rewrite !bytes_ok_cons in Hb. destruct_and!. bytes_ok_solve.
Qed.

#[export] Instance mbap_stream : StreamDecoder MbapCodec.decode mbap_image mbap_ok.
Proof.
  split.
  - intros [[h|u] p] Hf; [by destruct h|done].
  - by rewrite mbap_decode_short.
  - intros [[h|u] p] rest; [|done]. intros (Hh & Hp & Hl & Hn). unfold mbap_image. cbn [Frame.header Frame.pdu] in *.
    rewrite <-app_assoc, mbap_decode_header, Hp, Hl by done. cbn [Z.eqb negb].
    replace (_ <? 2) with false by lia. replace (254 <? _) with false by lia.
    replace (1 + blen p - 1) with (blen p) by lia. rewrite blen_app. pose proof (blen_nonneg rest).
    replace (_ <? _) with false by lia. unfold mbap_frame, blen.
    by rewrite Nat2Z.id, take_app_length, drop_app_length.
  - intros [[h|u] pdu] p q; [|done]. intros (Hh & Hp & Hl & Hn) Heq Hq.
    unfold mbap_image in Heq. cbn [Frame.header Frame.pdu] in *.
    destruct (Z_lt_le_dec (blen p) 7) as [Hs|Hge]; [by rewrite mbap_decode_short|].
    assert (p = MbapHeader.as_bytes h ++ drop 7 p) as Hpd.
    { rewrite <-(take_drop 7 p) at 1. f_equal.
      apply (f_equal (take 7)) in Heq. rewrite (take_app_le p) in Heq by (unfold blen in Hge; lia).
      by rewrite <-Heq. }
    assert (blen (MbapHeader.as_bytes h ++ pdu) = blen (p ++ q)) as Hlen by by rewrite Heq.
    rewrite !blen_app, MbapHeader_as_bytes_length in Hlen.
    assert (0 < blen q) by (destruct q; [done|]; rewrite blen_cons; pose proof (blen_nonneg q); lia).
    rewrite Hpd, mbap_decode_header, Hp, Hl by done. cbn [Z.eqb negb].
    replace (_ <? 2) with false by lia. replace (254 <? _) with false by lia.
    by replace (blen (drop 7 p) <? _) with true by (change 7%nat with (Z.to_nat 7); rewrite blen_drop by lia; lia).
Qed.

Lemma validate_outgoing_header_Ok h n : MbapHeader.ok h → 0 ≤ n →
  validate_outgoing_header h n = Ok tt ↔
  MbapHeader.protocol_id h = 0 ∧ MbapHeader.length h = 1 + n ∧ 1 ≤ n ≤ 253.
Proof.
  intros (_ & _ & Hl & _) Hn. unfold validate_outgoing_header, MODBUS_PROTOCOL_ID, MAX_PDU_SIZE, u16_max,
    MIN_MBAP_LENGTH, MAX_MBAP_LENGTH, MAX_PDU_SIZE.
  split.
  - repeat (case_match; simpl; try done); lia.
  - intros (-> & -> & ?). simpl. repeat (case_match; simpl; try lia); done.
Qed.
Lemma validate_outgoing_header_returns h n : returns (validate_outgoing_header h n).
Proof.
  unfold validate_outgoing_header, MAX_PDU_SIZE, u16_max.
  repeat (case_match; simpl; try done); lia.
Qed.
Lemma mbap_encode_frame h pdu dst : 
  MbapEncoder.encode (mbap_frame h pdu) dst
  = match validate_outgoing_header h (blen pdu) with
    | Ok _ => (Ok tt, dst ++ MbapHeader.as_bytes h ++ pdu)
    | Err e => (Err e, dst)
    | Panic => (Panic, dst)
    | OutOfFuel => (OutOfFuel, dst)
    end.
Proof.
  unfold MbapEncoder.encode; simpl. rewrite st_bind_lift. case_match; try done.
  unfold st_bind, put_slice, st_ret. by rewrite <-app_assoc.
Qed.

Lemma mbap_decode_spec src : bytes_ok src →
  match MbapCodec.decode src with
  | (Ok (Some f), rest) => mbap_ok f ∧ src = mbap_image f ++ rest
  | (Ok None, src') | (Err _, src') =>
      src' = src ∧ ∀ f rest, mbap_ok f → src ≠ mbap_image f ++ rest
  | _ => False
  end.
Proof.
  intros Hb.
  assert (∀ f rest, mbap_ok f → src = mbap_image f ++ rest →
          MbapCodec.decode src = (Ok (Some f), rest)) as Hf.
  { intros f rest Hf ->. by apply stream_frame. }
  destruct (Z_lt_le_dec (blen src) 7) as [Hs|Hl].
  { rewrite mbap_decode_short in * by done. split; [done|]. intros f rest Ho He.
    by specialize (Hf f rest Ho He). }
  destruct (seven_bytes_header src Hb Hl) as (h & rest & -> & Hh).
  rewrite mbap_decode_header in * by done. apply bytes_ok_app in Hb as [_ Hb].
  repeat (case_match; [split; [done|]; intros f r Ho He; by specialize (Hf f r Ho He)|]).
  assert (blen (take (Z.to_nat (MbapHeader.length h - 1)) rest) = MbapHeader.length h - 1) as Ht
    by (rewrite blen_take; lia).
  unfold mbap_ok, mbap_image; cbn [mbap_frame Frame.header Frame.pdu]. rewrite Ht.
  split; [split_and!; try lia; done|]. by rewrite <-app_assoc, take_drop.
Qed.

(** The header of a PDU is well formed. *)
Lemma wire_header txn u pdu : is_u16 txn → is_u8 u → 1 ≤ blen pdu ≤ 253 →
  let h := MbapHeader.mk txn MODBUS_PROTOCOL_ID (blen pdu + 1) u in MbapHeader.ok h ∧ mbap_ok (mbap_frame h pdu).
Proof.
  intros Ht Hu Hl h. assert (MbapHeader.ok h) as Hh by (unfold h; split_and!; cbn; unfold MODBUS_PROTOCOL_ID; lia).
  split; [done|]. split_and!; try done; cbn [mbap_frame Frame.pdu MbapHeader.length h]; lia.
Qed.

(** * Theorems *)

(** Modbus/TCP framing is insensitive to how the stream is cut: if the bytes
    received, in whatever pieces they arrive, are the ADUs of the frames [fs] one
    after the other, the reading loop returns exactly [fs], in order, reports no
    error and leaves no byte behind. *)
Theorem mbap_feed_pieces fs pieces :
  Forall mbap_ok fs → concat pieces = concat (map mbap_image fs) →
  feed MbapCodec.decode [] pieces = (fs, Ok tt, []).
Proof.
  intros Hok Heq. apply (feed_images _ mbap_image mbap_ok); [done| |done].
  destruct fs as [|f fs]; [done|]. exists (mbap_image f). split; [done|].
  apply stream_image_nonempty. by apply Forall_cons in Hok as [? _].
Qed.
Lemma mbap_feed_pieces_witness :
  feed MbapCodec.decode []
    [[0; 1; 0; 0]; [0; 6; 255; 3; 0; 0; 0; 2; 0; 2; 0]; [0; 0; 2; 1; 7]]
  = ([mbap_frame (MbapHeader.mk 1 0 6 255) [3; 0; 0; 0; 2];
      mbap_frame (MbapHeader.mk 2 0 2 1) [7]], Ok tt, []).
Proof.
  apply mbap_feed_pieces; [|reflexivity].
  repeat constructor; simpl; try lia; vm_compute; discriminate.
Defined.

(** What [MbapCodec::decode] does on every buffer: it returns a frame exactly
    when the buffer starts with the ADU of a well-formed frame, which it removes
    and nothing else; in every other case (waiting or error) the buffer is left as
    it was; it never panics. *)
Theorem mbap_decode_exact src : bytes_ok src →
  match MbapCodec.decode src with
  | (Ok (Some f), rest) => mbap_ok f ∧ src = mbap_image f ++ rest
  | (Ok None, src') | (Err _, src') =>
      src' = src ∧ ∀ f rest, mbap_ok f → src ≠ mbap_image f ++ rest
  | _ => False
  end.
Proof. apply mbap_decode_spec. Qed.
Lemma mbap_decode_exact_witness :
  mbap_ok (mbap_frame (MbapHeader.mk 1 0 2 9) [7])
  ∧ [0; 1; 0; 0; 0; 2; 9; 7; 5] = mbap_image (mbap_frame (MbapHeader.mk 1 0 2 9) [7]) ++ [5].
Proof.
  refine (mbap_decode_exact [0; 1; 0; 0; 0; 2; 9; 7; 5] _). repeat constructor; lia.
Defined.

(** Encoding is the inverse of decoding: the encoder accepts exactly the
    frames that have an ADU, appends that ADU to the send buffer and nothing else,
    and refuses every other frame with an error that leaves the buffer alone; what
    it appended decodes to the frame. *)
Theorem mbap_encode_roundtrip h pdu dst rest :
  MbapHeader.ok h → bytes_ok pdu →
  (mbap_ok (mbap_frame h pdu) →
     MbapEncoder.encode (mbap_frame h pdu) dst = (Ok tt, dst ++ mbap_image (mbap_frame h pdu)) ∧
     MbapEncoder.encode_pair (h, pdu) dst = MbapEncoder.encode (mbap_frame h pdu) dst ∧
     MbapCodec.decode (mbap_image (mbap_frame h pdu) ++ rest) = (Ok (Some (mbap_frame h pdu)), rest)) ∧
  (¬ mbap_ok (mbap_frame h pdu) → ∃ e, MbapEncoder.encode (mbap_frame h pdu) dst = (Err e, dst)).
Proof.
  intros Hh Hp. pose proof (blen_nonneg pdu). rewrite mbap_encode_frame. split.
  - intros Hok. pose proof Hok as (_ & H1 & H2 & H3). cbn [mbap_frame Frame.header Frame.pdu] in *.
    assert (validate_outgoing_header h (blen pdu) = Ok tt) as Hv
      by (apply validate_outgoing_header_Ok; [done..|lia]).
    rewrite Hv. split_and!; [done| |by apply stream_frame].
    unfold MbapEncoder.encode_pair. rewrite st_bind_lift, Hv. unfold st_bind, put_slice, st_ret.
    by rewrite <-app_assoc.
  - intros Hn. pose proof (validate_outgoing_header_returns h (blen pdu)) as Hr.
    destruct (validate_outgoing_header h (blen pdu)) as [[]|e| |] eqn:Hv; [|by eexists|done|done].
    apply validate_outgoing_header_Ok in Hv; [|done..]. destruct Hn. unfold mbap_ok; simpl. naive_solver.
Qed.
Lemma mbap_encode_roundtrip_witness :
  MbapCodec.decode [0; 1; 0; 0; 0; 2; 9; 7; 5] = (Ok (Some (mbap_frame (MbapHeader.mk 1 0 2 9) [7])), [5]).
Proof.
  refine (proj2 (proj2 (proj1 (mbap_encode_roundtrip (MbapHeader.mk 1 0 2 9) [7] [] [5] _ _) _))).
  - repeat split; simpl; lia.
  - repeat constructor; lia.
  - repeat split; simpl; try lia; vm_compute; discriminate.
Defined.
