(* ===== verification/Rtu.v ===== *)
(** * RTU framing (crates/rusty-modbus-frame/src/rtu.rs)

    The codec for serial lines: the transport delivers one complete frame, found
    by the silence around it, and the codec checks the checksum. The encoder is
    also the one RTU-over-TCP uses. *)
From S2P Require Import Prelude Types CodecError Crc Stream.

Definition MIN_RTU_FRAME : Z := 4.
Definition MIN_PDU_LENGTH : Z := 1.

Definition validate_outgoing_pdu (pdu_len : Z) : res FrameError.t unit :=
  if pdu_len <? MIN_PDU_LENGTH then Err (FrameError.InvalidPduLength pdu_len MIN_PDU_LENGTH) else
  if MAX_PDU_SIZE <? pdu_len then Err (FrameError.PduLengthOverflow pdu_len MAX_PDU_SIZE) else
  Ok tt.

Module RtuCodec.
Definition decode : ST bytes FrameError.t (option Frame.t) :=
  src <- st_get;;
  if blen src <? MIN_RTU_FRAME then st_ret None else
  if MAX_RTU_ADU_SIZE <? blen src then
    length <- st_lift (usub (blen src) 3);;
    st_err (FrameError.PduLengthOverflow length MAX_PDU_SIZE)
  else
  valid <- st_lift (infallible (verify_crc src));;
  if negb valid then
    data_end <- st_lift (usub (blen src) 2);;
    data <- st_lift (slice_to src data_end);;
    lo <- st_lift (idx src data_end);;
    hi <- st_lift (idx src (data_end + 1));;
    st_err (FrameError.CrcMismatch (crc16 data) (from_le_bytes lo hi))
  else
  unit_id <- st_lift (idx src 0);;
  adu <- split_to (blen src);;
  pdu_end <- st_lift (usub (blen adu) 2);;
  pdu <- st_lift (slice adu 1 pdu_end);;
  st_ret (Some (Frame.mk (FrameHeader.Rtu unit_id) pdu)).

Definition encode (item : Frame.t) : ST bytes FrameError.t unit :=
  let unit_id := match Frame.header item with
                 | FrameHeader.Rtu unit_id => unit_id
                 | FrameHeader.Mbap h => MbapHeader.unit_id h
                 end in
  st_lift (validate_outgoing_pdu (blen (Frame.pdu item)));;;
  put_u8 unit_id;;;
  put_slice (Frame.pdu item);;;
  dst <- st_get;;
  before <- st_lift (usub (blen dst) 1);;
  crc_start <- st_lift (usub before (blen (Frame.pdu item)));;
  tail <- st_lift (slice_from dst crc_start);;
  put_u16_le (crc16 tail).
End RtuCodec.

(** ** The ADU of a unit id and a PDU *)
Definition rtu_frame (u : Z) (pdu : bytes) : Frame.t := Frame.mk (FrameHeader.Rtu u) pdu.
Definition rtu_adu (u : Z) (pdu : bytes) : bytes := (u :: pdu) ++ to_le_bytes (crc16 (u :: pdu)).
Definition rtu_adu_ok (u : Z) (pdu : bytes) : Prop := is_u8 u ∧ bytes_ok pdu ∧ 1 ≤ blen pdu ≤ 253.

Lemma rtu_adu_length u pdu : blen (rtu_adu u pdu) = blen pdu + 3.
Proof. unfold rtu_adu. rewrite blen_app, blen_cons, blen_to_le_bytes. lia. Qed.
Lemma rtu_adu_ok_bytes u pdu : is_u8 u → bytes_ok pdu → bytes_ok (rtu_adu u pdu).
Proof.
  intros. unfold rtu_adu. apply bytes_ok_app; split; [by apply bytes_ok_cons|apply to_le_bytes_ok].
Qed.
(** A buffer that ends in the checksum of the rest is the ADU of its first byte
    and its middle. *)
Lemma rtu_adu_split src : bytes_ok src → 3 ≤ blen src →
  ∃ u pdu a b, src = (u :: pdu) ++ [a; b] ∧ is_u8 u ∧ bytes_ok pdu ∧ is_u8 a ∧ is_u8 b.
Proof.
  intros Hb Hl. destruct (last_two src) as (m & a & b & Hm & ->); [done|].
  destruct m as [|u pdu]; [done|]. exists u, pdu, a, b. split; [done|].
  apply bytes_ok_app in Hb as [[? ?]%bytes_ok_cons [? [? _]%bytes_ok_cons]%bytes_ok_cons]. done.
Qed.
Lemma crc_trailer_iff m a b : bytes_ok m → is_u8 a → is_u8 b →
  crc16 m = from_le_bytes a b ↔ [a; b] = to_le_bytes (crc16 m).
Proof.
  intros Hm Ha Hb. split; [intros ->; by rewrite to_from_le_bytes|].
  unfold to_le_bytes. intros [= -> ->]. symmetry. apply from_to_le_bytes. by apply crc16_u16.
Qed.

Lemma rtu_decode_cells u pdu a b : 1 ≤ blen pdu ≤ 253 →
  RtuCodec.decode ((u :: pdu) ++ [a; b]) =
  if crc16 (u :: pdu) =? from_le_bytes a b then (Ok (Some (rtu_frame u pdu)), [])
  else (Err (FrameError.CrcMismatch (crc16 (u :: pdu)) (from_le_bytes a b)), (u :: pdu) ++ [a; b]).
Proof.
  intros Hl. unfold RtuCodec.decode, MIN_RTU_FRAME, MAX_RTU_ADU_SIZE. set (src := (u :: pdu) ++ [a; b]).
  assert (blen src = blen pdu + 3) as Hs by (unfold src; rewrite blen_app, blen_cons; change (blen [a; b]) with 2; lia).
  unfold st_bind at 1, st_get. replace (_ <? 4) with false by lia. replace (256 <? _) with false by lia.
  rewrite st_bind_lift. unfold src at 1. rewrite verify_crc_app by done. cbn [infallible].
  assert (get src (blen pdu + 1) = Some a ∧ get src (blen pdu + 2) = Some b) as [Ha Hb].
  { unfold src. rewrite !get_app_r by (rewrite blen_cons; lia). rewrite blen_cons.
    replace (blen pdu + 1 - (1 + blen pdu)) with 0 by lia.
    by replace (blen pdu + 2 - (1 + blen pdu)) with 1 by lia. }
  assert (take (Z.to_nat (blen pdu + 1)) src = u :: pdu) as Ht.
  { unfold src. replace (Z.to_nat (blen pdu + 1)) with (length (u :: pdu)) by (unfold blen; simpl; lia).
    by rewrite take_app_length. }
  destruct (crc16 (u :: pdu) =? from_le_bytes a b); cbn [negb].
  - rewrite st_bind_lift. change (idx src 0) with (Ok (E:=FrameError.t) u). cbn iota.
    assert (split_to (E:=FrameError.t) (blen src) src = (Ok src, [])) as Hsp
      by (rewrite <-(app_nil_r src) at 2; by apply split_to_app).
    rewrite (st_bind_Ok _ _ _ _ _ Hsp).
    rewrite st_bind_lift, usub_Ok by lia. rewrite st_bind_lift, slice_Ok by lia. unfold st_ret, rtu_frame.
    replace (blen src - 2 - 1) with (blen pdu) by lia. unfold src. change (Z.to_nat 1) with 1%nat.
    cbn [app]. rewrite skipn_cons, drop_0. unfold blen. by rewrite Nat2Z.id, take_app_length.
  - rewrite st_bind_lift, usub_Ok by lia. replace (blen src - 2) with (blen pdu + 1) by lia.
    rewrite st_bind_lift, slice_to_Ok by lia. rewrite Ht. rewrite !st_bind_lift. unfold idx.
    rewrite Ha. cbn iota. rewrite st_bind_lift. replace (blen pdu + 1 + 1) with (blen pdu + 2) by lia.
    by rewrite Hb.
Qed.

(** The encoder appends the ADU to whatever the buffer already holds. *)
Lemma rtu_encode_adu f dst :
  RtuCodec.encode f dst =
  match validate_outgoing_pdu (blen (Frame.pdu f)) with
  | Ok _ => (Ok tt, dst ++ rtu_adu (Frame.unit_id f) (Frame.pdu f))
  | Err e => (Err e, dst)
  | Panic => (Panic, dst)
  | OutOfFuel => (OutOfFuel, dst)
  end.
Proof.
  unfold RtuCodec.encode, Frame.unit_id. destruct f as [h pdu]. cbn [Frame.header Frame.pdu].
  set (u := match h with FrameHeader.Mbap h => MbapHeader.unit_id h | FrameHeader.Rtu u => u end).
  replace (match h with FrameHeader.Mbap h => MbapHeader.unit_id h | FrameHeader.Rtu unit_id => unit_id end)
    with u by done.
  rewrite st_bind_lift. destruct (validate_outgoing_pdu (blen pdu)) eqn:Hv; try done.
  unfold put_u8, st_bind at 1, put_slice. unfold st_bind at 1. unfold st_bind at 1, st_get.
  pose proof (blen_nonneg dst). pose proof (blen_nonneg pdu).
  assert (blen ((dst ++ [u]) ++ pdu) = blen dst + 1 + blen pdu) as Hl
    by (rewrite !blen_app; change (blen [u]) with 1; lia).
  rewrite st_bind_lift, usub_Ok by lia. rewrite st_bind_lift, usub_Ok by lia.
  rewrite st_bind_lift, slice_from_Ok by lia. unfold put_u16_le, put_slice.
  replace (Z.to_nat (_ - _)) with (length dst) by (rewrite Hl; unfold blen; lia).
  rewrite <-(app_assoc dst), drop_app_length. unfold rtu_adu. by rewrite <-!app_assoc.
Qed.
Lemma validate_outgoing_pdu_Ok n : validate_outgoing_pdu n = Ok tt ↔ 1 ≤ n ≤ 253.
Proof.
  unfold validate_outgoing_pdu, MIN_PDU_LENGTH, MAX_PDU_SIZE.
  repeat case_match; split; try done; lia.
Qed.
Lemma validate_outgoing_pdu_returns n : returns (validate_outgoing_pdu n).
Proof. unfold validate_outgoing_pdu. by repeat case_match. Qed.

(** * Theorems *)

(** What [RtuCodec::decode] does on every buffer: it waits below four bytes,
    refuses more than 256, and in between returns the frame and empties the buffer
    exactly when the last two bytes are the checksum of the others; on every other
    outcome the buffer is left as it was, and it never panics. *)
Theorem rtu_decode_exact src : bytes_ok src →
  match RtuCodec.decode src with
  | (Ok (Some f), rest) => ∃ u pdu, f = rtu_frame u pdu ∧ rtu_adu_ok u pdu ∧ src = rtu_adu u pdu ∧ rest = []
  | (Ok None, src') => src' = src ∧ blen src < 4
  | (Err _, src') => src' = src ∧ (256 < blen src ∨ verify_crc src = Ok false)
  | _ => False
  end.
Proof.
  intros Hb. destruct (Z_lt_le_dec (blen src) 4) as [Hs|Hl].
  { unfold RtuCodec.decode, MIN_RTU_FRAME. unfold st_bind at 1, st_get. by replace (_ <? 4) with true by lia. }
  destruct (Z_lt_le_dec 256 (blen src)) as [Hbig|Hle].
  { unfold RtuCodec.decode, MIN_RTU_FRAME, MAX_RTU_ADU_SIZE. unfold st_bind at 1, st_get.
    replace (_ <? 4) with false by lia. replace (256 <? _) with true by lia.
    rewrite st_bind_lift, usub_Ok by lia. split; [done|by left]. }
  destruct (rtu_adu_split src Hb) as (u & pdu & a & b & -> & Hu & Hp & Ha & Hbb); [lia|].
  rewrite blen_app, blen_cons in Hl, Hle. change (blen [a; b]) with 2 in Hl, Hle.
  rewrite rtu_decode_cells by lia. destruct (crc16 (u :: pdu) =? from_le_bytes a b) eqn:Hc.
  - exists u, pdu. split; [done|]. split; [split_and!; done || lia|]. split; [|done].
    unfold rtu_adu. f_equal. apply crc_trailer_iff; [by apply bytes_ok_cons|done..|lia].
  - split; [done|right]. rewrite verify_crc_app by done. by rewrite Hc.
Qed.
Lemma rtu_decode_exact_witness :
  ∃ u pdu, rtu_frame 1 [0x04; 0x02; 0xFF; 0xFF] = rtu_frame u pdu ∧ rtu_adu_ok u pdu
    ∧ [0x01; 0x04; 0x02; 0xFF; 0xFF; 0xB8; 0x80] = rtu_adu u pdu ∧ @nil Z = [].
Proof.
  refine (rtu_decode_exact [0x01; 0x04; 0x02; 0xFF; 0xFF; 0xB8; 0x80] _). repeat constructor; lia.
Defined.

(** Encoding an RTU frame: a PDU of 1 to 253 bytes is appended as an ADU
    whose checksum covers this frame only, whatever the buffer already holds, and
    the ADU decodes to the frame; any other PDU is refused and the buffer left
    alone. *)
Theorem rtu_encode_roundtrip f dst : is_u8 (Frame.unit_id f) → bytes_ok (Frame.pdu f) →
  match RtuCodec.encode f dst with
  | (Ok _, dst') =>
      1 ≤ blen (Frame.pdu f) ≤ 253 ∧ dst' = dst ++ rtu_adu (Frame.unit_id f) (Frame.pdu f) ∧
      verify_crc (rtu_adu (Frame.unit_id f) (Frame.pdu f)) = Ok true ∧
      RtuCodec.decode (rtu_adu (Frame.unit_id f) (Frame.pdu f))
        = (Ok (Some (rtu_frame (Frame.unit_id f) (Frame.pdu f))), [])
  | (Err _, dst') => ¬ 1 ≤ blen (Frame.pdu f) ≤ 253 ∧ dst' = dst
  | _ => False
  end.
Proof.
  intros Hu Hp. rewrite rtu_encode_adu. pose proof (validate_outgoing_pdu_returns (blen (Frame.pdu f))) as Hr.
  destruct (validate_outgoing_pdu (blen (Frame.pdu f))) as [[]|e| |] eqn:Hv; try done.
  - apply validate_outgoing_pdu_Ok in Hv. set (u := Frame.unit_id f) in *. set (p := Frame.pdu f) in *.
    assert (bytes_ok (u :: p)) as Hup by by apply bytes_ok_cons.
    pose proof (crc16_u16 _ Hup).
    assert (from_le_bytes (crc16 (u :: p) mod 256) (crc16 (u :: p) / 256 mod 256) = crc16 (u :: p)) as Hc
      by by apply from_to_le_bytes.
    split_and!; try done; try lia; unfold rtu_adu, to_le_bytes.
    + rewrite verify_crc_app, Hc by done. by rewrite Z.eqb_refl.
    + rewrite rtu_decode_cells, Hc by done. by rewrite Z.eqb_refl.
  - split; [|done]. rewrite <-validate_outgoing_pdu_Ok. congruence.
Qed.
Lemma rtu_encode_roundtrip_witness :
  1 ≤ 4 ≤ 253 ∧ [7; 0x01; 0x04; 0x02; 0xFF; 0xFF; 0xB8; 0x80] = [7] ++ rtu_adu 1 [0x04; 0x02; 0xFF; 0xFF] ∧
  verify_crc (rtu_adu 1 [0x04; 0x02; 0xFF; 0xFF]) = Ok true ∧
  RtuCodec.decode (rtu_adu 1 [0x04; 0x02; 0xFF; 0xFF])
  = (Ok (Some (rtu_frame 1 [0x04; 0x02; 0xFF; 0xFF])), []).
Proof.
  refine (rtu_encode_roundtrip (rtu_frame 1 [0x04; 0x02; 0xFF; 0xFF]) [7] _ _).
  - vm_compute. split; [discriminate|reflexivity].
  - repeat constructor; lia.
Defined.
