(* ===== verification/RtuTcp.v ===== *)
(** * RTU frames in a TCP stream (crates/rusty-modbus-frame/src/rtu_tcp.rs)

    An RTU ADU has no length field, so a byte stream of them needs a boundary
    policy. The compatibility policy takes the first prefix whose checksum fits;
    the strict policy derives the length from the function code. *)
From S2P Require Import Prelude Types CodecError Crc Stream Rtu.
From S2P Require Import FileRecords Requests Responses MeiResponses Pdu.

Module RtuOverTcpFramingPolicy.
Inductive t : Type := CrcScanCompatibility | FunctionAwareStrict.
End RtuOverTcpFramingPolicy.
Module RtuOverTcpDirection.
Inductive t : Type := Request | Response.
End RtuOverTcpDirection.
Import RtuOverTcpDirection.

Definition indeterminate (function_code : Z) : FrameError.t :=
  FrameError.IndeterminateRtuOverTcpFrameLength function_code.

Definition validate_strict_pdu_length (length : Z) : res FrameError.t unit :=
  if MAX_PDU_SIZE <? length then Err (FrameError.InvalidRtuOverTcpFrameLength length MAX_PDU_SIZE)
  else Ok tt.

(** [slice.get(i..i + 2)], for the two bytes it is used for *)
Definition get2 (src : bytes) (i : Z) : option (Z * Z) :=
  match get src i, get src (i + 1) with Some a, Some b => Some (a, b) | _, _ => None end.

Definition split_frame (adu_len : Z) : ST bytes FrameError.t Frame.t :=
  src <- st_get;;
  unit_id <- st_lift (idx src 0);;
  adu <- split_to adu_len;;
  pdu_end <- st_lift (usub (blen adu) 2);;
  pdu <- st_lift (slice adu 1 pdu_end);;
  st_ret (Frame.mk (FrameHeader.Rtu unit_id) pdu).

(** [for candidate_len in MIN_RTU_FRAME..=max_len]: [n] candidates from
    [candidate_len] on, [crc] the checksum of the current candidate's data. *)
Fixpoint scan_candidates (max_len : Z) (n : nat) (candidate_len crc : Z)
    : ST bytes FrameError.t (option Frame.t) :=
  match n with
  | O => st_ret None
  | S n =>
      src <- st_get;;
      data_end <- st_lift (usub candidate_len 2);;
      lo <- st_lift (idx src data_end);;
      hi <- st_lift (idx src (data_end + 1));;
      if crc =? from_le_bytes lo hi then
        frame <- split_frame candidate_len;;
        st_ret (Some frame)
      else
      if candidate_len <? max_len then
        byte <- st_lift (idx src data_end);;
        scan_candidates max_len n (candidate_len + 1) (crc16_update crc byte)
      else scan_candidates max_len n (candidate_len + 1) crc
  end.

Definition decode_compatibility : ST bytes FrameError.t (option Frame.t) :=
  src <- st_get;;
  if blen src <? MIN_RTU_FRAME then st_ret None else
  let max_len := Z.min (blen src) MAX_RTU_ADU_SIZE in
  b0 <- st_lift (idx src 0);;
  b1 <- st_lift (idx src 1);;
  let crc := crc16_update (crc16_update 0xFFFF b0) b1 in
  found <- scan_candidates max_len (Z.to_nat (max_len - MIN_RTU_FRAME + 1)) MIN_RTU_FRAME crc;;
  match found with
  | Some frame => st_ret (Some frame)
  | None =>
      src <- st_get;;
      if MAX_RTU_ADU_SIZE <=? blen src then st_err FrameError.Truncated else st_ret None
  end.

(** ** The strict length grammar *)
Definition strict_supports_standard_base_function (function_code : Z) : bool :=
  match function_code with
  | 0x01 | 0x02 | 0x03 | 0x04 | 0x05 | 0x06 | 0x07 | 0x08 => true
  | 0x0B | 0x0C => true
  | 0x0F | 0x10 | 0x11 => true
  | 0x14 | 0x15 | 0x16 | 0x17 | 0x18 => true
  | 0x2B => true
  | _ => false
  end.

Definition pdu_length_from_u8_count (src : bytes) (base_pdu_len count_adu_index : Z)
    : res FrameError.t (option Z) :=
  match get src count_adu_index with
  | None => Ok None
  | Some count =>
      let length := base_pdu_len + count in
      do? validate_strict_pdu_length length in
      Ok (Some length)
  end.

Definition pdu_length_from_u16_count (src : bytes) (base_pdu_len count_adu_index : Z)
    : res FrameError.t (option Z) :=
  match get2 src count_adu_index with
  | None => Ok None
  | Some (b0, b1) =>
      let count := from_be_bytes b0 b1 in
      let length := base_pdu_len + count in
      do? validate_strict_pdu_length length in
      Ok (Some length)
  end.

Definition diagnostic_pdu_length (src : bytes) : res FrameError.t (option Z) :=
  match get2 src 2 with
  | None => Ok None
  | Some (b0, b1) =>
      let sub_function := from_be_bytes b0 b1 in
      if ((0x0001 <=? sub_function) && (sub_function <=? 0x0003))
         || ((0x000A <=? sub_function) && (sub_function <=? 0x0012))
         || (sub_function =? 0x0014)
      then Ok (Some 5)
      else Err (indeterminate 0x08)
  end.

Definition mei_request_pdu_length (src : bytes) : res FrameError.t (option Z) :=
  match get src 2 with
  | None => Ok None
  | Some mei_type => if mei_type =? 0x0E then Ok (Some 4) else Err (indeterminate 0x2B)
  end.

(** [for _ in 0..object_count]: the PDU length behind [n] more objects *)
Fixpoint mei_objects_length (src : bytes) (n : nat) (pdu_len : Z) : res FrameError.t (option Z) :=
  match n with
  | O => Ok (Some pdu_len)
  | S n =>
      let object_adu_index := 1 + pdu_len in
      match get2 src object_adu_index with
      | None => Ok None
      | Some (_, value_len) =>
          let pdu_len := pdu_len + (2 + value_len) in
          do? validate_strict_pdu_length pdu_len in
          mei_objects_length src n pdu_len
      end
  end.

Definition mei_response_pdu_length (src : bytes) : res FrameError.t (option Z) :=
  match get src 2 with
  | None => Ok None
  | Some mei_type =>
      if negb (mei_type =? 0x0E) then Err (indeterminate 0x2B) else
      match get src 7 with
      | None => Ok None
      | Some object_count =>
          let pdu_len := 7 in
          let minimum := pdu_len + object_count * 2 in
          do? validate_strict_pdu_length minimum in
          mei_objects_length src (Z.to_nat object_count) pdu_len
      end
  end.

Definition strict_pdu_length (src : bytes) (direction : RtuOverTcpDirection.t)
    : res FrameError.t (option Z) :=
  let? function_code := idx src 1 in
  if negb (Z.land function_code 0x80 =? 0) then
    match direction with
    | Response =>
        if strict_supports_standard_base_function (Z.land function_code 0x7F)
        then Ok (Some 2) else Err (indeterminate function_code)
    | Request => Err (indeterminate function_code)
    end
  else
  match function_code, direction with
  | (0x01 | 0x02 | 0x03 | 0x04), Request
  | (0x05 | 0x06), _
  | (0x0B | 0x0F | 0x10), Response => Ok (Some 5)
  | (0x01 | 0x02 | 0x03 | 0x04 | 0x0C | 0x11 | 0x17), Response
  | (0x14 | 0x15), _ => pdu_length_from_u8_count src 2 2
  | (0x07 | 0x0B | 0x0C | 0x11), Request => Ok (Some 1)
  | 0x07, Response => Ok (Some 2)
  | 0x08, _ => diagnostic_pdu_length src
  | (0x0F | 0x10), Request => pdu_length_from_u8_count src 6 6
  | 0x16, _ => Ok (Some 7)
  | 0x17, Request => pdu_length_from_u8_count src 10 10
  | 0x18, Request => Ok (Some 3)
  | 0x18, Response => pdu_length_from_u16_count src 3 2
  | 0x2B, Request => mei_request_pdu_length src
  | 0x2B, Response => mei_response_pdu_length src
  | _, _ => Err (indeterminate function_code)
  end.

Definition decode_strict (direction : RtuOverTcpDirection.t) : ST bytes FrameError.t (option Frame.t) :=
  src <- st_get;;
  if blen src <? 2 then st_ret None else
  pdu_len <- st_lift (strict_pdu_length src direction);;
  match pdu_len with
  | None =>
      if MAX_RTU_ADU_SIZE <=? blen src then st_err FrameError.Truncated else st_ret None
  | Some pdu_len =>
      st_lift (validate_strict_pdu_length pdu_len);;;
      let adu_len := pdu_len + 3 in
      if blen src <? adu_len then st_ret None else
      data_end <- st_lift (usub adu_len 2);;
      data <- st_lift (slice_to src data_end);;
      let expected := crc16 data in
      lo <- st_lift (idx src data_end);;
      hi <- st_lift (idx src (data_end + 1));;
      let actual := from_le_bytes lo hi in
      if negb (expected =? actual) then st_err (FrameError.CrcMismatch expected actual) else
      frame <- split_frame adu_len;;
      st_ret (Some frame)
  end.

Module ConfiguredRtuOverTcpCodec.
Record t : Type := mk { policy : RtuOverTcpFramingPolicy.t; direction : RtuOverTcpDirection.t }.

Definition decode (self : t) : ST bytes FrameError.t (option Frame.t) :=
  match policy self with
  | RtuOverTcpFramingPolicy.CrcScanCompatibility => decode_compatibility
  | RtuOverTcpFramingPolicy.FunctionAwareStrict => decode_strict (direction self)
  end.
End ConfiguredRtuOverTcpCodec.

Module RtuOverTcpCodec.
Definition with_policy := ConfiguredRtuOverTcpCodec.mk.
Definition decode : ST bytes FrameError.t (option Frame.t) := decode_compatibility.
End RtuOverTcpCodec.

(** [encode_frame]: the function body is the one of the RTU codec's encoder. *)
Definition encode_frame (item : Frame.t) : ST bytes FrameError.t unit :=
  let unit_id := match Frame.header item with
                 | FrameHeader.Rtu unit_id => unit_id
                 | FrameHeader.Mbap h => MbapHeader.unit_id h
                 end in
  st_lift (validate_outgoing_pdu (blen (Frame.pdu item)));;;
  put_u8 unit_id;;;
  put_slice (Frame.pdu item);;;
  dst <- st_get;;
  before <- st_lift (usub (blen dst) 1);;
  crc_start <- st_lift (usub before (blen (Frame.pdu item)));;
  tail <- st_lift (slice_from dst crc_start);;
  put_u16_le (crc16 tail).

(** ** Splitting a frame off the buffer *)
Lemma split_frame_app u pdu a b rest n : n = blen pdu + 3 →
  split_frame n (((u :: pdu) ++ [a; b]) ++ rest) = (Ok (rtu_frame u pdu), rest).
Proof.
  intros ->. set (adu := (u :: pdu) ++ [a; b]).
  assert (blen adu = blen pdu + 3) as Hl
    by (unfold adu; rewrite blen_app, blen_cons; change (blen [a; b]) with 2; lia).
  pose proof (blen_nonneg pdu).
  unfold split_frame. unfold st_bind at 1, st_get. rewrite st_bind_lift.
  change (idx (adu ++ rest) 0) with (Ok (E:=FrameError.t) u). cbn iota.
  rewrite (st_bind_Ok _ _ _ adu rest) by by apply split_to_app.
  rewrite st_bind_lift, usub_Ok by lia. rewrite st_bind_lift, slice_Ok by lia. unfold st_ret, rtu_frame.
  replace (blen adu - 2 - 1) with (blen pdu) by lia. unfold adu. change (Z.to_nat 1) with 1%nat.
  cbn [app]. rewrite skipn_cons, drop_0. unfold blen. by rewrite Nat2Z.id, take_app_length.
Qed.
(** A prefix of [n >= 4] bytes seen as a candidate ADU. *)
Lemma candidate_cells src n : bytes_ok src → 4 ≤ n ≤ blen src → ∃ u pdu a b,
  src = ((u :: pdu) ++ [a; b]) ++ drop (Z.to_nat n) src ∧ blen pdu = n - 3 ∧
  take (Z.to_nat n) src = (u :: pdu) ++ [a; b] ∧ take (Z.to_nat (n - 2)) src = u :: pdu ∧
  get src (n - 2) = Some a ∧ get src (n - 1) = Some b ∧
  is_u8 u ∧ bytes_ok pdu ∧ is_u8 a ∧ is_u8 b.
Proof.
  intros Hb Hn.
  assert (blen (take (Z.to_nat n) src) = n) as Ht by (rewrite blen_take; lia).
  destruct (rtu_adu_split (take (Z.to_nat n) src)) as (u & pdu & a & b & Heq & Hu & Hp & Ha & Hbb);
    [by apply bytes_ok_take|lia|].
  assert (blen pdu = n - 3) as Hl.
  { rewrite Heq, blen_app, blen_cons in Ht. change (blen [a; b]) with 2 in Ht. lia. }
  exists u, pdu, a, b. rewrite <-Heq. split_and!; try done; try lia.
  - by rewrite take_drop.
  - replace (take (Z.to_nat (n - 2)) src) with (take (Z.to_nat (n - 2)) (take (Z.to_nat n) src))
      by (rewrite take_take; f_equal; lia).
    rewrite Heq. replace (Z.to_nat (n - 2)) with (length (u :: pdu)) by (unfold blen in Hl; simpl; lia).
    by rewrite take_app_length.
  - rewrite <-(get_take src _ n) by lia. rewrite Heq, get_app_r by (rewrite blen_cons; lia).
    rewrite blen_cons. by replace (n - 2 - (1 + blen pdu)) with 0 by lia.
  - rewrite <-(get_take src _ n) by lia. rewrite Heq, get_app_r by (rewrite blen_cons; lia).
    rewrite blen_cons. by replace (n - 1 - (1 + blen pdu)) with 1 by lia.
Qed.

(** ** The compatibility scan *)
Definition crc_valid (src : bytes) (n : Z) : Prop := verify_crc (take (Z.to_nat n) src) = Ok true.
(** [n] is the length of the first candidate of [src], from [from] to [upto],
    whose checksum fits. *)
Definition first_valid (src : bytes) (from upto n : Z) : Prop :=
  from ≤ n ≤ upto ∧ crc_valid src n ∧ ∀ m, from ≤ m < n → ¬ crc_valid src m.

Lemma scan_candidates_S src max_len n c crc a b : 2 ≤ c →
  get src (c - 2) = Some a → get src (c - 1) = Some b →
  scan_candidates max_len (S n) c crc src =
  if crc =? from_le_bytes a b then (frame <- split_frame c;; st_ret (Some frame)) src
  else if c <? max_len then scan_candidates max_len n (c + 1) (crc16_update crc a) src
  else scan_candidates max_len n (c + 1) crc src.
Proof.
  intros Hc Ha Hb. cbn [scan_candidates]. unfold st_bind at 1, st_get.
  rewrite st_bind_lift, usub_Ok by lia. rewrite st_bind_lift. unfold idx at 1. rewrite Ha. cbn iota.
  rewrite st_bind_lift. unfold idx at 1. replace (c - 2 + 1) with (c - 1) by lia. rewrite Hb. cbn iota.
  case_match; [done|]. case_match; [|done]. rewrite st_bind_lift. unfold idx. by rewrite Ha.
Qed.
Lemma scan_candidates_spec src max_len n c : bytes_ok src → max_len ≤ blen src → max_len ≤ 256 →
  4 ≤ c → c + Z.of_nat n = max_len + 1 →
  (∃ k u pdu, first_valid src c max_len k ∧ src = rtu_adu u pdu ++ drop (Z.to_nat k) src
     ∧ rtu_adu_ok u pdu ∧ blen pdu = k - 3
     ∧ scan_candidates max_len n c (crc16 (take (Z.to_nat (c - 2)) src)) src
       = (Ok (Some (rtu_frame u pdu)), drop (Z.to_nat k) src))
  ∨ ((∀ m, c ≤ m ≤ max_len → ¬ crc_valid src m)
     ∧ scan_candidates max_len n c (crc16 (take (Z.to_nat (c - 2)) src)) src = (Ok None, src)).
Proof.
  intros Hb Hmax H256. revert c. induction n as [|n IH]; intros c Hc Hn.
  { right. split; [intros; lia|done]. }
  destruct (candidate_cells src c Hb) as (u & pdu & a & b & Hsrc & Hl & Ht & Hd & Ha & Hbb & Hu & Hp & Hoka & Hokb);
    [lia|].
  rewrite !(scan_candidates_S _ _ _ _ _ a b), Hd by (done || lia).
  assert (crc_valid src c ↔ (crc16 (u :: pdu) =? from_le_bytes a b) = true) as Hv.
  { unfold crc_valid. rewrite Ht, verify_crc_app by done. split; [by intros [= ->]|by intros ->]. }
  destruct (crc16 (u :: pdu) =? from_le_bytes a b) eqn:Hcrc.
  - left. exists c, u, pdu.
    assert ([a; b] = to_le_bytes (crc16 (u :: pdu))) as Htr
      by (apply crc_trailer_iff; [by apply bytes_ok_cons|done..|lia]).
    unfold rtu_adu. rewrite <-Htr.
    split; [split_and!; [lia..|by apply Hv|intros; lia]|]. split; [done|].
    split; [split_and!; done || lia|]. split; [lia|]. rewrite Hsrc at 1. rewrite (st_bind_Ok _ _ _ (rtu_frame u pdu) (drop (Z.to_nat c) src));
      [done|]. apply split_frame_app. lia.
  - assert (¬ crc_valid src c) as Hnv by (rewrite Hv; done). clear Hv.
    destruct (c <? max_len) eqn:Hlt.
    + assert (crc16_update (crc16 (u :: pdu)) a = crc16 (take (Z.to_nat (c + 1 - 2)) src)) as ->.
      { rewrite <-Hd. replace (Z.to_nat (c + 1 - 2)) with (S (Z.to_nat (c - 2))) by lia.
        unfold get in Ha. replace (0 <=? c - 2) with true in Ha by lia.
        rewrite (take_S_r src _ a) by exact Ha. unfold crc16. by rewrite fold_left_app. }
      destruct (IH (c + 1)) as [(k & u' & pdu' & (Hk & Hkv & Hkf) & Hrest)|[Hnone Hr]]; [lia..| |].
      * left. exists k, u', pdu'. split; [|exact Hrest]. split; [lia|]. split; [done|].
        intros m Hm. destruct (decide (m = c)) as [->|]; [done|]. apply Hkf. lia.
      * right. split; [|exact Hr]. intros m Hm. destruct (decide (m = c)) as [->|]; [done|]. apply Hnone. lia.
    + assert (n = 0%nat) as -> by lia. right. split; [|done].
      intros m Hm. by replace m with c by lia.
Qed.

Lemma decode_compatibility_scan src : 4 ≤ blen src →
  decode_compatibility src =
  (found <- scan_candidates (Z.min (blen src) 256) (Z.to_nat (Z.min (blen src) 256 - 4 + 1)) 4
              (crc16 (take (Z.to_nat (4 - 2)) src));;
   match found with
   | Some frame => st_ret (Some frame)
   | None => src <- st_get;; if 256 <=? blen src then st_err FrameError.Truncated else st_ret None
   end) src.
Proof.
  intros Hl. unfold decode_compatibility, MIN_RTU_FRAME, MAX_RTU_ADU_SIZE.
  unfold st_bind at 1, st_get at 1. replace (blen src <? 4) with false by lia.
  by destruct src as [|b0 [|b1 src]].
Qed.
Lemma decode_compatibility_spec src : bytes_ok src →
  (∃ k u pdu, first_valid src 4 (Z.min (blen src) 256) k ∧ src = rtu_adu u pdu ++ drop (Z.to_nat k) src
     ∧ rtu_adu_ok u pdu ∧ blen pdu = k - 3
     ∧ decode_compatibility src = (Ok (Some (rtu_frame u pdu)), drop (Z.to_nat k) src))
  ∨ ((∀ m, 4 ≤ m ≤ Z.min (blen src) 256 → ¬ crc_valid src m)
     ∧ decode_compatibility src
       = (if 256 <=? blen src then Err FrameError.Truncated else Ok None, src)).
Proof.
  intros Hb. destruct (Z_lt_le_dec (blen src) 4) as [H4|H4].
  { right. split; [lia|]. unfold decode_compatibility, MIN_RTU_FRAME.
    unfold st_bind at 1, st_get at 1. replace (blen src <? 4) with true by lia.
    by replace (256 <=? blen src) with false by lia. }
  rewrite !decode_compatibility_scan by done.
  destruct (scan_candidates_spec src (Z.min (blen src) 256) (Z.to_nat (Z.min (blen src) 256 - 4 + 1)) 4)
    as [(k & u & pdu & Hk & Hs & Ho & Hl & Hr)|[Hn Hr]]; [done|lia..| |].
  - left. exists k, u, pdu. split_and!; try done. by rewrite (st_bind_Ok _ _ _ _ _ Hr).
  - right. split; [done|]. rewrite (st_bind_Ok _ _ _ _ _ Hr). unfold st_bind, st_get. by destruct (256 <=? blen src).
Qed.

(** ** The strict grammar reads a length once and for all *)
Lemma get_stable {A} (l ext : list A) i a : get l i = Some a → get (l ++ ext) i = Some a.
Proof. intros H. rewrite get_app_l; [done|]. apply get_Some_lt in H. lia. Qed.
Lemma get2_stable l ext i p : get2 l i = Some p → get2 (l ++ ext) i = Some p.
Proof.
  unfold get2. destruct (get l i) eqn:H1; [|done]. destruct (get l (i + 1)) eqn:H2; [|done].
  intros [= <-]. by rewrite (get_stable _ _ _ _ H1), (get_stable _ _ _ _ H2).
Qed.

Section Stable.
Implicit Types (l ext : bytes) (r : res FrameError.t (option Z)).
Lemma u8_count_stable l ext b i : pdu_length_from_u8_count l b i ≠ Ok None →
  pdu_length_from_u8_count (l ++ ext) b i = pdu_length_from_u8_count l b i.
Proof.
  unfold pdu_length_from_u8_count. destruct (get l i) eqn:H; [|done]. by rewrite (get_stable _ _ _ _ H).
Qed.
Lemma u16_count_stable l ext b i : pdu_length_from_u16_count l b i ≠ Ok None →
  pdu_length_from_u16_count (l ++ ext) b i = pdu_length_from_u16_count l b i.
Proof.
  unfold pdu_length_from_u16_count. destruct (get2 l i) eqn:H; [|done]. by rewrite (get2_stable _ _ _ _ H).
Qed.
Lemma diagnostic_stable l ext : diagnostic_pdu_length l ≠ Ok None →
  diagnostic_pdu_length (l ++ ext) = diagnostic_pdu_length l.
Proof.
  unfold diagnostic_pdu_length. destruct (get2 l 2) eqn:H; [|done]. by rewrite (get2_stable _ _ _ _ H).
Qed.
Lemma mei_request_stable l ext : mei_request_pdu_length l ≠ Ok None →
  mei_request_pdu_length (l ++ ext) = mei_request_pdu_length l.
Proof.
  unfold mei_request_pdu_length. destruct (get l 2) eqn:H; [|done]. by rewrite (get_stable _ _ _ _ H).
Qed.
Lemma mei_objects_stable l ext n k : mei_objects_length l n k ≠ Ok None →
  mei_objects_length (l ++ ext) n k = mei_objects_length l n k.
Proof.
  revert k. induction n as [|n IH]; intros k; [done|]. cbn [mei_objects_length].
  destruct (get2 l (1 + k)) as [[a v]|] eqn:H; [|done]. rewrite (get2_stable _ _ _ _ H).
  destruct (validate_strict_pdu_length _); cbn [rbind]; [|done..]. apply IH.
Qed.
Lemma mei_response_stable l ext : mei_response_pdu_length l ≠ Ok None →
  mei_response_pdu_length (l ++ ext) = mei_response_pdu_length l.
Proof.
  unfold mei_response_pdu_length. destruct (get l 2) eqn:H; [|done]. rewrite (get_stable _ _ _ _ H).
  case_match; [done|]. destruct (get l 7) eqn:H7; [|done]. rewrite (get_stable _ _ _ _ H7).
  destruct (validate_strict_pdu_length _); cbn [rbind]; [|done..]. apply mei_objects_stable.
Qed.
Lemma strict_stable l ext d : 2 ≤ blen l → strict_pdu_length l d ≠ Ok None →
  strict_pdu_length (l ++ ext) d = strict_pdu_length l d.
Proof.
  intros Hl. destruct (idx_lt (E:=FrameError.t) l 1) as (fc & H1 & Hg); [lia|].
  unfold strict_pdu_length. rewrite H1. unfold idx at 1. rewrite (get_stable _ _ _ _ Hg). cbn [rbind].
  repeat (case_match; try done); intros;
    first [ by apply u8_count_stable | by apply u16_count_stable | by apply diagnostic_stable
          | by apply mei_request_stable | by apply mei_response_stable ].
Qed.
End Stable.

(** ** Strict streams *)
Definition rtu_image (f : Frame.t) : bytes :=
  match Frame.header f with
  | FrameHeader.Rtu u => rtu_adu u (Frame.pdu f)
  | FrameHeader.Mbap _ => []
  end.
(** The frames whose length the grammar derives from the PDU itself. *)
Definition strict_ok (d : RtuOverTcpDirection.t) (f : Frame.t) : Prop :=
  match Frame.header f with
  | FrameHeader.Rtu u =>
      rtu_adu_ok u (Frame.pdu f)
      ∧ strict_pdu_length (u :: Frame.pdu f) d = Ok (Some (blen (Frame.pdu f)))
  | FrameHeader.Mbap _ => False
  end.

Lemma strict_length_adu u pdu ext d : 1 ≤ blen pdu →
  strict_pdu_length (u :: pdu) d = Ok (Some (blen pdu)) →
  strict_pdu_length ((u :: pdu) ++ ext) d = Ok (Some (blen pdu)).
Proof.
  intros Hl Hs. rewrite strict_stable, Hs; [done|rewrite blen_cons; lia|congruence].
Qed.
Lemma validate_strict_ok n : n ≤ 253 → validate_strict_pdu_length n = Ok tt.
Proof. intros. unfold validate_strict_pdu_length, MAX_PDU_SIZE. by replace (253 <? n) with false by lia. Qed.

Lemma decode_strict_adu d u pdu rest : rtu_adu_ok u pdu →
  strict_pdu_length (u :: pdu) d = Ok (Some (blen pdu)) →
  decode_strict d (rtu_adu u pdu ++ rest) = (Ok (Some (rtu_frame u pdu)), rest).
Proof.
  intros (Hu & Hp & Hl) Hs. unfold decode_strict. set (src := rtu_adu u pdu ++ rest).
  assert (bytes_ok (u :: pdu)) as Hup by by apply bytes_ok_cons.
  assert (blen src = blen pdu + 3 + blen rest) as Hlen by (unfold src; by rewrite blen_app, rtu_adu_length).
  pose proof (blen_nonneg rest).
  unfold st_bind at 1, st_get. replace (blen src <? 2) with false by lia.
  assert (strict_pdu_length src d = Ok (Some (blen pdu))) as ->.
  { unfold src, rtu_adu. rewrite <-app_assoc. apply strict_length_adu; [lia|done]. }
  rewrite st_bind_lift, st_bind_lift, validate_strict_ok by lia.
  replace (blen src <? blen pdu + 3) with false by lia. rewrite st_bind_lift, usub_Ok by lia.
  rewrite st_bind_lift, slice_to_Ok by lia. replace (blen pdu + 3 - 2) with (1 + blen pdu) by lia.
  assert (take (Z.to_nat (1 + blen pdu)) src = u :: pdu) as ->.
  { unfold src, rtu_adu. rewrite <-app_assoc.
    replace (Z.to_nat (1 + blen pdu)) with (length (u :: pdu)) by (unfold blen; simpl; lia).
    by rewrite take_app_length. }
  assert (idx (E:=FrameError.t) src (1 + blen pdu) = Ok (crc16 (u :: pdu) mod 256) ∧
          idx (E:=FrameError.t) src (1 + blen pdu + 1) = Ok (crc16 (u :: pdu) / 256 mod 256)) as [H1 H2].
  { unfold src, rtu_adu, idx. rewrite <-app_assoc.
    rewrite (get_app_r (u :: pdu) _ (1 + blen pdu)), (get_app_r (u :: pdu) _ (1 + blen pdu + 1))
      by (rewrite blen_cons; lia).
    rewrite blen_cons. replace (1 + blen pdu - (1 + blen pdu)) with 0 by lia.
    replace (1 + blen pdu + 1 - (1 + blen pdu)) with 1 by lia. split; reflexivity. }
  rewrite st_bind_lift, H1, st_bind_lift, H2. rewrite from_to_le_bytes by by apply crc16_u16.
  rewrite Z.eqb_refl. cbn [negb]. unfold src, rtu_adu, to_le_bytes.
  rewrite (st_bind_Ok _ _ _ (rtu_frame u pdu) rest); [done|]. by apply split_frame_app.
Qed.
Lemma decode_strict_prefix d u pdu p q : rtu_adu_ok u pdu →
  strict_pdu_length (u :: pdu) d = Ok (Some (blen pdu)) →
  rtu_adu u pdu = p ++ q → q ≠ [] → decode_strict d p = (Ok None, p).
Proof.
  intros (Hu & Hp & Hl) Hs Heq Hq.
  assert (blen p < blen pdu + 3) as Hlt.
  { rewrite <-(rtu_adu_length u), Heq, blen_app. destruct q; [done|].
    rewrite blen_cons. pose proof (blen_nonneg q). lia. }
  unfold decode_strict. unfold st_bind at 1, st_get at 1.
  destruct (blen p <? 2) eqn:H2; [done|]. rewrite st_bind_lift.
  assert (strict_pdu_length p d = Ok None ∨ strict_pdu_length p d = Ok (Some (blen pdu))) as [Hn|Hsome].
  { destruct (strict_pdu_length p d) as [[n|]|e| |] eqn:Hr; [right|by left|exfalso..].
    all: assert (strict_pdu_length (p ++ q) d = strict_pdu_length p d) as Hst
      by (apply strict_stable; [lia|congruence]).
    all: rewrite <-Heq in Hst; unfold rtu_adu in Hst;
      rewrite (strict_length_adu _ _ _ _ (proj1 Hl) Hs) in Hst; congruence. }
  - rewrite Hn. unfold MAX_RTU_ADU_SIZE. by replace (256 <=? blen p) with false by lia.
  - rewrite Hsome, st_bind_lift, validate_strict_ok by lia.
    by replace (blen p <? blen pdu + 3) with true by lia.
Qed.

#[export] Instance strict_stream d : StreamDecoder (decode_strict d) rtu_image (strict_ok d).
Proof.
  split.
  - by intros [[h|u] pdu].
  - done.
  - intros [[h|u] pdu] rest; [done|]. intros [Hok Hs]. by apply decode_strict_adu.
  - intros [[h|u] pdu] p q; [done|]. intros [Hok Hs]. by apply decode_strict_prefix.
Qed.

(** ** The grammar agrees with the PDU codec *)

(** Sub-functions with exactly one data word. *)
Definition one_word (s : DiagnosticSubFunction.t) : bool :=
  match s with
  | DiagnosticSubFunction.ReturnQueryData | DiagnosticSubFunction.ForceListenOnlyMode => false
  | _ => true
  end.
(** The typed PDUs the strict grammar supports. *)
Definition strict_request_form (r : RequestPdu.t) : Prop :=
  match r with
  | RequestPdu.Diagnostics x =>
      one_word (DiagnosticsRequest.sub_function x) = true ∧ blen (DiagnosticsRequest.data x) = 2
  | RequestPdu.EncapsulatedInterface x =>
      EncapsulatedInterfaceRequest.mei_type x = MeiType.ReadDeviceIdentification
  | RequestPdu.Custom _ _ => False
  | _ => True
  end.
Definition strict_response_form (r : ResponsePdu.t) : Prop :=
  match r with
  | ResponsePdu.Diagnostics x =>
      one_word (DiagnosticsResponse.sub_function x) = true ∧ blen (DiagnosticsResponse.data x) = 2
  | ResponsePdu.EncapsulatedInterface x =>
      EncapsulatedInterfaceResponse.mei_type x = MeiType.ReadDeviceIdentification
  | ResponsePdu.Custom _ _ => False
  | ResponsePdu.Exception x =>
      strict_supports_standard_base_function
        (FunctionCode.code (ExceptionResponse.function_code x)) = true
  | _ => True
  end.

Lemma u8_count_ok src b i c : get src i = Some c → b + c ≤ 253 →
  pdu_length_from_u8_count src b i = Ok (Some (b + c)).
Proof. intros Hg Hl. unfold pdu_length_from_u8_count. by rewrite Hg, validate_strict_ok. Qed.
Lemma diagnostic_length_ok s u rest : one_word s = true →
  diagnostic_pdu_length (u :: 8 :: to_be_bytes (DiagnosticSubFunction.code s) ++ rest) = Ok (Some 5).
Proof. by destruct s. Qed.
Lemma mei_objects_wire pre xs k : blen pre = 1 + k → k + blen (device_objects_wire xs) ≤ 253 →
  mei_objects_length (pre ++ device_objects_wire xs) (length xs) k
  = Ok (Some (k + blen (device_objects_wire xs))).
Proof.
  revert pre k. induction xs as [|[id v] xs IH]; intros pre k Hpre Hle.
  - simpl. do 2 f_equal. change (blen (device_objects_wire [])) with 0. lia.
  - change (device_objects_wire (_ :: xs)) with ((id :: blen v :: v) ++ device_objects_wire xs) in *.
    pose proof (blen_nonneg v). pose proof (blen_nonneg (device_objects_wire xs)).
    rewrite !blen_app, !blen_cons in *. cbn [length mei_objects_length].
    assert (get2 (pre ++ (id :: blen v :: v) ++ device_objects_wire xs) (1 + k) = Some (id, blen v)) as ->.
    { unfold get2. rewrite (get_app_r pre _ (1 + k)), (get_app_r pre _ (1 + k + 1)) by lia.
      replace (1 + k - blen pre) with 0 by lia. by replace (1 + k + 1 - blen pre) with 1 by lia. }
    rewrite validate_strict_ok by lia. cbn [rbind].
    specialize (IH (pre ++ id :: blen v :: v) (k + (2 + blen v))).
    rewrite <-app_assoc in IH. rewrite IH; [do 2 f_equal; lia| |lia].
    rewrite blen_app, !blen_cons. lia.
Qed.
Lemma mei_response_length_ok u r : ReadDeviceIdentificationResponse_wf r →
  ReadDeviceIdentificationResponse_valid r →
  1 + blen (ReadDeviceIdentificationResponse_wire r) ≤ 253 →
  mei_response_pdu_length (u :: 0x2B :: ReadDeviceIdentificationResponse_wire r)
  = Ok (Some (1 + blen (ReadDeviceIdentificationResponse_wire r))).
Proof.
  intros [Hnx Hn] (_ & _ & _ & xs & Hwf & Hod & Hnum) Hle. destruct r as [c l m nx n od]. simpl in *. subst.
  unfold ReadDeviceIdentificationResponse_wire in *; simpl in *. rewrite !blen_cons in *.
  unfold mei_response_pdu_length. set (src := u :: _).
  assert (get src 2 = Some 14) as -> by done. assert (get src 7 = Some (blen xs)) as -> by done.
  cbn [Z.eqb Pos.eqb negb].
  assert (2 * blen xs ≤ blen (device_objects_wire xs)) as Hmin.
  { clear. induction xs as [|[id v] xs IH]; [done|].
    change (device_objects_wire (_ :: xs)) with ((id :: blen v :: v) ++ device_objects_wire xs).
    rewrite blen_app, !blen_cons. pose proof (blen_nonneg v). lia. }
  rewrite validate_strict_ok by lia. cbn [rbind].
  replace (Z.to_nat (blen xs)) with (length xs) by (unfold blen; lia).
  etrans; [apply (mei_objects_wire
    (u :: 43 :: 14 :: DeviceIdCode.code c :: l :: (if m then 255 else 0) :: nx :: [blen xs]) xs 7); [done|lia]|].
  do 2 f_equal. lia.
Qed.

Lemma request_wire_nonempty r : 1 ≤ blen (request_wire r).
Proof. destruct r; rewrite blen_cons || idtac; try done; simpl; autounfold with codec; dec_arith. Qed.
Lemma response_wire_nonempty r : 1 ≤ blen (response_wire r).
Proof. destruct r; simpl; autounfold with codec; dec_arith. Qed.
Lemma strict_length_unfold u fc data d : 0 ≤ fc < 128 →
  strict_pdu_length (u :: fc :: data) d =
  match fc, d with
  | (0x01 | 0x02 | 0x03 | 0x04), Request
  | (0x05 | 0x06), _
  | (0x0B | 0x0F | 0x10), Response => Ok (Some 5)
  | (0x01 | 0x02 | 0x03 | 0x04 | 0x0C | 0x11 | 0x17), Response
  | (0x14 | 0x15), _ => pdu_length_from_u8_count (u :: fc :: data) 2 2
  | (0x07 | 0x0B | 0x0C | 0x11), Request => Ok (Some 1)
  | 0x07, Response => Ok (Some 2)
  | 0x08, _ => diagnostic_pdu_length (u :: fc :: data)
  | (0x0F | 0x10), Request => pdu_length_from_u8_count (u :: fc :: data) 6 6
  | 0x16, _ => Ok (Some 7)
  | 0x17, Request => pdu_length_from_u8_count (u :: fc :: data) 10 10
  | 0x18, Request => Ok (Some 3)
  | 0x18, Response => pdu_length_from_u16_count (u :: fc :: data) 3 2
  | 0x2B, Request => mei_request_pdu_length (u :: fc :: data)
  | 0x2B, Response => mei_response_pdu_length (u :: fc :: data)
  | _, _ => Err (indeterminate fc)
  end.
Proof.
  intros Hfc. unfold strict_pdu_length. change (idx _ 1) with (Ok (E:=FrameError.t) fc). cbn [rbind].
  rewrite exception_flag_clear by lia. by replace (fc <? 128) with true by lia.
Qed.

(** Lengths that follow from the fixed part or the byte count of the message. *)
Ltac strict_fixed :=
  rewrite strict_length_unfold by lia; cbv beta iota;
  first [ done
        | match goal with
          | |- pdu_length_from_u8_count _ _ _ = _ =>
              erewrite u8_count_ok; [|reflexivity|]; [do 2 f_equal|]
          end; dec_arith ].

Lemma strict_request_length u r : request_ok r → strict_request_form r →
  blen (request_wire r) ≤ 253 →
  strict_pdu_length (u :: request_wire r) Request = Ok (Some (blen (request_wire r))).
Proof.
  intros Hr Hf Hl. destruct r; cbn [request_ok request_wire strict_request_form] in *; try done;
    destruct Hr as [Hwf Hd]; codec_open x.
  all: try (unfold to_be_bytes; cbn [app]; strict_fixed).
  - rewrite strict_length_unfold by lia. etrans; [by apply diagnostic_length_ok|].
    do 2 f_equal. dec_arith.
  - subst. destruct Hd as (c & o & ->). done.
Qed.
Lemma strict_response_length u r : response_ok r → strict_response_form r →
  blen (response_wire r) ≤ 253 →
  strict_pdu_length (u :: response_wire r) Response = Ok (Some (blen (response_wire r))).
Proof.
  intros Hr Hf Hl. destruct r; cbn [response_ok response_wire strict_response_form] in *; try done;
    destruct Hr as [Hwf Hd]; codec_open x.
  all: try (unfold to_be_bytes; cbn [app]; strict_fixed).
  - rewrite strict_length_unfold by lia. etrans; [by apply diagnostic_length_ok|].
    do 2 f_equal. dec_arith.
  - rewrite strict_length_unfold by lia. unfold pdu_length_from_u16_count.
    change (get2 _ 2) with (Some (byte_count / 256 mod 256, byte_count mod 256)).
    cbn iota beta. rewrite from_to_be_bytes, validate_strict_ok by dec_arith. cbn [rbind].
    do 2 f_equal. dec_arith.
  - subst. destruct Hd as (r & Hwr & Hvr & Heq). change (MeiType.code _) with 14 in *. rewrite Heq in *.
    rewrite strict_length_unfold by lia. rewrite mei_response_length_ok; rewrite ?blen_cons in *; done.
  - destruct Hd as (_ & _ & Hfc). simpl in Hfc. unfold strict_pdu_length.
    change (idx _ 1) with (Ok (E:=FrameError.t) (FunctionCode.exception_code function_code)). cbn [rbind].
    unfold FunctionCode.exception_code. rewrite exception_flag_set by lia.
    replace (_ <? 128) with true by lia. rewrite exception_flag_clear, exception_flag_strip by lia.
    replace (_ + 128 <? 128) with false by lia. cbn [negb].
    rewrite Z.add_simpl_r. by rewrite Hf.
Qed.

(** * Theorems *)

(** The compatibility policy cuts at the first candidate length from 4 to
    256 whose checksum fits: it returns that frame and removes exactly its ADU;
    with no such length it waits while fewer than 256 bytes are buffered and fails
    from there on, leaving the buffer alone; it never panics. *)
Theorem compatibility_exact src : bytes_ok src →
  match RtuOverTcpCodec.decode src with
  | (Ok (Some f), rest) =>
      ∃ n u pdu, first_valid src 4 (Z.min (blen src) 256) n ∧ f = rtu_frame u pdu
        ∧ rtu_adu_ok u pdu ∧ src = rtu_adu u pdu ++ rest ∧ blen pdu = n - 3
  | (Ok None, src') =>
      src' = src ∧ blen src < 256 ∧ ∀ n, 4 ≤ n ≤ blen src → ¬ crc_valid src n
  | (Err e, src') =>
      src' = src ∧ e = FrameError.Truncated ∧ 256 ≤ blen src
      ∧ ∀ n, 4 ≤ n ≤ 256 → ¬ crc_valid src n
  | _ => False
  end.
Proof.
  intros Hb. unfold RtuOverTcpCodec.decode.
  destruct (decode_compatibility_spec src Hb) as [(k & u & pdu & Hk & Hs & Ho & Hl & ->)|[Hn ->]].
  - exists k, u, pdu. done.
  - destruct (256 <=? blen src) eqn:Hle; split_and!; try done; try lia; intros n Hn'; apply Hn; lia.
Qed.
Lemma compatibility_exact_witness :
  ∃ n u pdu, first_valid [0x01; 0x04; 0x02; 0xFF; 0xFF; 0xB8; 0x80; 9] 4 8 n
    ∧ rtu_frame 1 [0x04; 0x02; 0xFF; 0xFF] = rtu_frame u pdu ∧ rtu_adu_ok u pdu
    ∧ [0x01; 0x04; 0x02; 0xFF; 0xFF; 0xB8; 0x80; 9] = rtu_adu u pdu ++ [9] ∧ blen pdu = n - 3.
Proof.
  refine (compatibility_exact [0x01; 0x04; 0x02; 0xFF; 0xFF; 0xB8; 0x80; 9] _). repeat constructor; lia.
Defined.

(** C29. The strict length grammar agrees with the PDU codec: for every request
    and response the codec accepts in a form the grammar supports, the length it
    derives from the bytes of the PDU is the length of the PDU. *)
Theorem strict_length_agrees u pdu : bytes_ok pdu →
  (∀ r, decode_request pdu = Ok r → strict_request_form r →
     strict_pdu_length (u :: pdu) Request = Ok (Some (blen pdu))) ∧
  (∀ r, decode_response pdu = Ok r → strict_response_form r →
     strict_pdu_length (u :: pdu) Response = Ok (Some (blen pdu))).
Proof.
  intros Hb. split; intros r Hd Hf.
  - apply decode_request_sound in Hd as (Hr & -> & Hl); [|done]. by apply strict_request_length.
  - apply decode_response_sound in Hd as (Hr & -> & Hl); [|done]. by apply strict_response_length.
Qed.
Lemma strict_length_agrees_witness :
  strict_pdu_length [1; 0x17; 0; 3; 0; 6; 0; 0x0E; 0; 1; 2; 0xAB; 0xCD] Request = Ok (Some 12).
Proof.
  refine (proj1 (strict_length_agrees 1 [0x17; 0; 3; 0; 6; 0; 0x0E; 0; 1; 2; 0xAB; 0xCD] _) _ eq_refl I).
  repeat constructor; lia.
Defined.

(** A strict RTU-over-TCP stream is insensitive to how it is cut: if the
    bytes received are the ADUs of PDUs the codec accepts, in forms the grammar
    supports, the reading loop returns exactly those frames, in order, whatever the
    pieces, and leaves no byte behind. *)
Theorem strict_feed_pieces (d : RtuOverTcpDirection.t) (us : list (Z * bytes)) pieces :
  Forall (λ '(u, pdu), is_u8 u ∧ bytes_ok pdu ∧
    match d with
    | Request => ∃ r, decode_request pdu = Ok r ∧ strict_request_form r
    | Response => ∃ r, decode_response pdu = Ok r ∧ strict_response_form r
    end) us →
  concat pieces = concat (map (λ '(u, pdu), rtu_adu u pdu) us) →
  feed (ConfiguredRtuOverTcpCodec.decode
          (RtuOverTcpCodec.with_policy RtuOverTcpFramingPolicy.FunctionAwareStrict d)) [] pieces
  = (map (λ '(u, pdu), rtu_frame u pdu) us, Ok tt, []).
Proof.
  intros Hok Heq. unfold ConfiguredRtuOverTcpCodec.decode; simpl.
  set (fs := map (λ '(u, pdu), rtu_frame u pdu) us).
  assert (Forall (strict_ok d) fs) as Hfs.
  { unfold fs. apply Forall_map. eapply Forall_impl; [exact Hok|]. intros [u pdu] (Hu & Hp & Hd).
    simpl. destruct d; destruct Hd as (r & Hr & Hf).
    - apply decode_request_sound in Hr as (Hr & -> & Hl); [|done]. unfold strict_ok; simpl.
      split; [|by apply strict_request_length]. split_and!; try done; try lia. apply request_wire_nonempty.
    - apply decode_response_sound in Hr as (Hr & -> & Hl); [|done]. unfold strict_ok; simpl.
      split; [|by apply strict_response_length]. split_and!; try done; try lia. apply response_wire_nonempty. }
  assert (concat pieces = concat (map rtu_image fs)) as Heq'.
  { rewrite Heq. unfold fs. rewrite map_map. f_equal. apply map_ext. by intros [u pdu]. }
  apply (feed_images _ rtu_image (strict_ok d)); [done| |done].
  destruct fs as [|f fs]; [done|]. exists (rtu_image f). split; [done|].
  eapply stream_image_nonempty. by apply Forall_cons in Hfs as [? _].
Qed.
Lemma strict_feed_pieces_witness :
  feed (ConfiguredRtuOverTcpCodec.decode
          (RtuOverTcpCodec.with_policy RtuOverTcpFramingPolicy.FunctionAwareStrict Response)) []
    [[0x01; 0x04; 0x02]; [0xFF; 0xFF; 0xB8; 0x80; 0x01; 0x04; 0x02; 0xFF; 0xFF; 0xB8]; [0x80]]
  = ([rtu_frame 1 [0x04; 0x02; 0xFF; 0xFF]; rtu_frame 1 [0x04; 0x02; 0xFF; 0xFF]], Ok tt, []).
Proof.
  apply (strict_feed_pieces Response [(1, [0x04; 0x02; 0xFF; 0xFF]); (1, [0x04; 0x02; 0xFF; 0xFF])]).
  - constructor; [|constructor; [|constructor]].
    all: split; [lia|]; split; [repeat constructor; lia|]; eexists; split; [reflexivity|exact I].
  - vm_compute. reflexivity.
Defined.
