(* ===== verification/Owned.v ===== *)
(** * Owned responses (crates/rusty-modbus-frame/src/owned.rs)

    The responses a client hands out: the variable-length ones hold a slice of the
    received PDU instead of borrowing it. A [Bytes] value is the byte string it
    refers to; [Bytes::slice] panics when its range is out of bounds. Theorem: on
    PDUs of legal size [OwnedResponsePdu::from_pdu] and the codec's
    [decode_response] are the same function, errors included, except that a
    function code of 0 is accepted as a vendor-specific one. *)
From S2P Require Import Prelude Types CodecError FileRecords Requests Responses MeiResponses Pdu Stream.
Import DecodeError.

Definition pdu_data (pdu : bytes) : res DecodeError.t bytes :=
  if is_empty pdu then Err (Truncated 1 0) else slice_from pdu 1.


Module OwnedReadCoilsResponse.
Record t : Type := mk { byte_count : Z; coil_status : bytes }.
Definition from_pdu (pdu : bytes) : res DecodeError.t t :=
  let? data := pdu_data pdu in
  if is_empty data then Err (Truncated 1 0) else
  let? byte_count := idx data 0 in
  let? payload := slice_from data 1 in
  if negb (blen payload =? byte_count) then Err (ByteCountMismatch byte_count (blen payload)) else
  let? coil_status := slice pdu 2 (2 + byte_count) in
  Ok (mk byte_count coil_status).
(** The bit at [index]; panics when its byte is not there. *)
Definition coil (self : t) (index : Z) : res DecodeError.t bool :=
  let byte_idx := index / 8 in
  let bit_idx := index mod 8 in
  let? b := idx (coil_status self) byte_idx in
  Ok (Z.land (Z.shiftr b bit_idx) 1 =? 1).
End OwnedReadCoilsResponse.

Module OwnedReadDiscreteInputsResponse.
Record t : Type := mk { byte_count : Z; input_status : bytes }.
Definition from_pdu (pdu : bytes) : res DecodeError.t t :=
  let? data := pdu_data pdu in
  if is_empty data then Err (Truncated 1 0) else
  let? byte_count := idx data 0 in
  let? payload := slice_from data 1 in
  if negb (blen payload =? byte_count) then Err (ByteCountMismatch byte_count (blen payload)) else
  let? input_status := slice pdu 2 (2 + byte_count) in
  Ok (mk byte_count input_status).
(** The bit at [index]; panics when its byte is not there. *)
Definition coil (self : t) (index : Z) : res DecodeError.t bool :=
  let byte_idx := index / 8 in
  let bit_idx := index mod 8 in
  let? b := idx (input_status self) byte_idx in
  Ok (Z.land (Z.shiftr b bit_idx) 1 =? 1).
End OwnedReadDiscreteInputsResponse.

Module OwnedReadHoldingRegistersResponse.
Record t : Type := mk { byte_count : Z; register_data : bytes }.
Definition from_pdu (pdu : bytes) : res DecodeError.t t :=
  let? data := pdu_data pdu in
  let? decoded := ReadHoldingRegistersResponse.decode data in
  let? register_data := slice pdu 2 (2 + blen (ReadHoldingRegistersResponse.register_data decoded)) in
  Ok (mk (ReadHoldingRegistersResponse.byte_count decoded) register_data).
Definition count (self : t) : Z := blen (register_data self) / 2.
Definition register (self : t) (index : Z) : res DecodeError.t Z :=
  let off := index * 2 in
  be16_at (register_data self) off (off + 1).
Definition registers (self : t) : list Z :=
  map (λ c, from_be_bytes (at_ c 0) (at_ c 1)) (chunks_exact 2 (register_data self)).
Definition raw (self : t) : bytes := register_data self.
End OwnedReadHoldingRegistersResponse.

Module OwnedReadInputRegistersResponse.
Record t : Type := mk { byte_count : Z; register_data : bytes }.
Definition from_pdu (pdu : bytes) : res DecodeError.t t :=
  let? data := pdu_data pdu in
  let? decoded := ReadInputRegistersResponse.decode data in
  let? register_data := slice pdu 2 (2 + blen (ReadInputRegistersResponse.register_data decoded)) in
  Ok (mk (ReadInputRegistersResponse.byte_count decoded) register_data).
Definition count (self : t) : Z := blen (register_data self) / 2.
Definition register (self : t) (index : Z) : res DecodeError.t Z :=
  let off := index * 2 in
  be16_at (register_data self) off (off + 1).
Definition registers (self : t) : list Z :=
  map (λ c, from_be_bytes (at_ c 0) (at_ c 1)) (chunks_exact 2 (register_data self)).
Definition raw (self : t) : bytes := register_data self.
End OwnedReadInputRegistersResponse.

Module OwnedReadWriteMultipleRegistersResponse.
Record t : Type := mk { byte_count : Z; register_data : bytes }.
Definition from_pdu (pdu : bytes) : res DecodeError.t t :=
  let? data := pdu_data pdu in
  let? decoded := ReadWriteMultipleRegistersResponse.decode data in
  let? register_data := slice pdu 2 (2 + blen (ReadWriteMultipleRegistersResponse.register_data decoded)) in
  Ok (mk (ReadWriteMultipleRegistersResponse.byte_count decoded) register_data).
Definition count (self : t) : Z := blen (register_data self) / 2.
Definition register (self : t) (index : Z) : res DecodeError.t Z :=
  let off := index * 2 in
  be16_at (register_data self) off (off + 1).
Definition registers (self : t) : list Z :=
  map (λ c, from_be_bytes (at_ c 0) (at_ c 1)) (chunks_exact 2 (register_data self)).
Definition raw (self : t) : bytes := register_data self.
End OwnedReadWriteMultipleRegistersResponse.

Module OwnedReadFifoQueueResponse.
Record t : Type := mk { byte_count : Z; fifo_count : Z; fifo_values : bytes }.
Definition from_pdu (pdu : bytes) : res DecodeError.t t :=
  let? data := pdu_data pdu in
  let? decoded := ReadFifoQueueResponse.decode data in
  let? fifo_values := slice pdu 5 (5 + blen (ReadFifoQueueResponse.fifo_values decoded)) in
  Ok (mk (ReadFifoQueueResponse.byte_count decoded) (ReadFifoQueueResponse.fifo_count decoded) fifo_values).
End OwnedReadFifoQueueResponse.

Module OwnedReadFileRecordResponse.
Record t : Type := mk { byte_count : Z; data : bytes }.
Definition from_pdu (pdu : bytes) : res DecodeError.t t :=
  let? data := pdu_data pdu in
  let? decoded := ReadFileRecordResponse.decode data in
  let? owned_data := slice pdu 2 (2 + blen (ReadFileRecordResponse.data decoded)) in
  Ok (mk (ReadFileRecordResponse.byte_count decoded) owned_data).
End OwnedReadFileRecordResponse.

Module OwnedWriteFileRecordResponse.
Record t : Type := mk { byte_count : Z; data : bytes }.
Definition from_pdu (pdu : bytes) : res DecodeError.t t :=
  let? data := pdu_data pdu in
  let? decoded := WriteFileRecordResponse.decode data in
  let? owned_data := slice pdu 2 (2 + blen (WriteFileRecordResponse.data decoded)) in
  Ok (mk (WriteFileRecordResponse.byte_count decoded) owned_data).
End OwnedWriteFileRecordResponse.

Module OwnedDiagnosticsResponse.
Record t : Type := mk { sub_function : DiagnosticSubFunction.t; data : bytes }.
Definition from_pdu (pdu : bytes) : res DecodeError.t t :=
  let? data := pdu_data pdu in
  if blen data <? 2 then Err (Truncated 2 (blen data)) else
  let? raw_sub := be16_at data 0 1 in
  let? sub_function := ok_or (DiagnosticSubFunction.from_raw raw_sub)
                             (UnknownDiagnosticSubFunction raw_sub) in
  let? payload := slice_from data 2 in
  if negb (is_multiple_of (blen payload) 2) then Err (InvalidDiagnosticDataLength (blen payload)) else
  let? owned_data := slice_from pdu 3 in
  Ok (mk sub_function owned_data).
End OwnedDiagnosticsResponse.

Module OwnedGetCommEventLogResponse.
Record t : Type := mk {
  byte_count : Z;
  status : Z;
  event_count : Z;
  message_count : Z;
  events : bytes;
}.
Definition from_pdu (pdu : bytes) : res DecodeError.t t :=
  let? data := pdu_data pdu in
  let? decoded := GetCommEventLogResponse.decode data in
  let? events := slice pdu 8 (8 + blen (GetCommEventLogResponse.events decoded)) in
  Ok (mk (GetCommEventLogResponse.byte_count decoded) (GetCommEventLogResponse.status decoded)
        (GetCommEventLogResponse.event_count decoded) (GetCommEventLogResponse.message_count decoded)
        events).
End OwnedGetCommEventLogResponse.

Module OwnedReportServerIdResponse.
Record t : Type := mk { byte_count : Z; data : bytes }.
Definition from_pdu (pdu : bytes) : res DecodeError.t t :=
  let? data := pdu_data pdu in
  if is_empty data then Err (Truncated 1 0) else
  let? byte_count := idx data 0 in
  let? payload := slice_from data 1 in
  if negb (blen payload =? byte_count) then Err (ByteCountMismatch byte_count (blen payload)) else
  let? owned_data := slice pdu 2 (2 + byte_count) in
  Ok (mk byte_count owned_data).
End OwnedReportServerIdResponse.

Module OwnedEncapsulatedInterfaceResponse.
Record t : Type := mk { mei_type : MeiType.t; data : bytes }.
Definition from_pdu (pdu : bytes) : res DecodeError.t t :=
  let? data := pdu_data pdu in
  let? decoded := EncapsulatedInterfaceResponse.decode data in
  let? owned_data := slice_from pdu 2 in
  Ok (mk (EncapsulatedInterfaceResponse.mei_type decoded) owned_data).
End OwnedEncapsulatedInterfaceResponse.

Module OwnedResponsePdu.
Inductive t : Type :=
  | ReadCoils (x : OwnedReadCoilsResponse.t)
  | ReadDiscreteInputs (x : OwnedReadDiscreteInputsResponse.t)
  | ReadHoldingRegisters (x : OwnedReadHoldingRegistersResponse.t)
  | ReadInputRegisters (x : OwnedReadInputRegistersResponse.t)
  | WriteSingleCoil (x : WriteSingleCoilResponse.t)
  | WriteSingleRegister (x : WriteSingleRegisterResponse.t)
  | ReadExceptionStatus (x : ReadExceptionStatusResponse.t)
  | Diagnostics (x : OwnedDiagnosticsResponse.t)
  | GetCommEventCounter (x : GetCommEventCounterResponse.t)
  | GetCommEventLog (x : OwnedGetCommEventLogResponse.t)
  | WriteMultipleCoils (x : WriteMultipleCoilsResponse.t)
  | WriteMultipleRegisters (x : WriteMultipleRegistersResponse.t)
  | ReportServerId (x : OwnedReportServerIdResponse.t)
  | ReadFileRecord (x : OwnedReadFileRecordResponse.t)
  | WriteFileRecord (x : OwnedWriteFileRecordResponse.t)
  | MaskWriteRegister (x : MaskWriteRegisterResponse.t)
  | ReadWriteMultipleRegisters (x : OwnedReadWriteMultipleRegistersResponse.t)
  | ReadFifoQueue (x : OwnedReadFifoQueueResponse.t)
  | EncapsulatedInterface (x : OwnedEncapsulatedInterfaceResponse.t)
  | Custom (fc : Z) (data : bytes)
  | Exception (x : ExceptionResponse.t).

Definition from_pdu (pdu : bytes) : res DecodeError.t t :=
  if is_empty pdu then Err (Truncated 1 0) else
  let? fc_byte := idx pdu 0 in
  if FunctionCode.is_exception_response fc_byte then
    let? data := slice_from pdu 1 in
    let? resp := ExceptionResponse.decode fc_byte data in
    Ok (Exception resp)
  else
  let fc := default (FunctionCode.Custom fc_byte) (FunctionCode.from_raw fc_byte) in
  let? data := slice_from pdu 1 in
  match fc with
  | FunctionCode.ReadCoils => rmap ReadCoils (OwnedReadCoilsResponse.from_pdu pdu)
  | FunctionCode.ReadDiscreteInputs => rmap ReadDiscreteInputs (OwnedReadDiscreteInputsResponse.from_pdu pdu)
  | FunctionCode.ReadHoldingRegisters => rmap ReadHoldingRegisters (OwnedReadHoldingRegistersResponse.from_pdu pdu)
  | FunctionCode.ReadInputRegisters => rmap ReadInputRegisters (OwnedReadInputRegistersResponse.from_pdu pdu)
  | FunctionCode.WriteSingleCoil => rmap WriteSingleCoil (WriteSingleCoilResponse.decode data)
  | FunctionCode.WriteSingleRegister => rmap WriteSingleRegister (WriteSingleRegisterResponse.decode data)
  | FunctionCode.ReadExceptionStatus => rmap ReadExceptionStatus (ReadExceptionStatusResponse.decode data)
  | FunctionCode.Diagnostics => rmap Diagnostics (OwnedDiagnosticsResponse.from_pdu pdu)
  | FunctionCode.GetCommEventCounter => rmap GetCommEventCounter (GetCommEventCounterResponse.decode data)
  | FunctionCode.GetCommEventLog => rmap GetCommEventLog (OwnedGetCommEventLogResponse.from_pdu pdu)
  | FunctionCode.WriteMultipleCoils => rmap WriteMultipleCoils (WriteMultipleCoilsResponse.decode data)
  | FunctionCode.WriteMultipleRegisters => rmap WriteMultipleRegisters (WriteMultipleRegistersResponse.decode data)
  | FunctionCode.ReportServerId => rmap ReportServerId (OwnedReportServerIdResponse.from_pdu pdu)
  | FunctionCode.ReadFileRecord => rmap ReadFileRecord (OwnedReadFileRecordResponse.from_pdu pdu)
  | FunctionCode.WriteFileRecord => rmap WriteFileRecord (OwnedWriteFileRecordResponse.from_pdu pdu)
  | FunctionCode.MaskWriteRegister => rmap MaskWriteRegister (MaskWriteRegisterResponse.decode data)
  | FunctionCode.ReadWriteMultipleRegisters => rmap ReadWriteMultipleRegisters (OwnedReadWriteMultipleRegistersResponse.from_pdu pdu)
  | FunctionCode.ReadFifoQueue => rmap ReadFifoQueue (OwnedReadFifoQueueResponse.from_pdu pdu)
  | FunctionCode.EncapsulatedInterfaceTransport => rmap EncapsulatedInterface (OwnedEncapsulatedInterfaceResponse.from_pdu pdu)
  | FunctionCode.Custom fc => let? data := slice_from pdu 1 in Ok (Custom fc data)
  end.

Definition function_code (self : t) : Z :=
  match self with
  | ReadCoils _ => FunctionCode.code FunctionCode.ReadCoils
  | ReadDiscreteInputs _ => FunctionCode.code FunctionCode.ReadDiscreteInputs
  | ReadHoldingRegisters _ => FunctionCode.code FunctionCode.ReadHoldingRegisters
  | ReadInputRegisters _ => FunctionCode.code FunctionCode.ReadInputRegisters
  | WriteSingleCoil _ => FunctionCode.code FunctionCode.WriteSingleCoil
  | WriteSingleRegister _ => FunctionCode.code FunctionCode.WriteSingleRegister
  | ReadExceptionStatus _ => FunctionCode.code FunctionCode.ReadExceptionStatus
  | Diagnostics _ => FunctionCode.code FunctionCode.Diagnostics
  | GetCommEventCounter _ => FunctionCode.code FunctionCode.GetCommEventCounter
  | GetCommEventLog _ => FunctionCode.code FunctionCode.GetCommEventLog
  | WriteMultipleCoils _ => FunctionCode.code FunctionCode.WriteMultipleCoils
  | WriteMultipleRegisters _ => FunctionCode.code FunctionCode.WriteMultipleRegisters
  | ReportServerId _ => FunctionCode.code FunctionCode.ReportServerId
  | ReadFileRecord _ => FunctionCode.code FunctionCode.ReadFileRecord
  | WriteFileRecord _ => FunctionCode.code FunctionCode.WriteFileRecord
  | MaskWriteRegister _ => FunctionCode.code FunctionCode.MaskWriteRegister
  | ReadWriteMultipleRegisters _ => FunctionCode.code FunctionCode.ReadWriteMultipleRegisters
  | ReadFifoQueue _ => FunctionCode.code FunctionCode.ReadFifoQueue
  | EncapsulatedInterface _ => FunctionCode.code FunctionCode.EncapsulatedInterfaceTransport
  | Custom fc _ => fc
  | Exception e => FunctionCode.exception_code (ExceptionResponse.function_code e)
  end.
End OwnedResponsePdu.

(** The borrowed response an owned one is a copy of *)
Definition borrowed (r : OwnedResponsePdu.t) : ResponsePdu.t :=
  match r with
  | OwnedResponsePdu.ReadCoils (OwnedReadCoilsResponse.mk a b) =>
      ResponsePdu.ReadCoils (ReadCoilsResponse.mk a b)
  | OwnedResponsePdu.ReadDiscreteInputs (OwnedReadDiscreteInputsResponse.mk a b) =>
      ResponsePdu.ReadDiscreteInputs (ReadDiscreteInputsResponse.mk a b)
  | OwnedResponsePdu.ReadHoldingRegisters (OwnedReadHoldingRegistersResponse.mk a b) =>
      ResponsePdu.ReadHoldingRegisters (ReadHoldingRegistersResponse.mk a b)
  | OwnedResponsePdu.ReadInputRegisters (OwnedReadInputRegistersResponse.mk a b) =>
      ResponsePdu.ReadInputRegisters (ReadInputRegistersResponse.mk a b)
  | OwnedResponsePdu.WriteSingleCoil x => ResponsePdu.WriteSingleCoil x
  | OwnedResponsePdu.WriteSingleRegister x => ResponsePdu.WriteSingleRegister x
  | OwnedResponsePdu.ReadExceptionStatus x => ResponsePdu.ReadExceptionStatus x
  | OwnedResponsePdu.Diagnostics (OwnedDiagnosticsResponse.mk a b) =>
      ResponsePdu.Diagnostics (DiagnosticsResponse.mk a b)
  | OwnedResponsePdu.GetCommEventCounter x => ResponsePdu.GetCommEventCounter x
  | OwnedResponsePdu.GetCommEventLog (OwnedGetCommEventLogResponse.mk a b c d e) =>
      ResponsePdu.GetCommEventLog (GetCommEventLogResponse.mk a b c d e)
  | OwnedResponsePdu.WriteMultipleCoils x => ResponsePdu.WriteMultipleCoils x
  | OwnedResponsePdu.WriteMultipleRegisters x => ResponsePdu.WriteMultipleRegisters x
  | OwnedResponsePdu.ReportServerId (OwnedReportServerIdResponse.mk a b) =>
      ResponsePdu.ReportServerId (ReportServerIdResponse.mk a b)
  | OwnedResponsePdu.ReadFileRecord (OwnedReadFileRecordResponse.mk a b) =>
      ResponsePdu.ReadFileRecord (ReadFileRecordResponse.mk a b)
  | OwnedResponsePdu.WriteFileRecord (OwnedWriteFileRecordResponse.mk a b) =>
      ResponsePdu.WriteFileRecord (WriteFileRecordResponse.mk a b)
  | OwnedResponsePdu.MaskWriteRegister x => ResponsePdu.MaskWriteRegister x
  | OwnedResponsePdu.ReadWriteMultipleRegisters (OwnedReadWriteMultipleRegistersResponse.mk a b) =>
      ResponsePdu.ReadWriteMultipleRegisters (ReadWriteMultipleRegistersResponse.mk a b)
  | OwnedResponsePdu.ReadFifoQueue (OwnedReadFifoQueueResponse.mk a b c) =>
      ResponsePdu.ReadFifoQueue (ReadFifoQueueResponse.mk a b c)
  | OwnedResponsePdu.EncapsulatedInterface (OwnedEncapsulatedInterfaceResponse.mk a b) =>
      ResponsePdu.EncapsulatedInterface (EncapsulatedInterfaceResponse.mk a b)
  | OwnedResponsePdu.Custom fc data => ResponsePdu.Custom fc data
  | OwnedResponsePdu.Exception x => ResponsePdu.Exception x
  end.

(** * Lemmas *)
Lemma slice_from_inv {E A} (l k : list A) i : slice_from (E:=E) l i = Ok k →
  0 ≤ i ≤ blen l ∧ k = drop (Z.to_nat i) l.
Proof. unfold slice_from. case_match eqn:Hc; [|done]. intros [= <-]. split; [lia|done]. Qed.
Lemma pdu_data_cons fc data : pdu_data (fc :: data) = Ok data.
Proof.
  unfold pdu_data. rewrite is_empty_cons, slice_from_Ok by (rewrite blen_cons; pose proof (blen_nonneg data); lia).
  done.
Qed.
(** A slice of the PDU from offset [1 + k] on is the data from offset [k] on. *)
Lemma slice_tail {E} fc (data : bytes) k : 0 ≤ k ≤ blen data →
  slice (E:=E) (fc :: data) (1 + k) (1 + k + blen (drop (Z.to_nat k) data)) = Ok (drop (Z.to_nat k) data).
Proof.
  intros Hk. rewrite blen_drop by lia. rewrite slice_Ok by (rewrite ?blen_cons; lia).
  f_equal. replace (Z.to_nat (1 + k)) with (S (Z.to_nat k)) by lia. cbn [drop].
  rewrite take_ge; [done|]. rewrite length_drop. unfold blen in *. lia.
Qed.
Lemma slice_from_tail {E} fc (data : bytes) k : 0 ≤ k ≤ blen data →
  slice_from (E:=E) (fc :: data) (1 + k) = Ok (drop (Z.to_nat k) data).
Proof.
  intros Hk. rewrite slice_from_Ok by (rewrite blen_cons; lia).
  by replace (Z.to_nat (1 + k)) with (S (Z.to_nat k)) by lia.
Qed.

Ltac decode_inv := repeat first
  [ progress case_match | done
  | match goal with
    | H : rbind _ _ = Ok _ |- _ => apply rbind_Ok in H as (? & ? & H)
    | H : slice_from _ _ = Ok _ |- _ => apply slice_from_inv in H as [? ->]
    | H : Ok _ = Ok _ |- _ => injection H as <-
    | H : check_register_data_len _ = Ok _ |- _ => clear H
    end ].

(** Where the variable part of each response lies in its data *)
Lemma ReadHoldingRegisters_tail data x : ReadHoldingRegistersResponse.decode data = Ok x →
  1 ≤ blen data ∧ ReadHoldingRegistersResponse.register_data x = drop 1 data.
Proof. unfold ReadHoldingRegistersResponse.decode. intros. decode_inv. split; [lia|done]. Qed.
Lemma ReadInputRegisters_tail data x : ReadInputRegistersResponse.decode data = Ok x →
  1 ≤ blen data ∧ ReadInputRegistersResponse.register_data x = drop 1 data.
Proof. unfold ReadInputRegistersResponse.decode. intros. decode_inv. split; [lia|done]. Qed.
Lemma ReadWriteMultipleRegisters_tail data x : ReadWriteMultipleRegistersResponse.decode data = Ok x →
  1 ≤ blen data ∧ ReadWriteMultipleRegistersResponse.register_data x = drop 1 data.
Proof. unfold ReadWriteMultipleRegistersResponse.decode. intros. decode_inv. split; [lia|done]. Qed.
Lemma ReadFifoQueue_tail data x : ReadFifoQueueResponse.decode data = Ok x →
  4 ≤ blen data ∧ ReadFifoQueueResponse.fifo_values x = drop 4 data.
Proof. unfold ReadFifoQueueResponse.decode. intros. decode_inv. split; [lia|done]. Qed.
Lemma ReadFileRecord_tail data x : ReadFileRecordResponse.decode data = Ok x →
  1 ≤ blen data ∧ ReadFileRecordResponse.data x = drop 1 data.
Proof. unfold ReadFileRecordResponse.decode. intros. decode_inv. split; [lia|done]. Qed.
Lemma WriteFileRecord_tail data x : WriteFileRecordResponse.decode data = Ok x →
  1 ≤ blen data ∧ WriteFileRecordResponse.data x = drop 1 data.
Proof. unfold WriteFileRecordResponse.decode. intros. decode_inv. split; [lia|done]. Qed.
Lemma GetCommEventLog_tail data x : GetCommEventLogResponse.decode data = Ok x →
  7 ≤ blen data ∧ GetCommEventLogResponse.events x = drop 7 data.
Proof. unfold GetCommEventLogResponse.decode. intros. decode_inv. split; [lia|done]. Qed.
Lemma EncapsulatedInterface_tail data x : EncapsulatedInterfaceResponse.decode data = Ok x →
  1 ≤ blen data ∧ EncapsulatedInterfaceResponse.data x = drop 1 data.
Proof. unfold EncapsulatedInterfaceResponse.decode. intros. decode_inv; split; solve [lia|done]. Qed.

(** Each owned constructor agrees with the borrowed decoder. *)
Ltac owned_decoded fc data k tail :=
  rewrite pdu_data_cons; cbn [rbind];
  let x := fresh "x" in let Hd := fresh "Hd" in let Ht := fresh "Ht" in
  match goal with |- context [rbind (?d data) _] => destruct (d data) as [x|?| |] eqn:Hd; [|done..] end;
  cbn [rbind]; destruct (tail data x Hd) as [? Ht]; rewrite Ht;
  rewrite (slice_tail fc data k) by lia; destruct x; cbn in Ht; subst; done.
Ltac owned_counted fc data :=
  rewrite pdu_data_cons; cbn [rbind];
  let c := fresh "c" in let data' := fresh "data" in
  destruct data as [|c data']; [done|]; rewrite !is_empty_cons;
  change (idx (c :: data') 0) with (@Ok DecodeError.t Z c); cbn [rbind];
  pose proof (blen_nonneg data'); rewrite !(slice_from_Ok (c :: data')) by (rewrite blen_cons; lia);
  change (drop (Z.to_nat 1) (c :: data')) with data'; cbn [rbind];
  destruct (Z.eqb_spec (blen data') c) as [<-|]; [|done]; cbn [negb];
  rewrite (slice_tail fc (_ :: data') 1) by (rewrite blen_cons; lia); done.

Section Arms.
Context (fc : Z) (data : bytes).
Lemma owned_ReadHoldingRegisters :
  rmap borrowed (rmap OwnedResponsePdu.ReadHoldingRegisters (OwnedReadHoldingRegistersResponse.from_pdu (fc :: data)))
  = rmap ResponsePdu.ReadHoldingRegisters (ReadHoldingRegistersResponse.decode data).
Proof. unfold OwnedReadHoldingRegistersResponse.from_pdu. owned_decoded fc data 1 ReadHoldingRegisters_tail. Qed.
Lemma owned_ReadInputRegisters :
  rmap borrowed (rmap OwnedResponsePdu.ReadInputRegisters (OwnedReadInputRegistersResponse.from_pdu (fc :: data)))
  = rmap ResponsePdu.ReadInputRegisters (ReadInputRegistersResponse.decode data).
Proof. unfold OwnedReadInputRegistersResponse.from_pdu. owned_decoded fc data 1 ReadInputRegisters_tail. Qed.
Lemma owned_ReadWriteMultipleRegisters :
  rmap borrowed (rmap OwnedResponsePdu.ReadWriteMultipleRegisters (OwnedReadWriteMultipleRegistersResponse.from_pdu (fc :: data)))
  = rmap ResponsePdu.ReadWriteMultipleRegisters (ReadWriteMultipleRegistersResponse.decode data).
Proof. unfold OwnedReadWriteMultipleRegistersResponse.from_pdu. owned_decoded fc data 1 ReadWriteMultipleRegisters_tail. Qed.
Lemma owned_ReadFifoQueue :
  rmap borrowed (rmap OwnedResponsePdu.ReadFifoQueue (OwnedReadFifoQueueResponse.from_pdu (fc :: data)))
  = rmap ResponsePdu.ReadFifoQueue (ReadFifoQueueResponse.decode data).
Proof. unfold OwnedReadFifoQueueResponse.from_pdu. owned_decoded fc data 4 ReadFifoQueue_tail. Qed.
Lemma owned_ReadFileRecord :
  rmap borrowed (rmap OwnedResponsePdu.ReadFileRecord (OwnedReadFileRecordResponse.from_pdu (fc :: data)))
  = rmap ResponsePdu.ReadFileRecord (ReadFileRecordResponse.decode data).
Proof. unfold OwnedReadFileRecordResponse.from_pdu. owned_decoded fc data 1 ReadFileRecord_tail. Qed.
Lemma owned_WriteFileRecord :
  rmap borrowed (rmap OwnedResponsePdu.WriteFileRecord (OwnedWriteFileRecordResponse.from_pdu (fc :: data)))
  = rmap ResponsePdu.WriteFileRecord (WriteFileRecordResponse.decode data).
Proof. unfold OwnedWriteFileRecordResponse.from_pdu. owned_decoded fc data 1 WriteFileRecord_tail. Qed.
Lemma owned_GetCommEventLog :
  rmap borrowed (rmap OwnedResponsePdu.GetCommEventLog (OwnedGetCommEventLogResponse.from_pdu (fc :: data)))
  = rmap ResponsePdu.GetCommEventLog (GetCommEventLogResponse.decode data).
Proof. unfold OwnedGetCommEventLogResponse.from_pdu. owned_decoded fc data 7 GetCommEventLog_tail. Qed.
Lemma owned_ReadCoils :
  rmap borrowed (rmap OwnedResponsePdu.ReadCoils (OwnedReadCoilsResponse.from_pdu (fc :: data)))
  = rmap ResponsePdu.ReadCoils (ReadCoilsResponse.decode data).
Proof. unfold OwnedReadCoilsResponse.from_pdu, ReadCoilsResponse.decode. owned_counted fc data. Qed.
Lemma owned_ReadDiscreteInputs :
  rmap borrowed (rmap OwnedResponsePdu.ReadDiscreteInputs (OwnedReadDiscreteInputsResponse.from_pdu (fc :: data)))
  = rmap ResponsePdu.ReadDiscreteInputs (ReadDiscreteInputsResponse.decode data).
Proof. unfold OwnedReadDiscreteInputsResponse.from_pdu, ReadDiscreteInputsResponse.decode. owned_counted fc data. Qed.
Lemma owned_ReportServerId :
  rmap borrowed (rmap OwnedResponsePdu.ReportServerId (OwnedReportServerIdResponse.from_pdu (fc :: data)))
  = rmap ResponsePdu.ReportServerId (ReportServerIdResponse.decode data).
Proof. unfold OwnedReportServerIdResponse.from_pdu, ReportServerIdResponse.decode. owned_counted fc data. Qed.
Lemma owned_EncapsulatedInterface :
  rmap borrowed (rmap OwnedResponsePdu.EncapsulatedInterface
    (OwnedEncapsulatedInterfaceResponse.from_pdu (fc :: data)))
  = rmap ResponsePdu.EncapsulatedInterface (EncapsulatedInterfaceResponse.decode data).
Proof.
  unfold OwnedEncapsulatedInterfaceResponse.from_pdu. rewrite pdu_data_cons. cbn [rbind].
  destruct (EncapsulatedInterfaceResponse.decode data) as [x|?| |] eqn:Hd; [|done..].
  destruct (EncapsulatedInterface_tail data x Hd) as [Hk Ht]. cbn [rbind].
  rewrite (slice_from_tail fc data 1) by lia. destruct x; cbn in Ht; subst; done.
Qed.
Lemma owned_Diagnostics :
  rmap borrowed (rmap OwnedResponsePdu.Diagnostics (OwnedDiagnosticsResponse.from_pdu (fc :: data)))
  = rmap ResponsePdu.Diagnostics (DiagnosticsResponse.decode data).
Proof.
  unfold OwnedDiagnosticsResponse.from_pdu, DiagnosticsResponse.decode. rewrite pdu_data_cons. cbn [rbind].
  destruct (Z.ltb_spec (blen data) 2); [done|].
  destruct (be16_at data 0 1) as [raw|?| |]; [|done..]. cbn [rbind].
  destruct (DiagnosticSubFunction.from_raw raw) as [sub|]; [|done]. cbn [ok_or rbind].
  rewrite slice_from_Ok by lia. cbn [rbind]. unfold check_diagnostic_data_len_decode.
  destruct (is_multiple_of _ _); [|done]. cbn [negb rbind].
  by rewrite (slice_from_tail fc data 2) by lia.
Qed.
End Arms.

Lemma owned_dispatch fc data : fc ≠ 0 → decode_pdu_ref (fc :: data) = Ok (PduRef.mk fc data) →
  rmap borrowed (OwnedResponsePdu.from_pdu (fc :: data)) = decode_response (fc :: data).
Proof.
  intros Hfc Hp. unfold OwnedResponsePdu.from_pdu, decode_response. rewrite Hp, is_empty_cons.
  change (idx (fc :: data) 0) with (@Ok DecodeError.t Z fc).
  change (slice_from (fc :: data) 1) with (slice_from (E := DecodeError.t) (fc :: data) (1 + 0)).
  rewrite slice_from_tail by (pose proof (blen_nonneg data); lia).
  cbn [rbind PduRef.function_code PduRef.data]. change (drop (Z.to_nat 0) data) with data.
  unfold FunctionCode.is_exception_response, FunctionCode.from_raw.
  replace (fc =? 0) with false by lia. rewrite orb_false_l.
  destruct (negb (Z.land fc 128 =? 0)); [by destruct (ExceptionResponse.decode fc data)|].
  cbn [default ok_or rbind from_option]. unfold id.
  destruct (FunctionCode.from_byte fc); first
    [ apply owned_ReadCoils | apply owned_ReadDiscreteInputs | apply owned_ReadHoldingRegisters
    | apply owned_ReadInputRegisters | apply owned_Diagnostics | apply owned_GetCommEventLog
    | apply owned_ReportServerId | apply owned_ReadFileRecord | apply owned_WriteFileRecord
    | apply owned_ReadWriteMultipleRegisters | apply owned_ReadFifoQueue
    | apply owned_EncapsulatedInterface | reflexivity
    | match goal with |- context [rmap _ (?d data)] => by destruct (d data) end ].
Qed.
Lemma owned_vendor_zero data : OwnedResponsePdu.from_pdu (0 :: data) = Ok (OwnedResponsePdu.Custom 0 data).
Proof.
  unfold OwnedResponsePdu.from_pdu. rewrite is_empty_cons.
  change (slice_from (0 :: data) 1) with (slice_from (E := DecodeError.t) (0 :: data) (1 + 0)).
  by rewrite slice_from_tail by (pose proof (blen_nonneg data); lia).
Qed.
Lemma returns_rmap {E A B} (g : A → B) (r : res E A) : returns (rmap g r) ↔ returns r.
Proof. by destruct r. Qed.
(** [from_pdu] returns on every PDU, also one above the legal size. *)
Lemma owned_returns pdu : bytes_ok pdu → returns (OwnedResponsePdu.from_pdu pdu).
Proof.
  intros Hb. destruct pdu as [|fc data]; [done|]. apply bytes_ok_cons in Hb as [_ Hb].
  unfold OwnedResponsePdu.from_pdu. rewrite is_empty_cons.
  change (idx (fc :: data) 0) with (@Ok DecodeError.t Z fc).
  change (slice_from (fc :: data) 1) with (slice_from (E := DecodeError.t) (fc :: data) (1 + 0)).
  rewrite slice_from_tail by (pose proof (blen_nonneg data); lia).
  cbn [rbind]. change (drop (Z.to_nat 0) data) with data.
  case_match; [apply rbind_returns; [apply ExceptionResponse_decode_returns|done]|].
  apply (returns_rmap borrowed).
  destruct (default _ _); rewrite ?owned_ReadCoils, ?owned_ReadDiscreteInputs, ?owned_ReadHoldingRegisters,
    ?owned_ReadInputRegisters, ?owned_Diagnostics, ?owned_GetCommEventLog, ?owned_ReportServerId,
    ?owned_ReadFileRecord, ?owned_WriteFileRecord, ?owned_ReadWriteMultipleRegisters,
    ?owned_ReadFifoQueue, ?owned_EncapsulatedInterface;
    first [ done | by eapply arm_returns | apply returns_rmap; by eapply arm_returns ].
Qed.
Lemma exception_code_strip : u8_all (λ b, (b <? 128) || (Z.lor (Z.land b 0x7F) 0x80 =? b)) = true.
Proof. vm_compute. reflexivity. Qed.
Lemma owned_function_code fc data r : is_u8 fc → OwnedResponsePdu.from_pdu (fc :: data) = Ok r →
  OwnedResponsePdu.function_code r = fc.
Proof.
  intros Hu. unfold OwnedResponsePdu.from_pdu. rewrite is_empty_cons.
  change (idx (fc :: data) 0) with (@Ok DecodeError.t Z fc). cbn [rbind].
  unfold FunctionCode.is_exception_response. rewrite exception_flag_clear by done.
  destruct (Z.ltb_spec fc 128); cbn [negb]; rewrite rbind_Ok; intros (d & _ & Hr).
  - pose proof (FunctionCode_code_from_byte fc) as Hcode.
    assert (∀ f, default (FunctionCode.Custom fc) (FunctionCode.from_raw fc) = f → FunctionCode.code f = fc) as Hf.
    { intros f <-. unfold FunctionCode.from_raw. destruct (_ || _)%bool; [done|exact Hcode]. }
    destruct (default _ _); specialize (Hf _ eq_refl); cbn in Hf; subst;
      first [ apply rbind_Ok in Hr as (? & _ & [= <-]) | idtac ]; done.
  - apply rbind_Ok in Hr as (x & Hx & [= <-]). unfold ExceptionResponse.decode in Hx.
    apply rbind_Ok in Hx as (_ & _ & Hx). case_match; [done|].
    apply rbind_Ok in Hx as (? & _ & [= <-]). cbn. unfold FunctionCode.exception_code, FunctionCode.from_exception_raw.
    rewrite FunctionCode_code_from_byte.
    pose proof (u8_all_spec _ exception_code_strip fc Hu). lia.
Qed.

(** * Theorems *)

(** C34. The owned decoder is the codec's decoder: on every PDU of legal size it
    accepts the same responses with the same fields and refuses the others with
    the same error, except that function code 0, which the codec refuses, is
    passed on as a vendor-specific response; and an accepted response reports the
    function code byte it was decoded from. *)
Theorem owned_response_agrees pdu : bytes_ok pdu → blen pdu ≤ 253 →
  (get pdu 0 ≠ Some 0 → rmap borrowed (OwnedResponsePdu.from_pdu pdu) = decode_response pdu) ∧
  (∀ data, pdu = 0 :: data → OwnedResponsePdu.from_pdu pdu = Ok (OwnedResponsePdu.Custom 0 data) ∧
     decode_response pdu = Err (UnknownFunctionCode 0)) ∧
  (∀ r, OwnedResponsePdu.from_pdu pdu = Ok r → get pdu 0 = Some (OwnedResponsePdu.function_code r)).
Proof.
  intros Hb Hl. destruct pdu as [|fc data]; [done|].
  assert (decode_pdu_ref (fc :: data) = Ok (PduRef.mk fc data)) as Hp by by apply decode_pdu_ref_Ok.
  apply bytes_ok_cons in Hb as [Hfc Hb]. rewrite get_cons_0. split_and!.
  - intros Hne. apply owned_dispatch; [naive_solver|done].
  - intros ? [= -> <-]. split; [apply owned_vendor_zero|]. unfold decode_response. by rewrite Hp.
  - intros r Hr. f_equal. symmetry. by eapply owned_function_code.
Qed.
Lemma owned_response_agrees_witness :
  rmap borrowed (OwnedResponsePdu.from_pdu [0x03; 0x02; 0x12; 0x34])
  = decode_response [0x03; 0x02; 0x12; 0x34].
Proof.
  refine (proj1 (owned_response_agrees _ _ _) _).
  - repeat constructor; lia.
  - vm_compute. discriminate.
  - discriminate.
Defined.
