(* ===== verification/RtuConfig.v ===== *)
(** * Serial line configuration
    (crates/rusty-modbus-rtu: src/config.rs, src/unit_id.rs, src/error.rs)

    The strict serial configuration, the character timers derived from it and the
    address classes of a serial line. A [Duration] is its number of nanoseconds.
    The compatibility timers of [RtuConfig], which are computed in floating point,
    are in [LegacyTiming]. *)
From S2P Require Import Prelude.

Module DataBits.
Inductive t : Type := Five | Six | Seven | Eight.
End DataBits.
Module Parity.
Inductive t : Type := NoParity | Even | Odd.
End Parity.
Module StopBits.
Inductive t : Type := One | Two.
End StopBits.
Module RtuSerialFormat.
Inductive t : Type := EightEvenOne | EightOddOne | EightNoneTwo.
End RtuSerialFormat.

Module RtuConfigError.
Inductive t : Type :=
  | ZeroBaudRate
  | InvalidSerialFormat (data_bits : DataBits.t) (parity : Parity.t) (stop_bits : StopBits.t).
End RtuConfigError.

(** [Duration::from_secs] and [Duration::from_micros] *)
Definition from_secs (s : Z) : Z := s * 1000000000.
Definition from_micros (us : Z) : Z := us * 1000.

Definition FIXED_INTERFRAME_DELAY : Z := from_micros 1750.
Definition FIXED_INTERCHARACTER_TIMEOUT : Z := from_micros 750.
Definition CALCULATED_DELAY_MAX_BAUD : Z := 19200.

Module RtuConfig.
Record t : Type := mk {
  baud_rate : Z;
  data_bits : DataBits.t;
  parity : Parity.t;
  stop_bits : StopBits.t;
  response_timeout : Z;
}.
Definition default : t := mk 9600 DataBits.Eight Parity.NoParity StopBits.One (from_secs 1).
End RtuConfig.

Module StrictRtuConfig.
Record t : Type := mk {
  baud_rate : Z;
  serial_format : RtuSerialFormat.t;
  response_timeout : Z;
}.
Definition new (baud_rate : Z) (serial_format : RtuSerialFormat.t) (response_timeout : Z)
    : res RtuConfigError.t t :=
  if baud_rate =? 0 then Err RtuConfigError.ZeroBaudRate else
  Ok (mk baud_rate serial_format response_timeout).
Definition default : t := mk 19200 RtuSerialFormat.EightEvenOne (from_secs 1).

Definition try_from (config : RtuConfig.t) : res RtuConfigError.t t :=
  if RtuConfig.baud_rate config =? 0 then Err RtuConfigError.ZeroBaudRate else
  let? serial_format :=
    match RtuConfig.data_bits config, RtuConfig.parity config, RtuConfig.stop_bits config with
    | DataBits.Eight, Parity.Even, StopBits.One => Ok RtuSerialFormat.EightEvenOne
    | DataBits.Eight, Parity.Odd, StopBits.One => Ok RtuSerialFormat.EightOddOne
    | DataBits.Eight, Parity.NoParity, StopBits.Two => Ok RtuSerialFormat.EightNoneTwo
    | data_bits, parity, stop_bits =>
        Err (RtuConfigError.InvalidSerialFormat data_bits parity stop_bits)
    end in
  new (RtuConfig.baud_rate config) serial_format (RtuConfig.response_timeout config).
End StrictRtuConfig.

Module RtuTimingMode.
Inductive t : Type := CharacterCalculated | FixedHighSpeedRecommendation.
End RtuTimingMode.

Definition duration_from_ratio_ceiling (nanosecond_numerator baud_rate : Z) : Z :=
  div_ceil nanosecond_numerator baud_rate.

Module ResolvedRtuConfig.
Record t : Type := mk {
  baud_rate : Z;
  serial_format : RtuSerialFormat.t;
  data_bits : DataBits.t;
  parity : Parity.t;
  stop_bits : StopBits.t;
  response_timeout : Z;
  character_time : Z;
  t1_5 : Z;
  t3_5 : Z;
  timing_mode : RtuTimingMode.t;
}.
Definition CHARACTER_NANOSECOND_NUMERATOR : Z := 11000000000.
Definition T1_5_NANOSECOND_NUMERATOR : Z := 16500000000.
Definition T3_5_NANOSECOND_NUMERATOR : Z := 38500000000.

Definition from (config : StrictRtuConfig.t) : t :=
  let baud_rate := StrictRtuConfig.baud_rate config in
  let '(data_bits, parity, stop_bits) :=
    match StrictRtuConfig.serial_format config with
    | RtuSerialFormat.EightEvenOne => (DataBits.Eight, Parity.Even, StopBits.One)
    | RtuSerialFormat.EightOddOne => (DataBits.Eight, Parity.Odd, StopBits.One)
    | RtuSerialFormat.EightNoneTwo => (DataBits.Eight, Parity.NoParity, StopBits.Two)
    end in
  let character_time := duration_from_ratio_ceiling CHARACTER_NANOSECOND_NUMERATOR baud_rate in
  let '(t1_5, t3_5, timing_mode) :=
    if baud_rate <=? CALCULATED_DELAY_MAX_BAUD then
      (duration_from_ratio_ceiling T1_5_NANOSECOND_NUMERATOR baud_rate,
       duration_from_ratio_ceiling T3_5_NANOSECOND_NUMERATOR baud_rate,
       RtuTimingMode.CharacterCalculated)
    else
      (FIXED_INTERCHARACTER_TIMEOUT, FIXED_INTERFRAME_DELAY,
       RtuTimingMode.FixedHighSpeedRecommendation) in
  mk baud_rate (StrictRtuConfig.serial_format config) data_bits parity stop_bits
    (StrictRtuConfig.response_timeout config) character_time t1_5 t3_5 timing_mode.
End ResolvedRtuConfig.

(** ** Address classes (unit_id.rs) *)
Module RtuUnitIdRole.
Inductive t : Type := ClientDestination | ResponderSource.
Record error : Type := mk_error { unit_id : Z; role : t }.

Definition validate (self : t) (unit_id : Z) : res error unit :=
  match self with
  | ClientDestination => if unit_id <=? 247 then Ok tt else Err (mk_error unit_id self)
  | ResponderSource =>
      if (1 <=? unit_id) && (unit_id <=? 247) then Ok tt else Err (mk_error unit_id self)
  end.
End RtuUnitIdRole.

(** * Lemmas *)

(** The quotient rounded up is the least number of whole units that covers [a]. *)
Lemma div_ceil_least a b : 0 < b →
  a ≤ b * div_ceil a b ∧ ∀ k, a ≤ b * k → div_ceil a b ≤ k.
Proof.
  intros Hb. unfold div_ceil. split.
  - pose proof (Z.mul_succ_div_gt (a + b - 1) b Hb). lia.
  - intros k Hk. apply Z.lt_succ_r, Z.div_lt_upper_bound; lia.
Qed.
Lemma div_ceil_lower a b k : 0 < b → b * k < a → k < div_ceil a b.
Proof. intros Hb Hk. destruct (div_ceil_least a b Hb) as [? _]. nia. Qed.
Lemma div_ceil_upper a b k : 0 < b → a ≤ b * k → div_ceil a b ≤ k.
Proof. intros Hb. apply div_ceil_least, Hb. Qed.

(** What the strict configuration accepts: a nonzero baud rate and one of the three
    character formats, each of which takes 11 bits on the wire. *)
Definition character_bits (config : RtuConfig.t) : Z :=
  1 + match RtuConfig.data_bits config with
      | DataBits.Five => 5 | DataBits.Six => 6 | DataBits.Seven => 7 | DataBits.Eight => 8
      end
    + match RtuConfig.parity config with Parity.NoParity => 0 | _ => 1 end
    + match RtuConfig.stop_bits config with StopBits.One => 1 | StopBits.Two => 2 end.
Definition strict_ok (config : RtuConfig.t) : Prop :=
  RtuConfig.baud_rate config ≠ 0 ∧ RtuConfig.data_bits config = DataBits.Eight ∧
  character_bits config = 11.

Lemma resolved_timing s : 0 < StrictRtuConfig.baud_rate s < 4294967296 →
  let r := ResolvedRtuConfig.from s in
  0 < ResolvedRtuConfig.t1_5 r < ResolvedRtuConfig.t3_5 r ∧
  ResolvedRtuConfig.t3_5 r ≤ 38500000000.
Proof.
  intros Hb. unfold ResolvedRtuConfig.from, CALCULATED_DELAY_MAX_BAUD.
  destruct (StrictRtuConfig.serial_format s); cbn zeta iota beta;
  (destruct (Z.leb_spec (StrictRtuConfig.baud_rate s) 19200); [|by vm_compute]);
  cbn [ResolvedRtuConfig.t1_5 ResolvedRtuConfig.t3_5]; unfold duration_from_ratio_ceiling,
    ResolvedRtuConfig.T1_5_NANOSECOND_NUMERATOR, ResolvedRtuConfig.T3_5_NANOSECOND_NUMERATOR;
  set (b := StrictRtuConfig.baud_rate s) in *;
  (split; [split|]; [apply div_ceil_lower; lia| |apply div_ceil_upper; lia]);
  (apply div_ceil_lower; [lia|]);
  pose proof (div_ceil_least 16500000000 b ltac:(lia)) as [_ Hl];
  specialize (Hl (16500000000 / b + 1)); pose proof (Z.mul_succ_div_gt 16500000000 b ltac:(lia));
  pose proof (Z.mul_div_le 16500000000 b ltac:(lia)); nia.
Qed.

(** [t] is the shortest whole number of nanoseconds that is no shorter than
    [half_bits] half bit times at [baud] bits per second. *)
Definition shortest_cover (half_bits baud t : Z) : Prop :=
  half_bits * 1000000000 ≤ 2 * baud * t ∧ ∀ k, half_bits * 1000000000 ≤ 2 * baud * k → t ≤ k.

Lemma ratio_ceiling_cover half_bits numerator baud : 0 < baud →
  half_bits * 1000000000 = 2 * numerator →
  shortest_cover half_bits baud (duration_from_ratio_ceiling numerator baud).
Proof.
  intros Hb He. destruct (div_ceil_least numerator baud Hb) as [? Hl].
  split; [unfold duration_from_ratio_ceiling; lia|]. intros k Hk. apply Hl. lia.
Qed.
Lemma strict_try_from_ok config :
  match StrictRtuConfig.try_from config with
  | Ok s => strict_ok config ∧ StrictRtuConfig.baud_rate s = RtuConfig.baud_rate config ∧
      let r := ResolvedRtuConfig.from s in
      ResolvedRtuConfig.data_bits r = RtuConfig.data_bits config ∧
      ResolvedRtuConfig.parity r = RtuConfig.parity config ∧
      ResolvedRtuConfig.stop_bits r = RtuConfig.stop_bits config ∧
      ResolvedRtuConfig.response_timeout r = RtuConfig.response_timeout config
  | Err _ => ¬ strict_ok config
  | _ => False
  end.
Proof.
  unfold StrictRtuConfig.try_from, StrictRtuConfig.new, strict_ok, character_bits.
  destruct config as [b [] [] [] r]; cbn;
    destruct (Z.eqb_spec b 0); cbn; try (intros (? & ? & ?); congruence);
    try (intros (? & ? & ?); discriminate);
    split_and!; try done; unfold ResolvedRtuConfig.from; cbn; by destruct (b <=? _).
Qed.

(** * Theorems *)

(** The strict configuration: a raw configuration is accepted exactly when
    its baud rate is nonzero and it is an eight-bit format of 11 bits per
    character; the resolved settings are the raw ones; t1.5 and t3.5 are positive,
    in that order, and up to 19200 baud they are the shortest whole numbers of
    nanoseconds that cover 1.5 and 3.5 characters. *)
Theorem strict_config_timing config : 0 ≤ RtuConfig.baud_rate config < 4294967296 →
  match StrictRtuConfig.try_from config with
  | Ok s =>
      let r := ResolvedRtuConfig.from s in
      let baud := RtuConfig.baud_rate config in
      strict_ok config ∧
      ResolvedRtuConfig.data_bits r = RtuConfig.data_bits config ∧
      ResolvedRtuConfig.parity r = RtuConfig.parity config ∧
      ResolvedRtuConfig.stop_bits r = RtuConfig.stop_bits config ∧
      0 < ResolvedRtuConfig.t1_5 r < ResolvedRtuConfig.t3_5 r ∧
      (if baud <=? 19200 then
         shortest_cover (3 * character_bits config) baud (ResolvedRtuConfig.t1_5 r) ∧
         shortest_cover (7 * character_bits config) baud (ResolvedRtuConfig.t3_5 r)
       else ResolvedRtuConfig.t1_5 r = 750000 ∧ ResolvedRtuConfig.t3_5 r = 1750000)
  | Err _ => ¬ strict_ok config
  | _ => False
  end.
Proof.
  intros Hb. pose proof (strict_try_from_ok config) as Hs.
  destruct (StrictRtuConfig.try_from config) as [s|e| |]; [|done..].
  destruct Hs as (Hok & Hbaud & ? & ? & ? & _). pose proof Hok as (Hne & _ & Hbits).
  cbn zeta. split_and!; try done; [apply resolved_timing; lia..|].
  rewrite Hbits. unfold ResolvedRtuConfig.from, CALCULATED_DELAY_MAX_BAUD. rewrite Hbaud.
  destruct (RtuConfig.baud_rate config <=? 19200), (StrictRtuConfig.serial_format s);
    cbn [ResolvedRtuConfig.t1_5 ResolvedRtuConfig.t3_5];
    solve [split; [apply ratio_ceiling_cover; [lia|reflexivity]..] | done].
Qed.
Lemma strict_config_timing_witness :
  shortest_cover 77 9600
    (ResolvedRtuConfig.t3_5 (ResolvedRtuConfig.from
       (StrictRtuConfig.mk 9600 RtuSerialFormat.EightOddOne 0))).
Proof.
  pose proof (strict_config_timing (RtuConfig.mk 9600 DataBits.Eight Parity.Odd StopBits.One 0)) as H.
  apply H. cbn [RtuConfig.baud_rate]. lia.
Defined.
