(* ===== verification/Assembler.v ===== *)
(** * The RTU frame assembler (crates/rusty-modbus-rtu/src/assembler.rs)

    A state machine that cuts a serial line's bytes into frames by the silence
    between them. Timestamps and deadlines are [u64] nanoseconds; the state is the
    Rust struct with its 256-byte candidate buffer, the token of the active
    deadline and ten saturating counters. Theorems: the invariant, the emitted
    frames as a function of the timeline of the bytes, and that errors and
    obsolete deadlines change nothing but counters. *)
From S2P Require Import Prelude Types CodecError Crc RtuConfig.

Definition MIN_RTU_ADU_SIZE : Z := 4.
(** [\[0; MAX_RTU_ADU_SIZE\]] *)
Definition zeroed_adu : bytes := replicate (Z.to_nat MAX_RTU_ADU_SIZE) 0.
Arguments zeroed_adu : simpl never.
Lemma blen_zeroed_adu : blen zeroed_adu = MAX_RTU_ADU_SIZE.
Proof. apply blen_replicate. Qed.

(** [u64::try_from] and [u64::checked_add] *)
Definition u64_try_from (n : Z) : option Z := if n <=? u64_max then Some n else None.
Definition u64_checked_add (a b : Z) : option Z := u64_try_from (a + b).

Module RtuTimestamp.
Definition checked_add (self duration : Z) : option Z :=
  match u64_try_from duration with
  | Some nanoseconds => u64_checked_add self nanoseconds
  | None => None
  end.
Definition checked_duration_since (self earlier : Z) : option Z :=
  if earlier <=? self then Some (self - earlier) else None.
End RtuTimestamp.

Module RtuTimingError.
Inductive t : Type := T1_5OutOfRange | T3_5OutOfRange | InvalidTiming.
End RtuTimingError.

Module RtuTiming.
Record t : Type := mk { t1_5_nanos : Z; t3_5_nanos : Z }.

Definition new (t1_5 t3_5 : Z) : res RtuTimingError.t t :=
  let? t1_5_nanos := ok_or (u64_try_from t1_5) RtuTimingError.T1_5OutOfRange in
  let? t3_5_nanos := ok_or (u64_try_from t3_5) RtuTimingError.T3_5OutOfRange in
  if (t1_5_nanos =? 0) || (t3_5_nanos <=? t1_5_nanos) then Err RtuTimingError.InvalidTiming else
  Ok (mk t1_5_nanos t3_5_nanos).
Definition try_from (config : ResolvedRtuConfig.t) : res RtuTimingError.t t :=
  new (ResolvedRtuConfig.t1_5 config) (ResolvedRtuConfig.t3_5 config).
End RtuTiming.

Module AssemblerDeadline.
Record t : Type := mk { due_at : Z; sequence : Z }.
End AssemblerDeadline.
#[export] Instance AssemblerDeadline_eq_dec : EqDecision AssemblerDeadline.t.
Proof. solve_decision. Defined.

Module AssemblerDiscardReason.
Inductive t : Type := InterCharacterGap | Overlength | TooShort | CrcMismatch.
End AssemblerDiscardReason.
Module AssemblerState.
Inductive t : Type := Idle | Collecting | Quarantined.
End AssemblerState.
Module AssemblerRecovery.
Inductive t : Type := Idle | CandidateStarted.
End AssemblerRecovery.

Module OwnedRtuAdu.
Record t : Type := mk { bytes : list Z; len : Z }.
Definition as_bytes (self : t) : res Empty_set (list Z) := slice_to (bytes self) (len self).
Definition is_empty (self : t) : bool := len self =? 0.
End OwnedRtuAdu.

Module AssemblerOutcome.
Inductive t : Type :=
  | Progress
  | FrameReady (adu : OwnedRtuAdu.t)
  | Discarded (reason : AssemblerDiscardReason.t)
  | Recovered (recovery : AssemblerRecovery.t)
  | StaleDeadline.
End AssemblerOutcome.

Module AssemblerError.
Inductive t : Type :=
  | TimestampRegression (previous observed : Z)
  | DeadlineNotDue (deadline : AssemblerDeadline.t) (observed : Z)
  | TimestampOverflow (timestamp : Z)
  | DeadlineGenerationOverflow.
End AssemblerError.

(** [u64::saturating_add(1)] *)
Definition saturating_increment (counter : Z) : Z := Z.min (counter + 1) u64_max.

Module AssemblerDiagnostics.
Record t : Type := mk {
  bytes_observed : Z;
  valid_frames : Z;
  inter_character_discards : Z;
  overlength_discards : Z;
  too_short_discards : Z;
  crc_mismatch_discards : Z;
  stale_deadlines : Z;
  early_deadlines : Z;
  timestamp_regressions : Z;
  quarantine_recoveries : Z;
}.
Definition default : t := mk 0 0 0 0 0 0 0 0 0 0.

(** [saturating_increment(&mut self.diagnostics.<field>)], one per field *)
Definition inc_bytes_observed '(mk a b c d e f g h i j) : t :=
  mk (saturating_increment a) b c d e f g h i j.
Definition inc_valid_frames '(mk a b c d e f g h i j) : t :=
  mk a (saturating_increment b) c d e f g h i j.
Definition inc_inter_character_discards '(mk a b c d e f g h i j) : t :=
  mk a b (saturating_increment c) d e f g h i j.
Definition inc_overlength_discards '(mk a b c d e f g h i j) : t :=
  mk a b c (saturating_increment d) e f g h i j.
Definition inc_too_short_discards '(mk a b c d e f g h i j) : t :=
  mk a b c d (saturating_increment e) f g h i j.
Definition inc_crc_mismatch_discards '(mk a b c d e f g h i j) : t :=
  mk a b c d e (saturating_increment f) g h i j.
Definition inc_stale_deadlines '(mk a b c d e f g h i j) : t :=
  mk a b c d e f (saturating_increment g) h i j.
Definition inc_early_deadlines '(mk a b c d e f g h i j) : t :=
  mk a b c d e f g (saturating_increment h) i j.
Definition inc_timestamp_regressions '(mk a b c d e f g h i j) : t :=
  mk a b c d e f g h (saturating_increment i) j.
Definition inc_quarantine_recoveries '(mk a b c d e f g h i j) : t :=
  mk a b c d e f g h i (saturating_increment j).
End AssemblerDiagnostics.

Module State.
Inductive t : Type :=
  | Idle
  | Collecting (len last_byte : Z) (deadline : AssemblerDeadline.t)
  | Quarantined (last_noise : Z) (deadline : AssemblerDeadline.t).

Definition public (self : t) : AssemblerState.t :=
  match self with
  | Idle => AssemblerState.Idle
  | Collecting _ _ _ => AssemblerState.Collecting
  | Quarantined _ _ => AssemblerState.Quarantined
  end.
Definition deadline (self : t) : option AssemblerDeadline.t :=
  match self with
  | Idle => None
  | Collecting _ _ deadline | Quarantined _ deadline => Some deadline
  end.
End State.

Module RtuFrameAssembler.
Record t : Type := mk {
  timing : RtuTiming.t;
  candidate : bytes;
  state : State.t;
  last_observed : option Z;
  deadline_sequence : Z;
  diagnostics : AssemblerDiagnostics.t;
}.

Definition new (timing : RtuTiming.t) : t :=
  mk timing zeroed_adu State.Idle None 0 AssemblerDiagnostics.default.
Definition from_resolved (config : ResolvedRtuConfig.t) : res RtuTimingError.t t :=
  rmap new (RtuTiming.try_from config).
Definition public_state (self : t) : AssemblerState.t := State.public (state self).
Definition candidate_len (self : t) : Z :=
  match state self with
  | State.Collecting len _ _ => len
  | State.Idle | State.Quarantined _ _ => 0
  end.
Definition next_deadline (self : t) : option AssemblerDeadline.t := State.deadline (state self).

(** Assignments to the fields of [self] *)
Abbreviation M A := (ST t AssemblerError.t A).
Definition count (inc : AssemblerDiagnostics.t → AssemblerDiagnostics.t) : M unit :=
  st_modify (λ '(mk tm c s lo sq d), mk tm c s lo sq (inc d)).
Definition set_state (s : State.t) : M unit :=
  st_modify (λ '(mk tm c _ lo sq d), mk tm c s lo sq d).
Definition set_last_observed (lo : option Z) : M unit :=
  st_modify (λ '(mk tm c s _ sq d), mk tm c s lo sq d).
Definition set_deadline_sequence (sq : Z) : M unit :=
  st_modify (λ '(mk tm c s lo _ d), mk tm c s lo sq d).
Definition set_candidate (i b : Z) : M unit :=
  λ '(mk tm c s lo sq d), let '(r, c) := buf_set i b c in (r, mk tm c s lo sq d).

Definition check_timestamp (observed : Z) : M unit :=
  self <- st_get;;
  match last_observed self with
  | Some previous =>
      if observed <? previous then
        count AssemblerDiagnostics.inc_timestamp_regressions;;;
        st_err (AssemblerError.TimestampRegression previous observed)
      else st_ret tt
  | None => st_ret tt
  end.

Definition plan_deadline (self : t) (timestamp : Z) : res AssemblerError.t (AssemblerDeadline.t * Z) :=
  let? sequence := ok_or (u64_checked_add (deadline_sequence self) 1)
                     AssemblerError.DeadlineGenerationOverflow in
  let? due_at := ok_or (RtuTimestamp.checked_add timestamp (RtuTiming.t3_5_nanos (timing self)))
                   (AssemblerError.TimestampOverflow timestamp) in
  Ok (AssemblerDeadline.mk due_at sequence, sequence).

Definition start_candidate (timestamp byte : Z) (deadline : AssemblerDeadline.t) (sequence : Z)
    : M unit :=
  set_candidate 0 byte;;;
  set_state (State.Collecting 1 timestamp deadline);;;
  set_deadline_sequence sequence;;;
  set_last_observed (Some timestamp).

Definition enter_quarantine (timestamp : Z) (deadline : AssemblerDeadline.t) (sequence : Z)
    : M unit :=
  set_state (State.Quarantined timestamp deadline);;;
  set_deadline_sequence sequence;;;
  set_last_observed (Some timestamp).

Definition finish_candidate (len : Z) : M AssemblerOutcome.t :=
  if len <? MIN_RTU_ADU_SIZE then
    count AssemblerDiagnostics.inc_too_short_discards;;;
    st_ret (AssemblerOutcome.Discarded AssemblerDiscardReason.TooShort)
  else
  self <- st_get;;
  populated <- st_lift (slice_to (candidate self) len);;
  valid <- st_lift (infallible (verify_crc populated));;
  if negb valid then
    count AssemblerDiagnostics.inc_crc_mismatch_discards;;;
    st_ret (AssemblerOutcome.Discarded AssemblerDiscardReason.CrcMismatch)
  else
  let '(copied, bytes) := buf_copy 0 len populated zeroed_adu in
  st_lift copied;;;
  count AssemblerDiagnostics.inc_valid_frames;;;
  st_ret (AssemblerOutcome.FrameReady (OwnedRtuAdu.mk bytes len)).

Definition observe_byte (timestamp byte : Z) : M AssemblerOutcome.t :=
  count AssemblerDiagnostics.inc_bytes_observed;;;
  check_timestamp timestamp;;;
  self <- st_get;;
  match state self with
  | State.Idle =>
      planned <- st_lift (plan_deadline self timestamp);;
      let '(deadline, sequence) := planned in
      start_candidate timestamp byte deadline sequence;;;
      st_ret AssemblerOutcome.Progress
  | State.Collecting len last_byte _ =>
      gap <- st_lift (usub timestamp last_byte);;
      if RtuTiming.t3_5_nanos (timing self) <=? gap then
        planned <- st_lift (plan_deadline self timestamp);;
        let '(deadline, sequence) := planned in
        outcome <- finish_candidate len;;
        start_candidate timestamp byte deadline sequence;;;
        st_ret outcome
      else
      if RtuTiming.t1_5_nanos (timing self) <? gap then
        planned <- st_lift (plan_deadline self timestamp);;
        let '(deadline, sequence) := planned in
        count AssemblerDiagnostics.inc_inter_character_discards;;;
        enter_quarantine timestamp deadline sequence;;;
        st_ret (AssemblerOutcome.Discarded AssemblerDiscardReason.InterCharacterGap)
      else
      if len =? MAX_RTU_ADU_SIZE then
        planned <- st_lift (plan_deadline self timestamp);;
        let '(deadline, sequence) := planned in
        count AssemblerDiagnostics.inc_overlength_discards;;;
        enter_quarantine timestamp deadline sequence;;;
        st_ret (AssemblerOutcome.Discarded AssemblerDiscardReason.Overlength)
      else
      planned <- st_lift (plan_deadline self timestamp);;
      let '(deadline, sequence) := planned in
      set_candidate len byte;;;
      set_state (State.Collecting (len + 1) timestamp deadline);;;
      set_deadline_sequence sequence;;;
      set_last_observed (Some timestamp);;;
      st_ret AssemblerOutcome.Progress
  | State.Quarantined last_noise _ =>
      gap <- st_lift (usub timestamp last_noise);;
      planned <- st_lift (plan_deadline self timestamp);;
      let '(deadline, sequence) := planned in
      if RtuTiming.t3_5_nanos (timing self) <=? gap then
        start_candidate timestamp byte deadline sequence;;;
        count AssemblerDiagnostics.inc_quarantine_recoveries;;;
        st_ret (AssemblerOutcome.Recovered AssemblerRecovery.CandidateStarted)
      else
        enter_quarantine timestamp deadline sequence;;;
        st_ret AssemblerOutcome.Progress
  end.

Definition observe_deadline (deadline : AssemblerDeadline.t) (observed_at : Z) : M AssemblerOutcome.t :=
  self <- st_get;;
  if bool_decide (State.deadline (state self) ≠ Some deadline) then
    count AssemblerDiagnostics.inc_stale_deadlines;;;
    st_ret AssemblerOutcome.StaleDeadline
  else
  check_timestamp observed_at;;;
  if observed_at <? AssemblerDeadline.due_at deadline then
    count AssemblerDiagnostics.inc_early_deadlines;;;
    st_err (AssemblerError.DeadlineNotDue deadline observed_at)
  else
  match state self with
  | State.Collecting len _ _ =>
      outcome <- finish_candidate len;;
      set_state State.Idle;;;
      set_last_observed (Some observed_at);;;
      st_ret outcome
  | State.Quarantined _ _ =>
      set_state State.Idle;;;
      set_last_observed (Some observed_at);;;
      count AssemblerDiagnostics.inc_quarantine_recoveries;;;
      st_ret (AssemblerOutcome.Recovered AssemblerRecovery.Idle)
  | State.Idle => st_panic
  end.
End RtuFrameAssembler.

(** * The line discipline

    The abstract machine the assembler implements: what the line is doing, the
    latest accepted timestamp and how many deadline tokens were handed out. The
    rules are those of the Modbus serial line guide: a pause of t3.5 separates
    frames, a pause of more than t1.5 spoils one, and a spoilt frame is skipped
    up to the next pause of t3.5. *)
Inductive event : Type :=
  | Byte (timestamp byte : Z)
  | Deadline (deadline : AssemblerDeadline.t) (observed_at : Z).

Inductive line : Type :=
  | Silent
  | Receiving (run : bytes) (last : Z)
  | Noisy (last : Z).

Record view : Type := View { on_line : line; seen : option Z; tokens : Z }.

(** The verdict on a run of bytes between two pauses *)
Definition verdict (run : bytes) : AssemblerOutcome.t :=
  if blen run <? MIN_RTU_ADU_SIZE then AssemblerOutcome.Discarded AssemblerDiscardReason.TooShort else
  match verify_crc run with
  | Ok true => AssemblerOutcome.FrameReady
      (OwnedRtuAdu.mk (overlay run zeroed_adu) (blen run))
  | _ => AssemblerOutcome.Discarded AssemblerDiscardReason.CrcMismatch
  end.

Section Discipline.
Context (tm : RtuTiming.t).
Abbreviation t1_5 := (RtuTiming.t1_5_nanos tm).
Abbreviation t3_5 := (RtuTiming.t3_5_nanos tm).

Definition in_order (v : view) (ts : Z) : Prop :=
  match seen v with Some previous => previous ≤ ts | None => True end.
(** A byte is accepted when its timestamp is in order and its deadline can be
    represented. *)
Definition acceptable (v : view) (ts : Z) : Prop :=
  in_order v ts ∧ tokens v + 1 ≤ u64_max ∧ ts + t3_5 ≤ u64_max.
Definition advance (v : view) (l : line) (ts : Z) : view := View l (Some ts) (tokens v + 1).
Definition active (v : view) : option AssemblerDeadline.t :=
  match on_line v with
  | Silent => None
  | Receiving _ last | Noisy last => Some (AssemblerDeadline.mk (last + t3_5) (tokens v))
  end.

Inductive step (v : view) : event → AssemblerOutcome.t → view → Prop :=
  | step_start ts b : on_line v = Silent → acceptable v ts →
      step v (Byte ts b) AssemblerOutcome.Progress (advance v (Receiving [b] ts) ts)
  | step_append run last ts b : on_line v = Receiving run last → acceptable v ts →
      ts - last ≤ t1_5 → blen run < MAX_RTU_ADU_SIZE →
      step v (Byte ts b) AssemblerOutcome.Progress (advance v (Receiving (run ++ [b]) ts) ts)
  | step_overlength run last ts b : on_line v = Receiving run last → acceptable v ts →
      ts - last ≤ t1_5 → blen run = MAX_RTU_ADU_SIZE →
      step v (Byte ts b) (AssemblerOutcome.Discarded AssemblerDiscardReason.Overlength)
        (advance v (Noisy ts) ts)
  | step_gap run last ts b : on_line v = Receiving run last → acceptable v ts →
      t1_5 < ts - last < t3_5 →
      step v (Byte ts b) (AssemblerOutcome.Discarded AssemblerDiscardReason.InterCharacterGap)
        (advance v (Noisy ts) ts)
  | step_close run last ts b : on_line v = Receiving run last → acceptable v ts →
      t3_5 ≤ ts - last →
      step v (Byte ts b) (verdict run) (advance v (Receiving [b] ts) ts)
  | step_noise last ts b : on_line v = Noisy last → acceptable v ts → ts - last < t3_5 →
      step v (Byte ts b) AssemblerOutcome.Progress (advance v (Noisy ts) ts)
  | step_recover last ts b : on_line v = Noisy last → acceptable v ts → t3_5 ≤ ts - last →
      step v (Byte ts b) (AssemblerOutcome.Recovered AssemblerRecovery.CandidateStarted)
        (advance v (Receiving [b] ts) ts)
  | step_stale d at_ : active v ≠ Some d →
      step v (Deadline d at_) AssemblerOutcome.StaleDeadline v
  | step_silence run last d at_ : on_line v = Receiving run last → active v = Some d →
      AssemblerDeadline.due_at d ≤ at_ →
      step v (Deadline d at_) (verdict run) (View Silent (Some at_) (tokens v))
  | step_settled last d at_ : on_line v = Noisy last → active v = Some d →
      AssemblerDeadline.due_at d ≤ at_ →
      step v (Deadline d at_) (AssemblerOutcome.Recovered AssemblerRecovery.Idle)
        (View Silent (Some at_) (tokens v)).
End Discipline.

(** How the struct represents the abstract state *)
Definition timing_ok (tm : RtuTiming.t) : Prop :=
  0 < RtuTiming.t1_5_nanos tm < RtuTiming.t3_5_nanos tm ∧ RtuTiming.t3_5_nanos tm ≤ u64_max.
Definition line_repr (tm : RtuTiming.t) (v : view) (c : bytes) (s : State.t) : Prop :=
  match on_line v, s with
  | Silent, State.Idle => True
  | Receiving run last, State.Collecting len last_byte deadline =>
      len = blen run ∧ 1 ≤ blen run ≤ MAX_RTU_ADU_SIZE ∧ last_byte = last ∧
      (∃ old, c = overlay run old ∧ blen old = MAX_RTU_ADU_SIZE) ∧
      seen v = Some last ∧ active tm v = Some deadline
  | Noisy last, State.Quarantined last_noise deadline =>
      last_noise = last ∧ seen v = Some last ∧ active tm v = Some deadline
  | _, _ => False
  end.
Definition repr (a : RtuFrameAssembler.t) (v : view) : Prop :=
  let 'RtuFrameAssembler.mk tm c s lo sq _ := a in
  timing_ok tm ∧ blen c = MAX_RTU_ADU_SIZE ∧ lo = seen v ∧ sq = tokens v ∧ 0 ≤ tokens v ∧
  line_repr tm v c s.

Definition observe (e : event) : ST RtuFrameAssembler.t AssemblerError.t AssemblerOutcome.t :=
  match e with
  | Byte ts b => RtuFrameAssembler.observe_byte ts b
  | Deadline d at_ => RtuFrameAssembler.observe_deadline d at_
  end.

(** Equal up to the counters *)
Definition same_assembly (a a' : RtuFrameAssembler.t) : Prop :=
  let 'RtuFrameAssembler.mk tm c s lo sq _ := a in
  let 'RtuFrameAssembler.mk tm' c' s' lo' sq' _ := a' in
  tm = tm' ∧ c = c' ∧ s = s' ∧ lo = lo' ∧ sq = sq'.

#[export] Instance same_assembly_equiv : Equivalence same_assembly.
Proof. split; repeat intros []; naive_solver. Qed.
#[export] Instance repr_same_assembly : Proper (same_assembly ==> eq ==> iff) repr.
Proof.
  intros [] [] (-> & -> & -> & -> & ->) v ? <-. done.
Qed.

(** * Lemmas *)
Section Steps.
Import RtuFrameAssembler.
Context (tm : RtuTiming.t) (c : bytes) (s : State.t) (lo : option Z) (sq : Z) (d : AssemblerDiagnostics.t).
Abbreviation t3_5 := (RtuTiming.t3_5_nanos tm).
Abbreviation self := (mk tm c s lo sq d).

Lemma check_timestamp_cases ts :
  (∃ d' previous, lo = Some previous ∧ ts < previous ∧
     check_timestamp ts self = (Err (AssemblerError.TimestampRegression previous ts), mk tm c s lo sq d')) ∨
  (match lo with Some previous => previous ≤ ts | None => True end ∧
     check_timestamp ts self = (Ok tt, self)).
Proof.
  unfold check_timestamp. cbn. destruct lo as [p|]; [|by right].
  destruct (Z.ltb_spec ts p); [left; eauto 10|by right].
Qed.
Lemma plan_deadline_cases ts : timing_ok tm → 0 ≤ sq →
  (∃ e, plan_deadline self ts = Err e ∧ (u64_max < sq + 1 ∨ u64_max < ts + t3_5)) ∨
  (sq + 1 ≤ u64_max ∧ ts + t3_5 ≤ u64_max ∧
     plan_deadline self ts = Ok (AssemblerDeadline.mk (ts + t3_5) (sq + 1), sq + 1)).
Proof.
  intros [? ?] ?. unfold plan_deadline, RtuTimestamp.checked_add, u64_checked_add, u64_try_from.
  cbn [timing deadline_sequence]. replace (t3_5 <=? u64_max) with true by lia.
  destruct (Z.leb_spec (sq + 1) u64_max); cbn [ok_or rbind]; [|left; eauto].
  destruct (Z.leb_spec (ts + t3_5) u64_max); cbn [ok_or rbind]; [by right|left; eauto].
Qed.
Lemma start_candidate_Ok ts b dl n : blen c = MAX_RTU_ADU_SIZE →
  start_candidate ts b dl n self
  = (Ok tt, mk tm (overlay [b] c) (State.Collecting 1 ts dl) (Some ts) n d).
Proof.
  intros Hc. unfold start_candidate. rewrite (st_bind_Ok _ _ _ tt (mk tm (overlay [b] c) s lo sq d)); [done|].
  unfold set_candidate. rewrite <-(overlay_nil c) at 1.
  rewrite buf_set_overlay; [done|done|rewrite Hc; reflexivity].
Qed.
Lemma finish_candidate_Ok run old : c = overlay run old → blen old = MAX_RTU_ADU_SIZE →
  blen run ≤ MAX_RTU_ADU_SIZE →
  ∃ d', finish_candidate (blen run) self = (Ok (verdict run), mk tm c s lo sq d').
Proof.
  intros -> Hold Hrun. unfold finish_candidate, verdict.
  case_match; [by eexists|].
  unfold st_bind at 1, st_get. cbn [candidate].
  pose proof (blen_nonneg run).
  rewrite slice_to_Ok by (rewrite blen_overlay by lia; lia).
  unfold overlay at 1, blen at 1. rewrite Nat2Z.id, take_app_length.
  unfold st_bind at 1, st_lift at 1. unfold st_bind at 1, st_lift at 1.
  pose proof (verify_crc_returns run) as Hr.
  destruct (verify_crc run) as [[]|[]| |]; try done; cbn [infallible negb]; [|by eexists].
  pose proof (buf_copy_overlay (E := AssemblerError.t) 0 (blen run) run []
    zeroed_adu eq_refl) as Hcopy.
  rewrite overlay_nil, blen_zeroed_adu in Hcopy. cbn [app] in Hcopy.
  rewrite Hcopy by lia. by eexists.
Qed.
End Steps.

(** What one event does: the outcome is that of a rule and the new state
    represents its result, or the event is refused and only counters change. *)
Definition simulates (a : RtuFrameAssembler.t) (v : view) (e : event)
    (result : res AssemblerError.t AssemblerOutcome.t * RtuFrameAssembler.t) : Prop :=
  let tm := RtuFrameAssembler.timing a in
  match result with
  | (Ok o, a') => ∃ v', step tm v e o v' ∧ repr a' v' ∧ RtuFrameAssembler.timing a' = tm
  | (Err _, a') => same_assembly a a' ∧ ∀ o v', ¬ step tm v e o v'
  | _ => False
  end.

(** The tail of every branch that accepts a byte *)
Lemma simulates_refused tm c s lo sq d d' v ts b err :
  ¬ acceptable tm v ts →
  simulates (RtuFrameAssembler.mk tm c s lo sq d) v (Byte ts b)
    (Err err, RtuFrameAssembler.mk tm c s lo sq d').
Proof. intros Hn. split; [done|]. intros o v' Hs. by inv Hs. Qed.

Lemma simulates_early tm c s lo sq d d' v dl at_ err :
  active tm v = Some dl → at_ < AssemblerDeadline.due_at dl →
  simulates (RtuFrameAssembler.mk tm c s lo sq d) v (Deadline dl at_)
    (Err err, RtuFrameAssembler.mk tm c s lo sq d').
Proof. intros Ha Hd. split; [done|]. intros o v' Hs.
  cbn [RtuFrameAssembler.timing] in Hs. inv Hs; lia.
Qed.

Ltac planned Htm Hsq ts :=
  match goal with |- context [RtuFrameAssembler.plan_deadline ?a ts] =>
    match a with RtuFrameAssembler.mk ?tm ?c ?s ?lo ?sq ?d =>
      destruct (plan_deadline_cases tm c s lo sq d ts Htm Hsq) as [(? & Hplan & ?)|(? & ? & Hplan)];
      rewrite Hplan; clear Hplan;
      [apply simulates_refused; unfold acceptable; cbn [tokens]; lia|]
    end
  end.

Ltac finished run old :=
  match goal with |- context [st_bind (RtuFrameAssembler.finish_candidate _) _ ?a] =>
    match a with RtuFrameAssembler.mk ?tm ?c ?s ?lo ?sq ?d =>
      destruct (finish_candidate_Ok tm c s lo sq d run old) as [? Hfinish]; [done|done|lia|];
      erewrite st_bind_Ok by exact Hfinish; clear Hfinish
    end
  end.
Ltac accepted := eexists; split_and!; [by econstructor|..|done];
  unfold repr, line_repr; cbn [advance active on_line seen tokens];
  unfold MAX_RTU_ADU_SIZE in *; split_and!;
  first [done | lia | eexists; split; [reflexivity|lia]
        | rewrite ?blen_overlay; autorewrite with blen; lia | autorewrite with blen; lia | idtac].

Lemma observe_byte_simulates a v ts b : repr a v →
  simulates a v (Byte ts b) (observe (Byte ts b) a).
Proof.
  destruct a as [tm c s lo sq d], v as [l sn tk].
  intros (Htm & Hc & -> & -> & Htk & Hl). cbn [seen tokens] in *. unfold line_repr in Hl. cbn [on_line seen tokens] in Hl.
  cbn [observe]. unfold RtuFrameAssembler.observe_byte.
  unfold st_bind at 1, RtuFrameAssembler.count, st_modify at 1.
  unfold st_bind at 1.
  destruct (check_timestamp_cases tm c s sn tk (AssemblerDiagnostics.inc_bytes_observed d) ts)
    as [(d' & p & -> & Hlt & ->)|[Hord ->]].
  { apply simulates_refused. unfold acceptable, in_order. simpl. lia. }
  unfold st_bind at 1, st_get. cbn [RtuFrameAssembler.state].
  destruct l as [|run last|last], s as [|len last_byte dl|last_noise dl]; try done.
  - unfold st_bind at 1, st_lift. planned Htm Htk ts.
    erewrite st_bind_Ok by by apply start_candidate_Ok.
    accepted.
  - destruct Hl as (-> & Hrun & -> & (old & -> & Hold) & -> & [= <-]).
    unfold st_bind at 1, st_lift at 1. rewrite usub_Ok by done. cbn [RtuFrameAssembler.timing].
    destruct (Z.leb_spec (RtuTiming.t3_5_nanos tm) (ts - last)).
    { unfold st_bind at 1, st_lift at 1. planned Htm Htk ts.
      finished run old. erewrite st_bind_Ok by by apply start_candidate_Ok.
      accepted. }
    destruct (Z.ltb_spec (RtuTiming.t1_5_nanos tm) (ts - last)).
    { unfold st_bind at 1, st_lift at 1. planned Htm Htk ts.
      accepted. }
    destruct (Z.eqb_spec (blen run) MAX_RTU_ADU_SIZE).
    { unfold st_bind at 1, st_lift at 1. planned Htm Htk ts.
      accepted. }
    unfold st_bind at 1, st_lift at 1. planned Htm Htk ts.
    unfold st_bind at 1, RtuFrameAssembler.set_candidate.
    assert (blen run < MAX_RTU_ADU_SIZE) by lia. rewrite buf_set_overlay by lia. accepted.
  - destruct Hl as (-> & -> & [= <-]).
    unfold st_bind at 1, st_lift at 1. rewrite usub_Ok by done.
    unfold st_bind at 1, st_lift at 1. planned Htm Htk ts. cbn [RtuFrameAssembler.timing].
    destruct (Z.leb_spec (RtuTiming.t3_5_nanos tm) (ts - last)); [|by accepted].
    erewrite st_bind_Ok by by apply start_candidate_Ok. accepted.
Qed.

Lemma repr_deadline a v : repr a v →
  State.deadline (RtuFrameAssembler.state a) = active (RtuFrameAssembler.timing a) v.
Proof.
  destruct a as [tm c s lo sq d]. intros (_ & _ & _ & _ & _ & Hl). unfold line_repr, active in *.
  destruct (on_line v), s; cbn in *; naive_solver.
Qed.
Lemma observe_deadline_simulates a v dl at_ : repr a v →
  simulates a v (Deadline dl at_) (observe (Deadline dl at_) a).
Proof.
  intros Ha. pose proof (repr_deadline a v Ha) as Hdl. revert Ha Hdl. destruct a as [tm c s lo sq d], v as [l sn tk].
  intros (Htm & Hc & -> & -> & Htk & Hl) Hdl.
  cbn [seen tokens RtuFrameAssembler.state RtuFrameAssembler.timing] in *. unfold line_repr in Hl. cbn [on_line seen tokens] in Hl.
  cbn [observe]. unfold RtuFrameAssembler.observe_deadline.
  unfold st_bind at 1, st_get. cbn [RtuFrameAssembler.state]. rewrite Hdl.
  case_bool_decide as Hstale; [by accepted|].
  assert (active tm (View l sn tk) = Some dl) as Hact by (by destruct (decide (active tm (View l sn tk) = Some dl))).
  unfold st_bind at 1.
  destruct (check_timestamp_cases tm c s sn tk d at_) as [(d' & p & -> & Hlt & ->)|[Hord ->]].
  { apply simulates_early; [done|]. destruct l, s; try done.
    - destruct Hl as (_ & _ & _ & _ & [= ->] & _). injection Hact as <-. simpl. unfold timing_ok in Htm. lia.
    - destruct Hl as (_ & [= ->] & _). injection Hact as <-. simpl. unfold timing_ok in Htm. lia. }
  destruct (Z.ltb_spec at_ (AssemblerDeadline.due_at dl)).
  { by apply simulates_early. }
  destruct l as [|run last|last], s as [|len last_byte dl'|last_noise dl']; try done.
  - destruct Hl as (-> & Hrun & -> & (old & -> & Hold) & -> & Ha).
    finished run old. accepted.
  - accepted.
Qed.
Lemma observe_simulates a v e : repr a v → simulates a v e (observe e a).
Proof. destruct e; [apply observe_byte_simulates|apply observe_deadline_simulates]. Qed.

Lemma step_det tm v e o v' o2 v2 : timing_ok tm → step tm v e o v' → step tm v e o2 v2 → o = o2 ∧ v' = v2.
Proof.
  intros [Ht _] H1 H2. destruct H1; inv H2; try congruence; try lia;
    repeat match goal with
    | H : on_line _ = _, H' : on_line _ = _ |- _ => rewrite H in H'; inv H'
    end; try done; lia.
Qed.

(** An outcome [StaleDeadline] comes from the first test only. *)
Lemma observe_stale a v e a' : repr a v → observe e a = (Ok AssemblerOutcome.StaleDeadline, a') →
  same_assembly a a'.
Proof.
  intros Ha He. pose proof (observe_simulates a v e Ha) as Hs. rewrite He in Hs.
  destruct Hs as (v' & Hs & _). remember AssemblerOutcome.StaleDeadline as o eqn:Ho.
  destruct Hs as [| | | | | | |d at_ Hne| |]; try done;
    try (unfold verdict in Ho; repeat case_match; done).
  rewrite <-(repr_deadline a v Ha) in Hne. destruct a as [tm c s lo sq dg].
  cbn [observe] in He. unfold RtuFrameAssembler.observe_deadline, st_bind, st_get in He.
  rewrite bool_decide_true in He by done. by injection He as <-.
Qed.

(** ** Sequences of events *)

(** The caller goes on after a refused event. *)
Fixpoint outcomes (es : list event) (a : RtuFrameAssembler.t)
    : list (res AssemblerError.t AssemblerOutcome.t) * RtuFrameAssembler.t :=
  match es with
  | [] => ([], a)
  | e :: es =>
      let '(r, a) := observe e a in
      let '(rs, a) := outcomes es a in (r :: rs, a)
  end.

Definition initial : view := View Silent None 0.
Lemma new_repr tm : timing_ok tm → repr (RtuFrameAssembler.new tm) initial.
Proof. intros. unfold repr. cbn. split_and!; done. Qed.

Lemma outcomes_app es1 es2 a :
  outcomes (es1 ++ es2) a =
  let '(rs1, a1) := outcomes es1 a in
  let '(rs2, a2) := outcomes es2 a1 in (rs1 ++ rs2, a2).
Proof.
  revert a. induction es1 as [|e es1 IH]; intros a; simpl; [by destruct (outcomes es2 a)|].
  destruct (observe e a) as [r a1]. rewrite IH.
  destruct (outcomes es1 a1) as [rs1 a2]. by destruct (outcomes es2 a2).
Qed.

(** What every outcome satisfies *)
Definition sound_outcome (r : res AssemblerError.t AssemblerOutcome.t) : Prop :=
  match r with
  | Ok (AssemblerOutcome.FrameReady adu) =>
      ∃ f, OwnedRtuAdu.as_bytes adu = Ok f ∧ OwnedRtuAdu.len adu = blen f ∧
           4 ≤ blen f ≤ 256 ∧ verify_crc f = Ok true
  | Ok _ | Err _ => True
  | _ => False
  end.
Lemma verdict_sound run : blen run ≤ MAX_RTU_ADU_SIZE → sound_outcome (Ok (verdict run)).
Proof.
  intros Hr. unfold verdict, MIN_RTU_ADU_SIZE. case_match eqn:Hlen; [done|]. simpl.
  destruct (verify_crc run) as [[]|[]| |] eqn:Hv; try done. exists run.
  unfold OwnedRtuAdu.as_bytes. cbn [OwnedRtuAdu.bytes OwnedRtuAdu.len].
  unfold MAX_RTU_ADU_SIZE in *. split_and!; try done; try lia.
  rewrite slice_to_Ok by (rewrite blen_overlay; rewrite ?blen_zeroed_adu; unfold MAX_RTU_ADU_SIZE; lia).
  unfold overlay, blen. by rewrite Nat2Z.id, take_app_length.
Qed.
Lemma step_sound a v e o v' : repr a v → step (RtuFrameAssembler.timing a) v e o v' → sound_outcome (Ok o).
Proof.
  destruct a as [tm c s lo sq d]. intros (_ & _ & _ & _ & _ & Hl) Hs.
  unfold line_repr in Hl. destruct Hs as [| | | |? ? ? ? Hon| | | |? ? ? ? Hon|];
    try done; rewrite Hon in Hl; destruct s; try done; apply verdict_sound; naive_solver.
Qed.
Lemma outcomes_sound es a v : repr a v →
  Forall sound_outcome (outcomes es a).1 ∧ ∃ v', repr (outcomes es a).2 v'.
Proof.
  revert a v. induction es as [|e es IH]; intros a v Ha; simpl; [split; [done|eauto]|].
  pose proof (observe_simulates a v e Ha) as Hs.
  destruct (observe e a) as [[o|err| |] a1]; try done; destruct (outcomes es a1) as [rs a2] eqn:Hes.
  - destruct Hs as (v1 & Hstep & H1 & _). destruct (IH a1 v1 H1) as [? ?]. rewrite Hes in *.
    split; [|done]. constructor; [exact (step_sound a v e o v1 Ha Hstep)|done].
  - destruct Hs as [Hsame _]. rewrite Hsame in Ha. destruct (IH a1 v Ha) as [? ?]. rewrite Hes in *.
    split; [|done]. by constructor.
Qed.

(** ** Refused and obsolete events *)
(** Two computations that agree up to the counters *)
Definition agree {A} (x y : res AssemblerError.t A * RtuFrameAssembler.t) : Prop :=
  x.1 = y.1 ∧ same_assembly x.2 y.2.
Definition uniform {A} (m : ST RtuFrameAssembler.t AssemblerError.t A) : Prop :=
  ∀ a a', same_assembly a a' → agree (m a) (m a').

Section Uniform.
Import RtuFrameAssembler.
Lemma uniform_bind {A B} (m : M A) (k : A → M B) :
  uniform m → (∀ a, uniform (k a)) → uniform (st_bind m k).
Proof.
  intros Hm Hk a a' Ha. destruct (Hm a a' Ha) as [Hr Hs]. unfold st_bind.
  destruct (m a) as [r b], (m a') as [r' b']. cbn in *. subst r'. destruct r; [by apply Hk|done..].
Qed.
Lemma uniform_get {B} (k : t → M B) :
  (∀ a a', same_assembly a a' → agree (k a a) (k a' a')) → uniform (st_bind st_get k).
Proof. intros Hk a a' Ha. by apply Hk. Qed.
Lemma uniform_lift {A} (r : res AssemblerError.t A) : uniform (st_lift r).
Proof. by intros a a' Ha. Qed.
Lemma uniform_ret {A} (x : A) : uniform (st_ret x).
Proof. by intros a a' Ha. Qed.
Lemma uniform_err {A} e : uniform (A := A) (st_err e).
Proof. by intros a a' Ha. Qed.
Lemma uniform_count inc : uniform (count inc).
Proof. by intros [] []. Qed.
Lemma uniform_set_state s : uniform (set_state s).
Proof. by intros [] [] (-> & -> & -> & -> & ->). Qed.
Lemma uniform_set_last_observed lo : uniform (set_last_observed lo).
Proof. by intros [] [] (-> & -> & -> & -> & ->). Qed.
Lemma uniform_set_deadline_sequence sq : uniform (set_deadline_sequence sq).
Proof. by intros [] [] (-> & -> & -> & -> & ->). Qed.
Lemma uniform_set_candidate i b : uniform (set_candidate i b).
Proof. intros [] [] (-> & -> & -> & -> & ->). unfold set_candidate. by destruct (buf_set _ _ _). Qed.
End Uniform.
Create HintDb uniform.
#[export] Hint Resolve uniform_bind uniform_lift uniform_ret uniform_err uniform_count uniform_set_state
  uniform_set_last_observed uniform_set_deadline_sequence uniform_set_candidate : uniform.

Section UniformOps.
Import RtuFrameAssembler.
(** A branch taken on a field the counters do not touch *)
Ltac uniform_open := apply uniform_get; intros [] [] (-> & -> & -> & -> & ->).
Ltac uniform_go := repeat first
  [ progress cbn [last_observed candidate state timing deadline_sequence negb]
  | match goal with
    | |- agree (?m ?a) (_ ?b) => refine ((_ : uniform m) a b _); [|done]
    | |- uniform (let '(_, _) := ?x in _) => destruct x
    | |- uniform (if ?b then _ else _) => destruct b
    | |- uniform (match ?x with _ => _ end) => destruct x
    | |- uniform (st_bind st_get _) => uniform_open
    | |- uniform (st_bind _ _) => apply uniform_bind; [|intros ?]
    | |- uniform _ => solve [auto with uniform]
    end ].

Lemma uniform_check_timestamp ts : uniform (check_timestamp ts).
Proof. unfold check_timestamp. uniform_go. Qed.
Lemma uniform_finish_candidate len : uniform (finish_candidate len).
Proof. unfold finish_candidate. uniform_go. Qed.
#[local] Hint Resolve uniform_check_timestamp uniform_finish_candidate : uniform.

Lemma uniform_observe e : uniform (observe e).
Proof.
  destruct e as [ts b|dl at_]; cbn [observe]; unfold observe_byte, observe_deadline.
  - unfold start_candidate, enter_quarantine. uniform_go.
  - uniform_go. by intros x y Hxy.
Qed.
End UniformOps.

Lemma outcomes_same es a a' : same_assembly a a' →
  (outcomes es a).1 = (outcomes es a').1 ∧ same_assembly (outcomes es a).2 (outcomes es a').2.
Proof.
  revert a a'. induction es as [|e es IH]; intros a a' Ha; [done|]. simpl.
  destruct (uniform_observe e a a' Ha) as [Hr Hs].
  destruct (observe e a) as [r b], (observe e a') as [r' b']. cbn in Hr, Hs. subst r'.
  destruct (IH b b' Hs) as [Hrs Hss].
  destruct (outcomes es b), (outcomes es b'). cbn in *. by subst.
Qed.

(** ** The frames of a timeline

    A timeline is a sequence of bursts: bytes less than t3.5 apart, each burst
    followed by at least t3.5 of silence. The driver may report the silence
    through the active deadline, at any time from when it is due. *)
Definition burst : Type := list (Z * Z) * option Z.

Fixpoint pauses (P : Z → Prop) (last : Z) (g : list (Z * Z)) : Prop :=
  match g with
  | [] => True
  | (ts, _) :: g => P (ts - last) ∧ pauses P ts g
  end.
Definition bytes_of (g : list (Z * Z)) : bytes := map snd g.
Fixpoint end_of (last : Z) (g : list (Z * Z)) : Z :=
  match g with [] => last | (ts, _) :: g => end_of ts g end.

Section Timeline.
Context (tm : RtuTiming.t) (Htm : timing_ok tm).
Abbreviation t1_5 := (RtuTiming.t1_5_nanos tm).
Abbreviation t3_5 := (RtuTiming.t3_5_nanos tm).

(** A clean burst is a frame: no pause above t1.5, 4 to 256 bytes, and a
    checksum that fits. *)
Fixpoint clean (last : Z) (g : list (Z * Z)) : bool :=
  match g with [] => true | (ts, _) :: g => (ts - last <=? t1_5) && clean ts g end.
Definition frame_of (is_clean : bool) (run : bytes) : option bytes :=
  if is_clean && (4 <=? blen run) && (blen run <=? 256)
     && (match verify_crc run with Ok true => true | _ => false end)
  then Some run else None.
Definition frame_of_burst (x : burst) : option bytes :=
  match x.1 with
  | [] => None
  | (t0, _) :: g => frame_of (clean t0 g) (bytes_of x.1)
  end.
Fixpoint timeline (from : Z) (xs : list burst) : Prop :=
  match xs with
  | [] => True
  | ([], _) :: _ => False
  | ((t0, b) :: g, close) :: xs =>
      let fin := end_of t0 g in
      from ≤ t0 ∧ pauses (λ p, 0 ≤ p < t3_5) t0 g ∧ fin + t3_5 ≤ u64_max ∧
      match close with
      | Some at_ => fin + t3_5 ≤ at_ ∧ timeline at_ xs
      | None => timeline (fin + t3_5) xs
      end
  end.
(** The last burst is closed by its deadline. *)
Fixpoint closes (is_open : bool) (xs : list burst) : Prop :=
  match xs with
  | [] => is_open = false
  | (_, close) :: xs => closes (match close with Some _ => false | None => true end) xs
  end.
(** The events the driver submits; the token of a deadline is the number of bytes
    submitted so far. *)
Fixpoint events (n : Z) (xs : list burst) : list event :=
  match xs with
  | [] => []
  | (g, close) :: xs =>
      let n := n + blen g in
      map (λ '(ts, b), Byte ts b) g ++
      match close with
      | Some at_ => [Deadline (AssemblerDeadline.mk (end_of 0 g + t3_5) n) at_]
      | None => []
      end ++ events n xs
  end.

(** The frames among the outcomes *)
Definition emitted (o : AssemblerOutcome.t) : option bytes :=
  match o with
  | AssemblerOutcome.FrameReady adu =>
      match OwnedRtuAdu.as_bytes adu with Ok f => Some f | _ => None end
  | _ => None
  end.
Definition frames (rs : list (res AssemblerError.t AssemblerOutcome.t)) : list bytes :=
  omap (λ r, match r with Ok o => emitted o | _ => None end) rs.

Definition line_of (is_clean : bool) (run : bytes) (last : Z) : line :=
  if is_clean && (blen run <=? 256) then Receiving run last else Noisy last.

Lemma emitted_verdict is_clean run : is_clean && (blen run <=? 256) = true →
  emitted (verdict run) = frame_of is_clean run.
Proof.
  intros [-> Hlen]%andb_prop. pose proof (verdict_sound run ltac:(unfold MAX_RTU_ADU_SIZE; lia)) as Hs.
  unfold frame_of. rewrite Hlen. cbn [andb]. rewrite andb_true_r. revert Hs. unfold verdict, MIN_RTU_ADU_SIZE.
  destruct (Z.ltb_spec (blen run) 4); [by replace (4 <=? blen run) with false by lia|].
  replace (4 <=? blen run) with true by lia. cbn [andb].
  destruct (verify_crc run) as [[]|[]| |]; try done.
  intros (f & Hf & Hlen' & _). cbn [emitted OwnedRtuAdu.len] in *. rewrite Hf.
  unfold OwnedRtuAdu.as_bytes in Hf. cbn [OwnedRtuAdu.bytes OwnedRtuAdu.len] in Hf.
  rewrite slice_to_Ok in Hf by (rewrite blen_overlay; rewrite ?blen_zeroed_adu; unfold MAX_RTU_ADU_SIZE; lia).
  injection Hf as <-. unfold overlay, blen. by rewrite Nat2Z.id, take_app_length.
Qed.
Lemma frame_of_spoilt is_clean run : is_clean && (blen run <=? 256) = false → frame_of is_clean run = None.
Proof.
  unfold frame_of. destruct is_clean; [|done]. cbn [andb]. intros ->. by rewrite andb_false_r.
Qed.
Lemma end_of_ge last g : pauses (λ p, 0 ≤ p < t3_5) last g → last ≤ end_of last g.
Proof.
  revert last. induction g as [|[ts b] g IH]; intros last; simpl; [lia|]. intros [? ?%IH]. lia.
Qed.

(** The three moves of a timeline, on the abstract machine *)
Lemma move_byte is_clean run last n ts b : run ≠ [] → 0 ≤ ts - last < t3_5 →
  n + 1 ≤ u64_max → ts + t3_5 ≤ u64_max →
  ∃ o, emitted o = None ∧
    step tm (View (line_of is_clean run last) (Some last) n) (Byte ts b) o
      (View (line_of (is_clean && (ts - last <=? t1_5)) (run ++ [b]) ts) (Some ts) (n + 1)).
Proof.
  intros Hne Hp Hn Hts. unfold line_of at 1.
  assert (∀ l, acceptable tm (View l (Some last) n) ts) as Hacc
    by (unfold acceptable, in_order; simpl; lia).
  unfold line_of at 1. autorewrite with blen.
  destruct is_clean; cbn [andb]; [destruct (Z.leb_spec (blen run) 256);
    [destruct (Z.leb_spec (ts - last) t1_5); cbn [andb];
     [destruct (Z.leb_spec (blen run + (1 + 0)) 256)|]|]|].
  - eexists; split; [|apply (step_append tm (View _ _ _) run last);
      [done|auto|lia|unfold MAX_RTU_ADU_SIZE; lia]]; done.
  - eexists; split; [|apply (step_overlength tm (View _ _ _) run last);
      [done|auto|lia|unfold MAX_RTU_ADU_SIZE; lia]]; done.
  - eexists; split; [|apply (step_gap tm (View _ _ _) run last); [done|auto|lia]]; done.
  - replace (blen run + (1 + 0) <=? 256) with false by lia. rewrite andb_false_r.
    eexists; split; [|apply (step_noise tm (View _ _ _) last); [done|auto|lia]]; done.
  - eexists; split; [|apply (step_noise tm (View _ _ _) last); [done|auto|lia]]; done.
Qed.
Lemma move_close is_clean run last n ts b : last + t3_5 ≤ ts → n + 1 ≤ u64_max → ts + t3_5 ≤ u64_max →
  ∃ o, emitted o = frame_of is_clean run ∧
    step tm (View (line_of is_clean run last) (Some last) n) (Byte ts b) o
      (View (line_of true [b] ts) (Some ts) (n + 1)).
Proof.
  intros Hp Hn Hts. change (line_of true [b] ts) with (Receiving [b] ts). unfold line_of.
  destruct Htm as [? _].
  assert (∀ l, acceptable tm (View l (Some last) n) ts) as Hacc
    by (unfold acceptable, in_order; simpl; lia).
  destruct (is_clean && (blen run <=? 256)) eqn:Hc.
  - eexists. split; [by apply emitted_verdict|].
    apply (step_close tm (View _ _ _) run last); [done|auto|lia].
  - eexists. split; [|apply (step_recover tm (View _ _ _) last); [done|auto|lia]].
    by rewrite frame_of_spoilt.
Qed.
Lemma move_silence is_clean run last n at_ : last + t3_5 ≤ at_ →
  ∃ o, emitted o = frame_of is_clean run ∧
    step tm (View (line_of is_clean run last) (Some last) n)
      (Deadline (AssemblerDeadline.mk (last + t3_5) n) at_) o (View Silent (Some at_) n).
Proof.
  intros Hp. unfold line_of. destruct (is_clean && (blen run <=? 256)) eqn:Hc.
  - eexists. split; [by apply emitted_verdict|]. by apply (step_silence tm (View _ _ _) run last).
  - eexists. split; [|by apply (step_settled tm (View _ _ _) last)]. by rewrite frame_of_spoilt.
Qed.

(** ** Running a timeline

    [runs a es fs Q]: from [a], no event of [es] is refused, the frames emitted are
    [fs], and the assembler ends up representing a state in [Q]. *)
Definition runs (a : RtuFrameAssembler.t) (es : list event) (fs : list bytes) (Q : view → Prop) : Prop :=
  frames (outcomes es a).1 = fs ∧
  Forall (λ r, match r with Ok _ => True | _ => False end) (outcomes es a).1 ∧
  RtuFrameAssembler.timing (outcomes es a).2 = tm ∧ ∃ v, Q v ∧ repr (outcomes es a).2 v.

Lemma runs_nil a v (Q : view → Prop) : repr a v → RtuFrameAssembler.timing a = tm → Q v → runs a [] [] Q.
Proof. intros. split_and!; try done. by exists v. Qed.
Lemma runs_cons a v e o v1 es fs Q : repr a v → RtuFrameAssembler.timing a = tm → step tm v e o v1 →
  (∀ a1, repr a1 v1 → RtuFrameAssembler.timing a1 = tm → runs a1 es fs Q) →
  runs a (e :: es) (option_list (emitted o) ++ fs) Q.
Proof.
  intros Ha Ht Hs Hk. pose proof (observe_simulates a v e Ha) as Hsim. unfold runs. simpl.
  destruct (observe e a) as [[o'|err| |] a1]; try done; cbn in Hsim; rewrite Ht in Hsim.
  - destruct Hsim as (v1' & Hs' & Ha1 & Ht1).
    destruct (step_det tm v e o v1 o' v1' Htm Hs Hs') as [<- <-].
    destruct (Hk a1 Ha1 Ht1) as (? & ? & ?). destruct (outcomes es a1) as [rs a2]. cbn in *.
    split_and!; [|by constructor|naive_solver..]. destruct (emitted o); simpl; by f_equal.
  - destruct Hsim as [_ Hno]. by destruct (Hno o v1).
Qed.
Lemma runs_app a es1 fs1 v1 es2 fs2 Q : runs a es1 fs1 (eq v1) →
  (∀ a1, repr a1 v1 → RtuFrameAssembler.timing a1 = tm → runs a1 es2 fs2 Q) →
  runs a (es1 ++ es2) (fs1 ++ fs2) Q.
Proof.
  unfold runs. rewrite outcomes_app. intros (<- & H1 & H3 & ? & <- & H2) Hk.
  destruct (outcomes es1 a) as [rs1 a1]. destruct (Hk a1 H2 H3) as (<- & ? & ?).
  destruct (outcomes es2 a1). cbn in *. split_and!; [|by apply Forall_app|naive_solver..].
  unfold frames. by rewrite omap_app.
Qed.

Lemma runs_burst g : ∀ a is_clean run last n, run ≠ [] →
  repr a (View (line_of is_clean run last) (Some last) n) → RtuFrameAssembler.timing a = tm →
  pauses (λ p, 0 ≤ p < t3_5) last g → n + blen g ≤ u64_max → end_of last g + t3_5 ≤ u64_max →
  runs a (map (λ '(ts, b), Byte ts b) g) []
    (eq (View (line_of (is_clean && clean last g) (run ++ bytes_of g) (end_of last g))
           (Some (end_of last g)) (n + blen g))).
Proof.
  induction g as [|[ts b] g IH]; intros a is_clean run last n Hne Ha Ht Hp Hn He; simpl in *.
  - rewrite andb_true_r, app_nil_r, blen_nil, Z.add_0_r. by eapply runs_nil.
  - rewrite blen_cons in *. pose proof (blen_nonneg g). destruct Hp as [Hp Hps].
    pose proof (end_of_ge ts g Hps).
    destruct (move_byte is_clean run last n ts b) as (o & Ho & Hs); [done|lia..|].
    replace [] with (option_list (emitted o) ++ []) by by rewrite Ho.
    eapply runs_cons; [done..|]. intros a1 Ha1 Ht1.
    rewrite andb_assoc, Z.add_assoc, (cons_middle b), (app_assoc run).
    apply IH; try done; [|lia]. intros Heq%app_nil. naive_solver.
Qed.

Definition total (xs : list burst) : Z := foldr (λ x n, blen x.1 + n) 0 xs.
(** Between bursts the last one is pending unless its deadline was reported. *)
Definition pending : Type := option (bool * bytes * Z).
Definition pending_line (p : pending) : line :=
  match p with Some (c, run, last) => line_of c run last | None => Silent end.
Definition pending_open (p : pending) : bool := match p with Some _ => true | None => false end.
Definition pending_ok (p : pending) (sn : option Z) (from : Z) : Prop :=
  match p, sn with
  | Some (_, _, last), Some s => s = last ∧ last + t3_5 ≤ from
  | None, Some s => s ≤ from
  | None, None => True
  | _, _ => False
  end.
Definition pending_frame (p : pending) : option bytes :=
  match p with Some (c, run, _) => frame_of c run | None => None end.

(** The first byte of a burst settles the pending one. *)
Lemma move_first p sn n from t0 b : pending_ok p sn from → from ≤ t0 → n + 1 ≤ u64_max →
  t0 + t3_5 ≤ u64_max →
  ∃ o, emitted o = pending_frame p ∧
    step tm (View (pending_line p) sn n) (Byte t0 b) o (View (line_of true [b] t0) (Some t0) (n + 1)).
Proof.
  intros Hp Hfrom Hn Hts. destruct p as [[[c run] last]|]; cbn in Hp.
  - destruct sn; [|done]. destruct Hp as [-> ?]. by apply move_close; [lia|..].
  - exists AssemblerOutcome.Progress. split; [done|].
    apply (step_start tm (View _ _ _)); [done|]. unfold acceptable, in_order. cbn. destruct sn; lia.
Qed.
Lemma runs_one_burst a p sn n from t0 b g es fs Q :
  repr a (View (pending_line p) sn n) → RtuFrameAssembler.timing a = tm →
  pending_ok p sn from → from ≤ t0 → pauses (λ p, 0 ≤ p < t3_5) t0 g →
  n + 1 + blen g ≤ u64_max → end_of t0 g + t3_5 ≤ u64_max →
  (∀ a1, repr a1 (View (pending_line (Some (clean t0 g, bytes_of ((t0, b) :: g), end_of t0 g)))
           (Some (end_of t0 g)) (n + 1 + blen g)) →
     RtuFrameAssembler.timing a1 = tm → runs a1 es fs Q) →
  runs a (map (λ '(ts, b), Byte ts b) ((t0, b) :: g) ++ es) (option_list (pending_frame p) ++ fs) Q.
Proof.
  intros Ha Ht Hp Hfrom Hps Hn Hend Hk. pose proof (blen_nonneg g). pose proof (end_of_ge t0 g Hps).
  destruct (move_first p sn n from t0 b) as (o & Ho & Hs); [done|done|lia|lia|].
  rewrite <-Ho. cbn [map app]. eapply runs_cons; [done..|]. intros a1 Ha1 Ht1.
  change fs with ([] ++ fs). eapply runs_app; [|exact Hk].
  change (bytes_of ((t0, b) :: g)) with ([b] ++ bytes_of g).
  apply (runs_burst g a1 true); [done..|lia|lia].
Qed.
Lemma total_nonneg xs : 0 ≤ total xs.
Proof. induction xs as [|x xs IH]; simpl; [lia|]. pose proof (blen_nonneg x.1). lia. Qed.
Lemma omap_cons_list {A B} (f : A → option B) x l : omap f (x :: l) = option_list (f x) ++ omap f l.
Proof. simpl. by destruct (f x). Qed.

Lemma runs_timeline xs : ∀ a p sn n from,
  repr a (View (pending_line p) sn n) → RtuFrameAssembler.timing a = tm →
  pending_ok p sn from → timeline from xs → closes (pending_open p) xs →
  n + total xs ≤ u64_max →
  runs a (events n xs) (option_list (pending_frame p) ++ omap frame_of_burst xs)
    (λ v, on_line v = Silent).
Proof.
  induction xs as [|[g close] xs IH]; intros a p sn n from Ha Ht Hp Htl Hcl Hn.
  { destruct p; [done|]. by eapply runs_nil. }
  destruct g as [|[t0 b] g]; [done|]. destruct Htl as (Hfrom & Hps & Hend & Htl).
  cbn [total foldr fst] in Hn. fold (total xs) in Hn. pose proof (total_nonneg xs).
  rewrite blen_cons in Hn. cbn [events]. rewrite blen_cons, Z.add_assoc, omap_cons_list. cbn [end_of].
  change (frame_of_burst ((t0, b) :: g, close))
    with (pending_frame (Some (clean t0 g, bytes_of ((t0, b) :: g), end_of t0 g))).
  eapply runs_one_burst; [done..|lia|done|]. intros a1 Ha1 Ht1.
  destruct close as [at_|]; cbn [closes app] in *.
  - destruct Htl as [Hat Htl].
    destruct (move_silence (clean t0 g) (bytes_of ((t0, b) :: g)) (end_of t0 g) (n + 1 + blen g) at_ Hat)
      as (o & Ho & Hs).
    cbn [pending_frame]. rewrite <-Ho. eapply runs_cons; [done..|]. intros a2 Ha2 Ht2.
    apply (IH a2 None (Some at_) _ at_); try done; simpl; lia.
  - apply (IH a1 _ (Some (end_of t0 g)) _ (end_of t0 g + t3_5)); try done; lia.
Qed.
End Timeline.

(** * Theorems *)

(** C11. The assembler implements the line discipline: for a state that represents
    an abstract one, an event some rule allows has exactly the outcome and the
    successor of that rule, and an event no rule allows is refused with an error
    that changes nothing but counters. *)
Theorem assembler_refines a v e : repr a v →
  (∀ o v', step (RtuFrameAssembler.timing a) v e o v' →
     ∃ a', observe e a = (Ok o, a') ∧ repr a' v') ∧
  ((∀ o v', ¬ step (RtuFrameAssembler.timing a) v e o v') →
     ∃ err a', observe e a = (Err err, a') ∧ same_assembly a a').
Proof.
  intros Ha. pose proof (observe_simulates a v e Ha) as Hs.
  assert (timing_ok (RtuFrameAssembler.timing a)) as Htm by by destruct a, Ha.
  destruct (observe e a) as [[o'|err| |] a1]; try done; cbn in Hs.
  - destruct Hs as (v1 & Hs & Ha1 & _). split; [|intros Hno; by destruct (Hno o' v1)].
    intros o v' Hs'. destruct (step_det _ _ _ _ _ _ _ Htm Hs Hs') as [<- <-]. by exists a1.
  - destruct Hs as [Hsame Hno]. split; [intros o v' Hs'; by destruct (Hno o v')|by eauto].
Qed.
Lemma assembler_refines_witness :
  ∃ a', observe (Byte 5 1) (RtuFrameAssembler.new (RtuTiming.mk 10 30)) = (Ok AssemblerOutcome.Progress, a').
Proof.
  destruct (assembler_refines (RtuFrameAssembler.new (RtuTiming.mk 10 30)) initial (Byte 5 1)) as [H _].
  - vm_compute. split_and!; try reflexivity; discriminate.
  - destruct (H AssemblerOutcome.Progress (advance initial (Receiving [1] 5) 5)) as (a' & Ha' & _).
    + apply step_start; [reflexivity|]. vm_compute. split_and!; try done; discriminate.
    + exists a'. exact Ha'.
Defined.

(** Safety from configuration to frames: a strict configuration always gives
    an assembler, and whatever bytes, deadlines and timestamps it is then given, in
    whatever order, it never panics, and every frame it emits has 4 to 256 bytes
    and a checksum that fits. The active deadline always carries the latest token,
    and a candidate never outgrows the buffer. *)
Theorem assembler_safe s es : 0 < StrictRtuConfig.baud_rate s < 4294967296 →
  ∃ a, RtuFrameAssembler.from_resolved (ResolvedRtuConfig.from s) = Ok a ∧
    Forall sound_outcome (outcomes es a).1 ∧
    let a' := (outcomes es a).2 in
    0 ≤ RtuFrameAssembler.candidate_len a' ≤ 256 ∧
    ∀ d, RtuFrameAssembler.next_deadline a' = Some d →
      AssemblerDeadline.sequence d = RtuFrameAssembler.deadline_sequence a'.
Proof.
  intros Hb. pose proof (resolved_timing s Hb) as [Hlt Hle].
  set (r := ResolvedRtuConfig.from s) in *.
  assert (RtuTiming.try_from r = Ok (RtuTiming.mk (ResolvedRtuConfig.t1_5 r) (ResolvedRtuConfig.t3_5 r))) as Ht.
  { unfold RtuTiming.try_from, RtuTiming.new, u64_try_from, u64_max.
    replace (ResolvedRtuConfig.t1_5 r <=? _) with true by lia.
    replace (ResolvedRtuConfig.t3_5 r <=? 18446744073709551615) with true by lia. cbn [ok_or rbind].
    by replace (_ || _)%bool with false by lia. }
  eexists. split; [unfold RtuFrameAssembler.from_resolved; by rewrite Ht|].
  set (tm := RtuTiming.mk _ _) in *.
  destruct (outcomes_sound es (RtuFrameAssembler.new tm) initial) as [? [v Hv]].
  { apply new_repr. unfold timing_ok, u64_max. cbn. lia. }
  split; [done|]. destruct (outcomes es _) as [rs [tm' c st lo sq d]]. cbn in *.
  destruct Hv as (_ & _ & -> & -> & _ & Hl). unfold line_repr, active in Hl.
  unfold RtuFrameAssembler.candidate_len, RtuFrameAssembler.next_deadline.
  destruct (on_line v), st; cbn; unfold MAX_RTU_ADU_SIZE in *; naive_solver lia.
Qed.
Lemma assembler_safe_witness :
  ∃ a, RtuFrameAssembler.from_resolved (ResolvedRtuConfig.from StrictRtuConfig.default) = Ok a.
Proof.
  destruct (assembler_safe StrictRtuConfig.default [Byte 7 1; Byte 3 2]) as (a & Ha & _).
  - cbn. lia.
  - exists a. exact Ha.
Defined.

(** The frames a timeline yields: when the line carries bursts of bytes less
    than t3.5 apart, separated by silences of at least t3.5 that the driver may or
    may not report, a fresh assembler accepts every event and emits exactly the
    clean bursts: those without a pause above t1.5, of 4 to 256 bytes, whose
    checksum fits; each complete, in order, and once. *)
Theorem assembler_timeline tm xs :
  timing_ok tm → timeline tm 0 xs → closes false xs → total xs ≤ u64_max →
  let rs := (outcomes (events tm 0 xs) (RtuFrameAssembler.new tm)).1 in
  Forall (λ r, match r with Ok _ => True | _ => False end) rs ∧
  frames rs = omap (frame_of_burst tm) xs.
Proof.
  intros Htm Htl Hcl Hn.
  destruct (runs_timeline tm Htm xs (RtuFrameAssembler.new tm) None None 0 0) as (? & ? & _);
    try done.
Qed.
Lemma assembler_timeline_witness :
  let tm := RtuTiming.mk 10 30 in
  let xs := [([(5, 1); (9, 4); (19, 2); (20, 255); (21, 255); (22, 184); (23, 128)], None);
             ([(60, 1); (75, 4)], Some 105);
             ([(105, 1); (110, 4); (115, 2); (120, 255); (125, 255); (130, 184); (135, 128)], Some 165)] in
  frames (outcomes (events tm 0 xs) (RtuFrameAssembler.new tm)).1
  = [[1; 4; 2; 255; 255; 184; 128]; [1; 4; 2; 255; 255; 184; 128]].
Proof.
  intros tm xs. destruct (assembler_timeline tm xs) as [_ H].
  - vm_compute. split_and!; done.
  - vm_compute. split_and!; try done; discriminate.
  - reflexivity.
  - vm_compute. discriminate.
  - rewrite H. vm_compute. reflexivity.
Defined.

(** Refused and obsolete events are harmless: an event that returns an error
    or [StaleDeadline] leaves everything but the counters as it was, and every
    later event has the outcome it would have had without it. *)
Theorem assembler_transactional a v e r a' es : repr a v →
  observe e a = (r, a') →
  (match r with Ok AssemblerOutcome.StaleDeadline | Err _ => True | _ => False end) →
  same_assembly a a' ∧ (outcomes es a').1 = (outcomes es a).1.
Proof.
  intros Ha He Hr. pose proof (observe_simulates a v e Ha) as Hs. rewrite He in Hs.
  assert (same_assembly a a') as Hsame.
  { destruct r as [o|err| |]; try done; [|apply Hs].
    destruct o; try done. by eapply observe_stale. }
  split; [done|]. symmetry. by apply outcomes_same.
Qed.
Lemma assembler_transactional_witness :
  let a := RtuFrameAssembler.new (RtuTiming.mk 10 30) in
  let '(_, a') := observe (Deadline (AssemblerDeadline.mk 9 9) 3) a in
  (outcomes [Byte 1 1; Byte 0 1] a').1 = (outcomes [Byte 1 1; Byte 0 1] a).1.
Proof.
  intros a. destruct (observe _ a) as [r a'] eqn:He.
  apply (assembler_transactional a initial _ r a' _ ltac:(vm_compute; split_and!; done || discriminate) He).
  vm_compute in He. injection He as <- _. exact I.
Defined.
