(* ===== verification/Session.v ===== *)
(** * Session reuse safety (crates/rusty-modbus-client/src/session.rs)

    The one-way verdict on whether a client's transport session may be reused,
    kept in one atomic byte shared by all tasks of the client. [retire] and
    [mark_clean_shutdown] are given both as the effect of an undisturbed call and
    as threads of a step relation whose atomic accesses interleave freely, with
    the spurious failures [compare_exchange_weak] allows. *)
From S2P Require Import Prelude.

Definition NOT_QUIESCENT : Z := 0.
Definition REUSE_ELIGIBLE : Z := 1.
Definition RETIRED_BASE : Z := 2.

Module SessionRetirementReason.
Inductive t : Type :=
  | Aborted
  | FinalOwnerDropped
  | ShutdownDeadlineExceeded
  | ShutdownIncomplete
  | BackgroundTaskFailed
  | DispatchCancelled
  | RequestTimedOut
  | SendFailed
  | ResponseExpired
  | UnexpectedResponseUnit
  | UnexpectedResponseFunction
  | MalformedResponse
  | UnknownOrDuplicateResponse
  | ResponseChannelClosed
  | ReaderDisconnected
  | ReaderTransportFailed
  | TypedResponseDataInvalid
  | TypedResponseEchoMismatch.

Definition state (self : t) : Z :=
  RETIRED_BASE +
  match self with
  | Aborted => 0
  | FinalOwnerDropped => 1
  | ShutdownDeadlineExceeded => 2
  | ShutdownIncomplete => 3
  | BackgroundTaskFailed => 4
  | DispatchCancelled => 5
  | RequestTimedOut => 6
  | SendFailed => 7
  | ResponseExpired => 8
  | UnexpectedResponseUnit => 9
  | UnexpectedResponseFunction => 10
  | MalformedResponse => 11
  | UnknownOrDuplicateResponse => 12
  | ResponseChannelClosed => 13
  | ReaderDisconnected => 14
  | ReaderTransportFailed => 15
  | TypedResponseDataInvalid => 16
  | TypedResponseEchoMismatch => 17
  end.

(** [unreachable!] on any other value; the subtraction is on [u8]. *)
Definition from_state (state : Z) : res Empty_set t :=
  let? n := usub state RETIRED_BASE in
  match n with
  | 0 => Ok Aborted
  | 1 => Ok FinalOwnerDropped
  | 2 => Ok ShutdownDeadlineExceeded
  | 3 => Ok ShutdownIncomplete
  | 4 => Ok BackgroundTaskFailed
  | 5 => Ok DispatchCancelled
  | 6 => Ok RequestTimedOut
  | 7 => Ok SendFailed
  | 8 => Ok ResponseExpired
  | 9 => Ok UnexpectedResponseUnit
  | 10 => Ok UnexpectedResponseFunction
  | 11 => Ok MalformedResponse
  | 12 => Ok UnknownOrDuplicateResponse
  | 13 => Ok ResponseChannelClosed
  | 14 => Ok ReaderDisconnected
  | 15 => Ok ReaderTransportFailed
  | 16 => Ok TypedResponseDataInvalid
  | 17 => Ok TypedResponseEchoMismatch
  | _ => Panic
  end.
End SessionRetirementReason.

Module SessionReuseVerdict.
Inductive t : Type :=
  | NotQuiescent
  | ReuseEligible
  | Retire (reason : SessionRetirementReason.t).
End SessionReuseVerdict.

Module SessionReuseSafety.
(** The value of the atomic byte *)
Definition t : Type := Z.
Definition new : t := NOT_QUIESCENT.

Definition verdict (self : t) : res Empty_set SessionReuseVerdict.t :=
  if self =? NOT_QUIESCENT then Ok SessionReuseVerdict.NotQuiescent else
  if self =? REUSE_ELIGIBLE then Ok SessionReuseVerdict.ReuseEligible else
  let? reason := SessionRetirementReason.from_state self in
  Ok (SessionReuseVerdict.Retire reason).

(** The effect of a call no other task disturbs *)
Definition retire (reason : SessionRetirementReason.t) (self : t) : t :=
  if RETIRED_BASE <=? self then self else SessionRetirementReason.state reason.
Definition mark_clean_shutdown (self : t) : t :=
  if self =? NOT_QUIESCENT then REUSE_ELIGIBLE else self.

(** A task inside one of the two calls: before the first load of [retire], in its
    loop with the value it last observed, before the exchange of
    [mark_clean_shutdown], or back from the call. *)
Inductive task : Type :=
  | Retiring (reason : SessionRetirementReason.t)
  | Exchanging (reason : SessionRetirementReason.t) (current : Z)
  | Retired (reason : SessionRetirementReason.t)
  | Marking
  | Marked.

(** One atomic access of one task, on the shared byte *)
Inductive access (shared : t) : task → task → t → Prop :=
  | retire_load r : access shared (Retiring r) (Exchanging r shared) shared
  | retire_return r current : RETIRED_BASE ≤ current →
      access shared (Exchanging r current) (Retired r) shared
  | retire_exchange r current : current < RETIRED_BASE → shared = current →
      access shared (Exchanging r current) (Retired r) (SessionRetirementReason.state r)
  | retire_retry r current : current < RETIRED_BASE →
      access shared (Exchanging r current) (Exchanging r shared) shared
  | mark_exchange : access shared Marking Marked (mark_clean_shutdown shared).

Inductive interleave : t * list task → t * list task → Prop :=
  | interleave_one shared shared' ts1 k k' ts2 : access shared k k' shared' →
      interleave (shared, ts1 ++ k :: ts2) (shared', ts1 ++ k' :: ts2).
End SessionReuseSafety.

Module DispatchGuard.
Definition armed : bool := true.
Definition disarm (armed : bool) : bool := false.
Definition drop (armed : bool) (safety : SessionReuseSafety.t) : SessionReuseSafety.t :=
  if armed then SessionReuseSafety.retire SessionRetirementReason.DispatchCancelled safety else safety.
End DispatchGuard.

(** * Lemmas *)
Import SessionReuseSafety.

Lemma from_state_state r : SessionRetirementReason.from_state (SessionRetirementReason.state r) = Ok r.
Proof. by destruct r. Qed.
Lemma state_retired r : RETIRED_BASE ≤ SessionRetirementReason.state r.
Proof. destruct r; done. Qed.

(** The values the byte takes *)
Definition safety_ok (s : t) : Prop :=
  s = NOT_QUIESCENT ∨ s = REUSE_ELIGIBLE ∨ ∃ r, s = SessionRetirementReason.state r.

Lemma verdict_ok s : safety_ok s → ∃ v, verdict s = Ok v.
Proof.
  intros [->|[->|[r ->]]]; [by eexists..|]. unfold verdict. rewrite from_state_state. by destruct r; eexists.
Qed.
Lemma retire_ok r s : safety_ok s → safety_ok (retire r s).
Proof. intros Hs. unfold retire. case_match; [done|]. right; right. by eexists. Qed.
Lemma retire_retired r s : RETIRED_BASE ≤ retire r s.
Proof. unfold retire. destruct (Z.leb_spec RETIRED_BASE s); [done|apply state_retired]. Qed.
Lemma retire_idem r s : RETIRED_BASE ≤ s → retire r s = s.
Proof. unfold retire. intros. by replace (_ <=? _) with true by lia. Qed.
Lemma mark_clean_shutdown_ok s : safety_ok s → safety_ok (mark_clean_shutdown s).
Proof. unfold mark_clean_shutdown. case_match; [right; by left|done]. Qed.
Lemma mark_retired s : RETIRED_BASE ≤ s → mark_clean_shutdown s = s.
Proof.
  unfold mark_clean_shutdown, RETIRED_BASE, NOT_QUIESCENT. intros. by replace (s =? 0) with false by lia.
Qed.

(** The value a task has observed, and whether it is through with retiring *)
Definition task_reason (k : task) : option SessionRetirementReason.t :=
  match k with Retiring r | Exchanging r _ | Retired r => Some r | _ => None end.
(** The invariant of the interleaving: [rs] are the reasons the tasks came with. *)
Definition task_ok (shared : t) (k : task) : Prop :=
  match k with
  | Exchanging r current => RETIRED_BASE ≤ current → RETIRED_BASE ≤ shared
  | Retired r => RETIRED_BASE ≤ shared
  | _ => True
  end.
Definition interleave_inv (rs : list SessionRetirementReason.t) (c : t * list task) : Prop :=
  Forall (task_ok c.1) c.2 ∧ omap task_reason c.2 = rs ∧
  (c.1 = NOT_QUIESCENT ∨ c.1 = REUSE_ELIGIBLE ∨ ∃ r, r ∈ rs ∧ c.1 = SessionRetirementReason.state r).

Lemma access_spec shared k k' shared' : access shared k k' shared' →
  task_reason k' = task_reason k ∧
  (RETIRED_BASE ≤ shared → task_ok shared k → shared' = shared) ∧
  (task_ok shared k → task_ok shared' k') ∧
  (shared' = shared ∨ shared' = REUSE_ELIGIBLE ∨
     ∃ r, task_reason k = Some r ∧ shared' = SessionRetirementReason.state r).
Proof.
  destruct 1 as [r|r c Hc|r c Hc Heq|r c Hc|]; cbn; split_and!; try naive_solver.
  - intros. lia.
  - intros _. apply state_retired.
  - intros Hr _. by apply mark_retired.
  - unfold mark_clean_shutdown. case_match; naive_solver.
Qed.
Arguments task_reason : simpl never.
Lemma task_ok_grow shared shared' k : (RETIRED_BASE ≤ shared → shared' = shared) →
  task_ok shared k → task_ok shared' k.
Proof. intros Hs. destruct k; cbn; naive_solver. Qed.

Lemma interleave_inv_step rs c c' : interleave_inv rs c → interleave c c' →
  interleave_inv rs c' ∧ (RETIRED_BASE ≤ c.1 → c'.1 = c.1).
Proof.
  intros (Hts & Hrs & Hsh) Hstep. destruct Hstep as [shared shared' ts1 k k' ts2 Hacc]. cbn in *.
  apply access_spec in Hacc as (Hr & Hstay & Hok & Hval).
  apply Forall_app in Hts as [H1 [Hk H2]%Forall_cons].
  split; [|by intros; apply Hstay]. split; [|split].
  - apply Forall_app; split; [|apply Forall_cons; split; [by apply Hok|]];
      (eapply Forall_impl; [eassumption|]; intros k0; apply task_ok_grow; auto).
  - cbn [snd]. rewrite omap_app. rewrite omap_app in Hrs. cbn in *. by rewrite Hr.
  - destruct Hval as [->|[->|(r & Hrk & ->)]]; [done|auto|]. right; right. exists r. split; [|done].
    rewrite <-Hrs, omap_app. cbn. rewrite Hrk. apply elem_of_app. right. by left.
Qed.
Lemma interleave_inv_steps rs c c' : interleave_inv rs c → rtc interleave c c' →
  interleave_inv rs c' ∧ (RETIRED_BASE ≤ c.1 → c'.1 = c.1).
Proof.
  intros Hi Hs. induction Hs as [c|c c1 c' H1 Hs IH]; [done|].
  destruct (interleave_inv_step rs c c1 Hi H1) as [Hi1 Hst]. destruct (IH Hi1) as [Hi' Hst'].
  split; [done|]. intros Hr. rewrite Hst' by (rewrite Hst by done; done). auto.
Qed.

(** * Theorems *)

(** The first retirement wins, whatever the interleaving: let any number of
    tasks retire the session, each for a reason of its own, while others mark it
    clean. Once one [retire] has returned, the verdict is [Retire] with the reason
    of one of the tasks, it never changes again, and reading it never panics. *)
Theorem first_retirement_wins ts c r :
  Forall (λ k, k = Marking ∨ ∃ r, k = Retiring r) ts →
  rtc interleave (SessionReuseSafety.new, ts) c → Retired r ∈ c.2 →
  ∃ r', Retiring r' ∈ ts ∧ verdict c.1 = Ok (SessionReuseVerdict.Retire r') ∧
    ∀ c', rtc interleave c c' → c'.1 = c.1.
Proof.
  intros Hts Hc Hr.
  destruct (interleave_inv_steps (omap task_reason ts) (SessionReuseSafety.new, ts) c) as [Hi _].
  { split_and!; [|done|by left]. eapply Forall_impl; [exact Hts|]. by intros k [->|[? ->]]. }
  { done. }
  pose proof Hi as (Hok & _ & Hval).
  assert (RETIRED_BASE ≤ c.1) as Hret by exact (proj1 (Forall_forall _ _) Hok _ Hr).
  destruct Hval as [He|[He|(r' & Hin & He)]]; [rewrite He in Hret; done..|].
  exists r'. split_and!.
  - apply list_elem_of_omap in Hin as (k & Hk & Hkr). destruct (proj1 (Forall_forall _ _) Hts k Hk) as [->|[? ->]]; [done|].
    unfold task_reason in Hkr. by injection Hkr as ->.
  - rewrite He. unfold verdict. rewrite from_state_state. by destruct r'.
  - intros c' Hc'. by apply (interleave_inv_steps _ c c' Hi).
Qed.
Lemma first_retirement_wins_witness :
  ∃ r', Retiring r' ∈ [Marking; Retiring SessionRetirementReason.SendFailed] ∧
    verdict 9 = Ok (SessionReuseVerdict.Retire r').
Proof.
  destruct (first_retirement_wins [Marking; Retiring SessionRetirementReason.SendFailed]
    (9, [Marking; Retired SessionRetirementReason.SendFailed]) SessionRetirementReason.SendFailed)
    as (r' & H1 & H2 & _).
  - apply Forall_cons; split; [by left|]. apply Forall_cons; split; [right; by eexists|constructor].
  - pose (r := SessionRetirementReason.SendFailed).
    eapply rtc_l; [apply (interleave_one 0 0 [Marking] (Retiring r) (Exchanging r 0) []), retire_load|].
    eapply rtc_l; [apply (interleave_one 0 9 [Marking] (Exchanging r 0) (Retired r) []);
      by apply (retire_exchange 0)|]. apply rtc_refl.
  - right. left.
  - exists r'. split; assumption.
Defined.
