(* ===== verification/Deadlines.v ===== *)
(** * Durations and instants (crates/rusty-modbus-client/src/client.rs, crates/rusty-modbus-server/src/lifecycle.rs)

    [Duration] and [Instant] in nanoseconds. [Instant] has a platform-dependent last
    value; both crates have a function that adds a duration without going past it. *)
From S2P Require Import Prelude.

(** [Duration::MAX] *)
Definition DURATION_MAX : Z := u64_max * 1000000000 + 999999999.
Definition duration_saturating_add (a b : Z) : Z := Z.min (a + b) DURATION_MAX.
Definition duration_saturating_mul (a n : Z) : Z := Z.min (a * n) DURATION_MAX.

Section Instants.
Context (instant_max : Z).
Definition instant_checked_add (start duration : Z) : option Z :=
  if start + duration <=? instant_max then Some (start + duration) else None.
(** The interval of the bisection, at most [DURATION_MAX] < 2^94 long, halves every
    round. *)
Fixpoint bisect (fuel : nat) (start lower upper : Z) : res Empty_set Z :=
  match fuel with
  | O => OutOfFuel
  | S fuel =>
      if Z.max 0 (upper - lower) <=? 1 then Ok lower else
      let midpoint := duration_saturating_add lower (Z.max 0 (upper - lower) / 2) in
      match instant_checked_add start midpoint with
      | Some _ => bisect fuel start midpoint upper
      | None => bisect fuel start lower midpoint
      end
  end.
Definition saturating_instant_add (start duration : Z) : res Empty_set Z :=
  match instant_checked_add start duration with
  | Some deadline => Ok deadline
  | None =>
      let? lower := bisect 95 start 0 duration in
      Ok (default start (instant_checked_add start lower))
  end.
End Instants.


(** * Lemmas *)
Section Deadlines.
Context (last : Z).
Lemma bisect_spec k : ∀ fuel start lower upper,
  (k < fuel)%nat → 0 ≤ lower → lower < upper ≤ lower + 2 ^ Z.of_nat k → upper ≤ DURATION_MAX →
  start + lower ≤ last < start + upper → bisect last fuel start lower upper = Ok (last - start).
Proof.
  induction k as [|k IH]; intros [|fuel] start lower upper Hf H0 Hl Hmax Hfit; try lia.
  - cbn [bisect]. replace (Z.max 0 (upper - lower)) with 1 by lia. cbn. f_equal. lia.
  - cbn [bisect]. rewrite Z.max_r by lia. destruct (Z.leb_spec (upper - lower) 1); [f_equal; lia|].
    pose proof (Z.div_mod (upper - lower) 2 ltac:(lia)) as Hd. pose proof (Z.mod_pos_bound (upper - lower) 2 ltac:(lia)).
    rewrite Nat2Z.inj_succ, Z.pow_succ_r in Hl by lia. set (h := (upper - lower) / 2) in *.
    unfold duration_saturating_add. rewrite Z.min_l by lia. unfold instant_checked_add.
    destruct (Z.leb_spec (start + (lower + h)) last); apply IH; lia.
Qed.
(** The end of a duration is capped at the last instant there is. *)
Lemma saturating_instant_add_spec start d : start ≤ last → 0 ≤ d ≤ DURATION_MAX →
  saturating_instant_add last start d = Ok (Z.min (start + d) last).
Proof.
  intros Hs Hd. unfold saturating_instant_add. unfold instant_checked_add at 1.
  destruct (Z.leb_spec (start + d) last) as [|Hover]; [f_equal; lia|].
  rewrite (bisect_spec 94); try lia; cbn [rbind].
  - unfold instant_checked_add. replace (start + (last - start) <=? last) with true by lia. cbn. f_equal. lia.
  - split; [lia|]. transitivity DURATION_MAX; [lia|]. by vm_compute.
Qed.
End Deadlines.
