(* ===== verification/Seconds.v ===== *)
(** * Durations from seconds

    The part of the standard library that turns an IEEE 754 number of seconds into a duration in whole
    nanoseconds; the Python classes and the compatibility timers of a serial line use it. *)
From Stdlib Require Import SpecFloat.
From S2P Require Import Prelude Deadlines.

Abbreviation f64 := spec_float.
Definition f64_ok (x : f64) : Prop := valid_binary 53 1024 x = true.
Definition zero : f64 := S754_zero false.
Definition is_finite (x : f64) : bool := match x with S754_zero _ | S754_finite _ _ _ => true | _ => false end.
(** [n / d] to the nearest integer, a tie to the even one *)
Definition round_half_even (n d : Z) : Z :=
  let q := n / d in
  let r := n mod d in
  if 2 * r <? d then q else if d <? 2 * r then q + 1 else if Z.even q then q else q + 1.
Module TryFromFloatSecsError.
Inductive t : Type := Negative | OverflowOrNan.
End TryFromFloatSecsError.
(** [Duration::try_from_secs_f64], in nanoseconds *)
Definition try_from_secs_f64 (secs : f64) : res TryFromFloatSecsError.t Z :=
  if SFltb secs zero then Err TryFromFloatSecsError.Negative else
  match secs with
  | S754_zero _ => Ok 0
  | S754_finite _ m e =>
      let nanos := round_half_even (Zpos m * 1000000000 * 2 ^ Z.max e 0) (2 ^ Z.max (- e) 0) in
      if DURATION_MAX <? nanos then Err TryFromFloatSecsError.OverflowOrNan else Ok nanos
  | _ => Err TryFromFloatSecsError.OverflowOrNan
  end.
(** [Duration::from_secs_f64] *)
Definition from_secs_f64 {E} (secs : f64) : res E Z :=
  match try_from_secs_f64 secs with Ok d => Ok d | Err _ => Panic | Panic => Panic | OutOfFuel => OutOfFuel end.

(** [x] is at least [n] *)
Definition reaches (x : f64) (n : Z) : Prop :=
  match x with S754_finite false m e => n * 2 ^ Z.max (- e) 0 ≤ Zpos m * 2 ^ Z.max e 0 | S754_infinity false => True | _ => False end.
Definition positive (x : f64) : Prop := match x with S754_finite s _ _ => s = false | S754_infinity s => s = false | _ => False end.
(** [d] is the number of nanoseconds nearest to [x] seconds *)
Definition nearest (x : f64) (d : Z) : Prop :=
  match x with
  | S754_finite _ m e => 2 * Z.abs (Zpos m * 1000000000 * 2 ^ Z.max e 0 - d * 2 ^ Z.max (- e) 0) ≤ 2 ^ Z.max (- e) 0
  | _ => d = 0
  end.

(** * Lemmas *)
Lemma round_nearest n d : 0 < d → 2 * Z.abs (n - round_half_even n d * d) ≤ d.
Proof.
  intros Hd. unfold round_half_even. pose proof (Z.div_mod n d ltac:(lia)) as Hn. pose proof (Z.mod_pos_bound n d Hd) as Hr.
  revert Hn Hr. generalize (n / d) as q. generalize (n mod d) as r. intros r q -> Hr.
  destruct (Z.ltb_spec (2 * r) d); [replace (d * q + r - q * d) with r by lia; lia|].
  destruct (Z.ltb_spec d (2 * r)); [replace (d * q + r - (q + 1) * d) with (r - d) by lia; lia|].
  destruct (Z.even q); [replace (d * q + r - q * d) with r by lia|replace (d * q + r - (q + 1) * d) with (r - d) by lia]; lia.
Qed.
Lemma round_nonneg n d : 0 < d → 0 ≤ n → 0 ≤ round_half_even n d.
Proof. intros Hd Hn. unfold round_half_even. pose proof (Z.div_pos n d Hn Hd). repeat case_match; lia. Qed.
Lemma below_digits m : Zpos m < 2 ^ Zpos (digits2_pos m).
Proof. induction m as [m IH|m IH|]; cbn [digits2_pos]; [rewrite Pos2Z.inj_succ, Z.pow_succ_r by lia; lia..|done]. Qed.
Lemma f64_digits s m e : f64_ok (S754_finite s m e) → Zpos m < 2 ^ 53.
Proof.
  unfold f64_ok. cbn [valid_binary]. unfold bounded, canonical_mantissa, fexp, emin. intros Hb.
  pose proof (below_digits m). assert (2 ^ Zpos (digits2_pos m) ≤ 2 ^ 53) by (apply Z.pow_le_mono_r; lia). lia.
Qed.
(** Seconds that are finite and positive are a duration, unless there are 2^64 of them or more *)
Lemma seconds_exact x : f64_ok x → is_finite x = true → positive x →
  (reaches x (2 ^ 64) ∧ try_from_secs_f64 x = Err TryFromFloatSecsError.OverflowOrNan) ∨
  (¬ reaches x (2 ^ 64) ∧ ∃ d, try_from_secs_f64 x = Ok d ∧ 0 ≤ d ≤ DURATION_MAX ∧ nearest x d).
Proof.
  intros Hok Hf Hp. destruct x as [| | |s m e]; try done. cbn in Hp. subst s. pose proof (f64_digits _ _ _ Hok) as Hm.
  unfold try_from_secs_f64. replace (SFltb _ zero) with false by done. cbn [reaches nearest].
  assert (DURATION_MAX = 2 ^ 64 * 1000000000 - 1) as HD by done. assert (2 ^ 53 * 1000000000 + 1 < DURATION_MAX) as HM by done.
  pose proof (Z.pow_pos_nonneg 2 (Z.max e 0) ltac:(lia) ltac:(lia)) as He. pose proof (Z.pow_pos_nonneg 2 (Z.max (- e) 0) ltac:(lia) ltac:(lia)) as He'.
  pose proof (round_nearest (Zpos m * 1000000000 * 2 ^ Z.max e 0) (2 ^ Z.max (- e) 0) He') as Hr.
  pose proof (round_nonneg (Zpos m * 1000000000 * 2 ^ Z.max e 0) (2 ^ Z.max (- e) 0) He' ltac:(lia)) as Hr0.
  revert Hr Hr0. generalize (round_half_even (Zpos m * 1000000000 * 2 ^ Z.max e 0) (2 ^ Z.max (- e) 0)) as d. intros d Hr Hr0.
  destruct (Z_lt_le_dec e 0) as [Hneg|Hpos].
  - replace (Z.max e 0) with 0 in * by lia. rewrite Z.pow_0_r, Z.mul_1_r in *. right. revert He' Hr. generalize (2 ^ Z.max (- e) 0) as D. intros D He' Hr.
    assert (d ≤ Zpos m * 1000000000 + 1) by nia. replace (DURATION_MAX <? d) with false by lia. split; [nia|]. exists d. split; [done|]. split; [lia|]. lia.
  - replace (Z.max (- e) 0) with 0 in * by lia. rewrite Z.pow_0_r, Z.mul_1_r in *. revert He Hr. replace (Z.max e 0) with e by lia. generalize (2 ^ e) as E. intros E He Hr.
    assert (d = Zpos m * 1000000000 * E) as -> by lia. destruct (Z.ltb_spec DURATION_MAX (Zpos m * 1000000000 * E)); [left; split; [lia|done]|right].
    split; [lia|]. eexists. split; [done|]. split; lia.
Qed.
