(* ===== verification/LegacyTiming.v ===== *)
(** * The compatibility timers of a serial line (crates/rusty-modbus-rtu: src/config.rs)

    [RtuConfig] computes its timers in floating point up to 19200 baud, and has fixed ones above. The
    results for the customary rates are evaluated. *)
From Stdlib Require Import SpecFloat.
From S2P Require Import Prelude Deadlines Seconds RtuConfig.

(** [f64::from] a [u32], and the operations on [f64] *)
Definition f64_from (n : Z) : f64 := binary_normalize 53 1024 n 0 false.
Definition f64_div : f64 → f64 → f64 := SFdiv 53 1024.
Definition f64_mul : f64 → f64 → f64 := SFmul 53 1024.
(** 11.0, 3.5 and 1.5 *)
Definition BITS_PER_CHARACTER : f64 := S754_finite false 6192449487634432 (-49).
Definition three_and_a_half : f64 := S754_finite false 7881299347898368 (-51).
Definition one_and_a_half : f64 := S754_finite false 6755399441055744 (-52).

Definition interframe_delay (self : RtuConfig.t) : res Empty_set Z :=
  if RtuConfig.baud_rate self <=? CALCULATED_DELAY_MAX_BAUD then
    let char_time_secs := f64_div BITS_PER_CHARACTER (f64_from (RtuConfig.baud_rate self)) in
    from_secs_f64 (f64_mul three_and_a_half char_time_secs)
  else Ok FIXED_INTERFRAME_DELAY.
Definition intercharacter_timeout (self : RtuConfig.t) : res Empty_set Z :=
  if RtuConfig.baud_rate self <=? CALCULATED_DELAY_MAX_BAUD then
    let char_time_secs := f64_div BITS_PER_CHARACTER (f64_from (RtuConfig.baud_rate self)) in
    from_secs_f64 (f64_mul one_and_a_half char_time_secs)
  else Ok FIXED_INTERCHARACTER_TIMEOUT.

(** * Lemmas *)

(** The rates that serial ports offer, up to the last one that is calculated with *)
Definition customary : list Z := [50; 75; 110; 134; 150; 200; 300; 600; 1200; 1800; 2400; 4800; 7200; 9600; 14400; 19200].
(** [r] is the number of nanoseconds nearest to [numerator / baud] *)
Definition closest (numerator baud : Z) (r : res Empty_set Z) : Prop := ∃ d, r = Ok d ∧ 2 * Z.abs (d * baud - numerator) ≤ baud.
(** What a rate is calculated to, and that this is [closest] and not longer than rounded up *)
Definition calculated (baud : Z) : res Empty_set Z * res Empty_set Z :=
  let char_time_secs := f64_div BITS_PER_CHARACTER (f64_from baud) in
  (from_secs_f64 (f64_mul three_and_a_half char_time_secs), from_secs_f64 (f64_mul one_and_a_half char_time_secs)).
Definition timed (baud : Z) : bool :=
  match calculated baud with
  | (Ok d, Ok d') => (2 * Z.abs (d * baud - 38500000000) <=? baud) && (2 * Z.abs (d' * baud - 16500000000) <=? baud)
  | _ => false
  end.
Lemma customary_timed : forallb timed customary = true.
Proof. vm_compute. reflexivity. Qed.
Lemma customary_range : forallb (λ baud, (1 <=? baud) && (baud <=? 19200)) customary = true.
Proof. reflexivity. Qed.
Lemma ceiling_near numerator baud d : 0 < baud → 2 * Z.abs (d * baud - numerator) ≤ baud → d ≤ duration_from_ratio_ceiling numerator baud ≤ d + 1.
Proof. intros Hb Hd. unfold duration_from_ratio_ceiling, div_ceil. Z.to_euclidean_division_equations. nia. Qed.

(** * Theorem *)

(** The compatibility timers: without a baud rate both panic, as documented; for every customary rate they are
    3.5 and 1.5 times the time of 11 bits, to the nearest nanosecond, whatever the character
    format is, and the timers of the strict configuration with this rate are the same or one nanosecond longer; above
    19200 baud they are the fixed ones. *)
Theorem legacy_timing_exact (config : RtuConfig.t) : 0 ≤ RtuConfig.baud_rate config →
  (RtuConfig.baud_rate config = 0 → interframe_delay config = Panic ∧ intercharacter_timeout config = Panic) ∧
  (RtuConfig.baud_rate config ∈ customary →
     closest 38500000000 (RtuConfig.baud_rate config) (interframe_delay config) ∧
     closest 16500000000 (RtuConfig.baud_rate config) (intercharacter_timeout config) ∧
     ∀ format timeout strict, StrictRtuConfig.new (RtuConfig.baud_rate config) format timeout = Ok strict →
       ∃ d d', interframe_delay config = Ok d ∧ intercharacter_timeout config = Ok d' ∧
         d ≤ ResolvedRtuConfig.t3_5 (ResolvedRtuConfig.from strict) ≤ d + 1 ∧ d' ≤ ResolvedRtuConfig.t1_5 (ResolvedRtuConfig.from strict) ≤ d' + 1) ∧
  (19200 < RtuConfig.baud_rate config → interframe_delay config = Ok 1750000 ∧ intercharacter_timeout config = Ok 750000).
Proof.
  destruct config as [baud db pa sb rt]. cbn [RtuConfig.baud_rate]. intros Hb. split_and!.
  - by intros ->.
  - intros Hc%list_elem_of_In. pose proof customary_timed as Ht. pose proof customary_range as Hr. rewrite List.forallb_forall in Ht, Hr.
    specialize (Ht _ Hc). specialize (Hr _ Hc). cbv beta in Hr. unfold timed, calculated in Ht. unfold interframe_delay, intercharacter_timeout, closest. cbn [RtuConfig.baud_rate].
    change CALCULATED_DELAY_MAX_BAUD with 19200. replace (baud <=? 19200) with true by lia. cbv zeta in *.
    destruct (from_secs_f64 (f64_mul three_and_a_half (f64_div BITS_PER_CHARACTER (f64_from baud)))) as [d|[]| |]; try done.
    destruct (from_secs_f64 (f64_mul one_and_a_half (f64_div BITS_PER_CHARACTER (f64_from baud)))) as [d'|[]| |]; try done.
    split; [exists d; split; [done|lia]|]. split; [exists d'; split; [done|lia]|]. intros format timeout strict. unfold StrictRtuConfig.new. case_match; [done|]. intros [= <-].
    exists d, d'. split; [done|]. split; [done|]. pose proof (ceiling_near 38500000000 baud d ltac:(lia) ltac:(lia)). pose proof (ceiling_near 16500000000 baud d' ltac:(lia) ltac:(lia)).
    unfold ResolvedRtuConfig.from. cbn [StrictRtuConfig.baud_rate StrictRtuConfig.serial_format]. change CALCULATED_DELAY_MAX_BAUD with 19200.
    replace (baud <=? 19200) with true by lia. by destruct format.
  - intros Hl. unfold interframe_delay, intercharacter_timeout. cbn [RtuConfig.baud_rate]. change CALCULATED_DELAY_MAX_BAUD with 19200.
    by replace (baud <=? 19200) with false by lia.
Qed.
Lemma legacy_timing_exact_witness : interframe_delay RtuConfig.default = Ok 4010417 ∧ closest 16500000000 9600 (intercharacter_timeout RtuConfig.default).
Proof.
  destruct (legacy_timing_exact RtuConfig.default) as (_ & H & _); [cbn; lia|]. destruct H as (_ & H & _); [apply list_elem_of_In; vm_compute; tauto|].
  split; [vm_compute; reflexivity|exact H].
Defined.
