(* ===== verification/Transaction.v ===== *)
(** * Client transactions
    (crates/rusty-modbus-client: src/transaction.rs, src/error.rs;
     crates/rusty-modbus-tcp/src/error.rs)

    The ring of 16 slots that matches responses to requests in flight. A slot is
    locked for the whole of each access, so a method is a state transition; times
    ([Instant::now()]) are arguments. A oneshot channel is a number handed out by
    [register], and what is sent into one is recorded in [sent]: the theorems
    state who gets which result, and that nobody gets two. *)
From S2P Require Import Prelude Types CodecError Responses Pdu Stream Owned Session.
From Stdlib Require String.

Module TransportError.
Inductive t : Type :=
  | Io
  | Frame (e : FrameError.t)
  | Timeout
  | Disconnected
  | AccessDenied
  | TlsHandshake (message : String.string)
  | AuthorizationDenied (role : option String.string) (function_code : FunctionCode.t).
End TransportError.

Module ClientError.
Inductive t : Type :=
  | Timeout
  | Exception (e : ExceptionResponse.t)
  | Transport (e : TransportError.t)
  | Codec (e : DecodeError.t)
  | Encode (e : EncodeError.t)
  | TransactionConflict (txn_id : Z)
  | UnexpectedResponseUnitId (expected got : Z)
  | NotConnected
  | RetriesExhausted (attempts : Z) (last_error : t)
  | BroadcastReadNotAllowed
  | ShuttingDown
  | UnexpectedResponse (expected got : Z)
  | UnexpectedResponseEcho (field : String.string) (expected got : Z)
  | ShortResponse (expected actual : Z)
  | UnexpectedResponseLength (function_code expected actual : Z)
  | UnexpectedResponsePadding (function_code invalid_mask actual : Z)
  | UnexpectedFileRecordSubResponseCount (expected actual : Z)
  | InvalidDeviceIdentificationContinuation (previous_object_id next_object_id : Z)
  | DeviceIdentificationPaginationLimit (limit : Z).
End ClientError.

Definition MAX_SLOTS : Z := 16.

Module ExpectedResponse.
Record t : Type := mk { unit_id : Z; function_code : FunctionCode.t }.
End ExpectedResponse.

Module CompletionOutcome.
Inductive t : Type :=
  | Delivered
  | Expired
  | UnknownOrDuplicate
  | UnitMismatch (expected got : Z)
  | FunctionRejected (expected got : Z)
  | CodecRejected (e : DecodeError.t).
End CompletionOutcome.

Module PendingTransaction.
Record t : Type := mk {
  txn_id : Z;
  sender : Z;
  sent_at : Z;
  deadline : Z;
  expected : ExpectedResponse.t;
}.
End PendingTransaction.

(** What a caller receives *)
Definition reply : Type := res ClientError.t OwnedResponsePdu.t.

Module TransactionManager.
Record t : Type := mk {
  next_id : Z;
  slots : list (option PendingTransaction.t);
  deadline_changed : bool;
  reuse_safety : SessionReuseSafety.t;
  channels : Z;
  sent : list (Z * reply);
}.
Abbreviation M A := (ST t ClientError.t A).

Definition new : t :=
  mk 1 (replicate (Z.to_nat MAX_SLOTS) None) false SessionReuseSafety.new 0 [].

(** ** Accesses to the shared fields *)

(** [next_id.fetch_add(1)] on a [u16] *)
Definition fetch_add_next_id : M Z :=
  λ '(mk n s d r c l), (Ok n, mk ((n + 1) mod 65536) s d r c l).
Definition read_slot (i : Z) : M (option PendingTransaction.t) :=
  λ m, (idx (slots m) i, m).
Definition write_slot (i : Z) (p : option PendingTransaction.t) : M unit :=
  λ '(mk n s d r c l), let '(x, s) := buf_set i p s in (x, mk n s d r c l).
(** [deadline_changed.notify_one()] leaves a permit *)
Definition notify_one : M unit := st_modify (λ '(mk n s _ r c l), mk n s true r c l).
Definition retire (reason : SessionRetirementReason.t) : M unit :=
  st_modify (λ '(mk n s d r c l), mk n s d (SessionReuseSafety.retire reason r) c l).
(** [oneshot::channel()] *)
Definition channel : M Z := λ '(mk n s d r c l), (Ok c, mk n s d r (c + 1) l).
(** [let _ = sender.send(..)] *)
Definition send (sender : Z) (v : reply) : M unit :=
  st_modify (λ '(mk n s d r c l), mk n s d r c (l ++ [(sender, v)])).

(** ** Methods *)

(** One of two consecutive counter values is not zero, so two rounds are enough. *)
Fixpoint next_transaction_id_loop (fuel : nat) : M Z :=
  match fuel with
  | O => st_lift OutOfFuel
  | S fuel =>
      id <- fetch_add_next_id;;
      if negb (id =? 0) then st_ret id else next_transaction_id_loop fuel
  end.
Definition next_transaction_id : M Z := next_transaction_id_loop 2.

Fixpoint register_loop (unit_id : Z) (function_code : FunctionCode.t) (deadline now : Z)
    (fuel : nat) (seen_slots : list bool) (seen_count : Z) : M (option (Z * Z)) :=
  match fuel with
  | O => st_lift OutOfFuel
  | S fuel =>
      if negb (seen_count <? MAX_SLOTS) then st_ret None else
      txn_id <- next_transaction_id;;
      let slot_idx := txn_id mod MAX_SLOTS in
      seen <- st_lift (idx seen_slots slot_idx);;
      let '(seen_slots, seen_count) :=
        if negb seen then (<[Z.to_nat slot_idx := true]> seen_slots, seen_count + 1)
        else (seen_slots, seen_count) in
      slot <- read_slot slot_idx;;
      match slot with
      | None =>
          tx <- channel;;
          write_slot slot_idx (Some (PendingTransaction.mk txn_id tx now deadline
            (ExpectedResponse.mk unit_id function_code)));;;
          notify_one;;;
          st_ret (Some (txn_id, tx))
      | Some _ =>
          register_loop unit_id function_code deadline now fuel seen_slots seen_count
      end
  end.
(** Any 32 consecutive transaction IDs meet every slot, also when the counter wraps
    and skips 0. *)
Definition register_fuel : nat := 32.
Definition register (unit_id : Z) (function_code : FunctionCode.t) (deadline now : Z) : M (Z * Z) :=
  found <- register_loop unit_id function_code deadline now register_fuel
             (replicate (Z.to_nat MAX_SLOTS) false) 0;;
  match found with
  | Some registered => st_ret registered
  | None =>
      self <- st_get;;
      let last_id := (next_id self - 1) mod 65536 in
      st_err (ClientError.TransactionConflict last_id)
  end.

Definition deliver_response (pending : PendingTransaction.t) (response_unit_id : Z) (pdu : bytes)
    : M CompletionOutcome.t :=
  let expected_unit_id := ExpectedResponse.unit_id (PendingTransaction.expected pending) in
  let got_unit_id := response_unit_id in
  if negb (expected_unit_id =? got_unit_id) then
    retire SessionRetirementReason.UnexpectedResponseUnit;;;
    send (PendingTransaction.sender pending)
      (Err (ClientError.UnexpectedResponseUnitId expected_unit_id got_unit_id));;;
    st_ret (CompletionOutcome.UnitMismatch expected_unit_id got_unit_id)
  else
  match OwnedResponsePdu.from_pdu pdu with
  | Ok response =>
      let expected := FunctionCode.code (ExpectedResponse.function_code (PendingTransaction.expected pending)) in
      let got := OwnedResponsePdu.function_code response in
      if negb (got =? expected) && negb (got =? Z.lor expected 0x80) then
        retire SessionRetirementReason.UnexpectedResponseFunction;;;
        send (PendingTransaction.sender pending) (Err (ClientError.UnexpectedResponse expected got));;;
        st_ret (CompletionOutcome.FunctionRejected expected got)
      else
      send (PendingTransaction.sender pending) (Ok response);;;
      st_ret CompletionOutcome.Delivered
  | Err error =>
      retire SessionRetirementReason.MalformedResponse;;;
      send (PendingTransaction.sender pending) (Err (ClientError.Codec error));;;
      st_ret (CompletionOutcome.CodecRejected error)
  | Panic => st_panic
  | OutOfFuel => st_lift OutOfFuel
  end.

(** [slot.as_ref().is_none_or(|pending| pending.txn_id != txn_id)] *)
Definition holds_other (slot : option PendingTransaction.t) (txn_id : Z) : bool :=
  match slot with
  | None => true
  | Some pending => negb (PendingTransaction.txn_id pending =? txn_id)
  end.
(** [slot.take().expect(..)] *)
Definition take_slot (i : Z) (slot : option PendingTransaction.t) : M PendingTransaction.t :=
  match slot with
  | Some pending => write_slot i None;;; st_ret pending
  | None => st_panic
  end.

Definition complete_response (txn_id response_unit_id : Z) (pdu : bytes) (now : Z)
    : M CompletionOutcome.t :=
  let slot_idx := txn_id mod MAX_SLOTS in
  slot <- read_slot slot_idx;;
  if holds_other slot txn_id then
    retire SessionRetirementReason.UnknownOrDuplicateResponse;;;
    st_ret CompletionOutcome.UnknownOrDuplicate
  else
  pending <- take_slot slot_idx slot;;
  let expired := PendingTransaction.deadline pending <=? now in
  notify_one;;;
  if expired then
    retire SessionRetirementReason.ResponseExpired;;;
    send (PendingTransaction.sender pending) (Err ClientError.Timeout);;;
    st_ret CompletionOutcome.Expired
  else
  deliver_response pending response_unit_id pdu.

(** [for (idx, slot) in self.slots.iter().enumerate()] *)
Fixpoint oldest_loop (i : Z) (slots : list (option PendingTransaction.t)) (oldest : option (Z * Z))
    : option (Z * Z) :=
  match slots with
  | [] => oldest
  | slot :: slots =>
      let oldest := match slot with
        | Some p =>
            if match oldest with None => true | Some (_, t) => PendingTransaction.sent_at p <? t end
            then Some (i, PendingTransaction.sent_at p) else oldest
        | None => oldest
        end in
      oldest_loop (i + 1) slots oldest
  end.
(** The part after the scan; the slots may have changed in between. *)
Definition complete_selected (i response_unit_id : Z) (pdu : bytes) (now : Z) : M CompletionOutcome.t :=
  slot <- read_slot i;;
  match slot with
  | None =>
      retire SessionRetirementReason.UnknownOrDuplicateResponse;;;
      st_ret CompletionOutcome.UnknownOrDuplicate
  | Some pending =>
      if PendingTransaction.deadline pending <=? now then
        pending <- take_slot i slot;;
        notify_one;;;
        retire SessionRetirementReason.ResponseExpired;;;
        send (PendingTransaction.sender pending) (Err ClientError.Timeout);;;
        st_ret CompletionOutcome.Expired
      else
      let expected := ExpectedResponse.unit_id (PendingTransaction.expected pending) in
      let got := response_unit_id in
      if negb (expected =? got) then
        retire SessionRetirementReason.UnexpectedResponseUnit;;;
        st_ret (CompletionOutcome.UnitMismatch expected got)
      else
      pending <- take_slot i slot;;
      notify_one;;;
      deliver_response pending response_unit_id pdu
  end.
Definition complete_oldest_response (response_unit_id : Z) (pdu : bytes) (now : Z) : M CompletionOutcome.t :=
  self <- st_get;;
  match oldest_loop 0 (slots self) None with
  | None =>
      retire SessionRetirementReason.UnknownOrDuplicateResponse;;;
      st_ret CompletionOutcome.UnknownOrDuplicate
  | Some (i, _) => complete_selected i response_unit_id pdu now
  end.

Definition remove (txn_id : Z) : M bool :=
  let slot_idx := txn_id mod MAX_SLOTS in
  slot <- read_slot slot_idx;;
  if holds_other slot txn_id then st_ret false else
  take_slot slot_idx slot;;;
  notify_one;;;
  st_ret true.

Definition slot_indices : list Z := map Z.of_nat (seq 0 (Z.to_nat MAX_SLOTS)).

Fixpoint cancel_loop (make_error : unit → ClientError.t) (is_ : list Z) (cancelled : bool) : M bool :=
  match is_ with
  | [] => st_ret cancelled
  | i :: is_ =>
      slot <- read_slot i;;
      match slot with
      | Some pending =>
          write_slot i None;;;
          send (PendingTransaction.sender pending) (Err (make_error tt));;;
          cancel_loop make_error is_ true
      | None => cancel_loop make_error is_ cancelled
      end
  end.
Definition cancel_all (make_error : unit → ClientError.t) : M unit :=
  cancelled <- cancel_loop make_error slot_indices false;;
  if cancelled then notify_one else st_ret tt.

Fixpoint expire_loop (now : Z) (is_ : list Z) (expired : bool) (nearest : option Z) : M (bool * option Z) :=
  match is_ with
  | [] => st_ret (expired, nearest)
  | i :: is_ =>
      slot <- read_slot i;;
      match slot with
      | Some pending =>
          if PendingTransaction.deadline pending <=? now then
            pending <- take_slot i slot;;
            retire SessionRetirementReason.RequestTimedOut;;;
            send (PendingTransaction.sender pending) (Err ClientError.Timeout);;;
            expire_loop now is_ true nearest
          else
          let deadline := PendingTransaction.deadline pending in
          let nearest :=
            if match nearest with None => true | Some current => deadline <? current end
            then Some deadline else nearest in
          expire_loop now is_ expired nearest
      | None => expire_loop now is_ expired nearest
      end
  end.
Definition expire_due_and_next_deadline (now : Z) : M (option Z) :=
  r <- expire_loop now slot_indices false None;;
  let '(expired, nearest) := r in
  (if expired then notify_one else st_ret tt);;;
  st_ret nearest.

Definition pending_count (self : t) : Z :=
  blen (filter (λ s : option PendingTransaction.t, is_Some s) (slots self)).
End TransactionManager.

(** Dropping a registration guard removes its transaction. *)
Module TransactionRegistration.
Definition drop (txn_id : Z) : TransactionManager.M unit :=
  TransactionManager.remove txn_id;;; st_ret tt.
End TransactionRegistration.

(** * Lemmas *)
Import TransactionManager.

(** ** The sequence of transaction IDs

    [id_of n] is the ID [next_transaction_id] returns when the counter is [n],
    [after n j] the counter [j] IDs later. *)
Definition id_of (n : Z) : Z := if n =? 0 then 1 else n.
Fixpoint after (n : Z) (j : nat) : Z :=
  match j with O => n | S j => after ((id_of n + 1) mod 65536) j end.
Definition probe (n : Z) (j : nat) : Z := id_of (after n j).

Lemma id_of_range n : is_u16 n → 1 ≤ id_of n < 65536.
Proof. unfold id_of. case_match; lia. Qed.
Lemma after_range n j : is_u16 n → is_u16 (after n j).
Proof. revert n. induction j; intros n Hn; [done|]. simpl. apply IHj. apply Z.mod_pos_bound. lia. Qed.
Lemma after_add n a b : after n (a + b) = after (after n a) b.
Proof. revert n. induction a; intros n; [done|]. simpl. apply IHa. Qed.
Lemma after_linear n j : is_u16 n → id_of n + Z.of_nat (S j) ≤ 65536 →
  after n (S j) = (id_of n + Z.of_nat (S j)) mod 65536.
Proof.
  intros Hn. pose proof (id_of_range n Hn) as Hid. revert n Hn Hid.
  induction j as [|j IH]; intros n Hn Hid Hj; [done|].
  change (after n (S (S j))) with (after ((id_of n + 1) mod 65536) (S j)).
  assert (id_of ((id_of n + 1) mod 65536) = id_of n + 1) as Hs.
  { rewrite Z.mod_small by lia. unfold id_of at 1. by replace (id_of n + 1 =? 0) with false by lia. }
  rewrite IH; rewrite ?Hs; try lia. - f_equal. lia. - apply Z.mod_pos_bound. lia.
Qed.
Lemma probe_linear n j : is_u16 n → id_of n + Z.of_nat j ≤ 65535 → probe n j = id_of n + Z.of_nat j.
Proof.
  intros Hn Hj. pose proof (id_of_range n Hn). unfold probe. destruct j as [|j]; [simpl; lia|].
  rewrite after_linear, Z.mod_small by lia. unfold id_of at 1.
  by replace (id_of n + Z.of_nat (S j) =? 0) with false by lia.
Qed.
(** Within 31 IDs every slot is met, whether or not the counter wraps. *)
Lemma probe_covers n r : is_u16 n → 0 ≤ r < 16 → ∃ j, (j < 31)%nat ∧ probe n j mod 16 = r.
Proof.
  intros Hn Hr. pose proof (id_of_range n Hn).
  destruct (Z_le_gt_dec (id_of n) 65520) as [Hle|Hgt].
  - pose proof (Z.mod_pos_bound (r - id_of n) 16 ltac:(lia)).
    exists (Z.to_nat ((r - id_of n) mod 16)). split; [lia|].
    rewrite probe_linear, Z2Nat.id by lia. rewrite Zplus_mod_idemp_r.
    replace (id_of n + (r - id_of n)) with r by lia. by apply Z.mod_small.
  - pose proof (Z.mod_pos_bound (r - 1) 16 ltac:(lia)).
    exists (Z.to_nat (65536 - id_of n) + Z.to_nat ((r - 1) mod 16))%nat. split; [lia|].
    unfold probe. rewrite after_add.
    destruct (Z.to_nat (65536 - id_of n)) as [|k] eqn:Hk; [lia|].
    rewrite after_linear by lia. replace (id_of n + Z.of_nat (S k)) with 65536 by lia.
    change (65536 mod 65536) with 0. fold (probe 0 (Z.to_nat ((r - 1) mod 16))).
    rewrite probe_linear by (change (id_of 0) with 1; lia). change (id_of 0) with 1.
    rewrite Z2Nat.id, Zplus_mod_idemp_r by lia. replace (1 + (r - 1)) with r by lia. by apply Z.mod_small.
Qed.

(** ** Slots *)
Fixpoint trues (l : list bool) : Z := match l with [] => 0 | b :: l => Z.b2z b + trues l end.
Lemma trues_bound l : 0 ≤ trues l ≤ blen l.
Proof. induction l as [|[] l IH]; [done|..]; rewrite blen_cons; cbn [trues Z.b2z]; lia. Qed.
Lemma trues_full l : trues l = blen l → ∀ i, l !! i ≠ Some false.
Proof.
  induction l as [|b l IH]; intros Hl i; [by destruct i|]. rewrite blen_cons in Hl. cbn [trues] in Hl.
  pose proof (trues_bound l). destruct b; cbn [Z.b2z] in Hl; [|lia].
  destruct i as [|i]; [done|]. apply IH. lia.
Qed.
Lemma trues_not_full l : trues l < blen l → ∃ i, l !! i = Some false.
Proof.
  induction l as [|[] l IH]; [done|..]; rewrite blen_cons; cbn [trues Z.b2z]; [|by exists 0%nat].
  intros. destruct IH as [i Hi]; [lia|]. by exists (S i).
Qed.
Lemma trues_insert l i : l !! i = Some false → trues (<[i:=true]> l) = trues l + 1.
Proof.
  revert i. induction l as [|b l IH]; intros [|i] Hi; try done.
  - injection Hi as ->. cbn [trues insert list_insert Z.b2z]. lia.
  - cbn [insert list_insert trues]. change (trues (list_insert i true l)) with (trues (<[i:=true]> l)).
    rewrite IH by done. lia.
Qed.

Definition slot_count_ok (m : t) : Prop := length (slots m) = 16%nat.
Lemma slot_index_lt m i : slot_count_ok m → 0 ≤ i < 16 → ∃ s, slots m !! Z.to_nat i = Some s.
Proof. intros Hl Hi. apply lookup_lt_is_Some_2. rewrite Hl. lia. Qed.
Lemma read_slot_Ok m i s : 0 ≤ i → slots m !! Z.to_nat i = Some s → read_slot i m = (Ok s, m).
Proof. intros Hi Hs. unfold read_slot, idx, get. replace (0 <=? i) with true by lia. by rewrite Hs. Qed.
Lemma write_slot_Ok n s d r c l i p : length s = 16%nat → 0 ≤ i < 16 →
  write_slot i p (mk n s d r c l) = (Ok tt, mk n (<[Z.to_nat i:=p]> s) d r c l).
Proof.
  intros Hl Hi. unfold write_slot, buf_set, blen. rewrite Hl. by replace (_ && _)%bool with true by lia.
Qed.
Lemma mod_16_range x : 0 ≤ x mod MAX_SLOTS < 16.
Proof. apply Z.mod_pos_bound. done. Qed.
Lemma next_transaction_id_Ok n s d r c l : is_u16 n →
  next_transaction_id (mk n s d r c l) = (Ok (id_of n), mk ((id_of n + 1) mod 65536) s d r c l).
Proof.
  intros Hn. unfold next_transaction_id, id_of. cbn. destruct (Z.eqb_spec n 0) as [->|]; done.
Qed.

(** ** Registration *)
Section Register.
Context (u : Z) (f : FunctionCode.t) (deadline now : Z).
Context (s : list (option PendingTransaction.t)) (Hs : length s = 16%nat).
Context (d : bool) (r : SessionReuseSafety.t) (c : Z) (l : list (Z * reply)).

(** What a successful and a failed registration leave behind *)
Definition registered (id n' : Z) : t :=
  mk n' (<[Z.to_nat (id mod MAX_SLOTS) :=
      Some (PendingTransaction.mk id c now deadline (ExpectedResponse.mk u f))]> s) true r (c + 1) l.
Definition register_result (run : t → res ClientError.t (option (Z * Z)) * t) (n : Z) : Prop :=
  ∃ n', is_u16 n' ∧
  ((∃ id, 1 ≤ id < 65536 ∧ s !! Z.to_nat (id mod MAX_SLOTS) = Some None ∧
      run (mk n s d r c l) = (Ok (Some (id, c)), registered id n')) ∨
   ((∀ i, s !! i ≠ Some None) ∧ run (mk n s d r c l) = (Ok None, mk n' s d r c l))).

(** One round of the loop *)
Lemma register_round fuel seen n : is_u16 n → length seen = 16%nat → trues seen < 16 →
  let id := id_of n in
  let i := Z.to_nat (id mod MAX_SLOTS) in
  ∃ b p, seen !! i = Some b ∧ s !! i = Some p ∧
  register_loop u f deadline now (S fuel) seen (trues seen) (mk n s d r c l) =
  match p with
  | None => (Ok (Some (id, c)), registered id ((id + 1) mod 65536))
  | Some _ => register_loop u f deadline now fuel (<[i:=true]> seen) (trues (<[i:=true]> seen))
                (mk ((id + 1) mod 65536) s d r c l)
  end.
Proof.
  intros Hn Hseen Htr id i. pose proof (mod_16_range id) as Hi.
  destruct (lookup_lt_is_Some_2 seen i) as [b Hb]; [lia|].
  destruct (lookup_lt_is_Some_2 s i) as [p Hp]; [lia|].
  exists b, p. split_and!; try done. cbn [register_loop].
  replace (trues seen <? MAX_SLOTS) with true by (unfold MAX_SLOTS; lia). cbn [negb].
  erewrite st_bind_Ok by by apply next_transaction_id_Ok. fold id.
  rewrite st_bind_lift. unfold idx, get. replace (0 <=? _) with true by lia. fold i. rewrite Hb.
  assert ((if negb b then (<[i:=true]> seen, trues seen + 1) else (seen, trues seen))
    = (<[i:=true]> seen, trues (<[i:=true]> seen))) as ->.
  { destruct b; cbn [negb]; [by rewrite list_insert_id|by rewrite trues_insert]. }
  erewrite st_bind_Ok by (apply read_slot_Ok; [lia|exact Hp]).
  destruct p; [done|]. unfold st_bind at 1, channel. unfold st_bind at 1.
  by rewrite write_slot_Ok.
Qed.
Lemma register_loop_spec fuel : ∀ n seen, is_u16 n → length seen = 16%nat → (0 < fuel)%nat →
  (∀ i, seen !! i = Some true → ∃ p, s !! i = Some (Some p)) →
  (∀ i, seen !! i = Some false → ∃ j, (S j < fuel)%nat ∧ Z.to_nat (probe n j mod MAX_SLOTS) = i) →
  register_result (register_loop u f deadline now fuel seen (trues seen)) n.
Proof.
  induction fuel as [|fuel IH]; intros n seen Hn Hlen Hf Hocc Hcov; [lia|].
  pose proof (trues_bound seen) as Hb. unfold blen in Hb. rewrite Hlen in Hb.
  destruct (Z.lt_ge_cases (trues seen) 16) as [Htr|Htr].
  - destruct (register_round fuel seen n Hn Hlen Htr) as (b & p & Hbi & Hp & Heq).
    set (i := Z.to_nat (id_of n mod MAX_SLOTS)) in *.
    assert (is_u16 ((id_of n + 1) mod 65536)) as Hn' by (apply Z.mod_pos_bound; lia).
    destruct p as [p|].
    + destruct (IH ((id_of n + 1) mod 65536) (<[i:=true]> seen)) as (n' & Hn'' & Hres).
      * done.
      * by rewrite length_insert.
      * destruct (trues_not_full seen) as [i' Hi']; [unfold blen; rewrite Hlen; lia|].
        destruct (Hcov i' Hi') as (j & ? & _). lia.
      * intros i' Hi'. destruct (decide (i' = i)) as [->|]; [by exists p|].
        rewrite list_lookup_insert_ne in Hi' by done. by apply Hocc.
      * intros i' Hi'. destruct (decide (i' = i)) as [->|].
        { rewrite list_lookup_insert_eq in Hi' by (by apply lookup_lt_Some in Hbi). done. }
        rewrite list_lookup_insert_ne in Hi' by done. destruct (Hcov i' Hi') as ([|j] & ? & Hj); [done|].
        exists j. split; [lia|done].
      * exists n'. split; [done|]. by rewrite Heq.
    + exists ((id_of n + 1) mod 65536). split; [done|]. left. exists (id_of n).
      split; [by apply id_of_range|]. done.
  - exists n. split; [done|]. right. split.
    + intros i Hi. assert (i < 16)%nat by (rewrite <-Hs; by apply lookup_lt_Some in Hi).
      destruct (lookup_lt_is_Some_2 seen i) as [[] Hb']; [lia| |].
      * destruct (Hocc i Hb'). congruence.
      * apply trues_full in Hb'; [done|]. unfold blen. lia.
    + cbn [register_loop]. by replace (trues seen <? MAX_SLOTS) with false by (unfold MAX_SLOTS; lia).
Qed.
Lemma register_spec n : is_u16 n →
  ∃ n', is_u16 n' ∧
  ((∃ id, 1 ≤ id < 65536 ∧ s !! Z.to_nat (id mod MAX_SLOTS) = Some None ∧
      register u f deadline now (mk n s d r c l) = (Ok (id, c), registered id n')) ∨
   ((∀ i, s !! i ≠ Some None) ∧ ∃ last_id,
      register u f deadline now (mk n s d r c l)
      = (Err (ClientError.TransactionConflict last_id), mk n' s d r c l))).
Proof.
  intros Hn. destruct (register_loop_spec register_fuel n (replicate 16 false)) as (n' & Hn' & Hres);
    [done|done|unfold register_fuel; lia|..].
  - intros i Hi. apply lookup_replicate in Hi as [? _]. done.
  - intros i Hi. apply lookup_replicate in Hi as [_ Hi].
    destruct (probe_covers n (Z.of_nat i) Hn) as (j & ? & Hj); [lia|].
    exists j. split; [unfold register_fuel; lia|]. change MAX_SLOTS with 16. lia.
  - exists n'. split; [done|]. unfold register. change (trues (replicate 16 false)) with 0 in Hres.
    change (replicate (Z.to_nat MAX_SLOTS) false) with (replicate 16 false).
    destruct Hres as [(id & Hid & Hfree & Heq)|[Hfull Heq]].
    + left. exists id. split; [done|]. split; [done|]. by erewrite st_bind_Ok by exact Heq.
    + right. split; [done|]. eexists. by erewrite st_bind_Ok by exact Heq.
Qed.
End Register.

(** ** The ring invariant *)

(** The transactions in flight *)
Definition pending (m : t) (p : PendingTransaction.t) : Prop := Some p ∈ slots m.

Definition slot_ok (c : Z) (l : list (Z * reply)) (i : nat) (p : PendingTransaction.t) : Prop :=
  Z.to_nat (PendingTransaction.txn_id p mod MAX_SLOTS) = i ∧
  1 ≤ PendingTransaction.txn_id p < 65536 ∧
  0 ≤ PendingTransaction.sender p < c ∧ PendingTransaction.sender p ∉ l.*1.
Record ring_ok (m : t) : Prop := {
  ring_length : length (slots m) = 16%nat;
  ring_next_id : is_u16 (next_id m);
  ring_channels : 0 ≤ channels m;
  ring_slots i p : slots m !! i = Some (Some p) → slot_ok (channels m) (sent m) i p;
  ring_senders i j p q : slots m !! i = Some (Some p) → slots m !! j = Some (Some q) →
    PendingTransaction.sender p = PendingTransaction.sender q → i = j;
  ring_sent_once : NoDup (sent m).*1;
  ring_sent_known : Forall (λ x, 0 ≤ x.1 < channels m) (sent m);
  ring_safety : safety_ok (reuse_safety m);
}.

Lemma insert_lookup_cases {A} (s : list A) i j x y : <[i:=x]> s !! j = Some y →
  (i = j ∧ y = x) ∨ (i ≠ j ∧ s !! j = Some y).
Proof.
  intros Hj. destruct (decide (i = j)) as [->|Hne]; [left|right; by rewrite list_lookup_insert_ne in Hj].
  assert (j < length s)%nat by (rewrite <-(length_insert s j x); by eapply lookup_lt_Some).
  rewrite list_lookup_insert_eq in Hj by done. by injection Hj.
Qed.
Lemma ring_new : ring_ok new.
Proof.
  split; try done; [| |exact (NoDup_nil_2 (A:=Z))|by left].
  - intros i p [? _]%lookup_replicate. done.
  - intros i j p q [? _]%lookup_replicate. done.
Qed.
(** A transaction leaves its slot, with or without a reply. *)
Lemma ring_release n s d r c l n' d' r' i p v : ring_ok (mk n s d r c l) → s !! i = Some (Some p) →
  is_u16 n' → safety_ok r' → v = [] ∨ (∃ x, v = [(PendingTransaction.sender p, x)]) →
  ring_ok (mk n' (<[i:=None]> s) d' r' c (l ++ v)).
Proof.
  intros [Hlen Hn Hc Hsl Hse Hon Hkn Hsa] Hi Hn' Hr' Hv. cbn in *.
  assert (∀ j q, <[i:=None]> s !! j = Some (Some q) → i ≠ j ∧ s !! j = Some (Some q)) as Hj.
  { intros j q Hq. by apply insert_lookup_cases in Hq as [[_ [=]]|?]. }
  pose proof (Hsl i p Hi) as (_ & _ & Hps & Hpn).
  split; cbn; try done.
  - by rewrite length_insert.
  - intros j q Hq. apply Hj in Hq as [Hne Hq]. destruct (Hsl j q Hq) as (? & ? & ? & ?).
    do 3 (split; [done|]). rewrite fmap_app, not_elem_of_app. split; [done|].
    destruct Hv as [->|[x ->]]; cbn; [apply not_elem_of_nil|]. intros Heq%list_elem_of_singleton.
    by destruct Hne; eapply Hse.
  - intros j k q q' Hq%Hj Hq'%Hj. destruct Hq, Hq'. by eapply Hse.
  - rewrite fmap_app. apply NoDup_app. split; [done|]. destruct Hv as [->|[x ->]]; cbn.
    + split; [intros ? _; apply not_elem_of_nil|constructor].
    + split; [|apply NoDup_singleton]. intros y Hy ->%list_elem_of_singleton. done.
  - apply Forall_app. split; [done|]. destruct Hv as [->|[x ->]]; [done|]. by constructor.
Qed.
Lemma ring_frame n s d r c l n' d' r' : ring_ok (mk n s d r c l) → is_u16 n' → safety_ok r' →
  ring_ok (mk n' s d' r' c l).
Proof. intros [] ??. by split. Qed.
Lemma ring_occupy n s d r c l n' u f dl now id : ring_ok (mk n s d r c l) → is_u16 n' →
  1 ≤ id < 65536 → s !! Z.to_nat (id mod MAX_SLOTS) = Some None →
  ring_ok (registered u f dl now s r c l id n').
Proof.
  intros [Hlen Hn Hc Hsl Hse Hon Hkn Hsa] Hn' Hid Hfree. cbn in *. unfold registered.
  set (i := Z.to_nat (id mod MAX_SLOTS)) in *. set (p := PendingTransaction.mk _ _ _ _ _).
  assert (∀ j q, <[i:=Some p]> s !! j = Some (Some q) → (i = j ∧ q = p) ∨ (i ≠ j ∧ s !! j = Some (Some q))) as Hj.
  { intros j q Hq. apply insert_lookup_cases in Hq as [[-> [= ->]]|?]; auto. }
  split; cbn; try done; try lia.
  - by rewrite length_insert.
  - intros j q [[<- ->]|[Hne Hq]]%Hj.
    + split; [done|]. split; [done|]. split; [cbn; lia|]. intros (x & Hx & Hin)%list_elem_of_fmap.
      apply (proj1 (Forall_forall _ _) Hkn) in Hin. cbn in Hx. subst. lia.
    + destruct (Hsl j q Hq) as (? & ? & ? & ?). do 2 (split; [done|]). split; [lia|done].
  - assert (∀ j q, s !! j = Some (Some q) → PendingTransaction.sender q < c) as Hlt
      by (intros j q Hq; destruct (Hsl j q Hq) as (_ & _ & ? & _); lia).
    intros j k q q' [[<- ->]|[? Hq]]%Hj [[<- ->]|[? Hq']]%Hj He; cbn in He; try done;
      [apply Hlt in Hq'; lia|apply Hlt in Hq; lia|by eapply Hse].
  - eapply Forall_impl; [exact Hkn|]. cbn. lia.
Qed.

(** ** Completion

    The verdict on a response to the pending request [p]: the outcome and what the
    caller receives. Only a response in time, from the unit asked, that decodes and
    echoes the function code (or flags an exception to it) is delivered. *)
Section Judged.
Context (p : PendingTransaction.t) (u : Z) (pdu : bytes) (now : Z).
Abbreviation unit_asked := (ExpectedResponse.unit_id (PendingTransaction.expected p)).
Abbreviation code_asked := (FunctionCode.code (ExpectedResponse.function_code (PendingTransaction.expected p))).

Inductive judged : CompletionOutcome.t → reply → Prop :=
  | judged_expired : PendingTransaction.deadline p ≤ now →
      judged CompletionOutcome.Expired (Err ClientError.Timeout)
  | judged_unit : now < PendingTransaction.deadline p → unit_asked ≠ u →
      judged (CompletionOutcome.UnitMismatch unit_asked u)
        (Err (ClientError.UnexpectedResponseUnitId unit_asked u))
  | judged_codec e : now < PendingTransaction.deadline p → unit_asked = u →
      OwnedResponsePdu.from_pdu pdu = Err e →
      judged (CompletionOutcome.CodecRejected e) (Err (ClientError.Codec e))
  | judged_function r : now < PendingTransaction.deadline p → unit_asked = u →
      OwnedResponsePdu.from_pdu pdu = Ok r →
      OwnedResponsePdu.function_code r ≠ code_asked →
      OwnedResponsePdu.function_code r ≠ Z.lor code_asked 0x80 →
      judged (CompletionOutcome.FunctionRejected code_asked (OwnedResponsePdu.function_code r))
        (Err (ClientError.UnexpectedResponse code_asked (OwnedResponsePdu.function_code r)))
  | judged_delivered r : now < PendingTransaction.deadline p → unit_asked = u →
      OwnedResponsePdu.from_pdu pdu = Ok r →
      OwnedResponsePdu.function_code r = code_asked ∨
      OwnedResponsePdu.function_code r = Z.lor code_asked 0x80 →
      judged CompletionOutcome.Delivered (Ok r).

(** Anything but a delivery makes the session unfit for reuse. *)
Definition safety_after (o : CompletionOutcome.t) (r r' : SessionReuseSafety.t) : Prop :=
  match o with
  | CompletionOutcome.Delivered => r' = r
  | _ => ∃ reason, r' = SessionReuseSafety.retire reason r
  end.

Lemma deliver_response_spec n s d r c l : bytes_ok pdu → now < PendingTransaction.deadline p →
  ∃ o v r', deliver_response p u pdu (mk n s d r c l)
      = (Ok o, mk n s d r' c (l ++ [(PendingTransaction.sender p, v)])) ∧
    judged o v ∧ safety_after o r r' ∧ o ≠ CompletionOutcome.UnknownOrDuplicate.
Proof.
  intros Hb Hnow. unfold deliver_response.
  destruct (Z.eqb_spec unit_asked u) as [Hu|Hu]; cbn [negb].
  2: { do 3 eexists. split; [reflexivity|]. split; [by constructor|]. split; [by eexists|done]. }
  pose proof (owned_returns pdu Hb) as Hret.
  destruct (OwnedResponsePdu.from_pdu pdu) as [resp|e| |] eqn:Hpdu; try done.
  2: { do 3 eexists. split; [reflexivity|]. split; [by constructor|]. split; [by eexists|done]. }
  destruct (Z.eqb_spec (OwnedResponsePdu.function_code resp) code_asked);
    [|destruct (Z.eqb_spec (OwnedResponsePdu.function_code resp) (Z.lor code_asked 0x80))]; cbn [negb andb];
    do 3 eexists; (split; [reflexivity|]); (split; [by constructor; auto|]); (split; [by eexists|done]) || done.
Qed.
End Judged.

Definition answered (m m' : t) (p : PendingTransaction.t) (u : Z) (pdu : bytes) (now : Z)
    (o : CompletionOutcome.t) : Prop :=
  ∃ v, judged p u pdu now o v ∧ sent m' = sent m ++ [(PendingTransaction.sender p, v)] ∧
    (∀ q, pending m' q ↔ pending m q ∧ PendingTransaction.txn_id q ≠ PendingTransaction.txn_id p).

(** Emptying a slot removes exactly its transaction. *)
Lemma pending_release m m' i p : ring_ok m → slots m !! i = Some (Some p) → slots m' = <[i:=None]> (slots m) →
  ∀ q, pending m' q ↔ pending m q ∧ PendingTransaction.txn_id q ≠ PendingTransaction.txn_id p.
Proof.
  intros Hm Hi Hs q. unfold pending. rewrite Hs, !list_elem_of_lookup. split.
  - intros [j [[_ [=]]|[Hne Hj]]%insert_lookup_cases]. split; [by exists j|]. intros He. destruct Hne.
    destruct (ring_slots m Hm i p Hi) as [<- _], (ring_slots m Hm j q Hj) as [<- _]. by rewrite He.
  - intros [[j Hj] Hne]. exists j. rewrite list_lookup_insert_ne; [done|]. intros ->.
    rewrite Hi in Hj. by injection Hj as ->.
Qed.
(** A transaction is where its ID says. *)
Lemma pending_slot m p : ring_ok m → pending m p →
  slots m !! Z.to_nat (PendingTransaction.txn_id p mod MAX_SLOTS) = Some (Some p).
Proof. intros Hm [i Hi]%list_elem_of_lookup. by destruct (ring_slots m Hm i p Hi) as [-> _]. Qed.
Lemma safety_after_ok o r r' : safety_ok r → safety_after o r r' → safety_ok r'.
Proof. destruct o; cbn; [by intros ? ->|..]; intros ? [reason ->]; by apply retire_ok. Qed.
Lemma take_slot_Ok n s d r c l i p : length s = 16%nat → 0 ≤ i < 16 →
  take_slot i (Some p) (mk n s d r c l) = (Ok p, mk n (<[Z.to_nat i:=None]> s) d r c l).
Proof. intros. unfold take_slot. by erewrite st_bind_Ok by by apply write_slot_Ok. Qed.
(** What a response frame does *)
Definition completed (m m' : t) (p : PendingTransaction.t) (u : Z) (pdu : bytes) (now : Z)
    (o : CompletionOutcome.t) : Prop :=
  ring_ok m' ∧ safety_after o (reuse_safety m) (reuse_safety m') ∧ answered m m' p u pdu now o.
Definition ignored (m m' : t) (o : CompletionOutcome.t) : Prop :=
  ring_ok m' ∧ safety_after o (reuse_safety m) (reuse_safety m') ∧ slots m' = slots m ∧ sent m' = sent m.

Lemma settled n s d r c l i p u pdu now o v r' :
  ring_ok (mk n s d r c l) → s !! i = Some (Some p) →
  judged p u pdu now o v → safety_after o r r' →
  completed (mk n s d r c l)
    (mk n (<[i:=None]> s) true r' c (l ++ [(PendingTransaction.sender p, v)])) p u pdu now o.
Proof.
  intros Hm Hi Hj Hr. split; [|split; [done|]].
  - apply (ring_release n s d r c l n true r' i p); try done; [by destruct Hm| |eauto].
    destruct Hm. by eapply safety_after_ok.
  - exists v. split; [done|]. split; [done|]. by eapply (pending_release (mk n s d r c l)).
Qed.

Lemma retire_ignored n s d r c l reason o : ring_ok (mk n s d r c l) → o ≠ CompletionOutcome.Delivered →
  ignored (mk n s d r c l) (mk n s d (SessionReuseSafety.retire reason r) c l) o.
Proof.
  intros Hm Ho. split_and!; try done.
  - eapply ring_frame; [done|by destruct Hm|]. apply retire_ok. by destruct Hm.
  - destruct o; try done; by exists reason.
Qed.
Lemma complete_response_spec m txn u pdu now : ring_ok m → bytes_ok pdu →
  ∃ o m', complete_response txn u pdu now m = (Ok o, m') ∧
  ((∃ p, pending m p ∧ PendingTransaction.txn_id p = txn ∧ completed m m' p u pdu now o) ∨
   ((∀ p, pending m p → PendingTransaction.txn_id p ≠ txn) ∧
    o = CompletionOutcome.UnknownOrDuplicate ∧ ignored m m' o)).
Proof.
  intros Hm Hb. pose proof (mod_16_range txn) as Hi. pose proof (ring_length m Hm) as Hlen.
  destruct (slot_index_lt m (txn mod MAX_SLOTS) Hlen Hi) as [slot Hslot].
  unfold complete_response. erewrite st_bind_Ok by (apply read_slot_Ok; [lia|exact Hslot]).
  destruct m as [n s d r c l]. cbn in Hlen, Hslot. destruct (holds_other slot txn) eqn:Ho.
  { do 2 eexists. split; [reflexivity|]. right. split; [|split; [done|by apply retire_ignored]].
    intros p Hp He. pose proof (pending_slot _ p Hm Hp) as Hp'. rewrite He in Hp'. cbn in Hp'.
    rewrite Hslot in Hp'. injection Hp' as ->. cbn in Ho. lia. }
  destruct slot as [p|]; [|done]. cbn in Ho. assert (PendingTransaction.txn_id p = txn) as Hid by lia.
  assert (pending (mk n s d r c l) p) as Hp by by eapply list_elem_of_lookup_2.
  erewrite st_bind_Ok by by apply take_slot_Ok. unfold st_bind at 1, notify_one, st_modify.
  destruct (Z.leb_spec (PendingTransaction.deadline p) now).
  - do 2 eexists. split; [reflexivity|]. left. exists p. split; [done|]. split; [done|].
    by eapply settled; [..|constructor|by eexists].
  - destruct (deliver_response_spec p u pdu now n (<[Z.to_nat (txn mod MAX_SLOTS):=None]> s) true r c l)
      as (o & v & r' & -> & Hj & Hr & _); [done..|].
    do 2 eexists. split; [reflexivity|]. left. exists p. split; [done|]. split; [done|].
    by eapply settled.
Qed.

(** ** The oldest transaction *)
Lemma oldest_loop_spec s : ∀ k acc,
  match oldest_loop k s acc with
  | None => acc = None ∧ ∀ q, Some q ∉ s
  | Some (i, t) =>
      (acc = Some (i, t) ∨
       ∃ j p, i = k + Z.of_nat j ∧ s !! j = Some (Some p) ∧ t = PendingTransaction.sent_at p) ∧
      (∀ q, Some q ∈ s → t ≤ PendingTransaction.sent_at q) ∧
      (∀ i' t', acc = Some (i', t') → t ≤ t')
  end.
Proof.
  induction s as [|x s IH]; intros k acc; cbn [oldest_loop].
  { destruct acc as [[i t]|]; [|split; [done|intros q; apply not_elem_of_nil]].
    split_and!; [by left|by intros q ?%elem_of_nil|]. intros i' t' [= -> ->]. done. }
  set (acc1 := match x with Some _ => _ | None => acc end).
  assert ((acc1 = acc ∨ ∃ p, x = Some p ∧ acc1 = Some (k, PendingTransaction.sent_at p)) ∧
    (∀ p, x = Some p → ∃ i t, acc1 = Some (i, t) ∧ t ≤ PendingTransaction.sent_at p) ∧
    (∀ i' t', acc = Some (i', t') → ∃ i t, acc1 = Some (i, t) ∧ t ≤ t')) as (Hfrom & Hx & Hacc).
  { unfold acc1. destruct x as [p|]; [|split_and!; [by left|done|intros i' t' ->; eauto using Z.le_refl]].
    destruct acc as [[i0 t0]|]; [destruct (Z.ltb_spec (PendingTransaction.sent_at p) t0)|];
      (split_and!; [naive_solver|intros ? [= <-]; do 2 eexists; split; [done|lia]|]);
      intros i' t' [=]; subst; do 2 eexists; (split; [done|lia]). }
  clearbody acc1. specialize (IH (k + 1) acc1). destruct (oldest_loop (k + 1) s acc1) as [[i t]|].
  - destruct IH as (Hi & Hs & Ht). split_and!.
    + destruct Hi as [Hi|(j & p & -> & Hj & ->)].
      * destruct Hfrom as [->|(p & -> & ->)]; [by left|]. right. exists 0%nat, p.
        injection Hi as <- <-. split_and!; [lia|done|done].
      * right. exists (S j), p. split_and!; [lia|done|done].
    + intros q [Hq|Hq]%elem_of_cons; [|by apply Hs].
      destruct (Hx q) as (i1 & t1 & He & ?); [done|]. specialize (Ht i1 t1 He). lia.
    + intros i' t' He. destruct (Hacc i' t' He) as (i1 & t1 & He1 & ?). specialize (Ht i1 t1 He1). lia.
  - destruct IH as [-> Hs]. destruct Hfrom as [<-|(? & _ & [=])]. split; [done|].
    intros q [Hq|Hq]%elem_of_cons; [|by eapply Hs]. by destruct (Hx q) as (? & ? & [=] & _).
Qed.
Lemma complete_selected_spec m i u pdu now : ring_ok m → bytes_ok pdu → 0 ≤ i < 16 →
  ∃ o m', complete_selected i u pdu now m = (Ok o, m') ∧
  ((slots m !! Z.to_nat i = Some None ∧ o = CompletionOutcome.UnknownOrDuplicate ∧ ignored m m' o) ∨
   ∃ p, slots m !! Z.to_nat i = Some (Some p) ∧
     let asked := ExpectedResponse.unit_id (PendingTransaction.expected p) in
     ((PendingTransaction.deadline p ≤ now ∨ asked = u) ∧ completed m m' p u pdu now o ∨
      now < PendingTransaction.deadline p ∧ asked ≠ u ∧
      o = CompletionOutcome.UnitMismatch asked u ∧ ignored m m' o)).
Proof.
  intros Hm Hb Hi. pose proof (ring_length m Hm) as Hlen.
  destruct (slot_index_lt m i Hlen Hi) as [slot Hslot].
  unfold complete_selected. erewrite st_bind_Ok by (apply read_slot_Ok; [lia|exact Hslot]).
  destruct m as [n s d r c l]. cbn in Hlen, Hslot. destruct slot as [p|].
  2: { do 2 eexists. split; [reflexivity|]. left. split; [done|]. split; [done|by apply retire_ignored]. }
  destruct (Z.leb_spec (PendingTransaction.deadline p) now).
  { erewrite st_bind_Ok by by apply take_slot_Ok. do 2 eexists. split; [reflexivity|]. right.
    exists p. split; [done|]. left. split; [by left|]. by eapply settled; [..|constructor|by eexists]. }
  destruct (Z.eqb_spec (ExpectedResponse.unit_id (PendingTransaction.expected p)) u) as [Hu|Hu]; cbn [negb].
  2: { do 2 eexists. split; [reflexivity|]. right. exists p. split; [done|]. right.
       do 3 (split; [done|]). by apply retire_ignored. }
  erewrite st_bind_Ok by by apply take_slot_Ok. unfold st_bind at 1, notify_one, st_modify.
  destruct (deliver_response_spec p u pdu now n (<[Z.to_nat i:=None]> s) true r c l)
    as (o & v & r' & -> & Hj & Hr & _); [done..|].
  do 2 eexists. split; [reflexivity|]. right. exists p. split; [done|]. left. split; [by right|].
  by eapply settled.
Qed.
Lemma remove_spec m txn : ring_ok m →
  ∃ b m', remove txn m = (Ok b, m') ∧ ring_ok m' ∧ (sent m' = sent m ∧ reuse_safety m' = reuse_safety m) ∧
  (∀ q, pending m' q ↔ pending m q ∧ PendingTransaction.txn_id q ≠ txn) ∧
  (b = true ↔ ∃ p, pending m p ∧ PendingTransaction.txn_id p = txn).
Proof.
  intros Hm. pose proof (mod_16_range txn) as Hi. pose proof (ring_length m Hm) as Hlen.
  destruct (slot_index_lt m (txn mod MAX_SLOTS) Hlen Hi) as [slot Hslot].
  unfold remove. erewrite st_bind_Ok by (apply read_slot_Ok; [lia|exact Hslot]).
  destruct (holds_other slot txn) eqn:Ho.
  { assert (∀ p, pending m p → PendingTransaction.txn_id p ≠ txn) as Hno.
    { intros p Hp He. pose proof (pending_slot m p Hm Hp) as Hp'. rewrite He, Hslot in Hp'.
      injection Hp' as ->. cbn in Ho. lia. }
    do 2 eexists. split; [reflexivity|]. split; [done|]. split; [done|]. split; [naive_solver|].
    split; [done|]. intros (p & Hp & He). by destruct (Hno p Hp). }
  destruct slot as [p|]; [|done]. cbn in Ho. assert (PendingTransaction.txn_id p = txn) as <- by lia.
  assert (pending m p) as Hp by by eapply list_elem_of_lookup_2.
  destruct m as [n s d r c l]. erewrite st_bind_Ok by by apply take_slot_Ok.
  do 2 eexists. split; [reflexivity|]. split; [|split; [done|]; split; [|naive_solver]].
  - rewrite <-(app_nil_r l). eapply ring_release; [done|done|by destruct Hm..|by left].
  - by eapply (pending_release (mk n s d r c l)).
Qed.

(** ** Sweeps over the slots

    Both sweeps empty the slots of the transactions [due] selects and send each of
    them the error [e]. *)
Section Sweep.
Context (due : PendingTransaction.t → bool) (e : ClientError.t).

Definition kept (slot : option PendingTransaction.t) : option PendingTransaction.t :=
  match slot with Some p => if due p then None else Some p | None => None end.
Definition chosen (s : list (option PendingTransaction.t)) : list PendingTransaction.t :=
  omap (λ slot, match slot with Some p => if due p then Some p else None | None => None end) s.
Definition replies (s : list (option PendingTransaction.t)) : list (Z * reply) :=
  map (λ p, (PendingTransaction.sender p, Err e)) (chosen s).

Lemma chosen_due p s : due p = true → chosen (Some p :: s) = p :: chosen s.
Proof. intros Hp. unfold chosen. cbn. by rewrite Hp. Qed.
Lemma chosen_kept p s : due p = false → chosen (Some p :: s) = chosen s.
Proof. intros Hp. unfold chosen. cbn. by rewrite Hp. Qed.
Lemma elem_of_chosen p s : p ∈ chosen s ↔ Some p ∈ s ∧ due p = true.
Proof.
  unfold chosen. rewrite list_elem_of_omap. split.
  - intros ([q|] & Hq & He); [|done]. destruct (due q) eqn:Hd; [|done]. by injection He as ->.
  - intros [Hp Hd]. exists (Some p). by rewrite Hd.
Qed.

Lemma slot_at pre x rest n d r c l : length (pre ++ x :: rest) = 16%nat →
  let k := Z.of_nat (length pre) in
  0 ≤ k < 16 ∧ read_slot k (mk n (pre ++ x :: rest) d r c l) = (Ok x, mk n (pre ++ x :: rest) d r c l) ∧
  ∀ y, write_slot k y (mk n (pre ++ x :: rest) d r c l) = (Ok tt, mk n (pre ++ y :: rest) d r c l).
Proof.
  intros Hlen k. assert (0 ≤ k < 16) as Hk by (rewrite length_app in Hlen; cbn in Hlen; lia).
  split; [done|]. split.
  - apply read_slot_Ok; [lia|]. unfold k. rewrite Nat2Z.id. cbn. by rewrite list_lookup_middle.
  - intros y. rewrite write_slot_Ok by done. unfold k. rewrite Nat2Z.id, insert_app_r_alt, Nat.sub_diag by lia. done.
Qed.
(** The invariant when the transaction in the middle leaves *)
Lemma ring_sweep pre p rest n d r c l r' d' :
  ring_ok (mk n (pre ++ Some p :: rest) d r c l) → safety_ok r' →
  ring_ok (mk n (pre ++ None :: rest) d' r' c (l ++ [(PendingTransaction.sender p, Err e)])).
Proof.
  intros Hm Hr. pose proof (ring_release n (pre ++ Some p :: rest) d r c l n d' r' (length pre) p
    [(PendingTransaction.sender p, Err e)] Hm) as H.
  rewrite insert_app_r_alt, Nat.sub_diag in H by lia. apply H; eauto; [|by destruct Hm].
  by rewrite list_lookup_middle.
Qed.
Lemma pending_kept s q : Some q ∈ map kept s ↔ Some q ∈ s ∧ due q = false.
Proof.
  change (map kept s) with (kept <$> s). rewrite list_elem_of_fmap. split.
  - intros ([p|] & Hq & Hp); cbn in Hq; [|done]. destruct (due p) eqn:Hd; [done|]. by injection Hq as ->.
  - intros [Hq Hd]. exists (Some q). cbn. by rewrite Hd.
Qed.
End Sweep.

Lemma cancel_loop_spec make_error rest : ∀ pre b n d r c l,
  length (pre ++ rest) = 16%nat → ring_ok (mk n (pre ++ rest) d r c l) →
  ∃ b', cancel_loop make_error (map Z.of_nat (seq (length pre) (length rest))) b (mk n (pre ++ rest) d r c l)
    = (Ok b', mk n (pre ++ map (λ _, None) rest) d r c
         (l ++ replies (λ _, true) (make_error tt) rest)) ∧
  ring_ok (mk n (pre ++ map (λ _, None) rest) d r c (l ++ replies (λ _, true) (make_error tt) rest)).
Proof.
  induction rest as [|x rest IH]; intros pre b n d r c l Hlen Hm; cbn [length seq map cancel_loop].
  { exists b. change (replies _ _ []) with (@nil (Z * reply)). by rewrite (app_nil_r l). }
  destruct (slot_at pre x rest n d r c l Hlen) as (Hk & Hread & Hwrite).
  rewrite (st_bind_Ok _ _ _ _ _ Hread).
  assert (length (pre ++ [None (A:=PendingTransaction.t)]) = S (length pre)) as Hpre by (rewrite length_app; cbn; lia).
  assert (length ((pre ++ [None]) ++ rest) = 16%nat) as Hlen'
    by (rewrite !length_app in *; cbn in *; lia).
  destruct x as [p|].
  - rewrite (st_bind_Ok _ _ _ _ _ (Hwrite None)). unfold st_bind at 1, send, st_modify.
    pose proof (ring_sweep (make_error tt) pre p rest n d r c l r d Hm ltac:(by destruct Hm)) as Hm'.
    rewrite (cons_middle None), (app_assoc pre) in Hm'.
    destruct (IH (pre ++ [None]) true n d r c (l ++ [(PendingTransaction.sender p, Err (make_error tt))]))
      as (b' & Heq & Hok); [done|done|].
    rewrite Hpre, <-!app_assoc in Heq. rewrite <-!app_assoc in Hok. cbn in Heq, Hok. by exists b'.
  - destruct (IH (pre ++ [None]) b n d r c l) as (b' & Heq & Hok); [done|by rewrite <-app_assoc|].
    rewrite Hpre, <-!app_assoc in Heq. rewrite <-!app_assoc in Hok. cbn in Heq, Hok. by exists b'.
Qed.

Definition is_due (now : Z) (p : PendingTransaction.t) : bool := PendingTransaction.deadline p <=? now.
Definition closer (nearest : option Z) (deadline : Z) : option Z :=
  if match nearest with None => true | Some current => deadline <? current end
  then Some deadline else nearest.
Fixpoint nearest_of (now : Z) (nearest : option Z) (s : list (option PendingTransaction.t)) : option Z :=
  match s with
  | [] => nearest
  | Some p :: s =>
      nearest_of now (if is_due now p then nearest else closer nearest (PendingTransaction.deadline p)) s
  | None :: s => nearest_of now nearest s
  end.

Lemma closer_spec nearest x : ∃ y, closer nearest x = Some y ∧ y ≤ x ∧
  (∀ z, nearest = Some z → y ≤ z) ∧ (y = x ∨ nearest = Some y).
Proof.
  unfold closer. destruct nearest as [z|]; [destruct (Z.ltb_spec x z)|]; eexists; split_and!; try done;
    try (intros ? [= <-]); try lia; auto.
Qed.
Lemma nearest_of_spec now s : ∀ nearest,
  (∀ q, Some q ∈ s → now < PendingTransaction.deadline q →
     ∃ t, nearest_of now nearest s = Some t ∧ t ≤ PendingTransaction.deadline q) ∧
  (∀ z, nearest = Some z → ∃ t, nearest_of now nearest s = Some t ∧ t ≤ z) ∧
  (∀ t, nearest_of now nearest s = Some t → nearest = Some t ∨
     ∃ q, Some q ∈ s ∧ now < PendingTransaction.deadline q ∧ t = PendingTransaction.deadline q).
Proof.
  induction s as [|x s IH]; intros nearest; cbn [nearest_of].
  { split_and!; [by intros q ?%elem_of_nil|intros z ->; eexists; split; [done|lia]|by left]. }
  destruct x as [p|].
  2: { destruct (IH nearest) as (H1 & H2 & H3). split_and!; [|done|].
       - intros q [?|?]%elem_of_cons; [done|auto].
       - intros t Ht. destruct (H3 t Ht) as [?|(q & ? & ?)]; [by left|right; exists q; split; [by right|done]]. }
  unfold is_due. destruct (Z.leb_spec (PendingTransaction.deadline p) now).
  - destruct (IH nearest) as (H1 & H2 & H3). split_and!; [|done|].
    + intros q [[= ->]|?]%elem_of_cons; [lia|auto].
    + intros t Ht. destruct (H3 t Ht) as [?|(q & ? & ?)]; [by left|right; exists q; split; [by right|done]].
  - destruct (closer_spec nearest (PendingTransaction.deadline p)) as (y & -> & Hy & Hz & Hor).
    destruct (IH (Some y)) as (H1 & H2 & H3). destruct (H2 y eq_refl) as (t0 & Ht0 & Hle). split_and!.
    + intros q [[= ->]|?]%elem_of_cons ?; [exists t0; split; [done|lia]|auto].
    + intros z Hn. exists t0. split; [done|]. specialize (Hz z Hn). lia.
    + intros t Ht. destruct (H3 t Ht) as [[= <-]|(q & ? & ?)]; [|right; exists q; split; [by right|done]].
      destruct Hor as [->|?]; [right|by left]. exists p. split_and!; [by left|lia|done].
Qed.

Lemma expire_loop_spec now rest : ∀ pre b nearest n d r c l,
  length (pre ++ rest) = 16%nat → ring_ok (mk n (pre ++ rest) d r c l) →
  ∃ b' r', let m' := mk n (pre ++ map (kept (is_due now)) rest) d r' c
                       (l ++ replies (is_due now) ClientError.Timeout rest) in
  expire_loop now (map Z.of_nat (seq (length pre) (length rest))) b nearest (mk n (pre ++ rest) d r c l)
    = (Ok (b', nearest_of now nearest rest), m') ∧ ring_ok m' ∧
  (chosen (is_due now) rest = [] → r' = r) ∧ (RETIRED_BASE ≤ r ∨ chosen (is_due now) rest ≠ [] → RETIRED_BASE ≤ r').
Proof.
  induction rest as [|x rest IH]; intros pre b nearest n d r c l Hlen Hm; cbn [length seq map expire_loop nearest_of].
  { exists b, r. change (replies _ _ []) with (@nil (Z * reply)). rewrite (app_nil_r l). naive_solver. }
  destruct (slot_at pre x rest n d r c l Hlen) as (Hk & Hread & Hwrite).
  rewrite (st_bind_Ok _ _ _ _ _ Hread).
  assert (∀ y : option PendingTransaction.t, length (pre ++ [y]) = S (length pre)) as Hpre
    by (intros; rewrite length_app; cbn; lia).
  assert (∀ y, length ((pre ++ [y]) ++ rest) = 16%nat) as Hlen'
    by (intros; rewrite !length_app in *; cbn in *; lia).
  destruct x as [p|]; cbn [kept]; [change (PendingTransaction.deadline p <=? now) with (is_due now p);
    destruct (is_due now p) eqn:Hd|].
  - unfold take_slot. erewrite st_bind_Ok by by (erewrite st_bind_Ok by apply Hwrite).
    unfold st_bind at 1, retire, st_modify. unfold st_bind at 1, send, st_modify.
    set (r1 := SessionReuseSafety.retire _ r).
    assert (safety_ok r1) as Hr1 by (apply retire_ok; by destruct Hm).
    pose proof (ring_sweep ClientError.Timeout pre p rest n d r c l r1 d Hm Hr1) as Hm'.
    rewrite (cons_middle None), (app_assoc pre) in Hm'.
    destruct (IH (pre ++ [None]) true nearest n d r1 c (l ++ [(PendingTransaction.sender p, Err ClientError.Timeout)]))
      as (b' & r' & Heq & Hok & _ & Hret); [done|done|].
    rewrite Hpre, <-!app_assoc in Heq. rewrite <-!app_assoc in Hok. cbn [app] in Heq, Hok.
    exists b', r'. unfold replies. rewrite chosen_due by done. split; [exact Heq|]. split; [exact Hok|].
    split; [done|]. intros _. apply Hret. left. apply retire_retired.
  - destruct (IH (pre ++ [Some p]) b (closer nearest (PendingTransaction.deadline p)) n d r c l)
      as (b' & r' & Heq & Hok & Hrest); [done|by rewrite <-app_assoc|].
    rewrite Hpre, <-!app_assoc in Heq. rewrite <-!app_assoc in Hok. cbn [app] in Heq, Hok.
    exists b', r'. unfold replies. by rewrite chosen_kept by done.
  - destruct (IH (pre ++ [None]) b nearest n d r c l) as (b' & r' & Heq & Hok & Hrest);
      [done|by rewrite <-app_assoc|].
    rewrite Hpre, <-!app_assoc in Heq. rewrite <-!app_assoc in Hok. cbn [app] in Heq, Hok. by exists b', r'.
Qed.

(** ** Sequences of operations *)
Lemma pending_count_full s : length s = 16%nat →
  blen (filter (λ x : option PendingTransaction.t, is_Some x) s) = 16 ↔ ∀ i, s !! i ≠ Some None.
Proof.
  intros Hlen. rewrite <-(Z2Nat.id 16) at 1 by done. change (Z.to_nat 16) with 16%nat. rewrite <-Hlen.
  unfold blen. clear Hlen.
  induction s as [|[p|] s IH]; [done|rewrite filter_cons_True by done|rewrite filter_cons_False by (by intros [? [=]])];
    cbn [length].
  - split.
    + intros H [|i]; [done|]. apply IH. lia.
    + intros H. rewrite !Nat2Z.inj_succ. f_equal. apply IH. intros i. apply (H (S i)).
  - pose proof (length_filter (λ x : option PendingTransaction.t, is_Some x) s).
    split; [lia|]. intros H'. by destruct (H' 0%nat).
Qed.

Inductive op : Type :=
  | Register (unit_id : Z) (function_code : FunctionCode.t) (deadline now : Z)
  | Complete (txn_id unit_id : Z) (pdu : bytes) (now : Z)
  | CompleteOldest (unit_id : Z) (pdu : bytes) (now : Z)
  | CompleteSelected (i unit_id : Z) (pdu : bytes) (now : Z)
  | Remove (txn_id : Z)
  | CancelAll (e : ClientError.t)
  | Expire (now : Z).

Definition erase {A} (r : res ClientError.t A * t) : res ClientError.t unit * t := (rmap (λ _, tt) r.1, r.2).
Definition exec (o : op) (m : t) : res ClientError.t unit * t :=
  match o with
  | Register u f d now => erase (register u f d now m)
  | Complete txn u pdu now => erase (complete_response txn u pdu now m)
  | CompleteOldest u pdu now => erase (complete_oldest_response u pdu now m)
  | CompleteSelected i u pdu now => erase (complete_selected i u pdu now m)
  | Remove txn => erase (remove txn m)
  | CancelAll e => erase (cancel_all (λ _, e) m)
  | Expire now => erase (expire_due_and_next_deadline now m)
  end.
Definition op_ok (o : op) : Prop :=
  match o with
  | Complete _ _ pdu _ | CompleteOldest _ pdu _ => bytes_ok pdu
  | CompleteSelected i _ pdu _ => 0 ≤ i < 16 ∧ bytes_ok pdu
  | _ => True
  end.
Fixpoint run (os : list op) (m : t) : list (res ClientError.t unit) * t :=
  match os with
  | [] => ([], m)
  | o :: os => let '(r, m) := exec o m in let '(rs, m) := run os m in (r :: rs, m)
  end.

Lemma complete_oldest_spec m u pdu now : ring_ok m → bytes_ok pdu →
  ((∀ q, ¬ pending m q) ∧ ∃ m', complete_oldest_response u pdu now m = (Ok CompletionOutcome.UnknownOrDuplicate, m') ∧
     ignored m m' CompletionOutcome.UnknownOrDuplicate) ∨
  ∃ i p, 0 ≤ i < 16 ∧ slots m !! Z.to_nat i = Some (Some p) ∧
    (∀ q, pending m q → PendingTransaction.sent_at p ≤ PendingTransaction.sent_at q) ∧
    complete_oldest_response u pdu now m = complete_selected i u pdu now m.
Proof.
  intros Hm Hb.
  assert (complete_oldest_response u pdu now m = match oldest_loop 0 (slots m) None with
    | None => (retire SessionRetirementReason.UnknownOrDuplicateResponse;;;
               st_ret CompletionOutcome.UnknownOrDuplicate) m
    | Some (i, _) => complete_selected i u pdu now m
    end) as -> by (unfold complete_oldest_response, st_bind at 1, st_get; by repeat case_match).
  pose proof (oldest_loop_spec (slots m) 0 None) as Ho.
  destruct (oldest_loop 0 (slots m) None) as [[i t]|].
  - destruct Ho as ([?|(j & p & -> & Hj & ->)] & Hmin & _); [done|]. right. exists (0 + Z.of_nat j), p.
    pose proof (lookup_lt_Some _ _ _ Hj) as Hlt. rewrite (ring_length m Hm) in Hlt.
    split; [lia|]. replace (Z.to_nat (0 + Z.of_nat j)) with j by lia.
    split; [done|]. split; [exact Hmin|done].
  - destruct Ho as [_ Hno]. left. split; [done|]. destruct m as [n s d r c l].
    eexists. split; [reflexivity|]. by apply retire_ignored.
Qed.
Lemma expire_spec m now : ring_ok m → ∃ nearest m',
  expire_due_and_next_deadline now m = (Ok nearest, m') ∧ ring_ok m' ∧
  nearest = nearest_of now None (slots m) ∧
  slots m' = map (kept (is_due now)) (slots m) ∧
  sent m' = sent m ++ replies (is_due now) ClientError.Timeout (slots m) ∧
  (chosen (is_due now) (slots m) = [] → reuse_safety m' = reuse_safety m) ∧
  (chosen (is_due now) (slots m) ≠ [] → RETIRED_BASE ≤ reuse_safety m').
Proof.
  intros Hm. pose proof (ring_length m Hm) as Hlen. destruct m as [n s d r c l].
  destruct (expire_loop_spec now s [] false None n d r c l Hlen Hm) as (b & r' & Heq & Hok & Hr1 & Hr2).
  cbn [length app] in Heq, Hok. cbn [slots] in Hlen. rewrite Hlen in Heq.
  unfold expire_due_and_next_deadline. rewrite (st_bind_Ok _ _ _ _ _ Heq).
  assert (ring_ok (mk n (map (kept (is_due now)) s) true r' c (l ++ replies (is_due now) ClientError.Timeout s)))
    by (eapply ring_frame; [exact Hok|apply (ring_next_id _ Hok)|apply (ring_safety _ Hok)]).
  destruct b; do 2 eexists; (split; [reflexivity|]); (split; [assumption|]);
    do 3 (split; [reflexivity|]); (split; [exact Hr1|]); intros Hne; apply Hr2; by right.
Qed.
Lemma cancel_spec m e : ring_ok m → ∃ m',
  cancel_all (λ _, e) m = (Ok tt, m') ∧ ring_ok m' ∧ (∀ q, ¬ pending m' q) ∧
  sent m' = sent m ++ replies (λ _, true) e (slots m) ∧ reuse_safety m' = reuse_safety m.
Proof.
  intros Hm. pose proof (ring_length m Hm) as Hlen. destruct m as [n s d r c l].
  destruct (cancel_loop_spec (λ _, e) s [] false n d r c l Hlen Hm) as (b & Heq & Hok).
  cbn [length app] in Heq, Hok. cbn [slots] in Hlen. rewrite Hlen in Heq.
  unfold cancel_all. rewrite (st_bind_Ok _ _ _ _ _ Heq).
  assert (∀ q d', ¬ pending (mk n (map (λ _, None) s) d' r c (l ++ replies (λ _, true) e s)) q) as Hno.
  { intros q d' Hq. unfold pending in Hq. cbn [slots] in Hq. apply list_elem_of_In, in_map_iff in Hq as (? & [=] & _). }
  assert (ring_ok (mk n (map (λ _, None) s) true r c (l ++ replies (λ _, true) e s)))
    by (eapply ring_frame; [exact Hok|apply (ring_next_id _ Hok)|apply (ring_safety _ Hok)]).
  destruct b; eexists; (split; [reflexivity|]); (split; [assumption|]); (split; [|by split]);
    intros q; apply Hno.
Qed.

Lemma exec_ok o m : ring_ok m → op_ok o → returns (exec o m).1 ∧ ring_ok (exec o m).2.
Proof.
  intros Hm Ho. destruct o; cbn [exec op_ok] in *.
  - destruct m as [n s d r c l]. destruct (register_spec unit_id function_code deadline now s
      (ring_length _ Hm) d r c l n (ring_next_id _ Hm)) as (n' & Hn' & [(id & Hid & Hfree & ->)|[_ [x ->]]]).
    + split; [done|]. by eapply ring_occupy.
    + split; [done|]. eapply ring_frame; [done..|by destruct Hm].
  - destruct (complete_response_spec m txn_id unit_id pdu now Hm Ho) as (o & m' & -> & [(p & _ & _ & [? _])|(_ & _ & [? _])]); done.
  - destruct (complete_oldest_spec m unit_id pdu now Hm Ho) as [(_ & m' & -> & [? _])|(i & p & Hi & _ & _ & ->)]; [done|].
    destruct (complete_selected_spec m i unit_id pdu now Hm Ho Hi)
      as (o & m' & -> & [(_ & _ & [? _])|(q & _ & [(_ & [? _])|(_ & _ & _ & [? _])])]); done.
  - destruct (complete_selected_spec m i unit_id pdu now Hm (proj2 Ho) (proj1 Ho))
      as (o & m' & -> & [(_ & _ & [? _])|(q & _ & [(_ & [? _])|(_ & _ & _ & [? _])])]); done.
  - destruct (remove_spec m txn_id Hm) as (b & m' & -> & ? & _). done.
  - destruct (cancel_spec m e Hm) as (m' & -> & ? & _). done.
  - destruct (expire_spec m now Hm) as (x & m' & -> & ? & _). done.
Qed.
(** Nothing makes a session fit for reuse but the end of a clean shutdown. *)
Definition retires (r r' : SessionReuseSafety.t) : Prop := r' = r ∨ RETIRED_BASE ≤ r'.
#[export] Instance retires_preorder : PreOrder retires.
Proof. split; [by left|]. unfold retires. intros r1 r2 r3 [->|?] [->|?]; auto. Qed.
Lemma retire_retires reason r : retires r (SessionReuseSafety.retire reason r).
Proof. right. apply retire_retired. Qed.
Lemma safety_after_retires o r r' : safety_after o r r' → retires r r'.
Proof. destruct o; cbn; [by left|intros [reason ->]; apply retire_retires..]. Qed.
Lemma exec_retires o m : ring_ok m → op_ok o → retires (reuse_safety m) (reuse_safety (exec o m).2).
Proof.
  intros Hm Ho. destruct o; cbn [exec op_ok] in *.
  - destruct m as [n s d r c l]. destruct (register_spec unit_id function_code deadline now s
      (ring_length _ Hm) d r c l n (ring_next_id _ Hm)) as (n' & Hn' & [(id & Hid & Hfree & ->)|[_ [x ->]]]); by left.
  - destruct (complete_response_spec m txn_id unit_id pdu now Hm Ho) as (o & m' & -> & [(p & _ & _ & (_ & Hs & _))|(_ & _ & (_ & Hs & _))]);
      by eapply safety_after_retires.
  - destruct (complete_oldest_spec m unit_id pdu now Hm Ho) as [(_ & m' & -> & (_ & Hs & _))|(i & p & Hi & _ & _ & ->)]; [by eapply safety_after_retires|].
    destruct (complete_selected_spec m i unit_id pdu now Hm Ho Hi)
      as (o & m' & -> & [(_ & _ & (_ & Hs & _))|(q & _ & [(_ & (_ & Hs & _))|(_ & _ & _ & (_ & Hs & _))])]); by eapply safety_after_retires.
  - destruct (complete_selected_spec m i unit_id pdu now Hm (proj2 Ho) (proj1 Ho))
      as (o & m' & -> & [(_ & _ & (_ & Hs & _))|(q & _ & [(_ & (_ & Hs & _))|(_ & _ & _ & (_ & Hs & _))])]); by eapply safety_after_retires.
  - destruct (remove_spec m txn_id Hm) as (b & m' & -> & _ & [_ Hs] & _). by left.
  - destruct (cancel_spec m e Hm) as (m' & -> & _ & _ & _ & Hs). by left.
  - destruct (expire_spec m now Hm) as (x & m' & -> & _ & _ & _ & _ & Hsame & Hret). cbn [erase snd].
    destruct (chosen (is_due now) (slots m)) eqn:Hc; [left; by apply Hsame|right; by apply Hret].
Qed.
Lemma run_ok os m : ring_ok m → Forall op_ok os → Forall returns (run os m).1 ∧ ring_ok (run os m).2.
Proof.
  intros Hm Hos. revert m Hm. induction Hos as [|o os Ho Hos IH]; intros m Hm; [done|]. cbn [run].
  destruct (exec_ok o m Hm Ho) as [Hr Hm1]. destruct (exec o m) as [r m1]. destruct (IH m1 Hm1) as [Hrs Hm2].
  destruct (run os m1) as [rs m2]. split; [by constructor|done].
Qed.

(** * Theorems *)

(** Registering a request: it succeeds exactly when fewer than 16 are in
    flight, whatever the value of the wrapping ID counter; the new transaction has
    a nonzero ID and a channel no other transaction has, and joins those in
    flight, which stay as they were. With 16 in flight it fails with a conflict
    and changes no slot. The probing loop always ends. *)
Theorem register_exact m u f deadline now : ring_ok m →
  ∃ m', ring_ok m' ∧ sent m' = sent m ∧
  ((pending_count m < 16 ∧ ∃ id ch, register u f deadline now m = (Ok (id, ch), m') ∧ 1 ≤ id < 65536 ∧
      (∀ q, pending m q → PendingTransaction.txn_id q ≠ id ∧ PendingTransaction.sender q ≠ ch) ∧
      (∀ q, pending m' q ↔ pending m q ∨
         q = PendingTransaction.mk id ch now deadline (ExpectedResponse.mk u f))) ∨
   (pending_count m = 16 ∧ ∃ last_id,
      register u f deadline now m = (Err (ClientError.TransactionConflict last_id), m') ∧
      slots m' = slots m)).
Proof.
  intros Hm. destruct m as [n s d r c l].
  destruct (register_spec u f deadline now s (ring_length _ Hm) d r c l n (ring_next_id _ Hm))
    as (n' & Hn' & [(id & Hid & Hfree & Heq)|[Hfull [x Heq]]]).
  - exists (registered u f deadline now s r c l id n'). split; [by eapply ring_occupy|]. split; [done|]. left.
    assert (pending_count (mk n s d r c l) ≠ 16) as Hne.
    { intros Hc. apply (pending_count_full s (ring_length _ Hm)) in Hfree; done. }
    pose proof (length_filter (λ x : option PendingTransaction.t, is_Some x) s) as Hle.
    rewrite (ring_length _ Hm : length s = 16%nat) in Hle. split; [unfold pending_count, blen in *; cbn in *; lia|].
    exists id, c. split; [done|]. split; [done|]. split.
    + intros q Hq. pose proof (pending_slot _ q Hm Hq) as Hs. cbn in Hs. split; [congruence|].
      destruct (ring_slots _ Hm _ _ Hs) as (_ & _ & ? & _). cbn in *. lia.
    + intros q. unfold pending, registered. cbn [slots]. rewrite !list_elem_of_lookup. split.
      * intros [j [[_ [= ->]]|[_ Hj]]%insert_lookup_cases]; [by right|left; by exists j].
      * intros [[j Hj]| ->].
        -- exists j. rewrite list_lookup_insert_ne; [done|]. intros <-. congruence.
        -- eexists. rewrite list_lookup_insert_eq; [done|]. by apply lookup_lt_Some in Hfree.
  - exists (mk n' s d r c l). split; [eapply ring_frame; [done..|by destruct Hm]|]. split; [done|]. right.
    split; [by apply pending_count_full; [apply (ring_length _ Hm)|]|]. by exists x.
Qed.
Lemma register_exact_witness :
  ∃ m', ring_ok m' ∧ pending_count m' = 1.
Proof.
  destruct (register_exact new 1 FunctionCode.ReadCoils 100 0 ring_new)
    as (m' & Hm' & _ & [(_ & id & ch & Heq & _)|[Hc _]]); [|by vm_compute in Hc].
  exists m'. split; [exact Hm'|]. vm_compute in Heq. injection Heq as _ _ <-. vm_compute. reflexivity.
Defined.

(** Correlating a Modbus/TCP response: it is judged against the transaction
    in flight with its ID, which leaves the ring and gets exactly one reply, the
    judged one; no other transaction is touched. A response whose ID no
    transaction has, late or duplicate, reaches nobody and changes no slot. Unless
    the response is delivered, the session is marked unfit for reuse. *)
Theorem complete_response_exact m txn u pdu now : ring_ok m → bytes_ok pdu →
  ∃ o m', complete_response txn u pdu now m = (Ok o, m') ∧
  safety_after o (reuse_safety m) (reuse_safety m') ∧
  (∀ p, pending m p → PendingTransaction.txn_id p = txn → answered m m' p u pdu now o) ∧
  ((∀ p, pending m p → PendingTransaction.txn_id p ≠ txn) →
     o = CompletionOutcome.UnknownOrDuplicate ∧ slots m' = slots m ∧ sent m' = sent m).
Proof.
  intros Hm Hb. destruct (complete_response_spec m txn u pdu now Hm Hb)
    as (o & m' & Heq & [(p & Hp & Hid & (Hm' & Hs & Ha))|(Hno & -> & (Hm' & Hs & ? & ?))]);
    eexists _, m'; (split; [exact Heq|]); (split; [done|]).
  - split; [|intros Hno; by destruct (Hno p Hp)]. intros q Hq Hqid.
    pose proof (pending_slot m p Hm Hp) as Hsp. pose proof (pending_slot m q Hm Hq) as Hsq.
    rewrite Hid in Hsp. rewrite Hqid, Hsp in Hsq. by injection Hsq as ->.
  - split; [|done]. intros p Hp Hid. by destruct (Hno p Hp).
Qed.
Lemma complete_response_exact_witness :
  let m := (register 1 FunctionCode.ReadHoldingRegisters 100 0 new).2 in
  ∃ o m', complete_response 1 1 [3; 2; 0; 7] 50 m = (Ok o, m') ∧ o = CompletionOutcome.Delivered.
Proof.
  intros m. assert (ring_ok m) as Hm.
  { destruct (register_spec 1 FunctionCode.ReadHoldingRegisters 100 0 (slots new) eq_refl false 0 0 [] 1)
      as (n' & Hn' & [(id & Hid & Hfree & Heq)|[Hfull _]]); [lia| |by destruct (Hfull 0%nat)].
    unfold m. change new with (mk 1 (slots new) false 0 0 []). rewrite Heq.
    exact (ring_occupy 1 (slots new) false 0 0 [] n' _ _ _ _ id ring_new Hn' Hid Hfree). }
  destruct (complete_response_exact m 1 1 [3; 2; 0; 7] 50 Hm) as (o & m' & Heq & _).
  - repeat constructor; lia.
  - exists o, m'. split; [exact Heq|]. vm_compute in Heq. injection Heq as <- _. reflexivity.
Defined.

(** Correlating an RTU response, which has no ID: it concerns the transaction
    sent first. Unless that one is overdue, a response of another unit is left
    alone as traffic of the line: no reply is sent and the transaction stays in
    flight; otherwise the transaction is answered with the judged reply. *)
Theorem complete_oldest_exact m u pdu now : ring_ok m → bytes_ok pdu →
  ∃ o m', complete_oldest_response u pdu now m = (Ok o, m') ∧
  (((∀ q, ¬ pending m q) ∧ o = CompletionOutcome.UnknownOrDuplicate ∧ sent m' = sent m) ∨
   ∃ p, pending m p ∧ (∀ q, pending m q → PendingTransaction.sent_at p ≤ PendingTransaction.sent_at q) ∧
     let asked := ExpectedResponse.unit_id (PendingTransaction.expected p) in
     if (now <? PendingTransaction.deadline p) && negb (asked =? u)
     then o = CompletionOutcome.UnitMismatch asked u ∧ slots m' = slots m ∧ sent m' = sent m
     else answered m m' p u pdu now o).
Proof.
  intros Hm Hb. destruct (complete_oldest_spec m u pdu now Hm Hb)
    as [(Hno & m' & Heq & (_ & _ & _ & ?))|(i & p & Hi & Hs & Hmin & ->)]; [by eexists _, m'; eauto|].
  destruct (complete_selected_spec m i u pdu now Hm Hb Hi) as (o & m' & Heq & [(Hs' & _)|(q & Hs' & Hq)]);
    [congruence|]. rewrite Hs in Hs'. injection Hs' as <-. exists o, m'. split; [done|]. right. exists p.
  split; [by eapply list_elem_of_lookup_2|]. split; [done|]. cbn zeta.
  destruct Hq as [([Hdue|Hu] & _ & _ & Ha)|(Hdue & Hu & -> & _ & _ & ? & ?)].
  - by replace (now <? _) with false by lia.
  - rewrite (proj2 (Z.eqb_eq _ _) Hu). by rewrite andb_false_r.
  - replace (now <? _) with true by lia. rewrite (proj2 (Z.eqb_neq _ _) Hu). done.
Qed.
Lemma complete_oldest_exact_witness :
  ∃ o m', complete_oldest_response 1 [3; 2; 0; 7] 50 new = (Ok o, m').
Proof.
  destruct (complete_oldest_exact new 1 [3; 2; 0; 7] 50 ring_new) as (o & m' & Heq & _).
  - repeat constructor; lia.
  - exists o, m'. exact Heq.
Defined.

(** The deadline scan: every transaction whose deadline has passed leaves the
    ring with one timeout, the others stay, and the time returned for the next scan
    is the earliest deadline left (none if and only if nothing is in flight), so a
    scan at that time misses none. *)
Theorem expire_exact m now : ring_ok m →
  ∃ nearest m', expire_due_and_next_deadline now m = (Ok nearest, m') ∧
  (∀ p, pending m' p ↔ pending m p ∧ now < PendingTransaction.deadline p) ∧
  (∃ ps, sent m' = sent m ++ map (λ p, (PendingTransaction.sender p, Err ClientError.Timeout)) ps ∧
     ∀ p, p ∈ ps ↔ pending m p ∧ PendingTransaction.deadline p ≤ now) ∧
  match nearest with
  | None => ∀ p, ¬ pending m' p
  | Some t => (∃ p, pending m' p ∧ PendingTransaction.deadline p = t) ∧
              ∀ p, pending m' p → t ≤ PendingTransaction.deadline p
  end.
Proof.
  intros Hm. destruct (expire_spec m now Hm) as (nearest & m' & Heq & _ & Hn & Hs & Hsent & _).
  exists nearest, m'. split; [done|].
  assert (∀ p, pending m' p ↔ pending m p ∧ now < PendingTransaction.deadline p) as Hp.
  { intros p. unfold pending. rewrite Hs, pending_kept. unfold is_due. by rewrite Z.leb_gt. }
  split; [done|]. split.
  - eexists. split; [exact Hsent|]. intros p. rewrite elem_of_chosen. unfold is_due. by rewrite Z.leb_le.
  - destruct (nearest_of_spec now (slots m) None) as (H1 & _ & H3). rewrite <-Hn in *.
    destruct nearest as [t|].
    + destruct (H3 t eq_refl) as [[=]|(q & Hq & Hlt & ->)]. split; [exists q; by rewrite Hp|].
      intros p [Hq' Hl]%Hp. destruct (H1 p Hq' Hl) as (t & [= <-] & ?). done.
    + intros p [Hq' Hl]%Hp. by destruct (H1 p Hq' Hl) as (t & [=] & _).
Qed.
Lemma expire_exact_witness : ∃ nearest m', expire_due_and_next_deadline 5 new = (Ok nearest, m').
Proof.
  destruct (expire_exact new 5 ring_new) as (nearest & m' & Heq & _). exists nearest, m'. exact Heq.
Defined.

(** C28. At most one reply per request: after any sequence of registrations,
    responses, removals, deadline scans and cancellations, in any order, nothing has
    panicked, no channel was sent to twice, no transaction in flight has been
    answered yet, and no two transactions in flight share an ID or a channel. *)
Theorem replies_at_most_once os : Forall op_ok os →
  let '(rs, m) := run os new in
  Forall returns rs ∧ NoDup (sent m).*1 ∧
  (∀ p, pending m p → PendingTransaction.sender p ∉ (sent m).*1) ∧
  (∀ p q, pending m p → pending m q →
     PendingTransaction.txn_id p = PendingTransaction.txn_id q ∨
     PendingTransaction.sender p = PendingTransaction.sender q → p = q).
Proof.
  intros Hos. destruct (run_ok os new ring_new Hos) as [Hrs Hm]. destruct (run os new) as [rs m].
  cbn in Hrs, Hm. split; [done|]. split; [apply Hm|]. split.
  - intros p Hp. pose proof (pending_slot m p Hm Hp) as Hs. by destruct (ring_slots m Hm _ p Hs) as (_ & _ & _ & ?).
  - intros p q Hp Hq He. pose proof (pending_slot m p Hm Hp) as Hsp. pose proof (pending_slot m q Hm Hq) as Hsq.
    destruct He as [He|He]; [rewrite He, Hsq in Hsp; by injection Hsp|].
    pose proof (ring_senders m Hm _ _ p q Hsp Hsq He) as Hi. rewrite Hi, Hsq in Hsp. by injection Hsp.
Qed.
Lemma replies_at_most_once_witness :
  NoDup (sent (run [Register 1 FunctionCode.ReadCoils 10 0; Expire 10; Complete 1 1 [1; 1; 0] 11] new).2).*1.
Proof.
  pose proof (replies_at_most_once
    [Register 1 FunctionCode.ReadCoils 10 0; Expire 10; Complete 1 1 [1; 1; 0] 11]) as H.
  destruct (run _ new) as [rs m]. apply H. repeat constructor; lia.
Defined.
