(* ===== verification/Bits.v ===== *)
(** * Packed bit tables (crates/rusty-modbus-server/src/store/bits.rs)

    The coils and discrete inputs of the in-memory store: bits packed eight to a
    byte, read and written in runs that need not be aligned. The theorems describe
    every operation by the bits [bit l i] of the table, indexed by position. *)
From S2P Require Import Prelude Types CodecError.

(** ** [u8] operators: complement, and a left shift that drops the high bits *)
Definition u8_not (x : Z) : Z := Z.lxor x 255.
Definition u8_shl (x n : Z) : Z := Z.land (Z.shiftl x n) 255.

Definition low_bit_mask (bit_count : Z) : Z :=
  if 8 <=? bit_count then u8_max else Z.shiftl 1 bit_count - 1.

(** [usize::checked_add] on a 64-bit target *)
Definition usize_max : Z := 2 ^ 64 - 1.
Definition checked_add (a b : Z) : option Z := if usize_max <? a + b then None else Some (a + b).
Definition check_range (address quantity max : Z) : res ExceptionCode.t unit :=
  match checked_add address quantity with
  | None => Err ExceptionCode.IllegalDataAddress
  | Some end_ => if max <? end_ then Err ExceptionCode.IllegalDataAddress else Ok tt
  end.

Definition in_1_8 (bit_count : Z) : bool := (1 <=? bit_count) && (bit_count <=? 8).

(** [slice.chunks(n)]: the last chunk may be shorter *)
Fixpoint chunks_go {A} (fuel n : nat) (l : list A) : list (list A) :=
  match fuel, l with
  | O, _ | _, [] => []
  | S fuel, l => take n l :: chunks_go fuel n (drop n l)
  end.
Definition chunks {A} (n : Z) (l : list A) : list (list A) := chunks_go (length l) (Z.to_nat n) l.

(** [for i in 0..n] *)
Fixpoint for_range {S E} (f : Z → ST S E unit) (i : Z) (n : nat) : ST S E unit :=
  match n with
  | O => st_ret tt
  | Datatypes.S n => f i;;; for_range f (i + 1) n
  end.
(** [for (i, x) in l.iter().enumerate()] *)
Fixpoint for_enumerate {S E A} (f : Z → A → ST S E unit) (i : Z) (l : list A) : ST S E unit :=
  match l with
  | [] => st_ret tt
  | x :: l => f i x;;; for_enumerate f (i + 1) l
  end.

Module BitTable.
Record t : Type := mk { len : Z; bytes : list Z }.

Definition new (len : Z) : t := mk len (replicate (Z.to_nat (div_ceil len 8)) 0).

(** [self.bytes\[i\] = f(self.bytes\[i\])] *)
Definition update {E} (i : Z) (f : Z → Z) : ST t E unit :=
  λ self, match get (bytes self) i with
          | Some b => (Ok tt, mk (len self) (<[Z.to_nat i := f b]> (bytes self)))
          | None => (Panic, self)
          end.

Definition set {E} (index : Z) (value : bool) : ST t E unit :=
  let mask := Z.shiftl 1 (index mod 8) in
  update (index / 8) (λ byte, if value then Z.lor byte mask else Z.land byte (u8_not mask)).

Definition read_byte_bits {E} (self : t) (start bit_count : Z) : res E Z :=
  let? _ := debug_assert (in_1_8 bit_count) in
  let byte_index := start / 8 in
  let shift := start mod 8 in
  let? b0 := idx (bytes self) byte_index in
  let byte := Z.shiftr b0 shift in
  let? byte :=
    if negb (shift =? 0) && (byte_index + 1 <? blen (bytes self)) then
      let? b1 := idx (bytes self) (byte_index + 1) in
      Ok (Z.lor byte (u8_shl b1 (8 - shift)))
    else Ok byte in
  Ok (Z.land byte (low_bit_mask bit_count)).

Definition write_byte_bits {E} (start value bit_count : Z) : ST t E unit :=
  st_lift (debug_assert (in_1_8 bit_count));;;
  let byte_index := start / 8 in
  let shift := start mod 8 in
  let mask := low_bit_mask bit_count in
  let value := Z.land value mask in
  if shift + bit_count <=? 8 then
    let shifted_mask := u8_shl mask shift in
    update byte_index (λ b, Z.lor (Z.land b (u8_not shifted_mask)) (u8_shl value shift))
  else
  let low_bits := 8 - shift in
  let low_mask := u8_shl (low_bit_mask low_bits) shift in
  update byte_index (λ b, Z.lor (Z.land b (u8_not low_mask)) (Z.land (u8_shl value shift) low_mask));;;
  high_bits <- st_lift (usub bit_count low_bits);;
  let high_mask := low_bit_mask high_bits in
  update (byte_index + 1)
    (λ b, Z.lor (Z.land b (u8_not high_mask)) (Z.land (Z.shiftr value low_bits) high_mask)).

(** The output buffer is the state. *)
Definition read_bits (self : t) (address quantity : Z) : ST (list bool) ExceptionCode.t Z :=
  let start := address in
  st_lift (check_range address quantity (len self));;;
  out <- st_get;;
  if blen out <? quantity then st_err ExceptionCode.IllegalDataValue else
  for_range (λ byte_index,
    let out_start := byte_index * 8 in
    rest <- st_lift (usub quantity out_start);;
    let bit_count := Z.min rest 8 in
    byte <- st_lift (read_byte_bits self (start + out_start) bit_count);;
    for_range (λ bit, buf_set (out_start + bit) (Z.land (Z.shiftr byte bit) 1 =? 1))
      0 (Z.to_nat bit_count)) 0 (Z.to_nat (div_ceil quantity 8));;;
  st_ret quantity.

Definition read_packed (self : t) (address quantity : Z) : ST (list Z) ExceptionCode.t Z :=
  let start := address in
  st_lift (check_range address quantity (len self));;;
  let byte_count := div_ceil quantity 8 in
  out <- st_get;;
  if blen out <? byte_count then st_err ExceptionCode.IllegalDataValue else
  for_range (λ byte_index,
    let source_bit := start + byte_index * 8 in
    rest <- st_lift (usub quantity (byte_index * 8));;
    let bit_count := Z.min rest 8 in
    byte <- st_lift (read_byte_bits self source_bit bit_count);;
    buf_set byte_index byte) 0 (Z.to_nat byte_count);;;
  st_ret quantity.

(** [for (bit, &value) in chunk.iter().enumerate() { byte |= u8::from(value) << bit; }] *)
Fixpoint pack_byte (bit byte : Z) (chunk : list bool) : Z :=
  match chunk with
  | [] => byte
  | value :: chunk => pack_byte (bit + 1) (Z.lor byte (u8_shl (Z.b2z value) bit)) chunk
  end.

Definition write_bits (address : Z) (values : list bool) : ST t ExceptionCode.t unit :=
  let start := address in
  self <- st_get;;
  st_lift (check_range address (blen values) (len self));;;
  for_enumerate (λ byte_index chunk,
    let byte := pack_byte 0 0 chunk in
    write_byte_bits (start + byte_index * 8) byte (blen chunk)) 0 (chunks 8 values).

Definition write_packed (address quantity : Z) (packed_values : list Z) : ST t ExceptionCode.t unit :=
  let start := address in
  self <- st_get;;
  st_lift (check_range address quantity (len self));;;
  for_enumerate (λ byte_index byte,
    let offset := byte_index * 8 in
    rest <- st_lift (usub quantity offset);;
    let bit_count := Z.min rest 8 in
    write_byte_bits (start + offset) byte bit_count) 0 packed_values.
End BitTable.

(** * Lemmas *)

(** ** Bits of machine bytes *)
Lemma testbit_u8 b i : is_u8 b → 8 ≤ i → Z.testbit b i = false.
Proof.
  intros Hb Hi. destruct (decide (b = 0)) as [->|]; [apply Z.testbit_0_l|].
  apply Z.bits_above_log2; [lia|]. apply Z.log2_lt_pow2; [lia|].
  assert (2 ^ 8 ≤ 2 ^ i) by (apply Z.pow_le_mono_r; lia). lia.
Qed.
Lemma u8_testbit b : 0 ≤ b → (∀ i, 8 ≤ i → Z.testbit b i = false) → is_u8 b.
Proof.
  intros Hb Hi. destruct (Z_lt_le_dec b 256); [lia|]. exfalso.
  assert (8 ≤ Z.log2 b) as Hl by (apply Z.log2_le_pow2; lia).
  specialize (Hi _ Hl). rewrite Z.bit_log2 in Hi by lia. done.
Qed.
Lemma testbit_255 i : 0 ≤ i → Z.testbit 255 i = (i <? 8).
Proof. intros. change 255 with (Z.ones 8). rewrite Z.testbit_ones by lia. lia. Qed.
Lemma low_bit_mask_testbit n i : 0 ≤ n → 0 ≤ i → Z.testbit (low_bit_mask n) i = (i <? Z.min n 8).
Proof.
  intros Hn Hi. unfold low_bit_mask, u8_max. destruct (Z.leb_spec 8 n).
  - rewrite testbit_255 by done. by replace (Z.min n 8) with 8 by lia.
  - change (Z.shiftl 1 n - 1) with (Z.pred (Z.shiftl 1 n)). fold (Z.ones n).
    rewrite Z.testbit_ones by lia. replace (Z.min n 8) with n by lia. lia.
Qed.
Lemma u8_shl_testbit x n i : 0 ≤ n → 0 ≤ i →
  Z.testbit (u8_shl x n) i = (n <=? i) && (i <? 8) && Z.testbit x (i - n).
Proof.
  intros Hn Hi. unfold u8_shl. rewrite Z.land_spec, testbit_255 by done.
  destruct (Z.leb_spec n i); cbn [andb].
  - rewrite Z.shiftl_spec by done. by rewrite andb_comm.
  - rewrite Z.shiftl_spec, Z.testbit_neg_r by lia. done.
Qed.
Lemma u8_not_testbit x i : 0 ≤ i < 8 → Z.testbit (u8_not x) i = negb (Z.testbit x i).
Proof.
  intros Hi. unfold u8_not. rewrite Z.lxor_spec, testbit_255 by lia. replace (i <? 8) with true by lia.
  by rewrite xorb_true_r.
Qed.

(** ** The bits of a table *)
Import BitTable.

Definition bit (l : list Z) (i : Z) : bool := Z.testbit (nth (Z.to_nat (i / 8)) l 0) (i mod 8).
Definition table_ok (self : t) : Prop :=
  bytes_ok (bytes self) ∧ 0 ≤ len self ≤ usize_max ∧ blen (bytes self) = div_ceil (len self) 8.

Lemma bit_get l k j b : get l k = Some b → 0 ≤ j < 8 → bit l (k * 8 + j) = Z.testbit b j.
Proof.
  intros Hk Hj. pose proof (get_Some_lt l k b Hk). unfold bit.
  replace ((k * 8 + j) / 8) with k by (Z.to_euclidean_division_equations; lia).
  replace ((k * 8 + j) mod 8) with j by (Z.to_euclidean_division_equations; lia).
  unfold get in Hk. replace (0 <=? k) with true in Hk by lia. by rewrite (nth_lookup_Some _ _ _ b).
Qed.
Lemma bit_split i : 0 ≤ i → i = i / 8 * 8 + i mod 8 ∧ 0 ≤ i mod 8 < 8 ∧ 0 ≤ i / 8.
Proof. intros. Z.to_euclidean_division_equations; lia. Qed.
Lemma bit_at l i b : 0 ≤ i → get l (i / 8) = Some b → bit l i = Z.testbit b (i mod 8).
Proof.
  intros Hi Hb. destruct (bit_split i Hi) as (He & Hm & _). rewrite He at 1. by apply bit_get.
Qed.
Lemma get_insert_same {A} (l : list A) k b x : get l k = Some b → get (<[Z.to_nat k:=x]> l) k = Some x.
Proof.
  unfold get. destruct (0 <=? k); [|done]. intros Hk. apply list_lookup_insert_eq. by apply lookup_lt_Some in Hk.
Qed.
Lemma get_insert_other {A} (l : list A) k j x : 0 ≤ k → j ≠ k → get (<[Z.to_nat k:=x]> l) j = get l j.
Proof.
  intros Hk Hne. unfold get. destruct (Z.leb_spec 0 j); [|done]. apply list_lookup_insert_ne. lia.
Qed.
(** Replacing one byte changes the eight bits in it. *)
Lemma bit_insert l k b x i : get l k = Some b → 0 ≤ i < 8 * blen l →
  bit (<[Z.to_nat k:=x]> l) i = if i / 8 =? k then Z.testbit x (i mod 8) else bit l i.
Proof.
  intros Hk Hi. pose proof (get_Some_lt l k b Hk).
  destruct (bit_split i) as (Hsplit & Hmod & Hdiv); [lia|].
  destruct (Z.eqb_spec (i / 8) k) as [He|Hne].
  - rewrite Hsplit, He at 1. apply bit_get; [|done]. by eapply get_insert_same.
  - destruct (get_lt_is_Some l (i / 8)) as [b' Hb']; [lia|].
    rewrite Hsplit, (bit_get l _ _ b') by done. apply bit_get; [|done]. by rewrite get_insert_other by lia.
Qed.
Lemma bytes_ok_insert l k x : bytes_ok l → is_u8 x → bytes_ok (<[k:=x]> l).
Proof. intros Hl Hx. by apply Forall_insert. Qed.

Lemma low_bit_mask_nonneg n : 0 ≤ n → 0 ≤ low_bit_mask n.
Proof.
  intros. unfold low_bit_mask, u8_max. case_match; [lia|]. rewrite Z.shiftl_1_l.
  pose proof (Z.pow_pos_nonneg 2 n). lia.
Qed.
(** Masking keeps the low bits, and makes a byte. *)
Lemma masked_spec byte n (f : Z → bool) : 1 ≤ n ≤ 8 → (∀ j, 0 ≤ j < n → Z.testbit byte j = f j) →
  is_u8 (Z.land byte (low_bit_mask n)) ∧
  ∀ j, 0 ≤ j < 8 → Z.testbit (Z.land byte (low_bit_mask n)) j = (j <? n) && f j.
Proof.
  intros Hn Hf.
  assert (∀ j, 0 ≤ j → Z.testbit (Z.land byte (low_bit_mask n)) j = (j <? n) && Z.testbit byte j) as Hb.
  { intros j Hj. rewrite Z.land_spec, low_bit_mask_testbit by lia. replace (Z.min n 8) with n by lia. apply andb_comm. }
  split.
  - apply u8_testbit; [apply Z.land_nonneg; right; by apply low_bit_mask_nonneg; lia|].
    intros i Hi. rewrite Hb by lia. by replace (i <? n) with false by lia.
  - intros j Hj. rewrite Hb by lia. destruct (Z.ltb_spec j n); [|done]. by rewrite Hf by lia.
Qed.
Lemma in_1_8_true n : 1 ≤ n ≤ 8 → in_1_8 n = true.
Proof. unfold in_1_8. lia. Qed.
Lemma read_byte_bits_spec {E} self start n : bytes_ok (bytes self) → 0 ≤ start → 1 ≤ n ≤ 8 →
  start + n ≤ 8 * blen (bytes self) →
  ∃ r, read_byte_bits (E:=E) self start n = Ok r ∧ is_u8 r ∧
    ∀ j, 0 ≤ j < 8 → Z.testbit r j = (j <? n) && bit (bytes self) (start + j).
Proof.
  intros Hok Hs Hn Hin. destruct self as [ln l]. cbn [bytes] in *.
  destruct (bit_split start Hs) as (Hsplit & Hsh & Hdiv).
  set (k := start / 8) in *. set (sh := start mod 8) in *.
  destruct (get_lt_is_Some l k) as [b0 Hb0]; [lia|]. pose proof (get_byte_ok l k b0 Hok Hb0) as Hu0.
  unfold read_byte_bits. rewrite in_1_8_true by done. cbn [bytes debug_assert rbind]. fold k sh. rewrite (proj2 (idx_Ok l k b0) Hb0). cbn [rbind].
  assert (∀ j, 0 ≤ j → sh + j < 8 → Z.testbit (Z.shiftr b0 sh) j = bit l (start + j)) as Hlow.
  { intros j Hj Hlt. rewrite Z.shiftr_spec by lia. replace (start + j) with (k * 8 + (sh + j)) by lia.
    rewrite (bit_get l k (sh + j) b0) by (done || lia). f_equal. lia. }
  destruct (negb (sh =? 0) && (k + 1 <? blen l)) eqn:Hc.
  - apply andb_prop in Hc as [Hc1 Hc2].
    destruct (get_lt_is_Some l (k + 1)) as [b1 Hb1]; [lia|]. rewrite (proj2 (idx_Ok l (k + 1) b1) Hb1). cbn [rbind].
    eexists. split; [reflexivity|]. apply masked_spec; [done|]. intros j Hj.
    rewrite Z.lor_spec, u8_shl_testbit by lia. destruct (Z.lt_ge_cases (sh + j) 8).
    + replace (8 - sh <=? j) with false by lia. cbn [andb]. rewrite orb_false_r. by apply Hlow; lia.
    + rewrite Z.shiftr_spec, testbit_u8 by (done || lia).
      replace (8 - sh <=? j) with true by lia. replace (j <? 8) with true by lia. cbn [andb orb].
      replace (start + j) with ((k + 1) * 8 + (sh + j - 8)) by lia.
      rewrite (bit_get l (k + 1) (sh + j - 8) b1) by (done || lia). f_equal. lia.
  - eexists. split; [reflexivity|]. apply masked_spec; [done|]. intros j Hj. apply Hlow; lia.
Qed.

Lemma update_Ok {E} self k f b : get (bytes self) k = Some b →
  update (E:=E) k f self = (Ok tt, mk (len self) (<[Z.to_nat k:=f b]> (bytes self))).
Proof. intros Hk. unfold update. by rewrite Hk. Qed.
(** Merging [v] into the bits [lo, hi) of a byte *)
Lemma merge_spec b m v lo hi : is_u8 b → 0 ≤ lo ≤ hi → hi ≤ 8 →
  (∀ j, 0 ≤ j < 8 → Z.testbit m j = (lo <=? j) && (j <? hi)) →
  0 ≤ v → (∀ j, 0 ≤ j → lo ≤ j < hi ∨ Z.testbit v j = false) →
  is_u8 (Z.lor (Z.land b (u8_not m)) v) ∧
  ∀ j, 0 ≤ j < 8 → Z.testbit (Z.lor (Z.land b (u8_not m)) v) j =
    if (lo <=? j) && (j <? hi) then Z.testbit v j else Z.testbit b j.
Proof.
  intros Hb Hlo Hhi Hm Hv Hvb. split.
  - apply u8_testbit; [apply Z.lor_nonneg; split; [apply Z.land_nonneg; lia|done]|].
    intros i Hi. rewrite Z.lor_spec, Z.land_spec, testbit_u8 by done.
    destruct (Hvb i) as [?| ->]; [lia|lia|done].
  - intros j Hj. rewrite Z.lor_spec, Z.land_spec, u8_not_testbit, Hm by done.
    destruct ((lo <=? j) && (j <? hi)) eqn:Hin; cbn [negb].
    + by rewrite andb_false_r.
    + rewrite andb_true_r. destruct (Hvb j) as [?| ->]; [lia|lia|]. apply orb_false_r.
Qed.

Lemma masked_testbit value n j : 1 ≤ n ≤ 8 → 0 ≤ j →
  Z.testbit (Z.land value (low_bit_mask n)) j = (j <? n) && Z.testbit value j.
Proof.
  intros Hn Hj. rewrite Z.land_spec, low_bit_mask_testbit by lia. replace (Z.min n 8) with n by lia.
  apply andb_comm.
Qed.
Lemma u8_shl_nonneg x n : 0 ≤ u8_shl x n.
Proof. unfold u8_shl. apply Z.land_nonneg. lia. Qed.

Definition bits_written (l l' : list Z) (start n value : Z) : Prop :=
  bytes_ok l' ∧ blen l' = blen l ∧
  ∀ i, 0 ≤ i < 8 * blen l →
    bit l' i = if (start <=? i) && (i <? start + n) then Z.testbit value (i - start) else bit l i.

Lemma blen_insert {A} (l : list A) k x : blen (<[k:=x]> l) = blen l.
Proof. unfold blen. by rewrite length_insert. Qed.

(** One read-modify-write of a byte *)
Lemma update_bits l k b m v lo hi : bytes_ok l → get l k = Some b → 0 ≤ lo ≤ hi → hi ≤ 8 →
  (∀ j, 0 ≤ j < 8 → Z.testbit m j = (lo <=? j) && (j <? hi)) →
  0 ≤ v → (∀ j, 0 ≤ j → lo ≤ j < hi ∨ Z.testbit v j = false) →
  let l' := <[Z.to_nat k := Z.lor (Z.land b (u8_not m)) v]> l in
  bytes_ok l' ∧ blen l' = blen l ∧
  ∀ i, 0 ≤ i < 8 * blen l →
    bit l' i = if (k * 8 + lo <=? i) && (i <? k * 8 + hi) then Z.testbit v (i - k * 8) else bit l i.
Proof.
  intros Hok Hb Hlo Hhi Hm Hv Hvb l'. pose proof (get_byte_ok l k b Hok Hb) as Hu.
  destruct (merge_spec b m v lo hi Hu Hlo Hhi Hm Hv Hvb) as [Hx Hbits].
  split_and!; [by apply bytes_ok_insert|apply blen_insert|]. intros i Hi. unfold l'.
  rewrite (bit_insert l k b) by done. destruct (bit_split i) as (Hi1 & Hi2 & Hi3); [lia|].
  destruct (Z.eqb_spec (i / 8) k) as [He|Hne].
  - rewrite Hbits by lia. replace ((lo <=? i mod 8) && (i mod 8 <? hi))
      with ((k * 8 + lo <=? i) && (i <? k * 8 + hi)) by lia.
    case_match; [f_equal; lia|]. symmetry. apply bit_at; [lia|by rewrite He].
  - by replace ((k * 8 + lo <=? i) && (i <? k * 8 + hi)) with false by lia.
Qed.
(** A run of bits [lo, hi) as a mask, and a value shifted into it *)
Lemma run_mask n sh : 1 ≤ n ≤ 8 → 0 ≤ sh → sh + n ≤ 8 →
  ∀ j, 0 ≤ j < 8 → Z.testbit (u8_shl (low_bit_mask n) sh) j = (sh <=? j) && (j <? sh + n).
Proof.
  intros Hn Hsh Hfit j Hj. rewrite u8_shl_testbit by lia. destruct (Z.leb_spec sh j); [|done]. cbn [andb].
  rewrite low_bit_mask_testbit by lia. lia.
Qed.
Lemma run_value value n sh j : 1 ≤ n ≤ 8 → 0 ≤ sh → 0 ≤ j →
  Z.testbit (u8_shl (Z.land value (low_bit_mask n)) sh) j
  = (sh <=? j) && (j <? Z.min 8 (sh + n)) && Z.testbit value (j - sh).
Proof.
  intros Hn Hsh Hj. rewrite u8_shl_testbit by lia. destruct (Z.leb_spec sh j); [|done]. cbn [andb].
  rewrite masked_testbit by lia. replace (j <? Z.min 8 (sh + n)) with ((j <? 8) && (j - sh <? n)) by lia.
  by rewrite andb_assoc.
Qed.

(** Both branches of the write: inside one byte, and across two. *)
Lemma write_one_byte {E} ln l start value n : bytes_ok l → 0 ≤ start → 1 ≤ n ≤ 8 →
  start + n ≤ 8 * blen l → start mod 8 + n ≤ 8 →
  ∃ l', write_byte_bits (E:=E) start value n (mk ln l) = (Ok tt, mk ln l') ∧ bits_written l l' start n value.
Proof.
  intros Hok Hs Hn Hin Hfit. destruct (bit_split start Hs) as (Hsplit & Hsh & Hdiv).
  unfold write_byte_bits. rewrite in_1_8_true by done. rewrite st_bind_lift. cbn [debug_assert]. replace (start mod 8 + n <=? 8) with true by lia.
  set (k := start / 8) in *. set (sh := start mod 8) in *.
  destruct (get_lt_is_Some l k) as [b0 Hb0]; [lia|].
  rewrite (update_Ok _ k _ b0) by done. eexists. split; [reflexivity|].
  destruct (update_bits l k b0 (u8_shl (low_bit_mask n) sh) (u8_shl (Z.land value (low_bit_mask n)) sh) sh (sh + n))
    as (Hok' & Hlen & Hbits); [done|done|lia|lia|apply run_mask; lia|apply u8_shl_nonneg| |].
  { intros j Hj. rewrite run_value by lia. destruct (Z.leb_spec sh j); [|by right].
    destruct (Z.ltb_spec j (Z.min 8 (sh + n))); [left; lia|by right]. }
  split_and!; [done..|]. intros i Hi. cbn [bytes] in *. rewrite Hbits by done.
  replace ((k * 8 + sh <=? i) && (i <? k * 8 + (sh + n))) with ((start <=? i) && (i <? start + n)) by lia.
  case_match; [|done]. rewrite run_value by lia. replace (i - k * 8 - sh) with (i - start) by lia.
  by replace ((sh <=? i - k * 8) && (i - k * 8 <? Z.min 8 (sh + n))) with true by lia.
Qed.
Lemma write_two_bytes {E} ln l start value n : bytes_ok l → 0 ≤ start → 1 ≤ n ≤ 8 →
  start + n ≤ 8 * blen l → 8 < start mod 8 + n →
  ∃ l', write_byte_bits (E:=E) start value n (mk ln l) = (Ok tt, mk ln l') ∧ bits_written l l' start n value.
Proof.
  intros Hok Hs Hn Hin Hfit. destruct (bit_split start Hs) as (Hsplit & Hsh & Hdiv).
  unfold write_byte_bits. rewrite in_1_8_true by done. rewrite st_bind_lift. cbn [debug_assert]. replace (start mod 8 + n <=? 8) with false by lia.
  set (k := start / 8) in *. set (sh := start mod 8) in *. set (value' := Z.land value (low_bit_mask n)).
  destruct (get_lt_is_Some l k) as [b0 Hb0]; [lia|]. destruct (get_lt_is_Some l (k + 1)) as [b1 Hb1]; [lia|].
  set (low_mask := u8_shl (low_bit_mask (8 - sh)) sh). set (high_mask := low_bit_mask (n - (8 - sh))).
  assert (∀ j, 0 ≤ j < 8 → Z.testbit low_mask j = (sh <=? j) && (j <? 8)) as Hlow.
  { intros j Hj. unfold low_mask. rewrite run_mask by lia. by replace (sh + (8 - sh)) with 8 by lia. }
  destruct (update_bits l k b0 low_mask (Z.land (u8_shl value' sh) low_mask) sh 8)
    as (Hok1 & Hlen1 & Hbits1); [done|done|lia|lia|done|apply Z.land_nonneg; left; apply u8_shl_nonneg| |].
  { intros j Hj. rewrite Z.land_spec. unfold value'. rewrite run_value by lia.
    destruct (Z.leb_spec sh j); [|by right]. destruct (Z.ltb_spec j (Z.min 8 (sh + n))); [left; lia|by right]. }
  erewrite st_bind_Ok by by apply (update_Ok (mk ln l) k _ b0). rewrite st_bind_lift, usub_Ok by lia.
  cbn [len bytes]. set (l1 := <[Z.to_nat k:=_]> l) in *. fold high_mask.
  assert (get l1 (k + 1) = Some b1) as Hb1' by (unfold l1; by rewrite get_insert_other by lia).
  destruct (update_bits l1 (k + 1) b1 high_mask (Z.land (Z.shiftr value' (8 - sh)) high_mask) 0 (n - (8 - sh)))
    as (Hok2 & Hlen2 & Hbits2); [done|done|lia|lia| | | |].
  { intros j Hj. unfold high_mask. rewrite low_bit_mask_testbit by lia. lia. }
  { apply Z.land_nonneg. right. apply low_bit_mask_nonneg. lia. }
  { intros j Hj. unfold high_mask. rewrite Z.land_spec, low_bit_mask_testbit by lia.
    destruct (Z.ltb_spec j (Z.min (n - (8 - sh)) 8)); [left; lia|right; apply andb_false_r]. }
  rewrite (update_Ok (mk ln l1) (k + 1) _ b1) by done. cbn [len bytes]. eexists. split; [reflexivity|].
  split_and!; [done|lia|]. intros i Hi. rewrite Hbits2 by lia.
  destruct (((k + 1) * 8 + 0 <=? i) && (i <? (k + 1) * 8 + (n - (8 - sh)))) eqn:Hr2; [|rewrite Hbits1 by lia;
    destruct ((k * 8 + sh <=? i) && (i <? k * 8 + 8)) eqn:Hr1].
  - replace ((start <=? i) && (i <? start + n)) with true by lia.
    unfold value', high_mask. rewrite Z.land_spec, Z.shiftr_spec, masked_testbit, low_bit_mask_testbit by lia.
    replace (i - (k + 1) * 8 + (8 - sh)) with (i - start) by lia. replace (i - start <? n) with true by lia.
    replace (i - (k + 1) * 8 <? _) with true by lia. apply andb_true_r.
  - replace ((start <=? i) && (i <? start + n)) with true by lia.
    rewrite Z.land_spec, Hlow by lia. unfold value'. rewrite run_value by lia.
    replace (i - k * 8 - sh) with (i - start) by lia.
    replace ((sh <=? i - k * 8) && (i - k * 8 <? Z.min 8 (sh + n))) with true by lia.
    replace ((sh <=? i - k * 8) && (i - k * 8 <? 8)) with true by lia. apply andb_true_r.
  - by replace ((start <=? i) && (i <? start + n)) with false by lia.
Qed.
Lemma write_byte_bits_spec {E} ln l start value n : bytes_ok l → 0 ≤ start → 1 ≤ n ≤ 8 →
  start + n ≤ 8 * blen l →
  ∃ l', write_byte_bits (E:=E) start value n (mk ln l) = (Ok tt, mk ln l') ∧ bits_written l l' start n value.
Proof.
  intros. destruct (Z_le_gt_dec (start mod 8 + n) 8); [by apply write_one_byte|apply write_two_bytes; try done; lia].
Qed.

(** ** Loops *)
Lemma for_range_inv {S E} (f : Z → ST S E unit) (I : Z → S → Prop) n : ∀ i s, I i s →
  (∀ k s, i ≤ k < i + Z.of_nat n → I k s → ∃ s', f k s = (Ok tt, s') ∧ I (k + 1) s') →
  ∃ s', for_range f i n s = (Ok tt, s') ∧ I (i + Z.of_nat n) s'.
Proof.
  induction n as [|n IH]; intros i s Hi Hf; cbn [for_range].
  { exists s. split; [done|]. by rewrite Z.add_0_r. }
  destruct (Hf i s) as (s1 & Heq & H1); [lia|done|]. rewrite (st_bind_Ok _ _ _ _ _ Heq).
  destruct (IH (i + 1) s1 H1) as (s' & Heq' & H').
  - intros k s2 Hk. apply Hf. lia.
  - exists s'. split; [done|]. by replace (i + Z.of_nat (Datatypes.S n)) with (i + 1 + Z.of_nat n) by lia.
Qed.
Lemma for_enumerate_inv {S E A} (f : Z → A → ST S E unit) (I : Z → S → Prop) l : ∀ i s, I i s →
  (∀ k x s, get l k = Some x → I (i + k) s → ∃ s', f (i + k) x s = (Ok tt, s') ∧ I (i + k + 1) s') →
  ∃ s', for_enumerate f i l s = (Ok tt, s') ∧ I (i + blen l) s'.
Proof.
  induction l as [|x l IH]; intros i s Hi Hf; cbn [for_enumerate].
  { exists s. split; [done|]. by rewrite blen_nil, Z.add_0_r. }
  destruct (Hf 0 x s) as (s1 & Heq & H1); [done|by rewrite Z.add_0_r|].
  rewrite Z.add_0_r in Heq, H1. rewrite (st_bind_Ok _ _ _ _ _ Heq).
  destruct (IH (i + 1) s1 H1) as (s' & Heq' & H').
  - intros k y s2 Hk. replace (i + 1 + k) with (i + (1 + k)) by lia. apply Hf.
    pose proof (get_Some_lt l k y Hk). change (x :: l) with ([x] ++ l).
    rewrite get_app_r; change (blen [x]) with 1; [by replace (1 + k - 1) with k by lia|lia].
  - exists s'. split; [done|]. rewrite blen_cons. by replace (i + (1 + blen l)) with (i + 1 + blen l) by lia.
Qed.
Lemma buf_set_spec {E A} (b : list A) i v : 0 ≤ i < blen b →
  ∃ b', buf_set (E:=E) i v b = (Ok tt, b') ∧ blen b' = blen b ∧ get b' i = Some v ∧
    ∀ j, j ≠ i → get b' j = get b j.
Proof.
  intros Hi. unfold buf_set. replace ((0 <=? i) && (i <? blen b)) with true by lia.
  eexists. split; [reflexivity|]. destruct (get_lt_is_Some b i Hi) as [x Hx].
  split_and!; [apply blen_insert|by eapply get_insert_same|]. intros j Hj. by apply get_insert_other; [lia|].
Qed.
Lemma div_ceil_8 q : 0 ≤ q → 0 ≤ div_ceil q 8 ∧ q ≤ 8 * div_ceil q 8 < q + 8.
Proof. intros. unfold div_ceil. Z.to_euclidean_division_equations; lia. Qed.
Lemma low_bit_test byte i : 0 ≤ i → (Z.land (Z.shiftr byte i) 1 =? 1) = Z.testbit byte i.
Proof.
  intros Hi. change 1 with (Z.ones 1) at 1. rewrite Z.land_ones by lia. change (2 ^ 1) with 2.
  rewrite Zmod_odd, <-Z.bit0_odd, Z.shiftr_spec by lia. rewrite Z.add_0_l. by destruct (Z.testbit byte i).
Qed.

Lemma check_range_Ok a n m : 0 ≤ m → a + n ≤ m ≤ usize_max → check_range a n m = Ok tt.
Proof.
  intros. unfold check_range, checked_add. replace (usize_max <? a + n) with false by lia.
  by replace (m <? a + n) with false by lia.
Qed.
Lemma check_range_Err a n m : m < a + n → check_range a n m = Err ExceptionCode.IllegalDataAddress.
Proof.
  intros. unfold check_range, checked_add. destruct (usize_max <? a + n); [done|].
  by replace (m <? a + n) with true by lia.
Qed.

(** ** Reads *)
Section Reads.
Context (self : t) (Hok : table_ok self) (a q : Z) (Ha : 0 ≤ a) (Hq : 0 ≤ q).

Lemma table_room : a + q ≤ len self → a + q ≤ 8 * blen (bytes self).
Proof. intros. destruct Hok as (_ & Hl & ->). pose proof (div_ceil_8 (len self) (proj1 Hl)). lia. Qed.

(** [b] is byte [k] of the requested run. *)
Definition packed_byte (k b : Z) : Prop :=
  is_u8 b ∧ ∀ j, 0 ≤ j < 8 → Z.testbit b j = (k * 8 + j <? q) && bit (bytes self) (a + (k * 8 + j)).

Lemma read_run {E} k : a + q ≤ len self → 0 ≤ k < div_ceil q 8 →
  ∃ b, read_byte_bits (E:=E) self (a + k * 8) (Z.min (q - k * 8) 8) = Ok b ∧ packed_byte k b.
Proof.
  intros Hfit Hk. pose proof (table_room Hfit). pose proof (div_ceil_8 q Hq).
  destruct (read_byte_bits_spec (E:=E) self (a + k * 8) (Z.min (q - k * 8) 8)) as (b & Heq & Hu & Hb);
    [apply Hok|lia..|]. exists b. split; [done|]. split; [done|]. intros j Hj. rewrite Hb by done.
  replace (j <? Z.min (q - k * 8) 8) with (k * 8 + j <? q) by lia. do 2 f_equal. lia.
Qed.

Lemma read_packed_spec out : a + q ≤ len self → div_ceil q 8 ≤ blen out →
  ∃ out', read_packed self a q out = (Ok q, out') ∧ blen out' = blen out ∧
    (∀ k, 0 ≤ k < div_ceil q 8 → ∃ b, get out' k = Some b ∧ packed_byte k b) ∧
    (∀ k, div_ceil q 8 ≤ k → get out' k = get out k).
Proof.
  intros Hfit Hout. pose proof (div_ceil_8 q Hq) as Hc. unfold read_packed.
  destruct Hok as (_ & Hl & _). rewrite st_bind_lift, check_range_Ok by lia. clear Hl.
  unfold st_bind at 1, st_get. replace (blen out <? div_ceil q 8) with false by lia.
  edestruct (for_range_inv (E := ExceptionCode.t) (λ byte_index,
    rest <- st_lift (usub q (byte_index * 8));;
    byte <- st_lift (read_byte_bits self (a + byte_index * 8) (Z.min rest 8));; buf_set byte_index byte)
    (λ k out', blen out' = blen out ∧ (∀ m, 0 ≤ m < k → ∃ b, get out' m = Some b ∧ packed_byte m b) ∧
       ∀ m, k ≤ m → get out' m = get out m) (Z.to_nat (div_ceil q 8)) 0 out) as (out' & Heq & Hlen & Hin & Hrest).
  - split_and!; [done|lia|done].
  - intros k o Hk (Hlen & Hin & Hrest). rewrite st_bind_lift, usub_Ok by lia.
    destruct (read_run (E := ExceptionCode.t) k Hfit) as (b & Hb & Hp); [lia|]. rewrite st_bind_lift, Hb.
    destruct (buf_set_spec (E := ExceptionCode.t) o k b) as (o' & Ho & Hlo & Hgo & Hother); [lia|].
    exists o'. split; [done|]. split_and!; [lia| |].
    + intros m Hm. destruct (decide (m = k)) as [->|]; [by exists b|]. rewrite Hother by done. apply Hin. lia.
    + intros m Hm. rewrite Hother by lia. apply Hrest. lia.
  - rewrite (st_bind_Ok _ _ _ _ _ Heq). rewrite Z2Nat.id, Z.add_0_l in * by lia. by exists out'.
Qed.

(** [out'] is [out] with the first [m] bits of the run stored at its start. *)
Definition bits_read (out : list bool) (m : Z) (out' : list bool) : Prop :=
  blen out' = blen out ∧ (∀ i, 0 ≤ i < m → get out' i = Some (bit (bytes self) (a + i))) ∧
  ∀ i, m ≤ i → get out' i = get out i.

(** The inner loop stores the bits of one byte. *)
Lemma read_bits_byte {E} out k b o : packed_byte k b → 0 ≤ k → k * 8 < q → q ≤ blen out →
  bits_read out (k * 8) o →
  ∃ o', for_range (λ j, buf_set (E:=E) (k * 8 + j) (Z.land (Z.shiftr b j) 1 =? 1))
          0 (Z.to_nat (Z.min (q - k * 8) 8)) o = (Ok tt, o') ∧ bits_read out (Z.min (k * 8 + 8) q) o'.
Proof.
  intros [_ Hb] Hk Hlt Hout Ho.
  edestruct (for_range_inv (λ j, buf_set (E:=E) (k * 8 + j) (Z.land (Z.shiftr b j) 1 =? 1))
    (λ j, bits_read out (k * 8 + j)) (Z.to_nat (Z.min (q - k * 8) 8)) 0 o) as (o' & Heq & Hr).
  - by rewrite Z.add_0_r.
  - intros j o1 Hj (Hlen & Hin & Hrest).
    destruct (buf_set_spec (E:=E) o1 (k * 8 + j) (Z.land (Z.shiftr b j) 1 =? 1)) as (o2 & -> & Hl2 & Hg & Hn); [lia|].
    exists o2. split; [done|]. split_and!; [lia| |].
    + intros i Hi. destruct (decide (i = k * 8 + j)) as [->|]; [|rewrite Hn by done; apply Hin; lia].
      rewrite Hg, low_bit_test, Hb by lia. by replace (k * 8 + j <? q) with true by lia.
    + intros i Hi. rewrite Hn by lia. apply Hrest. lia.
  - exists o'. split; [done|]. by replace (Z.min (k * 8 + 8) q) with (k * 8 + (0 + Z.of_nat (Z.to_nat (Z.min (q - k * 8) 8)))) by lia.
Qed.
Lemma read_bits_spec out : a + q ≤ len self → q ≤ blen out →
  ∃ out', read_bits self a q out = (Ok q, out') ∧ bits_read out q out'.
Proof.
  intros Hfit Hout. pose proof (div_ceil_8 q Hq) as Hc. unfold read_bits.
  destruct Hok as (_ & Hl & _). rewrite st_bind_lift, check_range_Ok by lia. clear Hl.
  unfold st_bind at 1, st_get. replace (blen out <? q) with false by lia.
  edestruct (for_range_inv (E := ExceptionCode.t) (λ byte_index,
    rest <- st_lift (usub q (byte_index * 8));;
    byte <- st_lift (read_byte_bits self (a + byte_index * 8) (Z.min rest 8));;
    for_range (λ bit, buf_set (byte_index * 8 + bit) (Z.land (Z.shiftr byte bit) 1 =? 1)) 0 (Z.to_nat (Z.min rest 8)))
    (λ k, bits_read out (Z.min (k * 8) q)) (Z.to_nat (div_ceil q 8)) 0 out) as (out' & Heq & Hr).
  - split_and!; [done|lia|done].
  - intros k o Hk Ho. rewrite st_bind_lift, usub_Ok by lia.
    destruct (read_run (E := ExceptionCode.t) k Hfit) as (b & Hb & Hp); [lia|]. rewrite st_bind_lift, Hb.
    replace ((k + 1) * 8) with (k * 8 + 8) by lia. replace (Z.min (k * 8) q) with (k * 8) in Ho by lia.
    apply read_bits_byte; done || lia.
  - rewrite (st_bind_Ok _ _ _ _ _ Heq). exists out'. split; [done|].
    by replace (Z.min ((0 + Z.of_nat (Z.to_nat (div_ceil q 8))) * 8) q) with q in Hr by lia.
Qed.
End Reads.

(** ** Writes *)

(** The run of [n] bits from [start] now holds [v]; nothing else changed. *)
Definition run_written (l l' : list Z) (start n : Z) (v : Z → bool) : Prop :=
  bytes_ok l' ∧ blen l' = blen l ∧
  ∀ i, 0 ≤ i < 8 * blen l →
    bit l' i = if (start <=? i) && (i <? start + n) then v (i - start) else bit l i.

Lemma run_written_nil l start v : bytes_ok l → run_written l l start 0 v.
Proof.
  intros. split_and!; [done..|]. intros i Hi. by replace ((start <=? i) && (i <? start + 0)) with false by lia.
Qed.
Lemma run_extend l l1 l2 start m n value v : 0 ≤ m → 0 ≤ n → run_written l l1 start m v →
  bits_written l1 l2 (start + m) n value → (∀ j, 0 ≤ j < n → Z.testbit value j = v (m + j)) →
  run_written l l2 start (m + n) v.
Proof.
  intros Hm Hn (H1 & Hl1 & Hb1) (H2 & Hl2 & Hb2) Hv. split_and!; [done|lia|]. intros i Hi.
  rewrite Hb2 by lia. destruct ((start + m <=? i) && (i <? start + m + n)) eqn:Hin.
  - replace ((start <=? i) && (i <? start + (m + n))) with true by lia. rewrite Hv by lia. f_equal. lia.
  - rewrite Hb1 by lia. by replace ((start <=? i) && (i <? start + (m + n)))
      with ((start <=? i) && (i <? start + m)) by lia.
Qed.

(** A loop that writes byte [k] of the run at [start + 8 k] writes the run. *)
Section WriteLoop.
Context (ln : Z) (l : list Z) (Hl : bytes_ok l) (a q : Z) (Ha : 0 ≤ a) (Hq : 0 ≤ q) (v : Z → bool).
Context (Hfit : a + q ≤ 8 * blen l).

Lemma write_loop {A} (f : Z → A → ST t ExceptionCode.t unit) (xs : list A) : blen xs = div_ceil q 8 →
  (∀ k x s, get xs k = Some x → 0 ≤ k → k * 8 < q → ∃ byte, f k x s = write_byte_bits (a + k * 8) byte (Z.min (q - k * 8) 8) s ∧
     ∀ j, 0 ≤ j < Z.min (q - k * 8) 8 → Z.testbit byte j = v (k * 8 + j)) →
  ∃ l', for_enumerate f 0 xs (mk ln l) = (Ok tt, mk ln l') ∧ run_written l l' a q v.
Proof.
  intros Hlen Hf. pose proof (div_ceil_8 q Hq) as Hc.
  destruct (for_enumerate_inv f (λ k s, ∃ l', s = mk ln l' ∧ run_written l l' a (Z.min (k * 8) q) v) xs 0 (mk ln l))
    as (s' & Heq & l' & -> & Hw).
  - exists l. split; [done|]. replace (Z.min (0 * 8) q) with 0 by lia. by apply run_written_nil.
  - intros k x s Hk (l1 & -> & Hw). pose proof (get_Some_lt xs k x Hk) as Hr. rewrite Z.add_0_l in *.
    destruct (Hf k x (mk ln l1) Hk) as (byte & -> & Hb); [lia..|].
    replace (Z.min (k * 8) q) with (k * 8) in Hw by lia. destruct Hw as (Hl1 & Hlen1 & Hb1).
    destruct (write_byte_bits_spec (E := ExceptionCode.t) ln l1 (a + k * 8) byte (Z.min (q - k * 8) 8))
      as (l2 & Hw2 & Hs2); [done|lia..|]. exists (mk ln l2). split; [done|]. exists l2. split; [done|].
    replace (Z.min ((k + 1) * 8) q) with (k * 8 + Z.min (q - k * 8) 8) by lia.
    eapply run_extend; [lia..|by split_and!| |]; done.
  - exists l'. split; [done|]. rewrite Hlen in Hw. by replace (Z.min ((0 + div_ceil q 8) * 8) q) with q in Hw by lia.
Qed.
End WriteLoop.

Lemma pack_byte_testbit chunk : ∀ i byte j, 0 ≤ i → i + blen chunk ≤ 8 → 0 ≤ j →
  Z.testbit (pack_byte i byte chunk) j = Z.testbit byte j || (i <=? j) && default false (get chunk (j - i)).
Proof.
  induction chunk as [|x chunk IH]; intros i byte j Hi Hfit Hj; cbn [pack_byte].
  { unfold get. case_match; rewrite ?lookup_nil; cbn; by rewrite andb_false_r, orb_false_r. }
  rewrite blen_cons in Hfit. pose proof (blen_nonneg chunk). rewrite IH by lia.
  rewrite Z.lor_spec, u8_shl_testbit by lia. rewrite <-orb_assoc. f_equal.
  destruct (Z.leb_spec i j); cbn [andb]; [|by replace (i + 1 <=? j) with false by lia].
  destruct (decide (j = i)) as [->|].
  - rewrite Z.sub_diag. replace (i <? 8) with true by lia. replace (i + 1 <=? i) with false by lia.
    cbn. by destruct x.
  - replace (i + 1 <=? j) with true by lia. change (x :: chunk) with ([x] ++ chunk).
    rewrite (get_app_r [x]) by (change (blen [x]) with 1; lia). change (blen [x]) with 1.
    replace (j - (i + 1)) with (j - i - 1) by lia.
    replace (Z.testbit (Z.b2z x) (j - i)) with false; [by rewrite andb_false_r|].
    symmetry. destruct x; [|apply Z.testbit_0_l]. apply Z.bits_above_log2; cbn; lia.
Qed.

Lemma chunks_go_spec {A} n fuel : 0 < n → ∀ l : list A, blen l ≤ Z.of_nat fuel →
  blen (chunks_go fuel (Z.to_nat n) l) = div_ceil (blen l) n ∧
  ∀ k c, get (chunks_go fuel (Z.to_nat n) l) k = Some c → c = take (Z.to_nat n) (drop (Z.to_nat (k * n)) l).
Proof.
  intros Hn. induction fuel as [|fuel IH]; intros [|x l] Hl; cbn [chunks_go].
  1,3: split; [rewrite (blen_nil (A:=list A)), (blen_nil (A:=A)); unfold div_ceil; symmetry; apply Z.div_small; lia|];
       intros k c Hk; unfold get in Hk; case_match; by rewrite ?lookup_nil in Hk.
  { rewrite blen_cons in Hl. pose proof (blen_nonneg l). lia. }
  set (l0 := x :: l) in *. pose proof (blen_cons x l) as Hlen. fold l0 in Hlen. pose proof (blen_nonneg l).
  assert (blen (drop (Z.to_nat n) l0) = Z.max 0 (blen l0 - n)) as Hd by (unfold blen; rewrite length_drop; lia).
  destruct (IH (drop (Z.to_nat n) l0)) as [Hl1 Hg1]; [lia|]. split.
  - rewrite blen_cons, Hl1, Hd. unfold div_ceil. replace (blen l0 + n - 1) with (blen l0 - 1 + 1 * n) by lia.
    rewrite (Z.div_add (blen l0 - 1)) by lia. rewrite Z.add_comm. f_equal. destruct (Z_le_gt_dec n (blen l0)).
    + f_equal. lia.
    + rewrite !Z.div_small by lia. done.
  - intros k c Hk. pose proof (get_Some_lt _ _ _ Hk) as Hr.
    destruct (decide (k = 0)) as [->|]; [by injection Hk as <-|].
    change (?y :: ?ys) with ([y] ++ ys) in Hk. rewrite get_app_r in Hk by (change (blen [_]) with 1; lia).
    apply Hg1 in Hk as ->. rewrite drop_drop. change (blen [_]) with 1. do 2 f_equal. nia.
Qed.
Lemma chunks_8 (l : list bool) : blen (chunks 8 l) = div_ceil (blen l) 8 ∧
  ∀ k c, get (chunks 8 l) k = Some c → k * 8 < blen l → 0 ≤ k →
    blen c = Z.min (blen l - k * 8) 8 ∧ ∀ j, 0 ≤ j < 8 → get c j = get l (k * 8 + j).
Proof.
  destruct (chunks_go_spec 8 (length l) ltac:(lia) l) as [Hlen Hg]; [done|]. split; [done|].
  intros k c Hk Hlt Hk0. apply Hg in Hk as ->. split; [unfold blen in *; rewrite length_take, length_drop; lia|].
  intros j Hj. unfold get. replace (0 <=? j) with true by lia. replace (0 <=? k * 8 + j) with true by lia.
  rewrite lookup_take_lt, lookup_drop by lia. f_equal. lia.
Qed.

Section Writes.
Context (self : t) (Hok : table_ok self) (a : Z) (Ha : 0 ≤ a).

Lemma write_bits_spec values : a + blen values ≤ len self →
  ∃ l', write_bits a values self = (Ok tt, mk (len self) l') ∧
    run_written (bytes self) l' a (blen values) (λ m, default false (get values m)).
Proof.
  intros Hfit. pose proof (blen_nonneg values). pose proof (table_room self Hok a _ Hfit) as Hroom.
  destruct self as [ln l], Hok as (Hb & Hl & Hlen). cbn [len bytes] in *.
  unfold write_bits. unfold st_bind at 1, st_get. rewrite st_bind_lift. cbn [len]. rewrite check_range_Ok by lia.
  destruct (chunks_8 values) as [Hc Hg]. apply write_loop; try done.
  intros k c s Hk Hk0 Hlt. destruct (Hg k c Hk Hlt Hk0) as [Hbc Hgc]. exists (pack_byte 0 0 c). rewrite Hbc.
  split; [done|]. intros j Hj. rewrite pack_byte_testbit by lia.
  rewrite Z.testbit_0_l, Z.sub_0_r, Hgc by lia. by replace (0 <=? j) with true by lia.
Qed.
Lemma write_packed_spec q packed : 0 ≤ q → a + q ≤ len self → blen packed = div_ceil q 8 →
  ∃ l', write_packed a q packed self = (Ok tt, mk (len self) l') ∧
    run_written (bytes self) l' a q (bit packed).
Proof.
  intros Hq Hfit Hpl. pose proof (table_room self Hok a _ Hfit) as Hroom.
  destruct self as [ln l], Hok as (Hb & Hl & Hlen). cbn [len bytes] in *.
  unfold write_packed. unfold st_bind at 1, st_get. rewrite st_bind_lift. cbn [len]. rewrite check_range_Ok by lia.
  apply write_loop; try done. intros k b s Hk Hk0 Hlt. exists b. rewrite st_bind_lift, usub_Ok by lia.
  split; [done|]. intros j Hj. symmetry. apply bit_get; [done|lia].
Qed.
Lemma set_spec {E} value : a < len self →
  ∃ l', set (E:=E) a value self = (Ok tt, mk (len self) l') ∧ run_written (bytes self) l' a 1 (λ _, value).
Proof.
  intros Hfit. pose proof (table_room self Hok a 1 ltac:(lia)) as Hroom.
  destruct self as [ln l], Hok as (Hb & _ & _). cbn [len bytes] in *. destruct (bit_split a Ha) as (Hsplit & Hsh & Hdiv).
  destruct (get_lt_is_Some l (a / 8)) as [b Hget]; [lia|]. pose proof (get_byte_ok l _ b Hb Hget) as Hu.
  unfold set. rewrite (update_Ok _ _ _ b) by done. cbn [len bytes]. eexists. split; [reflexivity|].
  set (x := if value then _ else _).
  assert (∀ j, 0 ≤ j → Z.testbit (Z.shiftl 1 (a mod 8)) j = (j =? a mod 8)) as Hm.
  { intros j Hj. rewrite Z.shiftl_1_l, Z.pow2_bits_eqb by lia. lia. }
  assert (∀ j, 0 ≤ j < 8 → Z.testbit x j = if j =? a mod 8 then value else Z.testbit b j) as Hx.
  { intros j Hj. unfold x. destruct value; [rewrite Z.lor_spec|rewrite Z.land_spec, u8_not_testbit by lia];
      rewrite Hm by lia; destruct (j =? a mod 8); by rewrite ?orb_true_r, ?orb_false_r, ?andb_false_r, ?andb_true_r. }
  assert (is_u8 x) as Hux.
  { apply u8_testbit.
    - unfold x. destruct value; [apply Z.lor_nonneg; split; [lia|]|apply Z.land_nonneg; lia].
      apply Z.shiftl_nonneg. lia.
    - intros i Hi. unfold x. destruct value; [rewrite Z.lor_spec, Hm by lia|rewrite Z.land_spec];
        rewrite (testbit_u8 b) by done; [|done]. by replace (i =? a mod 8) with false by lia. }
  split_and!; [by apply bytes_ok_insert|apply blen_insert|]. intros i Hi.
  rewrite (bit_insert l _ b) by done. destruct (bit_split i) as (Hi1 & Hi2 & Hi3); [lia|].
  destruct (Z.eqb_spec (i / 8) (a / 8)) as [He|Hne].
  - rewrite Hx by lia. replace ((a <=? i) && (i <? a + 1)) with (i mod 8 =? a mod 8) by lia.
    case_match; [done|]. symmetry. apply bit_at; [lia|by rewrite He].
  - by replace ((a <=? i) && (i <? a + 1)) with false by lia.
Qed.
Lemma run_written_ok l' n v : run_written (bytes self) l' a n v → table_ok (mk (len self) l').
Proof. intros (Hb & Hl & _). destruct Hok as (_ & ? & ?). split_and!; cbn; [done|lia..]. Qed.
End Writes.

Lemma bit_zeros n i : bit (replicate n 0) i = false.
Proof.
  unfold bit. rewrite nth_lookup. destruct (replicate _ _ !! _) eqn:He; cbn; [|apply Z.testbit_0_l].
  apply lookup_replicate in He as [-> _]. apply Z.testbit_0_l.
Qed.
Lemma new_ok n : 0 ≤ n ≤ usize_max → table_ok (new n) ∧ ∀ i, bit (bytes (new n)) i = false.
Proof.
  intros Hn. pose proof (div_ceil_8 n (proj1 Hn)). split.
  - split_and!; cbn [new len bytes]; [by apply Forall_replicate|lia..|]. unfold blen. rewrite length_replicate. lia.
  - intros i. apply bit_zeros.
Qed.

(** * The contract of a bit table *)

(** Reading a run of bits, for every table, address, quantity and buffer: a
    run that leaves the table is refused with [IllegalDataAddress], a buffer that
    is too short with [IllegalDataValue], both without touching the buffer;
    otherwise the quantity is returned, the unpacked read stores exactly the bits
    of the run and the packed read stores them least significant bit first with
    zero padding, and the rest of the buffer is unchanged. No access is out of
    bounds. A new table is well formed and reads as all zeros. *)
Theorem bit_reads_exact (self : t) (a q : Z) (out : list bool) (outp : list Z) :
  table_ok self → is_u16 a → is_u16 q →
  (len self < a + q →
     read_bits self a q out = (Err ExceptionCode.IllegalDataAddress, out) ∧
     read_packed self a q outp = (Err ExceptionCode.IllegalDataAddress, outp)) ∧
  (a + q ≤ len self →
     (if blen out <? q then read_bits self a q out = (Err ExceptionCode.IllegalDataValue, out)
      else ∃ out', read_bits self a q out = (Ok q, out') ∧ bits_read self a out q out') ∧
     (if blen outp <? div_ceil q 8 then read_packed self a q outp = (Err ExceptionCode.IllegalDataValue, outp)
      else ∃ out', read_packed self a q outp = (Ok q, out') ∧ blen out' = blen outp ∧
        (∀ k, 0 ≤ k < div_ceil q 8 → ∃ b, get out' k = Some b ∧ packed_byte self a q k b) ∧
        (∀ k, div_ceil q 8 ≤ k → get out' k = get outp k))) ∧
  (∀ n, 0 ≤ n ≤ usize_max → table_ok (new n) ∧ ∀ i, bit (bytes (new n)) i = false).
Proof.
  intros Hok Ha Hq. split_and!; [| |apply new_ok].
  - intros Hlt. unfold read_bits, read_packed. by rewrite !st_bind_lift, !check_range_Err by lia.
  - intros Hfit. pose proof Hok as (_ & Hl & _). split.
    + destruct (Z.ltb_spec (blen out) q) as [Hs|]; [|apply read_bits_spec; done || lia].
      unfold read_bits. rewrite st_bind_lift, check_range_Ok by lia.
      unfold st_bind, st_get. by replace (blen out <? q) with true by lia.
    + destruct (Z.ltb_spec (blen outp) (div_ceil q 8)) as [Hs|]; [|apply read_packed_spec; done || lia].
      unfold read_packed. rewrite st_bind_lift, check_range_Ok by lia.
      unfold st_bind, st_get. by replace (blen outp <? div_ceil q 8) with true by lia.
Qed.
(** Ten coils, 0b10_1100_1101: three of them read from coil 7. *)
Lemma bit_reads_exact_witness :
  (∃ out', read_bits (mk 10 [205; 2]) 7 3 [true; true; true; true] = (Ok 3, out') ∧
     bits_read (mk 10 [205; 2]) 7 [true; true; true; true] 3 out') ∧
  read_packed (mk 10 [205; 2]) 7 3 [255; 9] = (Ok 3, [5; 9]).
Proof.
  split; [|reflexivity].
  assert (table_ok (mk 10 [205; 2])) as Hok
    by (split; [by repeat (apply List.Forall_cons; [unfold byte_ok; lia|])|split; [unfold usize_max; cbn; lia|reflexivity]]).
  destruct (bit_reads_exact (mk 10 [205; 2]) 7 3 [true; true; true; true] [255; 9] Hok) as (_ & H & _);
    [lia..|]. destruct H as [H _]; [cbn; lia|]. exact H.
Defined.

(** Writing, for every well-formed table: a run that leaves the table is
    refused with [IllegalDataAddress] and leaves the table as it was; otherwise
    [write_bits] and [write_packed] (given one byte for every eight bits, whatever
    its padding) succeed, and so does [set] inside the table. Afterwards exactly
    the bits of the run hold the given values, every other bit of the table is
    unchanged, the length is the same and the table is still well formed. *)
Theorem bit_writes_exact (self : t) (a q : Z) (values : list bool) (packed : list Z) :
  table_ok self → is_u16 a → 0 ≤ q → blen packed = div_ceil q 8 →
  (if len self <? a + blen values
   then write_bits a values self = (Err ExceptionCode.IllegalDataAddress, self)
   else ∃ self', write_bits a values self = (Ok tt, self') ∧ table_ok self' ∧ len self' = len self ∧
     run_written (bytes self) (bytes self') a (blen values) (λ m, default false (get values m))) ∧
  (if len self <? a + q
   then write_packed a q packed self = (Err ExceptionCode.IllegalDataAddress, self)
   else ∃ self', write_packed a q packed self = (Ok tt, self') ∧ table_ok self' ∧ len self' = len self ∧
     run_written (bytes self) (bytes self') a q (bit packed)) ∧
  (∀ value, a < len self →
     ∃ self', set (E:=ExceptionCode.t) a value self = (Ok tt, self') ∧ table_ok self' ∧ len self' = len self ∧
       run_written (bytes self) (bytes self') a 1 (λ _, value)).
Proof.
  intros Hok Ha Hq Hp.
  assert (∀ (r : res ExceptionCode.t unit * t) n v, (∃ l', r = (Ok tt, mk (len self) l') ∧ run_written (bytes self) l' a n v) →
    ∃ self', r = (Ok tt, self') ∧ table_ok self' ∧ len self' = len self ∧ run_written (bytes self) (bytes self') a n v) as Hlift.
  { intros r n v (l' & -> & Hw). eexists. split; [done|]. split; [by eapply run_written_ok|done]. }
  split_and!.
  - destruct (Z.ltb_spec (len self) (a + blen values)); [|apply Hlift, write_bits_spec; done || lia].
    unfold write_bits. unfold st_bind at 1, st_get. by rewrite st_bind_lift, check_range_Err by lia.
  - destruct (Z.ltb_spec (len self) (a + q)); [|apply Hlift, write_packed_spec; done || lia].
    unfold write_packed. unfold st_bind at 1, st_get. by rewrite st_bind_lift, check_range_Err by lia.
  - intros value Hlt. apply Hlift, set_spec; done || lia.
Qed.
(** Ten coils: five bits written from coil 5 on cross a byte boundary. *)
Lemma bit_writes_exact_witness :
  ∃ self', write_packed 5 5 [21] (mk 10 [0; 0]) = (Ok tt, self') ∧ table_ok self' ∧ len self' = 10 ∧
    run_written [0; 0] (bytes self') 5 5 (bit [21]).
Proof.
  assert (table_ok (mk 10 [0; 0])) as Hok
    by (split; [by repeat (apply List.Forall_cons; [unfold byte_ok; lia|])|split; [unfold usize_max; cbn; lia|reflexivity]]).
  destruct (bit_writes_exact (mk 10 [0; 0]) 5 5 [] [21] Hok) as (_ & H & _); [lia|lia|reflexivity|]. exact H.
Defined.
