(* ===== verification/Store.v ===== *)
(** * The data store interface (crates/rusty-modbus-server: src/store/mod.rs, src/file_record.rs)

    The [DataStore] trait as a class of operations on the state of a store, the
    default methods of the trait, and the packing and validation helpers they and
    the in-memory store share.

    A trait method is an asynchronous function on a shared reference; it runs here
    as one atomic action on the state of the store. A method that fills a buffer of
    its caller acts on the pair of the store and the buffer. *)
From S2P Require Import Prelude Types CodecError Bits.

Abbreviation Exc := ExceptionCode.t.

(** ** Actions on the store and on a buffer beside it *)
Definition on_store {S B E A} (m : ST S E A) : ST (S * B) E A :=
  λ sb, let '(r, s) := m sb.1 in (r, (s, sb.2)).
Definition on_buf {S B E A} (m : ST B E A) : ST (S * B) E A :=
  λ sb, let '(r, b) := m sb.2 in (r, (sb.1, b)).
(** A call with a local buffer: [let mut b = ..; m(&mut b)] *)
Definition with_scratch {S B E A} (b : B) (m : ST (S * B) E A) : ST S E (A * B) :=
  λ s, let '(r, (s', b')) := m (s, b) in (rmap (λ a, (a, b')) r, s').
(** [vec.extend_from_slice(l)] *)
Definition vec_extend {E A} (l : list A) : ST (list A) E unit := st_modify (λ v, v ++ l).

Module FileRecord.
Definition MIN_FILE_NUMBER : Z := 1.
Definition MAX_RECORD_NUMBER : Z := 0x270F.
Definition RECORD_COUNT : Z := 0x2710.

Definition validate_range (file_number record_number record_length : Z) : res Exc unit :=
  let? end_ := ok_or (checked_add record_number record_length) ExceptionCode.IllegalDataAddress in
  if (file_number <? MIN_FILE_NUMBER) || (record_length =? 0)
     || (MAX_RECORD_NUMBER <? record_number) || (RECORD_COUNT <? end_)
  then Err ExceptionCode.IllegalDataAddress else Ok tt.
End FileRecord.

Definition MAX_FILE_RECORD_REGISTERS : Z := 122.
Definition MAX_COMM_EVENT_LOG_EVENTS : Z := 64.
Definition MAX_DIAGNOSTIC_RESPONSE_DATA_LEN : Z := MAX_PDU_SIZE - 3.
Definition MAX_SERVER_ID_BYTES : Z := MAX_PDU_SIZE - 2.

Module CommEventLogMeta.
Record t : Type := mk { status : Z; event_count : Z; message_count : Z }.
End CommEventLogMeta.
Module CommEventLog.
Record t : Type := mk { status : Z; event_count : Z; message_count : Z; events : bytes }.
End CommEventLog.

(** ** Packing helpers *)
Definition validate_packed_coils (quantity : Z) (packed_values : bytes) : res Exc Z :=
  if (quantity =? 0) || (MAX_WRITE_COILS <? quantity) then Err ExceptionCode.IllegalDataValue else
  let expected := div_ceil quantity 8 in
  if negb (blen packed_values =? expected) then Err ExceptionCode.IllegalDataValue else
  Ok quantity.

Definition validate_register_values_be (quantity : Z) (value_bytes : bytes) : res Exc Z :=
  if (quantity =? 0) || (MAX_WRITE_REGISTERS <? quantity)
  then Err ExceptionCode.IllegalDataValue else
  let expected := quantity * 2 in
  if negb (blen value_bytes =? expected) then Err ExceptionCode.IllegalDataValue else
  Ok quantity.

Definition unpack_packed_coils (quantity : Z) (packed_values : bytes) : ST (list bool) Exc Z :=
  quantity <- st_lift (validate_packed_coils quantity packed_values);;
  out <- st_get;;
  if blen out <? quantity then st_err ExceptionCode.IllegalDataValue else
  for_enumerate (λ byte_index byte,
    let start := byte_index * 8 in
    rest <- st_lift (usub quantity start);;
    let bit_count := Z.min rest 8 in
    for_range (λ bit, buf_set (start + bit) (Z.land (Z.shiftr byte bit) 1 =? 1))
      0 (Z.to_nat bit_count)) 0 packed_values;;;
  st_ret quantity.

(** [for (slot, chunk) in slots.iter_mut().zip(chunks)
     { *slot = u16::from_be_bytes(\[chunk\[0\], chunk\[1\]\]); }] *)
Fixpoint assign_be {E} (slots : list Z) (chunks : list bytes) : res E (list Z) :=
  match slots, chunks with
  | slot :: slots, chunk :: chunks =>
      let? value := be16_at chunk 0 1 in
      let? rest := assign_be slots chunks in
      Ok (value :: rest)
  | _, _ => Ok slots
  end.
(** The same on [slots\[i..j\]] of the state *)
Definition assign_be_slice {E} (i j : Z) (chunks : list bytes) : ST (list Z) E unit :=
  slots <- st_get;;
  part <- st_lift (slice slots i j);;
  values <- st_lift (assign_be part chunks);;
  buf_copy i j values.

Definition unpack_register_values_be (quantity : Z) (value_bytes : bytes) : ST (list Z) Exc Z :=
  quantity <- st_lift (validate_register_values_be quantity value_bytes);;
  out <- st_get;;
  if blen out <? quantity then st_err ExceptionCode.IllegalDataValue else
  assign_be_slice 0 (blen out) (take (Z.to_nat quantity) (chunks_exact 2 value_bytes));;;
  st_ret quantity.

Definition pack_coils (bits : list bool) : ST bytes Exc unit :=
  let byte_count := div_ceil (blen bits) 8 in
  out <- st_get;;
  if blen out <? byte_count then st_err ExceptionCode.IllegalDataValue else
  for_range (λ byte_index,
    let start := byte_index * 8 in
    let end_ := Z.min (start + 8) (blen bits) in
    chunk <- st_lift (slice bits start end_);;
    buf_set byte_index (BitTable.pack_byte 0 0 chunk)) 0 (Z.to_nat byte_count).

Definition pack_registers_be (registers : list Z) : ST bytes Exc unit :=
  let byte_count := blen registers * 2 in
  out <- st_get;;
  if blen out <? byte_count then st_err ExceptionCode.IllegalDataValue else
  for_enumerate (λ i value, buf_copy (i * 2) (i * 2 + 2) (to_be_bytes value)) 0 registers.

(** [value_bytes.chunks_exact(2).map(|chunk| u16::from_be_bytes(..)).collect()] *)
Fixpoint be_values {E} (chunks : list bytes) : res E (list Z) :=
  match chunks with
  | [] => Ok []
  | chunk :: chunks =>
      let? value := be16_at chunk 0 1 in
      let? values := be_values chunks in
      Ok (value :: values)
  end.

(** ** The trait *)
Class DataStore (S : Type) : Type := {
  read_coils : Z → Z → ST (S * list bool) Exc Z;
  read_coils_packed : Z → Z → ST (S * bytes) Exc Z;
  write_coil : Z → bool → ST S Exc unit;
  write_coils : Z → list bool → ST S Exc unit;
  write_coils_packed : Z → Z → bytes → ST S Exc unit;
  read_discrete_inputs : Z → Z → ST (S * list bool) Exc Z;
  read_discrete_inputs_packed : Z → Z → ST (S * bytes) Exc Z;
  read_holding_registers : Z → Z → ST (S * list Z) Exc Z;
  read_holding_registers_be : Z → Z → ST (S * bytes) Exc Z;
  write_register : Z → Z → ST S Exc unit;
  write_registers : Z → list Z → ST S Exc unit;
  write_registers_be : Z → Z → bytes → ST S Exc unit;
  atomic_mask_write_register : Z → Z → Z → ST S Exc unit;
  atomic_read_write_registers_be : Z → Z → Z → Z → bytes → ST (S * bytes) Exc Z;
  read_input_registers : Z → Z → ST (S * list Z) Exc Z;
  read_input_registers_be : Z → Z → ST (S * bytes) Exc Z;
  handle_custom_function : Z → Z → bytes → ST (S * bytes) Exc Z;
  read_file_record : Z → Z → Z → ST (S * list Z) Exc Z;
  read_file_record_be : Z → Z → Z → ST (S * bytes) Exc Z;
  write_file_record : Z → Z → list Z → ST S Exc unit;
  write_file_record_be : Z → Z → Z → bytes → ST S Exc unit;
  read_fifo_queue : Z → ST S Exc (list Z);
  read_fifo_queue_be : Z → ST (S * bytes) Exc Z;
  read_exception_status : ST S Exc Z;
  get_comm_event_counter : ST S Exc (Z * Z);
  get_comm_event_log : ST S Exc CommEventLog.t;
  append_comm_event_log : ST (S * bytes) Exc CommEventLogMeta.t;
  report_server_id : ST S Exc bytes;
  append_server_id : ST (S * bytes) Exc Z;
  diagnostic : DiagnosticSubFunction.t → bytes → ST S Exc (option bytes);
  append_diagnostic_response : DiagnosticSubFunction.t → bytes → ST (S * bytes) Exc (option Z);
}.

(** ** The default methods

    A default method that calls another method of the trait takes it as an
    argument. *)
Module Default.
Section Defaults.
Context {S : Type}.

Definition read_coils_packed (read_coils : Z → Z → ST (S * list bool) Exc Z)
    (address quantity : Z) : ST (S * bytes) Exc Z :=
  r <- on_store (with_scratch (replicate (Z.to_nat MAX_READ_COILS) false)
                   (read_coils address quantity));;
  let '(count, values) := r in
  if (blen values <? count) || (quantity <? count) then st_err ExceptionCode.ServerDeviceFailure else
  bits <- st_lift (slice_to values count);;
  on_buf (pack_coils bits);;;
  st_ret count.

Definition write_coils_packed (write_coils : Z → list bool → ST S Exc unit)
    (address quantity : Z) (packed_values : bytes) : ST S Exc unit :=
  match unpack_packed_coils quantity packed_values (replicate (Z.to_nat MAX_WRITE_COILS) false) with
  | (Ok quantity, values) =>
      values <- st_lift (slice_to values quantity);;
      write_coils address values
  | (Err e, _) => st_err e
  | (Panic, _) => st_panic
  | (OutOfFuel, _) => st_lift OutOfFuel
  end.

Definition read_discrete_inputs_packed (read_discrete_inputs : Z → Z → ST (S * list bool) Exc Z)
    (address quantity : Z) : ST (S * bytes) Exc Z :=
  r <- on_store (with_scratch (replicate (Z.to_nat MAX_READ_DISCRETE_INPUTS) false)
                   (read_discrete_inputs address quantity));;
  let '(count, values) := r in
  if (blen values <? count) || (quantity <? count) then st_err ExceptionCode.ServerDeviceFailure else
  bits <- st_lift (slice_to values count);;
  on_buf (pack_coils bits);;;
  st_ret count.

Definition read_holding_registers_be (read_holding_registers : Z → Z → ST (S * list Z) Exc Z)
    (address quantity : Z) : ST (S * bytes) Exc Z :=
  r <- on_store (with_scratch (replicate (Z.to_nat MAX_READ_REGISTERS) 0)
                   (read_holding_registers address quantity));;
  let '(count, values) := r in
  if (blen values <? count) || (quantity <? count) then st_err ExceptionCode.ServerDeviceFailure else
  values <- st_lift (slice_to values count);;
  on_buf (pack_registers_be values);;;
  st_ret count.

Definition write_registers_be (write_registers : Z → list Z → ST S Exc unit)
    (address quantity : Z) (value_bytes : bytes) : ST S Exc unit :=
  match unpack_register_values_be quantity value_bytes (replicate (Z.to_nat MAX_WRITE_REGISTERS) 0) with
  | (Ok quantity, values) =>
      values <- st_lift (slice_to values quantity);;
      write_registers address values
  | (Err e, _) => st_err e
  | (Panic, _) => st_panic
  | (OutOfFuel, _) => st_lift OutOfFuel
  end.

Definition atomic_mask_write_register (address and_mask or_mask : Z) : ST S Exc unit :=
  st_err ExceptionCode.IllegalFunction.

Definition atomic_read_write_registers_be
    (read_address read_quantity write_address write_quantity : Z) (write_values : bytes)
    : ST (S * bytes) Exc Z :=
  st_err ExceptionCode.IllegalFunction.

Definition read_input_registers_be (read_input_registers : Z → Z → ST (S * list Z) Exc Z)
    (address quantity : Z) : ST (S * bytes) Exc Z :=
  r <- on_store (with_scratch (replicate (Z.to_nat MAX_READ_REGISTERS) 0)
                   (read_input_registers address quantity));;
  let '(count, values) := r in
  if (blen values <? count) || (quantity <? count) then st_err ExceptionCode.ServerDeviceFailure else
  values <- st_lift (slice_to values count);;
  on_buf (pack_registers_be values);;;
  st_ret count.

Definition handle_custom_function (unit_id function_code : Z) (request_data : bytes)
    : ST (S * bytes) Exc Z :=
  st_err ExceptionCode.IllegalFunction.

Definition read_file_record (file_number record_number record_length : Z) : ST (S * list Z) Exc Z :=
  st_err ExceptionCode.IllegalFunction.

Definition read_file_record_be (read_file_record : Z → Z → Z → ST (S * list Z) Exc Z)
    (file_number record_number record_length : Z) : ST (S * bytes) Exc Z :=
  r <- on_store (with_scratch (replicate (Z.to_nat MAX_FILE_RECORD_REGISTERS) 0)
                   (read_file_record file_number record_number record_length));;
  let '(count, values) := r in
  if (blen values <? count) || (record_length <? count)
  then st_err ExceptionCode.ServerDeviceFailure else
  values <- st_lift (slice_to values count);;
  on_buf (pack_registers_be values);;;
  st_ret count.

Definition write_file_record (file_number record_number : Z) (values : list Z) : ST S Exc unit :=
  st_err ExceptionCode.IllegalFunction.

Definition write_file_record_be (write_file_record : Z → Z → list Z → ST S Exc unit)
    (file_number record_number record_length : Z) (value_bytes : bytes) : ST S Exc unit :=
  let expected := record_length * 2 in
  if negb (blen value_bytes =? expected) then st_err ExceptionCode.IllegalDataValue else
  values <- st_lift (be_values (chunks_exact 2 value_bytes));;
  write_file_record file_number record_number values.

Definition read_fifo_queue (address : Z) : ST S Exc (list Z) :=
  st_err ExceptionCode.IllegalDataAddress.

Definition read_fifo_queue_be (read_fifo_queue : Z → ST S Exc (list Z)) (address : Z)
    : ST (S * bytes) Exc Z :=
  values <- on_store (read_fifo_queue address);;
  if MAX_FIFO_VALUES <? blen values then st_err ExceptionCode.IllegalDataValue else
  on_buf (pack_registers_be values);;;
  st_ret (blen values).

Definition read_exception_status : ST S Exc Z := st_err ExceptionCode.IllegalFunction.

Definition get_comm_event_counter : ST S Exc (Z * Z) := st_err ExceptionCode.IllegalFunction.

Definition get_comm_event_log : ST S Exc CommEventLog.t := st_err ExceptionCode.IllegalFunction.

Definition append_comm_event_log (get_comm_event_log : ST S Exc CommEventLog.t)
    : ST (S * bytes) Exc CommEventLogMeta.t :=
  log <- on_store get_comm_event_log;;
  if MAX_COMM_EVENT_LOG_EVENTS <? blen (CommEventLog.events log)
  then st_err ExceptionCode.ServerDeviceFailure else
  on_buf (vec_extend (CommEventLog.events log));;;
  st_ret (CommEventLogMeta.mk (CommEventLog.status log) (CommEventLog.event_count log)
            (CommEventLog.message_count log)).

Definition report_server_id : ST S Exc bytes := st_err ExceptionCode.IllegalFunction.

Definition append_server_id (report_server_id : ST S Exc bytes) : ST (S * bytes) Exc Z :=
  data <- on_store report_server_id;;
  if MAX_SERVER_ID_BYTES <? blen data then st_err ExceptionCode.ServerDeviceFailure else
  on_buf (vec_extend data);;;
  st_ret (blen data).

Definition diagnostic (sub_function : DiagnosticSubFunction.t) (data : bytes) : ST S Exc (option bytes) :=
  match sub_function with
  | DiagnosticSubFunction.ReturnQueryData => st_ret (Some data)
  | _ => st_err ExceptionCode.IllegalFunction
  end.

Definition append_diagnostic_response (diagnostic : DiagnosticSubFunction.t → bytes → ST S Exc (option bytes))
    (sub_function : DiagnosticSubFunction.t) (data : bytes) : ST (S * bytes) Exc (option Z) :=
  r <- on_store (diagnostic sub_function data);;
  match r with
  | None => st_ret None
  | Some data =>
      if MAX_DIAGNOSTIC_RESPONSE_DATA_LEN <? blen data then st_err ExceptionCode.ServerDeviceFailure else
      on_buf (vec_extend data);;;
      st_ret (Some (blen data))
  end.
End Defaults.
End Default.

(** * Lemmas *)

Lemma st_bind_get {S E B} (k : S → ST S E B) s : st_bind st_get k s = k s s.
Proof. done. Qed.

(** ** Lists by position *)
Section ByPosition.
Context {A : Type}.
Implicit Types (l k v : list A).

Lemma list_eq_get l k : blen l = blen k → (∀ i, 0 ≤ i < blen l → get l i = get k i) → l = k.
Proof.
  intros Hl Hg. unfold blen in Hl. apply list_eq. intros i. destruct (decide (i < length l)%nat) as [Hi|Hi].
  - specialize (Hg (Z.of_nat i)). unfold get, blen in Hg. replace (0 <=? Z.of_nat i) with true in Hg by lia.
    rewrite !Nat2Z.id in Hg. apply Hg. lia.
  - rewrite !lookup_ge_None_2 by lia. done.
Qed.
Lemma get_ge l i : blen l ≤ i → get l i = None.
Proof.
  intros Hi. pose proof (blen_nonneg l). unfold get, blen in *. replace (0 <=? i) with true by lia.
  apply lookup_ge_None. lia.
Qed.
Lemma get_overlay (img : list A) l i : get (overlay img l) i = if i <? blen img then get img i else get l i.
Proof.
  unfold overlay. destruct (Z.ltb_spec i (blen img)) as [Hi|Hi]; [by apply get_app_l|].
  pose proof (blen_nonneg img). rewrite get_app_r by done. unfold get. replace (0 <=? i) with true by lia.
  replace (0 <=? i - blen img) with true by lia. rewrite lookup_drop. unfold blen in *. f_equal. lia.
Qed.

(** [l] with [v] in the place of the elements from [a] on *)
Definition splice (a : Z) v l : list A := take (Z.to_nat a) l ++ v ++ drop (Z.to_nat (a + blen v)) l.
(** The [n] elements from [a] on *)
Definition sublist (a n : Z) l : list A := take (Z.to_nat n) (drop (Z.to_nat a) l).

Lemma blen_splice a v l : 0 ≤ a → a + blen v ≤ blen l → blen (splice a v l) = blen l.
Proof.
  intros Ha Hv. pose proof (blen_nonneg v). unfold splice. rewrite !blen_app, blen_take, blen_drop by lia. lia.
Qed.
Lemma get_splice a v l i : 0 ≤ a → a + blen v ≤ blen l → 0 ≤ i →
  get (splice a v l) i = if (a <=? i) && (i <? a + blen v) then get v (i - a) else get l i.
Proof.
  intros Ha Hv Hi. pose proof (blen_nonneg v). unfold splice.
  assert (blen (take (Z.to_nat a) l) = a) as Ht by (rewrite blen_take by lia; lia).
  destruct (Z.leb_spec a i) as [Hai|Hai]; cbn [andb].
  - rewrite get_app_r, Ht by lia. destruct (Z.ltb_spec i (a + blen v)).
    + by rewrite get_app_l by lia.
    + rewrite get_app_r, get_drop by lia. f_equal. lia.
  - rewrite get_app_l, get_take by lia. done.
Qed.
Lemma blen_sublist a n l : 0 ≤ a → 0 ≤ n → a + n ≤ blen l → blen (sublist a n l) = n.
Proof. intros. unfold sublist. rewrite blen_take, blen_drop by lia. lia. Qed.
Lemma get_sublist a n l i : 0 ≤ a → 0 ≤ i < n → get (sublist a n l) i = get l (a + i).
Proof. intros. unfold sublist. by rewrite get_take, get_drop by lia. Qed.
Lemma splice_get a v l l' : 0 ≤ a → a + blen v ≤ blen l → blen l' = blen l →
  (∀ i, 0 ≤ i < blen l → get l' i = if (a <=? i) && (i <? a + blen v) then get v (i - a) else get l i) →
  l' = splice a v l.
Proof.
  intros Ha Hv Hl Hg. apply list_eq_get; [by rewrite blen_splice|]. intros i Hi.
  rewrite Hg, get_splice by lia. done.
Qed.
Lemma overlay_get (img : list A) l l' : blen img ≤ blen l → blen l' = blen l →
  (∀ i, 0 ≤ i < blen l → get l' i = if i <? blen img then get img i else get l i) → l' = overlay img l.
Proof.
  intros Hi Hl Hg. apply list_eq_get; [by rewrite blen_overlay|]. intros i Hr. by rewrite Hg, get_overlay by lia.
Qed.
Lemma slice_sublist {E} a n l : 0 ≤ a → 0 ≤ n → a + n ≤ blen l →
  slice (E:=E) l a (a + n) = Ok (sublist a n l).
Proof. intros. rewrite slice_Ok by lia. unfold sublist. by replace (a + n - a) with n by lia. Qed.
Lemma buf_copy_splice {E} a v l : 0 ≤ a → a + blen v ≤ blen l →
  buf_copy (E:=E) a (a + blen v) v l = (Ok tt, splice a v l).
Proof.
  intros. pose proof (blen_nonneg v). unfold buf_copy.
  by replace (_ && _) with true by lia.
Qed.
Lemma splice_front v l : blen v ≤ blen l → splice 0 v l = overlay v l.
Proof.
  intros. unfold splice, overlay. change (take (Z.to_nat 0) l) with (@nil A). rewrite app_nil_l.
  do 2 f_equal. unfold blen. lia.
Qed.
Lemma buf_set_splice {E} a x l : 0 ≤ a < blen l → buf_set (E:=E) a x l = (Ok tt, splice a [x] l).
Proof.
  intros Ha. destruct (buf_set_spec (E:=E) l a x Ha) as (l' & -> & Hlen & Hsame & Hother). f_equal.
  apply splice_get; change (blen [x]) with 1; try lia. intros i Hi.
  destruct (decide (i = a)) as [->|].
  - replace ((a <=? a) && (a <? a + 1)) with true by lia. by rewrite Hsame, Z.sub_diag.
  - replace ((a <=? i) && (i <? a + 1)) with false by lia. by apply Hother.
Qed.
Lemma sublist_Forall (P : A → Prop) a n l : Forall P l → Forall P (sublist a n l).
Proof. intros. by apply Forall_take, Forall_drop. Qed.
Lemma splice_Forall (P : A → Prop) a v l : Forall P l → Forall P v → Forall P (splice a v l).
Proof. intros. apply Forall_app; split; [by apply Forall_take|]. apply Forall_app; split; [done|by apply Forall_drop]. Qed.
Lemma overlay_Forall (P : A → Prop) v l : Forall P l → Forall P v → Forall P (overlay v l).
Proof. intros. apply Forall_app; split; [done|by apply Forall_drop]. Qed.
Lemma sublist_splice a v l : 0 ≤ a → a + blen v ≤ blen l → sublist a (blen v) (splice a v l) = v.
Proof.
  intros Ha Hv. pose proof (blen_nonneg v). apply list_eq_get; [by rewrite blen_sublist by (rewrite ?blen_splice; lia)|].
  rewrite blen_sublist by (rewrite ?blen_splice; lia). intros i Hi. rewrite get_sublist, get_splice by lia.
  replace ((a <=? a + i) && (a + i <? a + blen v)) with true by lia. f_equal. lia.
Qed.
End ByPosition.
#[export] Hint Resolve sublist_Forall splice_Forall overlay_Forall : modbus.

(** ** Words *)

(** The big-endian image of registers, and the registers of an image *)
Definition words_be (ws : list Z) : bytes := concat (to_be_bytes <$> ws).
Definition be_words (bs : bytes) : list Z :=
  (λ c, match c with [a; b] => from_be_bytes a b | _ => 0 end) <$> chunks_exact 2 bs.
Definition u16s (l : list Z) : Prop := Forall (λ w, is_u16 w) l.

Lemma words_be_length ws : blen (words_be ws) = blen ws * 2.
Proof.
  unfold words_be. rewrite (blen_concat 2).
  - unfold blen. rewrite length_fmap. lia.
  - apply Forall_fmap, Forall_true. done.
Qed.
Lemma words_be_ok ws : bytes_ok (words_be ws).
Proof. unfold words_be. induction ws; [constructor|]. rewrite fmap_cons. cbn [concat]. apply bytes_ok_app. auto with modbus. Qed.
Lemma chunks_words ws : chunks_exact 2 (words_be ws) = to_be_bytes <$> ws.
Proof. apply chunks_exact_concat_inv; [lia|]. apply Forall_fmap, Forall_true. done. Qed.
Lemma be_words_of ws : u16s ws → be_words (words_be ws) = ws.
Proof.
  intros Hw. unfold be_words. rewrite chunks_words, <-list_fmap_compose. induction Hw; [done|].
  csimpl. f_equal; [|done]. by apply from_to_be_bytes.
Qed.
Lemma words_of_image bs : bytes_ok bs → blen bs mod 2 = 0 → ∃ ws, u16s ws ∧ bs = words_be ws ∧ be_words bs = ws.
Proof.
  intros Hb Hm. destruct (chunks_exact_split 2 bs) as (gs & -> & Hgs); [lia|done|].
  assert (∃ ws, u16s ws ∧ concat gs = words_be ws) as (ws & Hw & He).
  { clear Hm. induction Hgs as [|g gs Hg _ IH]; [exists []; split; [constructor|done]|]. simpl in Hb. apply bytes_ok_app in Hb as [Hbg Hb].
    destruct (IH Hb) as (ws & Hw & He). destruct g as [|a [|b [|]]]; try (unfold blen in Hg; simpl in Hg; lia).
    apply bytes_ok_cons in Hbg as [Ha [Hb' _]%bytes_ok_cons]. exists (from_be_bytes a b :: ws). split.
    - constructor; [|done]. by apply from_be_bytes_u16.
    - simpl. rewrite He. unfold words_be. rewrite fmap_cons. cbn [concat]. by rewrite to_from_be_bytes. }
  exists ws. rewrite He. split_and!; [done|done|by apply be_words_of].
Qed.
Lemma blen_be_words bs : bytes_ok bs → blen bs mod 2 = 0 → blen (be_words bs) * 2 = blen bs.
Proof. intros Hb Hm. destruct (words_of_image bs Hb Hm) as (ws & _ & -> & ->). by rewrite words_be_length. Qed.
Lemma be_words_u16 bs : bytes_ok bs → blen bs mod 2 = 0 → u16s (be_words bs).
Proof. intros Hb Hm. by destruct (words_of_image bs Hb Hm) as (ws & Hw & _ & ->). Qed.
Lemma words_be_words bs : bytes_ok bs → blen bs mod 2 = 0 → words_be (be_words bs) = bs.
Proof. intros Hb Hm. by destruct (words_of_image bs Hb Hm) as (ws & Hw & -> & ->). Qed.

Lemma be_values_words {E} ws : u16s ws → be_values (E:=E) (to_be_bytes <$> ws) = Ok ws.
Proof.
  induction 1 as [|w ws Hw _ IH]; [done|]. rewrite fmap_cons. cbn [be_values]. rewrite IH. unfold to_be_bytes at 1.
  rewrite be16_at_cons_0, from_to_be_bytes by done. done.
Qed.
Lemma assign_be_words {E} slots ws : u16s ws → (length ws ≤ length slots)%nat →
  assign_be (E:=E) slots (to_be_bytes <$> ws) = Ok (overlay ws slots).
Proof.
  intros Hw. revert slots. induction Hw as [|w ws Hw _ IH]; intros [|s slots] Hl; simpl in Hl; try done; [lia|].
  rewrite fmap_cons. cbn [assign_be]. unfold to_be_bytes at 1. rewrite be16_at_cons_0, from_to_be_bytes by done. cbn [rbind].
  rewrite IH by lia. done.
Qed.
Lemma assign_be_slice_words {E} a ws slots : u16s ws → 0 ≤ a → a + blen ws ≤ blen slots →
  assign_be_slice (E:=E) a (a + blen ws) (to_be_bytes <$> ws) slots = (Ok tt, splice a ws slots).
Proof.
  intros Hw Ha Hl. pose proof (blen_nonneg ws). unfold assign_be_slice. unfold st_bind at 1, st_get.
  rewrite st_bind_lift, slice_sublist by lia. pose proof (blen_sublist a (blen ws) slots) as Hs.
  rewrite st_bind_lift, assign_be_words by (unfold blen in *; lia || done).
  rewrite overlay_all by (unfold blen in *; lia). by apply buf_copy_splice.
Qed.

(** ** Packing *)
Lemma pack_registers_be_Ok ws out : blen ws * 2 ≤ blen out →
  pack_registers_be ws out = (Ok tt, overlay (words_be ws) out).
Proof.
  intros Hl. unfold pack_registers_be. unfold st_bind, st_get. replace (blen out <? blen ws * 2) with false by lia.
  destruct (for_enumerate_inv (E := Exc) (λ i value, buf_copy (i * 2) (i * 2 + 2) (to_be_bytes value))
    (λ k b, 0 ≤ k ∧ b = overlay (words_be (take (Z.to_nat k) ws)) out) ws 0 out) as (b & -> & _ & ->).
  - by split.
  - intros k w b Hk [Hk0 ->]. rewrite Z.add_0_l in *. pose proof (get_Some_lt _ _ _ Hk). eexists. split.
    + apply buf_copy_overlay; [rewrite words_be_length, blen_take by lia; lia|done|change (blen (to_be_bytes w)) with 2; lia].
    + split; [lia|]. do 2 f_equal. replace (Z.to_nat (k + 1)) with (S (Z.to_nat k)) by lia.
      unfold get in Hk. replace (0 <=? k) with true in Hk by lia. rewrite (take_S_r _ _ w) by done.
      unfold words_be. rewrite fmap_app, concat_app. cbn [fmap list_fmap concat]. by rewrite app_nil_r.
  - rewrite Z.add_0_l, take_ge; [done|]. unfold blen. lia.
Qed.
Lemma pack_registers_be_Err ws out : blen out < blen ws * 2 →
  pack_registers_be ws out = (Err ExceptionCode.IllegalDataValue, out).
Proof. intros. unfold pack_registers_be, st_bind, st_get. by replace (blen out <? blen ws * 2) with true by lia. Qed.

(** Bits packed eight to a byte, least significant first *)
Definition pack_bits (bs : list bool) : bytes := BitTable.pack_byte 0 0 <$> chunks 8 bs.
(** The first [n] bits of packed bytes *)
Definition unpack_bits (n : Z) (l : bytes) : list bool := (λ i, bit l (Z.of_nat i)) <$> seq 0 (Z.to_nat n).

Lemma u8_ext x y : is_u8 x → is_u8 y → (∀ j, 0 ≤ j < 8 → Z.testbit x j = Z.testbit y j) → x = y.
Proof.
  intros Hx Hy Hb. apply Z.bits_inj'. intros j Hj. destruct (Z_lt_le_dec j 8); [by apply Hb|].
  by rewrite !testbit_u8.
Qed.
Lemma pack_byte_u8 c : blen c ≤ 8 → is_u8 (BitTable.pack_byte 0 0 c).
Proof.
  intros Hc. apply u8_testbit.
  - assert (∀ i b, 0 ≤ b → 0 ≤ BitTable.pack_byte i b c) as Hn; [|by apply Hn].
    clear Hc. induction c as [|x c IH]; intros i b Hb; [done|]. cbn. apply IH, Z.lor_nonneg.
    split; [done|apply u8_shl_nonneg].
  - intros j Hj. rewrite pack_byte_testbit by lia. rewrite Z.testbit_0_l. destruct (get c (j - 0)) eqn:Hg.
    + apply get_Some_lt in Hg. lia.
    + by rewrite andb_false_r.
Qed.
Lemma blen_pack_bits bs : blen (pack_bits bs) = div_ceil (blen bs) 8.
Proof. unfold pack_bits. rewrite <-(proj1 (chunks_8 bs)). unfold blen. by rewrite length_fmap. Qed.
Lemma pack_bits_ok bs : bytes_ok (pack_bits bs).
Proof.
  apply Forall_forall. intros b [c [-> Hc]]%list_elem_of_fmap. apply list_elem_of_lookup in Hc as [k Hk].
  pose proof (blen_nonneg bs) as Hn. pose proof (div_ceil_8 _ Hn). destruct (chunks_8 bs) as [Hlen Hg].
  assert (get (chunks 8 bs) (Z.of_nat k) = Some c) as Hget.
  { unfold get. replace (0 <=? Z.of_nat k) with true by lia. by rewrite Nat2Z.id. }
  pose proof (get_Some_lt _ _ _ Hget). destruct (Hg _ _ Hget) as [Hc _]; [lia..|]. apply pack_byte_u8. lia.
Qed.
Lemma get_pack_bits bs k : 0 ≤ k < div_ceil (blen bs) 8 →
  ∃ b, get (pack_bits bs) k = Some b ∧ is_u8 b ∧
    ∀ j, 0 ≤ j < 8 → Z.testbit b j = default false (get bs (k * 8 + j)).
Proof.
  intros Hk. pose proof (blen_nonneg bs) as Hn. pose proof (div_ceil_8 _ Hn). destruct (chunks_8 bs) as [Hlen Hg].
  destruct (get_lt_is_Some (chunks 8 bs) k) as [c Hc]; [lia|]. destruct (Hg k c Hc) as [Hbc Hgc]; [lia..|].
  exists (BitTable.pack_byte 0 0 c). split_and!.
  - unfold pack_bits, get in *. destruct (0 <=? k); [|done]. by rewrite list_lookup_fmap, Hc.
  - apply pack_byte_u8. lia.
  - apply pack_byte_u8. lia.
  - intros j Hj. rewrite pack_byte_testbit by lia. rewrite Z.testbit_0_l, Z.sub_0_r, Hgc by lia.
    by replace (0 <=? j) with true by lia.
Qed.
Lemma bit_pack_bits bs i : 0 ≤ i < blen bs → get bs i = Some (bit (pack_bits bs) i).
Proof.
  intros Hi. destruct (bit_split i) as (Hs & Hm & Hd); [lia|]. pose proof (div_ceil_8 (blen bs) ltac:(lia)).
  destruct (get_pack_bits bs (i / 8)) as (b & Hb & _ & Ht); [lia|]. rewrite (bit_at _ _ b) by (done || lia).
  rewrite Ht by lia. rewrite <-Hs. destruct (get_lt_is_Some bs i Hi) as [x Hx]. by rewrite Hx.
Qed.
Lemma blen_unpack_bits n l : 0 ≤ n → blen (unpack_bits n l) = n.
Proof. intros. unfold unpack_bits, blen. rewrite length_fmap, length_seq. lia. Qed.
Lemma get_unpack_bits n l i : 0 ≤ i < n → get (unpack_bits n l) i = Some (bit l i).
Proof.
  intros Hi. unfold unpack_bits, get. replace (0 <=? i) with true by lia.
  rewrite list_lookup_fmap, lookup_seq_lt by lia. csimpl. do 2 f_equal. lia.
Qed.
Lemma unpack_pack_bits bs : unpack_bits (blen bs) (pack_bits bs) = bs.
Proof.
  pose proof (blen_nonneg bs). apply list_eq_get; rewrite blen_unpack_bits by done; [done|].
  intros i Hi. by rewrite get_unpack_bits, bit_pack_bits by done.
Qed.

Lemma get_pack_bits_byte bs k c : 0 ≤ k < div_ceil (blen bs) 8 →
  (∀ j, 0 ≤ j < 8 → get c j = get bs (k * 8 + j)) → blen c ≤ 8 →
  get (pack_bits bs) k = Some (BitTable.pack_byte 0 0 c).
Proof.
  intros Hk Hc Hl. destruct (get_pack_bits bs k Hk) as (b & -> & Hu & Hb). f_equal.
  apply u8_ext; [done|by apply pack_byte_u8|]. intros j Hj.
  rewrite Hb, pack_byte_testbit by lia. rewrite Z.testbit_0_l, Z.sub_0_r, Hc by lia.
  by replace (0 <=? j) with true by lia.
Qed.
Lemma pack_coils_Ok bs out : div_ceil (blen bs) 8 ≤ blen out →
  pack_coils bs out = (Ok tt, overlay (pack_bits bs) out).
Proof.
  intros Hl. pose proof (blen_nonneg bs) as Hn. pose proof (div_ceil_8 _ Hn) as Hd. pose proof (blen_pack_bits bs) as Hp.
  unfold pack_coils. unfold st_bind at 1, st_get. replace (blen out <? _) with false by lia.
  edestruct (for_range_inv (E := Exc) (λ byte_index,
    chunk <- st_lift (slice bs (byte_index * 8) (Z.min (byte_index * 8 + 8) (blen bs)));;
    buf_set byte_index (BitTable.pack_byte 0 0 chunk))
    (λ k o, blen o = blen out ∧ ∀ i, 0 ≤ i < blen out → get o i = if i <? k then get (pack_bits bs) i else get out i)
    (Z.to_nat (div_ceil (blen bs) 8)) 0 out) as (o & -> & Hlen & Hg).
  - split; [done|]. intros i Hi. by replace (i <? 0) with false by lia.
  - intros k o Hk [Hlen Hg]. rewrite st_bind_lift, slice_Ok by lia. set (c := take _ _).
    assert (blen c = Z.min 8 (blen bs - k * 8)) as Hc by (unfold c; rewrite blen_take, blen_drop by lia; lia).
    destruct (buf_set_spec (E := Exc) o k (BitTable.pack_byte 0 0 c)) as (o' & Ho & Hlo & Hsame & Hother); [lia|].
    exists o'. split; [done|]. split; [lia|]. intros i Hi. destruct (decide (i = k)) as [->|Hne].
    + rewrite Hsame. replace (k <? k + 1) with true by lia. symmetry. apply get_pack_bits_byte; [lia| |lia].
      intros j Hj. destruct (Z_lt_le_dec j (blen c)).
      * unfold c. by rewrite get_take, get_drop by lia.
      * by rewrite !get_ge by lia.
    + rewrite Hother, Hg by lia. by replace (i <? k + 1) with (i <? k) by lia.
  - f_equal. apply overlay_get; [lia|done|]. intros i Hi. rewrite Hg by done. rewrite Z2Nat.id, Z.add_0_l, Hp by lia. done.
Qed.
Lemma pack_coils_Err bs out : blen out < div_ceil (blen bs) 8 →
  pack_coils bs out = (Err ExceptionCode.IllegalDataValue, out).
Proof. intros. unfold pack_coils, st_bind, st_get. by replace (blen out <? _) with true by lia. Qed.

Lemma unpack_byte_bits {E} (bs : list bool) q k b out : 0 ≤ k → k * 8 < q → q ≤ blen out → blen bs = q →
  (∀ j, 0 ≤ j < 8 → k * 8 + j < q → get bs (k * 8 + j) = Some (Z.testbit b j)) →
  for_range (λ j, buf_set (E:=E) (k * 8 + j) (Z.land (Z.shiftr b j) 1 =? 1)) 0 (Z.to_nat (Z.min (q - k * 8) 8))
    (overlay (take (Z.to_nat (k * 8)) bs) out)
  = (Ok tt, overlay (take (Z.to_nat (Z.min (k * 8 + 8) q)) bs) out).
Proof.
  intros Hk Hlt Hout Hbs Hb.
  edestruct (for_range_inv (λ j, buf_set (E:=E) (k * 8 + j) (Z.land (Z.shiftr b j) 1 =? 1))
    (λ j o, o = overlay (take (Z.to_nat (k * 8 + j)) bs) out) (Z.to_nat (Z.min (q - k * 8) 8)) 0) as (o & -> & ->).
  - by rewrite Z.add_0_r.
  - intros j o Hj ->. eexists. split.
    + apply buf_set_overlay; [rewrite blen_take by lia; lia|lia].
    + f_equal. rewrite low_bit_test by lia. replace (Z.to_nat (k * 8 + (j + 1))) with (S (Z.to_nat (k * 8 + j))) by lia.
      specialize (Hb j ltac:(lia) ltac:(lia)). unfold get in Hb. replace (0 <=? k * 8 + j) with true in Hb by lia.
      by rewrite (take_S_r _ _ _ Hb).
  - do 3 f_equal. lia.
Qed.
Lemma unpack_packed_coils_Ok q packed out : 0 < q ≤ MAX_WRITE_COILS → blen packed = div_ceil q 8 → q ≤ blen out →
  unpack_packed_coils q packed out = (Ok q, overlay (unpack_bits q packed) out).
Proof.
  intros Hq Hp Hout. pose proof (div_ceil_8 q ltac:(lia)) as Hd. unfold unpack_packed_coils, validate_packed_coils.
  replace ((q =? 0) || (MAX_WRITE_COILS <? q)) with false by lia. replace (blen packed =? div_ceil q 8) with true by lia.
  cbn [negb]. rewrite st_bind_lift. unfold st_bind at 1, st_get. replace (blen out <? q) with false by lia.
  pose proof (blen_unpack_bits q packed ltac:(lia)) as Hu.
  edestruct (for_enumerate_inv (E := Exc) (λ byte_index byte,
    rest <- st_lift (usub q (byte_index * 8));;
    for_range (λ bit, buf_set (byte_index * 8 + bit) (Z.land (Z.shiftr byte bit) 1 =? 1)) 0 (Z.to_nat (Z.min rest 8)))
    (λ k o, 0 ≤ k ∧ o = overlay (take (Z.to_nat (Z.min (k * 8) q)) (unpack_bits q packed)) out) packed 0 out)
    as (o & Heq & _ & ->).
  - split; [done|]. by replace (Z.to_nat (Z.min (0 * 8) q)) with 0%nat by lia.
  - intros k b o Hk [Hk0 ->]. rewrite Z.add_0_l in *. pose proof (get_Some_lt _ _ _ Hk). eexists. split.
    + rewrite st_bind_lift, usub_Ok by lia. replace (Z.min (k * 8) q) with (k * 8) by lia.
      apply unpack_byte_bits; [lia..|]. intros j Hj Hlt. rewrite get_unpack_bits by lia. f_equal. by apply bit_get.
    + split; [lia|]. by replace (Z.min ((k + 1) * 8) q) with (Z.min (k * 8 + 8) q) by lia.
  - rewrite (st_bind_Ok _ _ _ _ _ Heq). f_equal. rewrite take_ge; [done|]. unfold blen in *. lia.
Qed.

Lemma chunks_exact_be bs : bytes_ok bs → blen bs mod 2 = 0 → chunks_exact 2 bs = to_be_bytes <$> be_words bs.
Proof. intros Hb Hm. destruct (words_of_image bs Hb Hm) as (ws & _ & -> & ->). apply chunks_words. Qed.
Lemma blen_mod_2 {A} (l : list A) q : blen l = q * 2 → blen l mod 2 = 0.
Proof. intros ->. by rewrite Z.mod_mul. Qed.
Lemma unpack_register_values_be_Ok q bs out : bytes_ok bs → 0 < q ≤ MAX_WRITE_REGISTERS → blen bs = q * 2 → q ≤ blen out →
  unpack_register_values_be q bs out = (Ok q, overlay (be_words bs) out).
Proof.
  intros Hb Hq Hl Hout. pose proof (blen_mod_2 bs q Hl) as Hm. pose proof (blen_be_words bs Hb Hm) as Hw.
  unfold unpack_register_values_be, validate_register_values_be.
  replace ((q =? 0) || (MAX_WRITE_REGISTERS <? q)) with false by lia. replace (blen bs =? q * 2) with true by lia.
  cbn [negb]. rewrite st_bind_lift. unfold st_bind at 1, st_get. replace (blen out <? q) with false by lia.
  rewrite chunks_exact_be, take_ge by (done || rewrite length_fmap; unfold blen in *; lia).
  unfold assign_be_slice, st_bind, st_get, st_lift. rewrite slice_Ok by lia.
  rewrite Z.sub_0_r, drop_0, take_ge by (unfold blen; lia).
  rewrite assign_be_words by first [by apply be_words_u16|unfold blen in *; lia].
  replace (blen out) with (0 + blen (overlay (be_words bs) out)) by (rewrite blen_overlay; lia).
  rewrite buf_copy_splice by (rewrite ?blen_overlay; lia). rewrite splice_front by (rewrite blen_overlay; lia).
  by rewrite overlay_all by (apply Nat2Z.inj; change (blen (overlay (be_words bs) out) = blen out); rewrite blen_overlay; lia).
Qed.

(** ** Bit tables as lists of bits *)
Definition bits_of (self : BitTable.t) : list bool := unpack_bits (BitTable.len self) (BitTable.bytes self).

Section Tables.
Context (self : BitTable.t) (Hok : table_ok self) (a : Z) (Ha : 0 ≤ a).

Lemma blen_bits_of : blen (bits_of self) = BitTable.len self.
Proof. destruct Hok as (_ & ? & _). apply blen_unpack_bits. lia. Qed.
Lemma bits_of_get i : 0 ≤ i < BitTable.len self → get (bits_of self) i = Some (bit (BitTable.bytes self) i).
Proof. apply get_unpack_bits. Qed.

Lemma read_bits_list q out : 0 ≤ q → a + q ≤ BitTable.len self → q ≤ blen out →
  BitTable.read_bits self a q out = (Ok q, overlay (sublist a q (bits_of self)) out).
Proof.
  intros Hq Hfit Hout. destruct (read_bits_spec self Hok a q Ha Hq out Hfit Hout) as (o & -> & Hlen & Hin & Hrest).
  f_equal. pose proof blen_bits_of. apply overlay_get; rewrite ?blen_sublist by lia; [done..|]. intros i Hi.
  destruct (Z.ltb_spec i q); [|by apply Hrest]. by rewrite Hin, get_sublist, bits_of_get by lia.
Qed.
Lemma read_packed_list q out : 0 ≤ q → a + q ≤ BitTable.len self → div_ceil q 8 ≤ blen out →
  BitTable.read_packed self a q out = (Ok q, overlay (pack_bits (sublist a q (bits_of self))) out).
Proof.
  intros Hq Hfit Hout. pose proof blen_bits_of as Hl. pose proof (div_ceil_8 q Hq) as Hd.
  pose proof (blen_sublist a q (bits_of self) Ha Hq ltac:(lia)) as Hs.
  destruct (read_packed_spec self Hok a q Ha Hq out Hfit Hout) as (o & -> & Hlen & Hin & Hrest). f_equal.
  apply overlay_get; rewrite ?blen_pack_bits, ?Hs; [done..|]. intros k Hk. destruct (Z.ltb_spec k (div_ceil q 8)); [|by apply Hrest].
  destruct (Hin k) as (b & -> & Hu & Hb); [lia|]. destruct (get_pack_bits (sublist a q (bits_of self)) k) as (b' & -> & Hu' & Hb');
    [rewrite Hs; lia|]. f_equal. apply u8_ext; [done..|]. intros j Hj. rewrite Hb, Hb' by done.
  destruct (Z.ltb_spec (k * 8 + j) q).
  - by rewrite get_sublist, bits_of_get by lia.
  - destruct (get (sublist a q (bits_of self)) (k * 8 + j)) eqn:Hg; [|done]. apply get_Some_lt in Hg. lia.
Qed.
(** A run that was written, as a list *)
Lemma run_written_list l' v (vs : list bool) : a + blen vs ≤ BitTable.len self →
  run_written (BitTable.bytes self) l' a (blen vs) v → (∀ m, 0 ≤ m < blen vs → get vs m = Some (v m)) →
  bits_of (BitTable.mk (BitTable.len self) l') = splice a vs (bits_of self).
Proof.
  intros Hfit (Hb & Hl & Hbits) Hv. pose proof blen_bits_of as Hlen. destruct Hok as (_ & Hl0 & Hl8).
  pose proof (div_ceil_8 _ (proj1 Hl0)) as Hd.
  assert (blen (bits_of (BitTable.mk (BitTable.len self) l')) = BitTable.len self) as Hlen'
    by (apply blen_unpack_bits; cbn; lia).
  apply splice_get; [lia..|]. intros i Hi. unfold bits_of at 1. rewrite get_unpack_bits by (cbn; lia). cbn [BitTable.bytes].
  rewrite Hbits by lia. destruct ((a <=? i) && (i <? a + blen vs)) eqn:He; [|by rewrite bits_of_get by lia].
  symmetry. apply Hv. lia.
Qed.
Lemma write_bits_list values : a + blen values ≤ BitTable.len self →
  ∃ self', BitTable.write_bits a values self = (Ok tt, self') ∧ table_ok self' ∧
    bits_of self' = splice a values (bits_of self).
Proof.
  intros Hfit. destruct (write_bits_spec self Hok a Ha values Hfit) as (l' & -> & Hw). eexists. split; [done|].
  split; [by eapply run_written_ok|]. eapply run_written_list; [done..|]. intros m Hm.
  destruct (get_lt_is_Some values m Hm) as [x Hx]. by rewrite Hx.
Qed.
Lemma write_packed_list q packed : 0 ≤ q → a + q ≤ BitTable.len self → blen packed = div_ceil q 8 →
  ∃ self', BitTable.write_packed a q packed self = (Ok tt, self') ∧ table_ok self' ∧
    bits_of self' = splice a (unpack_bits q packed) (bits_of self).
Proof.
  intros Hq Hfit Hp. destruct (write_packed_spec self Hok a Ha q packed Hq Hfit Hp) as (l' & -> & Hw). eexists. split; [done|].
  split; [by eapply run_written_ok|]. pose proof (blen_unpack_bits q packed Hq) as Hu.
  eapply run_written_list; rewrite ?Hu; [done..|]. intros m Hm. by rewrite get_unpack_bits.
Qed.
Lemma set_list {E} value : a < BitTable.len self →
  ∃ self', BitTable.set (E:=E) a value self = (Ok tt, self') ∧ table_ok self' ∧
    bits_of self' = splice a [value] (bits_of self).
Proof.
  intros Hfit. destruct (set_spec self Hok a Ha (E:=E) value Hfit) as (l' & -> & Hw). eexists. split; [done|].
  split; [by eapply run_written_ok|]. eapply (run_written_list _ (λ _, value)); change (blen [value]) with 1; [lia|done|].
  intros m Hm. by replace m with 0 by lia.
Qed.
End Tables.
