(* ===== verification/Memory.v ===== *)
(** * The in-memory data store (crates/rusty-modbus-server/src/store/memory.rs)

    Flat tables behind locks, one lock per table. Every method takes a single lock
    for its whole body, so it is one atomic action on the state. *)
From stdpp Require Import gmap strings.
From S2P Require Import Prelude Types CodecError Bits Store.

(** [f] applied to one field of the state *)
Definition zoom {S F E A} (proj : S → F) (upd : F → S → S) (m : ST F E A) : ST S E A :=
  λ s, let '(r, f) := m (proj s) in (r, upd f s).

Definition MAX_TABLE_SIZE : Z := 65536.

Module StoreError.
Inductive t : Type :=
  | TableTooLarge (table : string) (count max : Z)
  | AddressOutOfRange (table : string) (address len : Z)
  | FileNumberOutOfRange (file_number minimum : Z)
  | FileRecordOutOfRange (record_number maximum : Z).
End StoreError.

Definition validate_table_size (table : string) (count : Z) : res StoreError.t unit :=
  if MAX_TABLE_SIZE <? count then Err (StoreError.TableTooLarge table count MAX_TABLE_SIZE) else Ok tt.

Module StoreConfig.
Record t : Type := mk {
  coil_count : Z;
  discrete_input_count : Z;
  holding_register_count : Z;
  input_register_count : Z;
}.

Definition default : t := mk 65536 65536 65536 65536.

Definition validate (self : t) : res StoreError.t unit :=
  do? validate_table_size "coils" (coil_count self) in
  do? validate_table_size "discrete_inputs" (discrete_input_count self) in
  do? validate_table_size "holding_registers" (holding_register_count self) in
  do? validate_table_size "input_registers" (input_register_count self) in
  Ok tt.
End StoreConfig.

Definition validate_atomic_read_write_buffers
    (read_quantity write_quantity : Z) (write_values out : bytes) : res Exc (Z * Z) :=
  if (read_quantity =? 0) || (MAX_RW_READ_REGISTERS <? read_quantity)
     || (write_quantity =? 0) || (MAX_RW_WRITE_REGISTERS <? write_quantity)
  then Err ExceptionCode.IllegalDataValue else
  let read_count := read_quantity in
  let write_count := write_quantity in
  if negb (blen write_values =? write_count * 2) || (blen out <? read_count * 2)
  then Err ExceptionCode.IllegalDataValue else
  Ok (read_count, write_count).

Definition check_setup_address (table : string) (address len : Z) : res StoreError.t Z :=
  let index := address in
  if len <=? index then Err (StoreError.AddressOutOfRange table address len) else Ok index.

Definition check_setup_file_record (file_number record_number : Z) : res StoreError.t unit :=
  if file_number <? FileRecord.MIN_FILE_NUMBER
  then Err (StoreError.FileNumberOutOfRange file_number FileRecord.MIN_FILE_NUMBER) else
  if FileRecord.RECORD_COUNT <=? record_number
  then Err (StoreError.FileRecordOutOfRange record_number FileRecord.MAX_RECORD_NUMBER) else
  Ok tt.

(** [map.entry(k).or_default()], mutably borrowed by [m] *)
Definition entry_or_default {E A} (k : Z) (m : ST (list Z) E A) : ST (gmap Z (list Z)) E A :=
  zoom (λ files, default [] (files !! k)) (λ file, <[k:=file]>) m.

Module InMemoryStore.
Record t : Type := mk {
  coils : BitTable.t;
  discrete_inputs : BitTable.t;
  holding_registers : list Z;
  input_registers : list Z;
  files : gmap Z (list Z);
  fifo_queues : gmap Z (list Z);
  exception_status : Z;
  server_id : Prelude.bytes;
}.

(** Write access to one table *)
Definition on_coils {E A} : ST BitTable.t E A → ST t E A :=
  zoom coils (λ f '(mk c d h i fs q x sid), mk f d h i fs q x sid).
Definition on_discrete_inputs {E A} : ST BitTable.t E A → ST t E A :=
  zoom discrete_inputs (λ f '(mk c d h i fs q x sid), mk c f h i fs q x sid).
Definition on_holding_registers {E A} : ST (list Z) E A → ST t E A :=
  zoom holding_registers (λ f '(mk c d h i fs q x sid), mk c d f i fs q x sid).
Definition on_input_registers {E A} : ST (list Z) E A → ST t E A :=
  zoom input_registers (λ f '(mk c d h i fs q x sid), mk c d h f fs q x sid).
Definition on_files {E A} : ST (gmap Z (list Z)) E A → ST t E A :=
  zoom files (λ f '(mk c d h i fs q x sid), mk c d h i f q x sid).
Definition on_fifo_queues {E A} : ST (gmap Z (list Z)) E A → ST t E A :=
  zoom fifo_queues (λ f '(mk c d h i fs q x sid), mk c d h i fs f x sid).
Definition on_exception_status {E A} : ST Z E A → ST t E A :=
  zoom exception_status (λ f '(mk c d h i fs q x sid), mk c d h i fs q f sid).
Definition on_server_id {E A} : ST Prelude.bytes E A → ST t E A :=
  zoom server_id (λ f '(mk c d h i fs q x sid), mk c d h i fs q x f).
(** Read access to one table, beside a buffer *)
Definition reading {B F E} (proj : t → F) : ST (t * B) E F := self <- on_store st_get;; st_ret (proj self).

(** The literal of the default identification, followed by 0xFF *)
Definition default_server_id : Prelude.bytes :=
  [114; 117; 115; 116; 121; 45; 109; 111; 100; 98; 117; 115; 0xFF].

Definition try_new (config : StoreConfig.t) : res StoreError.t t :=
  do? StoreConfig.validate config in
  Ok (mk (BitTable.new (StoreConfig.coil_count config))
         (BitTable.new (StoreConfig.discrete_input_count config))
         (replicate (Z.to_nat (StoreConfig.holding_register_count config)) 0)
         (replicate (Z.to_nat (StoreConfig.input_register_count config)) 0)
         ∅ ∅ 0 default_server_id).

Definition new (config : StoreConfig.t) : res Empty_set t :=
  match try_new config with
  | Ok self => Ok self
  | Err _ | Panic => Panic
  | OutOfFuel => OutOfFuel
  end.

Definition set_input_register (address value : Z) : ST t StoreError.t unit :=
  on_input_registers (
    regs <- st_get;;
    index <- st_lift (check_setup_address "input_registers" address (blen regs));;
    buf_set index value).

Definition set_discrete_input (address : Z) (value : bool) : ST t StoreError.t unit :=
  on_discrete_inputs (
    inputs <- st_get;;
    index <- st_lift (check_setup_address "discrete_inputs" address (BitTable.len inputs));;
    BitTable.set index value).

Definition set_holding_register (address value : Z) : ST t StoreError.t unit :=
  on_holding_registers (
    regs <- st_get;;
    index <- st_lift (check_setup_address "holding_registers" address (blen regs));;
    buf_set index value).

Definition set_coil (address : Z) (value : bool) : ST t StoreError.t unit :=
  on_coils (
    coils <- st_get;;
    index <- st_lift (check_setup_address "coils" address (BitTable.len coils));;
    BitTable.set index value).

Definition set_file_record (file_number record_number value : Z) : ST t StoreError.t unit :=
  st_lift (check_setup_file_record file_number record_number);;;
  on_files (entry_or_default file_number (
    let idx := record_number in
    file <- st_get;;
    (if blen file <=? idx then st_modify (resize (Z.to_nat (idx + 1)) 0) else st_ret tt);;;
    buf_set idx value)).

Definition set_fifo_queue {E} (address : Z) (values : list Z) : ST t E unit :=
  on_fifo_queues (st_modify <[address := values]>).

Definition set_exception_status {E} (status : Z) : ST t E unit :=
  on_exception_status (st_modify (λ _, status)).

Definition set_server_id {E} (data : Prelude.bytes) : ST t E unit :=
  on_server_id (st_modify (λ _, data)).

(** memory.rs has its own copy of the range check of bits.rs. *)
Definition check_range (address quantity max : Z) : res Exc unit :=
  match checked_add address quantity with
  | None => Err ExceptionCode.IllegalDataAddress
  | Some end_ => if max <? end_ then Err ExceptionCode.IllegalDataAddress else Ok tt
  end.

Definition read_coils (address quantity : Z) : ST (t * list bool) Exc Z :=
  coils <- reading coils;;
  on_buf (BitTable.read_bits coils address quantity).

Definition read_coils_packed (address quantity : Z) : ST (t * Prelude.bytes) Exc Z :=
  coils <- reading coils;;
  on_buf (BitTable.read_packed coils address quantity).

Definition write_coil (address : Z) (value : bool) : ST t Exc unit :=
  on_coils (
    coils <- st_get;;
    st_lift (check_range address 1 (BitTable.len coils));;;
    BitTable.set address value).

Definition write_coils (address : Z) (values : list bool) : ST t Exc unit :=
  on_coils (BitTable.write_bits address values).

Definition write_coils_packed (address quantity : Z) (packed_values : Prelude.bytes) : ST t Exc unit :=
  quantity <- st_lift (validate_packed_coils quantity packed_values);;
  on_coils (BitTable.write_packed address quantity packed_values).

Definition read_discrete_inputs (address quantity : Z) : ST (t * list bool) Exc Z :=
  inputs <- reading discrete_inputs;;
  on_buf (BitTable.read_bits inputs address quantity).

Definition read_discrete_inputs_packed (address quantity : Z) : ST (t * Prelude.bytes) Exc Z :=
  inputs <- reading discrete_inputs;;
  on_buf (BitTable.read_packed inputs address quantity).

Definition read_holding_registers (address quantity : Z) : ST (t * list Z) Exc Z :=
  regs <- reading holding_registers;;
  st_lift (check_range address quantity (blen regs));;;
  let start := address in
  let qty := quantity in
  part <- st_lift (slice regs start (start + qty));;
  on_buf (buf_copy 0 qty part);;;
  st_ret qty.

Definition read_holding_registers_be (address quantity : Z) : ST (t * Prelude.bytes) Exc Z :=
  regs <- reading holding_registers;;
  st_lift (check_range address quantity (blen regs));;;
  let start := address in
  let qty := quantity in
  part <- st_lift (slice regs start (start + qty));;
  on_buf (pack_registers_be part);;;
  st_ret qty.

Definition write_register (address value : Z) : ST t Exc unit :=
  on_holding_registers (
    regs <- st_get;;
    st_lift (check_range address 1 (blen regs));;;
    buf_set address value).

Definition write_registers (address : Z) (values : list Z) : ST t Exc unit :=
  on_holding_registers (
    regs <- st_get;;
    st_lift (check_range address (blen values) (blen regs));;;
    let start := address in
    buf_copy start (start + blen values) values).

Definition write_registers_be (address quantity : Z) (value_bytes : Prelude.bytes) : ST t Exc unit :=
  quantity <- st_lift (validate_register_values_be quantity value_bytes);;
  on_holding_registers (
    regs <- st_get;;
    st_lift (check_range address quantity (blen regs));;;
    let start := address in
    assign_be_slice start (start + quantity) (chunks_exact 2 value_bytes)).

(** [!and_mask] on a [u16] *)
Definition u16_not (x : Z) : Z := Z.lxor x 65535.

Definition atomic_mask_write_register (address and_mask or_mask : Z) : ST t Exc unit :=
  on_holding_registers (
    regs <- st_get;;
    st_lift (check_range address 1 (blen regs));;;
    current <- st_lift (idx regs address);;
    buf_set address (Z.lor (Z.land current and_mask) (Z.land or_mask (u16_not and_mask)))).

Definition atomic_read_write_registers_be
    (read_address read_quantity write_address write_quantity : Z) (write_values : Prelude.bytes)
    : ST (t * Prelude.bytes) Exc Z :=
  out <- on_buf st_get;;
  counts <- st_lift (validate_atomic_read_write_buffers read_quantity write_quantity write_values out);;
  let '(read_count, write_count) := counts in
  regs <- reading holding_registers;;
  st_lift (check_range write_address write_count (blen regs));;;
  st_lift (check_range read_address read_count (blen regs));;;
  let write_start := write_address in
  on_store (on_holding_registers
    (assign_be_slice write_start (write_start + write_count) (chunks_exact 2 write_values)));;;
  let read_start := read_address in
  regs <- reading holding_registers;;
  part <- st_lift (slice regs read_start (read_start + read_count));;
  on_buf (pack_registers_be part);;;
  st_ret read_count.

Definition read_input_registers (address quantity : Z) : ST (t * list Z) Exc Z :=
  regs <- reading input_registers;;
  st_lift (check_range address quantity (blen regs));;;
  let start := address in
  let qty := quantity in
  part <- st_lift (slice regs start (start + qty));;
  on_buf (buf_copy 0 qty part);;;
  st_ret qty.

Definition read_input_registers_be (address quantity : Z) : ST (t * Prelude.bytes) Exc Z :=
  regs <- reading input_registers;;
  st_lift (check_range address quantity (blen regs));;;
  let start := address in
  let qty := quantity in
  part <- st_lift (slice regs start (start + qty));;
  on_buf (pack_registers_be part);;;
  st_ret qty.

Definition read_file_record (file_number record_number record_length : Z) : ST (t * list Z) Exc Z :=
  st_lift (FileRecord.validate_range file_number record_number record_length);;;
  files <- reading files;;
  file <- st_lift (ok_or (files !! file_number) ExceptionCode.IllegalDataAddress);;
  let start := record_number in
  let len := record_length in
  end_ <- st_lift (ok_or (checked_add start len) ExceptionCode.IllegalDataAddress);;
  buf <- on_buf st_get;;
  if (blen file <? end_) || (blen buf <? len) then st_err ExceptionCode.IllegalDataAddress else
  part <- st_lift (slice file start end_);;
  on_buf (buf_copy 0 len part);;;
  st_ret len.

Definition read_file_record_be (file_number record_number record_length : Z) : ST (t * Prelude.bytes) Exc Z :=
  let len := record_length in
  st_lift (FileRecord.validate_range file_number record_number len);;;
  if MAX_FILE_RECORD_REGISTERS <? len then st_err ExceptionCode.IllegalDataAddress else
  files <- reading files;;
  file <- st_lift (ok_or (files !! file_number) ExceptionCode.IllegalDataAddress);;
  let start := record_number in
  end_ <- st_lift (ok_or (checked_add start len) ExceptionCode.IllegalDataAddress);;
  if blen file <? end_ then st_err ExceptionCode.IllegalDataAddress else
  part <- st_lift (slice file start end_);;
  on_buf (pack_registers_be part);;;
  st_ret len.

Definition write_file_record (file_number record_number : Z) (values : list Z) : ST t Exc unit :=
  st_lift (FileRecord.validate_range file_number record_number (blen values));;;
  on_files (entry_or_default file_number (
    let start := record_number in
    end_ <- st_lift (ok_or (checked_add start (blen values)) ExceptionCode.IllegalDataAddress);;
    file <- st_get;;
    (if blen file <? end_ then st_modify (resize (Z.to_nat end_) 0) else st_ret tt);;;
    buf_copy start end_ values)).

Definition write_file_record_be (file_number record_number record_length : Z)
    (value_bytes : Prelude.bytes) : ST t Exc unit :=
  let len := record_length in
  if negb (blen value_bytes =? len * 2) then st_err ExceptionCode.IllegalDataValue else
  st_lift (FileRecord.validate_range file_number record_number len);;;
  on_files (entry_or_default file_number (
    let start := record_number in
    end_ <- st_lift (ok_or (checked_add start len) ExceptionCode.IllegalDataAddress);;
    file <- st_get;;
    (if blen file <? end_ then st_modify (resize (Z.to_nat end_) 0) else st_ret tt);;;
    assign_be_slice start end_ (chunks_exact 2 value_bytes))).

Definition read_fifo_queue (address : Z) : ST t Exc (list Z) :=
  self <- st_get;;
  st_lift (ok_or (fifo_queues self !! address) ExceptionCode.IllegalDataAddress).

Definition read_fifo_queue_be (address : Z) : ST (t * Prelude.bytes) Exc Z :=
  queues <- reading fifo_queues;;
  values <- st_lift (ok_or (queues !! address) ExceptionCode.IllegalDataAddress);;
  if MAX_FIFO_VALUES <? blen values then st_err ExceptionCode.IllegalDataValue else
  on_buf (pack_registers_be values);;;
  st_ret (blen values).

Definition read_exception_status : ST t Exc Z :=
  self <- st_get;; st_ret (exception_status self).

Definition report_server_id : ST t Exc Prelude.bytes :=
  self <- st_get;; st_ret (server_id self).

Definition append_server_id : ST (t * Prelude.bytes) Exc Z :=
  server_id <- reading server_id;;
  if MAX_SERVER_ID_BYTES <? blen server_id then st_err ExceptionCode.ServerDeviceFailure else
  on_buf (vec_extend server_id);;;
  st_ret (blen server_id).

Definition append_diagnostic_response (sub_function : DiagnosticSubFunction.t) (data : Prelude.bytes)
    : ST (t * Prelude.bytes) Exc (option Z) :=
  match sub_function with
  | DiagnosticSubFunction.ReturnQueryData =>
      if MAX_DIAGNOSTIC_RESPONSE_DATA_LEN <? blen data then st_err ExceptionCode.ServerDeviceFailure else
      on_buf (vec_extend data);;;
      st_ret (Some (blen data))
  | _ => st_err ExceptionCode.IllegalFunction
  end.
End InMemoryStore.

(** The implementation of the trait: the methods of the module above, and the
    defaults for the capabilities the store does not have. *)
#[export] Instance memory_store : DataStore InMemoryStore.t := {
  read_coils := InMemoryStore.read_coils;
  read_coils_packed := InMemoryStore.read_coils_packed;
  write_coil := InMemoryStore.write_coil;
  write_coils := InMemoryStore.write_coils;
  write_coils_packed := InMemoryStore.write_coils_packed;
  read_discrete_inputs := InMemoryStore.read_discrete_inputs;
  read_discrete_inputs_packed := InMemoryStore.read_discrete_inputs_packed;
  read_holding_registers := InMemoryStore.read_holding_registers;
  read_holding_registers_be := InMemoryStore.read_holding_registers_be;
  write_register := InMemoryStore.write_register;
  write_registers := InMemoryStore.write_registers;
  write_registers_be := InMemoryStore.write_registers_be;
  atomic_mask_write_register := InMemoryStore.atomic_mask_write_register;
  atomic_read_write_registers_be := InMemoryStore.atomic_read_write_registers_be;
  read_input_registers := InMemoryStore.read_input_registers;
  read_input_registers_be := InMemoryStore.read_input_registers_be;
  handle_custom_function := Default.handle_custom_function;
  read_file_record := InMemoryStore.read_file_record;
  read_file_record_be := InMemoryStore.read_file_record_be;
  write_file_record := InMemoryStore.write_file_record;
  write_file_record_be := InMemoryStore.write_file_record_be;
  read_fifo_queue := InMemoryStore.read_fifo_queue;
  read_fifo_queue_be := InMemoryStore.read_fifo_queue_be;
  read_exception_status := InMemoryStore.read_exception_status;
  get_comm_event_counter := Default.get_comm_event_counter;
  get_comm_event_log := Default.get_comm_event_log;
  append_comm_event_log := Default.append_comm_event_log Default.get_comm_event_log;
  report_server_id := InMemoryStore.report_server_id;
  append_server_id := InMemoryStore.append_server_id;
  diagnostic := Default.diagnostic;
  append_diagnostic_response := InMemoryStore.append_diagnostic_response;
}.

(** * Specification

    The tables as plain lists, and what a request for a part of a table answers. *)
Module Tables.
Record t : Type := mk {
  coils : list bool;
  discrete_inputs : list bool;
  holding_registers : list Z;
  input_registers : list Z;
  files : gmap Z (list Z);
  fifo_queues : gmap Z (list Z);
  exception_status : Z;
  server_id : Prelude.bytes;
}.
Definition set_coils (x : list bool) '(mk c d h i fs q e sid) : t := mk x d h i fs q e sid.
Definition set_holding (x : list Z) '(mk c d h i fs q e sid) : t := mk c d x i fs q e sid.
Definition set_files (x : gmap Z (list Z)) '(mk c d h i fs q e sid) : t := mk c d h i x q e sid.
Definition set_discrete (x : list bool) '(mk c d h i fs q e sid) : t := mk c x h i fs q e sid.
Definition set_input (x : list Z) '(mk c d h i fs q e sid) : t := mk c d h x fs q e sid.
Definition set_queues (x : gmap Z (list Z)) '(mk c d h i fs q e sid) : t := mk c d h i fs x e sid.
Definition set_status (x : Z) '(mk c d h i fs q e sid) : t := mk c d h i fs q x sid.
Definition set_id (x : Prelude.bytes) '(mk c d h i fs q e sid) : t := mk c d h i fs q e x.
(** All zero, with nothing in files and queues *)
Definition blank (coils discrete_inputs holding_registers input_registers : Z) : t :=
  mk (replicate (Z.to_nat coils) false) (replicate (Z.to_nat discrete_inputs) false)
     (replicate (Z.to_nat holding_registers) 0) (replicate (Z.to_nat input_registers) 0) ∅ ∅ 0
     (map (λ c, Z.of_N (Strings.Ascii.N_of_ascii c)) (String.list_ascii_of_string "rusty-modbus") ++ [255]).
End Tables.

Definition tables_of (s : InMemoryStore.t) : Tables.t :=
  let '(InMemoryStore.mk c d h i fs q x sid) := s in Tables.mk (bits_of c) (bits_of d) h i fs q x sid.

(** The [n] entries of a table from [a] on, and the table with [v] there *)
Definition select {A} (table : list A) (a n : Z) : res Exc (list A) :=
  if blen table <? a + n then Err ExceptionCode.IllegalDataAddress else Ok (sublist a n table).
Definition replace_at {A} (table : list A) (a : Z) (v : list A) : res Exc (list A) :=
  if blen table <? a + blen v then Err ExceptionCode.IllegalDataAddress else Ok (splice a v table).
(** The records of a file, and a file with records written, extended with zeros *)
Definition select_records (files : gmap Z (list Z)) (f r n : Z) : res Exc (list Z) :=
  do? FileRecord.validate_range f r n in
  if MAX_FILE_RECORD_REGISTERS <? n then Err ExceptionCode.IllegalDataAddress else
  match files !! f with
  | None => Err ExceptionCode.IllegalDataAddress
  | Some file => select file r n
  end.
Definition replace_records (files : gmap Z (list Z)) (f r : Z) (v : list Z) : res Exc (gmap Z (list Z)) :=
  do? FileRecord.validate_range f r (blen v) in
  let file := default [] (files !! f) in
  let file := if blen file <? r + blen v then resize (Z.to_nat (r + blen v)) 0 file else file in
  Ok (<[f := splice r v file]> files).
Definition masked (current and_mask or_mask : Z) : Z :=
  Z.lor (Z.land current and_mask) (Z.land or_mask (InMemoryStore.u16_not and_mask)).

(** A read that stores the image at the front of the buffer, and a write *)
Definition fill {S} (s : S) (out : bytes) (n : Z) (image : res Exc bytes) : res Exc Z * (S * bytes) :=
  match image with
  | Ok image => if blen out <? blen image then (Err ExceptionCode.IllegalDataValue, (s, out))
                else (Ok n, (s, overlay image out))
  | Err e => (Err e, (s, out))
  | Panic => (Panic, (s, out))
  | OutOfFuel => (OutOfFuel, (s, out))
  end.

Definition files_ok (files : gmap Z (list Z)) : Prop :=
  map_Forall (λ _ file, u16s file ∧ blen file ≤ FileRecord.RECORD_COUNT) files.
Definition fifos_ok (fifos : gmap Z (list Z)) : Prop := map_Forall (λ _ values, u16s values) fifos.
Definition store_ok (s : InMemoryStore.t) : Prop :=
  let '(InMemoryStore.mk c d h i fs q x sid) := s in
  (table_ok c ∧ table_ok d) ∧
  (BitTable.len c ≤ MAX_TABLE_SIZE ∧ BitTable.len d ≤ MAX_TABLE_SIZE ∧
   blen h ≤ MAX_TABLE_SIZE ∧ blen i ≤ MAX_TABLE_SIZE) ∧
  (u16s h ∧ u16s i) ∧ (files_ok fs ∧ fifos_ok q) ∧ (is_u8 x ∧ bytes_ok sid).

Definition committed {E} (s : InMemoryStore.t) (r : res E unit * InMemoryStore.t) (new : res E Tables.t) : Prop :=
  match new with
  | Ok tables => ∃ s', r = (Ok tt, s') ∧ store_ok s' ∧ tables_of s' = tables
  | Err e => r = (Err e, s)
  | Panic => r = (Panic, s)
  | OutOfFuel => r = (OutOfFuel, s)
  end.

(** * Lemmas *)
Import InMemoryStore.

Lemma memory_check_range a n m : 0 ≤ m ≤ MAX_TABLE_SIZE → is_u16 a → is_u16 n →
  InMemoryStore.check_range a n m = if m <? a + n then Err ExceptionCode.IllegalDataAddress else Ok tt.
Proof.
  intros Hm Ha Hn. unfold check_range, checked_add, usize_max. by replace (_ <? a + n) with false by lia.
Qed.
Lemma validate_range_spec f r n : is_u16 r → is_u16 n → FileRecord.validate_range f r n =
  if (f <? 1) || (n =? 0) || (10000 <? r + n) then Err ExceptionCode.IllegalDataAddress else Ok tt.
Proof.
  intros Hr Hn. unfold FileRecord.validate_range, checked_add, usize_max. replace (_ <? r + n) with false by lia.
  cbn [ok_or rbind]. unfold FileRecord.MIN_FILE_NUMBER, FileRecord.MAX_RECORD_NUMBER, FileRecord.RECORD_COUNT.
  destruct ((f <? 1) || (n =? 0) || (10000 <? r + n)) eqn:Hc.
  - by replace (_ || _ || _ || _) with true by lia.
  - by replace (_ || _ || _ || _) with false by lia.
Qed.

(** ** Reads *)
Lemma pack_fill {S} (s : S) ws out n :
  (on_buf (pack_registers_be ws);;; st_ret n) (s, out) = fill s out n (Ok (words_be ws)).
Proof.
  unfold fill, st_bind, on_buf. cbn [fst snd]. rewrite words_be_length.
  destruct (Z.ltb_spec (blen out) (blen ws * 2)); [by rewrite pack_registers_be_Err|by rewrite pack_registers_be_Ok].
Qed.
Lemma read_packed_fill {S} (s : S) table a q out : table_ok table → BitTable.len table ≤ MAX_TABLE_SIZE →
  is_u16 a → is_u16 q →
  on_buf (BitTable.read_packed table a q) (s, out) = fill s out q (rmap pack_bits (select (bits_of table) a q)).
Proof.
  intros Hok Hlen Ha Hq. pose proof Hok as (_ & Hl & _). unfold on_buf, select. cbn [fst snd].
  rewrite blen_bits_of by done. destruct (Z.ltb_spec (BitTable.len table) (a + q)) as [Hlt|Hfit]; cbn [rmap rbind fill].
  - unfold BitTable.read_packed. by rewrite st_bind_lift, check_range_Err by lia.
  - rewrite blen_pack_bits, blen_sublist by (rewrite ?blen_bits_of; done || lia).
    destruct (Z.ltb_spec (blen out) (div_ceil q 8)); [|by rewrite read_packed_list by (done || lia)].
    unfold BitTable.read_packed. rewrite st_bind_lift, check_range_Ok by (unfold MAX_TABLE_SIZE, usize_max in *; lia).
    unfold st_bind, st_get. by replace (blen out <? div_ceil q 8) with true by lia.
Qed.
Lemma read_be_fill {S} (s : S) regs a q out : blen regs ≤ MAX_TABLE_SIZE → is_u16 a → is_u16 q →
  (st_lift (InMemoryStore.check_range a q (blen regs));;;
   part <- st_lift (slice regs a (a + q));; on_buf (pack_registers_be part);;; st_ret q) (s, out)
  = fill s out q (rmap words_be (select regs a q)).
Proof.
  intros Hl Ha Hq. pose proof (blen_nonneg regs). rewrite st_bind_lift, memory_check_range by lia.
  unfold select. destruct (Z.ltb_spec (blen regs) (a + q)); [done|]. rewrite st_bind_lift, slice_sublist by lia.
  apply pack_fill.
Qed.
Lemma read_file_fill (s : t) f r n out : store_ok s → is_u16 r → is_u16 n →
  InMemoryStore.read_file_record_be f r n (s, out)
  = fill s out n (rmap words_be (select_records (files s) f r n)).
Proof.
  intros Hs Hr Hn. unfold read_file_record_be, select_records. rewrite st_bind_lift.
  pose proof (validate_range_spec f r n Hr Hn) as Hv. rewrite Hv.
  destruct ((f <? 1) || (n =? 0) || (10000 <? r + n)) eqn:Hc; [done|]. cbn [rbind].
  destruct (Z.ltb_spec MAX_FILE_RECORD_REGISTERS n); [done|]. change (reading files) with (self <- on_store (B:=bytes) (E:=Exc) st_get;; st_ret (files self)).
  unfold st_bind at 1 2. unfold on_store, st_get, st_ret. cbn [fst snd]. rewrite st_bind_lift.
  destruct (files s !! f) as [file|]; [|done]. cbn [ok_or]. unfold checked_add, usize_max.
  replace (_ <? r + n) with false by lia. rewrite st_bind_lift. cbn [ok_or]. unfold select.
  destruct (Z.ltb_spec (blen file) (r + n)); [done|]. rewrite st_bind_lift, slice_sublist by lia. apply pack_fill.
Qed.

(** ** Writes *)

(** What an action on one table has to do for the write to be committed *)
Definition coils_written (m : ST BitTable.t Exc unit) (c : BitTable.t) (new : res Exc (list bool)) : Prop :=
  match new with
  | Ok bs => ∃ c', m c = (Ok tt, c') ∧ table_ok c' ∧ bits_of c' = bs ∧ blen bs = BitTable.len c
  | Err e => m c = (Err e, c)
  | Panic | OutOfFuel => False
  end.
Definition holding_written (m : ST (list Z) Exc unit) (h : list Z) (new : res Exc (list Z)) : Prop :=
  match new with
  | Ok h' => m h = (Ok tt, h') ∧ u16s h' ∧ blen h' = blen h
  | Err e => m h = (Err e, h)
  | Panic | OutOfFuel => False
  end.

Lemma coils_committed s m new : store_ok s → coils_written m (coils s) new →
  committed s (on_coils m s) (rmap (λ bs, Tables.set_coils bs (tables_of s)) new).
Proof.
  destruct s as [c d h i fs q x sid]. intros (Ht & Hl & Hrest). unfold coils_written, committed, on_coils, zoom. cbn [coils].
  destruct new as [bs|e| |]; cbn; try done; [|by intros ->].
  intros (c' & -> & Hok & Hb & Hlen). eexists. split; [done|]. cbn. split; [|by rewrite Hb].
  rewrite <-Hb, blen_bits_of in Hlen by done. rewrite Hlen. destruct_and!. by split_and!.
Qed.
Lemma holding_committed s m new : store_ok s → holding_written m (holding_registers s) new →
  committed s (on_holding_registers m s) (rmap (λ h, Tables.set_holding h (tables_of s)) new).
Proof.
  destruct s as [c d h i fs q x sid]. intros (Ht & Hl & Hr & Hrest). unfold holding_written, committed, on_holding_registers, zoom.
  cbn [holding_registers]. destruct new as [h'|e| |]; cbn; try done; [|by intros ->].
  intros (-> & Hu & Hlen). eexists. split; [done|]. cbn. split; [|done]. rewrite Hlen. destruct_and!. by split_and!.
Qed.

Section CoilWrites.
Context (c : BitTable.t) (Hc : table_ok c) (Hl : BitTable.len c ≤ MAX_TABLE_SIZE) (a : Z) (Ha : is_u16 a).

Lemma write_packed_written q packed : is_u16 q → blen packed = div_ceil q 8 →
  coils_written (BitTable.write_packed a q packed) c (replace_at (bits_of c) a (unpack_bits q packed)).
Proof.
  intros Hq Hp. unfold replace_at. pose proof (blen_bits_of c Hc) as Hb. pose proof Hc as (_ & Hlen & _).
  rewrite Hb, blen_unpack_bits by lia. destruct (Z.ltb_spec (BitTable.len c) (a + q)); cbn [coils_written].
  - unfold BitTable.write_packed. unfold st_bind at 1, st_get. by rewrite st_bind_lift, check_range_Err by lia.
  - destruct (write_packed_list c Hc a ltac:(lia) q packed) as (c' & -> & Hok & Hbits); [lia..|done|].
    exists c'. split_and!; [done..|]. rewrite blen_splice; rewrite ?blen_unpack_bits; lia.
Qed.
Lemma write_bits_written values : blen values ≤ u16_max →
  coils_written (BitTable.write_bits a values) c (replace_at (bits_of c) a values).
Proof.
  intros Hq. unfold replace_at. pose proof (blen_bits_of c Hc) as Hb. pose proof Hc as (_ & Hlen & _).
  rewrite Hb. destruct (Z.ltb_spec (BitTable.len c) (a + blen values)); cbn [coils_written].
  - unfold BitTable.write_bits. unfold st_bind at 1, st_get. by rewrite st_bind_lift, check_range_Err by lia.
  - destruct (write_bits_list c Hc a ltac:(lia) values) as (c' & -> & Hok & Hbits); [lia|].
    exists c'. split_and!; [done..|]. rewrite blen_splice; lia.
Qed.
Lemma write_coil_written value :
  coils_written (coils <- st_get;; st_lift (InMemoryStore.check_range a 1 (BitTable.len coils));;; BitTable.set a value)
    c (replace_at (bits_of c) a [value]).
Proof.
  unfold replace_at. pose proof (blen_bits_of c Hc) as Hb. pose proof Hc as (_ & Hlen & _). rewrite Hb.
  change (blen [value]) with 1. unfold coils_written. rewrite !st_bind_get, !st_bind_lift, !memory_check_range by lia.
  destruct (Z.ltb_spec (BitTable.len c) (a + 1)); [done|].
  destruct (set_list c Hc a ltac:(lia) (E := Exc) value) as (c' & -> & Hok & Hbits); [lia|].
  exists c'. split_and!; [done..|]. rewrite blen_splice; change (blen [value]) with 1; lia.
Qed.
End CoilWrites.

Section RegisterWrites.
Context (h : list Z) (Hh : u16s h) (Hl : blen h ≤ MAX_TABLE_SIZE) (a : Z) (Ha : is_u16 a).

(** Guarded by the range check, an action that splices [v] in *)
Lemma holding_write m v : blen v ≤ u16_max → u16s v →
  (a + blen v ≤ blen h → m h = (Ok tt, splice a v h)) →
  holding_written (regs <- st_get;; st_lift (InMemoryStore.check_range a (blen v) (blen regs));;; m) h (replace_at h a v).
Proof.
  intros Hv Hu Hm. pose proof (blen_nonneg v). unfold holding_written, replace_at.
  unfold u16_max in *. pose proof (blen_nonneg h). rewrite !st_bind_get, !st_bind_lift, !memory_check_range by lia.
  destruct (Z.ltb_spec (blen h) (a + blen v)); [done|]. split_and!; [by apply Hm|by apply splice_Forall|apply blen_splice; lia].
Qed.
Lemma be_write bs q : bytes_ok bs → is_u16 q → blen bs = q * 2 →
  holding_written (regs <- st_get;; st_lift (InMemoryStore.check_range a q (blen regs));;;
    assign_be_slice a (a + q) (chunks_exact 2 bs)) h (replace_at h a (be_words bs)).
Proof.
  intros Hb Hq Hlen. pose proof (blen_mod_2 bs q Hlen) as Hm. pose proof (blen_be_words bs Hb Hm) as Hw.
  pose proof (be_words_u16 bs Hb Hm) as Hu. replace q with (blen (be_words bs)) by lia. rewrite chunks_exact_be by done.
  apply holding_write; [unfold u16_max; lia|done|]. intros. apply assign_be_slice_words; done || lia.
Qed.
Lemma word_write x : is_u16 x →
  holding_written (regs <- st_get;; st_lift (InMemoryStore.check_range a 1 (blen regs));;; buf_set a x) h (replace_at h a [x]).
Proof.
  intros Hx. apply (holding_write _ [x]); [done|by constructor|]. change (blen [x]) with 1. intros.
  apply buf_set_splice. lia.
Qed.
Lemma masked_u16 x am om : is_u16 x → is_u16 am → is_u16 om → is_u16 (masked x am om).
Proof.
  intros Hx Ham Hom. unfold masked, u16_not.
  assert (∀ y, 0 ≤ y → (∀ i, 16 ≤ i → Z.testbit y i = false) → is_u16 y) as Hbound.
  { intros y Hy Hi. destruct (Z_lt_le_dec y 65536); [lia|]. exfalso.
    assert (16 ≤ Z.log2 y) as Hlog by (apply Z.log2_le_pow2; lia). specialize (Hi _ Hlog).
    rewrite Z.bit_log2 in Hi by lia. done. }
  assert (∀ y i, is_u16 y → 16 ≤ i → Z.testbit y i = false) as Hhigh.
  { intros y i Hy Hi. destruct (decide (y = 0)) as [->|]; [apply Z.testbit_0_l|]. apply Z.bits_above_log2; [lia|].
    apply Z.log2_lt_pow2; [lia|]. assert (2 ^ 16 ≤ 2 ^ i) by (apply Z.pow_le_mono_r; lia). lia. }
  apply Hbound; [apply Z.lor_nonneg; split; apply Z.land_nonneg; lia|].
  intros i Hi. by rewrite Z.lor_spec, !Z.land_spec, (Hhigh x), (Hhigh om) by done.
Qed.
Lemma mask_write am om : is_u16 am → is_u16 om →
  holding_written (regs <- st_get;; st_lift (InMemoryStore.check_range a 1 (blen regs));;;
      current <- st_lift (idx regs a);; buf_set a (masked current am om)) h
    (let? cur := select h a 1 in replace_at h a [masked (nth 0 cur 0) am om]).
Proof.
  intros Ham Hom. pose proof (blen_nonneg h). unfold select. unfold holding_written.
  rewrite !st_bind_get, !st_bind_lift, !memory_check_range by lia. destruct (Z.ltb_spec (blen h) (a + 1)); [done|]. cbn [rbind].
  destruct (get_lt_is_Some h a) as [x Hx]; [lia|]. rewrite (proj2 (idx_Ok h a x) Hx).
  assert (nth 0 (sublist a 1 h) 0 = x) as ->.
  { pose proof (get_sublist a 1 h 0 ltac:(lia) ltac:(lia)) as Hg. rewrite Z.add_0_r, Hx in Hg.
    unfold get in Hg. cbn in Hg. by destruct (sublist a 1 h); simplify_eq/=. }
  assert (is_u16 x) as Hxu.
  { unfold get in Hx. replace (0 <=? a) with true in Hx by lia. by apply (Forall_lookup_1 _ _ _ _ Hh Hx). }
  unfold replace_at. change (blen [_]) with 1. replace (blen h <? a + 1) with false by lia. rewrite buf_set_splice by lia.
  split_and!; [done|apply splice_Forall; [done|constructor; [by apply masked_u16|constructor]]|].
  apply blen_splice; change (blen [_]) with 1; lia.
Qed.
End RegisterWrites.

(** ** Files *)
Definition padded (file : list Z) (n : Z) : list Z :=
  if blen file <? n then resize (Z.to_nat n) 0 file else file.

Lemma padded_spec file n : u16s file → blen file ≤ FileRecord.RECORD_COUNT → 0 ≤ n ≤ FileRecord.RECORD_COUNT →
  u16s (padded file n) ∧ n ≤ blen (padded file n) ≤ FileRecord.RECORD_COUNT.
Proof.
  intros Hu Hl Hn. unfold padded. destruct (Z.ltb_spec (blen file) n); [|done].
  split; [apply Forall_resize; [lia|done]|]. unfold blen. rewrite length_resize. lia.
Qed.
(** The body of a file write: extend the file, then store the records *)
Lemma file_body {E} r v file (store : ST (list Z) E unit) : 0 ≤ r →
  (store (padded file (r + blen v)) = (Ok tt, splice r v (padded file (r + blen v)))) →
  (file <- st_get;;
   (if blen file <? r + blen v then st_modify (resize (Z.to_nat (r + blen v)) 0) else st_ret tt);;; store) file
  = (Ok tt, splice r v (padded file (r + blen v))).
Proof.
  intros Hr Hs. rewrite st_bind_get. unfold padded in *. by destruct (blen file <? r + blen v).
Qed.
(** A write to a file that passed the range check *)
Lemma file_committed s f r v m : store_ok s → u16s v → is_u16 r → blen v ≤ u16_max →
  FileRecord.validate_range f r (blen v) = Ok tt →
  (∀ file, r + blen v ≤ blen (padded file (r + blen v)) →
     m file = (Ok tt, splice r v (padded file (r + blen v)))) →
  committed s (on_files (entry_or_default f m) s)
    (rmap (λ fs, Tables.set_files fs (tables_of s)) (replace_records (files s) f r v)).
Proof.
  destruct s as [c d h i fs q x sid]. intros (Ht & Hl & Hr & (Hf & Hq) & Hx) Hv Hr16 Hv16 Hval Hm.
  pose proof (blen_nonneg v) as Hn. unfold u16_max in *. rewrite validate_range_spec in Hval by lia.
  destruct ((f <? 1) || (blen v =? 0) || (10000 <? r + blen v)) eqn:Hc; [done|].
  unfold replace_records. cbn [files]. rewrite validate_range_spec, Hc by lia. cbn [rbind rmap committed].
  assert (u16s (default [] (fs !! f)) ∧ blen (default [] (fs !! f)) ≤ FileRecord.RECORD_COUNT) as [Hfu Hfl].
  { destruct (fs !! f) as [file|] eqn:He; [apply (Hf _ _ He)|]. split; [constructor|done]. }
  destruct (padded_spec _ (r + blen v) Hfu Hfl) as [Hpu Hpl]; [unfold FileRecord.RECORD_COUNT; lia|].
  unfold on_files, entry_or_default, zoom. cbn [files]. rewrite Hm by lia. eexists. split; [done|]. split; [|done].
  do 3 (split; [done|]). split; [split; [|done]|done]. apply map_Forall_insert_2; [|done]. split; [by apply splice_Forall|].
  rewrite blen_splice; lia.
Qed.
Lemma write_file_committed s f r n bs : store_ok s → bytes_ok bs → is_u16 r → is_u16 n → blen bs = n * 2 →
  committed s (InMemoryStore.write_file_record_be f r n bs s)
    (rmap (λ fs, Tables.set_files fs (tables_of s)) (replace_records (files s) f r (be_words bs))).
Proof.
  intros Hs Hb Hr Hn Hlen. pose proof (blen_mod_2 bs n Hlen) as Hm. pose proof (blen_be_words bs Hb Hm) as Hw.
  pose proof (be_words_u16 bs Hb Hm) as Hu. unfold write_file_record_be.
  replace (negb (blen bs =? n * 2)) with false by lia. replace n with (blen (be_words bs)) by lia.
  rewrite st_bind_lift. destruct (FileRecord.validate_range f r (blen (be_words bs))) as [[]|e| |] eqn:Hval;
    [|by unfold replace_records; rewrite Hval|by rewrite validate_range_spec in Hval by lia; case_match..].
  apply file_committed; [done..|unfold u16_max; lia|done|]. intros file Hroom.
  unfold checked_add, usize_max. replace (_ <? r + blen (be_words bs)) with false by lia. cbn [ok_or]. rewrite st_bind_lift.
  apply file_body; [lia|]. rewrite chunks_exact_be by done. by apply assign_be_slice_words; [done|lia|].
Qed.
Lemma write_file_values_committed s f r v : store_ok s → u16s v → is_u16 r → blen v ≤ u16_max →
  committed s (InMemoryStore.write_file_record f r v s)
    (rmap (λ fs, Tables.set_files fs (tables_of s)) (replace_records (files s) f r v)).
Proof.
  intros Hs Hv Hr Hn. unfold write_file_record. pose proof (blen_nonneg v). rewrite st_bind_lift.
  destruct (FileRecord.validate_range f r (blen v)) as [[]|e| |] eqn:Hval;
    [|by unfold replace_records; rewrite Hval|by rewrite validate_range_spec in Hval by (unfold u16_max in *; lia); case_match..].
  apply file_committed; [done..|]. intros file Hroom. unfold checked_add, usize_max, u16_max in *.
  replace (_ <? r + blen v) with false by lia. cbn [ok_or]. rewrite st_bind_lift.
  apply file_body; [lia|]. by apply buf_copy_splice; [lia|].
Qed.

(** ** Read/write in one step *)

(** The registers after the write, and the part read from them *)
Definition exchange (h : list Z) (wa : Z) (ws : list Z) (ra n : Z) : res Exc (list Z * list Z) :=
  let? h' := replace_at h wa ws in
  let? part := select h' ra n in
  Ok (h', part).
Definition exchanged (s : t) (out : Prelude.bytes) (n : Z) (r : res Exc Z * (t * Prelude.bytes))
    (new : res Exc (list Z * list Z)) : Prop :=
  match new with
  | Ok (h', part) => ∃ s', r = (Ok n, (s', overlay (words_be part) out)) ∧ store_ok s' ∧
      tables_of s' = Tables.set_holding h' (tables_of s)
  | Err e => r = (Err e, (s, out))
  | Panic | OutOfFuel => False
  end.
Lemma read_write_exchanged s out ra rq wa wq bs : store_ok s → bytes_ok bs →
  is_u16 ra → is_u16 wa → 1 ≤ rq ≤ MAX_RW_READ_REGISTERS → 1 ≤ wq ≤ MAX_RW_WRITE_REGISTERS →
  blen bs = wq * 2 → rq * 2 ≤ blen out →
  exchanged s out rq (InMemoryStore.atomic_read_write_registers_be ra rq wa wq bs (s, out))
    (exchange (holding_registers s) wa (be_words bs) ra rq).
Proof.
  intros Hs Hb Hra Hwa Hrq Hwq Hlen Hout. pose proof (blen_mod_2 bs wq Hlen) as Hm. pose proof (blen_be_words bs Hb Hm) as Hw.
  pose proof (be_words_u16 bs Hb Hm) as Hu. unfold MAX_RW_READ_REGISTERS, MAX_RW_WRITE_REGISTERS in *.
  destruct s as [c d h i fs q x sid]. pose proof Hs as (_ & (_ & _ & Hl & _) & (Hh & _) & _). cbn [holding_registers].
  unfold atomic_read_write_registers_be. unfold st_bind at 1, on_buf at 1, st_get at 1. cbn [fst snd].
  rewrite st_bind_lift. unfold validate_atomic_read_write_buffers, MAX_RW_READ_REGISTERS, MAX_RW_WRITE_REGISTERS.
  replace (_ || _ || _ || _) with false by lia. replace (_ || _) with false by lia.
  unfold reading at 1. unfold st_bind at 1 2, on_store at 1, st_get at 1, st_ret at 1. cbn [fst snd holding_registers].
  pose proof (blen_nonneg h). unfold exchange, replace_at, MAX_TABLE_SIZE in *.
  rewrite !st_bind_lift, !memory_check_range by (unfold MAX_TABLE_SIZE; lia). replace (blen (be_words bs)) with wq by lia.
  destruct (Z.ltb_spec (blen h) (wa + wq)); [done|]. cbn [rbind]. unfold select.
  rewrite (blen_splice wa (be_words bs) h) by lia.
  destruct (Z.ltb_spec (blen h) (ra + rq)); [done|]. cbn [rbind exchanged].
  unfold st_bind at 1, on_store at 1, on_holding_registers at 1, zoom at 1. cbn [fst snd holding_registers].
  rewrite chunks_exact_be by done. replace wq with (blen (be_words bs)) by lia. rewrite assign_be_slice_words by (done || lia).
  unfold reading. unfold st_bind at 1 2, on_store, st_get, st_ret at 1. cbn [fst snd holding_registers].
  set (h' := splice wa (be_words bs) h). assert (blen h' = blen h) as Hl' by (apply blen_splice; lia).
  rewrite st_bind_lift, slice_sublist by lia. rewrite pack_fill. unfold fill.
  rewrite words_be_length, blen_sublist by lia. replace (blen out <? rq * 2) with false by lia.
  eexists. split; [done|]. split; [|done]. destruct Hs as (Ht & ? & ? & ? & ?). cbn. rewrite Hl'. destruct_and!.
  split_and!; try done. by apply splice_Forall.
Qed.

(** * The contract of the in-memory store *)

(** The validated payload of a multiple write *)
Definition coil_payload (q : Z) (packed : Prelude.bytes) : res Exc (list bool) :=
  if (1 <=? q) && (q <=? MAX_WRITE_COILS) && (blen packed =? div_ceil q 8)
  then Ok (unpack_bits q packed) else Err ExceptionCode.IllegalDataValue.
Definition register_payload (q : Z) (bs : Prelude.bytes) : res Exc (list Z) :=
  if (1 <=? q) && (q <=? MAX_WRITE_REGISTERS) && (blen bs =? q * 2)
  then Ok (be_words bs) else Err ExceptionCode.IllegalDataValue.
Definition fifo_image (values : list Z) : res Exc Prelude.bytes :=
  if MAX_FIFO_VALUES <? blen values then Err ExceptionCode.IllegalDataValue else Ok (words_be values).

Lemma write_coils_packed_committed s a q packed : store_ok s → is_u16 a → is_u16 q →
  committed s (write_coils_packed a q packed s)
    (let? vs := coil_payload q packed in
     rmap (λ c, Tables.set_coils c (tables_of s)) (replace_at (bits_of (coils s)) a vs)).
Proof.
  intros Hs Ha Hq. pose proof Hs as Hs'. destruct s as [c d h i fs qs x sid], Hs as ([Hc _] & (Hl & _) & _). cbn [coils].
  unfold write_coils_packed, coil_payload, validate_packed_coils. rewrite st_bind_lift.
  destruct ((1 <=? q) && (q <=? MAX_WRITE_COILS) && (blen packed =? div_ceil q 8)) eqn:Hv.
  - replace (_ || _) with false by lia. replace (negb _) with false by lia. cbn [rbind].
    apply (coils_committed (mk c d h i fs qs x sid)); [done|]. apply write_packed_written; done || lia.
  - destruct ((q =? 0) || (MAX_WRITE_COILS <? q)) eqn:H1; [done|]. by replace (negb _) with true by lia.
Qed.
Lemma write_registers_be_committed s a q bs : store_ok s → bytes_ok bs → is_u16 a → is_u16 q →
  committed s (write_registers_be a q bs s)
    (let? vs := register_payload q bs in
     rmap (λ h, Tables.set_holding h (tables_of s)) (replace_at (holding_registers s) a vs)).
Proof.
  intros Hs Hb Ha Hq. pose proof Hs as Hs'. destruct s as [c d h i fs qs x sid], Hs as (_ & (_ & _ & Hl & _) & (Hh & _) & _).
  unfold write_registers_be, register_payload, validate_register_values_be. rewrite st_bind_lift. cbn [holding_registers].
  destruct ((1 <=? q) && (q <=? MAX_WRITE_REGISTERS) && (blen bs =? q * 2)) eqn:Hv.
  - replace (_ || _) with false by lia. replace (negb _) with false by lia. cbn [rbind].
    apply (holding_committed (mk c d h i fs qs x sid)); [done|]. apply be_write; done || lia.
  - destruct ((q =? 0) || (MAX_WRITE_REGISTERS <? q)) eqn:H1; [done|]. by replace (negb _) with true by lia.
Qed.

Section Contract.
Context (s : t) (Hs : store_ok s).

Lemma reads_refine a q out : is_u16 a → is_u16 q →
  read_coils_packed a q (s, out) = fill s out q (rmap pack_bits (select (bits_of (coils s)) a q)) ∧
  read_discrete_inputs_packed a q (s, out) = fill s out q (rmap pack_bits (select (bits_of (discrete_inputs s)) a q)) ∧
  read_holding_registers_be a q (s, out) = fill s out q (rmap words_be (select (holding_registers s) a q)) ∧
  read_input_registers_be a q (s, out) = fill s out q (rmap words_be (select (input_registers s) a q)).
Proof.
  intros Ha Hq. destruct s as [c d h i fs qs x sid], Hs as ([Hc Hd] & (Hcl & Hdl & Hhl & Hil) & _).
  split_and!; [by apply read_packed_fill..|by apply read_be_fill|by apply read_be_fill].
Qed.
Lemma read_fifo_refine a out : read_fifo_queue_be a (s, out) =
  match fifo_queues s !! a with
  | Some values => fill s out (blen values) (fifo_image values)
  | None => (Err ExceptionCode.IllegalDataAddress, (s, out))
  end.
Proof.
  unfold read_fifo_queue_be, reading. unfold st_bind at 1 2, on_store, st_get, st_ret at 1. cbn [fst snd].
  rewrite st_bind_lift. destruct (fifo_queues s !! a) as [values|]; [|done]. cbn [ok_or]. unfold fifo_image.
  destruct (MAX_FIFO_VALUES <? blen values); [done|]. apply pack_fill.
Qed.
Lemma single_writes_commit a : is_u16 a →
  (∀ b, committed s (write_coil a b s)
     (rmap (λ c, Tables.set_coils c (tables_of s)) (replace_at (bits_of (coils s)) a [b]))) ∧
  (∀ x, is_u16 x → committed s (write_register a x s)
     (rmap (λ h, Tables.set_holding h (tables_of s)) (replace_at (holding_registers s) a [x]))) ∧
  (∀ am om, is_u16 am → is_u16 om → committed s (atomic_mask_write_register a am om s)
     (rmap (λ h, Tables.set_holding h (tables_of s))
       (let? cur := select (holding_registers s) a 1 in
        replace_at (holding_registers s) a [masked (nth 0 cur 0) am om]))).
Proof.
  intros Ha. pose proof Hs as Hs'. destruct s as [c d h i fs qs x sid], Hs as ([Hc _] & (Hl & _ & Hhl & _) & (Hh & _) & _).
  split_and!.
  - intros b. apply (coils_committed (mk c d h i fs qs x sid)); [done|]. by apply write_coil_written.
  - intros y Hy. apply (holding_committed (mk c d h i fs qs x sid)); [done|]. by apply word_write.
  - intros am om Ham Hom. apply (holding_committed (mk c d h i fs qs x sid)); [done|]. by apply mask_write.
Qed.
End Contract.

(** A store of 40 coils, 10 holding registers and one queue, for the examples *)
Definition small_config : StoreConfig.t := StoreConfig.mk 40 16 10 4.
Definition small_store : InMemoryStore.t :=
  mk (BitTable.new 40) (BitTable.new 16) (replicate 10 0) (replicate 4 7) ∅ {[ 5 := [1; 2] ]} 0x55 default_server_id.

Lemma table_new_ok n : 0 ≤ n ≤ MAX_TABLE_SIZE → table_ok (BitTable.new n).
Proof. intros. apply new_ok. unfold MAX_TABLE_SIZE, usize_max in *. lia. Qed.
Lemma small_store_ok : store_ok small_store.
Proof.
  assert (u16s (replicate 10 0) ∧ u16s (replicate 4 7)) as [? ?] by (split; apply Forall_replicate; lia).
  unfold store_ok, small_store, files_ok, fifos_ok. split_and!; try done; try lia; try (by apply table_new_ok).
  - apply map_Forall_singleton. repeat constructor; lia.
  - repeat constructor; unfold byte_ok; lia.
Qed.
(** ** Overrides and defaults *)

(** A method that reads a part of a table into a buffer that can hold it *)
Definition reads_part {A} (m : ST (t * list A) Exc Z) (s : t) (n : Z) (part : res Exc (list A)) : Prop :=
  ∀ buf, n ≤ blen buf →
    match part with
    | Ok v => m (s, buf) = (Ok n, (s, overlay v buf)) ∧ blen v = n
    | Err e => m (s, buf) = (Err e, (s, buf))
    | Panic | OutOfFuel => False
    end.
Lemma slice_to_overlay {E A} (v buf : list A) n : n = blen v → blen v ≤ blen buf →
  slice_to (E:=E) (overlay v buf) n = Ok v.
Proof.
  intros -> Hl. pose proof (blen_nonneg v). rewrite slice_to_Ok by (rewrite blen_overlay; lia). f_equal. unfold overlay, blen.
  by rewrite Nat2Z.id, take_app_length.
Qed.
(** A default read through a scratch buffer of [m] entries *)
Lemma default_read {A} (scratch : list A) (read : ST (t * list A) Exc Z) (pack : list A → ST Prelude.bytes Exc unit)
    (image : list A → Prelude.bytes) s n part out : 0 ≤ n ≤ blen scratch → reads_part read s n part →
  (∀ v, part = Ok v → (on_buf (pack v);;; st_ret n) (s, out) = fill s out n (Ok (image v))) →
  (r <- on_store (with_scratch scratch read);;
   let '(count, values) := r in
   if (blen values <? count) || (n <? count) then st_err ExceptionCode.ServerDeviceFailure else
   values <- st_lift (slice_to values count);;
   on_buf (pack values);;; st_ret count) (s, out) = fill s out n (rmap image part).
Proof.
  intros Hn Hr Hp. specialize (Hr scratch ltac:(lia)). unfold st_bind at 1, on_store at 1, with_scratch at 1.
  destruct part as [v|e| |]; try done; cbn [fst snd].
  - destruct Hr as [-> Hv]. cbn [rmap rbind]. cbn zeta beta iota. rewrite blen_overlay by lia.
    replace ((blen scratch <? n) || (n <? n)) with false by lia. rewrite st_bind_lift.
    rewrite slice_to_overlay by lia. by apply Hp.
  - by rewrite Hr.
Qed.
Lemma pack_coils_fill {S} (s : S) bs out n :
  (on_buf (pack_coils bs);;; st_ret n) (s, out) = fill s out n (Ok (pack_bits bs)).
Proof.
  unfold fill, st_bind, on_buf. cbn [fst snd]. rewrite blen_pack_bits.
  destruct (Z.ltb_spec (blen out) (div_ceil (blen bs) 8)); [by rewrite pack_coils_Err|by rewrite pack_coils_Ok].
Qed.
Lemma read_bits_part (proj : t → BitTable.t) s a q : table_ok (proj s) → BitTable.len (proj s) ≤ MAX_TABLE_SIZE →
  is_u16 a → is_u16 q →
  reads_part (table <- reading proj;; on_buf (BitTable.read_bits table a q)) s q (select (bits_of (proj s)) a q).
Proof.
  intros Hok Hl Ha Hq buf Hbuf. pose proof Hok as (_ & Hlen & _). unfold select. rewrite blen_bits_of by done.
  unfold reading. unfold st_bind at 1 2 3 4, on_store, st_get, st_ret, on_buf. cbn [fst snd].
  destruct (Z.ltb_spec (BitTable.len (proj s)) (a + q)).
  - unfold BitTable.read_bits. by rewrite st_bind_lift, check_range_Err by lia.
  - rewrite read_bits_list by (done || lia). split; [done|]. apply blen_sublist; rewrite ?blen_bits_of; done || lia.
Qed.
Lemma read_words_part (proj : t → list Z) s a q : blen (proj s) ≤ MAX_TABLE_SIZE → is_u16 a → is_u16 q →
  reads_part (regs <- reading proj;; st_lift (InMemoryStore.check_range a q (blen regs));;;
     part <- st_lift (slice regs a (a + q));; on_buf (buf_copy 0 q part);;; st_ret q) s q (select (proj s) a q).
Proof.
  intros Hl Ha Hq buf Hbuf. pose proof (blen_nonneg (proj s)). unfold select.
  destruct (Z.ltb_spec (blen (proj s)) (a + q)) as [Hlt|Hge].
  all: unfold reading; unfold st_bind at 1 2, on_store, st_get, st_ret at 1; cbn [fst snd];
    rewrite st_bind_lift, memory_check_range by lia.
  - by replace (blen (proj s) <? a + q) with true by lia.
  - replace (blen (proj s) <? a + q) with false by lia. rewrite st_bind_lift, slice_sublist by lia.
    pose proof (blen_sublist a q (proj s) ltac:(lia) ltac:(lia) ltac:(lia)) as Hs. split; [|done].
    unfold st_bind, on_buf. cbn [fst snd]. replace q with (0 + blen (sublist a q (proj s))) at 1 by lia.
    rewrite buf_copy_splice, splice_front by lia. done.
Qed.
(** The records of a file, however many *)
Definition select_file (files : gmap Z (list Z)) (f r n : Z) : res Exc (list Z) :=
  if (f <? 1) || (n =? 0) || (10000 <? r + n) then Err ExceptionCode.IllegalDataAddress else
  match files !! f with
  | None => Err ExceptionCode.IllegalDataAddress
  | Some file => select file r n
  end.
Lemma select_records_file files f r n : is_u16 r → is_u16 n →
  select_records files f r n = if MAX_FILE_RECORD_REGISTERS <? n then Err ExceptionCode.IllegalDataAddress else select_file files f r n.
Proof.
  intros Hr Hn. unfold select_records, select_file. rewrite validate_range_spec by done.
  destruct ((f <? 1) || (n =? 0) || (10000 <? r + n)); cbn [rbind]; by destruct (MAX_FILE_RECORD_REGISTERS <? n).
Qed.
Lemma read_file_part s f r n : is_u16 r → is_u16 n →
  reads_part (read_file_record f r n) s n (select_file (files s) f r n).
Proof.
  intros Hr Hn buf Hbuf. pose proof (validate_range_spec f r n Hr Hn) as Hv. unfold select_file.
  assert (∀ file, files s !! f = Some file → FileRecord.validate_range f r n = Ok tt →
    read_file_record f r n (s, buf) = if blen file <? r + n then (Err ExceptionCode.IllegalDataAddress, (s, buf)) else
      (part <- st_lift (slice file r (r + n));; on_buf (buf_copy 0 n part);;; st_ret n) (s, buf)) as Hrun.
  { intros file Hf Hval. unfold read_file_record. rewrite st_bind_lift, Hval. unfold reading.
    unfold st_bind at 1 2, on_store, st_get at 1, st_ret at 1. cbn [fst snd]. rewrite st_bind_lift, Hf. cbn [ok_or].
    unfold checked_add, usize_max. replace (_ <? r + n) with false by lia. rewrite st_bind_lift. cbn [ok_or].
    unfold st_bind at 1, on_buf at 1, st_get at 1. cbn [fst snd]. replace (blen buf <? n) with false by lia.
    rewrite orb_false_r. by destruct (blen file <? r + n). }
  destruct ((f <? 1) || (n =? 0) || (10000 <? r + n)) eqn:Hc.
  { unfold read_file_record. by rewrite st_bind_lift, Hv. }
  destruct (files s !! f) as [file|] eqn:Hf.
  2:{ unfold read_file_record. rewrite st_bind_lift, Hv. unfold reading. unfold st_bind at 1 2, on_store, st_get at 1, st_ret at 1.
      cbn [fst snd]. by rewrite st_bind_lift, Hf. }
  unfold select. destruct (Z.ltb_spec (blen file) (r + n)); rewrite (Hrun file) by done.
  { by replace (blen file <? r + n) with true by lia. }
  replace (blen file <? r + n) with false by lia. rewrite st_bind_lift, slice_sublist by lia.
  pose proof (blen_sublist r n file ltac:(lia) ltac:(lia) ltac:(lia)) as Hs. split; [|done].
  unfold st_bind, on_buf. cbn [fst snd]. replace n with (0 + blen (sublist r n file)) at 1 by lia.
  by rewrite buf_copy_splice, splice_front by lia.
Qed.

Lemma run_written_unique l l1 l2 a n v v' : run_written l l1 a n v → run_written l l2 a n v' →
  (∀ m, 0 ≤ m < n → v m = v' m) → l1 = l2.
Proof.
  intros (Ho1 & Hl1 & Hb1) (Ho2 & Hl2 & Hb2) Hv. apply list_eq_get; [lia|]. intros k Hk.
  destruct (get_lt_is_Some l1 k Hk) as [x Hx]. destruct (get_lt_is_Some l2 k) as [y Hy]; [lia|]. rewrite Hx, Hy. f_equal.
  apply u8_ext; [exact (get_byte_ok l1 k x Ho1 Hx)|exact (get_byte_ok l2 k y Ho2 Hy)|]. intros j Hj.
  rewrite <-(bit_get l1 k j x), <-(bit_get l2 k j y), Hb1, Hb2 by (done || lia).
  destruct ((a <=? k * 8 + j) && (k * 8 + j <? a + n)) eqn:He; [|done]. apply Hv. lia.
Qed.
Lemma write_packed_bits c a q packed : table_ok c → is_u16 a → 0 ≤ q ≤ u16_max → blen packed = div_ceil q 8 →
  BitTable.write_packed a q packed c = BitTable.write_bits a (unpack_bits q packed) c.
Proof.
  intros Hc Ha Hq Hp. pose proof (blen_unpack_bits q packed ltac:(lia)) as Hu. pose proof Hc as (_ & Hl & _).
  destruct (Z_lt_le_dec (BitTable.len c) (a + q)).
  - unfold BitTable.write_packed, BitTable.write_bits. rewrite !st_bind_get, !st_bind_lift, Hu, check_range_Err by lia. done.
  - destruct (write_packed_spec c Hc a ltac:(lia) q packed) as (l1 & -> & H1); [lia..|done|].
    destruct (write_bits_spec c Hc a ltac:(lia) (unpack_bits q packed)) as (l2 & -> & H2); [lia|]. rewrite Hu in H2.
    do 2 f_equal. eapply run_written_unique; [done..|]. intros m Hm. cbn. by rewrite get_unpack_bits.
Qed.
Lemma default_write_coils s a q packed : store_ok s → is_u16 a → is_u16 q →
  write_coils_packed a q packed s = Default.write_coils_packed write_coils a q packed s.
Proof.
  intros Hs Ha Hq. unfold write_coils_packed, Default.write_coils_packed. rewrite st_bind_lift.
  destruct ((1 <=? q) && (q <=? MAX_WRITE_COILS) && (blen packed =? div_ceil q 8)) eqn:Hv.
  - rewrite unpack_packed_coils_Ok by (rewrite ?blen_replicate; unfold MAX_WRITE_COILS in *; lia).
    unfold validate_packed_coils. replace (_ || _) with false by lia. replace (negb _) with false by lia.
    rewrite st_bind_lift. pose proof (blen_unpack_bits q packed ltac:(lia)) as Hu.
    rewrite slice_to_overlay by (rewrite ?Hu, ?blen_replicate; unfold MAX_WRITE_COILS in *; lia).
    unfold write_coils, on_coils, zoom. rewrite write_packed_bits; [done|by destruct s, Hs as ([? _] & _)|done|unfold u16_max; lia|lia].
  - assert (validate_packed_coils q packed = Err ExceptionCode.IllegalDataValue) as He.
    { unfold validate_packed_coils. destruct ((q =? 0) || (MAX_WRITE_COILS <? q)) eqn:H1; [done|]. by replace (negb _) with true by lia. }
    rewrite He. unfold unpack_packed_coils. by rewrite st_bind_lift, He.
Qed.
Lemma default_write_registers s a q bs : store_ok s → bytes_ok bs → is_u16 a → is_u16 q →
  write_registers_be a q bs s = Default.write_registers_be write_registers a q bs s.
Proof.
  intros Hs Hb Ha Hq. unfold write_registers_be, Default.write_registers_be. rewrite st_bind_lift.
  destruct ((1 <=? q) && (q <=? MAX_WRITE_REGISTERS) && (blen bs =? q * 2)) eqn:Hv.
  - assert (blen bs = q * 2) as Hlen by lia. pose proof (blen_mod_2 bs q Hlen) as Hm. pose proof (blen_be_words bs Hb Hm) as Hw.
    pose proof (be_words_u16 bs Hb Hm) as Hu.
    rewrite unpack_register_values_be_Ok by (rewrite ?blen_replicate; unfold MAX_WRITE_REGISTERS in *; done || lia).
    unfold validate_register_values_be. replace (_ || _) with false by lia. replace (negb _) with false by lia.
    rewrite st_bind_lift. replace q with (blen (be_words bs)) by lia.
    rewrite slice_to_overlay by (rewrite ?blen_replicate; unfold MAX_WRITE_REGISTERS in *; lia).
    unfold write_registers, on_holding_registers, zoom. rewrite !st_bind_get, !st_bind_lift.
    destruct s as [c d h i fs qs x sid], Hs as (_ & (_ & _ & Hhl & _) & _). cbn [holding_registers]. pose proof (blen_nonneg h).
    rewrite memory_check_range by lia. destruct (Z.ltb_spec (blen h) (a + blen (be_words bs))); [done|].
    rewrite chunks_exact_be, assign_be_slice_words, buf_copy_splice by (done || lia). done.
  - assert (validate_register_values_be q bs = Err ExceptionCode.IllegalDataValue) as He.
    { unfold validate_register_values_be. destruct ((q =? 0) || (MAX_WRITE_REGISTERS <? q)) eqn:H1; [done|]. by replace (negb _) with true by lia. }
    rewrite He. unfold unpack_register_values_be. by rewrite st_bind_lift, He.
Qed.
Lemma default_read_file s f r n out : store_ok s → is_u16 r → is_u16 n →
  read_file_record_be f r n (s, out) = Default.read_file_record_be read_file_record f r n (s, out).
Proof.
  intros Hs Hr Hn. rewrite read_file_fill, select_records_file by done. unfold Default.read_file_record_be. symmetry.
  destruct (Z.ltb_spec MAX_FILE_RECORD_REGISTERS n) as [Hgt|Hle].
  2: { apply default_read; [rewrite blen_replicate; lia|by apply read_file_part|]. intros. apply pack_fill. }
  - cbn [rmap rbind].
    unfold st_bind at 1, on_store at 1, with_scratch at 1. cbn [fst snd]. unfold read_file_record.
    rewrite st_bind_lift, validate_range_spec by done.
    destruct ((f <? 1) || (n =? 0) || (10000 <? r + n)); [done|]. cbn [rbind]. unfold reading.
    unfold st_bind at 1 2, on_store, st_get at 1, st_ret at 1. cbn [fst snd]. rewrite st_bind_lift.
    destruct (files s !! f) as [file|]; [|done]. cbn [ok_or]. unfold checked_add, usize_max.
    replace (_ <? r + n) with false by lia. rewrite st_bind_lift. cbn [ok_or].
    unfold st_bind at 1, on_buf at 1, st_get at 1. cbn [fst snd]. rewrite blen_replicate.
    unfold MAX_FILE_RECORD_REGISTERS in *. by replace ((_ <? _) || (_ <? n)) with true by lia.
Qed.
Lemma default_write_file s f r n bs : store_ok s → bytes_ok bs → is_u16 r → is_u16 n →
  write_file_record_be f r n bs s = Default.write_file_record_be write_file_record f r n bs s.
Proof.
  intros Hs Hb Hr Hn. unfold write_file_record_be, Default.write_file_record_be. destruct (negb (blen bs =? n * 2)) eqn:Hl; [done|].
  assert (blen bs = n * 2) as Hlen by lia. pose proof (blen_mod_2 bs n Hlen) as Hm. pose proof (blen_be_words bs Hb Hm) as Hw.
  pose proof (be_words_u16 bs Hb Hm) as Hu. rewrite chunks_exact_be by done. rewrite st_bind_lift, st_bind_lift, be_values_words by done.
  unfold write_file_record. rewrite st_bind_lift. replace n with (blen (be_words bs)) by lia.
  rewrite validate_range_spec by lia.
  destruct ((f <? 1) || (blen (be_words bs) =? 0) || (10000 <? r + blen (be_words bs))) eqn:Hc; [done|].
  unfold on_files, entry_or_default, zoom. unfold checked_add, usize_max.
  replace (_ <? r + blen (be_words bs)) with false by lia. cbn [ok_or]. rewrite !st_bind_lift.
  set (file := default [] (files s !! f)).
  assert (r + blen (be_words bs) ≤ blen (padded file (r + blen (be_words bs)))) as Hroom.
  { unfold padded. destruct (Z.ltb_spec (blen file) (r + blen (be_words bs))); [|done]. unfold blen. rewrite length_resize. lia. }
  rewrite !(file_body r (be_words bs)); [done|lia|by apply buf_copy_splice; [lia|]|lia|by apply assign_be_slice_words; [done|lia|]].
Qed.

(** The methods the in-memory store overrides for speed answer exactly what the
    default methods of the trait would answer on top of its basic methods (result,
    buffer and store alike), for every request the protocol allows: packed and
    big-endian reads up to the protocol limits, all packed and big-endian writes,
    file records, queues, identification and diagnostics. *)
Theorem memory_overrides_agree (s : InMemoryStore.t) (out : Prelude.bytes) : store_ok s →
  (∀ a q, is_u16 a → 0 ≤ q ≤ MAX_READ_COILS →
     read_coils_packed a q (s, out) = Default.read_coils_packed read_coils a q (s, out) ∧
     read_discrete_inputs_packed a q (s, out) = Default.read_discrete_inputs_packed read_discrete_inputs a q (s, out)) ∧
  (∀ a q, is_u16 a → 0 ≤ q ≤ MAX_READ_REGISTERS →
     read_holding_registers_be a q (s, out) = Default.read_holding_registers_be read_holding_registers a q (s, out) ∧
     read_input_registers_be a q (s, out) = Default.read_input_registers_be read_input_registers a q (s, out)) ∧
  (∀ a q bs, is_u16 a → is_u16 q → bytes_ok bs →
     write_coils_packed a q bs s = Default.write_coils_packed write_coils a q bs s ∧
     write_registers_be a q bs s = Default.write_registers_be write_registers a q bs s) ∧
  (∀ f r n bs, is_u16 r → is_u16 n → bytes_ok bs →
     read_file_record_be f r n (s, out) = Default.read_file_record_be read_file_record f r n (s, out) ∧
     write_file_record_be f r n bs s = Default.write_file_record_be write_file_record f r n bs s) ∧
  (∀ a, read_fifo_queue_be a (s, out) = Default.read_fifo_queue_be read_fifo_queue a (s, out)) ∧
  append_server_id (s, out) = Default.append_server_id report_server_id (s, out) ∧
  (∀ sub data, append_diagnostic_response sub data (s, out) =
     Default.append_diagnostic_response Default.diagnostic sub data (s, out)).
Proof.
  intros Hs. split_and!.
  - intros a q Ha Hq. unfold MAX_READ_COILS in *. destruct (reads_refine s Hs a q out) as (-> & -> & _); [lia..|].
    destruct s as [c d h i fs qs x sid], Hs as ([Hc Hd] & (Hcl & Hdl & _) & _).
    split; symmetry; (apply default_read; [rewrite blen_replicate; unfold MAX_READ_COILS, MAX_READ_DISCRETE_INPUTS; lia| |intros; apply pack_coils_fill]).
    + apply (read_bits_part coils); done || lia.
    + apply (read_bits_part discrete_inputs); done || lia.
  - intros a q Ha Hq. unfold MAX_READ_REGISTERS in *. destruct (reads_refine s Hs a q out) as (_ & _ & -> & ->); [lia..|].
    destruct s as [c d h i fs qs x sid], Hs as (_ & (_ & _ & Hhl & Hil) & _).
    split; symmetry; (apply default_read; [rewrite blen_replicate; unfold MAX_READ_REGISTERS; lia| |intros; apply pack_fill]).
    + apply (read_words_part holding_registers); done || lia.
    + apply (read_words_part input_registers); done || lia.
  - intros. split; [by apply default_write_coils|by apply default_write_registers].
  - intros. split; [by apply default_read_file|by apply default_write_file].
  - intros a. unfold read_fifo_queue_be, Default.read_fifo_queue_be, reading, read_fifo_queue.
    unfold st_bind, on_store, st_get, st_ret, st_lift. cbn [fst snd]. by destruct (fifo_queues s !! a).
  - done.
  - intros sub data. unfold append_diagnostic_response, Default.append_diagnostic_response, Default.diagnostic.
    by destruct sub.
Qed.
Lemma memory_overrides_agree_witness :
  write_coils_packed 6 5 [21] small_store = Default.write_coils_packed write_coils 6 5 [21] small_store.
Proof.
  destruct (memory_overrides_agree small_store [] small_store_ok) as (_ & _ & H & _).
  destruct (H 6 5 [21]) as [H1 _]; [lia|lia|repeat constructor; unfold byte_ok; lia|]. exact H1.
Defined.

(** ** Everything that changes a store *)
Inductive store_op : Type :=
  | SetInputRegister (a x : Z)
  | SetDiscreteInput (a : Z) (b : bool)
  | SetHoldingRegister (a x : Z)
  | SetCoil (a : Z) (b : bool)
  | SetFileRecord (f r x : Z)
  | SetFifoQueue (a : Z) (values : list Z)
  | SetExceptionStatus (x : Z)
  | SetServerId (data : Prelude.bytes)
  | WriteCoil (a : Z) (b : bool)
  | WriteCoils (a : Z) (values : list bool)
  | WriteCoilsPacked (a q : Z) (bs : Prelude.bytes)
  | WriteRegister (a x : Z)
  | WriteRegisters (a : Z) (values : list Z)
  | WriteRegistersBe (a q : Z) (bs : Prelude.bytes)
  | MaskWriteRegister (a am om : Z)
  | ReadWriteRegistersBe (ra rq wa wq : Z) (bs out : Prelude.bytes)
  | WriteFileRecord (f r : Z) (values : list Z)
  | WriteFileRecordBe (f r n : Z) (bs : Prelude.bytes).

(** The arguments are in the ranges of their types; slices of values are no longer
    than a PDU can carry. *)
Definition op_ok (op : store_op) : Prop :=
  match op with
  | SetInputRegister a x | SetHoldingRegister a x | WriteRegister a x => is_u16 a ∧ is_u16 x
  | SetDiscreteInput a _ | SetCoil a _ | WriteCoil a _ => is_u16 a
  | SetFileRecord f r x => is_u16 f ∧ is_u16 r ∧ is_u16 x
  | SetFifoQueue a values => is_u16 a ∧ u16s values
  | SetExceptionStatus x => is_u8 x
  | SetServerId data => bytes_ok data
  | WriteCoils a values => is_u16 a ∧ blen values ≤ u16_max
  | WriteRegisters a values => is_u16 a ∧ u16s values ∧ blen values ≤ u16_max
  | WriteCoilsPacked a q bs | WriteRegistersBe a q bs => is_u16 a ∧ is_u16 q ∧ bytes_ok bs
  | MaskWriteRegister a am om => is_u16 a ∧ is_u16 am ∧ is_u16 om
  | ReadWriteRegistersBe ra rq wa wq bs out => is_u16 ra ∧ is_u16 rq ∧ is_u16 wa ∧ is_u16 wq ∧ bytes_ok bs
  | WriteFileRecord f r values => is_u16 f ∧ is_u16 r ∧ u16s values ∧ blen values ≤ u16_max
  | WriteFileRecordBe f r n bs => is_u16 f ∧ is_u16 r ∧ is_u16 n ∧ bytes_ok bs
  end.

Definition forget {E A S} (r : res E A * S) : res unit unit * S :=
  (match r.1 with Ok _ => Ok tt | Err _ => Err tt | Panic => Panic | OutOfFuel => OutOfFuel end, r.2).
Definition run_op (op : store_op) (s : t) : res unit unit * t :=
  match op with
  | SetInputRegister a x => forget (set_input_register a x s)
  | SetDiscreteInput a b => forget (set_discrete_input a b s)
  | SetHoldingRegister a x => forget (set_holding_register a x s)
  | SetCoil a b => forget (set_coil a b s)
  | SetFileRecord f r x => forget (set_file_record f r x s)
  | SetFifoQueue a values => forget (set_fifo_queue (E:=unit) a values s)
  | SetExceptionStatus x => forget (set_exception_status (E:=unit) x s)
  | SetServerId data => forget (set_server_id (E:=unit) data s)
  | WriteCoil a b => forget (write_coil a b s)
  | WriteCoils a values => forget (write_coils a values s)
  | WriteCoilsPacked a q bs => forget (write_coils_packed a q bs s)
  | WriteRegister a x => forget (write_register a x s)
  | WriteRegisters a values => forget (write_registers a values s)
  | WriteRegistersBe a q bs => forget (write_registers_be a q bs s)
  | MaskWriteRegister a am om => forget (atomic_mask_write_register a am om s)
  | ReadWriteRegistersBe ra rq wa wq bs out =>
      let '(r, (s', _)) := atomic_read_write_registers_be ra rq wa wq bs (s, out) in forget (r, s')
  | WriteFileRecord f r values => forget (write_file_record f r values s)
  | WriteFileRecordBe f r n bs => forget (write_file_record_be f r n bs s)
  end.

(** The sizes of the four tables *)
Definition sizes (s : t) : Z * Z * Z * Z :=
  (BitTable.len (coils s), BitTable.len (discrete_inputs s), blen (holding_registers s), blen (input_registers s)).
(** One operation on a well-formed store: it returns, keeps the store well formed
    and the tables at their size, and an error has no effect. *)
Definition op_safe (op : store_op) (s : t) : Prop :=
  let '(r, s') := run_op op s in
  returns r ∧ store_ok s' ∧ sizes s' = sizes s ∧ (r = Err tt → s' = s).

Definition table_sizes (T : Tables.t) : Z * Z * Z * Z :=
  (blen (Tables.coils T), blen (Tables.discrete_inputs T), blen (Tables.holding_registers T), blen (Tables.input_registers T)).
Lemma sizes_tables s : store_ok s → sizes s = table_sizes (tables_of s).
Proof.
  destruct s as [c d h i fs q x sid]. intros ([Hc Hd] & _). unfold sizes, table_sizes. cbn. by rewrite !blen_bits_of.
Qed.
Definition safe_outcome {E A} (s : t) (r : res E A * t) : Prop :=
  returns r.1 ∧ store_ok r.2 ∧ sizes r.2 = sizes s ∧ (∀ e, r.1 = Err e → r.2 = s).
Lemma op_safe_forget {E A} s (r : res E A * t) : safe_outcome s r →
  let '(r, s') := forget r in returns r ∧ store_ok s' ∧ sizes s' = sizes s ∧ (r = Err tt → s' = s).
Proof. destruct r as [[] s']; intros (? & ? & ? & He); split_and!; try done. intros _. by eapply He. Qed.
Definition keeps_sizes (s : t) (new : res Exc Tables.t) : Prop :=
  match new with Ok T => table_sizes T = table_sizes (tables_of s) | Err _ => True | Panic | OutOfFuel => False end.
Lemma committed_safe s r new : store_ok s → committed s r new → keeps_sizes s new → safe_outcome s r.
Proof.
  intros Hs Hc Hn. destruct new as [T|e| |]; try done; cbn in Hc, Hn.
  - destruct Hc as (s' & -> & Hs' & HT). split_and!; cbn; try done.
    rewrite !sizes_tables by done. by rewrite HT.
  - subst r. split_and!; cbn; done.
Qed.
Lemma coils_keep s a vs : 0 ≤ a → keeps_sizes s (rmap (λ c, Tables.set_coils c (tables_of s)) (replace_at (bits_of (coils s)) a vs)).
Proof.
  intros Ha. unfold replace_at. destruct (Z.ltb_spec (blen (bits_of (coils s))) (a + blen vs)); [done|].
  destruct s as [c d h i fs q x sid]. unfold keeps_sizes, table_sizes. cbn in *. by rewrite blen_splice.
Qed.
Lemma holding_keep s a vs : 0 ≤ a →
  keeps_sizes s (rmap (λ h, Tables.set_holding h (tables_of s)) (replace_at (holding_registers s) a vs)).
Proof.
  intros Ha. unfold replace_at. destruct (Z.ltb_spec (blen (holding_registers s)) (a + blen vs)); [done|].
  destruct s as [c d h i fs q x sid]. unfold keeps_sizes, table_sizes. cbn in *. by rewrite blen_splice.
Qed.
Lemma files_keep s f r v : is_u16 r → blen v ≤ u16_max →
  keeps_sizes s (rmap (λ fs, Tables.set_files fs (tables_of s)) (replace_records (files s) f r v)).
Proof.
  intros Hr Hv. pose proof (blen_nonneg v). unfold replace_records, u16_max in *. rewrite validate_range_spec by lia.
  destruct ((f <? 1) || (blen v =? 0) || (10000 <? r + blen v)); [done|]. by destruct s.
Qed.

(** ** Setup helpers *)
Lemma bit_setter_safe {E} (c : BitTable.t) a b : table_ok c → 0 ≤ a < BitTable.len c →
  ∃ c', BitTable.set (E:=E) a b c = (Ok tt, c') ∧ table_ok c' ∧ BitTable.len c' = BitTable.len c.
Proof.
  intros Hc Ha. destruct (set_list c Hc a ltac:(lia) (E:=E) b) as (c' & -> & Hok & Hb); [lia|]. exists c'. split_and!; [done..|].
  rewrite <-!blen_bits_of, Hb, blen_splice by (rewrite ?blen_bits_of; change (blen [b]) with 1; done || lia). done.
Qed.
Lemma coil_setters_safe s a b : store_ok s → is_u16 a →
  safe_outcome s (set_coil a b s) ∧ safe_outcome s (set_discrete_input a b s).
Proof.
  destruct s as [c d h i fs q x sid]. intros Hs Ha. pose proof Hs as ([Hc Hd] & ? & ? & ? & ?).
  unfold set_coil, set_discrete_input, on_coils, on_discrete_inputs, zoom, check_setup_address. cbn [coils discrete_inputs].
  rewrite !st_bind_get, !st_bind_lift. split.
  - destruct (Z.leb_spec (BitTable.len c) a); [done|].
    destruct (bit_setter_safe (E := StoreError.t) c a b Hc) as (c' & -> & Hc' & Hl); [lia|].
    unfold safe_outcome, sizes. cbn. rewrite Hl. by split_and!; destruct_and!.
  - destruct (Z.leb_spec (BitTable.len d) a); [done|].
    destruct (bit_setter_safe (E := StoreError.t) d a b Hd) as (d' & -> & Hd' & Hl); [lia|].
    unfold safe_outcome, sizes. cbn. rewrite Hl. by split_and!; destruct_and!.
Qed.
Lemma register_setters_safe s a x : store_ok s → is_u16 a → is_u16 x →
  safe_outcome s (set_holding_register a x s) ∧ safe_outcome s (set_input_register a x s).
Proof.
  destruct s as [c d h i fs q y sid]. intros Hs Ha Hx. pose proof Hs as (? & ? & [Hh Hi] & ? & ?).
  unfold set_holding_register, set_input_register, on_holding_registers, on_input_registers, zoom, check_setup_address.
  cbn [holding_registers input_registers]. rewrite !st_bind_get, !st_bind_lift.
  assert (u16s [x]) as Hu by by constructor. split.
  - destruct (Z.leb_spec (blen h) a); [done|]. rewrite buf_set_splice by lia. unfold safe_outcome, sizes. cbn.
    rewrite blen_splice by (change (blen [x]) with 1; lia). pose proof (splice_Forall _ a [x] h Hh Hu). by split_and!; destruct_and!.
  - destruct (Z.leb_spec (blen i) a); [done|]. rewrite buf_set_splice by lia. unfold safe_outcome, sizes. cbn.
    rewrite blen_splice by (change (blen [x]) with 1; lia). pose proof (splice_Forall _ a [x] i Hi Hu). by split_and!; destruct_and!.
Qed.
Lemma file_setter_safe s f r x : store_ok s → is_u16 f → is_u16 r → is_u16 x → safe_outcome s (set_file_record f r x s).
Proof.
  destruct s as [c d h i fs q y sid]. intros Hs Hf16 Hr Hx. pose proof Hs as (? & ? & ? & [Hf ?] & ?).
  unfold set_file_record, check_setup_file_record. rewrite st_bind_lift. destruct (f <? FileRecord.MIN_FILE_NUMBER); [done|].
  destruct (Z.leb_spec FileRecord.RECORD_COUNT r); [done|]. unfold on_files, entry_or_default, zoom. cbn [files].
  set (file := default [] (fs !! f)).
  assert (u16s file ∧ blen file ≤ FileRecord.RECORD_COUNT) as [Hfu Hfl].
  { unfold file. destruct (fs !! f) as [file'|] eqn:He; [apply (Hf _ _ He)|]. split; [constructor|done]. }
  destruct (padded_spec file (r + 1) Hfu Hfl) as [Hpu Hpl]; [lia|]. rewrite st_bind_get.
  assert (((if blen file <=? r then st_modify (resize (Z.to_nat (r + 1)) 0) else st_ret tt);;; buf_set r x) file
    = buf_set (E := StoreError.t) r x (padded file (r + 1))) as ->.
  { unfold padded. destruct (Z.leb_spec (blen file) r).
    - by replace (blen file <? r + 1) with true by lia.
    - by replace (blen file <? r + 1) with false by lia. }
  rewrite buf_set_splice by lia. unfold safe_outcome, sizes. cbn. split_and!; destruct_and!; try done.
  apply map_Forall_insert_2; [|done]. split; [apply splice_Forall; [done|by constructor]|].
  rewrite blen_splice; change (blen [x]) with 1; lia.
Qed.
Lemma exchanged_safe s out ra rq wa wq bs : store_ok s → bytes_ok bs → is_u16 ra → is_u16 rq → is_u16 wa → is_u16 wq →
  let '(r, (s', _)) := atomic_read_write_registers_be ra rq wa wq bs (s, out) in safe_outcome s (r, s').
Proof.
  intros Hs Hb Hra Hrq Hwa Hwq.
  destruct ((1 <=? rq) && (rq <=? MAX_RW_READ_REGISTERS) && (1 <=? wq) && (wq <=? MAX_RW_WRITE_REGISTERS)
    && (blen bs =? wq * 2) && (rq * 2 <=? blen out)) eqn:Hv.
  - pose proof (read_write_exchanged s out ra rq wa wq bs Hs Hb Hra Hwa ltac:(lia) ltac:(lia) ltac:(lia) ltac:(lia)) as He.
    unfold exchanged, exchange, replace_at in He. pose proof (blen_nonneg (be_words bs)).
    destruct (Z.ltb_spec (blen (holding_registers s)) (wa + blen (be_words bs))); [by rewrite He|]. cbn [rbind] in He.
    unfold select in He. destruct (_ <? ra + rq); [by rewrite He|]. destruct He as (s' & -> & Hs' & HT).
    split_and!; cbn; try done. rewrite !sizes_tables, HT by done. destruct s. unfold table_sizes. cbn in *. by rewrite blen_splice by lia.
  - unfold atomic_read_write_registers_be. unfold st_bind at 1, on_buf at 1, st_get at 1. cbn [fst snd]. rewrite st_bind_lift.
    unfold validate_atomic_read_write_buffers. destruct (_ || _ || _ || _) eqn:H1; [done|].
    by replace (_ || _) with true by lia.
Qed.
Lemma write_commits_safe s a : store_ok s → is_u16 a →
  (∀ b, safe_outcome s (write_coil a b s)) ∧
  (∀ values, blen values ≤ u16_max → safe_outcome s (write_coils a values s)) ∧
  (∀ x, is_u16 x → safe_outcome s (write_register a x s)) ∧
  (∀ values, u16s values → blen values ≤ u16_max → safe_outcome s (write_registers a values s)) ∧
  (∀ am om, is_u16 am → is_u16 om → safe_outcome s (atomic_mask_write_register a am om s)) ∧
  (∀ q bs, is_u16 q → bytes_ok bs → safe_outcome s (write_coils_packed a q bs s) ∧ safe_outcome s (write_registers_be a q bs s)).
Proof.
  intros Hs Ha. destruct (single_writes_commit s Hs a Ha) as (Hcoil & Hreg & Hmask).
  assert (0 ≤ a) as Ha0 by lia. split_and!.
  - intros b. by eapply committed_safe, coils_keep.
  - intros values Hv. eapply (committed_safe s _ (rmap _ (replace_at (bits_of (coils s)) a values))); [done| |by apply coils_keep].
    apply coils_committed; [done|]. destruct s, Hs as ([Hc _] & (Hl & _) & _). by apply write_bits_written.
  - intros x Hx. by eapply committed_safe, holding_keep; [done|apply Hreg|].
  - intros values Hu Hv. eapply (committed_safe s _ (rmap _ (replace_at (holding_registers s) a values))); [done| |by apply holding_keep].
    apply holding_committed; [done|]. destruct s, Hs as (_ & (_ & _ & Hl & _) & [Hh _] & _). apply holding_write; [done..|].
    intros. apply buf_copy_splice; done || lia.
  - intros am om Ham Hom. eapply committed_safe; [done|by apply Hmask|]. unfold select.
    destruct (_ <? _); [done|]. by apply holding_keep.
  - intros q bs Hq Hb. split.
    + eapply committed_safe; [done|by apply write_coils_packed_committed|]. unfold coil_payload.
      destruct (_ && _ && _); [|done]. by apply coils_keep.
    + eapply committed_safe; [done|by apply write_registers_be_committed|]. unfold register_payload.
      destruct (_ && _ && _); [|done]. by apply holding_keep.
Qed.
Lemma file_writes_safe s f r : store_ok s → is_u16 r →
  (∀ values, u16s values → blen values ≤ u16_max → safe_outcome s (write_file_record f r values s)) ∧
  (∀ n bs, is_u16 n → bytes_ok bs → safe_outcome s (write_file_record_be f r n bs s)).
Proof.
  intros Hs Hr. split.
  - intros values Hu Hv. by eapply committed_safe, files_keep; [done|apply write_file_values_committed|..].
  - intros n bs Hn Hb. destruct (decide (blen bs = n * 2)) as [Hl|Hl].
    + eapply committed_safe; [done|by apply write_file_committed|]. apply files_keep; [done|].
      pose proof (blen_be_words bs Hb (blen_mod_2 bs n Hl)). unfold u16_max. lia.
    + unfold write_file_record_be. by replace (negb (blen bs =? n * 2)) with true by lia.
Qed.
Lemma every_op_safe op s : store_ok s → op_ok op → op_safe op s.
Proof.
  intros Hs Hop. unfold op_safe. destruct op; cbn in Hop; destruct_and?; cbn [run_op].
  all: first [ apply op_safe_forget; first
    [ by apply register_setters_safe | by apply coil_setters_safe | by apply file_setter_safe
    | by apply (write_commits_safe s a) | by apply file_writes_safe
    | destruct s as [c d h i fs q y sid]; destruct Hs as (? & ? & ? & [? ?] & [? ?]); split_and!; cbn; done ] | idtac ].
  - apply op_safe_forget. destruct s as [c d h i fs q y sid]; destruct Hs as (? & ? & ? & [? ?] & [? ?]).
    split_and!; cbn; destruct_and?; split_and?; try done. by apply map_Forall_insert_2.
  - pose proof (exchanged_safe s out ra rq wa wq bs) as He.
    destruct (atomic_read_write_registers_be ra rq wa wq bs (s, out)) as [r [s' out']].
    apply (op_safe_forget s (r, s')), He; done.
Qed.

Fixpoint run_ops (ops : list store_op) (s : t) : res unit unit * t :=
  match ops with
  | [] => (Ok tt, s)
  | op :: ops =>
      match run_op op s with
      | (Ok _, s') | (Err _, s') => run_ops ops s'
      | (Panic, s') => (Panic, s')
      | (OutOfFuel, s') => (OutOfFuel, s')
      end
  end.

Definition config_ok (config : StoreConfig.t) : Prop :=
  let ok n := 0 ≤ n ≤ MAX_TABLE_SIZE in
  ok (StoreConfig.coil_count config) ∧ ok (StoreConfig.discrete_input_count config) ∧
  ok (StoreConfig.holding_register_count config) ∧ ok (StoreConfig.input_register_count config).

Lemma try_new_ok config : config_ok config → ∃ s, try_new config = Ok s ∧ store_ok s ∧
  sizes s = (StoreConfig.coil_count config, StoreConfig.discrete_input_count config,
    StoreConfig.holding_register_count config, StoreConfig.input_register_count config).
Proof.
  intros (H1 & H2 & H3 & H4). unfold try_new, StoreConfig.validate, validate_table_size.
  rewrite !(proj2 (Z.ltb_ge _ _)) by lia. cbn [rbind]. eexists. split; [done|]. split.
  - unfold store_ok. rewrite !blen_replicate. split_and!; try (by apply table_new_ok); cbn; try lia; try done.
    1,2: apply Forall_replicate; lia. repeat constructor; unfold byte_ok; lia.
  - unfold sizes. cbn [coils discrete_inputs holding_registers input_registers]. rewrite !blen_replicate.
    cbn [BitTable.new BitTable.len]. repeat f_equal; lia.
Qed.
Lemma try_new_err config : ¬ config_ok config → 0 ≤ StoreConfig.coil_count config →
  0 ≤ StoreConfig.discrete_input_count config → 0 ≤ StoreConfig.holding_register_count config →
  0 ≤ StoreConfig.input_register_count config →
  ∃ table n, try_new config = Err (StoreError.TableTooLarge table n MAX_TABLE_SIZE) ∧ MAX_TABLE_SIZE < n.
Proof.
  intros Hn H1 H2 H3 H4. unfold try_new, StoreConfig.validate, validate_table_size, config_ok in *.
  destruct (Z.ltb_spec MAX_TABLE_SIZE (StoreConfig.coil_count config)); cbn [rbind]; [by eexists _, _|].
  destruct (Z.ltb_spec MAX_TABLE_SIZE (StoreConfig.discrete_input_count config)); cbn [rbind]; [by eexists _, _|].
  destruct (Z.ltb_spec MAX_TABLE_SIZE (StoreConfig.holding_register_count config)); cbn [rbind]; [by eexists _, _|].
  destruct (Z.ltb_spec MAX_TABLE_SIZE (StoreConfig.input_register_count config)); cbn [rbind]; [by eexists _, _|].
  exfalso. apply Hn. cbn zeta. split_and!; lia.
Qed.
Lemma run_ops_safe ops s : store_ok s → Forall op_ok ops →
  ∃ s', run_ops ops s = (Ok tt, s') ∧ store_ok s' ∧ sizes s' = sizes s.
Proof.
  intros Hs Hops. revert s Hs. induction Hops as [|op ops Hop _ IH]; intros s Hs; [by exists s|]. cbn [run_ops].
  pose proof (every_op_safe op s Hs Hop) as Hsafe. unfold op_safe in Hsafe.
  destruct (run_op op s) as [[]  s1]; destruct Hsafe as (Hr & Hs1 & Hz & _); try done;
    destruct (IH s1 Hs1) as (s' & -> & Hs' & Hz'); exists s'; (split_and!; [done..|by rewrite Hz']).
Qed.

(** A configuration is accepted exactly when each of its four tables has at most
    65,536 entries, and names the offending table otherwise. From the store it gives,
    no sequence of setup calls and trait writes with arguments in their type ranges,
    in whatever order and however many of them fail, panics or leaves the store ill
    formed, and the tables keep the configured sizes. *)
Theorem memory_store_safe (config : StoreConfig.t) (ops : list store_op) :
  0 ≤ StoreConfig.coil_count config → 0 ≤ StoreConfig.discrete_input_count config →
  0 ≤ StoreConfig.holding_register_count config → 0 ≤ StoreConfig.input_register_count config →
  Forall op_ok ops →
  (config_ok config → ∃ s s', try_new config = Ok s ∧ run_ops ops s = (Ok tt, s') ∧ store_ok s' ∧
     sizes s' = (StoreConfig.coil_count config, StoreConfig.discrete_input_count config,
       StoreConfig.holding_register_count config, StoreConfig.input_register_count config)) ∧
  (¬ config_ok config → ∃ table n, try_new config = Err (StoreError.TableTooLarge table n MAX_TABLE_SIZE) ∧ MAX_TABLE_SIZE < n).
Proof.
  intros H1 H2 H3 H4 Hops. split; [|intros; by apply try_new_err]. intros Hc.
  destruct (try_new_ok config Hc) as (s & Hn & Hs & Hz). destruct (run_ops_safe ops s Hs Hops) as (s' & Hr & Hs' & Hz').
  exists s, s'. split_and!; [done..|]. by rewrite Hz'.
Qed.
Lemma memory_store_safe_witness :
  (∃ s s', try_new small_config = Ok s ∧ run_ops [SetCoil 39 true; WriteRegister 10 1; WriteFileRecord 1 3 [7]] s = (Ok tt, s') ∧
     store_ok s' ∧ sizes s' = (40, 16, 10, 4)) ∧
  (∃ table n, try_new (StoreConfig.mk 1 65537 1 1) = Err (StoreError.TableTooLarge table n MAX_TABLE_SIZE) ∧ MAX_TABLE_SIZE < n).
Proof.
  assert (Forall op_ok [SetCoil 39 true; WriteRegister 10 1; WriteFileRecord 1 3 [7]]) as Hops
    by (repeat constructor; unfold u16_max, blen; cbn; lia).
  destruct (memory_store_safe small_config [SetCoil 39 true; WriteRegister 10 1; WriteFileRecord 1 3 [7]]) as [H _];
    [cbn; lia..|exact Hops|].
  destruct (memory_store_safe (StoreConfig.mk 1 65537 1 1) []) as [_ H']; [cbn; lia..|constructor|].
  split; [apply H|apply H']; unfold config_ok, MAX_TABLE_SIZE; cbn; lia.
Defined.

(** ** The whole store against the tables *)
Lemma empty_bits n : 0 ≤ n ≤ MAX_TABLE_SIZE → bits_of (BitTable.new n) = replicate (Z.to_nat n) false.
Proof.
  intros Hn. pose proof (table_new_ok n Hn) as Hok. apply list_eq_get; rewrite blen_bits_of by done; cbn [BitTable.new BitTable.len]; [rewrite blen_replicate; lia|].
  intros i Hi. rewrite bits_of_get by (done || lia). destruct (new_ok n) as [_ Hb]; [unfold usize_max, MAX_TABLE_SIZE in *; lia|]. rewrite Hb.
  unfold get. replace (0 <=? i) with true by lia. by rewrite lookup_replicate_2 by lia.
Qed.

(** A setup call on a table of which [x] is to be entry [a] *)
Definition setup {A} (table : string) (old : list A) (a : Z) (x : A) : res StoreError.t (list A) :=
  if blen old <=? a then Err (StoreError.AddressOutOfRange table a (blen old)) else Ok (splice a [x] old).
Definition setup_record (files : gmap Z (list Z)) (f r x : Z) : res StoreError.t (gmap Z (list Z)) :=
  if f <? 1 then Err (StoreError.FileNumberOutOfRange f 1) else
  if 9999 <? r then Err (StoreError.FileRecordOutOfRange r 9999) else
  Ok (<[f := splice r [x] (padded (default [] (files !! f)) (r + 1))]> files).

Lemma bit_setter_spec {E} (c : BitTable.t) a b : table_ok c → 0 ≤ a < BitTable.len c →
  ∃ c', BitTable.set (E:=E) a b c = (Ok tt, c') ∧ table_ok c' ∧ bits_of c' = splice a [b] (bits_of c) ∧ BitTable.len c' = BitTable.len c.
Proof.
  intros Hc Ha. destruct (set_list c Hc a ltac:(lia) (E:=E) b) as (c' & -> & Hok & Hb); [lia|]. exists c'. split_and!; [done..|].
  rewrite <-!blen_bits_of, Hb, blen_splice by (rewrite ?blen_bits_of; change (blen [b]) with 1; done || lia). done.
Qed.
Lemma bit_setters_commit s a b : store_ok s → is_u16 a →
  committed s (set_coil a b s) (rmap (λ c, Tables.set_coils c (tables_of s)) (setup "coils" (bits_of (coils s)) a b)) ∧
  committed s (set_discrete_input a b s)
    (rmap (λ d, Tables.set_discrete d (tables_of s)) (setup "discrete_inputs" (bits_of (discrete_inputs s)) a b)).
Proof.
  destruct s as [c d h i fs q x sid]. intros Hs Ha. pose proof Hs as ([Hc Hd] & Hrest). cbn [coils discrete_inputs].
  unfold set_coil, set_discrete_input, on_coils, on_discrete_inputs, zoom, check_setup_address, setup. cbn [coils discrete_inputs].
  rewrite !st_bind_get, !st_bind_lift, !blen_bits_of by done. split.
  - destruct (Z.leb_spec (BitTable.len c) a); [done|].
    destruct (bit_setter_spec (E := StoreError.t) c a b Hc) as (c' & -> & Hc' & Hb & Hl); [lia|]. eexists. split; [done|]. cbn. rewrite Hl, Hb.
    destruct_and!. by split_and!.
  - destruct (Z.leb_spec (BitTable.len d) a); [done|].
    destruct (bit_setter_spec (E := StoreError.t) d a b Hd) as (d' & -> & Hd' & Hb & Hl); [lia|]. eexists. split; [done|]. cbn. rewrite Hl, Hb.
    destruct_and!. by split_and!.
Qed.
Lemma word_setters_commit s a x : store_ok s → is_u16 a → is_u16 x →
  committed s (set_holding_register a x s)
    (rmap (λ h, Tables.set_holding h (tables_of s)) (setup "holding_registers" (holding_registers s) a x)) ∧
  committed s (set_input_register a x s)
    (rmap (λ i, Tables.set_input i (tables_of s)) (setup "input_registers" (input_registers s) a x)).
Proof.
  destruct s as [c d h i fs q y sid]. intros Hs Ha Hx. pose proof Hs as (? & ? & [Hh Hi] & ? & ?).
  unfold set_holding_register, set_input_register, on_holding_registers, on_input_registers, zoom, check_setup_address, setup.
  cbn [holding_registers input_registers]. rewrite !st_bind_get, !st_bind_lift. assert (u16s [x]) as Hu by by constructor. split.
  - destruct (Z.leb_spec (blen h) a); [done|]. rewrite buf_set_splice by lia. eexists. split; [done|]. cbn.
    rewrite blen_splice by (change (blen [x]) with 1; lia). pose proof (splice_Forall _ a [x] h Hh Hu). destruct_and!. by split_and!.
  - destruct (Z.leb_spec (blen i) a); [done|]. rewrite buf_set_splice by lia. eexists. split; [done|]. cbn.
    rewrite blen_splice by (change (blen [x]) with 1; lia). pose proof (splice_Forall _ a [x] i Hi Hu). destruct_and!. by split_and!.
Qed.
Lemma record_setter_commit s f r x : store_ok s → is_u16 r → is_u16 x →
  committed s (set_file_record f r x s) (rmap (λ fs, Tables.set_files fs (tables_of s)) (setup_record (files s) f r x)).
Proof.
  destruct s as [c d h i fs q y sid]. intros Hs Hr Hx. pose proof Hs as (? & ? & ? & [Hf ?] & ?).
  unfold set_file_record, check_setup_file_record, setup_record, FileRecord.MIN_FILE_NUMBER, FileRecord.RECORD_COUNT, FileRecord.MAX_RECORD_NUMBER.
  rewrite st_bind_lift. destruct (f <? 1); [done|]. destruct (Z.leb_spec 0x2710 r).
  { by replace (9999 <? r) with true by lia. }
  replace (9999 <? r) with false by lia. cbn [rmap rbind files]. unfold on_files, entry_or_default, zoom. cbn [files].
  set (file := default [] (fs !! f)).
  assert (u16s file ∧ blen file ≤ FileRecord.RECORD_COUNT) as [Hfu Hfl].
  { unfold file. destruct (fs !! f) as [file'|] eqn:He; [apply (Hf _ _ He)|]. split; [constructor|done]. }
  destruct (padded_spec file (r + 1) Hfu Hfl) as [Hpu Hpl]; [unfold FileRecord.RECORD_COUNT; lia|]. rewrite st_bind_get.
  assert (((if blen file <=? r then st_modify (resize (Z.to_nat (r + 1)) 0) else st_ret tt);;; buf_set r x) file
    = buf_set (E := StoreError.t) r x (padded file (r + 1))) as ->.
  { unfold padded. destruct (Z.leb_spec (blen file) r).
    - by replace (blen file <? r + 1) with true by lia.
    - by replace (blen file <? r + 1) with false by lia. }
  rewrite buf_set_splice by lia. eexists. split; [done|]. split; [|done]. do 3 (split; [done|]). split; [split; [|done]|done].
  apply map_Forall_insert_2; [|done]. split; [apply splice_Forall; [done|by constructor]|].
  rewrite blen_splice; change (blen [x]) with 1; lia.
Qed.
Lemma queue_setter_commit {E} s a values : store_ok s → u16s values →
  committed (E:=E) s (set_fifo_queue a values s) (Ok (Tables.set_queues (<[a := values]> (fifo_queues s)) (tables_of s))).
Proof.
  destruct s as [c d h i fs q y sid]. intros (? & ? & ? & [? Hq] & ?) Hv. eexists. split; [done|]. split; [|done].
  do 3 (split; [done|]). split; [|done]. split; [done|]. by apply map_Forall_insert_2.
Qed.
Lemma plain_setters_commit {E} s : store_ok s →
  (∀ x, is_u8 x → committed (E:=E) s (set_exception_status x s) (Ok (Tables.set_status x (tables_of s)))) ∧
  (∀ data, bytes_ok data → committed (E:=E) s (set_server_id data s) (Ok (Tables.set_id data (tables_of s)))).
Proof.
  destruct s as [c d h i fs q y sid]. intros (? & ? & ? & ? & [? ?]). split; intros; (eexists; split; [done|]; by split_and!).
Qed.
Lemma value_reads s a q : store_ok s → is_u16 a → is_u16 q →
  reads_part (read_coils a q) s q (select (bits_of (coils s)) a q) ∧
  reads_part (read_discrete_inputs a q) s q (select (bits_of (discrete_inputs s)) a q) ∧
  reads_part (read_holding_registers a q) s q (select (holding_registers s) a q) ∧
  reads_part (read_input_registers a q) s q (select (input_registers s) a q).
Proof.
  intros Hs Ha Hq. destruct s as [c d h i fs qs x sid], Hs as ([Hc Hd] & (Hcl & Hdl & Hhl & Hil) & _).
  split_and!; [by apply (read_bits_part coils)|by apply (read_bits_part discrete_inputs)|
    by apply (read_words_part holding_registers)|by apply (read_words_part input_registers)].
Qed.
Lemma value_writes_commit s a : store_ok s → is_u16 a →
  (∀ values, blen values ≤ u16_max → committed s (write_coils a values s)
     (rmap (λ c, Tables.set_coils c (tables_of s)) (replace_at (bits_of (coils s)) a values))) ∧
  (∀ values, u16s values → blen values ≤ u16_max → committed s (write_registers a values s)
     (rmap (λ h, Tables.set_holding h (tables_of s)) (replace_at (holding_registers s) a values))).
Proof.
  intros Hs Ha. split.
  - intros values Hv. apply coils_committed; [done|]. destruct s, Hs as ([Hc _] & (Hl & _) & _). by apply write_bits_written.
  - intros values Hu Hv. apply holding_committed; [done|]. destruct s, Hs as (_ & (_ & _ & Hl & _) & [Hh _] & _). apply holding_write; [done..|].
    intros. apply buf_copy_splice; done || lia.
Qed.
Lemma try_new_blank config : config_ok config → ∃ s, try_new config = Ok s ∧ new config = Ok s ∧ store_ok s ∧
  tables_of s = Tables.blank (StoreConfig.coil_count config) (StoreConfig.discrete_input_count config)
    (StoreConfig.holding_register_count config) (StoreConfig.input_register_count config).
Proof.
  intros Hc. destruct (try_new_ok config Hc) as (s & Hn & Hs & _). exists s. unfold new. rewrite Hn. split_and!; [done..|].
  destruct Hc as (H1 & H2 & H3 & H4). unfold try_new, StoreConfig.validate, validate_table_size in Hn.
  rewrite !(proj2 (Z.ltb_ge _ _)) in Hn by lia. injection Hn as <-. unfold tables_of, Tables.blank. by rewrite !empty_bits.
Qed.
Lemma masked_bits current am om i : 0 ≤ i < 16 →
  Z.testbit (masked current am om) i = if Z.testbit am i then Z.testbit current i else Z.testbit om i.
Proof.
  intros Hi. unfold masked, u16_not. rewrite Z.lor_spec, !Z.land_spec, Z.lxor_spec. change 65535 with (Z.ones 16).
  rewrite Z.ones_spec_low by lia. by destruct (Z.testbit current i), (Z.testbit am i), (Z.testbit om i).
Qed.
Lemma refused_exchange s out ra rq wa wq bs : 0 ≤ rq → 0 ≤ wq →
  ¬ (1 ≤ rq ≤ MAX_RW_READ_REGISTERS ∧ 1 ≤ wq ≤ MAX_RW_WRITE_REGISTERS ∧ blen bs = wq * 2 ∧ rq * 2 ≤ blen out) →
  atomic_read_write_registers_be ra rq wa wq bs (s, out) = (Err ExceptionCode.IllegalDataValue, (s, out)).
Proof.
  intros Hr Hw Hn. unfold atomic_read_write_registers_be. unfold st_bind at 1, on_buf at 1, st_get at 1. cbn [fst snd]. rewrite st_bind_lift.
  unfold validate_atomic_read_write_buffers. destruct (_ || _ || _ || _) eqn:H1; [done|]. by replace (_ || _) with true by lia.
Qed.

(** C14. The in-memory store implements the abstract tables: on a well-formed store
    every read, of values or of their wire image, answers from the lists of bits,
    registers, file records and queue values of [tables_of] (an address range outside
    the table is [IllegalDataAddress], a buffer that cannot hold the image
    [IllegalDataValue], both without any effect) and stores exactly what it read at
    the front of the buffer; every write and every setup call either reports its error
    and changes nothing or leaves a well-formed store whose tables are the old ones
    with exactly the addressed entries replaced. Read/write of FC 0x17 reads after the
    write, in one step; Mask Write takes each bit from the register or from the
    second mask, as the first mask says. A new store is blank and has the configured
    sizes; a configuration with a table of more than 65,536 entries is refused, and is a
    panic of [new]. Value reads are given a buffer that has room for the values. *)
Theorem memory_store_refines (s : InMemoryStore.t) (out : Prelude.bytes) : store_ok s →
  let T := tables_of s in
  (∀ a q, is_u16 a → is_u16 q →
     read_coils_packed a q (s, out) = fill s out q (rmap pack_bits (select (Tables.coils T) a q)) ∧
     read_discrete_inputs_packed a q (s, out) = fill s out q (rmap pack_bits (select (Tables.discrete_inputs T) a q)) ∧
     read_holding_registers_be a q (s, out) = fill s out q (rmap words_be (select (Tables.holding_registers T) a q)) ∧
     read_input_registers_be a q (s, out) = fill s out q (rmap words_be (select (Tables.input_registers T) a q))) ∧
  (∀ a, read_fifo_queue_be a (s, out) =
     match Tables.fifo_queues T !! a with
     | Some values => fill s out (blen values) (fifo_image values)
     | None => (Err ExceptionCode.IllegalDataAddress, (s, out))
     end) ∧
  (∀ f r n, is_u16 r → is_u16 n →
     read_file_record_be f r n (s, out) = fill s out n (rmap words_be (select_records (Tables.files T) f r n))) ∧
  (∀ a, is_u16 a →
     (∀ b, committed s (write_coil a b s)
        (rmap (λ c, Tables.set_coils c T) (replace_at (Tables.coils T) a [b]))) ∧
     (∀ x, is_u16 x → committed s (write_register a x s)
        (rmap (λ h, Tables.set_holding h T) (replace_at (Tables.holding_registers T) a [x]))) ∧
     (∀ am om, is_u16 am → is_u16 om → committed s (atomic_mask_write_register a am om s)
        (rmap (λ h, Tables.set_holding h T)
          (let? cur := select (Tables.holding_registers T) a 1 in
           replace_at (Tables.holding_registers T) a [masked (nth 0 cur 0) am om])))) ∧
  (∀ a q bs, is_u16 a → is_u16 q → bytes_ok bs →
     committed s (write_coils_packed a q bs s)
       (let? vs := coil_payload q bs in rmap (λ c, Tables.set_coils c T) (replace_at (Tables.coils T) a vs)) ∧
     committed s (write_registers_be a q bs s)
       (let? vs := register_payload q bs in
        rmap (λ h, Tables.set_holding h T) (replace_at (Tables.holding_registers T) a vs))) ∧
  (∀ f r n bs, is_u16 r → is_u16 n → bytes_ok bs → blen bs = n * 2 →
     committed s (write_file_record_be f r n bs s)
       (rmap (λ fs, Tables.set_files fs T) (replace_records (Tables.files T) f r (be_words bs)))) ∧
  (∀ ra rq wa wq bs, is_u16 ra → is_u16 wa → 1 ≤ rq ≤ MAX_RW_READ_REGISTERS →
     1 ≤ wq ≤ MAX_RW_WRITE_REGISTERS → bytes_ok bs → blen bs = wq * 2 → rq * 2 ≤ blen out →
     exchanged s out rq (atomic_read_write_registers_be ra rq wa wq bs (s, out))
       (exchange (Tables.holding_registers T) wa (be_words bs) ra rq)) ∧
  (∀ ra rq wa wq bs, 0 ≤ rq → 0 ≤ wq →
     ¬ (1 ≤ rq ≤ MAX_RW_READ_REGISTERS ∧ 1 ≤ wq ≤ MAX_RW_WRITE_REGISTERS ∧ blen bs = wq * 2 ∧ rq * 2 ≤ blen out) →
     atomic_read_write_registers_be ra rq wa wq bs (s, out) = (Err ExceptionCode.IllegalDataValue, (s, out))) ∧
  (∀ f r n bs, blen bs ≠ n * 2 → write_file_record_be f r n bs s = (Err ExceptionCode.IllegalDataValue, s)) ∧
  (∀ current am om i, 0 ≤ i < 16 →
     Z.testbit (masked current am om) i = if Z.testbit am i then Z.testbit current i else Z.testbit om i) ∧
  (∀ f r n, is_u16 r → is_u16 n →
     select_records (Tables.files T) f r n = (if 122 <? n then Err ExceptionCode.IllegalDataAddress else select_file (Tables.files T) f r n) ∧
     FileRecord.validate_range f r n = if (f <? 1) || (n =? 0) || (10000 <? r + n) then Err ExceptionCode.IllegalDataAddress else Ok tt) ∧
  (∀ a q, is_u16 a → is_u16 q →
     reads_part (read_coils a q) s q (select (Tables.coils T) a q) ∧
     reads_part (read_discrete_inputs a q) s q (select (Tables.discrete_inputs T) a q) ∧
     reads_part (read_holding_registers a q) s q (select (Tables.holding_registers T) a q) ∧
     reads_part (read_input_registers a q) s q (select (Tables.input_registers T) a q)) ∧
  (∀ f r n, is_u16 r → is_u16 n → reads_part (read_file_record f r n) s n (select_file (Tables.files T) f r n)) ∧
  (∀ a, read_fifo_queue a s =
     (match Tables.fifo_queues T !! a with Some values => Ok values | None => Err ExceptionCode.IllegalDataAddress end, s)) ∧
  read_exception_status s = (Ok (Tables.exception_status T), s) ∧
  report_server_id s = (Ok (Tables.server_id T), s) ∧
  append_server_id (s, out) =
    (if 251 <? blen (Tables.server_id T) then (Err ExceptionCode.ServerDeviceFailure, (s, out))
     else (Ok (blen (Tables.server_id T)), (s, out ++ Tables.server_id T))) ∧
  (∀ sub data, append_diagnostic_response sub data (s, out) =
     if negb (DiagnosticSubFunction.code sub =? 0) then (Err ExceptionCode.IllegalFunction, (s, out))
     else if 250 <? blen data then (Err ExceptionCode.ServerDeviceFailure, (s, out))
     else (Ok (Some (blen data)), (s, out ++ data))) ∧
  (∀ a, is_u16 a →
     (∀ values, blen values ≤ u16_max → committed s (write_coils a values s)
        (rmap (λ c, Tables.set_coils c T) (replace_at (Tables.coils T) a values))) ∧
     (∀ values, u16s values → blen values ≤ u16_max → committed s (write_registers a values s)
        (rmap (λ h, Tables.set_holding h T) (replace_at (Tables.holding_registers T) a values)))) ∧
  (∀ f r values, is_u16 r → u16s values → blen values ≤ u16_max → committed s (write_file_record f r values s)
     (rmap (λ fs, Tables.set_files fs T) (replace_records (Tables.files T) f r values))) ∧
  (∀ a b, is_u16 a →
     committed s (set_coil a b s) (rmap (λ c, Tables.set_coils c T) (setup "coils" (Tables.coils T) a b)) ∧
     committed s (set_discrete_input a b s) (rmap (λ d, Tables.set_discrete d T) (setup "discrete_inputs" (Tables.discrete_inputs T) a b))) ∧
  (∀ a x, is_u16 a → is_u16 x →
     committed s (set_holding_register a x s)
       (rmap (λ h, Tables.set_holding h T) (setup "holding_registers" (Tables.holding_registers T) a x)) ∧
     committed s (set_input_register a x s) (rmap (λ i, Tables.set_input i T) (setup "input_registers" (Tables.input_registers T) a x))) ∧
  (∀ f r x, is_u16 r → is_u16 x →
     committed s (set_file_record f r x s) (rmap (λ fs, Tables.set_files fs T) (setup_record (Tables.files T) f r x))) ∧
  (∀ a values, u16s values →
     committed (E:=Empty_set) s (set_fifo_queue a values s) (Ok (Tables.set_queues (<[a := values]> (Tables.fifo_queues T)) T))) ∧
  (∀ x, is_u8 x → committed (E:=Empty_set) s (set_exception_status x s) (Ok (Tables.set_status x T))) ∧
  (∀ data, bytes_ok data → committed (E:=Empty_set) s (set_server_id data s) (Ok (Tables.set_id data T))) ∧
  (∀ coils discrete_inputs holding_registers input_registers,
     0 ≤ coils → 0 ≤ discrete_inputs → 0 ≤ holding_registers → 0 ≤ input_registers →
     let config := StoreConfig.mk coils discrete_inputs holding_registers input_registers in
     if (coils <=? 65536) && (discrete_inputs <=? 65536) && (holding_registers <=? 65536) && (input_registers <=? 65536) then
       ∃ s0, try_new config = Ok s0 ∧ new config = Ok s0 ∧ store_ok s0 ∧
         tables_of s0 = Tables.blank coils discrete_inputs holding_registers input_registers
     else new config = Panic ∧ ∃ table n, try_new config = Err (StoreError.TableTooLarge table n 65536) ∧ 65536 < n).
Proof.
  intros Hs T.
  assert (bits_of (coils s) = Tables.coils T ∧ bits_of (discrete_inputs s) = Tables.discrete_inputs T ∧
    holding_registers s = Tables.holding_registers T ∧ input_registers s = Tables.input_registers T ∧
    fifo_queues s = Tables.fifo_queues T ∧ files s = Tables.files T) as (Hc & Hd & Hh & Hi & Hq & Hf) by by destruct s.
  rewrite <-Hc, <-Hd, <-Hh, <-Hi, <-Hq, <-Hf. split_and!.
  - intros a q Ha Hq16. by apply reads_refine.
  - intros a. apply read_fifo_refine.
  - intros. by apply read_file_fill.
  - intros. by apply single_writes_commit.
  - intros. split; [by apply write_coils_packed_committed|by apply write_registers_be_committed].
  - intros. by apply write_file_committed.
  - intros. by apply read_write_exchanged.
  - intros. by apply refused_exchange.
  - intros f r n bs Hl. unfold write_file_record_be. by replace (negb (blen bs =? n * 2)) with true by lia.
  - intros. by apply masked_bits.
  - intros. split; [by apply select_records_file|by apply validate_range_spec].
  - intros. by apply value_reads.
  - intros. by apply read_file_part.
  - intros a. unfold read_fifo_queue. rewrite st_bind_get. by destruct (fifo_queues s !! a).
  - by destruct s.
  - by destruct s.
  - destruct s as [c d h i fs q x sid]. unfold append_server_id, reading. unfold st_bind, on_store, st_get, st_ret. cbn.
    change MAX_SERVER_ID_BYTES with 251. by destruct (251 <? blen sid).
  - intros sub data. unfold append_diagnostic_response. change MAX_DIAGNOSTIC_RESPONSE_DATA_LEN with 250.
    destruct sub; try done. cbn. by destruct (250 <? blen data).
  - intros. by apply value_writes_commit.
  - intros. by apply write_file_values_committed.
  - intros. by apply bit_setters_commit.
  - intros. by apply word_setters_commit.
  - intros. by apply record_setter_commit.
  - intros. by apply queue_setter_commit.
  - intros. by apply plain_setters_commit.
  - intros. by apply plain_setters_commit.
  - intros cc dc hc ic H1 H2 H3 H4 config. case_match eqn:Hv.
    + apply (try_new_blank config). unfold config_ok, MAX_TABLE_SIZE. cbn. lia.
    + destruct (try_new_err config) as (table & n & Hn & Hlt); [unfold config_ok, MAX_TABLE_SIZE; cbn; lia|done..|].
      split; [unfold new; by rewrite Hn|by exists table, n].
Qed.

Lemma memory_store_refines_witness :
  read_fifo_queue_be 5 (small_store, replicate 6 0) = (Ok 2, (small_store, [0; 1; 0; 2; 0; 0])) ∧
  ∃ s', write_registers_be 3 2 [1; 2; 3; 4] small_store = (Ok tt, s') ∧
    holding_registers s' = [0; 0; 0; 258; 772; 0; 0; 0; 0; 0].
Proof.
  destruct (memory_store_refines small_store (replicate 6 0) small_store_ok) as (_ & Hq & _ & _ & Hw & _).
  split; [rewrite Hq; reflexivity|].
  destruct (Hw 3 2 [1; 2; 3; 4]) as [_ (s' & Heq & _ & HT)]; [lia|lia|repeat constructor; unfold byte_ok; lia|].
  exists s'. split; [exact Heq|]. apply (f_equal Tables.holding_registers) in HT. destruct s'. exact HT.
Defined.
