(* ===== verification/DeviceId.v ===== *)
(** * Read Device Identification on the server
    (crates/rusty-modbus-server: src/device_id.rs, DeviceIdentification of src/config.rs)

    Builds FC 0x2B / MEI 0x0E responses from the configured objects, one page of at
    most 253 bytes at a time. The theorems: which response each request gets, and
    that following [next_object_id] retrieves every object exactly once. *)
From Stdlib Require Import Sorted.
From S2P Require Import Prelude Types CodecError MeiResponses Bits.

(** A [String] is the list of its UTF-8 bytes. *)
Module DeviceIdentification.
Record t : Type := mk {
  vendor_name : bytes;
  product_code : bytes;
  major_minor_revision : bytes;
  vendor_url : option bytes;
  product_name : option bytes;
  model_name : option bytes;
  user_application_name : option bytes;
}.

(** [version] is the crate version the build inserts; the names are the literals
    of the source. *)
Definition default (version : bytes) : t :=
  mk [114; 117; 115; 116; 121; 45; 109; 111; 100; 98; 117; 115] [82; 77; 79; 68] version
    None None None None.
End DeviceIdentification.

Definition DEVICE_ID_RESPONSE_HEADER_LEN : Z := 7.
Definition DEVICE_ID_OBJECT_HEADER_LEN : Z := 2.
Definition DEVICE_ID_REQUEST_LEN : Z := 2.
Definition BASIC_DEVICE_ID_OBJECT_COUNT : Z := 3.
Definition MAX_CONFIGURED_DEVICE_ID_OBJECTS : Z := 7.
Definition MAX_DEVICE_ID_OBJECT_VALUE_LEN : Z :=
  MAX_PDU_SIZE - DEVICE_ID_RESPONSE_HEADER_LEN - DEVICE_ID_OBJECT_HEADER_LEN.

(** The private [DeviceIdObject] of the server has the fields of the codec's entry. *)
Abbreviation object := DeviceIdObjectEntry.t.
Abbreviation oid := DeviceIdObjectEntry.id.
Abbreviation ovalue := DeviceIdObjectEntry.value.

Module ConfiguredDeviceIdObjects.
Record t : Type := mk { objects : list object; len : Z }.

Definition new : t :=
  mk (replicate (Z.to_nat MAX_CONFIGURED_DEVICE_ID_OBJECTS) (DeviceIdObjectEntry.mk 0 [])) 0.

Definition push {E} (x : object) : ST t E unit :=
  λ self,
    if negb (len self <? blen (objects self)) then (Panic, self) else
    match buf_set (len self) x (objects self) with
    | (Ok _, os) => (Ok tt, mk os (len self + 1))
    | (Err e, os) => (Err e, mk os (len self))
    | (Panic, os) => (Panic, mk os (len self))
    | (OutOfFuel, os) => (OutOfFuel, mk os (len self))
    end.

Definition as_slice {E} (self : t) : res E (list object) := slice_to (objects self) (len self).
End ConfiguredDeviceIdObjects.

Definition configured_objects {E} (device_id : DeviceIdentification.t)
    : res E ConfiguredDeviceIdObjects.t :=
  let push_some id value :=
    match value with
    | Some value => ConfiguredDeviceIdObjects.push (DeviceIdObjectEntry.mk id value)
    | None => st_ret tt
    end in
  let build :=
    ConfiguredDeviceIdObjects.push (DeviceIdObjectEntry.mk 0x00 (DeviceIdentification.vendor_name device_id));;;
    ConfiguredDeviceIdObjects.push (DeviceIdObjectEntry.mk 0x01 (DeviceIdentification.product_code device_id));;;
    ConfiguredDeviceIdObjects.push (DeviceIdObjectEntry.mk 0x02 (DeviceIdentification.major_minor_revision device_id));;;
    push_some 0x03 (DeviceIdentification.vendor_url device_id);;;
    push_some 0x04 (DeviceIdentification.product_name device_id);;;
    push_some 0x05 (DeviceIdentification.model_name device_id);;;
    push_some 0x06 (DeviceIdentification.user_application_name device_id) in
  let '(r, objects) := build ConfiguredDeviceIdObjects.new in
  rmap (λ _, objects) r.

Definition is_some {A} (o : option A) : bool := match o with Some _ => true | None => false end.
Definition conformity_level (device_id : DeviceIdentification.t) : Z :=
  if is_some (DeviceIdentification.vendor_url device_id)
     || is_some (DeviceIdentification.product_name device_id)
     || is_some (DeviceIdentification.model_name device_id)
     || is_some (DeviceIdentification.user_application_name device_id)
  then 0x82 else 0x81.

Definition device_id_exception (exception : ExceptionCode.t) : bytes :=
  [FunctionCode.exception_code FunctionCode.EncapsulatedInterfaceTransport; ExceptionCode.code exception].

(** [response.push(id); response.push(len as u8); response.extend_from_slice(value)] *)
Fixpoint push_objects (response : bytes) (objects : list object) : bytes :=
  match objects with
  | [] => response
  | x :: objects => push_objects (response ++ [oid x; blen (ovalue x) mod 256] ++ ovalue x) objects
  end.

Definition build_response {E} (device_id_code : DeviceIdCode.t) (conformity_level : Z)
    (more_follows : bool) (next_object_id : Z) (objects : list object) (response_len : Z) : res E bytes :=
  let response :=
    [FunctionCode.code FunctionCode.EncapsulatedInterfaceTransport; 0x0E;
     DeviceIdCode.code device_id_code; conformity_level;
     if more_follows then 0xFF else 0x00;
     if more_follows then next_object_id else 0x00;
     blen objects mod 256] in
  let response := push_objects response objects in
  do? debug_assert (blen response =? response_len) in
  Ok response.

(** [for object in &objects\[start..\]]: the length, the count, and the object that
    does not fit any more *)
Fixpoint select_objects (objects : list object) (response_len selected_count : Z)
    : Z * Z * bool * Z :=
  match objects with
  | [] => (response_len, selected_count, false, 0)
  | x :: objects =>
      let object_len := DEVICE_ID_OBJECT_HEADER_LEN + blen (ovalue x) in
      if MAX_PDU_SIZE <? response_len + object_len
      then (response_len, selected_count, true, oid x)
      else select_objects objects (response_len + object_len) (selected_count + 1)
  end.

Definition build_stream_response {E} (device_id_code : DeviceIdCode.t) (conformity_level object_id : Z)
    (objects : list object) : res E bytes :=
  if existsb (λ x, MAX_DEVICE_ID_OBJECT_VALUE_LEN <? blen (ovalue x)) objects
  then Ok (device_id_exception ExceptionCode.ServerDeviceFailure) else
  let start := default 0 (position (λ x, oid x =? object_id) objects) in
  let? rest := slice_from objects start in
  let '(response_len, selected_count, more_follows, next_object_id) :=
    select_objects rest DEVICE_ID_RESPONSE_HEADER_LEN 0 in
  if selected_count =? 0 then Ok (device_id_exception ExceptionCode.ServerDeviceFailure) else
  let? selected := slice objects start (start + selected_count) in
  build_response device_id_code conformity_level more_follows next_object_id selected response_len.

Definition build_device_id_response {E} (mei_data : bytes) (device_id : DeviceIdentification.t) : res E bytes :=
  if negb (blen mei_data =? DEVICE_ID_REQUEST_LEN)
  then Ok (device_id_exception ExceptionCode.IllegalDataValue) else
  match mei_data with
  | [] => Ok (device_id_exception ExceptionCode.IllegalDataValue)
  | raw_device_id_code :: rest =>
  match rest with
  | [] => Ok (device_id_exception ExceptionCode.IllegalDataValue)
  | object_id :: _ =>
  match DeviceIdCode.from_raw raw_device_id_code with
  | None => Ok (device_id_exception ExceptionCode.IllegalDataValue)
  | Some device_id_code =>
  let? objects := configured_objects device_id in
  let? objects := ConfiguredDeviceIdObjects.as_slice objects in
  let conformity_level := conformity_level device_id in
  match device_id_code with
  | DeviceIdCode.Individual =>
      match List.find (λ x, oid x =? object_id) objects with
      | None => Ok (device_id_exception ExceptionCode.IllegalDataAddress)
      | Some x =>
          if MAX_DEVICE_ID_OBJECT_VALUE_LEN <? blen (ovalue x)
          then Ok (device_id_exception ExceptionCode.ServerDeviceFailure) else
          build_response device_id_code conformity_level false 0 [x]
            (DEVICE_ID_RESPONSE_HEADER_LEN + DEVICE_ID_OBJECT_HEADER_LEN + blen (ovalue x))
      end
  | DeviceIdCode.BasicStream =>
      let? basic := slice_to objects BASIC_DEVICE_ID_OBJECT_COUNT in
      build_stream_response device_id_code conformity_level object_id basic
  | DeviceIdCode.RegularStream | DeviceIdCode.ExtendedStream =>
      build_stream_response device_id_code conformity_level object_id objects
  end end end end.

(** * Specification *)

(** The configured objects in the order of their identifiers, and those of a stream *)
Definition optional (id : Z) (value : option bytes) : list object :=
  match value with Some v => [DeviceIdObjectEntry.mk id v] | None => [] end.
Definition objects_of (dev : DeviceIdentification.t) : list object :=
  let '(DeviceIdentification.mk v p m u n o a) := dev in
  [DeviceIdObjectEntry.mk 0 v; DeviceIdObjectEntry.mk 1 p; DeviceIdObjectEntry.mk 2 m]
  ++ optional 3 u ++ optional 4 n ++ optional 5 o ++ optional 6 a.
Definition stream_objects (dev : DeviceIdentification.t) (code : DeviceIdCode.t) : list object :=
  match code with DeviceIdCode.BasicStream => take 3 (objects_of dev) | _ => objects_of dev end.
Definition device_ok (dev : DeviceIdentification.t) : Prop := Forall (λ x, bytes_ok (ovalue x)) (objects_of dev).
Definition too_long (x : object) : bool := MAX_DEVICE_ID_OBJECT_VALUE_LEN <? blen (ovalue x).
(** The objects from the one with the identifier on, or all of them *)
Definition from_object (o : Z) (xs : list object) : list object :=
  drop (Z.to_nat (default 0 (position (λ x, oid x =? o) xs))) xs.
Definition head_id (xs : list object) : Z := match xs with x :: _ => oid x | [] => 0 end.
(** The response that carries a page, [rest] being what is left after it *)
Definition page_response (dev : DeviceIdentification.t) (code : DeviceIdCode.t) (page rest : list object)
    : ReadDeviceIdentificationResponse.t :=
  ReadDeviceIdentificationResponse.mk code (conformity_level dev) (negb (is_empty rest)) (head_id rest)
    (blen page) (device_objects_wire page).
Definition page_pdu (dev : DeviceIdentification.t) (code : DeviceIdCode.t) (page rest : list object) : bytes :=
  0x2B :: ReadDeviceIdentificationResponse_wire (page_response dev code page rest).

(** * Lemmas *)
Lemma configured_objects_spec {E} dev : ∃ co, configured_objects (E:=E) dev = Ok co ∧
  ConfiguredDeviceIdObjects.as_slice (E:=E) co = Ok (objects_of dev).
Proof. destruct dev as [v p m [u|] [n|] [o|] [a|]]; eexists; (split; [reflexivity|]); reflexivity. Qed.

Lemma objects_len dev : 3 ≤ blen (objects_of dev) ≤ 7.
Proof. destruct dev as [v p m [u|] [n|] [o|] [a|]]; unfold blen; cbn; lia. Qed.
(** Identifiers grow along the list. *)
Lemma objects_ids dev : StronglySorted (λ x y, oid x < oid y) (objects_of dev) ∧ Forall (λ x, 0 ≤ oid x ≤ 6) (objects_of dev).
Proof.
  destruct dev as [v p m [u|] [n|] [o|] [a|]]; cbn; split; repeat constructor; cbn; lia.
Qed.
Lemma stream_prefix dev code : ∃ rest, objects_of dev = stream_objects dev code ++ rest.
Proof. destruct code; [exists (drop 3 (objects_of dev)); symmetry; apply (take_drop 3)|exists []; by rewrite app_nil_r..]. Qed.
Lemma stream_nonempty dev code : stream_objects dev code ≠ [] ∧ blen (stream_objects dev code) ≤ 7.
Proof. destruct code, dev as [v p m [u|] [n|] [o|] [a|]]; split; done. Qed.

Lemma push_objects_wire acc xs : Forall (λ x, blen (ovalue x) ≤ 255) xs →
  push_objects acc xs = acc ++ device_objects_wire xs.
Proof.
  intros Hx. revert acc. induction Hx as [|[i v] xs Hv _ IH]; intros acc; cbn [push_objects].
  { unfold device_objects_wire. cbn. by rewrite app_nil_r. }
  cbn in Hv. pose proof (blen_nonneg v). rewrite IH, Z.mod_small by (cbn; lia). cbn [DeviceIdObjectEntry.id DeviceIdObjectEntry.value].
  change (device_objects_wire (_ :: xs)) with ((i :: blen v :: v) ++ device_objects_wire xs). by rewrite <-!app_assoc.
Qed.
Lemma blen_objects_cons x xs :
  blen (device_objects_wire (x :: xs)) = 2 + blen (ovalue x) + blen (device_objects_wire xs).
Proof.
  change (device_objects_wire (x :: xs)) with (device_object_wire x ++ device_objects_wire xs).
  rewrite blen_app. unfold device_object_wire. rewrite !blen_cons. lia.
Qed.
Lemma select_objects_spec xs : ∀ len cnt, len ≤ 253 → ∃ page rest, xs = page ++ rest ∧
  select_objects xs len cnt =
    (len + blen (device_objects_wire page), cnt + blen page, negb (is_empty rest), head_id rest) ∧
  len + blen (device_objects_wire page) ≤ 253 ∧
  (∀ x rest', rest = x :: rest' → 253 < len + blen (device_objects_wire page) + (2 + blen (ovalue x))).
Proof.
  induction xs as [|x xs IH]; intros len cnt Hlen; cbn [select_objects].
  { exists [], []. cbn. change (blen (device_objects_wire [])) with 0. rewrite !Z.add_0_r. by split_and!. }
  change DEVICE_ID_OBJECT_HEADER_LEN with 2. change MAX_PDU_SIZE with 253.
  destruct (Z.ltb_spec 253 (len + (2 + blen (ovalue x)))) as [Hlt|Hge].
  - exists [], (x :: xs). change (blen (device_objects_wire [])) with 0. rewrite is_empty_cons. cbn. rewrite !Z.add_0_r.
    split_and!; [done..|]. intros y rest' [= <- <-]. lia.
  - destruct (IH (len + (2 + blen (ovalue x))) (cnt + 1) Hge) as (page & rest & -> & -> & Hl & Hmax).
    exists (x :: page), rest. rewrite blen_objects_cons, blen_cons.
    split_and!; [done| |lia|].
    { replace (len + (2 + blen (ovalue x) + blen (device_objects_wire page)))
        with (len + (2 + blen (ovalue x)) + blen (device_objects_wire page)) by lia.
      by replace (cnt + (1 + blen page)) with (cnt + 1 + blen page) by lia. }
    intros y rest' Hr. specialize (Hmax y rest' Hr). lia.
Qed.
Lemma position_bound {A} (p : A → bool) l i : position p l = Some i → 0 ≤ i < blen l.
Proof.
  revert i. induction l as [|x l IH]; intros i; cbn; [done|]. rewrite blen_cons. pose proof (blen_nonneg l).
  destruct (p x); [intros [= <-]; lia|]. destruct (position p l); [|done]. cbn. intros [= <-]. specialize (IH _ eq_refl). lia.
Qed.

Lemma build_response_page {E} dev code page rest len :
  Forall (λ x, too_long x = false) page → blen page ≤ 7 → len = 7 + blen (device_objects_wire page) →
  build_response (E:=E) code (conformity_level dev) (negb (is_empty rest)) (head_id rest) page len
  = Ok (page_pdu dev code page rest).
Proof.
  intros Hp Hn Hlen. pose proof (blen_nonneg page). unfold build_response.
  rewrite push_objects_wire by (eapply Forall_impl; [exact Hp|]; intros x Hx; unfold too_long in Hx; change MAX_DEVICE_ID_OBJECT_VALUE_LEN with 244 in Hx; lia).
  rewrite blen_app. change (blen [_; _; _; _; _; _; _]) with 7. rewrite (Z.mod_small (blen page)) by lia.
  replace (7 + blen (device_objects_wire page) =? len) with true by lia. cbn [debug_assert rbind].
  unfold page_pdu, ReadDeviceIdentificationResponse_wire, page_response. cbn. by destruct rest.
Qed.
Lemma page_nonempty xs page rest : xs ≠ [] → Forall (λ x, too_long x = false) xs → xs = page ++ rest →
  (∀ x rest', rest = x :: rest' → 253 < 7 + blen (device_objects_wire page) + (2 + blen (ovalue x))) → page ≠ [].
Proof.
  intros Hne Hl -> Hmax ->. destruct rest as [|x rest]; [done|]. specialize (Hmax x rest eq_refl).
  change (blen (device_objects_wire [])) with 0 in Hmax. apply Forall_cons in Hl as [Hx _]. unfold too_long in Hx.
  change MAX_DEVICE_ID_OBJECT_VALUE_LEN with 244 in Hx. lia.
Qed.
(** A page is a prefix, maximal within the PDU. *)
Definition is_page (xs page rest : list object) : Prop :=
  xs = page ++ rest ∧ page ≠ [] ∧ 7 + blen (device_objects_wire page) ≤ 253 ∧
  ∀ x rest', rest = x :: rest' → 253 < 7 + blen (device_objects_wire page) + (2 + blen (ovalue x)).

Lemma build_stream_response_spec {E} dev code o : code ≠ DeviceIdCode.Individual →
  let xs := stream_objects dev code in
  if existsb too_long xs
  then build_stream_response (E:=E) code (conformity_level dev) o xs
       = Ok (device_id_exception ExceptionCode.ServerDeviceFailure)
  else ∃ page rest, is_page (from_object o xs) page rest ∧
    build_stream_response (E:=E) code (conformity_level dev) o xs = Ok (page_pdu dev code page rest).
Proof.
  intros Hcode xs. destruct (stream_nonempty dev code) as [Hne Hlen]. fold xs in Hne, Hlen.
  unfold build_stream_response. change (λ x, MAX_DEVICE_ID_OBJECT_VALUE_LEN <? blen (ovalue x)) with too_long.
  destruct (existsb too_long xs) eqn:Hl; [done|].
  assert (Forall (λ x, too_long x = false) xs) as Hall.
  { apply Forall_forall. intros x Hx. destruct (too_long x) eqn:Ht; [|done].
    enough (existsb too_long xs = true) by congruence. apply existsb_exists. exists x. by rewrite <-list_elem_of_In. }
  set (start := default 0 (position (λ x, oid x =? o) xs)).
  assert (0 ≤ start < blen xs) as Hstart.
  { unfold start. destruct (position _ xs) eqn:Hp; [by apply position_bound in Hp|]. cbn. destruct xs; [done|]. rewrite blen_cons.
    pose proof (blen_nonneg xs). lia. }
  rewrite slice_from_Ok by lia. cbn [rbind]. change (drop (Z.to_nat start) xs) with (from_object o xs).
  destruct (select_objects_spec (from_object o xs) DEVICE_ID_RESPONSE_HEADER_LEN 0) as (page & rest & Hsplit & -> & Hfit & Hmax);
    [done|]. change DEVICE_ID_RESPONSE_HEADER_LEN with 7 in *.
  assert (Forall (λ x, too_long x = false) (from_object o xs)) as Hall' by by apply Forall_drop.
  assert (from_object o xs ≠ []) as Hne'.
  { intros He. apply (f_equal blen) in He. unfold from_object in He. fold start in He. rewrite blen_drop in He by lia.
    change (blen []) with 0 in He. lia. }
  pose proof (page_nonempty _ page rest Hne' Hall' Hsplit Hmax) as Hpage. exists page, rest. split; [done|].
  assert (0 < blen page) by (destruct page; [done|]; rewrite blen_cons; pose proof (blen_nonneg page); lia).
  replace (0 + blen page =? 0) with false by lia. rewrite Z.add_0_l.
  assert (blen (from_object o xs) = blen xs - start) as Hfl by (unfold from_object; fold start; rewrite blen_drop by lia; lia).
  pose proof (blen_nonneg rest). rewrite Hsplit, blen_app in Hfl.
  rewrite slice_Ok by lia. replace (start + blen page - start) with (blen page) by lia.
  change (drop (Z.to_nat start) xs) with (from_object o xs). rewrite Hsplit.
  replace (take (Z.to_nat (blen page)) (page ++ rest)) with page by (unfold blen; rewrite Nat2Z.id; by rewrite take_app_length).
  cbn [rbind]. rewrite Hsplit in Hall'. apply Forall_app in Hall' as [Hpl _]. apply build_response_page; [done|lia|done].
Qed.

(** What the request with [mei_data] gets *)
Definition device_id_answer (mei_data : bytes) (dev : DeviceIdentification.t) (resp : bytes) : Prop :=
  match mei_data with
  | [raw; o] =>
      match DeviceIdCode.from_raw raw with
      | None => resp = device_id_exception ExceptionCode.IllegalDataValue
      | Some DeviceIdCode.Individual =>
          match List.find (λ x, oid x =? o) (objects_of dev) with
          | None => resp = device_id_exception ExceptionCode.IllegalDataAddress
          | Some x => if too_long x then resp = device_id_exception ExceptionCode.ServerDeviceFailure
                      else resp = page_pdu dev DeviceIdCode.Individual [x] []
          end
      | Some code =>
          let xs := stream_objects dev code in
          if existsb too_long xs then resp = device_id_exception ExceptionCode.ServerDeviceFailure
          else ∃ page rest, is_page (from_object o xs) page rest ∧ resp = page_pdu dev code page rest
      end
  | _ => resp = device_id_exception ExceptionCode.IllegalDataValue
  end.

Lemma build_device_id_response_spec {E} mei_data dev :
  ∃ resp, build_device_id_response (E:=E) mei_data dev = Ok resp ∧ device_id_answer mei_data dev resp.
Proof.
  unfold build_device_id_response, device_id_answer. change DEVICE_ID_REQUEST_LEN with 2.
  destruct mei_data as [|raw [|o [|z l]]]; try (by eexists).
  2:{ rewrite !blen_cons. pose proof (blen_nonneg l). replace (negb _) with true by lia. by eexists. }
  cbn [negb]. change (negb (blen [raw; o] =? 2)) with false. cbv iota.
  destruct (DeviceIdCode.from_raw raw) as [code|]; [|by eexists].
  destruct (configured_objects_spec (E:=E) dev) as (co & -> & Hs). cbn [rbind]. rewrite Hs. cbn [rbind].
  pose proof (build_stream_response_spec (E:=E) dev code o) as Hst. cbv zeta in Hst. pose proof (objects_len dev).
  assert (code ≠ DeviceIdCode.Individual → ∃ resp,
    build_stream_response (E:=E) code (conformity_level dev) o (stream_objects dev code) = Ok resp ∧
    if existsb too_long (stream_objects dev code) then resp = device_id_exception ExceptionCode.ServerDeviceFailure
    else ∃ page rest, is_page (from_object o (stream_objects dev code)) page rest ∧ resp = page_pdu dev code page rest) as Hstream.
  { intros Hc. specialize (Hst Hc). destruct (existsb too_long (stream_objects dev code)); [by eexists|].
    destruct Hst as (page & rest & Hp & ->). eexists. split; [done|]. by exists page, rest. }
  destruct code; try (by apply Hstream).
  - change BASIC_DEVICE_ID_OBJECT_COUNT with 3. rewrite slice_to_Ok by lia. by apply Hstream.
  - destruct (List.find _ (objects_of dev)) as [x|] eqn:Hf; [|by eexists]. fold (too_long x).
    destruct (too_long x) eqn:Hx; [by eexists|]. eexists. split; [|done].
    apply (build_response_page dev DeviceIdCode.Individual [x] []); [by repeat constructor|done|].
    rewrite blen_objects_cons. change (blen (device_objects_wire [])) with 0. unfold DEVICE_ID_RESPONSE_HEADER_LEN, DEVICE_ID_OBJECT_HEADER_LEN. lia.
Qed.

(** ** Pages decode to what they carry *)
Lemma from_object_suffix o xs : ∃ pre, xs = pre ++ from_object o xs.
Proof. eexists. symmetry. apply take_drop. Qed.
Lemma page_objects dev code o page rest : is_page (from_object o (stream_objects dev code)) page rest →
  ∃ pre post, objects_of dev = pre ++ page ++ rest ++ post.
Proof.
  intros [Hs _]. destruct (stream_prefix dev code) as [post Hp]. destruct (from_object_suffix o (stream_objects dev code)) as [pre Hf].
  exists pre, post. by rewrite Hp, Hf at 1; rewrite Hs, <-!app_assoc.
Qed.
Lemma page_response_valid dev code pre page rest post : device_ok dev →
  objects_of dev = pre ++ page ++ rest ++ post → Forall (λ x, too_long x = false) page →
  (code = DeviceIdCode.Individual → blen page = 1) →
  ReadDeviceIdentificationResponse_wf (page_response dev code page rest) ∧
  ReadDeviceIdentificationResponse_valid (page_response dev code page rest) ∧
  Forall device_object_wf page.
Proof.
  intros Hd Hs Hl Hi. pose proof (objects_len dev) as Hlen. destruct (objects_ids dev) as [_ Hids].
  unfold device_ok in Hd. rewrite Hs in Hd, Hids, Hlen. rewrite !blen_app in Hlen. rewrite !Forall_app in Hd, Hids.
  pose proof (blen_nonneg pre). pose proof (blen_nonneg page). pose proof (blen_nonneg rest). pose proof (blen_nonneg post).
  assert (Forall device_object_wf page) as Hwf.
  { apply Forall_forall. intros x Hx. rewrite !Forall_forall in *. unfold device_object_wf. destruct_and!.
    specialize (Hl x Hx). unfold too_long in Hl. change MAX_DEVICE_ID_OBJECT_VALUE_LEN with 244 in Hl.
    split; [|split; [auto|lia]]. assert (0 ≤ oid x ≤ 6); auto. lia. }
  split_and!; [split; cbn| |done].
  - destruct_and!. destruct rest as [|x rest]; cbn; [lia|]. rewrite !Forall_cons in *. lia.
  - lia.
  - split_and!; cbn; [|by destruct rest|by auto|by exists page].
    unfold conformity_level. destruct (_ || _); set_solver.
Qed.
Lemma page_pdu_ok dev code page rest : 7 + blen (device_objects_wire page) ≤ 253 →
  blen (page_pdu dev code page rest) ≤ 253.
Proof.
  intros. unfold page_pdu, ReadDeviceIdentificationResponse_wire, page_response. cbn. rewrite !blen_cons. lia.
Qed.

(** ** Reading a stream page by page *)
Definition fetch_page (dev : DeviceIdentification.t) (code : DeviceIdCode.t) (o : Z)
    : option (ReadDeviceIdentificationResponse.t * list object) :=
  match build_device_id_response (E:=Empty_set) [DeviceIdCode.code code; o] dev with
  | Ok (0x2B :: data) =>
      match ReadDeviceIdentificationResponse.decode data with
      | Ok x => match DeviceIdObjectIter.collect 256 (ReadDeviceIdentificationResponse.objects x) with
                | Ok xs => Some (x, xs)
                | _ => None
                end
      | _ => None
      end
  | _ => None
  end.
Fixpoint fetch (pages : nat) (dev : DeviceIdentification.t) (code : DeviceIdCode.t) (o : Z) : option (list object) :=
  match pages with
  | O => None
  | S pages =>
      match fetch_page dev code o with
      | None => None
      | Some (x, xs) =>
          if ReadDeviceIdentificationResponse.more_follows x
          then option_map (app xs) (fetch pages dev code (ReadDeviceIdentificationResponse.next_object_id x))
          else Some xs
      end
  end.

Section Stream.
Context (dev : DeviceIdentification.t) (Hdev : device_ok dev) (code : DeviceIdCode.t).
Context (Hcode : code ≠ DeviceIdCode.Individual) (Hshort : existsb too_long (stream_objects dev code) = false).

Lemma stream_short : Forall (λ x, too_long x = false) (stream_objects dev code).
Proof.
  apply Forall_forall. intros x Hx. destruct (too_long x) eqn:Ht; [|done].
  enough (existsb too_long (stream_objects dev code) = true) by congruence.
  apply existsb_exists. exists x. by rewrite <-list_elem_of_In.
Qed.
Lemma fetch_page_spec o : ∃ page rest, is_page (from_object o (stream_objects dev code)) page rest ∧
  fetch_page dev code o = Some (page_response dev code page rest, page).
Proof.
  destruct (build_device_id_response_spec (E:=Empty_set) [DeviceIdCode.code code; o] dev) as (resp & Heq & Hans).
  unfold device_id_answer in Hans.
  assert (DeviceIdCode.from_raw (DeviceIdCode.code code) = Some code) as Hraw by by destruct code.
  rewrite Hraw in Hans. cbv zeta in Hans. rewrite Hshort in Hans.
  assert (∃ page rest, is_page (from_object o (stream_objects dev code)) page rest ∧ resp = page_pdu dev code page rest)
    as (page & rest & Hp & ->) by by destruct code.
  exists page, rest. split; [done|]. destruct (page_objects dev code o page rest Hp) as (pre & post & Hobj).
  destruct (from_object_suffix o (stream_objects dev code)) as [q Hq]. pose proof stream_short as Hs.
  rewrite Hq, (proj1 Hp), !Forall_app in Hs.
  destruct (page_response_valid dev code pre page rest post Hdev Hobj) as (Hwf & Hv & _); [by destruct Hs as (_ & ? & _)|done|].
  unfold fetch_page. rewrite Heq. unfold page_pdu.
  rewrite ReadDeviceIdentificationResponse_decode_wire by done. unfold ReadDeviceIdentificationResponse.objects, page_response. cbn [ReadDeviceIdentificationResponse.object_data ReadDeviceIdentificationResponse.num_objects].
  rewrite (DeviceIdObjectIter_collect_more (S (length page)) 256 _ page); [done| |apply DeviceIdObjectIter_collect_wire].
  pose proof (objects_len dev) as Hlen. rewrite Hobj, !blen_app in Hlen. unfold blen in Hlen. lia.
Qed.
(** With growing identifiers the next page starts where the page ended. *)
Lemma from_object_split pre x post : stream_objects dev code = pre ++ x :: post →
  from_object (oid x) (stream_objects dev code) = x :: post.
Proof.
  intros He. destruct (objects_ids dev) as [Hsort _]. destruct (stream_prefix dev code) as [tl Htl].
  rewrite Htl, He, <-app_assoc in Hsort.
  assert (position (λ y, oid y =? oid x) (pre ++ x :: post) = Some (blen pre)) as Hpos.
  { clear He Htl. induction pre as [|y pre IH]; cbn in *; [by rewrite Z.eqb_refl|]. inversion Hsort as [|? ? Hs Hall]; subst.
    apply Forall_app in Hall as [_ Hall]. apply Forall_cons in Hall as [Hx _].
    replace (oid y =? oid x) with false by lia. rewrite IH by done. cbn. rewrite blen_cons. f_equal. lia. }
  unfold from_object. rewrite He, Hpos. cbn. unfold blen. by rewrite Nat2Z.id, drop_app_length.
Qed.
Lemma fetch_suffix fuel : ∀ o pre ys, stream_objects dev code = pre ++ ys → ys ≠ [] →
  from_object o (stream_objects dev code) = ys → (length ys ≤ fuel)%nat → fetch fuel dev code o = Some ys.
Proof.
  induction fuel as [|fuel IH]; intros o pre ys Hs Hne Hfrom Hlen; [by destruct ys; cbn in Hlen; [|lia]|]. cbn [fetch].
  destruct (fetch_page_spec o) as (page & rest & (Hsplit & Hpage & _) & ->). rewrite Hfrom in Hsplit.
  cbn [page_response ReadDeviceIdentificationResponse.more_follows ReadDeviceIdentificationResponse.next_object_id].
  destruct rest as [|x rest]; cbn [head_id].
  - change (negb (is_empty [])) with false. cbv iota. by rewrite Hsplit, app_nil_r.
  - rewrite is_empty_cons. cbn [negb]. rewrite (IH (oid x) (pre ++ page) (x :: rest)); [by rewrite Hsplit| |done| |].
    + by rewrite Hs, Hsplit, <-app_assoc.
    + apply (from_object_split (pre ++ page)). by rewrite Hs, Hsplit, <-app_assoc.
    + rewrite Hsplit, length_app in Hlen. destruct page; [done|]. cbn in *. lia.
Qed.
End Stream.

(** * Theorems *)

(** Every Read Device Identification request is answered, without a panic and
    with the right response: malformed requests and unknown codes with
    [IllegalDataValue]; an individual access with its object, [IllegalDataAddress] if
    it is not configured, or [ServerDeviceFailure] if it cannot fit a PDU; a stream
    with the longest run of whole objects that fits, from the requested object on
    (from the first for an unknown one), [more_follows] and [next_object_id] naming
    the first object left out. *)
Theorem device_id_exact (mei_data : bytes) (dev : DeviceIdentification.t) :
  ∃ resp, build_device_id_response (E:=Empty_set) mei_data dev = Ok resp ∧ device_id_answer mei_data dev resp.
Proof. apply build_device_id_response_spec. Qed.

(** A client that starts a stream at object 0 and follows [next_object_id] gets,
    after at most seven requests, every object of the stream exactly once and in
    order, whenever each of them fits a PDU by itself. *)
Theorem device_id_stream_complete (dev : DeviceIdentification.t) (code : DeviceIdCode.t) :
  device_ok dev → code ≠ DeviceIdCode.Individual → existsb too_long (stream_objects dev code) = false →
  fetch 7 dev code 0 = Some (stream_objects dev code).
Proof.
  intros Hd Hc Hl. destruct (stream_nonempty dev code) as [Hne Hlen].
  apply (fetch_suffix dev Hd code Hc Hl 7 0 [] (stream_objects dev code)); [done|done| |unfold blen in Hlen; lia].
  by destruct code, dev.
Qed.
(** Three objects of 200 bytes need three pages. *)
Lemma device_id_stream_complete_witness :
  let v := replicate 200 65 in
  fetch 7 (DeviceIdentification.mk v v v None None None None) DeviceIdCode.BasicStream 0
  = Some [DeviceIdObjectEntry.mk 0 v; DeviceIdObjectEntry.mk 1 v; DeviceIdObjectEntry.mk 2 v].
Proof.
  refine (device_id_stream_complete (DeviceIdentification.mk _ _ _ None None None None) DeviceIdCode.BasicStream _ _ _);
    [|done|reflexivity].
  assert (bytes_ok (replicate 200 65)) as Hv by (apply Forall_replicate; unfold byte_ok; lia).
  unfold device_ok, objects_of. cbn [optional app]. by repeat (apply List.Forall_cons; [exact Hv|]).
Defined.
