(* ===== verification/Handler.v ===== *)
(** * Request handling (crates/rusty-modbus-server: src/handler.rs, src/response_encode.rs)

    From a request PDU to the response PDU, through the codec, the validators and a
    data store. The handlers are generic in the store; [Server] states what they
    promise for any store that keeps its interface, and for the in-memory store. *)
From S2P Require Import Prelude Types CodecError FileRecords Requests Responses MeiResponses Pdu Validate.
From S2P Require Import Bits Store DeviceId.

(** ** Early returns and store calls

    A handler that returns a response early runs in [ST S bytes]: an error value is
    the response returned. *)
Definition returning {S} (m : ST S bytes bytes) : ST S Empty_set bytes :=
  λ s, match m s with
       | (Ok r, s') | (Err r, s') => (Ok r, s')
       | (Panic, s') => (Panic, s')
       | (OutOfFuel, s') => (OutOfFuel, s')
       end.
(** [if let Err(ec) = r { return f(ec); }] *)
Definition or_return {S A} (r : res Exc A) (f : Exc → bytes) : ST S bytes A :=
  match r with
  | Ok a => st_ret a
  | Err ec => st_err (f ec)
  | Panic => st_panic
  | OutOfFuel => st_lift OutOfFuel
  end.
(** A call whose [Result] the handler inspects *)
Definition attempt {S E A} (m : ST S Exc A) : ST S E (A + Exc) :=
  λ s, match m s with
       | (Ok a, s') => (Ok (inl a), s')
       | (Err ec, s') => (Ok (inr ec), s')
       | (Panic, s') => (Panic, s')
       | (OutOfFuel, s') => (OutOfFuel, s')
       end.
(** A call that gets [&mut response\[i..j\]], and one that gets the whole vector *)
Definition attempt_slice {S E A} (i j : Z) (m : ST (S * bytes) Exc A) (response : bytes)
    : ST S E ((A + Exc) * bytes) :=
  part <- st_lift (slice response i j);;
  λ s, match m (s, part) with
       | (Ok a, (s', part)) =>
           (Ok (inl a, take (Z.to_nat i) response ++ part ++ drop (Z.to_nat j) response), s')
       | (Err ec, (s', part)) =>
           (Ok (inr ec, take (Z.to_nat i) response ++ part ++ drop (Z.to_nat j) response), s')
       | (Panic, (s', _)) => (Panic, s')
       | (OutOfFuel, (s', _)) => (OutOfFuel, s')
       end.
Definition attempt_vec {S E A} (m : ST (S * bytes) Exc A) (response : bytes)
    : ST S E ((A + Exc) * bytes) :=
  λ s, match m (s, response) with
       | (Ok a, (s', response)) => (Ok (inl a, response), s')
       | (Err ec, (s', response)) => (Ok (inr ec, response), s')
       | (Panic, (s', _)) => (Panic, s')
       | (OutOfFuel, (s', _)) => (OutOfFuel, s')
       end.
(** [v\[i\] = x] and [v\[i..j\].copy_from_slice(x)] on a local vector *)
Definition vec_set {E A} (i : Z) (x : A) (v : list A) : res E (list A) :=
  if (0 <=? i) && (i <? blen v) then Ok (<[Z.to_nat i := x]> v) else Panic.
Definition vec_copy {E A} (i j : Z) (x v : list A) : res E (list A) :=
  if (0 <=? i) && (i <=? j) && (j <=? blen v) && (j - i =? blen x)
  then Ok (take (Z.to_nat i) v ++ x ++ drop (Z.to_nat j) v) else Panic.
(** [vec!\[0u8; n\]] *)
Definition zeros (n : Z) : bytes := replicate (Z.to_nat n) 0.

(** ** response_encode.rs *)
Class ServerResponse (R : Type) `{Encode R} : Type := FUNCTION_CODE : FunctionCode.t.
#[export] Instance ReadCoilsResponse_fc : ServerResponse ReadCoilsResponse.t := FunctionCode.ReadCoils.
#[export] Instance ReadDiscreteInputsResponse_fc : ServerResponse ReadDiscreteInputsResponse.t := FunctionCode.ReadDiscreteInputs.
#[export] Instance ReadHoldingRegistersResponse_fc : ServerResponse ReadHoldingRegistersResponse.t := FunctionCode.ReadHoldingRegisters.
#[export] Instance ReadInputRegistersResponse_fc : ServerResponse ReadInputRegistersResponse.t := FunctionCode.ReadInputRegisters.
#[export] Instance WriteSingleCoilResponse_fc : ServerResponse WriteSingleCoilResponse.t := FunctionCode.WriteSingleCoil.
#[export] Instance WriteSingleRegisterResponse_fc : ServerResponse WriteSingleRegisterResponse.t := FunctionCode.WriteSingleRegister.
#[export] Instance ReadExceptionStatusResponse_fc : ServerResponse ReadExceptionStatusResponse.t := FunctionCode.ReadExceptionStatus.
#[export] Instance DiagnosticsResponse_fc : ServerResponse DiagnosticsResponse.t := FunctionCode.Diagnostics.
#[export] Instance GetCommEventCounterResponse_fc : ServerResponse GetCommEventCounterResponse.t := FunctionCode.GetCommEventCounter.
#[export] Instance GetCommEventLogResponse_fc : ServerResponse GetCommEventLogResponse.t := FunctionCode.GetCommEventLog.
#[export] Instance WriteMultipleCoilsResponse_fc : ServerResponse WriteMultipleCoilsResponse.t := FunctionCode.WriteMultipleCoils.
#[export] Instance WriteMultipleRegistersResponse_fc : ServerResponse WriteMultipleRegistersResponse.t := FunctionCode.WriteMultipleRegisters.
#[export] Instance ReportServerIdResponse_fc : ServerResponse ReportServerIdResponse.t := FunctionCode.ReportServerId.
#[export] Instance ReadFileRecordResponse_fc : ServerResponse ReadFileRecordResponse.t := FunctionCode.ReadFileRecord.
#[export] Instance WriteFileRecordResponse_fc : ServerResponse WriteFileRecordResponse.t := FunctionCode.WriteFileRecord.
#[export] Instance MaskWriteRegisterResponse_fc : ServerResponse MaskWriteRegisterResponse.t := FunctionCode.MaskWriteRegister.
#[export] Instance ReadWriteMultipleRegistersResponse_fc : ServerResponse ReadWriteMultipleRegistersResponse.t := FunctionCode.ReadWriteMultipleRegisters.
#[export] Instance ReadFifoQueueResponse_fc : ServerResponse ReadFifoQueueResponse.t := FunctionCode.ReadFifoQueue.

(** Both files have a private [encode_exception]; the one of response_encode.rs
    always reports [ServerDeviceFailure]. *)
Definition encode_exception (fc_with_flag : Z) (ec : Exc) : bytes := [fc_with_flag; ExceptionCode.code ec].

Definition encode_response {E R} `{ServerResponse R} (resp : R) : res E bytes :=
  let fallback := encode_exception (FunctionCode.exception_code FUNCTION_CODE) ExceptionCode.ServerDeviceFailure in
  match encode_into resp (zeros (encoded_len resp)) with
  | (Ok written, buf) => if written =? blen buf then Ok buf else Ok fallback
  | (Err _, _) => Ok fallback
  | (Panic, _) => Panic
  | (OutOfFuel, _) => OutOfFuel
  end.

(** ** handler.rs *)
Definition checked_response_u8 (value : Z) (fc : FunctionCode.t) : res bytes Z :=
  if (0 <=? value) && (value <=? u8_max) then Ok value
  else Err (encode_exception (FunctionCode.exception_code fc) ExceptionCode.ServerDeviceFailure).
Definition checked_response_u16 (value : Z) (fc : FunctionCode.t) : res bytes Z :=
  if (0 <=? value) && (value <=? u16_max) then Ok value
  else Err (encode_exception (FunctionCode.exception_code fc) ExceptionCode.ServerDeviceFailure).
Definition validate_store_count (count requested capacity : Z) : res Exc Z :=
  if (count =? requested) && (count <=? capacity) then Ok count else Err ExceptionCode.ServerDeviceFailure.

Section Handlers.
Context {S : Type} `{DataStore S}.

Definition handle_custom_request (unit_id function_code : Z) (request_data : bytes) : ST S bytes bytes :=
  response <- st_lift (vec_set 0 function_code (zeros MAX_PDU_SIZE));;
  r <- attempt_slice 1 (blen response) (handle_custom_function unit_id function_code request_data) response;;
  let '(result, response) := r in
  match result with
  | inl response_data_len =>
      if response_data_len <? MAX_PDU_SIZE
      then st_ret (take (Z.to_nat (1 + response_data_len)) response)
      else st_ret (encode_exception (Z.lor function_code 0x80) ExceptionCode.ServerDeviceFailure)
  | inr ec => st_ret (encode_exception (Z.lor function_code 0x80) ec)
  end.

Definition handle_comm_event_log : ST S bytes bytes :=
  let fc := FunctionCode.GetCommEventLog in
  let response := [FunctionCode.code fc] ++ [0] ++ replicate 6 0 in
  let events_start := blen response in
  r <- attempt_vec append_comm_event_log response;;
  let '(result, response) := r in
  match result with
  | inl meta =>
      let events_len := Z.max 0 (blen response - events_start) in
      if MAX_COMM_EVENT_LOG_EVENTS <? events_len
      then st_err (encode_exception (FunctionCode.exception_code fc) ExceptionCode.ServerDeviceFailure) else
      byte_count <- st_lift (checked_response_u8 (events_len + 6) fc);;
      response <- st_lift (vec_set 1 byte_count response);;
      response <- st_lift (vec_copy 2 4 (to_be_bytes (CommEventLogMeta.status meta)) response);;
      response <- st_lift (vec_copy 4 6 (to_be_bytes (CommEventLogMeta.event_count meta)) response);;
      response <- st_lift (vec_copy 6 8 (to_be_bytes (CommEventLogMeta.message_count meta)) response);;
      st_ret response
  | inr ec => st_ret (encode_exception (FunctionCode.exception_code fc) ec)
  end.

Definition handle_diagnostics (sub_function : DiagnosticSubFunction.t) (data : bytes)
    : ST S Empty_set (option bytes) :=
  let fc := FunctionCode.Diagnostics in
  let response := [FunctionCode.code fc] ++ to_be_bytes (DiagnosticSubFunction.code sub_function) in
  let data_start := blen response in
  r <- attempt_vec (append_diagnostic_response sub_function data) response;;
  let '(result, response) := r in
  match result with
  | inl (Some count) =>
      let actual_count := Z.max 0 (blen response - data_start) in
      if negb (count =? actual_count) || (MAX_DIAGNOSTIC_RESPONSE_DATA_LEN <? actual_count)
         || negb (is_multiple_of actual_count 2)
      then st_ret (Some (encode_exception (FunctionCode.exception_code fc) ExceptionCode.ServerDeviceFailure))
      else st_ret (Some response)
  | inl None => st_ret None
  | inr ec => st_ret (Some (encode_exception (FunctionCode.exception_code fc) ec))
  end.

Definition handle_report_server_id : ST S bytes bytes :=
  let fc := FunctionCode.ReportServerId in
  let response := [FunctionCode.code fc] ++ [0] in
  let data_start := blen response in
  r <- attempt_vec append_server_id response;;
  let '(result, response) := r in
  match result with
  | inl count =>
      let actual_count := Z.max 0 (blen response - data_start) in
      if negb (count =? actual_count) || (MAX_SERVER_ID_BYTES <? actual_count)
      then st_err (encode_exception (FunctionCode.exception_code fc) ExceptionCode.ServerDeviceFailure) else
      byte_count <- st_lift (checked_response_u8 actual_count fc);;
      st_lift (vec_set 1 byte_count response)
  | inr ec => st_ret (encode_exception (FunctionCode.exception_code fc) ec)
  end.

Definition handle_read_registers (fc : FunctionCode.t) (address quantity : Z) (is_holding : bool)
    : ST S bytes bytes :=
  or_return (validate_read_registers address quantity) (encode_exception (FunctionCode.exception_code fc));;;
  byte_count <- st_lift (checked_response_u8 (quantity * 2) fc);;
  let response_fc := if is_holding then FunctionCode.ReadHoldingRegisters else FunctionCode.ReadInputRegisters in
  response <- st_lift (vec_set 0 (FunctionCode.code response_fc) (zeros (2 + byte_count)));;
  response <- st_lift (vec_set 1 byte_count response);;
  r <- (if is_holding
        then attempt_slice 2 (blen response) (read_holding_registers_be address quantity) response
        else attempt_slice 2 (blen response) (read_input_registers_be address quantity) response);;
  let '(result, response) := r in
  match result with
  | inl count =>
      or_return (validate_store_count count quantity quantity) (encode_exception (FunctionCode.exception_code fc));;;
      st_ret response
  | inr ec => st_ret (encode_exception (FunctionCode.exception_code fc) ec)
  end.

Definition handle_read_bits (fc : FunctionCode.t) (address quantity : Z) (is_coils : bool)
    : ST S bytes bytes :=
  let validation := if is_coils then validate_read_coils address quantity
                    else validate_read_discrete_inputs address quantity in
  or_return validation (encode_exception (FunctionCode.exception_code fc));;;
  byte_count <- st_lift (checked_response_u8 (div_ceil quantity 8) fc);;
  let response_fc := if is_coils then FunctionCode.ReadCoils else FunctionCode.ReadDiscreteInputs in
  response <- st_lift (vec_set 0 (FunctionCode.code response_fc) (zeros (2 + byte_count)));;
  response <- st_lift (vec_set 1 byte_count response);;
  r <- (if is_coils
        then attempt_slice 2 (blen response) (read_coils_packed address quantity) response
        else attempt_slice 2 (blen response) (read_discrete_inputs_packed address quantity) response);;
  let '(result, response) := r in
  match result with
  | inl count =>
      or_return (validate_store_count count quantity quantity) (encode_exception (FunctionCode.exception_code fc));;;
      st_ret response
  | inr ec => st_ret (encode_exception (FunctionCode.exception_code fc) ec)
  end.

Definition handle_mask_write (address and_mask or_mask : Z) : ST S Exc unit :=
  st_lift (validate_mask_write_address address);;;
  atomic_mask_write_register address and_mask or_mask.

Definition handle_read_write_multiple (req : ReadWriteMultipleRegistersRequest.t) : ST S bytes bytes :=
  let fc := FunctionCode.ReadWriteMultipleRegisters in
  let '(ReadWriteMultipleRegistersRequest.mk read_address read_quantity write_address write_quantity
          write_byte_count write_register_values) := req in
  or_return (validate_read_write_registers read_address read_quantity write_address write_quantity write_byte_count)
    (encode_exception (FunctionCode.exception_code fc));;;
  byte_count <- st_lift (checked_response_u8 (read_quantity * 2) fc);;
  response <- st_lift (vec_set 0 (FunctionCode.code fc) (zeros (2 + byte_count)));;
  response <- st_lift (vec_set 1 byte_count response);;
  r <- attempt_slice 2 (blen response)
         (atomic_read_write_registers_be read_address read_quantity write_address write_quantity
            write_register_values) response;;
  let '(result, response) := r in
  match result with
  | inl count =>
      or_return (validate_store_count count read_quantity read_quantity)
        (encode_exception (FunctionCode.exception_code fc));;;
      st_ret response
  | inr ec => st_ret (encode_exception (FunctionCode.exception_code fc) ec)
  end.

(** One round of [for chunk in subs.chunks_exact(7)], on the response so far *)
Definition read_file_group (chunk response : bytes) : ST S bytes bytes :=
  let fail := encode_exception (FunctionCode.exception_code FunctionCode.ReadFileRecord) in
  c0 <- st_lift (idx chunk 0);;
  if negb (c0 =? 6) then st_err (fail ExceptionCode.IllegalDataAddress) else
  file <- st_lift (be16_at chunk 1 2);;
  record <- st_lift (be16_at chunk 3 4);;
  length <- st_lift (be16_at chunk 5 6);;
  or_return (FileRecord.validate_range file record length) fail;;;
  let requested_count := length in
  if MAX_FILE_RECORD_REGISTERS <? requested_count then st_err (fail ExceptionCode.IllegalDataAddress) else
  let group_start := blen response in
  let value_byte_count := requested_count * 2 in
  let response := response ++ zeros (2 + value_byte_count) in
  r <- attempt_slice (group_start + 2) (group_start + 2 + value_byte_count)
         (read_file_record_be file record length) response;;
  let '(result, response) := r in
  response <- match result with
    | inl n =>
        n <- or_return (validate_store_count n length requested_count) fail;;
        let resp_len := 1 + 2 * n in
        resp_len <- st_lift (checked_response_u8 resp_len FunctionCode.ReadFileRecord);;
        response <- st_lift (vec_set group_start resp_len response);;
        st_lift (vec_set (group_start + 1) 0x06 response)
    | inr ec => st_err (fail ec)
    end;;
  data_len <- st_lift (usub (blen response) 2);;
  if 250 <? data_len then st_err (fail ExceptionCode.IllegalDataValue) else
  st_ret response.
Fixpoint read_file_groups (chunks : list bytes) (response : bytes) : ST S bytes bytes :=
  match chunks with
  | [] => st_ret response
  | chunk :: chunks => response <- read_file_group chunk response;; read_file_groups chunks response
  end.

Definition handle_read_file_record (req : ReadFileRecordRequest.t) : ST S bytes bytes :=
  let fc := FunctionCode.ReadFileRecord in
  let subs := ReadFileRecordRequest.sub_requests req in
  if is_empty subs || negb (is_multiple_of (blen subs) 7) || (0xF5 <? blen subs)
  then st_err (encode_exception (FunctionCode.exception_code fc) ExceptionCode.IllegalDataValue) else
  let response := [FunctionCode.code fc] ++ [0] in
  response <- read_file_groups (chunks_exact 7 subs) response;;
  data_len <- st_lift (usub (blen response) 2);;
  byte_count <- st_lift (checked_response_u8 data_len fc);;
  st_lift (vec_set 1 byte_count response).
End Handlers.

Module WriteFileRecordGroup.
Record t : Type := mk { file : Z; record : Z; length : Z; value_bytes : bytes }.
End WriteFileRecordGroup.
Definition MAX_WRITE_FILE_RECORD_REQUEST_BYTES : Z := 0xFB.
Definition MIN_WRITE_FILE_RECORD_SUB_REQUEST_BYTES : Z := 9.
Definition MAX_WRITE_FILE_RECORD_GROUPS : Z :=
  MAX_WRITE_FILE_RECORD_REQUEST_BYTES / MIN_WRITE_FILE_RECORD_SUB_REQUEST_BYTES.

(** [while !subs.is_empty()]: [groups] is the filled part of the array *)
Fixpoint parse_write_groups (fuel : nat) (subs : bytes) (groups : list WriteFileRecordGroup.t)
    : res Exc (list WriteFileRecordGroup.t) :=
  match fuel with
  | O => OutOfFuel
  | Datatypes.S fuel =>
      if is_empty subs then Ok groups else
      if blen subs <? 7 then Err ExceptionCode.IllegalDataValue else
      let? s0 := idx subs 0 in
      if negb (s0 =? 6) then Err ExceptionCode.IllegalDataAddress else
      let? file := be16_at subs 1 2 in
      let? record := be16_at subs 3 4 in
      let? length := be16_at subs 5 6 in
      let data_end := 7 + 2 * length in
      if blen subs <? data_end then Err ExceptionCode.IllegalDataValue else
      do? FileRecord.validate_range file record length in
      if blen groups =? MAX_WRITE_FILE_RECORD_GROUPS then Err ExceptionCode.IllegalDataValue else
      let? value_bytes := slice subs 7 data_end in
      let? rest := slice_from subs data_end in
      parse_write_groups fuel rest (groups ++ [WriteFileRecordGroup.mk file record length value_bytes])
  end.

Section Dispatch.
Context {S : Type} `{DataStore S}.

Fixpoint write_groups (groups : list WriteFileRecordGroup.t) : ST S Exc unit :=
  match groups with
  | [] => st_ret tt
  | WriteFileRecordGroup.mk file record length value_bytes :: groups =>
      write_file_record_be file record length value_bytes;;;
      write_groups groups
  end.
Definition apply_write_file_record (req : WriteFileRecordRequest.t) : ST S Exc unit :=
  let byte_count := WriteFileRecordRequest.byte_count req in
  if negb ((0x09 <=? byte_count) && (byte_count <=? 0xFB)) then st_err ExceptionCode.IllegalDataValue else
  let subs := WriteFileRecordRequest.sub_requests req in
  groups <- st_lift (parse_write_groups (Datatypes.S (length subs)) subs []);;
  write_groups groups.

Definition handle_read_fifo_queue (address : Z) : ST S bytes bytes :=
  let fc := FunctionCode.ReadFifoQueue in
  let MAX_FIFO_VALUE_BYTES := MAX_FIFO_VALUES * 2 in
  response <- st_lift (vec_set 0 (FunctionCode.code fc) (zeros (5 + MAX_FIFO_VALUE_BYTES)));;
  r <- attempt_slice 5 (blen response) (read_fifo_queue_be address) response;;
  let '(result, response) := r in
  match result with
  | inl count =>
      if MAX_FIFO_VALUES <? count
      then st_err (encode_exception (FunctionCode.exception_code fc) ExceptionCode.IllegalDataValue) else
      byte_count <- st_lift (checked_response_u16 (2 + count * 2) fc);;
      fifo_count <- st_lift (checked_response_u16 count fc);;
      response <- st_lift (vec_copy 1 3 (to_be_bytes byte_count) response);;
      response <- st_lift (vec_copy 3 5 (to_be_bytes fifo_count) response);;
      st_ret (take (Z.to_nat (5 + count * 2)) response)
  | inr ec => st_ret (encode_exception (FunctionCode.exception_code fc) ec)
  end.

(** The response to a result that carries no data *)
Definition respond {R} `{ServerResponse R} (result : unit + Exc) (ok : R) : res Empty_set bytes :=
  match result with
  | inl _ => encode_response ok
  | inr ec => Ok (encode_exception (FunctionCode.exception_code FUNCTION_CODE) ec)
  end.
(** [if is_broadcast { return None; } Some(m)] *)
Definition unless_broadcast (is_broadcast : bool) (m : ST S Empty_set bytes) : ST S Empty_set (option bytes) :=
  if is_broadcast then st_ret None else r <- m;; st_ret (Some r).

Definition dispatch_request (request : RequestPdu.t) (pdu : bytes) (unit_id : Z) (is_broadcast : bool)
    (device_id : DeviceIdentification.t) : ST S Empty_set (option bytes) :=
  match request with
  | RequestPdu.ReadHoldingRegisters (ReadHoldingRegistersRequest.mk address quantity) =>
      unless_broadcast is_broadcast
        (returning (handle_read_registers FunctionCode.ReadHoldingRegisters address quantity true))
  | RequestPdu.ReadInputRegisters (ReadInputRegistersRequest.mk address quantity) =>
      unless_broadcast is_broadcast
        (returning (handle_read_registers FunctionCode.ReadInputRegisters address quantity false))
  | RequestPdu.ReadCoils (ReadCoilsRequest.mk address quantity) =>
      unless_broadcast is_broadcast (returning (handle_read_bits FunctionCode.ReadCoils address quantity true))
  | RequestPdu.ReadDiscreteInputs (ReadDiscreteInputsRequest.mk address quantity) =>
      unless_broadcast is_broadcast (returning (handle_read_bits FunctionCode.ReadDiscreteInputs address quantity false))
  | RequestPdu.WriteSingleRegister (WriteSingleRegisterRequest.mk address value) =>
      result <- attempt (write_register address value);;
      unless_broadcast is_broadcast (st_lift (respond result (WriteSingleRegisterResponse.mk address value)))
  | RequestPdu.WriteMultipleRegisters (WriteMultipleRegistersRequest.mk address quantity byte_count register_values) =>
      match validate_write_registers address quantity byte_count with
      | Ok _ =>
          result <- attempt (write_registers_be address quantity register_values);;
          unless_broadcast is_broadcast (st_lift (respond result (WriteMultipleRegistersResponse.mk address quantity)))
      | Err ec => unless_broadcast is_broadcast
          (st_ret (encode_exception (FunctionCode.exception_code FunctionCode.WriteMultipleRegisters) ec))
      | Panic => st_panic
      | OutOfFuel => st_lift OutOfFuel
      end
  | RequestPdu.WriteSingleCoil (WriteSingleCoilRequest.mk address value) =>
      result <- attempt (write_coil address (CoilValue.as_bool value));;
      unless_broadcast is_broadcast (st_lift (respond result (WriteSingleCoilResponse.mk address value)))
  | RequestPdu.WriteMultipleCoils (WriteMultipleCoilsRequest.mk address quantity byte_count coil_values) =>
      match validate_write_coils address quantity byte_count with
      | Ok _ =>
          result <- attempt (write_coils_packed address quantity coil_values);;
          unless_broadcast is_broadcast (st_lift (respond result (WriteMultipleCoilsResponse.mk address quantity)))
      | Err ec => unless_broadcast is_broadcast
          (st_ret (encode_exception (FunctionCode.exception_code FunctionCode.WriteMultipleCoils) ec))
      | Panic => st_panic
      | OutOfFuel => st_lift OutOfFuel
      end
  | RequestPdu.MaskWriteRegister (MaskWriteRegisterRequest.mk address and_mask or_mask) =>
      result <- attempt (handle_mask_write address and_mask or_mask);;
      unless_broadcast is_broadcast (st_lift (respond result (MaskWriteRegisterResponse.mk address and_mask or_mask)))
  | RequestPdu.ReadWriteMultipleRegisters req =>
      unless_broadcast is_broadcast (returning (handle_read_write_multiple req))
  | RequestPdu.ReadFileRecord req =>
      unless_broadcast is_broadcast (returning (handle_read_file_record req))
  | RequestPdu.WriteFileRecord req =>
      result <- attempt (apply_write_file_record req);;
      unless_broadcast is_broadcast (st_lift (respond result
        (WriteFileRecordResponse.mk (WriteFileRecordRequest.byte_count req) (WriteFileRecordRequest.sub_requests req))))
  | RequestPdu.ReadFifoQueue (ReadFifoQueueRequest.mk fifo_pointer_address) =>
      unless_broadcast is_broadcast (returning (handle_read_fifo_queue fifo_pointer_address))
  | RequestPdu.ReadExceptionStatus =>
      unless_broadcast is_broadcast (
        result <- attempt read_exception_status;;
        match result with
        | inl status => st_lift (encode_response (ReadExceptionStatusResponse.mk status))
        | inr ec => st_ret (encode_exception (FunctionCode.exception_code FunctionCode.ReadExceptionStatus) ec)
        end)
  | RequestPdu.Diagnostics (DiagnosticsRequest.mk sub_function data) =>
      result <- handle_diagnostics sub_function data;;
      if is_broadcast then st_ret None else st_ret result
  | RequestPdu.GetCommEventCounter =>
      unless_broadcast is_broadcast (
        result <- attempt get_comm_event_counter;;
        match result with
        | inl (status, event_count) => st_lift (encode_response (GetCommEventCounterResponse.mk status event_count))
        | inr ec => st_ret (encode_exception (FunctionCode.exception_code FunctionCode.GetCommEventCounter) ec)
        end)
  | RequestPdu.GetCommEventLog => unless_broadcast is_broadcast (returning handle_comm_event_log)
  | RequestPdu.ReportServerId => unless_broadcast is_broadcast (returning handle_report_server_id)
  | RequestPdu.EncapsulatedInterface (EncapsulatedInterfaceRequest.mk mei_type data) =>
      unless_broadcast is_broadcast (
        if bool_decide (mei_type = MeiType.ReadDeviceIdentification)
        then st_lift (build_device_id_response data device_id)
        else
          let fc := default 0 (get pdu 0) in
          st_ret (encode_exception (Z.lor fc 0x80) ExceptionCode.IllegalFunction))
  | RequestPdu.Custom function_code request_data =>
      unless_broadcast is_broadcast (returning (handle_custom_request unit_id function_code request_data))
  end.

Definition decode_exception (e : DecodeError.t) : Exc :=
  match e with
  | DecodeError.UnknownFunctionCode _ | DecodeError.UnknownDiagnosticSubFunction _ => ExceptionCode.IllegalFunction
  | DecodeError.InvalidReferenceType _ | DecodeError.FileRecordOutOfRange _ _ _ => ExceptionCode.IllegalDataAddress
  | _ => ExceptionCode.IllegalDataValue
  end.

Definition process_request (pdu : bytes) (unit_id : Z) (device_id : DeviceIdentification.t)
    : ST S Empty_set (option bytes) :=
  let is_broadcast := UnitId.is_broadcast unit_id in
  match decode_request pdu with
  | Ok request => dispatch_request request pdu unit_id is_broadcast device_id
  | Err e =>
      if is_broadcast then st_ret None else
      let fc := default 0 (get pdu 0) in
      let exc := decode_exception e in
      st_ret (Some (encode_exception (Z.lor fc 0x80) exc))
  | Panic => st_panic
  | OutOfFuel => st_lift OutOfFuel
  end.
End Dispatch.
