(* ===== verification/Server.v ===== *)
(** * What the request handler promises (crates/rusty-modbus-server: src/handler.rs)

    First the result of each handler as a function of what the store returned, for
    any store. From these: the laws [StoreLaws] a store has to keep, and that with
    them the server answers every request with a PDU of at most 253 bytes that
    carries the function code of the request, and never a broadcast. *)
From stdpp Require Import gmap.
From S2P Require Import Prelude Types CodecError FileRecords Requests Responses MeiResponses Pdu Validate.
From S2P Require Import Bits Store Memory DeviceId Handler.

(** An exception response to function code [fc] *)
Definition exception_reply (fc : FunctionCode.t) (ec : Exc) : bytes :=
  encode_exception (FunctionCode.exception_code fc) ec.

(** The reply of a handler that passes the rest of the vector after [pre] to the
    store, and the reply of one that lets the store append to [pre] *)
Definition filled_reply {S E} (fc : FunctionCode.t) (pre : bytes) (quantity : Z)
    (r : res Exc Z * (S * bytes)) : res E bytes * S :=
  match r with
  | (Ok n, (s, part)) =>
      (Ok (if n =? quantity then pre ++ part else exception_reply fc ExceptionCode.ServerDeviceFailure), s)
  | (Err ec, (s, _)) => (Ok (exception_reply fc ec), s)
  | (Panic, (s, _)) => (Panic, s)
  | (OutOfFuel, (s, _)) => (OutOfFuel, s)
  end.
Definition checked {E S} (fc : FunctionCode.t) (v : res Exc unit) (s : S) (k : res E bytes * S) : res E bytes * S :=
  match v with
  | Ok _ => k
  | Err ec => (Ok (exception_reply fc ec), s)
  | Panic => (Panic, s)
  | OutOfFuel => (OutOfFuel, s)
  end.

(** * The handlers as functions of the store's answer *)
Lemma blen_zeros n : 0 ≤ n → blen (zeros n) = n.
Proof. intros. unfold zeros. rewrite blen_replicate. lia. Qed.
Lemma bytes_ok_zeros n : bytes_ok (zeros n).
Proof. apply Forall_replicate. unfold byte_ok. lia. Qed.
Lemma header_zeros {E} fc bc : 0 ≤ bc → vec_set (E:=E) 0 fc (zeros (2 + bc)) = Ok (fc :: 0 :: zeros bc).
Proof.
  intros. unfold vec_set. rewrite blen_zeros by lia. replace (_ && _) with true by lia.
  unfold zeros. by replace (Z.to_nat (2 + bc)) with (S (S (Z.to_nat bc))) by lia.
Qed.
Lemma vec_set_1 {E} (a b x : Z) v : vec_set (E:=E) 1 x (a :: b :: v) = Ok (a :: x :: v).
Proof. unfold vec_set. rewrite !blen_cons. pose proof (blen_nonneg v). by replace (_ && _) with true by lia. Qed.
Lemma vec_set_at {E A} pre (a x : A) post i : i = blen pre →
  vec_set (E:=E) i x (pre ++ a :: post) = Ok (pre ++ x :: post).
Proof.
  intros ->. unfold vec_set. rewrite blen_app, blen_cons. pose proof (blen_nonneg pre). pose proof (blen_nonneg post).
  replace (_ && _) with true by lia. unfold blen. rewrite Nat2Z.id. by rewrite insert_app_r_alt, Nat.sub_diag by lia.
Qed.
Lemma vec_copy_word {E} pre a b w post i j : i = blen pre → j = i + 2 →
  vec_copy (E:=E) i j (to_be_bytes w) (pre ++ a :: b :: post) = Ok (pre ++ to_be_bytes w ++ post).
Proof.
  intros -> ->. unfold vec_copy. rewrite blen_app, !blen_cons. pose proof (blen_nonneg pre). pose proof (blen_nonneg post).
  change (blen (to_be_bytes w)) with 2. replace (_ && _ && _ && _) with true by lia. unfold blen.
  replace (Z.to_nat (Z.of_nat (length pre) + 2)) with (length pre + 2)%nat by lia.
  by rewrite Nat2Z.id, take_app_length, drop_app_add.
Qed.
Lemma checked_u8_ok v fc : is_u8 v → checked_response_u8 v fc = Ok v.
Proof. intros. unfold checked_response_u8, u8_max. by replace (_ && _) with true by lia. Qed.

Section Runs.
Context {S : Type} `{DataStore S}.
Implicit Types (s : S).

Lemma attempt_tail {E A} pre n (m : ST (S * bytes) Exc A) s i : 0 ≤ n → i = blen pre →
  attempt_slice (E:=E) i (blen (pre ++ zeros n)) m (pre ++ zeros n) s =
  match m (s, zeros n) with
  | (Ok a, (s', part)) => (Ok (inl a, pre ++ part), s')
  | (Err ec, (s', part)) => (Ok (inr ec, pre ++ part), s')
  | (Panic, (s', _)) => (Panic, s')
  | (OutOfFuel, (s', _)) => (OutOfFuel, s')
  end.
Proof.
  intros Hn ->. unfold attempt_slice. rewrite st_bind_lift. unfold slice. rewrite blen_app, blen_zeros by done.
  pose proof (blen_nonneg pre). replace (_ && _ && _) with true by lia.
  replace (Z.to_nat (blen pre)) with (length pre) by (unfold blen; lia).
  rewrite drop_app_length, take_app_length, (take_ge (zeros n)) by (unfold zeros; rewrite length_replicate; lia).
  rewrite drop_ge by (rewrite length_app; unfold zeros, blen; rewrite length_replicate; lia).
  destruct (m (s, zeros n)) as [[a|ec| |] [s' part]]; by rewrite ?app_nil_r.
Qed.
Lemma returning_bind {A} (m : ST S bytes A) k s : returning (st_bind m k) s =
  match m s with
  | (Ok a, s') => returning (k a) s'
  | (Err r, s') => (Ok r, s')
  | (Panic, s') => (Panic, s')
  | (OutOfFuel, s') => (OutOfFuel, s')
  end.
Proof. unfold returning, st_bind. by destruct (m s) as [[] ?]. Qed.
Lemma returning_lift {A} (a : A) k s : returning (st_bind (st_lift (Ok a)) k) s = returning (k a) s.
Proof. done. Qed.
Lemma returning_check {A} (v : res Exc A) fc k s :
  returning (st_bind (or_return v (encode_exception (FunctionCode.exception_code fc))) k) s =
  match v with
  | Ok a => returning (k a) s
  | Err ec => (Ok (exception_reply fc ec), s)
  | Panic => (Panic, s)
  | OutOfFuel => (OutOfFuel, s)
  end.
Proof. by destruct v. Qed.
Lemma store_count_checked fc n q (v : bytes) s :
  returning (or_return (validate_store_count n q q) (encode_exception (FunctionCode.exception_code fc));;; st_ret v) s
  = (Ok (if n =? q then v else exception_reply fc ExceptionCode.ServerDeviceFailure), s).
Proof.
  rewrite returning_check. unfold validate_store_count. destruct (Z.eqb_spec n q) as [->|]; [|done].
  by replace (_ && _) with true by lia.
Qed.

(** The common end of the handlers that fill a vector *)
Lemma filled_run fc pre n q (m : ST (S * bytes) Exc Z) s i : 0 ≤ n → i = blen pre →
  returning (r <- attempt_slice i (blen (pre ++ zeros n)) m (pre ++ zeros n);;
    let '(result, response) := r in
    match result with
    | inl count =>
        or_return (validate_store_count count q q) (encode_exception (FunctionCode.exception_code fc));;;
        st_ret response
    | inr ec => st_ret (encode_exception (FunctionCode.exception_code fc) ec)
    end) s = filled_reply fc pre q (m (s, zeros n)).
Proof.
  intros. rewrite returning_bind, attempt_tail by done.
  destruct (m (s, zeros n)) as [[c|ec| |] [s' part]]; [apply store_count_checked|done..].
Qed.

Lemma read_registers_run (holding : bool) a q s : 1 ≤ q ≤ 125 →
  let fc := if holding then FunctionCode.ReadHoldingRegisters else FunctionCode.ReadInputRegisters in
  returning (handle_read_registers fc a q holding) s =
  checked fc (validate_read_registers a q) s
    (filled_reply fc [FunctionCode.code fc; q * 2] q
       ((if holding then read_holding_registers_be a q else read_input_registers_be a q) (s, zeros (q * 2)))).
Proof.
  intros Hq fc. unfold handle_read_registers. rewrite returning_check.
  destruct (validate_read_registers a q); [cbn [checked]|done..].
  rewrite checked_u8_ok by lia. rewrite returning_lift, header_zeros by lia. rewrite returning_lift, vec_set_1, returning_lift.
  change (?x :: ?y :: zeros (q * 2)) with ([x; y] ++ zeros (q * 2)). unfold fc. destruct holding; by rewrite filled_run by (lia || done).
Qed.
Lemma read_bits_run (coils : bool) a q s : 1 ≤ q ≤ 2000 →
  let fc := if coils then FunctionCode.ReadCoils else FunctionCode.ReadDiscreteInputs in
  returning (handle_read_bits fc a q coils) s =
  checked fc (if coils then validate_read_coils a q else validate_read_discrete_inputs a q) s
    (filled_reply fc [FunctionCode.code fc; div_ceil q 8] q
       ((if coils then read_coils_packed a q else read_discrete_inputs_packed a q) (s, zeros (div_ceil q 8)))).
Proof.
  intros Hq fc. unfold handle_read_bits. rewrite returning_check.
  assert (1 ≤ div_ceil q 8 ≤ 250) by (unfold div_ceil; Z.to_euclidean_division_equations; lia).
  destruct (if coils then validate_read_coils a q else validate_read_discrete_inputs a q); [cbn [checked]|done..].
  rewrite checked_u8_ok by lia. rewrite returning_lift, header_zeros by lia. rewrite returning_lift, vec_set_1, returning_lift.
  change (?x :: ?y :: zeros ?n) with ([x; y] ++ zeros n). unfold fc. destruct coils; by rewrite filled_run by (lia || done).
Qed.
Lemma read_write_run ra rq wa wq bc vs s : 1 ≤ rq ≤ 125 →
  let fc := FunctionCode.ReadWriteMultipleRegisters in
  returning (handle_read_write_multiple (ReadWriteMultipleRegistersRequest.mk ra rq wa wq bc vs)) s =
  checked fc (validate_read_write_registers ra rq wa wq bc) s
    (filled_reply fc [FunctionCode.code fc; rq * 2] rq
       (atomic_read_write_registers_be ra rq wa wq vs (s, zeros (rq * 2)))).
Proof.
  intros Hq fc. unfold handle_read_write_multiple. rewrite returning_check.
  destruct (validate_read_write_registers _ _ _ _ _); [cbn [checked]|done..].
  rewrite checked_u8_ok by lia. rewrite returning_lift, header_zeros by lia. rewrite returning_lift, vec_set_1, returning_lift.
  change (?x :: ?y :: zeros ?n) with ([x; y] ++ zeros n). by rewrite filled_run by (lia || done).
Qed.

Lemma custom_run unit_id fc data s :
  returning (handle_custom_request unit_id fc data) s =
  match handle_custom_function unit_id fc data (s, zeros 252) with
  | (Ok n, (s', part)) =>
      (Ok (if n <? MAX_PDU_SIZE then take (Z.to_nat (1 + n)) (fc :: part)
           else encode_exception (Z.lor fc 0x80) ExceptionCode.ServerDeviceFailure), s')
  | (Err ec, (s', _)) => (Ok (encode_exception (Z.lor fc 0x80) ec), s')
  | (Panic, (s', _)) => (Panic, s')
  | (OutOfFuel, (s', _)) => (OutOfFuel, s')
  end.
Proof.
  unfold handle_custom_request. change (vec_set 0 fc (zeros MAX_PDU_SIZE)) with (@Ok bytes bytes ([fc] ++ zeros 252)).
  rewrite returning_lift, returning_bind, attempt_tail by done.
  destruct (handle_custom_function unit_id fc data (s, zeros 252)) as [[n|ec| |] [s' part]]; try done.
  by destruct (n <? MAX_PDU_SIZE).
Qed.
Lemma fifo_run a s r s' part : read_fifo_queue_be a (s, zeros 62) = (r, (s', part)) → returns r →
  (∀ n, r = Ok n → 0 ≤ n) →
  let fc := FunctionCode.ReadFifoQueue in
  returning (handle_read_fifo_queue a) s =
  (Ok match r with
      | Ok n => if MAX_FIFO_VALUES <? n then exception_reply fc ExceptionCode.IllegalDataValue
                else FunctionCode.code fc :: to_be_bytes (2 + n * 2) ++ to_be_bytes n ++ take (Z.to_nat (n * 2)) part
      | Err ec => exception_reply fc ec
      | _ => []
      end, s').
Proof.
  intros Hm Hr Hn fc. unfold handle_read_fifo_queue. cbv zeta.
  replace (vec_set 0 _ _) with (@Ok bytes bytes ([0x18; 0; 0; 0; 0] ++ zeros 62)) by done.
  rewrite returning_lift, returning_bind, attempt_tail, Hm by done.
  destruct r as [n|ec| |]; try done. specialize (Hn n eq_refl). change MAX_FIFO_VALUES with 31.
  destruct (Z.ltb_spec 31 n); [done|]. unfold checked_response_u16, u16_max.
  replace (_ && _) with true by lia. rewrite returning_lift. replace (_ && _) with true by lia. rewrite returning_lift.
  erewrite (vec_copy_word (E:=bytes) [0x18] 0 0 (2 + n * 2) (0 :: 0 :: part) 1 3 eq_refl eq_refl
    : vec_copy 1 3 _ ([0x18; 0; 0; 0; 0] ++ part) = _), returning_lift.
  erewrite (vec_copy_word (E:=bytes) (0x18 :: to_be_bytes (2 + n * 2)) 0 0 n part 3 5 eq_refl eq_refl
    : vec_copy 3 5 _ ([0x18] ++ to_be_bytes (2 + n * 2) ++ 0 :: 0 :: part) = _), returning_lift.
  by replace (Z.to_nat (5 + n * 2)) with (5 + Z.to_nat (n * 2))%nat by lia.
Qed.

(** [append_comm_event_log] extended the vector by [events] *)
Lemma comm_event_log_run s r s' events :
  let fc := FunctionCode.GetCommEventLog in
  let pre := [FunctionCode.code fc; 0; 0; 0; 0; 0; 0; 0] in
  append_comm_event_log (s, pre) = (r, (s', pre ++ events)) → returns r →
  returning handle_comm_event_log s =
  (Ok match r with
      | Ok meta =>
          if MAX_COMM_EVENT_LOG_EVENTS <? blen events then exception_reply fc ExceptionCode.ServerDeviceFailure
          else FunctionCode.code fc :: (blen events + 6) :: to_be_bytes (CommEventLogMeta.status meta)
                 ++ to_be_bytes (CommEventLogMeta.event_count meta)
                 ++ to_be_bytes (CommEventLogMeta.message_count meta) ++ events
      | Err ec => exception_reply fc ec
      | _ => []
      end, s').
Proof.
  intros fc pre Hm Hr. unfold handle_comm_event_log.
  rewrite returning_bind. unfold attempt_vec. change ([_] ++ [0] ++ replicate 6 0) with pre. rewrite Hm.
  destruct r as [meta|ec| |]; try done. rewrite blen_app. change (blen pre) with 8. pose proof (blen_nonneg events).
  replace (Z.max 0 (8 + blen events - 8)) with (blen events) by lia. change MAX_COMM_EVENT_LOG_EVENTS with 64.
  destruct (Z.ltb_spec 64 (blen events)); [done|]. rewrite checked_u8_ok by lia. rewrite returning_lift.
  unfold pre. cbn [app]. rewrite vec_set_1, returning_lift.
  set (fcb := FunctionCode.code fc). set (bc := blen events + 6). destruct meta as [w1 w2 w3]. cbn [CommEventLogMeta.status CommEventLogMeta.event_count CommEventLogMeta.message_count].
  erewrite (vec_copy_word (E:=bytes) [fcb; bc] 0 0 w1 (0 :: 0 :: 0 :: 0 :: events) 2 4 eq_refl eq_refl
    : vec_copy 2 4 _ (fcb :: bc :: 0 :: 0 :: 0 :: 0 :: 0 :: 0 :: events) = _), returning_lift.
  erewrite (vec_copy_word (E:=bytes) ([fcb; bc] ++ to_be_bytes w1) 0 0 w2 (0 :: 0 :: events) 4 6 eq_refl eq_refl
    : vec_copy 4 6 _ ([fcb; bc] ++ to_be_bytes w1 ++ 0 :: 0 :: 0 :: 0 :: events) = _), returning_lift.
  by erewrite (vec_copy_word (E:=bytes) ([fcb; bc] ++ to_be_bytes w1 ++ to_be_bytes w2) 0 0 w3 events 6 8 eq_refl eq_refl
    : vec_copy 6 8 _ (([fcb; bc] ++ to_be_bytes w1) ++ to_be_bytes w2 ++ 0 :: 0 :: events) = _), returning_lift.
Qed.
Lemma diagnostics_run sub data s r s' added :
  let fc := FunctionCode.Diagnostics in
  let pre := FunctionCode.code fc :: to_be_bytes (DiagnosticSubFunction.code sub) in
  append_diagnostic_response sub data (s, pre) = (r, (s', pre ++ added)) → returns r →
  handle_diagnostics sub data s =
  (Ok match r with
      | Ok (Some n) =>
          Some (if negb (n =? blen added) || (MAX_DIAGNOSTIC_RESPONSE_DATA_LEN <? blen added) || negb (is_multiple_of (blen added) 2)
                then exception_reply fc ExceptionCode.ServerDeviceFailure else pre ++ added)
      | Ok None => None
      | Err ec => Some (exception_reply fc ec)
      | _ => None
      end, s').
Proof.
  intros fc pre Hm Hr. unfold handle_diagnostics, st_bind, attempt_vec. change ([_] ++ to_be_bytes _) with pre. rewrite Hm.
  destruct r as [[n|]|ec| |]; try done. rewrite blen_app. change (blen pre) with 3. pose proof (blen_nonneg added).
  replace (Z.max 0 _) with (blen added) by lia. by destruct (_ || _ || _).
Qed.
Lemma server_id_run s r s' added :
  let fc := FunctionCode.ReportServerId in
  append_server_id (s, [FunctionCode.code fc; 0]) = (r, (s', [FunctionCode.code fc; 0] ++ added)) → returns r →
  returning handle_report_server_id s =
  (Ok match r with
      | Ok n => if negb (n =? blen added) || (MAX_SERVER_ID_BYTES <? blen added)
                then exception_reply fc ExceptionCode.ServerDeviceFailure
                else FunctionCode.code fc :: blen added :: added
      | Err ec => exception_reply fc ec
      | _ => []
      end, s').
Proof.
  intros fc Hm Hr. unfold handle_report_server_id. rewrite returning_bind. unfold attempt_vec.
  change ([_] ++ [0]) with [FunctionCode.code fc; 0]. rewrite Hm. destruct r as [n|ec| |]; try done.
  cbv zeta. rewrite blen_app. change (blen [_; 0]) with 2. pose proof (blen_nonneg added).
  replace (Z.max 0 _) with (blen added) by lia. change MAX_SERVER_ID_BYTES with 251.
  destruct (negb _ || _) eqn:Hc; [done|]. rewrite checked_u8_ok by lia. rewrite returning_lift. cbn [app]. by rewrite vec_set_1.
Qed.

Lemma valid_range_ok x : FileSubRequest_wf x → FileSubRequest_valid x →
  FileRecord.validate_range (FileSubRequest.file_number x) (FileSubRequest.record_number x) (FileSubRequest.record_length x) = Ok tt.
Proof.
  intros (Hf & Hr & Hn) (_ & Hf1 & Hr1 & Hn1 & Hs1). unfold FileRecord.validate_range, checked_add. cbn in *.
  replace (usize_max <? _) with false by (unfold usize_max; lia). cbn [ok_or rbind].
  change FileRecord.MIN_FILE_NUMBER with 1. change FileRecord.MAX_RECORD_NUMBER with 9999. change FileRecord.RECORD_COUNT with 10000.
  by replace (_ || _ || _ || _) with false by lia.
Qed.
Lemma sub_request_reads {E} x rest : FileSubRequest_wf x → FileSubRequest_valid x →
  let g := FileSubRequest_wire x ++ rest in
  idx (E:=E) g 0 = Ok 6 ∧ be16_at (E:=E) g 1 2 = Ok (FileSubRequest.file_number x) ∧
  be16_at (E:=E) g 3 4 = Ok (FileSubRequest.record_number x) ∧
  be16_at (E:=E) g 5 6 = Ok (FileSubRequest.record_length x).
Proof.
  destruct x as [ty f r n]. intros (Hf & Hr & Hn) (Ht & _). cbn in Hf, Hr, Hn, Ht. subst ty. cbn zeta.
  split_and!; [done|..]; apply (f_equal Ok), from_to_be_bytes; cbn; lia.
Qed.
(** One group of a file read, on the response so far *)
Lemma file_group_run x response s : FileSubRequest_wf x → FileSubRequest_valid x → 2 ≤ blen response →
  let '(FileSubRequest.mk _ f r n) := x in
  let fc := FunctionCode.ReadFileRecord in
  read_file_group (FileSubRequest_wire x) response s =
  if MAX_FILE_RECORD_REGISTERS <? n then (Err (exception_reply fc ExceptionCode.IllegalDataAddress), s) else
  match read_file_record_be f r n (s, zeros (n * 2)) with
  | (Ok c, (s', part)) =>
      (if negb (c =? n) then Err (exception_reply fc ExceptionCode.ServerDeviceFailure) else
       if 250 <? blen response + blen part then Err (exception_reply fc ExceptionCode.IllegalDataValue) else
       Ok (response ++ [1 + 2 * n; 6] ++ part), s')
  | (Err ec, (s', _)) => (Err (exception_reply fc ec), s')
  | (Panic, (s', _)) => (Panic, s')
  | (OutOfFuel, (s', _)) => (OutOfFuel, s')
  end.
Proof.
  intros Hwf Hv Hlen. pose proof (valid_range_ok x Hwf Hv) as Hrange.
  destruct (sub_request_reads (E:=bytes) x [] Hwf Hv) as (H0 & H1 & H2 & H3). rewrite app_nil_r in *.
  destruct x as [ty f r n], Hwf as (_ & _ & Hn), Hv as (_ & _ & _ & Hn1 & _).
  cbn [FileSubRequest.file_number FileSubRequest.record_number FileSubRequest.record_length] in *.
  unfold read_file_group. rewrite st_bind_lift, H0. change (negb (6 =? 6)) with false. cbv iota.
  rewrite st_bind_lift, H1, st_bind_lift, H2, st_bind_lift, H3, Hrange. unfold or_return at 1. unfold st_bind at 1, st_ret at 1.
  change MAX_FILE_RECORD_REGISTERS with 122. destruct (Z.ltb_spec 122 n); [done|].
  assert (response ++ zeros (2 + n * 2) = (response ++ [0; 0]) ++ zeros (n * 2)) as ->.
  { rewrite <-app_assoc. f_equal. unfold zeros. by replace (Z.to_nat (2 + n * 2)) with (2 + Z.to_nat (n * 2))%nat by lia. }
  replace (blen response + 2 + n * 2) with (blen ((response ++ [0; 0]) ++ zeros (n * 2)))
    by (rewrite !blen_app, blen_zeros by lia; done).
  unfold st_bind at 1. rewrite attempt_tail by (rewrite ?blen_app; done || lia).
  destruct (read_file_record_be f r n (s, zeros (n * 2))) as [[c|ec| |] [s' part]]; try done.
  unfold validate_store_count. destruct (Z.eqb_spec c n) as [->|]; [|done]. replace (_ && _) with true by lia.
  cbn [negb]. erewrite st_bind_Ok.
  2:{ unfold or_return, st_bind at 1, st_ret at 1. rewrite st_bind_lift, checked_u8_ok by lia.
      rewrite st_bind_lift, <-app_assoc. cbn [app]. rewrite vec_set_at by done.
      replace (response ++ (1 + 2 * n) :: 0 :: part) with ((response ++ [1 + 2 * n]) ++ 0 :: part) by by rewrite <-app_assoc.
      rewrite vec_set_at by by rewrite blen_app. done. }
  rewrite st_bind_lift, !blen_app, !blen_cons. change (blen []) with 0. pose proof (blen_nonneg part).
  rewrite usub_Ok by lia. replace (_ - 2) with (blen response + blen part) by lia.
  destruct (250 <? _); [done|]. by rewrite <-app_assoc.
Qed.
End Runs.

(** ** The groups of a file write *)
Definition group_of (g : FileSubRequest.t * bytes) : WriteFileRecordGroup.t :=
  let '(FileSubRequest.mk _ f r n, values) := g in WriteFileRecordGroup.mk f r n values.
Definition group_wire (g : FileSubRequest.t * bytes) : bytes := FileSubRequest_wire g.1 ++ g.2.
Definition group_ok (g : FileSubRequest.t * bytes) : Prop :=
  FileSubRequest_wf g.1 ∧ FileSubRequest_valid g.1 ∧ bytes_ok g.2 ∧ blen g.2 = 2 * FileSubRequest.record_length g.1.

Lemma group_wire_len g : group_ok g → 9 ≤ blen (group_wire g) ∧ blen (group_wire g) = 7 + blen g.2.
Proof.
  intros (_ & (_ & _ & _ & Hn & _) & _ & Hl). unfold group_wire. rewrite blen_app, FileSubRequest_wire_length. lia.
Qed.
Lemma write_groups_split subs : bytes_ok subs → groups write_group subs →
  ∃ gs, subs = concat (map group_wire gs) ∧ Forall group_ok gs.
Proof.
  intros Hb (bs & -> & Hg). induction Hg as [|b bs (x & v & Hwf & Hv & -> & Hl) _ IH]; [by exists []|].
  cbn [concat] in Hb |- *. apply Forall_app in Hb as [[_ Hv']%Forall_app Hb]. destruct (IH Hb) as (gs & -> & Hgs).
  exists ((x, v) :: gs). split; [done|]. by constructor.
Qed.
(** The parser accepts what the decoder accepted: with at most 27 groups the array
    has room, and every round takes a group. *)
Lemma parse_write_groups_ok gs : Forall group_ok gs → ∀ fuel acc,
  (length (concat (map group_wire gs)) < fuel)%nat → blen acc + blen gs ≤ MAX_WRITE_FILE_RECORD_GROUPS →
  parse_write_groups fuel (concat (map group_wire gs)) acc = Ok (acc ++ map group_of gs).
Proof.
  induction 1 as [|[x v] gs Hg Hgs IH]; intros fuel acc Hfuel Hroom.
  { destruct fuel; [cbn in Hfuel; lia|]. cbn. by rewrite app_nil_r. }
  destruct fuel as [|fuel]; [lia|]. pose proof (group_wire_len _ Hg) as [H9 Hlen]. destruct Hg as (Hwf & Hv & Hb & Hl). cbn [fst snd] in *.
  cbn [map concat parse_write_groups]. set (rest := concat (map group_wire gs)) in *.
  pose proof (blen_nonneg rest). rewrite blen_cons in Hroom. pose proof (blen_nonneg gs).
  destruct (sub_request_reads (E:=Exc) x (v ++ rest) Hwf Hv) as (Hw0 & Hw1 & Hw2 & Hw3). rewrite app_assoc in Hw0, Hw1, Hw2, Hw3.
  change (FileSubRequest_wire x ++ v) with (group_wire (x, v)) in *.
  replace (is_empty (group_wire (x, v) ++ rest)) with false by (unfold is_empty; rewrite blen_app; lia).
  rewrite blen_app. replace (_ <? 7) with false by lia. rewrite Hw0. cbn [rbind]. change (negb (6 =? 6)) with false. cbv iota.
  rewrite Hw1, Hw2, Hw3. cbn [rbind]. replace (_ <? 7 + _) with false by lia. rewrite valid_range_ok by done. cbn [rbind].
  replace (_ =? MAX_WRITE_FILE_RECORD_GROUPS) with false by lia.
  rewrite slice_Ok by (rewrite ?blen_app; lia). cbn [rbind]. rewrite slice_from_Ok by (rewrite ?blen_app; lia). cbn [rbind].
  replace (Z.to_nat (7 + 2 * _ - 7)) with (length v) by (unfold blen in Hl; lia).
  replace (Z.to_nat (7 + 2 * _)) with (length (group_wire (x, v))) by (unfold blen in *; lia).
  replace (drop (Z.to_nat 7) (group_wire (x, v) ++ rest)) with (v ++ rest) by by (unfold group_wire; rewrite <-app_assoc).
  rewrite take_app_length, drop_app_length. unfold rest. rewrite IH.
  - rewrite <-app_assoc. by destruct x.
  - cbn [map concat] in Hfuel. rewrite length_app in Hfuel. fold rest in Hfuel. unfold blen in H9. lia.
  - rewrite blen_app. change (blen [_]) with 1. lia.
Qed.
Lemma write_request_groups bc subs : WriteFileRecordRequest_wf (WriteFileRecordRequest.mk bc subs) →
  WriteFileRecordRequest_encodable (WriteFileRecordRequest.mk bc subs) →
  ∃ gs, subs = concat (map group_wire gs) ∧ Forall group_ok gs ∧
    parse_write_groups (S (length subs)) subs [] = Ok (map group_of gs).
Proof.
  intros (_ & Hb) (Hbc & Hlen & Hg). cbn [WriteFileRecordRequest.byte_count WriteFileRecordRequest.sub_requests] in *. subst bc. destruct (write_groups_split subs Hb Hg) as (gs & -> & Hgs).
  exists gs. split; [done|]. split; [done|]. apply parse_write_groups_ok; [done|lia|]. change MAX_WRITE_FILE_RECORD_GROUPS with 27.
  change (blen []) with 0. assert (9 * blen gs ≤ blen (concat (map group_wire gs))); [|lia]. clear Hb Hbc Hg.
  induction Hgs as [|g gs Hg _ IH]; [done|]. cbn [map concat]. rewrite blen_cons, blen_app. apply group_wire_len in Hg. lia.
Qed.

(** ** Encoding a response *)
Lemma encode_response_ok {E R} `{ServerResponse R} `{!EncodeSpec R} (x : R) : wf x → encodable x →
  encode_response (E:=E) x = Ok (wire x).
Proof.
  intros Hwf Hen. pose proof (wire_length x Hwf Hen) as Hl. pose proof (blen_nonneg (wire x)).
  unfold encode_response. rewrite encode_into_ok by (done || (rewrite blen_zeros; lia)).
  assert (overlay (wire x) (zeros (encoded_len x)) = wire x) as ->.
  { unfold overlay. rewrite drop_ge, app_nil_r; [done|]. unfold zeros. rewrite length_replicate. unfold blen in Hl. lia. }
  by replace (encoded_len x =? blen (wire x)) with true by lia.
Qed.

(** * The laws of a store

    What the handlers rely on: every call returns, keeps the store's own invariant
    and its values in their types; a call that gets a slice keeps its length; a call
    that gets a vector only appends. *)
Section Laws.
Context {S : Type} (inv : S → Prop).

Definition result_ok {A} (P : A → Prop) (r : res Exc A) : Prop :=
  match r with Ok a => P a | Err ec => is_u8 (ExceptionCode.code ec) | Panic | OutOfFuel => False end.
Definition acts {A} (P : A → Prop) (m : ST S Exc A) : Prop :=
  ∀ s, inv s → let '(r, s') := m s in result_ok P r ∧ inv s'.
Definition fills (m : ST (S * bytes) Exc Z) : Prop :=
  ∀ s out, inv s → bytes_ok out → let '(r, (s', out')) := m (s, out) in
    result_ok (λ n, 0 ≤ n) r ∧ inv s' ∧ bytes_ok out' ∧ blen out' = blen out.
Definition appends {A} (P : A → Prop) (m : ST (S * bytes) Exc A) : Prop :=
  ∀ s out, inv s → ∃ r s' added, m (s, out) = (r, (s', out ++ added)) ∧
    result_ok P r ∧ inv s' ∧ bytes_ok added.
End Laws.

Definition meta_ok (m : CommEventLogMeta.t) : Prop :=
  is_u16 (CommEventLogMeta.status m) ∧ is_u16 (CommEventLogMeta.event_count m) ∧ is_u16 (CommEventLogMeta.message_count m).

Class StoreLaws (S : Type) `{DataStore S} (inv : S → Prop) : Prop := {
  law_read_coils a q : is_u16 a → is_u16 q → fills inv (read_coils_packed a q);
  law_read_discrete_inputs a q : is_u16 a → is_u16 q → fills inv (read_discrete_inputs_packed a q);
  law_read_holding_registers a q : is_u16 a → is_u16 q → fills inv (read_holding_registers_be a q);
  law_read_input_registers a q : is_u16 a → is_u16 q → fills inv (read_input_registers_be a q);
  law_read_file_record f r n : is_u16 f → is_u16 r → is_u16 n → fills inv (read_file_record_be f r n);
  law_read_fifo_queue a : is_u16 a → fills inv (read_fifo_queue_be a);
  law_read_write ra rq wa wq bs : is_u16 ra → is_u16 rq → is_u16 wa → is_u16 wq → bytes_ok bs →
    fills inv (atomic_read_write_registers_be ra rq wa wq bs);
  law_custom unit fc bs : is_u8 unit → is_u8 fc → bytes_ok bs → fills inv (handle_custom_function unit fc bs);
  law_write_coil a b : is_u16 a → acts inv (λ _, True) (write_coil a b);
  law_write_coils a q bs : is_u16 a → is_u16 q → bytes_ok bs → acts inv (λ _, True) (write_coils_packed a q bs);
  law_write_register a x : is_u16 a → is_u16 x → acts inv (λ _, True) (write_register a x);
  law_write_registers a q bs : is_u16 a → is_u16 q → bytes_ok bs → acts inv (λ _, True) (write_registers_be a q bs);
  law_mask_write a am om : is_u16 a → is_u16 am → is_u16 om → acts inv (λ _, True) (atomic_mask_write_register a am om);
  law_write_file_record f r n bs : is_u16 f → is_u16 r → is_u16 n → bytes_ok bs →
    acts inv (λ _, True) (write_file_record_be f r n bs);
  law_exception_status : acts inv (λ x, is_u8 x) read_exception_status;
  law_event_counter : acts inv (λ x, is_u16 x.1 ∧ is_u16 x.2) get_comm_event_counter;
  law_event_log : appends inv meta_ok append_comm_event_log;
  law_server_id : appends inv (λ n, 0 ≤ n) append_server_id;
  law_diagnostic sub bs : bytes_ok bs → appends inv (λ _, True) (append_diagnostic_response sub bs);
}.

(** A reply to function code [fc]: it carries the code, or it is an exception *)
Definition reply_ok (fc : Z) (resp : bytes) : Prop :=
  bytes_ok resp ∧ 1 ≤ blen resp ≤ MAX_PDU_SIZE ∧
  (get resp 0 = Some fc ∨ ∃ ec, resp = [Z.lor fc 0x80; ExceptionCode.code ec]).
Definition replies {S} (inv : S → Prop) (fc : Z) (o : res Empty_set bytes * S) : Prop :=
  let '(r, s') := o in inv s' ∧ match r with Ok resp => reply_ok fc resp | _ => False end.

Lemma lor_128_u8 fc : is_u8 fc → is_u8 (Z.lor fc 0x80).
Proof. intros. rewrite exception_flag_set by done. case_match; lia. Qed.
Lemma encode_exception_ok fc ec : is_u8 fc → is_u8 (ExceptionCode.code ec) →
  reply_ok fc (encode_exception (Z.lor fc 0x80) ec).
Proof.
  intros Hf He. split_and!; [|done..|right; by eexists].
  apply bytes_ok_cons. split; [by apply lor_128_u8|]. apply bytes_ok_cons. split; [done|constructor].
Qed.
Lemma exception_reply_ok fc ec : is_u8 (FunctionCode.code fc) → is_u8 (ExceptionCode.code ec) →
  reply_ok (FunctionCode.code fc) (exception_reply fc ec).
Proof. apply encode_exception_ok. Qed.
Lemma wire_reply_ok {R} `{EncodeSpec R} fc decode `{!PduCodec R fc decode} (x : R) : wf x → decodable x → encodable x →
  reply_ok fc (wire x).
Proof.
  intros Hwf Hd He. destruct (decode_complete x Hwf Hd) as (data & Hw & _).
  split_and!; [by apply wire_ok|rewrite Hw, blen_cons; pose proof (blen_nonneg data); lia| |by rewrite Hw; left].
  rewrite wire_length by done. by apply wire_bounded.
Qed.

(** A device identification reply is an exception or a well-formed PDU *)
Lemma page_reply_wf dev code pre page rest post : device_ok dev →
  objects_of dev = pre ++ page ++ rest ++ post → Forall (λ x, too_long x = false) page →
  (code = DeviceIdCode.Individual → blen page = 1) → 7 + blen (device_objects_wire page) ≤ 253 →
  ∃ data, let x := EncapsulatedInterfaceResponse.mk MeiType.ReadDeviceIdentification data in
    wf x ∧ decodable x ∧ encodable x ∧ page_pdu dev code page rest = wire x.
Proof.
  intros Hd Ho Hl Hi Hlen. destruct (page_response_valid dev code pre page rest post Hd Ho Hl Hi) as (Hwf & Hv & Hp).
  eexists. split_and!; [| | |reflexivity].
  - destruct Hwf as [H1 H2], Hv as (H3 & _). cbn in H1, H2, H3. cbn.
    unfold EncapsulatedInterfaceResponse_wf. cbn [EncapsulatedInterfaceResponse.data].
    repeat (apply bytes_ok_cons; split); unfold byte_ok; try done; [by destruct code|..|by apply device_objects_wire_ok].
    + unfold conformity_level. by repeat case_match.
    + by case_match.
  - cbn. by exists (page_response dev code page rest).
  - cbn. unfold EncapsulatedInterfaceResponse_encodable. cbn [EncapsulatedInterfaceResponse.data]. rewrite !blen_cons. lia.
Qed.
Lemma device_reply dev data resp : device_ok dev → device_id_answer data dev resp →
  (∃ ec, ec_canonical ec ∧ is_u8 (ExceptionCode.code ec) ∧ resp = exception_reply FunctionCode.EncapsulatedInterfaceTransport ec) ∨
  (∃ data, let x := EncapsulatedInterfaceResponse.mk MeiType.ReadDeviceIdentification data in
     wf x ∧ decodable x ∧ encodable x ∧ resp = wire x).
Proof.
  intros Hd. unfold device_id_answer.
  assert (∀ ec, ec_canonical ec → is_u8 (ExceptionCode.code ec) → resp = device_id_exception ec →
    (∃ ec, ec_canonical ec ∧ is_u8 (ExceptionCode.code ec) ∧ resp = exception_reply FunctionCode.EncapsulatedInterfaceTransport ec)) as Hex by eauto.
  destruct data as [|raw [|o [|z l]]]; try (intros Ha; left; by eapply Hex in Ha).
  assert (∀ code, code ≠ DeviceIdCode.Individual → existsb too_long (stream_objects dev code) = false → ∀ page rest,
    is_page (from_object o (stream_objects dev code)) page rest → resp = page_pdu dev code page rest →
    ∃ data, let x := EncapsulatedInterfaceResponse.mk MeiType.ReadDeviceIdentification data in
     wf x ∧ decodable x ∧ encodable x ∧ resp = wire x) as Hpage.
  { intros code Hc Hs page rest Hp ->. destruct (page_objects dev code o page rest Hp) as (pre & post & Ho).
    eapply page_reply_wf; [done|done| |done|by destruct Hp as (_ & _ & ? & _)]. pose proof (stream_short dev code Hs) as Hf.
    destruct (from_object_suffix o (stream_objects dev code)) as [q Hq]. rewrite Hq, (proj1 Hp), !Forall_app in Hf. by destruct Hf as (_ & ? & _). }
  destruct (DeviceIdCode.from_raw raw) as [code|]; [|intros Ha; left; by eapply Hex in Ha].
  destruct (decide (code = DeviceIdCode.Individual)) as [->|Hc].
  - destruct (List.find _ _) as [x|] eqn:Hf; [|intros Ha; left; by eapply Hex in Ha].
    destruct (too_long x) eqn:Hx; [intros Ha; left; by eapply Hex in Ha|]. intros ->. right.
    apply List.find_some in Hf as [Hin _]. apply list_elem_of_In, list_elem_of_split in Hin as (pre & post & Ho).
    apply (page_reply_wf dev _ pre [x] [] post); [done|done|by repeat constructor|done|].
    rewrite blen_objects_cons. change (blen (device_objects_wire [])) with 0. unfold too_long in Hx.
    change MAX_DEVICE_ID_OBJECT_VALUE_LEN with 244 in Hx. lia.
  - intros Ha. destruct (existsb too_long (stream_objects dev code)) eqn:Hs.
    + left. destruct code; try done; by eapply Hex in Ha.
    + right. destruct code; try done; destruct Ha as (page & rest & Hp & Heq); by eapply (Hpage _ Hc Hs page rest).
Qed.

(** The fields and the conditions of a decoded request *)
Ltac open_request :=
  match goal with Hok : wf ?x ∧ decodable ?x |- _ =>
    let Hwf := fresh "Hwf" in let Hd := fresh "Hd" in
    destruct x, Hok as [Hwf Hd]; pose proof Hwf as Hwf'; pose proof Hd as Hd';
    simpl in Hwf, Hd; autounfold with codec in Hwf, Hd; simpl in Hwf, Hd; destruct_and?
  end.

Section Safe.
Context {S : Type} `{DataStore S} (inv : S → Prop) `{!StoreLaws S inv}.
Implicit Types (s : S).

Lemma filled_replies fc pre q n (m : ST (S * bytes) Exc Z) s : inv s → fills inv m → is_u8 (FunctionCode.code fc) →
  bytes_ok (FunctionCode.code fc :: pre) → 0 ≤ n → 1 + blen pre + n ≤ MAX_PDU_SIZE →
  replies inv (FunctionCode.code fc) (filled_reply fc (FunctionCode.code fc :: pre) q (m (s, zeros n))).
Proof.
  intros Hs Hm Hfc Hpre Hn Hl. specialize (Hm s (zeros n) Hs (bytes_ok_zeros n)). pose proof (blen_nonneg pre).
  destruct (m (s, zeros n)) as [[c|ec| |] [s' part]], Hm as (Hr & Hs' & Hb & Hlen); try done; cbn in Hr |- *; (split; [done|]).
  - case_match; [|by apply exception_reply_ok]. rewrite blen_zeros in Hlen by done. split_and!; [|..|by left].
    + by apply (Forall_app_2 _ (FunctionCode.code fc :: pre)).
    + rewrite blen_cons, blen_app. lia.
    + rewrite blen_cons, blen_app. lia.
  - by apply exception_reply_ok.
Qed.
Lemma checked_replies fc (v : res Exc unit) s o : inv s → is_u8 (FunctionCode.code fc) →
  result_ok (λ _, True) v → replies inv (FunctionCode.code fc) o →
  replies inv (FunctionCode.code fc) (checked fc v s o).
Proof. intros Hs Hfc Hv Ho. destruct v as [|ec| |]; try done. cbn. split; [done|]. by apply exception_reply_ok. Qed.
Lemma verdict_reply_ok P ranges v : range_verdict P ranges v → result_ok (λ _, True) v.
Proof. by intros [[-> _]|[[-> _]|[-> _]]]. Qed.

Lemma read_registers_replies (holding : bool) a q s : inv s → is_u16 a → 1 ≤ q ≤ 125 →
  let fc := if holding then FunctionCode.ReadHoldingRegisters else FunctionCode.ReadInputRegisters in
  replies inv (FunctionCode.code fc) (returning (handle_read_registers fc a q holding) s).
Proof.
  intros Hs Ha Hq fc. unfold fc. rewrite read_registers_run by done. apply checked_replies; [done|by destruct holding|..].
  { eapply verdict_reply_ok, validate_read_registers_verdict. lia. }
  change MAX_PDU_SIZE with 253. apply filled_replies; try done; [..|by destruct holding| |lia|].
  - destruct holding; [apply law_read_holding_registers|apply law_read_input_registers]; lia.
  - destruct holding; repeat (apply bytes_ok_cons; split; [unfold byte_ok; cbn; lia|]); constructor.
  - change (blen [_]) with 1. change MAX_PDU_SIZE with 253. lia.
Qed.
Lemma read_bits_replies (coils : bool) a q s : inv s → is_u16 a → 1 ≤ q ≤ 2000 →
  let fc := if coils then FunctionCode.ReadCoils else FunctionCode.ReadDiscreteInputs in
  replies inv (FunctionCode.code fc) (returning (handle_read_bits fc a q coils) s).
Proof.
  intros Hs Ha Hq fc. unfold fc. rewrite read_bits_run by done. apply checked_replies; [done|by destruct coils|..].
  { destruct coils; eapply verdict_reply_ok; [apply validate_read_coils_verdict|apply validate_read_discrete_inputs_verdict]; lia. }
  assert (1 ≤ div_ceil q 8 ≤ 250) by (unfold div_ceil; Z.to_euclidean_division_equations; lia).
  apply filled_replies; try done; [..|by destruct coils| |lia|].
  - destruct coils; [apply law_read_coils|apply law_read_discrete_inputs]; lia.
  - destruct coils; repeat (apply bytes_ok_cons; split; [unfold byte_ok; cbn; lia|]); constructor.
  - change (blen [_]) with 1. change MAX_PDU_SIZE with 253. lia.
Qed.
Lemma read_write_replies ra rq wa wq bc vs s : inv s → is_u16 ra → 1 ≤ rq ≤ 125 → is_u16 wa → is_u16 wq → bytes_ok vs →
  replies inv 0x17 (returning (handle_read_write_multiple (ReadWriteMultipleRegistersRequest.mk ra rq wa wq bc vs)) s).
Proof.
  intros. rewrite read_write_run by done. apply (checked_replies FunctionCode.ReadWriteMultipleRegisters); try done.
  { eapply verdict_reply_ok, validate_read_write_registers_verdict; lia. }
  apply (filled_replies FunctionCode.ReadWriteMultipleRegisters); try done; [..|lia|].
  - apply law_read_write; done || lia.
  - repeat (apply bytes_ok_cons; split; [unfold byte_ok; cbn; lia|]); constructor.
  - change (blen [_]) with 1. change MAX_PDU_SIZE with 253. lia.
Qed.
Lemma custom_replies unit fc data s : inv s → is_u8 unit → is_u8 fc → bytes_ok data →
  replies inv fc (returning (handle_custom_request unit fc data) s).
Proof.
  intros Hs Hu Hfc Hd. rewrite custom_run. pose proof (law_custom unit fc data Hu Hfc Hd s (zeros 252) Hs (bytes_ok_zeros _)) as Hm.
  destruct (handle_custom_function unit fc data (s, zeros 252)) as [[n|ec| |] [s' part]], Hm as (Hr & Hs' & Hb & Hlen); try done.
  2:{ split; [done|]. by apply encode_exception_ok. }
  split; [done|]. change MAX_PDU_SIZE with 253. destruct (Z.ltb_spec n 253); [|by apply encode_exception_ok].
  change (blen (zeros 252)) with 252 in Hlen. cbn in Hr. split_and!.
  - apply Forall_take. by apply bytes_ok_cons.
  - rewrite blen_take, blen_cons by lia. lia.
  - rewrite blen_take, blen_cons by lia. change MAX_PDU_SIZE with 253. lia.
  - left. by rewrite get_take by lia.
Qed.
Lemma fifo_replies a s : inv s → is_u16 a → replies inv 0x18 (returning (handle_read_fifo_queue a) s).
Proof.
  intros Hs Ha. pose proof (law_read_fifo_queue a Ha s (zeros 62) Hs (bytes_ok_zeros _)) as Hm.
  destruct (read_fifo_queue_be a (s, zeros 62)) as [r [s' part]] eqn:Hq, Hm as (Hr & Hs' & Hb & Hlen).
  rewrite (fifo_run a s r s' part) by (done || (by destruct r) || (intros ? ->; exact Hr)). split; [done|].
  change (blen (zeros 62)) with 62 in Hlen. destruct r as [n|ec| |]; try done.
  2:{ by apply (exception_reply_ok FunctionCode.ReadFifoQueue). }
  change MAX_FIFO_VALUES with 31. destruct (Z.ltb_spec 31 n); [by apply (exception_reply_ok FunctionCode.ReadFifoQueue)|].
  cbn in Hr. split_and!; [..|by left].
  - apply bytes_ok_cons. split; [done|]. repeat (apply Forall_app_2; [apply to_be_bytes_ok|]). by apply Forall_take.
  - rewrite blen_cons. match goal with |- context [blen ?l] => pose proof (blen_nonneg l) end. lia.
  - rewrite blen_cons, !blen_app, !blen_to_be_bytes, blen_take by lia. change MAX_PDU_SIZE with 253. lia.
Qed.
Lemma event_log_replies s : inv s → replies inv 0x0C (returning handle_comm_event_log s).
Proof.
  intros Hs. destruct (law_event_log s [0x0C; 0; 0; 0; 0; 0; 0; 0] Hs) as (r & s' & added & Hm & Hr & Hs' & Hb).
  rewrite (comm_event_log_run s r s' added Hm) by by destruct r. split; [done|].
  destruct r as [meta|ec| |]; try done. 2:{ by apply (exception_reply_ok FunctionCode.GetCommEventLog). }
  change MAX_COMM_EVENT_LOG_EVENTS with 64. pose proof (blen_nonneg added).
  destruct (Z.ltb_spec 64 (blen added)); [by apply (exception_reply_ok FunctionCode.GetCommEventLog)|]. split_and!; [..|by left].
  - apply bytes_ok_cons. split; [done|]. apply bytes_ok_cons. split; [unfold byte_ok; lia|].
    by repeat (apply Forall_app_2; [apply to_be_bytes_ok|]).
  - rewrite !blen_cons, !blen_app, !blen_to_be_bytes. lia.
  - rewrite !blen_cons, !blen_app, !blen_to_be_bytes. change MAX_PDU_SIZE with 253. lia.
Qed.
Lemma server_id_replies s : inv s → replies inv 0x11 (returning handle_report_server_id s).
Proof.
  intros Hs. destruct (law_server_id s [0x11; 0] Hs) as (r & s' & added & Hm & Hr & Hs' & Hb).
  rewrite (server_id_run s r s' added Hm) by by destruct r. split; [done|].
  destruct r as [n|ec| |]; try done. 2:{ by apply (exception_reply_ok FunctionCode.ReportServerId). }
  change MAX_SERVER_ID_BYTES with 251. pose proof (blen_nonneg added).
  destruct (negb _ || _) eqn:Hc; [by apply (exception_reply_ok FunctionCode.ReportServerId)|]. split_and!; [..|by left].
  - apply bytes_ok_cons. split; [done|]. apply bytes_ok_cons. split; [unfold byte_ok; lia|done].
  - rewrite !blen_cons. lia.
  - rewrite !blen_cons. change MAX_PDU_SIZE with 253. lia.
Qed.
Lemma diagnostics_replies sub data s : inv s → bytes_ok data →
  let '(r, s') := handle_diagnostics sub data s in inv s' ∧
  match r with Ok (Some resp) => reply_ok 0x08 resp | Ok None => True | _ => False end.
Proof.
  intros Hs Hd. destruct (law_diagnostic sub data Hd s (0x08 :: to_be_bytes (DiagnosticSubFunction.code sub)) Hs)
    as (r & s' & added & Hm & Hr & Hs' & Hb).
  rewrite (diagnostics_run sub data s r s' added Hm) by by destruct r. split; [done|].
  destruct r as [[n|]|ec| |]; try done. 2:{ by apply (exception_reply_ok FunctionCode.Diagnostics). }
  change MAX_DIAGNOSTIC_RESPONSE_DATA_LEN with 250. pose proof (blen_nonneg added).
  destruct (negb _ || _ || _) eqn:Hc; [by apply (exception_reply_ok FunctionCode.Diagnostics)|]. split_and!; [..|by left].
  - apply bytes_ok_cons. split; [done|]. apply Forall_app_2; [apply to_be_bytes_ok|done].
  - rewrite blen_app, blen_cons, blen_to_be_bytes. lia.
  - rewrite blen_app, blen_cons, blen_to_be_bytes. change MAX_PDU_SIZE with 253. lia.
Qed.

(** The response of a file read while it grows *)
Definition file_response (resp : bytes) : Prop :=
  bytes_ok resp ∧ 2 ≤ blen resp ≤ 252 ∧ get resp 0 = Some 0x14.
Lemma file_groups_replies xs : Forall (λ x, FileSubRequest_wf x ∧ FileSubRequest_valid x) xs → ∀ resp s,
  inv s → file_response resp →
  let '(r, s') := read_file_groups (map FileSubRequest_wire xs) resp s in
  inv s' ∧ match r with Ok resp => file_response resp | Err e => reply_ok 0x14 e | _ => False end.
Proof.
  induction 1 as [|x xs [Hwf Hv] _ IH]; intros resp s Hs Hresp; [done|]. cbn [map read_file_groups]. unfold st_bind.
  destruct Hresp as (Hb & Hlen & H0). pose proof (file_group_run x resp s Hwf Hv ltac:(lia)) as Hrun.
  destruct x as [ty f r n], Hwf as (Hf & Hr & Hn), Hv as (_ & _ & _ & Hn1 & _). cbn in Hf, Hr, Hn, Hn1. cbv zeta in Hrun. rewrite Hrun. clear Hrun.
  pose proof (exception_reply_ok FunctionCode.ReadFileRecord) as Hex.
  change MAX_FILE_RECORD_REGISTERS with 122. destruct (Z.ltb_spec 122 n); [split; [done|by apply Hex]|].
  pose proof (law_read_file_record f r n Hf Hr Hn s (zeros (n * 2)) Hs (bytes_ok_zeros _)) as Hm.
  destruct (read_file_record_be f r n (s, zeros (n * 2))) as [[c|ec| |] [s' part]], Hm as (Hres & Hs' & Hpb & Hplen); try done.
  2:{ split; [done|by apply Hex]. }
  rewrite blen_zeros in Hplen by lia. destruct (negb _); [split; [done|by apply Hex]|].
  destruct (Z.ltb_spec 250 (blen resp + blen part)); [split; [done|by apply Hex]|]. apply IH; [done|]. split_and!.
  - apply Forall_app_2; [done|]. apply bytes_ok_cons. split; [unfold byte_ok; lia|]. by apply bytes_ok_cons.
  - rewrite !blen_app. change (blen [_; _]) with 2. lia.
  - rewrite !blen_app. change (blen [_; _]) with 2. lia.
  - rewrite get_app_l; [done|lia].
Qed.
Lemma read_file_replies req s : inv s → ReadFileRecordRequest_wf req → ReadFileRecordRequest_encodable req →
  replies inv 0x14 (returning (handle_read_file_record req) s).
Proof.
  destruct req as [bc subs]. intros Hs [_ Hb] (Hbc & Hlen & gs & Hgs & Hg). cbn in Hb, Hbc, Hlen, Hgs. subst bc.
  assert (∃ xs, gs = map FileSubRequest_wire xs ∧ Forall (λ x, FileSubRequest_wf x ∧ FileSubRequest_valid x) xs) as (xs & -> & Hxs).
  { clear -Hg. induction Hg as [|g gs (x & ? & ? & ->) _ (xs & -> & ?)]; [by exists []|]. exists (x :: xs). by split; [|constructor]. }
  assert (Forall (λ g, blen g = 7) (map FileSubRequest_wire xs)) as H7 by (apply Forall_map, Forall_true; done).
  unfold handle_read_file_record. cbn [ReadFileRecordRequest.sub_requests]. unfold is_empty, is_multiple_of.
  assert (blen subs mod 7 = 0) as Hmod by (rewrite Hgs; by apply blen_concat_mod).
  replace (_ || _ || _) with false by lia.
  rewrite Hgs, chunks_exact_concat_inv by done. rewrite returning_bind.
  pose proof (file_groups_replies xs Hxs [0x14; 0] s Hs ltac:(by split_and!; [repeat constructor|..])) as Hl.
  change ([FunctionCode.code _] ++ [0]) with [0x14; 0].
  destruct (read_file_groups _ _ s) as [[resp|e| |] s'], Hl as [Hs' Hr]; try done. destruct Hr as (Hrb & Hrl & Hr0).
  rewrite usub_Ok by lia. rewrite returning_lift, checked_u8_ok by lia. rewrite returning_lift.
  destruct resp as [|c [|z resp]]; [done|rewrite blen_cons in Hrl; change (blen []) with 0 in Hrl; lia|]. rewrite vec_set_1. split; [done|].
  apply bytes_ok_cons in Hrb as [Hc [_ Hrb]%bytes_ok_cons]. split_and!.
  - apply bytes_ok_cons. split; [done|]. apply bytes_ok_cons. split; [unfold byte_ok; lia|done].
  - rewrite !blen_cons in *. lia.
  - rewrite !blen_cons in *. change MAX_PDU_SIZE with 253. lia.
  - by left.
Qed.
Lemma attempt_acts {E A} (P : A → Prop) (m : ST S Exc A) s : acts inv P m → inv s →
  ∃ r s', attempt (E:=E) m s = (Ok r, s') ∧ inv s' ∧
    match r with inl a => P a | inr ec => is_u8 (ExceptionCode.code ec) end.
Proof.
  intros Hm Hs. specialize (Hm s Hs). unfold attempt. destruct (m s) as [[a|ec| |] s'], Hm as [Hr Hs']; try done.
  - by exists (inl a), s'.
  - by exists (inr ec), s'.
Qed.
Lemma respond_ok {R} `{ServerResponse R} `{!EncodeSpec R} decode `{!PduCodec R (FunctionCode.code FUNCTION_CODE) decode}
    (x : R) (r : unit + Exc) : is_u8 (FunctionCode.code FUNCTION_CODE) → wf x → decodable x → encodable x →
  match r with inl _ => True | inr ec => is_u8 (ExceptionCode.code ec) end →
  ∃ resp, respond r x = Ok resp ∧ reply_ok (FunctionCode.code FUNCTION_CODE) resp.
Proof.
  intros Hfc Hwf Hd He Hr. destruct r as [u|ec]; cbn.
  - exists (wire x). split; [by apply encode_response_ok|]. eapply wire_reply_ok; done.
  - eexists. split; [done|]. by apply exception_reply_ok.
Qed.

(** The outcome of a request: its reply, or none for a broadcast. Only a diagnostic
    (force listen only mode) may be left unanswered by the store. *)
Definition outcome_ok (fc : Z) (broadcast : bool) (o : res Empty_set (option bytes) * S) : Prop :=
  let '(r, s') := o in inv s' ∧
  match r with
  | Ok (Some resp) => broadcast = false ∧ reply_ok fc resp
  | Ok None => broadcast = true ∨ fc = 0x08
  | _ => False
  end.
Lemma unless_broadcast_ok b fc m s : inv s → (b = false → replies inv fc (m s)) →
  outcome_ok fc b (unless_broadcast b m s).
Proof.
  intros Hs Hm. destruct b; [by split; [|left]|]. specialize (Hm eq_refl). cbn. unfold st_bind.
  destruct (m s) as [[resp|e| |] s'], Hm as [Hs' Hr]; try done.
Qed.
(** A write that answers with an echo *)
Lemma echo_ok {R} `{ServerResponse R} `{!EncodeSpec R} decode `{!PduCodec R (FunctionCode.code FUNCTION_CODE) decode}
    (x : R) (m : ST S Exc unit) b s fc : is_u8 (FunctionCode.code FUNCTION_CODE) → fc = FunctionCode.code FUNCTION_CODE →
  inv s → acts inv (λ _, True) m → wf x → decodable x → encodable x →
  outcome_ok fc b
    ((result <- attempt m;; unless_broadcast b (st_lift (respond result x))) s).
Proof.
  intros Hfc -> Hs Hm Hwf Hd He. unfold st_bind at 1. destruct (attempt_acts (E:=Empty_set) _ m s Hm Hs) as (r & s' & -> & Hs' & Hr).
  apply unless_broadcast_ok; [done|]. intros _. destruct (respond_ok _ x r Hfc Hwf Hd He Hr) as (resp & Hresp & Hok).
  unfold st_lift. rewrite Hresp. done.
Qed.
Lemma write_groups_act gs : Forall group_ok gs → acts inv (λ _, True) (write_groups (map group_of gs)).
Proof.
  induction 1 as [|[x v] gs Hg _ IH]; intros s Hs; [done|]. destruct x as [ty f r n], Hg as ((Hf & Hr & Hn) & _ & Hb & _).
  cbn in Hf, Hr, Hn, Hb. cbn [map group_of write_groups]. unfold st_bind.
  pose proof (law_write_file_record f r n v Hf Hr Hn Hb s Hs) as Hm.
  destruct (write_file_record_be f r n v s) as [[a|ec| |] s'], Hm as [Hres Hs']; try done. by apply IH.
Qed.
Lemma apply_write_act req : WriteFileRecordRequest_wf req → WriteFileRecordRequest_encodable req →
  acts inv (λ _, True) (apply_write_file_record req).
Proof.
  destruct req as [bc subs]. intros Hwf Hen s Hs. destruct (write_request_groups bc subs Hwf Hen) as (gs & _ & Hgs & Hp).
  destruct Hen as (Hbc & _). unfold apply_write_file_record. cbn [WriteFileRecordRequest.byte_count WriteFileRecordRequest.sub_requests] in *.
  replace (negb _) with false by lia. rewrite st_bind_lift, Hp. by apply write_groups_act.
Qed.
Lemma mask_write_act a am om : is_u16 a → is_u16 am → is_u16 om → acts inv (λ _, True) (handle_mask_write a am om).
Proof.
  intros Ha Ham Hom s Hs. unfold handle_mask_write. rewrite st_bind_lift.
  destruct (validate_mask_write_address a) as [[]|ec| |] eqn:Hv;
    unfold validate_mask_write_address, validate_address_range in Hv; case_match; simplify_eq; [by apply law_mask_write|done].
Qed.

Definition request_code (r : RequestPdu.t) : Z := default 0 (get (request_wire r) 0).
Lemma exception_outcome fc b ec s : is_u8 (FunctionCode.code fc) → is_u8 (ExceptionCode.code ec) → inv s →
  outcome_ok (FunctionCode.code fc) b (unless_broadcast b (st_ret (encode_exception (FunctionCode.exception_code fc) ec)) s).
Proof. intros. apply unless_broadcast_ok; [done|]. intros _. split; [done|]. by apply exception_reply_ok. Qed.

Lemma dispatch_ok req unit b dev s : inv s → request_ok req → is_u8 unit → device_ok dev →
  outcome_ok (request_code req) b (dispatch_request req (request_wire req) unit b dev s).
Proof.
  intros Hs Hok Hu Hdev. destruct req as [x|x|x|x|x|x| |x| | |x|x| |x|x|x|x|x|x|fc data]; cbn [request_ok] in Hok;
    try open_request; unfold dispatch_request.
  - apply unless_broadcast_ok; [done|]. intros _. by apply (read_bits_replies true).
  - apply unless_broadcast_ok; [done|]. intros _. by apply (read_bits_replies false).
  - apply unless_broadcast_ok; [done|]. intros _. by apply (read_registers_replies true).
  - apply unless_broadcast_ok; [done|]. intros _. by apply (read_registers_replies false).
  - apply (echo_ok WriteSingleCoilResponse.decode); try done. by apply law_write_coil.
  - apply (echo_ok WriteSingleRegisterResponse.decode); try done. by apply law_write_register.
  - apply unless_broadcast_ok; [done|]. intros _. unfold st_bind.
    destruct (attempt_acts (E:=Empty_set) _ _ s law_exception_status Hs) as ([x|ec] & s' & -> & Hs' & Hr); (split; [done|]).
    + cbn. rewrite encode_response_ok by done. by apply (wire_reply_ok 0x07 ReadExceptionStatusResponse.decode).
    + by apply (exception_reply_ok FunctionCode.ReadExceptionStatus).
  - unfold st_bind. pose proof (diagnostics_replies sub_function data s Hs Hwf) as Hr.
    destruct (handle_diagnostics sub_function data s) as [[[resp|]|e| |] s'], Hr as [Hs' Hr]; try done; destruct b; (split; [done|]); by auto.
  - apply unless_broadcast_ok; [done|]. intros _. unfold st_bind.
    destruct (attempt_acts (E:=Empty_set) _ _ s law_event_counter Hs) as ([[st ct]|ec] & s' & -> & Hs' & Hr); (split; [done|]).
    + cbn. rewrite encode_response_ok by done. by apply (wire_reply_ok 0x0B GetCommEventCounterResponse.decode).
    + by apply (exception_reply_ok FunctionCode.GetCommEventCounter).
  - apply unless_broadcast_ok; [done|]. intros _. by apply event_log_replies.
  - pose proof (verdict_reply_ok _ _ _ (validate_write_coils_verdict address quantity byte_count ltac:(lia))) as Hv.
    destruct (validate_write_coils _ _ _) as [u|ec| |]; try done; [|by apply (exception_outcome FunctionCode.WriteMultipleCoils)].
    apply (echo_ok WriteMultipleCoilsResponse.decode); try done. by apply law_write_coils.
  - pose proof (verdict_reply_ok _ _ _ (validate_write_registers_verdict address quantity byte_count ltac:(lia))) as Hv.
    destruct (validate_write_registers _ _ _) as [u|ec| |]; try done; [|by apply (exception_outcome FunctionCode.WriteMultipleRegisters)].
    apply (echo_ok WriteMultipleRegistersResponse.decode); try done. by apply law_write_registers.
  - apply unless_broadcast_ok; [done|]. intros _. by apply server_id_replies.
  - apply unless_broadcast_ok; [done|]. intros _. by apply read_file_replies.
  - apply (echo_ok WriteFileRecordResponse.decode); try done. by apply apply_write_act.
  - apply (echo_ok MaskWriteRegisterResponse.decode); try done. by apply mask_write_act.
  - apply unless_broadcast_ok; [done|]. intros _. by apply read_write_replies.
  - apply unless_broadcast_ok; [done|]. intros _. by apply fifo_replies.
  - apply unless_broadcast_ok; [done|]. intros _. destruct mei_type.
    + rewrite bool_decide_false by done. split; [done|]. by apply (encode_exception_ok 0x2B).
    + rewrite bool_decide_true by done. destruct (build_device_id_response_spec (E:=Empty_set) data dev) as (resp & Hb & Ha).
      unfold st_lift. rewrite Hb. split; [done|]. destruct (device_reply dev data resp Hdev Ha) as [(ec & _ & He & ->)|(d & Hx & Hx' & Hx'' & ->)].
      * by apply (exception_reply_ok FunctionCode.EncapsulatedInterfaceTransport).
      * by apply (wire_reply_ok 0x2B EncapsulatedInterfaceResponse.decode).
  - destruct Hok as (Hfc & _ & Hb). apply unless_broadcast_ok; [done|]. intros _. apply custom_replies; try done. lia.
Qed.
Lemma process_ok pdu unit dev s : inv s → bytes_ok pdu → is_u8 unit → device_ok dev →
  outcome_ok (default 0 (get pdu 0)) (UnitId.is_broadcast unit) (process_request pdu unit dev s).
Proof.
  intros Hs Hb Hu Hdev. unfold process_request. destruct (decode_request pdu) as [req|e| |] eqn:Hd.
  - destruct (decode_request_sound pdu req Hb Hd) as (Hok & Hw & _). subst pdu. by apply dispatch_ok.
  - destruct (UnitId.is_broadcast unit); [by split; [|left]|]. split; [done|]. split; [done|].
    apply encode_exception_ok; [|by destruct e]. destruct pdu as [|c pdu]; [done|]. by apply bytes_ok_cons in Hb as [Hc _].
  - destruct (dispatchers_return pdu Hb) as [Hr _]. by rewrite Hd in Hr.
  - destruct (dispatchers_return pdu Hb) as [Hr _]. by rewrite Hd in Hr.
Qed.
End Safe.

(** * The in-memory store keeps the laws *)
Section MemoryLaws.
Implicit Types (s : InMemoryStore.t).

Lemma fill_law s out n image : store_ok s → bytes_ok out → 0 ≤ n → result_ok bytes_ok image →
  let '(r, (s', out')) := fill s out n image in
  result_ok (λ n, 0 ≤ n) r ∧ store_ok s' ∧ bytes_ok out' ∧ blen out' = blen out.
Proof.
  intros Hs Hb Hn Hi. destruct image as [i|ec| |]; try done. unfold fill. destruct (Z.ltb_spec (blen out) (blen i)); [done|].
  split_and!; try done.
  - apply Forall_app_2; [done|]. by apply Forall_drop.
  - by apply blen_overlay.
Qed.
Lemma committed_law s r new : store_ok s → committed s r new → result_ok (λ _, True) new →
  let '(r, s') := r in result_ok (λ _ : unit, True) r ∧ store_ok s'.
Proof. intros Hs Hc Hn. destruct new as [T|ec| |]; try done; cbn in Hc; [by destruct Hc as (s' & -> & ? & _)|by rewrite Hc]. Qed.
Lemma select_law {A} (f : list A → bytes) table a n : (∀ l, bytes_ok (f l)) → result_ok bytes_ok (rmap f (select table a n)).
Proof. intros Hf. unfold select. case_match; [done|]. apply Hf. Qed.
Lemma replace_law {A B} (f : list A → B) table a v : result_ok (λ _, True) (rmap f (replace_at table a v)).
Proof. unfold replace_at. by case_match. Qed.

Lemma read_write_law s out ra rq wa wq bs : store_ok s → bytes_ok out → bytes_ok bs →
  is_u16 ra → is_u16 rq → is_u16 wa → is_u16 wq →
  let '(r, (s', out')) := InMemoryStore.atomic_read_write_registers_be ra rq wa wq bs (s, out) in
  result_ok (λ n, 0 ≤ n) r ∧ store_ok s' ∧ bytes_ok out' ∧ blen out' = blen out.
Proof.
  intros Hs Hb Hbs Hra Hrq Hwa Hwq.
  destruct ((1 <=? rq) && (rq <=? MAX_RW_READ_REGISTERS) && (1 <=? wq) && (wq <=? MAX_RW_WRITE_REGISTERS)
    && (blen bs =? wq * 2) && (rq * 2 <=? blen out)) eqn:Hv.
  - pose proof (read_write_exchanged s out ra rq wa wq bs Hs Hbs Hra Hwa ltac:(lia) ltac:(lia) ltac:(lia) ltac:(lia)) as He.
    unfold exchanged, exchange, replace_at in He. pose proof (blen_nonneg (be_words bs)) as Hbw.
    destruct (Z.ltb_spec (blen (InMemoryStore.holding_registers s)) (wa + blen (be_words bs))); [by rewrite He|]. cbn [rbind] in He.
    unfold select in He. rewrite blen_splice in He by lia.
    destruct (Z.ltb_spec (blen (InMemoryStore.holding_registers s)) (ra + rq)); [by rewrite He|]. destruct He as (s' & -> & Hs' & _).
    split_and!; [cbn; lia|done|apply overlay_Forall; [done|apply words_be_ok]|].
    apply blen_overlay. rewrite words_be_length, blen_sublist; [lia..|]. rewrite blen_splice by lia. lia.
  - unfold InMemoryStore.atomic_read_write_registers_be. unfold st_bind at 1, on_buf at 1, st_get at 1. cbn [fst snd]. rewrite st_bind_lift.
    unfold validate_atomic_read_write_buffers. destruct (_ || _ || _ || _) eqn:H1; [done|].
    by replace (_ || _) with true by lia.
Qed.
Lemma write_file_law s f r n bs : store_ok s → is_u16 r → is_u16 n → bytes_ok bs →
  let '(r, s') := InMemoryStore.write_file_record_be f r n bs s in result_ok (λ _ : unit, True) r ∧ store_ok s'.
Proof.
  intros Hs Hr Hn Hb. destruct (decide (blen bs = n * 2)) as [Hl|Hl].
  - eapply committed_law; [done|by apply write_file_committed|]. unfold replace_records, FileRecord.validate_range.
    destruct (checked_add _ _); [|done]. cbn [ok_or rbind]. by case_match.
  - unfold InMemoryStore.write_file_record_be. by replace (negb (blen bs =? n * 2)) with true by lia.
Qed.
Lemma append_nothing {A} (P : A → Prop) (ec : Exc) s (out : bytes) : store_ok s → is_u8 (ExceptionCode.code ec) →
  ∃ r s' added, (@Err Exc A ec, (s, out)) = (r, (s', out ++ added)) ∧ result_ok P r ∧ store_ok s' ∧ bytes_ok added.
Proof. intros. exists (Err ec), s, []. rewrite app_nil_r. split_and!; [done..|constructor]. Qed.
Ltac memory_method := cbn [memory_store read_coils_packed read_discrete_inputs_packed read_holding_registers_be
  read_input_registers_be read_file_record_be read_fifo_queue_be atomic_read_write_registers_be handle_custom_function
  write_coil write_coils_packed write_register write_registers_be atomic_mask_write_register write_file_record_be
  read_exception_status get_comm_event_counter append_comm_event_log append_server_id append_diagnostic_response].
#[export] Instance memory_laws : StoreLaws InMemoryStore.t store_ok.
Proof.
  split.
  - intros a q Ha Hq s out Hs Hb. memory_method. rewrite (proj1 (reads_refine s Hs a q out Ha Hq)). apply fill_law, select_law; [done..|lia|apply pack_bits_ok].
  - intros a q Ha Hq s out Hs Hb. memory_method. destruct (reads_refine s Hs a q out Ha Hq) as (_ & -> & _). apply fill_law, select_law; [done..|lia|apply pack_bits_ok].
  - intros a q Ha Hq s out Hs Hb. memory_method. destruct (reads_refine s Hs a q out Ha Hq) as (_ & _ & -> & _). apply fill_law, select_law; [done..|lia|apply words_be_ok].
  - intros a q Ha Hq s out Hs Hb. memory_method. destruct (reads_refine s Hs a q out Ha Hq) as (_ & _ & _ & ->). apply fill_law, select_law; [done..|lia|apply words_be_ok].
  - intros f r n Hf Hr Hn s out Hs Hb. memory_method. rewrite read_file_fill by done. apply fill_law; [done..|lia|].
    unfold select_records, FileRecord.validate_range. destruct (checked_add r n); [|done]. cbn [ok_or rbind].
    repeat (case_match; [done|]). destruct (_ !! f); [|done]. apply select_law, words_be_ok.
  - intros a Ha s out Hs Hb. memory_method. rewrite read_fifo_refine. destruct (_ !! a) as [values|]; [|done].
    apply fill_law; [done..|apply blen_nonneg|]. unfold fifo_image. case_match; [done|]. apply words_be_ok.
  - intros ra rq wa wq bs Hra Hrq Hwa Hwq Hbs s out Hs Hb. cbn.
    by apply read_write_law.
  - done.
  - intros a b Ha s Hs. memory_method. eapply committed_law; [done|by apply (single_writes_commit s Hs a Ha)|apply replace_law].
  - intros a q bs Ha Hq Hb s Hs. memory_method. eapply committed_law; [done|by apply write_coils_packed_committed|].
    unfold coil_payload. case_match; [|done]. apply replace_law.
  - intros a x Ha Hx s Hs. memory_method. eapply committed_law; [done|by apply (single_writes_commit s Hs a Ha)|apply replace_law].
  - intros a q bs Ha Hq Hb s Hs. memory_method. eapply committed_law; [done|by apply write_registers_be_committed|].
    unfold register_payload. case_match; [|done]. apply replace_law.
  - intros a am om Ha Ham Hom s Hs. memory_method. eapply committed_law; [done|by apply (single_writes_commit s Hs a Ha)|].
    unfold select. case_match; [done|]. apply replace_law.
  - intros f r n bs Hf Hr Hn Hb s Hs. memory_method. by apply write_file_law.
  - intros s Hs. split; [|done]. destruct s as [c d h i fs q x sid], Hs as (_ & _ & _ & _ & Hx & _). done.
  - done.
  - intros s out Hs. by apply append_nothing.
  - intros s out Hs. memory_method. unfold InMemoryStore.append_server_id, InMemoryStore.reading.
    unfold st_bind at 1 2, on_store, st_get, st_ret at 1. cbn [fst snd]. case_match; [by apply append_nothing|].
    exists (Ok (blen (InMemoryStore.server_id s))), s, (InMemoryStore.server_id s). split; [done|]. split; [apply blen_nonneg|].
    split; [done|]. destruct s as [c d h i fs q x sid], Hs as (_ & _ & _ & _ & _ & Hx). done.
  - intros sub bs Hb s out Hs. memory_method. unfold InMemoryStore.append_diagnostic_response.
    destruct sub; try (by apply append_nothing).
    case_match; [by apply append_nothing|].
    by exists (Ok (Some (blen bs))), s, bs.
Qed.
End MemoryLaws.

(** C15. For every store that keeps [StoreLaws], and for every byte string, the
    server comes to an end without a panic, keeps the invariant of the store and
    answers with at most one PDU: never to a broadcast, otherwise always (a store
    may leave a diagnostic unanswered), of at most 253 bytes, and it carries the
    function code of the request or is the two-byte exception for it. *)
Theorem server_safe (S : Type) `{DataStore S} (inv : S → Prop) `{!StoreLaws S inv}
    (pdu : bytes) (unit_id : Z) (dev : DeviceIdentification.t) (s : S) :
  inv s → bytes_ok pdu → is_u8 unit_id → device_ok dev →
  let fc := default 0 (get pdu 0) in
  let '(r, s') := process_request pdu unit_id dev s in
  inv s' ∧
  match r with
  | Ok (Some resp) =>
      UnitId.is_broadcast unit_id = false ∧ bytes_ok resp ∧ 1 ≤ blen resp ≤ MAX_PDU_SIZE ∧
      (get resp 0 = Some fc ∨ ∃ ec, resp = [Z.lor fc 0x80; ExceptionCode.code ec])
  | Ok None => UnitId.is_broadcast unit_id = true ∨ fc = 0x08
  | _ => False
  end.
Proof. intros Hs Hb Hu Hd. by apply (process_ok inv pdu unit_id dev s). Qed.
Lemma server_safe_witness :
  let '(r, s') := process_request [0x03; 0; 0; 0; 2] 1 (DeviceIdentification.default []) small_store in
  store_ok s' ∧ r = Ok (Some [0x03; 4; 0; 0; 0; 0]).
Proof.
  pose proof (server_safe InMemoryStore.t store_ok [0x03; 0; 0; 0; 2] 1 (DeviceIdentification.default []) small_store
    small_store_ok ltac:(repeat constructor; unfold byte_ok; lia) ltac:(lia)) as Hs.
  split; [|vm_compute; reflexivity].
  apply Hs. repeat constructor; unfold byte_ok; lia.
Defined.
