(* ===== verification/Service.v ===== *)
(** * The server over the in-memory store (crates/rusty-modbus-server: src/handler.rs on src/store/memory.rs)

    What a client sees: [serve] is the Modbus service on plain tables, from a typed
    request to a typed response and the new tables. The theorems say that the
    handler with the in-memory store implements it on the wire, bytes to bytes. *)
From stdpp Require Import gmap.
From S2P Require Import Prelude Types CodecError FileRecords Requests Responses MeiResponses Pdu Validate.
From S2P Require Import Bits Store Memory DeviceId Handler Server.

(** * Specification *)

(** The sub-requests of a file read, and of a file write with their records *)
Definition read_subs (subs : bytes) : list FileSubRequest.t :=
  omap (λ c, match FileSubRequest.decode c with Ok x => Some x | _ => None end) (chunks_exact 7 subs).
Fixpoint write_subs (fuel : nat) (subs : bytes) : list (FileSubRequest.t * bytes) :=
  match fuel with
  | O => []
  | S fuel =>
      match FileSubRequest.decode (take 7 subs) with
      | Ok x =>
          let len := Z.to_nat (FileSubRequest.record_length x * 2) in
          (x, take len (drop 7 subs)) :: write_subs fuel (drop len (drop 7 subs))
      | _ => []
      end
  end.
(** The response groups of a file read, at most 250 bytes *)
Fixpoint read_records (files : gmap Z (list Z)) (xs : list FileSubRequest.t) (acc : bytes) : res Exc bytes :=
  match xs with
  | [] => Ok acc
  | FileSubRequest.mk _ f r n :: xs =>
      let? values := select_records files f r n in
      let acc := acc ++ (1 + 2 * n) :: 6 :: words_be values in
      if 250 <? blen acc then Err ExceptionCode.IllegalDataValue else read_records files xs acc
  end.
Fixpoint write_records (files : gmap Z (list Z)) (gs : list (FileSubRequest.t * bytes)) : res Exc (gmap Z (list Z)) :=
  match gs with
  | [] => Ok files
  | (FileSubRequest.mk _ f r n, values) :: gs =>
      let? files := replace_records files f r (be_words values) in write_records files gs
  end.

(** The service: the response to a request and the tables after it *)
Definition serve (T : Tables.t) (req : RequestPdu.t) : res Exc (ResponsePdu.t * Tables.t) :=
  match req with
  | RequestPdu.ReadCoils (ReadCoilsRequest.mk a q) =>
      let? part := select (Tables.coils T) a q in
      Ok (ResponsePdu.ReadCoils (ReadCoilsResponse.mk (div_ceil q 8) (pack_bits part)), T)
  | RequestPdu.ReadDiscreteInputs (ReadDiscreteInputsRequest.mk a q) =>
      let? part := select (Tables.discrete_inputs T) a q in
      Ok (ResponsePdu.ReadDiscreteInputs (ReadDiscreteInputsResponse.mk (div_ceil q 8) (pack_bits part)), T)
  | RequestPdu.ReadHoldingRegisters (ReadHoldingRegistersRequest.mk a q) =>
      let? part := select (Tables.holding_registers T) a q in
      Ok (ResponsePdu.ReadHoldingRegisters (ReadHoldingRegistersResponse.mk (q * 2) (words_be part)), T)
  | RequestPdu.ReadInputRegisters (ReadInputRegistersRequest.mk a q) =>
      let? part := select (Tables.input_registers T) a q in
      Ok (ResponsePdu.ReadInputRegisters (ReadInputRegistersResponse.mk (q * 2) (words_be part)), T)
  | RequestPdu.WriteSingleCoil (WriteSingleCoilRequest.mk a v) =>
      let? c := replace_at (Tables.coils T) a [CoilValue.as_bool v] in
      Ok (ResponsePdu.WriteSingleCoil (WriteSingleCoilResponse.mk a v), Tables.set_coils c T)
  | RequestPdu.WriteSingleRegister (WriteSingleRegisterRequest.mk a v) =>
      let? h := replace_at (Tables.holding_registers T) a [v] in
      Ok (ResponsePdu.WriteSingleRegister (WriteSingleRegisterResponse.mk a v), Tables.set_holding h T)
  | RequestPdu.WriteMultipleCoils (WriteMultipleCoilsRequest.mk a q _ values) =>
      let? c := replace_at (Tables.coils T) a (unpack_bits q values) in
      Ok (ResponsePdu.WriteMultipleCoils (WriteMultipleCoilsResponse.mk a q), Tables.set_coils c T)
  | RequestPdu.WriteMultipleRegisters (WriteMultipleRegistersRequest.mk a q _ values) =>
      let? h := replace_at (Tables.holding_registers T) a (be_words values) in
      Ok (ResponsePdu.WriteMultipleRegisters (WriteMultipleRegistersResponse.mk a q), Tables.set_holding h T)
  | RequestPdu.MaskWriteRegister (MaskWriteRegisterRequest.mk a am om) =>
      let? cur := select (Tables.holding_registers T) a 1 in
      let? h := replace_at (Tables.holding_registers T) a [masked (nth 0 cur 0) am om] in
      Ok (ResponsePdu.MaskWriteRegister (MaskWriteRegisterResponse.mk a am om), Tables.set_holding h T)
  | RequestPdu.ReadWriteMultipleRegisters (ReadWriteMultipleRegistersRequest.mk ra rq wa _ _ values) =>
      let? x := exchange (Tables.holding_registers T) wa (be_words values) ra rq in
      Ok (ResponsePdu.ReadWriteMultipleRegisters (ReadWriteMultipleRegistersResponse.mk (rq * 2) (words_be x.2)),
          Tables.set_holding x.1 T)
  | RequestPdu.ReadFileRecord (ReadFileRecordRequest.mk _ subs) =>
      let? data := read_records (Tables.files T) (read_subs subs) [] in
      Ok (ResponsePdu.ReadFileRecord (ReadFileRecordResponse.mk (blen data) data), T)
  | RequestPdu.WriteFileRecord (WriteFileRecordRequest.mk bc subs) =>
      let? files := write_records (Tables.files T) (write_subs (length subs) subs) in
      Ok (ResponsePdu.WriteFileRecord (WriteFileRecordResponse.mk bc subs), Tables.set_files files T)
  | RequestPdu.ReadFifoQueue (ReadFifoQueueRequest.mk a) =>
      let? values := ok_or (Tables.fifo_queues T !! a) ExceptionCode.IllegalDataAddress in
      let? image := fifo_image values in
      Ok (ResponsePdu.ReadFifoQueue (ReadFifoQueueResponse.mk (2 + blen values * 2) (blen values) image), T)
  | RequestPdu.ReadExceptionStatus =>
      Ok (ResponsePdu.ReadExceptionStatus (ReadExceptionStatusResponse.mk (Tables.exception_status T)), T)
  | RequestPdu.Diagnostics (DiagnosticsRequest.mk DiagnosticSubFunction.ReturnQueryData data) =>
      Ok (ResponsePdu.Diagnostics (DiagnosticsResponse.mk DiagnosticSubFunction.ReturnQueryData data), T)
  | RequestPdu.ReportServerId =>
      if MAX_SERVER_ID_BYTES <? blen (Tables.server_id T) then Err ExceptionCode.ServerDeviceFailure else
      Ok (ResponsePdu.ReportServerId (ReportServerIdResponse.mk (blen (Tables.server_id T)) (Tables.server_id T)), T)
  | RequestPdu.Diagnostics _ | RequestPdu.GetCommEventCounter | RequestPdu.GetCommEventLog
  | RequestPdu.EncapsulatedInterface _ | RequestPdu.Custom _ _ => Err ExceptionCode.IllegalFunction
  end.

(** [o] is the outcome the service prescribes: the response on the wire, and a
    well-formed store with the new tables. *)
Definition answers (fc : FunctionCode.t) (T : Tables.t) (spec : res Exc (ResponsePdu.t * Tables.t))
    (o : res Empty_set bytes * InMemoryStore.t) : Prop :=
  ∃ resp s', o = (Ok resp, s') ∧ store_ok s' ∧
  match spec with
  | Ok (r, T') => resp = response_wire r ∧ response_ok r ∧ tables_of s' = T'
  | Err ec => resp = exception_reply fc ec ∧ ec_canonical ec ∧ is_u8 (ExceptionCode.code ec) ∧ tables_of s' = T
  | Panic | OutOfFuel => False
  end.

(** * Lemmas *)
Section Answers.
Context (s : InMemoryStore.t) (Hs : store_ok s).
Let T := tables_of s.

Lemma tables_sizes : blen (Tables.coils T) ≤ MAX_TABLE_SIZE ∧ blen (Tables.discrete_inputs T) ≤ MAX_TABLE_SIZE ∧
  blen (Tables.holding_registers T) ≤ MAX_TABLE_SIZE ∧ blen (Tables.input_registers T) ≤ MAX_TABLE_SIZE.
Proof.
  unfold T. destruct s as [c d h i fs q x sid], Hs as ([Hc Hd] & (? & ? & ? & ?) & _). cbn. by rewrite !blen_bits_of.
Qed.

(** The validator's address check is subsumed by the size of the table. *)
Lemma checked_read {A} fc pre v (table : list A) a q n (f : list A → bytes) : 0 ≤ a → 0 ≤ q → 0 ≤ n →
  v = Ok tt ∨ v = Err ExceptionCode.IllegalDataAddress ∧ 65536 < a + q → blen table ≤ MAX_TABLE_SIZE →
  (∀ l, blen l = q → blen (f l) = n) →
  checked (E:=Empty_set) fc v s (filled_reply fc pre q (fill s (zeros n) q (rmap f (select table a q)))) =
  match select table a q with
  | Ok part => (Ok (pre ++ f part), s)
  | Err ec => (Ok (exception_reply fc ec), s)
  | Panic => (Panic, s)
  | OutOfFuel => (OutOfFuel, s)
  end.
Proof.
  intros Ha Hq Hn Hv Hl Hf. unfold select. destruct Hv as [->|[-> Hout]]; cbn [checked].
  - destruct (Z.ltb_spec (blen table) (a + q)); [done|]. cbn [rmap rbind]. unfold fill.
    assert (blen (f (sublist a q table)) = n) as Hfl by (apply Hf, blen_sublist; lia).
    rewrite Hfl, blen_zeros by done. rewrite Z.ltb_irrefl. cbn. rewrite Z.eqb_refl.
    unfold overlay. rewrite drop_ge, app_nil_r; [done|]. unfold zeros. rewrite length_replicate. unfold blen in Hfl. lia.
  - unfold MAX_TABLE_SIZE in Hl. by replace (blen table <? a + q) with true by lia.
Qed.
Lemma answers_read {A} fc (table : list A) a q (img : list A → bytes) (mk : list A → ResponsePdu.t) o :
  o = match select table a q with
      | Ok part => (Ok (img part), s)
      | Err ec => (Ok (exception_reply fc ec), s)
      | Panic => (Panic, s)
      | OutOfFuel => (OutOfFuel, s)
      end → 0 ≤ a → 0 ≤ q →
  (∀ part, blen part = q → img part = response_wire (mk part) ∧ response_ok (mk part)) →
  answers fc T (let? part := select table a q in Ok (mk part, T)) o.
Proof.
  intros -> Ha Hq Hmk. unfold select. destruct (Z.ltb_spec (blen table) (a + q)); cbn [rbind].
  - by exists (exception_reply fc ExceptionCode.IllegalDataAddress), s.
  - destruct (Hmk (sublist a q table)) as [Hw Hok]; [apply blen_sublist; lia|]. rewrite Hw. by eexists _, s.
Qed.
Lemma verdict_address a q P v : range_verdict P [(a, q)] v → P →
  v = Ok tt ∨ v = Err ExceptionCode.IllegalDataAddress ∧ 65536 < a + q.
Proof.
  intros [[-> Hn]|[[-> [_ He]]|[-> _]]] HP; [done|right|by left]. split; [done|]. apply Exists_cons in He as [He|He%Exists_nil]; [lia|done].
Qed.
End Answers.

(** The outcome of a request that may be broadcast: no reply, and the effect only
    for the requests that [applies] to everyone *)
Definition tables_after (T : Tables.t) (spec : res Exc (ResponsePdu.t * Tables.t)) : Tables.t :=
  match spec with Ok (_, T') => T' | _ => T end.
Definition outcome (broadcast applies : bool) (fc : FunctionCode.t) (T : Tables.t)
    (spec : res Exc (ResponsePdu.t * Tables.t)) (o : res Empty_set (option bytes) * InMemoryStore.t) : Prop :=
  if broadcast
  then ∃ s', o = (Ok None, s') ∧ store_ok s' ∧ tables_of s' = if applies then tables_after T spec else T
  else ∃ r s', o = (rmap Some r, s') ∧ answers fc T spec (r, s').

Section Outcomes.
Context (s : InMemoryStore.t) (Hs : store_ok s).
Let T := tables_of s.

Lemma outcome_read b fc spec m : answers fc T spec (m s) → outcome b false fc T spec (unless_broadcast b m s).
Proof.
  intros Ha. destruct b; [by exists s|]. cbn. unfold st_bind. destruct (m s) as [r s'] eqn:Hm. exists r, s'.
  split; [|done]. by destruct Ha as (resp & s'' & [= -> ->] & _).
Qed.
(** A result that is a value or one of the standard exceptions *)
Definition standard {A} (r : res Exc A) : Prop :=
  match r with Ok _ => True | Err ec => ec_canonical ec ∧ is_u8 (ExceptionCode.code ec) | Panic | OutOfFuel => False end.
Lemma outcome_commit b {C R} `{ServerResponse R} `{!EncodeSpec R} (x : R) (mk : R → ResponsePdu.t)
    (m : ST InMemoryStore.t Exc unit) (f : C → Tables.t) (r : res Exc C) fc :
  committed s (m s) (rmap f r) → standard r → fc = FUNCTION_CODE →
  wf x → encodable x → response_wire (mk x) = wire x → response_ok (mk x) →
  outcome b true fc T (let? c := r in Ok (mk x, f c))
    ((result <- attempt m;; unless_broadcast b (st_lift (respond result x))) s).
Proof.
  intros Hc Hr -> Hwf Hen Hw Hok. unfold st_bind at 1, attempt. destruct r as [c|ec| |]; try done; cbn in Hc.
  - destruct Hc as (s' & -> & Hs' & HT). destruct b; [by exists s'|]. exists (Ok (wire x)), s'. cbn.
    unfold st_bind, st_lift. rewrite encode_response_ok by done. split; [done|]. by exists (wire x), s'.
  - rewrite Hc. destruct b; [by exists s|]. exists (Ok (exception_reply FUNCTION_CODE ec)), s. split; [done|].
    destruct Hr as [? ?]. by exists (exception_reply FUNCTION_CODE ec), s.
Qed.
Lemma standard_replace {A} (table : list A) a v : standard (replace_at table a v).
Proof. unfold replace_at. by case_match. Qed.
End Outcomes.

(** ** File records *)
Section Files.
Lemma read_groups_split subs : groups read_group subs →
  ∃ xs, subs = concat (map FileSubRequest_wire xs) ∧ Forall (λ x, FileSubRequest_wf x ∧ FileSubRequest_valid x) xs.
Proof.
  intros (gs & -> & Hg). induction Hg as [|g gs (x & ? & ? & ->) _ (xs & Heq & ?)]; [by exists []|].
  exists (x :: xs). cbn [concat map]. rewrite Heq. by split; [|constructor].
Qed.
Lemma write_subs_of gs : Forall group_ok gs → ∀ fuel, (length gs ≤ fuel)%nat →
  write_subs fuel (concat (map group_wire gs)) = gs.
Proof.
  induction 1 as [|[x v] gs Hg Hgs IH]; intros fuel Hf.
  { by destruct fuel. }
  destruct fuel as [|fuel]; [cbn in Hf; lia|]. destruct Hg as (Hwf & Hv & Hb & Hl). cbn [fst snd] in *. cbn [map concat write_subs].
  change (group_wire (x, v)) with (FileSubRequest_wire x ++ v). rewrite <-!app_assoc.
  assert (take 7 (FileSubRequest_wire x ++ v ++ concat (map group_wire gs)) = FileSubRequest_wire x) as -> by apply (take_app_length (FileSubRequest_wire x)).
  assert (drop 7 (FileSubRequest_wire x ++ v ++ concat (map group_wire gs)) = v ++ concat (map group_wire gs)) as -> by apply (drop_app_length (FileSubRequest_wire x)).
  rewrite FileSubRequest_decode_wire by done. replace (Z.to_nat _) with (length v) by (unfold blen in Hl; lia).
  rewrite take_app_length, drop_app_length, IH; [done|cbn in Hf; lia].
Qed.
Lemma replace_valid files x v : FileSubRequest_wf x → FileSubRequest_valid x → blen v = FileSubRequest.record_length x →
  ∃ files', replace_records files (FileSubRequest.file_number x) (FileSubRequest.record_number x) v = Ok files'.
Proof. intros Hwf Hv Hl. unfold replace_records. rewrite Hl, valid_range_ok by done. cbn [rbind]. by eexists. Qed.
Lemma write_groups_committed gs : Forall group_ok gs → ∀ s, store_ok s →
  ∃ files s', write_records (Tables.files (tables_of s)) gs = Ok files ∧ write_groups (map group_of gs) s = (Ok tt, s') ∧
    store_ok s' ∧ tables_of s' = Tables.set_files files (tables_of s).
Proof.
  induction 1 as [|[x v] gs Hg Hgs IH]; intros s Hs.
  { exists (Tables.files (tables_of s)), s. split_and!; try done. by destruct s. }
  destruct Hg as (Hwf & Hv & Hb & Hl). cbn [fst snd] in *.
  assert (blen v = FileSubRequest.record_length x * 2) as Hl2 by lia.
  pose proof (blen_be_words v Hb (blen_mod_2 v _ Hl2)) as Hw.
  destruct (replace_valid (Tables.files (tables_of s)) x (be_words v) Hwf Hv ltac:(lia)) as (files1 & H1).
  destruct x as [ty f r n]. pose proof Hwf as (Hf & Hr & Hn). cbn [FileSubRequest.file_number FileSubRequest.record_number FileSubRequest.record_length] in *.
  pose proof (write_file_committed s f r n v Hs Hb Hr Hn Hl2) as Hc.
  replace (InMemoryStore.files s) with (Tables.files (tables_of s)) in Hc by by destruct s.
  rewrite H1 in Hc. destruct Hc as (s1 & Hm & Hs1 & HT1).
  destruct (IH s1 Hs1) as (files & s' & Hrec & Hrun & Hs' & HT').
  assert (Tables.files (tables_of s1) = files1) as Hfs by (rewrite HT1; by destruct (tables_of s)). rewrite Hfs in Hrec.
  exists files, s'. split_and!; try done.
  - cbn [write_records]. rewrite H1. done.
  - cbn [map group_of write_groups]. unfold st_bind. cbn [write_file_record_be memory_store]. by rewrite Hm.
  - rewrite HT', HT1. by destruct (tables_of s).
Qed.

Lemma read_groups_run s xs : store_ok s → Forall (λ x, FileSubRequest_wf x ∧ FileSubRequest_valid x) xs → ∀ acc,
  read_file_groups (map FileSubRequest_wire xs) ([0x14; 0] ++ acc) s =
  (match read_records (Tables.files (tables_of s)) xs acc with
   | Ok data => Ok ([0x14; 0] ++ data)
   | Err ec => Err (exception_reply FunctionCode.ReadFileRecord ec)
   | Panic => Panic
   | OutOfFuel => OutOfFuel
   end, s).
Proof.
  intros Hs. induction 1 as [|x xs [Hwf Hv] _ IH]; intros acc; [done|]. cbn [map read_file_groups]. unfold st_bind.
  pose proof (blen_nonneg acc).
  pose proof (file_group_run x ([0x14; 0] ++ acc) s Hwf Hv ltac:(rewrite blen_app; change (blen [_; _]) with 2; lia)) as Hrun.
  pose proof (valid_range_ok x Hwf Hv) as Hrange.
  destruct x as [ty f r n], Hwf as (Hf & Hr & Hn), Hv as (_ & _ & _ & Hn1 & _).
  cbn [FileSubRequest.file_number FileSubRequest.record_number FileSubRequest.record_length] in *. cbv zeta in Hrun. rewrite Hrun. clear Hrun.
  cbn [read_records]. unfold select_records at 1. rewrite Hrange. cbn [rbind].
  change MAX_FILE_RECORD_REGISTERS with 122. destruct (Z.ltb_spec 122 n); [done|]. cbn [read_file_record_be memory_store].
  rewrite read_file_fill by done. unfold select_records. rewrite Hrange. change MAX_FILE_RECORD_REGISTERS with 122.
  replace (122 <? n) with false by lia. replace (InMemoryStore.files s) with (Tables.files (tables_of s)) by by destruct s. cbn [rbind].
  destruct (Tables.files (tables_of s) !! f) as [file|]; [|done]. unfold select.
  destruct (Z.ltb_spec (blen file) (r + n)); [done|]. cbn [rmap rbind]. unfold fill.
  assert (blen (words_be (sublist r n file)) = n * 2) as Hw by (rewrite words_be_length, blen_sublist; lia).
  rewrite Hw, blen_zeros by lia. rewrite Z.ltb_irrefl, Z.eqb_refl. cbn [negb].
  assert (overlay (words_be (sublist r n file)) (zeros (n * 2)) = words_be (sublist r n file)) as ->.
  { unfold overlay. rewrite drop_ge, app_nil_r; [done|]. unfold zeros. rewrite length_replicate. unfold blen in Hw. lia. }
  rewrite !blen_app, !blen_cons, Hw. change (blen []) with 0.
  replace (1 + (1 + 0) + blen acc + n * 2) with (blen acc + (1 + (1 + n * 2))) by lia.
  destruct (250 <? _); [done|]. rewrite <-!app_assoc. apply IH.
Qed.
Lemma read_records_ok s xs : store_ok s → Forall (λ x, FileSubRequest_wf x ∧ FileSubRequest_valid x) xs → ∀ acc,
  bytes_ok acc → groups read_response_group acc → blen acc ≤ 250 →
  match read_records (Tables.files (tables_of s)) xs acc with
  | Ok data => bytes_ok data ∧ groups read_response_group data ∧ blen acc + 4 * blen xs ≤ blen data ≤ 250
  | Err ec => ec_canonical ec ∧ is_u8 (ExceptionCode.code ec)
  | Panic | OutOfFuel => False
  end.
Proof.
  intros Hs. induction 1 as [|x xs [Hwf Hv] _ IH]; intros acc Hb Hg Hl.
  { cbn. split_and!; try done. change (blen []) with 0. lia. }
  pose proof (valid_range_ok x Hwf Hv) as Hrange. destruct x as [ty f r n], Hwf as (Hf & Hr & Hn), Hv as (_ & _ & _ & Hn1 & _).
  cbn [FileSubRequest.file_number FileSubRequest.record_number FileSubRequest.record_length] in *.
  cbn [read_records]. unfold select_records. rewrite Hrange. cbn [rbind]. change MAX_FILE_RECORD_REGISTERS with 122.
  destruct (Z.ltb_spec 122 n); [done|]. destruct (_ !! f) as [file|]; [|done]. unfold select.
  destruct (Z.ltb_spec (blen file) (r + n)); [done|]. cbn [rbind]. set (vs := words_be (sublist r n file)).
  assert (blen vs = 2 * n) as Hw by (unfold vs; rewrite words_be_length, blen_sublist; lia).
  destruct (Z.ltb_spec 250 (blen (acc ++ (1 + 2 * n) :: 6 :: vs))) as [|Hl']; [done|].
  assert (bytes_ok (acc ++ (1 + 2 * n) :: 6 :: vs)) as Hb'.
  { apply Forall_app_2; [done|]. apply bytes_ok_cons. split; [unfold byte_ok; lia|]. apply bytes_ok_cons. split; [done|apply words_be_ok]. }
  assert (groups read_response_group (acc ++ (1 + 2 * n) :: 6 :: vs)) as Hg'.
  { destruct Hg as (gs & -> & Hgs). exists (gs ++ [(1 + 2 * n) :: 6 :: vs]). rewrite concat_app. cbn [concat]. rewrite app_nil_r.
    split; [done|]. apply Forall_app_2; [done|]. constructor; [|constructor]. exists vs. rewrite Hw.
    split_and!; [done|lia..|]. by rewrite Z.mul_comm, Z.mod_mul. }
  specialize (IH _ Hb' Hg' Hl'). destruct (read_records _ xs _) as [data|ec| |]; try done.
  destruct IH as (? & ? & IH). split_and!; try done; rewrite blen_app, !blen_cons in *; lia.
Qed.
End Files.

Definition request_function (req : RequestPdu.t) : FunctionCode.t := FunctionCode.from_byte (request_code req).
(** The requests a broadcast applies *)
Definition is_write (req : RequestPdu.t) : bool :=
  match req with
  | RequestPdu.WriteSingleCoil _ | RequestPdu.WriteSingleRegister _ | RequestPdu.WriteMultipleCoils _
  | RequestPdu.WriteMultipleRegisters _ | RequestPdu.MaskWriteRegister _ | RequestPdu.WriteFileRecord _ => true
  | _ => false
  end.
Definition is_device_id (req : RequestPdu.t) : bool :=
  match req with
  | RequestPdu.EncapsulatedInterface (EncapsulatedInterfaceRequest.mk MeiType.ReadDeviceIdentification _) => true
  | _ => false
  end.

(** The conditions of a message whose fields are known *)
Ltac response_wf := simpl; autounfold with codec; simpl; unfold div_ceil in *; split_and!; try done; try lia.

Section Dispatch.
Context (s : InMemoryStore.t) (Hs : store_ok s).
Let T := tables_of s.

Lemma tables_fields : bits_of (InMemoryStore.coils s) = Tables.coils T ∧
  bits_of (InMemoryStore.discrete_inputs s) = Tables.discrete_inputs T ∧
  InMemoryStore.holding_registers s = Tables.holding_registers T ∧ InMemoryStore.input_registers s = Tables.input_registers T ∧
  InMemoryStore.fifo_queues s = Tables.fifo_queues T ∧ InMemoryStore.exception_status s = Tables.exception_status T ∧
  InMemoryStore.server_id s = Tables.server_id T.
Proof. unfold T. by destruct s. Qed.
Lemma byte_count_8 q : 1 ≤ q ≤ 2000 → 1 ≤ div_ceil q 8 ≤ 250.
Proof. intros. unfold div_ceil. Z.to_euclidean_division_equations. lia. Qed.

Lemma read_bits_answer (coils : bool) a q : is_u16 a → 1 ≤ q ≤ 2000 →
  let fc := if coils then FunctionCode.ReadCoils else FunctionCode.ReadDiscreteInputs in
  let table := if coils then Tables.coils T else Tables.discrete_inputs T in
  returning (handle_read_bits fc a q coils) s =
  match select table a q with
  | Ok part => (Ok ([FunctionCode.code fc; div_ceil q 8] ++ pack_bits part), s)
  | Err ec => (Ok (exception_reply fc ec), s)
  | Panic => (Panic, s)
  | OutOfFuel => (OutOfFuel, s)
  end.
Proof.
  intros Ha Hq fc table. unfold fc. rewrite read_bits_run by done. pose proof (byte_count_8 q Hq).
  destruct tables_fields as (Hc & Hd & _). destruct (tables_sizes s Hs) as (Hcs & Hds & _).
  destruct (reads_refine s Hs a q (zeros (div_ceil q 8)) Ha ltac:(lia)) as (Hr1 & Hr2 & _). rewrite Hc in Hr1. rewrite Hd in Hr2.
  unfold table. destruct coils; cbn [read_coils_packed read_discrete_inputs_packed memory_store]; rewrite ?Hr1, ?Hr2;
    apply checked_read; try done; try lia; try (intros l <-; apply blen_pack_bits).
  - by eapply verdict_address; [apply validate_read_coils_verdict; lia|].
  - by eapply verdict_address; [apply validate_read_discrete_inputs_verdict; lia|].
Qed.
Lemma read_registers_answer (holding : bool) a q : is_u16 a → 1 ≤ q ≤ 125 →
  let fc := if holding then FunctionCode.ReadHoldingRegisters else FunctionCode.ReadInputRegisters in
  let table := if holding then Tables.holding_registers T else Tables.input_registers T in
  returning (handle_read_registers fc a q holding) s =
  match select table a q with
  | Ok part => (Ok ([FunctionCode.code fc; q * 2] ++ words_be part), s)
  | Err ec => (Ok (exception_reply fc ec), s)
  | Panic => (Panic, s)
  | OutOfFuel => (OutOfFuel, s)
  end.
Proof.
  intros Ha Hq fc table. unfold fc. rewrite read_registers_run by done.
  destruct tables_fields as (_ & _ & Hh & Hi & _). destruct (tables_sizes s Hs) as (_ & _ & Hhs & His).
  destruct (reads_refine s Hs a q (zeros (q * 2)) Ha ltac:(lia)) as (_ & _ & Hr1 & Hr2). rewrite Hh in Hr1. rewrite Hi in Hr2.
  unfold table. destruct holding; cbn [read_holding_registers_be read_input_registers_be memory_store]; rewrite ?Hr1, ?Hr2;
    apply checked_read; try done; try lia; try (intros l <-; apply words_be_length).
  all: by eapply verdict_address; [apply validate_read_registers_verdict; lia|].
Qed.


Lemma read_answers a q : is_u16 a →
  (1 ≤ q ≤ 2000 →
     answers FunctionCode.ReadCoils T (serve T (RequestPdu.ReadCoils (ReadCoilsRequest.mk a q)))
       (returning (handle_read_bits FunctionCode.ReadCoils a q true) s) ∧
     answers FunctionCode.ReadDiscreteInputs T (serve T (RequestPdu.ReadDiscreteInputs (ReadDiscreteInputsRequest.mk a q)))
       (returning (handle_read_bits FunctionCode.ReadDiscreteInputs a q false) s)) ∧
  (1 ≤ q ≤ 125 →
     answers FunctionCode.ReadHoldingRegisters T (serve T (RequestPdu.ReadHoldingRegisters (ReadHoldingRegistersRequest.mk a q)))
       (returning (handle_read_registers FunctionCode.ReadHoldingRegisters a q true) s) ∧
     answers FunctionCode.ReadInputRegisters T (serve T (RequestPdu.ReadInputRegisters (ReadInputRegistersRequest.mk a q)))
       (returning (handle_read_registers FunctionCode.ReadInputRegisters a q false) s)).
Proof.
  intros Ha. split; intros Hq.
  - pose proof (byte_count_8 q Hq). split; (eapply answers_read; [done|first [apply (read_bits_answer true a q Ha Hq)|apply (read_bits_answer false a q Ha Hq)]|lia..|]);
      intros part Hp; (split; [done|]); pose proof (pack_bits_ok part); pose proof (blen_pack_bits part); rewrite Hp in *; response_wf.
  - split; (eapply answers_read; [done|first [apply (read_registers_answer true a q Ha Hq)|apply (read_registers_answer false a q Ha Hq)]|lia..|]);
      intros part Hp; (split; [done|]); pose proof (words_be_ok part); pose proof (words_be_length part); rewrite Hp in *; response_wf;
      by rewrite Z.mod_mul.
Qed.
Lemma read_write_answers ra rq wa wq bc vs : is_u16 ra → is_u16 wa → 1 ≤ rq ≤ 125 → 1 ≤ wq ≤ 121 →
  bytes_ok vs → bc = 2 * wq → blen vs = 2 * wq →
  let req := ReadWriteMultipleRegistersRequest.mk ra rq wa wq bc vs in
  answers FunctionCode.ReadWriteMultipleRegisters T (serve T (RequestPdu.ReadWriteMultipleRegisters req))
    (returning (handle_read_write_multiple req) s).
Proof.
  intros Hra Hwa Hrq Hwq Hb Hbc Hl req. unfold req. rewrite read_write_run by done.
  destruct tables_fields as (_ & _ & Hh & _). destruct (tables_sizes s Hs) as (_ & _ & Hhs & _). fold T in Hhs.
  pose proof (read_write_exchanged s (zeros (rq * 2)) ra rq wa wq vs Hs Hb Hra Hwa Hrq Hwq ltac:(lia) ltac:(rewrite blen_zeros; lia)) as He.
  rewrite Hh in He. cbn [serve]. cbn [atomic_read_write_registers_be memory_store].
  pose proof (blen_be_words vs Hb (blen_mod_2 vs wq ltac:(lia))) as Hw.
  assert (∀ x, exchange (Tables.holding_registers T) wa (be_words vs) ra rq = Ok x → blen x.2 = rq) as Hx.
  { unfold exchange, replace_at, select. case_match; [done|]. cbn [rbind]. case_match; [done|]. intros x [= <-]. cbn. apply blen_sublist; lia. }
  destruct (validate_read_write_registers_verdict ra rq wa wq bc ltac:(lia) ltac:(lia)) as [[_ Hn]|[[-> [_ Hout]]|[-> _]]]; [lia|..]; cbn [checked].
  - assert (exchange (Tables.holding_registers T) wa (be_words vs) ra rq = Err ExceptionCode.IllegalDataAddress) as ->.
    { unfold exchange, replace_at. unfold MAX_TABLE_SIZE in Hhs. rewrite !Exists_cons, Exists_nil in Hout.
      destruct (Z.ltb_spec (blen (Tables.holding_registers T)) (wa + blen (be_words vs))); [done|]. cbn [rbind]. unfold select.
      rewrite blen_splice by lia. by replace (_ <? ra + rq) with true by lia. }
    by exists (exception_reply FunctionCode.ReadWriteMultipleRegisters ExceptionCode.IllegalDataAddress), s.
  - destruct (exchange _ _ _ _ _) as [[h' part]|ec| |] eqn:Hex; try done.
    + destruct He as (s' & -> & Hs' & HT). specialize (Hx _ eq_refl). cbn in Hx. pose proof (words_be_length part) as Hpl. rewrite Hx in Hpl.
      assert (overlay (words_be part) (zeros (rq * 2)) = words_be part) as ->.
      { unfold overlay. rewrite drop_ge, app_nil_r; [done|]. unfold zeros. rewrite length_replicate. unfold blen in Hpl. lia. }
      cbn. rewrite Z.eqb_refl. eexists _, s'. split; [done|]. split; [done|]. split; [done|]. split; [|done].
      pose proof (words_be_ok part). response_wf. by rewrite Z.mod_mul.
    + cbn [exchanged] in He. rewrite He. unfold exchange, replace_at, select in Hex. exists (exception_reply FunctionCode.ReadWriteMultipleRegisters ec), s.
      assert (ec = ExceptionCode.IllegalDataAddress) as ->; [|done].
      destruct (_ <? wa + _); cbn [rbind] in Hex; [congruence|]. destruct (_ <? ra + rq); cbn [rbind] in Hex; congruence.
Qed.
Lemma read_subs_of xs : Forall (λ x, FileSubRequest_wf x ∧ FileSubRequest_valid x) xs →
  read_subs (concat (map FileSubRequest_wire xs)) = xs.
Proof.
  intros Hxs. assert (Forall (λ g, blen g = 7) (map FileSubRequest_wire xs)) as H7 by (apply Forall_map, Forall_true; done).
  unfold read_subs. rewrite chunks_exact_concat_inv by done. clear H7.
  induction Hxs as [|x xs [Hwf Hv] _ IH]; [done|]. cbn [map omap list_omap]. rewrite FileSubRequest_decode_wire by done. by rewrite <-IH at 2.
Qed.
Lemma read_file_answers req : ReadFileRecordRequest_wf req → ReadFileRecordRequest_encodable req →
  answers FunctionCode.ReadFileRecord T (serve T (RequestPdu.ReadFileRecord req)) (returning (handle_read_file_record req) s).
Proof.
  destruct req as [bc subs]. intros [_ Hb] (Hbc & Hlen & Hg). cbn [ReadFileRecordRequest.byte_count ReadFileRecordRequest.sub_requests] in *. subst bc.
  destruct (read_groups_split subs Hg) as (xs & Hsubs & Hxs).
  assert (Forall (λ g, blen g = 7) (map FileSubRequest_wire xs)) as H7 by (apply Forall_map, Forall_true; done).
  assert (blen subs mod 7 = 0) as Hmod by (rewrite Hsubs; by apply blen_concat_mod).
  assert (1 ≤ blen xs) as Hx1 by (destruct xs; [rewrite Hsubs in Hbc; change (blen (concat _)) with 0 in Hbc; lia|rewrite blen_cons; pose proof (blen_nonneg xs); lia]).
  unfold handle_read_file_record. cbn [ReadFileRecordRequest.sub_requests serve]. unfold is_empty, is_multiple_of.
  replace (_ || _ || _) with false by lia. rewrite Hsubs, read_subs_of, chunks_exact_concat_inv, returning_bind by done.
  change ([FunctionCode.code _] ++ [0]) with ([0x14; 0] ++ []). rewrite (read_groups_run s xs Hs Hxs []).
  pose proof (read_records_ok s xs Hs Hxs [] ltac:(constructor) ltac:(by exists []) ltac:(done)) as Hr. fold T in Hr |- *.
  destruct (read_records _ xs []) as [data|ec| |]; try done; cbn [rbind].
  - destruct Hr as (Hdb & Hdg & Hdl). change (blen []) with 0 in Hdl. rewrite blen_app. change (blen [_; _]) with 2.
    rewrite usub_Ok by lia. replace (2 + blen data - 2) with (blen data) by lia.
    rewrite returning_lift, checked_u8_ok by lia. rewrite returning_lift. cbn [app]. rewrite vec_set_1.
    eexists _, s. split; [done|]. split; [done|]. split; [done|]. split; [|done]. response_wf.
  - destruct Hr as [? ?]. by exists (exception_reply FunctionCode.ReadFileRecord ec), s.
Qed.
Lemma fifo_answers a : is_u16 a →
  answers FunctionCode.ReadFifoQueue T (serve T (RequestPdu.ReadFifoQueue (ReadFifoQueueRequest.mk a)))
    (returning (handle_read_fifo_queue a) s).
Proof.
  intros Ha. destruct tables_fields as (_ & _ & _ & _ & Hq & _). cbn [serve]. pose proof (read_fifo_refine s a (zeros 62)) as Hr.
  rewrite Hq in Hr. change InMemoryStore.read_fifo_queue_be with (read_fifo_queue_be (S:=InMemoryStore.t)) in Hr.
  destruct (Tables.fifo_queues T !! a) as [values|]; cbn [ok_or rbind].
  - unfold fifo_image, MAX_FIFO_VALUES in *. pose proof (words_be_length values) as Hw. pose proof (words_be_ok values). pose proof (blen_nonneg values).
    destruct (Z.ltb_spec 31 (blen values)) as [Hl|Hl]; cbn [rbind fill] in *.
    { rewrite (fifo_run a s _ _ _ Hr) by done. by exists (exception_reply FunctionCode.ReadFifoQueue ExceptionCode.IllegalDataValue), s. }
    unfold fill in Hr. rewrite blen_zeros in Hr by lia. replace (62 <? _) with false in Hr by lia.
    rewrite (fifo_run a s _ _ _ Hr) by (done || (intros ? [= <-]; lia)). change MAX_FIFO_VALUES with 31. replace (31 <? _) with false by lia.
    eexists _, s. split; [done|]. split; [done|]. split; [|split; [response_wf|done]].
    replace (Z.to_nat (blen values * 2)) with (length (words_be values)) by (unfold blen in *; lia).
    unfold overlay. by rewrite take_app_length.
  - rewrite (fifo_run a s _ _ _ Hr) by done. by exists (exception_reply FunctionCode.ReadFifoQueue ExceptionCode.IllegalDataAddress), s.
Qed.
Lemma server_id_answers : answers FunctionCode.ReportServerId T (serve T RequestPdu.ReportServerId) (returning handle_report_server_id s).
Proof.
  destruct tables_fields as (_ & _ & _ & _ & _ & _ & Hid). cbn [serve]. rewrite <-Hid.
  set (id := InMemoryStore.server_id s). assert (bytes_ok id) as Hb by (unfold id; destruct s, Hs as (_ & _ & _ & _ & _ & ?); done).
  pose proof (blen_nonneg id).
  assert (append_server_id (s, [0x11; 0]) = if MAX_SERVER_ID_BYTES <? blen id then (Err ExceptionCode.ServerDeviceFailure, (s, [0x11; 0] ++ []))
    else (Ok (blen id), (s, [0x11; 0] ++ id))) as Hr.
  { cbn [append_server_id memory_store]. unfold InMemoryStore.append_server_id, InMemoryStore.reading.
    unfold st_bind at 1 2, on_store, st_get, st_ret at 1. cbn [fst snd]. fold id. by case_match. }
  destruct (Z.ltb_spec MAX_SERVER_ID_BYTES (blen id)); rewrite (server_id_run s _ _ _ Hr) by done.
  - by exists (exception_reply FunctionCode.ReportServerId ExceptionCode.ServerDeviceFailure), s.
  - rewrite Z.eqb_refl. unfold MAX_SERVER_ID_BYTES in *. cbn [negb orb]. replace (_ <? blen id) with false by lia.
    eexists _, s. split; [done|]. split; [done|]. split; [done|]. split; [|done]. change (MAX_PDU_SIZE - 2) with 251 in *. response_wf.
Qed.

Lemma outcome_refused b fc fc' ec : ec_canonical ec → is_u8 (ExceptionCode.code ec) → fc' = FunctionCode.exception_code fc →
  outcome b false fc T (Err ec) (unless_broadcast b (st_ret (encode_exception fc' ec)) s).
Proof. intros ?? ->. apply outcome_read; [done|]. by exists (exception_reply fc ec), s. Qed.

Lemma exception_status_answers :
  answers FunctionCode.ReadExceptionStatus T (serve T RequestPdu.ReadExceptionStatus)
    ((result <- attempt read_exception_status;;
      match result with
      | inl status => st_lift (encode_response (ReadExceptionStatusResponse.mk status))
      | inr ec => st_ret (encode_exception (FunctionCode.exception_code FunctionCode.ReadExceptionStatus) ec)
      end) s).
Proof.
  assert (is_u8 (Tables.exception_status T)) as Hu by (unfold T; destruct s, Hs as (_ & _ & _ & _ & ? & _); done).
  destruct tables_fields as (_ & _ & _ & _ & _ & Hx & _). unfold st_bind.
  assert (attempt (E:=Empty_set) read_exception_status s = (Ok (inl (InMemoryStore.exception_status s)), s)) as -> by done.
  rewrite Hx. unfold st_lift. rewrite encode_response_ok by done. by eexists _, s.
Qed.
Lemma diagnostics_outcome b sub data : bytes_ok data → blen data mod 2 = 0 → blen data ≤ 250 →
  outcome b false FunctionCode.Diagnostics T (serve T (RequestPdu.Diagnostics (DiagnosticsRequest.mk sub data)))
    ((result <- handle_diagnostics sub data;; if b then st_ret None else st_ret result) s).
Proof.
  intros Hb Hm Hl. set (pre := 0x08 :: to_be_bytes (DiagnosticSubFunction.code sub)).
  assert (append_diagnostic_response sub data (s, pre) =
    match sub with
    | DiagnosticSubFunction.ReturnQueryData => (Ok (Some (blen data)), (s, pre ++ data))
    | _ => (Err ExceptionCode.IllegalFunction, (s, pre ++ []))
    end) as Hr.
  { cbn [append_diagnostic_response memory_store]. unfold InMemoryStore.append_diagnostic_response, MAX_DIAGNOSTIC_RESPONSE_DATA_LEN, MAX_PDU_SIZE.
    replace (253 - 3 <? blen data) with false by lia. by destruct sub. }
  unfold st_bind at 1. destruct sub; rewrite (diagnostics_run _ data s _ _ _ Hr) by done; (destruct b; [by exists s|]).
  1:{ unfold is_multiple_of, MAX_DIAGNOSTIC_RESPONSE_DATA_LEN, MAX_PDU_SIZE. replace (_ || _ || _) with false by lia.
      exists (Ok (pre ++ data)), s. split; [done|]. by exists (pre ++ data), s. }
  all: exists (Ok (exception_reply FunctionCode.Diagnostics ExceptionCode.IllegalFunction)), s; split; [done|];
    by exists (exception_reply FunctionCode.Diagnostics ExceptionCode.IllegalFunction), s.
Qed.
(** A multiple write: the address check of the validator agrees with the table. *)
Lemma multiple_outcome b {A R} `{ServerResponse R} `{!EncodeSpec R} (x : R) (mk : R → ResponsePdu.t)
    (m : ST InMemoryStore.t Exc unit) (f : list A → Tables.t) table a q vs v fc :
  v = Ok tt ∨ v = Err ExceptionCode.IllegalDataAddress ∧ 65536 < a + q → blen table ≤ MAX_TABLE_SIZE → blen vs = q →
  committed s (m s) (rmap f (replace_at table a vs)) → fc = FUNCTION_CODE →
  wf x → encodable x → response_wire (mk x) = wire x → response_ok (mk x) →
  outcome b true fc T (let? c := replace_at table a vs in Ok (mk x, f c))
    (match v with
     | Ok _ => result <- attempt m;; unless_broadcast b (st_lift (respond result x))
     | Err ec => unless_broadcast b (st_ret (encode_exception (FunctionCode.exception_code fc) ec))
     | Panic => st_panic
     | OutOfFuel => st_lift OutOfFuel
     end s).
Proof.
  intros [->|[-> Hout]] Hl Hvs Hc Hfc Hwf Hen Hw Hok.
  - apply (outcome_commit s Hs b x mk m f); try done. apply standard_replace.
  - assert (replace_at table a vs = Err ExceptionCode.IllegalDataAddress) as ->.
    { unfold replace_at, MAX_TABLE_SIZE in *. by replace (_ <? _) with true by lia. }
    destruct b; [by exists s|]. by apply (outcome_refused false fc).
Qed.

Lemma write_file_outcome b bc subs : WriteFileRecordRequest_wf (WriteFileRecordRequest.mk bc subs) →
  WriteFileRecordRequest_encodable (WriteFileRecordRequest.mk bc subs) →
  outcome b true FunctionCode.WriteFileRecord T (serve T (RequestPdu.WriteFileRecord (WriteFileRecordRequest.mk bc subs)))
    ((result <- attempt (apply_write_file_record (WriteFileRecordRequest.mk bc subs));;
      unless_broadcast b (st_lift (respond result (WriteFileRecordResponse.mk bc subs)))) s).
Proof.
  intros Hwf Hen. destruct (write_request_groups bc subs Hwf Hen) as (gs & Hsubs & Hgs & Hp).
  destruct (write_groups_committed gs Hgs s Hs) as (files & s' & Hrec & Hrun & Hs' & HT'). cbn [serve].
  assert (write_subs (length subs) subs = gs) as Hws.
  { rewrite Hsubs. apply write_subs_of; [done|]. clear -Hgs. induction Hgs as [|g gs Hg _ IH]; [done|]. cbn [map concat].
    rewrite length_app. apply group_wire_len in Hg as [Hg _]. unfold blen in Hg. cbn [length]. lia. }
  apply (outcome_commit s Hs b (WriteFileRecordResponse.mk bc subs) ResponsePdu.WriteFileRecord); try done; rewrite Hws; unfold T; rewrite Hrec; [|done].
  exists s'. split; [|done]. destruct Hen as (Hbc & _). unfold apply_write_file_record.
  cbn [WriteFileRecordRequest.byte_count WriteFileRecordRequest.sub_requests] in *. replace (negb _) with false by lia.
  by rewrite st_bind_lift, Hp.
Qed.
Lemma mask_outcome b a am om : is_u16 a → is_u16 am → is_u16 om →
  outcome b true FunctionCode.MaskWriteRegister T (serve T (RequestPdu.MaskWriteRegister (MaskWriteRegisterRequest.mk a am om)))
    ((result <- attempt (handle_mask_write a am om);;
      unless_broadcast b (st_lift (respond result (MaskWriteRegisterResponse.mk a am om)))) s).
Proof.
  intros Ha Ham Hom. destruct tables_fields as (_ & _ & Hh & _). cbn [serve].
  set (r := let? cur := select (Tables.holding_registers T) a 1 in
            replace_at (Tables.holding_registers T) a [masked (nth 0 cur 0) am om]).
  assert (standard r) as Hr by (unfold r, select; case_match; [done|apply standard_replace]).
  assert (committed s (handle_mask_write a am om s) (rmap (λ h, Tables.set_holding h T) r)) as Hm.
  { unfold handle_mask_write, validate_mask_write_address, validate_address_range. replace (65536 <? a + 1) with false by lia.
    rewrite st_bind_lift. unfold r. rewrite <-Hh. by apply (single_writes_commit s Hs a). }
  pose proof (outcome_commit s Hs b (MaskWriteRegisterResponse.mk a am om) ResponsePdu.MaskWriteRegister _ _ r
    FunctionCode.MaskWriteRegister Hm Hr) as Ho. unfold r in Ho. fold T in Ho.
  destruct (select (Tables.holding_registers T) a 1); apply Ho; try done; by unfold wf; simpl; split_and!.
Qed.
Lemma dispatch_serves req unit b dev : request_ok req → blen (request_wire req) ≤ 253 → is_device_id req = false →
  outcome b (is_write req) (request_function req) T (serve T req) (dispatch_request req (request_wire req) unit b dev s).
Proof.
  intros Hok Hl Hnd. destruct tables_fields as (Hc & _ & Hh & _ & _ & Hx & _).
  destruct req as [x|x|x|x|x|x| |x| | |x|x| |x|x|x|x|x|x|fc data]; cbn [request_ok] in Hok;
    try open_request; unfold dispatch_request.
  - apply outcome_read; [done|]. by apply read_answers.
  - apply outcome_read; [done|]. by apply read_answers.
  - apply outcome_read; [done|]. by apply read_answers.
  - apply outcome_read; [done|]. by apply read_answers.
  - apply (outcome_commit s Hs b (WriteSingleCoilResponse.mk address value) ResponsePdu.WriteSingleCoil); try done; [|apply standard_replace].
    rewrite <-Hc. by apply (single_writes_commit s Hs address).
  - apply (outcome_commit s Hs b (WriteSingleRegisterResponse.mk address value) ResponsePdu.WriteSingleRegister); try done; [|apply standard_replace].
    rewrite <-Hh. by apply (single_writes_commit s Hs address).
  - apply outcome_read; [done|]. apply exception_status_answers.
  - apply diagnostics_outcome; [done..|]. simpl in Hl. unfold DiagnosticsRequest_wire in Hl. cbn [DiagnosticsRequest.data] in Hl.
    rewrite blen_cons, blen_app, blen_to_be_bytes in Hl. lia.
  - by apply outcome_refused.
  - by apply outcome_refused.
  - assert (is_u16 address) by lia. pose proof (blen_unpack_bits quantity coil_values ltac:(lia)) as Hu.
    apply (multiple_outcome b (WriteMultipleCoilsResponse.mk address quantity) ResponsePdu.WriteMultipleCoils _ _ _ _ quantity); try done.
    + eapply verdict_address; [apply validate_write_coils_verdict; lia|]. lia.
    + by apply tables_sizes.
    + pose proof (write_coils_packed_committed s address quantity coil_values Hs ltac:(lia) ltac:(lia)) as Hm.
      unfold coil_payload in Hm. change MAX_WRITE_COILS with 1968 in Hm. unfold div_ceil in Hm.
      replace (quantity + 8 - 1) with (quantity + 7) in Hm by lia. replace (_ && _ && _) with true in Hm by lia. by rewrite Hc in Hm.
  - assert (is_u16 address) by lia. pose proof (blen_be_words register_values ltac:(done) (blen_mod_2 register_values quantity ltac:(lia))) as Hu.
    apply (multiple_outcome b (WriteMultipleRegistersResponse.mk address quantity) ResponsePdu.WriteMultipleRegisters _ _ _ _ quantity); try done.
    + eapply verdict_address; [apply validate_write_registers_verdict; lia|]. lia.
    + by apply tables_sizes.
    + lia.
    + pose proof (write_registers_be_committed s address quantity register_values Hs ltac:(done) ltac:(lia) ltac:(lia)) as Hm.
      unfold register_payload in Hm. change MAX_WRITE_REGISTERS with 123 in Hm. replace (_ && _ && _) with true in Hm by lia. by rewrite Hh in Hm.
  - apply outcome_read; [done|]. apply server_id_answers.
  - apply outcome_read; [done|]. by apply read_file_answers.
  - by apply write_file_outcome.
  - by apply mask_outcome.
  - apply outcome_read; [done|]. apply read_write_answers; done || lia.
  - apply outcome_read; [done|]. by apply fifo_answers.
  - destruct mei_type; [|done]. apply outcome_read; [done|]. rewrite bool_decide_false by done. by exists [0xAB; 1], s.
  - destruct Hok as (Hfc & Hcu & _). apply outcome_read; [done|]. rewrite custom_run.
    exists (encode_exception (Z.lor fc 0x80) ExceptionCode.IllegalFunction), s. split_and!; try done.
    unfold exception_reply, FunctionCode.exception_code, request_function. by rewrite FunctionCode_code_from_byte.
Qed.
End Dispatch.

(** ** From bytes to bytes *)
Lemma request_code_range req : request_ok req → 1 ≤ request_code req < 128.
Proof. destruct req; try done. by intros [? _]. Qed.
Lemma exception_decodes req ec : request_ok req → ec_canonical ec → is_u8 (ExceptionCode.code ec) →
  exception_reply (request_function req) ec = [request_code req + 128; ExceptionCode.code ec] ∧
  decode_response (exception_reply (request_function req) ec) = Ok (ResponsePdu.Exception (ExceptionResponse.mk (request_function req) ec)).
Proof.
  intros Hok Hc Hu. pose proof (request_code_range req Hok) as Hr. set (x := ExceptionResponse.mk (request_function req) ec).
  assert (FunctionCode.code (request_function req) = request_code req) as Hcode by apply FunctionCode_code_from_byte.
  split.
  - unfold exception_reply, encode_exception, FunctionCode.exception_code. rewrite Hcode, exception_flag_set by lia.
    by replace (_ <? 128) with true by lia.
  - apply (decode_response_complete (ResponsePdu.Exception x)); [|done]. split; simpl.
    + unfold ExceptionResponse_wf, x. cbn. rewrite Hcode. lia.
    + unfold ExceptionResponse_decodable, x. cbn. rewrite Hcode. split_and!; [apply FunctionCode_from_byte_canonical|done|lia..].
Qed.

(** The reply the service prescribes for a decoded request, and what a client that
    decodes it gets *)
Definition reply_spec (dev : DeviceIdentification.t) (T : Tables.t) (req : RequestPdu.t) (resp : bytes) : Prop :=
  match req with
  | RequestPdu.EncapsulatedInterface (EncapsulatedInterfaceRequest.mk MeiType.ReadDeviceIdentification data) =>
      device_id_answer data dev resp
  | _ =>
      match serve T req with
      | Ok (r, _) => resp = response_wire r ∧ decode_response resp = Ok r
      | Err ec => resp = [request_code req + 128; ExceptionCode.code ec] ∧
          decode_response resp = Ok (ResponsePdu.Exception (ExceptionResponse.mk (request_function req) ec))
      | Panic | OutOfFuel => False
      end
  end.

(** The exception code for a request that does not decode: 1 when the server does not know
    the function or diagnostic, 2 when a file reference does not exist, 3 when any value or
    length is wrong *)
Definition malformed_code (e : DecodeError.t) : Z :=
  match e with
  | DecodeError.UnknownFunctionCode _ | DecodeError.UnknownDiagnosticSubFunction _ => 1
  | DecodeError.InvalidReferenceType _ | DecodeError.FileRecordOutOfRange _ _ _ => 2
  | DecodeError.Truncated _ _ | DecodeError.LengthMismatch _ _ | DecodeError.PduTooLarge _ _ | DecodeError.ByteCountMismatch _ _
  | DecodeError.ByteCountOutOfRange _ _ _ | DecodeError.QuantityOutOfRange _ | DecodeError.InvalidCoilValue _
  | DecodeError.InvalidFileRecordLength _ | DecodeError.UnknownMeiType _ | DecodeError.UnknownExceptionCode _
  | DecodeError.InvalidDiagnosticDataLength _ | DecodeError.InvalidRegisterDataLength _ | DecodeError.InvalidDeviceIdCode _
  | DecodeError.InvalidDeviceIdConformityLevel _ | DecodeError.InvalidDeviceIdMoreFollows _
  | DecodeError.InvalidDeviceIdNextObjectId _ | DecodeError.InvalidDeviceIdObjectCount _ => 3
  end.
Lemma decode_exception_code e : ExceptionCode.code (decode_exception e) = malformed_code e.
Proof. by destruct e. Qed.

Lemma process_serves s pdu unit_id dev : store_ok s → bytes_ok pdu → is_u8 unit_id → device_ok dev →
  let T := tables_of s in
  let broadcast := UnitId.is_broadcast unit_id in
  ∃ reply s', process_request pdu unit_id dev s = (Ok reply, s') ∧ store_ok s' ∧
  match decode_request pdu with
  | Ok req =>
      tables_of s' = (if broadcast && negb (is_write req) then T else tables_after T (serve T req)) ∧
      if broadcast then reply = None else ∃ resp, reply = Some resp ∧ reply_spec dev T req resp
  | Err e =>
      tables_of s' = T ∧
      reply = if broadcast then None
              else Some [Z.lor (default 0 (get pdu 0)) 0x80; malformed_code e]
  | Panic | OutOfFuel => False
  end.
Proof.
  intros Hs Hb Hu Hdev T broadcast. pose proof (process_ok store_ok pdu unit_id dev s Hs Hb Hu Hdev) as Hsafe.
  unfold process_request in *. destruct (decode_request pdu) as [req|e| |] eqn:Hd.
  - destruct (decode_request_sound pdu req Hb Hd) as (Hok & Hw & Hl). rewrite Hw in Hsafe, Hl |- *. fold broadcast in Hsafe |- *.
    destruct (is_device_id req) eqn:Hid.
    + destruct req as [| | | | | | | | | | | | | | | | | |[[] data]|]; try done. cbn [dispatch_request tables_after serve is_write].
      rewrite bool_decide_true by done. destruct (build_device_id_response_spec (E:=Empty_set) data dev) as (resp & Hr & Ha).
      destruct broadcast; [by exists None, s|]. exists (Some resp), s. cbn. unfold st_bind, st_lift. rewrite Hr.
      split_and!; try done. by exists resp.
    + pose proof (dispatch_serves s Hs req unit_id broadcast dev Hok Hl Hid) as Ho. fold T in Ho. unfold outcome in Ho. destruct broadcast.
      { destruct Ho as (s' & -> & Hs' & HT). exists None, s'. split_and!; try done. rewrite HT. by destruct (is_write req). }
      destruct Ho as (r & s' & Heq & resp & s'' & [= -> ->] & Hs' & Hspec). rewrite Heq in Hsafe |- *.
      exists (Some resp), s''. split; [done|]. split; [done|]. destruct Hsafe as (_ & _ & _ & [_ Hlen] & _). change MAX_PDU_SIZE with 253 in Hlen.
      destruct (serve T req) as [[rp T']|ec| |] eqn:Hsv; try done; cbn [andb tables_after].
      * destruct Hspec as (-> & Hrok & HT). split; [done|]. eexists. split; [done|].
        pose proof (decode_response_complete rp Hrok Hlen). destruct req as [| | | | | | | | | | | | | | | | | |[[] ?]|]; unfold reply_spec; rewrite ?Hsv; done.
      * destruct Hspec as (-> & Hc & Hcu & HT). split; [done|]. eexists. split; [done|].
        destruct (exception_decodes req ec Hok Hc Hcu). destruct req as [| | | | | | | | | | | | | | | | | |[[] ?]|]; unfold reply_spec; rewrite ?Hsv; done.
  - fold broadcast. destruct broadcast; [by exists None, s|]. eexists _, s. split; [done|]. split; [done|]. split; [done|].
    by rewrite <-decode_exception_code.
  - destruct (dispatchers_return pdu Hb) as [Hr _]. by rewrite Hd in Hr.
  - destruct (dispatchers_return pdu Hb) as [Hr _]. by rewrite Hd in Hr.
Qed.

(** * Theorems *)

(** C2. The server with the in-memory store implements the Modbus service on plain
    tables: for every PDU it returns, and from the tables before the request it
    computes what [serve] prescribes. A request that does not decode gets the
    exception for its error ([malformed_code]); a request that decodes gets the image of the response
    of the service, which the client's decoder turns back into that response, or
    the exception of the service, which leaves the tables as they are; a broadcast
    gets no reply and takes effect exactly when the request only writes. *)
Theorem server_refines (s : InMemoryStore.t) (pdu : bytes) (unit_id : Z) (dev : DeviceIdentification.t) :
  store_ok s → bytes_ok pdu → is_u8 unit_id → device_ok dev →
  let T := tables_of s in
  let broadcast := UnitId.is_broadcast unit_id in
  ∃ reply s', process_request pdu unit_id dev s = (Ok reply, s') ∧ store_ok s' ∧
  match decode_request pdu with
  | Ok req =>
      tables_of s' = (if broadcast && negb (is_write req) then T else tables_after T (serve T req)) ∧
      if broadcast then reply = None else ∃ resp, reply = Some resp ∧ reply_spec dev T req resp
  | Err e =>
      tables_of s' = T ∧
      reply = if broadcast then None
              else Some [Z.lor (default 0 (get pdu 0)) 0x80; malformed_code e]
  | Panic | OutOfFuel => False
  end.
Proof. apply process_serves. Qed.

Lemma default_device_ok version : bytes_ok version → device_ok (DeviceIdentification.default version).
Proof. intros. repeat apply List.Forall_cons; try apply List.Forall_nil; try done; repeat constructor; unfold byte_ok; lia. Qed.
Definition small_device : DeviceIdentification.t := DeviceIdentification.default [0x31].
Lemma small_device_ok : device_ok small_device.
Proof. apply default_device_ok. repeat constructor; unfold byte_ok; lia. Qed.

Lemma server_refines_witness : ∃ s',
  process_request [0x10; 0; 3; 0; 2; 4; 1; 2; 3; 4] 0 small_device small_store = (Ok None, s') ∧ store_ok s' ∧
  Tables.holding_registers (tables_of s') = [0; 0; 0; 258; 772; 0; 0; 0; 0; 0].
Proof.
  destruct (server_refines small_store [0x10; 0; 3; 0; 2; 4; 1; 2; 3; 4] 0 small_device small_store_ok
    ltac:(repeat constructor; unfold byte_ok; lia) ltac:(lia) small_device_ok) as (reply & s' & Hp & Hs' & Hd).
  exists s'. cbn in Hd. destruct Hd as [HT ->]. split; [exact Hp|]. split; [exact Hs'|]. rewrite HT. reflexivity.
Defined.

(** ** Writing and reading back *)
Lemma tables_after_ok T r T' : tables_after T (Ok (r, T')) = T'.
Proof. done. Qed.
Lemma process_write s req unit_id dev r T' : store_ok s → request_ok req → blen (request_wire req) ≤ 253 →
  bytes_ok (request_wire req) → is_u8 unit_id → device_ok dev →
  is_write req = true → serve (tables_of s) req = Ok (r, T') →
  ∃ s', process_request (request_wire req) unit_id dev s =
          (Ok (if UnitId.is_broadcast unit_id then None else Some (response_wire r)), s') ∧ store_ok s' ∧ tables_of s' = T'.
Proof.
  intros Hs Hok Hl Hb Hu Hd Hw Hsv. destruct (process_serves s (request_wire req) unit_id dev Hs Hb Hu Hd) as (reply & s' & Hp & Hs' & Hr).
  rewrite decode_request_complete in Hr by done. rewrite Hw, Hsv, andb_false_r in Hr. cbn [tables_after] in Hr. destruct Hr as [HT Hr].
  exists s'. rewrite Hp. split; [|done]. destruct (UnitId.is_broadcast unit_id); [by rewrite Hr|].
  destruct Hr as (resp & -> & Hspec). destruct req as [| | | | | | | | | | | | | | | | | |[[] ?]|]; try done;
    unfold reply_spec in Hspec; rewrite Hsv in Hspec; by destruct Hspec as [-> _].
Qed.
Lemma process_read s req unit_id dev r : store_ok s → request_ok req → blen (request_wire req) ≤ 253 →
  bytes_ok (request_wire req) → is_u8 unit_id → device_ok dev → UnitId.is_broadcast unit_id = false →
  is_device_id req = false → serve (tables_of s) req = Ok (r, tables_of s) →
  ∃ s', process_request (request_wire req) unit_id dev s = (Ok (Some (response_wire r)), s') ∧ store_ok s' ∧ tables_of s' = tables_of s.
Proof.
  intros Hs Hok Hl Hb Hu Hd Hbc Hid Hsv. destruct (process_serves s (request_wire req) unit_id dev Hs Hb Hu Hd) as (reply & s' & Hp & Hs' & Hr).
  rewrite decode_request_complete in Hr by done. rewrite Hbc, Hsv in Hr. destruct Hr as (HT & resp & -> & Hspec).
  exists s'. rewrite Hp. split; [|done]. destruct req as [| | | | | | | | | | | | | | | | | |[[] ?]|]; try done;
    unfold reply_spec in Hspec; rewrite Hsv in Hspec; by destruct Hspec as [-> _].
Qed.
Lemma select_splice {A} (table v : list A) a : 0 ≤ a → a + blen v ≤ blen table → select (splice a v table) a (blen v) = Ok v.
Proof. intros. unfold select. rewrite blen_splice by done. replace (_ <? _) with false by lia. by rewrite sublist_splice. Qed.
Lemma replace_fits {A} (table v : list A) a : a + blen v ≤ blen table → replace_at table a v = Ok (splice a v table).
Proof. intros. unfold replace_at. by replace (_ <? _) with false by lia. Qed.

Section ReadBack.
Context (s : InMemoryStore.t) (dev : DeviceIdentification.t) (Hs : store_ok s) (Hdev : device_ok dev).
Context (writer reader a q : Z) (Hw : is_u8 writer) (Hr : is_u8 reader) (Hbc : UnitId.is_broadcast reader = false).
Context (Ha : is_u16 a) (bs : bytes) (Hb : bytes_ok bs).

Lemma registers_read_back : 1 ≤ q ≤ 123 → blen bs = 2 * q → a + q ≤ blen (Tables.holding_registers (tables_of s)) →
  ∃ s1 s2,
    process_request (wire (WriteMultipleRegistersRequest.mk a q (2 * q) bs)) writer dev s =
      (Ok (if UnitId.is_broadcast writer then None else Some (wire (WriteMultipleRegistersResponse.mk a q))), s1) ∧
    process_request (wire (ReadHoldingRegistersRequest.mk a q)) reader dev s1 =
      (Ok (Some (wire (ReadHoldingRegistersResponse.mk (q * 2) bs))), s2) ∧
    tables_of s1 = Tables.set_holding (splice a (be_words bs) (Tables.holding_registers (tables_of s))) (tables_of s) ∧
    tables_of s2 = tables_of s1.
Proof.
  intros Hq Hl Hfit. pose proof (blen_mod_2 bs q ltac:(lia)) as Hm. pose proof (blen_be_words bs Hb Hm) as Hwl.
  set (w := WriteMultipleRegistersRequest.mk a q (2 * q) bs). set (rd := ReadHoldingRegistersRequest.mk a q).
  assert (wf w ∧ encodable w) as [Hwf Hen] by (unfold w; response_wf). assert (wf rd ∧ encodable rd) as [Hwf' Hen'] by (unfold rd; response_wf).
  destruct (process_write s (RequestPdu.WriteMultipleRegisters w) writer dev (ResponsePdu.WriteMultipleRegisters (WriteMultipleRegistersResponse.mk a q))
    (Tables.set_holding (splice a (be_words bs) (Tables.holding_registers (tables_of s))) (tables_of s))) as (s1 & Hp1 & Hs1 & HT1); try done.
  { cbn [request_wire]. rewrite wire_length by done. by apply wire_bounded. }
  { by apply wire_ok. }
  { cbn [serve w]. by rewrite replace_fits by lia. }
  destruct (process_read s1 (RequestPdu.ReadHoldingRegisters rd) reader dev (ResponsePdu.ReadHoldingRegisters (ReadHoldingRegistersResponse.mk (q * 2) bs)))
    as (s2 & Hp2 & Hs2 & HT2); try done.
  { by apply wire_ok. }
  { cbn [serve rd]. rewrite HT1. replace (Tables.holding_registers (Tables.set_holding _ _)) with (splice a (be_words bs) (Tables.holding_registers (tables_of s)))
      by by destruct (tables_of s). replace q with (blen (be_words bs)) at 1 by lia. rewrite select_splice by lia. cbn [rbind]. by rewrite words_be_words. }
  by exists s1, s2.
Qed.
Lemma coils_read_back : 1 ≤ q ≤ 1968 → blen bs = div_ceil q 8 → a + q ≤ blen (Tables.coils (tables_of s)) →
  ∃ s1 s2,
    process_request (wire (WriteMultipleCoilsRequest.mk a q (div_ceil q 8) bs)) writer dev s =
      (Ok (if UnitId.is_broadcast writer then None else Some (wire (WriteMultipleCoilsResponse.mk a q))), s1) ∧
    process_request (wire (ReadCoilsRequest.mk a q)) reader dev s1 =
      (Ok (Some (wire (ReadCoilsResponse.mk (div_ceil q 8) (pack_bits (unpack_bits q bs))))), s2) ∧
    tables_of s1 = Tables.set_coils (splice a (unpack_bits q bs) (Tables.coils (tables_of s))) (tables_of s) ∧
    tables_of s2 = tables_of s1.
Proof.
  intros Hq Hl Hfit. pose proof (blen_unpack_bits q bs ltac:(lia)) as Hu. pose proof (byte_count_8 q ltac:(lia)) as Hdc.
  set (w := WriteMultipleCoilsRequest.mk a q (div_ceil q 8) bs). set (rd := ReadCoilsRequest.mk a q).
  assert (div_ceil q 8 = (q + 7) / 8) as Hd8 by (unfold div_ceil; f_equal; lia).
  assert (wf w ∧ encodable w) as [Hwf Hen].
  { unfold w. simpl. unfold WriteMultipleCoilsRequest_wf, WriteMultipleCoilsRequest_encodable. cbn [WriteMultipleCoilsRequest.address
      WriteMultipleCoilsRequest.quantity WriteMultipleCoilsRequest.byte_count WriteMultipleCoilsRequest.coil_values]. split_and!; done || lia. }
  assert (wf rd ∧ encodable rd) as [Hwf' Hen'] by (unfold rd; response_wf).
  destruct (process_write s (RequestPdu.WriteMultipleCoils w) writer dev (ResponsePdu.WriteMultipleCoils (WriteMultipleCoilsResponse.mk a q))
    (Tables.set_coils (splice a (unpack_bits q bs) (Tables.coils (tables_of s))) (tables_of s))) as (s1 & Hp1 & Hs1 & HT1); try done.
  { cbn [request_wire]. rewrite wire_length by done. by apply wire_bounded. }
  { by apply wire_ok. }
  { cbn [serve w]. by rewrite replace_fits by lia. }
  destruct (process_read s1 (RequestPdu.ReadCoils rd) reader dev (ResponsePdu.ReadCoils (ReadCoilsResponse.mk (div_ceil q 8) (pack_bits (unpack_bits q bs)))))
    as (s2 & Hp2 & Hs2 & HT2); try done.
  { by apply wire_ok. }
  { cbn [serve rd]. rewrite HT1. replace (Tables.coils (Tables.set_coils _ _)) with (splice a (unpack_bits q bs) (Tables.coils (tables_of s)))
      by by destruct (tables_of s). rewrite <-Hu at 2. rewrite select_splice by lia. done. }
  by exists s1, s2.
Qed.
End ReadBack.

(** What is written is read back, on the wire: after a write of several
    registers or coils that fits the table, by anyone or by a broadcast, the next
    read of the same range answers with exactly the registers of the request, or
    with its coils and cleared padding bits; the write touched nothing else and the
    read touched nothing. *)
Theorem write_read_back (s : InMemoryStore.t) (dev : DeviceIdentification.t) (writer reader a q : Z) (bs : bytes) :
  store_ok s → device_ok dev → is_u8 writer → is_u8 reader → UnitId.is_broadcast reader = false →
  is_u16 a → bytes_ok bs →
  let T := tables_of s in
  let echo r := if UnitId.is_broadcast writer then None else Some r in
  (1 ≤ q ≤ 123 → blen bs = 2 * q → a + q ≤ blen (Tables.holding_registers T) →
   ∃ s1 s2,
     process_request (wire (WriteMultipleRegistersRequest.mk a q (2 * q) bs)) writer dev s =
       (Ok (echo (wire (WriteMultipleRegistersResponse.mk a q))), s1) ∧
     process_request (wire (ReadHoldingRegistersRequest.mk a q)) reader dev s1 =
       (Ok (Some (wire (ReadHoldingRegistersResponse.mk (q * 2) bs))), s2) ∧
     tables_of s1 = Tables.set_holding (splice a (be_words bs) (Tables.holding_registers T)) T ∧
     tables_of s2 = tables_of s1) ∧
  (1 ≤ q ≤ 1968 → blen bs = div_ceil q 8 → a + q ≤ blen (Tables.coils T) →
   ∃ s1 s2,
     process_request (wire (WriteMultipleCoilsRequest.mk a q (div_ceil q 8) bs)) writer dev s =
       (Ok (echo (wire (WriteMultipleCoilsResponse.mk a q))), s1) ∧
     process_request (wire (ReadCoilsRequest.mk a q)) reader dev s1 =
       (Ok (Some (wire (ReadCoilsResponse.mk (div_ceil q 8) (pack_bits (unpack_bits q bs))))), s2) ∧
     tables_of s1 = Tables.set_coils (splice a (unpack_bits q bs) (Tables.coils T)) T ∧
     tables_of s2 = tables_of s1).
Proof. intros. split; intros; [by apply registers_read_back|by apply coils_read_back]. Qed.
Lemma write_read_back_witness :
  ∃ s1 s2,
    process_request [0x0F; 0; 5; 0; 3; 1; 0xFD] 0 small_device small_store = (Ok None, s1) ∧
    process_request [0x01; 0; 5; 0; 3] 7 small_device s1 = (Ok (Some [0x01; 1; 0x05]), s2).
Proof.
  destruct (write_read_back small_store small_device 0 7 5 3 [0xFD] small_store_ok small_device_ok ltac:(lia) ltac:(lia) eq_refl
    ltac:(lia) ltac:(repeat constructor; unfold byte_ok; lia)) as [_ Hc].
  destruct (Hc ltac:(lia) eq_refl ltac:(vm_compute; discriminate)) as (s1 & s2 & H1 & H2 & _).
  exists s1, s2. split; [exact H1|exact H2].
Defined.
