(* ===== verification/ServerTasks.v ===== *)
(** * The server's tasks (crates/rusty-modbus-server: src/server.rs, src/lifecycle.rs, src/config.rs)

    A supervisor task accepts connections and drains them on shutdown, one task per
    connection answers requests in turn, and any number of callers may stop the
    server. They share [ServerLifecycle], whose every access is under its lock.
    [exec] runs one step of one task, from one await or lock to the next; a run is
    any sequence of steps, so the theorems hold for every interleaving. Times are in
    nanoseconds. *)
From S2P Require Import Prelude Deadlines Types CodecError Pdu Stream Bits Store Memory DeviceId Handler Server Service.

(** ** server.rs: one request *)
Definition bounded_response_pdu (response_pdu : bytes) : option bytes :=
  match get response_pdu 0 with
  | None => None
  | Some function_code =>
      if blen response_pdu <=? MAX_PDU_SIZE then Some response_pdu
      else Some [Z.lor function_code 0x80; ExceptionCode.code ExceptionCode.ServerDeviceFailure]
  end.
Definition response_frame (txn_id unit_id : Z) (response_pdu : bytes) : res Empty_set (option Frame.t) :=
  match bounded_response_pdu response_pdu with
  | None => Ok None
  | Some pdu =>
      let? pdu_len := if blen pdu <=? u16_max then Ok (blen pdu) else Panic in
      let? header := MbapHeader.new txn_id unit_id pdu_len in
      Ok (Some (Frame.mk (FrameHeader.Mbap header) pdu))
  end.
(** What the loop of [handle_connection] does after a request *)
Module Next.
Inductive t : Type := Continue | Reply (f : Frame.t) | Break.
End Next.
(** The body of the loop, from an admitted frame to the reply *)
Definition handle_request {S} `{DataStore S} (unit_id : Z) (device_id : DeviceIdentification.t) (frame : Frame.t) : ST S Empty_set Next.t :=
  let request_unit_id := Frame.unit_id frame in
  if negb (request_unit_id =? unit_id) && negb (UnitId.is_broadcast request_unit_id)
     && negb (UnitId.is_tcp_device request_unit_id)
  then st_ret Next.Continue else
  let txn_id := match Frame.header frame with FrameHeader.Mbap header => MbapHeader.transaction_id header | FrameHeader.Rtu _ => 0 end in
  response <- process_request (Frame.pdu frame) request_unit_id device_id;;
  match response with
  | None => st_ret Next.Continue
  | Some response_pdu =>
      reply <- st_lift (response_frame txn_id request_unit_id response_pdu);;
      match reply with Some f => st_ret (Next.Reply f) | None => st_ret Next.Break end
  end.

Definition ACCEPT_BACKOFF_INITIAL : Z := 10000000.
Definition ACCEPT_BACKOFF_MAXIMUM : Z := 1000000000.
Module AcceptBackoff.
Definition new : Z := ACCEPT_BACKOFF_INITIAL.
(** The delay, and the next one *)
Definition failure_delay (next : Z) : Z * Z := (next, Z.min (duration_saturating_mul next 2) ACCEPT_BACKOFF_MAXIMUM).
Definition reset (next : Z) : Z := ACCEPT_BACKOFF_INITIAL.
End AcceptBackoff.

(** ** config.rs *)
Module ServerConfigError.
Inductive t : Type := ZeroMaxConnections | ZeroMaxTransactions | ZeroShutdownTimeout.
End ServerConfigError.
Module ServerConfig.
Record t : Type := mk { unit_id : Z; max_connections : Z; max_transactions : Z; shutdown_timeout : Z; device_id : DeviceIdentification.t }.
Definition default (version : bytes) : t := mk 1 64 16 10000000000 (DeviceIdentification.default version).
Definition validate (self : t) : res ServerConfigError.t unit :=
  if max_connections self =? 0 then Err ServerConfigError.ZeroMaxConnections else
  if max_transactions self =? 0 then Err ServerConfigError.ZeroMaxTransactions else
  if shutdown_timeout self =? 0 then Err ServerConfigError.ZeroShutdownTimeout else Ok tt.
End ServerConfig.

(** ** lifecycle.rs *)
Module ShutdownOutcome.
Inductive t : Type := Drained | Forced.
#[global] Instance eq_dec : EqDecision t.
Proof. solve_decision. Defined.
End ShutdownOutcome.
Module Phase.
Inductive t : Type := Running | Draining | Closed.
#[global] Instance eq_dec : EqDecision t.
Proof. solve_decision. Defined.
End Phase.

Module ServerLifecycle.
(** [State] and the channels, counters and task handles; a handle is only here or
    not. The counters of the TCP listener belong to it. *)
Record t : Type := mk {
  phase : Phase.t;
  deadline : option Z;
  outcome : option ShutdownOutcome.t;
  coordinator_started : bool;
  shutdown_tx : option Z;
  completion_tx : option ShutdownOutcome.t;
  active_requests : Z;
  accept_errors : Z;
  supervisor : bool;
  supervisor_abort : bool;
  coordinator_abort : bool;
}.
Definition new : t := mk Phase.Running None None false None None 0 0 false false false.
Definition install_supervisor : t → t :=
  λ '(mk p d o c s f a e _ _ ca), mk p d o c s f a e true true ca.
Definition shutdown_deadline (self : t) : option Z := deadline self.
(** [fetch_add] and [fetch_sub] on a [usize] wrap *)
Definition begin_request : t → t :=
  λ '(mk p d o c s f a e u ua ca), mk p d o c s f ((a + 1) mod (usize_max + 1)) e u ua ca.
Definition admit_request (self : t) : option t :=
  if bool_decide (phase self = Phase.Running) then Some (begin_request self) else None.
(** [RequestGuard::drop], with its debug assertion *)
Definition end_request : t → res Empty_set t :=
  λ '(mk p d o c s f a e u ua ca),
    if 0 <? a then Ok (mk p d o c s f ((a - 1) mod (usize_max + 1)) e u ua ca) else Panic.
Definition record_accept_error : t → t :=
  λ '(mk p d o c s f a e u ua ca), mk p d o c s f a (Z.min (e + 1) usize_max) u ua ca.

Section Seal.
Context (instant_max : Z).
Definition seal (timeout now : Z) (self : t) : res Empty_set t :=
  let '(mk p d o c s f a e u ua ca) := self in
  if bool_decide (p = Phase.Running) then
    let? deadline := saturating_instant_add instant_max now timeout in
    Ok (mk Phase.Draining (Some deadline) o c (Some deadline) f a e u ua ca)
  else
    match d with
    | Some deadline => Ok (mk p d o c (Some deadline) f a e u ua ca)
    | None => Panic
    end.
End Seal.
Definition ensure_coordinator (self : t) : res Empty_set t :=
  let '(mk p d o c s f a e u ua ca) := self in
  if bool_decide (p = Phase.Closed) || c then Ok self else
  if u then Ok (mk p d o true s f a e false ua true) else Panic.
(** The coordinator, once the supervisor has returned [result] *)
Definition coordinate (result : ShutdownOutcome.t) : t → t :=
  λ '(mk _ d _ c s _ a e u ua ca), mk Phase.Closed d (Some result) c s (Some result) a e u ua ca.
(** One poll of [wait_for_outcome] *)
Definition wait_for_outcome (self : t) : option ShutdownOutcome.t := outcome self.
End ServerLifecycle.

(** ** The tasks *)

(** A connection task in [handle_connection]: at the top of the loop, waiting for a
    frame, holding one that is not admitted yet, serving it, sending the reply; or
    its task has ended *)
Module Conn.
Inductive t : Type := Top | Receiving | Received (f : Frame.t) | Serving (f : Frame.t) | Sending (f : Frame.t) | Ended.
(** The task holds a [RequestGuard] *)
Definition guards (c : t) : bool := match c with Serving _ | Sending _ => true | _ => false end.
Definition ended (c : t) : bool := match c with Ended => true | _ => false end.
End Conn.
(** The supervisor: at the top of its loop, in [select!], waiting after a failed
    accept, draining the connections, aborting them; or it has returned *)
Module Supervisor.
Inductive t : Type := Top | Selecting | BackingOff | Draining (deadline : Z) | Aborting | Returned (outcome : ShutdownOutcome.t).
End Supervisor.
(** A caller of [stop] *)
Module Caller.
Inductive t : Type := Called | Sealed | Waiting | Returned (outcome : ShutdownOutcome.t).
End Caller.

Module World.
(** [aborted] counts the connections cut short; it is not in the code. *)
Record t (S : Type) : Type := mk {
  lifecycle : ServerLifecycle.t;
  store : S;
  now : Z;
  backoff : Z;
  supervisor : Supervisor.t;
  conns : list Conn.t;
  callers : list Caller.t;
  replies : list Frame.t;
  aborted : Z;
}.
Arguments mk {S}. Arguments lifecycle {S}. Arguments store {S}. Arguments now {S}. Arguments backoff {S}.
Arguments supervisor {S}. Arguments conns {S}. Arguments callers {S}. Arguments replies {S}. Arguments aborted {S}.
End World.

(** Steps; the index is the connection's or the caller's *)
Inductive step : Type :=
  | SupervisorCheck | SupervisorWoken | Accepted | AcceptFailed | BackoffOver
  | DrainedAll | DeadlineElapsed | AbortedAll
  | Joined (i : nat) | AbortJoined (i : nat)
  | ConnCheck (i : nat) | ConnSignalled (i : nat) | ConnClosed (i : nat) | ConnReceived (i : nat) (f : Frame.t)
  | ConnAdmit (i : nat) | ConnServe (i : nat) | ConnSent (i : nat) (ok : bool)
  | StopCalled | StopSeal (i : nat) | StopCoordinate (i : nat) | StopReturned (i : nat)
  | Coordinate
  | Elapsed (n : Z).

(** How many elements satisfy [p] *)
Definition tally {A} (p : A → bool) (l : list A) : Z := blen (List.filter p l).
Definition is_set {A} (o : option A) : bool := match o with Some _ => true | None => false end.

Section Tasks.
Context {S : Type} `{DataStore S} (config : ServerConfig.t) (instant_max : Z).
Import World.
Abbreviation world := (World.t S).
(** [Err tt]: the step is not enabled *)
Abbreviation outcome := (res unit world).

Definition set_supervisor (s : Supervisor.t) : world → world := λ '(mk l st n b _ c k r a), mk l st n b s c k r a.
Definition set_lifecycle (l : ServerLifecycle.t) : world → world := λ '(mk _ st n b s c k r a), mk l st n b s c k r a.
Definition set_conn (i : nat) (x : Conn.t) : world → world := λ '(mk l st n b s c k r a), mk l st n b s (<[i:=x]> c) k r a.
Definition remove_conn (i : nat) : world → world := λ '(mk l st n b s c k r a), mk l st n b s (delete i c) k r a.
Definition set_caller (i : nat) (x : Caller.t) : world → world := λ '(mk l st n b s c k r a), mk l st n b s c (<[i:=x]> k) r a.
(** A step that may panic *)
Definition checked {A} (r : res Empty_set A) (k : A → outcome) : outcome :=
  match r with Ok a => k a | Err e => match e with end | Panic => Panic | OutOfFuel => OutOfFuel end.
(** The end of a request: the guard is dropped and the task goes on or ends *)
Definition finish_request (i : nat) (next : Conn.t) (w : world) : outcome :=
  checked (ServerLifecycle.end_request (lifecycle w)) (λ l, Ok (set_conn i next (set_lifecycle l w))).

(** The listener admits at most [max_connections] at a time. *)
Definition supervisor_step (e : step) (w : world) : outcome :=
  match e, supervisor w with
  | SupervisorCheck, Supervisor.Top =>
      match ServerLifecycle.shutdown_deadline (lifecycle w) with
      | Some deadline => Ok (set_supervisor (Supervisor.Draining deadline) w)
      | None => Ok (set_supervisor Supervisor.Selecting w)
      end
  | SupervisorWoken, Supervisor.Selecting =>
      if is_set (ServerLifecycle.shutdown_tx (lifecycle w)) then Ok (set_supervisor Supervisor.Top w) else Err tt
  | Joined i, Supervisor.Selecting =>
      match conns w !! i with Some Conn.Ended => Ok (remove_conn i (set_supervisor Supervisor.Top w)) | _ => Err tt end
  | Accepted, Supervisor.Selecting =>
      let '(mk l st n b s c k r a) := w in
      if ServerConfig.max_connections config <=? tally (λ c, negb (Conn.ended c)) c then Err tt else
      if is_set (ServerLifecycle.shutdown_deadline l)
      then Ok (mk l st n (AcceptBackoff.reset b) Supervisor.Top c k r a)
      else Ok (mk l st n (AcceptBackoff.reset b) Supervisor.Top (c ++ [Conn.Top]) k r a)
  | AcceptFailed, Supervisor.Selecting =>
      let '(mk l st n b s c k r a) := w in
      Ok (mk (ServerLifecycle.record_accept_error l) st n (AcceptBackoff.failure_delay b).2 Supervisor.BackingOff c k r a)
  | BackoffOver, Supervisor.BackingOff => Ok (set_supervisor Supervisor.Top w)
  | DrainedAll, Supervisor.Draining _ =>
      if is_empty (conns w) then Ok (set_supervisor (Supervisor.Returned ShutdownOutcome.Drained) w) else Err tt
  | DeadlineElapsed, Supervisor.Draining deadline =>
      if is_empty (conns w) then Err tt else if deadline <=? now w then Ok (set_supervisor Supervisor.Aborting w) else Err tt
  | Joined i, Supervisor.Draining deadline =>
      if deadline <=? now w then Err tt else
      match conns w !! i with Some Conn.Ended => Ok (remove_conn i w) | _ => Err tt end
  | AbortJoined i, Supervisor.Aborting =>
      match conns w !! i with
      | Some c =>
          checked (if Conn.guards c then ServerLifecycle.end_request (lifecycle w) else Ok (lifecycle w)) (λ l,
          let '(mk l st n b s c' k r a) := remove_conn i (set_lifecycle l w) in
          Ok (mk l st n b s c' k r (if Conn.ended c then a else a + 1)))
      | None => Err tt
      end
  | AbortedAll, Supervisor.Aborting =>
      if is_empty (conns w) then Ok (set_supervisor (Supervisor.Returned ShutdownOutcome.Forced) w) else Err tt
  | _, _ => Err tt
  end.

Definition connection_step (e : step) (w : world) : outcome :=
  match e with
  | ConnCheck i =>
      match conns w !! i with
      | Some Conn.Top =>
          if is_set (ServerLifecycle.shutdown_deadline (lifecycle w)) then Ok (set_conn i Conn.Ended w) else Ok (set_conn i Conn.Receiving w)
      | _ => Err tt
      end
  | ConnSignalled i =>
      match conns w !! i with
      | Some Conn.Receiving => if is_set (ServerLifecycle.shutdown_tx (lifecycle w)) then Ok (set_conn i Conn.Ended w) else Err tt
      | _ => Err tt
      end
  | ConnClosed i => match conns w !! i with Some Conn.Receiving => Ok (set_conn i Conn.Ended w) | _ => Err tt end
  | ConnReceived i f => match conns w !! i with Some Conn.Receiving => Ok (set_conn i (Conn.Received f) w) | _ => Err tt end
  | ConnAdmit i =>
      match conns w !! i with
      | Some (Conn.Received f) =>
          match ServerLifecycle.admit_request (lifecycle w) with
          | Some l => Ok (set_conn i (Conn.Serving f) (set_lifecycle l w))
          | None => Ok (set_conn i Conn.Ended w)
          end
      | _ => Err tt
      end
  | ConnServe i =>
      match conns w !! i with
      | Some (Conn.Serving f) =>
          let '(mk l st n b s c k r a) := w in
          let '(next, st) := handle_request (ServerConfig.unit_id config) (ServerConfig.device_id config) f st in
          let w := mk l st n b s c k r a in
          checked next (λ next,
          match next with
          | Next.Continue => finish_request i Conn.Top w
          | Next.Reply f => Ok (set_conn i (Conn.Sending f) w)
          | Next.Break => finish_request i Conn.Ended w
          end)
      | _ => Err tt
      end
  | ConnSent i ok =>
      match conns w !! i with
      | Some (Conn.Sending f) =>
          if ok then
            let '(mk l st n b s c k r a) := w in
            finish_request i Conn.Top (mk l st n b s c k (r ++ [f]) a)
          else finish_request i Conn.Ended w
      | _ => Err tt
      end
  | _ => Err tt
  end.

Definition caller_step (e : step) (w : world) : outcome :=
  match e with
  | StopCalled => let '(mk l st n b s c k r a) := w in Ok (mk l st n b s c (k ++ [Caller.Called]) r a)
  | StopSeal i =>
      match callers w !! i with
      | Some Caller.Called =>
          checked (ServerLifecycle.seal instant_max (ServerConfig.shutdown_timeout config) (now w) (lifecycle w)) (λ l,
          Ok (set_caller i Caller.Sealed (set_lifecycle l w)))
      | _ => Err tt
      end
  | StopCoordinate i =>
      match callers w !! i with
      | Some Caller.Sealed =>
          checked (ServerLifecycle.ensure_coordinator (lifecycle w)) (λ l, Ok (set_caller i Caller.Waiting (set_lifecycle l w)))
      | _ => Err tt
      end
  | StopReturned i =>
      match callers w !! i, ServerLifecycle.wait_for_outcome (lifecycle w) with
      | Some Caller.Waiting, Some o => Ok (set_caller i (Caller.Returned o) w)
      | _, _ => Err tt
      end
  | _ => Err tt
  end.

(** The coordinator runs from the moment it is started until it has recorded the
    outcome of the supervisor. *)
Definition coordinator_step (w : world) : outcome :=
  match supervisor w, ServerLifecycle.outcome (lifecycle w) with
  | Supervisor.Returned o, None =>
      if ServerLifecycle.coordinator_started (lifecycle w) then Ok (set_lifecycle (ServerLifecycle.coordinate o (lifecycle w)) w) else Err tt
  | _, _ => Err tt
  end.

Definition exec (e : step) (w : world) : outcome :=
  match e with
  | SupervisorCheck | SupervisorWoken | Accepted | AcceptFailed | BackoffOver | DrainedAll | DeadlineElapsed | AbortedAll
  | Joined _ | AbortJoined _ => supervisor_step e w
  | ConnCheck _ | ConnSignalled _ | ConnClosed _ | ConnReceived _ _ | ConnAdmit _ | ConnServe _ | ConnSent _ _ => connection_step e w
  | StopCalled | StopSeal _ | StopCoordinate _ | StopReturned _ => caller_step e w
  | Coordinate => coordinator_step w
  | Elapsed n => if (0 <=? n) && (now w + n <=? instant_max) then let '(mk l st t b s c k r a) := w in Ok (mk l st (t + n) b s c k r a) else Err tt
  end.
(** [start]: the lifecycle with its supervisor *)
Definition start (st : S) (now : Z) : world :=
  mk (ServerLifecycle.install_supervisor ServerLifecycle.new) st now AcceptBackoff.new Supervisor.Top [] [] [] 0.
(** Steps that are not enabled are skipped. *)
Fixpoint run (es : list step) (w : world) : res Empty_set world :=
  match es with
  | [] => Ok w
  | e :: es =>
      match exec e w with
      | Ok w => run es w
      | Err _ => run es w
      | Panic => Panic
      | OutOfFuel => OutOfFuel
      end
  end.
End Tasks.

(** * Lemmas *)

(** ** Counting *)
Section Tally.
Context {A : Type} (p : A → bool).
Lemma tally_cons x l : tally p (x :: l) = Z.b2z (p x) + tally p l.
Proof. unfold tally. cbn. destruct (p x); [by rewrite blen_cons|done]. Qed.
Lemma tally_app l k : tally p (l ++ k) = tally p l + tally p k.
Proof. unfold tally. by rewrite List.filter_app, blen_app. Qed.
Lemma tally_bounds l : 0 ≤ tally p l ≤ blen l.
Proof. induction l as [|x l IH]; [done|]. rewrite tally_cons, blen_cons. destruct (p x); cbn [Z.b2z]; lia. Qed.
Lemma tally_insert l i x y : l !! i = Some x → tally p (<[i:=y]> l) = tally p l - Z.b2z (p x) + Z.b2z (p y).
Proof.
  revert i. induction l as [|z l IH]; intros [|i] Hi; try done; cbn in Hi; [injection Hi as ->|]; cbn [insert list_insert].
  - rewrite !tally_cons. lia.
  - rewrite !tally_cons. fold (insert (M := list A) i y l). rewrite IH by done. lia.
Qed.
Lemma tally_delete l i x : l !! i = Some x → tally p (delete i l) = tally p l - Z.b2z (p x).
Proof.
  revert i. induction l as [|z l IH]; intros [|i] Hi; try done; cbn in Hi; [injection Hi as ->|]; cbn [delete list_delete].
  - rewrite tally_cons. lia.
  - rewrite !tally_cons. fold (delete (M := list A) i l). rewrite IH by done. lia.
Qed.
End Tally.
Lemma tally_le {A} (p q : A → bool) l : (∀ x, p x = true → q x = true) → tally p l ≤ tally q l.
Proof. intros Hpq. induction l as [|x l IH]; [done|]. rewrite !tally_cons. specialize (Hpq x). destruct (p x), (q x); cbn; try lia; naive_solver. Qed.
Lemma blen_delete {A} (l : list A) i x : l !! i = Some x → blen (delete i l) = blen l - 1.
Proof. intros Hi. pose proof (lookup_lt_Some _ _ _ Hi). unfold blen. rewrite length_delete by done. lia. Qed.

(** ** Requests *)
Definition frame_ok (f : Frame.t) : Prop :=
  bytes_ok (Frame.pdu f) ∧ is_u8 (Frame.unit_id f) ∧
  match Frame.header f with FrameHeader.Mbap h => is_u16 (MbapHeader.transaction_id h) | FrameHeader.Rtu _ => True end.
Definition frame_txn (f : Frame.t) : Z :=
  match Frame.header f with FrameHeader.Mbap h => MbapHeader.transaction_id h | FrameHeader.Rtu _ => 0 end.
Lemma response_frame_spec txn unit_id resp : 1 ≤ blen resp ≤ 253 →
  response_frame txn unit_id resp =
    Ok (Some (Frame.mk (FrameHeader.Mbap (MbapHeader.mk txn MODBUS_PROTOCOL_ID (blen resp + 1) unit_id)) resp)).
Proof.
  intros Hl. unfold response_frame, bounded_response_pdu. destruct resp as [|b resp]; [change (blen []) with 0 in Hl; lia|].
  rewrite get_cons_0. change MAX_PDU_SIZE with 253. replace (blen (b :: resp) <=? 253) with true by lia.
  replace (blen (b :: resp) <=? u16_max) with true by (unfold u16_max; lia). cbn [rbind]. unfold MbapHeader.new, MbapHeader.try_new.
  change MAX_PDU_SIZE with 253. replace (253 <? blen (b :: resp)) with false by lia.
  by replace (u16_max <? blen (b :: resp) + 1) with false by (unfold u16_max; lia).
Qed.
(** A request for another unit is left alone; an answer goes back with the
    transaction and the unit of its request. *)
Lemma handle_request_ok {S} `{DataStore S} (inv : S → Prop) `{!StoreLaws S inv} unit_id dev f st :
  inv st → frame_ok f → device_ok dev →
  ∃ next st', handle_request unit_id dev f st = (Ok next, st') ∧ inv st' ∧
  match next with
  | Next.Continue => True
  | Next.Reply g => ∃ resp, g = Frame.mk (FrameHeader.Mbap (MbapHeader.mk (frame_txn f) MODBUS_PROTOCOL_ID (blen resp + 1) (Frame.unit_id f))) resp ∧
      reply_ok (default 0 (get (Frame.pdu f) 0)) resp
  | Next.Break => False
  end.
Proof.
  intros Hst (Hb & Hu & _) Hdev. unfold handle_request. destruct (negb _ && negb _ && negb _); [by exists Next.Continue, st|].
  pose proof (process_ok inv (Frame.pdu f) (Frame.unit_id f) dev st Hst Hb Hu Hdev) as Hp. unfold st_bind at 1.
  destruct (process_request (Frame.pdu f) (Frame.unit_id f) dev st) as [[[resp|]|e| |] st'], Hp as [Hst' Hr]; try done.
  - destruct Hr as [_ Hr]. pose proof Hr as (_ & Hl & _). change MAX_PDU_SIZE with 253 in Hl. rewrite st_bind_lift, response_frame_spec by done.
    eexists _, st'. split; [done|]. split; [done|]. by exists resp.
  - by exists Next.Continue, st'.
Qed.

(** ** The invariant *)
Definition state_ok (l : ServerLifecycle.t) : Prop :=
  (ServerLifecycle.phase l = Phase.Running ↔ ServerLifecycle.deadline l = None) ∧
  ServerLifecycle.shutdown_tx l = ServerLifecycle.deadline l ∧
  (ServerLifecycle.phase l = Phase.Closed ↔ is_Some (ServerLifecycle.outcome l)) ∧
  ServerLifecycle.coordinator_started l = negb (ServerLifecycle.supervisor l) ∧
  (ServerLifecycle.coordinator_started l = true → is_Some (ServerLifecycle.deadline l)) ∧
  (is_Some (ServerLifecycle.outcome l) → ServerLifecycle.coordinator_started l = true).
Definition supervisor_ok (l : ServerLifecycle.t) (s : Supervisor.t) (conns : list Conn.t) (aborted : Z) : Prop :=
  match s with
  | Supervisor.Top | Supervisor.Selecting | Supervisor.BackingOff => aborted = 0 ∧ ServerLifecycle.outcome l = None
  | Supervisor.Draining d => aborted = 0 ∧ ServerLifecycle.outcome l = None ∧ ServerLifecycle.deadline l = Some d
  | Supervisor.Aborting => ServerLifecycle.outcome l = None ∧ is_Some (ServerLifecycle.deadline l)
  | Supervisor.Returned o => conns = [] ∧ is_Some (ServerLifecycle.deadline l) ∧ (o = ShutdownOutcome.Drained → aborted = 0) ∧
      (ServerLifecycle.outcome l = None ∨ ServerLifecycle.outcome l = Some o)
  end.
Definition caller_ok (l : ServerLifecycle.t) (c : Caller.t) : Prop :=
  match c with
  | Caller.Called => True
  | Caller.Sealed => is_Some (ServerLifecycle.deadline l)
  | Caller.Waiting => ServerLifecycle.coordinator_started l = true
  | Caller.Returned o => ServerLifecycle.outcome l = Some o
  end.
Definition conn_ok (c : Conn.t) : Prop :=
  match c with Conn.Received f | Conn.Serving f => frame_ok f | _ => True end.
(** What a change of the lifecycle keeps *)
Definition keeps (l l' : ServerLifecycle.t) : Prop :=
  (∀ d, ServerLifecycle.deadline l = Some d → ServerLifecycle.deadline l' = Some d) ∧
  (ServerLifecycle.coordinator_started l = true → ServerLifecycle.coordinator_started l' = true) ∧
  (∀ o, ServerLifecycle.outcome l = Some o → ServerLifecycle.outcome l' = Some o).
#[export] Instance keeps_preorder : PreOrder keeps.
Proof. split; [by intros l|]. intros l1 l2 l3 (? & ? & ?) (? & ? & ?). split_and!; eauto. Qed.
(** A change of the counters only *)
Definition counted (l l' : ServerLifecycle.t) : Prop :=
  ServerLifecycle.phase l' = ServerLifecycle.phase l ∧ ServerLifecycle.deadline l' = ServerLifecycle.deadline l ∧
  ServerLifecycle.outcome l' = ServerLifecycle.outcome l ∧ ServerLifecycle.coordinator_started l' = ServerLifecycle.coordinator_started l ∧
  ServerLifecycle.shutdown_tx l' = ServerLifecycle.shutdown_tx l ∧ ServerLifecycle.supervisor l' = ServerLifecycle.supervisor l.

Lemma counted_keeps l l' : counted l l' → keeps l l'.
Proof. intros (_ & Hd & Ho & Hc & _). unfold keeps. rewrite Hd, Ho, Hc. naive_solver. Qed.
Lemma counted_state l l' : counted l l' → state_ok l → state_ok l'.
Proof. intros (Hp & Hd & Ho & Hc & Ht & Hs). unfold state_ok. by rewrite Hp, Hd, Ho, Hc, Ht, Hs. Qed.
Lemma counted_supervisor l l' s c a : counted l l' → supervisor_ok l s c a → supervisor_ok l' s c a.
Proof. intros (Hp & Hd & Ho & Hc & Ht & Hs). unfold supervisor_ok. by rewrite Hd, Ho. Qed.
Lemma caller_keeps l l' c : keeps l l' → caller_ok l c → caller_ok l' c.
Proof. intros (Hd & Hc & Ho). destruct c; cbn; [done|intros [d ?]; eauto|auto|auto]. Qed.
Lemma callers_keep l l' cs : keeps l l' → Forall (caller_ok l) cs → Forall (caller_ok l') cs.
Proof. intros Hk Hf. eapply Forall_impl; [exact Hf|]. intros c. by apply caller_keeps. Qed.

Lemma end_request_spec l : 0 < ServerLifecycle.active_requests l ≤ usize_max → ∃ l', ServerLifecycle.end_request l = Ok l' ∧
  counted l l' ∧ ServerLifecycle.active_requests l' = ServerLifecycle.active_requests l - 1.
Proof.
  destruct l as [p d o c s f a e u ua ca]. cbn. intros Ha. replace (0 <? a) with true by lia. eexists. split; [done|].
  split; [by split_and!|]. cbn. apply Z.mod_small. unfold usize_max in *. lia.
Qed.
Lemma admit_request_spec l : 0 ≤ ServerLifecycle.active_requests l < usize_max →
  match ServerLifecycle.admit_request l with
  | Some l' => ServerLifecycle.phase l = Phase.Running ∧ counted l l' ∧ ServerLifecycle.active_requests l' = ServerLifecycle.active_requests l + 1
  | None => ServerLifecycle.phase l ≠ Phase.Running
  end.
Proof.
  intros Ha. unfold ServerLifecycle.admit_request. case_bool_decide; [|done]. destruct l. cbn in *. split; [done|]. split; [by split_and!|].
  cbn. apply Z.mod_small. lia.
Qed.
Lemma seal_spec last timeout now l : now ≤ last → 0 ≤ timeout ≤ DURATION_MAX → state_ok l → ∃ l', ServerLifecycle.seal last timeout now l = Ok l' ∧
  state_ok l' ∧ keeps l l' ∧ is_Some (ServerLifecycle.deadline l') ∧ ServerLifecycle.outcome l' = ServerLifecycle.outcome l ∧
  ServerLifecycle.active_requests l' = ServerLifecycle.active_requests l.
Proof.
  destruct l as [p d o c s f a e u ua ca]. intros Hn Ht (Hp & Htx & Hc & Hst & Hcd & Hoc). cbn in *. case_bool_decide as Hr.
  - subst p. assert (d = None) as -> by by apply Hp. rewrite saturating_instant_add_spec by done. cbn [rbind]. eexists. split; [done|].
    assert (o = None) as -> by (destruct o as [x|]; [|done]; by discriminate (proj2 Hc (mk_is_Some _ x eq_refl))). split; [|split_and!; try done; by eexists].
    split_and!; cbn; [by split|done|by split; [|intros [? ?]]|done|by eexists|done].
  - destruct d as [d|]; [|destruct Hr; by apply Hp]. eexists. split; [done|]. split; [by split_and!|]. split_and!; try done; by eexists.
Qed.
Lemma ensure_coordinator_spec l : state_ok l → is_Some (ServerLifecycle.deadline l) → ∃ l', ServerLifecycle.ensure_coordinator l = Ok l' ∧
  state_ok l' ∧ keeps l l' ∧ ServerLifecycle.coordinator_started l' = true ∧ ServerLifecycle.deadline l' = ServerLifecycle.deadline l ∧
  ServerLifecycle.outcome l' = ServerLifecycle.outcome l ∧ ServerLifecycle.active_requests l' = ServerLifecycle.active_requests l.
Proof.
  destruct l as [p d o c s f a e u ua ca]. intros Hok Hd. pose proof Hok as (Hp & Htx & Hc & Hst & Hcd & Hoc). cbn in *.
  destruct (bool_decide (p = Phase.Closed) || c) eqn:Hb.
  - eexists. split; [done|]. split; [done|]. split; [done|]. split; [|done]. cbn. destruct c; [done|].
    rewrite orb_false_r in Hb. apply bool_decide_eq_true in Hb. by apply Hoc, Hc.
  - apply orb_false_iff in Hb as [Hb ->]. destruct u; [|done]. eexists. split; [done|]. split; [|by split_and!].
    by split_and!.
Qed.

Definition config_ok (config : ServerConfig.t) : Prop :=
  0 ≤ ServerConfig.shutdown_timeout config ≤ DURATION_MAX ∧ 0 ≤ ServerConfig.max_connections config < usize_max ∧
  device_ok (ServerConfig.device_id config).
Definition step_ok (e : step) : Prop := match e with ConnReceived _ f => frame_ok f | _ => True end.

Section Invariant.
Context {S : Type} `{DataStore S} (inv : S → Prop) `{!StoreLaws S inv} (config : ServerConfig.t) (Hconfig : config_ok config) (last : Z).
Import World.
Abbreviation world := (World.t S).
Abbreviation alive c := (negb (Conn.ended c)).
Record Inv (w : world) : Prop := {
  inv_store : inv (store w);
  inv_frames : Forall conn_ok (conns w);
  inv_active : ServerLifecycle.active_requests (lifecycle w) = tally Conn.guards (conns w);
  inv_alive : tally (λ c, alive c) (conns w) ≤ ServerConfig.max_connections config;
  inv_state : state_ok (lifecycle w);
  inv_supervisor : supervisor_ok (lifecycle w) (supervisor w) (conns w) (aborted w);
  inv_callers : Forall (caller_ok (lifecycle w)) (callers w);
  inv_now : now w ≤ last;
}.
(** What stays true from then on: after the seal, no connection is added and no
    request is admitted. *)
Definition later (w w' : world) : Prop :=
  keeps (lifecycle w) (lifecycle w') ∧
  (is_Some (ServerLifecycle.deadline (lifecycle w)) →
   blen (conns w') ≤ blen (conns w) ∧ tally Conn.guards (conns w') ≤ tally Conn.guards (conns w)).
#[export] Instance later_preorder : PreOrder later.
Proof.
  split; [by intros w; split|]. intros w1 w2 w3 [Hk1 H1] [Hk2 H2]. split; [by etrans|]. intros Hd. destruct (H1 Hd).
  destruct H2; [|lia]. destruct Hd as [d Hd]. exists d. by apply Hk1.
Qed.
Definition good (w : world) (o : res unit world) : Prop :=
  match o with Ok w' => Inv w' ∧ later w w' | Err _ => True | Panic | OutOfFuel => False end.

Lemma active_bound w : Inv w → 0 ≤ ServerLifecycle.active_requests (lifecycle w) < usize_max.
Proof.
  intros Hw. destruct Hconfig as (_ & Hm & _). rewrite (inv_active w Hw). pose proof (inv_alive w Hw).
  pose proof (tally_bounds Conn.guards (conns w)). pose proof (tally_le Conn.guards (λ c, alive c) (conns w) ltac:(by intros [])). lia.
Qed.
Lemma good_supervisor w s : Inv w → supervisor_ok (lifecycle w) s (conns w) (aborted w) → good w (Ok (set_supervisor s w)).
Proof. destruct w. intros [] Hs. split; [by split|]. by split. Qed.
(** A connection task moves on; [l'] is the lifecycle with the new count. *)
Lemma good_conn l l' st n b s c k r a st' r' i x y : Inv (mk l st n b s c k r a) → c !! i = Some x → conn_ok y →
  counted l l' → inv st' →
  ServerLifecycle.active_requests l' = ServerLifecycle.active_requests l - Z.b2z (Conn.guards x) + Z.b2z (Conn.guards y) →
  (Conn.ended x = true → Conn.ended y = true) → (Conn.guards x = false → Conn.guards y = true → ServerLifecycle.phase l = Phase.Running) →
  good (mk l st n b s c k r a) (Ok (mk l' st' n b s (<[i:=y]> c) k r' a)).
Proof.
  intros [Hst Hf Ha Hal Hok Hs Hk Hn] Hi Hy Hc Hst' Hact He Hg. cbn in *. pose proof (tally_insert Conn.guards c i x y Hi) as Htg.
  pose proof (tally_insert (λ c, alive c) c i x y Hi) as Hta. cbn beta in Hta. split; [split; cbn; try done|].
  - by apply Forall_insert.
  - lia.
  - destruct (Conn.ended x), (Conn.ended y); cbn [negb Z.b2z] in Hta; lia.
  - by eapply counted_state.
  - eapply counted_supervisor; [done|]. destruct s; try done. by destruct Hs as [-> _].
  - eapply callers_keep; [|done]. by apply counted_keeps.
  - split; cbn; [by apply counted_keeps|]. intros Hd. rewrite Htg. unfold blen. rewrite length_insert. split; [lia|].
    destruct (Conn.guards x), (Conn.guards y); cbn [Z.b2z]; try lia. specialize (Hg eq_refl eq_refl). destruct Hok as (Hp & _).
    apply Hp in Hg. rewrite Hg in Hd. by destruct Hd.
Qed.
Lemma counted_refl l : counted l l.
Proof. by split_and!. Qed.
(** A step of a task that touches neither the store nor the counters *)
Lemma good_moves w i x y : Inv w → conns w !! i = Some x → conn_ok y → Conn.guards y = Conn.guards x →
  (Conn.ended x = true → Conn.ended y = true) → good w (Ok (set_conn i y w)).
Proof.
  destruct w. intros Hw Hi Hy Hg He. eapply good_conn; try done; [apply (inv_store _ Hw)|rewrite Hg; lia|congruence].
Qed.
Lemma good_finish l st n b s c k r a st' r' i x y : Inv (mk l st n b s c k r a) → c !! i = Some x → Conn.guards x = true → inv st' →
  y = Conn.Top ∨ y = Conn.Ended → good (mk l st n b s c k r a) (finish_request i y (mk l st' n b s c k r' a)).
Proof.
  intros Hw Hi Hg Hst' Hy. unfold finish_request. cbn [lifecycle].
  assert (1 ≤ tally Conn.guards c) as Hpos.
  { pose proof (tally_delete Conn.guards c i x Hi) as Hd. rewrite Hg in Hd. cbn in Hd. pose proof (tally_bounds Conn.guards (delete i c)). lia. }
  pose proof (active_bound _ Hw) as Hb. pose proof (inv_active _ Hw) as Ha. cbn in Ha, Hb.
  destruct (end_request_spec l) as (l' & -> & Hc & Hl'); [lia|]. cbn [checked set_lifecycle set_conn].
  eapply good_conn; try done; [by destruct Hy as [-> | ->]|rewrite Hl', Hg; destruct Hy as [-> | ->]; cbn; lia|by destruct x|by rewrite Hg].
Qed.

Lemma connection_step_good e w : Inv w → step_ok e → good w (connection_step config e w).
Proof.
  intros Hw He. pose proof Hconfig as (_ & _ & Hdev). destruct e; try done; cbn [connection_step]; destruct (conns w !! i) as [x|] eqn:Hi; try done;
    destruct x as [| |g|g|g|]; try done; pose proof (proj1 (Forall_lookup _ _) (inv_frames w Hw) _ _ Hi) as Hx; cbn in Hx.
  - case_match; by eapply good_moves.
  - case_match; [by eapply good_moves|done].
  - by eapply good_moves.
  - by eapply good_moves.
  - pose proof (admit_request_spec (lifecycle w) (active_bound w Hw)) as Ha. destruct (ServerLifecycle.admit_request (lifecycle w)) as [l'|].
    + destruct Ha as (Hp & Hc & Hl'), w. eapply good_conn; try done; [apply (inv_store _ Hw)|cbn in *; lia].
    + by eapply good_moves.
  - destruct w as [l st n b s c k r a]. cbn in Hi.
    destruct (handle_request_ok inv (ServerConfig.unit_id config) (ServerConfig.device_id config) g st (inv_store _ Hw) Hx Hdev)
      as (next & st' & -> & Hst' & Hnext). cbn [checked]. destruct next as [|f|]; try done.
    + eapply good_finish; try done. by left.
    + cbn [set_conn]. eapply good_conn; try done. cbn; lia.
  - destruct w as [l st n b s c k r a]. cbn in Hi. destruct ok.
    + eapply good_finish; try done; [apply (inv_store _ Hw)|by left].
    + eapply good_finish; try done; [apply (inv_store _ Hw)|by right].
Qed.
(** A joined task is gone. *)
Lemma good_remove l l' st n b s s' c k r a a' i x : Inv (mk l st n b s c k r a) → c !! i = Some x → counted l l' →
  ServerLifecycle.active_requests l' = ServerLifecycle.active_requests l - Z.b2z (Conn.guards x) →
  supervisor_ok l' s' (delete i c) a' → good (mk l st n b s c k r a) (Ok (mk l' st n b s' (delete i c) k r a')).
Proof.
  intros [Hst Hf Ha Hal Hok Hs Hk Hn] Hi Hc Hact Hs'. cbn in *. pose proof (tally_delete Conn.guards c i x Hi) as Htg.
  pose proof (tally_delete (λ c, alive c) c i x Hi) as Hta. cbn beta in Hta. split; [split; cbn; try done|].
  - by apply Forall_delete.
  - lia.
  - destruct (Conn.ended x); cbn [negb Z.b2z] in Hta; lia.
  - by eapply counted_state.
  - eapply callers_keep; [|done]. by apply counted_keeps.
  - split; cbn; [by apply counted_keeps|]. intros _. rewrite Htg, (blen_delete c i x Hi). destruct (Conn.guards x); cbn [Z.b2z]; lia.
Qed.
Lemma ended_conn x : Conn.ended x = true → Conn.guards x = false.
Proof. by destruct x. Qed.
Lemma good_accept l st n b b' c k r a : Inv (mk l st n b Supervisor.Selecting c k r a) → ServerLifecycle.deadline l = None →
  tally (λ c, alive c) c < ServerConfig.max_connections config →
  good (mk l st n b Supervisor.Selecting c k r a) (Ok (mk l st n b' Supervisor.Top (c ++ [Conn.Top]) k r a)).
Proof.
  intros [Hst Hf Ha Hal Hok Hs Hk Hn] Hd Hroom. cbn in *. split; [split; cbn; try done|].
  - apply Forall_app. by repeat constructor.
  - rewrite tally_app. change (tally Conn.guards [Conn.Top]) with 0. lia.
  - rewrite tally_app. change (tally (λ c, alive c) [Conn.Top]) with 1. lia.
  - split; cbn; [done|]. rewrite Hd. by intros [].
Qed.
Lemma supervisor_step_good e w : Inv w → good w (supervisor_step config e w).
Proof.
  intros Hw. pose proof (inv_supervisor w Hw) as Hs. destruct w as [l st n b s c k r a]. cbn in Hs. unfold supervisor_step. cbn [supervisor lifecycle conns now].
  destruct e; try done; destruct s; try done; cbn in Hs.
  - destruct (ServerLifecycle.shutdown_deadline l) eqn:Hd; apply (good_supervisor (mk l st n b Supervisor.Top c k r a)); try done.
    by destruct Hs.
  - case_match; [|done]. by apply (good_supervisor (mk l st n b Supervisor.Selecting c k r a)).
  - destruct (Z.leb_spec (ServerConfig.max_connections config) (tally (λ c, alive c) c)); [done|].
    unfold ServerLifecycle.shutdown_deadline. destruct (ServerLifecycle.deadline l) eqn:Hd; cbn [is_set]; [|by apply good_accept].
    destruct Hw. split; [by split|by split].
  - destruct Hw as [Hst Hf Ha Hal Hok _ Hk Hn]. assert (counted l (ServerLifecycle.record_accept_error l)) as Hc by (destruct l; by split_and!).
    split; [split; cbn in *; try done|split; [by apply counted_keeps|done]].
    + rewrite <-Ha. by destruct l.
    + by eapply counted_state.
    + destruct Hc as (_ & _ & -> & _). done.
    + eapply callers_keep; [|done]. by apply counted_keeps.
  - by apply (good_supervisor (mk l st n b Supervisor.BackingOff c k r a)).
  - destruct (is_empty c) eqn:He; [|done]. apply is_empty_true in He. apply (good_supervisor (mk l st n b (Supervisor.Draining deadline) c k r a)); [done|].
    destruct Hs as (? & ? & ?). cbn. split_and!; [done|by eexists|done|by left].
  - destruct (is_empty c); [done|]. case_match; [|done]. apply (good_supervisor (mk l st n b (Supervisor.Draining deadline) c k r a)); [done|].
    destruct Hs as (? & ? & ?). cbn. split; [done|by eexists].
  - destruct (is_empty c) eqn:He; [|done]. apply is_empty_true in He. apply (good_supervisor (mk l st n b Supervisor.Aborting c k r a)); [done|].
    destruct Hs as (? & ?). cbn. split_and!; [done..|by left].
  - destruct (c !! i) as [[]|] eqn:Hi; try done. cbn [remove_conn set_supervisor].
    eapply good_remove; [done..|by split_and!|cbn; lia|done].
  - destruct (deadline <=? n); [done|]. destruct (c !! i) as [[]|] eqn:Hi; try done. cbn [remove_conn].
    eapply good_remove; [done..|by split_and!|cbn; lia|done].
  - destruct (c !! i) as [x|] eqn:Hi; [|done].
    assert (∃ l', (if Conn.guards x then ServerLifecycle.end_request l else Ok l) = Ok l' ∧ counted l l' ∧
      ServerLifecycle.active_requests l' = ServerLifecycle.active_requests l - Z.b2z (Conn.guards x)) as (l' & -> & Hc & Hl').
    { destruct (Conn.guards x) eqn:Hg; [|exists l; split_and!; try done; cbn; lia].
      pose proof (active_bound _ Hw) as Hb. pose proof (inv_active _ Hw) as Ha. cbn in Ha, Hb.
      pose proof (tally_delete Conn.guards c i x Hi) as Hd. rewrite Hg in Hd. pose proof (tally_bounds Conn.guards (delete i c)).
      cbn [Z.b2z] in *. destruct (end_request_spec l) as (l' & -> & ? & ?); [lia|]. by exists l'. }
    cbn [checked set_lifecycle remove_conn]. eapply good_remove; [done..|]. destruct Hc as (_ & Hd & Ho & _). cbn. by rewrite Hd, Ho.
Qed.
(** A caller moves on, with the lifecycle it leaves. *)
Lemma good_caller l l' st n b s c k k' r a : Inv (mk l st n b s c k r a) → state_ok l' → keeps l l' →
  ServerLifecycle.outcome l' = ServerLifecycle.outcome l → ServerLifecycle.active_requests l' = ServerLifecycle.active_requests l →
  Forall (caller_ok l') k' → good (mk l st n b s c k r a) (Ok (mk l' st n b s c k' r a)).
Proof.
  intros [Hst Hf Ha Hal Hok Hs Hk Hn] Hok' Hkeep Ho Hact Hk'. cbn in *. split; [split; cbn; try done; [lia|]|by split].
  destruct Hkeep as (Hd & _). assert (is_Some (ServerLifecycle.deadline l) → is_Some (ServerLifecycle.deadline l')) as Hd'
    by (intros [d ?]; exists d; auto).
  destruct s; cbn in *; rewrite Ho; [done..| | |]; [destruct Hs as (? & ? & ?)|destruct Hs as (? & ?)|destruct Hs as (? & ? & ? & ?)]; split_and!; auto.
Qed.
Lemma caller_step_good e w : Inv w → good w (caller_step config last e w).
Proof.
  intros Hw. pose proof Hconfig as (Ht & _). pose proof (inv_callers w Hw) as Hk. pose proof (inv_state w Hw) as Hok. pose proof (inv_now w Hw) as Hn.
  destruct w as [l st n b s c k r a]. cbn in Hk, Hok, Hn. unfold caller_step. cbn [callers lifecycle now].
  destruct e; try done.
  - eapply good_caller; try done. apply Forall_app. by repeat constructor.
  - destruct (k !! i) as [[]|] eqn:Hi; try done. destruct (seal_spec last (ServerConfig.shutdown_timeout config) n l Hn Ht Hok) as (l' & -> & ? & ? & ? & ? & ?).
    cbn [checked set_lifecycle set_caller]. eapply good_caller; try done. apply Forall_insert; [by eapply callers_keep|done].
  - destruct (k !! i) as [x|] eqn:Hi; try done. pose proof (proj1 (Forall_lookup _ _) Hk _ _ Hi) as Hx. destruct x; try done.
    destruct (ensure_coordinator_spec l Hok Hx) as (l' & -> & ? & ? & ? & ? & ? & ?).
    cbn [checked set_lifecycle set_caller]. eapply good_caller; try done. apply Forall_insert; [by eapply callers_keep|done].
  - destruct (k !! i) as [[]|] eqn:Hi; try done. unfold ServerLifecycle.wait_for_outcome. destruct (ServerLifecycle.outcome l) eqn:Ho; [|done].
    cbn [set_caller]. eapply good_caller; try done. by apply Forall_insert.
Qed.
Lemma coordinator_step_good w : Inv w → good w (coordinator_step w).
Proof.
  intros [Hst Hf Ha Hal Hok Hs Hk Hn]. destruct w as [l st n b s c k r a]. unfold coordinator_step. cbn in *. destruct s as [| | | | |o]; try done.
  destruct (ServerLifecycle.outcome l) eqn:Ho; [done|]. destruct (ServerLifecycle.coordinator_started l) eqn:Hc; [|done].
  assert (keeps l (ServerLifecycle.coordinate o l)) as Hkeep.
  { destruct l. cbn in *. subst. by split_and!. }
  destruct Hs as (? & [d Hd] & ? & _). destruct Hok as (Hp & Htx & _ & Hsup & Hcd & _). split; [split; cbn; try done|split; [done|done]].
  - by destruct l.
  - destruct l. cbn in *. subst. by split_and!.
  - split_and!; try done; [exists d; by destruct l|right; by destruct l].
  - by eapply callers_keep.
Qed.
Lemma exec_good e w : Inv w → step_ok e → good w (exec config last e w).
Proof.
  intros Hw He. destruct e; cbn [exec];
    try first [by apply supervisor_step_good | by apply connection_step_good | by apply caller_step_good | by apply coordinator_step_good].
  destruct ((0 <=? n) && (now w + n <=? last)) eqn:Hn; [|done]. destruct w, Hw. cbn in *. split; [|by split]. split; cbn; try done. lia.
Qed.
Lemma run_good es w : Inv w → Forall step_ok es → ∃ w', run config last es w = Ok w' ∧ Inv w' ∧ later w w'.
Proof.
  intros Hw Hes. revert w Hw. induction Hes as [|e es He _ IH]; intros w Hw; [by exists w|]. cbn [run].
  pose proof (exec_good e w Hw He) as Hg. destruct (exec config last e w) as [w1|u| |]; try done; [|by apply IH].
  destruct Hg as [Hw1 Hl1]. destruct (IH w1 Hw1) as (w' & ? & ? & ?). exists w'. split_and!; try done. by etrans.
Qed.
Lemma start_inv st t : inv st → t ≤ last → Inv (start st t).
Proof.
  intros Hst Ht. pose proof Hconfig as (_ & Hm & _). split; try done; [apply Hm|]. split_and!; try done. - by split; [|intros [? ?]].
  - by intros [? ?].
Qed.

(** ** Progress

    Once the server is sealed, every step of the supervisor and of the coordinator
    decreases [remaining], and no other step increases it. *)
Definition remaining (w : world) : Z :=
  blen (conns w) +
  match supervisor w with
  | Supervisor.Selecting => 6 | Supervisor.BackingOff => 5 | Supervisor.Top => 4 | Supervisor.Draining _ => 3
  | Supervisor.Aborting => 2 | Supervisor.Returned _ => if is_set (ServerLifecycle.outcome (lifecycle w)) then 0 else 1
  end.
Definition advances (e : step) : bool :=
  match e with
  | SupervisorCheck | SupervisorWoken | Accepted | AcceptFailed | BackoffOver | DrainedAll | DeadlineElapsed | AbortedAll
  | Joined _ | AbortJoined _ | Coordinate => true
  | _ => false
  end.
Lemma remaining_nonneg w : 0 ≤ remaining w.
Proof. unfold remaining. pose proof (blen_nonneg (conns w)). repeat case_match; lia. Qed.
(** What the other tasks leave alone *)
Definition same_progress (w w' : world) : Prop :=
  blen (conns w') = blen (conns w) ∧ supervisor w' = supervisor w ∧
  ServerLifecycle.outcome (lifecycle w') = ServerLifecycle.outcome (lifecycle w).
Lemma same_remaining w w' : same_progress w w' → remaining w' = remaining w.
Proof. intros (Hl & Hs & Ho). unfold remaining. by rewrite Hl, Hs, Ho. Qed.
Lemma checked_Ok {A} (r : res Empty_set A) k (w : world) : checked r k = Ok w → ∃ a, r = Ok a ∧ k a = Ok w.
Proof. destruct r as [a|[]| |]; try done. by exists a. Qed.
Lemma set_conn_same i x w : same_progress w (set_conn i x w).
Proof. destruct w. split_and!; try done. cbn. unfold blen. by rewrite length_insert. Qed.
Lemma finish_request_same i x w w' : finish_request i x w = Ok w' → same_progress w w'.
Proof.
  unfold finish_request. intros (l' & Hl & [= <-])%checked_Ok. destruct w as [l st n b s c k r a].
  split_and!; cbn; [unfold blen; by rewrite length_insert|done|]. destruct l. cbn in Hl. case_match; [|done]. by injection Hl as <-.
Qed.
Lemma connection_step_same e w w' : connection_step config e w = Ok w' → same_progress w w'.
Proof.
  intros He. unfold connection_step in He. destruct e; try done; destruct (conns w !! i) as [[]|] eqn:Hi; try done.
  - case_match; injection He as <-; apply set_conn_same.
  - case_match; [injection He as <-; apply set_conn_same|done].
  - injection He as <-. apply set_conn_same.
  - injection He as <-. apply set_conn_same.
  - unfold ServerLifecycle.admit_request in He. destruct w as [l st n b s c k r a]. cbn in *. case_bool_decide; injection He as <-.
    + split_and!; cbn; [unfold blen; by rewrite length_insert|done|by destruct l].
    + apply (set_conn_same i Conn.Ended (mk l st n b s c k r a)).
  - destruct w as [l st n b s c k r a]. destruct (handle_request _ _ _ _) as [next st']. apply checked_Ok in He as (nx & _ & He).
    destruct nx; [by apply finish_request_same in He| |by apply finish_request_same in He].
    injection He as <-. apply (set_conn_same i (Conn.Sending f0) (mk l st' n b s c k r a)).
  - destruct ok; [destruct w|]; by apply finish_request_same in He.
Qed.
Lemma caller_step_same e w w' : caller_step config last e w = Ok w' → same_progress w w'.
Proof.
  intros He. unfold caller_step in He. destruct w as [l st n b s c k r a]. cbn [callers lifecycle now] in He. destruct e; try done.
  - by injection He as <-.
  - destruct (k !! i) as [[]|]; try done. apply checked_Ok in He as (l' & Hl & [= <-]). split_and!; try done. cbn. destruct l. cbn in Hl.
    case_bool_decide; [destruct (saturating_instant_add _ _ _); try done; by injection Hl as <-|]. case_match; [by injection Hl as <-|done].
  - destruct (k !! i) as [[]|]; try done. apply checked_Ok in He as (l' & Hl & [= <-]). split_and!; try done. cbn. destruct l. cbn in Hl.
    case_match; [by injection Hl as <-|]. case_match; [by injection Hl as <-|done].
  - destruct (k !! i) as [[]|]; try done. case_match; [by injection He as <-|done].
Qed.
Lemma supervisor_decreases e w w' : Inv w → is_Some (ServerLifecycle.deadline (lifecycle w)) →
  supervisor_step config e w = Ok w' → remaining w' < remaining w.
Proof.
  intros Hw [d Hd] He. destruct w as [l st n b s c k r a]. unfold supervisor_step in He. unfold remaining.
  cbn [supervisor lifecycle conns now] in *. unfold ServerLifecycle.shutdown_deadline in He. rewrite Hd in He. cbn [is_set] in He.
  destruct e; try done; destruct s; try done.
  - injection He as <-. cbn. lia.
  - case_match; [|done]. injection He as <-. cbn. lia.
  - case_match; [done|]. injection He as <-. cbn. lia.
  - injection He as <-. cbn. lia.
  - injection He as <-. cbn. lia.
  - case_match; [|done]. injection He as <-. cbn. case_match; lia.
  - do 2 (case_match; try done). injection He as <-. cbn. lia.
  - case_match; [|done]. injection He as <-. cbn. case_match; lia.
  - destruct (c !! i) as [[]|] eqn:Hi; try done. injection He as <-. cbn. rewrite (blen_delete c i _ Hi). lia.
  - case_match; [done|]. destruct (c !! i) as [[]|] eqn:Hi; try done. injection He as <-. cbn. rewrite (blen_delete c i _ Hi). lia.
  - destruct (c !! i) as [x|] eqn:Hi; [|done]. apply checked_Ok in He as (l' & _ & [= <-]). unfold remaining. cbn.
    rewrite (blen_delete c i _ Hi). lia.
Qed.
Lemma exec_remaining e w w' : Inv w → is_Some (ServerLifecycle.deadline (lifecycle w)) → exec config last e w = Ok w' →
  if advances e then remaining w' < remaining w else remaining w' = remaining w.
Proof.
  intros Hw Hd He. destruct e; cbn [exec advances] in *;
    try first [by eapply supervisor_decreases | by eapply same_remaining, connection_step_same | by eapply same_remaining, caller_step_same].
  - unfold coordinator_step in He. destruct w as [l st n b s c k r a]. unfold remaining. cbn in *. destruct s as [| | | | |o]; try done.
    destruct (ServerLifecycle.outcome l) eqn:Ho; [done|]. case_match; [|done]. injection He as <-. destruct l. cbn. lia.
  - destruct (_ && _); [|done]. destruct w. injection He as <-. done.
Qed.
(** At the deadline the supervisor or the coordinator can always go on. *)
Lemma exec_enabled w d : Inv w → ServerLifecycle.deadline (lifecycle w) = Some d → d ≤ now w →
  ServerLifecycle.coordinator_started (lifecycle w) = true → ServerLifecycle.outcome (lifecycle w) = None →
  ∃ e w', advances e = true ∧ step_ok e ∧ exec config last e w = Ok w'.
Proof.
  intros Hw Hd Hnow Hc Ho. pose proof (inv_supervisor w Hw) as Hs. pose proof (inv_state w Hw) as (_ & Htx & _).
  assert (∀ e w', advances e = true → exec config last e w = Ok w' → ∃ e w', advances e = true ∧ step_ok e ∧ exec config last e w = Ok w') as Hgo
    by (intros e w' He Hex; exists e, w'; split_and!; [done|by destruct e|done]).
  destruct w as [l st n b s c k r a]. cbn in *. destruct s as [| | |d'| |o].
  - eapply (Hgo SupervisorCheck); [done|]. cbn. unfold ServerLifecycle.shutdown_deadline. by rewrite Hd.
  - eapply (Hgo SupervisorWoken); [done|]. cbn. by rewrite Htx, Hd.
  - by eapply (Hgo BackoffOver).
  - destruct (is_empty c) eqn:He.
    + eapply (Hgo DrainedAll); [done|]. cbn. by rewrite He.
    + eapply (Hgo DeadlineElapsed); [done|]. cbn. rewrite He. destruct Hs as (_ & _ & Hd'). assert (d' = d) as -> by congruence.
      by replace (d <=? n) with true by lia.
  - destruct c as [|x c]; [by eapply (Hgo AbortedAll)|]. pose proof (supervisor_step_good (AbortJoined 0) _ Hw) as Hg.
    destruct (supervisor_step config (AbortJoined 0) _) as [w'|u| |] eqn:He; try done; [by apply (Hgo (AbortJoined 0) w')|].
    cbn in He. by destruct (if Conn.guards x then _ else _) as [|[]| |].
  - eapply (Hgo Coordinate); [done|]. cbn. unfold coordinator_step. cbn. by rewrite Ho, Hc.
Qed.
Lemma shutdown_schedule k : ∀ w d, remaining w < Z.of_nat k → Inv w → ServerLifecycle.deadline (lifecycle w) = Some d → d ≤ now w →
  ServerLifecycle.coordinator_started (lifecycle w) = true →
  ∃ es w', Forall (λ e, advances e = true) es ∧ blen es ≤ remaining w ∧ run config last es w = Ok w' ∧
    is_Some (ServerLifecycle.outcome (lifecycle w')).
Proof.
  induction k as [|k IH]; intros w d Hk Hw Hd Hnow Hc; pose proof (remaining_nonneg w); [lia|].
  destruct (ServerLifecycle.outcome (lifecycle w)) eqn:Ho; [exists [], w; split_and!; try done; by eexists|].
  destruct (exec_enabled w d Hw Hd Hnow Hc Ho) as (e & w1 & He & Hok & Hex). pose proof (exec_good e w Hw Hok) as Hg. rewrite Hex in Hg.
  destruct Hg as [Hw1 [(Hd1 & Hc1 & _) _]]. pose proof (exec_remaining e w w1 Hw (mk_is_Some _ _ Hd) Hex) as Hr. rewrite He in Hr.
  assert (now w1 = now w) as Hn1.
  { clear -Hex He. destruct e; try done; cbn in Hex; destruct w as [l st n b s c k r a]; unfold supervisor_step, coordinator_step in Hex; cbn in Hex;
      destruct s; try done; repeat (case_match; try done); simplify_eq; try done; by apply checked_Ok in Hex as (? & _ & [= <-]). }
  destruct (IH w1 d) as (es & w' & Hes & Hl & Hrun & Hout); [lia|done|auto|lia|auto|].
  exists (e :: es), w'. split_and!; [by constructor|rewrite blen_cons; lia| |done]. cbn [run]. by rewrite Hex.
Qed.
End Invariant.

(** * Theorems *)

(** C7. Shutting down, under every interleaving of the supervisor, the connections
    and the callers of [stop]: nothing panics, and the count of active requests is
    the number of requests being served. Once one caller has sealed the server the
    deadline never changes, no connection is added and no request is admitted. When
    a caller has returned, every connection task has ended, none of them was cut
    short if the outcome is [Drained], and every caller gets the same outcome. *)
Theorem server_shutdown (S : Type) `{DataStore S} (inv : S → Prop) `{!StoreLaws S inv} (config : ServerConfig.t) (last t : Z) (st : S)
    (before after : list step) :
  config_ok config → inv st → t ≤ last → Forall step_ok before → Forall step_ok after →
  ∃ w w', run config last before (start st t) = Ok w ∧ run config last after w = Ok w' ∧
  let l := World.lifecycle w in
  ServerLifecycle.active_requests l = tally Conn.guards (World.conns w) ∧
  (∀ d, ServerLifecycle.deadline l = Some d →
     ServerLifecycle.deadline (World.lifecycle w') = Some d ∧ blen (World.conns w') ≤ blen (World.conns w) ∧
     ServerLifecycle.active_requests (World.lifecycle w') ≤ ServerLifecycle.active_requests l) ∧
  (∀ i o, World.callers w !! i = Some (Caller.Returned o) →
     World.conns w = [] ∧ (o = ShutdownOutcome.Drained → World.aborted w = 0) ∧
     ∀ j o', World.callers w' !! j = Some (Caller.Returned o') → o' = o).
Proof.
  intros Hc Hst Ht Hb Ha. destruct (run_good inv config Hc last before _ (start_inv inv config Hc last st t Hst Ht) Hb) as (w & Hw & HI & _).
  destruct (run_good inv config Hc last after w HI Ha) as (w' & Hw' & HI' & (Hd & _ & Ho) & Hl). exists w, w'. split; [done|]. split; [done|].
  cbn zeta. split; [apply (inv_active _ _ _ _ HI)|]. split.
  - intros d Hdl. split; [by apply Hd|]. rewrite (inv_active _ _ _ _ HI), (inv_active _ _ _ _ HI'). apply Hl. by eexists.
  - intros i o Hi. pose proof (proj1 (Forall_lookup _ _) (inv_callers _ _ _ _ HI) _ _ Hi) as Hout. cbn in Hout.
    pose proof (inv_supervisor _ _ _ _ HI) as Hs. destruct (World.supervisor w) as [| | | | |o']; cbn in Hs; try (destruct Hs; congruence); try (destruct Hs as (? & ? & ?); congruence).
    destruct Hs as (? & _ & Habort & [?|?]); [congruence|]. assert (o' = o) as -> by congruence. split_and!; [done..|].
    intros j o' Hj. pose proof (proj1 (Forall_lookup _ _) (inv_callers _ _ _ _ HI') _ _ Hj) as Hout'. cbn in Hout'. rewrite (Ho o Hout) in Hout'. congruence.
Qed.
(** A server with one connection, a request and a call of [stop] while it is served *)
Definition stopping : list step :=
  [SupervisorCheck; Accepted; ConnCheck 0; ConnReceived 0 (Frame.mk (FrameHeader.Mbap (MbapHeader.mk 7 0 6 1)) [3; 0; 0; 0; 2]);
   ConnAdmit 0; StopCalled; StopSeal 0; StopCoordinate 0].
Definition small_config : ServerConfig.t := ServerConfig.mk 1 64 16 10000000000 small_device.
Lemma small_config_ok : config_ok small_config.
Proof. split_and!; [done..|]. apply small_device_ok. Qed.
Lemma stopping_ok : Forall step_ok stopping.
Proof. repeat constructor; cbn; unfold byte_ok; lia. Qed.
Lemma server_shutdown_witness : ∃ w w',
  run small_config (2 ^ 63) stopping (start small_store 0) = Ok w ∧
  run small_config (2 ^ 63) [ConnServe 0; ConnSent 0 true; ConnCheck 0; SupervisorCheck; Joined 0; DrainedAll; Coordinate; StopReturned 0] w = Ok w' ∧
  ServerLifecycle.active_requests (World.lifecycle w) = 1 ∧ World.callers w' = [Caller.Returned ShutdownOutcome.Drained].
Proof.
  destruct (server_shutdown _ store_ok small_config (2 ^ 63) 0 small_store stopping
    [ConnServe 0; ConnSent 0 true; ConnCheck 0; SupervisorCheck; Joined 0; DrainedAll; Coordinate; StopReturned 0]
    small_config_ok small_store_ok ltac:(lia) stopping_ok ltac:(repeat constructor)) as (w & w' & Hw & Hw' & _).
  exists w, w'. split; [exact Hw|]. split; [exact Hw'|]. vm_compute in Hw. injection Hw as <-. vm_compute in Hw'. injection Hw' as <-.
  split; reflexivity.
Defined.

(** C36. Shutting down ends: from every state a run can reach, once a caller has
    started the coordinator and the deadline has passed, steps of the supervisor and
    the coordinator alone, at most [remaining] of them, lead to the outcome; and
    whatever the other tasks do in between, each of those steps decreases
    [remaining] and no other step increases it. *)
Theorem shutdown_completes (S : Type) `{DataStore S} (inv : S → Prop) `{!StoreLaws S inv} (config : ServerConfig.t) (last t : Z) (st : S)
    (es : list step) (w : World.t S) (d : Z) :
  config_ok config → inv st → t ≤ last → Forall step_ok es → run config last es (start st t) = Ok w →
  ServerLifecycle.deadline (World.lifecycle w) = Some d → d ≤ World.now w →
  ServerLifecycle.coordinator_started (World.lifecycle w) = true →
  (∃ schedule w', Forall (λ e, advances e = true) schedule ∧ blen schedule ≤ remaining w ∧
     run config last schedule w = Ok w' ∧ is_Some (ServerLifecycle.outcome (World.lifecycle w'))) ∧
  (∀ e w', exec config last e w = Ok w' → if advances e then remaining w' < remaining w else remaining w' = remaining w).
Proof.
  intros Hc Hst Ht Hes Hrun Hd Hnow Hco. destruct (run_good inv config Hc last es _ (start_inv inv config Hc last st t Hst Ht) Hes) as (w1 & Hw1 & HI & _).
  rewrite Hrun in Hw1. injection Hw1 as <-. split.
  - apply (shutdown_schedule inv config Hc last (Datatypes.S (Z.to_nat (remaining w))) w d); try done. pose proof (remaining_nonneg w). lia.
  - intros e w' He. eapply exec_remaining; done || by eexists.
Qed.
Lemma shutdown_completes_witness : ∃ w schedule w',
  run small_config (2 ^ 63) (stopping ++ [Elapsed 10000000000]) (start small_store 0) = Ok w ∧
  blen schedule ≤ 5 ∧ run small_config (2 ^ 63) schedule w = Ok w' ∧ is_Some (ServerLifecycle.outcome (World.lifecycle w')).
Proof.
  destruct (run small_config (2 ^ 63) (stopping ++ [Elapsed 10000000000]) (start small_store 0)) as [w|e| |] eqn:Hw; try (vm_compute in Hw; discriminate).
  destruct (shutdown_completes _ store_ok small_config (2 ^ 63) 0 small_store (stopping ++ [Elapsed 10000000000]) w 10000000000
    small_config_ok small_store_ok ltac:(lia) ltac:(apply Forall_app; split; [apply stopping_ok|repeat constructor]) Hw
    ltac:(vm_compute in Hw; injection Hw as <-; reflexivity) ltac:(vm_compute in Hw; injection Hw as <-; vm_compute; discriminate)
    ltac:(vm_compute in Hw; injection Hw as <-; reflexivity)) as [(es & w' & _ & Hl & Hrun & Hout) _].
  exists w, es, w'. split; [reflexivity|]. split; [|split; [exact Hrun|exact Hout]].
  etransitivity; [exact Hl|]. vm_compute in Hw. injection Hw as <-. vm_compute. discriminate.
Defined.
