(* ===== verification/Pool.v ===== *)
(** * The connection pool (crates/rusty-modbus-pool: src/pool.rs, connection.rs, client_handoff.rs, health.rs, backoff.rs, config.rs)

    The accounting of the pool behind its mutex, the owners of capacity outside it
    (pending reservations, raw leases, client sessions) and what happens to the
    accounting when they are committed, dropped or returned. Every method that
    takes the lock once is one action on the shared state; an action that takes it
    at several points is given as its parts, which other tasks may interleave.

    A [SocketAddr] is only compared, and so is a connection (its two TCP halves):
    both are integers. What the clock and a socket say when they are asked is an
    argument: [now], and [obs], the result of [inspect_idle_tcp] by connection.
    Counters of leases are unbounded here; each lease counted is an object in
    memory, so a [usize] does not overflow. *)
From stdpp Require Import gmap.
From S2P Require Import Prelude Types Validate Session Transaction.

Module TcpIdleObservation.
Inductive t : Type :=
  | NoAdverseSignal
  | QueuedInput
  | PeerClosed
  | SocketError (kind : Z)
  | MismatchedHalves.
End TcpIdleObservation.
Abbreviation Observation := TcpIdleObservation.t.

Module PoolError.
Inductive t : Type :=
  | Exhausted
  | ConnectionFailed (e : TransportError.t)
  | Timeout
  | ShuttingDown.
End PoolError.

Module PoolEntry.
Record t : Type := mk { addr : Z; conn : Z; last_used : Z; is_priority : bool }.
Definition touch (now : Z) '(mk a c _ p) : t := mk a c now p.
End PoolEntry.

(** ** config.rs *)
Module PriorityProbeOperation.
Inductive t : Type := ReadCoils | ReadDiscreteInputs | ReadHoldingRegisters | ReadInputRegisters.
Definition maximum_quantity (self : t) : Z :=
  match self with
  | ReadCoils | ReadDiscreteInputs => 2000
  | ReadHoldingRegisters | ReadInputRegisters => 125
  end.
End PriorityProbeOperation.

Module PriorityProbeConfigError.
Inductive t : Type :=
  | InvalidUnitId (unit_id : Z)
  | InvalidQuantity (operation : PriorityProbeOperation.t) (quantity maximum : Z)
  | AddressSpanExceeded (address quantity : Z)
  | ZeroInterval
  | ZeroTimeout.
End PriorityProbeConfigError.

Module PriorityProbeConfig.
Record t : Type := mk {
  operation : PriorityProbeOperation.t;
  unit_id : Z;
  address : Z;
  quantity : Z;
  interval : Z;
  timeout : Z;
}.
Definition new (operation : PriorityProbeOperation.t) (unit_id address quantity interval timeout : Z)
    : res PriorityProbeConfigError.t t :=
  if negb (UnitId.is_valid_slave unit_id) && negb (UnitId.is_tcp_device unit_id)
  then Err (PriorityProbeConfigError.InvalidUnitId unit_id) else
  let maximum := PriorityProbeOperation.maximum_quantity operation in
  if negb ((1 <=? quantity) && (quantity <=? maximum))
  then Err (PriorityProbeConfigError.InvalidQuantity operation quantity maximum) else
  if 0x10000 <? address + quantity
  then Err (PriorityProbeConfigError.AddressSpanExceeded address quantity) else
  if interval =? 0 then Err PriorityProbeConfigError.ZeroInterval else
  if timeout =? 0 then Err PriorityProbeConfigError.ZeroTimeout else
  Ok (mk operation unit_id address quantity interval timeout).
End PriorityProbeConfig.

(** ** backoff.rs

    [scale] is [Duration::mul_f64] by the configured multiplier. *)
Module BackoffConfig.
Record t : Type := mk { initial_delay : Z; max_delay : Z; scale : Z → Z }.
(** 100 ms to 30 s, doubling *)
Definition default : t := mk 100000000 30000000000 (λ d, 2 * d).
End BackoffConfig.
Module Backoff.
Record t : Type := mk { config : BackoffConfig.t; current_delay : Z }.
Definition new (config : BackoffConfig.t) : t := mk config (BackoffConfig.initial_delay config).
Definition next_delay {E} : ST t E Z :=
  self <- st_get;;
  let delay := current_delay self in
  let config := config self in
  st_modify (λ _, mk config (Z.min (BackoffConfig.scale config (current_delay self)) (BackoffConfig.max_delay config)));;;
  st_ret delay.
Definition reset {E} : ST t E unit :=
  st_modify (λ self, mk (config self) (BackoffConfig.initial_delay (config self))).
End Backoff.

(** The pool's configuration but for the TCP settings; durations in nanoseconds *)
Module PriorityDevice.
Record t : Type := mk { addr : Z; max_connections : Z; probe : option PriorityProbeConfig.t }.
Definition new (addr max_connections : Z) : t := mk addr max_connections None.
End PriorityDevice.

Module PoolConfig.
Record t : Type := mk {
  max_connections : Z;
  priority_devices : list PriorityDevice.t;
  pre_connect : bool;
  priority_replenishment : bool;
  idle_timeout : Z;
  health_check_interval : Z;
  backoff : BackoffConfig.t;
}.
Definition default : t := mk 64 [] true false 300000000000 60000000000 BackoffConfig.default.
End PoolConfig.

(** ** The accounting *)
Definition u64_saturating_add (a b : Z) : Z := Z.min (a + b) u64_max.
Definition saturating_sub_1 (a : Z) : Z := Z.max 0 (a - 1).

Module PoolMetricsSnapshot.
Record t : Type := mk {
  active_connections : Z;
  idle_connections : Z;
  connections_created : Z;
  connection_failures : Z;
  connections_retired : Z;
}.
End PoolMetricsSnapshot.

Module PoolInner.
Record t : Type := mk {
  idle : list PoolEntry.t;
  active_non_priority : Z;
  active_priority : gmap Z Z;
  active_connections : Z;
  shutting_down : bool;
  connections_created : Z;
  connection_failures : Z;
  connections_retired : Z;
}.
Definition set_idle (x : list PoolEntry.t) '(mk _ n p c d cr cf re) : t := mk x n p c d cr cf re.

Definition active_total (self : t) : Z := active_connections self.
Definition priority_idle_count (addr : Z) (self : t) : Z :=
  blen (filter (λ e, PoolEntry.is_priority e && (PoolEntry.addr e =? addr)) (idle self)).
Definition priority_total (addr : Z) (self : t) : Z :=
  default 0 (active_priority self !! addr) + priority_idle_count addr self.
Definition non_priority_total (self : t) : Z :=
  active_non_priority self + blen (filter (λ e, negb (PoolEntry.is_priority e)) (idle self)).

Definition charge_active_for (is_priority : bool) (addr : Z) '(mk i n p c d cr cf re) : t :=
  if is_priority then mk i n (<[addr := default 0 (p !! addr) + 1]> p) (c + 1) d cr cf re
  else mk i (n + 1) p (c + 1) d cr cf re.
Definition charge_active (entry : PoolEntry.t) (self : t) : t :=
  charge_active_for (PoolEntry.is_priority entry) (PoolEntry.addr entry) self.
Definition release_active (is_priority : bool) (addr : Z) '(mk i n p c d cr cf re) : bool * t :=
  if is_priority then
    match p !! addr with
    | Some k =>
        let released := negb (k =? 0) in
        let k := saturating_sub_1 k in
        let p := if k =? 0 then delete addr p else <[addr := k]> p in
        (released, mk i n p (if released then saturating_sub_1 c else c) d cr cf re)
    | None => (false, mk i n p c d cr cf re)
    end
  else
    let released := negb (n =? 0) in
    (released, mk i (saturating_sub_1 n) p (if released then saturating_sub_1 c else c) d cr cf re).
Definition record_connection_created '(mk i n p c d cr cf re) : t := mk i n p c d (u64_saturating_add cr 1) cf re.
Definition record_connection_failure '(mk i n p c d cr cf re) : t := mk i n p c d cr (u64_saturating_add cf 1) re.
Definition record_connection_retired '(mk i n p c d cr cf re) : t := mk i n p c d cr cf (u64_saturating_add re 1).
(** [u64::try_from(count).unwrap_or(u64::MAX)] *)
Definition record_connections_retired (count : Z) '(mk i n p c d cr cf re) : t :=
  mk i n p c d cr cf (u64_saturating_add re (Z.min count u64_max)).
Definition retire_active (is_priority : bool) (addr : Z) (self : t) : t :=
  let '(released, self) := release_active is_priority addr self in
  if released then record_connection_retired self else self.
Definition metrics (self : t) : PoolMetricsSnapshot.t :=
  PoolMetricsSnapshot.mk (active_total self) (blen (idle self)) (connections_created self)
    (connection_failures self) (connections_retired self).
Definition empty : t := mk [] 0 ∅ 0 false 0 0 0.
End PoolInner.
Import PoolInner.

(** What the tasks share: the state behind the mutex and the [Notify], of which the
    number of broadcasts is kept *)
Module ConnectionPool.
Record t : Type := mk { inner : PoolInner.t; wakes : Z }.
Definition new : t := mk PoolInner.empty 0.
End ConnectionPool.
Definition locked {E A} (f : PoolInner.t → A * PoolInner.t) : ST ConnectionPool.t E A :=
  λ p, let '(a, i) := f (ConnectionPool.inner p) in (Ok a, ConnectionPool.mk i (ConnectionPool.wakes p)).
Definition notify_waiters {E} : ST ConnectionPool.t E unit :=
  st_modify (λ p, ConnectionPool.mk (ConnectionPool.inner p) (ConnectionPool.wakes p + 1)).

(** [Vec::swap_remove] *)
Definition swap_remove {E A} (i : Z) (l : list A) : res E (A * list A) :=
  match get l i, last l with
  | Some x, Some y => Ok (x, take (length l - 1) (<[Z.to_nat i := y]> l))
  | _, _ => Panic
  end.

(** ** Leases (connection.rs) *)
Module LeaseInvalidationReason.
Inductive t : Type := CallerDirected | Cancelled | Timeout | Transport | Protocol.
Definition suggested_for_transport_error (error : TransportError.t) : option t :=
  match error with
  | TransportError.Io | TransportError.Disconnected => Some Transport
  | TransportError.Timeout => Some Timeout
  | TransportError.Frame _ => Some Protocol
  | TransportError.AccessDenied | TransportError.TlsHandshake _ | TransportError.AuthorizationDenied _ _ => None
  end.
End LeaseInvalidationReason.

Module ReusableClientHandoffError.
Inductive t : Type := RawTransportAccessed | LeaseUnavailable.
End ReusableClientHandoffError.

(** One active charge: of the vault of a reusable session, or of a client that
    retires its connection when both halves are gone. The drop of either releases
    it once. *)
Module ActiveCapacityGuard.
Record t : Type := mk { addr : Z; is_priority : bool; armed : bool }.
Definition charge_exists (self : t) (inner : PoolInner.t) : bool :=
  if is_priority self
  then match active_priority inner !! addr self with Some count => 0 <? count | None => false end
  else 0 <? active_non_priority inner.
Definition drop {E} (self : t) : ST ConnectionPool.t E unit :=
  if negb (armed self) then st_ret tt else
  pool <- st_get;;
  st_lift (debug_assert (charge_exists self (ConnectionPool.inner pool)));;;
  locked (λ inner, (tt, retire_active (is_priority self) (addr self) inner));;;
  notify_waiters.
End ActiveCapacityGuard.
Module RetirementGuard.
Record t : Type := mk { addr : Z; is_priority : bool }.
Definition drop {E} (self : t) : ST ConnectionPool.t E unit :=
  locked (λ inner, (tt, retire_active (is_priority self) (addr self) inner));;;
  notify_waiters.
End RetirementGuard.
(** The halves and the charge of a reusable session; each part can be missing *)
Module ReusableVault.
Record t : Type := mk { halves : option Z; capacity : option ActiveCapacityGuard.t }.
Definition drop {E} (self : t) : ST ConnectionPool.t E unit :=
  match capacity self with Some guard => ActiveCapacityGuard.drop guard | None => st_ret tt end.
End ReusableVault.

Module PooledConnection.
Record t : Type := mk {
  entry : option PoolEntry.t;
  invalidation_reason : option LeaseInvalidationReason.t;
  raw_accessed : bool;
}.
Definition new (entry : PoolEntry.t) : t := mk (Some entry) None false.

Definition retire_entry {E} (self : t) : ST ConnectionPool.t E (option bool * t) :=
  match entry self with
  | None => st_ret (None, self)
  | Some entry =>
      let is_priority := PoolEntry.is_priority entry in
      let addr := PoolEntry.addr entry in
      locked (λ inner, (tt, retire_active is_priority addr inner));;;
      notify_waiters;;;
      st_ret (Some is_priority, mk None (invalidation_reason self) (raw_accessed self))
  end.
Definition invalidate {E} (reason : LeaseInvalidationReason.t) (self : t) : ST ConnectionPool.t E t :=
  match invalidation_reason self with
  | Some _ => st_ret self
  | None =>
      match entry self with
      | None => st_ret self
      | Some _ =>
          r <- retire_entry (mk (entry self) (Some reason) (raw_accessed self));;
          st_ret r.2
      end
  end.
(** [sink] and [stream]: the half, or a panic when the lease is gone *)
Definition raw_half {E} (self : t) : res E Z * t :=
  let self := mk (entry self) (invalidation_reason self) true in
  match entry self with
  | Some entry => (Ok (PoolEntry.conn entry), self)
  | None => (Panic, self)
  end.
Definition drop {E} (self : t) : ST ConnectionPool.t E unit := retire_entry self;;; st_ret tt.
(** The clients themselves are not part of the pool: the charge they carry is *)
Definition into_retiring_client {E} (self : t) : ST ConnectionPool.t E (RetirementGuard.t * Z) :=
  match entry self with
  | None => st_panic
  | Some entry => st_ret (RetirementGuard.mk (PoolEntry.addr entry) (PoolEntry.is_priority entry), PoolEntry.conn entry)
  end.
Definition into_reusable_client (self : t) : ST ConnectionPool.t ReusableClientHandoffError.t ReusableVault.t :=
  if raw_accessed self then
    retire_entry self;;;
    st_err ReusableClientHandoffError.RawTransportAccessed
  else
    match entry self with
    | None => st_err ReusableClientHandoffError.LeaseUnavailable
    | Some entry =>
        st_ret (ReusableVault.mk (Some (PoolEntry.conn entry))
          (Some (ActiveCapacityGuard.mk (PoolEntry.addr entry) (PoolEntry.is_priority entry) true)))
    end.
End PooledConnection.

(** ** Returning a session (client_handoff.rs) *)
Module PooledClientReturnOutcome.
Inductive t : Type :=
  | ReturnedToIdle
  | Retired (verdict : SessionReuseVerdict.t)
  | PoolShuttingDown
  | TransportRecoveryFailed.
End PooledClientReturnOutcome.

Module RecoveredLease.
Record t : Type := mk { entry : option PoolEntry.t; capacity : option ActiveCapacityGuard.t }.

(** [ReusableVault::recover]: all parts or none *)
Definition recover (now : Z) (vault : ReusableVault.t) : option t * ReusableVault.t :=
  match ReusableVault.halves vault, ReusableVault.capacity vault with
  | Some conn, Some guard =>
      (Some (mk (Some (PoolEntry.mk (ActiveCapacityGuard.addr guard) conn now (ActiveCapacityGuard.is_priority guard)))
               (Some guard)),
       ReusableVault.mk None None)
  | _, _ => (None, vault)
  end.
Definition drop {E} (self : t) : ST ConnectionPool.t E unit :=
  match capacity self with Some guard => ActiveCapacityGuard.drop guard | None => st_ret tt end.
(** The lease is dropped at the end, with what is left of it *)
Definition return_to_pool {E} (now : Z) (self : t) : ST ConnectionPool.t E PooledClientReturnOutcome.t :=
  match entry self, capacity self with
  | Some entry, Some guard =>
      st_lift (debug_assert (PoolEntry.addr entry =? ActiveCapacityGuard.addr guard));;;
      st_lift (debug_assert (eqb (PoolEntry.is_priority entry) (ActiveCapacityGuard.is_priority guard)));;;
      pool <- st_get;;
      st_lift (debug_assert (ActiveCapacityGuard.charge_exists guard (ConnectionPool.inner pool)));;;
      shutting_down <- locked (λ inner,
        let inner := if PoolInner.shutting_down inner
                     then retire_active (ActiveCapacityGuard.is_priority guard) (ActiveCapacityGuard.addr guard) inner
                     else (release_active (ActiveCapacityGuard.is_priority guard) (ActiveCapacityGuard.addr guard) inner).2 in
        let shutting_down := PoolInner.shutting_down inner in
        let inner := if shutting_down then inner else set_idle (idle inner ++ [PoolEntry.touch now entry]) inner in
        (shutting_down, inner));;
      notify_waiters;;;
      st_ret (if shutting_down then PooledClientReturnOutcome.PoolShuttingDown
              else PooledClientReturnOutcome.ReturnedToIdle)
  | _, _ => drop self;;; st_ret PooledClientReturnOutcome.TransportRecoveryFailed
  end.
End RecoveredLease.

(** [PooledClientSession::shutdown_and_return] once the client has shut down: its
    verdict decides, and the vault is dropped at the end. *)
Definition shutdown_and_return {E} (now : Z) (verdict : SessionReuseVerdict.t) (vault : ReusableVault.t)
    : ST ConnectionPool.t E PooledClientReturnOutcome.t :=
  r <- match verdict with
       | SessionReuseVerdict.ReuseEligible =>
           let '(recovered, vault) := RecoveredLease.recover now vault in
           match recovered with
           | Some recovered => outcome <- RecoveredLease.return_to_pool now recovered;; st_ret (outcome, vault)
           | None => st_ret (PooledClientReturnOutcome.TransportRecoveryFailed, vault)
           end
       | _ => st_ret (PooledClientReturnOutcome.Retired verdict, vault)
       end;;
  ReusableVault.drop r.2;;;
  st_ret r.1.

(** ** Reservations (pool.rs) *)
Module PendingReservation.
Record t : Type := mk { addr : Z; is_priority : bool; evicted : option PoolEntry.t; committed : bool }.
Definition new (addr : Z) (is_priority : bool) (evicted : option PoolEntry.t) : t := mk addr is_priority evicted false.

Definition commit {E} (entry : PoolEntry.t) (self : t) : ST ConnectionPool.t E PooledConnection.t :=
  locked (λ inner,
    let inner := record_connection_created inner in
    (tt, match evicted self with Some _ => record_connection_retired inner | None => inner end));;;
  st_ret (PooledConnection.new entry).
Definition commit_priority_idle_if_needed {E} (entry : PoolEntry.t) (self : t) : ST ConnectionPool.t E unit :=
  st_lift (debug_assert (is_priority self));;;
  st_lift (debug_assert match evicted self with None => true | Some _ => false end);;;
  st_lift (debug_assert (PoolEntry.is_priority entry));;;
  st_lift (debug_assert (PoolEntry.addr entry =? addr self));;;
  locked (λ inner,
    let inner := (release_active (is_priority self) (addr self) inner).2 in
    if shutting_down inner || negb (priority_idle_count (addr self) inner =? 0) then (tt, inner)
    else let inner := record_connection_created inner in (tt, set_idle (idle inner ++ [entry]) inner));;;
  notify_waiters.
Definition rollback {E} (connection_failed : bool) (self : t) : ST ConnectionPool.t E t :=
  locked (λ inner,
    let inner := if connection_failed then record_connection_failure inner else inner in
    let inner := (release_active (is_priority self) (addr self) inner).2 in
    (tt, match evicted self with
         | Some entry => if shutting_down inner then record_connection_retired inner
                         else set_idle (idle inner ++ [entry]) inner
         | None => inner
         end));;;
  notify_waiters;;;
  st_ret (mk (addr self) (is_priority self) None true).
Definition drop {E} (self : t) : ST ConnectionPool.t E unit :=
  if committed self then st_ret tt else rollback false self;;; st_ret tt.
(** The reservation is dropped when [fail] returns *)
Definition fail {E} (self : t) : ST ConnectionPool.t E unit := self <- rollback true self;; drop self.
End PendingReservation.

Module Acquisition.
Inductive t : Type := Reused (connection : PooledConnection.t) | Reserved (reservation : PendingReservation.t).
End Acquisition.

(** ** Passive validation of idle entries *)
Module IdleEntryInspection.
Inductive t : Type := Retain (entry : PoolEntry.t) | Retire (entry : PoolEntry.t) (observation : Observation).
End IdleEntryInspection.
Definition inspect_idle_entry (obs : Z → Observation) (entry : PoolEntry.t) : IdleEntryInspection.t :=
  match obs (PoolEntry.conn entry) with
  | TcpIdleObservation.NoAdverseSignal => IdleEntryInspection.Retain entry
  | observation => IdleEntryInspection.Retire entry observation
  end.
Definition finish_passive_retirements {E} (retirements : list (PoolEntry.t * Observation)) : ST ConnectionPool.t E unit :=
  if is_empty retirements then st_ret tt else notify_waiters.

(** [while let Some(idx) = idle.iter().position(matches) { .. }] of
    [try_acquire_locked] and [claim_priority_probe]: the first clean match, charged
    active, and the adverse ones before it, retired. A round removes an entry. *)
Fixpoint checkout_idle {E} (fuel : nat) (matches : PoolEntry.t → bool) (obs : Z → Observation) (now : Z)
    (retirements : list (PoolEntry.t * Observation)) (inner : PoolInner.t)
    : res E (option PoolEntry.t * list (PoolEntry.t * Observation)) * PoolInner.t :=
  match fuel with
  | O => (OutOfFuel, inner)
  | S fuel =>
      match position matches (idle inner) with
      | None => (Ok (None, retirements), inner)
      | Some idx =>
          match swap_remove (E:=E) idx (idle inner) with
          | Ok (entry, rest) =>
              let inner := set_idle rest inner in
              match inspect_idle_entry obs entry with
              | IdleEntryInspection.Retain entry =>
                  let entry := PoolEntry.touch now entry in
                  (Ok (Some entry, retirements), charge_active entry inner)
              | IdleEntryInspection.Retire entry observation =>
                  checkout_idle fuel matches obs now (retirements ++ [(entry, observation)])
                    (record_connection_retired inner)
              end
          | Err e => (Err e, inner)
          | Panic => (Panic, inner)
          | OutOfFuel => (OutOfFuel, inner)
          end
      end
  end.
Definition checkout {E} (matches : PoolEntry.t → bool) (obs : Z → Observation) (now : Z)
    : ST ConnectionPool.t E (option PoolEntry.t * list (PoolEntry.t * Observation)) :=
  λ p, let '(r, inner) := checkout_idle (S (length (idle (ConnectionPool.inner p)))) matches obs now [] (ConnectionPool.inner p) in
       (r, ConnectionPool.mk inner (ConnectionPool.wakes p)).

(** The oldest idle non-priority entry *)
Fixpoint find_evictable_from (i : Z) (entries : list PoolEntry.t) (oldest_time : Z) (oldest_idx : option Z) : option Z :=
  match entries with
  | [] => oldest_idx
  | entry :: entries =>
      if negb (PoolEntry.is_priority entry) && (PoolEntry.last_used entry <? oldest_time)
      then find_evictable_from (i + 1) entries (PoolEntry.last_used entry) (Some i)
      else find_evictable_from (i + 1) entries oldest_time oldest_idx
  end.
Definition find_evictable (now : Z) (inner : PoolInner.t) : option Z := find_evictable_from 0 (idle inner) now None.

(** ** ConnectionPool *)
Section Acquire.
Context (config : PoolConfig.t).

Definition is_priority_addr (addr : Z) : bool :=
  existsb (λ pd, PriorityDevice.addr pd =? addr) (PoolConfig.priority_devices config).
Definition priority_cap (addr : Z) : Z :=
  match List.find (λ pd, PriorityDevice.addr pd =? addr) (PoolConfig.priority_devices config) with
  | Some pd => PriorityDevice.max_connections pd
  | None => 0
  end.

(** A slot in the budget of the address, when there is one *)
Definition reserve_slot {E} (now addr : Z) (is_priority : bool) : ST ConnectionPool.t E (option PendingReservation.t) :=
  p <- st_get;;
  let inner := ConnectionPool.inner p in
  let charge evicted inner :=
    locked (λ _, (Some (PendingReservation.new addr is_priority evicted), charge_active_for is_priority addr inner)) in
  if is_priority then
    if priority_cap addr <=? priority_total addr inner then st_ret None else charge None inner
  else
    if non_priority_total inner <? PoolConfig.max_connections config then charge None inner else
    match find_evictable now inner with
    | Some idx =>
        r <- st_lift (swap_remove idx (idle inner));;
        charge (Some r.1) (set_idle r.2 inner)
    | None => st_ret None
    end.
Definition try_acquire_locked {E} (obs : Z → Observation) (now addr : Z) (is_priority : bool)
    : ST ConnectionPool.t E (option Acquisition.t * list (PoolEntry.t * Observation)) :=
  r <- checkout (λ entry, PoolEntry.addr entry =? addr) obs now;;
  let '(reused, retirements) := r in
  match reused with
  | Some entry =>
      (if PoolEntry.is_priority entry then notify_waiters else st_ret tt);;;
      st_ret (Some (Acquisition.Reused (PooledConnection.new entry)), retirements)
  | None =>
      reservation <- reserve_slot now addr is_priority;;
      st_ret (option_map Acquisition.Reserved reservation, retirements)
  end.

(** One attempt under the lock, and the retirements after it *)
Definition attempt_acquire (obs : Z → Observation) (now addr : Z) : ST ConnectionPool.t PoolError.t (option Acquisition.t) :=
  let is_priority := is_priority_addr addr in
  p <- st_get;;
  if shutting_down (ConnectionPool.inner p) then st_err PoolError.ShuttingDown else
  r <- try_acquire_locked obs now addr is_priority;;
  finish_passive_retirements r.2;;;
  st_ret r.1.
Definition acquire_immediate (obs : Z → Observation) (now addr : Z) : ST ConnectionPool.t PoolError.t Acquisition.t :=
  acquisition <- attempt_acquire obs now addr;;
  st_lift (ok_or acquisition PoolError.Exhausted).
(** One round of the loop of [acquire_with_timeout]; [None] waits for a wake *)
Definition acquire_retry (obs : Z → Observation) (now addr deadline : Z) (waited : bool)
    : ST ConnectionPool.t PoolError.t (option Acquisition.t) :=
  let is_priority := is_priority_addr addr in
  p <- st_get;;
  if shutting_down (ConnectionPool.inner p) then st_err PoolError.ShuttingDown else
  if waited && (deadline <=? now) then st_err PoolError.Timeout else
  r <- try_acquire_locked obs now addr is_priority;;
  finish_passive_retirements r.2;;;
  st_ret r.1.
(** [finish_acquisition]: [connected] is what the connector resolved to, a
    connection or an error *)
Definition finish_acquisition (now : Z) (connected : Z + TransportError.t) (acquisition : Acquisition.t)
    : ST ConnectionPool.t PoolError.t PooledConnection.t :=
  match acquisition with
  | Acquisition.Reused connection => st_ret connection
  | Acquisition.Reserved reservation =>
      match connected with
      | inl conn =>
          PendingReservation.commit (PoolEntry.mk (PendingReservation.addr reservation) conn now
            (PendingReservation.is_priority reservation)) reservation
      | inr e =>
          PendingReservation.fail reservation;;;
          st_err (PoolError.ConnectionFailed e)
      end
  end.
Definition shutdown {E} : ST ConnectionPool.t E unit :=
  locked (λ '(mk i n p c _ cr cf re),
    let inner := record_connections_retired (blen i) (mk i n p c true cr cf re) in
    (tt, set_idle [] inner));;;
  notify_waiters.

(** *** Priority maintenance *)
Definition priority_background_required : bool :=
  PoolConfig.pre_connect config || PoolConfig.priority_replenishment config
  || existsb (λ device, match PriorityDevice.probe device with Some _ => true | None => false end)
       (PoolConfig.priority_devices config).
End Acquire.

Module PriorityMaintenanceReservation.
Inductive t : Type := ShuttingDown | Unavailable | Reserved (reservation : PendingReservation.t).
End PriorityMaintenanceReservation.
Definition reserve_priority_maintenance {E} (addr cap : Z) : ST ConnectionPool.t E PriorityMaintenanceReservation.t :=
  locked (λ pool,
    if shutting_down pool then (PriorityMaintenanceReservation.ShuttingDown, pool) else
    if negb (priority_idle_count addr pool =? 0) || (cap <=? priority_total addr pool)
    then (PriorityMaintenanceReservation.Unavailable, pool)
    else (PriorityMaintenanceReservation.Reserved (PendingReservation.new addr true None), charge_active_for true addr pool)).

Module PriorityConnectOutcome.
Inductive t : Type := Stopped | Connected | Failed.
End PriorityConnectOutcome.
(** [PriorityMaintenanceTask::connect]: [None] when the stop wins the race with the
    connector, [stopped] when it is observed after the connector resolved *)
Definition maintenance_connect {E} (now : Z) (connected : option (Z + TransportError.t)) (stopped : bool)
    (reservation : PendingReservation.t) : ST ConnectionPool.t E PriorityConnectOutcome.t :=
  match connected with
  | None => PendingReservation.drop reservation;;; st_ret PriorityConnectOutcome.Stopped
  | Some (inr _) => PendingReservation.fail reservation;;; st_ret PriorityConnectOutcome.Failed
  | Some (inl conn) =>
      if stopped then PendingReservation.drop reservation;;; st_ret PriorityConnectOutcome.Stopped else
      PendingReservation.commit_priority_idle_if_needed
        (PoolEntry.mk (PendingReservation.addr reservation) conn now true) reservation;;;
      st_ret PriorityConnectOutcome.Connected
  end.

Module PriorityProbeClaimOutcome.
Inductive t : Type := Stopped | Unavailable | Claimed (connection : PooledConnection.t).
End PriorityProbeClaimOutcome.
(** [claim_priority_probe] and the retirements of [run_due_probe] *)
Definition claim_priority_probe {E} (obs : Z → Observation) (now addr : Z) (stopped : bool)
    : ST ConnectionPool.t E PriorityProbeClaimOutcome.t :=
  p <- st_get;;
  if shutting_down (ConnectionPool.inner p) || stopped then st_ret PriorityProbeClaimOutcome.Stopped else
  r <- checkout (λ entry, PoolEntry.is_priority entry && (PoolEntry.addr entry =? addr)) obs now;;
  let '(claimed, retirements) := r in
  finish_passive_retirements retirements;;;
  st_ret match claimed with
         | Some entry => PriorityProbeClaimOutcome.Claimed (PooledConnection.new entry)
         | None => PriorityProbeClaimOutcome.Unavailable
         end.

(** ** health.rs *)
Fixpoint sort_idle (obs : Z → Observation) (now idle_timeout : Z) (entries : list PoolEntry.t)
    : list PoolEntry.t * list PoolEntry.t * list (PoolEntry.t * Observation) :=
  match entries with
  | [] => ([], [], [])
  | entry :: entries =>
      let '(retained, aged, retired) := sort_idle obs now idle_timeout entries in
      match inspect_idle_entry obs entry with
      | IdleEntryInspection.Retain entry =>
          (* [duration_since] saturates at zero *)
          if PoolEntry.is_priority entry || (Z.max 0 (now - PoolEntry.last_used entry) <? idle_timeout)
          then (entry :: retained, aged, retired) else (retained, entry :: aged, retired)
      | IdleEntryInspection.Retire entry observation => (retained, aged, (entry, observation) :: retired)
      end
  end.
Definition run_health_check {E} (obs : Z → Observation) (now idle_timeout : Z) : ST ConnectionPool.t E bool :=
  p <- st_get;;
  if shutting_down (ConnectionPool.inner p) then st_ret false else
  let '(retained, age_evictions, passive_retirements) := sort_idle obs now idle_timeout (idle (ConnectionPool.inner p)) in
  locked (λ pool,
    (tt, record_connections_retired (Z.min (blen age_evictions + blen passive_retirements) u64_max) (set_idle retained pool)));;;
  let passively_freed := negb (is_empty passive_retirements) in
  let age_freed := negb (is_empty age_evictions) in
  finish_passive_retirements passive_retirements;;;
  (if negb passively_freed && age_freed then notify_waiters else st_ret tt);;;
  st_ret true.
