(* ===== verification/Ledger.v ===== *)
(** * The books of the connection pool (crates/rusty-modbus-pool: src/pool.rs)

    What the accounting of [Pool] has to agree with: the charges and the connections
    held outside the mutex. [Ledger] is that agreement, for a multiset of charges and
    one of owned connections, and there is one lemma per way in which a method of
    the pool moves a connection or a charge. [Lending] applies them to every task. *)
From stdpp Require Import gmap.
From S2P Require Import Prelude Types Transaction Pool.
Import PoolInner.

(** ** Budgets

    A charge is against the shared budget, or against the one of a priority address. *)
Definition slot (is_priority : bool) (addr : Z) : option Z := if is_priority then Some addr else None.
Definition class (e : PoolEntry.t) : option Z := slot (PoolEntry.is_priority e) (PoolEntry.addr e).
Fixpoint count (k : option Z) (l : list (option Z)) : Z :=
  match l with [] => 0 | x :: l => (if decide (x = k) then 1 else 0) + count k l end.
(** What the pool has on record for a budget *)
Definition charged (k : option Z) (i : PoolInner.t) : Z :=
  match k with None => active_non_priority i | Some a => default 0 (active_priority i !! a) end.

Lemma count_app k l l' : count k (l ++ l') = count k l + count k l'.
Proof. induction l as [|x l IH]; simpl; [|case_decide]; lia. Qed.
Lemma count_nonneg k l : 0 ≤ count k l.
Proof. induction l as [|x l IH]; simpl; [|case_decide]; lia. Qed.
#[export] Instance count_perm k : Proper ((≡ₚ) ==> (=)) (count k).
Proof. intros l l' Hl. induction Hl; simpl; lia. Qed.
#[export] Instance blen_perm {A} : Proper ((≡ₚ) ==> (=)) (@blen A).
Proof. intros l l' Hl. unfold blen. by rewrite Hl. Qed.

Lemma priority_idle_count_class addr i : priority_idle_count addr i = count (Some addr) (map class (idle i)).
Proof.
  unfold priority_idle_count. induction (idle i) as [|[a c u []] l IH]; [done|..]; rewrite filter_cons; simpl.
  - destruct (Z.eqb_spec a addr) as [->|Ha]; unfold class at 1; simpl; case_decide; simplify_eq;
      rewrite ?blen_cons, IH; done.
  - unfold class at 1. simpl. by rewrite IH.
Qed.
Lemma non_priority_idle_class l :
  blen (filter (λ e, negb (PoolEntry.is_priority e)) l) = count None (map class l).
Proof.
  induction l as [|[a c u []] l IH]; [done|..]; rewrite filter_cons; unfold class at 1; simpl; [done|].
  by rewrite blen_cons, IH.
Qed.

Lemma slot_inj_charged p a k i : charged k (charge_active_for p a i) =
  charged k i + (if decide (slot p a = k) then 1 else 0).
Proof.
  destruct i, p, k as [a'|]; simpl; try lia.
  destruct (decide (a = a')) as [->|Ha].
  - rewrite lookup_insert_eq, decide_True by done. done.
  - rewrite lookup_insert_ne, decide_False by congruence. lia.
Qed.

(** Releasing a charge that is on record *)
Lemma release_active_charged p a i : 0 < charged (slot p a) i → 0 < active_connections i →
  ∃ n m, release_active p a i = (true, mk (idle i) n m (active_connections i - 1) (shutting_down i)
                                        (connections_created i) (connection_failures i) (connections_retired i)) ∧
    ∀ k, charged k (release_active p a i).2 = charged k i - (if decide (slot p a = k) then 1 else 0).
Proof.
  destruct i as [x n m c d cr cf re], p; simpl; intros Hp Hc.
  - destruct (m !! a) as [z|] eqn:Hz; simpl in *; [|lia].
    rewrite (proj2 (Z.eqb_neq z 0)) by lia. simpl.
    unfold saturating_sub_1. rewrite (Z.max_r 0 (c - 1)), (Z.max_r 0 (z - 1)) by lia.
    do 2 eexists. split; [done|]. intros [b|]; simpl; [|lia].
    destruct (Z.eqb_spec (z - 1) 0), (decide (a = b)) as [->|Hab]; simplify_map_eq;
      rewrite ?decide_True, ?decide_False by congruence; simpl; rewrite ?Hz; simpl; lia.
  - rewrite (proj2 (Z.eqb_neq n 0)) by lia. simpl. unfold saturating_sub_1.
    rewrite (Z.max_r 0 (c - 1)), (Z.max_r 0 (n - 1)) by lia.
    do 2 eexists. split; [done|]. intros [b|]; simpl; lia.
Qed.

(** ** The ledger *)
Definition cap (config : PoolConfig.t) (k : option Z) : Z :=
  match k with None => PoolConfig.max_connections config | Some a => priority_cap config a end.
Definition entry_ok (config : PoolConfig.t) (e : PoolEntry.t) : Prop :=
  PoolEntry.is_priority e = is_priority_addr config (PoolEntry.addr e).

(** The created and retired counters saturate: they are the exact totals, up to
    [u64::MAX] *)
Definition flow (live : Z) (i : PoolInner.t) : Prop :=
  ∃ retired, 0 ≤ retired ∧ connections_retired i = Z.min retired u64_max ∧
    connections_created i = Z.min (retired + live) u64_max.

(** [charges]: the charges held outside. [owned]: the connections held outside, with
    whether they may be returned. [next]: the name of the next connection. *)
Record Ledger (config : PoolConfig.t) (charges : list (option Z)) (owned : list (Z * bool))
    (next : Z) (touched : gset Z) (i : PoolInner.t) : Prop := {
  ledger_charged k : charged k i = count k charges;
  ledger_active : active_connections i = blen charges;
  ledger_room k : count k (charges ++ map class (idle i)) ≤ Z.max 0 (cap config k);
  ledger_flow : flow (blen (idle i) + blen owned) i;
  ledger_single : NoDup (map PoolEntry.conn (idle i) ++ map fst owned);
  ledger_old : Forall (λ c, c < next) (map PoolEntry.conn (idle i) ++ map fst owned) ∧ set_Forall (λ c, c < next) touched;
  ledger_clean : Forall (λ c, c ∉ touched) (map PoolEntry.conn (idle i)) ∧ Forall (λ cb, cb.2 = true → cb.1 ∉ touched) owned;
  ledger_quiet : shutting_down i = true → idle i = [];
  ledger_flags : Forall (entry_ok config) (idle i);
}.

Section Ledger.
Context (config : PoolConfig.t).
Abbreviation Ledger := (Ledger config).
Implicit Types (cs : list (option Z)) (own : list (Z * bool)) (i : PoolInner.t) (e : PoolEntry.t).

Lemma ledger_perm cs cs' own own' next touched i : cs ≡ₚ cs' → own ≡ₚ own' →
  Ledger cs own next touched i → Ledger cs' own' next touched i.
Proof.
  intros Hc Ho []. split; try done; try (intros k); rewrite <- ?Hc, <- ?Ho; done.
Qed.
Lemma ledger_idle_perm cs own next touched rest i : idle i ≡ₚ rest →
  Ledger cs own next touched i → Ledger cs own next touched (set_idle rest i).
Proof.
  intros Hi [Hc Ha Hr Hfl Hs [Ho Ht] [Hcl Hcl'] Hq Hf].
  destruct i; simpl in *. split; simpl in *; try done.
  - intros k. rewrite <- Hi. apply Hr.
  - destruct Hfl as (R & HR). exists R. simpl in *. by rewrite <- Hi.
  - by rewrite <- Hi.
  - by rewrite <- Hi.
  - by rewrite <- Hi.
  - intros Hd. specialize (Hq Hd). subst. by apply Permutation_nil.
  - by rewrite <- Hi.
Qed.

(** *** Entries that leave the idle set *)
(** Dropping an idle entry *)
Lemma ledger_retire_idle cs own next touched e rest i : idle i ≡ₚ e :: rest →
  Ledger cs own next touched i → Ledger cs own next touched (record_connection_retired (set_idle rest i)).
Proof.
  intros Hi [Hc Ha Hr (R & HR0 & HR & HCR) Hs [Ho Ht] [Hcl Hcl'] Hq Hf]. rewrite Hi in Hs, Ho, Hcl, Hf, HCR. rewrite blen_cons in HCR.
  destruct i as [x n m c d cr cf re]; simpl in *.
  inv Hs. inv Ho. inv Hcl. inv Hf. split; simpl; try done.
  - intros k. specialize (Hr k). rewrite Hi in Hr. simpl in Hr. rewrite count_app in *. simpl in Hr.
    case_decide; lia.
  - exists (R + 1). unfold u64_saturating_add. simpl. lia.
  - intros Hd. specialize (Hq Hd). subst x. by apply Permutation_nil_cons in Hi.
Qed.
(** Charging one for its next user *)
Lemma ledger_checkout cs own next touched e rest i : idle i ≡ₚ e :: rest → Ledger cs own next touched i →
  Ledger (class e :: cs) ((PoolEntry.conn e, true) :: own) next touched (charge_active e (set_idle rest i)).
Proof.
  intros Hi [Hc Ha Hr (R & HR0 & HR & HCR) Hs [Ho Ht] [Hcl Hcl'] Hq Hf]. rewrite Hi in Hs, Ho, Hcl, Hf, HCR. rewrite blen_cons in HCR.
  assert (idle (charge_active e (set_idle rest i)) = rest) as Hrest by (destruct i, e as [? ? ? []]; done).
  split; rewrite ?Hrest.
  - intros k. unfold charge_active. rewrite slot_inj_charged. fold (class e). simpl. rewrite <- Hc. destruct i, k; simpl; lia.
  - rewrite blen_cons, <- Ha. destruct i, e as [? ? ? []]; simpl; lia.
  - intros k. specialize (Hr k). rewrite Hi in Hr. rewrite <- Hr, <- app_comm_cons, !count_app.
    simpl. rewrite count_app. lia.
  - exists R. rewrite !blen_cons in *. destruct i, e as [? ? ? []]; simpl in *; lia.
  - simpl in *. by rewrite <- Permutation_middle.
  - simpl in *. by rewrite <- Permutation_middle.
  - simpl in *. inv Hcl. split; [done|]. by constructor.
  - intros Hd. destruct i as [x], e as [? ? ? []]; simpl in *; specialize (Hq Hd); subst x;
      by apply Permutation_nil_cons in Hi.
  - by inv Hf.
Qed.

(** *** Charges without a connection *)
Lemma ledger_reserve cs own next touched p a i :
  count (slot p a) (cs ++ map class (idle i)) < cap config (slot p a) → Ledger cs own next touched i →
  Ledger (slot p a :: cs) own next touched (charge_active_for p a i).
Proof.
  intros Hroom [Hc Ha Hr Hf]. split; try by destruct i, p.
  - intros k. rewrite slot_inj_charged. simpl. rewrite Hc. lia.
  - rewrite blen_cons, <- Ha. destruct i, p; simpl; lia.
  - intros k. replace (idle (charge_active_for p a i)) with (idle i) by by destruct i, p. simpl.
    specialize (Hr k). case_decide; subst; lia.
Qed.
Lemma ledger_release cs own next touched p a i : Ledger (slot p a :: cs) own next touched i →
  ∃ i', release_active p a i = (true, i') ∧ idle i' = idle i ∧ shutting_down i' = shutting_down i ∧
        Ledger cs own next touched i'.
Proof.
  intros [Hc Ha Hr (R & HCR) Hs Ho Hcl Hq Hf].
  assert (0 < charged (slot p a) i) by (rewrite Hc; simpl; rewrite decide_True by done; pose proof (count_nonneg (slot p a) cs); lia).
  assert (0 < active_connections i) by (rewrite Ha, blen_cons; pose proof (blen_nonneg cs); lia).
  destruct (release_active_charged p a i) as (n & m & E & Hch); [done..|]. rewrite E in Hch.
  eexists. split; [done|]. split; [done|]. split; [done|]. split; simpl; try done.
  - intros k. specialize (Hch k). specialize (Hc k). simpl in Hc, Hch. rewrite Hch, Hc. lia.
  - rewrite Ha, blen_cons. lia.
  - intros k. specialize (Hr k). simpl in Hr. case_decide; lia.
  - by exists R.
Qed.

(** *** Connections that come and go *)
Lemma ledger_create cs own next touched i : Ledger cs own next touched i →
  Ledger cs ((next, true) :: own) (next + 1) touched (record_connection_created i).
Proof.
  intros [Hc Ha Hr (R & HR0 & HR & HCR) Hs [Ho Ht] [Hcl Hcl'] Hq Hf].
  destruct i as [x n m c d cr cf re]; simpl in *. split; simpl; try done.
  - exists R. unfold u64_saturating_add. simpl. rewrite blen_cons. lia.
  - rewrite <- Permutation_middle. constructor; [|done]. intros Hin.
    rewrite Forall_forall in Ho. specialize (Ho _ Hin). lia.
  - rewrite <- Permutation_middle. split; [constructor; [lia|]|].
    + eapply Forall_impl; [done|]. simpl. lia.
    + intros y Hy. specialize (Ht y Hy). simpl in Ht. lia.
  - split; [done|]. constructor; [|done]. simpl. intros _ Hin. specialize (Ht _ Hin). simpl in Ht. lia.
Qed.
Lemma ledger_next cs own next touched i : Ledger cs own next touched i → Ledger cs own (next + 1) touched i.
Proof.
  intros [Hc Ha Hr Hfl Hs [Ho Ht] Hcl Hq Hf]. split; try done. split.
  - eapply Forall_impl; [done|]. simpl. lia.
  - intros y Hy. specialize (Ht y Hy). simpl in Ht. lia.
Qed.
Lemma ledger_close cs own next touched c i : Ledger cs (c :: own) next touched i →
  Ledger cs own next touched (record_connection_retired i).
Proof.
  intros [Hc Ha Hr (R & HR0 & HR & HCR) Hs [Ho Ht] [Hcl Hcl'] Hq Hf]. rewrite blen_cons in HCR.
  destruct i as [x n m a d cr cf re]; simpl in *. rewrite <- Permutation_middle in Hs, Ho.
  inv Hs. inv Ho. inv Hcl'. split; simpl; try done.
  exists (R + 1). unfold u64_saturating_add. simpl. lia.
Qed.
(** Into the idle set *)
Lemma ledger_push cs own next touched e i : shutting_down i = false → entry_ok config e →
  count (class e) (cs ++ map class (idle i)) < cap config (class e) →
  Ledger cs ((PoolEntry.conn e, true) :: own) next touched i →
  Ledger cs own next touched (set_idle (idle i ++ [e]) i).
Proof.
  intros Hd He Hroom [Hc Ha Hr (R & HR0 & HR & HCR) Hs [Ho Ht] [Hcl Hcl'] Hq Hf].
  destruct i as [x n m a d cr cf re]; simpl in *. subst d. rewrite blen_cons in HCR. rewrite <- Permutation_middle in Hs, Ho.
  inv Hcl'. split; simpl; try done.
  - intros k. specialize (Hr k). rewrite map_app, app_assoc, count_app. simpl. case_decide; subst; lia.
  - exists R. simpl. split_and!; [done..|]. rewrite blen_app, blen_cons, blen_nil. lia.
  - rewrite map_app, <- app_assoc. simpl. by rewrite <- Permutation_middle.
  - rewrite map_app, <- app_assoc. simpl. by rewrite <- Permutation_middle.
  - rewrite map_app, Forall_app. split; [|done]. split; [done|]. repeat constructor. by apply H1.
  - apply Forall_app. split; [done|]. by repeat constructor.
Qed.
Lemma ledger_forget cs own next touched c b i : Ledger cs ((c, b) :: own) next touched i →
  Ledger cs ((c, false) :: own) next touched i.
Proof. intros [Hc Ha Hr Hfl Hs Ho [Hcl Hcl'] Hq Hf]. split; try done. inv Hcl'. split; [done|]. by constructor. Qed.
(** A caller's raw access *)
Lemma ledger_touch cs own next touched c b i : Ledger cs ((c, b) :: own) next touched i →
  Ledger cs ((c, false) :: own) next ({[ c ]} ∪ touched) i.
Proof.
  intros [Hc Ha Hr Hfl Hs [Ho Ht] [Hcl Hcl'] Hq Hf]. simpl in Hs, Ho.
  pose proof Hs as Hnd. pose proof Ho as Hlt. rewrite <- Permutation_middle in Hnd, Hlt. inv Hnd. inv Hcl'.
  apply Forall_cons in Hlt as [Hlt _].
  split; try done.
  - split; [done|]. intros y [->%elem_of_singleton|Hy]%elem_of_union; [done|]. by apply Ht.
  - rewrite !Forall_forall in *. split.
    + intros y Hy. rewrite not_elem_of_union, not_elem_of_singleton. split; [|by apply Hcl].
      intros ->. apply H1. by apply elem_of_app; left.
    + intros [y []] Hy; [|done]. apply elem_of_cons in Hy as [?|Hy]; [done|]. intros _. simpl.
      rewrite not_elem_of_union, not_elem_of_singleton. split; [|by apply (H4 (y, true))].
      intros ->. apply H1. apply elem_of_app; right. by apply list_elem_of_In, (in_map fst _ (c, true)), list_elem_of_In.
Qed.
End Ledger.

(** ** Taking an entry out of the idle set *)
Lemma swap_remove_perm {E A} i (l : list A) x : get l i = Some x →
  ∃ rest, swap_remove (E:=E) i l = Ok (x, rest) ∧ l ≡ₚ x :: rest.
Proof.
  intros Hx. unfold swap_remove. rewrite Hx. destruct l as [|y l' _] using rev_ind.
  { unfold get in Hx. case_match; done. }
  rewrite last_snoc. eexists. split; [done|].
  unfold get in Hx. case_match; [|done]. set (k := Z.to_nat i) in *. rewrite length_app. simpl.
  rewrite (Nat.add_sub (length l') 1). destruct (decide (k < length l')%nat) as [Hk|Hk].
  - rewrite lookup_app_l in Hx by done. rewrite insert_app_l, take_app_le, firstn_all2 by (rewrite ?length_insert; lia).
    rewrite insert_take_drop by done. rewrite <- (take_drop_middle l' k x) at 1 by done.
    rewrite <- Permutation_cons_append, <- !Permutation_middle. apply Permutation_swap.
  - pose proof (lookup_lt_Some _ _ _ Hx) as Hlt. rewrite length_app in Hlt. simpl in Hlt.
    assert (k = length l') as -> by lia. rewrite lookup_app_r, Nat.sub_diag in Hx by done. simplify_eq/=.
    rewrite insert_app_r_alt, take_app_length by done. by rewrite <- Permutation_cons_append.
Qed.

Lemma position_Some {A} (p : A → bool) l i : position p l = Some i →
  0 ≤ i ∧ ∃ x, get l i = Some x ∧ p x = true.
Proof.
  revert i. induction l as [|y l IH]; intros i; simpl; [done|].
  destruct (p y) eqn:Hy.
  - intros [= <-]. split; [done|]. by exists y.
  - destruct (position p l) as [j|] eqn:Hj; [|done]. intros [= <-].
    destruct (IH j eq_refl) as (H0 & x & Hx & Hp). split; [lia|]. exists x. split; [|done].
    unfold get in *. rewrite !(proj2 (Z.leb_le _ _)) in * by lia.
    by replace (Z.to_nat (j + 1)) with (S (Z.to_nat j)) by lia.
Qed.
Lemma position_None {A} (p : A → bool) l : position p l = None → Forall (λ x, p x = false) l.
Proof.
  induction l as [|y l IH]; simpl; [constructor|]. destruct (p y) eqn:Hy; [done|]. destruct (position p l); [done|].
  intros _. constructor; [done|by apply IH].
Qed.

(** [find_evictable] is the least recently used idle entry of the shared budget *)
Lemma find_evictable_from_spec k i l t o : find_evictable_from i l t o = Some k →
  (o = Some k ∧ Forall (λ e, PoolEntry.is_priority e = false → t ≤ PoolEntry.last_used e) l) ∨
  (i ≤ k ∧ ∃ e, get l (k - i) = Some e ∧ PoolEntry.is_priority e = false ∧ PoolEntry.last_used e < t ∧
    Forall (λ e', PoolEntry.is_priority e' = false → PoolEntry.last_used e ≤ PoolEntry.last_used e') l).
Proof.
  revert i t o. induction l as [|e l IH]; intros i t o; simpl; [by left|].
  destruct (negb (PoolEntry.is_priority e) && (PoolEntry.last_used e <? t)) eqn:Hb; intros [[Ho Hl]|(Hk & e' & He & Hp & Ht & Hl)]%IH.
  - apply andb_true_iff in Hb as [?%negb_true_iff ?%Z.ltb_lt]. simplify_eq.
    right. split; [lia|]. exists e. rewrite Z.sub_diag, get_cons_0.
    split_and!; try done. by constructor.
  - apply andb_true_iff in Hb as [?%negb_true_iff ?%Z.ltb_lt]. right. split; [lia|]. exists e'.
    rewrite get_cons_later by lia. split_and!; [done..|lia|]. constructor; [lia|done].
  - left. split; [done|]. constructor; [|done]. destruct (PoolEntry.is_priority e); [done|]. simpl in Hb. lia.
  - right. split; [lia|]. exists e'. rewrite get_cons_later by lia. split_and!; [done..|].
    constructor; [|done]. destruct (PoolEntry.is_priority e); [done|]. simpl in Hb. lia.
Qed.
Lemma find_evictable_from_None i l t : find_evictable_from i l t None = None →
  Forall (λ e, PoolEntry.is_priority e = false → t ≤ PoolEntry.last_used e) l.
Proof.
  assert (∀ l i t j, find_evictable_from i l t (Some j) ≠ None) as Hsome.
  { clear. induction l as [|e l IH]; intros i t j; simpl; [done|]. case_match; apply IH. }
  revert i. induction l as [|e l IH]; intros i; simpl; [constructor|].
  destruct (negb (PoolEntry.is_priority e) && (PoolEntry.last_used e <? t)) eqn:Hb; intros H; [by apply Hsome in H|].
  constructor; [|by eapply IH]. destruct (PoolEntry.is_priority e); [done|]. simpl in Hb. lia.
Qed.

(** What a checkout does to the idle set: it takes the first clean match, if there
    is one, and the adverse matches before it. *)
Definition listed {A} (o : option A) : list A := match o with Some x => [x] | None => [] end.
Record taken (matches : PoolEntry.t → bool) (obs : Z → Observation) (found : option PoolEntry.t)
    (retirements : list (PoolEntry.t * Observation)) (before after : list PoolEntry.t) : Prop := {
  taken_perm : before ≡ₚ listed found ++ map fst retirements ++ after;
  taken_found : match found with
                | Some e => matches e = true ∧ obs (PoolEntry.conn e) = TcpIdleObservation.NoAdverseSignal
                | None => Forall (λ e, matches e = false) after
                end;
  taken_adverse : Forall (λ '(e, o), matches e = true ∧ obs (PoolEntry.conn e) = o ∧ o ≠ TcpIdleObservation.NoAdverseSignal)
                    retirements;
}.
Definition leased (e : PoolEntry.t) : Z * bool := (PoolEntry.conn e, true).
Lemma class_touch now e : class (PoolEntry.touch now e) = class e.
Proof. by destruct e. Qed.
Lemma conn_touch now e : PoolEntry.conn (PoolEntry.touch now e) = PoolEntry.conn e.
Proof. by destruct e. Qed.
Lemma charge_active_touch now e i : charge_active (PoolEntry.touch now e) i = charge_active e i.
Proof. by destruct e. Qed.
Lemma idle_charge p a i : idle (charge_active_for p a i) = idle i.
Proof. by destruct i, p. Qed.
Lemma shutting_down_charge p a i : shutting_down (charge_active_for p a i) = shutting_down i.
Proof. by destruct i, p. Qed.
Lemma idle_set_idle l i : idle (set_idle l i) = l.
Proof. by destruct i. Qed.
Lemma shutting_down_set_idle l i : shutting_down (set_idle l i) = shutting_down i.
Proof. by destruct i. Qed.
Lemma idle_retired i : idle (record_connection_retired i) = idle i.
Proof. by destruct i. Qed.
Lemma shutting_down_retired i : shutting_down (record_connection_retired i) = shutting_down i.
Proof. by destruct i. Qed.
Lemma idle_release p a i : idle (release_active p a i).2 = idle i.
Proof. destruct i, p; simpl; [case_match|]; done. Qed.
Lemma shutting_down_release p a i : shutting_down (release_active p a i).2 = shutting_down i.
Proof. destruct i, p; simpl; [case_match|]; done. Qed.
Lemma idle_failure i : idle (record_connection_failure i) = idle i.
Proof. by destruct i. Qed.
Lemma shutting_down_failure i : shutting_down (record_connection_failure i) = shutting_down i.
Proof. by destruct i. Qed.
Create Rewrite HintDb pool.
#[export] Hint Rewrite class_touch conn_touch charge_active_touch idle_charge shutting_down_charge
  idle_set_idle shutting_down_set_idle idle_retired shutting_down_retired idle_release shutting_down_release
  idle_failure shutting_down_failure : pool.

Lemma inspect_cases obs e : (obs (PoolEntry.conn e) = TcpIdleObservation.NoAdverseSignal ∧
    inspect_idle_entry obs e = IdleEntryInspection.Retain e) ∨
  (obs (PoolEntry.conn e) ≠ TcpIdleObservation.NoAdverseSignal ∧
    inspect_idle_entry obs e = IdleEntryInspection.Retire e (obs (PoolEntry.conn e))).
Proof. unfold inspect_idle_entry. destruct (obs _); naive_solver. Qed.

(** The pool after it *)
Definition retired_times (n : nat) '(mk i a p c d cr cf re : PoolInner.t) : PoolInner.t :=
  mk i a p c d cr cf (Nat.iter n (λ r, u64_saturating_add r 1) re).
Definition checked_out (found : option PoolEntry.t) (retirements : list (PoolEntry.t * Observation))
    (rest : list PoolEntry.t) (i : PoolInner.t) : PoolInner.t :=
  let i := set_idle rest (retired_times (length retirements) i) in
  match found with Some e => charge_active e i | None => i end.
Lemma retired_times_S n l l' i :
  set_idle l (retired_times n (record_connection_retired (set_idle l' i))) = set_idle l (retired_times (S n) i).
Proof. destruct i. cbn [set_idle record_connection_retired retired_times]. by rewrite Nat.iter_succ_r. Qed.
Lemma idle_checked_out found rs rest i : idle (checked_out found rs rest i) = rest.
Proof. by destruct i, found as [[? ? ? []]|]. Qed.
Lemma shutting_down_checked_out found rs rest i : shutting_down (checked_out found rs rest i) = shutting_down i.
Proof. by destruct i, found as [[? ? ? []]|]. Qed.
#[export] Hint Rewrite idle_checked_out shutting_down_checked_out : pool.

Lemma checkout_idle_spec {E} matches obs now fuel rs0 i : (length (idle i) < fuel)%nat →
  ∃ found rs rest, checkout_idle (E:=E) fuel matches obs now rs0 i =
      (Ok (PoolEntry.touch now <$> found, rs0 ++ rs), checked_out found rs rest i) ∧
    taken matches obs found rs (idle i) rest.
Proof.
  revert rs0 i. induction fuel as [|fuel IH]; intros rs0 i Hfuel; [lia|]. simpl.
  destruct (position matches (idle i)) as [idx|] eqn:Hpos.
  - apply position_Some in Hpos as (_ & e & He & Hm).
    destruct (swap_remove_perm (E:=E) _ _ _ He) as (rest & -> & Hperm).
    destruct (inspect_cases obs e) as [[Ho ->]|[Ho ->]].
    + exists (Some e), [], rest. rewrite app_nil_r, charge_active_touch.
      replace (checked_out (Some e) [] rest i) with (charge_active e (set_idle rest i)) by by destruct i.
      split; [done|by split].
    + destruct (IH (rs0 ++ [(e, obs (PoolEntry.conn e))]) (record_connection_retired (set_idle rest i)))
        as (found & rs & rest' & -> & [Hp Hf Ha]).
      { autorewrite with pool. apply Permutation_length in Hperm. simpl in Hperm. lia. }
      exists found, ((e, obs (PoolEntry.conn e)) :: rs), rest'. autorewrite with pool in *.
      unfold checked_out in *. rewrite retired_times_S in *. cbn [length].
      split; [by rewrite <- app_assoc|].
      split; [|done|by constructor]. rewrite Hperm, Hp. simpl. by rewrite <- Permutation_middle.
  - exists None, [], (idle i). rewrite app_nil_r. replace (checked_out None [] (idle i) i) with i by by destruct i.
    split; [done|]. apply position_None in Hpos. split; simpl; done.
Qed.
(** A checkout of several entries is a sequence of retirements and one charge *)
Lemma ledger_checked_out config found rs rest i cs own next touched :
  idle i ≡ₚ listed found ++ map fst rs ++ rest → Ledger config cs own next touched i →
  Ledger config (map class (listed found) ++ cs) (map leased (listed found) ++ own) next touched (checked_out found rs rest i).
Proof.
  revert i. induction rs as [|[e o] rs IH]; intros i Hi Hl; simpl in *.
  - unfold checked_out. simpl. replace (retired_times 0 i) with i by by destruct i.
    destruct found as [e|]; simpl in *; [by apply ledger_checkout|].
    by eapply ledger_idle_perm.
  - unfold checked_out. cbn [length].
    rewrite <- (retired_times_S (length rs) rest (listed found ++ map fst rs ++ rest) i).
    apply IH; [by autorewrite with pool|]. eapply ledger_retire_idle; [|done]. by rewrite Hi, <- Permutation_middle.
Qed.

(** ** Wake-ups

    The connections a budget pays for, and when a waiter may sleep on: no entry has
    become idle and no budget has more room. *)
Definition total (k : option Z) (i : PoolInner.t) : Z := charged k i + count k (map class (idle i)).
Definition no_news (i i' : PoolInner.t) : Prop := idle i' ⊆+ idle i ∧ ∀ k, total k i ≤ total k i'.
Definition woken (p p' : ConnectionPool.t) : Prop :=
  ConnectionPool.wakes p ≤ ConnectionPool.wakes p' ∧ (ConnectionPool.wakes p' = ConnectionPool.wakes p → no_news (ConnectionPool.inner p) (ConnectionPool.inner p')).

#[export] Instance no_news_preorder : PreOrder no_news.
Proof.
  split.
  - by intros i.
  - intros i i' i'' [H1 H1'] [H2 H2']. split; [by etrans|]. intros k. specialize (H1' k). specialize (H2' k). lia.
Qed.
#[export] Instance woken_preorder : PreOrder woken.
Proof.
  split.
  - by intros p.
  - intros p p' p'' [H1 H1'] [H2 H2']. split; [lia|]. intros Hw. assert (ConnectionPool.wakes p' = ConnectionPool.wakes p) as Hw' by lia.
    etrans; [by apply H1'|]. apply H2'. lia.
Qed.
Lemma woken_notified i i' wk : woken (ConnectionPool.mk i wk) (ConnectionPool.mk i' (wk + 1)).
Proof. split; simpl; lia. Qed.
Lemma woken_silent i i' wk : no_news i i' → woken (ConnectionPool.mk i wk) (ConnectionPool.mk i' wk).
Proof. intros H. split; simpl; [lia|done]. Qed.
#[export] Hint Resolve woken_notified : modbus.

Lemma no_news_charge p a i : no_news i (charge_active_for p a i).
Proof.
  split; unfold total; autorewrite with pool; [done|]. intros k. rewrite slot_inj_charged. case_decide; lia.
Qed.
Lemma charged_set_idle k l i : charged k (set_idle l i) = charged k i.
Proof. by destruct i, k. Qed.
(** An entry that leaves the idle set for a charge of its own budget *)
Lemma no_news_taken p a e rest i : idle i ≡ₚ e :: rest → class e = slot p a →
  no_news i (charge_active_for p a (set_idle rest i)).
Proof.
  intros Hi Hp. split; unfold total; autorewrite with pool; [rewrite Hi; by apply submseteq_cons|].
  intros k. rewrite slot_inj_charged, charged_set_idle, Hi, <- Hp. simpl. lia.
Qed.
Lemma no_news_counters x n m c d cr cf re cr' cf' re' :
  no_news (mk x n m c d cr cf re) (mk x n m c d cr' cf' re').
Proof. split; [done|]. by intros []. Qed.

(** ** Actions of the pool

    [moves m p Q QE]: the action [m] returns on [p], keeps every waiter informed, and
    ends in [Q] on success and in [QE] on an error. *)
Definition moves {E A} (m : ST ConnectionPool.t E A) (p : ConnectionPool.t) (Q : A → PoolInner.t → Prop) (QE : E → PoolInner.t → Prop) : Prop :=
  match m p with
  | (Ok a, p') => woken p p' ∧ Q a (ConnectionPool.inner p')
  | (Err e, p') => woken p p' ∧ QE e (ConnectionPool.inner p')
  | _ => False
  end.
Lemma moves_ret {E A} (a : A) p (Q : A → _ → Prop) (QE : E → _ → Prop) : Q a (ConnectionPool.inner p) → moves (st_ret a) p Q QE.
Proof. by split. Qed.
Lemma moves_err {E A} (e : E) p (Q : A → _ → Prop) (QE : E → _ → Prop) : QE e (ConnectionPool.inner p) → moves (st_err e) p Q QE.
Proof. by split. Qed.
Lemma moves_bind {E A B} (m : ST ConnectionPool.t E A) (k : A → ST ConnectionPool.t E B) p Q QE :
  moves m p (λ a i, ∀ wk, moves (k a) (ConnectionPool.mk i wk) Q QE) QE → moves (st_bind m k) p Q QE.
Proof.
  unfold moves, st_bind. destruct (m p) as [[a|e| |] [i wk]]; try done. intros [Hw Hk]. simpl in Hk.
  specialize (Hk wk). destruct (k a _) as [[b|e'| |] p'']; try done; destruct Hk; split; try done; by etrans.
Qed.
Lemma moves_mono {E A} (m : ST ConnectionPool.t E A) p (Q Q' : A → _ → Prop) (QE QE' : E → _ → Prop) :
  moves m p Q QE → (∀ a i, Q a i → Q' a i) → (∀ e i, QE e i → QE' e i) → moves m p Q' QE'.
Proof. unfold moves. intros H HQ HE. destruct (m p) as [[a|e| |] p']; naive_solver. Qed.
Lemma moves_then {E A} (m : ST ConnectionPool.t E A) p (Q Q' : A → _ → Prop) (QE : E → _ → Prop) :
  moves m p Q QE → (∀ a i, Q a i → Q' a i) → moves m p Q' QE.
Proof. intros H HQ. by eapply moves_mono. Qed.

Lemma moves_locked {E A B} (f : PoolInner.t → A * PoolInner.t) (k : A → ST ConnectionPool.t E B) p Q QE :
  (∀ wk, moves (k (f (ConnectionPool.inner p)).1) (ConnectionPool.mk (f (ConnectionPool.inner p)).2 wk) Q QE) →
  moves (a <- locked f;; notify_waiters;;; k a) p Q QE.
Proof.
  destruct p as [i wk]. unfold moves, st_bind, locked, notify_waiters, st_modify. simpl. intros Hk.
  destruct (f i) as [a i']. simpl in *. specialize (Hk (wk + 1)).
  destruct (k a _) as [[b|e| |] [i'' wk'']]; try done; destruct Hk as [[Hw _] HQ]; split; try done; split; simpl in *; lia.
Qed.
Lemma moves_notified {E A} (f : PoolInner.t → A * PoolInner.t) p (Q : unit → _ → Prop) (QE : E → _ → Prop) :
  Q tt (f (ConnectionPool.inner p)).2 → moves (locked f;;; notify_waiters) p Q QE.
Proof.
  destruct p as [i wk]. unfold moves, st_bind, locked, notify_waiters, st_modify. simpl.
  destruct (f i) as [a i']. simpl. intros HQ. split; [apply woken_notified|done].
Qed.

(** An assertion that holds *)
Lemma moves_assert {E A} (b : bool) (k : ST ConnectionPool.t E A) p (Q : A → _ → Prop) (QE : E → _ → Prop) :
  b = true → moves k p Q QE → moves (st_lift (debug_assert b);;; k) p Q QE.
Proof. by intros ->. Qed.
Lemma moves_seen {E A} (k : ConnectionPool.t → ST ConnectionPool.t E A) p (Q : A → _ → Prop) (QE : E → _ → Prop) :
  moves (k p) p Q QE → moves (st_bind st_get k) p Q QE.
Proof. done. Qed.

Section Actions.
Context (config : PoolConfig.t) {E : Type} (QE : E → PoolInner.t → Prop).
Abbreviation Ledger := (Ledger config).
Implicit Types (cs : list (option Z)) (own : list (Z * bool)) (i : PoolInner.t) (e : PoolEntry.t).

Lemma ledger_retire_active cs c own next touched p a i : Ledger (slot p a :: cs) (c :: own) next touched i →
  Ledger cs own next touched (retire_active p a i).
Proof.
  intros (i' & Hr & _ & _ & Hl)%ledger_release. unfold retire_active. rewrite Hr.
  by eapply ledger_close.
Qed.
Lemma ledger_charge_room k cs own next touched i : Ledger (k :: cs) own next touched i →
  count k (cs ++ map class (idle i)) < cap config k.
Proof.
  intros [_ _ Hr]. specialize (Hr k). simpl in Hr. rewrite decide_True in Hr by done.
  pose proof (count_nonneg k (cs ++ map class (idle i))). lia.
Qed.
(** What the handoff asserts before it gives up a charge *)
Lemma ledger_charge_exists g cs own next touched i :
  Ledger (slot (ActiveCapacityGuard.is_priority g) (ActiveCapacityGuard.addr g) :: cs) own next touched i →
  ActiveCapacityGuard.charge_exists g i = true.
Proof.
  intros [Hc _ _]. unfold ActiveCapacityGuard.charge_exists. destruct g as [a [] armed]; cbn in *.
  - specialize (Hc (Some a)). cbn in Hc. rewrite decide_True in Hc by done. pose proof (count_nonneg (Some a) cs).
    destruct (active_priority i !! a); cbn in Hc; lia.
  - specialize (Hc None). cbn in Hc. try rewrite decide_True in Hc by done. pose proof (count_nonneg None cs). lia.
Qed.
(** A charge given up for an idle entry of its budget, unless the pool shuts down *)
Lemma ledger_return p a e cs own next touched i : entry_ok config e → class e = slot p a →
  shutting_down i = false → Ledger (slot p a :: cs) (leased e :: own) next touched i →
  Ledger cs own next touched (set_idle (idle (release_active p a i).2 ++ [e]) (release_active p a i).2).
Proof.
  intros He Hc Hd Hl. pose proof (ledger_charge_room _ _ _ _ _ _ Hl) as Hroom.
  apply ledger_release in Hl as (i' & -> & Hi & Hd' & Hl). simpl. rewrite <- Hi, <- Hc in Hroom.
  apply ledger_push; try done. congruence.
Qed.

(** *** Reservations *)
Definition evicts_ok (r : PendingReservation.t) : Prop :=
  match PendingReservation.evicted r with
  | Some e => entry_ok config e ∧ class e = slot (PendingReservation.is_priority r) (PendingReservation.addr r)
  | None => True
  end.
Definition evicting (r : PendingReservation.t) : list (Z * bool) := map leased (listed (PendingReservation.evicted r)).
Definition reservation_slot (r : PendingReservation.t) : option Z :=
  slot (PendingReservation.is_priority r) (PendingReservation.addr r).

Lemma ledger_failure cs own next touched i : Ledger cs own next touched i →
  Ledger cs own next touched (record_connection_failure i).
Proof. destruct i. intros []. split; done. Qed.

Lemma moves_rollback failed r p cs own next touched : evicts_ok r →
  Ledger (reservation_slot r :: cs) (evicting r ++ own) next touched (ConnectionPool.inner p) →
  moves (PendingReservation.rollback failed r) p
    (λ r' i, PendingReservation.committed r' = true ∧ Ledger cs own next touched i) QE.
Proof.
  intros He Hl. apply moves_locked. intros wk. apply moves_ret. split; [done|]. simpl.
  assert (Ledger (reservation_slot r :: cs) (evicting r ++ own) next touched
    (if failed then record_connection_failure (ConnectionPool.inner p) else ConnectionPool.inner p)) as Hl'
    by (destruct failed; [by apply ledger_failure|done]).
  revert Hl'. generalize (if failed then record_connection_failure (ConnectionPool.inner p) else ConnectionPool.inner p). clear Hl. intros i Hl.
  destruct r as [a pr [e|] cm]; unfold evicts_ok, evicting, reservation_slot in *; simpl in *.
  - pose proof Hl as (i' & Hr & Hi & Hd & Hl')%ledger_release. rewrite Hr. simpl. destruct (shutting_down i') eqn:Hs.
    + by eapply ledger_close.
    + destruct He. pose proof (ledger_return pr a e cs own next touched i) as Hret. rewrite Hr in Hret. simpl in Hret.
      by apply Hret; congruence || done.
  - by apply ledger_release in Hl as (i' & -> & _ & _ & Hl').
Qed.
Lemma moves_reservation_drop r p cs own next touched : PendingReservation.committed r = false → evicts_ok r →
  Ledger (reservation_slot r :: cs) (evicting r ++ own) next touched (ConnectionPool.inner p) →
  moves (PendingReservation.drop r) p (λ _ i, Ledger cs own next touched i) QE.
Proof.
  intros Hc He Hl. unfold PendingReservation.drop. rewrite Hc. apply moves_bind.
  eapply moves_then; [by apply moves_rollback|]. intros r' i [_ Hl'] wk. by apply moves_ret.
Qed.
Lemma moves_reservation_fail r p cs own next touched : evicts_ok r →
  Ledger (reservation_slot r :: cs) (evicting r ++ own) next touched (ConnectionPool.inner p) →
  moves (PendingReservation.fail r) p (λ _ i, Ledger cs own next touched i) QE.
Proof.
  intros He Hl. apply moves_bind. eapply moves_then; [by apply moves_rollback|].
  intros r' i [Hc Hl'] wk. unfold PendingReservation.drop. rewrite Hc. by apply moves_ret.
Qed.
Lemma moves_commit e r p cs own next touched :
  Ledger cs (evicting r ++ own) next touched (ConnectionPool.inner p) →
  moves (PendingReservation.commit e r) p
    (λ c i, c = PooledConnection.new e ∧ Ledger cs ((next, true) :: own) (next + 1) touched i) QE.
Proof.
  intros Hl. unfold moves, PendingReservation.commit, st_bind, locked. simpl. destruct p as [i wk]; simpl in *.
  split; [apply woken_silent; destruct i, (PendingReservation.evicted r); apply no_news_counters|].
  split; [done|]. unfold evicting in Hl. apply ledger_create in Hl.
  destruct (PendingReservation.evicted r) as [e'|]; simpl in *; [|done].
  eapply ledger_close, ledger_perm; [done| |exact Hl]. apply Permutation_swap.
Qed.
Lemma moves_commit_idle e r p cs own next touched : entry_ok config e → PoolEntry.is_priority e = true →
  PendingReservation.is_priority r = true → PendingReservation.evicted r = None → PoolEntry.addr e = PendingReservation.addr r →
  PoolEntry.conn e = next → Ledger (reservation_slot r :: cs) own next touched (ConnectionPool.inner p) →
  moves (PendingReservation.commit_priority_idle_if_needed e r) p (λ _ i, Ledger cs own (next + 1) touched i) QE.
Proof.
  intros He Hpe Hpr Hev Ha Hn Hl. assert (class e = reservation_slot r) as Hc by (unfold class, reservation_slot; by rewrite Hpe, Hpr, Ha).
  do 4 (apply moves_assert; [by rewrite ?Hev, ?Ha, ?Z.eqb_refl|]). apply moves_notified. simpl. pose proof (ledger_charge_room _ _ _ _ _ _ Hl) as Hroom.
  apply ledger_release in Hl as (i & -> & Hi & Hd & Hl). simpl. rewrite <- Hi, <- Hc in Hroom.
  destruct (shutting_down i) eqn:Hs; simpl; [by apply ledger_next|].
  destruct (negb _); simpl; [by apply ledger_next|].
  apply ledger_push; try done; [by destruct i|by destruct i|].
  unfold leased. rewrite Hn. by apply ledger_create.
Qed.
End Actions.

(** ** Acquiring

    What an acquisition may do, in terms of the budgets. *)
Definition oldest (now : Z) (e : PoolEntry.t) (l : list PoolEntry.t) : Prop :=
  PoolEntry.is_priority e = false ∧ PoolEntry.last_used e < now ∧
  Forall (λ e', PoolEntry.is_priority e' = false → PoolEntry.last_used e ≤ PoolEntry.last_used e') l.
Inductive reserves (config : PoolConfig.t) (now addr : Z) (pr : bool) (i : PoolInner.t)
    : option PendingReservation.t → PoolInner.t → Prop :=
  | reserves_room : total (slot pr addr) i < cap config (slot pr addr) →
      reserves config now addr pr i (Some (PendingReservation.new addr pr None)) (charge_active_for pr addr i)
  | reserves_evict e rest : pr = false → cap config None ≤ total None i → idle i ≡ₚ e :: rest → oldest now e (idle i) →
      reserves config now addr pr i (Some (PendingReservation.new addr pr (Some e))) (charge_active_for pr addr (set_idle rest i))
  | reserves_full : cap config (slot pr addr) ≤ total (slot pr addr) i →
      (pr = false → Forall (λ e, PoolEntry.is_priority e = false → now ≤ PoolEntry.last_used e) (idle i)) →
      reserves config now addr pr i None i.
Inductive acquires (config : PoolConfig.t) (obs : Z → Observation) (now addr : Z) (i : PoolInner.t)
    : option Acquisition.t → PoolInner.t → Prop :=
  | acquires_idle e rs rest : taken (λ e, PoolEntry.addr e =? addr) obs (Some e) rs (idle i) rest →
      acquires config obs now addr i (Some (Acquisition.Reused (PooledConnection.new (PoolEntry.touch now e))))
        (checked_out (Some e) rs rest i)
  | acquires_slot rs rest r i' : taken (λ e, PoolEntry.addr e =? addr) obs None rs (idle i) rest →
      reserves config now addr (is_priority_addr config addr) (checked_out None rs rest i) r i' →
      acquires config obs now addr i (option_map Acquisition.Reserved r) i'.

Lemma priority_total_eq addr i : priority_total addr i = total (Some addr) i.
Proof. unfold priority_total. by rewrite priority_idle_count_class. Qed.
Lemma non_priority_total_eq i : non_priority_total i = total None i.
Proof. unfold non_priority_total. by rewrite non_priority_idle_class. Qed.

Section Acquiring.
Context (config : PoolConfig.t).

Lemma reserve_slot_spec {E} now addr pr p :
  ∃ r i, reserve_slot (E:=E) config now addr pr p = (Ok r, ConnectionPool.mk i (ConnectionPool.wakes p)) ∧
         reserves config now addr pr (ConnectionPool.inner p) r i.
Proof.
  destruct p as [i wk]. unfold reserve_slot, st_get, st_bind at 1. cbn [ConnectionPool.inner].
  destruct pr.
  - rewrite priority_total_eq. destruct (Z.leb_spec (priority_cap config addr) (total (Some addr) i)).
    + do 2 eexists. split; [done|]. by apply reserves_full.
    + do 2 eexists. split; [done|]. by apply reserves_room.
  - rewrite non_priority_total_eq. destruct (Z.ltb_spec (total None i) (PoolConfig.max_connections config)).
    + do 2 eexists. split; [done|]. by apply reserves_room.
    + unfold find_evictable. destruct (find_evictable_from 0 (idle i) now None) as [idx|] eqn:Hev.
      * apply find_evictable_from_spec in Hev as [[? _]|(_ & e & He & Hp & Hn & Hold)]; [done|].
        rewrite Z.sub_0_r in He. destruct (swap_remove_perm (E:=E) _ _ _ He) as (rest & -> & Hperm).
        do 2 eexists. split; [done|]. by apply reserves_evict.
      * do 2 eexists. split; [done|]. apply reserves_full; [done|]. intros _. by eapply find_evictable_from_None.
Qed.

Lemma wakes_retirements {E} (rs : list (PoolEntry.t * Observation)) i wk :
  finish_passive_retirements (E:=E) rs (ConnectionPool.mk i wk) = (Ok tt, ConnectionPool.mk i (if is_empty rs then wk else wk + 1)).
Proof. unfold finish_passive_retirements. by destruct (is_empty rs). Qed.

(** [checkout] takes the lock once and always returns *)
Lemma checkout_spec {E} matches obs now p :
  ∃ found rs rest, checkout (E:=E) matches obs now p =
      (Ok (PoolEntry.touch now <$> found, rs), ConnectionPool.mk (checked_out found rs rest (ConnectionPool.inner p)) (ConnectionPool.wakes p)) ∧
    taken matches obs found rs (idle (ConnectionPool.inner p)) rest.
Proof.
  destruct p as [i wk]. unfold checkout. cbn [ConnectionPool.inner ConnectionPool.wakes].
  destruct (checkout_idle_spec (E:=E) matches obs now (S (length (idle i))) [] i) as (found & rs & rest & -> & Ht); [lia|].
  by exists found, rs, rest.
Qed.
(** Nothing adverse met: nobody has to be told *)
Lemma no_news_checked_out matches obs found rest i :
  taken matches obs found [] (idle i) rest → no_news i (checked_out found [] rest i).
Proof.
  intros [Hp _ _]. simpl in Hp. unfold checked_out. destruct found as [e|]; simpl in *.
  - replace (retired_times 0 i) with i by by destruct i. by eapply no_news_taken.
  - replace (retired_times 0 i) with i by by destruct i. split; unfold total; autorewrite with pool; [by rewrite Hp|].
    intros k. by rewrite charged_set_idle, Hp.
Qed.
Lemma no_news_reserves now addr pr i r i' : reserves config now addr pr i r i' → no_news i i'.
Proof.
  intros [Hroom|e rest -> Hc Hi (Hp & _ & _)|]; [apply no_news_charge| |done].
  eapply no_news_taken; [done|]. unfold class. by rewrite Hp.
Qed.
Lemma ledger_reserves now addr pr i r i' cs own next touched : reserves config now addr pr i r i' →
  Ledger config cs own next touched i →
  match r with
  | Some r => PendingReservation.addr r = addr ∧ PendingReservation.is_priority r = pr ∧
      PendingReservation.committed r = false ∧ evicts_ok config r ∧
      Ledger config (reservation_slot r :: cs) (evicting r ++ own) next touched i'
  | None => Ledger config cs own next touched i'
  end.
Proof.
  intros [Hroom|e rest -> Hc Hi (Hp & _ & _)|] Hl; [| |done]; split_and!; try done.
  - apply ledger_reserve; [|done]. rewrite count_app, <- (ledger_charged _ _ _ _ _ _ Hl). done.
  - unfold evicts_ok. simpl. unfold class. rewrite Hp. split; [|done].
    pose proof (ledger_flags _ _ _ _ _ _ Hl) as Hf. rewrite Hi in Hf. by inv Hf.
  - pose proof (ledger_checkout config cs own next touched e rest i Hi Hl) as Hl'.
    unfold class, charge_active in Hl'. rewrite Hp in Hl'. by destruct i.
Qed.

(** An attempt under the lock is an acquisition, and informs the waiters of what it
    retires *)
Lemma attempt_acquire_spec obs now addr p : shutting_down (ConnectionPool.inner p) = false →
  ∃ r p', attempt_acquire config obs now addr p = (Ok r, p') ∧ woken p p' ∧
          acquires config obs now addr (ConnectionPool.inner p) r (ConnectionPool.inner p').
Proof.
  intros Hd. destruct p as [i wk]. unfold attempt_acquire, st_get, st_bind at 1. cbn [ConnectionPool.inner] in *. rewrite Hd.
  unfold try_acquire_locked, st_bind at 1 2.
  destruct (checkout_spec (E:=PoolError.t) (λ e, PoolEntry.addr e =? addr) obs now (ConnectionPool.mk i wk))
    as (found & rs & rest & -> & Ht). cbn [ConnectionPool.inner ConnectionPool.wakes] in *.
  assert (∀ i' wk', wk ≤ wk' → (wk' = wk → no_news (checked_out found rs rest i) i') →
    woken (ConnectionPool.mk i wk) (ConnectionPool.mk i' (if is_empty rs then wk' else wk' + 1))) as Hwoken.
  { intros i' wk' Hle Hn. split; simpl; [destruct (is_empty rs); lia|]. intros Hw.
    destruct rs as [|x rs]; [|unfold is_empty in Hw; rewrite blen_cons in Hw; pose proof (blen_nonneg rs); case_match; lia].
    change (is_empty []) with true in Hw. cbv iota in Hw. etrans; [by eapply no_news_checked_out|by apply Hn]. }
  destruct found as [e|]; cbn [fmap option_fmap option_map].
  - exists (Some (Acquisition.Reused (PooledConnection.new (PoolEntry.touch now e)))).
    destruct (PoolEntry.is_priority (PoolEntry.touch now e)); unfold notify_waiters, st_modify, st_bind, st_ret; simpl;
      rewrite wakes_retirements; eexists; (split; [done|split; [|by apply acquires_idle]]); apply Hwoken; lia || done.
  - destruct (reserve_slot_spec (E:=PoolError.t) now addr (is_priority_addr config addr) (ConnectionPool.mk (checked_out None rs rest i) wk))
      as (r & i' & Hr & Hres). unfold st_bind, st_ret. rewrite Hr. cbn [ConnectionPool.inner ConnectionPool.wakes fst snd] in *.
    rewrite wakes_retirements. do 2 eexists. split; [done|]. split; [|by eapply acquires_slot].
    apply Hwoken; [lia|]. intros _. by eapply no_news_reserves.
Qed.
Lemma acquire_retry_eq obs now addr deadline waited p :
  acquire_retry config obs now addr deadline waited p =
  if negb (shutting_down (ConnectionPool.inner p)) && (waited && (deadline <=? now)) then (Err PoolError.Timeout, p)
  else attempt_acquire config obs now addr p.
Proof.
  unfold acquire_retry, attempt_acquire, st_get, st_bind at 1. cbv iota beta.
  destruct (shutting_down _) eqn:Hd; simpl; [by unfold st_bind; rewrite Hd|].
  destruct (waited && (deadline <=? now)); [done|]. unfold st_bind at 3. by rewrite Hd.
Qed.

(** The ledger after an acquisition: the new holder is charged *)
Lemma ledger_acquires obs now addr i r i' cs own next touched : acquires config obs now addr i r i' →
  Ledger config cs own next touched i →
  match r with
  | Some (Acquisition.Reused c) => ∃ e, c = PooledConnection.new e ∧ entry_ok config e ∧
      Ledger config (class e :: cs) (leased e :: own) next touched i'
  | Some (Acquisition.Reserved r) => PendingReservation.is_priority r = is_priority_addr config (PendingReservation.addr r) ∧
      PendingReservation.committed r = false ∧ evicts_ok config r ∧
      Ledger config (reservation_slot r :: cs) (evicting r ++ own) next touched i'
  | None => Ledger config cs own next touched i'
  end.
Proof.
  intros [e rs rest Ht|rs rest r' j Ht Hr] Hl.
  - exists (PoolEntry.touch now e). split; [done|]. unfold leased. rewrite class_touch, conn_touch.
    split; [|by apply (ledger_checked_out config (Some e)); [apply Ht|]].
    pose proof (ledger_flags _ _ _ _ _ _ Hl) as Hf. destruct Ht as [Hp _ _]. rewrite Hp in Hf.
    inv Hf. by destruct e.
  - eapply ledger_reserves in Hr; [|by apply (ledger_checked_out config None); [apply Ht|]].
    destruct r' as [r'|]; [|done]. simpl. naive_solver.
Qed.
End Acquiring.

(** ** Probes, health checks and shutdown *)
Lemma ledger_retire_many config cs own next touched dropped rest n d x m a b c cr cf re :
  x ≡ₚ dropped ++ rest → Z.min n u64_max = Z.min (blen dropped) u64_max → (d = true → rest = []) →
  Ledger config cs own next touched (mk x m a b c cr cf re) →
  Ledger config cs own next touched (record_connections_retired n (mk rest m a b d cr cf re)).
Proof.
  intros Hx Hn Hd [Hc Ha Hr (R & HR0 & HR & HCR) Hs [Ho Ht] [Hcl Hcl'] Hq Hf]; simpl in *.
  rewrite Hx in Hs, Ho, Hcl, Hf, HCR. rewrite map_app, <- app_assoc in Hs, Ho. rewrite map_app in Hcl. rewrite blen_app in HCR.
  apply NoDup_app in Hs as (_ & _ & Hs). apply Forall_app in Ho as [_ Ho]. apply Forall_app in Hcl as [_ Hcl].
  apply Forall_app in Hf as [_ Hf]. split; simpl; try done.
  - intros k. specialize (Hr k). rewrite Hx, map_app, !count_app in Hr. rewrite count_app.
    pose proof (count_nonneg k (map class dropped)). lia.
  - exists (R + blen dropped). unfold u64_saturating_add. simpl. rewrite Hn. pose proof (blen_nonneg dropped). assert (0 ≤ u64_max) by done. lia.
Qed.

Definition fresh (obs : Z → Observation) (now idle_timeout : Z) (e : PoolEntry.t) : bool :=
  match obs (PoolEntry.conn e) with
  | TcpIdleObservation.NoAdverseSignal =>
      PoolEntry.is_priority e || (Z.max 0 (now - PoolEntry.last_used e) <? idle_timeout)
  | _ => false
  end.
Lemma sort_idle_spec obs now t l : ∃ aged retired, sort_idle obs now t l = (filter (fresh obs now t) l, aged, retired) ∧
  l ≡ₚ (aged ++ map fst retired) ++ filter (fresh obs now t) l.
Proof.
  induction l as [|e l (aged & retired & IH & Hp)]; [by exists [], []|]. simpl. rewrite IH, filter_cons.
  destruct (fresh obs now t e) eqn:Hf; unfold fresh in Hf; destruct (inspect_cases obs e) as [[Ho ->]|[Ho ->]].
  - rewrite Ho in Hf. rewrite Hf. exists aged, retired. split; [done|]. simpl. by rewrite <- Permutation_middle, <- Hp.
  - by destruct (obs _).
  - rewrite Ho in Hf. rewrite Hf. exists (e :: aged), retired. split; [done|]. simpl. by rewrite <- Hp.
  - exists aged, ((e, obs (PoolEntry.conn e)) :: retired). split; [done|]. simpl.
    by rewrite <- Permutation_middle, <- app_comm_cons, <- Hp.
Qed.

Section Maintenance.
Context (config : PoolConfig.t) {E : Type} (QE : E → PoolInner.t → Prop).
Context (cs : list (option Z)) (own : list (Z * bool)) (next : Z) (touched : gset Z) (p : ConnectionPool.t).
Abbreviation Ledger := (Ledger config).
Hypothesis books : Ledger cs own next touched (ConnectionPool.inner p).

Lemma moves_health obs now t :
  moves (run_health_check obs now t) p (λ _ i, Ledger cs own next touched i) QE.
Proof.
  unfold run_health_check, st_get, moves, st_bind at 1. destruct (shutting_down (ConnectionPool.inner p)) eqn:Hd; [by split|].
  destruct (sort_idle_spec obs now t (idle (ConnectionPool.inner p))) as (aged & retired & -> & Hp).
  destruct p as [i wk]; simpl in *. unfold st_bind, locked. cbn [ConnectionPool.inner ConnectionPool.wakes]. rewrite wakes_retirements.
  assert (Ledger cs own next touched
    (record_connections_retired (Z.min (blen aged + blen retired) u64_max) (set_idle (filter (fresh obs now t) (idle i)) i))) as Hl.
  { destruct i as [x m a b d cr cf re]. simpl in *. subst d. eapply ledger_retire_many; [done| |done|done].
    rewrite blen_app. unfold blen at 4. rewrite length_map. fold (blen retired). lia. }
  destruct retired as [|r rs].
  - change (is_empty []) with true. destruct aged as [|a aged].
    + simpl. split; [|done]. apply woken_silent. simpl in Hp. destruct i as [x m a b d cr cf re]. simpl in *.
      split; simpl; [by apply Permutation_submseteq|]. intros k. pose proof (count_perm k _ _ (Permutation_map class Hp)) as Hk.
      unfold total. simpl. rewrite Hk. by destruct k.
    + replace (is_empty (a :: aged)) with false by (unfold is_empty; rewrite blen_cons; pose proof (blen_nonneg aged); lia).
      simpl. split; [apply woken_notified|done].
  - replace (is_empty (r :: rs)) with false by (unfold is_empty; rewrite blen_cons; pose proof (blen_nonneg rs); lia).
    simpl. split; [apply woken_notified|done].
Qed.
Lemma moves_shutdown : moves shutdown p (λ _ i, Ledger cs own next touched i) QE.
Proof.
  apply moves_notified. destruct p as [[x m a b d cr cf re] wk]; simpl in *.
  change (Ledger cs own next touched (record_connections_retired (blen x) (mk [] m a b true cr cf re))).
  eapply (ledger_retire_many config cs own next touched x []); [by rewrite app_nil_r|done|done|done].
Qed.
Lemma moves_probe obs now addr stopped : moves (claim_priority_probe obs now addr stopped) p (λ r i,
  match r with
  | PriorityProbeClaimOutcome.Claimed c => ∃ e, c = PooledConnection.new e ∧ entry_ok config e ∧
      Ledger (class e :: cs) (leased e :: own) next touched i
  | _ => Ledger cs own next touched i
  end) QE.
Proof.
  unfold claim_priority_probe, st_get, moves, st_bind at 1. destruct (_ || _); [by split|].
  unfold st_bind at 1.
  destruct (checkout_spec (E:=E) (λ e, PoolEntry.is_priority e && (PoolEntry.addr e =? addr)) obs now p)
    as (found & rs & rest & -> & Ht). unfold st_bind. rewrite wakes_retirements. destruct p as [i wk]; simpl in *.
  split.
  - destruct rs as [|r rs].
    + change (is_empty []) with true. apply woken_silent. by eapply no_news_checked_out.
    + replace (is_empty (r :: rs)) with false by (unfold is_empty; rewrite blen_cons; pose proof (blen_nonneg rs); lia).
      apply woken_notified.
  - pose proof (ledger_checked_out config found rs rest i _ _ _ _ (taken_perm _ _ _ _ _ _ Ht) books) as Hl.
    destruct found as [e|]; simpl in *; [|done]. exists (PoolEntry.touch now e). split; [done|].
    unfold leased. rewrite class_touch, conn_touch. split; [|done].
    pose proof (ledger_flags _ _ _ _ _ _ books) as Hf. rewrite (taken_perm _ _ _ _ _ _ Ht) in Hf.
    inv Hf. by destruct e.
Qed.
Lemma moves_maintenance addr : is_priority_addr config addr = true →
  moves (reserve_priority_maintenance addr (priority_cap config addr)) p (λ r i,
  match r with
  | PriorityMaintenanceReservation.Reserved r => r = PendingReservation.new addr true None ∧
      Ledger (reservation_slot r :: cs) own next touched i
  | _ => Ledger cs own next touched i
  end) QE.
Proof.
  intros Ha. destruct p as [i wk]. unfold moves, reserve_priority_maintenance, locked. simpl in *.
  destruct (shutting_down i); [by split|]. destruct (_ || _) eqn:Hb; [by split|].
  apply orb_false_iff in Hb as [_ Hb%Z.leb_gt]. split; [apply woken_silent, no_news_charge|].
  split; [done|]. apply (ledger_reserve config cs own next touched true addr); [|done].
  rewrite count_app, <- (ledger_charged _ _ _ _ _ _ books). rewrite priority_total_eq in Hb. done.
Qed.
End Maintenance.
