(* ===== verification/Lending.v ===== *)
(** * Lending connections (crates/rusty-modbus-pool: the tasks around src/pool.rs)

    The pool of [Pool] together with everyone who holds a charge of it: pending
    connects, maintenance, raw leases and client sessions. A world evolves by
    events, one per atomic action of a task, in any order. Invariants over all
    reachable worlds: the books balance, budgets hold, a connection has one owner,
    and what a caller has touched raw is never lent again. *)
From stdpp Require Import gmap.
From S2P Require Import Prelude Types Session Transaction Pool Ledger.
Import PoolInner.

(** * The world *)
Inductive holder : Type :=
  | Pending (reservation : PendingReservation.t)
  | Maintaining (reservation : PendingReservation.t)
  | Lease (connection : PooledConnection.t)
  | Session (vault : ReusableVault.t)
  | Retiring (guard : RetirementGuard.t) (conn : Z).

Module World.
Record t : Type := mk {
  pool : ConnectionPool.t;
  holders : list holder;
  (** names for new connections *)
  next_conn : Z;
  (** the connections a caller has had raw access to *)
  touched : gset Z;
}.
Definition init : t := mk ConnectionPool.new [] 0 ∅.
Definition inner (w : t) : PoolInner.t := ConnectionPool.inner (pool w).
End World.

Inductive event : Type :=
  | Acquire (obs : Z → Observation) (now addr : Z)
  | Retry (obs : Z → Observation) (now addr deadline : Z) (waited : bool)
  | Connect (i : nat) (now : Z)
  | ConnectError (i : nat) (now : Z) (e : TransportError.t)
  | Cancel (i : nat)
  | Maintain (addr : Z)
  | MaintainConnect (i : nat) (now : Z) (stopped : bool)
  | MaintainError (i : nat) (now : Z) (e : TransportError.t)
  | MaintainStop (i : nat) (now : Z)
  | Probe (obs : Z → Observation) (now addr : Z) (stopped : bool)
  | Access (i : nat)
  | Invalidate (i : nat) (reason : LeaseInvalidationReason.t)
  | DropLease (i : nat)
  | MakeReusable (i : nat)
  | MakeRetiring (i : nat)
  | DropRetiring (i : nat)
  | ReturnSession (i : nat) (now : Z) (verdict : SessionReuseVerdict.t)
  | DropSession (i : nat)
  | Health (obs : Z → Observation) (now : Z)
  | Shutdown.

(** The world after a pool action: [k] gives the new holders on success, [ke] on an
    error *)
Definition running {E A} (m : ST ConnectionPool.t E A) (w : World.t)
    (k : A → list holder) (ke : E → list holder) (next : Z) : res unit World.t :=
  match m (World.pool w) with
  | (Ok a, p) => Ok (World.mk p (k a) next (World.touched w))
  | (Err e, p) => Ok (World.mk p (ke e) next (World.touched w))
  | (Panic, _) => Panic
  | (OutOfFuel, _) => OutOfFuel
  end.
Definition never (hs : list holder) (e : Empty_set) : list holder := hs.
Definition acquired (hs : list holder) (a : Acquisition.t) : list holder :=
  match a with
  | Acquisition.Reused c => Lease c :: hs
  | Acquisition.Reserved r => Pending r :: hs
  end.

Section Events.
Context (config : PoolConfig.t).

(** An event that no task is in the position for is [Err] *)
Definition exec (e : event) (w : World.t) : res unit World.t :=
  let hs := World.holders w in
  let next := World.next_conn w in
  match e with
  | Acquire obs now addr => running (acquire_immediate config obs now addr) w (acquired hs) (λ _, hs) next
  | Retry obs now addr deadline waited =>
      running (acquire_retry config obs now addr deadline waited) w
        (λ a, match a with Some a => acquired hs a | None => hs end) (λ _, hs) next
  | Connect i now =>
      match hs !! i with
      | Some (Pending r) =>
          running (finish_acquisition now (inl next) (Acquisition.Reserved r)) w
            (λ c, Lease c :: delete i hs) (λ _, delete i hs) (next + 1)
      | _ => Err tt
      end
  | ConnectError i now e =>
      match hs !! i with
      | Some (Pending r) =>
          running (finish_acquisition now (inr e) (Acquisition.Reserved r)) w
            (λ c, Lease c :: delete i hs) (λ _, delete i hs) next
      | _ => Err tt
      end
  | Cancel i =>
      match hs !! i with
      | Some (Pending r) => running (PendingReservation.drop r) w (λ _, delete i hs) (never hs) next
      | _ => Err tt
      end
  | Maintain addr =>
      if negb (is_priority_addr config addr) then Err tt else
      running (reserve_priority_maintenance addr (priority_cap config addr)) w
        (λ r, match r with PriorityMaintenanceReservation.Reserved r => Maintaining r :: hs | _ => hs end) (never hs) next
  | MaintainConnect i now stopped =>
      match hs !! i with
      | Some (Maintaining r) =>
          running (maintenance_connect now (Some (inl next)) stopped r) w (λ _, delete i hs) (never hs) (next + 1)
      | _ => Err tt
      end
  | MaintainError i now e =>
      match hs !! i with
      | Some (Maintaining r) =>
          running (maintenance_connect now (Some (inr e)) false r) w (λ _, delete i hs) (never hs) next
      | _ => Err tt
      end
  | MaintainStop i now =>
      match hs !! i with
      | Some (Maintaining r) => running (maintenance_connect now None true r) w (λ _, delete i hs) (never hs) next
      | _ => Err tt
      end
  | Probe obs now addr stopped =>
      running (claim_priority_probe obs now addr stopped) w
        (λ r, match r with PriorityProbeClaimOutcome.Claimed c => Lease c :: hs | _ => hs end) (never hs) next
  | Access i =>
      match hs !! i with
      | Some (Lease c) =>
          match PooledConnection.raw_half (E:=unit) c with
          | (Ok conn, c) => Ok (World.mk (World.pool w) (Lease c :: delete i hs) next ({[ conn ]} ∪ World.touched w))
          | (_, _) => Err tt (* the caller's panic: the lease was invalidated *)
          end
      | _ => Err tt
      end
  | Invalidate i reason =>
      match hs !! i with
      | Some (Lease c) => running (PooledConnection.invalidate reason c) w (λ c, Lease c :: delete i hs) (never hs) next
      | _ => Err tt
      end
  | DropLease i =>
      match hs !! i with
      | Some (Lease c) => running (PooledConnection.drop c) w (λ _, delete i hs) (never hs) next
      | _ => Err tt
      end
  | MakeReusable i =>
      match hs !! i with
      | Some (Lease c) =>
          running (PooledConnection.into_reusable_client c) w (λ v, Session v :: delete i hs) (λ _, delete i hs) next
      | _ => Err tt
      end
  | MakeRetiring i =>
      match hs !! i with
      | Some (Lease c) =>
          match PooledConnection.entry c with
          | Some _ => running (PooledConnection.into_retiring_client c) w
                        (λ g, Retiring g.1 g.2 :: delete i hs) (never hs) next
          | None => Err tt (* the caller's panic *)
          end
      | _ => Err tt
      end
  | DropRetiring i =>
      match hs !! i with
      | Some (Retiring g _) => running (RetirementGuard.drop g) w (λ _, delete i hs) (never hs) next
      | _ => Err tt
      end
  | ReturnSession i now verdict =>
      match hs !! i with
      | Some (Session v) => running (shutdown_and_return now verdict v) w (λ _, delete i hs) (never hs) next
      | _ => Err tt
      end
  | DropSession i =>
      match hs !! i with
      | Some (Session v) => running (ReusableVault.drop v) w (λ _, delete i hs) (never hs) next
      | _ => Err tt
      end
  | Health obs now => running (run_health_check obs now (PoolConfig.idle_timeout config)) w (λ _, hs) (never hs) next
  | Shutdown => running shutdown w (λ _, hs) (never hs) next
  end.

Inductive reachable : World.t → Prop :=
  | reachable_init : reachable World.init
  | reachable_step w e w' : reachable w → exec e w = Ok w' → reachable w'.
End Events.

(** A sequence of events *)
Fixpoint run (config : PoolConfig.t) (es : list event) (w : World.t) : res unit World.t :=
  match es with [] => Ok w | e :: es => let? w := exec config e w in run config es w end.
Lemma reachable_run config es w w' : reachable config w → run config es w = Ok w' → reachable config w'.
Proof.
  revert w. induction es as [|e es IH]; intros w Hw; simpl; [by intros [= <-]|].
  destruct (exec config e w) as [w1| | |] eqn:He; simpl; try done. apply IH. by eapply reachable_step.
Qed.

(** * Who holds what

    The charges of a holder and the connections it owns, each with whether the
    holder may still give it back to the pool. *)
Definition charges (h : holder) : list (option Z) :=
  match h with
  | Pending r | Maintaining r => [reservation_slot r]
  | Lease c => map class (listed (PooledConnection.entry c))
  | Session v =>
      match ReusableVault.capacity v with
      | Some g => if ActiveCapacityGuard.armed g then [slot (ActiveCapacityGuard.is_priority g) (ActiveCapacityGuard.addr g)] else []
      | None => []
      end
  | Retiring g _ => [slot (RetirementGuard.is_priority g) (RetirementGuard.addr g)]
  end.
Definition owned (h : holder) : list (Z * bool) :=
  match h with
  | Pending r | Maintaining r => evicting r
  | Lease c => map (λ e, (PoolEntry.conn e, negb (PooledConnection.raw_accessed c))) (listed (PooledConnection.entry c))
  | Session v => map (λ c, (c, true)) (listed (ReusableVault.halves v))
  | Retiring _ c => [(c, false)]
  end.
Definition holder_ok (config : PoolConfig.t) (h : holder) : Prop :=
  match h with
  | Pending r => PendingReservation.committed r = false ∧
      PendingReservation.is_priority r = is_priority_addr config (PendingReservation.addr r) ∧ evicts_ok config r
  | Maintaining r => ∃ a, r = PendingReservation.new a true None ∧ is_priority_addr config a = true
  | Lease c => Forall (entry_ok config) (listed (PooledConnection.entry c))
  | Session v => ∃ c a, v = ReusableVault.mk (Some c) (Some (ActiveCapacityGuard.mk a (is_priority_addr config a) true))
  | Retiring _ _ => True
  end.
Definition Inv (config : PoolConfig.t) (hs : list holder) (next : Z) (touched : gset Z) (i : PoolInner.t) : Prop :=
  Ledger config (hs ≫= charges) (hs ≫= owned) next touched i ∧ Forall (holder_ok config) hs.
Definition invariant (config : PoolConfig.t) (w : World.t) : Prop :=
  Inv config (World.holders w) (World.next_conn w) (World.touched w) (World.inner w).
(** A step that some task can make leaves the invariant, and no waiter asleep *)
Definition step_ok (config : PoolConfig.t) (w : World.t) (r : res unit World.t) : Prop :=
  match r with
  | Ok w' => invariant config w' ∧ woken (World.pool w) (World.pool w')
  | Err _ => True
  | Panic | OutOfFuel => False
  end.

Section Steps.
Context (config : PoolConfig.t).
Abbreviation Ledger := (Ledger config).
Abbreviation Inv := (Inv config).
Implicit Types (hs : list holder) (p : ConnectionPool.t).

Lemma inv_take hs i h next touched inner : hs !! i = Some h → Inv hs next touched inner →
  holder_ok config h ∧ Forall (holder_ok config) (delete i hs) ∧
  Ledger (charges h ++ (delete i hs ≫= charges)) (owned h ++ (delete i hs ≫= owned)) next touched inner.
Proof.
  intros Hh [Hl Hok]. pose proof (delete_Permutation _ _ _ Hh) as Hp. rewrite Hp in Hok. inv Hok.
  split; [done|]. split; [done|]. eapply ledger_perm; [| |done].
  - by rewrite Hp at 1.
  - by rewrite Hp at 1.
Qed.

(** *** Giving up a charge *)
Lemma moves_retire {E} (QE : E → PoolInner.t → Prop) pr a c cs own next touched p :
  Ledger (slot pr a :: cs) (c :: own) next touched (ConnectionPool.inner p) →
  moves (locked (λ inner, (tt, retire_active pr a inner));;; notify_waiters) p (λ _ i, Ledger cs own next touched i) QE.
Proof. intros Hl. apply moves_notified. simpl. by eapply ledger_retire_active. Qed.
Lemma moves_retire_entry {E} (QE : E → PoolInner.t → Prop) c hs next touched p :
  Ledger (charges (Lease c) ++ (hs ≫= charges)) (owned (Lease c) ++ (hs ≫= owned)) next touched (ConnectionPool.inner p) →
  moves (PooledConnection.retire_entry c) p (λ r i,
    r.2 = PooledConnection.mk None (PooledConnection.invalidation_reason c) (PooledConnection.raw_accessed c) ∧
    Ledger (hs ≫= charges) (hs ≫= owned) next touched i) QE.
Proof.
  destruct c as [[e|] r b]; simpl; intros Hl.
  - apply moves_locked. intros wk. apply moves_ret. split; [done|]. simpl. by eapply ledger_retire_active.
  - by apply moves_ret.
Qed.
Lemma moves_session_drop {E} (QE : E → PoolInner.t → Prop) v hs next touched p : holder_ok config (Session v) →
  Ledger (charges (Session v) ++ (hs ≫= charges)) (owned (Session v) ++ (hs ≫= owned)) next touched (ConnectionPool.inner p) →
  moves (ReusableVault.drop v) p (λ _ i, Ledger (hs ≫= charges) (hs ≫= owned) next touched i) QE.
Proof.
  intros (c & a & ->) Hl. simpl in Hl. apply moves_seen, moves_assert; [|by eapply moves_retire].
  by eapply (ledger_charge_exists config (ActiveCapacityGuard.mk a _ true)).
Qed.
Lemma moves_return_to_pool {E} (QE : E → PoolInner.t → Prop) now e g cs own next touched p :
  entry_ok config e → ActiveCapacityGuard.is_priority g = PoolEntry.is_priority e → ActiveCapacityGuard.addr g = PoolEntry.addr e →
  Ledger (class e :: cs) (leased e :: own) next touched (ConnectionPool.inner p) →
  moves (RecoveredLease.return_to_pool now (RecoveredLease.mk (Some e) (Some g))) p (λ _ i, Ledger cs own next touched i) QE.
Proof.
  intros He Hp Ha Hl. apply moves_assert; [by rewrite Ha, Z.eqb_refl|]. apply moves_assert; [by rewrite Hp, eqb_reflx|].
  apply moves_seen, moves_assert; [apply (ledger_charge_exists config g cs (leased e :: own) next touched); by rewrite Hp, Ha|].
  apply moves_locked. intros wk. apply moves_ret. simpl. rewrite Hp, Ha.
  pose proof (ledger_release _ _ _ _ _ _ _ _ Hl) as (i' & Hr & Hi & Hd & Hl').
  destruct (shutting_down (ConnectionPool.inner p)) eqn:Hs.
  - unfold retire_active. rewrite Hr. rewrite shutting_down_retired, Hd. by eapply ledger_close.
  - rewrite Hr. simpl. rewrite Hd. pose proof (ledger_return config (PoolEntry.is_priority e) (PoolEntry.addr e)
      (PoolEntry.touch now e) cs own next touched (ConnectionPool.inner p)) as Hret. rewrite Hr in Hret.
    apply Hret; try done; [by destruct e|by apply class_touch|]. unfold leased. by rewrite conn_touch.
Qed.
Lemma moves_session_return {E} (QE : E → PoolInner.t → Prop) now verdict v hs next touched p : holder_ok config (Session v) →
  Ledger (charges (Session v) ++ (hs ≫= charges)) (owned (Session v) ++ (hs ≫= owned)) next touched (ConnectionPool.inner p) →
  moves (shutdown_and_return now verdict v) p (λ _ i, Ledger (hs ≫= charges) (hs ≫= owned) next touched i) QE.
Proof.
  intros Hv Hl. apply moves_bind. destruct verdict;
    try (apply moves_ret; intros wk; apply moves_bind; eapply moves_then; [by apply moves_session_drop|];
         intros; by apply moves_ret).
  destruct Hv as (c & a & ->). cbn [RecoveredLease.recover ReusableVault.halves ReusableVault.capacity].
  apply moves_bind. eapply moves_then; [eapply moves_return_to_pool; [by unfold entry_ok|done|done|exact Hl]|].
  intros o i Hl' wk. apply moves_ret. intros wk'. apply moves_bind, moves_ret. intros wk''. by apply moves_ret.
Qed.

(** *** Events *)
Lemma running_ok {E A} (m : ST ConnectionPool.t E A) w k ke next :
  moves m (World.pool w) (λ a i, Inv (k a) next (World.touched w) i) (λ e i, Inv (ke e) next (World.touched w) i) →
  step_ok config w (running m w k ke next).
Proof. unfold moves, running. destruct (m (World.pool w)) as [[a|e| |] p]; intros H; done || by destruct H. Qed.
Lemma inv_cons hs h next touched i :
  holder_ok config h → Forall (holder_ok config) hs →
  Ledger (charges h ++ (hs ≫= charges)) (owned h ++ (hs ≫= owned)) next touched i → Inv (h :: hs) next touched i.
Proof. intros Hh Hhs Hl. split; [done|by constructor]. Qed.

Lemma inv_acquired hs obs now addr i r i' next touched : acquires config obs now addr i (Some r) i' →
  Inv hs next touched i → Inv (acquired hs r) next touched i'.
Proof.
  intros Hr [Hl Hok]. eapply ledger_acquires in Hr; [|done]. destruct r as [c|r]; simpl.
  - destruct Hr as (e & -> & He & Hl'). by apply inv_cons; [repeat constructor|..].
  - destruct Hr as (Hp & Hc & He & Hl'). by apply inv_cons.
Qed.
Lemma moves_attempt obs now addr p hs next touched : Inv hs next touched (ConnectionPool.inner p) →
  moves (attempt_acquire config obs now addr) p
    (λ r i, Inv (match r with Some a => acquired hs a | None => hs end) next touched i)
    (λ _ i, Inv hs next touched i).
Proof.
  intros HI. destruct (shutting_down (ConnectionPool.inner p)) eqn:Hd.
  - unfold moves, attempt_acquire, st_get, st_bind at 1. by rewrite Hd.
  - destruct (attempt_acquire_spec config obs now addr p Hd) as (r & p' & Hr & Hw & Ha).
    unfold moves. rewrite Hr. split; [done|]. destruct r as [r|]; [by eapply inv_acquired|].
    destruct HI as [Hl Hok]. by eapply ledger_acquires in Ha.
Qed.
Lemma exec_acquire obs now addr w : invariant config w → step_ok config w (exec config (Acquire obs now addr) w).
Proof.
  intros HI. apply running_ok, moves_bind. eapply moves_then; [by apply moves_attempt|].
  intros [a|] i Hi wk; [by apply moves_ret|by apply moves_err].
Qed.
Lemma exec_retry obs now addr deadline waited w : invariant config w →
  step_ok config w (exec config (Retry obs now addr deadline waited) w).
Proof.
  intros HI. apply running_ok. unfold moves. rewrite acquire_retry_eq.
  destruct (negb _ && _); [by split|]. by apply (moves_attempt obs now addr (World.pool w)).
Qed.

(** An event of the [i]th holder *)
Lemma exec_holder w i (P : holder → res unit World.t) : invariant config w →
  (∀ h, holder_ok config h → Forall (holder_ok config) (delete i (World.holders w)) →
    Ledger (charges h ++ (delete i (World.holders w) ≫= charges)) (owned h ++ (delete i (World.holders w) ≫= owned))
      (World.next_conn w) (World.touched w) (World.inner w) → step_ok config w (P h)) →
  step_ok config w (match World.holders w !! i with Some h => P h | None => Err tt end).
Proof.
  intros HI HP. destruct (World.holders w !! i) as [h|] eqn:Hh; [|done].
  eapply inv_take in HI as (Hok & Hoks & Hl); [|done]. by apply HP.
Qed.
Lemma exec_reservation w e i : invariant config w →
  (∃ now, e = Connect i now) ∨ (∃ now te, e = ConnectError i now te) ∨ e = Cancel i →
  step_ok config w (exec config e w).
Proof.
  intros HI He. destruct He as [[now ->]|[(now & te & ->)| ->]]; simpl;
    apply (exec_holder w i (λ h, match h with Pending r => _ | _ => Err tt end) HI);
    intros [r|r|c|v|g c] Hok Hoks Hl; try done; destruct Hok as (Hc & Hp & Hev); cbn [charges owned app] in Hl; apply running_ok.
  - eapply moves_then; [by apply moves_commit|]. intros c j [-> Hl'].
    apply inv_cons; [by repeat constructor|done|]. done.
  - apply moves_bind. eapply moves_then; [by apply moves_reservation_fail|].
    intros ? j Hl' wk. by apply moves_err.
  - by eapply moves_then; [apply moves_reservation_drop|].
Qed.
Lemma exec_maintaining w e i : invariant config w →
  (∃ now stopped, e = MaintainConnect i now stopped) ∨ (∃ now te, e = MaintainError i now te) ∨ (∃ now, e = MaintainStop i now) →
  step_ok config w (exec config e w).
Proof.
  intros HI He. destruct He as [(now & stopped & ->)|[(now & te & ->)|[now ->]]]; simpl;
    apply (exec_holder w i (λ h, match h with Maintaining r => _ | _ => Err tt end) HI);
    intros [r|r|c|v|g c] Hok Hoks Hl; try done; destruct Hok as (a & -> & Ha); cbn [charges owned app] in Hl; apply running_ok.
  - destruct stopped; apply moves_bind.
    + eapply moves_then; [by eapply moves_reservation_drop|]. intros ? j Hl' wk. apply moves_ret.
      split; [by apply ledger_next|done].
    + eapply moves_then; [eapply moves_commit_idle; [by unfold entry_ok|done..|exact Hl]|].
      intros ? j Hl' wk. by apply moves_ret.
  - apply moves_bind. eapply moves_then; [by eapply moves_reservation_fail|]. intros ? j Hl' wk. by apply moves_ret.
  - apply moves_bind. eapply moves_then; [by eapply moves_reservation_drop|]. intros ? j Hl' wk. by apply moves_ret.
Qed.
Lemma exec_lease w e i : invariant config w →
  e = Access i ∨ (∃ reason, e = Invalidate i reason) ∨ e = DropLease i →
  step_ok config w (exec config e w).
Proof.
  intros HI He. destruct He as [->|[(reason & ->)| ->]]; simpl;
    apply (exec_holder w i (λ h, match h with Lease c => _ | _ => Err tt end) HI);
    intros [r|r|c|v|g c] Hok Hoks Hl; try done.
  - destruct c as [[e|] reason b]; [|done]. simpl in *. split; [|done]. apply inv_cons; [done..|]. by eapply ledger_touch.
  - apply running_ok. destruct c as [[e|] [reason'|] b]; try by apply moves_ret, inv_cons.
    apply moves_bind. eapply moves_then; [eapply moves_retire_entry, Hl|]. intros r j [Hr Hl'] wk. apply moves_ret.
    rewrite Hr. by apply inv_cons; [repeat constructor|..].
  - apply running_ok, moves_bind. eapply moves_then; [eapply moves_retire_entry, Hl|]. intros r j [Hr Hl'] wk. by apply moves_ret.
Qed.
Lemma exec_handoff w e i : invariant config w → e = MakeReusable i ∨ e = MakeRetiring i → step_ok config w (exec config e w).
Proof.
  intros HI He. destruct He as [->| ->]; simpl;
    apply (exec_holder w i (λ h, match h with Lease c => _ | _ => Err tt end) HI);
    intros [r|r|c|v|g c] Hok Hoks Hl; try done.
  - apply running_ok. unfold PooledConnection.into_reusable_client. destruct (PooledConnection.raw_accessed c) eqn:Hraw.
    + apply moves_bind. eapply moves_then; [eapply moves_retire_entry, Hl|]. intros r j [Hr Hl'] wk. by apply moves_err.
    + destruct c as [[e|] reason b]; simpl in *; subst b; [|by apply moves_err].
      apply moves_ret. inv Hok. unfold entry_ok in *. destruct e as [a c t pr]. simpl in *. subst pr. apply inv_cons; [|done|done].
      by exists c, a.
  - destruct c as [[e|] reason b]; [|done]. apply running_ok, moves_ret. apply inv_cons; [done..|].
    simpl in *. destruct b; simpl in *; [done|]. by eapply ledger_forget.
Qed.
Lemma exec_session w e i : invariant config w →
  e = DropRetiring i ∨ (∃ now verdict, e = ReturnSession i now verdict) ∨ e = DropSession i →
  step_ok config w (exec config e w).
Proof.
  intros HI He. destruct He as [->|[(now & verdict & ->)| ->]]; simpl.
  - apply (exec_holder w i (λ h, match h with Retiring g c => _ | _ => Err tt end) HI).
    intros [r|r|c|v|g c] Hok Hoks Hl; try done. apply running_ok. eapply moves_then; [eapply moves_retire, Hl|]. done.
  - apply (exec_holder w i (λ h, match h with Session v => _ | _ => Err tt end) HI).
    intros [r|r|c|v|g c] Hok Hoks Hl; try done. apply running_ok. by eapply moves_then; [eapply moves_session_return|].
  - apply (exec_holder w i (λ h, match h with Session v => _ | _ => Err tt end) HI).
    intros [r|r|c|v|g c] Hok Hoks Hl; try done. apply running_ok. by eapply moves_then; [eapply moves_session_drop|].
Qed.

Lemma event_ok e w : invariant config w → step_ok config w (exec config e w).
Proof.
  intros HI. destruct e; eauto using exec_acquire, exec_retry;
    try (by eapply exec_reservation; eauto); try (by eapply exec_maintaining; eauto);
    try (by eapply exec_lease; eauto); try (by eapply exec_handoff; eauto); try (by eapply exec_session; eauto);
    pose proof HI as [Hl Hok]; simpl.
  - destruct (is_priority_addr config addr) eqn:Ha; [|done]. apply running_ok.
    eapply moves_then; [by eapply moves_maintenance|]. intros [| |r] i Hr; [done..|]. destruct Hr as [-> Hl'].
    apply inv_cons; [by eexists|done|done].
  - apply running_ok. eapply moves_then; [by eapply moves_probe|]. intros [| |c] i Hr; [done..|].
    destruct Hr as (e & -> & He & Hl'). by apply inv_cons; [repeat constructor|..].
  - apply running_ok. by eapply moves_then; [eapply moves_health|].
  - apply running_ok. by eapply moves_then; [eapply moves_shutdown|].
Qed.
Lemma invariant_init : invariant config World.init.
Proof.
  split; [|done]. split; simpl; try done.
  - by intros [].
  - lia.
  - by exists 0.
  - constructor.
Qed.
Lemma reachable_invariant w : reachable config w → invariant config w.
Proof.
  induction 1 as [|w e w' _ IH He]; [apply invariant_init|].
  pose proof (event_ok e w IH) as Hs. rewrite He in Hs. apply Hs.
Qed.
End Steps.

(** * Theorems *)
Lemma ledger_total config cs own next touched i k : Ledger config cs own next touched i →
  total k i = count k (cs ++ map class (idle i)).
Proof. intros Hl. unfold total. by rewrite count_app, (ledger_charged _ _ _ _ _ _ Hl). Qed.

(** C3. The books balance in every reachable world, whatever the tasks did: the pool's
    active counts are the charges actually held, the metrics agree with them, created
    connections are the retired, the idle and the owned ones until the counter
    saturates, and no budget is exceeded. *)
Theorem pool_accounting config w : reachable config w →
  let i := World.inner w in
  let m := metrics i in
  let held := World.holders w ≫= charges in
  (∀ k, charged k i = count k held ∧ total k i ≤ Z.max 0 (cap config k)) ∧
  PoolMetricsSnapshot.active_connections m = blen held ∧
  (PoolMetricsSnapshot.connections_created m < u64_max →
    PoolMetricsSnapshot.connections_created m = PoolMetricsSnapshot.connections_retired m
      + PoolMetricsSnapshot.idle_connections m + blen (World.holders w ≫= owned)).
Proof.
  intros [Hl _]%reachable_invariant. split; [|split; [apply Hl|]].
  - intros k. rewrite (ledger_total _ _ _ _ _ _ _ Hl). split; apply Hl.
  - destruct (ledger_flow _ _ _ _ _ _ Hl) as (R & HR0 & HR & HC). simpl. rewrite HC, HR.
    pose proof (blen_nonneg (idle (World.inner w))). pose proof (blen_nonneg (World.holders w ≫= owned)). lia.
Qed.

(** C16. A connection has one owner: no connection is idle twice, idle and owned, or
    owned twice. One that a caller has accessed raw is never idle again and never in a
    reusable session, and nothing is idle once the pool shuts down. *)
Theorem pool_single_owner config w : reachable config w →
  NoDup (map PoolEntry.conn (idle (World.inner w)) ++ map fst (World.holders w ≫= owned)) ∧
  (∀ e, e ∈ idle (World.inner w) → PoolEntry.conn e ∉ World.touched w) ∧
  (∀ v c, Session v ∈ World.holders w → ReusableVault.halves v = Some c → c ∉ World.touched w) ∧
  (shutting_down (World.inner w) = true → idle (World.inner w) = []).
Proof.
  intros [Hl _]%reachable_invariant. split; [apply Hl|]. destruct (ledger_clean _ _ _ _ _ _ Hl) as [Hi Ho].
  rewrite Forall_forall in Hi. rewrite Forall_forall in Ho. split; [|split; [|apply Hl]].
  - intros e He. apply Hi. by apply list_elem_of_fmap_2.
  - intros v c Hv Hc. apply (Ho (c, true)); [|done]. apply list_elem_of_bind. exists (Session v).
    split; [|done]. simpl. rewrite Hc. by left.
Qed.

(** No entry of the address to reuse, no room in its budget, nothing to evict *)
Definition waits (config : PoolConfig.t) (addr : Z) (i : PoolInner.t) : Prop :=
  let pr := is_priority_addr config addr in
  Forall (λ e, PoolEntry.addr e ≠ addr ∧ (pr = false → PoolEntry.is_priority e = true)) (idle i) ∧
  cap config (slot pr addr) ≤ total (slot pr addr) i.
Lemma waits_no_news config addr i i' : no_news i i' → waits config addr i → waits config addr i'.
Proof.
  intros [Hi Ht] [Hw Hc]. split; [|specialize (Ht (slot (is_priority_addr config addr) addr)); lia].
  apply Forall_forall. intros e He. rewrite Forall_forall in Hw. apply Hw. by eapply elem_of_submseteq.
Qed.
Lemma waits_attempt config obs now addr p : shutting_down (ConnectionPool.inner p) = false → waits config addr (ConnectionPool.inner p) →
  ∃ p', attempt_acquire config obs now addr p = (Ok None, p').
Proof.
  intros Hd [Hw Hc]. destruct (attempt_acquire_spec config obs now addr p Hd) as (r & p' & Hr & _ & Ha).
  exists p'. rewrite Hr. f_equal. f_equal. rewrite Forall_forall in Hw.
  destruct Ha as [e rs rest Ht|rs rest r i' Ht Hres].
  - destruct Ht as [Hp [He _] _]. assert (e ∈ idle (ConnectionPool.inner p)) as Hin by (rewrite Hp; by left).
    apply Hw in Hin as [Hin _]. lia.
  - assert (rs = []) as ->.
    { destruct rs as [|[e o] rs]; [done|]. destruct Ht as [Hp _ Ha]. inv Ha.
      assert (e ∈ idle (ConnectionPool.inner p)) as Hin by (rewrite Hp; by left). apply Hw in Hin as [Hin _]. naive_solver lia. }
    pose proof (no_news_checked_out _ _ _ _ _ Ht) as [_ Hmore]. specialize (Hmore (slot (is_priority_addr config addr) addr)).
    destruct Ht as [Hp _ _]. simpl in Hp.
    destruct Hres as [Hroom|e rest' Hpr _ Hi (He & _ & _)|]; [lia| |done]. rewrite idle_checked_out in Hi.
    assert (e ∈ idle (ConnectionPool.inner p)) as Hin by (rewrite Hp, Hi; by left). apply Hw in Hin as [_ Hin]. specialize (Hin Hpr). congruence.
Qed.

(** C17. No lost wake-ups, and every step returns. A task for which there is no entry to
    reuse, no room and nothing at all to evict finds none; whatever another task then does
    returns, and afterwards there is still nothing for the waiting task or the waiters have
    been notified. (A task refused only because the entry it could evict was returned at that
    very instant does not wait in this sense.) *)
Theorem waiters_notified config w e addr : reachable config w → waits config addr (World.inner w) →
  (∀ obs now, shutting_down (World.inner w) = false →
     ∃ p, attempt_acquire config obs now addr (World.pool w) = (Ok None, p)) ∧
  match exec config e w with
  | Ok w' => waits config addr (World.inner w') ∨ ConnectionPool.wakes (World.pool w) < ConnectionPool.wakes (World.pool w')
  | Err _ => True
  | Panic | OutOfFuel => False
  end.
Proof.
  intros HI%reachable_invariant Hw. split; [intros; by apply waits_attempt|].
  pose proof (event_ok config e w HI) as Hs. destruct (exec config e w) as [w'| | |]; try done.
  destruct Hs as [_ [Hle Hn]]. destruct (decide (ConnectionPool.wakes (World.pool w') = ConnectionPool.wakes (World.pool w))) as [Heq|]; [|right; lia].
  left. by eapply waits_no_news, Hw; apply Hn.
Qed.

(** Acquiring from the pool: refused exactly when the pool shuts down; otherwise the
    attempt always returns, and it reuses the first clean idle connection to the address
    after retiring the adverse ones before it, or else reserves a slot where the
    budget of the address has room, or else evicts the least recently used idle
    connection of the shared budget, or else finds nothing and leaves the pool alone. *)
Theorem acquire_exact config obs now addr p :
  if shutting_down (ConnectionPool.inner p) then attempt_acquire config obs now addr p = (Err PoolError.ShuttingDown, p)
  else ∃ r p', attempt_acquire config obs now addr p = (Ok r, p') ∧
         acquires config obs now addr (ConnectionPool.inner p) r (ConnectionPool.inner p').
Proof.
  destruct (shutting_down (ConnectionPool.inner p)) eqn:Hd.
  - unfold attempt_acquire, st_get, st_bind at 1. by rewrite Hd.
  - destruct (attempt_acquire_spec config obs now addr p Hd) as (r & p' & Hr & _ & Ha). by exists r, p'.
Qed.

(** The idle set after a reservation was rolled back *)
Lemma rollback_idle {E} failed r p : shutting_down (ConnectionPool.inner p) = false →
  ∃ r' p', PendingReservation.rollback (E:=E) failed r p = (Ok r', p') ∧
    PendingReservation.committed r' = true ∧ ConnectionPool.wakes p' = ConnectionPool.wakes p + 1 ∧
    idle (ConnectionPool.inner p') ≡ₚ listed (PendingReservation.evicted r) ++ idle (ConnectionPool.inner p).
Proof.
  intros Hd. destruct p as [i wk], r as [a pr [e|] c]; do 2 eexists; (split; [done|split; [done|split; [done|]]]); simpl in *.
  - destruct failed; autorewrite with pool; rewrite Hd; autorewrite with pool; by rewrite <- Permutation_cons_append.
  - by destruct failed; autorewrite with pool.
Qed.
Lemma reserves_rolled_back config now addr pr i r i' : reserves config now addr pr i (Some r) i' →
  listed (PendingReservation.evicted r) ++ idle i' ≡ₚ idle i ∧ shutting_down i' = shutting_down i.
Proof. intros Hr. inv Hr; simpl; autorewrite with pool; by split. Qed.
Lemma acquire_pending config obs now addr w r w' :
  exec config (Acquire obs now addr) w = Ok w' → World.holders w' = Pending r :: World.holders w →
  shutting_down (World.inner w') = false ∧
  ∃ gone, idle (World.inner w) ≡ₚ gone ++ listed (PendingReservation.evicted r) ++ idle (World.inner w') ∧
    Forall (λ e, PoolEntry.addr e = addr ∧ obs (PoolEntry.conn e) ≠ TcpIdleObservation.NoAdverseSignal) gone.
Proof.
  unfold exec, running, acquire_immediate, st_bind. destruct (shutting_down (ConnectionPool.inner (World.pool w))) eqn:Hd.
  - unfold attempt_acquire at 1, st_get, st_bind at 1. rewrite Hd. intros [= <-]. simpl. intros Hh.
    apply (f_equal length) in Hh. simpl in Hh. lia.
  - destruct (attempt_acquire_spec config obs now addr (World.pool w) Hd) as (a & p & Ha & _ & Hacq). rewrite Ha.
    destruct a as [[c|r']|]; simpl; intros [= <-]; simpl; intros Hh; [done| |apply (f_equal length) in Hh; simpl in Hh; lia].
    simplify_eq. inversion Hacq as [|rs rest ro i' Ht Hr Ho]. destruct ro as [ro|]; [|done].
    apply reserves_rolled_back in Hr as [Hr Hs]. autorewrite with pool in Hr, Hs. simplify_eq/=.
    split; [by rewrite <- Hd, <- Hs|]. exists (map fst rs). destruct Ht as [Hp _ Hadv]. split; [by rewrite Hr|].
    apply Forall_map. eapply Forall_impl; [done|]. intros [e o] (He & <- & Ho'). simpl in *. split; [lia|done].
Qed.

(** C35. A connect that fails or is cancelled right after its acquisition leaves no trace in the accounting: the
    charges and the holders are those before the acquisition, an evicted connection is
    idle again, what is gone from the idle set had shown an adverse signal, and waiters
    are notified. *)
Theorem failed_connect_rolls_back config obs now addr w r w1 e :
  reachable config w → exec config (Acquire obs now addr) w = Ok w1 →
  World.holders w1 = Pending r :: World.holders w →
  e = Cancel 0 ∨ (∃ now' te, e = ConnectError 0 now' te) →
  ∃ w2 gone, exec config e w1 = Ok w2 ∧ World.holders w2 = World.holders w ∧
    (∀ k, charged k (World.inner w2) = charged k (World.inner w)) ∧
    active_total (World.inner w2) = active_total (World.inner w) ∧
    idle (World.inner w) ≡ₚ gone ++ idle (World.inner w2) ∧
    Forall (λ e, PoolEntry.addr e = addr ∧ obs (PoolEntry.conn e) ≠ TcpIdleObservation.NoAdverseSignal) gone ∧
    ConnectionPool.wakes (World.pool w1) < ConnectionPool.wakes (World.pool w2).
Proof.
  intros Hw%reachable_invariant Ha Hh He. pose proof (event_ok config (Acquire obs now addr) w Hw) as Hs1. rewrite Ha in Hs1. destruct Hs1 as [H1 _].
  destruct (acquire_pending _ _ _ _ _ _ _ Ha Hh) as (Hd & gone & Hp & Hg).
  assert (PendingReservation.committed r = false) as Hc by (destruct H1 as [_ Hok]; rewrite Hh in Hok; by apply Forall_cons in Hok as [[? _] _]).
  assert (∃ p2, exec config e w1 = Ok (World.mk p2 (World.holders w) (World.next_conn w1) (World.touched w1)) ∧
    idle (ConnectionPool.inner p2) ≡ₚ listed (PendingReservation.evicted r) ++ idle (World.inner w1) ∧
    ConnectionPool.wakes p2 = ConnectionPool.wakes (World.pool w1) + 1) as (p2 & E2 & Hp2 & Hw2).
  { destruct He as [->|(now' & te & ->)]; unfold exec, running; rewrite Hh; change ((Pending r :: World.holders w) !! 0%nat) with (Some (Pending r)); cbv iota beta.
    - destruct (rollback_idle (E:=Empty_set) false r (World.pool w1) Hd) as (r' & p' & E & _ & Hw' & Hi).
      exists p'. unfold PendingReservation.drop. rewrite Hc. unfold st_bind. by rewrite E.
    - destruct (rollback_idle (E:=PoolError.t) true r (World.pool w1) Hd) as (r' & p' & E & Hc' & Hw' & Hi).
      exists p'. unfold finish_acquisition, PendingReservation.fail, st_bind. rewrite E. unfold PendingReservation.drop. rewrite Hc'. done. }
  eexists _, gone. split; [done|]. pose proof (event_ok config e w1 H1) as Hs2. rewrite E2 in Hs2. destruct Hs2 as [[Hl2 _] _].
  destruct Hw as [Hl _]. simpl in *. unfold World.inner in *. simpl in *. split; [done|].
  split; [intros k; by rewrite (ledger_charged _ _ _ _ _ _ Hl2), (ledger_charged _ _ _ _ _ _ Hl)|].
  split; [unfold active_total; by rewrite (ledger_active _ _ _ _ _ _ Hl2), (ledger_active _ _ _ _ _ _ Hl)|].
  split; [by rewrite Hp2|]. split; [done|lia].
Qed.

(** ** A pool of one shared connection and one priority device *)
Definition small_config : PoolConfig.t :=
  PoolConfig.mk 1 [PriorityDevice.new 9 1] true false 1000 1000 BackoffConfig.default.
Definition quiet_line (conn : Z) : Observation := TcpIdleObservation.NoAdverseSignal.
(** A session is returned and lent raw, the priority device is maintained, and the
    returned connection is evicted for another address *)
Definition small_trace : list event :=
  [Acquire quiet_line 10 7; Connect 0 11; MakeReusable 0; ReturnSession 0 20 SessionReuseVerdict.ReuseEligible;
   Maintain 9; MaintainConnect 0 25 false; Acquire quiet_line 30 9; Access 0; Acquire quiet_line 31 8].
Definition small_world : World.t :=
  match run small_config small_trace World.init with Ok w => w | _ => World.init end.
Lemma small_reachable : reachable small_config small_world.
Proof. eapply (reachable_run _ small_trace); [apply reachable_init|]. by vm_compute. Qed.

Lemma pool_accounting_witness :
  metrics (World.inner small_world) = PoolMetricsSnapshot.mk 2 0 2 0 0 ∧
  charged None (World.inner small_world) = count None (World.holders small_world ≫= charges).
Proof. split; [by vm_compute|]. apply (pool_accounting small_config small_world small_reachable). Defined.
Lemma pool_single_owner_witness :
  World.touched small_world = {[ 1 ]} ∧
  NoDup (map PoolEntry.conn (idle (World.inner small_world)) ++ map fst (World.holders small_world ≫= owned)).
Proof. split; [by vm_compute|]. apply (pool_single_owner small_config small_world small_reachable). Defined.
(** Dropping the raw lease of the priority device wakes who waits for that device *)
Lemma waiters_notified_witness :
  waits small_config 9 (World.inner small_world) ∧
  match exec small_config (DropLease 1) small_world with
  | Ok w => waits small_config 9 (World.inner w) ∨ ConnectionPool.wakes (World.pool small_world) < ConnectionPool.wakes (World.pool w)
  | Err _ => True
  | Panic | OutOfFuel => False
  end.
Proof.
  assert (waits small_config 9 (World.inner small_world)) as Hw by (split; [constructor|by vm_compute]).
  split; [exact Hw|]. apply (waiters_notified small_config small_world (DropLease 1) 9 small_reachable Hw).
Defined.
Lemma failed_connect_rolls_back_witness :
  ∃ w w1 r, reachable small_config w ∧ PendingReservation.evicted r ≠ None ∧
    exec small_config (Acquire quiet_line 31 8) w = Ok w1 ∧ World.holders w1 = Pending r :: World.holders w ∧
    ∃ w2 gone, exec small_config (ConnectError 0 40 TransportError.Timeout) w1 = Ok w2 ∧ idle (World.inner w) ≡ₚ gone ++ idle (World.inner w2).
Proof.
  pose (w := match run small_config (take 8 small_trace) World.init with Ok w => w | _ => World.init end).
  pose (w1 := match exec small_config (Acquire quiet_line 31 8) w with Ok w => w | _ => World.init end).
  pose (r := PendingReservation.new 8 false (Some (PoolEntry.mk 7 0 20 false))).
  assert (reachable small_config w) as Hr by (eapply (reachable_run _ (take 8 small_trace)); [apply reachable_init|by vm_compute]).
  assert (exec small_config (Acquire quiet_line 31 8) w = Ok w1) as Ha by (by vm_compute).
  assert (World.holders w1 = Pending r :: World.holders w) as Hh by (by vm_compute).
  assert (PendingReservation.evicted r ≠ None) as Hev by discriminate.
  clearbody w w1 r. exists w, w1, r. do 4 (split; [assumption|]).
  destruct (failed_connect_rolls_back small_config quiet_line 31 8 w r w1 (ConnectError 0 40 TransportError.Timeout) Hr Ha Hh)
    as (w2 & gone & E & _ & _ & _ & Hp & _); [right; by do 2 eexists|]. by exists w2, gone.
Defined.
