(* ===== verification/Client.v ===== *)
(** * The client request path (crates/rusty-modbus-client: src/client.rs, src/config.rs, src/reader.rs)

    One request from admission to its reply: the attempt, which registers a
    transaction, sends a frame and waits for the reply, and the loop that decides
    what is tried again. What happens while the client waits is up to the other
    tasks: the class [Runtime] has one operation per await, which may change
    everything the tasks share. Durations and instants are in nanoseconds. *)
From S2P Require Import Prelude Deadlines Types CodecError Responses Pdu Stream Owned Session Transaction.

Definition u32_max : Z := 4294967295.
(** ** config.rs *)
Module RetryConfig.
Record t : Type := mk { max_retries : Z; retry_delay : Z; retryable_exceptions : list ExceptionCode.t }.
Definition default : t := mk 3 100000000 [ExceptionCode.ServerDeviceBusy].
Definition is_retryable (self : t) (code : ExceptionCode.t) : bool :=
  bool_decide (code = ExceptionCode.ServerDeviceBusy)
  && bool_decide (ExceptionCode.ServerDeviceBusy ∈ retryable_exceptions self).
End RetryConfig.
Module ClientConfig.
Record t : Type := mk {
  unit_id : Z;
  timeout : Z;
  max_in_flight : Z;
  retry : RetryConfig.t;
  shutdown_timeout : Z;
}.
Definition default : t := mk 0xFF 5000000000 16 RetryConfig.default 10000000000.
End ClientConfig.

Module RequestKind.
Inductive t : Type := ReplaySafe | Mutating.
#[global] Instance eq_dec : EqDecision t.
Proof. solve_decision. Defined.
End RequestKind.
Module AttemptDisposition.
Inductive t : Type := Complete (result : reply) | Retry (error : ClientError.t).
End AttemptDisposition.
Module PollOutcome.
Inductive t (A : Type) : Type := Ready (output : A) | Deadline | Cancelled.
Arguments Ready {A}. Arguments Deadline {A}. Arguments Cancelled {A}.
End PollOutcome.
Abbreviation Poll := PollOutcome.t.

Definition checked_pdu_length (pdu_len : Z) : res ClientError.t Z :=
  if pdu_len =? 0
  then Err (ClientError.Transport (TransportError.Frame (FrameError.InvalidPduLength pdu_len 1))) else
  if MAX_PDU_SIZE <? pdu_len
  then Err (ClientError.Transport (TransportError.Frame (FrameError.PduLengthOverflow pdu_len MAX_PDU_SIZE))) else
  if pdu_len <=? u16_max then Ok pdu_len else Panic.

Definition operation_budget (timeout retry_delay max_retries : Z) : Z :=
  duration_saturating_add
    (duration_saturating_add (duration_saturating_mul timeout max_retries) timeout)
    (duration_saturating_mul retry_delay max_retries).

(** The retry decision; the reasons are for the log *)
Definition classify_attempt (config : ClientConfig.t) (request_kind : RequestKind.t) (result : reply) : AttemptDisposition.t :=
  match result with
  | Ok (OwnedResponsePdu.Exception exc) =>
      let code := ExceptionResponse.exception_code exc in
      if bool_decide (code = ExceptionCode.Acknowledge)
      then AttemptDisposition.Complete (Ok (OwnedResponsePdu.Exception exc)) else
      if bool_decide (code = ExceptionCode.ServerDeviceBusy)
         && RetryConfig.is_retryable (ClientConfig.retry config) code
      then AttemptDisposition.Retry (ClientError.Exception exc)
      else AttemptDisposition.Complete (Ok (OwnedResponsePdu.Exception exc))
  | Ok response => AttemptDisposition.Complete (Ok response)
  | Err ClientError.Timeout =>
      if bool_decide (request_kind = RequestKind.ReplaySafe) then AttemptDisposition.Retry ClientError.Timeout
      else AttemptDisposition.Complete (Err ClientError.Timeout)
  | Err (ClientError.Transport TransportError.Timeout) =>
      if bool_decide (request_kind = RequestKind.ReplaySafe)
      then AttemptDisposition.Retry (ClientError.Transport TransportError.Timeout)
      else AttemptDisposition.Complete (Err (ClientError.Transport TransportError.Timeout))
  | Err error => AttemptDisposition.Complete (Err error)
  | Panic => AttemptDisposition.Complete Panic
  | OutOfFuel => AttemptDisposition.Complete OutOfFuel
  end.

(** What [finish_typed_response] retires the session for *)
Definition typed_retirement {A} (result : res ClientError.t A) : option SessionRetirementReason.t :=
  match result with
  | Err (ClientError.UnexpectedResponseEcho _ _ _) => Some SessionRetirementReason.TypedResponseEchoMismatch
  | Err (ClientError.Codec _) | Err (ClientError.ShortResponse _ _)
  | Err (ClientError.UnexpectedResponseLength _ _ _) | Err (ClientError.UnexpectedResponsePadding _ _ _)
  | Err (ClientError.UnexpectedFileRecordSubResponseCount _ _)
  | Err (ClientError.InvalidDeviceIdentificationContinuation _ _)
  | Err (ClientError.DeviceIdentificationPaginationLimit _) => Some SessionRetirementReason.TypedResponseDataInvalid
  | _ => None
  end.

(** ** What the client shares with the other tasks, and its awaits *)
Class Runtime (W : Type) : Type := {
  (** the ring of transactions, with the verdict on the session *)
  txn_mgr : W → TransactionManager.t;
  set_txn_mgr : TransactionManager.t → W → W;
  connected : W → bool;
  now : W → Z;
  instant_max : Z;
  (** [lifecycle.admit().await] and the drop of the guard it returns *)
  enter : W → res ClientError.t unit * W;
  leave : W → W;
  is_cancelled : W → bool;
  (** [poll_before_deadline_or_cancel] of [sink.lock()], the same without a deadline,
      and the drop of the guard *)
  lock_sink : Z → W → Poll unit * W;
  lock_sink_forever : W → Poll unit * W;
  unlock_sink : W → W;
  (** [poll_before_deadline_or_cancel] of [sink.send(frame)], and the same without a
      deadline *)
  send_frame : Z → Frame.t → W → Poll (res TransportError.t unit) * W;
  send_frame_forever : Frame.t → W → Poll (res TransportError.t unit) * W;
  (** [rx.await]; [None] when the sender is gone *)
  receive : Z → W → option reply * W;
  (** [sleep_until], or [true] when the operation was cancelled *)
  sleep_or_cancelled : Z → W → bool * W;
}.

Section Requests.
Context {W : Type} `{Runtime W} (config : ClientConfig.t).

(** An access to the ring: one atomic action *)
Definition on_ring {A} (m : TransactionManager.M A) : ST W ClientError.t A :=
  λ w, let '(r, mgr) := m (txn_mgr w) in (r, set_txn_mgr mgr w).
(** A guard dropped when [m] returns *)
Definition dropping {A} (drop : W → W) (m : ST W ClientError.t A) : ST W ClientError.t A :=
  λ w, let '(r, w) := m w in (r, drop w).
Definition await {A} (m : W → A * W) : ST W ClientError.t A := λ w, let '(a, w) := m w in (Ok a, w).
(** An [Empty_set] error cannot happen *)
Definition infallible {A} (r : res Empty_set A) : ST W ClientError.t A :=
  st_lift match r with Ok a => Ok a | Err e => match e with end | Panic => Panic | OutOfFuel => OutOfFuel end.
Definition retire (reason : SessionRetirementReason.t) : ST W ClientError.t unit :=
  on_ring (TransactionManager.retire reason).

(** Leaving [send_request] after the registration: the dispatch guard and the
    registration are dropped *)
Definition dispatched (armed : bool) (txn_id : Z) (result : reply) : ST W ClientError.t OwnedResponsePdu.t :=
  (if armed then retire SessionRetirementReason.DispatchCancelled else st_ret tt);;;
  on_ring (TransactionRegistration.drop txn_id);;;
  st_lift result.
(** [rx.try_recv()] *)
Definition try_recv (rx : Z) (mgr : TransactionManager.t) : option reply :=
  option_map snd (List.find (λ s, s.1 =? rx) (TransactionManager.sent mgr)).
Definition send_failure (e : TransportError.t) : SessionRetirementReason.t :=
  match e with TransportError.Timeout => SessionRetirementReason.RequestTimedOut | _ => SessionRetirementReason.SendFailed end.

Definition send_request (unit_id : Z) (function_code : FunctionCode.t) (pdu_data : bytes) (pdu_len attempt_deadline : Z)
    : ST W ClientError.t OwnedResponsePdu.t :=
  w <- st_get;;
  if negb (connected w) then st_err ClientError.NotConnected else
  locked <- await (lock_sink attempt_deadline);;
  match locked with
  | PollOutcome.Deadline => st_err ClientError.Timeout
  | PollOutcome.Cancelled => st_err ClientError.ShuttingDown
  | PollOutcome.Ready _ =>
      w <- st_get;;
      let '(registered, mgr) := TransactionManager.register unit_id function_code attempt_deadline (now w) (txn_mgr w) in
      st_modify (set_txn_mgr mgr);;;
      match registered with
      | Err e => dropping unlock_sink (st_err e)
      | Panic => st_panic
      | OutOfFuel => st_lift OutOfFuel
      | Ok (txn_id, rx) =>
          header <- infallible (MbapHeader.new txn_id unit_id pdu_len);;
          let frame := Frame.mk (FrameHeader.Mbap header) pdu_data in
          sent <- await (send_frame attempt_deadline frame);;
          match sent with
          | PollOutcome.Ready (Ok _) =>
              st_modify unlock_sink;;;
              response <- await (receive rx);;
              match response with
              | Some (Ok response) => dispatched (DispatchGuard.disarm DispatchGuard.armed) txn_id (Ok response)
              | Some result => dispatched DispatchGuard.armed txn_id result
              | None =>
                  retire SessionRetirementReason.ResponseChannelClosed;;;
                  dispatched DispatchGuard.armed txn_id (Err ClientError.ShuttingDown)
              end
          | PollOutcome.Ready (Err e) =>
              retire (send_failure e);;;
              dropping unlock_sink (dispatched DispatchGuard.armed txn_id (Err (ClientError.Transport e)))
          | PollOutcome.Ready Panic => st_panic
          | PollOutcome.Ready OutOfFuel => st_lift OutOfFuel
          | PollOutcome.Deadline =>
              retire SessionRetirementReason.RequestTimedOut;;;
              dropping unlock_sink (dispatched DispatchGuard.armed txn_id (Err ClientError.Timeout))
          | PollOutcome.Cancelled =>
              w <- st_get;;
              dropping unlock_sink match try_recv rx (txn_mgr w) with
                | Some (Ok response) => dispatched (DispatchGuard.disarm DispatchGuard.armed) txn_id (Ok response)
                | Some result => dispatched DispatchGuard.armed txn_id result
                | None => dispatched DispatchGuard.armed txn_id (Err ClientError.ShuttingDown)
                end
          end
      end
  end.

Definition send_broadcast (pdu_data : bytes) : ST W ClientError.t unit :=
  w <- st_get;;
  if negb (connected w) then st_err ClientError.NotConnected else
  pdu_len <- st_lift (checked_pdu_length (blen pdu_data));;
  admitted <- await enter;;
  st_lift admitted;;;
  dropping leave (
    w <- st_get;;
    if is_cancelled w then st_err ClientError.ShuttingDown else
    header <- infallible (MbapHeader.new 0 0x00 pdu_len);;
    let frame := Frame.mk (FrameHeader.Mbap header) pdu_data in
    locked <- await lock_sink_forever;;
    match locked with
    | PollOutcome.Deadline | PollOutcome.Cancelled => st_err ClientError.ShuttingDown
    | PollOutcome.Ready _ =>
        dropping unlock_sink (
          sent <- await (send_frame_forever frame);;
          match sent with
          | PollOutcome.Deadline | PollOutcome.Cancelled =>
              retire SessionRetirementReason.DispatchCancelled;;;
              st_err ClientError.ShuttingDown
          | PollOutcome.Ready (Ok _) => st_ret tt
          | PollOutcome.Ready (Err error) =>
              retire (send_failure error);;;
              retire SessionRetirementReason.DispatchCancelled;;;
              st_err (ClientError.Transport error)
          | PollOutcome.Ready Panic => st_panic
          | PollOutcome.Ready OutOfFuel => st_lift OutOfFuel
          end)
    end).

(** The loop of [send_with_retry]: at most [max_retries] rounds repeat the request. *)
Fixpoint retry_loop (fuel : nat) (unit_id : Z) (function_code : FunctionCode.t) (pdu_data : bytes) (pdu_len : Z)
    (request_kind : RequestKind.t) (operation_deadline attempts_made : Z) (last_error : option ClientError.t)
    : ST W ClientError.t OwnedResponsePdu.t :=
  match fuel with
  | O => st_lift OutOfFuel
  | S fuel =>
      w <- st_get;;
      if is_cancelled w then st_err ClientError.ShuttingDown else
      if operation_deadline <=? now w
      then st_err (ClientError.RetriesExhausted attempts_made (default ClientError.Timeout last_error)) else
      attempt_end <- infallible (saturating_instant_add instant_max (now w) (ClientConfig.timeout config));;
      let attempt_deadline := Z.min attempt_end operation_deadline in
      let attempts_made := Z.min (attempts_made + 1) u32_max in
      result <- await (send_request unit_id function_code pdu_data pdu_len attempt_deadline);;
      match classify_attempt config request_kind result with
      | AttemptDisposition.Complete result => st_lift result
      | AttemptDisposition.Retry error =>
          if (RetryConfig.max_retries (ClientConfig.retry config) <? attempts_made) || (attempts_made =? u32_max)
          then st_err (ClientError.RetriesExhausted attempts_made error) else
          w <- st_get;;
          backoff_end <- infallible (saturating_instant_add instant_max (now w)
                                       (RetryConfig.retry_delay (ClientConfig.retry config)));;
          cancelled <- await (sleep_or_cancelled (Z.min backoff_end operation_deadline));;
          if cancelled : bool then st_err ClientError.ShuttingDown else
          retry_loop fuel unit_id function_code pdu_data pdu_len request_kind operation_deadline attempts_made (Some error)
      end
  end.
Definition retry_fuel : nat := S (Z.to_nat (RetryConfig.max_retries (ClientConfig.retry config))).
Definition send_with_retry (unit_id : Z) (function_code : FunctionCode.t) (pdu_data : bytes) (request_kind : RequestKind.t)
    : ST W ClientError.t OwnedResponsePdu.t :=
  w <- st_get;;
  if negb (connected w) then st_err ClientError.NotConnected else
  pdu_len <- st_lift (checked_pdu_length (blen pdu_data));;
  admitted <- await enter;;
  st_lift admitted;;;
  dropping leave (
    w <- st_get;;
    let budget := operation_budget (ClientConfig.timeout config) (RetryConfig.retry_delay (ClientConfig.retry config))
                    (RetryConfig.max_retries (ClientConfig.retry config)) in
    operation_deadline <- infallible (saturating_instant_add instant_max (now w) budget);;
    retry_loop retry_fuel unit_id function_code pdu_data pdu_len request_kind operation_deadline 0 None).
End Requests.

(** ** reader.rs

    What the reader task does with one result of [stream.recv()]: the frame goes to
    its transaction; a transport error ends the task ([false]). *)
Module Reader.
Record t : Type := mk { ring : TransactionManager.t; connected : bool }.
Definition on_ring {A} (m : TransactionManager.M A) : ST t ClientError.t A :=
  λ '(mk r c), let '(x, r) := m r in (x, mk r c).
Definition stop (reason : SessionRetirementReason.t) (error : TransportError.t) : ST t ClientError.t bool :=
  on_ring (TransactionManager.retire reason);;;
  st_modify (λ '(mk r _), mk r false);;;
  on_ring (TransactionManager.cancel_all (λ _, ClientError.Transport error));;;
  st_ret false.
Definition received (now : Z) (result : res TransportError.t Frame.t) : ST t ClientError.t bool :=
  match result with
  | Ok frame =>
      match Frame.header frame with
      | FrameHeader.Mbap h =>
          on_ring (TransactionManager.complete_response (MbapHeader.transaction_id h) (MbapHeader.unit_id h)
                     (Frame.pdu frame) now);;;
          st_ret true
      | FrameHeader.Rtu unit_id =>
          on_ring (TransactionManager.complete_oldest_response unit_id (Frame.pdu frame) now);;;
          st_ret true
      end
  | Err TransportError.Timeout => st_ret true
  | Err TransportError.Disconnected => stop SessionRetirementReason.ReaderDisconnected TransportError.Disconnected
  | Err _ => stop SessionRetirementReason.ReaderTransportFailed TransportError.Io
  | Panic => st_panic
  | OutOfFuel => st_lift OutOfFuel
  end.
End Reader.

(** * Lemmas *)

Lemma operation_budget_spec timeout delay retries : 0 ≤ timeout → 0 ≤ delay → 0 ≤ retries →
  operation_budget timeout delay retries = Z.min ((retries + 1) * timeout + retries * delay) DURATION_MAX.
Proof.
  intros. unfold operation_budget, duration_saturating_add, duration_saturating_mul.
  replace ((retries + 1) * timeout + retries * delay) with (timeout * retries + timeout + delay * retries) by lia.
  assert (0 ≤ DURATION_MAX) by done. assert (0 ≤ timeout * retries) by nia. assert (0 ≤ delay * retries) by nia. lia.
Qed.
Lemma checked_pdu_length_spec n : 0 ≤ n → returns (checked_pdu_length n) ∧
  (1 ≤ n ≤ 253 ∧ checked_pdu_length n = Ok n ∨ ¬ 1 ≤ n ≤ 253 ∧ ∃ e, checked_pdu_length n = Err e).
Proof.
  intros Hn. unfold checked_pdu_length. change MAX_PDU_SIZE with 253.
  destruct (Z.eqb_spec n 0); [split; [done|right; split; [lia|by eexists]]|].
  destruct (Z.ltb_spec 253 n); [split; [done|right; split; [lia|by eexists]]|].
  replace (n <=? u16_max) with true by (unfold u16_max; lia). split; [done|]. left. split; [lia|done].
Qed.

(** ** The retry loop

    A result that may be repeated, with the error it counts as: the device is busy
    and the configuration says so, or, only for a request that changes nothing, no
    answer came in time. *)
Inductive repeatable (config : ClientConfig.t) (kind : RequestKind.t) : reply → ClientError.t → Prop :=
  | repeat_busy exc : ExceptionResponse.exception_code exc = ExceptionCode.ServerDeviceBusy →
      ExceptionCode.ServerDeviceBusy ∈ RetryConfig.retryable_exceptions (ClientConfig.retry config) →
      repeatable config kind (Ok (OwnedResponsePdu.Exception exc)) (ClientError.Exception exc)
  | repeat_timeout : kind = RequestKind.ReplaySafe → repeatable config kind (Err ClientError.Timeout) ClientError.Timeout
  | repeat_transport_timeout : kind = RequestKind.ReplaySafe →
      repeatable config kind (Err (ClientError.Transport TransportError.Timeout)) (ClientError.Transport TransportError.Timeout).

Lemma classify_attempt_spec config kind r :
  match classify_attempt config kind r with
  | AttemptDisposition.Retry e => repeatable config kind r e
  | AttemptDisposition.Complete r' => r' = r ∧ ∀ e, ¬ repeatable config kind r e
  end.
Proof.
  destruct r as [o|e| |]; cbn [classify_attempt]; [..|by split; [|inversion 1]|by split; [|inversion 1]].
  - destruct o as [| | | | | | | | | | | | | | | | | | | |e]; try by split; [|inversion 1]. unfold RetryConfig.is_retryable.
    destruct (bool_decide_reflect (ExceptionResponse.exception_code e = ExceptionCode.Acknowledge)) as [Ha|_].
    { split; [done|]. inversion 1. congruence. }
    destruct (bool_decide_reflect (ExceptionResponse.exception_code e = ExceptionCode.ServerDeviceBusy)) as [Hb|Hb];
      cbn [andb]; [|by split; [|inversion 1]].
    destruct (bool_decide_reflect (ExceptionCode.ServerDeviceBusy ∈ RetryConfig.retryable_exceptions (ClientConfig.retry config)));
      [by constructor|by split; [|inversion 1]].
  - destruct e; try by split; [|inversion 1].
    + case_bool_decide; [by constructor|by split; [|inversion 1]].
    + destruct e; try by split; [|inversion 1]. case_bool_decide; [by constructor|by split; [|inversion 1]].
Qed.

Definition config_ok (config : ClientConfig.t) : Prop :=
  0 ≤ ClientConfig.timeout config ≤ DURATION_MAX ∧
  0 ≤ RetryConfig.retry_delay (ClientConfig.retry config) ≤ DURATION_MAX ∧
  0 ≤ RetryConfig.max_retries (ClientConfig.retry config) ≤ u32_max.

Section Retry.
Context {W : Type} `{Runtime W} (now_bounded : ∀ w : W, now w ≤ instant_max).
Context (config : ClientConfig.t) (Hconfig : config_ok config).
Context (unit_id : Z) (function_code : FunctionCode.t) (pdu_data : bytes) (pdu_len : Z) (kind : RequestKind.t) (deadline : Z).
Abbreviation max_retries := (RetryConfig.max_retries (ClientConfig.retry config)).

(** One attempt, its own deadline within the timeout and the operation's deadline *)
Definition tried (w : W) (r : reply) (w' : W) : Prop :=
  is_cancelled w = false ∧ now w < deadline ∧
  ∃ d, d ≤ deadline ∧ d ≤ now w + ClientConfig.timeout config ∧ send_request unit_id function_code pdu_data pdu_len d w = (r, w').
(** Attempts that failed, each followed by a sleep that ends by the deadline *)
Inductive rounds (w : W) : list ClientError.t → W → Prop :=
  | rounds_none : rounds w [] w
  | rounds_another errors w1 r e w2 until w3 : rounds w errors w1 → tried w1 r w2 → repeatable config kind r e →
      until ≤ deadline → sleep_or_cancelled until w2 = (false, w3) → rounds w (errors ++ [e]) w3.
(** How the loop ends after [n] failed attempts, the last one with [previous] *)
Inductive concludes (n : Z) (previous : option ClientError.t) (w : W) : reply → W → Prop :=
  | conclude_cancelled : is_cancelled w = true → concludes n previous w (Err ClientError.ShuttingDown) w
  | conclude_late : is_cancelled w = false → deadline ≤ now w →
      concludes n previous w (Err (ClientError.RetriesExhausted n (default ClientError.Timeout previous))) w
  | conclude_answered r w' : tried w r w' → (∀ e, ¬ repeatable config kind r e) → concludes n previous w r w'
  | conclude_exhausted r e w' : tried w r w' → repeatable config kind r e → n + 1 = Z.min (max_retries + 1) u32_max →
      concludes n previous w (Err (ClientError.RetriesExhausted (n + 1) e)) w'
  | conclude_interrupted r e w1 until w' : tried w r w1 → repeatable config kind r e → sleep_or_cancelled until w1 = (true, w') →
      concludes n previous w (Err ClientError.ShuttingDown) w'.

Lemma retry_loop_spec fuel : ∀ w0 errors w, rounds w0 errors w → blen errors ≤ max_retries → blen errors < u32_max →
  (Z.to_nat (max_retries - blen errors) < fuel)%nat →
  ∃ errors' w1 r w', retry_loop config fuel unit_id function_code pdu_data pdu_len kind deadline (blen errors) (last errors) w = (r, w') ∧
    rounds w0 errors' w1 ∧ blen errors' ≤ max_retries ∧ blen errors' < u32_max ∧ concludes (blen errors') (last errors') w1 r w'.
Proof.
  destruct Hconfig as (Ht & Hdelay & Hmax).
  induction fuel as [|fuel IH]; intros w0 errors w Hr Hn Hu Hf; [lia|]. cbn [retry_loop]. unfold st_bind at 1, st_get at 1.
  destruct (is_cancelled w) eqn:Hc; [exists errors, w; do 2 eexists; repeat (split; [done|]); by constructor|].
  destruct (Z.leb_spec deadline (now w)) as [Hlate|Hlate].
  { exists errors, w. do 2 eexists. repeat (split; [done|]). by constructor. }
  rewrite saturating_instant_add_spec by done. unfold st_bind at 1, infallible at 1, st_lift at 1. unfold st_bind at 1, await at 1.
  pose proof (blen_nonneg errors). rewrite Z.min_l with (n := blen errors + 1) by lia.
  set (d := Z.min (Z.min _ _) deadline).
  destruct (send_request unit_id function_code pdu_data pdu_len d w) as [r w1] eqn:Hsend.
  assert (tried w r w1) as Htried by (split_and!; [done..|exists d; split_and!; [lia..|done]]).
  pose proof (classify_attempt_spec config kind r) as Hcl. destruct (classify_attempt config kind r) as [r'|e].
  { destruct Hcl as [-> Hcl]. exists errors, w. do 2 eexists. repeat (split; [done|]). by constructor. }
  destruct (((max_retries <? blen errors + 1) || (blen errors + 1 =? u32_max))) eqn:Hlast.
  { exists errors, w. do 2 eexists. repeat (split; [done|]). apply (conclude_exhausted _ _ _ r); [done..|]. unfold u32_max in *. lia. }
  unfold st_bind at 1, st_get at 1. rewrite saturating_instant_add_spec by done.
  unfold st_bind at 1, infallible at 1, st_lift at 1. unfold st_bind at 1, await at 1.
  set (until := Z.min _ deadline). destruct (sleep_or_cancelled until w1) as [[] w2] eqn:Hsleep.
  { exists errors, w. do 2 eexists. repeat (split; [done|]). by eapply conclude_interrupted. }
  assert (rounds w0 (errors ++ [e]) w2) as Hr' by (by eapply rounds_another; [done| | |apply Z.le_min_r|]).
  assert (blen (errors ++ [e]) = blen errors + 1) as Hl by (rewrite blen_app; done).
  replace (Some e) with (last (errors ++ [e])) by apply last_snoc. rewrite <-Hl. apply IH; [done|unfold u32_max in *; lia..].
Qed.
End Retry.

(** ** The ring under an attempt

    Every result handed over is an error or a response decoded from a PDU. *)
Definition reply_sound (r : reply) : Prop :=
  match r with
  | Ok o => ∃ pdu, bytes_ok pdu ∧ blen pdu ≤ 253 ∧ OwnedResponsePdu.from_pdu pdu = Ok o
  | Err _ => True
  | Panic | OutOfFuel => False
  end.
Definition ring_inv (m : TransactionManager.t) : Prop :=
  ring_ok m ∧ Forall (λ x, reply_sound x.2) (TransactionManager.sent m).
Definition retired (m : TransactionManager.t) : Prop := RETIRED_BASE ≤ TransactionManager.reuse_safety m.
(** What the other tasks may do to the ring *)
Definition evolves (m m' : TransactionManager.t) : Prop := ring_inv m → ring_inv m' ∧ (retired m → retired m').

#[export] Instance evolves_preorder : PreOrder evolves.
Proof. split; [by intros m|]. intros m1 m2 m3 H1 H2 [Hm2 Hr]%H1. destruct (H2 Hm2) as [? ?]. auto. Qed.

Lemma retire_evolves reason m : ∃ m', TransactionManager.retire reason m = (Ok tt, m') ∧ evolves m m' ∧ retired m'.
Proof.
  destruct m as [n s d r c l]. eexists. split; [reflexivity|]. split; [|apply retire_retired]. intros [Hm Hl].
  split; [|intros _; apply retire_retired]. split; [|done]. apply (ring_frame n s d r c l); try done; [apply (ring_next_id _ Hm)|].
  apply retire_ok, (ring_safety _ Hm).
Qed.
Lemma drop_evolves txn m : ring_inv m → ∃ m', TransactionRegistration.drop txn m = (Ok tt, m') ∧ ring_inv m' ∧
  TransactionManager.reuse_safety m' = TransactionManager.reuse_safety m ∧ ∀ p, pending m' p → pending m p ∧ PendingTransaction.txn_id p ≠ txn.
Proof.
  intros [Hm Hl]. destruct (remove_spec m txn Hm) as (b & m' & Heq & Hm' & [Hs Hr] & Hp & _). exists m'.
  unfold TransactionRegistration.drop. rewrite (st_bind_Ok _ _ _ _ _ Heq). split; [done|]. split; [split; [done|by rewrite Hs]|].
  split; [done|]. intros p. apply Hp.
Qed.
Lemma register_evolves u f deadline now m : ring_inv m → ∃ m', ring_inv m' ∧
  TransactionManager.reuse_safety m' = TransactionManager.reuse_safety m ∧
  ((∃ id ch, TransactionManager.register u f deadline now m = (Ok (id, ch), m') ∧ 1 ≤ id < 65536) ∨
   ∃ id, TransactionManager.register u f deadline now m = (Err (ClientError.TransactionConflict id), m')).
Proof.
  intros [Hm Hl]. destruct m as [n s d r c l].
  destruct (register_spec u f deadline now s (ring_length _ Hm) d r c l n (ring_next_id _ Hm))
    as (n' & Hn' & [(id & Hid & Hfree & Heq)|[Hfull [x Heq]]]).
  - exists (registered u f deadline now s r c l id n'). split; [split; [by eapply ring_occupy|done]|]. split; [done|]. left. eauto.
  - exists (TransactionManager.mk n' s d r c l). split; [|eauto]. split; [|done]. eapply ring_frame; [done..|by destruct Hm].
Qed.

(** ** The ring under the reader and the deadline task *)
Lemma safety_after_retired o r r' : safety_after o r r' → RETIRED_BASE ≤ r → RETIRED_BASE ≤ r'.
Proof. destruct o; cbn; [by intros ->|..]; intros [reason ->] _; apply retire_retired. Qed.
Lemma judged_sound p u pdu now o v : bytes_ok pdu → blen pdu ≤ 253 → judged p u pdu now o v → reply_sound v.
Proof. intros Hb Hl. destruct 1; try done. by exists pdu. Qed.
Lemma completed_evolves m m' p u pdu now o : bytes_ok pdu → blen pdu ≤ 253 → completed m m' p u pdu now o → evolves m m'.
Proof.
  intros Hb Hl (Hm' & Hs & v & Hj & Hsent & _) [_ Hall]. split; [|by eapply safety_after_retired]. split; [done|].
  rewrite Hsent. apply Forall_app. split; [done|]. constructor; [by eapply judged_sound|constructor].
Qed.
Lemma ignored_evolves m m' o : ignored m m' o → evolves m m'.
Proof. intros (Hm' & Hs & _ & Hsent) [_ Hall]. split; [|by eapply safety_after_retired]. split; [done|]. by rewrite Hsent. Qed.
Lemma complete_evolves txn u pdu now m : bytes_ok pdu → blen pdu ≤ 253 → evolves m (TransactionManager.complete_response txn u pdu now m).2.
Proof.
  intros Hb Hl Hm. destruct (complete_response_spec m txn u pdu now (proj1 Hm) Hb) as (o & m' & -> & [(p & _ & _ & Hc)|(_ & _ & Hi)]); cbn [snd].
  - by apply (completed_evolves m m' p u pdu now o).
  - by apply (ignored_evolves m m' o).
Qed.
Lemma complete_oldest_evolves u pdu now m : bytes_ok pdu → blen pdu ≤ 253 → evolves m (TransactionManager.complete_oldest_response u pdu now m).2.
Proof.
  intros Hb Hl Hm. destruct (complete_oldest_spec m u pdu now (proj1 Hm) Hb) as [(_ & m' & -> & Hi)|(i & p & Hi & _ & _ & ->)].
  - by eapply ignored_evolves.
  - destruct (complete_selected_spec m i u pdu now (proj1 Hm) Hb Hi) as (o & m' & -> & [(_ & _ & Hc)|(q & _ & [(_ & Hc)|(_ & _ & _ & Hc)])]); cbn [snd];
      first [by eapply ignored_evolves|by eapply completed_evolves].
Qed.
Lemma expire_evolves now m : evolves m (TransactionManager.expire_due_and_next_deadline now m).2.
Proof.
  intros [Hm Hall]. destruct (expire_spec m now Hm) as (x & m' & -> & Hm' & _ & _ & Hsent & Hnone & Hsome). cbn [snd]. split.
  - split; [done|]. rewrite Hsent. apply Forall_app. split; [done|]. unfold replies. apply Forall_forall.
    intros y Hy. apply list_elem_of_In, in_map_iff in Hy as (q & <- & _). done.
  - intros Hr. unfold retired in *. destruct (chosen (is_due now) (TransactionManager.slots m)) eqn:Hc; [by rewrite Hnone|by apply Hsome].
Qed.
(** The reader task, on every frame of legal size *)
Lemma received_evolves now f (r : Reader.t) : bytes_ok (Frame.pdu f) → blen (Frame.pdu f) ≤ 253 →
  evolves (Reader.ring r) (Reader.ring (Reader.received now (Ok f) r).2).
Proof.
  intros Hb Hl. destruct r as [m c]. unfold Reader.received. destruct (Frame.header f) as [h|u]; unfold st_bind, Reader.on_ring.
  - pose proof (complete_evolves (MbapHeader.transaction_id h) (MbapHeader.unit_id h) (Frame.pdu f) now m Hb Hl) as He.
    destruct (TransactionManager.complete_response _ _ _ _ m) as [[]]; exact He.
  - pose proof (complete_oldest_evolves u (Frame.pdu f) now m Hb Hl) as He.
    destruct (TransactionManager.complete_oldest_response _ _ _ m) as [[]]; exact He.
Qed.

(** What the client relies on: a lens on the ring, a clock within its range, and
    tasks that use the ring only through its methods. *)
Class RuntimeLaws (W : Type) `{Runtime W} : Prop := {
  txn_set m (w : W) : txn_mgr (set_txn_mgr m w) = m;
  now_bounded (w : W) : now w ≤ instant_max;
  enter_law (w : W) : returns (enter w).1 ∧ evolves (txn_mgr w) (txn_mgr (enter w).2);
  leave_law (w : W) : txn_mgr (leave w) = txn_mgr w;
  lock_law d (w : W) : evolves (txn_mgr w) (txn_mgr (lock_sink d w).2);
  lock_forever_law (w : W) : evolves (txn_mgr w) (txn_mgr (lock_sink_forever w).2);
  unlock_law (w : W) : txn_mgr (unlock_sink w) = txn_mgr w;
  send_law d f (w : W) : evolves (txn_mgr w) (txn_mgr (send_frame d f w).2) ∧
    match (send_frame d f w).1 with PollOutcome.Ready r => returns r | _ => True end;
  send_forever_law f (w : W) : evolves (txn_mgr w) (txn_mgr (send_frame_forever f w).2) ∧
    match (send_frame_forever f w).1 with PollOutcome.Ready r => returns r | _ => True end;
  receive_law rx (w : W) : evolves (txn_mgr w) (txn_mgr (receive rx w).2) ∧
    match (receive rx w).1 with Some r => (rx, r) ∈ TransactionManager.sent (txn_mgr (receive rx w).2) | None => True end;
  sleep_law d (w : W) : evolves (txn_mgr w) (txn_mgr (sleep_or_cancelled d w).2);
}.

Section Attempts.
Context {W : Type} `{RuntimeLaws W}.

Lemma on_ring_Ok {A} (m : TransactionManager.M A) w a mgr : m (txn_mgr w) = (Ok a, mgr) → on_ring m w = (Ok a, set_txn_mgr mgr w).
Proof. intros Heq. unfold on_ring. by rewrite Heq. Qed.
Lemma retire_run reason (w : W) : ∃ w', retire reason w = (Ok tt, w') ∧ evolves (txn_mgr w) (txn_mgr w') ∧ retired (txn_mgr w').
Proof.
  destruct (retire_evolves reason (txn_mgr w)) as (m' & Heq & ? & ?). eexists. split; [by apply on_ring_Ok|]. by rewrite txn_set.
Qed.
(** The end of an attempt that sent its frame *)
Definition leaves (txn : Z) (r : reply) (w : W) (o : reply * W) : Prop :=
  ∃ w', o = (r, w') ∧ ring_inv (txn_mgr w') ∧ (retired (txn_mgr w) → retired (txn_mgr w')) ∧
    (∀ p, pending (txn_mgr w') p → PendingTransaction.txn_id p ≠ txn) ∧
    match r with Ok _ => True | Err _ => retired (txn_mgr w') | Panic | OutOfFuel => False end.
Lemma dispatched_leaves txn r (w : W) armed : ring_inv (txn_mgr w) → reply_sound r →
  match r with Ok _ => True | _ => armed = true end → leaves txn r w (dispatched armed txn r w).
Proof.
  intros Hw Hr Ha. unfold dispatched.
  assert (∃ w1, (if armed then retire SessionRetirementReason.DispatchCancelled else st_ret tt) w = (Ok tt, w1) ∧
    evolves (txn_mgr w) (txn_mgr w1) ∧ (armed = true → retired (txn_mgr w1))) as (w1 & Hw1 & He & Hret).
  { destruct armed; [|by eexists]. destruct (retire_run SessionRetirementReason.DispatchCancelled w) as (w1 & ? & ? & ?). eauto. }
  rewrite (st_bind_Ok _ _ _ _ _ Hw1). destruct (He Hw) as [Hi1 Hk].
  destruct (drop_evolves txn (txn_mgr w1) Hi1) as (m' & Hd & Hi2 & Hs & Hp). rewrite (st_bind_Ok _ _ _ _ _ (on_ring_Ok _ _ _ _ Hd)).
  exists (set_txn_mgr m' w1). split; [done|]. rewrite txn_set. unfold retired in *. rewrite Hs. split_and!; [done..|by intros p [_ ?]%Hp|].
  destruct r; try done. by apply Hret.
Qed.
Lemma leaves_drop txn r (w w0 : W) m : (retired (txn_mgr w0) → retired (txn_mgr w)) → leaves txn r w (m w) →
  leaves txn r w0 (dropping unlock_sink m w).
Proof. intros Hk (w' & Heq & ? & ? & ?). unfold dropping. rewrite Heq. eexists. split; [done|]. rewrite unlock_law. auto. Qed.
Lemma leaves_mono txn r (w w0 : W) o : (retired (txn_mgr w0) → retired (txn_mgr w)) → leaves txn r w o → leaves txn r w0 o.
Proof. intros Hk (w' & Heq & ? & ? & ?). exists w'. split_and!; auto; naive_solver. Qed.

(** How an attempt ends *)
Definition attempt_end (unit_id : Z) (function_code : FunctionCode.t) (deadline : Z) (w : W) (r : reply) (w' : W) : Prop :=
  (connected w = false ∧ r = Err ClientError.NotConnected ∧ w' = w) ∨
  (lock_sink deadline w = (PollOutcome.Deadline, w') ∧ r = Err ClientError.Timeout) ∨
  (lock_sink deadline w = (PollOutcome.Cancelled, w') ∧ r = Err ClientError.ShuttingDown) ∨
  ∃ w1, lock_sink deadline w = (PollOutcome.Ready tt, w1) ∧
    ((∃ id mgr, TransactionManager.register unit_id function_code deadline (now w1) (txn_mgr w1) =
        (Err (ClientError.TransactionConflict id), mgr) ∧
        r = Err (ClientError.TransactionConflict id) ∧ w' = unlock_sink (set_txn_mgr mgr w1)) ∨
     ∃ id ch mgr, TransactionManager.register unit_id function_code deadline (now w1) (txn_mgr w1) = (Ok (id, ch), mgr) ∧
        (∀ p, pending (txn_mgr w') p → PendingTransaction.txn_id p ≠ id) ∧
        match r with Ok _ => True | _ => retired (txn_mgr w') end).

(** Waiting for the reply, after the frame was sent *)
Lemma await_reply_leaves txn rx (w : W) : ring_inv (txn_mgr w) → ∃ r, reply_sound r ∧
  leaves txn r w ((response <- await (receive rx);;
    match response with
    | Some (Ok response) => dispatched (DispatchGuard.disarm DispatchGuard.armed) txn (Ok response)
    | Some result => dispatched DispatchGuard.armed txn result
    | None => retire SessionRetirementReason.ResponseChannelClosed;;; dispatched DispatchGuard.armed txn (Err ClientError.ShuttingDown)
    end) w).
Proof.
  intros Hw. unfold st_bind at 1, await. destruct (receive_law rx w) as [He Hr]. destruct (receive rx w) as [o w1]. cbn [fst snd] in *.
  destruct (He Hw) as [Hi1 Hk]. destruct o as [r|].
  - assert (reply_sound r) as Hs by (destruct Hi1 as [_ Hf]; rewrite Forall_forall in Hf; apply (Hf _ Hr)).
    exists r. split; [done|]. destruct r; try done; eapply leaves_mono; try done; by apply dispatched_leaves.
  - exists (Err ClientError.ShuttingDown). split; [done|].
    destruct (retire_run SessionRetirementReason.ResponseChannelClosed w1) as (w2 & Hret & He2 & Hr2).
    rewrite (st_bind_Ok _ _ _ _ _ Hret). destruct (He2 Hi1) as [Hi2 _]. apply (leaves_mono _ _ w2); [done|]. by apply dispatched_leaves.
Qed.
(** A frame that was not sent, or not entirely *)
Lemma retire_leaves txn reason e (w w0 : W) : (retired (txn_mgr w0) → retired (txn_mgr w)) → ring_inv (txn_mgr w) →
  leaves txn (Err e) w0 ((retire reason;;; dropping unlock_sink (dispatched DispatchGuard.armed txn (Err e))) w).
Proof.
  intros Hk Hw. destruct (retire_run reason w) as (w1 & Hret & He & Hr). rewrite (st_bind_Ok _ _ _ _ _ Hret).
  destruct (He Hw) as [Hi _]. apply leaves_drop; [auto|]. by apply dispatched_leaves.
Qed.
Lemma find_sent rx l r : option_map snd (List.find (λ s : Z * reply, s.1 =? rx) l) = Some r → (rx, r) ∈ l.
Proof.
  destruct (List.find _ l) as [[c r']|] eqn:Hf; [|done]. intros [= <-]. apply List.find_some in Hf as [Hin Hc].
  apply list_elem_of_In. cbn in Hc. by apply Z.eqb_eq in Hc as ->.
Qed.
Lemma send_request_end unit_id function_code pdu_data pdu_len deadline (w : W) : ring_inv (txn_mgr w) → pdu_len ≤ 253 →
  ∃ r w', send_request unit_id function_code pdu_data pdu_len deadline w = (r, w') ∧ reply_sound r ∧
    ring_inv (txn_mgr w') ∧ (retired (txn_mgr w) → retired (txn_mgr w')) ∧ attempt_end unit_id function_code deadline w r w'.
Proof.
  intros Hw Hlen. unfold send_request. unfold st_bind at 1, st_get at 1.
  destruct (connected w) eqn:Hcon; cbn [negb]; [|exists (Err ClientError.NotConnected), w; split_and!; try done; by left].
  unfold st_bind at 1, await at 1. pose proof (lock_law deadline w) as Hl.
  destruct (lock_sink deadline w) as [lk w1] eqn:Hlock. cbn [snd] in Hl. destruct (Hl Hw) as [Hi1 Hk1].
  destruct lk as [[]| |].
  2: { exists (Err ClientError.Timeout), w1. split_and!; try done. right. by left. }
  2: { exists (Err ClientError.ShuttingDown), w1. split_and!; try done. do 2 right. by left. }
  unfold st_bind at 1, st_get at 1.
  destruct (register_evolves unit_id function_code deadline (now w1) (txn_mgr w1) Hi1)
    as (m2 & Hi2 & Hs2 & [(id & ch & Hreg & Hid)|[id Hreg]]); rewrite Hreg; unfold st_bind at 1, st_modify at 1.
  2: { exists (Err (ClientError.TransactionConflict id)), (unlock_sink (set_txn_mgr m2 w1)). unfold retired in *.
       rewrite unlock_law, txn_set, Hs2. split_and!; try done. do 3 right. exists w1. split; [done|]. left. eauto. }
  assert (∀ p r, reply_sound r → leaves id r w p → ∃ r w', p = (r, w') ∧ reply_sound r ∧ ring_inv (txn_mgr w') ∧
    (retired (txn_mgr w) → retired (txn_mgr w')) ∧ attempt_end unit_id function_code deadline w r w') as Hdone.
  { intros p r Hr (w' & -> & ? & ? & ? & Hrr). exists r, w'. split_and!; try done. do 3 right. exists w1. split; [done|].
    right. exists id, ch, m2. split_and!; try done. by destruct r. }
  assert (ring_inv (txn_mgr (set_txn_mgr m2 w1)) ∧ (retired (txn_mgr w) → retired (txn_mgr (set_txn_mgr m2 w1)))) as [Hi2' Hk2]
    by (unfold retired in *; by rewrite txn_set, Hs2).
  set (w2 := set_txn_mgr m2 w1) in *. clearbody w2.
  unfold MbapHeader.new, MbapHeader.try_new. change MAX_PDU_SIZE with 253. change u16_max with 65535.
  replace (253 <? pdu_len) with false by lia. replace (65535 <? pdu_len + 1) with false by lia.
  unfold st_bind at 1, infallible at 1, st_lift at 1. unfold st_bind at 1, await at 1.
  set (f := Frame.mk _ _). destruct (send_law deadline f w2) as [He3 Hr3].
  destruct (send_frame deadline f w2) as [sent w3]. cbn [fst snd] in *. destruct (He3 Hi2') as [Hi3 Hk3].
  assert (retired (txn_mgr w) → retired (txn_mgr w3)) as Hk by auto.
  destruct sent as [[[]|e| |]| |]; try done.
  - unfold st_bind at 1, st_modify at 1. destruct (await_reply_leaves id ch (unlock_sink w3)) as (r & Hr & Hlv); [by rewrite unlock_law|].
    apply (Hdone _ r Hr). eapply leaves_mono; [|exact Hlv]. by rewrite unlock_law.
  - eapply Hdone; [|by apply retire_leaves]. done.
  - eapply Hdone; [|by apply retire_leaves]. done.
  - unfold st_bind at 1, st_get at 1. unfold try_recv. destruct (option_map snd _) as [r|] eqn:Hf.
    + apply find_sent in Hf. assert (reply_sound r) as Hs by (destruct Hi3 as [_ Hall]; rewrite Forall_forall in Hall; apply (Hall _ Hf)).
      eapply (Hdone _ r Hs). destruct r; try done; (apply leaves_drop; [done|]); by apply dispatched_leaves.
    + eapply Hdone; [|apply leaves_drop; [done|]; by apply dispatched_leaves]. done.
Qed.
End Attempts.

Section Operations.
Context {W : Type} `{RuntimeLaws W} (config : ClientConfig.t).
Context (unit_id : Z) (function_code : FunctionCode.t) (pdu_data : bytes) (pdu_len : Z) (kind : RequestKind.t) (deadline : Z).
Context (Hlen : pdu_len ≤ 253).

Lemma tried_evolves (w : W) r w' : tried config unit_id function_code pdu_data pdu_len deadline w r w' → ring_inv (txn_mgr w) →
  ring_inv (txn_mgr w') ∧ (retired (txn_mgr w) → retired (txn_mgr w')) ∧ reply_sound r.
Proof.
  intros (_ & _ & d & _ & _ & Heq) Hw.
  destruct (send_request_end unit_id function_code pdu_data pdu_len d w Hw Hlen) as (r1 & w1 & Heq1 & ? & ? & ? & _).
  rewrite Heq in Heq1. by injection Heq1 as -> ->.
Qed.
Lemma rounds_evolve (w : W) errors w' : rounds config unit_id function_code pdu_data pdu_len kind deadline w errors w' →
  evolves (txn_mgr w) (txn_mgr w').
Proof.
  induction 1 as [|errors w1 r e w2 until w3 _ IH Ht _ _ Hs]; [done|]. etrans; [exact IH|]. intros Hw1.
  destruct (tried_evolves w1 r w2 Ht Hw1) as (Hw2 & Hk & _). pose proof (sleep_law until w2) as Hl. rewrite Hs in Hl.
  destruct (Hl Hw2). auto.
Qed.
Lemma concludes_evolves n previous (w : W) r w' :
  concludes config unit_id function_code pdu_data pdu_len kind deadline n previous w r w' → ring_inv (txn_mgr w) →
  ring_inv (txn_mgr w') ∧ (retired (txn_mgr w) → retired (txn_mgr w')) ∧ reply_sound r.
Proof.
  intros Hc Hw. destruct Hc as [| |r w' Ht|r e w' Ht|r e w1 until w' Ht _ Hs]; try done.
  - by eapply tried_evolves.
  - destruct (tried_evolves w r w' Ht Hw) as (? & ? & _). done.
  - destruct (tried_evolves w r w1 Ht Hw) as (Hw1 & Hk & _). pose proof (sleep_law until w1) as Hl. rewrite Hs in Hl.
    destruct (Hl Hw1). split_and!; [done|auto|done].
Qed.
End Operations.

(** How an operation ends: it is refused before anything is sent, or it ends with
    the retry loop, within the deadline that the whole budget gives *)
Section Ends.
Context {W : Type} `{Runtime W} (config : ClientConfig.t).
Context (unit_id : Z) (function_code : FunctionCode.t) (pdu_data : bytes) (kind : RequestKind.t).
Abbreviation max_retries := (RetryConfig.max_retries (ClientConfig.retry config)).
Definition operation_deadline (start : Z) : Z :=
  Z.min (start + Z.min ((max_retries + 1) * ClientConfig.timeout config +
                        max_retries * RetryConfig.retry_delay (ClientConfig.retry config)) DURATION_MAX) instant_max.
Inductive operation_end (w : W) : reply → W → Prop :=
  | end_not_connected : connected w = false → operation_end w (Err ClientError.NotConnected) w
  | end_bad_length e : ¬ 1 ≤ blen pdu_data ≤ 253 → operation_end w (Err (ClientError.Transport e)) w
  | end_not_admitted e w1 : enter w = (Err e, w1) → operation_end w (Err e) w1
  | end_loop w1 errors w2 r w3 : connected w = true → 1 ≤ blen pdu_data ≤ 253 → enter w = (Ok tt, w1) →
      rounds config unit_id function_code pdu_data (blen pdu_data) kind (operation_deadline (now w1)) w1 errors w2 →
      blen errors ≤ max_retries → blen errors < u32_max →
      concludes config unit_id function_code pdu_data (blen pdu_data) kind (operation_deadline (now w1))
        (blen errors) (last errors) w2 r w3 →
      operation_end w r (leave w3).
End Ends.

Lemma send_with_retry_end {W} `{RuntimeLaws W} config unit_id function_code pdu_data kind (w : W) :
  config_ok config → ring_inv (txn_mgr w) →
  ∃ r w', send_with_retry config unit_id function_code pdu_data kind w = (r, w') ∧
    operation_end config unit_id function_code pdu_data kind w r w' ∧
    reply_sound r ∧ ring_inv (txn_mgr w') ∧ (retired (txn_mgr w) → retired (txn_mgr w')).
Proof.
  intros Hconfig Hw. pose proof Hconfig as (Ht & Hd & Hm). unfold send_with_retry. unfold st_bind at 1, st_get at 1.
  destruct (connected w) eqn:Hcon; cbn [negb]; [|do 2 eexists; split; [done|]; split; [by constructor|done]].
  rewrite st_bind_lift. destruct (checked_pdu_length_spec (blen pdu_data) (blen_nonneg _)) as [_ [[Hl ->]|[Hl [e He]]]].
  2: { unfold checked_pdu_length in *. repeat case_match; simplify_eq; do 2 eexists; (split; [done|]); (split; [by constructor|done]). }
  unfold st_bind at 1, await at 1. destruct (enter_law w) as [Hret Hev]. destruct (enter w) as [[[]|e| |] w1] eqn:Hadmit; try done.
  2: { do 2 eexists. split; [done|]. cbn [snd] in Hev. destruct (Hev Hw). split; [by constructor|done]. }
  cbn [snd] in Hev. destruct (Hev Hw) as [Hw1 Hk1]. rewrite st_bind_lift. unfold dropping, st_bind at 1, st_get at 1.
  rewrite operation_budget_spec by lia. rewrite saturating_instant_add_spec by (apply now_bounded || (split; [nia|lia])).
  unfold st_bind at 1, infallible, st_lift at 1.
  destruct (retry_loop_spec now_bounded config Hconfig unit_id function_code pdu_data (blen pdu_data) kind
    (operation_deadline config (now w1)) (retry_fuel config) w1 [] w1) as (errors & w2 & r & w3 & Heq & Hr & Hn & Hu & Hc);
    [apply rounds_none|change (blen []) with 0; lia|done|unfold retry_fuel; change (blen []) with 0; lia|].
  fold (operation_deadline config (now w1)). change (blen []) with 0 in Heq. cbn [last] in Heq. rewrite Heq.
  exists r, (leave w3). split; [done|]. split; [by eapply end_loop|].
  destruct (rounds_evolve config _ _ _ _ _ _ ltac:(exact (proj2 Hl)) _ _ _ Hr Hw1) as [Hw2 Hk2].
  destruct (concludes_evolves config _ _ _ _ _ _ ltac:(exact (proj2 Hl)) _ _ _ _ _ Hc Hw2) as (? & ? & ?). rewrite leave_law. split_and!; auto.
Qed.
(** A broadcast is sent once and never awaits a reply; one that may have been cut
    short retires the session. *)
Lemma send_broadcast_end {W} `{RuntimeLaws W} pdu_data (w : W) : ring_inv (txn_mgr w) →
  ∃ r w', send_broadcast pdu_data w = (r, w') ∧ returns r ∧ ring_inv (txn_mgr w') ∧ (retired (txn_mgr w) → retired (txn_mgr w')).
Proof.
  intros Hw. unfold send_broadcast. unfold st_bind at 1, st_get at 1.
  destruct (connected w) eqn:Hcon; cbn [negb]; [|by do 2 eexists].
  rewrite st_bind_lift. destruct (checked_pdu_length_spec (blen pdu_data) (blen_nonneg _)) as [_ [[Hl ->]|[Hl [e ->]]]]; [|by do 2 eexists].
  unfold st_bind at 1, await at 1. destruct (enter_law w) as [Hret Hev]. destruct (enter w) as [[[]|e| |] w1]; try done;
    cbn [snd] in Hev; destruct (Hev Hw) as [Hw1 Hk1]; [|by do 2 eexists].
  rewrite st_bind_lift. unfold dropping at 1. unfold st_bind at 1, st_get at 1.
  destruct (is_cancelled w1); [do 2 eexists; split; [done|]; by rewrite leave_law|].
  unfold MbapHeader.new, MbapHeader.try_new. change MAX_PDU_SIZE with 253. change u16_max with 65535.
  replace (253 <? blen pdu_data) with false by lia. replace (65535 <? blen pdu_data + 1) with false by lia.
  unfold st_bind at 1, infallible at 1, st_lift at 1. unfold st_bind at 1, await at 1.
  pose proof (lock_forever_law w1) as Hlk. destruct (lock_sink_forever w1) as [lk w2]. cbn [snd] in Hlk. destruct (Hlk Hw1) as [Hw2 Hk2].
  assert (retired (txn_mgr w) → retired (txn_mgr w2)) as Hk by auto.
  destruct lk as [u| |]; [|do 2 eexists; split; [done|]; by rewrite leave_law..].
  unfold dropping. unfold st_bind at 1, await at 1. set (f := Frame.mk _ _). destruct (send_forever_law f w2) as [Hs Hr].
  destruct (send_frame_forever f w2) as [sent w3]. cbn [fst snd] in *. destruct (Hs Hw2) as [Hw3 Hk3].
  assert (∀ reason, ∃ w4, retire reason w3 = (Ok tt, w4) ∧ ring_inv (txn_mgr w4) ∧ retired (txn_mgr w4)) as Hretire.
  { intros reason. destruct (retire_run reason w3) as (w4 & ? & He & ?). exists w4. destruct (He Hw3). done. }
  destruct sent as [[[]|e| |]| |]; try done.
  - do 2 eexists. split; [done|]. rewrite leave_law, unlock_law. auto.
  - destruct (Hretire (send_failure e)) as (w4 & Heq & Hw4 & Hr4). rewrite (st_bind_Ok _ _ _ _ _ Heq).
    destruct (retire_run SessionRetirementReason.DispatchCancelled w4) as (w5 & Heq5 & He5 & Hr5). rewrite (st_bind_Ok _ _ _ _ _ Heq5).
    destruct (He5 Hw4). do 2 eexists. split; [done|]. by rewrite leave_law, unlock_law.
  - destruct (Hretire SessionRetirementReason.DispatchCancelled) as (w4 & Heq & Hw4 & Hr4). rewrite (st_bind_Ok _ _ _ _ _ Heq).
    do 2 eexists. split; [done|]. by rewrite leave_law, unlock_law.
  - destruct (Hretire SessionRetirementReason.DispatchCancelled) as (w4 & Heq & Hw4 & Hr4). rewrite (st_bind_Ok _ _ _ _ _ Heq).
    do 2 eexists. split; [done|]. by rewrite leave_law, unlock_law.
Qed.

(** * Theorems *)

(** One attempt to send a request, whatever the other tasks do while it waits:
    it always returns. It is refused before anything is sent when the client is not
    connected, when the sink is not free in time, or when 16 requests are in
    flight; otherwise it registers a transaction, which has left the ring when the
    attempt returns, and a session in which the reply was not delivered is marked
    unfit for reuse. *)
Theorem attempt_exact {W} `{RuntimeLaws W} unit_id function_code pdu_data pdu_len deadline (w : W) :
  ring_inv (txn_mgr w) → pdu_len ≤ 253 →
  ∃ r w', send_request unit_id function_code pdu_data pdu_len deadline w = (r, w') ∧ reply_sound r ∧
    ring_inv (txn_mgr w') ∧ (retired (txn_mgr w) → retired (txn_mgr w')) ∧ attempt_end unit_id function_code deadline w r w'.
Proof. apply send_request_end. Qed.

(** C9. A request with retries always returns: after at most one attempt more than
    [max_retries], all within the one deadline that the budget gives. Every attempt
    but the last one failed in a way that may be repeated, which for a request that
    changes something is only a device that said it was busy: a write that may have
    taken effect is never sent again. The result is that of the last attempt, or it
    says that the retries or the time ran out, or that the client shuts down. *)
Theorem retry_exact {W} `{RuntimeLaws W} config unit_id function_code pdu_data kind (w : W) :
  config_ok config → ring_inv (txn_mgr w) →
  ∃ r w', send_with_retry config unit_id function_code pdu_data kind w = (r, w') ∧
    operation_end config unit_id function_code pdu_data kind w r w' ∧
    reply_sound r ∧ ring_inv (txn_mgr w') ∧ (retired (txn_mgr w) → retired (txn_mgr w')).
Proof. apply send_with_retry_end. Qed.
