(* ===== verification/Methods.v ===== *)
(** * Typed client methods (crates/rusty-modbus-client/src/methods)

    Every request method: it checks and encodes its arguments, sends the PDU and
    checks the reply against the request. How a PDU is sent is the class
    [Connection], which [Client] implements. *)
From Stdlib Require Import String.
From S2P Require Import Prelude Types CodecError FileRecords Requests Responses MeiResponses Pdu Stream Owned Session Transaction Bits Store Client.

(** ** methods/mod.rs *)
Definition MAX_WRITE_MULTIPLE_COILS : Z := 1968.
Definition MAX_WRITE_MULTIPLE_REGISTERS : Z := 123.
Definition MAX_READ_WRITE_MULTIPLE_WRITE_REGISTERS : Z := 121.
Definition FILE_RECORD_MIN_BYTE_COUNT : Z := 0x07.
Definition FILE_RECORD_MAX_BYTE_COUNT : Z := 0xF5.

(** [encode_request(&req, &mut buf)?] into [buf = \[0u8; size\]], and [&buf\[..len\]] *)
Definition encode_request {R} `{Encode R} (request : R) (size : Z) : res ClientError.t bytes :=
  match encode_into request (replicate (Z.to_nat size) 0) with
  | (Ok len, buf) => slice_to buf len
  | (Err e, _) => Err (ClientError.Encode e)
  | (Panic, _) => Panic
  | (OutOfFuel, _) => OutOfFuel
  end.

Definition validate_response_length (function_code expected actual : Z) : res ClientError.t unit :=
  match actual ?= expected with
  | Lt => Err (ClientError.ShortResponse expected actual)
  | Eq => Ok tt
  | Gt => Err (ClientError.UnexpectedResponseLength function_code expected actual)
  end.
(** [u8::MAX << remainder] keeps eight bits *)
Definition validate_bit_response_shape (function_code quantity : Z) (data : bytes) : res ClientError.t unit :=
  let expected := div_ceil quantity 8 in
  do? validate_response_length function_code expected (blen data) in
  let remainder := quantity mod 8 in
  if negb (remainder =? 0) then
    let invalid_mask := Z.land (Z.shiftl 255 remainder) 255 in
    let? i := usub expected 1 in
    let? actual := idx data i in
    if negb (Z.land actual invalid_mask =? 0)
    then Err (ClientError.UnexpectedResponsePadding function_code invalid_mask actual) else Ok tt
  else Ok tt.
Definition validate_register_response_shape (function_code quantity : Z) (data : bytes) : res ClientError.t unit :=
  validate_response_length function_code (quantity * 2) (blen data).

Definition checked_quantity_len (len maximum : Z) : res ClientError.t Z :=
  let quantity := if len <=? u16_max then len else u16_max in
  if (len =? 0) || (maximum <? len) then Err (ClientError.Encode (EncodeError.QuantityOutOfRange quantity))
  else Ok quantity.
Definition checked_byte_count_value (len minimum maximum : Z) : res ClientError.t Z :=
  if (len <? minimum) || (maximum <? len)
  then Err (ClientError.Encode (EncodeError.ByteCountOutOfRange len minimum maximum)) else
  if len <=? 255 then Ok len else Err (ClientError.Encode (EncodeError.ByteCountOutOfRange len minimum maximum)).
Definition checked_byte_count_len (len : Z) : res ClientError.t Z := checked_byte_count_value len 0 255.
Definition checked_file_record_byte_count (len : Z) : res ClientError.t Z :=
  checked_byte_count_value len FILE_RECORD_MIN_BYTE_COUNT FILE_RECORD_MAX_BYTE_COUNT.

Definition expect_echo (field : string) (expected got : Z) : res ClientError.t unit :=
  if expected =? got then Ok tt else Err (ClientError.UnexpectedResponseEcho field expected got).

(** [String::from_utf8_lossy]: every maximal ill-formed sequence becomes U+FFFD *)
Definition utf8_second (b : Z) : option (nat * (Z * Z)) :=
  if (0xC2 <=? b) && (b <=? 0xDF) then Some (0%nat, (0x80, 0xBF)) else
  if b =? 0xE0 then Some (1%nat, (0xA0, 0xBF)) else
  if b =? 0xED then Some (1%nat, (0x80, 0x9F)) else
  if (0xE1 <=? b) && (b <=? 0xEF) then Some (1%nat, (0x80, 0xBF)) else
  if b =? 0xF0 then Some (2%nat, (0x90, 0xBF)) else
  if b =? 0xF4 then Some (2%nat, (0x80, 0x8F)) else
  if (0xF1 <=? b) && (b <=? 0xF3) then Some (2%nat, (0x80, 0xBF)) else None.
Definition replacement : bytes := [0xEF; 0xBF; 0xBD].
(** [pending]: the bytes of a sequence under way, with how many continuation bytes
    follow the next one and the range of the next one *)
Fixpoint lossy (pending : bytes) (want : option (nat * (Z * Z))) (bs : bytes) : bytes :=
  match bs with
  | [] => match want with Some _ => replacement | None => [] end
  | b :: bs =>
      let fresh :=
        if b <? 0x80 then b :: lossy [] None bs else
        match utf8_second b with
        | Some next => lossy [b] (Some next) bs
        | None => replacement ++ lossy [] None bs
        end in
      match want with
      | None => fresh
      | Some (more, (lo, hi)) =>
          if (lo <=? b) && (b <=? hi) then
            match more with
            | O => pending ++ b :: lossy [] None bs
            | S more => lossy (pending ++ [b]) (Some (more, (0x80, 0xBF))) bs
            end
          else replacement ++ fresh
      end
  end.
Definition from_utf8_lossy (bs : bytes) : bytes := lossy [] None bs.

(** Strings as their UTF-8 bytes *)
Module OwnedDeviceIdentification.
Record t : Type := mk { vendor_name : option bytes; product_code : option bytes; major_minor_revision : option bytes }.
Definition default : t := mk None None None.
End OwnedDeviceIdentification.
Definition MAX_BASIC_DEVICE_ID_RESPONSE_PAGES : Z := 3.

(** ** How requests are sent *)
Class Connection (W : Type) : Type := {
  request : Z → FunctionCode.t → bytes → RequestKind.t → ST W ClientError.t OwnedResponsePdu.t;
  broadcast : bytes → ST W ClientError.t unit;
  retire_session : SessionRetirementReason.t → W → W;
}.
#[export] Instance client_connection {W} `{Runtime W} (config : ClientConfig.t) : Connection W := {
  request := send_with_retry config;
  broadcast := send_broadcast;
  retire_session reason w := snd (retire reason w);
}.

(** The reply of no use to any method *)
Definition unexpected_reply {A} : res ClientError.t A := Err (ClientError.Codec (DecodeError.UnknownFunctionCode 0)).

Section Methods.
Context {W : Type} `{Connection W}.
Abbreviation M A := (ST W ClientError.t A).

Definition finish_typed_response {A} (result : res ClientError.t A) : M A :=
  (match typed_retirement result with Some reason => st_modify (retire_session reason) | None => st_ret tt end);;;
  st_lift result.

(** *** coils.rs *)
(** [for i in 0..quantity { coils.push(rc.coil(i)) }]: an index out of range panics *)
Fixpoint collect_bits (coil : Z → res DecodeError.t bool) (i : Z) (n : nat) : res ClientError.t (list bool) :=
  match n with
  | O => Ok []
  | S n =>
      match coil i with
      | Ok b => let? bs := collect_bits coil (i + 1) n in Ok (b :: bs)
      | Err e => Err (ClientError.Codec e)
      | Panic => Panic
      | OutOfFuel => OutOfFuel
      end
  end.

Definition read_coils (unit_id address quantity : Z) : M (list bool) :=
  if UnitId.is_broadcast unit_id then st_err ClientError.BroadcastReadNotAllowed else
  buf <- st_lift (encode_request (ReadCoilsRequest.mk address quantity) 5);;
  response <- request unit_id FunctionCode.ReadCoils buf RequestKind.ReplaySafe;;
  result <- match response with
    | OwnedResponsePdu.ReadCoils rc =>
        finish_typed_response (validate_bit_response_shape (FunctionCode.code FunctionCode.ReadCoils) quantity
          (OwnedReadCoilsResponse.coil_status rc));;;
        coils <- st_lift (collect_bits (OwnedReadCoilsResponse.coil rc) 0 (Z.to_nat quantity));;
        st_ret (Ok coils)
    | OwnedResponsePdu.Exception exc => st_ret (Err (ClientError.Exception exc))
    | _ => st_ret unexpected_reply
    end;;
  finish_typed_response result.

Definition read_discrete_inputs (unit_id address quantity : Z) : M (list bool) :=
  if UnitId.is_broadcast unit_id then st_err ClientError.BroadcastReadNotAllowed else
  buf <- st_lift (encode_request (ReadDiscreteInputsRequest.mk address quantity) 5);;
  response <- request unit_id FunctionCode.ReadDiscreteInputs buf RequestKind.ReplaySafe;;
  result <- match response with
    | OwnedResponsePdu.ReadDiscreteInputs rd =>
        finish_typed_response (validate_bit_response_shape (FunctionCode.code FunctionCode.ReadDiscreteInputs) quantity
          (OwnedReadDiscreteInputsResponse.input_status rd));;;
        inputs <- st_lift (collect_bits (OwnedReadDiscreteInputsResponse.coil rd) 0 (Z.to_nat quantity));;
        st_ret (Ok inputs)
    | OwnedResponsePdu.Exception exc => st_ret (Err (ClientError.Exception exc))
    | _ => st_ret unexpected_reply
    end;;
  finish_typed_response result.

Definition write_single_coil (unit_id address : Z) (value : bool) : M unit :=
  let req := WriteSingleCoilRequest.mk address (CoilValue.from_bool value) in
  buf <- st_lift (encode_request req 5);;
  if UnitId.is_broadcast unit_id then broadcast buf else
  response <- request unit_id FunctionCode.WriteSingleCoil buf RequestKind.Mutating;;
  result <- match response with
    | OwnedResponsePdu.WriteSingleCoil resp =>
        finish_typed_response (expect_echo "address" address (WriteSingleCoilResponse.address resp));;;
        st_ret (expect_echo "value" (CoilValue.to_wire (WriteSingleCoilRequest.value req))
                  (CoilValue.to_wire (WriteSingleCoilResponse.value resp)))
    | OwnedResponsePdu.Exception exc => st_ret (Err (ClientError.Exception exc))
    | _ => st_ret unexpected_reply
    end;;
  finish_typed_response result.

(** [coil_bytes\[i / 8\] |= 1 << (i % 8)] for every set value *)
Fixpoint set_coil_bits (i : Z) (values : list bool) (coil_bytes : bytes) : res ClientError.t bytes :=
  match values with
  | [] => Ok coil_bytes
  | val :: values =>
      if val : bool then
        let? b := idx coil_bytes (i / 8) in
        set_coil_bits (i + 1) values (<[Z.to_nat (i / 8) := Z.lor b (Z.shiftl 1 (i mod 8))]> coil_bytes)
      else set_coil_bits (i + 1) values coil_bytes
  end.
Definition write_multiple_coils (unit_id address : Z) (values : list bool) : M unit :=
  quantity <- st_lift (checked_quantity_len (blen values) MAX_WRITE_MULTIPLE_COILS);;
  byte_count <- st_lift (checked_byte_count_len (div_ceil (blen values) 8));;
  coil_bytes <- st_lift (set_coil_bits 0 values (replicate (Z.to_nat byte_count) 0));;
  let req := WriteMultipleCoilsRequest.mk address quantity byte_count coil_bytes in
  buf <- st_lift (encode_request req 256);;
  if UnitId.is_broadcast unit_id then broadcast buf else
  response <- request unit_id FunctionCode.WriteMultipleCoils buf RequestKind.Mutating;;
  result <- match response with
    | OwnedResponsePdu.WriteMultipleCoils resp =>
        finish_typed_response (expect_echo "address" address (WriteMultipleCoilsResponse.address resp));;;
        st_ret (expect_echo "quantity" quantity (WriteMultipleCoilsResponse.quantity resp))
    | OwnedResponsePdu.Exception exc => st_ret (Err (ClientError.Exception exc))
    | _ => st_ret unexpected_reply
    end;;
  finish_typed_response result.

(** *** registers.rs *)
Definition read_holding_registers (unit_id address quantity : Z) : M (list Z) :=
  if UnitId.is_broadcast unit_id then st_err ClientError.BroadcastReadNotAllowed else
  buf <- st_lift (encode_request (ReadHoldingRegistersRequest.mk address quantity) 5);;
  response <- request unit_id FunctionCode.ReadHoldingRegisters buf RequestKind.ReplaySafe;;
  result <- match response with
    | OwnedResponsePdu.ReadHoldingRegisters rhr =>
        finish_typed_response (validate_register_response_shape (FunctionCode.code FunctionCode.ReadHoldingRegisters)
          quantity (OwnedReadHoldingRegistersResponse.register_data rhr));;;
        st_ret (Ok (OwnedReadHoldingRegistersResponse.registers rhr))
    | OwnedResponsePdu.Exception exc => st_ret (Err (ClientError.Exception exc))
    | _ => st_ret unexpected_reply
    end;;
  finish_typed_response result.
Definition read_holding_registers_raw (unit_id address quantity : Z) : M bytes :=
  if UnitId.is_broadcast unit_id then st_err ClientError.BroadcastReadNotAllowed else
  buf <- st_lift (encode_request (ReadHoldingRegistersRequest.mk address quantity) 5);;
  response <- request unit_id FunctionCode.ReadHoldingRegisters buf RequestKind.ReplaySafe;;
  result <- match response with
    | OwnedResponsePdu.ReadHoldingRegisters rhr =>
        finish_typed_response (validate_register_response_shape (FunctionCode.code FunctionCode.ReadHoldingRegisters)
          quantity (OwnedReadHoldingRegistersResponse.register_data rhr));;;
        st_ret (Ok (OwnedReadHoldingRegistersResponse.register_data rhr))
    | OwnedResponsePdu.Exception exc => st_ret (Err (ClientError.Exception exc))
    | _ => st_ret unexpected_reply
    end;;
  finish_typed_response result.
Definition read_input_registers (unit_id address quantity : Z) : M (list Z) :=
  if UnitId.is_broadcast unit_id then st_err ClientError.BroadcastReadNotAllowed else
  buf <- st_lift (encode_request (ReadInputRegistersRequest.mk address quantity) 5);;
  response <- request unit_id FunctionCode.ReadInputRegisters buf RequestKind.ReplaySafe;;
  result <- match response with
    | OwnedResponsePdu.ReadInputRegisters rir =>
        finish_typed_response (validate_register_response_shape (FunctionCode.code FunctionCode.ReadInputRegisters)
          quantity (OwnedReadInputRegistersResponse.register_data rir));;;
        st_ret (Ok (OwnedReadInputRegistersResponse.registers rir))
    | OwnedResponsePdu.Exception exc => st_ret (Err (ClientError.Exception exc))
    | _ => st_ret unexpected_reply
    end;;
  finish_typed_response result.

Definition write_single_register (unit_id address value : Z) : M unit :=
  buf <- st_lift (encode_request (WriteSingleRegisterRequest.mk address value) 5);;
  if UnitId.is_broadcast unit_id then broadcast buf else
  response <- request unit_id FunctionCode.WriteSingleRegister buf RequestKind.Mutating;;
  result <- match response with
    | OwnedResponsePdu.WriteSingleRegister resp =>
        finish_typed_response (expect_echo "address" address (WriteSingleRegisterResponse.address resp));;;
        st_ret (expect_echo "value" value (WriteSingleRegisterResponse.value resp))
    | OwnedResponsePdu.Exception exc => st_ret (Err (ClientError.Exception exc))
    | _ => st_ret unexpected_reply
    end;;
  finish_typed_response result.

(** [value_bytes\[i * 2..i * 2 + 2\].copy_from_slice(&v.to_be_bytes())] for every value *)
Fixpoint copy_values (i : Z) (values : list Z) : ST bytes ClientError.t unit :=
  match values with
  | [] => st_ret tt
  | v :: values => buf_copy (i * 2) (i * 2 + 2) (to_be_bytes v);;; copy_values (i + 1) values
  end.
Definition value_bytes (values : list Z) : res ClientError.t bytes :=
  match copy_values 0 values (replicate (Z.to_nat (blen values * 2)) 0) with
  | (Ok _, bs) => Ok bs
  | (Err e, _) => Err e
  | (Panic, _) => Panic
  | (OutOfFuel, _) => OutOfFuel
  end.
Definition write_multiple_registers (unit_id address : Z) (values : list Z) : M unit :=
  quantity <- st_lift (checked_quantity_len (blen values) MAX_WRITE_MULTIPLE_REGISTERS);;
  byte_count <- st_lift (checked_byte_count_len (blen values * 2));;
  value_bytes <- st_lift (value_bytes values);;
  let req := WriteMultipleRegistersRequest.mk address quantity byte_count value_bytes in
  buf <- st_lift (encode_request req 256);;
  if UnitId.is_broadcast unit_id then broadcast buf else
  response <- request unit_id FunctionCode.WriteMultipleRegisters buf RequestKind.Mutating;;
  result <- match response with
    | OwnedResponsePdu.WriteMultipleRegisters resp =>
        finish_typed_response (expect_echo "address" address (WriteMultipleRegistersResponse.address resp));;;
        st_ret (expect_echo "quantity" quantity (WriteMultipleRegistersResponse.quantity resp))
    | OwnedResponsePdu.Exception exc => st_ret (Err (ClientError.Exception exc))
    | _ => st_ret unexpected_reply
    end;;
  finish_typed_response result.

Definition mask_write_register (unit_id address and_mask or_mask : Z) : M unit :=
  buf <- st_lift (encode_request (MaskWriteRegisterRequest.mk address and_mask or_mask) 7);;
  if UnitId.is_broadcast unit_id then broadcast buf else
  response <- request unit_id FunctionCode.MaskWriteRegister buf RequestKind.Mutating;;
  result <- match response with
    | OwnedResponsePdu.MaskWriteRegister resp =>
        finish_typed_response (expect_echo "address" address (MaskWriteRegisterResponse.address resp));;;
        finish_typed_response (expect_echo "and_mask" and_mask (MaskWriteRegisterResponse.and_mask resp));;;
        st_ret (expect_echo "or_mask" or_mask (MaskWriteRegisterResponse.or_mask resp))
    | OwnedResponsePdu.Exception exc => st_ret (Err (ClientError.Exception exc))
    | _ => st_ret unexpected_reply
    end;;
  finish_typed_response result.

Definition read_write_multiple_registers (unit_id read_address read_quantity write_address : Z) (write_values : list Z)
    : M (list Z) :=
  if UnitId.is_broadcast unit_id then st_err ClientError.BroadcastReadNotAllowed else
  write_quantity <- st_lift (checked_quantity_len (blen write_values) MAX_READ_WRITE_MULTIPLE_WRITE_REGISTERS);;
  write_byte_count <- st_lift (checked_byte_count_len (blen write_values * 2));;
  value_bytes <- st_lift (value_bytes write_values);;
  let req := ReadWriteMultipleRegistersRequest.mk read_address read_quantity write_address write_quantity
               write_byte_count value_bytes in
  buf <- st_lift (encode_request req 256);;
  response <- request unit_id FunctionCode.ReadWriteMultipleRegisters buf RequestKind.Mutating;;
  result <- match response with
    | OwnedResponsePdu.ReadWriteMultipleRegisters rw =>
        finish_typed_response (validate_register_response_shape
          (FunctionCode.code FunctionCode.ReadWriteMultipleRegisters) read_quantity
          (OwnedReadWriteMultipleRegistersResponse.register_data rw));;;
        st_ret (Ok (OwnedReadWriteMultipleRegistersResponse.registers rw))
    | OwnedResponsePdu.Exception exc => st_ret (Err (ClientError.Exception exc))
    | _ => st_ret unexpected_reply
    end;;
  finish_typed_response result.

(** *** file.rs *)
(** The scan of the response groups; every round takes a byte *)
Fixpoint sub_response_count (fuel : nat) (data : bytes) (count : Z) : Z :=
  match fuel, data with
  | S fuel, response_len :: rest =>
      if response_len <=? blen rest then sub_response_count fuel (drop (Z.to_nat response_len) rest) (count + 1) else count
  | _, _ => count
  end.
Definition read_file_record_sub_response_count (data : bytes) : Z := sub_response_count (length data) data 0.

Definition read_file_record (unit_id : Z) (sub_request_data : bytes) : M OwnedReadFileRecordResponse.t :=
  if UnitId.is_broadcast unit_id then st_err ClientError.BroadcastReadNotAllowed else
  byte_count <- st_lift (checked_file_record_byte_count (blen sub_request_data));;
  buf <- st_lift (encode_request (ReadFileRecordRequest.mk byte_count sub_request_data) 256);;
  let expected_sub_responses := blen sub_request_data / 7 in
  response <- request unit_id FunctionCode.ReadFileRecord buf RequestKind.ReplaySafe;;
  finish_typed_response
    match response with
    | OwnedResponsePdu.ReadFileRecord r =>
        let actual_sub_responses := read_file_record_sub_response_count (OwnedReadFileRecordResponse.data r) in
        if actual_sub_responses =? expected_sub_responses then Ok r
        else Err (ClientError.UnexpectedFileRecordSubResponseCount expected_sub_responses actual_sub_responses)
    | OwnedResponsePdu.Exception exc => Err (ClientError.Exception exc)
    | _ => unexpected_reply
    end.
Definition write_file_record (unit_id : Z) (sub_request_data : bytes) : M OwnedWriteFileRecordResponse.t :=
  if UnitId.is_broadcast unit_id then st_err ClientError.BroadcastReadNotAllowed else
  byte_count <- st_lift (checked_file_record_byte_count (blen sub_request_data));;
  buf <- st_lift (encode_request (WriteFileRecordRequest.mk byte_count sub_request_data) 256);;
  response <- request unit_id FunctionCode.WriteFileRecord buf RequestKind.Mutating;;
  finish_typed_response
    match response with
    | OwnedResponsePdu.WriteFileRecord r => Ok r
    | OwnedResponsePdu.Exception exc => Err (ClientError.Exception exc)
    | _ => unexpected_reply
    end.

(** *** fifo.rs *)
Definition read_fifo_queue (unit_id pointer_address : Z) : M (list Z) :=
  if UnitId.is_broadcast unit_id then st_err ClientError.BroadcastReadNotAllowed else
  buf <- st_lift (encode_request (ReadFifoQueueRequest.mk pointer_address) 3);;
  response <- request unit_id FunctionCode.ReadFifoQueue buf RequestKind.ReplaySafe;;
  finish_typed_response
    match response with
    | OwnedResponsePdu.ReadFifoQueue fifo =>
        Ok (map (λ c, from_be_bytes (at_ c 0) (at_ c 1)) (chunks_exact 2 (OwnedReadFifoQueueResponse.fifo_values fifo)))
    | OwnedResponsePdu.Exception exc => Err (ClientError.Exception exc)
    | _ => unexpected_reply
    end.

(** *** device_id.rs *)
Fixpoint collect_basic (objects : list DeviceIdObjectEntry.t) (result : OwnedDeviceIdentification.t) : OwnedDeviceIdentification.t :=
  match objects with
  | [] => result
  | obj :: objects =>
      let value := from_utf8_lossy (DeviceIdObjectEntry.value obj) in
      let '(OwnedDeviceIdentification.mk vendor product revision) := result in
      let id := DeviceIdObjectEntry.id obj in
      collect_basic objects
        (if id =? 0x00 then OwnedDeviceIdentification.mk (Some value) product revision else
         if id =? 0x01 then OwnedDeviceIdentification.mk vendor (Some value) revision else
         if id =? 0x02 then OwnedDeviceIdentification.mk vendor product (Some value) else result)
  end.
(** One round per response page; the third one is the last. *)
Fixpoint device_identification_loop (fuel : nat) (unit_id : Z) (result : OwnedDeviceIdentification.t)
    (next_object_id response_pages : Z) : M OwnedDeviceIdentification.t :=
  match fuel with
  | O => st_lift OutOfFuel
  | S fuel =>
      let request_object_id := next_object_id in
      buf <- st_lift (encode_request (ReadDeviceIdentificationRequest.mk DeviceIdCode.BasicStream request_object_id) 4);;
      response <- request unit_id FunctionCode.EncapsulatedInterfaceTransport buf RequestKind.ReplaySafe;;
      pdu_data <- finish_typed_response
        match response with
        | OwnedResponsePdu.EncapsulatedInterface mei => Ok (OwnedEncapsulatedInterfaceResponse.data mei)
        | OwnedResponsePdu.Exception exc => Err (ClientError.Exception exc)
        | _ => unexpected_reply
        end;;
      let decode_buf := 0x0E :: pdu_data in
      dev_id <- finish_typed_response
        match ReadDeviceIdentificationResponse.decode decode_buf with
        | Ok dev_id => Ok dev_id
        | Err e => Err (ClientError.Codec e)
        | Panic => Panic
        | OutOfFuel => OutOfFuel
        end;;
      let response_pages := response_pages + 1 in
      objects <- st_lift match DeviceIdObjectIter.collect 256 (ReadDeviceIdentificationResponse.objects dev_id) with
                         | Ok objects => Ok objects
                         | Err e => Err (ClientError.Codec e)
                         | Panic => Panic
                         | OutOfFuel => OutOfFuel
                         end;;
      let result := collect_basic objects result in
      if negb (ReadDeviceIdentificationResponse.more_follows dev_id) then st_ret result else
      if MAX_BASIC_DEVICE_ID_RESPONSE_PAGES <=? response_pages
      then finish_typed_response (Err (ClientError.DeviceIdentificationPaginationLimit MAX_BASIC_DEVICE_ID_RESPONSE_PAGES)) else
      if ReadDeviceIdentificationResponse.next_object_id dev_id <=? request_object_id
      then finish_typed_response (Err (ClientError.InvalidDeviceIdentificationContinuation request_object_id
                                         (ReadDeviceIdentificationResponse.next_object_id dev_id))) else
      device_identification_loop fuel unit_id result (ReadDeviceIdentificationResponse.next_object_id dev_id) response_pages
  end.
Definition read_device_identification (unit_id : Z) : M OwnedDeviceIdentification.t :=
  if UnitId.is_broadcast unit_id then st_err ClientError.BroadcastReadNotAllowed else
  device_identification_loop 3 unit_id OwnedDeviceIdentification.default 0x00 0.
End Methods.

(** * Lemmas *)

(** ** Arguments *)
Lemma encode_request_exact {R} `{EncodeSpec R} (x : R) size : wf x → 0 ≤ size → (encodable x → encoded_len x ≤ size) →
  (encodable x ∧ encode_request x size = Ok (wire x)) ∨ (¬ encodable x ∧ ∃ e, encode_request x size = Err (ClientError.Encode e)).
Proof.
  intros Hwf Hs Hfit. unfold encode_request. set (buf := replicate (Z.to_nat size) 0).
  assert (blen buf = size) as Hb by (unfold buf; rewrite blen_replicate; lia).
  destruct (Z.lt_ge_cases (blen buf) (encoded_len x)) as [Hshort|Hroom].
  - right. rewrite encode_into_short by done. split; [intros ?%Hfit; lia|by eexists].
  - destruct (encode_into_reject x buf Hwf Hroom) as [He|[e Heq]].
    + left. split; [done|]. rewrite encode_into_ok by done. cbn.
      pose proof (wire_length x Hwf He) as Hl. rewrite slice_to_Ok by (rewrite blen_overlay; pose proof (blen_nonneg (wire x)); lia).
      f_equal. rewrite <- Hl. unfold overlay, blen. by rewrite Nat2Z.id, take_app_length.
    + right. split; [|rewrite Heq; by eexists]. intros He. by rewrite encode_into_ok in Heq.
Qed.
Lemma checked_quantity_cases n max : 0 ≤ n → max ≤ u16_max →
  (1 ≤ n ≤ max ∧ checked_quantity_len n max = Ok n) ∨ (n = 0 ∨ max < n) ∧ ∃ e, checked_quantity_len n max = Err (ClientError.Encode e).
Proof.
  intros Hn Hm. unfold checked_quantity_len. destruct ((n =? 0) || (max <? n)) eqn:Hb.
  - right. split; [lia|by eexists].
  - left. split; [lia|]. by replace (n <=? u16_max) with true by lia.
Qed.
Lemma checked_byte_count_ok n lo hi : lo ≤ n ≤ hi → n ≤ 255 → checked_byte_count_value n lo hi = Ok n.
Proof.
  intros Hn H255. unfold checked_byte_count_value. replace ((n <? lo) || (hi <? n)) with false by lia.
  by replace (n <=? 255) with true by lia.
Qed.
Lemma value_bytes_words values : value_bytes values = Ok (words_be values).
Proof.
  assert (∀ vs i pre, blen pre = i * 2 →
    copy_values i vs (pre ++ replicate (Z.to_nat (blen vs * 2)) 0) = (Ok tt, pre ++ words_be vs)) as Hc.
  { induction vs as [|v vs IH]; intros i pre Hp; cbn [copy_values]; [done|]. unfold st_bind at 1.
    rewrite blen_cons. replace (Z.to_nat ((1 + blen vs) * 2)) with (2 + Z.to_nat (blen vs * 2))%nat by (pose proof (blen_nonneg vs); lia).
    change (replicate (2 + _) 0) with ([0; 0] ++ replicate (Z.to_nat (blen vs * 2)) 0).
    unfold buf_copy. rewrite !blen_app, blen_replicate, blen_to_be_bytes. change (blen [0; 0]) with 2.
    pose proof (blen_nonneg pre). replace (_ && _) with true by lia.
    assert (Z.to_nat (i * 2) = length pre) as Hi by (unfold blen in Hp; lia).
    replace (Z.to_nat (i * 2 + 2)) with (length pre + 2)%nat by lia. rewrite Hi, take_app_length, drop_app_add.
    change (drop 2 ([0; 0] ++ ?l)) with l. rewrite app_assoc, IH; [by rewrite <- app_assoc|].
    rewrite blen_app, blen_to_be_bytes. lia. }
  unfold value_bytes. specialize (Hc values 0 []). simpl in Hc. by rewrite Hc.
Qed.

(** ** Packed bits *)
Lemma packed_ext data v : bytes_ok data → blen data = div_ceil (blen v) 8 →
  (∀ i, 0 ≤ i < 8 * blen data → bit data i = default false (get v i)) → data = pack_bits v.
Proof.
  intros Hb Hl Hi. apply list_eq_get; [by rewrite blen_pack_bits|]. intros k Hk.
  destruct (get_pack_bits v k) as (b & -> & Hu & Ht); [lia|]. destruct (get_lt_is_Some data k Hk) as [c Hc]. rewrite Hc. f_equal.
  apply u8_ext; [by eapply get_byte_ok|done|]. intros j Hj. rewrite Ht by done. rewrite <-(bit_get data k j c) by done.
  apply Hi. lia.
Qed.
Lemma packed_bit v i : 0 ≤ i < 8 * div_ceil (blen v) 8 → bit (pack_bits v) i = default false (get v i).
Proof.
  intros Hi. destruct (bit_split i) as (Hs & Hm & Hd); [lia|]. destruct (get_pack_bits v (i / 8)) as (b & Hb & _ & Ht); [lia|].
  rewrite Hs at 1. rewrite (bit_get _ _ _ b), Ht by done. by rewrite <-Hs.
Qed.
Lemma set_coil_bits_spec values : ∀ i l, bytes_ok l → 0 ≤ i → i + blen values ≤ 8 * blen l →
  ∃ l', set_coil_bits i values l = Ok l' ∧ bytes_ok l' ∧ blen l' = blen l ∧
    ∀ j, 0 ≤ j < 8 * blen l → bit l' j = bit l j || (if i <=? j then default false (get values (j - i)) else false).
Proof.
  induction values as [|v values IH]; intros i l Hl Hi Hroom.
  { exists l. split_and!; try done. intros j Hj. destruct (Z.leb_spec i j); [|by rewrite orb_false_r]. rewrite get_ge by (change (blen (@nil bool)) with 0; lia). by rewrite orb_false_r. }
  rewrite blen_cons in Hroom. pose proof (blen_nonneg values) as Hn. cbn [set_coil_bits].
  assert (∀ l1, blen l1 = blen l → bytes_ok l1 → (∀ j, 0 ≤ j < 8 * blen l → bit l1 j = bit l j || (v && (j =? i))) →
    ∃ l', set_coil_bits (i + 1) values l1 = Ok l' ∧ bytes_ok l' ∧ blen l' = blen l ∧
    ∀ j, 0 ≤ j < 8 * blen l → bit l' j = bit l j || (if i <=? j then default false (get (v :: values) (j - i)) else false)) as Hnext.
  { intros l1 Hl1 Hb1 Hbit. destruct (IH (i + 1) l1) as (l' & ? & ? & Hl' & Hj'); [done|lia|lia|]. exists l'. split_and!; [done..|lia|].
    intros j Hj. rewrite Hj', Hbit by lia. rewrite <-orb_assoc. f_equal. destruct (Z.leb_spec i j) as [Hij|Hij].
    - destruct (Z.eqb_spec j i) as [->|Hne].
      + replace (i + 1 <=? i) with false by lia. rewrite Z.sub_diag, andb_true_r, orb_false_r. done.
      + replace (i + 1 <=? j) with true by lia. rewrite andb_false_r. cbn [orb]. by rewrite get_cons_later by lia.
    - replace (i + 1 <=? j) with false by lia. replace (j =? i) with false by lia. by rewrite andb_false_r. }
  destruct (bit_split i Hi) as (Hs & Hm & Hd). destruct (get_lt_is_Some l (i / 8)) as [b Hb]; [lia|]. destruct v.
  - rewrite (proj2 (idx_Ok _ _ _) Hb). cbn [rbind]. apply Hnext; [by rewrite blen_insert| |].
    + apply bytes_ok_insert; [done|]. pose proof (get_byte_ok _ _ _ Hl Hb) as Hu. apply u8_testbit.
      * apply Z.lor_nonneg. split; [lia|]. apply Z.shiftl_nonneg. lia.
      * intros j Hj. rewrite Z.lor_spec, testbit_u8, Z.shiftl_1_l, Z.pow2_bits_eqb by lia. cbn. lia.
    + intros j Hj. rewrite (bit_insert _ _ b) by done. destruct (bit_split j) as (Hsj & Hmj & Hdj); [lia|].
      destruct (Z.eqb_spec (j / 8) (i / 8)) as [He|He].
      * rewrite Z.lor_spec, Z.shiftl_1_l, Z.pow2_bits_eqb by lia. rewrite (bit_at l j b) by (rewrite ?He; done || lia). f_equal.
        cbn [andb]. lia.
      * replace (j =? i) with false by (destruct (Z.eqb_spec j i); [congruence|done]). by rewrite orb_false_r.
  - apply Hnext; [done..|]. intros j _. cbn. by rewrite orb_false_r.
Qed.
Lemma set_coil_bits_pack values : set_coil_bits 0 values (replicate (Z.to_nat (div_ceil (blen values) 8)) 0) = Ok (pack_bits values).
Proof.
  pose proof (div_ceil_8 (blen values) (blen_nonneg _)) as Hd. set (zs := replicate _ 0).
  assert (blen zs = div_ceil (blen values) 8) as Hz by (unfold zs; rewrite blen_replicate; lia).
  destruct (set_coil_bits_spec values 0 zs) as (l' & -> & Hok & Hl & Hb); [by apply Forall_replicate|lia|lia|].
  f_equal. apply packed_ext; [done|lia|]. intros i Hi. rewrite Hb by lia. replace (0 <=? i) with true by lia.
  rewrite Z.sub_0_r. unfold zs. by rewrite bit_zeros.
Qed.

(** ** Replies

    A check that fails, and for which the session is retired *)
Definition rejects {A} (r : res ClientError.t A) : Prop :=
  ∃ e reason, r = Err e ∧ typed_retirement (A := A) (Err e) = Some reason.

Lemma validate_response_length_spec fc expected actual :
  (actual = expected ∧ validate_response_length fc expected actual = Ok tt) ∨
  (actual ≠ expected ∧ rejects (validate_response_length fc expected actual)).
Proof.
  unfold validate_response_length, rejects. destruct (Z.compare_spec actual expected); [by left|right..]; (split; [lia|]); by do 2 eexists.
Qed.
Lemma padding_clear b rem : is_u8 b → 0 ≤ rem < 8 →
  Z.land b (Z.land (Z.shiftl 255 rem) 255) = 0 ↔ ∀ j, rem ≤ j < 8 → Z.testbit b j = false.
Proof.
  intros Hb Hr. assert (∀ j, 0 ≤ j → Z.testbit (Z.land (Z.shiftl 255 rem) 255) j = (rem <=? j) && (j <? 8)) as Hm.
  { intros j Hj. rewrite Z.land_spec, Z.shiftl_spec, (testbit_255 j) by lia. destruct (Z.leb_spec rem j).
    - rewrite testbit_255 by lia. lia.
    - by rewrite Z.testbit_neg_r by lia. }
  split.
  - intros He j Hj. assert (Z.testbit (Z.land b (Z.land (Z.shiftl 255 rem) 255)) j = false) as Ht by by rewrite He, Z.testbit_0_l.
    rewrite Z.land_spec, Hm in Ht by lia. replace ((rem <=? j) && (j <? 8)) with true in Ht by lia. by rewrite andb_true_r in Ht.
  - intros Hj. apply Z.bits_inj'. intros j H0. rewrite Z.land_spec, Hm, Z.testbit_0_l by lia.
    destruct ((rem <=? j) && (j <? 8)) eqn:Hin; [|by rewrite andb_false_r]. by rewrite Hj by lia.
Qed.
(** A reply passes exactly when it is the packed image of as many bits as asked. *)
Lemma validate_bits_spec fc q data : bytes_ok data → 1 ≤ q →
  (validate_bit_response_shape fc q data = Ok tt ∧ blen data = div_ceil q 8 ∧ data = pack_bits (unpack_bits q data)) ∨
  (rejects (validate_bit_response_shape fc q data) ∧ ∀ v, blen v = q → data ≠ pack_bits v).
Proof.
  intros Hb Hq. unfold validate_bit_response_shape. pose proof (div_ceil_8 q ltac:(lia)) as Hd.
  destruct (validate_response_length_spec fc (div_ceil q 8) (blen data)) as [[Hl ->]|[Hl (e & reason & -> & Ht)]]; cbn [rbind].
  2: { right. split; [by exists e, reason|]. intros v Hv ->. by rewrite blen_pack_bits, Hv in Hl. }
  pose proof (Z.div_mod q 8 ltac:(lia)) as Hdm. pose proof (Z.mod_pos_bound q 8 ltac:(lia)) as Hmod.
  assert ((∀ i, q ≤ i < 8 * blen data → bit data i = false) → data = pack_bits (unpack_bits q data)) as Hpack.
  { intros Hpad. apply packed_ext; [done|by rewrite blen_unpack_bits by lia|]. intros i Hi.
    destruct (Z.lt_ge_cases i q); [by rewrite get_unpack_bits by lia|]. rewrite Hpad, get_ge by (rewrite ?blen_unpack_bits; lia). done. }
  destruct (Z.eqb_spec (q mod 8) 0) as [Hz|Hnz]; cbn [negb].
  { left. split_and!; [done..|]. apply Hpack. intros i Hi. lia. }
  assert (div_ceil q 8 = q / 8 + 1) as Hdc by lia. unfold usub. replace (1 <=? div_ceil q 8) with true by lia. cbn [rbind].
  replace (div_ceil q 8 - 1) with (q / 8) by lia.
  destruct (get_lt_is_Some data (q / 8)) as [b Hget]; [lia|]. rewrite (proj2 (idx_Ok _ _ _) Hget). cbn [rbind].
  pose proof (padding_clear b (q mod 8) (get_byte_ok _ _ _ Hb Hget) Hmod) as Hclear.
  destruct (Z.eqb_spec (Z.land b (Z.land (Z.shiftl 255 (q mod 8)) 255)) 0) as [He|He]; cbn [negb].
  - left. split_and!; [done..|]. apply Hpack. intros i Hi. replace i with (q / 8 * 8 + (i - q / 8 * 8)) by lia.
    rewrite (bit_get _ _ _ b) by (done || lia). apply Hclear; [done|lia].
  - right. split; [by do 2 eexists|]. intros v Hv Heq. apply He, Hclear. intros j Hj.
    rewrite <-(bit_get data (q / 8) j b) by (done || lia). rewrite Heq, packed_bit by (rewrite Hv; lia). by rewrite get_ge by lia.
Qed.
Lemma collect_bits_spec (coil : Z → res DecodeError.t bool) data : (∀ i, 0 ≤ i < 8 * blen data → coil i = Ok (bit data i)) →
  ∀ n i, 0 ≤ i → i + Z.of_nat n ≤ 8 * blen data →
  collect_bits coil i n = Ok ((λ j, bit data (i + Z.of_nat j)) <$> seq 0 n).
Proof.
  intros Hcoil n. induction n as [|n IH]; intros i Hi Hn; [done|]. cbn [collect_bits]. rewrite Hcoil, IH by lia. cbn [rbind seq].
  rewrite fmap_cons, Z.add_0_r, <-fmap_S_seq, <-list_fmap_compose. do 2 f_equal. apply list_fmap_ext. intros k x _. cbn. f_equal. lia.
Qed.
Lemma coil_bit data i : 0 ≤ i < 8 * blen data →
  (let? b := idx (E := DecodeError.t) data (i / 8) in Ok (Z.land (Z.shiftr b (i mod 8)) 1 =? 1)) = Ok (bit data i).
Proof.
  intros Hi. destruct (bit_split i) as (Hs & Hm & Hd); [lia|]. destruct (get_lt_is_Some data (i / 8)) as [b Hb]; [lia|].
  rewrite (proj2 (idx_Ok _ _ _) Hb). cbn [rbind]. rewrite low_bit_test by lia. by rewrite (bit_at _ _ b) by (done || lia).
Qed.
Lemma collect_bits_unpack coil data q : (∀ i, 0 ≤ i < 8 * blen data → coil i = Ok (bit data i)) → 0 ≤ q ≤ 8 * blen data →
  collect_bits coil 0 (Z.to_nat q) = Ok (unpack_bits q data).
Proof. intros Hc Hq. by rewrite (collect_bits_spec coil data) by (done || lia). Qed.
Lemma validate_registers_spec fc q data :
  (validate_register_response_shape fc q data = Ok tt ∧ blen data = q * 2) ∨
  (rejects (validate_register_response_shape fc q data) ∧ blen data ≠ q * 2).
Proof. unfold validate_register_response_shape. destruct (validate_response_length_spec fc (q * 2) (blen data)) as [[-> ?]|[? ?]]; auto. Qed.
Lemma expect_echo_spec field expected got :
  (expected = got ∧ expect_echo field expected got = Ok tt) ∨ (expected ≠ got ∧ rejects (expect_echo field expected got)).
Proof. unfold expect_echo. destruct (Z.eqb_spec expected got); [by left|right]. split; [done|]. by do 2 eexists. Qed.
Lemma sub_response_count_groups gs : Forall read_response_group gs → ∀ fuel n, (length gs ≤ fuel)%nat →
  sub_response_count fuel (concat gs) n = n + blen gs.
Proof.
  induction 1 as [|g gs (v & -> & Hv & _) _ IH]; intros fuel n Hf; cbn [concat].
  { change (blen []) with 0. rewrite Z.add_0_r. by destruct fuel. }
  destruct fuel as [|fuel]; [cbn in Hf; lia|]. cbn [app sub_response_count]. set (rest := concat gs) in *.
  change (6 :: v ++ rest) with ((6 :: v) ++ rest). rewrite blen_app, blen_cons. pose proof (blen_nonneg rest).
  replace (1 + blen v <=? 1 + blen v + blen rest) with true by lia.
  replace (Z.to_nat (1 + blen v)) with (length (6 :: v)) by (cbn; unfold blen; lia). rewrite drop_app_length.
  rewrite IH by (cbn in Hf; lia). rewrite blen_cons. lia.
Qed.
