(* ===== verification/Calls.v ===== *)
(** * What the typed client methods promise (crates/rusty-modbus-client/src/methods)

    One constructor of [Call.t] per request method, with what it sends and which
    replies it accepts for which result. The theorem holds for every connection
    whose replies are decoded PDUs, whoever sent them. *)
From Stdlib Require Import String.
From S2P Require Import Prelude Types CodecError FileRecords Requests Responses MeiResponses Pdu Stream Owned Session Transaction Bits Store Client Methods.

Module Call.
Inductive t : Type → Type :=
  | ReadCoils (address quantity : Z) : t (list bool)
  | ReadDiscreteInputs (address quantity : Z) : t (list bool)
  | ReadHoldingRegisters (address quantity : Z) : t (list Z)
  | ReadHoldingRegistersRaw (address quantity : Z) : t bytes
  | ReadInputRegisters (address quantity : Z) : t (list Z)
  | WriteSingleCoil (address : Z) (value : bool) : t unit
  | WriteSingleRegister (address value : Z) : t unit
  | WriteMultipleCoils (address : Z) (values : list bool) : t unit
  | WriteMultipleRegisters (address : Z) (values : list Z) : t unit
  | MaskWriteRegister (address and_mask or_mask : Z) : t unit
  | ReadWriteMultipleRegisters (read_address read_quantity write_address : Z) (write_values : list Z) : t (list Z)
  | ReadFileRecord (sub_request_data : bytes) : t OwnedReadFileRecordResponse.t
  | WriteFileRecord (sub_request_data : bytes) : t OwnedWriteFileRecordResponse.t
  | ReadFifoQueue (pointer_address : Z) : t (list Z).

(** The arguments are values of their Rust types. *)
Definition args_ok {A} (c : t A) : Prop :=
  match c with
  | ReadCoils a q | ReadDiscreteInputs a q | ReadHoldingRegisters a q | ReadHoldingRegistersRaw a q
  | ReadInputRegisters a q | WriteSingleRegister a q => is_u16 a ∧ is_u16 q
  | WriteSingleCoil a _ | WriteMultipleCoils a _ | ReadFifoQueue a => is_u16 a
  | WriteMultipleRegisters a values => is_u16 a ∧ u16s values
  | MaskWriteRegister a am om => is_u16 a ∧ is_u16 am ∧ is_u16 om
  | ReadWriteMultipleRegisters ra rq wa values => is_u16 ra ∧ is_u16 rq ∧ is_u16 wa ∧ u16s values
  | ReadFileRecord data | WriteFileRecord data => bytes_ok data
  end.
(** Methods that refuse the broadcast address *)
Definition reads {A} (c : t A) : bool :=
  match c with
  | WriteSingleCoil _ _ | WriteSingleRegister _ _ | WriteMultipleCoils _ _ | WriteMultipleRegisters _ _
  | MaskWriteRegister _ _ _ => false
  | _ => true
  end.
Definition request {A} (c : t A) : RequestPdu.t :=
  match c with
  | ReadCoils a q => RequestPdu.ReadCoils (ReadCoilsRequest.mk a q)
  | ReadDiscreteInputs a q => RequestPdu.ReadDiscreteInputs (ReadDiscreteInputsRequest.mk a q)
  | ReadHoldingRegisters a q | ReadHoldingRegistersRaw a q =>
      RequestPdu.ReadHoldingRegisters (ReadHoldingRegistersRequest.mk a q)
  | ReadInputRegisters a q => RequestPdu.ReadInputRegisters (ReadInputRegistersRequest.mk a q)
  | WriteSingleCoil a v => RequestPdu.WriteSingleCoil (WriteSingleCoilRequest.mk a (CoilValue.from_bool v))
  | WriteSingleRegister a v => RequestPdu.WriteSingleRegister (WriteSingleRegisterRequest.mk a v)
  | WriteMultipleCoils a vs =>
      RequestPdu.WriteMultipleCoils (WriteMultipleCoilsRequest.mk a (blen vs) (div_ceil (blen vs) 8) (pack_bits vs))
  | WriteMultipleRegisters a vs =>
      RequestPdu.WriteMultipleRegisters (WriteMultipleRegistersRequest.mk a (blen vs) (blen vs * 2) (words_be vs))
  | MaskWriteRegister a am om => RequestPdu.MaskWriteRegister (MaskWriteRegisterRequest.mk a am om)
  | ReadWriteMultipleRegisters ra rq wa vs =>
      RequestPdu.ReadWriteMultipleRegisters (ReadWriteMultipleRegistersRequest.mk ra rq wa (blen vs) (blen vs * 2) (words_be vs))
  | ReadFileRecord data => RequestPdu.ReadFileRecord (ReadFileRecordRequest.mk (blen data) data)
  | WriteFileRecord data => RequestPdu.WriteFileRecord (WriteFileRecordRequest.mk (blen data) data)
  | ReadFifoQueue a => RequestPdu.ReadFifoQueue (ReadFifoQueueRequest.mk a)
  end.
(** What the method lets through: the requests the codec encodes, except that the
    length limit of file reads is applied to file writes too *)
Definition valid {A} (c : t A) : Prop :=
  request_ok (request c) ∧ match c with WriteFileRecord data => blen data ≤ 245 | _ => True end.
Definition function {A} (c : t A) : FunctionCode.t :=
  match c with
  | ReadCoils _ _ => FunctionCode.ReadCoils
  | ReadDiscreteInputs _ _ => FunctionCode.ReadDiscreteInputs
  | ReadHoldingRegisters _ _ | ReadHoldingRegistersRaw _ _ => FunctionCode.ReadHoldingRegisters
  | ReadInputRegisters _ _ => FunctionCode.ReadInputRegisters
  | WriteSingleCoil _ _ => FunctionCode.WriteSingleCoil
  | WriteSingleRegister _ _ => FunctionCode.WriteSingleRegister
  | WriteMultipleCoils _ _ => FunctionCode.WriteMultipleCoils
  | WriteMultipleRegisters _ _ => FunctionCode.WriteMultipleRegisters
  | MaskWriteRegister _ _ _ => FunctionCode.MaskWriteRegister
  | ReadWriteMultipleRegisters _ _ _ _ => FunctionCode.ReadWriteMultipleRegisters
  | ReadFileRecord _ => FunctionCode.ReadFileRecord
  | WriteFileRecord _ => FunctionCode.WriteFileRecord
  | ReadFifoQueue _ => FunctionCode.ReadFifoQueue
  end.
(** What is safe to send twice: the requests that only read *)
Definition kind {A} (c : t A) : RequestKind.t :=
  match c with
  | ReadWriteMultipleRegisters _ _ _ _ | WriteFileRecord _ => RequestKind.Mutating
  | _ => if reads c then RequestKind.ReplaySafe else RequestKind.Mutating
  end.
(** The replies that give the result [v] *)
Definition answer {A} (c : t A) : OwnedResponsePdu.t → A → Prop :=
  match c in t A return OwnedResponsePdu.t → A → Prop with
  | ReadCoils _ q => λ o v, blen v = q ∧ o = OwnedResponsePdu.ReadCoils (OwnedReadCoilsResponse.mk (div_ceil q 8) (pack_bits v))
  | ReadDiscreteInputs _ q => λ o v, blen v = q ∧
      o = OwnedResponsePdu.ReadDiscreteInputs (OwnedReadDiscreteInputsResponse.mk (div_ceil q 8) (pack_bits v))
  | ReadHoldingRegisters _ q => λ o v, blen v = q ∧ u16s v ∧
      o = OwnedResponsePdu.ReadHoldingRegisters (OwnedReadHoldingRegistersResponse.mk (q * 2) (words_be v))
  | ReadHoldingRegistersRaw _ q => λ o v, blen v = q * 2 ∧
      o = OwnedResponsePdu.ReadHoldingRegisters (OwnedReadHoldingRegistersResponse.mk (q * 2) v)
  | ReadInputRegisters _ q => λ o v, blen v = q ∧ u16s v ∧
      o = OwnedResponsePdu.ReadInputRegisters (OwnedReadInputRegistersResponse.mk (q * 2) (words_be v))
  | WriteSingleCoil a v => λ o _, o = OwnedResponsePdu.WriteSingleCoil (WriteSingleCoilResponse.mk a (CoilValue.from_bool v))
  | WriteSingleRegister a v => λ o _, o = OwnedResponsePdu.WriteSingleRegister (WriteSingleRegisterResponse.mk a v)
  | WriteMultipleCoils a vs => λ o _, o = OwnedResponsePdu.WriteMultipleCoils (WriteMultipleCoilsResponse.mk a (blen vs))
  | WriteMultipleRegisters a vs => λ o _, o = OwnedResponsePdu.WriteMultipleRegisters (WriteMultipleRegistersResponse.mk a (blen vs))
  | MaskWriteRegister a am om => λ o _, o = OwnedResponsePdu.MaskWriteRegister (MaskWriteRegisterResponse.mk a am om)
  | ReadWriteMultipleRegisters _ rq _ _ => λ o v, blen v = rq ∧ u16s v ∧
      o = OwnedResponsePdu.ReadWriteMultipleRegisters (OwnedReadWriteMultipleRegistersResponse.mk (rq * 2) (words_be v))
  | ReadFileRecord data => λ o v, o = OwnedResponsePdu.ReadFileRecord v ∧
      ∃ gs, OwnedReadFileRecordResponse.data v = concat gs ∧ Forall read_response_group gs ∧ blen gs = blen data / 7
  | WriteFileRecord _ => λ o v, o = OwnedResponsePdu.WriteFileRecord v
  | ReadFifoQueue _ => λ o v, u16s v ∧
      o = OwnedResponsePdu.ReadFifoQueue (OwnedReadFifoQueueResponse.mk (2 + blen v * 2) (blen v) (words_be v))
  end.
End Call.

Section Perform.
Context {W : Type} `{Connection W}.
(** The method that makes a call *)
Definition perform {A} (unit_id : Z) (c : Call.t A) : ST W ClientError.t A :=
  match c in Call.t A return ST W ClientError.t A with
  | Call.ReadCoils a q => read_coils unit_id a q
  | Call.ReadDiscreteInputs a q => read_discrete_inputs unit_id a q
  | Call.ReadHoldingRegisters a q => read_holding_registers unit_id a q
  | Call.ReadHoldingRegistersRaw a q => read_holding_registers_raw unit_id a q
  | Call.ReadInputRegisters a q => read_input_registers unit_id a q
  | Call.WriteSingleCoil a v => write_single_coil unit_id a v
  | Call.WriteSingleRegister a v => write_single_register unit_id a v
  | Call.WriteMultipleCoils a vs => write_multiple_coils unit_id a vs
  | Call.WriteMultipleRegisters a vs => write_multiple_registers unit_id a vs
  | Call.MaskWriteRegister a am om => mask_write_register unit_id a am om
  | Call.ReadWriteMultipleRegisters ra rq wa vs => read_write_multiple_registers unit_id ra rq wa vs
  | Call.ReadFileRecord data => read_file_record unit_id data
  | Call.WriteFileRecord data => write_file_record unit_id data
  | Call.ReadFifoQueue a => read_fifo_queue unit_id a
  end.

(** How a call ends *)
Inductive call_end {A} (unit_id : Z) (c : Call.t A) (w : W) : res ClientError.t A → W → Prop :=
  | end_no_broadcast : UnitId.is_broadcast unit_id = true → Call.reads c = true →
      call_end unit_id c w (Err ClientError.BroadcastReadNotAllowed) w
  | end_invalid e : ¬ Call.valid c → call_end unit_id c w (Err (ClientError.Encode e)) w
  | end_broadcast r w' : UnitId.is_broadcast unit_id = true → Call.reads c = false → Call.valid c →
      broadcast (request_wire (Call.request c)) w = (rmap (λ _, tt) r, w') → call_end unit_id c w r w'
  | end_failed e w' : UnitId.is_broadcast unit_id = false → Call.valid c →
      request unit_id (Call.function c) (request_wire (Call.request c)) (Call.kind c) w = (Err e, w') →
      call_end unit_id c w (Err e) w'
  | end_answered o v w' : UnitId.is_broadcast unit_id = false → Call.valid c →
      request unit_id (Call.function c) (request_wire (Call.request c)) (Call.kind c) w = (Ok o, w') →
      Call.answer c o v → call_end unit_id c w (Ok v) w'
  | end_exception exc w' : UnitId.is_broadcast unit_id = false → Call.valid c →
      request unit_id (Call.function c) (request_wire (Call.request c)) (Call.kind c) w = (Ok (OwnedResponsePdu.Exception exc), w') →
      call_end unit_id c w (Err (ClientError.Exception exc)) w'
  | end_rejected o e reason w' : UnitId.is_broadcast unit_id = false → Call.valid c →
      request unit_id (Call.function c) (request_wire (Call.request c)) (Call.kind c) w = (Ok o, w') →
      (∀ exc, o ≠ OwnedResponsePdu.Exception exc) → (∀ v, ¬ Call.answer c o v) →
      typed_retirement (A := A) (Err e) = Some reason → call_end unit_id c w (Err e) (retire_session reason w').
End Perform.

(** What a connection owes the methods *)
Class ConnectionLaws (W : Type) `{Connection W} (inv : W → Prop) : Prop := {
  request_law unit_id fc pdu kind w : inv w → reply_sound (request unit_id fc pdu kind w).1 ∧ inv (request unit_id fc pdu kind w).2;
  broadcast_law pdu w : inv w → returns (broadcast pdu w).1 ∧ inv (broadcast pdu w).2;
  retire_law reason w : inv w → inv (retire_session reason w);
}.

(** * Lemmas *)

(** ** The verdict on a reply

    [accept] is what a method makes of a reply, without the session. *)
Definition accept {A} (c : Call.t A) : OwnedResponsePdu.t → res ClientError.t A :=
  match c in Call.t A return OwnedResponsePdu.t → res ClientError.t A with
  | Call.ReadCoils _ q => λ o, match o with
      | OwnedResponsePdu.ReadCoils rc =>
          do? validate_bit_response_shape 0x01 q (OwnedReadCoilsResponse.coil_status rc) in
          collect_bits (OwnedReadCoilsResponse.coil rc) 0 (Z.to_nat q)
      | OwnedResponsePdu.Exception exc => Err (ClientError.Exception exc) | _ => unexpected_reply end
  | Call.ReadDiscreteInputs _ q => λ o, match o with
      | OwnedResponsePdu.ReadDiscreteInputs rd =>
          do? validate_bit_response_shape 0x02 q (OwnedReadDiscreteInputsResponse.input_status rd) in
          collect_bits (OwnedReadDiscreteInputsResponse.coil rd) 0 (Z.to_nat q)
      | OwnedResponsePdu.Exception exc => Err (ClientError.Exception exc) | _ => unexpected_reply end
  | Call.ReadHoldingRegisters _ q => λ o, match o with
      | OwnedResponsePdu.ReadHoldingRegisters r =>
          do? validate_register_response_shape 0x03 q (OwnedReadHoldingRegistersResponse.register_data r) in
          Ok (OwnedReadHoldingRegistersResponse.registers r)
      | OwnedResponsePdu.Exception exc => Err (ClientError.Exception exc) | _ => unexpected_reply end
  | Call.ReadHoldingRegistersRaw _ q => λ o, match o with
      | OwnedResponsePdu.ReadHoldingRegisters r =>
          do? validate_register_response_shape 0x03 q (OwnedReadHoldingRegistersResponse.register_data r) in
          Ok (OwnedReadHoldingRegistersResponse.register_data r)
      | OwnedResponsePdu.Exception exc => Err (ClientError.Exception exc) | _ => unexpected_reply end
  | Call.ReadInputRegisters _ q => λ o, match o with
      | OwnedResponsePdu.ReadInputRegisters r =>
          do? validate_register_response_shape 0x04 q (OwnedReadInputRegistersResponse.register_data r) in
          Ok (OwnedReadInputRegistersResponse.registers r)
      | OwnedResponsePdu.Exception exc => Err (ClientError.Exception exc) | _ => unexpected_reply end
  | Call.WriteSingleCoil a v => λ o, match o with
      | OwnedResponsePdu.WriteSingleCoil r =>
          do? expect_echo "address" a (WriteSingleCoilResponse.address r) in
          expect_echo "value" (CoilValue.to_wire (CoilValue.from_bool v)) (CoilValue.to_wire (WriteSingleCoilResponse.value r))
      | OwnedResponsePdu.Exception exc => Err (ClientError.Exception exc) | _ => unexpected_reply end
  | Call.WriteSingleRegister a v => λ o, match o with
      | OwnedResponsePdu.WriteSingleRegister r =>
          do? expect_echo "address" a (WriteSingleRegisterResponse.address r) in
          expect_echo "value" v (WriteSingleRegisterResponse.value r)
      | OwnedResponsePdu.Exception exc => Err (ClientError.Exception exc) | _ => unexpected_reply end
  | Call.WriteMultipleCoils a vs => λ o, match o with
      | OwnedResponsePdu.WriteMultipleCoils r =>
          do? expect_echo "address" a (WriteMultipleCoilsResponse.address r) in
          expect_echo "quantity" (blen vs) (WriteMultipleCoilsResponse.quantity r)
      | OwnedResponsePdu.Exception exc => Err (ClientError.Exception exc) | _ => unexpected_reply end
  | Call.WriteMultipleRegisters a vs => λ o, match o with
      | OwnedResponsePdu.WriteMultipleRegisters r =>
          do? expect_echo "address" a (WriteMultipleRegistersResponse.address r) in
          expect_echo "quantity" (blen vs) (WriteMultipleRegistersResponse.quantity r)
      | OwnedResponsePdu.Exception exc => Err (ClientError.Exception exc) | _ => unexpected_reply end
  | Call.MaskWriteRegister a am om => λ o, match o with
      | OwnedResponsePdu.MaskWriteRegister r =>
          do? expect_echo "address" a (MaskWriteRegisterResponse.address r) in
          do? expect_echo "and_mask" am (MaskWriteRegisterResponse.and_mask r) in
          expect_echo "or_mask" om (MaskWriteRegisterResponse.or_mask r)
      | OwnedResponsePdu.Exception exc => Err (ClientError.Exception exc) | _ => unexpected_reply end
  | Call.ReadWriteMultipleRegisters _ rq _ _ => λ o, match o with
      | OwnedResponsePdu.ReadWriteMultipleRegisters r =>
          do? validate_register_response_shape 0x17 rq (OwnedReadWriteMultipleRegistersResponse.register_data r) in
          Ok (OwnedReadWriteMultipleRegistersResponse.registers r)
      | OwnedResponsePdu.Exception exc => Err (ClientError.Exception exc) | _ => unexpected_reply end
  | Call.ReadFileRecord data => λ o, match o with
      | OwnedResponsePdu.ReadFileRecord r =>
          let actual := read_file_record_sub_response_count (OwnedReadFileRecordResponse.data r) in
          if actual =? blen data / 7 then Ok r
          else Err (ClientError.UnexpectedFileRecordSubResponseCount (blen data / 7) actual)
      | OwnedResponsePdu.Exception exc => Err (ClientError.Exception exc) | _ => unexpected_reply end
  | Call.WriteFileRecord _ => λ o, match o with
      | OwnedResponsePdu.WriteFileRecord r => Ok r
      | OwnedResponsePdu.Exception exc => Err (ClientError.Exception exc) | _ => unexpected_reply end
  | Call.ReadFifoQueue _ => λ o, match o with
      | OwnedResponsePdu.ReadFifoQueue r =>
          Ok (map (λ c, from_be_bytes (at_ c 0) (at_ c 1)) (chunks_exact 2 (OwnedReadFifoQueueResponse.fifo_values r)))
      | OwnedResponsePdu.Exception exc => Err (ClientError.Exception exc) | _ => unexpected_reply end
  end.

Definition verdict {A} (c : Call.t A) (o : OwnedResponsePdu.t) (r : res ClientError.t A) : Prop :=
  (∃ v, r = Ok v ∧ Call.answer c o v) ∨
  (∃ exc, o = OwnedResponsePdu.Exception exc ∧ r = Err (ClientError.Exception exc)) ∨
  (rejects r ∧ (∀ exc, o ≠ OwnedResponsePdu.Exception exc) ∧ ∀ v, ¬ Call.answer c o v).

(** What is known of a decoded reply *)
Definition decoded (o : OwnedResponsePdu.t) : Prop :=
  response_ok (borrowed o) ∨ ∃ data, o = OwnedResponsePdu.Custom 0 data.
Lemma sound_decoded o : reply_sound (Ok o) → decoded o.
Proof.
  intros (pdu & Hb & Hl & Hpdu). destruct pdu as [|fc data]; [done|]. destruct (decide (fc = 0)) as [->|Hne].
  - rewrite owned_vendor_zero in Hpdu. injection Hpdu as <-. right. by exists data.
  - left. assert (decode_pdu_ref (fc :: data) = Ok (PduRef.mk fc data)) as Hp by by apply decode_pdu_ref_Ok.
    pose proof (owned_dispatch fc data Hne Hp) as Hd. rewrite Hpdu in Hd. symmetry in Hd.
    by destruct (decode_response_sound _ _ Hb Hd).
Qed.

Lemma registers_words data : bytes_ok data → blen data mod 2 = 0 → u16s (be_words data) ∧ words_be (be_words data) = data ∧
  blen (be_words data) * 2 = blen data ∧ map (λ c, from_be_bytes (at_ c 0) (at_ c 1)) (chunks_exact 2 data) = be_words data.
Proof.
  intros Hb Hm. split_and!; [by apply be_words_u16|by apply words_be_words|by apply blen_be_words|].
  rewrite chunks_exact_be by done. pose proof (be_words_u16 data Hb Hm) as Hu. induction Hu as [|w ws Hw _ IH]; [done|]. cbn.
  f_equal; [|done]. apply from_to_be_bytes; done.
Qed.

(** A reply of another kind is rejected by every method, and an exception is
    passed on. *)
Ltac other_reply :=
  match goal with
  | |- verdict _ _ (Err (ClientError.Exception _)) => right; left; by eexists
  | |- verdict _ _ unexpected_reply =>
      right; right; split; [by do 2 eexists|]; split; [done|]; intros ?; cbn [Call.answer]; naive_solver
  end.

Section Verdicts.
Context (o : OwnedResponsePdu.t) (Ho : decoded o).

Lemma bits_verdict (c : Call.t (list bool)) fc q data coil :
  bytes_ok data → 1 ≤ q → (∀ i, 0 ≤ i < 8 * blen data → coil i = Ok (bit data i)) →
  (∀ v, blen data = div_ceil q 8 → blen v = q → data = pack_bits v → Call.answer c o v) →
  (∀ exc, o ≠ OwnedResponsePdu.Exception exc) → (∀ v, Call.answer c o v → blen v = q ∧ data = pack_bits v) →
  verdict c o (do? validate_bit_response_shape fc q data in collect_bits coil 0 (Z.to_nat q)).
Proof.
  intros Hb Hq Hcoil Hyes Hexc Hno. pose proof (div_ceil_8 q ltac:(lia)).
  destruct (validate_bits_spec fc q data Hb Hq) as [(-> & Hl & Hp)|[(e & reason & -> & Ht) Hne]]; cbn [rbind].
  - rewrite (collect_bits_unpack coil data) by (done || lia). left. eexists. split; [done|]. apply Hyes; [done| |done].
    apply blen_unpack_bits. lia.
  - right. right. split; [by exists e, reason|]. split; [done|]. intros v [Hv Heq]%Hno. by destruct (Hne v Hv).
Qed.
Lemma registers_verdict {A} (c : Call.t A) fc q data (v : A) :
  (blen data = q * 2 → Call.answer c o v) → (∀ exc, o ≠ OwnedResponsePdu.Exception exc) →
  (∀ a, Call.answer c o a → blen data = q * 2) →
  verdict c o (do? validate_register_response_shape fc q data in Ok v).
Proof.
  intros Hyes Hexc Hno. destruct (validate_registers_spec fc q data) as [[-> Hl]|[(e & reason & -> & Ht) Hl]]; cbn [rbind].
  - left. eauto.
  - right. right. split; [by exists e, reason|]. split; [done|]. intros a Ha%Hno. done.
Qed.
(** A chain of echo checks *)
Inductive echoes : list (Z * Z) → res ClientError.t unit → Prop :=
  | echo_last field e g : echoes [(e, g)] (expect_echo field e g)
  | echo_more field e g l r : echoes l r → echoes ((e, g) :: l) (do? expect_echo field e g in r).
Lemma echo_verdict (c : Call.t unit) l r : echoes l r →
  (Forall (λ p, p.1 = p.2) l → Call.answer c o tt) → (∀ exc, o ≠ OwnedResponsePdu.Exception exc) →
  (∀ u, Call.answer c o u → Forall (λ p, p.1 = p.2) l) → verdict c o r.
Proof.
  intros Hl Hyes Hexc Hno.
  assert ((Forall (λ p, p.1 = p.2) l ∧ r = Ok tt) ∨ (¬ Forall (λ p, p.1 = p.2) l ∧ rejects r)) as [[Hall ->]|[Hall Hr]].
  { clear Hyes Hno. induction Hl as [field e g|field e g l r _ IH].
    - destruct (expect_echo_spec field e g) as [[-> ->]|[Hne Hr]]; [left; split; [by repeat constructor|done]|right].
      split; [|done]. by intros [? _]%Forall_cons.
    - destruct (expect_echo_spec field e g) as [[-> ->]|[Hne (x & reason & -> & Ht)]]; cbn [rbind].
      + destruct IH as [[? ?]|[? ?]]; [left|right]; (split; [|done]); rewrite Forall_cons; naive_solver.
      + right. split; [|by exists x, reason]. by intros [? _]%Forall_cons. }
  - left. eauto.
  - right. right. split_and!; [done..|]. by intros u ?%Hno.
Qed.
End Verdicts.

Lemma length_concat_groups gs : Forall read_response_group gs → (length gs ≤ length (concat gs))%nat.
Proof. induction 1 as [|g gs (v & -> & _) _ IH]; [done|]. cbn [concat length]. rewrite length_app. cbn. lia. Qed.
Lemma accept_reads_spec {A} (c : Call.t A) o : decoded o → Call.args_ok c → Call.valid c →
  match c with
  | Call.ReadCoils _ _ | Call.ReadDiscreteInputs _ _ | Call.ReadHoldingRegisters _ _ | Call.ReadHoldingRegistersRaw _ _
  | Call.ReadInputRegisters _ _ | Call.ReadWriteMultipleRegisters _ _ _ _ => verdict c o (accept c o)
  | _ => True
  end.
Proof.
  intros Ho Ha [Hok _]. destruct c; try done; cbn [Call.request request_ok] in Hok; destruct Hok as [_ Hok];
    cbn [accept]; destruct o; try other_reply; (destruct Ho as [Ho|[? [=]]]); cbn [borrowed response_ok] in Ho; destruct x as [bc data]; cbn in Ho, Hok.
  - destruct Ho as [[_ Hb] Hl]. cbv [ReadCoilsResponse_decodable] in Hl. cbn in Hb, Hl.
    apply bits_verdict; try done; [apply Hok|apply coil_bit|..]; cbn.
    + intros v H1 H2 ->. split; [done|]. do 2 f_equal. lia.
    + intros v [? [= -> ->]]. done.
  - destruct Ho as [[_ Hb] Hl]. cbv [ReadDiscreteInputsResponse_decodable] in Hl. cbn in Hb, Hl.
    apply bits_verdict; try done; [apply Hok|apply coil_bit|..]; cbn.
    + intros v H1 H2 ->. split; [done|]. do 2 f_equal. lia.
    + intros v [? [= -> ->]]. done.
  - destruct Ho as [[_ Hb] Hl]. cbv [ReadHoldingRegistersResponse_decodable] in Hl. cbn in Hb, Hl. destruct Hl as [<- Hm].
    destruct (registers_words data Hb Hm) as (Hu & Hw & Hc & Hr). rewrite (Hr : OwnedReadHoldingRegistersResponse.registers (OwnedReadHoldingRegistersResponse.mk _ data) = _).
    apply registers_verdict; try done; cbn.
    + intros Hq. rewrite Hw, Hq. split; [lia|done].
    + by intros v (<- & _ & [= -> _]).
  - destruct Ho as [[_ Hb] Hl]. cbv [ReadHoldingRegistersResponse_decodable] in Hl. cbn in Hb, Hl. destruct Hl as [<- Hm].
    apply registers_verdict; try done; cbn.
    + intros Hq. by rewrite Hq.
    + by intros v (_ & [= -> _]).
  - destruct Ho as [[_ Hb] Hl]. cbv [ReadInputRegistersResponse_decodable] in Hl. cbn in Hb, Hl. destruct Hl as [<- Hm].
    destruct (registers_words data Hb Hm) as (Hu & Hw & Hc & Hr). rewrite (Hr : OwnedReadInputRegistersResponse.registers (OwnedReadInputRegistersResponse.mk _ data) = _).
    apply registers_verdict; try done; cbn.
    + intros Hq. rewrite Hw, Hq. split; [lia|done].
    + by intros v (<- & _ & [= -> _]).
  - destruct Ho as [[_ Hb] Hl]. cbv [ReadWriteMultipleRegistersResponse_decodable] in Hl. cbn in Hb, Hl. destruct Hl as [<- Hm].
    destruct (registers_words data Hb Hm) as (Hu & Hw & Hc & Hr). rewrite (Hr : OwnedReadWriteMultipleRegistersResponse.registers (OwnedReadWriteMultipleRegistersResponse.mk _ data) = _).
    apply registers_verdict; try done; cbn.
    + intros Hq. rewrite Hw, Hq. split; [lia|done].
    + by intros v (<- & _ & [= -> _]).
Qed.
Lemma accept_spec {A} (c : Call.t A) o : decoded o → Call.args_ok c → Call.valid c → verdict c o (accept c o).
Proof.
  intros Ho Ha Hok. pose proof (accept_reads_spec c o Ho Ha Hok) as Hr. destruct c; try exact Hr; clear Hr; cbn [accept];
    destruct o; try other_reply; (destruct Ho as [Ho|[? [=]]]); cbn [borrowed response_ok] in Ho.
  - destruct x as [a' v']. eapply echo_verdict; [repeat (eapply echo_last || eapply echo_more)| |done|]; cbn.
    + rewrite !Forall_cons. cbn. intros (-> & Hv & _). do 2 f_equal. by destruct value, v'.
    + intros _ [= -> ->]. by repeat constructor.
  - destruct x as [a' v']. eapply echo_verdict; [repeat (eapply echo_last || eapply echo_more)| |done|]; cbn.
    + rewrite !Forall_cons. cbn. by intros (-> & -> & _).
    + intros _ [= -> ->]. by repeat constructor.
  - destruct x as [a' v']. eapply echo_verdict; [repeat (eapply echo_last || eapply echo_more)| |done|]; cbn.
    + rewrite !Forall_cons. cbn. by intros (-> & -> & _).
    + intros _ [= -> ->]. by repeat constructor.
  - destruct x as [a' v']. eapply echo_verdict; [repeat (eapply echo_last || eapply echo_more)| |done|]; cbn.
    + rewrite !Forall_cons. cbn. by intros (-> & -> & _).
    + intros _ [= -> ->]. by repeat constructor.
  - destruct x as [a' v' v'']. eapply echo_verdict; [repeat (eapply echo_last || eapply echo_more)| |done|]; cbn.
    + rewrite !Forall_cons. cbn. by intros (-> & -> & -> & _).
    + intros _ [= -> -> ->]. by repeat constructor.
  - destruct x as [bc payload]. destruct Ho as [_ Ho]. simpl in Ho. unfold ReadFileRecordResponse_encodable in Ho. destruct Ho as (_ & _ & gs & Hgs & Hall). cbn in Hgs. cbn zeta. unfold read_file_record_sub_response_count.
    cbn [OwnedReadFileRecordResponse.data]. subst payload. rewrite sub_response_count_groups by (done || by apply length_concat_groups).
    destruct (Z.eqb_spec (0 + blen gs) (blen sub_request_data / 7)) as [He|He].
    + left. eexists. split; [done|]. cbn. split; [done|]. by exists gs.
    + right. right. split; [by do 2 eexists|]. split; [done|]. cbn. intros v ([= <-] & gs' & Hgs' & Hall' & Hn). cbn in Hgs'. apply He.
      pose proof (sub_response_count_groups gs' Hall' (length (concat gs')) 0 (length_concat_groups gs' Hall')) as H1.
      pose proof (sub_response_count_groups gs Hall (length (concat gs)) 0 (length_concat_groups gs Hall)) as H2.
      rewrite <-Hgs' in H1. lia.
  - left. by eexists.
  - destruct x as [bc n data]. destruct Ho as [(_ & _ & Hb) Ho]. simpl in Ho. unfold ReadFifoQueueResponse_encodable in Ho.
    destruct Ho as (Hbc & _ & Hl). cbn in Hb, Hbc, Hl.
    destruct (registers_words data Hb (blen_mod_2 data n ltac:(lia))) as (Hu & Hw & Hc & Hr). cbn [OwnedReadFifoQueueResponse.fifo_values].
    rewrite Hr. left. eexists. split; [done|]. cbn. rewrite Hw. split; [done|]. do 2 f_equal; lia.
Qed.

(** ** Running a method *)
Section Run.
Context {W : Type} `{Connection W}.

Lemma finish_then {A B} (r1 : res ClientError.t A) (r2 : res ClientError.t B) (w : W) :
  (result <- (finish_typed_response r1;;; st_ret r2);; finish_typed_response result) w = finish_typed_response (do? r1 in r2) w.
Proof. by destruct r1 as [|[]| |]. Qed.
Lemma finish_twice {A B C} (r1 : res ClientError.t A) (r2 : res ClientError.t B) (r3 : res ClientError.t C) (w : W) :
  (result <- (finish_typed_response r1;;; finish_typed_response r2;;; st_ret r3);; finish_typed_response result) w =
  finish_typed_response (do? r1 in do? r2 in r3) w.
Proof. by destruct r1 as [|[]| |], r2 as [|[]| |]. Qed.
Lemma finish_collect fc q data coil (w : W) : 0 ≤ q → (∀ i, 0 ≤ i < 8 * blen data → coil i = Ok (bit data i)) →
  (result <- (finish_typed_response (validate_bit_response_shape fc q data);;;
              bits <- st_lift (collect_bits coil 0 (Z.to_nat q));; st_ret (Ok bits));; finish_typed_response result) w =
  finish_typed_response (do? validate_bit_response_shape fc q data in collect_bits coil 0 (Z.to_nat q)) w.
Proof.
  intros Hq Hcoil. destruct (validate_bit_response_shape fc q data) as [[]|[]| |] eqn:Hv; try done.
  assert (blen data = div_ceil q 8) as Hl.
  { unfold validate_bit_response_shape in Hv. apply rbind_Ok in Hv as (? & Hv & _).
    destruct (validate_response_length_spec fc (div_ceil q 8) (blen data)) as [[? _]|[_ (? & ? & He & _)]]; [done|].
    rewrite He in Hv. done. }
  pose proof (div_ceil_8 q Hq). by rewrite (collect_bits_unpack coil data) by (done || lia).
Qed.

(** Sending an encoded request, to one unit or to all *)
Definition dispatch {A} (unit_id : Z) (c : Call.t A) (w : W) (o : res ClientError.t A * W) : Prop :=
  if UnitId.is_broadcast unit_id
  then broadcast (request_wire (Call.request c)) w = (rmap (λ _, tt) o.1, o.2)
  else o = (response <- request unit_id (Call.function c) (request_wire (Call.request c)) (Call.kind c);;
            finish_typed_response (accept c response)) w.
Definition performs {A} (unit_id : Z) (c : Call.t A) (w : W) (o : res ClientError.t A * W) : Prop :=
  (UnitId.is_broadcast unit_id && Call.reads c = true ∧ o = (Err ClientError.BroadcastReadNotAllowed, w)) ∨
  (UnitId.is_broadcast unit_id && Call.reads c = false ∧
   ((¬ Call.valid c ∧ ∃ e, o = (Err (ClientError.Encode e), w)) ∨
    (Call.valid c ∧ dispatch unit_id c w o))).

(** After the encoding of the request [x] *)
Lemma performs_encoded {A R} `{EncodeSpec R} (x : R) size unit_id (c : Call.t A) (w : W) (k : bytes → ST W ClientError.t A) :
  UnitId.is_broadcast unit_id && Call.reads c = false → wf x → 0 ≤ size → (encodable x → encoded_len x ≤ size) →
  (Call.valid c ↔ encodable x) → request_wire (Call.request c) = wire x →
  (encodable x → dispatch unit_id c w (k (wire x) w)) → performs unit_id c w ((buf <- st_lift (encode_request x size);; k buf) w).
Proof.
  intros Hb Hwf Hs Hfit Hok Hw Hk. right. split; [done|]. rewrite st_bind_lift.
  destruct (encode_request_exact x size Hwf Hs Hfit) as [[He ->]|[He [e ->]]].
  - right. split; [by apply Hok|by apply Hk].
  - left. split; [by rewrite Hok|by eexists].
Qed.
Lemma dispatch_read {A} unit_id (c : Call.t A) (w : W) (k : OwnedResponsePdu.t → ST W ClientError.t A) :
  UnitId.is_broadcast unit_id = false → (∀ o w1, k o w1 = finish_typed_response (accept c o) w1) →
  dispatch unit_id c w ((response <- request unit_id (Call.function c) (request_wire (Call.request c)) (Call.kind c);; k response) w).
Proof.
  intros Hb Hk. unfold dispatch. rewrite Hb. unfold st_bind.
  destruct (request unit_id (Call.function c) (request_wire (Call.request c)) (Call.kind c) w) as [[o|e| |] w1]; [apply Hk|done..].
Qed.
Lemma dispatch_write unit_id (c : Call.t unit) (w : W) (k : OwnedResponsePdu.t → ST W ClientError.t unit) :
  (∀ o w1, k o w1 = finish_typed_response (accept c o) w1) →
  dispatch unit_id c w ((if UnitId.is_broadcast unit_id then broadcast (request_wire (Call.request c)) else
    (response <- request unit_id (Call.function c) (request_wire (Call.request c)) (Call.kind c);; k response)) w).
Proof.
  intros Hk. destruct (UnitId.is_broadcast unit_id) eqn:Hb; [|by apply dispatch_read]. unfold dispatch. rewrite Hb.
  by destruct (broadcast (request_wire (Call.request c)) w) as [[[]|e| |] w1].
Qed.

(** Methods that read, with a request of fixed size *)
Lemma performs_read {A R} `{EncodeSpec R} (x : R) size unit_id (c : Call.t A) (w : W) (k : OwnedResponsePdu.t → ST W ClientError.t A) m :
  m = (if UnitId.is_broadcast unit_id then st_err ClientError.BroadcastReadNotAllowed else
       buf <- st_lift (encode_request x size);;
       response <- request unit_id (Call.function c) buf (Call.kind c);; k response) →
  Call.reads c = true → wf x → 0 ≤ size → (encodable x → encoded_len x ≤ size) →
  (Call.valid c ↔ encodable x) → request_wire (Call.request c) = wire x →
  (∀ o w1, k o w1 = finish_typed_response (accept c o) w1) → performs unit_id c w (m w).
Proof.
  intros -> Hr Hwf Hs Hfit Hok Hw Hk. destruct (UnitId.is_broadcast unit_id) eqn:Hb; [left; by rewrite Hb, Hr|].
  apply performs_encoded; [by rewrite Hb|done..|]. intros _. rewrite <-Hw. by apply dispatch_read.
Qed.
Lemma performs_write {R} `{EncodeSpec R} (x : R) size unit_id (c : Call.t unit) (w : W) (k : OwnedResponsePdu.t → ST W ClientError.t unit) m :
  m = (buf <- st_lift (encode_request x size);;
       if UnitId.is_broadcast unit_id then broadcast buf else
       response <- request unit_id (Call.function c) buf (Call.kind c);; k response) →
  Call.reads c = false → wf x → 0 ≤ size → (encodable x → encoded_len x ≤ size) →
  (Call.valid c ↔ encodable x) → request_wire (Call.request c) = wire x →
  (∀ o w1, k o w1 = finish_typed_response (accept c o) w1) → performs unit_id c w (m w).
Proof.
  intros -> Hr Hwf Hs Hfit Hok Hw Hk. apply performs_encoded; [by rewrite Hr, andb_false_r|done..|].
  intros _. rewrite <-Hw. by apply dispatch_write.
Qed.
End Run.

Ltac reply_cases := intros o w1; destruct o; try reflexivity; first [apply finish_then | apply finish_twice | apply finish_collect; [lia|apply coil_bit]].
(** The side conditions of a fixed-size request *)
Ltac fixed_request := first [done | (split; [intros [[_ ?] _]; assumption|intros; split; [split; [|assumption]|]; done]) | cbn; lia].

Section Methods.
Context {W : Type} `{Connection W} (unit_id : Z) (w : W).

Lemma multiple_coils_performs a vs : is_u16 a →
  performs unit_id (Call.WriteMultipleCoils a vs) w (write_multiple_coils unit_id a vs w).
Proof.
  intros Ha. unfold write_multiple_coils. rewrite st_bind_lift.
  destruct (checked_quantity_cases (blen vs) MAX_WRITE_MULTIPLE_COILS (blen_nonneg _) ltac:(done)) as [[Hq ->]|[Hq [e ->]]].
  - pose proof (div_ceil_8 (blen vs) ltac:(lia)) as Hd. unfold MAX_WRITE_MULTIPLE_COILS in Hq.
    rewrite st_bind_lift. unfold checked_byte_count_len. rewrite checked_byte_count_ok by lia. rewrite st_bind_lift, set_coil_bits_pack.
    set (x := WriteMultipleCoilsRequest.mk a (blen vs) (div_ceil (blen vs) 8) (pack_bits vs)).
    assert (wf x) as Hwf by (split_and!; cbn; [lia..|apply pack_bits_ok]).
    eapply (performs_write x 256); [reflexivity|done|done|done| |by split; [intros [[] _]|]|done|by reply_cases].
    intros He. transitivity MAX_PDU_SIZE; [by apply wire_bounded|done].
  - right. split; [apply andb_false_r|]. left. split; [|by eexists]. intros [[_ Hen] _]. simpl in Hen.
    unfold WriteMultipleCoilsRequest_encodable in Hen. cbn in Hen. unfold MAX_WRITE_MULTIPLE_COILS in Hq. lia.
Qed.
Lemma multiple_registers_performs a vs : is_u16 a → u16s vs →
  performs unit_id (Call.WriteMultipleRegisters a vs) w (write_multiple_registers unit_id a vs w).
Proof.
  intros Ha Hvs. unfold write_multiple_registers. rewrite st_bind_lift.
  destruct (checked_quantity_cases (blen vs) MAX_WRITE_MULTIPLE_REGISTERS (blen_nonneg _) ltac:(done)) as [[Hq ->]|[Hq [e ->]]].
  - unfold MAX_WRITE_MULTIPLE_REGISTERS in Hq.
    rewrite st_bind_lift. unfold checked_byte_count_len. rewrite checked_byte_count_ok by lia. rewrite st_bind_lift, value_bytes_words.
    set (x := WriteMultipleRegistersRequest.mk a (blen vs) (blen vs * 2) (words_be vs)).
    assert (wf x) as Hwf by (split_and!; cbn; [lia..|apply words_be_ok]).
    eapply (performs_write x 256); [reflexivity|done|done|done| |by split; [intros [[] _]|]|done|by reply_cases].
    intros He. transitivity MAX_PDU_SIZE; [by apply wire_bounded|done].
  - right. split; [apply andb_false_r|]. left. split; [|by eexists]. intros [[_ Hen] _]. simpl in Hen.
    unfold WriteMultipleRegistersRequest_encodable in Hen. cbn in Hen. unfold MAX_WRITE_MULTIPLE_REGISTERS in Hq. lia.
Qed.
Lemma read_write_performs ra rq wa vs : is_u16 ra → is_u16 rq → is_u16 wa → u16s vs →
  performs unit_id (Call.ReadWriteMultipleRegisters ra rq wa vs) w (read_write_multiple_registers unit_id ra rq wa vs w).
Proof.
  intros Hra Hrq Hwa Hvs. unfold read_write_multiple_registers. destruct (UnitId.is_broadcast unit_id) eqn:Hb; [left; by rewrite Hb|].
  rewrite st_bind_lift.
  destruct (checked_quantity_cases (blen vs) MAX_READ_WRITE_MULTIPLE_WRITE_REGISTERS (blen_nonneg _) ltac:(done)) as [[Hq ->]|[Hq [e ->]]].
  - unfold MAX_READ_WRITE_MULTIPLE_WRITE_REGISTERS in Hq.
    rewrite st_bind_lift. unfold checked_byte_count_len. rewrite checked_byte_count_ok by lia. rewrite st_bind_lift, value_bytes_words.
    set (x := ReadWriteMultipleRegistersRequest.mk ra rq wa (blen vs) (blen vs * 2) (words_be vs)).
    assert (wf x) as Hwf by (split_and!; cbn; [lia..|apply words_be_ok]).
    apply (performs_encoded x 256); [by rewrite Hb|done|done| |by split; [intros [[] _]|]|done|].
    + intros He. transitivity MAX_PDU_SIZE; [by apply wire_bounded|done].
    + intros _. apply (dispatch_read unit_id (Call.ReadWriteMultipleRegisters ra rq wa vs)); [done|]. by reply_cases.
  - right. rewrite Hb. split; [done|]. left. split; [|by eexists]. intros [[_ Hen] _]. simpl in Hen.
    unfold ReadWriteMultipleRegistersRequest_encodable in Hen. cbn in Hen. unfold MAX_READ_WRITE_MULTIPLE_WRITE_REGISTERS in Hq. lia.
Qed.
Lemma file_byte_count_cases n : 0 ≤ n →
  (7 ≤ n ≤ 245 ∧ checked_file_record_byte_count n = Ok n) ∨ (¬ 7 ≤ n ≤ 245 ∧ ∃ e, checked_file_record_byte_count n = Err (ClientError.Encode e)).
Proof.
  intros Hn. destruct (decide (7 ≤ n ≤ 245)) as [Hr|Hr].
  - left. split; [done|]. apply checked_byte_count_ok; unfold FILE_RECORD_MIN_BYTE_COUNT, FILE_RECORD_MAX_BYTE_COUNT; lia.
  - right. split; [done|]. unfold checked_file_record_byte_count, checked_byte_count_value.
    replace ((n <? FILE_RECORD_MIN_BYTE_COUNT) || (FILE_RECORD_MAX_BYTE_COUNT <? n)) with true; [by eexists|].
    unfold FILE_RECORD_MIN_BYTE_COUNT, FILE_RECORD_MAX_BYTE_COUNT. lia.
Qed.
Lemma read_file_performs data : bytes_ok data → performs unit_id (Call.ReadFileRecord data) w (read_file_record unit_id data w).
Proof.
  intros Hd. unfold read_file_record. destruct (UnitId.is_broadcast unit_id) eqn:Hb; [left; by rewrite Hb|]. rewrite st_bind_lift.
  destruct (file_byte_count_cases (blen data) (blen_nonneg _)) as [[Hq ->]|[Hq [e ->]]].
  - set (x := ReadFileRecordRequest.mk (blen data) data). assert (wf x) as Hwf by (split; cbn; [lia|done]).
    apply (performs_encoded x 256); [by rewrite Hb|done|done| |by split; [intros [[] _]|]|done|].
    + intros He. transitivity MAX_PDU_SIZE; [by apply wire_bounded|done].
    + intros _. apply (dispatch_read unit_id (Call.ReadFileRecord data)); [done|]. by reply_cases.
  - right. rewrite Hb. split; [done|]. left. split; [|by eexists]. intros [[_ Hen] _]. simpl in Hen. unfold ReadFileRecordRequest_encodable in Hen. cbn in Hen. lia.
Qed.
Lemma write_file_performs data : bytes_ok data → performs unit_id (Call.WriteFileRecord data) w (write_file_record unit_id data w).
Proof.
  intros Hd. unfold write_file_record. destruct (UnitId.is_broadcast unit_id) eqn:Hb; [left; by rewrite Hb|]. rewrite st_bind_lift.
  destruct (file_byte_count_cases (blen data) (blen_nonneg _)) as [[Hq ->]|[Hq [e ->]]].
  - set (x := WriteFileRecordRequest.mk (blen data) data). assert (wf x) as Hwf by (split; cbn; [lia|done]).
    apply (performs_encoded x 256); [by rewrite Hb|done|done| |split; [by intros [[] _]|intros ?; split; [done|lia]]|done|].
    + intros He. transitivity MAX_PDU_SIZE; [by apply wire_bounded|done].
    + intros _. apply (dispatch_read unit_id (Call.WriteFileRecord data)); [done|]. by reply_cases.
  - right. rewrite Hb. split; [done|]. left. split; [|by eexists]. intros [[_ Hen] Hmax]. simpl in Hen. unfold WriteFileRecordRequest_encodable in Hen. cbn in Hen. lia.
Qed.
End Methods.

Lemma perform_performs {W} `{Connection W} {A} unit_id (c : Call.t A) (w : W) : Call.args_ok c → performs unit_id c w (perform unit_id c w).
Proof.
  intros Ha. destruct c; cbn [perform Call.args_ok] in Ha |- *.
  - eapply (performs_read (ReadCoilsRequest.mk address quantity) 5); [reflexivity|..]; try fixed_request. by reply_cases.
  - eapply (performs_read (ReadDiscreteInputsRequest.mk address quantity) 5); [reflexivity|..]; try fixed_request. by reply_cases.
  - eapply (performs_read (ReadHoldingRegistersRequest.mk address quantity) 5); [reflexivity|..]; try fixed_request. by reply_cases.
  - eapply (performs_read (ReadHoldingRegistersRequest.mk address quantity) 5); [reflexivity|..]; try fixed_request. by reply_cases.
  - eapply (performs_read (ReadInputRegistersRequest.mk address quantity) 5); [reflexivity|..]; try fixed_request. by reply_cases.
  - eapply (performs_write (WriteSingleCoilRequest.mk address (CoilValue.from_bool value)) 5); [reflexivity|..]; try fixed_request. by reply_cases.
  - eapply (performs_write (WriteSingleRegisterRequest.mk address value) 5); [reflexivity|..]; try fixed_request. by reply_cases.
  - by apply multiple_coils_performs.
  - destruct Ha. by apply multiple_registers_performs.
  - eapply (performs_write (MaskWriteRegisterRequest.mk address and_mask or_mask) 7); [reflexivity|..]; try fixed_request. by reply_cases.
  - destruct Ha as (? & ? & ? & ?). by apply read_write_performs.
  - by apply read_file_performs.
  - by apply write_file_performs.
  - eapply (performs_read (ReadFifoQueueRequest.mk pointer_address) 3); [reflexivity|..]; fixed_request.
Qed.

Lemma finish_run {W} `{Connection W} {A} (r : res ClientError.t A) (w : W) :
  finish_typed_response r w = (r, match typed_retirement r with Some reason => retire_session reason w | None => w end).
Proof. unfold finish_typed_response. by destruct (typed_retirement r). Qed.

Lemma perform_end {W} `{Connection W} (inv : W → Prop) `{!ConnectionLaws W inv} {A} unit_id (c : Call.t A) (w : W) :
  inv w → Call.args_ok c →
  ∃ r w', perform unit_id c w = (r, w') ∧ returns r ∧ inv w' ∧ call_end unit_id c w r w'.
Proof.
  intros Hw Ha. destruct (perform_performs unit_id c w Ha) as [[Hb ->]|[Hb [[Hv [e ->]]|[Hv Hd]]]].
  - apply andb_true_iff in Hb as [? ?]. do 2 eexists. split; [done|]. split_and!; [done..|]. by constructor.
  - do 2 eexists. split; [done|]. split_and!; [done..|]. by constructor.
  - destruct (perform unit_id c w) as [r w'] eqn:Hp. unfold dispatch in Hd. exists r, w'. split; [done|].
    destruct (UnitId.is_broadcast unit_id) eqn:Hbc.
    + cbn [fst snd andb] in *. destruct (broadcast_law (request_wire (Call.request c)) w Hw) as [Hr Hi]. rewrite Hd in Hr, Hi.
      split_and!; [by destruct r|done|]. by apply end_broadcast.
    + destruct (request_law unit_id (Call.function c) (request_wire (Call.request c)) (Call.kind c) w Hw) as [Hr Hi]. unfold st_bind in Hd.
      destruct (request unit_id (Call.function c) (request_wire (Call.request c)) (Call.kind c) w) as [[o|e| |] w1] eqn:Hreq; try done; cbn [fst snd] in *.
      * rewrite finish_run in Hd. destruct (accept_spec c o (sound_decoded o Hr) Ha Hv) as [(v & Hacc & Hans)|[(exc & -> & Hacc)|[(e & reason & Hacc & Ht) [Hexc Hno]]]];
          rewrite Hacc in Hd.
        -- injection Hd as -> ->. split_and!; [done..|]. by eapply end_answered.
        -- injection Hd as -> ->. split_and!; [done..|]. by eapply end_exception.
        -- rewrite Ht in Hd. injection Hd as -> ->. split_and!; [done|by apply retire_law|]. by eapply end_rejected.
      * injection Hd as -> ->. split_and!; [done..|]. by apply end_failed.
Qed.

(** The client keeps the promise, whatever its runtime does. *)
#[export] Instance client_connection_laws {W} `{RuntimeLaws W} config (Hconfig : config_ok config) :
  @ConnectionLaws W (client_connection config) (λ w, ring_inv (txn_mgr w)).
Proof.
  split.
  - intros unit_id fc pdu kind w Hw. destruct (send_with_retry_end config unit_id fc pdu kind w Hconfig Hw) as (r & w' & Heq & _ & ? & ? & _).
    cbn [request client_connection]. by rewrite Heq.
  - intros pdu w Hw. destruct (send_broadcast_end pdu w Hw) as (r & w' & Heq & ? & ? & _). cbn [broadcast client_connection]. by rewrite Heq.
  - intros reason w Hw. cbn [retire_session client_connection]. destruct (retire_run reason w) as (w' & -> & He & _). by apply He.
Qed.

(** A peer that always sends the same PDU, until the session is retired *)
Definition canned : Connection bytes := {|
  request _ _ _ _ pdu := (match OwnedResponsePdu.from_pdu pdu with
                          | Ok o => Ok o | Err e => Err (ClientError.Codec e) | Panic => Panic | OutOfFuel => OutOfFuel
                          end, pdu);
  broadcast _ pdu := (Ok tt, pdu);
  retire_session _ _ := [];
|}.
Lemma canned_laws : @ConnectionLaws bytes canned (λ pdu, bytes_ok pdu ∧ blen pdu ≤ 253).
Proof.
  split; [|done|by intros; split; [constructor|]]. intros ? ? ? ? pdu [Hb Hl]. split; [|done]. cbn.
  pose proof (owned_returns pdu Hb). destruct (OwnedResponsePdu.from_pdu pdu) eqn:Ho; try done. by exists pdu.
Qed.

(** * Theorems *)

(** C5. Every request method but the paged read of the device identification, over any
    connection whose replies are decoded PDUs: it always returns. Arguments outside the limits of the protocol are refused
    before anything is sent, and so is a read of the broadcast address. Otherwise
    exactly one request goes out, the encoding of the arguments; the result is [v]
    only for the one reply that says [v] for this request: as many values as asked,
    no stray padding bit, the address and the values of a write echoed. An
    exception reply is returned as that exception and leaves the session in use; after
    any other reply the session is retired and the call fails. *)
Theorem methods_exact (W : Type) `{Connection W} (inv : W → Prop) `{!ConnectionLaws W inv} (A : Type) (unit_id : Z) (c : Call.t A) (w : W) :
  inv w → Call.args_ok c →
  ∃ r w', perform unit_id c w = (r, w') ∧ returns r ∧ inv w' ∧ call_end unit_id c w r w'.
Proof. apply perform_end. done. Qed.
Lemma methods_exact_witness :
  @perform bytes canned _ 1 (Call.ReadCoils 0 3) [0x01; 0x01; 0x05] = (Ok [true; false; true], [0x01; 0x01; 0x05]) ∧
  @perform bytes canned _ 1 (Call.ReadCoils 0 3) [0x01; 0x01; 0x0D] =
    (Err (ClientError.UnexpectedResponsePadding 1 248 13), []).
Proof.
  destruct (@methods_exact bytes canned _ canned_laws _ 1 (Call.ReadCoils 0 3) [0x01; 0x01; 0x05]) as (r & w' & Heq & _).
  - split; [repeat constructor; unfold byte_ok; lia|vm_compute; discriminate].
  - cbn. lia.
  - split; [rewrite Heq; vm_compute in Heq; symmetry; exact Heq|vm_compute; reflexivity].
Defined.

(** A legal write of 247 bytes of file records, which the codec encodes, is refused:
    the client checks it against the length limit of file reads. *)
Theorem write_file_record_limit (W : Type) `{Connection W} (w : W) :
  let data := [0x06; 0x00; 0x01; 0x00; 0x00; 0x00; 120] ++ replicate 240 0 in
  request_ok (Call.request (Call.WriteFileRecord data)) ∧
  write_file_record 1 data w = (Err (ClientError.Encode (EncodeError.ByteCountOutOfRange 247 7 245)), w).
Proof.
  intros data. split; [|done].
  assert (bytes_ok data) as Hd by (apply bytes_ok_app; split; [repeat constructor; unfold byte_ok; lia|by apply Forall_replicate]).
  apply (decode_request_sound (request_wire (Call.request (Call.WriteFileRecord data)))).
  - apply bytes_ok_cons. split; [lia|]. apply bytes_ok_cons. split; [vm_compute; split; congruence|done].
  - vm_compute. reflexivity.
Qed.
