(* ===== verification/Loopback.v ===== *)
(** * The client and the server together (crates/rusty-modbus-client, crates/rusty-modbus-frame, crates/rusty-modbus-server)

    The client of [Client] and [Methods] connected to a peer that serves an in-memory
    store. A frame goes through the MBAP encoder, as bytes, into the MBAP decoder of
    the other side, and the reply of the peer goes back the same way to the client's
    reader task. The peer is a class: one instance is the server of [Handler], which
    handles a frame as in the loop of [handle_connection]. *)
From stdpp Require Import gmap.
From S2P Require Import Prelude Types CodecError FileRecords Requests Responses MeiResponses Pdu Stream Mbap Owned Session Deadlines Transaction.
From S2P Require Import Bits Store Memory DeviceId Handler Server Service ServerTasks Client Methods Calls.

Module Loop.
Record t (S : Type) : Type := mk { ring : TransactionManager.t; clock : Z; server : S }.
Arguments mk {S}. Arguments ring {S}. Arguments clock {S}. Arguments server {S}.
End Loop.

(** A frame sent from one side, as it arrives at the other; the line carries bytes. *)
Definition is_byte (b : Z) : bool := (0 <=? b) && (b <? 256).
Definition carry (f : Frame.t) : res TransportError.t Frame.t :=
  match MbapEncoder.encode f [] with
  | (Ok _, bs) =>
      if forallb is_byte bs then
        match MbapCodec.decode bs with
        | (Ok (Some g), _) => Ok g
        | (Err e, _) => Err (TransportError.Frame e)
        | _ => Err TransportError.Disconnected
        end
      else Err TransportError.Disconnected
  | (Err e, _) => Err (TransportError.Frame e)
  | _ => Err TransportError.Disconnected
  end.

(** The other end of the connection: the frame that comes back, if any *)
Class Peer (S : Type) : Type := {
  respond : Frame.t → S → option Frame.t * S;
  device : S → InMemoryStore.t;
}.

Section Loopback.
Context {S : Type} `{Peer S} (last : Z).
Abbreviation loop := (Loop.t S).

Definition loop_send (f : Frame.t) (w : loop) : Poll (res TransportError.t unit) * loop :=
  match carry f with
  | Ok g =>
      let '(reply, s) := respond g (Loop.server w) in
      let ring := match reply with
        | Some g => Reader.ring (Reader.received (Loop.clock w) (Ok g) (Reader.mk (Loop.ring w) true)).2
        | None => Loop.ring w
        end in
      (PollOutcome.Ready (Ok tt), Loop.mk ring (Loop.clock w) s)
  | Err e => (PollOutcome.Ready (Err e), w)
  | _ => (PollOutcome.Ready (Err TransportError.Disconnected), w)
  end.
(** Waiting for a reply: it is there, or the deadline task expires the transaction. *)
Definition loop_receive (rx : Z) (w : loop) : option reply * loop :=
  match try_recv rx (Loop.ring w) with
  | Some r => (Some r, w)
  | None =>
      let '(nearest, m) := TransactionManager.expire_due_and_next_deadline (Loop.clock w) (Loop.ring w) in
      match nearest with
      | Ok (Some t) =>
          let clock := Z.max (Loop.clock w) t in
          let m := (TransactionManager.expire_due_and_next_deadline clock m).2 in
          (try_recv rx m, Loop.mk m clock (Loop.server w))
      | _ => (try_recv rx m, Loop.mk m (Loop.clock w) (Loop.server w))
      end
  end.
#[export] Instance loop_runtime : Runtime loop := {
  txn_mgr := Loop.ring;
  set_txn_mgr m := λ '(Loop.mk _ t s), Loop.mk m t s;
  connected _ := true;
  now w := Z.min (Loop.clock w) last;
  instant_max := last;
  enter w := (Ok tt, w);
  leave w := w;
  is_cancelled _ := false;
  lock_sink _ w := (PollOutcome.Ready tt, w);
  lock_sink_forever w := (PollOutcome.Ready tt, w);
  unlock_sink w := w;
  send_frame _ := loop_send;
  send_frame_forever := loop_send;
  receive := loop_receive;
  sleep_or_cancelled d := λ '(Loop.mk m t s), (false, Loop.mk m (Z.max t d) s);
}.
End Loopback.

(** The server's part of an exchange *)
Definition respond_to (unit_id : Z) (dev : DeviceIdentification.t) (f : Frame.t) (s : InMemoryStore.t) : option Frame.t * InMemoryStore.t :=
  match handle_request unit_id dev f s with
  | (Ok (Next.Reply g), s) => (match carry g with Ok g => Some g | _ => None end, s)
  | (_, s) => (None, s)
  end.
Definition server_peer (unit_id : Z) (dev : DeviceIdentification.t) : Peer InMemoryStore.t := {|
  respond := respond_to unit_id dev;
  device s := s;
|}.

(** ** What a peer promises *)

(** What the service answers, as the client decodes it *)
Definition service_reply (T : Tables.t) (req : RequestPdu.t) : res DecodeError.t ResponsePdu.t :=
  match serve T req with
  | Ok (r, _) => Ok r
  | Err ec => Ok (ResponsePdu.Exception (ExceptionResponse.mk (request_function req) ec))
  | Panic => Panic
  | OutOfFuel => OutOfFuel
  end.
(** The functions that have a request method *)
Definition has_method (req : RequestPdu.t) : bool :=
  match req with
  | RequestPdu.Diagnostics _ | RequestPdu.EncapsulatedInterface _ | RequestPdu.Custom _ _ => false
  | _ => true
  end.
(** A request that can be sent *)
Definition sendable (req : RequestPdu.t) : Prop :=
  request_ok req ∧ has_method req = true ∧ bytes_ok (request_wire req) ∧ 1 ≤ blen (request_wire req) ≤ 253.
(** The frame that carries a PDU to or from a unit *)
Definition unit_frame (txn u : Z) (pdu : bytes) : Frame.t := mbap_frame (MbapHeader.mk txn MODBUS_PROTOCOL_ID (blen pdu + 1) u) pdu.

(** The peer in a state of [inv] answers for the units [addressed], as the service
    prescribes, and applies broadcasts. *)
Class PeerLaws (S : Type) `{Peer S} (inv : S → Prop) (addressed : Z → Prop) : Prop := {
  peer_store s : inv s → store_ok (device s);
  peer_unit u : addressed u → is_u8 u ∧ UnitId.is_broadcast u = false;
  respond_sound f s g s' : respond f s = (Some g, s') → bytes_ok (Frame.pdu g) ∧ blen (Frame.pdu g) ≤ 253;
  respond_serves txn u req s : inv s → addressed u → sendable req → is_u16 txn →
    let T := tables_of (device s) in
    ∃ resp s', respond (unit_frame txn u (request_wire req)) s = (Some (unit_frame txn u resp), s') ∧
      inv s' ∧ tables_of (device s') = tables_after T (serve T req) ∧ reply_ok (request_code req) resp ∧ decode_response resp = service_reply T req;
  respond_broadcast req s : inv s → sendable req → is_write req = true →
    let T := tables_of (device s) in
    ∃ s', respond (unit_frame 0 0 (request_wire req)) s = (None, s') ∧ inv s' ∧ tables_of (device s') = tables_after T (serve T req);
}.

(** * Lemmas *)

(** ** The line *)
Lemma is_bytes bs : forallb is_byte bs = true ↔ bytes_ok bs.
Proof.
  unfold bytes_ok. rewrite forallb_forall, Forall_forall. unfold is_byte, byte_ok. setoid_rewrite list_elem_of_In.
  split; intros Hb b Hin; specialize (Hb b Hin); lia.
Qed.
Lemma carry_ok h pdu : MbapHeader.ok h → bytes_ok pdu → mbap_ok (mbap_frame h pdu) → carry (mbap_frame h pdu) = Ok (mbap_frame h pdu).
Proof.
  intros Hh Hb Hok. unfold carry. rewrite mbap_encode_frame. pose proof Hok as (_ & H1 & H2 & H3). cbn [mbap_frame Frame.header Frame.pdu] in *.
  assert (validate_outgoing_header h (blen pdu) = Ok tt) as -> by (apply validate_outgoing_header_Ok; [done|lia|done]).
  change ([] ++ ?l) with l. assert (forallb is_byte (MbapHeader.as_bytes h ++ pdu) = true) as ->
    by (apply is_bytes, bytes_ok_app; split; [by apply MbapHeader_as_bytes_ok|done]).
  pose proof (stream_frame (mbap_frame h pdu) [] Hok) as Hd. rewrite app_nil_r in Hd. cbn [mbap_image mbap_frame Frame.header Frame.pdu] in Hd. by rewrite Hd.
Qed.
(** What arrives is a well-formed frame. *)
Lemma carry_sound f g : carry f = Ok g → ∃ h, Frame.header g = FrameHeader.Mbap h ∧ MbapHeader.ok h ∧ bytes_ok (Frame.pdu g) ∧ blen (Frame.pdu g) ≤ 253.
Proof.
  unfold carry. destruct (MbapEncoder.encode f []) as [[[]|e| |] bs]; try done. destruct (forallb is_byte bs) eqn:Hb; [|done].
  apply is_bytes in Hb. pose proof (mbap_decode_spec bs Hb) as Hd. destruct (MbapCodec.decode bs) as [[[g'|]|e| |] rest]; try done.
  intros [= <-]. destruct Hd as [Hok ->]. destruct g' as [[h|u] pdu]; [|done]. destruct Hok as (Hh & _ & _ & Hl). exists h. cbn in *.
  apply bytes_ok_app in Hb as [Hb _]. apply bytes_ok_app in Hb as [_ Hb]. split_and!; [done..|lia].
Qed.

(** ** The loop keeps the laws of a runtime *)
Lemma try_recv_sent rx m : match try_recv rx m with Some r => (rx, r) ∈ TransactionManager.sent m | None => True end.
Proof. unfold try_recv. destruct (option_map snd _) as [r|] eqn:Hf; [by apply find_sent|done]. Qed.
Lemma loop_receive_spec {S} rx (w : Loop.t S) : evolves (Loop.ring w) (Loop.ring (loop_receive rx w).2) ∧
  match (loop_receive rx w).1 with Some r => (rx, r) ∈ TransactionManager.sent (Loop.ring (loop_receive rx w).2) | None => True end.
Proof.
  unfold loop_receive. pose proof (try_recv_sent rx (Loop.ring w)) as Hr. destruct (try_recv rx (Loop.ring w)) as [r|]; [by split|].
  pose proof (expire_evolves (Loop.clock w) (Loop.ring w)) as He.
  destruct (TransactionManager.expire_due_and_next_deadline (Loop.clock w) (Loop.ring w)) as [nearest m]. cbn [snd] in He.
  assert (∀ m', evolves m m' → evolves (Loop.ring w) m' ∧
    match try_recv rx m' with Some r => (rx, r) ∈ TransactionManager.sent m' | None => True end) as Hm
    by (intros m' Hm'; split; [by transitivity m|apply try_recv_sent]).
  destruct nearest as [[t|]|e| |]; cbn [fst snd Loop.ring]; apply Hm; [apply expire_evolves|reflexivity..].
Qed.
#[export] Instance loop_laws {S} (inv : S → Prop) addressed `{PeerLaws S inv addressed} last : @RuntimeLaws (Loop.t S) (loop_runtime last).
Proof.
  assert (∀ f w, evolves (Loop.ring w) (Loop.ring (loop_send f w).2) ∧
    match (loop_send f w).1 with PollOutcome.Ready r => returns r | _ => True end) as Hsend.
  { intros f w. unfold loop_send. destruct (carry f) as [g|e| |]; try done. destruct (respond g (Loop.server w)) as [[h|] s] eqn:Hr; [|done].
    split; [|done]. destruct (respond_sound _ _ _ _ Hr) as [Hb Hl]. apply (received_evolves _ _ (Reader.mk (Loop.ring w) true) Hb Hl). }
  split; try done; cbn.
  - by intros m [].
  - intros w. apply Z.le_min_r.
  - apply loop_receive_spec.
  - by intros d [].
Qed.

(** ** One exchange *)
Section Exchange.
Context {S : Type} (inv : S → Prop) (addressed : Z → Prop) `{PeerLaws S inv addressed} (last : Z).
(** The state between two calls: nothing is in flight *)
Record loop_ok (w : Loop.t S) : Prop := {
  loop_server : inv (Loop.server w);
  loop_ring : ring_inv (Loop.ring w);
  loop_idle p : ¬ pending (Loop.ring w) p;
  loop_clock : Loop.clock w < last;
}.

Lemma idle_slots m : ring_ok m → (∀ p, ¬ pending m p) → ∃ i, TransactionManager.slots m !! i = Some None.
Proof.
  intros Hm Hidle. destruct (lookup_lt_is_Some_2 (TransactionManager.slots m) 0) as [[p|] Hs]; [rewrite (ring_length m Hm); lia| |by exists 0%nat].
  destruct (Hidle p). by eapply list_elem_of_lookup_2.
Qed.
(** A registration in an idle ring *)
Lemma register_idle u f deadline now m : ring_inv m → (∀ p, ¬ pending m p) → ∃ id ch m',
  TransactionManager.register u f deadline now m = (Ok (id, ch), m') ∧ ring_inv m' ∧ 1 ≤ id < 65536 ∧
  TransactionManager.reuse_safety m' = TransactionManager.reuse_safety m ∧ (ch ∉ (TransactionManager.sent m').*1) ∧
  pending m' (PendingTransaction.mk id ch now deadline (ExpectedResponse.mk u f)) ∧
  ∀ q, pending m' q → q = PendingTransaction.mk id ch now deadline (ExpectedResponse.mk u f).
Proof.
  intros Hinv Hidle. pose proof Hinv as [Hm Hall]. destruct (idle_slots m Hm Hidle) as [i Hi]. destruct m as [n s d r c l].
  destruct (register_spec u f deadline now s (ring_length _ Hm) d r c l n (ring_next_id _ Hm))
    as (n' & Hn' & [(id & Hid & Hfree & Heq)|[Hfull _]]); [|by destruct (Hfull i)].
  assert (ring_ok (registered u f deadline now s r c l id n')) as Hok by by eapply ring_occupy.
  assert (pending (registered u f deadline now s r c l id n') (PendingTransaction.mk id c now deadline (ExpectedResponse.mk u f))) as Hp.
  { apply list_elem_of_lookup. eexists. cbn. apply list_lookup_insert_eq. by apply lookup_lt_Some in Hfree. }
  exists id, c, (registered u f deadline now s r c l id n'). split_and!; try (done || lia).
  - by destruct (ring_slots _ Hok _ _ (pending_slot _ _ Hok Hp)) as (_ & _ & _ & ?).
  - intros q Hq. apply list_elem_of_lookup in Hq as [j [[_ [= ->]]|[_ Hj]]%insert_lookup_cases]; [done|].
    destruct (Hidle q). by eapply list_elem_of_lookup_2.
Qed.
Lemma find_fresh ch v l : ch ∉ l.*1 → option_map snd (List.find (λ s : Z * reply, s.1 =? ch) (l ++ [(ch, v)])) = Some v.
Proof.
  induction l as [|[c r] l IH]; cbn; intros Hn; [by rewrite Z.eqb_refl|].
  rewrite not_elem_of_cons in Hn. destruct Hn as [Hne Hn]. cbn in Hne. replace (c =? ch) with false by lia. by apply IH.
Qed.

(** A reply of the service decodes to what it says, and has the code asked for. *)
Lemma reply_decodes code resp r : 1 ≤ code < 128 → reply_ok code resp → decode_response resp = Ok r →
  ∃ o, OwnedResponsePdu.from_pdu resp = Ok o ∧ borrowed o = r ∧
    (OwnedResponsePdu.function_code o = code ∨ OwnedResponsePdu.function_code o = Z.lor code 0x80).
Proof.
  intros Hcode (Hb & Hl & Hget) Hd. change MAX_PDU_SIZE with 253 in Hl. destruct resp as [|c data]; [change (blen []) with 0 in Hl; lia|].
  assert (c = code ∨ c = Z.lor code 0x80) as Hc by (destruct Hget as [Hget|[ec [= -> _]]]; [left; by injection Hget|by right]).
  assert (c ≠ 0) as Hne by (destruct Hc as [->| ->]; [lia|rewrite exception_flag_set by lia; case_match; lia]).
  assert (decode_pdu_ref (c :: data) = Ok (PduRef.mk c data)) as Hp by (by apply decode_pdu_ref_Ok; split; [|lia]).
  pose proof (owned_dispatch c data Hne Hp) as Ho. rewrite Hd in Ho. destruct (OwnedResponsePdu.from_pdu (c :: data)) as [o|e| |] eqn:Hfrom; try done.
  injection Ho as Ho. apply bytes_ok_cons in Hb as [Hcb _]. exists o. by rewrite (owned_function_code c data o Hcb Hfrom).
Qed.
Lemma reply_delivered m p clock resp r :
  ring_inv m → pending m p → (∀ q, pending m q → q = p) → PendingTransaction.sender p ∉ (TransactionManager.sent m).*1 →
  clock < PendingTransaction.deadline p →
  let code := FunctionCode.code (ExpectedResponse.function_code (PendingTransaction.expected p)) in
  1 ≤ code < 128 → reply_ok code resp → decode_response resp = Ok r →
  let f := unit_frame (PendingTransaction.txn_id p) (ExpectedResponse.unit_id (PendingTransaction.expected p)) resp in
  let m' := Reader.ring (Reader.received clock (Ok f) (Reader.mk m true)).2 in
  ∃ o, ring_inv m' ∧ (∀ q, ¬ pending m' q) ∧ TransactionManager.reuse_safety m' = TransactionManager.reuse_safety m ∧
    try_recv (PendingTransaction.sender p) m' = Some (Ok o) ∧ reply_sound (Ok o) ∧ borrowed o = r.
Proof.
  intros [Hm Hall] Hp Huniq Hfresh Hclock code Hcode Hrok Hd f m'. pose proof Hrok as (Hb & Hl & _). change MAX_PDU_SIZE with 253 in Hl.
  destruct (reply_decodes code resp r Hcode Hrok Hd) as (o & Hfrom & Hr & Hfc). exists o.
  assert (reply_sound (Ok o)) as Hso by (exists resp; split_and!; [done|lia|done]).
  unfold m'. cbn [Reader.received f unit_frame mbap_frame Frame.header Frame.pdu MbapHeader.transaction_id MbapHeader.unit_id]. unfold st_bind, Reader.on_ring.
  destruct (complete_response_spec m (PendingTransaction.txn_id p) (ExpectedResponse.unit_id (PendingTransaction.expected p)) resp clock Hm Hb)
    as (out & m2 & -> & [(q & Hq & _ & Hm2 & Hsafe & v & Hj & Hsent & Hpend)|[Hno _]]); [|by destruct (Hno p Hp)].
  cbn [st_ret snd Reader.ring]. rewrite (Huniq q Hq) in *. clear q Hq.
  assert (out = CompletionOutcome.Delivered ∧ v = Ok o) as [-> ->].
  { destruct Hj as [|?|? ? _ Hf|? ? _ Hf Hn1 Hn2|? ? _ Hf]; try lia; try congruence; rewrite Hfrom in Hf; try done; injection Hf as <-; [by destruct Hfc|done]. }
  split_and!; try done.
  - split; [done|]. rewrite Hsent. apply Forall_app_2; [done|]. by constructor.
  - intros q [Hq Hne]%Hpend. by rewrite (Huniq q Hq) in Hne.
  - unfold try_recv. rewrite Hsent. by apply find_fresh.
Qed.

(** One attempt, for a request that the peer answers with one of the replies [Q] *)
Lemma loop_exchange u fc pdu deadline (Q : ResponsePdu.t → S → Prop) w : loop_ok w → is_u8 u → bytes_ok pdu → 1 ≤ blen pdu ≤ 253 →
  1 ≤ FunctionCode.code fc < 128 → Loop.clock w < deadline →
  (∀ txn, is_u16 txn → ∃ resp s' r, respond (unit_frame txn u pdu) (Loop.server w) = (Some (unit_frame txn u resp), s') ∧
     inv s' ∧ reply_ok (FunctionCode.code fc) resp ∧ decode_response resp = Ok r ∧ Q r s') →
  ∃ o w', send_request (H := loop_runtime last) u fc pdu (blen pdu) deadline w = (Ok o, w') ∧
    Q (borrowed o) (Loop.server w') ∧ reply_sound (Ok o) ∧ loop_ok w' ∧
    Loop.clock w' = Loop.clock w ∧ TransactionManager.reuse_safety (Loop.ring w') = TransactionManager.reuse_safety (Loop.ring w).
Proof.
  destruct w as [m t s]. intros [Hs Hm Hidle Hclock] Hu8 Hb Hl Hcr Hdl Hpeer. cbn [Loop.server Loop.ring Loop.clock] in *.
  destruct (register_idle u fc deadline (Z.min t last) m Hm Hidle) as (id & ch & m1 & Hreg & Hm1 & Hid & Hsafe1 & Hfresh & Hp & Huniq).
  destruct (wire_header id u pdu ltac:(lia) Hu8 Hl) as [Hh Hmb]. pose proof (carry_ok _ _ Hh Hb Hmb) as Hc.
  destruct (Hpeer id ltac:(lia)) as (resp & s' & r & Hresp & Hs' & Hrok & Hd & HQ).
  destruct (reply_delivered m1 _ t resp r Hm1 Hp Huniq Hfresh Hdl Hcr Hrok Hd) as (o & Hm2 & Hidle2 & Hsafe2 & Hrecv & Hso & Hbr).
  cbn [PendingTransaction.txn_id PendingTransaction.sender PendingTransaction.expected ExpectedResponse.unit_id] in Hm2, Hidle2, Hsafe2, Hrecv.
  set (m2 := Reader.ring _) in Hm2, Hidle2, Hsafe2, Hrecv. destruct (drop_evolves id m2 Hm2) as (m3 & Hdrop & Hm3 & Hsafe3 & Hp3).
  exists o, (Loop.mk m3 t s'). split; [|split_and!; try done; cbn; [by rewrite Hbr|split; try done|congruence]].
  - unfold send_request. unfold st_bind at 1, st_get at 1. cbn [connected loop_runtime negb]. unfold st_bind at 1, await at 1. cbn [lock_sink loop_runtime].
    unfold st_bind at 1, st_get at 1. cbn [now txn_mgr loop_runtime Loop.ring Loop.clock]. rewrite Hreg. unfold st_bind at 1, st_modify at 1. cbn [set_txn_mgr loop_runtime].
    unfold MbapHeader.new, MbapHeader.try_new. change MAX_PDU_SIZE with 253. change u16_max with 65535. replace (253 <? _) with false by lia. replace (65535 <? _) with false by lia.
    unfold st_bind at 1, infallible at 1, st_lift at 1. unfold st_bind at 1, await at 1. cbn [send_frame loop_runtime]. unfold loop_send. unfold mbap_frame in Hc at 1. rewrite Hc.
    cbn [Loop.server Loop.ring Loop.clock]. fold (unit_frame id u pdu). rewrite Hresp. unfold st_bind at 1, st_modify at 1. unfold st_bind at 1, await at 1. cbn [receive unlock_sink loop_runtime].
    unfold loop_receive. cbn [Loop.ring]. fold m2. rewrite Hrecv. unfold dispatched, DispatchGuard.disarm. unfold st_bind at 1, st_ret at 1.
    unfold st_bind at 1, on_ring at 1. cbn [txn_mgr set_txn_mgr loop_runtime Loop.ring]. by rewrite Hdrop.
  - intros p [Hq _]%Hp3. by apply (Hidle2 p).
Qed.

(** The replies of the service to a request *)
Definition served_by (T : Tables.t) (req : RequestPdu.t) (r : ResponsePdu.t) (s : S) : Prop :=
  service_reply T req = Ok r ∧ tables_of (device s) = tables_after T (serve T req).
Lemma respond_served u req s txn : inv s → addressed u → sendable req → is_u16 txn →
  ∃ resp s' r, respond (unit_frame txn u (request_wire req)) s = (Some (unit_frame txn u resp), s') ∧
    inv s' ∧ reply_ok (FunctionCode.code (request_function req)) resp ∧ decode_response resp = Ok r ∧ served_by (tables_of (device s)) req r s'.
Proof.
  intros Hs Hu Hreq Ht. destruct (respond_serves txn u req s Hs Hu Hreq Ht) as (resp & s' & Hresp & Hs' & HT & Hrok & Hd).
  assert (FunctionCode.code (request_function req) = request_code req) as Hcode by apply FunctionCode_code_from_byte.
  assert (∃ r, service_reply (tables_of (device s)) req = Ok r) as [r Hr].
  { pose proof Hrok as (Hrb & _). pose proof (proj2 (dispatchers_return resp Hrb)) as Hret. rewrite Hd in Hret. unfold service_reply in *.
    destruct (serve _ req) as [[x ?]|ec| |]; by eauto. }
  exists resp, s', r. rewrite Hcode, <-Hr. by split_and!.
Qed.
End Exchange.

(** ** The server as a peer *)
Section Direct.
Context (unit_id : Z) (dev : DeviceIdentification.t) (Hdev : device_ok dev).
(** The units that answer *)
Definition answering (u : Z) : Prop :=
  is_u8 u ∧ UnitId.is_broadcast u = false ∧ (u = unit_id ∨ UnitId.is_tcp_device u = true).

Lemma request_code_wire req : request_ok req → get (request_wire req) 0 = Some (request_code req).
Proof. destruct req; done. Qed.
(** The handler, on a request that is not broadcast and on one that is *)
Lemma process_sendable u req s : store_ok s → is_u8 u → UnitId.is_broadcast u = false → sendable req →
  let T := tables_of s in
  ∃ resp s', process_request (request_wire req) u dev s = (Ok (Some resp), s') ∧ store_ok s' ∧ tables_of s' = tables_after T (serve T req) ∧
    reply_ok (request_code req) resp ∧ decode_response resp = service_reply T req.
Proof.
  intros Hs Hu Hbc (Hok & Hid & Hb & Hl) T.
  pose proof (process_ok store_ok (request_wire req) u dev s Hs Hb Hu Hdev) as Hsafe. rewrite request_code_wire in Hsafe by done.
  destruct (process_serves s (request_wire req) u dev Hs Hb Hu Hdev) as (reply & s' & Hp & Hs' & Hr).
  rewrite decode_request_complete in Hr by (done || lia). rewrite Hbc in Hr, Hsafe. destruct Hr as (HT & resp & -> & Hspec).
  rewrite Hp in Hsafe. destruct Hsafe as (_ & _ & Hrok). exists resp, s'. split_and!; try done. unfold service_reply.
  destruct req; try done; unfold reply_spec in Hspec; fold T in Hspec; destruct (serve T _) as [[? ?]|ec| |]; by destruct Hspec.
Qed.
Lemma process_broadcast req s : store_ok s → sendable req → is_write req = true →
  ∃ s', process_request (request_wire req) 0 dev s = (Ok None, s') ∧ store_ok s' ∧ tables_of s' = tables_after (tables_of s) (serve (tables_of s) req).
Proof.
  intros Hs (Hok & _ & Hb & Hl) Hw. destruct (process_serves s (request_wire req) 0 dev Hs Hb ltac:(lia) Hdev) as (reply & s' & Hp & Hs' & Hr).
  rewrite decode_request_complete in Hr by (done || lia). change (UnitId.is_broadcast 0) with true in Hr. rewrite Hw in Hr. destruct Hr as [HT ->]. eauto.
Qed.
(** What the handler replies is what the peer sends. *)
Lemma respond_processed txn u code pdu resp s s' : answering u → is_u16 txn → reply_ok code resp →
  process_request pdu u dev s = (Ok (Some resp), s') → respond_to unit_id dev (unit_frame txn u pdu) s = (Some (unit_frame txn u resp), s').
Proof.
  intros (Hu & Hbc & Hun) Ht (Hrb & Hrl & _) Hp. change MAX_PDU_SIZE with 253 in Hrl. unfold respond_to, handle_request.
  cbn [Frame.unit_id unit_frame mbap_frame Frame.header Frame.pdu MbapHeader.unit_id MbapHeader.transaction_id].
  replace (negb (u =? unit_id) && negb _ && negb _) with false by (destruct Hun as [->| ->]; rewrite ?Z.eqb_refl, ?andb_false_r; done).
  unfold st_bind at 1. rewrite Hp, st_bind_lift, response_frame_spec by done.
  destruct (wire_header txn u resp Ht Hu Hrl) as [Hh Hm]. unfold st_ret. pose proof (carry_ok _ _ Hh Hrb Hm) as Hc. unfold mbap_frame in Hc at 1. by rewrite Hc.
Qed.
Lemma server_peer_laws : @PeerLaws InMemoryStore.t (server_peer unit_id dev) store_ok answering.
Proof.
  split; cbn [respond device server_peer].
  - done.
  - by intros u (? & ? & _).
  - intros f s g s'. unfold respond_to. destruct (handle_request unit_id dev f s) as [[[|x|]|e| |] s1]; try done. destruct (carry x) as [y|e| |] eqn:Hc; try done.
    intros [= -> ->]. by destruct (carry_sound x g Hc) as (h & _ & _ & ? & ?).
  - intros txn u req s Hs Hu Hreq Ht. pose proof Hu as (Hu8 & Hbc & _).
    destruct (process_sendable u req s Hs Hu8 Hbc Hreq) as (resp & s' & Hp & Hs' & HT & Hrok & Hd).
    exists resp, s'. split; [by apply (respond_processed _ _ (request_code req))|done].
  - intros req s Hs Hreq Hw. unfold respond_to, handle_request. cbn [Frame.unit_id unit_frame mbap_frame Frame.header Frame.pdu MbapHeader.unit_id MbapHeader.transaction_id].
    replace (negb (0 =? unit_id) && negb _ && negb _) with false by by rewrite andb_false_r.
    destruct (process_broadcast req s Hs Hreq Hw) as (s' & Hp & Hs' & HT). exists s'. unfold st_bind at 1. by rewrite Hp.
Qed.
End Direct.

(** * Examples *)

(** A client that has just connected to a server with a small store *)
Definition idle_loop : Loop.t InMemoryStore.t := Loop.mk TransactionManager.new 0 small_store.
Lemma idle_ring : ring_inv (Loop.ring idle_loop).
Proof. split; [apply ring_new|constructor]. Qed.
Lemma idle_loop_ok last : 0 < last → loop_ok store_ok last idle_loop.
Proof.
  intros Hl. split; [apply small_store_ok|apply idle_ring| |done]. intros p Hp. apply list_elem_of_lookup in Hp as [i Hi].
  apply lookup_replicate in Hi as [? _]. done.
Qed.
Lemma attempt_exact_witness : ∃ w',
  send_request (H := @loop_runtime _ (server_peer 1 small_device) 1000) 1 FunctionCode.ReadHoldingRegisters [0x03; 0; 0; 0; 2] 5 100 idle_loop =
    (Ok (OwnedResponsePdu.ReadHoldingRegisters (OwnedReadHoldingRegistersResponse.mk 4 [0; 0; 0; 0])), w') ∧ ring_inv (Loop.ring w').
Proof.
  destruct (@attempt_exact _ (@loop_runtime _ (server_peer 1 small_device) 1000)
    (@loop_laws _ store_ok (answering 1) _ (server_peer_laws 1 small_device small_device_ok) 1000)
    1 FunctionCode.ReadHoldingRegisters [0x03; 0; 0; 0; 2] 5 100 idle_loop idle_ring ltac:(lia)) as (r & w' & Heq & _ & Hw' & _).
  exists w'. split; [|exact Hw']. rewrite Heq. f_equal. apply (f_equal fst) in Heq. vm_compute in Heq. symmetry. exact Heq.
Defined.
(** The device answers with an exception; that is not tried again. *)
Lemma retry_exact_witness : ∃ w',
  send_with_retry (H := @loop_runtime _ (server_peer 1 small_device) 1000) ClientConfig.default 1 FunctionCode.ReadHoldingRegisters [0x03; 1; 0; 0; 2]
    RequestKind.ReplaySafe idle_loop =
    (Ok (OwnedResponsePdu.Exception (ExceptionResponse.mk FunctionCode.ReadHoldingRegisters ExceptionCode.IllegalDataAddress)), w') ∧ ring_inv (Loop.ring w').
Proof.
  destruct (@retry_exact _ (@loop_runtime _ (server_peer 1 small_device) 1000)
    (@loop_laws _ store_ok (answering 1) _ (server_peer_laws 1 small_device small_device_ok) 1000) ClientConfig.default
    1 FunctionCode.ReadHoldingRegisters [0x03; 1; 0; 0; 2] RequestKind.ReplaySafe idle_loop) as (r & w' & Heq & _ & _ & Hw' & _).
  - repeat split; vm_compute; discriminate.
  - exact idle_ring.
  - exists w'. split; [|exact Hw']. rewrite Heq. f_equal. apply (f_equal fst) in Heq. vm_compute in Heq. symmetry. exact Heq.
Defined.
