(* ===== verification/RemoteCalls.v ===== *)
(** * Calls over the loop (crates/rusty-modbus-client, crates/rusty-modbus-server)

    What the request methods do over the loop of [Loopback], whatever peer that keeps
    the laws is at the other end: each is a plain operation on its tables. *)
From stdpp Require Import gmap.
From S2P Require Import Prelude Types CodecError FileRecords Requests Responses MeiResponses Pdu Stream Mbap Owned Session Deadlines Transaction.
From S2P Require Import Bits Store Memory DeviceId Handler Server Service ServerTasks Client Methods Calls Loopback.

(** * Specification *)

(** A call as an operation on the tables: its result and the tables after it *)
Definition call_spec {A} (T : Tables.t) (c : Call.t A) : res Exc (A * Tables.t) :=
  match c in Call.t A return res Exc (A * Tables.t) with
  | Call.ReadCoils a q => let? v := select (Tables.coils T) a q in Ok (v, T)
  | Call.ReadDiscreteInputs a q => let? v := select (Tables.discrete_inputs T) a q in Ok (v, T)
  | Call.ReadHoldingRegisters a q => let? v := select (Tables.holding_registers T) a q in Ok (v, T)
  | Call.ReadHoldingRegistersRaw a q => let? v := select (Tables.holding_registers T) a q in Ok (words_be v, T)
  | Call.ReadInputRegisters a q => let? v := select (Tables.input_registers T) a q in Ok (v, T)
  | Call.WriteSingleCoil a v => let? c := replace_at (Tables.coils T) a [v] in Ok (tt, Tables.set_coils c T)
  | Call.WriteSingleRegister a v => let? h := replace_at (Tables.holding_registers T) a [v] in Ok (tt, Tables.set_holding h T)
  | Call.WriteMultipleCoils a vs => let? c := replace_at (Tables.coils T) a vs in Ok (tt, Tables.set_coils c T)
  | Call.WriteMultipleRegisters a vs => let? h := replace_at (Tables.holding_registers T) a vs in Ok (tt, Tables.set_holding h T)
  | Call.MaskWriteRegister a am om =>
      let? cur := select (Tables.holding_registers T) a 1 in
      let? h := replace_at (Tables.holding_registers T) a [masked (nth 0 cur 0) am om] in
      Ok (tt, Tables.set_holding h T)
  | Call.ReadWriteMultipleRegisters ra rq wa vs =>
      let? x := exchange (Tables.holding_registers T) wa vs ra rq in Ok (x.2, Tables.set_holding x.1 T)
  | Call.ReadFileRecord data =>
      let? v := read_records (Tables.files T) (read_subs data) [] in Ok (OwnedReadFileRecordResponse.mk (blen v) v, T)
  | Call.WriteFileRecord data =>
      let? files := write_records (Tables.files T) (write_subs (length data) data) in
      Ok (OwnedWriteFileRecordResponse.mk (blen data) data, Tables.set_files files T)
  | Call.ReadFifoQueue a =>
      let? v := ok_or (Tables.fifo_queues T !! a) ExceptionCode.IllegalDataAddress in
      if MAX_FIFO_VALUES <? blen v then Err ExceptionCode.IllegalDataValue else Ok (v, T)
  end.

(** How a call ends, with the tables [T] before it: it is refused by the client; a
    broadcast takes effect, if it can, without an answer; or it is the operation on
    the tables, its error reported as an exception. *)
Inductive remote_end {A} (u : Z) (c : Call.t A) (T : Tables.t) : res ClientError.t A → Tables.t → Prop :=
  | remote_no_broadcast : UnitId.is_broadcast u = true → Call.reads c = true →
      remote_end u c T (Err ClientError.BroadcastReadNotAllowed) T
  | remote_invalid e : ¬ Call.valid c → remote_end u c T (Err (ClientError.Encode e)) T
  | remote_broadcast v : UnitId.is_broadcast u = true → Call.reads c = false → Call.valid c →
      remote_end u c T (Ok v) (match call_spec T c with Ok (_, T') => T' | _ => T end)
  | remote_done v T' : UnitId.is_broadcast u = false → Call.valid c → call_spec T c = Ok (v, T') →
      remote_end u c T (Ok v) T'
  | remote_refused ec : UnitId.is_broadcast u = false → Call.valid c → call_spec T c = Err ec →
      remote_end u c T (Err (ClientError.Exception (ExceptionResponse.mk (Call.function c) ec))) T.

(** * Lemmas *)

Lemma call_function {A} (c : Call.t A) : Call.function c = request_function (Call.request c).
Proof. by destruct c. Qed.
Lemma call_is_write {A} (c : Call.t A) : Call.reads c = false → is_write (Call.request c) = true.
Proof. by destruct c. Qed.

(** ** A valid call can be sent *)
Lemma sized {R} `{EncodeSpec R} (x : R) : wf x → encodable x → bytes_ok (wire x) ∧ blen (wire x) ≤ 253.
Proof. intros Hwf Hen. split; [by apply wire_ok|]. rewrite wire_length by done. by apply wire_bounded. Qed.
Lemma call_sendable {A} (c : Call.t A) : Call.valid c → sendable (Call.request c).
Proof.
  intros [Hok _]. split; [done|]. split; [by destruct c|]. pose proof (request_code_wire (Call.request c) Hok) as Hget.
  assert (bytes_ok (request_wire (Call.request c)) ∧ blen (request_wire (Call.request c)) ≤ 253) as [Hb Hl].
  { destruct c; destruct Hok as [Hwf Hen]; by apply sized. }
  split; [done|]. split; [|done]. destruct (request_wire (Call.request c)) as [|b l]; [done|]. rewrite blen_cons. pose proof (blen_nonneg l). lia.
Qed.

(** ** The service says what the call means *)
Lemma unpacked_inj v v' : blen v = blen v' → pack_bits v = pack_bits v' → v = v'.
Proof. intros Hl Hp. rewrite <-(unpack_pack_bits v), <-(unpack_pack_bits v'). by rewrite Hl, Hp. Qed.
Lemma words_inj v v' : u16s v → u16s v' → words_be v = words_be v' → v = v'.
Proof. intros Hv Hv' Hw. by rewrite <-(be_words_of v Hv), <-(be_words_of v' Hv'), Hw. Qed.
(** A reply gives at most one result. *)
Lemma answer_functional {A} (c : Call.t A) o v v' : Call.answer c o v → Call.answer c o v' → v = v'.
Proof.
  destruct c; cbn; try (by destruct v, v'); intros H1 H2.
  - destruct H1 as [? ->], H2 as [? [= ?]]. apply unpacked_inj; congruence.
  - destruct H1 as [? ->], H2 as [? [= ?]]. apply unpacked_inj; congruence.
  - destruct H1 as (? & ? & ->), H2 as (? & ? & [= ?]). by apply words_inj.
  - destruct H1 as (? & ->), H2 as (? & [= ?]). done.
  - destruct H1 as (? & ? & ->), H2 as (? & ? & [= ?]). by apply words_inj.
  - destruct H1 as (? & ? & ->), H2 as (? & ? & [= ?]). by apply words_inj.
  - destruct H1 as (-> & _), H2 as ([= ?] & _). done.
  - subst o. by injection H2.
  - destruct H1 as (? & ->), H2 as (? & [= ?]). by apply words_inj.
Qed.
(** The service never says that it is busy. *)
Definition unhurried {A} (r : res Exc A) : Prop :=
  match r with Ok _ => True | Err ec => ec ≠ ExceptionCode.ServerDeviceBusy | Panic | OutOfFuel => False end.
Lemma unhurried_select {A} (table : list A) a q : unhurried (select table a q).
Proof. unfold select. by case_match. Qed.
Lemma unhurried_replace {A} (table : list A) a v : unhurried (replace_at table a v).
Proof. unfold replace_at. by case_match. Qed.
Lemma unhurried_bind {A B} (r : res Exc A) (f : A → res Exc B) : unhurried r → (∀ a, r = Ok a → unhurried (f a)) → unhurried (rbind r f).
Proof. destruct r; try done. intros _ Hf. by apply Hf. Qed.
Lemma unhurried_range f r n : unhurried (FileRecord.validate_range f r n).
Proof. unfold FileRecord.validate_range. apply unhurried_bind; [by destruct (checked_add r n)|]. intros e _. by case_match. Qed.
Lemma unhurried_reads files xs : ∀ acc, unhurried (read_records files xs acc).
Proof.
  induction xs as [|[? f r n] xs IH]; intros acc; cbn [read_records]; [done|]. apply unhurried_bind.
  - unfold select_records. apply unhurried_bind; [apply unhurried_range|]. intros _ _. repeat case_match; try done. apply unhurried_select.
  - intros v _. case_match; [done|apply IH].
Qed.
Lemma unhurried_writes xs : ∀ files, unhurried (write_records files xs).
Proof.
  induction xs as [|[[? f r n] v] xs IH]; intros files; cbn [write_records]; [done|]. apply unhurried_bind; [|intros; apply IH].
  unfold replace_records. apply unhurried_bind; [apply unhurried_range|done].
Qed.
Lemma call_unhurried {A} T (c : Call.t A) : unhurried (call_spec T c).
Proof.
  destruct c; cbn [call_spec]; (apply unhurried_bind; [auto using unhurried_select, unhurried_replace, unhurried_reads, unhurried_writes|try done]).
  - intros v _. by apply unhurried_bind; [apply unhurried_replace|].
  - unfold exchange. apply unhurried_bind; [apply unhurried_replace|]. intros h _. by apply unhurried_bind; [apply unhurried_select|].
  - by destruct (_ !! _).
  - intros v _. by case_match.
Qed.

Ltac unborrow :=
  let o := fresh "o" in let Ho := fresh "Ho" in intros o Ho; destruct o; try discriminate Ho;
  try match type of Ho with borrowed (_ ?x) = _ => destruct x end; try discriminate Ho; cbn [borrowed] in Ho; injection Ho; intros; subst.

(** As many groups come back as there are sub-requests. *)
Lemma read_records_groups files xs : Forall (λ x, FileSubRequest_wf x ∧ FileSubRequest_valid x) xs → ∀ acc data,
  read_records files xs acc = Ok data → ∃ gs, data = acc ++ concat gs ∧ Forall read_response_group gs ∧ blen gs = blen xs.
Proof.
  induction 1 as [|x xs [Hwf Hv] _ IH]; intros acc data; cbn [read_records].
  { intros [= ->]. exists []. by rewrite app_nil_r. }
  destruct x as [ty f r n], Hwf as (Hf & Hr & Hn), Hv as (_ & _ & _ & Hn1 & _). cbn in Hf, Hr, Hn, Hn1.
  rewrite rbind_Ok. intros (v & Hsel & Hrec). case_match; [done|].
  assert (blen v = n ∧ n ≤ 122) as [Hlv Hle].
  { unfold select_records, select in Hsel. apply rbind_Ok in Hsel as (_ & _ & Hsel). change MAX_FILE_RECORD_REGISTERS with 122 in Hsel.
    destruct (Z.ltb_spec 122 n); [done|]. destruct (files !! f); [|done]. case_match; [done|]. injection Hsel as <-. split; [apply blen_sublist|]; lia. }
  destruct (IH _ _ Hrec) as (gs & -> & Hgs & Hl). exists (((1 + 2 * n) :: 6 :: words_be v) :: gs). rewrite !blen_cons, Hl. split_and!; [|constructor|done]; [|
    |done].
  - cbn [concat]. by rewrite <-app_assoc.
  - exists (words_be v). rewrite words_be_length, Hlv. split_and!; [by rewrite Z.mul_comm|lia..|]. by rewrite Z.mod_mul.
Qed.

Section Meaning.
Context (s : InMemoryStore.t) (Hs : store_ok s).
Let T := tables_of s.
Lemma select_words table a q v : u16s table → 0 ≤ a → 0 ≤ q → select table a q = Ok v → blen v = q ∧ u16s v.
Proof.
  intros Hu Ha Hq. unfold select. destruct (Z.ltb_spec (blen table) (a + q)); [done|]. intros [= <-].
  split; [apply blen_sublist; lia|]. by apply Forall_take, Forall_drop.
Qed.
Lemma table_words : u16s (Tables.holding_registers T) ∧ u16s (Tables.input_registers T).
Proof. unfold T. by destruct s, Hs as (_ & _ & ? & _). Qed.
Lemma select_blen {A} (table : list A) a q v : 0 ≤ a → 0 ≤ q → select table a q = Ok v → blen v = q.
Proof. intros Ha Hq. unfold select. destruct (Z.ltb_spec (blen table) (a + q)); [done|]. intros [= <-]. apply blen_sublist; lia. Qed.

(** The reply of the service, and the result it stands for *)
Definition means {A} (c : Call.t A) (spec : res Exc (A * Tables.t)) (served : res Exc (ResponsePdu.t * Tables.t)) : Prop :=
  match spec with
  | Ok (v, T') => ∃ r, served = Ok (r, T') ∧ ∀ o, borrowed o = r → Call.answer c o v
  | Err ec => served = Err ec
  | Panic | OutOfFuel => False
  end.
Lemma means_bind {A B} (c : Call.t A) (r : res Exc B) (f : B → res Exc (A * Tables.t)) (g : B → res Exc (ResponsePdu.t * Tables.t)) :
  unhurried r → (∀ b, r = Ok b → means c (f b) (g b)) → means c (rbind r f) (rbind r g).
Proof. destruct r; try done. intros _ Hf. by apply Hf. Qed.
Lemma call_serve {A} (c : Call.t A) : Call.args_ok c → Call.valid c → means c (call_spec T c) (serve T (Call.request c)).
Proof.
  destruct table_words as [Hh Hi]. intros Ha [Hok Hmax].
  destruct c; cbn [Call.args_ok Call.request request_ok call_spec serve] in *.
  - apply means_bind; [apply unhurried_select|]. intros v Hv. eexists. split; [done|]. unborrow. split; [|done]. eapply select_blen; [..|exact Hv]; lia.
  - apply means_bind; [apply unhurried_select|]. intros v Hv. eexists. split; [done|]. unborrow. split; [|done]. eapply select_blen; [..|exact Hv]; lia.
  - apply means_bind; [apply unhurried_select|]. intros v Hv. eexists. split; [done|]. unborrow. destruct (select_words _ address quantity v Hh); done || lia.
  - apply means_bind; [apply unhurried_select|]. intros v Hv. eexists. split; [done|]. unborrow. destruct (select_words _ address quantity v Hh) as [<- _]; [lia..|done|].
    split; [apply words_be_length|done].
  - apply means_bind; [apply unhurried_select|]. intros v Hv. eexists. split; [done|]. unborrow. destruct (select_words _ address quantity v Hi); done || lia.
  - replace (CoilValue.as_bool (CoilValue.from_bool value)) with value by by destruct value.
    apply means_bind; [apply unhurried_replace|]. intros v _. eexists. split; [done|]. by unborrow.
  - apply means_bind; [apply unhurried_replace|]. intros v _. eexists. split; [done|]. by unborrow.
  - rewrite unpack_pack_bits. apply means_bind; [apply unhurried_replace|]. intros v _. eexists. split; [done|]. by unborrow.
  - rewrite be_words_of by apply Ha. apply means_bind; [apply unhurried_replace|]. intros v _. eexists. split; [done|]. by unborrow.
  - apply means_bind; [apply unhurried_select|]. intros cur _. apply means_bind; [apply unhurried_replace|]. intros v _. eexists. split; [done|]. by unborrow.
  - destruct Ha as (Hra & Hrq & Hwa & Hvs). rewrite be_words_of by done. unfold exchange. apply means_bind.
    + apply unhurried_bind; [apply unhurried_replace|]. intros h _. by apply unhurried_bind; [apply unhurried_select|].
    + intros x (h & Hrep & (v & Hsel & [= <-])%rbind_Ok)%rbind_Ok. eexists. split; [done|]. unborrow.
      assert (u16s h) as Hhu.
      { unfold replace_at in Hrep. case_match; [done|]. injection Hrep as <-. unfold splice. repeat apply Forall_app_2; [by apply Forall_take|done|by apply Forall_drop]. }
      destruct (select_words h read_address read_quantity v Hhu); done || lia.
  - destruct Hok as [[_ Hb] (Hbc & Hlen & Hg)]. cbn [ReadFileRecordRequest.byte_count ReadFileRecordRequest.sub_requests] in *.
    destruct (read_groups_split sub_request_data Hg) as (xs & Hsubs & Hxs). rewrite Hsubs, read_subs_of by done.
    apply means_bind; [apply unhurried_reads|]. intros v Hv. eexists. split; [done|]. unborrow. split; [done|]. cbn.
    destruct (read_records_groups _ _ Hxs _ _ Hv) as (gs & -> & Hgs & Hl). exists gs. split_and!; [done..|].
    rewrite (blen_concat 7) by (apply Forall_map, Forall_true; done). unfold blen at 2. rewrite length_map. fold (blen xs). by rewrite Z.mul_comm, Z.div_mul.
  - apply means_bind; [apply unhurried_writes|]. intros v _. eexists. split; [done|]. by unborrow.
  - apply means_bind; [by destruct (_ !! _)|]. intros v Hv. unfold fifo_image. destruct (MAX_FIFO_VALUES <? blen v); [done|]. cbn [rbind]. eexists. split; [done|].
    unborrow. split; [|done]. apply ok_or_Ok in Hv. unfold T in Hv. destruct s, Hs as (_ & _ & _ & [_ Hq] & _). by apply (Hq pointer_address).
Qed.
End Meaning.

(** ** A request with retries, over the loop *)
Section Requests.
Context {S : Type} (inv : S → Prop) (addressed : Z → Prop) `{PeerLaws S inv addressed} (last : Z).
Context (config : ClientConfig.t) (Hconfig : config_ok config) (Htime : 1 ≤ ClientConfig.timeout config).
Local Instance runtime : Runtime (Loop.t S) := loop_runtime last.

(** An answer that is not a busy exception is not repeated. *)
Definition settles (served : res Exc (ResponsePdu.t * Tables.t)) : Prop :=
  match served with Ok (r, _) => ∀ exc, r ≠ ResponsePdu.Exception exc | _ => unhurried served end.
Lemma classify_settled kind T req o : settles (serve T req) → rmap borrowed (Ok o) = service_reply T req →
  classify_attempt config kind (Ok o) = AttemptDisposition.Complete (Ok o).
Proof.
  intros Hu Hr. pose proof (classify_attempt_spec config kind (Ok o)) as Hc. destruct (classify_attempt config kind (Ok o)) as [r|e]; [by destruct Hc as [-> _]|].
  inversion Hc as [exc Hbusy _ Ho Hexc| |]; subst. unfold service_reply in Hr. destruct (serve T req) as [[r ?]|ec| |]; try done; injection Hr as Hr.
  - by destruct (Hu exc).
  - by subst exc.
Qed.
Lemma call_settles {A} (c : Call.t A) T served : means c (call_spec T c) served → settles served.
Proof.
  pose proof (call_unhurried T c) as Hu. destruct (call_spec T c) as [[v T']|ec| |]; try done; cbn [means].
  - intros (r & -> & Hr) exc ->. pose proof (Hr (OwnedResponsePdu.Exception exc) eq_refl) as Ha. destruct c; naive_solver.
  - by intros ->.
Qed.
Lemma loop_request_any u fc pdu kind (Q : ResponsePdu.t → S → Prop) w : loop_ok inv last w → is_u8 u → bytes_ok pdu → 1 ≤ blen pdu ≤ 253 →
  1 ≤ FunctionCode.code fc < 128 →
  (∀ txn, is_u16 txn → ∃ resp s' r, respond (unit_frame txn u pdu) (Loop.server w) = (Some (unit_frame txn u resp), s') ∧
     inv s' ∧ reply_ok (FunctionCode.code fc) resp ∧ decode_response resp = Ok r ∧ Q r s') →
  (∀ o s', Q (borrowed o) s' → classify_attempt config kind (Ok o) = AttemptDisposition.Complete (Ok o)) →
  ∃ o w', send_with_retry config u fc pdu kind w = (Ok o, w') ∧ Q (borrowed o) (Loop.server w') ∧ reply_sound (Ok o) ∧ loop_ok inv last w' ∧
    TransactionManager.reuse_safety (Loop.ring w') = TransactionManager.reuse_safety (Loop.ring w).
Proof.
  intros Hw Hu Hb Hl Hcr Hpeer Hclass. pose proof (loop_clock _ _ _ Hw) as Hclock. destruct Hconfig as (Ht & Hd & Hm).
  unfold send_with_retry. unfold st_bind at 1, st_get at 1. cbn [connected runtime loop_runtime negb].
  rewrite st_bind_lift. destruct (checked_pdu_length_spec (blen pdu) (blen_nonneg _)) as [_ [[_ ->]|[? _]]]; [|lia].
  unfold st_bind at 1, await at 1. cbn [enter runtime loop_runtime]. rewrite st_bind_lift. unfold dropping, st_bind at 1, st_get at 1.
  rewrite operation_budget_spec by lia. cbn [now instant_max runtime loop_runtime].
  rewrite saturating_instant_add_spec by (apply Z.le_min_r || (split; [nia|lia])). unfold st_bind at 1, infallible, st_lift at 1.
  set (deadline := Z.min _ last). assert (Loop.clock w < deadline) as Hdl by (unfold deadline, DURATION_MAX in *; nia).
  unfold retry_fuel. cbn [retry_loop]. unfold st_bind at 1, st_get at 1. cbn [is_cancelled now runtime loop_runtime].
  replace (deadline <=? _) with false by lia. cbn [instant_max runtime loop_runtime]. rewrite saturating_instant_add_spec by (apply Z.le_min_r || done).
  unfold st_bind at 1, infallible at 1, st_lift at 1. unfold st_bind at 1, await at 1. set (d := Z.min (Z.min _ last) deadline).
  destruct (loop_exchange inv last u fc pdu d Q w Hw Hu Hb Hl Hcr ltac:(lia) Hpeer) as (o & w' & Hatt & HQ & Hso & Hw' & _ & Hsafe).
  exists o, w'. split; [|done]. fold runtime in Hatt. rewrite Hatt. by rewrite (Hclass o _ HQ).
Qed.
Lemma loop_request u req kind w : loop_ok inv last w → addressed u → sendable req → settles (serve (tables_of (device (Loop.server w))) req) →
  let T := tables_of (device (Loop.server w)) in
  ∃ o w', send_with_retry config u (request_function req) (request_wire req) kind w = (Ok o, w') ∧
    rmap borrowed (Ok o) = service_reply T req ∧ reply_sound (Ok o) ∧ loop_ok inv last w' ∧ tables_of (device (Loop.server w')) = tables_after T (serve T req) ∧
    TransactionManager.reuse_safety (Loop.ring w') = TransactionManager.reuse_safety (Loop.ring w).
Proof.
  intros Hw Hu Hreq Hun T. pose proof Hreq as (Hok & _ & Hb & Hl). destruct (peer_unit u Hu) as [Hu8 _].
  pose proof (request_code_range req Hok) as Hcr. rewrite <-(FunctionCode_code_from_byte (request_code req)) in Hcr.
  destruct (loop_request_any u (request_function req) (request_wire req) kind (served_by T req) w) as (o & w' & Heq & [Hr HT] & Hso & Hw' & Hsafe); try done.
  - intros txn Htxn. by apply (respond_served inv addressed); [apply (loop_server _ _ _ Hw)|..].
  - intros o s' [Hr _]. by apply (classify_settled kind T req).
  - by exists o, w'.
Qed.

(** A broadcast: no reply, and the write takes effect. *)
Lemma loop_broadcast req w : loop_ok inv last w → sendable req → is_write req = true →
  let T := tables_of (device (Loop.server w)) in
  ∃ w', send_broadcast (request_wire req) w = (Ok tt, w') ∧ loop_ok inv last w' ∧ tables_of (device (Loop.server w')) = tables_after T (serve T req) ∧
    TransactionManager.reuse_safety (Loop.ring w') = TransactionManager.reuse_safety (Loop.ring w).
Proof.
  destruct w as [m t s]. intros [Hs Hm Hidle Hclock] Hreq Hw T. pose proof Hreq as (_ & _ & Hb & Hl). cbn [Loop.server Loop.ring Loop.clock] in *.
  destruct (respond_broadcast req s Hs Hreq Hw) as (s' & Hp & Hs' & HT).
  destruct (wire_header 0 0 (request_wire req) ltac:(lia) ltac:(lia) Hl) as [Hh Hmb]. pose proof (carry_ok _ _ Hh Hb Hmb) as Hc.
  exists (Loop.mk m t s'). split; [|done]. unfold send_broadcast. unfold st_bind at 1, st_get at 1. cbn [connected runtime loop_runtime negb].
  rewrite st_bind_lift. destruct (checked_pdu_length_spec (blen (request_wire req)) (blen_nonneg _)) as [_ [[_ ->]|[? _]]]; [|lia].
  unfold st_bind at 1, await at 1. cbn [enter runtime loop_runtime]. rewrite st_bind_lift. unfold dropping at 1, st_bind at 1, st_get at 1. cbn [is_cancelled runtime loop_runtime].
  unfold MbapHeader.new, MbapHeader.try_new. change MAX_PDU_SIZE with 253. change u16_max with 65535. replace (253 <? _) with false by lia. replace (65535 <? _) with false by lia.
  unfold st_bind at 1, infallible at 1, st_lift at 1. unfold st_bind at 1, await at 1. cbn [lock_sink_forever runtime loop_runtime]. unfold dropping at 1, st_bind at 1, await at 1.
  cbn [send_frame_forever runtime loop_runtime]. unfold loop_send. unfold mbap_frame in Hc at 1. rewrite Hc. cbn [Loop.server Loop.ring Loop.clock].
  fold (unit_frame 0 0 (request_wire req)). by rewrite Hp.
Qed.

(** ** A call over the loop *)
Local Instance remote_laws : RuntimeLaws (Loop.t S) := loop_laws inv addressed last.
Local Instance remote : Connection (Loop.t S) := client_connection config.
Lemma remote_connection_laws : ConnectionLaws (Loop.t S) (λ w, ring_inv (Loop.ring w)).
Proof. exact (client_connection_laws config Hconfig). Qed.

Lemma borrowed_exception o exc : borrowed o = ResponsePdu.Exception exc → o = OwnedResponsePdu.Exception exc.
Proof. destruct o; try done; cbn; try (by destruct x). by intros [= ->]. Qed.
Lemma answer_not_exception {A} (c : Call.t A) exc v : ¬ Call.answer c (OwnedResponsePdu.Exception exc) v.
Proof. destruct c; naive_solver. Qed.
(** What the service answers to a call, as the method sees it *)
Lemma served {A} (c : Call.t A) T o : means c (call_spec T c) (serve T (Call.request c)) → rmap borrowed (Ok o) = service_reply T (Call.request c) →
  (∃ v T', call_spec T c = Ok (v, T') ∧ Call.answer c o v ∧ tables_after T (serve T (Call.request c)) = T') ∨
  (∃ ec, call_spec T c = Err ec ∧ o = OwnedResponsePdu.Exception (ExceptionResponse.mk (Call.function c) ec) ∧
     tables_after T (serve T (Call.request c)) = T).
Proof.
  intros Hc Hr. unfold service_reply in Hr. destruct (call_spec T c) as [[v T']|ec| |]; try done; cbn [means] in Hc.
  - destruct Hc as (x & Hx & Hans). rewrite Hx in Hr |- *. injection Hr as Hr. left. exists v, T'. by split_and!; [|apply Hans|].
  - rewrite Hc in Hr |- *. injection Hr as Hr%borrowed_exception. right. rewrite call_function. by exists ec.
Qed.
Lemma remote_call {A} u (c : Call.t A) w : loop_ok inv last w → Call.args_ok c → addressed u ∨ u = 0 →
  let T := tables_of (device (Loop.server w)) in
  ∃ r w', perform u c w = (r, w') ∧ loop_ok inv last w' ∧ TransactionManager.reuse_safety (Loop.ring w') = TransactionManager.reuse_safety (Loop.ring w) ∧
    remote_end u c T r (tables_of (device (Loop.server w'))).
Proof.
  intros Hw Ha Hu T. destruct (@perform_end (Loop.t S) remote (λ w, ring_inv (Loop.ring w)) remote_connection_laws _ u c w (loop_ring _ _ _ Hw) Ha)
    as (r & w' & Hp & _ & _ & He). exists r, w'. split; [done|]. pose proof (call_serve (device (Loop.server w)) (peer_store _ (loop_server _ _ _ Hw)) c Ha) as Hc. fold T in Hc.
  assert (UnitId.is_broadcast u = false → Call.valid c → ∃ o w1, request u (Call.function c) (request_wire (Call.request c)) (Call.kind c) w = (Ok o, w1) ∧
    rmap borrowed (Ok o) = service_reply T (Call.request c) ∧ loop_ok inv last w1 ∧ tables_of (device (Loop.server w1)) = tables_after T (serve T (Call.request c)) ∧
    TransactionManager.reuse_safety (Loop.ring w1) = TransactionManager.reuse_safety (Loop.ring w)) as Hreq.
  { intros Hb Hv. assert (addressed u) as Hadr by (destruct Hu as [| ->]; done).
    destruct (loop_request u (Call.request c) (Call.kind c) w Hw Hadr (call_sendable c Hv) (call_settles c _ _ (Hc Hv))) as (o & w1 & Heq & ? & _ & ? & ? & ?).
    exists o, w1. rewrite call_function. by split_and!. }
  destruct He as [Hb Hr|e Hv|r w' Hb Hr Hv Hbc|e w' Hb Hv Hrq|o v w' Hb Hv Hrq Hans|exc w' Hb Hv Hrq|o e reason w' Hb Hv Hrq Hne Hno Ht];
    try (destruct (Hreq Hb Hv) as (o' & w1 & Heq & Hsr & Hw1 & HT & Hsafe); rewrite Heq in Hrq; injection Hrq as Ho Hw'; subst o' w';
         pose proof (served c T _ (Hc Hv) Hsr) as Hsv; rewrite <-HT in Hsv).
  - split_and!; try done. by constructor.
  - split_and!; try done. by constructor.
  - destruct (loop_broadcast (Call.request c) w Hw (call_sendable c Hv) (call_is_write c Hr)) as (w1 & Heq & Hw1 & HT & Hsafe).
    cbn [broadcast remote client_connection] in Hbc. rewrite Heq in Hbc. injection Hbc as Hok <-. destruct r as [v|e| |]; try done.
    split_and!; try done. rewrite HT. fold T. pose proof (remote_broadcast u c T v Hb Hr Hv) as Hend. specialize (Hc Hv).
    destruct (call_spec T c) as [[v' T']|ec| |]; try done; cbn [means] in Hc; [by destruct Hc as (x & -> & _)|by rewrite Hc].
  - destruct (Hreq Hb Hv) as (o & w1 & Heq & _). congruence.
  - split_and!; try done. destruct Hsv as [(v' & T' & Hspec & Hans' & ->)|(ec & _ & -> & _)]; [|by destruct (answer_not_exception c _ v Hans)].
    rewrite (answer_functional c o v v' Hans Hans'). by constructor.
  - split_and!; try done. destruct Hsv as [(v' & T' & _ & Hans & _)|(ec & Hspec & [= ->] & ->)]; [by destruct (answer_not_exception c _ v' Hans)|by constructor].
  - destruct Hsv as [(v' & _ & _ & Hans & _)|(ec & _ & -> & _)]; [by destruct (Hno v')|by destruct (Hne (ExceptionResponse.mk (Call.function c) ec))].
Qed.
End Requests.

(** * Theorems *)

(** C1. A client connected to the server: whatever method is called, with whatever
    arguments, the call is the plain operation on the server's tables. Arguments
    outside the protocol's limits and reads of the broadcast address are refused,
    with the tables unchanged; a valid call returns what the operation on the tables
    returns and leaves the tables it leaves, or reports its exception and leaves
    them as they are; a broadcast write takes effect without an answer. Nothing is
    left in flight afterwards and the session can be used again. *)
Theorem client_server_exact (unit_id : Z) (dev : DeviceIdentification.t) (last : Z) (config : ClientConfig.t) (A : Type) (u : Z) (c : Call.t A) (w : Loop.t InMemoryStore.t) :
  device_ok dev → config_ok config → 1 ≤ ClientConfig.timeout config → loop_ok store_ok last w → Call.args_ok c → answering unit_id u ∨ u = 0 →
  ∃ r w', @perform _ (@client_connection _ (@loop_runtime _ (server_peer unit_id dev) last) config) A u c w = (r, w') ∧ loop_ok store_ok last w' ∧
    TransactionManager.reuse_safety (Loop.ring w') = TransactionManager.reuse_safety (Loop.ring w) ∧
    remote_end u c (tables_of (Loop.server w)) r (tables_of (Loop.server w')).
Proof.
  intros Hdev Hc Ht Hw Ha Hu. by apply (@remote_call _ store_ok (answering unit_id) _ (server_peer_laws unit_id dev Hdev) last config Hc Ht).
Qed.
Lemma client_server_exact_witness : ∃ w',
  @perform _ (@client_connection _ (@loop_runtime _ (server_peer 1 small_device) 10000000000000) ClientConfig.default) _
    1 (Call.WriteMultipleRegisters 3 [258; 772]) idle_loop = (Ok tt, w') ∧
  Tables.holding_registers (tables_of (Loop.server w')) = [0; 0; 0; 258; 772; 0; 0; 0; 0; 0].
Proof.
  destruct (client_server_exact 1 small_device 10000000000000 ClientConfig.default _ 1 (Call.WriteMultipleRegisters 3 [258; 772]) idle_loop)
    as (r & w' & Hp & _ & _ & He).
  - exact small_device_ok.
  - repeat split; vm_compute; discriminate.
  - vm_compute. discriminate.
  - apply idle_loop_ok. lia.
  - split; [lia|]. repeat constructor; lia.
  - left. split; [lia|]. split; [reflexivity|]. left. reflexivity.
  - exists w'. assert (r = Ok tt) as -> by (apply (f_equal fst) in Hp; vm_compute in Hp; symmetry; exact Hp).
    split; [exact Hp|]. inversion He as [| |v Hb|v T' Hb Hv Hspec|]; [discriminate Hb|]. subst. cbn in Hspec. injection Hspec as <-. reflexivity.
Defined.
