(* ===== verification/PoolTasks.v ===== *)
(** * The tasks of the connection pool (crates/rusty-modbus-pool: src/pool.rs, health.rs)

    [Lending] has the pool's atomic actions in any order; this file has the tasks that
    take them, as written: the health check, one maintenance task per priority device
    with its probes, the callers of [get] and [get_with_acquisition_timeout] with their
    deadlines, the callers of [shutdown] and [shutdown_and_wait], and the coordinator
    that joins the background tasks. A task stands at a point where it can be
    overtaken; a step of it goes to the next one.

    A [Notified] that is enabled remembers the number of broadcasts at that time and is
    ready once there was another. What the clients of probes do is left open: an
    operation succeeds or fails, and the verdict on the session is any. *)
From stdpp Require Import gmap.
From S2P Require Import Prelude Types Session Transaction Pool Ledger Lending.
Import PoolInner.
#[local] Open Scope Z_scope.

Definition MIN_PRIORITY_MAINTENANCE_SLEEP : Z := 1000000.

Module PriorityMaintenanceMode.
Inductive t : Type := OneShot | Standing.
Definition is_standing (self : t) : bool := match self with Standing => true | OneShot => false end.
End PriorityMaintenanceMode.

(** Where a maintenance task is: before its first poll, at the head of [run], about to
    claim a connection for a probe, with the lease claimed, in the probe's operation,
    returning its session, in [next_action] before and after the registration for a
    wake-up, in its [select!], connecting, backing off *)
Module MaintenanceStage.
Inductive t : Type :=
  | Spawned | Top | Claiming | Claimed (connection : PooledConnection.t) | Probing (session : ReusableVault.t)
  | Returning (session : ReusableVault.t) (stopped : bool)
  | Registering | Inspecting (seen : Z) | Waiting (seen fallback : Z)
  | Connecting (reservation : PendingReservation.t) | BackingOff (until : Z) | Ended.
End MaintenanceStage.
Module PriorityMaintenanceTask.
Record t : Type := mk {
  addr : Z; cap : Z; probe : option PriorityProbeConfig.t;
  warm_up_pending : bool; probe_deadline : option Z; backoff : Backoff.t; stage : MaintenanceStage.t
}.
Definition at_stage (s : MaintenanceStage.t) '(mk a c p u d b _) : t := mk a c p u d b s.
Definition set_warm_up_pending (u : bool) '(mk a c p _ d b s) : t := mk a c p u d b s.
Definition set_probe_deadline (d : option Z) '(mk a c p u _ b s) : t := mk a c p u d b s.
Definition set_backoff (b : Backoff.t) '(mk a c p u d _ s) : t := mk a c p u d b s.
Definition probe_enabled (self : t) : bool := match probe self with Some _ => true | None => false end.
End PriorityMaintenanceTask.

(** A caller of [get], without a timeout, or of [get_with_acquisition_timeout]; it has
    returned with a lease ([None]) or an error *)
Module GetStage.
Inductive t : Type :=
  | First | Dated | Final
  | Registering (deadline : Z) (waited : bool) | Inspecting (deadline : Z) (waited : bool) (seen : Z) | Waiting (deadline seen : Z)
  | Connecting (reservation : PendingReservation.t) | Returned (error : option PoolError.t) | Dropped.
End GetStage.
Module Getter.
Record t : Type := mk { addr : Z; timeout : option Z; called : Z; stage : GetStage.t }.
Definition at_stage (s : GetStage.t) '(mk a d c _) : t := mk a d c s.
End Getter.

(** A caller of [shutdown], or of [shutdown_and_wait] when [waits] *)
Module Closer.
Inductive t : Type := Called (waits : bool) | Sealed (waits : bool) | Stopped (waits : bool) | Claiming | Waiting | Returned (waited : bool).
End Closer.
Module HealthTask.
Inductive t : Type := Starting | Ticking (next : Z) | Ended | Panicked.
(** Its handle can be joined *)
Definition over (self : t) : bool := match self with Ended | Panicked => true | Starting | Ticking _ => false end.
End HealthTask.
(** [join_and_complete] *)
Module Coordinator.
Inductive t : Type := Unspawned | JoiningHealth | JoiningTask (k : nat) | Completed.
End Coordinator.

Module PoolWorld.
Record t : Type := mk {
  pool : ConnectionPool.t; next_conn : Z; touched : gset Z; now : Z;
  stop : bool; health : HealthTask.t; health_aborted : bool; tasks : list PriorityMaintenanceTask.t;
  (** [BackgroundShutdownState]: whether the handles are there, and the rest of it *)
  owned_tasks : bool; coordinator_started : bool; completed : bool; coordinator : Coordinator.t;
  getters : list Getter.t; closers : list Closer.t;
  (** leases and sessions that callers own *)
  held : list holder
}.
Definition inner (w : t) : PoolInner.t := ConnectionPool.inner (pool w).
Definition wakes (w : t) : Z := ConnectionPool.wakes (pool w).
Definition set_pool (p : ConnectionPool.t) '(mk _ n tc t s h a ts o cs c co gs cl hs) : PoolWorld.t := mk p n tc t s h a ts o cs c co gs cl hs.
(** A new connection is named *)
Definition connected '(mk p n tc t s h a ts o cs c co gs cl hs) : PoolWorld.t := mk p (n + 1) tc t s h a ts o cs c co gs cl hs.
Definition set_task (i : nat) (x : PriorityMaintenanceTask.t) '(mk p n tc t s h a ts o cs c co gs cl hs) : PoolWorld.t := mk p n tc t s h a (<[i:=x]> ts) o cs c co gs cl hs.
Definition set_getter (i : nat) (x : Getter.t) '(mk p n tc t s h a ts o cs c co gs cl hs) : PoolWorld.t := mk p n tc t s h a ts o cs c co (<[i:=x]> gs) cl hs.
Definition set_closer (i : nat) (x : Closer.t) '(mk p n tc t s h a ts o cs c co gs cl hs) : PoolWorld.t := mk p n tc t s h a ts o cs c co gs (<[i:=x]> cl) hs.
Definition set_health (x : HealthTask.t) '(mk p n tc t s _ a ts o cs c co gs cl hs) : PoolWorld.t := mk p n tc t s x a ts o cs c co gs cl hs.
Definition set_coordinator (x : Coordinator.t) '(mk p n tc t s h a ts o cs c _ gs cl hs) : PoolWorld.t := mk p n tc t s h a ts o cs c x gs cl hs.
Definition hold (x : holder) '(mk p n tc t s h a ts o cs c co gs cl hs) : PoolWorld.t := mk p n tc t s h a ts o cs c co gs cl (x :: hs).
End PoolWorld.

(** Steps of a maintenance task, and of a caller of [get] *)
Inductive maintenance : Type :=
  | TaskStarted | TaskLooped | TaskClaimed (obs : Z → Observation) | TaskHandedOff | TaskProbed (ok : bool) | TaskProbeStopped
  | TaskReturned (verdict : SessionReuseVerdict.t) | TaskRegistered | TaskInspected | TaskWoken | TaskStopped
  | TaskConnected | TaskConnectFailed (e : TransportError.t) | TaskRetried.
Inductive getting : Type :=
  | GetAttempted (obs : Z → Observation) | GetDated | GetRegistered | GetRetried (obs : Z → Observation) | GetWoken | GetElapsed
  | GetConnected | GetConnectFailed (e : TransportError.t) | GetDropped.
Inductive pool_step : Type :=
  | Maintained (i : nat) (e : maintenance) | Getting (i : nat) (e : getting)
  | HealthStarted | HealthTicked (obs : Z → Observation) | HealthAborted | CoordinatorJoined
  | GetCalled (addr : Z) (timeout : option Z) | CloseCalled (waits : bool) | Closing (i : nat) | Held (e : event) | Elapsed (n : Z).

Section Tasks.
Context (config : PoolConfig.t) (instant_max : Z).
Import PoolWorld.
Abbreviation Task := PriorityMaintenanceTask.t.
Abbreviation outcome := (res unit PoolWorld.t).

Definition checked_add (now d : Z) : option Z := if now + d <=? instant_max then Some (now + d) else None.
Definition maintenance_mode : PriorityMaintenanceMode.t :=
  if PoolConfig.priority_replenishment config then PriorityMaintenanceMode.Standing else PriorityMaintenanceMode.OneShot.
Definition is_standing : bool := PriorityMaintenanceMode.is_standing maintenance_mode.
Definition fallback_interval : Z := Z.max (PoolConfig.health_check_interval config) MIN_PRIORITY_MAINTENANCE_SLEEP.
Definition warm_up_enabled : bool := PoolConfig.pre_connect config || PoolConfig.priority_replenishment config.

(** [spawn_priority_maintenance] *)
Fixpoint spawn_from (seen : list Z) (devices : list PriorityDevice.t) : list Task :=
  match devices with
  | [] => []
  | pd :: devices =>
      let addr := PriorityDevice.addr pd in
      if bool_decide (addr ∈ seen) then spawn_from seen devices else
      let seen := addr :: seen in
      let cap := PriorityDevice.max_connections pd in
      if cap =? 0 then spawn_from seen devices else
      let probe := PriorityDevice.probe pd in
      if negb warm_up_enabled && bool_decide (probe = None) then spawn_from seen devices else
      PriorityMaintenanceTask.mk addr cap probe warm_up_enabled None (Backoff.new (PoolConfig.backoff config)) MaintenanceStage.Spawned
        :: spawn_from seen devices
  end.
Definition spawn_priority_maintenance : list Task := spawn_from [] (PoolConfig.priority_devices config).
(** [new_with_priority_maintenance_runtime] *)
Definition pool_start (now : Z) : PoolWorld.t :=
  let tasks := if priority_background_required config then spawn_priority_maintenance else [] in
  mk ConnectionPool.new 0 ∅ now false HealthTask.Starting false tasks true false false Coordinator.Unspawned [] [] [].

(** An action on the pool that cannot fail *)
Definition acting {A} (m : ST ConnectionPool.t Empty_set A) (w : PoolWorld.t) : res unit (A * PoolWorld.t) :=
  match m (pool w) with
  | (Ok a, p) => Ok (a, set_pool p w)
  | (Err e, _) => match e with end
  | (Panic, _) => Panic
  | (OutOfFuel, _) => OutOfFuel
  end.
Definition next_priority_probe_deadline (now : Z) (t : Task) : Task :=
  PriorityMaintenanceTask.set_probe_deadline
    match PriorityMaintenanceTask.probe t with Some c => checked_add now (PriorityProbeConfig.interval c) | None => None end t.
Definition priority_probe_is_due (now : Z) (t : Task) : bool :=
  PriorityMaintenanceTask.probe_enabled t &&
  match PriorityMaintenanceTask.probe_deadline t with Some deadline => deadline <=? now | None => false end.
(** The rest of [next_action] when no connection was reserved *)
Definition await_change (seen : Z) (t : Task) (w : PoolWorld.t) : Task :=
  PriorityMaintenanceTask.at_stage
    (if negb is_standing && negb (PriorityMaintenanceTask.probe_enabled t) then MaintenanceStage.Ended
     else MaintenanceStage.Waiting seen (now w + fallback_interval)) t.
(** [next_action] after the registration *)
Definition next_action (seen : Z) (t : Task) (w : PoolWorld.t) : res unit (Task * PoolWorld.t) :=
  if is_standing || PriorityMaintenanceTask.warm_up_pending t then
    let? r := acting (reserve_priority_maintenance (PriorityMaintenanceTask.addr t) (PriorityMaintenanceTask.cap t)) w in
    let '(r, w) := r in
    match r with
    | PriorityMaintenanceReservation.ShuttingDown => Ok (PriorityMaintenanceTask.at_stage MaintenanceStage.Ended t, w)
    | PriorityMaintenanceReservation.Reserved reservation => Ok (PriorityMaintenanceTask.at_stage (MaintenanceStage.Connecting reservation) t, w)
    | PriorityMaintenanceReservation.Unavailable =>
        let t := if negb is_standing then PriorityMaintenanceTask.set_warm_up_pending false t else t in
        Ok (await_change seen t w, w)
    end
  else Ok (await_change seen t w, w).
(** [connect], and what [run] makes of its outcome *)
Definition task_connect (connected : option (Z + TransportError.t)) (reservation : PendingReservation.t) (t : Task) (w : PoolWorld.t)
    : res unit (Task * PoolWorld.t) :=
  let? r := acting (maintenance_connect (now w) connected (stop w) reservation) w in
  let '(r, w) := r in
  match r with
  | PriorityConnectOutcome.Stopped => Ok (PriorityMaintenanceTask.at_stage MaintenanceStage.Ended t, w)
  | PriorityConnectOutcome.Connected =>
      let t := PriorityMaintenanceTask.set_backoff (Backoff.reset (E := Empty_set) (PriorityMaintenanceTask.backoff t)).2 t in
      if negb is_standing then
        let t := PriorityMaintenanceTask.set_warm_up_pending false t in
        Ok (PriorityMaintenanceTask.at_stage (if negb (PriorityMaintenanceTask.probe_enabled t) then MaintenanceStage.Ended else MaintenanceStage.Top) t, w)
      else Ok (PriorityMaintenanceTask.at_stage MaintenanceStage.Top t, w)
  | PriorityConnectOutcome.Failed =>
      let? r := Prelude.infallible (Backoff.next_delay (E := Empty_set) (PriorityMaintenanceTask.backoff t)).1 in
      let t := PriorityMaintenanceTask.set_backoff (Backoff.next_delay (E := Empty_set) (PriorityMaintenanceTask.backoff t)).2 t in
      Ok (PriorityMaintenanceTask.at_stage (MaintenanceStage.BackingOff (now w + Z.max r MIN_PRIORITY_MAINTENANCE_SLEEP)) t, w)
  end.
(** [PriorityMaintenanceTask::run], [run_due_probe] and [run_priority_probe]; [Err tt]: the task is not there *)
Definition maintain (e : maintenance) (t : Task) (w : PoolWorld.t) : res unit (Task * PoolWorld.t) :=
  let at_stage := PriorityMaintenanceTask.at_stage in
  match e, PriorityMaintenanceTask.stage t with
  | TaskStarted, MaintenanceStage.Spawned => Ok (at_stage MaintenanceStage.Top (next_priority_probe_deadline (now w) t), w)
  | TaskLooped, MaintenanceStage.Top =>
      if stop w then Ok (at_stage MaintenanceStage.Ended t, w) else
      Ok (at_stage (if priority_probe_is_due (now w) t then MaintenanceStage.Claiming else MaintenanceStage.Registering) t, w)
  | TaskClaimed obs, MaintenanceStage.Claiming =>
      let? r := acting (claim_priority_probe obs (now w) (PriorityMaintenanceTask.addr t) (stop w)) w in
      let '(r, w) := r in
      match r with
      | PriorityProbeClaimOutcome.Stopped => Ok (at_stage MaintenanceStage.Ended t, w)
      | PriorityProbeClaimOutcome.Unavailable => Ok (at_stage MaintenanceStage.Registering (next_priority_probe_deadline (now w) t), w)
      | PriorityProbeClaimOutcome.Claimed connection => Ok (at_stage (MaintenanceStage.Claimed connection) t, w)
      end
  | TaskHandedOff, MaintenanceStage.Claimed connection =>
      match PooledConnection.into_reusable_client connection (pool w) with
      | (Ok session, p) => Ok (at_stage (MaintenanceStage.Probing session) t, set_pool p w)
      | _ => Panic (* expect *)
      end
  | TaskProbed ok, MaintenanceStage.Probing session => Ok (at_stage (MaintenanceStage.Returning session false) t, w)
  | TaskProbeStopped, MaintenanceStage.Probing session =>
      if stop w then Ok (at_stage (MaintenanceStage.Returning session true) t, w) else Err tt
  | TaskReturned verdict, MaintenanceStage.Returning session stopped =>
      let? r := acting (shutdown_and_return (now w) verdict session) w in
      let '(_, w) := r in
      if stopped then Ok (at_stage MaintenanceStage.Ended t, w)
      else Ok (at_stage MaintenanceStage.Registering (next_priority_probe_deadline (now w) t), w)
  | TaskRegistered, MaintenanceStage.Registering => Ok (at_stage (MaintenanceStage.Inspecting (wakes w)) t, w)
  | TaskInspected, MaintenanceStage.Inspecting seen => next_action seen t w
  | TaskWoken, MaintenanceStage.Waiting seen fallback =>
      if (seen <? wakes w) || (is_standing && (fallback <=? now w)) || priority_probe_is_due (now w) t
      then Ok (at_stage MaintenanceStage.Top t, w) else Err tt
  | TaskStopped, MaintenanceStage.Waiting _ _ | TaskStopped, MaintenanceStage.BackingOff _ =>
      if stop w then Ok (at_stage MaintenanceStage.Ended t, w) else Err tt
  | TaskStopped, MaintenanceStage.Connecting reservation =>
      if stop w then task_connect None reservation t w else Err tt
  | TaskConnected, MaintenanceStage.Connecting reservation => task_connect (Some (inl (next_conn w))) reservation t (connected w)
  | TaskConnectFailed e, MaintenanceStage.Connecting reservation => task_connect (Some (inr e)) reservation t w
  | TaskRetried, MaintenanceStage.BackingOff until => if until <=? now w then Ok (at_stage MaintenanceStage.Top t, w) else Err tt
  | _, _ => Err tt
  end.

(** What a caller of [get] makes of an attempt: [none] where it found nothing *)
Definition attempted (r : res PoolError.t (option Acquisition.t) * ConnectionPool.t) (none : GetStage.t) (g : Getter.t) (w : PoolWorld.t)
    : res unit (Getter.t * PoolWorld.t) :=
  match r with
  | (Ok (Some (Acquisition.Reused c)), p) => Ok (Getter.at_stage (GetStage.Returned None) g, hold (Lease c) (set_pool p w))
  | (Ok (Some (Acquisition.Reserved r)), p) => Ok (Getter.at_stage (GetStage.Connecting r) g, set_pool p w)
  | (Ok None, p) => Ok (Getter.at_stage none g, set_pool p w)
  | (Err e, p) => Ok (Getter.at_stage (GetStage.Returned (Some e)) g, set_pool p w)
  | (Panic, _) => Panic
  | (OutOfFuel, _) => OutOfFuel
  end.
Definition finished (r : res PoolError.t PooledConnection.t * ConnectionPool.t) (g : Getter.t) (w : PoolWorld.t) : res unit (Getter.t * PoolWorld.t) :=
  match r with
  | (Ok c, p) => Ok (Getter.at_stage (GetStage.Returned None) g, hold (Lease c) (set_pool p w))
  | (Err e, p) => Ok (Getter.at_stage (GetStage.Returned (Some e)) g, set_pool p w)
  | (Panic, _) => Panic
  | (OutOfFuel, _) => OutOfFuel
  end.
(** [get_with_connector], [get_with_acquisition_timeout_and_connector] and [acquire_with_timeout]; a future that
    is dropped gives up its reservation *)
Definition get_step (e : getting) (g : Getter.t) (w : PoolWorld.t) : res unit (Getter.t * PoolWorld.t) :=
  let attempt obs := attempt_acquire config obs (now w) (Getter.addr g) (pool w) in
  match e, Getter.stage g with
  | GetAttempted obs, GetStage.First =>
      match Getter.timeout g with
      | None =>
          match acquire_immediate config obs (now w) (Getter.addr g) (pool w) with
          | (Ok a, p) => attempted (Ok (Some a), p) GetStage.Dropped g w
          | (Err e, p) => attempted (Err e, p) GetStage.Dropped g w
          | (Panic, _) => Panic
          | (OutOfFuel, _) => OutOfFuel
          end
      | Some _ => attempted (attempt obs) GetStage.Dated g w
      end
  | GetDated, GetStage.Dated =>
      match Getter.timeout g with
      | Some timeout =>
          Ok (Getter.at_stage match checked_add (now w) timeout with Some deadline => GetStage.Registering deadline false | None => GetStage.Final end g, w)
      | None => Err tt
      end
  | GetAttempted obs, GetStage.Final => attempted (attempt obs) (GetStage.Returned (Some PoolError.Timeout)) g w
  | GetRegistered, GetStage.Registering deadline waited => Ok (Getter.at_stage (GetStage.Inspecting deadline waited (wakes w)) g, w)
  | GetRetried obs, GetStage.Inspecting deadline waited seen =>
      attempted (acquire_retry config obs (now w) (Getter.addr g) deadline waited (pool w)) (GetStage.Waiting deadline seen) g w
  | GetWoken, GetStage.Waiting deadline seen => if seen <? wakes w then Ok (Getter.at_stage (GetStage.Registering deadline true) g, w) else Err tt
  | GetElapsed, GetStage.Waiting deadline _ =>
      if deadline <=? now w
      then Ok (Getter.at_stage (GetStage.Returned (Some (if shutting_down (inner w) then PoolError.ShuttingDown else PoolError.Timeout))) g, w)
      else Err tt
  | GetConnected, GetStage.Connecting r =>
      finished (finish_acquisition (now w) (inl (next_conn w)) (Acquisition.Reserved r) (pool w)) g (connected w)
  | GetConnectFailed e, GetStage.Connecting r => finished (finish_acquisition (now w) (inr e) (Acquisition.Reserved r) (pool w)) g w
  | GetDropped, GetStage.Connecting r =>
      let? r := acting (PendingReservation.drop r) w in
      Ok (Getter.at_stage GetStage.Dropped g, r.2)
  | GetDropped, GetStage.Returned _ | GetDropped, GetStage.Dropped => Err tt
  | GetDropped, _ => Ok (Getter.at_stage GetStage.Dropped g, w)
  | _, _ => Err tt
  end.

(** [shutdown] and [shutdown_and_wait] *)
Definition close_step (i : nat) (c : Closer.t) (w : PoolWorld.t) : outcome :=
  match c with
  | Closer.Called waits =>
      let? r := acting shutdown w in
      Ok (set_closer i (Closer.Sealed waits) r.2)
  | Closer.Sealed waits =>
      let '(mk p n tc t _ h a ts o cs c co gs cl hs) := w in
      Ok (mk p n tc t true h a ts o cs c co gs (<[i:=Closer.Stopped waits]> cl) hs)
  | Closer.Stopped waits =>
      let '(mk p n tc t s h a ts o cs c co gs cl hs) := w in
      let a := if o then true else a in
      Ok (mk p n tc t s h a ts o cs c co gs (<[i:=if waits then Closer.Claiming else Closer.Returned false]> cl) hs)
  | Closer.Claiming =>
      let '(mk p n tc t s h a ts o cs c co gs cl hs) := w in
      let cl := <[i:=Closer.Waiting]> cl in
      if cs then Ok (mk p n tc t s h a ts o cs c co gs cl hs) else
      if negb o then Panic (* expect *) else
      (* the coordinator is spawned and aborts the health task first *)
      Ok (mk p n tc t s h true ts false true c Coordinator.JoiningHealth gs cl hs)
  | Closer.Waiting => if completed w then Ok (set_closer i (Closer.Returned true) w) else Err tt
  | Closer.Returned _ => Err tt
  end.
Definition task_ended (t : Task) : bool := match PriorityMaintenanceTask.stage t with MaintenanceStage.Ended => true | _ => false end.
(** [join_and_complete]: one handle after the other *)
Definition coordinator_join (w : PoolWorld.t) : outcome :=
  match coordinator w with
  | Coordinator.JoiningHealth => if HealthTask.over (health w) then Ok (set_coordinator (Coordinator.JoiningTask 0) w) else Err tt
  | Coordinator.JoiningTask k =>
      match tasks w !! k with
      | Some t => if task_ended t then Ok (set_coordinator (Coordinator.JoiningTask (S k)) w) else Err tt
      | None => let '(mk p n tc t s h a ts o cs _ _ gs cl hs) := w in Ok (mk p n tc t s h a ts o cs true Coordinator.Completed gs cl hs)
      end
  | _ => Err tt
  end.
(** [spawn_health_check]: [interval] panics when the period is zero, which ends this task and no other; the first
    tick is at once, and the ticks that were missed follow one after the other *)
Definition health_step (e : pool_step) (w : PoolWorld.t) : outcome :=
  match e, health w with
  | HealthStarted, HealthTask.Starting =>
      let interval := PoolConfig.health_check_interval config in
      Ok (set_health (if interval =? 0 then HealthTask.Panicked else HealthTask.Ticking (now w + interval)) w)
  | HealthTicked obs, HealthTask.Ticking next =>
      if negb (next <=? now w) then Err tt else
      let? r := acting (run_health_check obs (now w) (PoolConfig.idle_timeout config)) w in
      let '(go_on, w) := r in
      Ok (set_health (if go_on then HealthTask.Ticking (next + PoolConfig.health_check_interval config) else HealthTask.Ended) w)
  | HealthAborted, HealthTask.Starting | HealthAborted, HealthTask.Ticking _ =>
      if health_aborted w then Ok (set_health HealthTask.Ended w) else Err tt
  | _, _ => Err tt
  end.
(** What a caller does with what it owns: the events of [Lending] on leases and sessions *)
Definition of_holder (e : event) : bool :=
  match e with
  | Access _ | Invalidate _ _ | DropLease _ | MakeReusable _ | MakeRetiring _ | DropRetiring _ | ReturnSession _ _ _ | DropSession _ => true
  | _ => false
  end.
Definition pool_exec (e : pool_step) (w : PoolWorld.t) : outcome :=
  match e with
  | Maintained i e =>
      match tasks w !! i with
      | Some t => let? r := maintain e t w in Ok (set_task i r.1 r.2)
      | None => Err tt
      end
  | Getting i e =>
      match getters w !! i with
      | Some g => let? r := get_step e g w in Ok (set_getter i r.1 r.2)
      | None => Err tt
      end
  | GetCalled addr timeout =>
      let '(mk p n tc t s h a ts o cs c co gs cl hs) := w in
      Ok (mk p n tc t s h a ts o cs c co (gs ++ [Getter.mk addr timeout t GetStage.First]) cl hs)
  | CloseCalled waits =>
      let '(mk p n tc t s h a ts o cs c co gs cl hs) := w in
      Ok (mk p n tc t s h a ts o cs c co gs (cl ++ [Closer.Called waits]) hs)
  | Closing i => match closers w !! i with Some c => close_step i c w | None => Err tt end
  | HealthStarted | HealthTicked _ | HealthAborted => health_step e w
  | CoordinatorJoined => coordinator_join w
  | Held e =>
      if negb (of_holder e) then Err tt else
      let '(mk p n tc t s h a ts o cs c co gs cl hs) := w in
      let? x := exec config e (World.mk p hs n tc) in
      Ok (mk (World.pool x) (World.next_conn x) (World.touched x) t s h a ts o cs c co gs cl (World.holders x))
  | Elapsed n =>
      let '(mk p nx tc t s h a ts o cs c co gs cl hs) := w in
      if (0 <=? n) && (t + n <=? instant_max) then Ok (mk p nx tc (t + n) s h a ts o cs c co gs cl hs) else Err tt
  end.
(** Steps in any order; what is not enabled does not happen *)
Fixpoint pool_run (es : list pool_step) (w : PoolWorld.t) : outcome :=
  match es with
  | [] => Ok w
  | e :: es => match pool_exec e w with Ok w => pool_run es w | Err _ => pool_run es w | Panic => Panic | OutOfFuel => OutOfFuel end
  end.
End Tasks.

(** * What a waiting task is told

    [quiet x p p']: from [p] to [p'] there was a broadcast, or no priority device but [x] has
    lost or got an idle connection; and the shutdown is for good. *)
Definition quiet (x : option Z) (p p' : ConnectionPool.t) : Prop :=
  (ConnectionPool.wakes p < ConnectionPool.wakes p' ∨
   ConnectionPool.wakes p' = ConnectionPool.wakes p ∧
   ∀ a, Some a ≠ x → priority_idle_count a (ConnectionPool.inner p') = priority_idle_count a (ConnectionPool.inner p)) ∧
  (shutting_down (ConnectionPool.inner p) = true → shutting_down (ConnectionPool.inner p') = true).
#[export] Instance quiet_preorder x : PreOrder (quiet x).
Proof.
  split.
  - intros p. split; [by right|done].
  - intros p p' p'' [H1 Hs1] [H2 Hs2]. split; [|by auto].
    destruct H1 as [?|[? H1]], H2 as [?|[? H2]]; [left; lia..|]. right. split; [lia|]. intros a Ha. by rewrite H2, H1.
Qed.
Definition quietly {E A} (x : option Z) (m : ST ConnectionPool.t E A) : Prop := ∀ p, quiet x p (m p).2.
Section Quiet.
Context (x : option Z) {E : Type}.
Lemma quietly_pure {A} (r : res E A) : quietly x (λ p, (r, p)).
Proof. intros p. cbn. reflexivity. Qed.
Lemma quietly_bind {A B} (m : ST ConnectionPool.t E A) (k : A → ST ConnectionPool.t E B) : quietly x m → (∀ a, quietly x (k a)) → quietly x (st_bind m k).
Proof.
  intros Hm Hk p. unfold st_bind. specialize (Hm p). destruct (m p) as [[a|e| |] p']; try done. cbn in *. etrans; [done|apply Hk].
Qed.
Lemma quietly_seen {A} (k : ConnectionPool.t → ST ConnectionPool.t E A) : (∀ p, quiet x p (k p p).2) → quietly x (st_bind st_get k).
Proof. intros Hk p. apply Hk. Qed.
Lemma quietly_notify : quietly x (notify_waiters (E := E)).
Proof. intros p. split; [left; cbn; lia|done]. Qed.
Lemma quietly_locked {A} (f : PoolInner.t → A * PoolInner.t) :
  (∀ i, idle (f i).2 = idle i ∧ shutting_down (f i).2 = shutting_down i) → quietly x (locked (E := E) f).
Proof.
  intros Hf p. destruct (Hf (ConnectionPool.inner p)) as [Hi Hs]. unfold locked. destruct (f (ConnectionPool.inner p)) as [a i]. cbn in *.
  split; cbn; [|by rewrite Hs]. right. split; [done|]. intros b _. by rewrite !priority_idle_count_class, Hi.
Qed.
Lemma quietly_told {A B} (f : PoolInner.t → A * PoolInner.t) (k : A → ST ConnectionPool.t E B) :
  (∀ i, shutting_down i = true → shutting_down (f i).2 = true) → (∀ a, quietly x (k a)) → quietly x (a <- locked f;; notify_waiters;;; k a).
Proof.
  intros Hf Hk p. specialize (Hf (ConnectionPool.inner p)). unfold st_bind, locked, notify_waiters, st_modify.
  destruct (f (ConnectionPool.inner p)) as [a i]. cbn in *.
  destruct (Hk a (ConnectionPool.mk i (ConnectionPool.wakes p + 1))) as [Hw Hs]. cbn in *. split; [left|by auto]. destruct Hw as [?|[? _]]; lia.
Qed.
Lemma quietly_told_last {A} (f : PoolInner.t → A * PoolInner.t) :
  (∀ i, shutting_down i = true → shutting_down (f i).2 = true) → quietly x (locked f;;; notify_waiters (E := E)).
Proof.
  intros Hf p. specialize (Hf (ConnectionPool.inner p)). unfold st_bind, locked, notify_waiters, st_modify. destruct (f (ConnectionPool.inner p)) as [a i]. cbn in *.
  split; [left; cbn; lia|done].
Qed.
Lemma shutting_down_retire_active p a i : shutting_down (retire_active p a i) = shutting_down i.
Proof.
  unfold retire_active. pose proof (shutting_down_release p a i). destruct (release_active p a i) as [[] i']; cbn in *; by autorewrite with pool.
Qed.

Lemma quietly_assert {A} (b : bool) (k : ST ConnectionPool.t E A) : quietly x k → quietly x (st_lift (debug_assert b);;; k).
Proof. intros Hk. apply quietly_bind; [apply quietly_pure|intros []; exact Hk]. Qed.
Lemma quietly_assert_seen {A} (b : ConnectionPool.t → bool) (k : ST ConnectionPool.t E A) :
  quietly x k → quietly x (p <- st_get;; st_lift (debug_assert (b p));;; k).
Proof. intros Hk p. apply (quietly_assert (b p) k Hk p). Qed.
Lemma quietly_rollback failed r : quietly x (PendingReservation.rollback (E := E) failed r).
Proof.
  apply quietly_told; [|intros []; apply quietly_pure]. intros i Hd. cbn.
  assert (shutting_down (release_active (PendingReservation.is_priority r) (PendingReservation.addr r) (if failed then record_connection_failure i else i)).2 = true) as Hr
    by (rewrite shutting_down_release; destruct failed; [by rewrite shutting_down_failure|done]).
  destruct (PendingReservation.evicted r); [|done]. rewrite Hr. by rewrite shutting_down_retired.
Qed.
Lemma quietly_reservation_drop r : quietly x (PendingReservation.drop (E := E) r).
Proof. unfold PendingReservation.drop. destruct (PendingReservation.committed r); [apply quietly_pure|]. apply quietly_bind; [apply quietly_rollback|intros; apply quietly_pure]. Qed.
Lemma quietly_reservation_fail r : quietly x (PendingReservation.fail (E := E) r).
Proof. apply quietly_bind; [apply quietly_rollback|apply quietly_reservation_drop]. Qed.
Lemma quietly_commit e r : quietly x (PendingReservation.commit (E := E) e r).
Proof. apply quietly_bind; [|intros; apply quietly_pure]. apply quietly_locked. intros []. by destruct (PendingReservation.evicted r). Qed.
Lemma quietly_commit_idle e r : quietly x (PendingReservation.commit_priority_idle_if_needed (E := E) e r).
Proof.
  do 4 apply quietly_assert. apply quietly_told_last. intros i Hd. cbn. assert (shutting_down (release_active (PendingReservation.is_priority r) (PendingReservation.addr r) i).2 = true) as Hr by by rewrite shutting_down_release.
  by rewrite Hr.
Qed.
Lemma quietly_maintenance_connect now c s r : quietly x (maintenance_connect (E := E) now c s r).
Proof.
  unfold maintenance_connect. destruct c as [[conn|te]|]; [destruct s|..]; (apply quietly_bind; [|intros; apply quietly_pure]);
    auto using quietly_reservation_drop, quietly_commit_idle, quietly_reservation_fail.
Qed.
Lemma quietly_reserve addr cap : quietly x (reserve_priority_maintenance (E := E) addr cap).
Proof. apply quietly_locked. intros i. destruct (shutting_down i) eqn:Hs; [done|]. case_match; [done|]. cbn. by autorewrite with pool. Qed.
Lemma quietly_guard g : quietly x (ActiveCapacityGuard.drop (E := E) g).
Proof. unfold ActiveCapacityGuard.drop. destruct (negb _); [apply quietly_pure|]. apply quietly_assert_seen, quietly_told_last. intros i. cbn. by rewrite shutting_down_retire_active. Qed.
Lemma quietly_vault v : quietly x (ReusableVault.drop (E := E) v).
Proof. unfold ReusableVault.drop. destruct (ReusableVault.capacity v); [apply quietly_guard|apply quietly_pure]. Qed.
Lemma quietly_retire_entry c : quietly x (PooledConnection.retire_entry (E := E) c).
Proof.
  unfold PooledConnection.retire_entry. destruct (PooledConnection.entry c); [|apply quietly_pure].
  apply quietly_told; [|intros; apply quietly_pure]. intros i. cbn. by rewrite shutting_down_retire_active.
Qed.
Lemma quietly_return now r : quietly x (RecoveredLease.return_to_pool (E := E) now r).
Proof.
  unfold RecoveredLease.return_to_pool. destruct (RecoveredLease.entry r) as [e|], (RecoveredLease.capacity r) as [g|] eqn:Hg.
  2-4: apply quietly_bind; [|intros; apply quietly_pure]; unfold RecoveredLease.drop; rewrite Hg; first [apply quietly_guard|apply (quietly_pure (Ok tt))].
  do 2 apply quietly_assert. apply quietly_assert_seen.
  apply quietly_told; [|intros; apply quietly_pure]. intros i Hd. cbn. rewrite Hd, !shutting_down_retire_active, Hd. by rewrite shutting_down_retire_active.
Qed.
Lemma quietly_session now v s : quietly x (shutdown_and_return (E := E) now v s).
Proof.
  apply quietly_bind; [|intros r; apply quietly_bind; [apply quietly_vault|intros; apply quietly_pure]].
  destruct v; try apply quietly_pure. destruct (RecoveredLease.recover now s) as [[r|] v']; [|apply quietly_pure].
  apply quietly_bind; [apply quietly_return|intros; apply quietly_pure].
Qed.
Lemma quietly_shutdown : quietly x (shutdown (E := E)).
Proof. apply quietly_told_last. by intros []. Qed.
End Quiet.
(** Checking out an entry: adverse ones are reported, and one that is taken is of the given class *)
Lemma idle_taken a matches obs found rest i : taken matches obs found [] (idle i) rest →
  priority_idle_count a i = count (Some a) (map class (listed found)) + priority_idle_count a (checked_out found [] rest i).
Proof.
  intros [Hp _ _]. rewrite !priority_idle_count_class, idle_checked_out, Hp. cbn [app map]. by rewrite map_app, count_app.
Qed.
Lemma quiet_taken x matches obs found rs rest i wk k : taken matches obs found rs (idle i) rest → 0 ≤ k →
  (k = 0 → ∀ a, Some a ≠ x → count (Some a) (map class (listed found)) = 0) →
  quiet x (ConnectionPool.mk i wk) (ConnectionPool.mk (checked_out found rs rest i) (if is_empty rs then wk + k else wk + k + 1)).
Proof.
  intros Ht Hk Hc. split; cbn; [|by rewrite shutting_down_checked_out]. destruct rs as [|r rs].
  - change (is_empty []) with true. cbv iota. destruct (Z.eqb_spec k 0) as [->|]; [|left; lia]. right. split; [lia|]. intros a Ha.
    rewrite (idle_taken a _ _ _ _ _ Ht), Hc by done. lia.
  - left. replace (is_empty (r :: rs)) with false by (unfold is_empty; rewrite blen_cons; pose proof (blen_nonneg rs); lia). lia.
Qed.
Section QuietChecks.
Context {E : Type}.
Lemma quietly_probe obs now addr stopped : quietly (Some addr) (claim_priority_probe (E := E) obs now addr stopped).
Proof.
  apply quietly_seen. intros [i wk]. cbn [ConnectionPool.inner]. destruct (shutting_down i || stopped); [apply quietly_pure|].
  unfold st_bind at 1. destruct (checkout_spec (E := E) (λ e, PoolEntry.is_priority e && (PoolEntry.addr e =? addr)) obs now (ConnectionPool.mk i wk))
    as (found & rs & rest & -> & Ht). cbn [ConnectionPool.inner ConnectionPool.wakes] in *. unfold st_bind. rewrite wakes_retirements. cbn [snd st_ret].
  pose proof (quiet_taken (Some addr) _ _ _ _ _ _ wk 0 Ht) as Hq. rewrite Z.add_0_r in Hq. apply Hq; [lia|]. intros _ a Ha.
  destruct found as [e|]; [|done]. destruct (taken_found _ _ _ _ _ _ Ht) as [[Hp Hadr]%andb_true_iff _]. apply Z.eqb_eq in Hadr. cbn. unfold class. rewrite Hp, Hadr. cbn.
  by rewrite decide_False by congruence.
Qed.
Lemma reserves_priority_idle config now addr pr i r i' a : reserves config now addr pr i r i' → priority_idle_count a i' = priority_idle_count a i ∧ shutting_down i' = shutting_down i.
Proof.
  intros Hr. rewrite !priority_idle_count_class. destruct Hr as [_|e rest -> _ Hi (Hp & _ & _)|]; autorewrite with pool; [done| |done]. split; [|done].
  rewrite Hi. cbn. assert (class e = None) as -> by (unfold class; by rewrite Hp). by rewrite decide_False.
Qed.
Lemma quietly_attempt config obs now addr : quietly None (attempt_acquire config obs now addr).
Proof.
  apply quietly_seen. intros [i wk]. cbn [ConnectionPool.inner]. destruct (shutting_down i) eqn:Hd; [apply quietly_pure|].
  unfold try_acquire_locked, st_bind at 1 2.
  destruct (checkout_spec (E:=PoolError.t) (λ e, PoolEntry.addr e =? addr) obs now (ConnectionPool.mk i wk))
    as (found & rs & rest & -> & Ht). cbn [ConnectionPool.inner ConnectionPool.wakes] in *. destruct found as [e|]; cbn [fmap option_fmap option_map].
  - pose proof (quiet_taken None _ _ _ _ _ _ wk (if PoolEntry.is_priority (PoolEntry.touch now e) then 1 else 0) Ht) as Hq.
    destruct (PoolEntry.is_priority (PoolEntry.touch now e)) eqn:Hp; unfold notify_waiters, st_modify, st_bind, st_ret; cbn [fst snd ConnectionPool.inner ConnectionPool.wakes];
      rewrite wakes_retirements; cbn [snd]; [|rewrite Z.add_0_r in Hq]; apply Hq; try lia. intros _ a _. cbn.
    assert (class e = None) as -> by (unfold class; destruct e; cbn in *; by rewrite Hp). by rewrite decide_False.
  - destruct (reserve_slot_spec (E:=PoolError.t) config now addr (is_priority_addr config addr) (ConnectionPool.mk (checked_out None rs rest i) wk))
      as (r & i' & Hr & Hres). unfold st_bind, st_ret. rewrite Hr. cbn [ConnectionPool.inner ConnectionPool.wakes fst snd] in *.
    rewrite wakes_retirements. cbn [snd]. pose proof (quiet_taken None _ _ _ _ _ _ wk 0 Ht ltac:(lia) ltac:(done)) as Hq. rewrite Z.add_0_r in Hq.
    etrans; [exact Hq|]. split; cbn; [right; split; [done|]|]; [intros a _|]; edestruct reserves_priority_idle as [H1 H2]; try exact Hres; [exact H1|by rewrite H2].
  Unshelve. all: exact 0.
Qed.
Lemma quietly_retry config obs now addr deadline waited : quietly None (acquire_retry config obs now addr deadline waited).
Proof. intros p. rewrite acquire_retry_eq. case_match; [cbn; reflexivity|apply quietly_attempt]. Qed.
Lemma quietly_immediate config obs now addr : quietly None (acquire_immediate config obs now addr).
Proof. apply quietly_bind; [apply quietly_attempt|]. intros a. apply quietly_pure. Qed.
Lemma quietly_health obs now t : quietly None (run_health_check (E := E) obs now t).
Proof.
  apply quietly_seen. intros [i wk]. cbn [ConnectionPool.inner]. destruct (shutting_down i) eqn:Hd; [apply quietly_pure|].
  destruct (sort_idle_spec obs now t (idle i)) as (aged & retired & -> & Hp). unfold st_bind, locked. cbn [ConnectionPool.inner ConnectionPool.wakes]. rewrite wakes_retirements.
  assert (∀ {A} (y : A) l, is_empty (y :: l) = false) as Hne by (intros A y l; unfold is_empty; rewrite blen_cons; pose proof (blen_nonneg l); lia).
  split; [|by cbn in *; rewrite Hd]. destruct retired as [|r rs]; [|left; rewrite Hne; cbn; lia].
  destruct aged as [|y aged]; [|left; rewrite Hne; change (is_empty []) with true; cbn; lia].
  right. split; [done|]. intros a _. rewrite !priority_idle_count_class. cbn. destruct i. cbn in *. by rewrite Hp at 2.
Qed.
Lemma quietly_finish now c r : quietly None (finish_acquisition now c (Acquisition.Reserved r)).
Proof.
  destruct c; cbn [finish_acquisition]; [apply quietly_commit|]. apply quietly_bind; [apply quietly_reservation_fail|intros; apply quietly_pure].
Qed.
End QuietChecks.

(** ** What callers do with their leases, beside the other owners *)
Definition with_rest (rest : list holder) (r : res unit World.t) : res unit World.t :=
  match r with
  | Ok x => Ok (World.mk (World.pool x) (World.holders x ++ rest) (World.next_conn x) (World.touched x))
  | r => r
  end.
Lemma running_rest {E A} (m : ST ConnectionPool.t E A) p hs hs' n n' tc (k k' : A → list holder) (ke ke' : E → list holder) rest :
  (∀ a, k' a = k a ++ rest) → (∀ e, ke' e = ke e ++ rest) →
  running m (World.mk p hs' n tc) k' ke' n' = with_rest rest (running m (World.mk p hs n tc) k ke n').
Proof. intros Hk He. unfold running. cbn. destruct (m p) as [[a|e| |] p']; cbn; by rewrite ?Hk, ?He. Qed.
Lemma running_quiet {E A} (m : ST ConnectionPool.t E A) p hs n n' tc k ke x : quietly None m → running m (World.mk p hs n tc) k ke n' = Ok x → quiet None p (World.pool x).
Proof. intros Hm. unfold running. cbn. specialize (Hm p). destruct (m p) as [[a|e| |] p']; cbn in *; by intros [= <-]. Qed.
Lemma exec_rest config e p hs n tc rest : of_holder e = true → exec config e (World.mk p hs n tc) ≠ Err tt →
  exec config e (World.mk p (hs ++ rest) n tc) = with_rest rest (exec config e (World.mk p hs n tc)) ∧
  ∀ x, exec config e (World.mk p hs n tc) = Ok x → quiet None p (World.pool x).
Proof.
  intros He Hex. destruct e as [| | | | | | | | | |i|i reason|i|i|i|i|i now v|i| |]; try done; cbn [exec World.holders World.next_conn World.pool World.touched] in *;
    (destruct (hs !! i) as [h|] eqn:Hh; [|done]); rewrite (lookup_app_l_Some _ _ _ _ Hh), (delete_take_drop (hs ++ rest) i), (delete_take_drop hs i) in *;
    pose proof (lookup_lt_Some _ _ _ Hh) as Hi; rewrite take_app_le, drop_app_le in * by lia;
    destruct h as [r|r|c|v'|g cn]; try done; rewrite ?app_assoc.
  1: { destruct (PooledConnection.raw_half c) as [[cn| | |] c']; try done. split; [done|]. by intros x [= <-]. }
  3: { split; [|intros y; apply running_quiet]; [apply running_rest; [intros; by rewrite <-?app_comm_cons|done]|].
       unfold PooledConnection.into_reusable_client. destruct (PooledConnection.raw_accessed c); [apply quietly_bind; [apply quietly_retire_entry|intros; apply (quietly_pure None (Err _))]|].
       destruct (PooledConnection.entry c); [apply (quietly_pure None (Ok _))|apply (quietly_pure None (Err _))]. }
  3: { destruct (PooledConnection.entry c) eqn:Hc; [|done]. split; [|intros y; apply running_quiet]; [apply running_rest; [intros; by rewrite <-?app_comm_cons|by intros []]|].
       unfold PooledConnection.into_retiring_client. rewrite Hc. apply (quietly_pure None (Ok _)). }
  all: split; [|intros y; apply running_quiet]; [apply running_rest; [intros; by rewrite <-?app_comm_cons|by intros []]|].
  - unfold PooledConnection.invalidate. destruct (PooledConnection.invalidation_reason c), (PooledConnection.entry c); try apply (quietly_pure None (Ok _)).
    apply quietly_bind; [apply quietly_retire_entry|intros; apply quietly_pure].
  - apply quietly_bind; [apply quietly_retire_entry|intros; apply quietly_pure].
  - apply quietly_told_last. intros j. cbn. by rewrite shutting_down_retire_active.
  - apply quietly_session.
  - apply quietly_vault.
Qed.
Lemma held_step config e p hs n tc rest : of_holder e = true → Inv config (hs ++ rest) n tc (ConnectionPool.inner p) →
  match exec config e (World.mk p hs n tc) with
  | Ok x => Inv config (World.holders x ++ rest) (World.next_conn x) (World.touched x) (World.inner x) ∧ woken p (World.pool x) ∧ quiet None p (World.pool x)
  | Err _ => True
  | Panic | OutOfFuel => False
  end.
Proof.
  intros He HI. pose proof (event_ok config e (World.mk p (hs ++ rest) n tc) HI) as Hs.
  destruct (exec config e (World.mk p hs n tc)) as [x|[]| |] eqn:Hx; [|done|..];
    destruct (exec_rest config e p hs n tc rest He ltac:(by rewrite Hx)) as [Hr Hq]; rewrite Hr, Hx in Hs; cbn in Hs; try done.
  destruct Hs. split_and!; [done..|by apply Hq].
Qed.

(** * The invariant *)
Definition task_holds (t : PriorityMaintenanceTask.t) : list holder :=
  match PriorityMaintenanceTask.stage t with
  | MaintenanceStage.Claimed c => [Lease c]
  | MaintenanceStage.Probing v | MaintenanceStage.Returning v _ => [Session v]
  | MaintenanceStage.Connecting r => [Maintaining r]
  | _ => []
  end.
Definition getter_holds (g : Getter.t) : list holder :=
  match Getter.stage g with GetStage.Connecting r => [Pending r] | _ => [] end.
(** Everyone who holds a charge *)
Definition all_holders (w : PoolWorld.t) : list holder :=
  PoolWorld.held w ++ (PoolWorld.getters w ≫= getter_holds) ++ (PoolWorld.tasks w ≫= task_holds).

Section Invariant.
Context (config : PoolConfig.t) (instant_max : Z).
Abbreviation Task := PriorityMaintenanceTask.t.
Abbreviation Inv := (Inv config).
Import PoolWorld.

(** The device has an idle connection, or no room for one *)
Definition stocked (t : Task) (i : PoolInner.t) : Prop :=
  priority_idle_count (PriorityMaintenanceTask.addr t) i ≠ 0 ∨ PriorityMaintenanceTask.cap t ≤ priority_total (PriorityMaintenanceTask.addr t) i.
Definition task_ok (p : ConnectionPool.t) (t : Task) : Prop :=
  is_priority_addr config (PriorityMaintenanceTask.addr t) = true ∧
  PriorityMaintenanceTask.cap t = priority_cap config (PriorityMaintenanceTask.addr t) ∧
  match PriorityMaintenanceTask.stage t with
  | MaintenanceStage.Claimed c => ∃ e, c = PooledConnection.new e
  | MaintenanceStage.Returning _ stopped => stopped = true → shutting_down (ConnectionPool.inner p) = true
  | MaintenanceStage.Inspecting seen => seen ≤ ConnectionPool.wakes p
  | MaintenanceStage.Waiting seen _ =>
      seen ≤ ConnectionPool.wakes p ∧ (is_standing config = true → ConnectionPool.wakes p = seen → stocked t (ConnectionPool.inner p))
  | MaintenanceStage.Ended => is_standing config = true → shutting_down (ConnectionPool.inner p) = true
  | _ => True
  end.
Lemma task_later x p p' t : quiet x p p' → woken p p' → Some (PriorityMaintenanceTask.addr t) ≠ x → task_ok p t → task_ok p' t.
Proof.
  intros [Hq Hd] [Hle Hn] Hx (Ha & Hc & Hs). split_and!; [done..|]. destruct (PriorityMaintenanceTask.stage t) as [| | |c|v|v s| |seen|seen fb|r|u|]; try done; [by auto|lia| |by auto].
  destruct Hs as [Hseen Hs]. split; [lia|]. intros Hst Hw. destruct Hq as [?|[Hw' Hq]]; [lia|]. destruct (Hn Hw') as [_ Ht]. specialize (Ht (Some (PriorityMaintenanceTask.addr t))).
  rewrite <-!priority_total_eq in Ht. destruct (Hs Hst) as [Hi|Hi]; [lia|left|right; lia]. by rewrite Hq.
Qed.

(** No idle connection of the address, no room in its budget, and none to evict but those used
    since [since] *)
Definition asleep (addr since : Z) (i : PoolInner.t) : Prop :=
  let pr := is_priority_addr config addr in
  Forall (λ e, PoolEntry.addr e ≠ addr ∧ (pr = false → PoolEntry.is_priority e = false → since ≤ PoolEntry.last_used e)) (idle i) ∧
  cap config (slot pr addr) ≤ total (slot pr addr) i.
(** The deadline of a caller is not before its timeout *)
Definition dated (g : Getter.t) (deadline : Z) : Prop := ∃ t, Getter.timeout g = Some t ∧ Getter.called g + t ≤ deadline.
Definition getter_ok (now : Z) (p : ConnectionPool.t) (g : Getter.t) : Prop :=
  Getter.called g ≤ now ∧
  match Getter.stage g with
  | GetStage.Final => ∃ t, Getter.timeout g = Some t ∧ instant_max < now + t
  | GetStage.Registering d _ => dated g d
  | GetStage.Inspecting d waited seen => dated g d ∧ seen ≤ ConnectionPool.wakes p
  | GetStage.Waiting d seen => dated g d ∧ seen ≤ ConnectionPool.wakes p ∧
      (ConnectionPool.wakes p = seen → ∃ since, Getter.called g ≤ since ≤ now ∧ asleep (Getter.addr g) since (ConnectionPool.inner p))
  | GetStage.Returned (Some PoolError.ShuttingDown) => shutting_down (ConnectionPool.inner p) = true
  | GetStage.Returned (Some PoolError.Timeout) => ∃ t, Getter.timeout g = Some t ∧ (Getter.called g + t ≤ now ∨ instant_max < now + t)
  | GetStage.Returned (Some PoolError.Exhausted) => Getter.timeout g = None
  | _ => True
  end.
Lemma asleep_no_news addr since i i' : no_news i i' → asleep addr since i → asleep addr since i'.
Proof.
  intros [Hi Ht] [Hw Hc]. split; [|specialize (Ht (slot (is_priority_addr config addr) addr)); lia].
  apply Forall_forall. intros e He. rewrite Forall_forall in Hw. apply Hw. by eapply elem_of_submseteq.
Qed.
Lemma getter_later x now now' p p' g : quiet x p p' → woken p p' → now ≤ now' → getter_ok now p g → getter_ok now' p' g.
Proof.
  intros [_ Hd] [Hle Hn] Hnow [Hg Hs]. split; [lia|]. destruct (Getter.stage g) as [| | |d b|d b seen|d seen|r|[[]|]|]; try done.
  - destruct Hs as (t & ? & ?). exists t. split; [done|lia].
  - destruct Hs. split; [done|lia].
  - destruct Hs as (? & Hseen & Hs). split_and!; [done|lia|]. intros Hw. destruct Hs as (since & ? & Ha); [lia|]. exists since. split; [lia|].
    eapply asleep_no_news; [|done]. apply Hn. lia.
  - destruct Hs as (t & ? & ?). exists t. split; [done|lia].
  - by auto.
Qed.

(** ** Steps of a task *)
Definition moved (p : ConnectionPool.t) (n : Z) '(mk _ _ tc t s h a ts o cs c co gs cl hs) : PoolWorld.t := mk p n tc t s h a ts o cs c co gs cl hs.
Lemma acting_moves {A} x (m : ST ConnectionPool.t Empty_set A) w Q QE : moves m (pool w) Q QE → quietly x m →
  ∃ a p, acting m w = Ok (a, moved p (next_conn w) w) ∧ woken (pool w) p ∧ quiet x (pool w) p ∧ Q a (ConnectionPool.inner p).
Proof.
  intros Hm Hq. specialize (Hq (pool w)). unfold moves in Hm. unfold acting. destruct (m (pool w)) as [[a|[]| |] p] eqn:He; try done.
  destruct Hm. exists a, p. split_and!; [by destruct w|done..].
Qed.
(** The outcome of a step of the task [t], where [rest] is held by others *)
Definition task_outcome (w : PoolWorld.t) (t : Task) (rest : list holder) (r : res unit (Task * PoolWorld.t)) : Prop :=
  match r with
  | Ok (t', w') => ∃ p n, w' = moved p n w ∧ woken (pool w) p ∧ quiet (Some (PriorityMaintenanceTask.addr t)) (pool w) p ∧
      PriorityMaintenanceTask.addr t' = PriorityMaintenanceTask.addr t ∧ task_ok p t' ∧
      Inv (task_holds t' ++ rest) n (touched w) (ConnectionPool.inner p)
  | Err _ => True
  | Panic | OutOfFuel => False
  end.
(** A step that leaves the pool alone *)
Lemma task_idles w t t' rest : PriorityMaintenanceTask.addr t' = PriorityMaintenanceTask.addr t → task_ok (pool w) t' → task_holds t' = task_holds t →
  Inv (task_holds t ++ rest) (next_conn w) (touched w) (inner w) → task_outcome w t rest (Ok (t', w)).
Proof. intros Ha Ht Hh HI. exists (pool w), (next_conn w). rewrite Hh. split_and!; try done. by destruct w. Qed.
Lemma inv_next hs n tc i : Inv hs n tc i → Inv hs (n + 1) tc i.
Proof. intros [? ?]. split; [by apply ledger_next|done]. Qed.
Lemma next_probe_fields now t : PriorityMaintenanceTask.addr (next_priority_probe_deadline instant_max now t) = PriorityMaintenanceTask.addr t ∧
  PriorityMaintenanceTask.cap (next_priority_probe_deadline instant_max now t) = PriorityMaintenanceTask.cap t.
Proof. by destruct t. Qed.

Lemma task_connect_outcome w c r t rest : PriorityMaintenanceTask.stage t = MaintenanceStage.Connecting r → task_ok (pool w) t → (stop w = true → shutting_down (inner w) = true) →
  Inv (task_holds t ++ rest) (next_conn w) (touched w) (inner w) →
  match c with Some (inl conn) => conn = next_conn w | None => stop w = true | _ => True end →
  task_outcome w t rest (task_connect config c r t (match c with Some (inl _) => connected w | _ => w end)).
Proof.
  intros Hst (Ha & Hc & _) Hstop HI Hconn. unfold task_holds in HI. rewrite Hst in HI. cbn [app] in HI. destruct HI as [Hl Hok]. apply Forall_cons in Hok as [(a & -> & Hpa) Hok].
  cbn [mbind list_bind charges owned app] in Hl.
  set (w1 := match c with Some (inl _) => connected w | _ => w end). set (n1 := match c with Some (inl _) => next_conn w + 1 | _ => next_conn w end).
  assert (pool w1 = pool w ∧ stop w1 = stop w ∧ ∀ p, moved p (next_conn w1) w1 = moved p n1 w) as (Hp1 & Hs1 & Hm1) by by destruct w, c as [[?|?]|].
  assert (moves (maintenance_connect (E := Empty_set) (now w1) c (stop w1) (PendingReservation.new a true None)) (pool w1)
    (λ o i, Inv rest n1 (touched w) i ∧ (o = PriorityConnectOutcome.Stopped → stop w = true)) (λ _ _, True)) as Hmoves.
  { rewrite Hp1, Hs1. unfold maintenance_connect, n1. destruct c as [[conn|te]|].
    - subst conn. destruct (stop w); apply moves_bind.
      + eapply moves_then; [by eapply moves_reservation_drop|]. intros ? j Hl' wk. apply moves_ret. split; [|done]. split; [by apply ledger_next|done].
      + eapply moves_then; [eapply moves_commit_idle; [by unfold entry_ok|done..|exact Hl]|]. intros ? j Hl' wk. by apply moves_ret.
    - apply moves_bind. eapply moves_then; [by eapply moves_reservation_fail|]. intros ? j Hl' wk. by apply moves_ret.
    - apply moves_bind. eapply moves_then; [by eapply moves_reservation_drop|]. intros ? j Hl' wk. by apply moves_ret. }
  destruct (acting_moves (Some (PriorityMaintenanceTask.addr t)) _ w1 _ _ Hmoves ltac:(apply quietly_maintenance_connect)) as (o & p & He & Hw & Hq & HI' & Ho).
  unfold task_connect. rewrite He, Hm1. cbn [rbind]. rewrite Hp1 in *.
  assert (∀ t', PriorityMaintenanceTask.addr t' = PriorityMaintenanceTask.addr t → PriorityMaintenanceTask.cap t' = PriorityMaintenanceTask.cap t →
    match PriorityMaintenanceTask.stage t' with MaintenanceStage.Top | MaintenanceStage.BackingOff _ => True | MaintenanceStage.Ended => is_standing config = true → o = PriorityConnectOutcome.Stopped | _ => False end →
    task_outcome w t rest (Ok (t', moved p n1 w))) as Hto.
  { intros t' Ht' Hc' Hs'. exists p, n1. split_and!; try done.
    - split_and!; [by rewrite Ht'|by rewrite Hc', Ht'|]. destruct (PriorityMaintenanceTask.stage t'); try done. intros Hst'. destruct Hq as [_ Hq]. by apply Hq, Hstop, Ho, Hs'.
    - unfold task_holds. by destruct (PriorityMaintenanceTask.stage t'). }
  destruct o.
  - apply Hto; by destruct t.
  - destruct t as [ta tc tp tu td tb ts]. destruct (is_standing config) eqn:Hsta; cbn [negb]; [by apply Hto|]. apply Hto; [done..|]. cbn. by destruct (negb _).
  - destruct t as [ta tc tp tu td tb ts]. cbn -[task_outcome]. by apply Hto.
Qed.
Lemma next_action_outcome w seen t rest : PriorityMaintenanceTask.stage t = MaintenanceStage.Inspecting seen → task_ok (pool w) t →
  Inv (task_holds t ++ rest) (next_conn w) (touched w) (inner w) → task_outcome w t rest (next_action config seen t w).
Proof.
  intros Hst (Ha & Hc & Hs) HI. rewrite Hst in Hs. unfold task_holds in HI. rewrite Hst in HI. cbn [app] in HI. unfold next_action.
  destruct (is_standing config || PriorityMaintenanceTask.warm_up_pending t) eqn:Hb.
  - rewrite Hc. pose proof HI as [Hl Hok].
    pose proof (moves_maintenance config (λ (_ : Empty_set) _, True) _ _ _ _ (pool w) Hl (PriorityMaintenanceTask.addr t) Ha) as Hm.
    destruct (acting_moves (Some (PriorityMaintenanceTask.addr t)) _ w _ _ Hm ltac:(apply quietly_reserve)) as (o & p & He & Hw & Hq & Ho). rewrite He. cbn [rbind].
    unfold reserve_priority_maintenance, acting, locked in He. destruct (shutting_down (ConnectionPool.inner (pool w))) eqn:Hd;
      [|destruct (negb (priority_idle_count (PriorityMaintenanceTask.addr t) (ConnectionPool.inner (pool w)) =? 0) ||
          (priority_cap config (PriorityMaintenanceTask.addr t) <=? priority_total (PriorityMaintenanceTask.addr t) (ConnectionPool.inner (pool w)))) eqn:Hfull];
      injection He as <- Heq; cbn in Heq.
    + assert (p = pool w) as -> by (destruct w as [[] ]; cbn in *; congruence). exists (pool w), (next_conn w).
      split_and!; [done..|by destruct t|by destruct t; unfold task_ok; cbn in *; split_and!|by destruct t].
    + assert (p = pool w) as -> by (destruct w as [[] ]; cbn in *; congruence). exists (pool w), (next_conn w). unfold await_change. destruct (is_standing config) eqn:Hsta; cbn [negb andb].
      * assert (stocked t (inner w)) as Hstock by (unfold stocked, inner; rewrite Hc; apply orb_true_iff in Hfull as [Hf|Hf]; [left|right]; lia).
        split_and!; [done..|by destruct t|by destruct t; unfold task_ok; cbn in *; split_and!|by destruct t].
      * split_and!; [done..|by destruct t| |by unfold task_holds; destruct t; cbn; destruct (PriorityMaintenanceTask.probe_enabled _)]. unfold task_ok. destruct t; cbn in *. destruct (PriorityMaintenanceTask.probe_enabled _); cbn; split_and!; (done || congruence).
    + destruct Ho as [Hr Hl']. simplify_eq. exists p, (next_conn w). split_and!; [done..|by destruct t|by destruct t|]. destruct t; cbn. split; [done|]. constructor; [by eexists|done].
  - apply orb_false_iff in Hb as [Hsta Hu]. exists (pool w), (next_conn w). unfold await_change. rewrite Hsta. cbn [negb andb]. split_and!; [by destruct w|done|done|by destruct t| |by unfold task_holds; destruct t; cbn; destruct (PriorityMaintenanceTask.probe_enabled _)].
    unfold task_ok. destruct t; cbn in *. destruct (PriorityMaintenanceTask.probe_enabled _); cbn; split_and!; (done || congruence).
Qed.
Lemma maintenance_ends w t rest : PriorityMaintenanceTask.stage t ≠ MaintenanceStage.Ended → task_ok (pool w) t → task_holds t = [] → (stop w = true → shutting_down (inner w) = true) →
  stop w = true → Inv (task_holds t ++ rest) (next_conn w) (touched w) (inner w) →
  task_outcome w t rest (Ok (PriorityMaintenanceTask.at_stage MaintenanceStage.Ended t, w)).
Proof.
  intros _ (Ha & Hc & _) Hh Hsd Hs HI. apply task_idles; [by destruct t| |by destruct t|done]. destruct t. split_and!; [done..|]. intros _. by apply Hsd.
Qed.
Lemma task_goes w t s rest : task_ok (pool w) t → task_holds (PriorityMaintenanceTask.at_stage s t) = task_holds t →
  match s with MaintenanceStage.Top | MaintenanceStage.Claiming | MaintenanceStage.Probing _ | MaintenanceStage.Registering => True
             | MaintenanceStage.Returning _ stopped => stopped = true → shutting_down (inner w) = true
             | MaintenanceStage.Inspecting seen => seen = wakes w | _ => False end →
  Inv (task_holds t ++ rest) (next_conn w) (touched w) (inner w) → task_outcome w t rest (Ok (PriorityMaintenanceTask.at_stage s t, w)).
Proof.
  intros (Ha & Hc & _) Hh Hs HI. apply task_idles; [by destruct t| |done|done]. destruct t. split_and!; [done..|]. destruct s; try done. cbn. rewrite Hs. unfold wakes. lia.
Qed.
Lemma task_claims obs w t rest : PriorityMaintenanceTask.stage t = MaintenanceStage.Claiming → task_ok (pool w) t → (stop w = true → shutting_down (inner w) = true) →
  Inv (task_holds t ++ rest) (next_conn w) (touched w) (inner w) → task_outcome w t rest (maintain config instant_max (TaskClaimed obs) t w).
Proof.
  intros Hst (Ha & Hc & _) Hstop HI. unfold maintain. rewrite Hst. unfold task_holds in HI. rewrite Hst in HI. cbn [app] in HI. pose proof HI as [Hl Hok].
  pose proof (moves_probe config (λ (_ : Empty_set) _, True) _ _ _ _ (pool w) Hl obs (now w) (PriorityMaintenanceTask.addr t) (stop w)) as Hm.
  destruct (acting_moves (Some (PriorityMaintenanceTask.addr t)) _ w _ _ Hm ltac:(apply quietly_probe)) as (o & p & He & Hw & Hq & Ho). rewrite He. cbn [rbind].
  destruct o as [| |c]; exists p, (next_conn w).
  - split_and!; [done..|by destruct t| |by destruct t]. unfold task_ok. destruct t; cbn in *. split_and!; [done..|]. intros _. apply Hq.
    unfold acting, claim_priority_probe, st_get, st_bind at 1 in He. destruct (shutting_down (ConnectionPool.inner (pool w))) eqn:Hd; [done|]. destruct (stop w) eqn:Hs; [unfold inner in Hstop; by rewrite Hstop in Hd|].
    exfalso. cbn [orb] in He. unfold st_bind at 1 in He. destruct (checkout _ _ _ (pool w)) as [[[[e|] rs]| | |] p1]; cbn in He; try done;
      unfold st_bind, finish_passive_retirements in He; destruct (is_empty rs); cbn in He; done.
  - destruct (next_probe_fields (now (moved p (next_conn w) w)) t). split_and!; [done..| | |]; destruct t; [done| |done]. by split_and!.
  - destruct Ho as (e & -> & He' & Hl'). split_and!; [done..|by destruct t| |]; destruct t; cbn in *; [split_and!; try done; by exists e|].
    split; [done|]. constructor; [|done]. cbn. by apply Forall_cons.
Qed.
Lemma maintain_outcome e w t rest : task_ok (pool w) t → (stop w = true → shutting_down (inner w) = true) →
  Inv (task_holds t ++ rest) (next_conn w) (touched w) (inner w) → task_outcome w t rest (maintain config instant_max e t w).
Proof.
  intros Ht Hstop HI. destruct (PriorityMaintenanceTask.stage t) as [| | |c|v|v s| |seen|seen fb|r|u|] eqn:Hst; destruct e as [| |obs| |ok| |verdict| | | | | |te|];
    try (unfold maintain; rewrite Hst; exact I); try (by apply task_claims); unfold maintain; rewrite Hst.
  - apply task_idles; [by destruct t| |destruct t; cbn in *; by subst|done]. destruct Ht as (? & ? & _). destruct t. by split_and!.
  - assert (task_holds t = []) as Hh by (unfold task_holds; by rewrite Hst). destruct (stop w) eqn:Hs; [apply maintenance_ends; auto; congruence|].
    destruct (priority_probe_is_due (now w) t); (apply task_goes; [done| |done|done]); rewrite Hh; by destruct t.
  - destruct Ht as (Ha & Hc & Hs). rewrite Hst in Hs. destruct Hs as [e ->]. cbn. exists (pool w), (next_conn w). destruct HI as [Hl Hok].
    unfold task_holds in Hl, Hok. rewrite Hst in Hl, Hok. apply Forall_cons in Hok as [Hh Hok]. cbn in Hh. apply Forall_cons in Hh as [He _]. unfold entry_ok in He.
    destruct t; cbn in *. split_and!; [by destruct w|done..| |]; [by split_and!|]. split; [done|]. constructor; [|done]. cbn. destruct e as [a cn lu pr]. cbn in *. subst pr. by exists cn, a.
  - apply task_goes; [done| |done|done]. destruct t; cbn in *. by subst.
  - destruct (stop w); [|exact I]. apply task_goes; [done| |by intros _; apply Hstop|done]. destruct t; cbn in *. by subst.
  - destruct Ht as (Ha & Hc & Hs). rewrite Hst in Hs. unfold task_holds in HI. rewrite Hst in HI. destruct HI as [Hl Hok]. apply Forall_cons in Hok as [Hh Hok].
    pose proof (moves_session_return config (λ (_ : Empty_set) _, True) (now w) verdict v rest (next_conn w) (touched w) (pool w) Hh Hl) as Hm.
    destruct (acting_moves (Some (PriorityMaintenanceTask.addr t)) _ w _ _ Hm ltac:(apply quietly_session)) as (o & p & He & Hw & Hq & Ho). rewrite He. cbn [rbind].
    destruct s; exists p, (next_conn w); (split_and!; [done..|by destruct t| |by destruct t]); destruct t; cbn in *; unfold task_ok; cbn; split_and!; try done. intros _. apply Hq. by apply Hs.
  - apply task_goes; [done| |done|done]. destruct t; cbn in *. by subst.
  - by apply next_action_outcome.
  - destruct (_ || _); [|exact I]. apply task_goes; [done| |done|done]. destruct t; cbn in *. by subst.
  - destruct (stop w) eqn:Hs; [|exact I]. apply maintenance_ends; auto; [congruence|unfold task_holds; by rewrite Hst].
  - destruct (stop w) eqn:Hs; [|exact I]. by apply (task_connect_outcome w None); auto.
  - by apply (task_connect_outcome w (Some (inl (next_conn w)))).
  - by apply (task_connect_outcome w (Some (inr te))).
  - destruct (stop w) eqn:Hs; [|exact I]. apply maintenance_ends; auto; [congruence|unfold task_holds; by rewrite Hst].
  - destruct (u <=? now w); [|exact I]. apply task_goes; [done| |done|done]. destruct t; cbn in *. by subst.
Qed.

(** ** Steps of a caller of [get] *)
Definition taking (new : list holder) '(mk p n tc t s h a ts o cs c co gs cl hs) : PoolWorld.t := mk p n tc t s h a ts o cs c co gs cl (new ++ hs).
Definition same_call (g g' : Getter.t) : Prop :=
  Getter.addr g' = Getter.addr g ∧ Getter.timeout g' = Getter.timeout g ∧ Getter.called g' = Getter.called g.
(** Where [rest] is held by others: [new] goes to the caller *)
Definition getter_outcome (w : PoolWorld.t) (g : Getter.t) (rest : list holder) (r : res unit (Getter.t * PoolWorld.t)) : Prop :=
  match r with
  | Ok (g', w') => ∃ p n new, w' = taking new (moved p n w) ∧ woken (pool w) p ∧ quiet None (pool w) p ∧
      same_call g g' ∧ getter_ok (now w) p g' ∧ Inv (new ++ getter_holds g' ++ rest) n (touched w) (ConnectionPool.inner p)
  | Err _ => True
  | Panic | OutOfFuel => False
  end.
Lemma getter_idles w g s rest : getter_holds (Getter.at_stage s g) = getter_holds g → getter_ok (now w) (pool w) (Getter.at_stage s g) →
  Inv (getter_holds g ++ rest) (next_conn w) (touched w) (inner w) → getter_outcome w g rest (Ok (Getter.at_stage s g, w)).
Proof. intros Hh Hg HI. exists (pool w), (next_conn w), []. rewrite Hh. split_and!; try done; [by destruct w|by destruct g]. Qed.
Lemma acquires_none obs now addr i i' : acquires config obs now addr i None i' → asleep addr now i'.
Proof.
  intros Ha. inversion Ha as [|rs rest r j Ht Hr Ho]; subst. destruct r as [r|]; [done|]. inversion Hr as [| |Hc Hf]; subst. split; [|done].
  destruct Ht as [_ Hno _]. rewrite idle_checked_out in *. apply Forall_forall. intros e He. rewrite Forall_forall in Hno. specialize (Hno e He). cbn in Hno.
  split; [lia|]. intros Hpr. specialize (Hf Hpr). rewrite Forall_forall in Hf. by apply Hf.
Qed.
Lemma attempt_outcome w g rest none obs : getter_holds g = [] → getter_holds (Getter.at_stage none g) = [] → getter_ok (now w) (pool w) g →
  (∀ p, woken (pool w) p → asleep (Getter.addr g) (now w) (ConnectionPool.inner p) → getter_ok (now w) p (Getter.at_stage none g)) →
  Inv rest (next_conn w) (touched w) (inner w) →
  getter_outcome w g rest (attempted (attempt_acquire config obs (now w) (Getter.addr g) (pool w)) none g w).
Proof.
  intros Hh Hn Hg Hnone HI. pose proof (quietly_attempt config obs (now w) (Getter.addr g) (pool w)) as Hq.
  destruct (shutting_down (ConnectionPool.inner (pool w))) eqn:Hd.
  - assert (attempt_acquire config obs (now w) (Getter.addr g) (pool w) = (Err PoolError.ShuttingDown, pool w)) as ->
      by (unfold attempt_acquire, st_get, st_bind at 1; by rewrite Hd).
    exists (pool w), (next_conn w), []. split_and!; try done; [by destruct w|by destruct g|destruct g; split; [apply Hg|done]|by destruct g].
  - destruct (attempt_acquire_spec config obs (now w) (Getter.addr g) (pool w) Hd) as (r & p & Hr & Hw & Ha). rewrite Hr in *. cbn [snd] in Hq.
    destruct r as [[c|r]|]; cbn [attempted].
    + pose proof (inv_acquired config rest _ _ _ _ _ _ _ _ Ha HI) as HI'. exists p, (next_conn w), [Lease c].
      split_and!; try done; [by destruct w|by destruct g|destruct g; split; [apply Hg|done]|by destruct g].
    + pose proof (inv_acquired config rest _ _ _ _ _ _ _ _ Ha HI) as HI'. exists p, (next_conn w), [].
      split_and!; try done; [by destruct w|by destruct g|destruct g; split; [apply Hg|done]|by destruct g].
    + exists p, (next_conn w), []. rewrite Hn. split_and!; try done; [by destruct w|by destruct g|apply Hnone; [done|by eapply acquires_none]|].
      destruct HI as [Hl Hok]. split; [|done]. by eapply ledger_acquires in Ha.
Qed.
Lemma finish_outcome w g r c rest : Getter.stage g = GetStage.Connecting r → getter_ok (now w) (pool w) g → Inv (getter_holds g ++ rest) (next_conn w) (touched w) (inner w) →
  match c with inl conn => conn = next_conn w | inr _ => True end →
  getter_outcome w g rest (finished (finish_acquisition (now w) c (Acquisition.Reserved r) (pool w)) g (match c with inl _ => connected w | inr _ => w end)).
Proof.
  intros Hst Hg HI Hc. unfold getter_holds in HI. rewrite Hst in HI. destruct HI as [Hl Hok]. apply Forall_cons in Hok as [(Hcm & Hp & Hev) Hok]. cbn [mbind list_bind charges owned app] in Hl.
  assert (moves (finish_acquisition (now w) c (Acquisition.Reserved r)) (pool w)
    (λ c' i, Inv (Lease c' :: rest) (next_conn w + 1) (touched w) i ∧ ∃ conn, c = inl conn)
    (λ e i, Inv rest (next_conn w) (touched w) i ∧ ∃ te, c = inr te ∧ e = PoolError.ConnectionFailed te)) as Hm.
  { destruct c as [conn|te].
    - subst conn. eapply moves_mono; [by apply (moves_commit config (λ (_ : PoolError.t) _, False))| |done]. intros c' i [-> Hl']. split; [|by eexists]. split; [done|]. constructor; [by repeat constructor|done].
    - apply moves_bind. eapply moves_then; [by apply moves_reservation_fail|]. intros ? j Hl' wk. apply moves_err. split; [done|by eexists]. }
  pose proof (quietly_finish (now w) c r (pool w)) as Hq. unfold moves in Hm.
  destruct (finish_acquisition (now w) c (Acquisition.Reserved r) (pool w)) as [[c'|e| |] p]; try done; cbn [snd finished] in *.
  - destruct Hm as (Hw & HI & conn & ->). exists p, (next_conn w + 1), [Lease c']. split_and!; try done; [by destruct w|by destruct g|destruct g; split; [apply Hg|done]|by destruct g].
  - destruct Hm as (Hw & HI & te & -> & ->). exists p, (next_conn w), []. split_and!; try done; [by destruct w|by destruct g|destruct g; split; [apply Hg|done]|by destruct g].
Qed.
Lemma get_outcome e w g rest : getter_ok (now w) (pool w) g → Inv (getter_holds g ++ rest) (next_conn w) (touched w) (inner w) →
  getter_outcome w g rest (get_step config instant_max e g w).
Proof.
  intros Hg HI. unfold get_step. destruct (Getter.stage g) as [| | |d b|d b seen|d seen|r|err|] eqn:Hst; destruct e as [obs| | |obs| | | |te|]; try exact I;
    try (assert (getter_holds g = []) as Hh by (unfold getter_holds; by rewrite Hst)); pose proof Hg as [Hcalled Hs]; rewrite Hst in Hs.
  - rewrite Hh in HI. destruct (Getter.timeout g) as [t|] eqn:Ht.
    + apply attempt_outcome; try done; [by destruct g|]. intros p _ _. destruct g. by split.
    + assert (∀ a, match acquire_immediate config obs (now w) (Getter.addr g) (pool w) with
        | (Ok a, p) => attempted (Ok (Some a), p) GetStage.Dropped g w | (Err e, p) => attempted (Err e, p) GetStage.Dropped g w
        | (Panic, _) => Panic | (OutOfFuel, _) => OutOfFuel end = attempted a (GetStage.Returned (Some PoolError.Exhausted)) g w →
        getter_outcome w g rest (attempted a (GetStage.Returned (Some PoolError.Exhausted)) g w) → getter_outcome w g rest
        match acquire_immediate config obs (now w) (Getter.addr g) (pool w) with
        | (Ok a, p) => attempted (Ok (Some a), p) GetStage.Dropped g w | (Err e, p) => attempted (Err e, p) GetStage.Dropped g w
        | (Panic, _) => Panic | (OutOfFuel, _) => OutOfFuel end) as Hsame by (by intros ? ->).
      apply (Hsame (attempt_acquire config obs (now w) (Getter.addr g) (pool w))); [|apply attempt_outcome; try done; [by destruct g|]].
      * unfold acquire_immediate, st_bind. by destruct (attempt_acquire config obs (now w) (Getter.addr g) (pool w)) as [[[[c|r]|]|e| |] p].
      * intros p _ _. destruct g. by split.
  - by apply getter_idles; [destruct g|destruct g; split|].
  - destruct (Getter.timeout g) as [t|] eqn:Ht; [|exact I]. unfold checked_add. destruct (now w + t <=? instant_max) eqn:Hle.
    + apply getter_idles; [by rewrite Hh; destruct g| |done]. destruct g. split; [done|]. exists t. cbn in *. split; [done|lia].
    + apply getter_idles; [by rewrite Hh; destruct g| |done]. destruct g. split; [done|]. exists t. cbn in *. split; [done|lia].
  - by apply getter_idles; [destruct g|destruct g; split|].
  - rewrite Hh in HI. apply attempt_outcome; try done; [by destruct g|]. intros p _ _. destruct g. split; [done|]. destruct Hs as (t & ? & ?). exists t. cbn in *. split; [done|by right].
  - by apply getter_idles; [destruct g|destruct g; split|].
  - apply getter_idles; [by rewrite Hh; destruct g| |done]. destruct g. split; [done|]. cbn. split; [done|unfold wakes; lia].
  - by apply getter_idles; [destruct g|destruct g; split|].
  - rewrite Hh in HI. rewrite acquire_retry_eq. destruct (negb _ && (b && (d <=? now w))) eqn:Hto.
    + cbn [attempted]. replace (set_pool (pool w) w) with w by by destruct w.
      apply getter_idles; [by rewrite Hh; destruct g| |by rewrite Hh]. destruct g. split; [done|]. destruct Hs as [(t & ? & ?) _]. exists t. cbn in *.
      apply andb_true_iff in Hto as [_ Hto]. split; [done|left; lia].
    + apply attempt_outcome; try done; [by destruct g|]. intros p [Hle _] Has. destruct g. destruct Hs as [Hd Hseen]. split; [done|]. cbn in *. split_and!; [done|lia|]. intros _. by exists (now w).
  - by apply getter_idles; [destruct g|destruct g; split|].
  - destruct (seen <? wakes w) eqn:Hw; [|exact I]. apply getter_idles; [by rewrite Hh; destruct g| |done]. destruct g. split; [done|]. by destruct Hs as [? _].
  - destruct (d <=? now w) eqn:Hd; [|exact I]. apply getter_idles; [by rewrite Hh; destruct g| |done]. destruct g. split; [done|]. cbn in *.
    destruct (shutting_down (inner w)) eqn:Hsd; [done|]. destruct Hs as [(t & ? & ?) _]. exists t. cbn in *. split; [done|left; lia].
  - by apply getter_idles; [destruct g|destruct g; split|].
  - by apply (finish_outcome w g r (inl (next_conn w))).
  - by apply (finish_outcome w g r (inr te)).
  - unfold getter_holds in HI. rewrite Hst in HI. destruct HI as [Hl Hok]. apply Forall_cons in Hok as [(Hcm & Hp & Hev) Hok]. cbn [mbind list_bind charges owned app] in Hl.
    pose proof (moves_reservation_drop config (λ (_ : Empty_set) _, True) r (pool w) _ _ _ _ Hcm Hev Hl) as Hm.
    destruct (acting_moves None _ w _ _ Hm ltac:(apply quietly_reservation_drop)) as (o & p & He & Hw & Hq & Ho). rewrite He. cbn [rbind snd].
    exists p, (next_conn w), []. split_and!; try done; [by destruct w|by destruct g|destruct g; by split|by destruct g].
Qed.

(** ** The whole pool *)
Definition closer_ok (w : PoolWorld.t) (c : Closer.t) : Prop :=
  match c with
  | Closer.Called _ => True
  | Closer.Sealed _ => shutting_down (inner w) = true
  | Closer.Stopped _ | Closer.Claiming => stop w = true
  | Closer.Waiting => coordinator_started w = true
  | Closer.Returned waited => stop w = true ∧ (waited = true → completed w = true)
  end.
(** The first [n] tasks have ended *)
Definition joined (n : nat) (w : PoolWorld.t) : Prop := ∀ j t, (j < n)%nat → tasks w !! j = Some t → task_ended t = true.
Definition coordinator_ok (w : PoolWorld.t) : Prop :=
  owned_tasks w = negb (coordinator_started w) ∧ (coordinator_started w = true → stop w = true ∧ health_aborted w = true) ∧
  match coordinator w with
  | Coordinator.Unspawned => coordinator_started w = false ∧ completed w = false
  | Coordinator.JoiningHealth => coordinator_started w = true ∧ completed w = false
  | Coordinator.JoiningTask k => coordinator_started w = true ∧ completed w = false ∧ HealthTask.over (health w) = true ∧ joined k w
  | Coordinator.Completed => coordinator_started w = true ∧ completed w = true ∧ HealthTask.over (health w) = true ∧ joined (length (tasks w)) w
  end.
Record PoolInv (w : PoolWorld.t) : Prop := {
  pi_books : Inv (all_holders w) (next_conn w) (touched w) (inner w);
  pi_addrs : NoDup (map PriorityMaintenanceTask.addr (tasks w));
  pi_tasks : Forall (task_ok (pool w)) (tasks w);
  pi_getters : Forall (getter_ok (now w) (pool w)) (getters w);
  pi_stop : stop w = true → shutting_down (inner w) = true;
  pi_closers : Forall (closer_ok w) (closers w);
  pi_coordinator : coordinator_ok w
}.
Definition pool_outcome (r : res unit PoolWorld.t) : Prop :=
  match r with Ok w => PoolInv w | Err _ => True | Panic | OutOfFuel => False end.

Lemma inv_perm hs hs' n tc i : hs ≡ₚ hs' → Inv hs n tc i → Inv hs' n tc i.
Proof. intros Hp [Hl Hok]. split; [|by rewrite <-Hp]. eapply ledger_perm; [| |exact Hl]; by rewrite Hp. Qed.
Lemma insert_perm {A} (l : list A) i x y : l !! i = Some x → <[i:=y]> l ≡ₚ y :: delete i l.
Proof.
  intros Hi. pose proof (lookup_lt_Some _ _ _ Hi). rewrite insert_take_drop by done. rewrite delete_take_drop. by rewrite Permutation_middle.
Qed.
(** The same closers, and a pool that goes on *)
Lemma closers_later w w' : (shutting_down (inner w) = true → shutting_down (inner w') = true) → (stop w = true → stop w' = true) →
  (coordinator_started w = true → coordinator_started w' = true) → (completed w = true → completed w' = true) →
  Forall (closer_ok w) (closers w) → Forall (closer_ok w') (closers w).
Proof. intros Hd Hs Hc Hco Hf. eapply Forall_impl; [exact Hf|]. intros [b|b|b| | |b]; cbn; try by auto. intros [? ?]. split; auto. Qed.
Lemma joined_insert n i t w ts : tasks w !! i = Some t → task_ended t = false → joined n w →
  ∀ t' j u, (j < n)%nat → <[i:=t']> (tasks w) !! j = Some u → ts = tasks w → task_ended u = true.
Proof.
  intros Hi He Hj t' j u Hlt Hu ->. destruct (decide (i = j)) as [->|Hne]; [|rewrite list_lookup_insert_ne in Hu by done; by eapply Hj].
  rewrite (Hj j t Hlt Hi) in He. done.
Qed.
Lemma maintain_not_ended e t w r : maintain config instant_max e t w = Ok r → task_ended t = false.
Proof. unfold maintain, task_ended. by destruct e, (PriorityMaintenanceTask.stage t). Qed.
Lemma maintained_outcome w i t e : PoolInv w → tasks w !! i = Some t →
  task_outcome w t (held w ++ (getters w ≫= getter_holds) ++ (delete i (tasks w) ≫= task_holds)) (maintain config instant_max e t w).
Proof.
  intros [Hb _ Ht _ Hs _ _] Hi. apply maintain_outcome; [by apply (proj1 (Forall_lookup _ _) Ht i)|done|]. eapply inv_perm; [|exact Hb].
  unfold all_holders. rewrite (delete_Permutation _ _ _ Hi) at 1. cbn [mbind list_bind]. solve_Permutation.
Qed.
Lemma task_step_ok w i e : PoolInv w → pool_outcome (pool_exec config instant_max (Maintained i e) w).
Proof.
  intros HI. pose proof HI as [Hb Ha Ht Hg Hs Hc Hco]. cbn [pool_exec]. destruct (tasks w !! i) as [t|] eqn:Hi; [|done].
  pose proof (maintained_outcome w i t e HI Hi) as Ho. destruct (maintain config instant_max e t w) as [[t' w']|[]| |] eqn:Hm; try done. cbn [rbind fst snd].
  destruct Ho as (p & n & -> & Hw & Hq & Had & Ht' & HI'). apply maintain_not_ended in Hm.
  destruct w as [p0 n0 tc nw st hl ab ts ow cs cmp co gs cl hs]. cbn in *. split; cbn; try done.
  - eapply inv_perm; [|exact HI']. unfold all_holders. cbn. rewrite (insert_perm _ _ _ t' Hi). cbn [mbind list_bind]. solve_Permutation.
  - rewrite list_fmap_insert, Had, list_insert_id; [done|]. by rewrite list_lookup_fmap, Hi.
  - apply Forall_lookup. intros j u Hu. destruct (decide (i = j)) as [->|Hne].
    + rewrite list_lookup_insert_eq in Hu by by eapply lookup_lt_Some. by injection Hu as <-.
    + rewrite list_lookup_insert_ne in Hu by done. eapply (task_later (Some (PriorityMaintenanceTask.addr t)) p0 p); [done|done| |by apply (proj1 (Forall_lookup _ _) Ht j)].
      intros [= Heq]. apply Hne. eapply NoDup_lookup; [exact Ha|..]; rewrite list_lookup_fmap; [rewrite Hi|rewrite Hu]; cbn; by rewrite ?Heq.
  - eapply Forall_impl; [exact Hg|]. intros g. by eapply getter_later.
  - intros Hst. by apply Hq, Hs.
  - refine (closers_later (mk p0 n0 tc nw st hl ab ts ow cs cmp co gs cl hs) _ _ _ _ _ Hc); cbn; try done. apply Hq.
  - destruct Hco as (H1 & H2 & H3). split_and!; [done..|]. cbn in *. destruct co; try done; destruct H3 as (? & ? & ? & Hj); split_and!; try done;
      intros j u Hlt Hu; cbn in *; rewrite ?length_insert in Hlt; eapply (joined_insert _ i t (mk p0 n0 tc nw st hl ab ts ow cs cmp Coordinator.Completed gs cl hs)); eauto.
Qed.
(** Others go on while the pool changes without a word about the idle connections of devices *)
Lemma tasks_later p p' ts : quiet None p p' → woken p p' → Forall (task_ok p) ts → Forall (task_ok p') ts.
Proof. intros Hq Hw Hf. eapply Forall_impl; [exact Hf|]. intros t. by eapply task_later. Qed.
Lemma getters_later x n n' p p' gs : quiet x p p' → woken p p' → n ≤ n' → Forall (getter_ok n p) gs → Forall (getter_ok n' p') gs.
Proof. intros Hq Hw Hn Hf. eapply Forall_impl; [exact Hf|]. intros g. by eapply getter_later. Qed.
Lemma getter_step_ok w i e : PoolInv w → pool_outcome (pool_exec config instant_max (Getting i e) w).
Proof.
  intros [Hb Ha Ht Hg Hs Hc Hco]. cbn [pool_exec]. destruct (getters w !! i) as [g|] eqn:Hi; [|done].
  pose proof (proj1 (Forall_lookup _ _) Hg _ _ Hi) as Hgi.
  assert (Inv (getter_holds g ++ (held w ++ (delete i (getters w) ≫= getter_holds) ++ (tasks w ≫= task_holds))) (next_conn w) (touched w) (inner w)) as HI.
  { eapply inv_perm; [|exact Hb]. unfold all_holders. rewrite (delete_Permutation _ _ _ Hi) at 1. cbn [mbind list_bind]. solve_Permutation. }
  pose proof (get_outcome e w g _ Hgi HI) as Ho. destruct (get_step config instant_max e g w) as [[g' w']|[]| |]; try done. cbn [rbind fst snd].
  destruct Ho as (p & n & new & -> & Hw & Hq & _ & Hg' & HI').
  destruct w as [p0 n0 tc nw st hl ab ts ow cs cmp co gs cl hs]. cbn in *. split; cbn; try done.
  - eapply inv_perm; [|exact HI']. unfold all_holders. cbn. rewrite (insert_perm _ _ _ g' Hi). cbn [mbind list_bind]. solve_Permutation.
  - by eapply tasks_later.
  - apply Forall_insert; [|done]. by eapply getters_later.
  - intros Hst. by apply Hq, Hs.
  - refine (closers_later (mk p0 n0 tc nw st hl ab ts ow cs cmp co gs cl hs) _ _ _ _ _ Hc); cbn; try done. apply Hq.
Qed.
Lemma held_step_ok w e : PoolInv w → pool_outcome (pool_exec config instant_max (Held e) w).
Proof.
  intros [Hb Ha Ht Hg Hs Hc Hco]. cbn [pool_exec]. destruct (of_holder e) eqn:He; cbn [negb]; [|done].
  destruct w as [p0 n0 tc nw st hl ab ts ow cs cmp co gs cl hs]. cbn in *.
  pose proof (held_step config e p0 hs n0 tc ((gs ≫= getter_holds) ++ (ts ≫= task_holds)) He Hb) as Ho.
  destruct (exec config e (World.mk p0 hs n0 tc)) as [y|[]| |]; try done. cbn [rbind]. destruct Ho as (HI' & Hw & Hq). split; cbn; try done.
  - by eapply tasks_later.
  - by eapply getters_later.
  - intros Hst. by apply Hq, Hs.
  - refine (closers_later (mk p0 n0 tc nw st hl ab ts ow cs cmp co gs cl hs) _ _ _ _ _ Hc); cbn; try done. apply Hq.
Qed.
Lemma health_step_ok w e : PoolInv w → pool_outcome (health_step config e w).
Proof.
  intros Hw0. pose proof Hw0 as [Hb Ha Ht Hg Hs Hc Hco]. assert (∀ h, (HealthTask.over (health w) = true → HealthTask.over h = true) → PoolInv (set_health h w)) as Hset.
  { intros h Hh. destruct w as [p0 n0 tc nw st hl ab ts ow cs cmp co gs cl hs]. split; cbn in *; try done. destruct Hco as (? & ? & Hm). split_and!; [done..|]. cbn in *.
    destruct co; try done; destruct Hm as (? & ? & ? & ?); split_and!; try done; by apply Hh. }
  unfold health_step. destruct e; try done; destruct (health w) as [|next| |] eqn:Hh; try done.
  - by apply Hset.
  - destruct (negb (next <=? now w)); [done|]. destruct Hb as [Hl Hok].
    pose proof (moves_health config (λ (_ : Empty_set) _, True) _ _ _ _ (pool w) Hl obs (now w) (PoolConfig.idle_timeout config)) as Hm.
    destruct (acting_moves None _ w _ _ Hm ltac:(apply quietly_health)) as (o & p & He & Hw & Hq & Ho). rewrite He. cbn [rbind].
    destruct w as [p0 n0 tc nw st hl ab ts ow cs cmp co gs cl hs]. cbn in *. split; cbn; try done.
    + by eapply tasks_later.
    + by eapply getters_later.
    + intros Hst. by apply Hq, Hs.
    + refine (closers_later (mk p0 n0 tc nw st hl ab ts ow cs cmp co gs cl hs) _ _ _ _ _ Hc); cbn; try done. apply Hq.
    + destruct Hco as (? & ? & H3). split_and!; [done..|]. cbn in *. subst hl. destruct co; try done; by destruct H3 as (_ & _ & ? & _).
  - destruct (health_aborted w); [|done]. by apply Hset.
  - destruct (health_aborted w); [|done]. by apply Hset.
Qed.
Lemma coordinator_step_ok w : PoolInv w → pool_outcome (coordinator_join w).
Proof.
  intros [Hb Ha Ht Hg Hs Hc Hco]. destruct w as [p0 n0 tc nw st hl ab ts ow cs cmp co gs cl hs]. unfold coordinator_join. cbn in *. destruct co as [| |k|]; try done.
  - destruct (HealthTask.over hl) eqn:Hover; [|done]. split; cbn; try done. destruct Hco as (H1 & H2 & H3 & H4). split_and!; try done. cbn in *. split_and!; try done. intros j t Hj. lia.
  - destruct Hco as (H1 & H2 & H3 & H4 & H5 & H6). cbn in *. destruct (ts !! k) as [t|] eqn:Hk.
    + destruct (task_ended t) eqn:He; [|done]. split; cbn; try done. split_and!; try done. cbn in *. split_and!; try done. intros j u Hj Hu. cbn in *.
      destruct (decide (j = k)) as [->|]; [by rewrite Hk in Hu; injection Hu as <-|]. apply (H6 j u); [lia|done].
    + apply lookup_ge_None in Hk. split; cbn; try done.
      * refine (closers_later (mk p0 n0 tc nw st hl ab ts ow cs cmp (Coordinator.JoiningTask k) gs cl hs) _ _ _ _ _ Hc); done.
      * split_and!; try done. cbn in *. split_and!; try done. intros j u Hj Hu. apply (H6 j u); [cbn in *; lia|done].
Qed.
Lemma close_step_ok w i c : PoolInv w → closers w !! i = Some c → pool_outcome (close_step i c w).
Proof.
  intros Hw0 Hi. pose proof Hw0 as [Hb Ha Ht Hg Hs Hc Hco]. pose proof (proj1 (Forall_lookup _ _) Hc _ _ Hi) as Hci.
  destruct c as [b|b|b| | |b]; cbn [close_step]; cbn in Hci.
  - destruct Hb as [Hl Hok]. pose proof (moves_shutdown config (λ (_ : Empty_set) _, True) _ _ _ _ (pool w) Hl) as Hm.
    destruct (acting_moves None _ w _ _ Hm ltac:(apply quietly_shutdown)) as (o & p & He & Hw & Hq & Ho). rewrite He. cbn [rbind snd].
    assert (shutting_down (ConnectionPool.inner p) = true) as Hd.
    { clear -He. destruct w as [[[] ?] ]. unfold acting, shutdown, locked, st_bind, notify_waiters, st_modify in He. cbn in He. injection He as _ <-. done. }
    destruct w as [p0 n0 tc nw st hl ab ts ow cs cmp co gs cl hs]. cbn in *. split; cbn; try done.
    + by eapply tasks_later.
    + by eapply getters_later.
    + apply Forall_insert; [|done]. refine (closers_later (mk p0 n0 tc nw st hl ab ts ow cs cmp co gs cl hs) _ _ _ _ _ Hc); cbn; done.
  - destruct w as [p0 n0 tc nw st hl ab ts ow cs cmp co gs cl hs]. cbn in *. split; cbn; try done.
    + apply Forall_insert; [|done]. refine (closers_later (mk p0 n0 tc nw st hl ab ts ow cs cmp co gs cl hs) _ _ _ _ _ Hc); cbn; done.
    + destruct Hco as (? & H2 & ?). split_and!; try done. intros Hst. by destruct (H2 Hst).
  - destruct w as [p0 n0 tc nw st hl ab ts ow cs cmp co gs cl hs]. cbn in *. split; cbn; try done.
    + apply Forall_insert; [|by destruct b]. refine (closers_later (mk p0 n0 tc nw st hl ab ts ow cs cmp co gs cl hs) _ _ _ _ _ Hc); cbn; done.
    + destruct Hco as (? & H2 & ?). split_and!; try done. cbn in *. intros Hst. destruct (H2 Hst) as [? ->]. split; [done|by destruct ow].
  - destruct w as [p0 n0 tc nw st hl ab ts ow cs cmp co gs cl hs]. cbn in *. destruct cs.
    + split; cbn; try done. apply Forall_insert; [|done]. refine (closers_later (mk p0 n0 tc nw st hl ab ts ow true cmp co gs cl hs) _ _ _ _ _ Hc); cbn; done.
    + destruct Hco as (H1 & H2 & H3). cbn in *. subst ow. cbn [negb]. split; cbn; try done.
      * apply Forall_insert; [|done]. refine (closers_later (mk p0 n0 tc nw st hl ab ts true false cmp co gs cl hs) _ _ _ _ _ Hc); cbn; done.
      * split_and!; try done. cbn. by destruct co; destruct H3 as (? & ?).
  - destruct (completed w) eqn:Hcm; [|done]. destruct w as [p0 n0 tc nw st hl ab ts ow cs cmp co gs cl hs]. cbn in *. split; cbn; try done.
    apply Forall_insert; [refine (closers_later (mk p0 n0 tc nw st hl ab ts ow cs cmp co gs cl hs) _ _ _ _ _ Hc); cbn; done|]. split; [|done]. by apply Hco.
  - done.
Qed.
Lemma pool_exec_ok w e : PoolInv w → pool_outcome (pool_exec config instant_max e w).
Proof.
  intros Hw. destruct e as [i e|i e| |obs| | |addr timeout|b|i|e|n]; auto using task_step_ok, getter_step_ok, held_step_ok; cbn [pool_exec]; auto using health_step_ok, coordinator_step_ok.
  - pose proof Hw as [Hb Ha Ht Hg Hs Hc Hco]. destruct w as [p0 n0 tc nw st hl ab ts ow cs cmp co gs cl hs]. cbn in *. split; cbn; try done.
    + unfold all_holders in *. cbn in *. rewrite bind_app. cbn. by rewrite app_nil_r.
    + apply Forall_app. split; [done|]. apply Forall_singleton. by split.
  - pose proof Hw as [Hb Ha Ht Hg Hs Hc Hco]. destruct w as [p0 n0 tc nw st hl ab ts ow cs cmp co gs cl hs]. cbn in *. split; cbn; try done.
    apply Forall_app. split; [done|]. by apply Forall_singleton.
  - destruct (closers w !! i) as [c|] eqn:Hi; [|done]. by apply close_step_ok.
  - pose proof Hw as [Hb Ha Ht Hg Hs Hc Hco]. destruct w as [p0 n0 tc nw st hl ab ts ow cs cmp co gs cl hs]. cbn in Hg |- *. destruct ((0 <=? n) && (nw + n <=? instant_max)) eqn:Hn; [|done]. split; cbn; try done.
    apply (getters_later None nw (nw + n) p0 p0); [done..|lia|exact Hg].
Qed.
Lemma pool_run_ok es : ∀ w, PoolInv w → ∃ w', pool_run config instant_max es w = Ok w' ∧ PoolInv w'.
Proof.
  induction es as [|e es IH]; intros w Hw; [by exists w|]. cbn [pool_run]. pose proof (pool_exec_ok w e Hw) as He.
  destruct (pool_exec config instant_max e w) as [w1|[]| |]; try done; by apply IH.
Qed.

Lemma acting_returns {A} (m : ST ConnectionPool.t Empty_set A) w : acting m w ≠ Err tt.
Proof. unfold acting. by destruct (m (pool w)) as [[a|[]| |] p]. Qed.
Lemma acting_shape {A} (m : ST ConnectionPool.t Empty_set A) w a w' : acting m w = Ok (a, w') → m (pool w) = (Ok a, pool w') ∧ w' = set_pool (pool w') w.
Proof. unfold acting. destruct (m (pool w)) as [[b|[]| |] p]; try done. intros [= -> <-]. by destruct w. Qed.
(** Only the health task changes what it does *)
Lemma health_kept e w w' : PoolInv w → pool_exec config instant_max e w = Ok w' →
  match e with HealthStarted | HealthTicked _ | HealthAborted => True | _ => health w' = health w end.
Proof.
  intros HI. destruct e as [i e|i e| |obs| | |addr timeout|b|i|e|n]; try done; cbn [pool_exec].
  - destruct (tasks w !! i) as [t|] eqn:Hi; [|done]. pose proof (maintained_outcome w i t e HI Hi) as Ho.
    destruct (maintain config instant_max e t w) as [[t' w1]|[]| |] eqn:Hm; cbn [rbind]; try done. intros [= <-]. destruct Ho as (p & n & -> & _). by destruct w.
  - destruct (getters w !! i) as [g|]; [|done]. destruct (get_step config instant_max e g w) as [[g' w1]|[]| |] eqn:Hg; cbn [rbind]; try done. intros [= <-]. cbn [fst snd].
    assert (health w1 = health w) by (revert Hg; unfold get_step, attempted, finished; destruct w; repeat case_match; try done;
      try (by intros [= _ <-]); unfold acting; repeat case_match; try done; cbn; by intros [= _ <-]).
    by destruct w1.
  - unfold coordinator_join. repeat case_match; try done; intros [= <-]; by destruct w.
  - destruct w. by intros [= <-].
  - destruct w. by intros [= <-].
  - destruct (closers w !! i) as [c|]; [|done]. destruct c as [b|b|b| | |b]; cbn [close_step]; try done.
    + destruct (acting shutdown w) as [[o w1]|[]| |] eqn:Ha; cbn [rbind]; try done. apply acting_shape in Ha as [_ Hw1]. intros [= <-]. rewrite Hw1. by destruct w, w1.
    + destruct w. by intros [= <-].
    + destruct w. by intros [= <-].
    + destruct w. repeat case_match; try done; by intros [= <-].
    + destruct (completed w); [|done]. destruct w. by intros [= <-].
  - destruct (negb (of_holder e)); [done|]. destruct w. destruct (exec config e _) as [y|[]| |]; cbn [rbind]; try done. by intros [= <-].
  - destruct w. case_match; [|done]. by intros [= <-].
Qed.
Lemma health_panics e w w' : PoolInv w → pool_exec config instant_max e w = Ok w' → health w' = HealthTask.Panicked →
  health w = HealthTask.Panicked ∨ PoolConfig.health_check_interval config = 0.
Proof.
  intros HI He Hp. pose proof (health_kept e w w' HI He) as Hk. destruct e; try (left; congruence); clear Hk; cbn [pool_exec health_step] in He;
    destruct (health w) eqn:Hh; try done; try (by left).
  - injection He as <-. right. destruct w. cbn in Hp. destruct (Z.eqb_spec (PoolConfig.health_check_interval config) 0); done.
  - destruct (negb _); [done|]. destruct (acting _ w) as [[o w1]|[]| |]; cbn [rbind] in He; try done. injection He as <-. destruct w1. cbn in Hp. by destruct o.
  - destruct (health_aborted w); [|done]. injection He as <-. by destruct w.
  - destruct (health_aborted w); [|done]. injection He as <-. by destruct w.
Qed.
Lemma run_health_panics es : ∀ w w', PoolInv w → pool_run config instant_max es w = Ok w' → health w' = HealthTask.Panicked →
  health w = HealthTask.Panicked ∨ PoolConfig.health_check_interval config = 0.
Proof.
  induction es as [|e es IH]; intros w w' HI; cbn [pool_run]; [intros [= <-]; by left|]. pose proof (pool_exec_ok w e HI) as Ho.
  destruct (pool_exec config instant_max e w) as [w1|[]| |] eqn:He; try done; intros Hrun Hp; [|by eapply IH].
  destruct (IH w1 w' Ho Hrun Hp) as [Hp1|]; [by eapply health_panics|by right].
Qed.

(** ** The start *)
Lemma find_first (before devices : list PriorityDevice.t) pd : PriorityDevice.addr pd ∉ map PriorityDevice.addr before →
  List.find (λ d, PriorityDevice.addr d =? PriorityDevice.addr pd) (before ++ pd :: devices) = Some pd.
Proof.
  induction before as [|b before IH]; cbn; intros Hno; [by rewrite Z.eqb_refl|]. apply not_elem_of_cons in Hno as [Hb Hno].
  replace (PriorityDevice.addr b =? PriorityDevice.addr pd) with false by lia. by apply IH.
Qed.
Lemma spawned_ok p devices : ∀ before seen, PoolConfig.priority_devices config = before ++ devices → (∀ a, a ∈ seen ↔ a ∈ map PriorityDevice.addr before) →
  Forall (λ t, (PriorityMaintenanceTask.addr t ∉ seen) ∧ task_ok p t ∧ task_holds t = []) (spawn_from config seen devices) ∧
  NoDup (map PriorityMaintenanceTask.addr (spawn_from config seen devices)).
Proof.
  induction devices as [|pd devices IH]; intros before seen Hd Hseen; [by repeat constructor|]. cbn [spawn_from].
  assert (PoolConfig.priority_devices config = (before ++ [pd]) ++ devices) as Hd' by by rewrite <-app_assoc.
  case_bool_decide as Hin.
  { apply (IH (before ++ [pd])); [done|]. intros a. rewrite map_app, elem_of_app. cbn. rewrite list_elem_of_singleton, Hseen. rewrite Hseen in Hin. naive_solver. }
  assert (∀ a, a ∈ PriorityDevice.addr pd :: seen ↔ a ∈ map PriorityDevice.addr (before ++ [pd])) as Hseen'.
  { intros a. rewrite map_app, elem_of_app, elem_of_cons. cbn. rewrite list_elem_of_singleton, Hseen. naive_solver. }
  destruct (IH (before ++ [pd]) _ Hd' Hseen') as [Hf Hn].
  assert (Forall (λ t, (PriorityMaintenanceTask.addr t ∉ seen) ∧ task_ok p t ∧ task_holds t = []) (spawn_from config (PriorityDevice.addr pd :: seen) devices)) as Hf'.
  { eapply Forall_impl; [exact Hf|]. intros t [Ht ?]. split; [|done]. by apply not_elem_of_cons in Ht as [_ ?]. }
  destruct (PriorityDevice.max_connections pd =? 0); [done|]. destruct (negb _ && _); [done|]. rewrite Hseen in Hin. pose proof (find_first before devices pd Hin) as Hfind.
  split; [constructor; [|done]|constructor; [|done]].
  - cbn. split; [by rewrite Hseen|]. split; [|done]. split_and!; [| |done]; cbn.
    + unfold is_priority_addr. rewrite Hd, existsb_app. cbn. by rewrite Z.eqb_refl, orb_true_r.
    + unfold priority_cap. by rewrite Hd, Hfind.
  - intros Hel. cbn in Hel. apply list_elem_of_fmap in Hel as (t & Ha & Hel). rewrite Forall_forall in Hf. destruct (Hf t Hel) as [Ht _]. rewrite <-Ha in Ht. destruct Ht. constructor.
Qed.
Lemma pool_start_ok start : PoolInv (pool_start config start).
Proof.
  unfold pool_start. destruct (spawned_ok ConnectionPool.new (PoolConfig.priority_devices config) [] [] eq_refl ltac:(done)) as [Hf Hn]. fold (spawn_priority_maintenance config) in Hf, Hn.
  assert (Forall (λ t, task_ok ConnectionPool.new t ∧ task_holds t = []) (if priority_background_required config then spawn_priority_maintenance config else [])) as Ht.
  { destruct (priority_background_required config); [|constructor]. eapply Forall_impl; [exact Hf|]. by intros t [_ ?]. }
  assert (∀ ts : list Task, Forall (λ t, task_ok ConnectionPool.new t ∧ task_holds t = []) ts → ts ≫= task_holds = []) as Hnil
    by (intros ts Hts; induction Hts as [|t ts [_ Hh] _ IH]; cbn; [done|]; by rewrite Hh, IH).
  split; cbn [tasks pool getters stop closers]; try done.
  - unfold all_holders. cbn [held getters tasks]. rewrite (Hnil _ Ht). apply (invariant_init config).
  - by destruct (priority_background_required config); [|constructor].
  - eapply Forall_impl; [exact Ht|]. by intros t [? _].
Qed.

(** ** Quiescence

    How many steps a task has left once it is told to stop *)
Definition stage_rank (s : MaintenanceStage.t) : Z :=
  match s with
  | MaintenanceStage.Ended => 0
  | MaintenanceStage.Top | MaintenanceStage.Claiming => 1
  | MaintenanceStage.Spawned | MaintenanceStage.Waiting _ _ | MaintenanceStage.BackingOff _ => 2
  | MaintenanceStage.Inspecting _ | MaintenanceStage.Connecting _ => 3
  | MaintenanceStage.Registering => 4
  | MaintenanceStage.Returning _ _ => 5
  | MaintenanceStage.Probing _ => 6
  | MaintenanceStage.Claimed _ => 7
  end.
Fixpoint ranks (ts : list Task) : Z := match ts with [] => 0 | t :: ts => stage_rank (PriorityMaintenanceTask.stage t) + ranks ts end.
Definition health_rank (h : HealthTask.t) : Z := match h with HealthTask.Starting => 2 | HealthTask.Ticking _ => 1 | HealthTask.Ended | HealthTask.Panicked => 0 end.
Definition coordinator_rank (n : nat) (c : Coordinator.t) : Z :=
  match c with
  | Coordinator.Unspawned => Z.of_nat n + 3
  | Coordinator.JoiningHealth => Z.of_nat n + 2
  | Coordinator.JoiningTask k => Z.of_nat (n - k) + 1
  | Coordinator.Completed => 0
  end.
Definition pool_remaining (w : PoolWorld.t) : Z := ranks (tasks w) + health_rank (health w) + coordinator_rank (length (tasks w)) (coordinator w).
(** The steps of the background tasks *)
Definition in_background (e : pool_step) : bool :=
  match e with Maintained _ _ | HealthStarted | HealthTicked _ | HealthAborted | CoordinatorJoined => true | _ => false end.

Lemma ranks_nonneg ts : 0 ≤ ranks ts.
Proof. induction ts as [|t ts IH]; cbn; [lia|]. destruct (PriorityMaintenanceTask.stage t); cbn; lia. Qed.
Lemma ranks_insert ts i t t' : ts !! i = Some t → ranks (<[i:=t']> ts) = ranks ts - stage_rank (PriorityMaintenanceTask.stage t) + stage_rank (PriorityMaintenanceTask.stage t').
Proof. revert i. induction ts as [|u ts IH]; intros [|i] Hi; simpl in *; [done|done|injection Hi as ->; lia|]. rewrite (IH _ Hi). lia. Qed.
Lemma connect_stopped now c r p o p' : maintenance_connect (E := Empty_set) now c true r p = (Ok o, p') →
  match c with Some (inr _) => o = PriorityConnectOutcome.Failed | _ => o = PriorityConnectOutcome.Stopped end.
Proof. unfold maintenance_connect, st_bind. destruct c as [[conn|te]|]; (case_match; case_match; try done; cbn; by intros [= <- _]). Qed.
Lemma task_connect_rank c r t w t' w' : stop w = true → task_connect config c r t w = Ok (t', w') →
  stage_rank (PriorityMaintenanceTask.stage t') < 3.
Proof.
  intros Hs. unfold task_connect. destruct (acting _ w) as [[o w1]|[]| |] eqn:Ha; cbn [rbind]; try done. apply acting_shape in Ha as [Ha _]. rewrite Hs in Ha. apply connect_stopped in Ha.
  destruct o; cbn -[Z.lt].
  - intros [= <- _]. by destruct t.
  - by destruct c as [[?|?]|].
  - intros [= <- _]. by destruct t.
Qed.
Lemma next_action_rank seen t w t' w' : shutting_down (inner w) = true → next_action config seen t w = Ok (t', w') → stage_rank (PriorityMaintenanceTask.stage t') < 3.
Proof.
  intros Hd. unfold next_action, await_change. destruct (is_standing config || PriorityMaintenanceTask.warm_up_pending t).
  - unfold acting, reserve_priority_maintenance, locked. unfold inner in Hd. rewrite Hd. cbn [rbind]. intros [= <- _]. by destruct t.
  - intros [= <- _]. destruct t; cbn. by destruct (negb _ && negb _).
Qed.
Lemma claim_stopped obs now addr s p o p' : shutting_down (ConnectionPool.inner p) = true → claim_priority_probe (E := Empty_set) obs now addr s p = (Ok o, p') → o = PriorityProbeClaimOutcome.Stopped.
Proof. intros Hd. unfold claim_priority_probe, st_get, st_bind at 1. rewrite Hd. cbn. by intros [= <- _]. Qed.
Lemma maintain_rank e t w t' w' : stop w = true → shutting_down (inner w) = true → maintain config instant_max e t w = Ok (t', w') →
  stage_rank (PriorityMaintenanceTask.stage t') < stage_rank (PriorityMaintenanceTask.stage t).
Proof.
  intros Hs Hd. unfold maintain. rewrite Hs. destruct (PriorityMaintenanceTask.stage t) as [| | |c|v|v s| |seen|seen fb|r|u|] eqn:Hst; destruct e as [| |obs| |ok| |verdict| | | | | |te|]; try done;
    try (intros [= <- _]; by destruct t).
  - destruct (acting _ w) as [[o w1]|[]| |] eqn:Ha; cbn [rbind]; try done. apply acting_shape in Ha as [Ha _]. rewrite (claim_stopped _ _ _ _ _ _ _ Hd Ha). intros [= <- _]. by destruct t.
  - destruct (PooledConnection.into_reusable_client c (pool w)) as [[v|e| |] p]; try done. intros [= <- _]. by destruct t.
  - destruct (acting _ w) as [[o w1]|[]| |] eqn:Ha; cbn [rbind]; try done. destruct s; intros [= <- _]; by destruct t.
  - intros Hn. by apply next_action_rank in Hn.
  - destruct (_ || _); [|done]. intros [= <- _]. by destruct t.
  - intros Hc. by eapply task_connect_rank in Hc.
  - intros Hc. eapply task_connect_rank in Hc; [done|]. by destruct w.
  - destruct (u <=? now w); [|done]. intros [= <- _]. by destruct t.
Qed.
Lemma pool_remaining_nonneg w : 0 ≤ pool_remaining w.
Proof.
  unfold pool_remaining. pose proof (ranks_nonneg (tasks w)). assert (0 ≤ health_rank (health w)) by (destruct (health w); cbn; lia).
  assert (0 ≤ coordinator_rank (length (tasks w)) (coordinator w)) by (destruct (coordinator w); cbn; lia). lia.
Qed.
Lemma coordinator_keeps w w' : coordinator w' = coordinator w → tasks w' = tasks w → health w' = health w → pool_remaining w' = pool_remaining w.
Proof. unfold pool_remaining. by intros -> -> ->. Qed.
Lemma same_background e w w' : in_background e = false → coordinator_started w = true → pool_exec config instant_max e w = Ok w' → pool_remaining w' = pool_remaining w.
Proof.
  intros He Hco. destruct e as [i e|i e| |obs| | |addr timeout|b|i|e|n]; try done; cbn [pool_exec].
  - destruct (getters w !! i) as [g|]; [|done]. destruct (get_step config instant_max e g w) as [[g' w1]|[]| |] eqn:Hg; cbn [rbind]; try done. intros [= <-]. cbn [fst snd].
    assert (coordinator w1 = coordinator w ∧ tasks w1 = tasks w ∧ health w1 = health w) as (? & ? & ?); [|destruct w1; by apply coordinator_keeps].
    revert Hg. unfold get_step, attempted, finished. destruct w. repeat case_match; try done; try (by intros [= _ <-]); unfold acting; repeat case_match; try done; cbn; by intros [= _ <-].
  - destruct w. intros [= <-]. by apply coordinator_keeps.
  - destruct w. intros [= <-]. by apply coordinator_keeps.
  - destruct (closers w !! i) as [c|]; [|done]. destruct c as [b|b|b| | |b]; cbn [close_step].
    + destruct (acting shutdown w) as [[o w1]|[]| |] eqn:Ha; cbn [rbind]; try done. apply acting_shape in Ha as [_ Hw1]. intros [= <-]. rewrite Hw1. destruct w, w1. by apply coordinator_keeps.
    + destruct w. intros [= <-]. by apply coordinator_keeps.
    + destruct w. intros [= <-]. by apply coordinator_keeps.
    + destruct w. cbn in Hco. subst. intros [= <-]. by apply coordinator_keeps.
    + destruct (completed w); [|done]. destruct w. intros [= <-]. by apply coordinator_keeps.
    + done.
  - destruct (negb (of_holder e)); [done|]. destruct w. destruct (exec config e _) as [y|[]| |]; cbn [rbind]; try done. intros [= <-]. by apply coordinator_keeps.
  - destruct w. case_match; [|done]. intros [= <-]. by apply coordinator_keeps.
Qed.
(** Each step of the background leaves one less *)
Lemma background_rank e w w' : PoolInv w → coordinator_started w = true → in_background e = true → pool_exec config instant_max e w = Ok w' → pool_remaining w' < pool_remaining w.
Proof.
  intros HI Hco He. pose proof HI as [Hb Ha Ht Hg Hs Hc (_ & Hst & Hc3)]. destruct (Hst Hco) as [Hstop Hab]. specialize (Hs Hstop).
  destruct e as [i e|i e| |obs| | |addr timeout|b|i|e|n]; try done; cbn [pool_exec].
  - destruct (tasks w !! i) as [t|] eqn:Hi; [|done].
    pose proof (maintained_outcome w i t e HI Hi) as Ho.
    destruct (maintain config instant_max e t w) as [[t' w1]|[]| |] eqn:Hm; cbn [rbind]; try done. intros [= <-]. cbn [fst snd]. destruct Ho as (p & n & -> & _).
    apply maintain_rank in Hm; [|done|done]. unfold pool_remaining. destruct w. cbn in *. rewrite length_insert, (ranks_insert _ _ _ _ Hi). lia.
  - cbn [health_step]. destruct (health w) eqn:Hh; try done. intros [= <-]. destruct w; unfold pool_remaining; cbn in *. subst. destruct (_ =? 0); cbn; lia.
  - cbn [health_step]. destruct (health w) as [|next| |] eqn:Hh; try done. destruct (negb _); [done|]. unfold acting, run_health_check, st_get, st_bind at 1. unfold inner in Hs. rewrite Hs.
    cbn [rbind st_ret]. intros [= <-]. destruct w; unfold pool_remaining; cbn in *. subst. cbn. lia.
  - cbn [health_step]. destruct (health w) as [|next| |] eqn:Hh; try done; rewrite Hab; intros [= <-]; destruct w; unfold pool_remaining; cbn in *; subst; cbn; lia.
  - unfold coordinator_join. destruct (coordinator w) as [| |k|] eqn:Hcw; try done.
    + destruct (HealthTask.over (health w)) eqn:Hh; try done. intros [= <-]. destruct w; unfold pool_remaining; cbn in *. subst. cbn. lia.
    + destruct (tasks w !! k) as [t|] eqn:Hk.
      * destruct (task_ended t); [|done]. apply lookup_lt_Some in Hk. intros [= <-]. destruct w; unfold pool_remaining; cbn in *. subst. cbn. lia.
      * destruct w; unfold pool_remaining; cbn in *. intros [= <-]. subst. cbn. lia.
Qed.
(** The step a task that is told to stop can make *)
Definition stopping_step (s : MaintenanceStage.t) : maintenance :=
  match s with
  | MaintenanceStage.Spawned => TaskStarted
  | MaintenanceStage.Top => TaskLooped
  | MaintenanceStage.Claiming => TaskClaimed (λ _, TcpIdleObservation.NoAdverseSignal)
  | MaintenanceStage.Claimed _ => TaskHandedOff
  | MaintenanceStage.Probing _ => TaskProbeStopped
  | MaintenanceStage.Returning _ _ => TaskReturned SessionReuseVerdict.ReuseEligible
  | MaintenanceStage.Registering => TaskRegistered
  | MaintenanceStage.Inspecting _ => TaskInspected
  | _ => TaskStopped
  end.
Lemma stopping_enabled t w : stop w = true → task_ended t = false → maintain config instant_max (stopping_step (PriorityMaintenanceTask.stage t)) t w ≠ Err tt.
Proof.
  intros Hs He. unfold maintain, task_ended in *.
  destruct (PriorityMaintenanceTask.stage t) as [| | |c|v|v s| |seen|seen fb|r|u|]; cbn [stopping_step]; try done; rewrite ?Hs; try done.
  - pose proof (acting_returns (claim_priority_probe (λ _, TcpIdleObservation.NoAdverseSignal) (now w) (PriorityMaintenanceTask.addr t) true) w) as Hr.
    destruct (acting _ w) as [[o w1]|[]| |]; cbn [rbind]; try done. by destruct o.
  - by destruct (PooledConnection.into_reusable_client c (pool w)) as [[]].
  - pose proof (acting_returns (shutdown_and_return (now w) SessionReuseVerdict.ReuseEligible v) w) as Hr.
    destruct (acting _ w) as [[o w1]|[]| |]; cbn [rbind]; try done. by destruct s.
  - unfold next_action. destruct (_ || _); [|done]. pose proof (acting_returns (reserve_priority_maintenance (PriorityMaintenanceTask.addr t) (PriorityMaintenanceTask.cap t)) w) as Hr.
    destruct (acting _ w) as [[o w1]|[]| |]; cbn [rbind]; try done. by destruct o.
  - unfold task_connect. pose proof (acting_returns (maintenance_connect (now w) None (stop w) r) w) as Hr.
    destruct (acting _ w) as [[o w1]|[]| |]; cbn [rbind]; try done. destruct o; try done. by destruct (negb _).
Qed.
Lemma background_progress w : PoolInv w → coordinator_started w = true → completed w = false → ∃ e w', in_background e = true ∧ pool_exec config instant_max e w = Ok w'.
Proof.
  intros HI Hco Hn. pose proof HI as [Hb Ha Ht Hg Hs Hc (_ & Hst & Hc3)]. destruct (Hst Hco) as [Hstop Hab].
  assert (∀ e, in_background e = true → pool_exec config instant_max e w ≠ Err tt → ∃ e w', in_background e = true ∧ pool_exec config instant_max e w = Ok w') as Hgo.
  { intros e He Hne. pose proof (pool_exec_ok w e HI) as Ho. destruct (pool_exec config instant_max e w) as [w'|[]| |] eqn:Hw'; try done. by exists e, w'. }
  destruct (coordinator w) as [| |k|] eqn:Hcw; [by destruct Hc3; congruence| | |by destruct Hc3 as (_ & ? & _); congruence].
  - destruct (health w) as [|next| |] eqn:Hh.
    + apply (Hgo HealthAborted); [done|]. cbn. by rewrite Hh, Hab.
    + apply (Hgo HealthAborted); [done|]. cbn. by rewrite Hh, Hab.
    + apply (Hgo CoordinatorJoined); [done|]. cbn. unfold coordinator_join. by rewrite Hcw, Hh.
    + apply (Hgo CoordinatorJoined); [done|]. cbn. unfold coordinator_join. by rewrite Hcw, Hh.
  - destruct (tasks w !! k) as [t|] eqn:Hk.
    + destruct (task_ended t) eqn:He; [apply (Hgo CoordinatorJoined); [done|]; cbn; unfold coordinator_join; by rewrite Hcw, Hk, He|].
      apply (Hgo (Maintained k (stopping_step (PriorityMaintenanceTask.stage t)))); [done|]. cbn [pool_exec]. rewrite Hk. pose proof (stopping_enabled t w Hstop He).
      by destruct (maintain config instant_max _ t w) as [r|[]| |].
    + apply (Hgo CoordinatorJoined); [done|]. cbn. unfold coordinator_join. rewrite Hcw, Hk. by destruct w.
Qed.
Lemma started_stays e w w' : coordinator_started w = true → pool_exec config instant_max e w = Ok w' → PoolInv w → in_background e = true → coordinator_started w' = true.
Proof.
  intros Hco Hex HI He. pose proof HI as [Hb Ha Ht Hg Hs Hc (_ & Hst & Hc3)]. destruct (Hst Hco) as [Hstop Hab]. revert Hex.
  destruct e as [i e|i e| |obs| | |addr timeout|b|i|e|n]; try done; cbn [pool_exec health_step].
  - destruct (tasks w !! i) as [t|] eqn:Hi; [|done].
    pose proof (maintained_outcome w i t e HI Hi) as Ho.
    destruct (maintain config instant_max e t w) as [[t' w1]|[]| |] eqn:Hm; cbn [rbind]; try done. intros [= <-]. destruct Ho as (p & n & -> & _). by destruct w.
  - destruct (health w); try done. intros [= <-]. by destruct w.
  - destruct (health w); try done. destruct (negb _); [done|]. destruct (acting _ w) as [[o w1]|[]| |] eqn:Hact; cbn [rbind]; try done. apply acting_shape in Hact as [_ ->]. intros [= <-]. by destruct w, w1.
  - destruct (health w); try done; rewrite Hab; intros [= <-]; by destruct w.
  - unfold coordinator_join. destruct (coordinator w); try done; repeat case_match; try done; intros [= <-]; by destruct w.
Qed.
Lemma background_schedule m : ∀ w, PoolInv w → coordinator_started w = true → pool_remaining w ≤ Z.of_nat m →
  ∃ schedule w', Forall (λ e, in_background e = true) schedule ∧ blen schedule ≤ pool_remaining w ∧ pool_run config instant_max schedule w = Ok w' ∧ completed w' = true.
Proof.
  induction m as [|m IH]; intros w HI Hco Hm; (destruct (completed w) eqn:Hc; [exists [], w; split_and!; [constructor|apply pool_remaining_nonneg|done|done]|]);
    destruct (background_progress w HI Hco Hc) as (e & w1 & He & Hw1); pose proof (background_rank e w w1 HI Hco He Hw1) as Hlt; pose proof (pool_remaining_nonneg w1); [lia|].
  pose proof (pool_exec_ok w e HI) as HI1. rewrite Hw1 in HI1. destruct (IH w1 HI1 (started_stays e w w1 Hco Hw1 HI He) ltac:(lia)) as (es & w' & Hes & Hlen & Hrun & Hdone).
  exists (e :: es), w'. split_and!; [by constructor|rewrite blen_cons; lia| |done]. cbn [pool_run]. by rewrite Hw1.
Qed.
End Invariant.

(** * Theorems *)

(** C18. The pool with all its tasks, under every interleaving of the health check, the maintenance
    tasks and their probes, the callers of [get] and of [shutdown], the coordinator, what callers
    do with their leases, and the clock. Nothing panics, assertions of debug builds included, but for the
    health task, and that only when the configured interval is zero. The books balance: what is charged
    is what someone holds, and no budget is exceeded. There is at most one maintenance task
    per device; with replenishment it ends only when the pool shuts down, and sleeps without having
    been notified only while its device has an idle connection or no room for one. A caller
    sleeps without having been notified only while there is no connection for it to reuse, no room, and none
    to evict that was last used before some instant since its call; it gives up with a timeout only when its time is over or cannot
    be represented. When a caller of [shutdown_and_wait] has returned nothing is idle, all background
    tasks are over, and only callers hold charges. *)
Theorem pool_tasks_safe (config : PoolConfig.t) (last start : Z) (es : list pool_step) :
  ∃ w, pool_run config last es (pool_start config start) = Ok w ∧
  let i := PoolWorld.inner w in
  (PoolWorld.health w = HealthTask.Panicked → PoolConfig.health_check_interval config = 0) ∧
  (∀ k, charged k i = count k (all_holders w ≫= charges) ∧ total k i ≤ Z.max 0 (cap config k)) ∧
  NoDup (map PriorityMaintenanceTask.addr (PoolWorld.tasks w)) ∧
  (∀ j t, PoolWorld.tasks w !! j = Some t → is_standing config = true →
     (task_ended t = true → shutting_down i = true) ∧
     ∀ seen fallback, PriorityMaintenanceTask.stage t = MaintenanceStage.Waiting seen fallback → PoolWorld.wakes w = seen →
       priority_idle_count (PriorityMaintenanceTask.addr t) i ≠ 0 ∨ priority_cap config (PriorityMaintenanceTask.addr t) ≤ priority_total (PriorityMaintenanceTask.addr t) i) ∧
  (∀ j g, PoolWorld.getters w !! j = Some g →
     (∀ deadline seen, Getter.stage g = GetStage.Waiting deadline seen → PoolWorld.wakes w = seen →
        ∃ since, Getter.called g ≤ since ≤ PoolWorld.now w ∧ asleep config (Getter.addr g) since i) ∧
     (Getter.stage g = GetStage.Returned (Some PoolError.Timeout) →
        ∃ t, Getter.timeout g = Some t ∧ (Getter.called g + t ≤ PoolWorld.now w ∨ last < PoolWorld.now w + t)) ∧
     (Getter.stage g = GetStage.Returned (Some PoolError.ShuttingDown) → shutting_down i = true)) ∧
  (∀ j, PoolWorld.closers w !! j = Some (Closer.Returned true) →
     shutting_down i = true ∧ idle i = [] ∧ HealthTask.over (PoolWorld.health w) = true ∧ Forall (λ t, task_ended t = true) (PoolWorld.tasks w) ∧
     all_holders w = PoolWorld.held w ++ (PoolWorld.getters w ≫= getter_holds)).
Proof.
  destruct (pool_run_ok config last es _ (pool_start_ok config last start)) as (w & Hw & [[Hl Hok] Ha Ht Hg Hs Hc Hco]). exists w. split; [done|]. cbn zeta. split_and!.
  - intros Hp. by destruct (run_health_panics config last es _ _ (pool_start_ok config last start) Hw Hp).
  - intros k. rewrite (ledger_total _ _ _ _ _ _ _ Hl). split; apply Hl.
  - done.
  - intros j t Hj Hst. destruct (proj1 (Forall_lookup _ _) Ht _ _ Hj) as (_ & Hcap & Hstage). unfold task_ended. split; [destruct (PriorityMaintenanceTask.stage t); try done; by intros _; apply Hstage|].
    intros seen fb Heq Hseen. rewrite Heq in Hstage. rewrite <-Hcap. by apply Hstage.
  - intros j g Hj. destruct (proj1 (Forall_lookup _ _) Hg _ _ Hj) as [_ Hstage]. split_and!; [intros d seen Heq Hseen|intros Heq|intros Heq]; rewrite Heq in Hstage; try done. by apply Hstage.
  - intros j Hj. destruct (proj1 (Forall_lookup _ _) Hc _ _ Hj) as [Hstop Hdone]. specialize (Hdone eq_refl). specialize (Hs Hstop). destruct Hco as (_ & _ & Hco).
    destruct (PoolWorld.coordinator w); try (destruct Hco as [_ Hco]; congruence); [destruct Hco as (_ & ? & _); congruence|]. destruct Hco as (_ & _ & Hh & Hj').
    assert (Forall (λ t, task_ended t = true) (PoolWorld.tasks w)) as Hend by (apply Forall_lookup; intros k t Hk; eapply Hj'; [by eapply lookup_lt_Some|done]).
    split_and!; try done; [by apply (ledger_quiet _ _ _ _ _ _ Hl)|]. unfold all_holders. assert (PoolWorld.tasks w ≫= task_holds = []) as ->; [|by rewrite app_nil_r].
    clear -Hend. induction Hend as [|t ts He _ IH]; cbn; [done|]. rewrite IH. unfold task_ended, task_holds in *. by destruct (PriorityMaintenanceTask.stage t).
Qed.

(** C39. Shutting down ends: from every state a run can reach in which a caller of [shutdown_and_wait] has
    started the coordinator, steps of the background tasks alone, at most [pool_remaining] of
    them, complete it; each step of a background task decreases [pool_remaining], and no
    other step changes it. *)
Theorem pool_shutdown_completes (config : PoolConfig.t) (last start : Z) (es : list pool_step) (w : PoolWorld.t) :
  pool_run config last es (pool_start config start) = Ok w → PoolWorld.coordinator_started w = true →
  (∃ schedule w', Forall (λ e, in_background e = true) schedule ∧ blen schedule ≤ pool_remaining w ∧
     pool_run config last schedule w = Ok w' ∧ PoolWorld.completed w' = true) ∧
  (∀ e w', pool_exec config last e w = Ok w' → if in_background e then pool_remaining w' < pool_remaining w else pool_remaining w' = pool_remaining w).
Proof.
  intros Hrun Hco. destruct (pool_run_ok config last es _ (pool_start_ok config last start)) as (w1 & Hw1 & HI). rewrite Hrun in Hw1. injection Hw1 as <-. split.
  - apply (background_schedule config last (Z.to_nat (pool_remaining w))); [done|done|]. pose proof (pool_remaining_nonneg w). lia.
  - intros e w' He. destruct (in_background e) eqn:Hb; [by eapply background_rank|by eapply same_background].
Qed.
(** A pool of one device with replenishment: it connects, a caller takes the idle connection, which wakes the maintenance
    task, and another caller closes the pool while the task connects again *)
Definition busy_config : PoolConfig.t := PoolConfig.mk 1 [PriorityDevice.new 9 2] true true 1000 1000 BackoffConfig.default.
Definition busy_trace : list pool_step :=
  let m := Maintained 0 in
  [m TaskStarted; m TaskLooped; m TaskRegistered; m TaskInspected; m TaskConnected; m TaskLooped; m TaskRegistered; m TaskInspected;
   GetCalled 9 None; Getting 0 (GetAttempted quiet_line); m TaskWoken; m TaskLooped; m TaskRegistered; m TaskInspected;
   CloseCalled true; Closing 0; Closing 0; Closing 0; Closing 0].
Lemma pool_tasks_safe_witness : ∃ w,
  pool_run busy_config (2 ^ 63) busy_trace (pool_start busy_config 0) = Ok w ∧
  map PriorityMaintenanceTask.stage (PoolWorld.tasks w) = [MaintenanceStage.Connecting (PendingReservation.new 9 true None)] ∧
  PoolWorld.health w ≠ HealthTask.Panicked ∧ ∀ k, charged k (PoolWorld.inner w) = count k (all_holders w ≫= charges).
Proof.
  destruct (pool_tasks_safe busy_config (2 ^ 63) 0 busy_trace) as (w & Hw & Hpanic & Hbooks & _). exists w. split; [exact Hw|].
  split; [vm_compute in Hw; injection Hw as <-; reflexivity|]. split; [intros Hp; specialize (Hpanic Hp); discriminate Hpanic|]. intros k. apply Hbooks.
Defined.
Lemma pool_shutdown_completes_witness : ∃ w schedule w',
  pool_run busy_config (2 ^ 63) busy_trace (pool_start busy_config 0) = Ok w ∧
  map PriorityMaintenanceTask.stage (PoolWorld.tasks w) = [MaintenanceStage.Connecting (PendingReservation.new 9 true None)] ∧
  blen schedule ≤ 8 ∧ pool_run busy_config (2 ^ 63) schedule w = Ok w' ∧ PoolWorld.completed w' = true.
Proof.
  destruct (pool_run busy_config (2 ^ 63) busy_trace (pool_start busy_config 0)) as [w|e| |] eqn:Hw; try (vm_compute in Hw; discriminate).
  destruct (pool_shutdown_completes busy_config (2 ^ 63) 0 busy_trace w Hw ltac:(vm_compute in Hw; injection Hw as <-; reflexivity)) as [(es & w' & _ & Hl & Hrun & Hout) _].
  exists w, es, w'. split; [reflexivity|]. split; [vm_compute in Hw; injection Hw as <-; reflexivity|]. split; [|split; [exact Hrun|exact Hout]].
  etransitivity; [exact Hl|]. vm_compute in Hw. injection Hw as <-. vm_compute. discriminate.
Defined.

(** An interval of zero is not refused: the health task panics as soon as it runs. *)
Theorem zero_interval_panics (config : PoolConfig.t) (last start : Z) : PoolConfig.health_check_interval config = 0 →
  ∃ w, pool_run config last [HealthStarted] (pool_start config start) = Ok w ∧ PoolWorld.health w = HealthTask.Panicked.
Proof. intros Hz. eexists. cbn. rewrite Hz. split; [done|]. by unfold pool_start. Qed.

(** A connection that was returned at the very instant of an attempt is not evicted for it: the caller then sleeps, and is not
    notified, while the connection stays idle and a later attempt would have it. *)
Definition single_config : PoolConfig.t := PoolConfig.mk 1 [] true false 1000000 1000 BackoffConfig.default.
Theorem same_instant_overlooked : ∃ w g,
  pool_run single_config (2 ^ 63)
    [GetCalled 7 None; Getting 0 (GetAttempted quiet_line); Getting 0 GetConnected; Held (MakeReusable 0); Held (ReturnSession 0 5 SessionReuseVerdict.ReuseEligible);
     Elapsed 5; GetCalled 8 (Some 1000000); Getting 1 (GetAttempted quiet_line); Getting 1 GetDated; Getting 1 GetRegistered; Getting 1 (GetRetried quiet_line); Elapsed 1000]
    (pool_start single_config 0) = Ok w ∧
  PoolWorld.getters w !! 1%nat = Some g ∧ Getter.stage g = GetStage.Waiting 1000005 (PoolWorld.wakes w) ∧
  map PoolEntry.addr (idle (PoolWorld.inner w)) = [7] ∧
  match attempt_acquire single_config quiet_line (PoolWorld.now w) 8 (PoolWorld.pool w) with (Ok (Some _), _) => True | _ => False end.
Proof. do 2 eexists. split; [vm_compute; reflexivity|]. split; [reflexivity|]. split; [reflexivity|]. split; [reflexivity|]. exact I. Qed.
