(* ===== verification/Probes.v ===== *)
(** * Probes of priority devices (crates/rusty-modbus-pool: src/pool.rs, config.rs)

    The one read that a maintenance task of [PoolTasks] makes over a session of the pool, with the
    client configuration it uses. A probe the configuration accepts is a valid request, so
    its result depends on the device alone. *)
From stdpp Require Import strings.
From S2P Require Import Prelude Deadlines Types CodecError Responses Requests Pdu Stream Bits Store Memory DeviceId Handler Server Service Owned Session Transaction Pool Client Methods Calls Loopback RemoteCalls.
#[local] Open Scope Z_scope.

(** The configuration of the client in [run_priority_probe] *)
Definition probe_client_config (config : PriorityProbeConfig.t) : ClientConfig.t :=
  ClientConfig.mk (PriorityProbeConfig.unit_id config) (PriorityProbeConfig.timeout config) 1
    (RetryConfig.mk 0 (RetryConfig.retry_delay RetryConfig.default) (RetryConfig.retryable_exceptions RetryConfig.default))
    (PriorityProbeConfig.timeout config).
Definition execute_priority_probe {W} `{Connection W} (config : PriorityProbeConfig.t) : ST W ClientError.t unit :=
  let unit_id := PriorityProbeConfig.unit_id config in
  let address := PriorityProbeConfig.address config in
  let quantity := PriorityProbeConfig.quantity config in
  match PriorityProbeConfig.operation config with
  | PriorityProbeOperation.ReadCoils => Methods.read_coils unit_id address quantity;;; st_ret tt
  | PriorityProbeOperation.ReadDiscreteInputs => Methods.read_discrete_inputs unit_id address quantity;;; st_ret tt
  | PriorityProbeOperation.ReadHoldingRegisters => Methods.read_holding_registers unit_id address quantity;;; st_ret tt
  | PriorityProbeOperation.ReadInputRegisters => Methods.read_input_registers unit_id address quantity;;; st_ret tt
  end.

(** The size of the table that an operation reads *)
Definition probed_size (T : Tables.t) (operation : PriorityProbeOperation.t) : Z :=
  match operation with
  | PriorityProbeOperation.ReadCoils => blen (Tables.coils T)
  | PriorityProbeOperation.ReadDiscreteInputs => blen (Tables.discrete_inputs T)
  | PriorityProbeOperation.ReadHoldingRegisters => blen (Tables.holding_registers T)
  | PriorityProbeOperation.ReadInputRegisters => blen (Tables.input_registers T)
  end.
(** The values of a configuration are of their Rust types *)
Definition probe_args_ok (unit_id address quantity timeout : Z) : Prop :=
  is_u8 unit_id ∧ is_u16 address ∧ is_u16 quantity ∧ 0 ≤ timeout ≤ DURATION_MAX.

Lemma new_accepts op u a q interval timeout c : PriorityProbeConfig.new op u a q interval timeout = Ok c ↔
  (UnitId.is_valid_slave u = true ∨ UnitId.is_tcp_device u = true) ∧ 1 ≤ q ≤ PriorityProbeOperation.maximum_quantity op ∧ a + q ≤ 0x10000 ∧ interval ≠ 0 ∧ timeout ≠ 0 ∧
  c = PriorityProbeConfig.mk op u a q interval timeout.
Proof.
  unfold PriorityProbeConfig.new.
  destruct (UnitId.is_valid_slave u) eqn:Hu, (UnitId.is_tcp_device u) eqn:Ht; cbn [negb andb]; [..|by split; [|intros ([?|?] & _)]];
    (destruct (Z.leb_spec 1 q), (Z.leb_spec q (PriorityProbeOperation.maximum_quantity op)); cbn [negb andb]; try (split; [done|lia]));
    (destruct (Z.ltb_spec 0x10000 (a + q)); [split; [done|lia]|]); (destruct (Z.eqb_spec interval 0); [by split; [|intros (_ & _ & _ & ? & _)]|]);
    (destruct (Z.eqb_spec timeout 0); [by split; [|intros (_ & _ & _ & _ & ? & _)]|]); split; try (intros [= <-]; split_and!; auto; lia); intros (_ & _ & _ & _ & _ & ->); done.
Qed.
(** A read within the limits, of the server *)
Section Served.
Context (unit_id : Z) (dev : DeviceIdentification.t) (Hdev : device_ok dev) (last : Z) (config : ClientConfig.t) (Hconfig : config_ok config) (Htime : 1 ≤ ClientConfig.timeout config).
Abbreviation server := (@client_connection _ (@loop_runtime _ (server_peer unit_id dev) last) config).
Lemma probe_served {A B} u (c : Call.t (list A)) (table : list B) (part : list B → list A) a q (w : Loop.t InMemoryStore.t) :
  loop_ok store_ok last w → answering unit_id u → Call.args_ok c → Call.valid c →
  (∀ T, T = tables_of (Loop.server w) → call_spec T c = let? v := select table a q in Ok (part v, T)) →
  ∃ r w', (@perform _ server _ u c;;; st_ret tt) w = (r, w') ∧ loop_ok store_ok last w' ∧
    TransactionManager.reuse_safety (Loop.ring w') = TransactionManager.reuse_safety (Loop.ring w) ∧ tables_of (Loop.server w') = tables_of (Loop.server w) ∧
    (r = Ok tt ↔ a + q ≤ blen table) ∧ (r ≠ Ok tt → r = Err (ClientError.Exception (ExceptionResponse.mk (Call.function c) ExceptionCode.IllegalDataAddress))).
Proof using Hdev Hconfig Htime.
  intros Hw Hu Ha Hv Hspec. destruct (@remote_call _ store_ok (answering unit_id) _ (server_peer_laws unit_id dev Hdev) last config Hconfig Htime _ u c w Hw Ha (or_introl Hu))
    as (r & w' & Hp & Hw' & Hr & He). cbn in He. assert (UnitId.is_broadcast u = false) as Hb by apply Hu.
  assert (call_spec (tables_of (Loop.server w)) c = if blen table <? a + q then Err ExceptionCode.IllegalDataAddress else Ok (part (sublist a q table), tables_of (Loop.server w))) as Hcall
    by (rewrite (Hspec _ eq_refl); unfold select; by destruct (blen table <? a + q)).
  assert (@perform _ server _ u c w = (r, w')) as Hp' by exact Hp. unfold st_bind. rewrite Hp'. inversion He as [Hbr|e Hno|v Hbr|v T' _ _ Hs|ec _ _ Hs]; try congruence; try done; subst r; rewrite Hcall in Hs; destruct (Z.ltb_spec (blen table) (a + q)); try done.
  - injection Hs as _ HT. exists (Ok tt), w'. split_and!; try done; by intros.
  - injection Hs as <-. do 2 eexists. split_and!; try done. split; [done|lia].
Qed.
End Served.

(** * Theorems *)

(** A probe whose configuration was accepted, of a device that is the server: the client makes one read,
    which succeeds exactly when the whole range lies in the table of the operation, and
    otherwise reports the exception for it. The tables are as before, and the session can be used
    again in either case. *)
Theorem probe_exact (unit_id : Z) (dev : DeviceIdentification.t) (last : Z) (op : PriorityProbeOperation.t) (u a q interval timeout : Z)
    (probe : PriorityProbeConfig.t) (w : Loop.t InMemoryStore.t) :
  device_ok dev → probe_args_ok u a q timeout → PriorityProbeConfig.new op u a q interval timeout = Ok probe →
  loop_ok store_ok last w → answering unit_id u →
  ∃ r w', @execute_priority_probe _ (@client_connection _ (@loop_runtime _ (server_peer unit_id dev) last) (probe_client_config probe)) probe w = (r, w') ∧
    loop_ok store_ok last w' ∧ tables_of (Loop.server w') = tables_of (Loop.server w) ∧
    TransactionManager.reuse_safety (Loop.ring w') = TransactionManager.reuse_safety (Loop.ring w) ∧
    (r = Ok tt ↔ a + q ≤ probed_size (tables_of (Loop.server w)) op) ∧
    (r ≠ Ok tt → ∃ fc, r = Err (ClientError.Exception (ExceptionResponse.mk fc ExceptionCode.IllegalDataAddress))).
Proof.
  intros Hdev (Hu8 & Ha16 & Hq16 & Ht) (Huv & Hq & Hspan & _ & Hto & ->)%new_accepts Hw Hu.
  assert (config_ok (probe_client_config (PriorityProbeConfig.mk op u a q interval timeout))) as Hc by (repeat split; cbn; try done; lia).
  assert (1 ≤ ClientConfig.timeout (probe_client_config (PriorityProbeConfig.mk op u a q interval timeout))) as Htime by (cbn; lia).
  pose proof (@probe_served unit_id dev Hdev last _ Hc Htime) as Hread. unfold execute_priority_probe. cbn [PriorityProbeConfig.operation PriorityProbeConfig.unit_id PriorityProbeConfig.address PriorityProbeConfig.quantity].
  destruct op; cbn in Hq; cbn [probed_size].
  - destruct (Hread bool bool u (Call.ReadCoils a q) (Tables.coils (tables_of (Loop.server w))) id a q w) as (r & w' & Hp & ? & ? & ? & ? & Hr); try done; [by intros T ->| by exists r, w'; split_and!; eauto].
  - destruct (Hread bool bool u (Call.ReadDiscreteInputs a q) (Tables.discrete_inputs (tables_of (Loop.server w))) id a q w) as (r & w' & Hp & ? & ? & ? & ? & Hr); try done; [by intros T ->| by exists r, w'; split_and!; eauto].
  - destruct (Hread Z Z u (Call.ReadHoldingRegisters a q) (Tables.holding_registers (tables_of (Loop.server w))) id a q w) as (r & w' & Hp & ? & ? & ? & ? & Hr); try done; [by intros T ->| by exists r, w'; split_and!; eauto].
  - destruct (Hread Z Z u (Call.ReadInputRegisters a q) (Tables.input_registers (tables_of (Loop.server w))) id a q w) as (r & w' & Hp & ? & ? & ? & ? & Hr); try done; [by intros T ->| by exists r, w'; split_and!; eauto].
Qed.
(** A probe of the last registers of a server with ten, and one past the end *)
Lemma probe_exact_witness : ∃ probe w', PriorityProbeConfig.new PriorityProbeOperation.ReadHoldingRegisters 1 6 4 1000000000 5000000000 = Ok probe ∧
  @execute_priority_probe _ (@client_connection _ (@loop_runtime _ (server_peer 1 small_device) 10000000000000) (probe_client_config probe)) probe idle_loop = (Ok tt, w') ∧
  tables_of (Loop.server w') = tables_of (Loop.server idle_loop).
Proof.
  destruct (PriorityProbeConfig.new PriorityProbeOperation.ReadHoldingRegisters 1 6 4 1000000000 5000000000) as [probe|e| |] eqn:Hp; try discriminate Hp.
  destruct (probe_exact 1 small_device 10000000000000 PriorityProbeOperation.ReadHoldingRegisters 1 6 4 1000000000 5000000000 probe idle_loop) as (r & w' & Heq & _ & HT & _ & [_ Hr] & _).
  - exact small_device_ok.
  - split; [lia|]. split; [lia|]. split; [lia|]. split; [lia|vm_compute; discriminate].
  - exact Hp.
  - apply idle_loop_ok. lia.
  - split; [lia|]. split; [reflexivity|]. left. reflexivity.
  - exists probe, w'. split; [reflexivity|]. split; [|exact HT]. rewrite <-Hr; [exact Heq|]. vm_compute. discriminate.
Defined.
