(* ===== verification/PythonStore.v ===== *)
(** * Python objects as data stores (crates/rusty-modbus-python: src/errors.rs, src/server.rs)

    The exceptions of the Python package, and [PyDataStore]: any Python object as the store of
    a server. The object is a parameter: what a call of one of its methods returns or
    raises and how it changes the object is up to it. The conversions of Python values to
    Rust ones are PyO3's; of these only that they return a value of the type asked for, or raise.

    [consult], on calls of the object alone, says what the object is asked for each request and how its answer is
    put; the server over the object is that, byte for byte. *)
From stdpp Require Import strings.
From S2P Require Import Prelude Types CodecError FileRecords Requests Responses MeiResponses Pdu Validate Bits Store Memory DeviceId Handler Server Service.
#[local] Open Scope Z_scope.

(** ** Exceptions *)
Module PyClass.
Inductive t : Type :=
  | ModbusError | TimeoutError | ConnectionError | ModbusExceptionError | RetryError
  | IllegalFunctionError | IllegalDataAddressError | IllegalDataValueError | ServerDeviceFailureError | AcknowledgeError
  | ServerDeviceBusyError | NegativeAcknowledgeError | MemoryParityError | GatewayPathUnavailableError | GatewayTargetDeviceFailedToRespondError
  (** Python's own *)
  | ValueError | RuntimeError.
#[global] Instance t_eq_dec : EqDecision t.
Proof. solve_decision. Defined.
(** [create_exception!]: all of the package are under [ModbusError] *)
Definition base (c : t) : option t := match c with ModbusError | ValueError | RuntimeError => None | _ => Some ModbusError end.
End PyClass.
(** An exception: those of the classes above it is an instance of, and the integer it carries beside its message *)
Module PyErr.
Record t : Type := mk { classes : list PyClass.t; number : option Z }.
Definition is_instance_of (c : PyClass.t) (self : t) : bool := bool_decide (c ∈ classes self).
Definition with_number (c : PyClass.t) (n : option Z) : t := mk (c :: option_list (PyClass.base c)) n.
Definition new_err (c : PyClass.t) : t := with_number c None.
End PyErr.

Definition pyerr_to_exception_code (err : PyErr.t) : Exc :=
  if PyErr.is_instance_of PyClass.IllegalFunctionError err then ExceptionCode.IllegalFunction
  else if PyErr.is_instance_of PyClass.IllegalDataAddressError err then ExceptionCode.IllegalDataAddress
  else if PyErr.is_instance_of PyClass.IllegalDataValueError err then ExceptionCode.IllegalDataValue
  else if PyErr.is_instance_of PyClass.ServerDeviceFailureError err then ExceptionCode.ServerDeviceFailure
  else if PyErr.is_instance_of PyClass.AcknowledgeError err then ExceptionCode.Acknowledge
  else if PyErr.is_instance_of PyClass.ServerDeviceBusyError err then ExceptionCode.ServerDeviceBusy
  else if PyErr.is_instance_of PyClass.NegativeAcknowledgeError err then ExceptionCode.NegativeAcknowledge
  else if PyErr.is_instance_of PyClass.MemoryParityError err then ExceptionCode.MemoryParityError
  else if PyErr.is_instance_of PyClass.GatewayPathUnavailableError err then ExceptionCode.GatewayPathUnavailable
  else if PyErr.is_instance_of PyClass.GatewayTargetDeviceFailedToRespondError err then ExceptionCode.GatewayTargetDeviceFailedToRespond
  else ExceptionCode.ServerDeviceFailure.

(** ** Objects *)
Module PyArg.
Inductive t : Type := Int (n : Z) | Bool (b : bool) | Bools (l : list bool) | Ints (l : list Z).
End PyArg.
Class PyObject (O : Type) : Type := {
  pyvalue : Type;
  hasattr : string → ST O PyErr.t bool;
  call_method : string → list PyArg.t → ST O PyErr.t pyvalue;
  extract_bools : pyvalue → res PyErr.t (list bool);
  extract_u16s : pyvalue → res PyErr.t (list Z);
  extract_u8s : pyvalue → res PyErr.t bytes;
  extract_u8 : pyvalue → res PyErr.t Z;
  extract_u16_pair : pyvalue → res PyErr.t (Z * Z);
  extract_event_log : pyvalue → res PyErr.t (Z * Z * Z * bytes);
  extract_optional_u8s : pyvalue → res PyErr.t (option bytes);
}.
(** A result of the type asked for, or an exception *)
Definition extracted {A} (P : A → Prop) (r : res PyErr.t A) : Prop := match r with Ok a => P a | Err _ => True | Panic | OutOfFuel => False end.
Class PyObjectLaws (O : Type) `{PyObject O} : Prop := {
  hasattr_returns name o : returns (hasattr name o).1;
  call_returns name args o : returns (call_method name args o).1;
  bools_typed v : extracted (λ _, True) (extract_bools v);
  u16s_typed v : extracted u16s (extract_u16s v);
  u8s_typed v : extracted bytes_ok (extract_u8s v);
  u8_typed v : extracted (λ x, is_u8 x) (extract_u8 v);
  u16_pair_typed v : extracted (λ x, is_u16 x.1 ∧ is_u16 x.2) (extract_u16_pair v);
  event_log_typed v : extracted (λ '(a, b, c, l), is_u16 a ∧ is_u16 b ∧ is_u16 c ∧ bytes_ok l) (extract_event_log v);
  optional_u8s_typed v : extracted (from_option bytes_ok True) (extract_optional_u8s v);
}.

Module PyDataStore.
Section Methods.
Context {O : Type} `{PyObject O}.

(** [map_err(|err| errors::pyerr_to_exception_code(py, err))] *)
Definition map_err {A} (m : ST O PyErr.t A) : ST O Exc A :=
  λ o, match m o with
       | (Ok a, o') => (Ok a, o')
       | (Err e, o') => (Err (pyerr_to_exception_code e), o')
       | (Panic, o') => (Panic, o')
       | (OutOfFuel, o') => (OutOfFuel, o')
       end.
(** [call_method1(name, args).and_then(|result| result.extract())] *)
Definition ask {A} (name : string) (args : list PyArg.t) (extract : pyvalue → res PyErr.t A) : ST O Exc A :=
  map_err (result <- call_method name args;; st_lift (extract result)).
(** [call_method1(name, args).map(|_| ())] *)
Definition tell (name : string) (args : list PyArg.t) : ST O Exc unit := map_err (call_method name args;;; st_ret tt).
Definition has_method (name : string) : ST O Exc bool := map_err (hasattr name).
(** [if !has_method(obj, name)? { return Err(e); }] *)
Definition or_missing {A} (name : string) (e : Exc) (m : ST O Exc A) : ST O Exc A :=
  found <- has_method name;;
  if negb found then st_err e else m.

Definition copy_returned_values {A} (values : list A) (quantity : Z) : ST (list A) Exc Z :=
  let count := blen values in
  buf <- st_get;;
  if (quantity <? count) || (blen buf <? count) then st_err ExceptionCode.ServerDeviceFailure else
  buf_copy 0 count values;;;
  st_ret count.
Definition validate_atomic_read_write_buffers (read_quantity write_quantity : Z) (write_values out : bytes) : res Exc (Z * Z) :=
  if (read_quantity =? 0) || (MAX_RW_READ_REGISTERS <? read_quantity)
     || (write_quantity =? 0) || (MAX_RW_WRITE_REGISTERS <? write_quantity)
  then Err ExceptionCode.IllegalDataValue else
  let read_count := read_quantity in
  let write_count := write_quantity in
  if negb (blen write_values =? write_count * 2) || (blen out <? read_count * 2)
  then Err ExceptionCode.IllegalDataValue else
  Ok (read_count, write_count).

Definition read_coils (address quantity : Z) : ST (O * list bool) Exc Z :=
  values <- on_store (ask "read_coils" [PyArg.Int address; PyArg.Int quantity] extract_bools);;
  on_buf (copy_returned_values values quantity).
Definition write_coil (address : Z) (v : bool) : ST O Exc unit := tell "write_coil" [PyArg.Int address; PyArg.Bool v].
Definition write_coils (address : Z) (values : list bool) : ST O Exc unit := tell "write_coils" [PyArg.Int address; PyArg.Bools values].
Definition read_discrete_inputs (address quantity : Z) : ST (O * list bool) Exc Z :=
  values <- on_store (ask "read_discrete_inputs" [PyArg.Int address; PyArg.Int quantity] extract_bools);;
  on_buf (copy_returned_values values quantity).
Definition read_holding_registers (address quantity : Z) : ST (O * list Z) Exc Z :=
  values <- on_store (ask "read_holding_registers" [PyArg.Int address; PyArg.Int quantity] extract_u16s);;
  on_buf (copy_returned_values values quantity).
Definition write_register (address v : Z) : ST O Exc unit := tell "write_register" [PyArg.Int address; PyArg.Int v].
Definition write_registers (address : Z) (values : list Z) : ST O Exc unit := tell "write_registers" [PyArg.Int address; PyArg.Ints values].
Definition atomic_mask_write_register (address and_mask or_mask : Z) : ST O Exc unit :=
  or_missing "atomic_mask_write_register" ExceptionCode.IllegalFunction
    (tell "atomic_mask_write_register" [PyArg.Int address; PyArg.Int and_mask; PyArg.Int or_mask]).
Definition atomic_read_write_registers_be (read_address read_quantity write_address write_quantity : Z) (write_values : bytes)
    : ST (O * bytes) Exc Z :=
  out <- on_buf st_get;;
  counts <- st_lift (validate_atomic_read_write_buffers read_quantity write_quantity write_values out);;
  let '(read_count, write_count) := counts in
  write_values <- st_lift (be_values (chunks_exact 2 write_values));;
  if negb (blen write_values =? write_count) then st_panic (* debug_assert_eq! *) else
  values <- on_store (or_missing "atomic_read_write_registers" ExceptionCode.IllegalFunction
    (ask "atomic_read_write_registers" [PyArg.Int read_address; PyArg.Int read_quantity; PyArg.Int write_address; PyArg.Ints write_values] extract_u16s));;
  if negb (blen values =? read_count) then st_err ExceptionCode.ServerDeviceFailure else
  on_buf (for_enumerate (λ i v, buf_copy (i * 2) (i * 2 + 2) (to_be_bytes v)) 0 (take (length (chunks_exact 2 out)) values));;;
  st_ret read_count.
Definition read_input_registers (address quantity : Z) : ST (O * list Z) Exc Z :=
  values <- on_store (ask "read_input_registers" [PyArg.Int address; PyArg.Int quantity] extract_u16s);;
  on_buf (copy_returned_values values quantity).
Definition read_file_record (file_number record_number record_length : Z) : ST (O * list Z) Exc Z :=
  values <- on_store (or_missing "read_file_record" ExceptionCode.IllegalFunction
    (ask "read_file_record" [PyArg.Int file_number; PyArg.Int record_number; PyArg.Int record_length] extract_u16s));;
  on_buf (copy_returned_values values record_length).
Definition write_file_record (file_number record_number : Z) (values : list Z) : ST O Exc unit :=
  or_missing "write_file_record" ExceptionCode.IllegalFunction
    (tell "write_file_record" [PyArg.Int file_number; PyArg.Int record_number; PyArg.Ints values]).
Definition read_fifo_queue (address : Z) : ST O Exc (list Z) :=
  or_missing "read_fifo_queue" ExceptionCode.IllegalDataAddress (ask "read_fifo_queue" [PyArg.Int address] extract_u16s).
Definition read_exception_status : ST O Exc Z :=
  or_missing "read_exception_status" ExceptionCode.IllegalFunction (ask "read_exception_status" [] extract_u8).
Definition get_comm_event_counter : ST O Exc (Z * Z) :=
  or_missing "get_comm_event_counter" ExceptionCode.IllegalFunction (ask "get_comm_event_counter" [] extract_u16_pair).
Definition get_comm_event_log : ST O Exc CommEventLog.t :=
  or_missing "get_comm_event_log" ExceptionCode.IllegalFunction
    (log <- ask "get_comm_event_log" [] extract_event_log;;
     let '(status, event_count, message_count, events) := log in
     st_ret (CommEventLog.mk status event_count message_count events)).
Definition report_server_id : ST O Exc bytes :=
  or_missing "report_server_id" ExceptionCode.IllegalFunction (ask "report_server_id" [] extract_u8s).
Definition diagnostic (sub_function : DiagnosticSubFunction.t) (data : bytes) : ST O Exc (option bytes) :=
  found <- has_method "diagnostic";;
  if negb found then
    match sub_function with
    | DiagnosticSubFunction.ReturnQueryData => st_ret (Some data)
    | _ => st_err ExceptionCode.IllegalFunction
    end
  else ask "diagnostic" [PyArg.Int (DiagnosticSubFunction.code sub_function); PyArg.Ints data] extract_optional_u8s.
End Methods.
End PyDataStore.

(** The trait: the methods above, the others by default *)
#[export] Instance python_store (O : Type) `{PyObject O} : DataStore O := {|
  read_coils := PyDataStore.read_coils;
  read_coils_packed := Default.read_coils_packed PyDataStore.read_coils;
  write_coil := PyDataStore.write_coil;
  write_coils := PyDataStore.write_coils;
  write_coils_packed := Default.write_coils_packed PyDataStore.write_coils;
  read_discrete_inputs := PyDataStore.read_discrete_inputs;
  read_discrete_inputs_packed := Default.read_discrete_inputs_packed PyDataStore.read_discrete_inputs;
  read_holding_registers := PyDataStore.read_holding_registers;
  read_holding_registers_be := Default.read_holding_registers_be PyDataStore.read_holding_registers;
  write_register := PyDataStore.write_register;
  write_registers := PyDataStore.write_registers;
  write_registers_be := Default.write_registers_be PyDataStore.write_registers;
  atomic_mask_write_register := PyDataStore.atomic_mask_write_register;
  atomic_read_write_registers_be := PyDataStore.atomic_read_write_registers_be;
  read_input_registers := PyDataStore.read_input_registers;
  read_input_registers_be := Default.read_input_registers_be PyDataStore.read_input_registers;
  handle_custom_function := Default.handle_custom_function;
  read_file_record := PyDataStore.read_file_record;
  read_file_record_be := Default.read_file_record_be PyDataStore.read_file_record;
  write_file_record := PyDataStore.write_file_record;
  write_file_record_be := Default.write_file_record_be PyDataStore.write_file_record;
  read_fifo_queue := PyDataStore.read_fifo_queue;
  read_fifo_queue_be := Default.read_fifo_queue_be PyDataStore.read_fifo_queue;
  read_exception_status := PyDataStore.read_exception_status;
  get_comm_event_counter := PyDataStore.get_comm_event_counter;
  get_comm_event_log := PyDataStore.get_comm_event_log;
  append_comm_event_log := Default.append_comm_event_log PyDataStore.get_comm_event_log;
  report_server_id := PyDataStore.report_server_id;
  append_server_id := Default.append_server_id PyDataStore.report_server_id;
  diagnostic := PyDataStore.diagnostic;
  append_diagnostic_response := Default.append_diagnostic_response PyDataStore.diagnostic;
|}.

(** * Specification: what an object is asked, and what becomes of its answer *)
Section Consult.
Context {O : Type} `{PyObject O}.

(** The exception classes of the package with the Modbus exceptions they stand for; any other exception is a failure of the device.
    A class derived from several of them stands for the first. *)
Definition modbus_exceptions : list (PyClass.t * Exc) :=
  [(PyClass.IllegalFunctionError, ExceptionCode.IllegalFunction);
   (PyClass.IllegalDataAddressError, ExceptionCode.IllegalDataAddress);
   (PyClass.IllegalDataValueError, ExceptionCode.IllegalDataValue);
   (PyClass.ServerDeviceFailureError, ExceptionCode.ServerDeviceFailure);
   (PyClass.AcknowledgeError, ExceptionCode.Acknowledge);
   (PyClass.ServerDeviceBusyError, ExceptionCode.ServerDeviceBusy);
   (PyClass.NegativeAcknowledgeError, ExceptionCode.NegativeAcknowledge);
   (PyClass.MemoryParityError, ExceptionCode.MemoryParityError);
   (PyClass.GatewayPathUnavailableError, ExceptionCode.GatewayPathUnavailable);
   (PyClass.GatewayTargetDeviceFailedToRespondError, ExceptionCode.GatewayTargetDeviceFailedToRespond)].
Fixpoint first_class (e : PyErr.t) (table : list (PyClass.t * Exc)) : Exc :=
  match table with
  | [] => ExceptionCode.ServerDeviceFailure
  | (c, exc) :: table => if bool_decide (c ∈ PyErr.classes e) then exc else first_class e table
  end.
Definition raised {A} (r : res PyErr.t A) : res Exc A :=
  match r with Ok a => Ok a | Err e => Err (first_class e modbus_exceptions) | Panic => Panic | OutOfFuel => OutOfFuel end.
(** The method is called once with these arguments; its value is converted, or what was raised stands for an exception. *)
Definition asked {A} (name : string) (args : list PyArg.t) (extract : pyvalue → res PyErr.t A) : ST O Exc A :=
  λ o, let '(answer, o') := call_method name args o in (raised (let? v := answer in extract v), o').
(** ... its value does not matter *)
Definition ordered (name : string) (args : list PyArg.t) : ST O Exc unit :=
  λ o, let '(answer, o') := call_method name args o in (raised (rmap (λ _, tt) answer), o').
(** The object need not have the method. *)
Definition supported {A} (name : string) (missing m : ST O Exc A) : ST O Exc A :=
  λ o, match hasattr name o with
       | (Ok true, o') => m o'
       | (Ok false, o') => missing o'
       | (Err e, o') => (raised (Err e), o')
       | (Panic, o') => (Panic, o')
       | (OutOfFuel, o') => (OutOfFuel, o')
       end.
(** Without a method of its own an object echoes a loopback test (sub-function 0) and knows no other. *)
Definition diagnosed (sub : DiagnosticSubFunction.t) (data : bytes) : ST O Exc (option bytes) :=
  supported "diagnostic"
    (if DiagnosticSubFunction.code sub =? 0 then st_ret (Some data) else st_err ExceptionCode.IllegalFunction)
    (asked "diagnostic" [PyArg.Int (DiagnosticSubFunction.code sub); PyArg.Ints data] extract_optional_u8s).

(** [m] for addresses that exist *)
Definition ranged {A} (address quantity : Z) (m : ST O Exc A) : ST O Exc A :=
  if 0x10000 <? address + quantity then st_err ExceptionCode.IllegalDataAddress else m.
(** A read of the object, of exactly [quantity] values *)
Definition exactly {A} (quantity : Z) (m : ST O Exc (list A)) : ST O Exc (list A) :=
  values <- m;;
  if negb (blen values =? quantity) then st_err ExceptionCode.ServerDeviceFailure else st_ret values.
Definition at_most {A} (limit : Z) (e : Exc) (m : ST O Exc (list A)) : ST O Exc (list A) :=
  values <- m;;
  if limit <? blen values then st_err e else st_ret values.
Fixpoint consult_reads (xs : list FileSubRequest.t) (acc : bytes) : ST O Exc bytes :=
  match xs with
  | [] => st_ret acc
  | FileSubRequest.mk _ f r n :: xs =>
      if 122 <? n then st_err ExceptionCode.IllegalDataAddress else
      values <- exactly n (supported "read_file_record" (st_err ExceptionCode.IllegalFunction)
        (asked "read_file_record" [PyArg.Int f; PyArg.Int r; PyArg.Int n] extract_u16s));;
      let acc := acc ++ (1 + 2 * n) :: 6 :: words_be values in
      if 250 <? blen acc then st_err ExceptionCode.IllegalDataValue else consult_reads xs acc
  end.
Fixpoint consult_writes (gs : list (FileSubRequest.t * bytes)) : ST O Exc unit :=
  match gs with
  | [] => st_ret tt
  | (FileSubRequest.mk _ f r _, values) :: gs =>
      supported "write_file_record" (st_err ExceptionCode.IllegalFunction)
        (ordered "write_file_record" [PyArg.Int f; PyArg.Int r; PyArg.Ints (be_words values)]);;;
      consult_writes gs
  end.
Definition consult (req : RequestPdu.t) : ST O Exc (option ResponsePdu.t) :=
  match req with
  | RequestPdu.ReadCoils (ReadCoilsRequest.mk a q) =>
      l <- ranged a q (exactly q (asked "read_coils" [PyArg.Int a; PyArg.Int q] extract_bools));;
      st_ret (Some (ResponsePdu.ReadCoils (ReadCoilsResponse.mk (div_ceil q 8) (pack_bits l))))
  | RequestPdu.ReadDiscreteInputs (ReadDiscreteInputsRequest.mk a q) =>
      l <- ranged a q (exactly q (asked "read_discrete_inputs" [PyArg.Int a; PyArg.Int q] extract_bools));;
      st_ret (Some (ResponsePdu.ReadDiscreteInputs (ReadDiscreteInputsResponse.mk (div_ceil q 8) (pack_bits l))))
  | RequestPdu.ReadHoldingRegisters (ReadHoldingRegistersRequest.mk a q) =>
      l <- ranged a q (exactly q (asked "read_holding_registers" [PyArg.Int a; PyArg.Int q] extract_u16s));;
      st_ret (Some (ResponsePdu.ReadHoldingRegisters (ReadHoldingRegistersResponse.mk (q * 2) (words_be l))))
  | RequestPdu.ReadInputRegisters (ReadInputRegistersRequest.mk a q) =>
      l <- ranged a q (exactly q (asked "read_input_registers" [PyArg.Int a; PyArg.Int q] extract_u16s));;
      st_ret (Some (ResponsePdu.ReadInputRegisters (ReadInputRegistersResponse.mk (q * 2) (words_be l))))
  | RequestPdu.WriteSingleCoil (WriteSingleCoilRequest.mk a v) =>
      ordered "write_coil" [PyArg.Int a; PyArg.Bool (CoilValue.as_bool v)];;;
      st_ret (Some (ResponsePdu.WriteSingleCoil (WriteSingleCoilResponse.mk a v)))
  | RequestPdu.WriteSingleRegister (WriteSingleRegisterRequest.mk a v) =>
      ordered "write_register" [PyArg.Int a; PyArg.Int v];;;
      st_ret (Some (ResponsePdu.WriteSingleRegister (WriteSingleRegisterResponse.mk a v)))
  | RequestPdu.WriteMultipleCoils (WriteMultipleCoilsRequest.mk a q _ values) =>
      ranged a q (ordered "write_coils" [PyArg.Int a; PyArg.Bools (unpack_bits q values)]);;;
      st_ret (Some (ResponsePdu.WriteMultipleCoils (WriteMultipleCoilsResponse.mk a q)))
  | RequestPdu.WriteMultipleRegisters (WriteMultipleRegistersRequest.mk a q _ values) =>
      ranged a q (ordered "write_registers" [PyArg.Int a; PyArg.Ints (be_words values)]);;;
      st_ret (Some (ResponsePdu.WriteMultipleRegisters (WriteMultipleRegistersResponse.mk a q)))
  | RequestPdu.MaskWriteRegister (MaskWriteRegisterRequest.mk a am om) =>
      supported "atomic_mask_write_register" (st_err ExceptionCode.IllegalFunction)
        (ordered "atomic_mask_write_register" [PyArg.Int a; PyArg.Int am; PyArg.Int om]);;;
      st_ret (Some (ResponsePdu.MaskWriteRegister (MaskWriteRegisterResponse.mk a am om)))
  | RequestPdu.ReadWriteMultipleRegisters (ReadWriteMultipleRegistersRequest.mk ra rq wa wq _ values) =>
      l <- ranged ra rq (ranged wa wq (exactly rq (supported "atomic_read_write_registers" (st_err ExceptionCode.IllegalFunction)
        (asked "atomic_read_write_registers" [PyArg.Int ra; PyArg.Int rq; PyArg.Int wa; PyArg.Ints (be_words values)] extract_u16s))));;
      st_ret (Some (ResponsePdu.ReadWriteMultipleRegisters (ReadWriteMultipleRegistersResponse.mk (rq * 2) (words_be l))))
  | RequestPdu.ReadFileRecord (ReadFileRecordRequest.mk _ subs) =>
      data <- consult_reads (read_subs subs) [];;
      st_ret (Some (ResponsePdu.ReadFileRecord (ReadFileRecordResponse.mk (blen data) data)))
  | RequestPdu.WriteFileRecord (WriteFileRecordRequest.mk bc subs) =>
      consult_writes (write_subs (length subs) subs);;;
      st_ret (Some (ResponsePdu.WriteFileRecord (WriteFileRecordResponse.mk bc subs)))
  | RequestPdu.ReadFifoQueue (ReadFifoQueueRequest.mk a) =>
      l <- at_most 31 ExceptionCode.IllegalDataValue
        (supported "read_fifo_queue" (st_err ExceptionCode.IllegalDataAddress) (asked "read_fifo_queue" [PyArg.Int a] extract_u16s));;
      st_ret (Some (ResponsePdu.ReadFifoQueue (ReadFifoQueueResponse.mk (2 + blen l * 2) (blen l) (words_be l))))
  | RequestPdu.ReadExceptionStatus =>
      x <- supported "read_exception_status" (st_err ExceptionCode.IllegalFunction) (asked "read_exception_status" [] extract_u8);;
      st_ret (Some (ResponsePdu.ReadExceptionStatus (ReadExceptionStatusResponse.mk x)))
  | RequestPdu.GetCommEventCounter =>
      x <- supported "get_comm_event_counter" (st_err ExceptionCode.IllegalFunction) (asked "get_comm_event_counter" [] extract_u16_pair);;
      st_ret (Some (ResponsePdu.GetCommEventCounter (GetCommEventCounterResponse.mk x.1 x.2)))
  | RequestPdu.GetCommEventLog =>
      log <- supported "get_comm_event_log" (st_err ExceptionCode.IllegalFunction) (asked "get_comm_event_log" [] extract_event_log);;
      let '(status, event_count, message_count, events) := log in
      if 64 <? blen events then st_err ExceptionCode.ServerDeviceFailure else
      st_ret (Some (ResponsePdu.GetCommEventLog (GetCommEventLogResponse.mk (blen events + 6) status event_count message_count events)))
  | RequestPdu.ReportServerId =>
      l <- at_most 251 ExceptionCode.ServerDeviceFailure
        (supported "report_server_id" (st_err ExceptionCode.IllegalFunction) (asked "report_server_id" [] extract_u8s));;
      st_ret (Some (ResponsePdu.ReportServerId (ReportServerIdResponse.mk (blen l) l)))
  | RequestPdu.Diagnostics (DiagnosticsRequest.mk sub data) =>
      answer <- diagnosed sub data;;
      match answer with
      | None => st_ret None
      | Some data =>
          if (250 <? blen data) || negb (blen data mod 2 =? 0) then st_err ExceptionCode.ServerDeviceFailure
          else st_ret (Some (ResponsePdu.Diagnostics (DiagnosticsResponse.mk sub data)))
      end
  | RequestPdu.EncapsulatedInterface _ | RequestPdu.Custom _ _ => st_err ExceptionCode.IllegalFunction
  end.
(** The requests for which the object is consulted even when they are broadcast *)
Definition applies (req : RequestPdu.t) : bool :=
  is_write req || match req with RequestPdu.Diagnostics _ => true | _ => false end.
(** What the server says: nothing to a broadcast *)
Definition reply_of (req : RequestPdu.t) (broadcast : bool) (r : res Exc (option ResponsePdu.t) * O) : res Empty_set (option bytes) * O :=
  match r with
  | (Ok x, o) => (Ok (if broadcast then None else response_wire <$> x), o)
  | (Err ec, o) => (Ok (if broadcast then None else Some (exception_reply (request_function req) ec)), o)
  | (Panic, o) => (Panic, o)
  | (OutOfFuel, o) => (OutOfFuel, o)
  end.
End Consult.

(** * Lemmas *)
Section Exact.
Context {O : Type} `{PyObject O} `{!PyObjectLaws O}.
Import PyDataStore.
Implicit Types (o : O).
Abbreviation always := (λ _ : O, True).

(** ** The calls of the code are those of the specification *)
Lemma exception_code_class e : pyerr_to_exception_code e = first_class e modbus_exceptions.
Proof. reflexivity. Qed.
Lemma ask_asked {A} name args (extract : pyvalue → res PyErr.t A) o : ask name args extract o = asked name args extract o.
Proof.
  unfold ask, map_err, asked, st_bind. destruct (call_method name args o) as [[v|e| |] o']; try done. cbn. by destruct (extract v).
Qed.
Lemma tell_ordered name args o : tell name args o = ordered name args o.
Proof. unfold tell, map_err, ordered, st_bind. by destruct (call_method name args o) as [[v|e| |] o']. Qed.
Lemma missing_supported {A} name e (m m' : ST O Exc A) o : (∀ o', m o' = m' o') → or_missing name e m o = supported name (st_err e) m' o.
Proof.
  intros Hm. unfold or_missing, has_method, map_err, supported, st_bind. destruct (hasattr name o) as [[[]|x| |] o']; done.
Qed.
Lemma missing_asked {A} name e args (extract : pyvalue → res PyErr.t A) o :
  or_missing name e (ask name args extract) o = supported name (st_err e) (asked name args extract) o.
Proof. apply missing_supported. intros. apply ask_asked. Qed.
Lemma missing_ordered name e args o : or_missing name e (tell name args) o = supported name (st_err e) (ordered name args) o.
Proof. apply missing_supported. intros. apply tell_ordered. Qed.
Lemma diagnostic_diagnosed sub data o : PyDataStore.diagnostic sub data o = diagnosed sub data o.
Proof.
  unfold PyDataStore.diagnostic, diagnosed, has_method, map_err, supported, st_bind. destruct (hasattr _ o) as [[[]|x| |] o']; try done; [apply ask_asked|by destruct sub].
Qed.
Lemma bind_at {A B} (m m' : ST O Exc A) (k : A → ST O Exc B) o : m o = m' o → st_bind m k o = st_bind m' k o.
Proof. unfold st_bind. by intros ->. Qed.
Lemma exactly_at {A} q (m m' : ST O Exc (list A)) o : m o = m' o → exactly q m o = exactly q m' o.
Proof. apply bind_at. Qed.
Lemma at_most_at {A} n e (m m' : ST O Exc (list A)) o : m o = m' o → at_most n e m o = at_most n e m' o.
Proof. apply bind_at. Qed.

(** ** Every call returns, with values of their types *)
Lemma exception_code_u8 e : is_u8 (ExceptionCode.code (pyerr_to_exception_code e)).
Proof. unfold pyerr_to_exception_code. repeat (case_match; [done|]). done. Qed.
Lemma exception_code_canonical e : ec_canonical (pyerr_to_exception_code e).
Proof. unfold pyerr_to_exception_code. repeat (case_match; [done|]). done. Qed.
Lemma map_err_acts {A} (P : A → Prop) (m : ST O PyErr.t A) : (∀ o, extracted P (m o).1) → acts always P (map_err m).
Proof.
  intros Hm o _. specialize (Hm o). unfold map_err. destruct (m o) as [[a|e| |] o']; try done. split; [|done]. apply exception_code_u8.
Qed.
Lemma ask_acts {A} (P : A → Prop) name args (extract : pyvalue → res PyErr.t A) : (∀ v, extracted P (extract v)) → acts always P (ask name args extract).
Proof.
  intros He. apply map_err_acts. intros o. unfold st_bind. pose proof (call_returns name args o) as Hc.
  destruct (call_method name args o) as [[v|e| |] o']; try done. apply He.
Qed.
Lemma tell_acts name args : acts always (λ _, True) (tell name args).
Proof. apply map_err_acts. intros o. unfold st_bind. pose proof (call_returns name args o) as Hc. by destruct (call_method name args o) as [[v|e| |] o']. Qed.
Lemma has_method_acts name : acts always (λ _, True) (has_method name).
Proof. apply map_err_acts. intros o. pose proof (hasattr_returns name o) as Hc. by destruct (hasattr name o) as [[v|e| |] o']. Qed.
Lemma acts_bind {A B} (P : A → Prop) (Q : B → Prop) (m : ST O Exc A) (k : A → ST O Exc B) :
  acts always P m → (∀ a, P a → acts always Q (k a)) → acts always Q (st_bind m k).
Proof.
  intros Hm Hk o Ho. specialize (Hm o Ho). unfold st_bind. destruct (m o) as [[a|e| |] o'], Hm as [Ha _]; try done. by apply Hk.
Qed.
Lemma acts_ret {A} (P : A → Prop) a : P a → acts always P (st_ret a).
Proof. by intros Ha o. Qed.
Lemma acts_err {A} (P : A → Prop) e : is_u8 (ExceptionCode.code e) → acts always P (st_err e).
Proof. by intros He o. Qed.
Lemma or_missing_acts {A} (P : A → Prop) name e (m : ST O Exc A) : is_u8 (ExceptionCode.code e) → acts always P m → acts always P (or_missing name e m).
Proof. intros He Hm. eapply acts_bind; [apply has_method_acts|]. intros [] _; [done|]. by apply acts_err. Qed.

(** A reply made of what was read, or the exception *)
Definition told {A} (fc : FunctionCode.t) (g : A → bytes) (r : res Exc A * O) : res Empty_set bytes * O :=
  match r with
  | (Ok x, o') => (Ok (g x), o')
  | (Err ec, o') => (Ok (exception_reply fc ec), o')
  | (Panic, o') => (Panic, o')
  | (OutOfFuel, o') => (OutOfFuel, o')
  end.

(** ** The default reads *)
Section Reads.
Context {A : Type} (q n : Z) (zero : A) (pack : list A → ST bytes Exc unit) (img : list A → bytes).
Hypothesis pack_fills : ∀ l k o out, (on_buf (pack l);;; st_ret k) (o, out) = fill o out k (Ok (img l)).
Hypothesis Hn : 0 ≤ n.
Definition default_read (m : ST O Exc (list A)) : ST (O * bytes) Exc Z :=
  r <- on_store (with_scratch (replicate (Z.to_nat n) zero) (values <- on_store m;; on_buf (copy_returned_values values q)));;
  let '(count, values) := r in
  if (blen values <? count) || (q <? count) then st_err ExceptionCode.ServerDeviceFailure else
  values <- st_lift (slice_to values count);;
  on_buf (pack values);;;
  st_ret count.
Lemma default_read_run m o out : default_read m (o, out) =
  match m o with
  | (Ok vs, o') => if (q <? blen vs) || (n <? blen vs) then (Err ExceptionCode.ServerDeviceFailure, (o', out)) else fill o' out (blen vs) (Ok (img vs))
  | (Err ec, o') => (Err ec, (o', out))
  | (Panic, o') => (Panic, (o', out))
  | (OutOfFuel, o') => (OutOfFuel, (o', out))
  end.
Proof using pack_fills Hn.
  unfold default_read. unfold st_bind at 1, on_store at 1, with_scratch at 1. unfold st_bind at 1, on_store at 1. cbn [fst snd].
  destruct (m o) as [[vs|ec| |] o']; try done. unfold on_buf at 1, copy_returned_values. rewrite st_bind_get. cbn [fst snd].
  rewrite blen_replicate, Z2Nat.id by done. destruct ((q <? blen vs) || (n <? blen vs)) eqn:Hc; [done|].
  unfold st_bind at 1. change (blen vs) with (0 + blen vs) at 1. pose proof (blen_nonneg vs).
  rewrite buf_copy_splice, splice_front by (rewrite ?blen_replicate; lia). cbn [st_ret rmap rbind fst snd].
  rewrite blen_overlay by (rewrite blen_replicate; lia). rewrite blen_replicate. replace (_ || _) with false by lia.
  rewrite st_bind_lift, slice_to_overlay by (rewrite ?blen_replicate; lia). apply pack_fills.
Qed.
Lemma default_read_fills m : acts always (λ _, True) m → (∀ l, bytes_ok (img l)) → fills always (default_read m).
Proof using pack_fills Hn.
  intros Hm Hb o out _ Hout. rewrite default_read_run. specialize (Hm o I). destruct (m o) as [[vs|ec| |] o'], Hm as [Hr _]; try done.
  destruct ((_ <? _) || (_ <? _)); [done|]. unfold fill. destruct (Z.ltb_spec (blen out) (blen (img vs))); [done|]. split_and!; [apply blen_nonneg|done| |by apply blen_overlay].
  apply overlay_Forall; [done|apply Hb].
Qed.
(** A read for [q] values, into a reply with room for their image *)
Lemma default_read_exact fc pre k m o : 0 ≤ k → q ≤ n → (∀ l, blen l ≤ q → blen (img l) ≤ k) → (∀ l, blen l = q → blen (img l) = k) →
  filled_reply (E := Empty_set) fc pre q (default_read m (o, zeros k)) = told fc (λ vs, pre ++ img vs) (exactly q m o).
Proof using pack_fills Hn.
  intros Hk Hqn Hle Heq. rewrite default_read_run. unfold exactly, st_bind. destruct (m o) as [[vs|ec| |] o']; try done.
  specialize (Hle vs). specialize (Heq vs). destruct (Z.eqb_spec (blen vs) q) as [Hq|Hq]; cbn [negb].
  - replace (_ || _) with false by lia. unfold fill. rewrite blen_zeros by done. specialize (Heq Hq). replace (_ <? _) with false by lia.
    cbn. rewrite Hq, Z.eqb_refl, overlay_all; [done|]. unfold zeros. rewrite length_replicate. unfold blen in Heq. lia.
  - destruct ((_ <? _) || (_ <? _)) eqn:Hc; [done|]. unfold fill. rewrite blen_zeros by done. replace (_ <? _) with false by lia. cbn. by rewrite (proj2 (Z.eqb_neq _ _)).
Qed.
End Reads.

(** ** The default writes *)
Lemma default_write_coils_run (f : Z → list bool → ST O Exc unit) a q packed o : 0 ≤ q → Default.write_coils_packed f a q packed o =
  if (1 <=? q) && (q <=? MAX_WRITE_COILS) && (blen packed =? div_ceil q 8) then f a (unpack_bits q packed) o else (Err ExceptionCode.IllegalDataValue, o).
Proof.
  intros Hq0. unfold Default.write_coils_packed. destruct (_ && _) eqn:Hv.
  - rewrite unpack_packed_coils_Ok by (rewrite ?blen_replicate; unfold MAX_WRITE_COILS in *; lia). rewrite st_bind_lift.
    pose proof (blen_unpack_bits q packed ltac:(lia)) as Hu. by rewrite slice_to_overlay by (rewrite ?Hu, ?blen_replicate; unfold MAX_WRITE_COILS in *; lia).
  - unfold unpack_packed_coils, validate_packed_coils. destruct (Z.eqb_spec (blen packed) (div_ceil q 8)), (Z.eqb_spec q 0), (Z.ltb_spec MAX_WRITE_COILS q); try done.
    destruct (Z.leb_spec 1 q), (Z.leb_spec q MAX_WRITE_COILS); done || lia.
Qed.
Lemma default_write_registers_run (f : Z → list Z → ST O Exc unit) a q bs o : bytes_ok bs → Default.write_registers_be f a q bs o =
  if (1 <=? q) && (q <=? MAX_WRITE_REGISTERS) && (blen bs =? q * 2) then f a (be_words bs) o else (Err ExceptionCode.IllegalDataValue, o).
Proof.
  intros Hb. unfold Default.write_registers_be. destruct (_ && _) eqn:Hv.
  - assert (blen bs = q * 2) as Hlen by lia. pose proof (blen_be_words bs Hb (blen_mod_2 bs q Hlen)) as Hw.
    rewrite unpack_register_values_be_Ok by (rewrite ?blen_replicate; unfold MAX_WRITE_REGISTERS in *; done || lia). rewrite st_bind_lift.
    by rewrite slice_to_overlay by (rewrite ?blen_replicate; unfold MAX_WRITE_REGISTERS in *; lia).
  - unfold unpack_register_values_be, validate_register_values_be. pose proof (blen_nonneg bs).
    destruct (Z.eqb_spec (blen bs) (q * 2)), (Z.eqb_spec q 0), (Z.ltb_spec MAX_WRITE_REGISTERS q); try done.
    destruct (Z.leb_spec 1 q), (Z.leb_spec q MAX_WRITE_REGISTERS); try done; lia.
Qed.
Lemma default_write_file_run (f : Z → Z → list Z → ST O Exc unit) a r n bs o : bytes_ok bs → Default.write_file_record_be f a r n bs o =
  if blen bs =? n * 2 then f a r (be_words bs) o else (Err ExceptionCode.IllegalDataValue, o).
Proof.
  intros Hb. unfold Default.write_file_record_be. destruct (Z.eqb_spec (blen bs) (n * 2)) as [Hl|]; [|done]. cbn [negb].
  pose proof (blen_mod_2 bs n Hl) as Hm. by rewrite chunks_exact_be, st_bind_lift, be_values_words by (done || by apply be_words_u16).
Qed.
(** ** The remaining methods with a buffer *)
Definition exchanging (ra rq wa : Z) (bs : bytes) : ST O Exc (list Z) :=
  supported "atomic_read_write_registers" (st_err ExceptionCode.IllegalFunction)
    (asked "atomic_read_write_registers" [PyArg.Int ra; PyArg.Int rq; PyArg.Int wa; PyArg.Ints (be_words bs)] extract_u16s).
Lemma chunks_enough (k : nat) (out : bytes) : 2 * Z.of_nat k ≤ blen out → (k ≤ length (chunks_exact 2 out))%nat.
Proof.
  revert out. induction k as [|k IH]; intros out Hl; [lia|]. destruct out as [|a [|b out]]; rewrite ?blen_cons in Hl; change (blen (@nil Z)) with 0 in Hl; [lia..|].
  change (a :: b :: out) with ([a; b] ++ out). rewrite chunks_exact_app by done. cbn. specialize (IH out ltac:(lia)). lia.
Qed.
Lemma read_write_object_run ra rq wa wq bs o out : bytes_ok bs → 0 ≤ rq → 0 ≤ wq → PyDataStore.atomic_read_write_registers_be ra rq wa wq bs (o, out) =
  if (1 <=? rq) && (rq <=? MAX_RW_READ_REGISTERS) && (1 <=? wq) && (wq <=? MAX_RW_WRITE_REGISTERS) && (blen bs =? wq * 2) && (rq * 2 <=? blen out)
  then match exactly rq (exchanging ra rq wa bs) o with
       | (Ok vs, o') => (Ok rq, (o', overlay (words_be vs) out))
       | (Err ec, o') => (Err ec, (o', out))
       | (Panic, o') => (Panic, (o', out))
       | (OutOfFuel, o') => (OutOfFuel, (o', out))
       end
  else (Err ExceptionCode.IllegalDataValue, (o, out)).
Proof.
  intros Hb Hrq Hwq. unfold PyDataStore.atomic_read_write_registers_be. unfold st_bind at 1, on_buf at 1, st_get at 1. cbn [fst snd]. rewrite st_bind_lift.
  unfold PyDataStore.validate_atomic_read_write_buffers. destruct (_ && _) eqn:Hv.
  - replace (_ || _ || _ || _) with false by lia. replace (_ || _) with false by lia.
    assert (blen bs = wq * 2) as Hlen by lia. pose proof (blen_mod_2 bs wq Hlen) as Hm. pose proof (blen_be_words bs Hb Hm) as Hw.
    rewrite chunks_exact_be, st_bind_lift, be_values_words by (done || by apply be_words_u16). replace (negb _) with false by lia.
    unfold exactly. unfold st_bind at 1, on_store at 1. unfold st_bind at 2. cbn [fst snd]. rewrite missing_asked. fold (exchanging ra rq wa bs). destruct (exchanging ra rq wa bs o) as [[vs|ec| |] o']; try done.
    destruct (Z.eqb_spec (blen vs) rq) as [Hq|]; [|done]. cbn [negb]. rewrite take_ge by (pose proof (chunks_enough (length vs) out); unfold blen in Hq; lia).
    pose proof (pack_registers_be_Ok vs out ltac:(lia)) as Hp. unfold pack_registers_be in Hp. rewrite st_bind_get in Hp. replace (_ <? _) with false in Hp by lia.
    unfold st_bind, on_buf. cbn [fst snd]. by rewrite Hp.
  - destruct (_ || _ || _ || _) eqn:H1; [done|]. by replace (_ || _) with true by lia.
Qed.
Lemma fifo_object_run a o out : Default.read_fifo_queue_be PyDataStore.read_fifo_queue a (o, out) =
  match at_most 31 ExceptionCode.IllegalDataValue (PyDataStore.read_fifo_queue a) o with
  | (Ok vs, o') => fill o' out (blen vs) (Ok (words_be vs))
  | (Err ec, o') => (Err ec, (o', out))
  | (Panic, o') => (Panic, (o', out))
  | (OutOfFuel, o') => (OutOfFuel, (o', out))
  end.
Proof.
  unfold Default.read_fifo_queue_be, at_most. unfold st_bind at 1, on_store. unfold st_bind at 2. cbn [fst snd].
  destruct (PyDataStore.read_fifo_queue a o) as [[vs|ec| |] o']; try done. change MAX_FIFO_VALUES with 31. destruct (31 <? blen vs); [done|]. apply pack_fill.
Qed.
(** ** The appending methods *)
Lemma append_fails {A} (P : A → Prop) (ec : Exc) o (out : bytes) : is_u8 (ExceptionCode.code ec) →
  ∃ r o' added, (@Err Exc A ec, (o, out)) = (r, (o', out ++ added)) ∧ result_ok P r ∧ True ∧ bytes_ok added.
Proof. intros. exists (Err ec), o, []. rewrite app_nil_r. split_and!; [done..|constructor]. Qed.
(** The object's event log, as its method returns it *)
Definition log_ok (l : CommEventLog.t) : Prop :=
  is_u16 (CommEventLog.status l) ∧ is_u16 (CommEventLog.event_count l) ∧ is_u16 (CommEventLog.message_count l) ∧ bytes_ok (CommEventLog.events l).
Lemma illegal_function_u8 : is_u8 (ExceptionCode.code ExceptionCode.IllegalFunction).
Proof. done. Qed.
Lemma event_log_acts : acts always log_ok PyDataStore.get_comm_event_log.
Proof using PyObjectLaws0.
  apply or_missing_acts; [done|]. eapply acts_bind; [apply ask_acts, event_log_typed|].
  intros [[[st ev] ms] events] (? & ? & ? & ?). by apply acts_ret.
Qed.
Lemma event_log_appends : appends always meta_ok (Default.append_comm_event_log PyDataStore.get_comm_event_log).
Proof using PyObjectLaws0.
  intros o out _. unfold Default.append_comm_event_log. pose proof (event_log_acts o I) as Ha.
  unfold st_bind at 1, on_store. cbn [fst snd]. destruct (PyDataStore.get_comm_event_log o) as [[log|ec| |] o'], Ha as [Ha _]; try done.
  - destruct (_ <? _); [by apply append_fails|]. destruct Ha as (? & ? & ? & ?).
    by exists (Ok (CommEventLogMeta.mk (CommEventLog.status log) (CommEventLog.event_count log) (CommEventLog.message_count log))), o', (CommEventLog.events log).
  - by apply append_fails.
Qed.
Lemma server_id_acts : acts always bytes_ok PyDataStore.report_server_id.
Proof using PyObjectLaws0. apply or_missing_acts; [done|]. apply ask_acts, u8s_typed. Qed.
Lemma server_id_appends : appends always (λ n, 0 ≤ n) (Default.append_server_id PyDataStore.report_server_id).
Proof using PyObjectLaws0.
  intros o out _. unfold Default.append_server_id. pose proof (server_id_acts o I) as Ha.
  unfold st_bind at 1, on_store. cbn [fst snd]. destruct (PyDataStore.report_server_id o) as [[data|ec| |] o'], Ha as [Ha _]; try done.
  - destruct (_ <? _); [by apply append_fails|]. exists (Ok (blen data)), o', data. split; [done|]. split; [apply blen_nonneg|done].
  - by apply append_fails.
Qed.
Lemma diagnostic_acts sub data : bytes_ok data → acts always (from_option bytes_ok True) (PyDataStore.diagnostic sub data).
Proof using PyObjectLaws0.
  intros Hd. eapply acts_bind; [apply has_method_acts|]. intros [] _; cbn [negb]; [apply ask_acts, optional_u8s_typed|].
  destruct sub; first [by apply acts_ret|by apply acts_err].
Qed.
Lemma diagnostic_appends sub data : bytes_ok data → appends always (λ _, True) (Default.append_diagnostic_response PyDataStore.diagnostic sub data).
Proof using PyObjectLaws0.
  intros Hd o out _. unfold Default.append_diagnostic_response. pose proof (diagnostic_acts sub data Hd o I) as Ha.
  unfold st_bind at 1, on_store. cbn [fst snd]. destruct (PyDataStore.diagnostic sub data o) as [[[d|]|ec| |] o'], Ha as [Ha _]; try done.
  - destruct (_ <? _); [by apply append_fails|]. by exists (Ok (Some (blen d))), o', d.
  - exists (Ok None), o', []. rewrite app_nil_r. split_and!; [done..|constructor].
  - by apply append_fails.
Qed.

(** ** The contract of the trait *)
Lemma fill_fills o (out : bytes) k (image : bytes) : bytes_ok out → bytes_ok image → 0 ≤ k →
  let '(r, (o', out')) := fill o out k (Ok image) in result_ok (λ n, 0 ≤ n) r ∧ True ∧ bytes_ok out' ∧ blen out' = blen out.
Proof.
  intros Ho Hi Hk. unfold fill. destruct (Z.ltb_spec (blen out) (blen image)); [done|].
  split_and!; [done..|by apply overlay_Forall|by apply blen_overlay].
Qed.
Lemma u16s_acts name args : acts always (λ _, True) (ask name args extract_u16s).
Proof using PyObjectLaws0. apply ask_acts. intros v. pose proof (u16s_typed v). by destruct (extract_u16s v). Qed.
Lemma read_write_fills ra rq wa wq bs : bytes_ok bs → is_u16 rq → is_u16 wq → fills always (PyDataStore.atomic_read_write_registers_be ra rq wa wq bs).
Proof using PyObjectLaws0.
  intros Hb Hrq Hwq o out _ Ho. rewrite read_write_object_run by (done || lia). destruct (_ && _) eqn:Hv; [|done].
  unfold exactly, st_bind. pose proof (or_missing_acts _ "atomic_read_write_registers" _ _ illegal_function_u8
    (u16s_acts "atomic_read_write_registers" [PyArg.Int ra; PyArg.Int rq; PyArg.Int wa; PyArg.Ints (be_words bs)]) o I) as Ha. rewrite missing_asked in Ha. fold (exchanging ra rq wa bs) in Ha.
  destruct (exchanging ra rq wa bs o) as [[vs|ec| |] o'], Ha as [Ha _]; try done. destruct (Z.eqb_spec (blen vs) rq); [|done].
  pose proof (words_be_length vs). cbn. split_and!; [lia|done|apply overlay_Forall; [done|apply words_be_ok]|apply blen_overlay; lia].
Qed.
Lemma fifo_fills a : fills always (Default.read_fifo_queue_be PyDataStore.read_fifo_queue a).
Proof using PyObjectLaws0.
  intros o out _ Ho. rewrite fifo_object_run. unfold at_most, st_bind.
  assert (is_u8 (ExceptionCode.code ExceptionCode.IllegalDataAddress)) as He by done.
  pose proof (or_missing_acts _ "read_fifo_queue" _ _ He (u16s_acts "read_fifo_queue" [PyArg.Int a]) o I) as Ha. fold (PyDataStore.read_fifo_queue a) in Ha.
  destruct (PyDataStore.read_fifo_queue a o) as [[vs|ec| |] o'], Ha as [Ha _]; try done. destruct (_ <? _); [done|].
  apply fill_fills; [done|apply words_be_ok|apply blen_nonneg].
Qed.
#[export] Instance python_laws : StoreLaws O always.
Proof using PyObjectLaws0.
  split.
  - intros a q _ _. apply (default_read_fills q MAX_READ_COILS false pack_coils pack_bits); [intros; apply pack_coils_fill|done|apply ask_acts, bools_typed|apply pack_bits_ok].
  - intros a q _ _. apply (default_read_fills q MAX_READ_DISCRETE_INPUTS false pack_coils pack_bits); [intros; apply pack_coils_fill|done|apply ask_acts, bools_typed|apply pack_bits_ok].
  - intros a q _ _. apply (default_read_fills q MAX_READ_REGISTERS 0 pack_registers_be words_be); [intros; apply pack_fill|done|apply u16s_acts|apply words_be_ok].
  - intros a q _ _. apply (default_read_fills q MAX_READ_REGISTERS 0 pack_registers_be words_be); [intros; apply pack_fill|done|apply u16s_acts|apply words_be_ok].
  - intros f r n _ _ _. apply (default_read_fills n MAX_FILE_RECORD_REGISTERS 0 pack_registers_be words_be);
      [intros; apply pack_fill|done|by apply or_missing_acts, u16s_acts|apply words_be_ok].
  - intros a _. apply fifo_fills.
  - intros ra rq wa wq bs _ Hrq _ Hwq Hb. by apply read_write_fills.
  - done.
  - intros a b _. apply tell_acts.
  - intros a q bs _ Hq _ o _. cbn [write_coils_packed python_store]. rewrite default_write_coils_run by lia. destruct (_ && _); [|done]. by apply tell_acts.
  - intros a x _ _. apply tell_acts.
  - intros a q bs _ Hq Hb o _. cbn [write_registers_be python_store]. rewrite default_write_registers_run by done. destruct (_ && _); [|done]. by apply tell_acts.
  - intros a am om _ _ _. by apply or_missing_acts, tell_acts.
  - intros f r n bs _ _ _ Hb o _. cbn [write_file_record_be python_store]. rewrite default_write_file_run by done. destruct (_ =? _); [|done].
    apply (or_missing_acts (λ _ : unit, True) "write_file_record" ExceptionCode.IllegalFunction); [done|apply tell_acts|done].
  - apply or_missing_acts; [done|]. apply ask_acts, u8_typed.
  - apply or_missing_acts; [done|]. apply ask_acts, u16_pair_typed.
  - apply event_log_appends.
  - apply server_id_appends.
  - intros sub bs Hb. by apply diagnostic_appends.
Qed.

(** ** The handlers *)
Lemma reply_read {A} req b (m : ST O Empty_set bytes) (c : ST O Exc A) (f : A → ResponsePdu.t) o :
  m o = told (request_function req) (λ a, response_wire (f a)) (c o) →
  unless_broadcast b m o = if b then (Ok None, o) else reply_of req false ((a <- c;; st_ret (Some (f a))) o).
Proof. intros Hm. destruct b; [done|]. unfold unless_broadcast, st_bind. rewrite Hm. by destruct (c o) as [[] ?]. Qed.
Lemma reply_write {R} `{ServerResponse R} `{!EncodeSpec R} req b (x : R) (mk : R → ResponsePdu.t) (m : ST O Exc unit) o :
  wf x → encodable x → response_wire (mk x) = wire x → FUNCTION_CODE = request_function req →
  (result <- attempt m;; unless_broadcast b (st_lift (respond result x))) o = reply_of req b ((m;;; st_ret (Some (mk x))) o).
Proof.
  intros Hwf He Hw Hfc. unfold st_bind at 1, attempt. unfold st_bind at 1. destruct (m o) as [[u|ec| |] o']; try done.
  - cbn. rewrite Hw. destruct b; [done|]. cbn. unfold st_bind, st_lift. by rewrite encode_response_ok.
  - destruct b; [done|]. cbn. by rewrite <-Hfc.
Qed.
Lemma reply_ranged req b (v : res Exc unit) a q P (m : ST O Exc unit) (x : ResponsePdu.t) (k : ST O Empty_set (option bytes)) o :
  range_verdict P [(a, q)] v → P → k o = reply_of req b ((m;;; st_ret (Some x)) o) →
  match v with
  | Ok _ => k
  | Err ec => unless_broadcast b (st_ret (encode_exception (FunctionCode.exception_code (request_function req)) ec))
  | Panic => st_panic
  | OutOfFuel => st_lift OutOfFuel
  end o = reply_of req b ((ranged a q m;;; st_ret (Some x)) o).
Proof.
  intros Hv HP Hk. unfold ranged. destruct Hv as [[_ Hn]|[[-> [_ He]]|[-> [_ Hf]]]]; [done|..].
  - apply Exists_cons in He as [He|He%Exists_nil]; [|done]. replace (_ <? _) with true by lia. by destruct b.
  - apply Forall_cons in Hf as [Hf _]. by replace (_ <? _) with false by lia.
Qed.
(** A read that is checked for its range first *)
Lemma checked_ranged {A} fc (v : res Exc unit) a q P (c : ST O Exc A) o k (g : A → bytes) :
  range_verdict P [(a, q)] v → P →
  k = told fc g (c o) → checked fc v o k = told fc g (ranged a q c o).
Proof.
  intros Hv HP ->. unfold ranged. destruct Hv as [[_ Hn]|[[-> [_ He]]|[-> [_ Hf]]]]; [done|..].
  - apply Exists_cons in He as [He|He%Exists_nil]; [|done]. by replace (_ <? _) with true by lia.
  - apply Forall_cons in Hf as [Hf _]. by replace (_ <? _) with false by lia.
Qed.

Lemma ceil_le x y : 0 ≤ x ≤ y → div_ceil x 8 ≤ div_ceil y 8.
Proof. intros. unfold div_ceil. apply Z.div_le_mono; lia. Qed.
Lemma read_bits_consult (coils : bool) a q o : is_u16 a → 1 ≤ q ≤ 2000 →
  let fc := if coils then FunctionCode.ReadCoils else FunctionCode.ReadDiscreteInputs in
  returning (handle_read_bits fc a q coils) o =
  told fc (λ l, [FunctionCode.code fc; div_ceil q 8] ++ pack_bits l)
    (ranged a q (exactly q (asked (if coils then "read_coils" else "read_discrete_inputs") [PyArg.Int a; PyArg.Int q] extract_bools)) o).
Proof.
  intros Ha Hq fc. unfold fc. rewrite read_bits_run by done. pose proof (byte_count_8 q Hq).
  eapply (checked_ranged _ _ _ _ (1 ≤ q ≤ 2000)); [destruct coils; [apply validate_read_coils_verdict|apply validate_read_discrete_inputs_verdict]; lia|done|].
  assert (∀ l : list bool, blen l ≤ q → blen (pack_bits l) ≤ div_ceil q 8) as Hle
    by (intros l Hl; rewrite blen_pack_bits; apply ceil_le; pose proof (blen_nonneg l); lia).
  assert (∀ l : list bool, blen l = q → blen (pack_bits l) = div_ceil q 8) as Heq by (intros l <-; apply blen_pack_bits).
  rewrite <-(exactly_at _ _ _ _ (ask_asked _ _ _ _)).
  destruct coils; [refine (default_read_exact q MAX_READ_COILS false pack_coils pack_bits _ _ _ _ _ _ _ _ _ Hle Heq)
    |refine (default_read_exact q MAX_READ_DISCRETE_INPUTS false pack_coils pack_bits _ _ _ _ _ _ _ _ _ Hle Heq)];
    try (intros; apply pack_coils_fill); unfold MAX_READ_COILS, MAX_READ_DISCRETE_INPUTS; lia.
Qed.
Lemma read_registers_consult (holding : bool) a q o : is_u16 a → 1 ≤ q ≤ 125 →
  let fc := if holding then FunctionCode.ReadHoldingRegisters else FunctionCode.ReadInputRegisters in
  returning (handle_read_registers fc a q holding) o =
  told fc (λ l, [FunctionCode.code fc; q * 2] ++ words_be l)
    (ranged a q (exactly q (asked (if holding then "read_holding_registers" else "read_input_registers") [PyArg.Int a; PyArg.Int q] extract_u16s)) o).
Proof.
  intros Ha Hq fc. unfold fc. rewrite read_registers_run by done.
  eapply (checked_ranged _ _ _ _ (1 ≤ q ≤ 125)); [apply validate_read_registers_verdict; lia|done|].
  assert (∀ l : list Z, blen l ≤ q → blen (words_be l) ≤ q * 2) as Hle by (intros l Hl; rewrite words_be_length; lia).
  assert (∀ l : list Z, blen l = q → blen (words_be l) = q * 2) as Heq by (intros l <-; apply words_be_length).
  rewrite <-(exactly_at _ _ _ _ (ask_asked _ _ _ _)). destruct holding; refine (default_read_exact q MAX_READ_REGISTERS 0 pack_registers_be words_be _ _ _ _ _ _ _ _ _ Hle Heq);
    try (intros; apply pack_fill); unfold MAX_READ_REGISTERS; lia.
Qed.
Lemma read_write_consult ra rq wa wq bc vs o : is_u16 ra → is_u16 wa → 1 ≤ rq ≤ 125 → 1 ≤ wq ≤ 121 → bytes_ok vs → bc = 2 * wq → blen vs = 2 * wq →
  let fc := FunctionCode.ReadWriteMultipleRegisters in
  returning (handle_read_write_multiple (ReadWriteMultipleRegistersRequest.mk ra rq wa wq bc vs)) o =
  told fc (λ l, [FunctionCode.code fc; rq * 2] ++ words_be l) (ranged ra rq (ranged wa wq (exactly rq (exchanging ra rq wa vs))) o).
Proof.
  intros Hra Hwa Hrq Hwq Hb Hbc Hl fc. unfold fc. rewrite read_write_run by done.
  destruct (validate_read_write_registers_verdict ra rq wa wq bc ltac:(lia) ltac:(lia)) as [[_ Hn]|[[-> [_ Hout]]|[-> [_ Hin]]]]; [lia|..]; cbn [checked]; unfold ranged.
  - rewrite !Exists_cons, Exists_nil in Hout. destruct (Z.ltb_spec 65536 (ra + rq)); [done|]. by replace (65536 <? wa + wq) with true by lia.
  - rewrite !Forall_cons in Hin. replace (65536 <? ra + rq) with false by lia. replace (65536 <? wa + wq) with false by lia.
    cbn [Store.atomic_read_write_registers_be python_store]. rewrite read_write_object_run by (done || lia). rewrite blen_zeros by lia.
    change MAX_RW_READ_REGISTERS with 125. change MAX_RW_WRITE_REGISTERS with 121. replace (_ && _) with true by lia.
    unfold exactly, st_bind. destruct (exchanging ra rq wa vs o) as [[l|ec| |] o']; try done.
    destruct (Z.eqb_spec (blen l) rq) as [Hq|]; [|done]. cbn. rewrite Z.eqb_refl, overlay_all; [done|]. pose proof (words_be_length l) as Hw.
    unfold zeros. rewrite length_replicate. unfold blen in Hw, Hq. lia.
Qed.
Lemma fifo_consult a o : returning (handle_read_fifo_queue a) o =
  told FunctionCode.ReadFifoQueue (λ l, 0x18 :: to_be_bytes (2 + blen l * 2) ++ to_be_bytes (blen l) ++ words_be l)
    (at_most 31 ExceptionCode.IllegalDataValue (supported "read_fifo_queue" (st_err ExceptionCode.IllegalDataAddress) (asked "read_fifo_queue" [PyArg.Int a] extract_u16s)) o).
Proof using PyObjectLaws0.
  rewrite <-(at_most_at _ _ _ _ _ (missing_asked _ _ _ _ _)). fold (PyDataStore.read_fifo_queue a).
  pose proof (fifo_object_run a o (zeros 62)) as Hr. pose proof (fifo_fills a o (zeros 62) I (bytes_ok_zeros _)) as Hf. rewrite Hr in Hf.
  change (Default.read_fifo_queue_be _) with (read_fifo_queue_be (S := O)) in Hr. unfold at_most, st_bind in Hr, Hf |- *.
  destruct (PyDataStore.read_fifo_queue a o) as [[l|ec| |] o']; try (by destruct Hf).
  - pose proof (words_be_length l) as Hw. pose proof (blen_nonneg l). destruct (Z.ltb_spec 31 (blen l)) as [Hl|Hl]; [by rewrite (fifo_run a o _ _ _ Hr)|].
    unfold fill in Hr. cbn [st_ret] in Hr. rewrite blen_zeros in Hr by lia. replace (62 <? _) with false in Hr by lia.
    rewrite (fifo_run a o _ _ _ Hr) by (done || (intros ? [= <-]; lia)). change MAX_FIFO_VALUES with 31. replace (31 <? _) with false by lia.
    cbn [told st_ret]. do 2 f_equal. unfold overlay. replace (Z.to_nat (blen l * 2)) with (length (words_be l)) by (unfold blen in *; lia). by rewrite take_app_length.
  - by rewrite (fifo_run a o _ _ _ Hr).
Qed.
Lemma server_id_consult o : returning handle_report_server_id o =
  told FunctionCode.ReportServerId (λ l, 0x11 :: blen l :: l) (at_most 251 ExceptionCode.ServerDeviceFailure
    (supported "report_server_id" (st_err ExceptionCode.IllegalFunction) (asked "report_server_id" [] extract_u8s)) o).
Proof using PyObjectLaws0.
  rewrite <-(at_most_at _ _ _ _ _ (missing_asked _ _ _ _ _)). fold PyDataStore.report_server_id.
  set (pre := [FunctionCode.code FunctionCode.ReportServerId; 0]).
  assert (append_server_id (o, pre) = match PyDataStore.report_server_id o with
    | (Ok l, o') => if 251 <? blen l then (Err ExceptionCode.ServerDeviceFailure, (o', pre ++ [])) else (Ok (blen l), (o', pre ++ l))
    | (Err ec, o') => (Err ec, (o', pre ++ [])) | (Panic, o') => (Panic, (o', pre)) | (OutOfFuel, o') => (OutOfFuel, (o', pre)) end) as Hr.
  { cbn [append_server_id python_store]. unfold Default.append_server_id. unfold st_bind at 1, on_store. cbn [fst snd].
    destruct (PyDataStore.report_server_id o) as [[l|ec| |] o']; try done. change MAX_SERVER_ID_BYTES with 251. by destruct (251 <? blen l). }
  pose proof (server_id_acts o I) as Ha. unfold at_most, st_bind. destruct (PyDataStore.report_server_id o) as [[l|ec| |] o'], Ha as [Ha _]; try done.
  - destruct (251 <? blen l) eqn:Hl; rewrite (server_id_run _ _ _ _ Hr) by done; [done|]. change MAX_SERVER_ID_BYTES with 251. by rewrite Hl, Z.eqb_refl.
  - by rewrite (server_id_run _ _ _ _ Hr).
Qed.
(** The event log, within the limit of the protocol *)
Definition bounded_log : ST O Exc CommEventLog.t :=
  log <- PyDataStore.get_comm_event_log;;
  if 64 <? blen (CommEventLog.events log) then st_err ExceptionCode.ServerDeviceFailure else st_ret log.
Lemma event_log_consult o : returning handle_comm_event_log o =
  told FunctionCode.GetCommEventLog (λ l, 0x0C :: (blen (CommEventLog.events l) + 6) :: to_be_bytes (CommEventLog.status l) ++ to_be_bytes (CommEventLog.event_count l)
    ++ to_be_bytes (CommEventLog.message_count l) ++ CommEventLog.events l) (bounded_log o).
Proof using PyObjectLaws0.
  set (pre := [FunctionCode.code FunctionCode.GetCommEventLog; 0; 0; 0; 0; 0; 0; 0]).
  assert (append_comm_event_log (o, pre) = match PyDataStore.get_comm_event_log o with
    | (Ok l, o') => if 64 <? blen (CommEventLog.events l) then (Err ExceptionCode.ServerDeviceFailure, (o', pre ++ []))
        else (Ok (CommEventLogMeta.mk (CommEventLog.status l) (CommEventLog.event_count l) (CommEventLog.message_count l)), (o', pre ++ CommEventLog.events l))
    | (Err ec, o') => (Err ec, (o', pre ++ [])) | (Panic, o') => (Panic, (o', pre)) | (OutOfFuel, o') => (OutOfFuel, (o', pre)) end) as Hr.
  { cbn [append_comm_event_log python_store]. unfold Default.append_comm_event_log. unfold st_bind at 1, on_store. cbn [fst snd].
    destruct (PyDataStore.get_comm_event_log o) as [[l|ec| |] o']; try done. change MAX_COMM_EVENT_LOG_EVENTS with 64. by destruct (64 <? blen (CommEventLog.events l)). }
  pose proof (event_log_acts o I) as Ha. unfold bounded_log, st_bind. destruct (PyDataStore.get_comm_event_log o) as [[l|ec| |] o'], Ha as [Ha _]; try done.
  - destruct (64 <? blen (CommEventLog.events l)) eqn:Hl; rewrite (comm_event_log_run _ _ _ _ Hr) by done; [done|]. change MAX_COMM_EVENT_LOG_EVENTS with 64. by rewrite Hl.
  - by rewrite (comm_event_log_run _ _ _ _ Hr).
Qed.
Lemma diagnostics_consult (b : bool) sub data o : bytes_ok data →
  (result <- handle_diagnostics (S := O) sub data;; if b then st_ret None else st_ret result) o =
  reply_of (RequestPdu.Diagnostics (DiagnosticsRequest.mk sub data)) b (consult (RequestPdu.Diagnostics (DiagnosticsRequest.mk sub data)) o).
Proof using PyObjectLaws0.
  intros Hd. set (pre := FunctionCode.code FunctionCode.Diagnostics :: to_be_bytes (DiagnosticSubFunction.code sub)).
  assert (append_diagnostic_response sub data (o, pre) = match PyDataStore.diagnostic sub data o with
    | (Ok None, o') => (Ok None, (o', pre ++ []))
    | (Ok (Some l), o') => if 250 <? blen l then (Err ExceptionCode.ServerDeviceFailure, (o', pre ++ [])) else (Ok (Some (blen l)), (o', pre ++ l))
    | (Err ec, o') => (Err ec, (o', pre ++ [])) | (Panic, o') => (Panic, (o', pre)) | (OutOfFuel, o') => (OutOfFuel, (o', pre)) end) as Hr.
  { cbn [append_diagnostic_response python_store]. unfold Default.append_diagnostic_response. unfold st_bind at 1, on_store. cbn [fst snd].
    destruct (PyDataStore.diagnostic sub data o) as [[[l|]|ec| |] o']; try done. change MAX_DIAGNOSTIC_RESPONSE_DATA_LEN with 250. by destruct (250 <? blen l). }
  pose proof (diagnostic_acts sub data Hd o I) as Ha. cbn [consult]. unfold st_bind at 1. unfold st_bind at 1. rewrite <-diagnostic_diagnosed. destruct (PyDataStore.diagnostic sub data o) as [[[l|]|ec| |] o'], Ha as [Ha _]; try done.
  - destruct (250 <? blen l) eqn:Hl; rewrite (diagnostics_run _ _ _ _ _ _ Hr) by done; [by destruct b|].
    change MAX_DIAGNOSTIC_RESPONSE_DATA_LEN with 250. unfold is_multiple_of. rewrite Hl, Z.eqb_refl. cbn [negb orb]. destruct (blen l mod 2 =? 0); by destruct b.
  - rewrite (diagnostics_run _ _ _ _ _ _ Hr) by done. by destruct b.
  - rewrite (diagnostics_run _ _ _ _ _ _ Hr) by done. by destruct b.
Qed.
(** ** File records *)
Lemma read_groups_consult xs : Forall (λ x, FileSubRequest_wf x ∧ FileSubRequest_valid x) xs → ∀ acc o,
  read_file_groups (map FileSubRequest_wire xs) ([0x14; 0] ++ acc) o =
  match consult_reads xs acc o with
  | (Ok data, o') => (Ok ([0x14; 0] ++ data), o')
  | (Err ec, o') => (Err (exception_reply FunctionCode.ReadFileRecord ec), o')
  | (Panic, o') => (Panic, o')
  | (OutOfFuel, o') => (OutOfFuel, o')
  end.
Proof.
  induction 1 as [|x xs [Hwf Hv] _ IH]; intros acc o; [done|]. cbn [map read_file_groups]. unfold st_bind at 1. pose proof (blen_nonneg acc).
  pose proof (file_group_run x ([0x14; 0] ++ acc) o Hwf Hv ltac:(rewrite blen_app; change (blen [_; _]) with 2; lia)) as Hrun.
  destruct x as [ty f r n], Hwf as (_ & _ & Hn), Hv as (_ & _ & _ & Hn1 & _). cbn in Hn, Hn1. cbv zeta in Hrun. rewrite Hrun. clear Hrun. cbn [consult_reads].
  change MAX_FILE_RECORD_REGISTERS with 122. destruct (Z.ltb_spec 122 n); [done|]. cbn [read_file_record_be python_store].
  change (Default.read_file_record_be PyDataStore.read_file_record f r n) with (default_read n MAX_FILE_RECORD_REGISTERS 0 pack_registers_be
    (or_missing "read_file_record" ExceptionCode.IllegalFunction (ask "read_file_record" [PyArg.Int f; PyArg.Int r; PyArg.Int n] extract_u16s))).
  rewrite (default_read_run _ _ _ _ words_be) by (done || (intros; apply pack_fill)). unfold exactly. unfold st_bind at 1 2. rewrite missing_asked.
  destruct (supported _ _ _ o) as [[vs|ec| |] o']; try done. change MAX_FILE_RECORD_REGISTERS with 122. pose proof (words_be_length vs) as Hw.
  destruct (Z.eqb_spec (blen vs) n) as [Hq|Hq]; cbn [negb].
  - replace (_ || _) with false by lia. unfold fill. rewrite blen_zeros by lia. replace (_ <? _) with false by lia. rewrite overlay_all by (unfold zeros; rewrite length_replicate; unfold blen in *; lia).
    replace (blen vs =? n) with true by lia. cbn [negb st_ret]. cbv zeta beta. rewrite !blen_app, !blen_cons. change (blen []) with 0.
    replace (1 + (1 + 0) + blen acc + blen (words_be vs)) with (blen acc + (1 + (1 + blen (words_be vs)))) by lia.
    cbn [st_ret]. destruct (250 <? _); [done|]. rewrite <-!app_assoc. apply IH.
  - destruct (_ || _) eqn:Hc; [done|]. unfold fill. rewrite blen_zeros by lia. replace (_ <? _) with false by lia.
    by replace (blen vs =? n) with false by lia.
Qed.
Lemma consult_reads_fits xs : ∀ acc o, blen acc ≤ 250 → match (consult_reads xs acc o).1 with Ok data => blen data ≤ 250 | _ => True end.
Proof.
  induction xs as [|[ty f r n] xs IH]; intros acc o Ha; [done|]. cbn [consult_reads]. destruct (122 <? n); [done|]. unfold st_bind at 1.
  destruct (exactly _ _ o) as [[vs|ec| |] o']; try done. destruct (Z.ltb_spec 250 (blen (acc ++ (1 + 2 * n) :: 6 :: words_be vs))); [done|]. by apply IH.
Qed.
Lemma read_file_consult bc subs o : ReadFileRecordRequest_wf (ReadFileRecordRequest.mk bc subs) → ReadFileRecordRequest_encodable (ReadFileRecordRequest.mk bc subs) →
  returning (handle_read_file_record (ReadFileRecordRequest.mk bc subs)) o =
  told FunctionCode.ReadFileRecord (λ data, 0x14 :: blen data :: data) (consult_reads (read_subs subs) [] o).
Proof.
  intros [_ Hb] (Hbc & Hlen & Hg). cbn [ReadFileRecordRequest.byte_count ReadFileRecordRequest.sub_requests] in *. subst bc.
  destruct (read_groups_split subs Hg) as (xs & Hsubs & Hxs).
  assert (Forall (λ g, blen g = 7) (map FileSubRequest_wire xs)) as H7 by (apply Forall_map, Forall_true; done).
  assert (blen subs mod 7 = 0) as Hmod by (rewrite Hsubs; by apply blen_concat_mod).
  unfold handle_read_file_record. cbn [ReadFileRecordRequest.sub_requests]. unfold is_empty, is_multiple_of.
  replace (_ || _ || _) with false by lia. rewrite Hsubs, read_subs_of, chunks_exact_concat_inv, returning_bind by done.
  change ([FunctionCode.code _] ++ [0]) with ([0x14; 0] ++ []). rewrite (read_groups_consult xs Hxs []).
  pose proof (consult_reads_fits xs [] o ltac:(done)) as Hf. destruct (consult_reads xs [] o) as [[data|ec| |] o']; try done. cbn [fst] in Hf.
  rewrite blen_app. change (blen [_; _]) with 2. pose proof (blen_nonneg data). rewrite usub_Ok by lia. replace (2 + blen data - 2) with (blen data) by lia.
  rewrite returning_lift, checked_u8_ok by lia. rewrite returning_lift. cbn [app]. by rewrite vec_set_1.
Qed.
Lemma write_groups_consult gs : Forall group_ok gs → ∀ o, write_groups (map group_of gs) o = consult_writes gs o.
Proof.
  induction 1 as [|[x v] gs Hg _ IH]; intros o; [done|]. destruct x as [ty f r n], Hg as (_ & _ & Hb & Hl). cbn in Hb, Hl. cbn [map group_of write_groups consult_writes].
  unfold st_bind. cbn [write_file_record_be python_store]. rewrite default_write_file_run by done. replace (_ =? _) with true by lia.
  unfold PyDataStore.write_file_record. rewrite missing_ordered. destruct (supported _ _ _ o) as [[u|ec| |] o']; try done.
Qed.
Lemma write_file_consult bc subs o : WriteFileRecordRequest_wf (WriteFileRecordRequest.mk bc subs) → WriteFileRecordRequest_encodable (WriteFileRecordRequest.mk bc subs) →
  apply_write_file_record (WriteFileRecordRequest.mk bc subs) o = consult_writes (write_subs (length subs) subs) o.
Proof.
  intros Hwf Hen. destruct (write_request_groups bc subs Hwf Hen) as (gs & Hsubs & Hgs & Hp).
  assert (write_subs (length subs) subs = gs) as ->.
  { rewrite Hsubs. apply write_subs_of; [done|]. clear -Hgs. induction Hgs as [|g gs Hg _ IH]; [done|]. cbn [map concat].
    rewrite length_app. apply group_wire_len in Hg as [Hg _]. unfold blen in Hg. cbn [length]. lia. }
  destruct Hen as (Hbc & _). unfold apply_write_file_record. cbn [WriteFileRecordRequest.byte_count WriteFileRecordRequest.sub_requests] in *.
  replace (negb _) with false by lia. rewrite st_bind_lift, Hp. by apply write_groups_consult.
Qed.

(** ** Dispatch *)
Lemma counter_consult {A R} `{ServerResponse R} `{!EncodeSpec R} (P : A → Prop) (m : ST O Exc A) (x : A → R) (mk : R → ResponsePdu.t) req o :
  acts always P m → (∀ a, P a → wf (x a) ∧ encodable (x a)) → (∀ r, response_wire (mk r) = wire r) →
  (result <- attempt m;;
   match result with
   | inl a => st_lift (encode_response (x a))
   | inr ec => st_ret (encode_exception (FunctionCode.exception_code (request_function req)) ec)
   end) o = told (request_function req) (λ a, response_wire (mk (x a))) (m o).
Proof.
  intros Hm Hx Hmk. specialize (Hm o I). unfold st_bind at 1, attempt. destruct (m o) as [[a|ec| |] o'], Hm as [Hm _]; try done.
  destruct (Hx a Hm) as [Hwf He]. unfold st_lift. cbn. by rewrite Hmk, encode_response_ok.
Qed.
(** A request that is not for a broadcast *)
Lemma consults_read {A} req (b : bool) (m : ST O Empty_set bytes) (c : ST O Exc A) (f : A → ResponsePdu.t) o : applies req = false →
  consult req o = (a <- c;; st_ret (Some (f a))) o → m o = told (request_function req) (λ a, response_wire (f a)) (c o) →
  unless_broadcast b m o = if b && negb (applies req) then (Ok None, o) else reply_of req b (consult req o).
Proof. intros -> -> Hm. rewrite (reply_read req b m c f o Hm). by destruct b. Qed.
Lemma log_consult_shape o : consult RequestPdu.GetCommEventLog o =
  (l <- bounded_log;; st_ret (Some (ResponsePdu.GetCommEventLog (GetCommEventLogResponse.mk (blen (CommEventLog.events l) + 6) (CommEventLog.status l)
     (CommEventLog.event_count l) (CommEventLog.message_count l) (CommEventLog.events l))))) o.
Proof.
  cbn [consult]. unfold bounded_log, PyDataStore.get_comm_event_log, or_missing, supported, has_method, map_err, st_bind.
  destruct (hasattr _ o) as [[[]|ec| |] o']; cbn [negb]; try done. fold (ask "get_comm_event_log" [] extract_event_log). rewrite ask_asked.
  destruct (asked _ _ _ o') as [[[[[st ev] ms] events]|ec| |] o'']; try done. cbn. by destruct (64 <? blen events).
Qed.
Lemma dispatch_consults req unit (b : bool) dev o : request_ok req → is_device_id req = false →
  dispatch_request req (request_wire req) unit b dev o =
  if b && negb (applies req) then (Ok None, o) else reply_of req b (consult req o).
Proof using PyObjectLaws0.
  intros Hok Hnd. destruct req as [x|x|x|x|x|x| |x| | |x|x| |x|x|x|x|x|x|fc data]; cbn [request_ok] in Hok; try open_request; unfold dispatch_request.
  - eapply consults_read; [done|reflexivity|]. apply (read_bits_consult true); lia.
  - eapply consults_read; [done|reflexivity|]. apply (read_bits_consult false); lia.
  - eapply consults_read; [done|reflexivity|]. apply (read_registers_consult true); lia.
  - eapply consults_read; [done|reflexivity|]. apply (read_registers_consult false); lia.
  - cbn [applies is_write orb negb]. rewrite andb_false_r. cbn [consult]. rewrite <-(bind_at _ _ _ _ (tell_ordered _ _ _)).
    by apply (reply_write (RequestPdu.WriteSingleCoil _) b (WriteSingleCoilResponse.mk address value) ResponsePdu.WriteSingleCoil).
  - cbn [applies is_write orb negb]. rewrite andb_false_r. cbn [consult]. rewrite <-(bind_at _ _ _ _ (tell_ordered _ _ _)).
    by apply (reply_write (RequestPdu.WriteSingleRegister _) b (WriteSingleRegisterResponse.mk address value) ResponsePdu.WriteSingleRegister).
  - eapply consults_read; [done|reflexivity|]. rewrite <-missing_asked. eapply (counter_consult (λ x, is_u8 x) _ ReadExceptionStatusResponse.mk ResponsePdu.ReadExceptionStatus RequestPdu.ReadExceptionStatus); [|done|done].
    apply or_missing_acts; [done|]. apply ask_acts, u8_typed.
  - cbn [applies is_write orb negb]. rewrite andb_false_r. by apply diagnostics_consult.
  - eapply consults_read; [done|reflexivity|]. rewrite <-missing_asked.
    etrans; [|apply (counter_consult (λ x, is_u16 x.1 ∧ is_u16 x.2) PyDataStore.get_comm_event_counter (λ x, GetCommEventCounterResponse.mk x.1 x.2) ResponsePdu.GetCommEventCounter RequestPdu.GetCommEventCounter); [|done|done]].
    { unfold st_bind, attempt. cbn [Store.get_comm_event_counter python_store]. by destruct (PyDataStore.get_comm_event_counter o) as [[[status count]|ec| |] o']. }
    apply or_missing_acts; [done|]. apply ask_acts, u16_pair_typed.
  - eapply consults_read; [done|apply log_consult_shape|]. apply event_log_consult.
  - cbn [applies is_write orb negb]. rewrite andb_false_r.
    eapply (reply_ranged (RequestPdu.WriteMultipleCoils _)); [apply validate_write_coils_verdict; lia|lia|].
    rewrite (reply_write (RequestPdu.WriteMultipleCoils (WriteMultipleCoilsRequest.mk address quantity byte_count coil_values)) b (WriteMultipleCoilsResponse.mk address quantity) ResponsePdu.WriteMultipleCoils) by done.
    unfold st_bind at 1 2. cbn [write_coils_packed python_store]. rewrite default_write_coils_run by lia. change MAX_WRITE_COILS with 1968. unfold div_ceil. replace (quantity + 8 - 1) with (quantity + 7) by lia.
    replace (_ && _) with true by lia. rewrite <-tell_ordered. reflexivity.
  - cbn [applies is_write orb negb]. rewrite andb_false_r.
    eapply (reply_ranged (RequestPdu.WriteMultipleRegisters _)); [apply validate_write_registers_verdict; lia|lia|].
    rewrite (reply_write (RequestPdu.WriteMultipleRegisters (WriteMultipleRegistersRequest.mk address quantity byte_count register_values)) b (WriteMultipleRegistersResponse.mk address quantity) ResponsePdu.WriteMultipleRegisters) by done.
    unfold st_bind at 1 2. cbn [write_registers_be python_store]. rewrite default_write_registers_run by done. change MAX_WRITE_REGISTERS with 123.
    replace (_ && _) with true by lia. rewrite <-tell_ordered. reflexivity.
  - eapply consults_read; [done|reflexivity|]. apply server_id_consult.
  - eapply consults_read; [done|reflexivity|]. by apply read_file_consult.
  - cbn [applies is_write orb negb]. rewrite andb_false_r. cbn [consult].
    rewrite (reply_write (RequestPdu.WriteFileRecord (WriteFileRecordRequest.mk byte_count sub_requests)) b (WriteFileRecordResponse.mk byte_count sub_requests) ResponsePdu.WriteFileRecord) by done.
    unfold st_bind at 1 2. by rewrite write_file_consult.
  - cbn [applies is_write orb negb]. rewrite andb_false_r.
    rewrite (reply_write (RequestPdu.MaskWriteRegister (MaskWriteRegisterRequest.mk address and_mask or_mask)) b (MaskWriteRegisterResponse.mk address and_mask or_mask) ResponsePdu.MaskWriteRegister) by done.
    unfold handle_mask_write, validate_mask_write_address, validate_address_range. cbn [consult]. unfold st_bind at 1 2 3, st_lift. replace (_ <? _) with false by lia. by rewrite <-missing_ordered.
  - eapply consults_read; [done|reflexivity|]. apply read_write_consult; done || lia.
  - eapply consults_read; [done|reflexivity|]. apply fifo_consult.
  - destruct mei_type; [|done]. by destruct b.
  - destruct Hok as (Hfc & Hcu & _). destruct b; [done|]. cbn [andb]. unfold unless_broadcast, st_bind. rewrite custom_run. cbn. do 2 f_equal.
    unfold exception_reply, FunctionCode.exception_code, request_function. by rewrite FunctionCode_code_from_byte.
Qed.
End Exact.

(** * Theorems *)

(** C19. A server over any Python object, for every byte string it receives: it returns, whatever the
    methods of the object do; a request that does not decode gets its exception without the
    object being asked; for every other request the object is asked exactly what [consult] says
    (nothing for a broadcast that is not a write or a diagnostic): the method for it is called with
    its arguments, once, or once for each file record group. An answer of the right
    type and size is the reply on the wire, one of another size the exception of the method;
    what is raised, by the method or by the conversion of its answer, is the Modbus exception of the
    first class of [modbus_exceptions] it is an instance of, or a device failure. The reply is at most 253 bytes long, and there is none for a broadcast. *)
Theorem python_server_exact (O : Type) `{PyObject O} `{!PyObjectLaws O} (pdu : bytes) (unit_id : Z) (dev : DeviceIdentification.t) (o : O) :
  bytes_ok pdu → is_u8 unit_id → device_ok dev →
  let broadcast := UnitId.is_broadcast unit_id in
  ∃ reply o', process_request pdu unit_id dev o = (Ok reply, o') ∧
  match reply with Some resp => broadcast = false ∧ bytes_ok resp ∧ 1 ≤ blen resp ≤ MAX_PDU_SIZE | None => True end ∧
  match decode_request pdu with
  | Ok (RequestPdu.EncapsulatedInterface (EncapsulatedInterfaceRequest.mk MeiType.ReadDeviceIdentification data)) =>
      o' = o ∧ if broadcast then reply = None else ∃ resp, reply = Some resp ∧ device_id_answer data dev resp
  | Ok req => (Ok reply, o') = if broadcast && negb (applies req) then (Ok None, o) else reply_of req broadcast (consult req o)
  | Err e => o' = o ∧ reply = if broadcast then None else Some [Z.lor (default 0 (get pdu 0)) 0x80; malformed_code e]
  | Panic | OutOfFuel => False
  end.
Proof.
  intros Hb Hu Hdev broadcast. pose proof (process_ok (λ _ : O, True) pdu unit_id dev o I Hb Hu Hdev) as Hsafe. fold broadcast in Hsafe.
  destruct (process_request pdu unit_id dev o) as [[reply|e| |] o'] eqn:Hp; [|by destruct Hsafe..]. exists reply, o'. split; [done|].
  split. { destruct reply as [resp|]; [|done]. destruct Hsafe as (_ & ? & ? & ? & _). done. }
  unfold process_request in Hp. fold broadcast in Hp. destruct (decode_request pdu) as [req|e| |] eqn:Hd.
  - destruct (decode_request_sound pdu req Hb Hd) as (Hok & Hw & _). subst pdu. destruct (is_device_id req) eqn:Hid.
    + destruct req as [| | | | | | | | | | | | | | | | | |[[] data]|]; try done. cbn [dispatch_request] in Hp. rewrite bool_decide_true in Hp by done.
      destruct (build_device_id_response_spec (E:=Empty_set) data dev) as (resp & Hr & Ha). destruct broadcast; [by injection Hp as <- <-|].
      cbn in Hp. unfold st_bind, st_lift in Hp. rewrite Hr in Hp. injection Hp as <- <-. split; [done|]. by exists resp.
    + rewrite (dispatch_consults req unit_id broadcast dev o Hok Hid) in Hp. symmetry in Hp. by destruct req as [| | | | | | | | | | | | | | | | | |[[] data]|].
  - destruct broadcast; injection Hp as <- <-; [done|]. by rewrite <-decode_exception_code.
  - destruct (dispatchers_return pdu Hb) as [Hr _]. by rewrite Hd in Hr.
  - destruct (dispatchers_return pdu Hb) as [Hr _]. by rewrite Hd in Hr.
Qed.

(** An object with a few registers, whose only optional method returns a value that is no byte *)
Module Shelf.
Definition call (name : string) (args : list PyArg.t) : ST (list Z) PyErr.t (list Z) :=
  λ regs, match args with
          | [PyArg.Int a; PyArg.Int n] =>
              if bool_decide (name = "read_holding_registers")
              then (if (0 <=? a) && (0 <=? n) && (a + n <=? blen regs) then Ok (sublist a n regs) else Err (PyErr.new_err PyClass.IllegalDataAddressError), regs)
              else if bool_decide (name = "write_register") then (Ok [], <[Z.to_nat a:=n]> regs)
              else (Err (PyErr.new_err PyClass.RuntimeError), regs)
          | _ => (Ok [1000], regs)
          end.
Definition typed {A} (p : Z → bool) (f : list Z → option A) (v : list Z) : res PyErr.t A :=
  if forallb p v then ok_or (f v) (PyErr.new_err PyClass.ValueError) else Err (PyErr.new_err PyClass.ValueError).
Definition u8 (x : Z) : bool := (0 <=? x) && (x <? 256).
Definition u16 (x : Z) : bool := (0 <=? x) && (x <? 65536).
#[export] Instance object : PyObject (list Z) := {|
  pyvalue := list Z;
  hasattr name := st_ret (bool_decide (name = "read_exception_status"));
  call_method := call;
  extract_bools := typed (λ _, true) (λ v, Some ((λ x, negb (x =? 0)) <$> v));
  extract_u16s := typed u16 Some;
  extract_u8s := typed u8 Some;
  extract_u8 := typed u8 head;
  extract_u16_pair := typed u16 (λ v, match v with [a; b] => Some (a, b) | _ => None end);
  extract_event_log := typed u8 (λ v, match v with a :: b :: c :: l => Some (a, b, c, l) | _ => None end);
  extract_optional_u8s := typed u8 (λ v, Some (Some v));
|}.
Lemma typed_ok {A} p (f : list Z → option A) (P : A → Prop) v : (forallb p v = true → ∀ a, f v = Some a → P a) → extracted P (typed p f v).
Proof. intros Hf. unfold typed. destruct (forallb p v); [|done]. destruct (f v) as [a|] eqn:Ha; [|done]. by apply Hf. Qed.
Lemma all_u8 v : forallb u8 v = true → bytes_ok v.
Proof. intros Hv. apply Forall_forall. intros x Hx%list_elem_of_In. rewrite List.forallb_forall in Hv. specialize (Hv x Hx). unfold u8, byte_ok in *. lia. Qed.
Lemma all_u16 v : forallb u16 v = true → u16s v.
Proof. intros Hv. apply Forall_forall. intros x Hx%list_elem_of_In. rewrite List.forallb_forall in Hv. specialize (Hv x Hx). unfold u16 in *. lia. Qed.
#[export] Instance laws : PyObjectLaws (list Z).
Proof.
  split.
  - done.
  - intros name args regs. cbn. unfold call. by repeat case_match.
  - intros v. by apply typed_ok.
  - intros v. apply typed_ok. intros Hv a [= <-]. by apply all_u16.
  - intros v. apply typed_ok. intros Hv a [= <-]. by apply all_u8.
  - intros v. apply typed_ok. intros Hv a Ha. destruct v as [|x v]; [done|]. injection Ha as <-. by apply all_u8, bytes_ok_cons in Hv as [? _].
  - intros v. apply typed_ok. intros Hv a Ha. destruct v as [|x [|y []]]; try done. injection Ha as <-. apply all_u16 in Hv as [? [? _]%Forall_cons]%Forall_cons. done.
  - intros v. apply typed_ok. intros Hv a Ha. destruct v as [|x [|y [|z v]]]; try done. injection Ha as <-.
    apply all_u8 in Hv as [? [? [? ?]%bytes_ok_cons]%bytes_ok_cons]%bytes_ok_cons. unfold byte_ok in *. split_and!; try lia. done.
  - intros v. apply typed_ok. intros Hv a [= <-]. by apply all_u8.
Qed.
End Shelf.
Import Shelf.
Lemma python_server_exact_witness :
  (∃ o', process_request [0x03; 0; 1; 0; 2] 1 small_device [10; 20; 30] = (Ok (Some [0x03; 4; 0; 20; 0; 30]), o') ∧ o' = [10; 20; 30]) ∧
  (∃ o', process_request [0x03; 0; 2; 0; 2] 1 small_device [10; 20; 30] = (Ok (Some [0x83; 2]), o') ∧ o' = [10; 20; 30]) ∧
  (∃ o', process_request [0x06; 0; 2; 0; 9] 0 small_device [10; 20; 30] = (Ok None, o') ∧ o' = [10; 20; 9]) ∧
  (∃ o', process_request [0x07] 1 small_device [10; 20; 30] = (Ok (Some [0x87; 4]), o') ∧ o' = [10; 20; 30]).
Proof.
  assert (∀ l, forallb Shelf.u8 l = true → bytes_ok l) as Hb by apply Shelf.all_u8.
  split_and!.
  - destruct (python_server_exact (list Z) [0x03; 0; 1; 0; 2] 1 small_device [10; 20; 30] (Hb [0x03; 0; 1; 0; 2] eq_refl) ltac:(lia) small_device_ok) as (reply & o' & -> & _ & Hr).
    vm_compute in Hr. injection Hr as -> ->. by eexists.
  - destruct (python_server_exact (list Z) [0x03; 0; 2; 0; 2] 1 small_device [10; 20; 30] (Hb [0x03; 0; 2; 0; 2] eq_refl) ltac:(lia) small_device_ok) as (reply & o' & -> & _ & Hr).
    vm_compute in Hr. injection Hr as -> ->. by eexists.
  - destruct (python_server_exact (list Z) [0x06; 0; 2; 0; 9] 0 small_device [10; 20; 30] (Hb [0x06; 0; 2; 0; 9] eq_refl) ltac:(lia) small_device_ok) as (reply & o' & -> & _ & Hr).
    vm_compute in Hr. injection Hr as -> ->. by eexists.
  - destruct (python_server_exact (list Z) [0x07] 1 small_device [10; 20; 30] (Hb [0x07] eq_refl) ltac:(lia) small_device_ok) as (reply & o' & -> & _ & Hr).
    vm_compute in Hr. injection Hr as -> ->. by eexists.
Defined.
