(* ===== verification/Identification.v ===== *)
(** * Reading the identification of a device (crates/rusty-modbus-client/src/methods,
    crates/rusty-modbus-server/src/device_id.rs)

    The last request method of the client: it follows the pages of a basic stream. It
    returns over any connection, and from the server it gets what the server is
    configured with. *)
From Stdlib Require Import Sorted.
From S2P Require Import Prelude Types CodecError FileRecords Requests Responses MeiResponses Pdu Stream Mbap Owned Session Deadlines Transaction.
From S2P Require Import Bits Store Memory DeviceId Handler Server Service ServerTasks Client Methods Calls Loopback RemoteCalls.

(** * Specification *)

(** What the client learns of a device: its names, with what is not UTF-8 replaced *)
Definition identified (dev : DeviceIdentification.t) : OwnedDeviceIdentification.t :=
  OwnedDeviceIdentification.mk (Some (from_utf8_lossy (DeviceIdentification.vendor_name dev)))
    (Some (from_utf8_lossy (DeviceIdentification.product_code dev)))
    (Some (from_utf8_lossy (DeviceIdentification.major_minor_revision dev))).
(** A name too long for a PDU makes the whole stream fail *)
Definition identification_spec (dev : DeviceIdentification.t) : res ClientError.t OwnedDeviceIdentification.t :=
  if existsb too_long (stream_objects dev DeviceIdCode.BasicStream)
  then Err (ClientError.Exception (ExceptionResponse.mk FunctionCode.EncapsulatedInterfaceTransport ExceptionCode.ServerDeviceFailure))
  else Ok (identified dev).

(** * Lemmas *)

(** The request for the page that starts at an object *)
Definition page_request (o : Z) : bytes := [0x2B; 0x0E; 0x01; o].
Lemma encode_page_request o : is_u8 o →
  encode_request (ReadDeviceIdentificationRequest.mk DeviceIdCode.BasicStream o) 4 = Ok (page_request o).
Proof.
  intros Ho. destruct (encode_request_exact (ReadDeviceIdentificationRequest.mk DeviceIdCode.BasicStream o) 4) as [[_ Heq]|[Hno _]]; try done.
Qed.
Lemma page_objects_collect x : ReadDeviceIdentificationResponse_wf x → ReadDeviceIdentificationResponse_valid x →
  ∃ xs, DeviceIdObjectIter.collect 256 (ReadDeviceIdentificationResponse.objects x) = Ok xs.
Proof.
  intros [_ Hn] (_ & _ & _ & xs & _ & Hod & Hnum). exists xs. unfold ReadDeviceIdentificationResponse.objects. rewrite Hod, Hnum.
  apply (DeviceIdObjectIter_collect_more (S (length xs))); [|apply DeviceIdObjectIter_collect_wire]. rewrite Hnum in Hn. unfold blen in Hn. lia.
Qed.

Section AnyConnection.
Context {W : Type} `{Connection W} (inv : W → Prop) `{!ConnectionLaws W inv}.

Lemma finish_inv {A} (r : res ClientError.t A) w : inv w → ∃ w', finish_typed_response r w = (r, w') ∧ inv w'.
Proof. intros Hw. rewrite finish_run. eexists. split; [done|]. case_match; [by apply retire_law|done]. Qed.
Lemma reply_payload o : reply_sound (Ok o) → ∀ mei, o = OwnedResponsePdu.EncapsulatedInterface mei → bytes_ok (OwnedEncapsulatedInterfaceResponse.data mei).
Proof. intros Hd%sound_decoded [t d] ->. destruct Hd as [[Hwf _]|[? ?]]; [exact Hwf|done]. Qed.
Lemma identification_loop_returns fuel u : ∀ result o pages w, 0 ≤ pages → Z.of_nat fuel + pages = 3 → pages < 3 → is_u8 o → inv w →
  ∃ r w', device_identification_loop fuel u result o pages w = (r, w') ∧ returns r ∧ inv w'.
Proof.
  induction fuel as [|fuel IH]; intros result o pages w Hp Hfuel Hlt Ho Hw; [lia|]. cbn [device_identification_loop].
  rewrite encode_page_request by done. rewrite st_bind_lift. unfold st_bind at 1.
  destruct (request_law u FunctionCode.EncapsulatedInterfaceTransport (page_request o) RequestKind.ReplaySafe w Hw) as [Hs Hw1].
  destruct (request u FunctionCode.EncapsulatedInterfaceTransport (page_request o) RequestKind.ReplaySafe w) as [[reply|e| |] w1]; cbn [fst snd] in Hs, Hw1; try done; [|by eauto].
  pose proof (reply_payload reply Hs) as Hpay. set (payload := match reply with OwnedResponsePdu.EncapsulatedInterface _ => _ | _ => _ end).
  assert (returns payload ∧ ∀ d, payload = Ok d → bytes_ok d) as [Hpr Hpb].
  { unfold payload. destruct reply; try (split; [exact I|by intros ? [=]]). split; [exact I|]. intros d [= <-]. by eapply Hpay. }
  unfold st_bind at 1. destruct (finish_inv payload w1 Hw1) as (w2 & -> & Hw2). destruct payload as [data|e| |]; try done; [|by eauto].
  specialize (Hpb data eq_refl). assert (bytes_ok (0x0E :: data)) as Hb by (apply bytes_ok_cons; split; [unfold byte_ok; lia|done]).
  pose proof (ReadDeviceIdentificationResponse_decode_returns _ Hb) as Hret. unfold st_bind at 1.
  destruct (ReadDeviceIdentificationResponse.decode (0x0E :: data)) as [x|e| |] eqn:Hx; try done;
    [|by destruct (finish_inv (A := ReadDeviceIdentificationResponse.t) (Err (ClientError.Codec e)) w2 Hw2) as (w3 & -> & Hw3); eauto].
  destruct (finish_inv (Ok x) w2 Hw2) as (w3 & -> & Hw3).
  destruct (ReadDeviceIdentificationResponse_decode_inv _ _ Hb Hx) as (Hwf & Hv & _). destruct (page_objects_collect x Hwf Hv) as (xs & Hc).
  rewrite Hc, st_bind_lift. destruct (negb _); [by eauto|]. change MAX_BASIC_DEVICE_ID_RESPONSE_PAGES with 3.
  destruct (Z.leb_spec 3 (pages + 1)); [destruct (finish_inv (A := OwnedDeviceIdentification.t) (Err (ClientError.DeviceIdentificationPaginationLimit 3)) w3 Hw3) as (w4 & -> & ?); by eauto|].
  case_match; [match goal with |- context [finish_typed_response (A := ?A) (Err ?e)] => destruct (finish_inv (A := A) (Err e) w3 Hw3) as (w4 & -> & ?) end; by eauto|].
  apply IH; try lia; [|done]. by destruct Hwf.
Qed.
(** It returns, whatever the peer sends. *)
Lemma identification_returns u w : inv w → ∃ r w', read_device_identification u w = (r, w') ∧ returns r ∧ inv w'.
Proof.
  intros Hw. unfold read_device_identification. destruct (UnitId.is_broadcast u); [by do 2 eexists|].
  apply identification_loop_returns; (lia || done).
Qed.
End AnyConnection.

(** ** From the server *)
Section Served.
Context (unit_id : Z) (dev : DeviceIdentification.t) (Hdev : device_ok dev) (last : Z).
Context (config : ClientConfig.t) (Hconfig : config_ok config) (Htime : 1 ≤ ClientConfig.timeout config).
Local Instance peer : Peer InMemoryStore.t := server_peer unit_id dev.
Local Instance laws : PeerLaws InMemoryStore.t store_ok (answering unit_id) := server_peer_laws unit_id dev Hdev.
Local Instance served_runtime : Runtime (Loop.t InMemoryStore.t) := loop_runtime last.
Local Instance served_connection : Connection (Loop.t InMemoryStore.t) := client_connection config.
Abbreviation basic := (stream_objects dev DeviceIdCode.BasicStream).

(** The reply to the request for a page *)
Definition page_reply (T : Tables.t) (o : Z) (r : ResponsePdu.t) (s : InMemoryStore.t) : Prop :=
  tables_of s = T ∧
  if existsb too_long basic
  then r = ResponsePdu.Exception (ExceptionResponse.mk FunctionCode.EncapsulatedInterfaceTransport ExceptionCode.ServerDeviceFailure)
  else ∃ page rest, is_page (from_object o basic) page rest ∧
    r = ResponsePdu.EncapsulatedInterface (EncapsulatedInterfaceResponse.mk MeiType.ReadDeviceIdentification
          (tail (ReadDeviceIdentificationResponse_wire (page_response dev DeviceIdCode.BasicStream page rest)))).

Lemma page_decodes o page rest : existsb too_long basic = false → is_page (from_object o basic) page rest →
  let x := page_response dev DeviceIdCode.BasicStream page rest in
  decode_response (page_pdu dev DeviceIdCode.BasicStream page rest) =
    Ok (ResponsePdu.EncapsulatedInterface (EncapsulatedInterfaceResponse.mk MeiType.ReadDeviceIdentification (tail (ReadDeviceIdentificationResponse_wire x)))) ∧
  ReadDeviceIdentificationResponse.decode (ReadDeviceIdentificationResponse_wire x) = Ok x ∧
  DeviceIdObjectIter.collect 256 (ReadDeviceIdentificationResponse.objects x) = Ok page.
Proof.
  intros Hlong Hp x. destruct (page_objects dev DeviceIdCode.BasicStream o page rest Hp) as (pre & post & Hobj).
  assert (Forall (λ x, too_long x = false) page) as Hshort.
  { pose proof (stream_short dev DeviceIdCode.BasicStream Hlong) as Hf. destruct (from_object_suffix o basic) as [q Hq]. rewrite Hq, (proj1 Hp), !Forall_app in Hf. by destruct Hf as (_ & ? & _). }
  destruct (page_response_valid dev DeviceIdCode.BasicStream pre page rest post Hdev Hobj Hshort ltac:(done)) as (Hwf & Hv & _).
  destruct (page_reply_wf dev DeviceIdCode.BasicStream pre page rest post Hdev Hobj Hshort ltac:(done) (proj1 (proj2 (proj2 Hp)))) as (data & Hw & Hd & He & Heq).
  split; [|split; [by apply ReadDeviceIdentificationResponse_decode_wire|]].
  - injection Heq as <-. refine (decode_response_complete (ResponsePdu.EncapsulatedInterface (EncapsulatedInterfaceResponse.mk _ (tail (ReadDeviceIdentificationResponse_wire x)))) (conj Hw Hd) _).
    apply (page_pdu_ok dev DeviceIdCode.BasicStream page rest), Hp.
  - unfold x, ReadDeviceIdentificationResponse.objects, page_response. cbn [ReadDeviceIdentificationResponse.object_data ReadDeviceIdentificationResponse.num_objects].
    apply (DeviceIdObjectIter_collect_more (S (length page))); [|apply DeviceIdObjectIter_collect_wire].
    pose proof (objects_len dev) as Hlen. rewrite Hobj, !blen_app in Hlen. unfold blen in Hlen. lia.
Qed.
Lemma decode_page_request o : decode_request (page_request o) = Ok (RequestPdu.EncapsulatedInterface (EncapsulatedInterfaceRequest.mk MeiType.ReadDeviceIdentification [1; o])).
Proof. reflexivity. Qed.
Lemma respond_page u o s txn : store_ok s → answering unit_id u → is_u8 o → is_u16 txn →
  ∃ resp s' r, respond (unit_frame txn u (page_request o)) s = (Some (unit_frame txn u resp), s') ∧
    store_ok s' ∧ reply_ok 0x2B resp ∧ decode_response resp = Ok r ∧ page_reply (tables_of s) o r s'.
Proof.
  intros Hs Hu Ho Ht. pose proof Hu as (Hu8 & Hbc & _). assert (bytes_ok (page_request o)) as Hb by (repeat constructor; unfold byte_ok; lia).
  pose proof (process_ok store_ok (page_request o) u dev s Hs Hb Hu8 Hdev) as Hsafe.
  destruct (process_serves s (page_request o) u dev Hs Hb Hu8 Hdev) as (reply & s' & Hp & Hs' & Hr). rewrite decode_page_request in Hr.
  rewrite Hbc in Hr, Hsafe. destruct Hr as (HT & resp & -> & Hspec). rewrite Hp in Hsafe. destruct Hsafe as (_ & _ & Hrok).
  exists resp, s'. assert (∃ r, decode_response resp = Ok r ∧ page_reply (tables_of s) o r s') as (r & Hd & Hr).
  { cbn [reply_spec device_id_answer] in Hspec. change (DeviceIdCode.from_raw 1) with (Some DeviceIdCode.BasicStream) in Hspec. unfold page_reply. cbv beta iota zeta in Hspec.
    destruct (existsb too_long basic) eqn:Hlong in Hspec; rewrite Hlong; [subst resp; eexists; split; [reflexivity|done]|].
    destruct Hspec as (page & rest & Hpage & ->). destruct (page_decodes o page rest Hlong Hpage) as [Hd _]. eauto 10. }
  exists r. split_and!; try done. by eapply (respond_processed unit_id dev).
Qed.

Lemma page_request_served u o w : loop_ok store_ok last w → answering unit_id u → is_u8 o →
  ∃ reply w', request u FunctionCode.EncapsulatedInterfaceTransport (page_request o) RequestKind.ReplaySafe w = (Ok reply, w') ∧
    page_reply (tables_of (Loop.server w)) o (borrowed reply) (Loop.server w') ∧ loop_ok store_ok last w' ∧
    TransactionManager.reuse_safety (Loop.ring w') = TransactionManager.reuse_safety (Loop.ring w).
Proof.
  intros Hw Hu Ho. pose proof Hu as (Hu8 & _). cbn [request served_connection client_connection].
  destruct (loop_request_any store_ok last config Hconfig Htime u FunctionCode.EncapsulatedInterfaceTransport (page_request o) RequestKind.ReplaySafe
    (page_reply (tables_of (Loop.server w)) o) w) as (reply & w' & Heq & HQ & _ & Hw' & Hsafe); try done.
  - repeat constructor; unfold byte_ok; lia.
  - intros txn Htxn. apply respond_page; try done. by apply (loop_server _ _ _ Hw).
  - intros r s' [_ Hr]. pose proof (classify_attempt_spec config RequestKind.ReplaySafe (Ok r)) as Hc.
    destruct (classify_attempt config RequestKind.ReplaySafe (Ok r)) as [r'|e]; [by destruct Hc as [-> _]|].
    inversion Hc as [exc Hbusy _ Hr'| |]; subst. cbn [borrowed] in Hr. destruct (existsb too_long basic); [by simplify_eq|by destruct Hr as (? & ? & _ & ?)].
  - by exists reply, w'.
Qed.

Lemma collect_basic_app xs ys result : collect_basic (xs ++ ys) result = collect_basic ys (collect_basic xs result).
Proof. revert result. induction xs as [|x xs IH]; intros []; cbn [app collect_basic]; [done|]. by rewrite IH. Qed.
Lemma basic_identified : collect_basic basic OwnedDeviceIdentification.default = identified dev.
Proof. by destruct dev. Qed.
Lemma basic_ids pre ys : basic = pre ++ ys → Forall (λ x, is_u8 (oid x)) ys ∧ StronglySorted (λ x y, oid x < oid y) ys.
Proof.
  intros Hb. destruct (objects_ids dev) as [Hsort Hids]. destruct (stream_prefix dev DeviceIdCode.BasicStream) as [post Hpost].
  rewrite Hpost, Hb, <-app_assoc in Hsort, Hids. rewrite !Forall_app in Hids. split.
  - destruct Hids as (_ & Hids & _). eapply Forall_impl; [exact Hids|]. cbn. lia.
  - clear -Hsort. induction pre as [|x pre IH]; [|inversion Hsort; auto]. cbn in Hsort. induction ys as [|y ys IH]; [constructor|].
    inversion Hsort as [|? ? Hs Hall]; subst. apply Forall_app in Hall as [Hall _]. constructor; auto.
Qed.

Lemma borrowed_encapsulated o mt data : borrowed o = ResponsePdu.EncapsulatedInterface (EncapsulatedInterfaceResponse.mk mt data) →
  o = OwnedResponsePdu.EncapsulatedInterface (OwnedEncapsulatedInterfaceResponse.mk mt data).
Proof. destruct o as [| | | | | | | | | | | | | | | | | |[]| |]; try done; cbn; intros; repeat case_match; by simplify_eq. Qed.
Lemma identification_loop_served fuel u : existsb too_long basic = false → answering unit_id u → ∀ result pre ys o pages w,
  loop_ok store_ok last w → basic = pre ++ ys → ys ≠ [] → from_object o basic = ys → head_id ys = o →
  0 ≤ pages → blen ys + pages ≤ 3 → Z.of_nat fuel + pages = 3 →
  ∃ w', device_identification_loop fuel u result o pages w = (Ok (collect_basic ys result), w') ∧ loop_ok store_ok last w' ∧
    tables_of (Loop.server w') = tables_of (Loop.server w) ∧ TransactionManager.reuse_safety (Loop.ring w') = TransactionManager.reuse_safety (Loop.ring w).
Proof.
  intros Hlong Hu. induction fuel as [|fuel IH]; intros result pre ys o pages w Hw Hpre Hne Hfrom Hhead Hp Hlen Hfuel.
  { destruct ys; [done|]. rewrite blen_cons in Hlen. pose proof (blen_nonneg ys). lia. }
  destruct (basic_ids pre ys Hpre) as [Hu8 Hsort].
  assert (is_u8 o) as Ho by (destruct ys as [|y ys]; [done|]; apply Forall_cons in Hu8 as [? _]; by rewrite <-Hhead).
  cbn [device_identification_loop]. rewrite encode_page_request by done. rewrite st_bind_lift. unfold st_bind at 1.
  destruct (page_request_served u o w Hw Hu Ho) as (reply & w1 & -> & (HT & Hr) & Hw1 & Hsafe). rewrite Hlong in Hr. destruct Hr as (page & rest & Hpage & Hr).
  assert (reply = OwnedResponsePdu.EncapsulatedInterface (OwnedEncapsulatedInterfaceResponse.mk MeiType.ReadDeviceIdentification
    (tail (ReadDeviceIdentificationResponse_wire (page_response dev DeviceIdCode.BasicStream page rest))))) as ->.
  { by apply borrowed_encapsulated in Hr. }
  destruct (page_decodes o page rest Hlong Hpage) as (_ & Hdec & Hcol). rewrite Hfrom in Hpage. destruct Hpage as (Hsplit & Hpne & _).
  unfold st_bind at 1. rewrite finish_run. cbn [typed_retirement OwnedEncapsulatedInterfaceResponse.data].
  change (0x0E :: tail (ReadDeviceIdentificationResponse_wire ?x)) with (ReadDeviceIdentificationResponse_wire x). rewrite Hdec.
  unfold st_bind at 1. rewrite finish_run. cbn [typed_retirement]. rewrite Hcol, st_bind_lift.
  cbn [page_response ReadDeviceIdentificationResponse.more_follows ReadDeviceIdentificationResponse.next_object_id]. rewrite negb_involutive.
  destruct rest as [|x rest]; [rewrite app_nil_r in Hsplit; exists w1; by rewrite Hsplit|]. rewrite is_empty_cons. cbn [head_id].
  assert (blen ys = blen page + blen (x :: rest)) as Hys by (rewrite Hsplit; apply blen_app).
  assert (1 ≤ blen page) by (destruct page; [done|]; rewrite blen_cons; pose proof (blen_nonneg page); lia). rewrite blen_cons in Hys. pose proof (blen_nonneg rest).
  change MAX_BASIC_DEVICE_ID_RESPONSE_PAGES with 3. rewrite (proj2 (Z.leb_gt 3 _)) by lia.
  assert (o < oid x) as Hox.
  { destruct page as [|y page]; [done|]. cbn in Hsplit. rewrite Hsplit in Hhead, Hsort. cbn in Hhead. subst o. inversion Hsort as [|? ? _ Hall]; subst.
    rewrite Forall_app, Forall_cons in Hall. by destruct Hall as (_ & ? & _). }
  rewrite (proj2 (Z.leb_gt _ _)) by done.
  destruct (IH (collect_basic page result) (pre ++ page) (x :: rest) (oid x) (pages + 1) w1) as (w2 & Heq & Hw2 & HT2 & Hsafe2); try done.
  - by rewrite Hpre, Hsplit, <-app_assoc.
  - apply (from_object_split dev DeviceIdCode.BasicStream Hlong (pre ++ page)). by rewrite Hpre, Hsplit, <-app_assoc.
  - lia.
  - rewrite blen_cons. lia.
  - lia.
  - exists w2. rewrite Heq, Hsplit, collect_basic_app. split_and!; [done|done|congruence|congruence].
Qed.
Lemma identification_served u w : loop_ok store_ok last w → answering unit_id u →
  ∃ w', read_device_identification u w = (identification_spec dev, w') ∧ loop_ok store_ok last w' ∧
    tables_of (Loop.server w') = tables_of (Loop.server w) ∧ TransactionManager.reuse_safety (Loop.ring w') = TransactionManager.reuse_safety (Loop.ring w).
Proof.
  intros Hw Hu. pose proof Hu as (_ & Hbc & _). unfold read_device_identification, identification_spec. rewrite Hbc.
  destruct (existsb too_long basic) eqn:Hlong.
  - cbn [device_identification_loop]. rewrite encode_page_request by lia. rewrite st_bind_lift. unfold st_bind at 1.
    destruct (page_request_served u 0 w Hw Hu ltac:(lia)) as (reply & w1 & -> & (HT & Hr) & Hw1 & Hsafe). rewrite Hlong in Hr.
    apply borrowed_exception in Hr as ->. unfold st_bind at 1. rewrite finish_run. by exists w1.
  - rewrite <-basic_identified. destruct (stream_nonempty dev DeviceIdCode.BasicStream) as [Hne _].
    apply (identification_loop_served 3 u Hlong Hu _ []); try done; by destruct dev.
Qed.
End Served.

(** * Theorems *)

(** Reading the identification of a device, over any connection whose replies are decoded
    PDUs: the call returns after at most three requests, whatever the peer sends. *)
Theorem identification_total (W : Type) `{Connection W} (inv : W → Prop) `{!ConnectionLaws W inv} (u : Z) (w : W) :
  inv w → ∃ r w', read_device_identification u w = (r, w') ∧ returns r ∧ inv w'.
Proof. apply (identification_returns inv). Qed.

(** C23. A client connected to the server: reading the identification gives exactly the vendor,
    the product and the revision the server is configured with, however many pages they
    need, or the exception that says one of them is too long; the tables are as before. *)
Theorem identification_exact (unit_id : Z) (dev : DeviceIdentification.t) (last : Z) (config : ClientConfig.t) (u : Z) (w : Loop.t InMemoryStore.t) :
  device_ok dev → config_ok config → 1 ≤ ClientConfig.timeout config → loop_ok store_ok last w → answering unit_id u →
  ∃ w', @read_device_identification _ (@client_connection _ (@loop_runtime _ (server_peer unit_id dev) last) config) u w = (identification_spec dev, w') ∧
    loop_ok store_ok last w' ∧ tables_of (Loop.server w') = tables_of (Loop.server w) ∧
    TransactionManager.reuse_safety (Loop.ring w') = TransactionManager.reuse_safety (Loop.ring w).
Proof. intros Hdev Hc Ht Hw Hu. by apply (identification_served unit_id dev Hdev last config Hc Ht). Qed.
(** Three names of 200 bytes come on three pages. *)
Definition wordy_device : DeviceIdentification.t := let v := replicate 200 65 in DeviceIdentification.mk v v v None None None None.
Lemma identification_exact_witness : ∃ w',
  @read_device_identification _ (@client_connection _ (@loop_runtime _ (server_peer 1 wordy_device) 10000000000000) ClientConfig.default) 1 idle_loop =
    (Ok (OwnedDeviceIdentification.mk (Some (replicate 200 65)) (Some (replicate 200 65)) (Some (replicate 200 65))), w') ∧
  tables_of (Loop.server w') = tables_of (Loop.server idle_loop).
Proof.
  destruct (identification_exact 1 wordy_device 10000000000000 ClientConfig.default 1 idle_loop) as (w' & Heq & _ & HT & _).
  - assert (bytes_ok (replicate 200 65)) as Hv by (apply Forall_replicate; unfold byte_ok; lia). do 3 (apply Forall_cons; split; [exact Hv|]). constructor.
  - repeat split; vm_compute; discriminate.
  - vm_compute. discriminate.
  - apply idle_loop_ok. lia.
  - split; [lia|]. split; [reflexivity|]. left. reflexivity.
  - exists w'. split; [|exact HT]. rewrite Heq. reflexivity.
Defined.
