(* ===== verification/Gateway.v ===== *)
(** * The gateway between Modbus/TCP and RTU (crates/rusty-modbus-gateway: src/routing.rs, src/translator.rs, src/gateway.rs, src/config.rs)

    Which device bus a request goes to, and what the TCP client gets back. The buses
    are behind the class [Backends]: connecting, sending and waiting for a frame may
    fail or run out of time. Addresses of buses are any type that can be compared.
    The listener, the timeouts and the shutdown of the gateway are I/O. *)
From S2P Require Import Prelude Types CodecError Stream Mbap RtuTcp.

Module RouteEntry.
Section Entry.
Context {Addr : Type}.
(** [unit_id_range] is an inclusive range. *)
Record t : Type := mk {
  first_unit_id : Z;
  last_unit_id : Z;
  backend_addr : Addr;
  rtu_over_tcp_framing_policy : RtuOverTcpFramingPolicy.t;
}.
Definition new (first last : Z) (addr : Addr) : t := mk first last addr RtuOverTcpFramingPolicy.CrcScanCompatibility.
Definition with_rtu_over_tcp_framing_policy (self : t) (policy : RtuOverTcpFramingPolicy.t) : t :=
  let '(mk first last addr _) := self in mk first last addr policy.
(** [RangeInclusive::contains] *)
Definition contains (self : t) (unit_id : Z) : bool := (first_unit_id self <=? unit_id) && (unit_id <=? last_unit_id self).
End Entry.
Arguments t : clear implicits.
End RouteEntry.

(** ** routing.rs *)
Section Routing.
Context {Addr : Type} `{EqDecision Addr}.
Abbreviation entry := (RouteEntry.t Addr).

Definition ranges_overlap (a b : entry) : bool :=
  (RouteEntry.first_unit_id a <=? RouteEntry.last_unit_id b) && (RouteEntry.first_unit_id b <=? RouteEntry.last_unit_id a).
(** The nested loops of [RouteTable::new]: an overlap is an assertion that fails. *)
Fixpoint check_overlaps (a : entry) (bs : list entry) : res Empty_set unit :=
  match bs with
  | [] => Ok tt
  | b :: bs => if ranges_overlap a b then Panic else check_overlaps a bs
  end.
Fixpoint check_entries (entries : list entry) : res Empty_set unit :=
  match entries with
  | [] => Ok tt
  | a :: entries => do? check_overlaps a entries in check_entries entries
  end.
Definition route_table_new (entries : list entry) : res Empty_set (list entry) :=
  do? check_entries entries in Ok entries.
Definition resolve_route (entries : list entry) (unit_id : Z) : option entry :=
  List.find (λ e, RouteEntry.contains e unit_id) entries.
Definition resolve (entries : list entry) (unit_id : Z) : option Addr :=
  option_map RouteEntry.backend_addr (resolve_route entries unit_id).
Fixpoint backends_unseen (seen : list Addr) (entries : list entry) : list Addr :=
  match entries with
  | [] => []
  | e :: entries =>
      let addr := RouteEntry.backend_addr e in
      if bool_decide (addr ∈ seen) then backends_unseen seen entries
      else addr :: backends_unseen (seen ++ [addr]) entries
  end.
Definition all_backends (entries : list entry) : list Addr := backends_unseen [] entries.
End Routing.

(** ** translator.rs *)
Definition mbap_to_rtu (frame : Frame.t) : Frame.t :=
  Frame.mk (FrameHeader.Rtu (Frame.unit_id frame)) (Frame.pdu frame).
Definition make_exception_frame (transaction_id unit_id function_code exception_code : Z) : res Empty_set Frame.t :=
  let pdu := [Z.lor function_code 0x80; exception_code] in
  let? header := MbapHeader.new transaction_id unit_id 2 in
  Ok (Frame.mk (FrameHeader.Mbap header) pdu).
Definition first_or_zero (pdu : bytes) : Z := default 0 (get pdu 0).
Definition rtu_to_mbap (rtu_frame : Frame.t) (transaction_id unit_id : Z) : res Empty_set Frame.t :=
  let pdu := Frame.pdu rtu_frame in
  if is_empty pdu || (MAX_PDU_SIZE <? blen pdu) then
    make_exception_frame transaction_id unit_id (first_or_zero pdu) (ExceptionCode.code ExceptionCode.GatewayTargetDeviceFailedToRespond)
  else if u16_max <? blen pdu then
    make_exception_frame transaction_id unit_id (first_or_zero pdu) (ExceptionCode.code ExceptionCode.GatewayTargetDeviceFailedToRespond)
  else
    let? header := MbapHeader.new transaction_id unit_id (blen pdu) in
    Ok (Frame.mk (FrameHeader.Mbap header) pdu).

(** ** gateway.rs *)

(** The buses: what a connection attempt, a send and a wait for a response yield;
    [None] and [false] stand for an error or a timeout. *)
Class Backends (Addr Link W : Type) : Type := {
  connect : Addr → RtuOverTcpFramingPolicy.t → W → option Link * W;
  rtu_send : Link → Frame.t → W → bool * W;
  rtu_recv : Link → W → option Frame.t * W;
}.

(** A connection of a TCP client: the buses, the replies the client was sent, and
    the tasks that forward broadcasts *)
Module Bridge.
Record t (Addr W : Type) : Type := mk { buses : W; replies : list Frame.t; tasks : list (Addr * Frame.t) }.
Arguments mk {Addr W}. Arguments buses {Addr W}. Arguments replies {Addr W}. Arguments tasks {Addr W}.
End Bridge.

Section Gateway.
Context {Addr Link W : Type} `{EqDecision Addr} `{Backends Addr Link W}.

Definition forward_to_backend (addr : Addr) (policy : RtuOverTcpFramingPolicy.t) (rtu_frame : Frame.t) (txn_id unit_id fc : Z)
    : ST W Empty_set Frame.t := λ w,
  let unavailable := make_exception_frame txn_id unit_id fc (ExceptionCode.code ExceptionCode.GatewayPathUnavailable) in
  let failed := make_exception_frame txn_id unit_id fc (ExceptionCode.code ExceptionCode.GatewayTargetDeviceFailedToRespond) in
  match connect addr policy w with
  | (None, w) => (unavailable, w)
  | (Some link, w) =>
      match rtu_send link rtu_frame w with
      | (false, w) => (unavailable, w)
      | (true, w) =>
          match rtu_recv link w with
          | (Some rtu_response, w) =>
              let resp_unit := Frame.unit_id rtu_response in
              let resp_fc := first_or_zero (Frame.pdu rtu_response) in
              if negb (resp_unit =? unit_id) || negb (Z.land resp_fc 0x7F =? fc) then (failed, w)
              else (rtu_to_mbap rtu_response txn_id unit_id, w)
          | (None, w) => (failed, w)
          end
      end
  end.

(** The task spawned for one backend of a broadcast *)
Definition broadcast_task (task : Addr * Frame.t) (w : W) : W :=
  match connect task.1 RtuOverTcpFramingPolicy.CrcScanCompatibility w with
  | (Some link, w) => (rtu_send link task.2 w).2
  | (None, w) => w
  end.

(** The body of the loop, up to the reply; [None] for a broadcast *)
Definition bridge_frame (routes : list (RouteEntry.t Addr)) (frame : Frame.t) : ST (Bridge.t Addr W) Empty_set (option Frame.t) :=
  λ '(Bridge.mk w replies tasks),
  let unit_id := Frame.unit_id frame in
  let txn_id := match Frame.header frame with FrameHeader.Mbap h => MbapHeader.transaction_id h | FrameHeader.Rtu _ => 0 end in
  if UnitId.is_broadcast unit_id then
    (Ok None, Bridge.mk w replies (tasks ++ map (λ backend, (backend, mbap_to_rtu frame)) (all_backends routes)))
  else
    match resolve_route routes unit_id with
    | None =>
        (rmap Some (make_exception_frame txn_id unit_id (first_or_zero (Frame.pdu frame))
           (ExceptionCode.code ExceptionCode.GatewayPathUnavailable)), Bridge.mk w replies tasks)
    | Some route =>
        let '(r, w) := forward_to_backend (RouteEntry.backend_addr route) (RouteEntry.rtu_over_tcp_framing_policy route)
                         (mbap_to_rtu frame) txn_id unit_id (first_or_zero (Frame.pdu frame)) w in
        (rmap Some r, Bridge.mk w replies tasks)
    end.
(** The loop: the frames received, each with whether a reply to it could be sent *)
Fixpoint handle_tcp_connection (routes : list (RouteEntry.t Addr)) (received : list (Frame.t * bool))
    : ST (Bridge.t Addr W) Empty_set unit :=
  match received with
  | [] => st_ret tt
  | (frame, sent) :: received =>
      reply <- bridge_frame routes frame;;
      match reply with
      | None => handle_tcp_connection routes received
      | Some reply =>
          if sent : bool then
            st_modify (λ '(Bridge.mk w replies tasks), Bridge.mk w (replies ++ [reply]) tasks);;;
            handle_tcp_connection routes received
          else st_ret tt
      end
  end.
End Gateway.

(** * Lemmas *)

(** ** The routing table *)
Section Routes.
Context {Addr : Type} `{EqDecision Addr}.
Implicit Types (e : RouteEntry.t Addr) (es : list (RouteEntry.t Addr)).

Definition serves_unit e (u : Z) : Prop := RouteEntry.first_unit_id e ≤ u ≤ RouteEntry.last_unit_id e.
Lemma contains_spec e u : RouteEntry.contains e u = true ↔ serves_unit e u.
Proof. unfold RouteEntry.contains, serves_unit. lia. Qed.
(** Two entries for one unit, or an entry with an empty range *)
Definition ambiguous es : Prop :=
  (∃ i j e e' u, i ≠ j ∧ es !! i = Some e ∧ es !! j = Some e' ∧ serves_unit e u ∧ serves_unit e' u) ∨
  ∃ e, e ∈ es ∧ RouteEntry.last_unit_id e < RouteEntry.first_unit_id e.
Definition unambiguous es : Prop :=
  ∀ i j e e' u, es !! i = Some e → es !! j = Some e' → serves_unit e u → serves_unit e' u → i = j.

Lemma ranges_overlap_spec a b : if ranges_overlap a b
  then (∃ u, serves_unit a u ∧ serves_unit b u) ∨ RouteEntry.last_unit_id a < RouteEntry.first_unit_id a ∨ RouteEntry.last_unit_id b < RouteEntry.first_unit_id b
  else ∀ u, serves_unit a u → ¬ serves_unit b u.
Proof.
  unfold ranges_overlap, serves_unit. destruct a as [a1 a2 ? ?], b as [b1 b2 ? ?]. cbn. destruct (_ && _) eqn:Ho; [|lia].
  destruct (decide (a2 < a1)); [by right; left|]. destruct (decide (b2 < b1)); [by right; right|]. left. exists (Z.max a1 b1). lia.
Qed.
Lemma check_overlaps_spec a es :
  match check_overlaps a es with
  | Ok _ => ∀ b u, b ∈ es → serves_unit a u → ¬ serves_unit b u
  | Panic => ambiguous (a :: es)
  | _ => False
  end.
Proof.
  induction es as [|b es IH]; cbn [check_overlaps]; [by intros b u Hb%elem_of_nil|].
  pose proof (ranges_overlap_spec a b) as Ho. destruct (ranges_overlap a b).
  - destruct Ho as [(u & Ha & Hb)|[Ha|Hb]].
    + left. exists 0%nat, 1%nat, a, b, u. by split_and!.
    + right. exists a. split; [set_solver|done].
    + right. exists b. split; [set_solver|done].
  - destruct (check_overlaps a es) as [[]|?| |]; try done.
    + intros c u [->|Hc]%elem_of_cons; [apply Ho|by apply IH].
    + destruct IH as [(i & j & e & e' & u & Hne & Hi & Hj & He & He')|(e & He & Hl)].
      * left. destruct i as [|i], j as [|j]; try done; cbn in Hi, Hj.
        -- exists 0%nat, (S (S j)), e, e', u. by split_and!.
        -- exists (S (S i)), 0%nat, e, e', u. by split_and!.
        -- exists (S (S i)), (S (S j)), e, e', u. split_and!; try done. lia.
      * right. exists e. split; [set_solver|done].
Qed.
Lemma check_entries_spec es :
  match check_entries es with
  | Ok _ => unambiguous es
  | Panic => ambiguous es
  | _ => False
  end.
Proof.
  induction es as [|a es IH]; cbn [check_entries]; [by intros i j e e' u Hi|].
  pose proof (check_overlaps_spec a es) as Ha. destruct (check_overlaps a es) as [[]|?| |]; try done. cbn [rbind].
  destruct (check_entries es) as [[]|?| |]; try done.
  - intros [|i] [|j] e e' u Hi Hj He He'; cbn in Hi, Hj; simplify_eq.
    + done.
    + by destruct (Ha e' u (list_elem_of_lookup_2 _ _ _ Hj) He).
    + by destruct (Ha e u (list_elem_of_lookup_2 _ _ _ Hi) He').
    + f_equal. by eapply IH.
  - destruct IH as [(i & j & e & e' & u & Hne & Hi & Hj & He & He')|(e & He & Hl)].
    + left. exists (S i), (S j), e, e', u. split_and!; try done. lia.
    + right. exists e. split; [set_solver|done].
Qed.
Lemma resolve_route_spec es u : unambiguous es → ∀ e, resolve_route es u = Some e ↔ e ∈ es ∧ serves_unit e u.
Proof.
  intros Hu e. unfold resolve_route. split.
  - intros [Hin Hc]%List.find_some. by apply list_elem_of_In in Hin; apply contains_spec in Hc.
  - intros [[i Hi]%list_elem_of_lookup Hs]. destruct (List.find _ es) as [e'|] eqn:Hf.
    + apply List.find_some in Hf as [Hin Hc]. apply list_elem_of_In, list_elem_of_lookup in Hin as [j Hj]. apply contains_spec in Hc.
      assert (i = j) as -> by by eapply Hu. congruence.
    + apply (List.find_none _ _) with (x := e) in Hf; [|apply list_elem_of_In; by eapply list_elem_of_lookup_2].
      apply contains_spec in Hs. congruence.
Qed.
Lemma backends_unseen_spec es : ∀ seen, NoDup (backends_unseen seen es) ∧
  ∀ a, a ∈ backends_unseen seen es ↔ (a ∉ seen) ∧ ∃ e, e ∈ es ∧ RouteEntry.backend_addr e = a.
Proof.
  induction es as [|e es IH]; intros seen; cbn [backends_unseen].
  { split; [constructor|]. set_solver. }
  case_bool_decide as Hs.
  - destruct (IH seen) as [Hn Ha]. split; [done|]. intros a. rewrite Ha. setoid_rewrite elem_of_cons. naive_solver.
  - destruct (IH (seen ++ [RouteEntry.backend_addr e])) as [Hn Ha]. setoid_rewrite not_elem_of_app in Ha. setoid_rewrite list_elem_of_singleton in Ha.
    split; [constructor; [rewrite Ha; naive_solver|done]|]. intros a. rewrite elem_of_cons, Ha. setoid_rewrite elem_of_cons.
    destruct (decide (a = RouteEntry.backend_addr e)) as [->|Hne]; naive_solver.
Qed.
End Routes.

(** ** Translation *)
Definition frame_transaction (f : Frame.t) : Z :=
  match Frame.header f with FrameHeader.Mbap h => MbapHeader.transaction_id h | FrameHeader.Rtu _ => 0 end.
(** A request frame as the MBAP decoder yields it *)
Definition client_frame (f : Frame.t) : Prop := mbap_ok f ∧ bytes_ok (Frame.pdu f).
(** The frame that answers [f] with a PDU *)
Definition reply_to (f : Frame.t) (pdu : bytes) : Frame.t :=
  mbap_frame (MbapHeader.mk (frame_transaction f) MODBUS_PROTOCOL_ID (blen pdu + 1) (Frame.unit_id f)) pdu.

Lemma make_exception_frame_spec f fc ec : make_exception_frame (frame_transaction f) (Frame.unit_id f) fc ec = Ok (reply_to f [Z.lor fc 0x80; ec]).
Proof. done. Qed.
Lemma rtu_to_mbap_spec f g :
  rtu_to_mbap g (frame_transaction f) (Frame.unit_id f) =
  if is_empty (Frame.pdu g) || (253 <? blen (Frame.pdu g))
  then Ok (reply_to f [Z.lor (first_or_zero (Frame.pdu g)) 0x80; ExceptionCode.code ExceptionCode.GatewayTargetDeviceFailedToRespond])
  else Ok (reply_to f (Frame.pdu g)).
Proof.
  unfold rtu_to_mbap. change MAX_PDU_SIZE with 253. destruct (is_empty (Frame.pdu g) || (253 <? blen (Frame.pdu g))) eqn:He; [done|].
  replace (u16_max <? _) with false by (unfold u16_max; lia). unfold MbapHeader.new, MbapHeader.try_new. change MAX_PDU_SIZE with 253.
  replace (253 <? _) with false by lia. by replace (u16_max <? _) with false by (unfold u16_max; lia).
Qed.
Lemma reply_to_ok f pdu : client_frame f → 1 ≤ blen pdu ≤ 253 → mbap_ok (reply_to f pdu).
Proof.
  intros [Hm _] Hl. unfold mbap_ok in Hm. destruct f as [[h|u] p]; [|done]. destruct Hm as ((? & ? & ? & ?) & _). by apply wire_header.
Qed.

(** [g] answers [f]: it is from the same unit and for the same function. *)
Definition answers_frame (f g : Frame.t) : Prop :=
  Frame.unit_id g = Frame.unit_id f ∧ 1 ≤ blen (Frame.pdu g) ≤ 253 ∧
  let fc := first_or_zero (Frame.pdu f) in fc < 128 ∧ (get (Frame.pdu g) 0 = Some fc ∨ get (Frame.pdu g) 0 = Some (fc + 128)).

Lemma first_u8 pdu : bytes_ok pdu → is_u8 (first_or_zero pdu).
Proof. intros Hb. destruct pdu as [|c l]; [done|]. by apply bytes_ok_cons in Hb as [? _]. Qed.
Lemma stripped c fc : is_u8 c → Z.land c 0x7F = fc ↔ 0 ≤ fc < 128 ∧ (c = fc ∨ c = fc + 128).
Proof.
  intros Hc. change 0x7F with (Z.ones 7). rewrite Z.land_ones by lia. change (2 ^ 7) with 128. Z.to_euclidean_division_equations. lia.
Qed.

(** What the client is told about its request [f], with the buses in state [w] *)
Section Relay.
Context {Addr Link W : Type} `{EqDecision Addr} `{Backends Addr Link W} (routes : list (RouteEntry.t Addr)).

Definition refused (f : Frame.t) (ec : ExceptionCode.t) : bytes := [Z.lor (first_or_zero (Frame.pdu f)) 0x80; ExceptionCode.code ec].
(** The bus that serves the unit took the request *)
Inductive forwarded (f : Frame.t) (w : W) : Link → W → Prop :=
  | forward_taken e link w1 w2 : e ∈ routes → serves_unit e (Frame.unit_id f) →
      connect (RouteEntry.backend_addr e) (RouteEntry.rtu_over_tcp_framing_policy e) w = (Some link, w1) →
      rtu_send link (Frame.mk (FrameHeader.Rtu (Frame.unit_id f)) (Frame.pdu f)) w1 = (true, w2) → forwarded f w link w2.
Inductive relays (f : Frame.t) (w : W) : bytes → W → Prop :=
  | relay_unrouted : (∀ e, e ∈ routes → ¬ serves_unit e (Frame.unit_id f)) →
      relays f w (refused f ExceptionCode.GatewayPathUnavailable) w
  | relay_unreachable e w1 : e ∈ routes → serves_unit e (Frame.unit_id f) →
      connect (RouteEntry.backend_addr e) (RouteEntry.rtu_over_tcp_framing_policy e) w = (None, w1) →
      relays f w (refused f ExceptionCode.GatewayPathUnavailable) w1
  | relay_unsent e link w1 w2 : e ∈ routes → serves_unit e (Frame.unit_id f) →
      connect (RouteEntry.backend_addr e) (RouteEntry.rtu_over_tcp_framing_policy e) w = (Some link, w1) →
      rtu_send link (Frame.mk (FrameHeader.Rtu (Frame.unit_id f)) (Frame.pdu f)) w1 = (false, w2) →
      relays f w (refused f ExceptionCode.GatewayPathUnavailable) w2
  | relay_silent link w1 w2 : forwarded f w link w1 → rtu_recv link w1 = (None, w2) →
      relays f w (refused f ExceptionCode.GatewayTargetDeviceFailedToRespond) w2
  | relay_foreign link g w1 w2 : forwarded f w link w1 → rtu_recv link w1 = (Some g, w2) → ¬ answers_frame f g →
      relays f w (refused f ExceptionCode.GatewayTargetDeviceFailedToRespond) w2
  | relay_answer link g w1 w2 : forwarded f w link w1 → rtu_recv link w1 = (Some g, w2) → answers_frame f g →
      relays f w (Frame.pdu g) w2.

(** The RTU decoders yield bytes. *)
Context (recv_bytes : ∀ link (w : W) g w', rtu_recv link w = (Some g, w') → bytes_ok (Frame.pdu g)).
Context (Hroutes : unambiguous routes).

Lemma relay_response f w link g w1 w2 : client_frame f → forwarded f w link w1 → rtu_recv link w1 = (Some g, w2) →
  let unit_id := Frame.unit_id f in
  let fc := first_or_zero (Frame.pdu f) in
  ∃ pdu, (if negb (Frame.unit_id g =? unit_id) || negb (Z.land (first_or_zero (Frame.pdu g)) 0x7F =? fc)
          then make_exception_frame (frame_transaction f) unit_id fc (ExceptionCode.code ExceptionCode.GatewayTargetDeviceFailedToRespond)
          else rtu_to_mbap g (frame_transaction f) unit_id) = Ok (reply_to f pdu) ∧ relays f w pdu w2 ∧ 1 ≤ blen pdu ≤ 253.
Proof.
  intros Hf Hfw Hr unit_id fc. pose proof (recv_bytes _ _ _ _ Hr) as Hb. rewrite rtu_to_mbap_spec.
  pose proof (first_u8 _ Hb) as Hu. pose proof (first_u8 _ (proj2 Hf) : is_u8 fc) as Hfu.
  assert (¬ answers_frame f g → relays f w (refused f ExceptionCode.GatewayTargetDeviceFailedToRespond) w2) as Hno by by eapply relay_foreign.
  destruct (negb (Frame.unit_id g =? unit_id) || negb (Z.land (first_or_zero (Frame.pdu g)) 0x7F =? fc)) eqn:Hc.
  - exists (refused f ExceptionCode.GatewayTargetDeviceFailedToRespond). split; [done|]. split; [|done]. apply Hno. intros (Hun & Hl & Hfc & Hget). fold fc in Hfc, Hget.
    assert (first_or_zero (Frame.pdu g) = fc ∨ first_or_zero (Frame.pdu g) = fc + 128) as Hg by (unfold first_or_zero; destruct Hget as [-> | ->]; cbn; lia).
    assert (0 ≤ fc < 128) by lia. pose proof (stripped _ fc Hu) as Hs. unfold unit_id in *. lia.
  - assert (Frame.unit_id g = unit_id ∧ Z.land (first_or_zero (Frame.pdu g)) 0x7F = fc) as [Hun Hs] by lia. apply stripped in Hs as [Hfc Hs]; [|done].
    destruct (is_empty (Frame.pdu g) || (253 <? blen (Frame.pdu g))) eqn:He.
    + exists (refused f ExceptionCode.GatewayTargetDeviceFailedToRespond). split; [|split; [|done]].
      * unfold refused. do 3 f_equal. fold fc. destruct Hs as [-> | ->]; [done|]. rewrite !exception_flag_set by lia. repeat case_match; lia.
      * apply Hno. intros (_ & Hl & _). unfold is_empty in He. lia.
    + exists (Frame.pdu g). destruct (Frame.pdu g) as [|c l] eqn:Hg; [done|]. assert (1 ≤ blen (c :: l) ≤ 253) as Hl.
      { unfold is_empty in He. pose proof (blen_nonneg (c :: l)). lia. }
      split; [done|]. split; [|done]. rewrite <-Hg. eapply relay_answer; [done..|]. rewrite <-Hg in Hl. split_and!; try done; try lia. fold fc. cbv zeta. split; [lia|].
      rewrite Hg, get_cons_0. destruct Hs as [Hs|Hs]; [left|right]; f_equal; exact Hs.
Qed.

(** One request *)
Lemma bridge_frame_spec f w replies tasks : client_frame f →
  (Frame.unit_id f = 0 ∧ bridge_frame routes f (Bridge.mk w replies tasks) =
     (Ok None, Bridge.mk w replies (tasks ++ map (λ a, (a, Frame.mk (FrameHeader.Rtu 0) (Frame.pdu f))) (all_backends routes)))) ∨
  (Frame.unit_id f ≠ 0 ∧ ∃ pdu w', bridge_frame routes f (Bridge.mk w replies tasks) = (Ok (Some (reply_to f pdu)), Bridge.mk w' replies tasks) ∧
     relays f w pdu w' ∧ 1 ≤ blen pdu ≤ 253).
Proof.
  intros Hf. unfold bridge_frame. fold (frame_transaction f). unfold UnitId.is_broadcast, UNIT_ID_BROADCAST.
  destruct (Z.eqb_spec (Frame.unit_id f) 0) as [Hu|Hu]; [left; split; [done|]; unfold mbap_to_rtu; by rewrite Hu|right; split; [done|]].
  destruct (resolve_route routes (Frame.unit_id f)) as [e|] eqn:He.
  - apply resolve_route_spec in He as [He Hs]; [|done]. unfold forward_to_backend. fold (mbap_to_rtu f).
    destruct (connect _ _ w) as [[link|] w1] eqn:Hc.
    2: { exists (refused f ExceptionCode.GatewayPathUnavailable), w1. split; [done|]. split; [by eapply relay_unreachable|done]. }
    destruct (rtu_send link (mbap_to_rtu f) w1) as [[] w2] eqn:Hsend.
    2: { exists (refused f ExceptionCode.GatewayPathUnavailable), w2. split; [done|]. split; [by eapply relay_unsent|done]. }
    assert (forwarded f w link w2) as Hfw by by eapply forward_taken.
    destruct (rtu_recv link w2) as [[g|] w3] eqn:Hr.
    + destruct (relay_response f w link g w2 w3 Hf Hfw Hr) as (pdu & Heq & Hrel & Hl). exists pdu, w3. split; [|done].
      cbv zeta in Heq. by destruct (negb _ || negb _); rewrite Heq.
    + exists (refused f ExceptionCode.GatewayTargetDeviceFailedToRespond), w3. split; [done|]. split; [by eapply relay_silent|done].
  - exists (refused f ExceptionCode.GatewayPathUnavailable), w. split; [done|]. split; [|done]. apply relay_unrouted. intros e He' Hs.
    assert (resolve_route routes (Frame.unit_id f) = Some e) by by apply resolve_route_spec. congruence.
Qed.

(** The serial lines behind the gateway, each once *)
Definition each_backend (backends : list Addr) : Prop :=
  NoDup backends ∧ ∀ a, a ∈ backends ↔ ∃ e, e ∈ routes ∧ RouteEntry.backend_addr e = a.
Lemma all_backends_each : each_backend (all_backends routes).
Proof.
  destruct (backends_unseen_spec routes []) as [Hn Ha]. split; [done|]. intros a. unfold all_backends. rewrite Ha.
  split; [by intros [_ ?]|intros ?; split; [apply not_elem_of_nil|done]].
Qed.
(** A broadcast on one of them: it is sent if the line can be reached, and nothing is awaited. *)
Inductive delivered (a : Addr) (g : Frame.t) (w : W) : W → Prop :=
  | delivered_unreachable w' : connect a RtuOverTcpFramingPolicy.CrcScanCompatibility w = (None, w') → delivered a g w w'
  | delivered_sent link w1 ok w' : connect a RtuOverTcpFramingPolicy.CrcScanCompatibility w = (Some link, w1) →
      rtu_send link g w1 = (ok, w') → delivered a g w w'.
Lemma broadcast_task_delivers a g w : delivered a g w (broadcast_task (a, g) w).
Proof.
  unfold broadcast_task. cbn [fst snd]. destruct (connect a _ w) as [[link|] w1] eqn:Hc; [|by apply delivered_unreachable].
  destruct (rtu_send link g w1) as [ok w2] eqn:Hs. by eapply delivered_sent.
Qed.

(** A connection: the replies sent and the broadcasts forwarded for the frames
    received, until a reply cannot be sent *)
Inductive converse : list (Frame.t * bool) → W → list Frame.t → list (Addr * Frame.t) → W → Prop :=
  | converse_end w : converse [] w [] [] w
  | converse_broadcast f sent es w rs ts w' backends : Frame.unit_id f = 0 → each_backend backends → converse es w rs ts w' →
      converse ((f, sent) :: es) w rs (map (λ a, (a, Frame.mk (FrameHeader.Rtu 0) (Frame.pdu f))) backends ++ ts) w'
  | converse_answered f es w pdu w1 rs ts w' : Frame.unit_id f ≠ 0 → relays f w pdu w1 → converse es w1 rs ts w' →
      converse ((f, true) :: es) w (reply_to f pdu :: rs) ts w'
  | converse_broken f es w pdu w1 : Frame.unit_id f ≠ 0 → relays f w pdu w1 → converse ((f, false) :: es) w [] [] w1.
Lemma handle_connection_spec es : Forall (λ e, client_frame e.1) es → ∀ w replies tasks, ∃ w' rs ts,
  handle_tcp_connection routes es (Bridge.mk w replies tasks) = (Ok tt, Bridge.mk w' (replies ++ rs) (tasks ++ ts)) ∧
  converse es w rs ts w' ∧ Forall mbap_ok rs.
Proof.
  induction 1 as [|[f sent] es Hf _ IH]; intros w replies tasks; cbn [handle_tcp_connection].
  { exists w, [], []. rewrite !app_nil_r. split; [done|]. split; constructor. }
  unfold st_bind at 1. destruct (bridge_frame_spec f w replies tasks Hf) as [[Hu ->]|[Hu (pdu & w1 & -> & Hrel & Hl)]].
  - destruct (IH w replies (tasks ++ map (λ a, (a, Frame.mk (FrameHeader.Rtu 0) (Frame.pdu f))) (all_backends routes))) as (w' & rs & ts & -> & Hc & Hok).
    exists w', rs. eexists. rewrite <-app_assoc. split; [done|]. split; [|done]. apply converse_broadcast; [done|apply all_backends_each|done].
  - destruct sent.
    + unfold st_bind at 1, st_modify at 1. destruct (IH w1 (replies ++ [reply_to f pdu]) tasks) as (w' & rs & ts & -> & Hc & Hok).
      exists w', (reply_to f pdu :: rs), ts. rewrite <-app_assoc. split; [done|]. split; [by eapply converse_answered|].
      constructor; [by apply reply_to_ok|done].
    + exists w1, [], []. rewrite !app_nil_r. split; [done|]. split; [by eapply converse_broken|constructor].
Qed.
End Relay.

(** * Theorems *)

(** The routing table: the constructor panics only when the ranges of two
    entries have a unit in common or a range is empty. In a table that is accepted a
    unit has at most one route, which [resolve_route] finds whenever there is one;
    the addresses a broadcast goes to are those of the entries, each once. *)
Theorem route_table_exact (Addr : Type) `{EqDecision Addr} (entries : list (RouteEntry.t Addr)) :
  match route_table_new entries with
  | Ok routes => routes = entries ∧ unambiguous routes ∧ ∀ u e, resolve_route routes u = Some e ↔ e ∈ routes ∧ serves_unit e u
  | Panic => ambiguous entries
  | Err _ | OutOfFuel => False
  end ∧
  NoDup (all_backends entries) ∧ ∀ a, a ∈ all_backends entries ↔ ∃ e, e ∈ entries ∧ RouteEntry.backend_addr e = a.
Proof.
  split.
  - unfold route_table_new. pose proof (check_entries_spec entries) as Hc. destruct (check_entries entries) as [[]|?| |]; try done. cbn [rbind].
    split_and!; [done..|]. intros u. by apply resolve_route_spec.
  - apply all_backends_each.
Qed.

(** C6. A connection of a TCP client to the gateway, whatever the buses do: the loop
    never panics and handles the frames in order until a reply cannot be sent. A
    broadcast gets no reply; it is handed to one task for each address of the routing
    table, however many routes share it, and the task sends it there as unit 0 once
    the address can be reached, without waiting for a response. Every other request
    gets one, a legal frame with its transaction and unit: the PDU that came back
    from the bus that serves the unit, if it came from that unit and is for the same
    function, and otherwise the exception that says that there is no path to the
    device, or that it did not respond. *)
Theorem gateway_exact (Addr Link W : Type) `{EqDecision Addr} `{Backends Addr Link W} (entries routes : list (RouteEntry.t Addr))
    (received : list (Frame.t * bool)) (w : W) (replies : list Frame.t) (tasks : list (Addr * Frame.t)) :
  (∀ link (w : W) g w', rtu_recv link w = (Some g, w') → bytes_ok (Frame.pdu g)) →
  route_table_new entries = Ok routes → Forall (λ e, client_frame e.1) received →
  ∃ w' rs ts, handle_tcp_connection routes received (Bridge.mk w replies tasks) = (Ok tt, Bridge.mk w' (replies ++ rs) (tasks ++ ts)) ∧
    converse routes received w rs ts w' ∧ Forall mbap_ok rs ∧
    ∀ a g, (a, g) ∈ ts → ∀ w, delivered a g w (broadcast_task (a, g) w).
Proof.
  intros Hbytes Hnew Hf. destruct (handle_connection_spec routes) with (es := received) (w := w) (replies := replies) (tasks := tasks)
    as (w' & rs & ts & Heq & Hc & Hok); [done| |done|].
  - unfold route_table_new in Hnew. pose proof (check_entries_spec entries) as Hc.
    destruct (check_entries entries) as [[]|?| |]; try done. by injection Hnew as <-.
  - exists w', rs, ts. split_and!; [done..|]. intros a g _. apply broadcast_task_delivers.
Qed.

(** A bus that answers every request with the next of the frames it was given *)
Definition canned_bus : Backends Z unit (list Frame.t) := {|
  connect _ _ w := (Some tt, w);
  rtu_send _ _ w := (true, w);
  rtu_recv _ w := match w with
                  | [] => (None, [])
                  | g :: w => (if bool_decide (bytes_ok (Frame.pdu g)) then Some g else None, w)
                  end;
|}.
Lemma gateway_exact_witness : ∃ w' ts,
  @handle_tcp_connection Z unit (list Frame.t) _ canned_bus [RouteEntry.new 1 10 7]
    [(mbap_frame (MbapHeader.mk 5 0 6 3) [0x03; 0; 0; 0; 1], true); (mbap_frame (MbapHeader.mk 6 0 6 3) [0x03; 0; 0; 0; 1], true);
     (mbap_frame (MbapHeader.mk 7 0 6 99) [0x03; 0; 0; 0; 1], true)]
    (Bridge.mk [Frame.mk (FrameHeader.Rtu 3) [0x03; 2; 1; 2]; Frame.mk (FrameHeader.Rtu 4) [0x03; 2; 1; 2]] [] []) =
  (Ok tt, Bridge.mk w' [mbap_frame (MbapHeader.mk 5 0 5 3) [0x03; 2; 1; 2]; mbap_frame (MbapHeader.mk 6 0 3 3) [0x83; 0x0B];
                        mbap_frame (MbapHeader.mk 7 0 3 99) [0x83; 0x0A]] ts).
Proof.
  destruct (@gateway_exact Z unit (list Frame.t) _ canned_bus [RouteEntry.new 1 10 7] [RouteEntry.new 1 10 7]
    [(mbap_frame (MbapHeader.mk 5 0 6 3) [0x03; 0; 0; 0; 1], true); (mbap_frame (MbapHeader.mk 6 0 6 3) [0x03; 0; 0; 0; 1], true);
     (mbap_frame (MbapHeader.mk 7 0 6 99) [0x03; 0; 0; 0; 1], true)]
    [Frame.mk (FrameHeader.Rtu 3) [0x03; 2; 1; 2]; Frame.mk (FrameHeader.Rtu 4) [0x03; 2; 1; 2]] [] []) as (w' & rs & ts & Heq & _).
  - intros [] [|g w] g' w' Hr; [discriminate Hr|]. cbn in Hr. case_bool_decide as Hb; [|discriminate Hr]. injection Hr as <- _. exact Hb.
  - reflexivity.
  - repeat (apply List.Forall_cons || apply List.Forall_nil); (split; [repeat split; vm_compute; (reflexivity || discriminate)|repeat constructor; vm_compute; discriminate]).
  - exists w', ts. rewrite Heq. vm_compute in Heq. injection Heq as <- <- <-. reflexivity.
Defined.
