(* ===== verification/GatewayCalls.v ===== *)
(** * The client behind the gateway (crates/rusty-modbus-gateway, rusty-modbus-client, rusty-modbus-server)

    The gateway of [Gateway] with one bus, on which a device runs the request handler
    behind the RTU-over-TCP codecs. The pair is a peer in the sense of [Loopback], so
    that everything said there of a client and its peer holds through the gateway. *)
From stdpp Require Import gmap.
From S2P Require Import Prelude Types CodecError FileRecords Requests Responses MeiResponses Pdu Stream Mbap Rtu RtuTcp Owned Session Deadlines Transaction.
From S2P Require Import Bits Store Memory DeviceId Handler Server Service ServerTasks Client Methods Calls Loopback RemoteCalls Gateway.

(** The device and the bytes on their way back from it *)
Module Bus.
Record t : Type := mk { store : InMemoryStore.t; wire : bytes }.
End Bus.

Section Bus.
Context (unit_id : Z) (dev : DeviceIdentification.t).

(** The device: a frame for it or for everyone is handled, any other is ignored. *)
Definition device_receives (adu : bytes) (b : Bus.t) : Bus.t :=
  match decode_strict RtuOverTcpDirection.Request adu with
  | (Ok (Some g), _) =>
      let u := Frame.unit_id g in
      if (u =? unit_id) || UnitId.is_broadcast u then
        match process_request (Frame.pdu g) u dev (Bus.store b) with
        | (Ok (Some resp), s) => Bus.mk s (Bus.wire b ++ (encode_frame (rtu_frame u resp) []).2)
        | (_, s) => Bus.mk s (Bus.wire b)
        end
      else b
  | _ => b
  end.
Definition bus_backends (Addr : Type) : Backends Addr RtuOverTcpFramingPolicy.t Bus.t := {|
  connect _ policy b := (Some policy, Bus.mk (Bus.store b) []);
  rtu_send _ f b :=
    match encode_frame f [] with
    | (Ok _, adu) => (true, device_receives adu b)
    | _ => (false, b)
    end;
  rtu_recv policy b :=
    match ConfiguredRtuOverTcpCodec.decode (RtuOverTcpCodec.with_policy policy RtuOverTcpDirection.Response) (Bus.wire b) with
    | (Ok (Some g), rest) => (if forallb is_byte (Frame.pdu g) then Some g else None, Bus.mk (Bus.store b) rest)
    | (_, rest) => (None, Bus.mk (Bus.store b) rest)
    end;
|}.
Context {Addr : Type} `{EqDecision Addr} (routes : list (RouteEntry.t Addr)).

(** The gateway's part of an exchange; the tasks it spawns run at once. *)
Definition gateway_responds (f : Frame.t) (b : Bus.t) : option Frame.t * Bus.t :=
  let '(reply, bridge) := @bridge_frame Addr RtuOverTcpFramingPolicy.t Bus.t _ (bus_backends Addr) routes f (Bridge.mk b [] []) in
  let b := fold_left (λ b task, @broadcast_task Addr _ _ (bus_backends Addr) task b) (Bridge.tasks bridge) (Bridge.buses bridge) in
  match reply with
  | Ok (Some g) => (match carry g with Ok g => Some g | _ => None end, b)
  | _ => (None, b)
  end.
Definition gateway_peer : Peer Bus.t := {| respond := gateway_responds; device := Bus.store |}.
End Bus.

(** * Lemmas *)
Lemma encode_frame_adu u pdu : 1 ≤ blen pdu ≤ 253 → encode_frame (rtu_frame u pdu) [] = (Ok tt, rtu_adu u pdu).
Proof.
  intros Hl. change (encode_frame (rtu_frame u pdu) []) with (RtuCodec.encode (rtu_frame u pdu) []). rewrite rtu_encode_adu. cbn [rtu_frame Frame.pdu Frame.unit_id Frame.header].
  assert (validate_outgoing_pdu (blen pdu) = Ok tt) as ->; [|done]. unfold validate_outgoing_pdu, MIN_PDU_LENGTH. change MAX_PDU_SIZE with 253.
  replace (_ <? 1) with false by lia. by replace (253 <? _) with false by lia.
Qed.
Lemma has_method_strict req : has_method req = true → strict_request_form req.
Proof. by destruct req. Qed.

Section Device.
Context (unit_id : Z) (dev : DeviceIdentification.t) (Hdev : device_ok dev).

(** The replies of the service are in the forms the strict grammar knows. *)
Lemma service_reply_strict T req r : has_method req = true → service_reply T req = Ok r → strict_response_form r.
Proof.
  intros Hm. unfold service_reply. destruct (serve T req) as [[r' T']|ec| |] eqn:Hs; try done.
  - intros [= <-]. destruct req as [x|x|x|x|x|x| |x| | |x|x| |x|x|x|x|x|x|fc data]; try done; try destruct x; cbn [serve] in Hs;
      repeat (apply rbind_Ok in Hs as (? & _ & Hs)); repeat (case_match; try done); by injection Hs as <- <-.
  - intros [= <-]. by destruct req.
Qed.

Lemma strict_carry d u pdu : rtu_adu_ok u pdu → strict_pdu_length (u :: pdu) d = Ok (Some (blen pdu)) →
  decode_strict d (rtu_adu u pdu) = (Ok (Some (rtu_frame u pdu)), []).
Proof. intros Hok Hs. rewrite <-(app_nil_r (rtu_adu u pdu)). by apply decode_strict_adu. Qed.
Lemma request_strict req u : sendable req → is_u8 u →
  rtu_adu_ok u (request_wire req) ∧ decode_strict RtuOverTcpDirection.Request (rtu_adu u (request_wire req)) = (Ok (Some (rtu_frame u (request_wire req))), []).
Proof.
  intros (Hok & Hm & Hb & Hl) Hu. assert (rtu_adu_ok u (request_wire req)) as Hadu by done. split; [done|]. apply strict_carry; [done|].
  apply strict_request_length; [done|by apply has_method_strict|lia].
Qed.
(** The device answers a request for it, and applies a broadcast. *)
Lemma device_answers req s : store_ok s → is_u8 unit_id → UnitId.is_broadcast unit_id = false → sendable req →
  let T := tables_of s in
  ∃ resp s', device_receives unit_id dev (rtu_adu unit_id (request_wire req)) (Bus.mk s []) = Bus.mk s' (rtu_adu unit_id resp) ∧
    decode_strict RtuOverTcpDirection.Response (rtu_adu unit_id resp) = (Ok (Some (rtu_frame unit_id resp)), []) ∧
    store_ok s' ∧ tables_of s' = tables_after T (serve T req) ∧ reply_ok (request_code req) resp ∧ decode_response resp = service_reply T req.
Proof.
  intros Hs Hu Hbc Hreq T. unfold device_receives. destruct (request_strict req unit_id Hreq Hu) as [_ ->].
  cbn [rtu_frame Frame.unit_id Frame.header Frame.pdu]. rewrite Z.eqb_refl. cbn [orb Bus.store Bus.wire].
  destruct (process_sendable dev Hdev unit_id req s Hs Hu Hbc Hreq) as (resp & s' & -> & Hs' & HT & Hrok & Hd). pose proof Hrok as (Hrb & Hrl & _).
  change MAX_PDU_SIZE with 253 in Hrl. fold (rtu_frame unit_id resp). rewrite encode_frame_adu by done. exists resp, s'. split; [done|]. split; [|done].
  apply strict_carry; [done|]. fold T in Hd. destruct (service_reply T req) as [r|e| |] eqn:Hr.
  - destruct (decode_response_sound resp r Hrb Hd) as (Hok & -> & _). apply strict_response_length; [done| |lia]. apply (service_reply_strict T req); [apply Hreq|done].
  - unfold service_reply in Hr. by destruct (serve T req) as [[? ?]|? | |].
  - pose proof (proj2 (dispatchers_return resp Hrb)) as Hret. by rewrite Hd in Hret.
  - pose proof (proj2 (dispatchers_return resp Hrb)) as Hret. by rewrite Hd in Hret.
Qed.
Lemma device_applies req s : store_ok s → sendable req → is_write req = true →
  ∃ s', device_receives unit_id dev (rtu_adu 0 (request_wire req)) (Bus.mk s []) = Bus.mk s' [] ∧ store_ok s' ∧
    tables_of s' = tables_after (tables_of s) (serve (tables_of s) req).
Proof.
  intros Hs Hreq Hw. unfold device_receives. destruct (request_strict req 0 Hreq ltac:(lia)) as [_ ->].
  cbn [rtu_frame Frame.unit_id Frame.header Frame.pdu]. change (UnitId.is_broadcast 0) with true. rewrite orb_true_r. cbn [Bus.store Bus.wire].
  destruct (process_broadcast dev Hdev req s Hs Hreq Hw) as (s' & -> & Hs' & HT). by exists s'.
Qed.

Context {Addr : Type} `{EqDecision Addr} (routes : list (RouteEntry.t Addr)) (addr : Addr).
Context (Hroutes : unambiguous routes) (Hone : all_backends routes = [addr]).
(** The unit of the device, if it has a route with strict framing *)
Definition reachable (u : Z) : Prop :=
  is_u8 u ∧ u = unit_id ∧ UnitId.is_broadcast u = false ∧
  ∃ e, e ∈ routes ∧ serves_unit e u ∧ RouteEntry.rtu_over_tcp_framing_policy e = RtuOverTcpFramingPolicy.FunctionAwareStrict.

(** A reply of the service passes the check of the gateway. *)
Lemma relayed_check code resp : 1 ≤ code < 128 → reply_ok code resp → Z.land (first_or_zero resp) 0x7F = code.
Proof.
  intros Hc (Hb & Hl & Hget). apply stripped; [by apply first_u8|]. split; [lia|]. unfold first_or_zero. destruct Hget as [-> |[ec ->]]; [by left|right].
  rewrite get_cons_0. cbn [default]. unfold default, from_option, id. rewrite exception_flag_set by lia. destruct (Z.ltb_spec code 128); lia.
Qed.
Lemma gateway_relays txn u req s wire : store_ok s → reachable u → sendable req → is_u16 txn →
  let T := tables_of s in
  ∃ resp s', gateway_responds unit_id dev routes (unit_frame txn u (request_wire req)) (Bus.mk s wire) = (Some (unit_frame txn u resp), Bus.mk s' []) ∧
    store_ok s' ∧ tables_of s' = tables_after T (serve T req) ∧ reply_ok (request_code req) resp ∧ decode_response resp = service_reply T req.
Proof.
  intros Hs (Hu & -> & Hbc & e & He & Hserves & Hpol) Hreq Ht T. pose proof Hreq as (Hok & _ & Hb & Hl). set (f := unit_frame txn unit_id (request_wire req)).
  destruct (device_answers req s Hs Hu Hbc Hreq) as (resp & s' & Hdev' & Hdec & Hs' & HT & Hrok & Hd). exists resp, s'. split; [|done].
  pose proof Hrok as (Hrb & Hrl & _). change MAX_PDU_SIZE with 253 in Hrl. pose proof (relayed_check _ _ (request_code_range req Hok) Hrok) as Hfc.
  assert (resolve_route routes unit_id = Some e) as Hres by by apply resolve_route_spec.
  unfold gateway_responds, bridge_frame. change (Frame.unit_id f) with unit_id. rewrite Hbc, Hres. unfold forward_to_backend. cbn [connect bus_backends Bus.store].
  cbn [rtu_send bus_backends]. change (mbap_to_rtu f) with (rtu_frame unit_id (request_wire req)). rewrite encode_frame_adu by lia. rewrite Hdev'.
  cbn [rtu_recv bus_backends Bus.wire]. rewrite Hpol. unfold ConfiguredRtuOverTcpCodec.decode, RtuOverTcpCodec.with_policy.
  cbn [ConfiguredRtuOverTcpCodec.policy ConfiguredRtuOverTcpCodec.direction]. rewrite Hdec. cbn [rtu_frame Frame.pdu Frame.unit_id Frame.header Bus.store].
  replace (forallb is_byte resp) with true by (symmetry; by apply is_bytes). change (Frame.pdu f) with (request_wire req).
  assert (first_or_zero (request_wire req) = request_code req) as -> by (unfold first_or_zero; by rewrite request_code_wire).
  change (Frame.pdu (rtu_frame unit_id resp)) with resp. change (Frame.unit_id (rtu_frame unit_id resp)) with unit_id.
  rewrite Hfc, !Z.eqb_refl. cbn [negb orb]. fold (frame_transaction f).
  pose proof (rtu_to_mbap_spec f (rtu_frame unit_id resp)) as Hm. change (Frame.unit_id f) with unit_id in Hm. rewrite Hm. cbn [rtu_frame Frame.pdu].
  replace (is_empty resp || (253 <? blen resp)) with false by (unfold is_empty; lia). cbn [rmap rbind Bridge.tasks Bridge.buses fold_left].
  destruct (wire_header txn unit_id resp Ht Hu Hrl) as [Hh Hmb]. change (reply_to f resp) with (unit_frame txn unit_id resp). unfold unit_frame. by rewrite carry_ok.
Qed.
Lemma gateway_broadcasts req s wire : store_ok s → sendable req → is_write req = true →
  ∃ s', gateway_responds unit_id dev routes (unit_frame 0 0 (request_wire req)) (Bus.mk s wire) = (None, Bus.mk s' []) ∧
    store_ok s' ∧ tables_of s' = tables_after (tables_of s) (serve (tables_of s) req).
Proof.
  intros Hs Hreq Hw. pose proof Hreq as (_ & _ & _ & Hl). destruct (device_applies req s Hs Hreq Hw) as (s' & Hd & Hs' & HT). exists s'. split; [|done].
  unfold gateway_responds, bridge_frame. change (Frame.unit_id (unit_frame 0 0 (request_wire req))) with 0. change (UnitId.is_broadcast 0) with true. cbn match.
  rewrite Hone. cbn [map app Bridge.tasks Bridge.buses fold_left]. unfold broadcast_task. cbn [connect rtu_send bus_backends Bus.store fst snd].
  change (mbap_to_rtu (unit_frame 0 0 (request_wire req))) with (rtu_frame 0 (request_wire req)). rewrite encode_frame_adu by lia. cbn [snd]. by rewrite Hd.
Qed.
Lemma gateway_peer_laws : @PeerLaws Bus.t (gateway_peer unit_id dev routes) (λ b, store_ok (Bus.store b)) reachable.
Proof.
  split; cbn [respond device gateway_peer].
  - done.
  - by intros u (? & _ & ? & _).
  - intros f b g b'. unfold gateway_responds. destruct (bridge_frame _ _ _) as [[[x|]|e| |] bridge]; try done. destruct (carry x) as [y|e| |] eqn:Hc; try done.
    intros [= -> _]. by destruct (carry_sound x g Hc) as (h & _ & _ & ? & ?).
  - intros txn u req [s wire] Hs Hu Hreq Ht. destruct (gateway_relays txn u req s wire Hs Hu Hreq Ht) as (resp & s' & Heq & Hs' & HT & Hr). by exists resp, (Bus.mk s' []).
  - intros req [s wire] Hs Hreq Hw. destruct (gateway_broadcasts req s wire Hs Hreq Hw) as (s' & Heq & Hs' & HT). by exists (Bus.mk s' []).
Qed.
End Device.

(** * Theorems *)

(** C4. A client connected through the gateway to a device on a bus with strict
    framing: whatever method is called, with whatever arguments, the call is the
    plain operation on the tables of the device, as if the client were connected to
    it directly. The results, the exceptions and the effects are those of
    [remote_end]; nothing is left in flight and the session can be used again. *)
Theorem client_gateway_exact (unit_id : Z) (dev : DeviceIdentification.t) (last : Z) (config : ClientConfig.t) (Addr : Type) `{EqDecision Addr}
    (routes : list (RouteEntry.t Addr)) (addr : Addr) (A : Type) (u : Z) (c : Call.t A) (w : Loop.t Bus.t) :
  device_ok dev → config_ok config → 1 ≤ ClientConfig.timeout config → route_table_new routes = Ok routes → all_backends routes = [addr] →
  loop_ok (λ b, store_ok (Bus.store b)) last w → Call.args_ok c → reachable unit_id routes u ∨ u = 0 →
  ∃ r w', @perform _ (@client_connection _ (@loop_runtime _ (gateway_peer unit_id dev routes) last) config) A u c w = (r, w') ∧
    loop_ok (λ b, store_ok (Bus.store b)) last w' ∧
    TransactionManager.reuse_safety (Loop.ring w') = TransactionManager.reuse_safety (Loop.ring w) ∧
    remote_end u c (tables_of (Bus.store (Loop.server w))) r (tables_of (Bus.store (Loop.server w'))).
Proof.
  intros Hdev Hc Ht Hnew Hone Hw Ha Hu.
  assert (unambiguous routes) as Hroutes.
  { pose proof (check_entries_spec routes) as Hs. unfold route_table_new in Hnew. by destruct (check_entries routes) as [[]|?| |]. }
  by apply (@remote_call _ _ _ _ (gateway_peer_laws unit_id dev Hdev routes addr Hroutes Hone) last config Hc Ht).
Qed.
Definition idle_bus : Loop.t Bus.t := Loop.mk TransactionManager.new 0 (Bus.mk small_store []).
Definition bus_routes : list (RouteEntry.t Z) :=
  [RouteEntry.with_rtu_over_tcp_framing_policy (RouteEntry.new 1 10 7) RtuOverTcpFramingPolicy.FunctionAwareStrict].
Lemma client_gateway_exact_witness : ∃ w',
  @perform _ (@client_connection _ (@loop_runtime _ (gateway_peer 1 small_device bus_routes) 10000000000000) ClientConfig.default) _
    1 (Call.WriteMultipleRegisters 3 [258; 772]) idle_bus = (Ok tt, w') ∧
  Tables.holding_registers (tables_of (Bus.store (Loop.server w'))) = [0; 0; 0; 258; 772; 0; 0; 0; 0; 0].
Proof.
  destruct (client_gateway_exact 1 small_device 10000000000000 ClientConfig.default Z bus_routes 7 _ 1 (Call.WriteMultipleRegisters 3 [258; 772]) idle_bus)
    as (r & w' & Hp & _ & _ & He).
  - exact small_device_ok.
  - repeat split; vm_compute; discriminate.
  - vm_compute. discriminate.
  - reflexivity.
  - reflexivity.
  - destruct (idle_loop_ok 10000000000000 ltac:(lia)) as [Hs Hr Hi Hc]. split; [exact Hs|exact Hr|exact Hi|exact Hc].
  - split; [lia|]. repeat constructor; lia.
  - left. split; [lia|]. split; [reflexivity|]. split; [reflexivity|]. eexists. split; [apply list_elem_of_here|]. split; [vm_compute; split; discriminate|reflexivity].
  - exists w'. assert (r = Ok tt) as -> by (apply (f_equal fst) in Hp; vm_compute in Hp; symmetry; exact Hp).
    split; [exact Hp|]. inversion He as [| |v Hb|v T' Hb Hv Hspec|]; [discriminate Hb|]. subst. cbn in Hspec. injection Hspec as <-. reflexivity.
Defined.
