(* ===== verification/ClientTasks.v ===== *)
(** * The tasks of a client (crates/rusty-modbus-client/src/lifecycle.rs)

    Admission of operations, cancellation and shutdown. A client has callers that
    perform operations, a reader and a deadline task, callers of [shutdown] and
    [abort], and one coordinator; each of them takes steps on the shared state, and
    every section under a lock or atomic access is a step. What an operation does
    in between is in [Client]; here it may use the transaction ring and retire the
    session. The abort of the coordinator when the client is dropped is left out. *)
From S2P Require Import Prelude Deadlines Types CodecError Responses Pdu Stream Bits ServerTasks Owned Session Transaction Client.

Module ClientPhase.
Inductive t : Type := Running | Draining | Cancelling | Closed.
#[global] Instance eq_dec : EqDecision t.
Proof. solve_decision. Defined.
End ClientPhase.

(** A background task: alive, perhaps with an abort requested, or ended, perhaps
    because it failed. After a transport error the reader retires the session,
    disconnects and cancels what is pending; no await is in between. *)
Module ReaderTask.
Inductive t : Type := Alive (aborted : bool) | Retiring (e : ClientError.t) | Cancelling (e : ClientError.t) | Ended (failed : bool).
Definition abort (self : t) : t := match self with Alive _ => Alive true | x => x end.
Definition ended (self : t) : bool := match self with Ended _ => true | _ => false end.
End ReaderTask.
Module DeadlineTask.
Inductive t : Type := Alive (aborted : bool) | Ended (failed : bool).
Definition abort (self : t) : t := match self with Alive _ => Alive true | x => x end.
Definition ended (self : t) : bool := match self with Ended _ => true | _ => false end.
End DeadlineTask.

Module ClientLifecycle.
(** [State], the semaphore (the permits left and whether it is closed), the permit
    stored in [active_changed], the watch channels and the tasks *)
Record t : Type := mk {
  phase : ClientPhase.t;
  active : Z;
  drain_deadline : option Z;
  coordinator_started : bool;
  permits : Z;
  closed : bool;
  active_changed : bool;
  cancellation : bool;
  task_stop : bool;
  completion : bool;
  reader : ReaderTask.t;
  deadline : DeadlineTask.t;
}.
(** [new] and [install_tasks] *)
Definition new (max_in_flight : Z) : t :=
  mk ClientPhase.Running 0 None false max_in_flight false false false false false (ReaderTask.Alive false) (DeadlineTask.Alive false).
Definition is_running (self : t) : bool := bool_decide (phase self = ClientPhase.Running).

(** The second half of [admit], under the lock, and the drop of the guard: the count
    first, then the permit *)
Definition enter_operation (self : t) : option t :=
  let '(mk p a d c n x i ca ts co r dl) := self in
  if bool_decide (p = ClientPhase.Running) then Some (mk p (Z.min (a + 1) usize_max) d c n x i ca ts co r dl) else None.
Definition take_permit (self : t) : t :=
  let '(mk p a d c n x i ca ts co r dl) := self in mk p a d c (n - 1) x i ca ts co r dl.
Definition return_permit (self : t) : t :=
  let '(mk p a d c n x i ca ts co r dl) := self in mk p a d c (n + 1) x i ca ts co r dl.
Definition leave_operation (self : t) : res Empty_set t :=
  let '(mk p a d c n x i ca ts co r dl) := self in
  if 0 <? a then
    let a := Z.max (a - 1) 0 in
    Ok (mk p a d c n x (i || (a =? 0)) ca ts co r dl)
  else Panic.

Definition seal (deadline : Z) (self : t) : t :=
  let '(mk p a d c n x i ca ts co r dl) := self in
  if bool_decide (p = ClientPhase.Running) then mk ClientPhase.Draining a (Some deadline) c n true i ca ts co r dl else self.
(** Whether the coordinator has to be started *)
Definition ensure_coordinator (self : t) : bool * t :=
  let '(mk p a d c n x i ca ts co r dl) := self in
  if bool_decide (p = ClientPhase.Closed) || c then (false, self) else (true, mk p a d true n x i ca ts co r dl).
(** The lock section of [abort_inner], and what follows it *)
Definition cancel (self : t) : t :=
  let '(mk p a d c n x i ca ts co r dl) := self in
  mk (if bool_decide (p = ClientPhase.Closed) then p else ClientPhase.Cancelling) a d c n true i ca ts co r dl.
Definition signal_cancellation (self : t) : t :=
  let '(mk p a d c n x i ca ts co r dl) := self in mk p a d c n x i true ts co r dl.
Definition signal_stop (self : t) : t :=
  let '(mk p a d c n x i ca ts co r dl) := self in mk p a d c n x i ca true co r dl.
Definition abort_tasks (self : t) : t :=
  let '(mk p a d c n x i ca ts co r dl) := self in mk p a d c n x i ca ts co (ReaderTask.abort r) (DeadlineTask.abort dl).
(** The lock section of [stop_tasks]; the signal comes before it. *)
Definition stop_tasks (hard_stop : bool) (self : t) : t :=
  let '(mk p a d c n x i ca ts co r dl) := self in
  mk p a d c n x i ca ts co (if hard_stop then ReaderTask.abort r else r) (DeadlineTask.abort dl).
Definition consume_notification (self : t) : t :=
  let '(mk p a d c n x i ca ts co r dl) := self in mk p a d c n x false ca ts co r dl.
Definition close (self : t) : t :=
  let '(mk p a d c n x i ca ts co r dl) := self in mk ClientPhase.Closed a d c n x i ca ts co r dl.
Definition complete (self : t) : t :=
  let '(mk p a d c n x i ca ts co r dl) := self in mk p a d c n x i ca ts true r dl.
Definition set_reader (b : ReaderTask.t) (self : t) : t :=
  let '(mk p a d c n x i ca ts co r dl) := self in mk p a d c n x i ca ts co b dl.
Definition set_deadline_task (b : DeadlineTask.t) (self : t) : t :=
  let '(mk p a d c n x i ca ts co r dl) := self in mk p a d c n x i ca ts co r b.
End ClientLifecycle.

(** An operation in [admit]: before the first check of the phase, waiting for a
    permit, with a permit before the second check; then admitted, refused or done *)
Module Operation.
Inductive t : Type := Called | Acquiring | Permitted | Active | Refused (e : ClientError.t) | Done.
Definition holds (o : t) : bool := match o with Permitted | Active => true | _ => false end.
Definition admitted (o : t) : bool := match o with Active => true | _ => false end.
End Operation.
(** A call of [shutdown], with its deadline *)
Module ShutdownCall.
Inductive t : Type := Called (deadline : Z) | Sealed | Waiting | Returned.
End ShutdownCall.
(** A call of [abort_inner], by what it has done so far *)
Module AbortCall.
Inductive t : Type :=
  | Called (reason : SessionRetirementReason.t) | Retired | Sealed | Disconnected | Flushed | Cancelled | Stopped | Done.
End AbortCall.
(** The coordinator in [coordinate_shutdown]; [Waiting] is about to check the count,
    [Parked] waits for a notification, a cancellation or the deadline. *)
Module Coordinator.
Inductive t : Type :=
  | Idle | Begun | Waiting (deadline : Z) | Parked (deadline : Z) | Expiring (a : AbortCall.t)
  | Stopping | Halting (hard_stop : bool) | Aborting (hard_stop : bool)
  | JoiningReader | JoiningDeadline | Disconnecting | Closing | Marking (clean : bool) | Completing | Finished.
End Coordinator.

Module ClientWorld.
Record t : Type := mk {
  life : ClientLifecycle.t;
  ring : TransactionManager.t;
  connected : bool;
  now : Z;
  operations : list Operation.t;
  shutdowns : list ShutdownCall.t;
  aborts : list AbortCall.t;
  coordinator : Coordinator.t;
}.
End ClientWorld.

(** Steps; the index is the operation's or the call's *)
Inductive client_step : Type :=
  | OperationCalled | OperationCheck (i : nat) | OperationAcquire (i : nat) | OperationEnter (i : nat)
  | OperationRing (i : nat) (o : op) | OperationRetire (i : nat) (reason : SessionRetirementReason.t) | OperationDone (i : nat)
  | ReaderRing (o : op) | ReaderError (reason : SessionRetirementReason.t) (e : ClientError.t) | ReaderDisconnects | ReaderCancels
  | ReaderEnds | ReaderFails
  | DeadlineRing (at_ : Z) | DeadlineEnds | DeadlineFails
  | ShutdownCalled (timeout : Z) | ShutdownSeal (i : nat) | ShutdownCoordinate (i : nat) | ShutdownReturns (i : nat)
  | AbortCalled (reason : SessionRetirementReason.t) | AbortStep (i : nat)
  | CoordinatorStep | CoordinatorNotified | CoordinatorCancelled | CoordinatorLate
  | TimePasses (n : Z).
(** What operations and the reader do to the ring *)
Definition operation_op (o : op) : bool := match o with Register _ _ _ _ | Remove _ => true | _ => false end.
Definition reader_op (o : op) : bool :=
  match o with Complete _ _ _ _ | CompleteOldest _ _ _ | CompleteSelected _ _ _ _ => true | _ => false end.

Section ClientTasks.
Context (instant_max : Z).
Import ClientWorld.
(** [Err tt]: the step is not enabled *)
Abbreviation stepped := (res unit ClientWorld.t).

Definition on_life (f : ClientLifecycle.t → ClientLifecycle.t) (w : ClientWorld.t) : ClientWorld.t :=
  let '(mk l m c n os ss ab k) := w in mk (f l) m c n os ss ab k.
Definition on_safety (f : SessionReuseSafety.t → SessionReuseSafety.t) (w : ClientWorld.t) : ClientWorld.t :=
  let '(mk l (TransactionManager.mk i s d r c t) cn n os ss ab k) := w in mk l (TransactionManager.mk i s d (f r) c t) cn n os ss ab k.
Definition set_operation (i : nat) (o : Operation.t) (w : ClientWorld.t) : ClientWorld.t :=
  let '(mk l m c n os ss ab k) := w in mk l m c n (<[i:=o]> os) ss ab k.
Definition set_shutdown (i : nat) (s : ShutdownCall.t) (w : ClientWorld.t) : ClientWorld.t :=
  let '(mk l m c n os ss ab k) := w in mk l m c n os (<[i:=s]> ss) ab k.
Definition set_abort (i : nat) (a : AbortCall.t) (w : ClientWorld.t) : ClientWorld.t :=
  let '(mk l m c n os ss ab k) := w in mk l m c n os ss (<[i:=a]> ab) k.
Definition set_coordinator (k : Coordinator.t) (w : ClientWorld.t) : ClientWorld.t :=
  let '(mk l m c n os ss ab _) := w in mk l m c n os ss ab k.
Definition disconnect (w : ClientWorld.t) : ClientWorld.t :=
  let '(mk l m _ n os ss ab k) := w in mk l m false n os ss ab k.
Definition on_transactions (o : op) (w : ClientWorld.t) : stepped :=
  let '(mk l m c n os ss ab k) := w in
  match exec o m with
  | (Panic, _) => Panic
  | (OutOfFuel, _) => OutOfFuel
  | (_, m) => Ok (mk l m c n os ss ab k)
  end.

Definition operation_step (e : client_step) (w : ClientWorld.t) : stepped :=
  match e with
  | OperationCalled => let '(mk l m c n os ss ab k) := w in Ok (mk l m c n (os ++ [Operation.Called]) ss ab k)
  | OperationCheck i =>
      match operations w !! i with
      | Some Operation.Called =>
          Ok (set_operation i (if ClientLifecycle.is_running (life w) then Operation.Acquiring
                               else Operation.Refused ClientError.NotConnected) w)
      | _ => Err tt
      end
  | OperationAcquire i =>
      match operations w !! i with
      | Some Operation.Acquiring =>
          if ClientLifecycle.closed (life w) then Ok (set_operation i (Operation.Refused ClientError.ShuttingDown) w) else
          if 0 <? ClientLifecycle.permits (life w)
          then Ok (set_operation i Operation.Permitted (on_life ClientLifecycle.take_permit w)) else Err tt
      | _ => Err tt
      end
  | OperationEnter i =>
      match operations w !! i with
      | Some Operation.Permitted =>
          match ClientLifecycle.enter_operation (life w) with
          | Some l => Ok (set_operation i Operation.Active (on_life (λ _, l) w))
          | None => Ok (set_operation i (Operation.Refused ClientError.ShuttingDown) (on_life ClientLifecycle.return_permit w))
          end
      | _ => Err tt
      end
  | OperationRing i o =>
      match operations w !! i with
      | Some Operation.Active => if operation_op o then on_transactions o w else Err tt
      | _ => Err tt
      end
  | OperationRetire i reason =>
      match operations w !! i with
      | Some Operation.Active => Ok (on_safety (SessionReuseSafety.retire reason) w)
      | _ => Err tt
      end
  | OperationDone i =>
      match operations w !! i with
      | Some Operation.Active =>
          match ClientLifecycle.leave_operation (life w) with
          | Ok l => Ok (set_operation i Operation.Done (on_life (λ _, ClientLifecycle.return_permit l) w))
          | Err e => match e with end
          | Panic => Panic
          | OutOfFuel => OutOfFuel
          end
      | _ => Err tt
      end
  | _ => Err tt
  end.

(** The reader and the deadline task *)
Definition reader_step (e : client_step) (w : ClientWorld.t) : stepped :=
  let l := life w in
  match e, ClientLifecycle.reader l with
  | ReaderRing o, ReaderTask.Alive _ => if reader_op o then on_transactions o w else Err tt
  | ReaderError reason e, ReaderTask.Alive _ =>
      Ok (on_safety (SessionReuseSafety.retire reason) (on_life (ClientLifecycle.set_reader (ReaderTask.Retiring e)) w))
  | ReaderDisconnects, ReaderTask.Retiring e => Ok (disconnect (on_life (ClientLifecycle.set_reader (ReaderTask.Cancelling e)) w))
  | ReaderCancels, ReaderTask.Cancelling e =>
      on_transactions (CancelAll e) (on_life (ClientLifecycle.set_reader (ReaderTask.Ended false)) w)
  | ReaderEnds, ReaderTask.Alive aborted =>
      if aborted || ClientLifecycle.task_stop l then Ok (on_life (ClientLifecycle.set_reader (ReaderTask.Ended false)) w) else Err tt
  | ReaderFails, ReaderTask.Alive _ => Ok (on_life (ClientLifecycle.set_reader (ReaderTask.Ended true)) w)
  | _, _ => Err tt
  end.
Definition deadline_step (e : client_step) (w : ClientWorld.t) : stepped :=
  match e, ClientLifecycle.deadline (life w) with
  | DeadlineRing at_, DeadlineTask.Alive _ => on_transactions (Expire at_) w
  | DeadlineEnds, DeadlineTask.Alive true => Ok (on_life (ClientLifecycle.set_deadline_task (DeadlineTask.Ended false)) w)
  | DeadlineFails, DeadlineTask.Alive _ => Ok (on_life (ClientLifecycle.set_deadline_task (DeadlineTask.Ended true)) w)
  | _, _ => Err tt
  end.

(** [abort_inner], one step at a time *)
Definition abort_step (a : AbortCall.t) (w : ClientWorld.t) : res unit (AbortCall.t * ClientWorld.t) :=
  match a with
  | AbortCall.Called reason => Ok (AbortCall.Retired, on_safety (SessionReuseSafety.retire reason) w)
  | AbortCall.Retired => Ok (AbortCall.Sealed, on_life ClientLifecycle.cancel w)
  | AbortCall.Sealed => Ok (AbortCall.Disconnected, disconnect w)
  | AbortCall.Disconnected => let? w := on_transactions (CancelAll ClientError.ShuttingDown) w in Ok (AbortCall.Flushed, w)
  | AbortCall.Flushed => Ok (AbortCall.Cancelled, on_life ClientLifecycle.signal_cancellation w)
  | AbortCall.Cancelled => Ok (AbortCall.Stopped, on_life ClientLifecycle.signal_stop w)
  | AbortCall.Stopped => Ok (AbortCall.Done, on_life ClientLifecycle.abort_tasks w)
  | AbortCall.Done => Err tt
  end.

Definition call_step (e : client_step) (w : ClientWorld.t) : stepped :=
  match e with
  | ShutdownCalled timeout =>
      let '(mk l m c n os ss ab k) := w in
      match saturating_instant_add instant_max n timeout with
      | Ok d => Ok (mk l m c n os (ss ++ [ShutdownCall.Called d]) ab k)
      | Err e => match e with end
      | Panic => Panic
      | OutOfFuel => OutOfFuel
      end
  | ShutdownSeal i =>
      match shutdowns w !! i with
      | Some (ShutdownCall.Called d) => Ok (set_shutdown i ShutdownCall.Sealed (on_life (ClientLifecycle.seal d) w))
      | _ => Err tt
      end
  | ShutdownCoordinate i =>
      match shutdowns w !! i with
      | Some ShutdownCall.Sealed =>
          let '(start, l) := ClientLifecycle.ensure_coordinator (life w) in
          let w := set_shutdown i ShutdownCall.Waiting (on_life (λ _, l) w) in
          Ok (if start : bool then set_coordinator Coordinator.Begun w else w)
      | _ => Err tt
      end
  | ShutdownReturns i =>
      match shutdowns w !! i with
      | Some ShutdownCall.Waiting =>
          if ClientLifecycle.completion (life w) then Ok (set_shutdown i ShutdownCall.Returned w) else Err tt
      | _ => Err tt
      end
  | AbortCalled reason => let '(mk l m c n os ss ab k) := w in Ok (mk l m c n os ss (ab ++ [AbortCall.Called reason]) k)
  | AbortStep i =>
      match aborts w !! i with
      | Some a => let? x := abort_step a w in Ok (set_abort i x.1 x.2)
      | None => Err tt
      end
  | _ => Err tt
  end.

(** What [join_tasks] does once a task has ended *)
Definition task_joined (failed : bool) (w : ClientWorld.t) : ClientWorld.t :=
  if failed then on_safety (SessionReuseSafety.retire SessionRetirementReason.BackgroundTaskFailed) w else w.
Definition client_coordinator_step (e : client_step) (w : ClientWorld.t) : stepped :=
  let l := life w in
  match e, coordinator w with
  | CoordinatorStep, Coordinator.Begun =>
      match ClientLifecycle.phase l, ClientLifecycle.drain_deadline l with
      | ClientPhase.Draining, Some d => Ok (set_coordinator (Coordinator.Waiting d) w)
      | _, _ => Ok (set_coordinator Coordinator.Stopping w)
      end
  | CoordinatorStep, Coordinator.Waiting d =>
      Ok (set_coordinator (if ClientLifecycle.active l =? 0 then Coordinator.Stopping else Coordinator.Parked d) w)
  | CoordinatorNotified, Coordinator.Parked d =>
      if ClientLifecycle.active_changed l
      then Ok (set_coordinator (Coordinator.Waiting d) (on_life ClientLifecycle.consume_notification w)) else Err tt
  | CoordinatorCancelled, Coordinator.Parked _ =>
      if negb (ClientLifecycle.active_changed l) && ClientLifecycle.cancellation l
      then Ok (set_coordinator Coordinator.Stopping w) else Err tt
  | CoordinatorLate, Coordinator.Parked d =>
      if negb (ClientLifecycle.active_changed l) && negb (ClientLifecycle.cancellation l) && (d <=? now w)
      then Ok (set_coordinator (Coordinator.Expiring (AbortCall.Called SessionRetirementReason.ShutdownDeadlineExceeded)) w) else Err tt
  | CoordinatorStep, Coordinator.Expiring AbortCall.Done => Ok (set_coordinator Coordinator.Stopping w)
  | CoordinatorStep, Coordinator.Expiring a => let? x := abort_step a w in Ok (set_coordinator (Coordinator.Expiring x.1) x.2)
  | CoordinatorStep, Coordinator.Stopping =>
      Ok (set_coordinator (Coordinator.Halting (bool_decide (ClientLifecycle.phase l = ClientPhase.Cancelling))) w)
  | CoordinatorStep, Coordinator.Halting hard => Ok (set_coordinator (Coordinator.Aborting hard) (on_life ClientLifecycle.signal_stop w))
  | CoordinatorStep, Coordinator.Aborting hard => Ok (set_coordinator Coordinator.JoiningReader (on_life (ClientLifecycle.stop_tasks hard) w))
  | CoordinatorStep, Coordinator.JoiningReader =>
      match ClientLifecycle.reader l with
      | ReaderTask.Ended failed => Ok (set_coordinator Coordinator.JoiningDeadline (task_joined failed w))
      | _ => Err tt
      end
  | CoordinatorStep, Coordinator.JoiningDeadline =>
      match ClientLifecycle.deadline l with
      | DeadlineTask.Ended failed => Ok (set_coordinator Coordinator.Disconnecting (task_joined failed w))
      | _ => Err tt
      end
  | CoordinatorStep, Coordinator.Disconnecting => Ok (set_coordinator Coordinator.Closing (disconnect w))
  | CoordinatorStep, Coordinator.Closing =>
      let clean := bool_decide (ClientLifecycle.phase l = ClientPhase.Draining) && (ClientLifecycle.active l =? 0)
                   && (TransactionManager.pending_count (ring w) =? 0) in
      Ok (set_coordinator (Coordinator.Marking clean) (on_life ClientLifecycle.close w))
  | CoordinatorStep, Coordinator.Marking clean =>
      Ok (set_coordinator Coordinator.Completing
            (on_safety (if clean then SessionReuseSafety.mark_clean_shutdown
                        else SessionReuseSafety.retire SessionRetirementReason.ShutdownIncomplete) w))
  | CoordinatorStep, Coordinator.Completing => Ok (set_coordinator Coordinator.Finished (on_life ClientLifecycle.complete w))
  | _, _ => Err tt
  end.

Definition client_exec (e : client_step) (w : ClientWorld.t) : stepped :=
  match e with
  | OperationCalled | OperationCheck _ | OperationAcquire _ | OperationEnter _ | OperationRing _ _ | OperationRetire _ _ | OperationDone _ =>
      operation_step e w
  | ReaderRing _ | ReaderError _ _ | ReaderDisconnects | ReaderCancels | ReaderEnds | ReaderFails => reader_step e w
  | DeadlineRing _ | DeadlineEnds | DeadlineFails => deadline_step e w
  | ShutdownCalled _ | ShutdownSeal _ | ShutdownCoordinate _ | ShutdownReturns _ | AbortCalled _ | AbortStep _ => call_step e w
  | CoordinatorStep | CoordinatorNotified | CoordinatorCancelled | CoordinatorLate => client_coordinator_step e w
  | TimePasses n =>
      if (0 <=? n) && (now w + n <=? instant_max) then let '(mk l m c t os ss ab k) := w in Ok (mk l m c (t + n) os ss ab k) else Err tt
  end.
(** [from_transport] *)
Definition client_start (max_in_flight now : Z) : ClientWorld.t :=
  mk (ClientLifecycle.new (Z.max 1 (Z.min max_in_flight MAX_SLOTS))) TransactionManager.new true now [] [] [] Coordinator.Idle.
Fixpoint client_run (es : list client_step) (w : ClientWorld.t) : res Empty_set ClientWorld.t :=
  match es with
  | [] => Ok w
  | e :: es =>
      match client_exec e w with
      | Ok w => client_run es w
      | Err _ => client_run es w
      | Panic => Panic
      | OutOfFuel => OutOfFuel
      end
  end.
End ClientTasks.

(** * Lemmas *)
Definition client_step_ok (e : client_step) : Prop :=
  match e with
  | OperationRing _ o | ReaderRing o => op_ok o
  | ShutdownCalled timeout => 0 ≤ timeout ≤ DURATION_MAX
  | _ => True
  end.
(** The steps left to a call of [abort_inner] and to the coordinator *)
Definition abort_left (a : AbortCall.t) : Z :=
  match a with
  | AbortCall.Called _ => 7 | AbortCall.Retired => 6 | AbortCall.Sealed => 5 | AbortCall.Disconnected => 4
  | AbortCall.Flushed => 3 | AbortCall.Cancelled => 2 | AbortCall.Stopped => 1 | AbortCall.Done => 0
  end.
Definition coordinator_left (k : Coordinator.t) : Z :=
  match k with
  | Coordinator.Idle => 25 | Coordinator.Begun => 24 | Coordinator.Waiting _ => 19 | Coordinator.Parked _ => 18
  | Coordinator.Expiring a => 10 + abort_left a | Coordinator.Stopping => 9 | Coordinator.Halting _ => 8 | Coordinator.Aborting _ => 7
  | Coordinator.JoiningReader => 6 | Coordinator.JoiningDeadline => 5 | Coordinator.Disconnecting => 4 | Coordinator.Closing => 3
  | Coordinator.Marking _ => 2 | Coordinator.Completing => 1 | Coordinator.Finished => 0
  end.
Definition halted (d : DeadlineTask.t) : bool := match d with DeadlineTask.Alive aborted => aborted | DeadlineTask.Ended _ => true end.
Abbreviation sealed w := (ClientLifecycle.phase (ClientWorld.life w) ≠ ClientPhase.Running).
Abbreviation safety w := (TransactionManager.reuse_safety (ClientWorld.ring w)).

(** ** Steps of the other tasks *)

(** What every task but the coordinator keeps *)
Import ClientWorld.
Record calm (w w' : ClientWorld.t) : Prop := {
  calm_coordinator : coordinator w' = coordinator w;
  calm_started : ClientLifecycle.coordinator_started (life w') = ClientLifecycle.coordinator_started (life w);
  calm_completion : ClientLifecycle.completion (life w') = ClientLifecycle.completion (life w);
  calm_sealed : sealed w → sealed w' ∧ ClientLifecycle.drain_deadline (life w') = ClientLifecycle.drain_deadline (life w);
  calm_closed : ClientLifecycle.phase (life w') = ClientPhase.Closed ↔ ClientLifecycle.phase (life w) = ClientPhase.Closed;
  calm_semaphore : ClientLifecycle.closed (life w) = negb (ClientLifecycle.is_running (life w)) →
    ClientLifecycle.closed (life w') = negb (ClientLifecycle.is_running (life w'));
  calm_stop : ClientLifecycle.task_stop (life w) = true → ClientLifecycle.task_stop (life w') = true;
  calm_reader : ReaderTask.ended (ClientLifecycle.reader (life w)) = true → ReaderTask.ended (ClientLifecycle.reader (life w')) = true;
  calm_halted : halted (ClientLifecycle.deadline (life w)) = true → halted (ClientLifecycle.deadline (life w')) = true;
  calm_ended : DeadlineTask.ended (ClientLifecycle.deadline (life w)) = true → DeadlineTask.ended (ClientLifecycle.deadline (life w')) = true;
  calm_connected : connected w = false → connected w' = false;
  calm_safety : retires (safety w) (safety w');
  calm_active : sealed w → ClientLifecycle.active (life w) = 0 → ClientLifecycle.active (life w') = 0;
  calm_idle : ClientLifecycle.active (life w') = 0 → ClientLifecycle.active_changed (life w') = true ∨
    (ClientLifecycle.active (life w) = 0 ∧ ClientLifecycle.active_changed (life w') = ClientLifecycle.active_changed (life w));
  calm_pending : sealed w → ClientLifecycle.active (life w) = 0 → ReaderTask.ended (ClientLifecycle.reader (life w)) = true →
    DeadlineTask.ended (ClientLifecycle.deadline (life w)) = true → (∀ q, ¬ pending (ring w) q) → ∀ q, ¬ pending (ring w') q;
  calm_now : now w ≤ now w';
  calm_admitted : sealed w → ∀ i, operations w' !! i = Some Operation.Active → operations w !! i = Some Operation.Active;
}.
#[export] Instance calm_preorder : PreOrder calm.
Proof.
  split; [intros w; by split; auto|]. intros w1 w2 w3 H1 H2. pose proof (calm_sealed _ _ H1) as Hs1. destruct H1, H2. split.
  - congruence.
  - congruence.
  - congruence.
  - intros Hs. destruct (Hs1 Hs) as [Hs' Hd]. destruct (calm_sealed1 Hs'). split; [done|congruence].
  - by rewrite calm_closed1.
  - auto.
  - auto.
  - auto.
  - auto.
  - auto.
  - auto.
  - by etrans.
  - intros Hs. specialize (Hs1 Hs) as [? _]. auto.
  - intros Ha. destruct (calm_idle1 Ha) as [?|[Ha2 Hc]]; [by left|]. rewrite Hc. auto.
  - intros Hs. specialize (Hs1 Hs) as [? _]. auto 10.
  - exact (Z.le_trans _ _ _ calm_now0 calm_now1).
  - intros Hs. specialize (Hs1 Hs) as [? _]. auto.
Qed.
Ltac calm_fields := split; cbn; try done; try (by split); try (by left); try (intros; by right); auto.
Section Calm.
Context (w : ClientWorld.t).
Lemma calm_life : Forall (λ f, calm w (on_life f w)) [ClientLifecycle.take_permit; ClientLifecycle.return_permit; ClientLifecycle.cancel;
    ClientLifecycle.signal_cancellation; ClientLifecycle.signal_stop; ClientLifecycle.abort_tasks].
Proof.
  destruct w as [[p a d c n x i ca ts co r dl] m cn t os ss ab k]. repeat (apply List.Forall_cons; [calm_fields|]); [..|constructor].
  - case_bool_decide; naive_solver.
  - case_bool_decide; naive_solver.
  - intros _. unfold ClientLifecycle.is_running. cbn. by destruct p.
  - by destruct r.
  - by destruct dl.
  - by destruct dl.
Qed.
Lemma calm_seal d : calm w (on_life (ClientLifecycle.seal d) w).
Proof.
  destruct w as [[p a d' c n x i ca ts co r dl] m cn t os ss ab k]. cbn. case_bool_decide as Hp; [|done]. subst p. calm_fields.
Qed.
Lemma calm_set_reader r : ReaderTask.ended (ClientLifecycle.reader (life w)) = false → calm w (on_life (ClientLifecycle.set_reader r) w).
Proof. destruct w as [[p a d c n x i ca ts co r' dl] m cn t os ss ab k]. cbn. intros Hr. calm_fields. congruence. Qed.
Lemma calm_set_deadline f : calm w (on_life (ClientLifecycle.set_deadline_task (DeadlineTask.Ended f)) w).
Proof. destruct w as [[p a d c n x i ca ts co r dl] m cn t os ss ab k]. calm_fields. Qed.
Lemma calm_disconnect : calm w (disconnect w).
Proof. destruct w as [[p a d c n x i ca ts co r dl] m cn t os ss ab k]. calm_fields. Qed.
Lemma calm_retire reason : calm w (on_safety (SessionReuseSafety.retire reason) w).
Proof. destruct w as [[p a d c n x i ca ts co r dl] [] cn t os ss ab k]. calm_fields. apply retire_retires. Qed.
Lemma calm_operation i o : o ≠ Operation.Active → calm w (set_operation i o w).
Proof.
  intros Ho. destruct w as [[p a d c n x i' ca ts co r dl] m cn t os ss ab k]. calm_fields.
  intros _ j Hj. by apply insert_lookup_cases in Hj as [[_ ?]|[_ ?]].
Qed.
Lemma calm_shutdown i s : calm w (set_shutdown i s w).
Proof. destruct w as [[p a d c n x i' ca ts co r dl] m cn t os ss ab k]. calm_fields. Qed.
Lemma calm_abort i a : calm w (set_abort i a w).
Proof. destruct w as [[p a' d c n x i' ca ts co r dl] m cn t os ss ab k]. calm_fields. Qed.

(** The ring: an operation uses it while it is admitted, a task while it is alive;
    [cancel_all] leaves nothing pending. *)
Definition idle_allows (o : op) : Prop :=
  ClientLifecycle.active (life w) = 0 → ReaderTask.ended (ClientLifecycle.reader (life w)) = true →
  DeadlineTask.ended (ClientLifecycle.deadline (life w)) = true → ∃ e, o = CancelAll e.
Lemma on_transactions_calm o : ring_ok (ring w) → op_ok o → idle_allows o → ∃ w', on_transactions o w = Ok w' ∧ calm w w' ∧
  ring_ok (ring w') ∧ life w' = life w ∧ now w' = now w ∧ operations w' = operations w ∧ shutdowns w' = shutdowns w ∧ aborts w' = aborts w.
Proof.
  unfold idle_allows. destruct w as [[p a d c n x i' ca ts co r dl] m cn t os ss ab k]. cbn. intros Hm Ho Hidle. destruct (exec_ok o m Hm Ho) as [Hr Hm'].
  pose proof (exec_retires o m Hm Ho) as Hret. destruct (exec o m) as [x' m'] eqn:Hex. cbn in *.
  exists (mk (ClientLifecycle.mk p a d c n x i' ca ts co r dl) m' cn t os ss ab k). split; [by destruct x'|].
  split; [|done]. calm_fields. intros _ Ha Hrd Hdl _ q. destruct (Hidle Ha Hrd Hdl) as [e ->]. cbn [exec] in Hex.
  destruct (cancel_spec m e Hm) as (m1 & Hc & _ & Hno & _). rewrite Hc in Hex. injection Hex as <- <-. apply Hno.
Qed.
End Calm.

(** ** The invariant *)
Definition drained (w : ClientWorld.t) : Prop := ClientLifecycle.active (life w) = 0 ∧ ∀ q, ¬ pending (ring w) q.
Abbreviation left w := (coordinator_left (coordinator w)).
(** What the coordinator has reached so far *)
Record coordinator_ok (w : ClientWorld.t) : Prop := {
  co_started : ClientLifecycle.coordinator_started (life w) = (left w <? 25);
  co_sealed : left w < 25 → sealed w;
  co_closed : ClientLifecycle.phase (life w) = ClientPhase.Closed ↔ left w ≤ 2;
  co_completion : ClientLifecycle.completion (life w) = (left w =? 0);
  co_stop : left w ≤ 7 → ClientLifecycle.task_stop (life w) = true;
  co_halted : left w ≤ 6 → halted (ClientLifecycle.deadline (life w)) = true;
  co_reader : left w ≤ 5 → ReaderTask.ended (ClientLifecycle.reader (life w)) = true;
  co_ended : left w ≤ 4 → DeadlineTask.ended (ClientLifecycle.deadline (life w)) = true;
  co_connected : left w ≤ 3 → connected w = false;
  co_eligible : safety w = REUSE_ELIGIBLE → left w ≤ 1 ∧ drained w;
  co_final : left w ≤ 1 → safety w ≠ NOT_QUIESCENT;
  co_marking : coordinator w = Coordinator.Marking true → drained w;
  co_deadline d : coordinator w = Coordinator.Waiting d ∨ coordinator w = Coordinator.Parked d →
    ClientLifecycle.drain_deadline (life w) = Some d;
  co_parked d : coordinator w = Coordinator.Parked d → ClientLifecycle.active (life w) = 0 → ClientLifecycle.active_changed (life w) = true;
}.
Definition client_caller_ok (l : ClientLifecycle.t) (s : ShutdownCall.t) : Prop :=
  match s with
  | ShutdownCall.Called _ => True
  | ShutdownCall.Sealed => ClientLifecycle.phase l ≠ ClientPhase.Running
  | ShutdownCall.Waiting => ClientLifecycle.coordinator_started l = true
  | ShutdownCall.Returned => ClientLifecycle.completion l = true
  end.
Lemma abort_left_bounds a : 0 ≤ abort_left a ≤ 7.
Proof. destruct a; cbn; lia. Qed.
Lemma drained_calm w w' : calm w w' → coordinator_ok w → left w ≤ 2 → drained w → drained w'.
Proof.
  intros Hc Hw Hl [Ha Hno]. assert (sealed w) as Hs by (apply (co_sealed w Hw); lia). split; [by apply (calm_active w w' Hc)|].
  apply (calm_pending w w' Hc); try done; [apply (co_reader w Hw)|apply (co_ended w Hw)]; lia.
Qed.
Lemma coordinator_calm w w' : calm w w' → coordinator_ok w → coordinator_ok w'.
Proof.
  intros Hc Hw. pose proof (drained_calm w w' Hc Hw) as Hd. pose proof (calm_safety w w' Hc) as Hs. unfold retires in Hs.
  split; rewrite ?(calm_coordinator w w' Hc).
  - rewrite (calm_started w w' Hc). apply Hw.
  - intros Hl. by apply (calm_sealed w w' Hc), (co_sealed w Hw).
  - rewrite (calm_closed w w' Hc). apply Hw.
  - rewrite (calm_completion w w' Hc). apply Hw.
  - intros Hl. by apply (calm_stop w w' Hc), (co_stop w Hw).
  - intros Hl. by apply (calm_halted w w' Hc), (co_halted w Hw).
  - intros Hl. by apply (calm_reader w w' Hc), (co_reader w Hw).
  - intros Hl. by apply (calm_ended w w' Hc), (co_ended w Hw).
  - intros Hl. by apply (calm_connected w w' Hc), (co_connected w Hw).
  - intros He. destruct Hs as [Hs|Hs]; [|by rewrite He in Hs]. destruct (co_eligible w Hw) as [Hl ?]; [congruence|]. split; [done|]. apply Hd; [lia|done].
  - intros Hl. destruct Hs as [->|Hs]; [by apply (co_final w Hw)|]. unfold RETIRED_BASE, NOT_QUIESCENT in *. lia.
  - intros Hm. apply Hd; [rewrite Hm; done|by apply (co_marking w Hw)].
  - intros d Hk. assert (sealed w) as Hse by (apply (co_sealed w Hw); destruct Hk as [-> | ->]; done).
    destruct (calm_sealed w w' Hc Hse) as [_ ->]. by apply (co_deadline w Hw).
  - intros d Hk Ha. destruct (calm_idle w w' Hc Ha) as [?|[? ->]]; [done|by eapply (co_parked w Hw)].
Qed.
Lemma client_caller_calm w w' s : calm w w' → client_caller_ok (life w) s → client_caller_ok (life w') s.
Proof. intros []. destruct s; cbn; [done|intros; by apply calm_sealed0|congruence|congruence]. Qed.

Section ClientInvariant.
Context (capacity last : Z) (Hcapacity : 1 ≤ capacity ≤ 16).
Record client_inv (w : ClientWorld.t) : Prop := {
  civ_ring : ring_ok (ring w);
  civ_permits : 0 ≤ ClientLifecycle.permits (life w);
  civ_books : ClientLifecycle.permits (life w) + tally Operation.holds (operations w) = capacity;
  civ_active : ClientLifecycle.active (life w) = tally Operation.admitted (operations w);
  civ_semaphore : ClientLifecycle.closed (life w) = negb (ClientLifecycle.is_running (life w));
  civ_coordinator : coordinator_ok w;
  civ_callers : Forall (client_caller_ok (life w)) (shutdowns w);
  civ_now : now w ≤ last;
}.
(** What stays true from then on *)
Record client_later (w w' : ClientWorld.t) : Prop := {
  later_sealed : sealed w → sealed w' ∧ ClientLifecycle.drain_deadline (life w') = ClientLifecycle.drain_deadline (life w) ∧
    ∀ i, operations w' !! i = Some Operation.Active → operations w !! i = Some Operation.Active;
  later_started : ClientLifecycle.coordinator_started (life w) = true → ClientLifecycle.coordinator_started (life w') = true;
  later_completion : ClientLifecycle.completion (life w) = true → ClientLifecycle.completion (life w') = true ∧ retires (safety w) (safety w');
  later_retired : RETIRED_BASE ≤ safety w → RETIRED_BASE ≤ safety w';
  later_now : now w ≤ now w';
}.
#[export] Instance client_later_preorder : PreOrder client_later.
Proof.
  split; [intros w; by split|]. intros w1 w2 w3 [] []. split; auto.
  - intros Hs. destruct (later_sealed0 Hs) as (Hs2 & Hd2 & Ha2). destruct (later_sealed1 Hs2) as (? & ? & ?). split_and!; auto. congruence.
  - intros Hc. destruct (later_completion0 Hc) as [Hc2 ?]. destruct (later_completion1 Hc2) as [? ?]. split; [done|by etrans].
  - exact (Z.le_trans _ _ _ later_now0 later_now1).
Qed.
Definition client_good (w : ClientWorld.t) (o : res unit ClientWorld.t) : Prop :=
  match o with Ok w' => client_inv w' ∧ client_later w w' | Err _ => True | Panic | OutOfFuel => False end.
Lemma retires_retired r r' : retires r r' → RETIRED_BASE ≤ r → RETIRED_BASE ≤ r'.
Proof. by intros [->|?]. Qed.
Lemma calm_later w w' : calm w w' → client_later w w'.
Proof. intros []. split; [|congruence|intros; split; [congruence|done]|by apply retires_retired|done]. intros Hs. destruct (calm_sealed0 Hs). auto. Qed.
Lemma good_calm w w' : client_inv w → calm w w' → ring_ok (ring w') → now w' ≤ last → 0 ≤ ClientLifecycle.permits (life w') →
  ClientLifecycle.permits (life w') + tally Operation.holds (operations w') = capacity →
  ClientLifecycle.active (life w') = tally Operation.admitted (operations w') →
  Forall (client_caller_ok (life w')) (shutdowns w') → client_good w (Ok w').
Proof.
  intros [] Hc Hm Hn Hp Hb Ha Hk. split; [|by apply calm_later]. split; auto; [by apply Hc|by eapply coordinator_calm].
Qed.
(** A step that leaves the books alone *)
Definition same_books (w w' : ClientWorld.t) : Prop :=
  now w' = now w ∧ ClientLifecycle.permits (life w') = ClientLifecycle.permits (life w) ∧
  ClientLifecycle.active (life w') = ClientLifecycle.active (life w) ∧ operations w' = operations w ∧ shutdowns w' = shutdowns w.
Lemma good_quiet w w' : client_inv w → calm w w' → ring_ok (ring w') → same_books w w' → client_good w (Ok w').
Proof.
  intros Hw Hc Hm (Hn & Hp & Ha & Ho & Hs). pose proof Hw as []. eapply good_calm; rewrite ?Hn, ?Hp, ?Ha, ?Ho, ?Hs; auto.
  eapply Forall_impl; [done|]. intros s. by apply client_caller_calm.
Qed.
Lemma good_transactions w w1 o : client_inv w → calm w w1 → same_books w w1 → ring w1 = ring w → op_ok o → idle_allows w1 o →
  client_good w (on_transactions o w1).
Proof.
  intros Hw Hc (Hn & Hp & Ha & Ho & Hs) Hm Hop Hidle. assert (ring_ok (ring w1)) as Hr by (rewrite Hm; apply Hw).
  destruct (on_transactions_calm w1 o Hr Hop Hidle) as (w' & -> & Hc' & Hm' & Hl' & Hn' & Ho' & Hs' & _).
  apply good_quiet; [done|by etrans|done|]. unfold same_books. rewrite Hl', Hn', Ho', Hs'. by split_and!.
Qed.
Lemma ring_retire w reason : ring_ok (ring w) → ring_ok (ring (on_safety (SessionReuseSafety.retire reason) w)).
Proof.
  destruct w as [? [] ? ? ? ? ? ?]. cbn. intros Hm. eapply ring_frame; [done|apply Hm|]. apply retire_ok, Hm.
Qed.

(** *** Operations *)
Lemma good_operation w w1 i x y : client_inv w → operations w !! i = Some x → calm w (set_operation i y w1) →
  ring w1 = ring w → now w1 = now w → operations w1 = operations w → shutdowns w1 = shutdowns w →
  0 ≤ ClientLifecycle.permits (life w1) → ClientLifecycle.permits (life w1) = ClientLifecycle.permits (life w) + Z.b2z (Operation.holds x) - Z.b2z (Operation.holds y) →
  ClientLifecycle.active (life w1) = ClientLifecycle.active (life w) - Z.b2z (Operation.admitted x) + Z.b2z (Operation.admitted y) →
  client_good w (Ok (set_operation i y w1)).
Proof.
  intros Hw Hi Hc Hm Hn Ho Hs Hp Hp' Ha. pose proof Hw as [Hring _ Hb Hact _ _ Hk Hnow].
  pose proof (tally_insert Operation.holds (operations w) i x y Hi) as Hth. pose proof (tally_insert Operation.admitted (operations w) i x y Hi) as Hta.
  assert (Forall (client_caller_ok (life (set_operation i y w1))) (shutdowns w)) as Hk'
    by (eapply Forall_impl; [exact Hk|intros s; by apply client_caller_calm]).
  eapply good_calm; [done|exact Hc|..]; destruct w1; cbn in *; subst; try done; lia.
Qed.
Lemma admitted_active w i : client_inv w → operations w !! i = Some Operation.Active → 0 < ClientLifecycle.active (life w).
Proof.
  intros Hw Hi. rewrite (civ_active w Hw). pose proof (tally_delete Operation.admitted _ _ _ Hi) as Hd. cbn in Hd.
  pose proof (tally_bounds Operation.admitted (delete i (operations w))). lia.
Qed.
Lemma admitted_capacity w : client_inv w → 0 ≤ ClientLifecycle.active (life w) ≤ capacity.
Proof.
  intros Hw. rewrite (civ_active w Hw). pose proof (tally_bounds Operation.admitted (operations w)). pose proof (civ_books w Hw). pose proof (civ_permits w Hw).
  pose proof (tally_le Operation.admitted Operation.holds (operations w) ltac:(by intros [])). lia.
Qed.
Lemma calm_called w : let '(mk l m c n os ss ab k) := w in calm w (mk l m c n (os ++ [Operation.Called]) ss ab k).
Proof.
  destruct w as [[p a d c n x i ca ts co r dl] m cn t os ss ab k]. calm_fields. intros _ j Hj.
  apply lookup_app_Some in Hj as [?|[_ Hj]]; [done|]. by apply list_lookup_singleton_Some in Hj as [_ ?].
Qed.
Lemma calm_take w : calm w (on_life ClientLifecycle.take_permit w).
Proof. by pose proof (calm_life w) as (? & _)%Forall_cons. Qed.
Lemma calm_return w : calm w (on_life ClientLifecycle.return_permit w).
Proof. by pose proof (calm_life w) as (_ & (? & _)%Forall_cons)%Forall_cons. Qed.
Lemma calm_enter w l i : ClientLifecycle.enter_operation (life w) = Some l → 0 ≤ ClientLifecycle.active (life w) ≤ 16 →
  calm w (set_operation i Operation.Active (on_life (λ _, l) w)).
Proof.
  destruct w as [[p a d c n x i' ca ts co r dl] m cn t os ss ab k]. cbn. case_bool_decide as Hp; [|done]. intros [= <-] Ha. subst p. calm_fields.
  unfold usize_max. lia.
Qed.
Lemma leave_spec w i : client_inv w → operations w !! i = Some Operation.Active → ∃ l, ClientLifecycle.leave_operation (life w) = Ok l ∧
  calm w (set_operation i Operation.Done (on_life (λ _, ClientLifecycle.return_permit l) w)) ∧
  ClientLifecycle.permits l = ClientLifecycle.permits (life w) ∧ ClientLifecycle.active l = ClientLifecycle.active (life w) - 1.
Proof.
  intros Hw Hi. pose proof (admitted_active w i Hw Hi) as Ha. clear Hw. destruct w as [[p a d c n x i' ca ts co r dl] m cn t os ss ab k]. cbn in *.
  replace (0 <? a) with true by lia. eexists. split; [done|]. split; [|cbn; lia]. calm_fields; [lia| |].
  - intros Ha'. left. rewrite orb_true_iff. right. lia.
  - intros _ j Hj. by apply insert_lookup_cases in Hj as [[_ ?]|[_ ?]].
Qed.
Lemma operation_step_good e w : client_inv w → client_step_ok e → client_good w (operation_step e w).
Proof.
  intros Hw He. destruct e; try done; cbn [operation_step];
    try (destruct (operations w !! i) as [x|] eqn:Hi; [|done]; destruct x; try done).
  - pose proof (calm_called w) as Hc. pose proof Hw as []. destruct w. cbn in *. eapply good_calm; try done.
    + cbn. rewrite tally_app. change (tally Operation.holds [Operation.Called]) with 0. lia.
    + cbn. rewrite tally_app. change (tally Operation.admitted [Operation.Called]) with 0. lia.
  - eapply good_operation; try done; [apply calm_operation; by case_match|by apply Hw|case_match; cbn; lia..].
  - case_match; [eapply good_operation; try done; [by apply calm_operation|apply Hw|cbn; lia..]|].
    destruct (Z.ltb_spec 0 (ClientLifecycle.permits (life w))) as [Hp|]; [|done]. eapply good_operation; try done; try by destruct w.
    + etrans; [apply calm_take|by apply calm_operation].
    + destruct w as [[] ? ? ? ? ? ? ?]. cbn in *. lia.
    + destruct w as [[] ? ? ? ? ? ? ?]. cbn. lia.
    + destruct w as [[] ? ? ? ? ? ? ?]. cbn. lia.
  - pose proof (admitted_capacity w Hw) as Hcap. destruct (ClientLifecycle.enter_operation (life w)) as [l|] eqn:Hl.
    + pose proof (calm_enter w l i Hl ltac:(lia)). pose proof (civ_permits w Hw). eapply good_operation; try done; try by destruct w.
      all: destruct w as [[p a d c n x i' ca ts co r dl] ? ? ? ? ? ? ?]; cbn in *; case_bool_decide; [|done]; injection Hl as <-; cbn; unfold usize_max; lia.
    + pose proof (civ_permits w Hw). eapply good_operation; try done; try by destruct w.
      * etrans; [apply calm_return|by apply calm_operation].
      * destruct w as [[] ? ? ? ? ? ? ?]. cbn in *. lia.
      * destruct w as [[] ? ? ? ? ? ? ?]. cbn. lia.
      * destruct w as [[] ? ? ? ? ? ? ?]. cbn. lia.
  - destruct (operation_op o); [|done]. pose proof (admitted_active w i Hw Hi) as Ha.
    apply good_transactions; try done. intros ?; lia.
  - apply good_quiet; [done|apply calm_retire|apply ring_retire, Hw|by destruct w as [? [] ? ? ? ? ? ?]].
  - destruct (leave_spec w i Hw Hi) as (l & -> & Hc & Hp & Ha). pose proof (civ_permits w Hw). eapply good_operation; try done; try by destruct w.
    all: destruct w as [l0 ? ? ? ? ? ? ?], l; cbn in *; lia.
Qed.

(** *** The reader and the deadline task *)
Lemma same_life f w : f ∈ [ClientLifecycle.cancel; ClientLifecycle.signal_cancellation; ClientLifecycle.signal_stop;
    ClientLifecycle.abort_tasks] → same_books w (on_life f w) ∧ ring (on_life f w) = ring w.
Proof. rewrite !elem_of_cons. intros [->|[->|[->|[->|[]%not_elem_of_nil]]]]; by destruct w as [[] ? ? ? ? ? ? ?]. Qed.
Lemma same_set_reader r w : same_books w (on_life (ClientLifecycle.set_reader r) w) ∧ ring (on_life (ClientLifecycle.set_reader r) w) = ring w.
Proof. by destruct w as [[] ? ? ? ? ? ? ?]. Qed.
Lemma good_reader w r : client_inv w → ReaderTask.ended (ClientLifecycle.reader (life w)) = false →
  client_good w (Ok (on_life (ClientLifecycle.set_reader r) w)).
Proof.
  intros Hw Hr. destruct (same_set_reader r w) as [? Hm]. apply good_quiet; [done|by apply calm_set_reader|rewrite Hm; apply Hw|done].
Qed.
Lemma reader_step_good e w : client_inv w → client_step_ok e → client_good w (reader_step e w).
Proof.
  intros Hw He. destruct e; try done; cbn [reader_step]; destruct (ClientLifecycle.reader (life w)) as [b|x|x|b] eqn:Hr; try done;
    try (assert (ReaderTask.ended (ClientLifecycle.reader (life w)) = false) as Hend by by rewrite Hr).
  - destruct (reader_op o); [|done]. apply good_transactions; try done. intros _ Hx. congruence.
  - apply good_quiet; [done|etrans; [by apply calm_set_reader|apply calm_retire]|apply ring_retire; rewrite (proj2 (same_set_reader _ w)); apply Hw|].
    by destruct w as [[] [] ? ? ? ? ? ?].
  - apply good_quiet; [done|etrans; [by apply calm_set_reader|apply calm_disconnect]|..]; pose proof (civ_ring w Hw); by destruct w as [[] ? ? ? ? ? ? ?].
  - apply good_transactions; try done; [by apply calm_set_reader|apply same_set_reader|apply same_set_reader|intros _ _ _; by eexists].
  - case_match; [by apply good_reader|done].
  - by apply good_reader.
Qed.
Lemma deadline_step_good e w : client_inv w → client_good w (deadline_step e w).
Proof.
  intros Hw. assert (∀ f, client_good w (Ok (on_life (ClientLifecycle.set_deadline_task (DeadlineTask.Ended f)) w))) as Hset.
  { intros f. apply good_quiet; [done|apply calm_set_deadline|..]; pose proof (civ_ring w Hw); by destruct w as [[] ? ? ? ? ? ? ?]. }
  destruct e; try done; cbn [deadline_step]; destruct (ClientLifecycle.deadline (life w)) as [b|b] eqn:Hd; try done; [|by destruct b].
  apply good_transactions; try done. intros _ _ Hx. rewrite Hd in Hx. done.
Qed.

(** *** The callers *)
Lemma abort_step_calm a w : ring_ok (ring w) →
  match abort_step a w with
  | Ok (a', w') => calm w w' ∧ ring_ok (ring w') ∧ same_books w w' ∧ abort_left a' = abort_left a - 1
  | Err _ => a = AbortCall.Done
  | Panic | OutOfFuel => False
  end.
Proof.
  clear Hcapacity. intros Hm. pose proof (calm_life w) as (_ & (_ & (? & (? & (? & (? & _)%Forall_cons)%Forall_cons)%Forall_cons)%Forall_cons)%Forall_cons)%Forall_cons.
  destruct a; cbn [abort_step]; try done.
  - split_and!; [apply calm_retire|by apply ring_retire|by destruct w as [? [] ? ? ? ? ? ?]..|done].
  - destruct (same_life ClientLifecycle.cancel w) as [? Hr]; [set_solver|]. by rewrite Hr.
  - split_and!; [apply calm_disconnect|by destruct w..|done].
  - destruct (on_transactions_calm w (CancelAll ClientError.ShuttingDown) Hm) as (w' & -> & ? & ? & Hl & Hn & Ho & Hs & _); [done|intros _ _ _; by eexists|].
    cbn [rbind]. unfold same_books. rewrite Hl. by split_and!.
  - destruct (same_life ClientLifecycle.signal_cancellation w) as [? Hr]; [set_solver|]. by rewrite Hr.
  - destruct (same_life ClientLifecycle.signal_stop w) as [? Hr]; [set_solver|]. by rewrite Hr.
  - destruct (same_life ClientLifecycle.abort_tasks w) as [? Hr]; [set_solver|]. by rewrite Hr.
Qed.
(** A caller of [shutdown] moves on. *)
Lemma good_client_caller w w1 i s : client_inv w → calm w w1 → ring w1 = ring w → same_books w w1 → client_caller_ok (life w1) s →
  client_good w (Ok (set_shutdown i s w1)).
Proof.
  intros Hw Hc Hm (Hn & Hp & Ha & Ho & Hs) Hok. pose proof Hw as [? ? ? ? _ _ Hk ?].
  assert (Forall (client_caller_ok (life w1)) (shutdowns w)) as Hk' by (eapply Forall_impl; [exact Hk|intros x; by apply client_caller_calm]).
  eapply good_calm; [done|etrans; [exact Hc|apply calm_shutdown]|..]; destruct w1; cbn in *; subst; try done; try lia. by apply Forall_insert.
Qed.
Lemma start_coordinator w i : client_inv w → shutdowns w !! i = Some ShutdownCall.Sealed → ClientLifecycle.coordinator_started (life w) = false →
  let '(mk (ClientLifecycle.mk p a d c n x j ca ts co r dl) m cn t os ss ab _) := w in
  client_good w (Ok (mk (ClientLifecycle.mk p a d true n x j ca ts co r dl) m cn t os (<[i:=ShutdownCall.Waiting]> ss) ab Coordinator.Begun)).
Proof.
  intros [? ? ? ? ? [Hst Hse Hcl Hcp Hs7 Hs6 Hs5 Hs4 Hs3 Hel Hfi Hma Hde Hpa] Hk ?] Hi Hc. destruct w as [[p a d c n x j ca ts co r dl] m cn t os ss ab k]. cbn in *. subst c.
  pose proof (proj1 (Forall_lookup _ _) Hk _ _ Hi) as Hp. cbn in Hp. assert (coordinator_left k = 25) as Hl
    by (destruct k as [| | | |a'| | | | | | | | | |]; cbn in *; try done; pose proof (abort_left_bounds a'); lia).
  rewrite Hl in *. split; [|by split]. split; cbn; try done; [split; cbn; try done; try lia|].
  - by intros ? [?|?].
  - apply Forall_insert; [|done]. eapply Forall_impl; [exact Hk|]. by intros [].
Qed.
Lemma call_step_good e w : client_inv w → client_step_ok e → client_good w (call_step last e w).
Proof.
  intros Hw He. destruct e; try done; cbn [call_step].
  - pose proof Hw as []. destruct w as [[p a d c n x i' ca ts co r dl] m cn t os ss ab k]. cbn in He. rewrite saturating_instant_add_spec by done.
    eapply good_calm; try done; [calm_fields|]. cbn. apply Forall_app. split; [done|by repeat constructor].
  - destruct (shutdowns w !! i) as [[]|] eqn:Hi; try done. apply good_client_caller; [done|apply calm_seal|..];
      destruct w as [[p a d c n x i' ca ts co r dl] m cn t os ss ab k]; cbn; [done|unfold same_books; cbn; by case_bool_decide|by case_bool_decide].
  - destruct (shutdowns w !! i) as [[]|] eqn:Hi; try done. pose proof (start_coordinator w i Hw Hi) as Hgo.
    destruct (ClientLifecycle.coordinator_started (life w)) eqn:Hc.
    + destruct w as [[p a d c n x i' ca ts co r dl] m cn t os ss ab k]. cbn in Hc |- *. subst c. rewrite orb_true_r.
      by apply (good_client_caller (mk (ClientLifecycle.mk p a d true n x i' ca ts co r dl) m cn t os ss ab k)
                                   (mk (ClientLifecycle.mk p a d true n x i' ca ts co r dl) m cn t os ss ab k)).
    + specialize (Hgo eq_refl). pose proof (civ_coordinator w Hw) as Hco. pose proof (co_started w Hco) as Hst. pose proof (co_closed w Hco) as Hcl.
      destruct w as [[p a d c n x i' ca ts co r dl] m cn t os ss ab k]. cbn in Hc, Hst, Hcl |- *. subst c.
      assert (p ≠ ClientPhase.Closed) by (intros Hp; apply Hcl in Hp; lia). by rewrite bool_decide_eq_false_2.
  - destruct (shutdowns w !! i) as [[]|] eqn:Hi; try done. destruct (ClientLifecycle.completion (life w)) eqn:Hc; [|done].
    by apply good_client_caller.
  - pose proof Hw as []. destruct w as [[p a d c n x i' ca ts co r dl] m cn t os ss ab k]. apply good_quiet; try done. calm_fields.
  - destruct (aborts w !! i) as [a|]; [|done]. pose proof (abort_step_calm a w (civ_ring w Hw)) as Ha.
    destruct (abort_step a w) as [[a' w']|u| |]; try done. destruct Ha as (? & ? & (? & ? & ? & ? & ?) & _). cbn [rbind].
    apply good_quiet; [done|etrans; [done|apply calm_abort]|by destruct w'|by destruct w'].
Qed.

(** *** The coordinator *)
Lemma client_caller_later w w' s : client_later w w' → client_caller_ok (life w) s → client_caller_ok (life w') s.
Proof. intros []. destruct s; cbn; [done|intros Hs; by apply later_sealed0|auto|intros Hc; by apply later_completion0]. Qed.
Lemma good_coordinator w w' : client_inv w → client_later w w' → ring_ok (ring w') → same_books w w' →
  ClientLifecycle.closed (life w') = negb (ClientLifecycle.is_running (life w')) → coordinator_ok w' → client_good w (Ok w').
Proof.
  intros [] Hl Hm (Hn & Hp & Ha & Ho & Hs) Hse Hco. split; [|done]. split; rewrite ?Hn, ?Hp, ?Ha, ?Ho, ?Hs; try done.
  eapply Forall_impl; [done|]. intros s. by apply client_caller_later.
Qed.
(** The coordinator moves on without closing. *)
Lemma good_move w w1 k : client_inv w → calm w w1 → ring_ok (ring w1) → same_books w w1 →
  3 ≤ left w < 25 → 3 ≤ coordinator_left k < 25 →
  (coordinator_left k ≤ 7 → ClientLifecycle.task_stop (life w1) = true) →
  (coordinator_left k ≤ 6 → halted (ClientLifecycle.deadline (life w1)) = true) →
  (coordinator_left k ≤ 5 → ReaderTask.ended (ClientLifecycle.reader (life w1)) = true) →
  (coordinator_left k ≤ 4 → DeadlineTask.ended (ClientLifecycle.deadline (life w1)) = true) →
  (coordinator_left k ≤ 3 → connected w1 = false) →
  (∀ d, k = Coordinator.Waiting d ∨ k = Coordinator.Parked d → ClientLifecycle.drain_deadline (life w1) = Some d) →
  (∀ d, k = Coordinator.Parked d → ClientLifecycle.active (life w1) = 0 → ClientLifecycle.active_changed (life w1) = true) →
  client_good w (Ok (set_coordinator k w1)).
Proof.
  intros Hw Hc Hm Hb Hl Hk H7 H6 H5 H4 H3 Hd Hp. pose proof (coordinator_calm w w1 Hc (civ_coordinator w Hw)) as Hco.
  assert (client_later w (set_coordinator k w1)) as Hlater
    by (pose proof (calm_later w w1 Hc) as []; destruct w1; by split).
  apply good_coordinator; try done; [by destruct w1..|pose proof (calm_semaphore w w1 Hc (civ_semaphore w Hw)); by destruct w1|].
  rewrite <-(calm_coordinator w w1 Hc) in Hl. destruct w1 as [l m cn t os ss ab k']. destruct Hco as [Hst Hse Hcl Hcp _ _ _ _ _ Hel _ _ _ _]. cbn in *.
  split; cbn; try done.
  - rewrite Hst. by replace (coordinator_left k' <? 25) with true by lia; replace (coordinator_left k <? 25) with true by lia.
  - intros _. apply Hse. lia.
  - rewrite Hcl. lia.
  - rewrite Hcp. by replace (coordinator_left k' =? 0) with false by lia; replace (coordinator_left k =? 0) with false by lia.
  - intros He. destruct (Hel He). lia.
  - lia.
  - intros ->. cbn in Hk. lia.
Qed.
(** What a coordinator further on keeps *)
Ltac coordinator_fields :=
  split; cbn; try done;
  try match goal with H : _ → ?g |- _ → ?g => intros _; by apply H end;
  try match goal with H : ?e → _ ∧ _ |- ?e → _ => intros He; by destruct (H He) end;
  try match goal with H : ?e ↔ _ |- ?e ↔ _ => rewrite H; by split end;
  try by intros ? [?|?].
Lemma good_notified w d : client_inv w → coordinator w = Coordinator.Parked d →
  client_good w (Ok (set_coordinator (Coordinator.Waiting d) (on_life ClientLifecycle.consume_notification w))).
Proof.
  intros Hw Hk. pose proof (civ_coordinator w Hw) as [Hst Hse Hcl Hcp H7 H6 H5 H4 H3 Hel Hfi Hma Hde _]. pose proof (civ_semaphore w Hw) as Hx.
  pose proof (civ_ring w Hw). apply good_coordinator; try done; destruct w as [[p a dd c n x i ca ts co r dl] m cn t os ss ab k]; cbn in *; subst k; cbn in *.
  - by split.
  - done.
  - done.
  - exact Hx.
  - coordinator_fields. intros d' [[= <-]|?]; [|done]. auto.
Qed.
Lemma pending_none m : TransactionManager.pending_count m = 0 → ∀ q, ¬ pending m q.
Proof.
  intros Hc%blen_0_nil q Hq. assert (Some q ∈ filter (λ s : option PendingTransaction.t, is_Some s) (TransactionManager.slots m)) as Hin
    by (apply list_elem_of_filter; by split). rewrite Hc in Hin. by apply not_elem_of_nil in Hin.
Qed.
Lemma good_close w clean : client_inv w → coordinator w = Coordinator.Closing → (clean = true → drained w) →
  client_good w (Ok (set_coordinator (Coordinator.Marking clean) (on_life ClientLifecycle.close w))).
Proof.
  intros Hw Hk Hcl'. pose proof (civ_coordinator w Hw) as [Hst Hse Hcl Hcp H7 H6 H5 H4 H3 Hel Hfi Hma Hde _]. pose proof (civ_semaphore w Hw) as Hx.
  pose proof (civ_ring w Hw). apply good_coordinator; try done; destruct w as [[p a dd c n x i ca ts co r dl] m cn t os ss ab k]; cbn in *; subst k; cbn in *.
  - by split.
  - done.
  - done.
  - rewrite Hx. unfold ClientLifecycle.is_running. cbn. by rewrite bool_decide_eq_false_2 by by apply Hse.
  - coordinator_fields. intros [= ->]. by apply Hcl'.
Qed.
Lemma good_mark w clean : client_inv w → coordinator w = Coordinator.Marking clean →
  client_good w (Ok (set_coordinator Coordinator.Completing
    (on_safety (if clean then SessionReuseSafety.mark_clean_shutdown else SessionReuseSafety.retire SessionRetirementReason.ShutdownIncomplete) w))).
Proof.
  intros Hw Hk. pose proof (civ_coordinator w Hw) as [Hst Hse Hcl Hcp H7 H6 H5 H4 H3 Hel Hfi Hma Hde _]. pose proof (civ_semaphore w Hw) as Hx.
  pose proof (civ_ring w Hw) as Hm. pose proof (ring_safety _ Hm) as Hs.
  set (f := if clean then _ else _). destruct w as [[p a dd c n x i ca ts co r dl] [mn ms md mr mc ml] cn t os ss ab k]; cbn in *; subst k; cbn in *.
  assert (f mr = REUSE_ELIGIBLE ∧ clean = true ∨ RETIRED_BASE ≤ f mr) as Hf.
  { subst f. destruct clean; [|right; apply retire_retired]. unfold SessionReuseSafety.mark_clean_shutdown. destruct (Z.eqb_spec mr NOT_QUIESCENT); [by left|].
    destruct Hs as [?|[He|[reason ->]]]; [done|by destruct (Hel He)|right; apply state_retired]. }
  assert (RETIRED_BASE ≤ mr → f mr = mr) as Hr by (subst f; destruct clean; [apply mark_retired|apply retire_idem]).
  apply good_coordinator; try done; cbn.
  - split; cbn; try done; [by rewrite Hcp|]. intros He. by rewrite Hr.
  - eapply ring_frame; [done|apply Hm|]. subst f. destruct clean; [by apply mark_clean_shutdown_ok|by apply retire_ok].
  - coordinator_fields.
    + intros He. split; [done|]. destruct Hf as [[_ ->]|Hf]; [by apply Hma|by rewrite He in Hf].
    + intros _. destruct Hf as [[-> _]|Hf]; [done|]. clear -Hf. unfold RETIRED_BASE, NOT_QUIESCENT in *. lia.
Qed.
Lemma good_complete w : client_inv w → coordinator w = Coordinator.Completing →
  client_good w (Ok (set_coordinator Coordinator.Finished (on_life ClientLifecycle.complete w))).
Proof.
  intros Hw Hk. pose proof (civ_coordinator w Hw) as [Hst Hse Hcl Hcp H7 H6 H5 H4 H3 Hel Hfi Hma Hde _]. pose proof (civ_semaphore w Hw) as Hx.
  pose proof (civ_ring w Hw). apply good_coordinator; try done; destruct w as [[p a dd c n x i ca ts co r dl] m cn t os ss ab k]; cbn in *; subst k; cbn in *.
  - by split.
  - done.
  - done.
  - exact Hx.
  - coordinator_fields.
Qed.
Lemma calm_signal_stop w : calm w (on_life ClientLifecycle.signal_stop w).
Proof.
  by pose proof (calm_life w) as (_ & (_ & (_ & (_ & (? & _)%Forall_cons)%Forall_cons)%Forall_cons)%Forall_cons)%Forall_cons.
Qed.
Lemma calm_stop_tasks hard w : calm w (on_life (ClientLifecycle.stop_tasks hard) w).
Proof. destruct w as [[p a d c n x i ca ts co r dl] m cn t os ss ab k]. calm_fields; [destruct hard; by destruct r|by destruct dl..]. Qed.
Lemma task_joined_calm failed w : ring_ok (ring w) → calm w (task_joined failed w) ∧ ring_ok (ring (task_joined failed w)) ∧
  same_books w (task_joined failed w) ∧ life (task_joined failed w) = life w ∧ connected (task_joined failed w) = connected w.
Proof.
  intros Hm. destruct failed; [|done]. cbn. split_and!; [apply calm_retire|by apply ring_retire|by destruct w as [? [] ? ? ? ? ? ?]..].
Qed.
Lemma client_coordinator_step_good e w : client_inv w → client_good w (client_coordinator_step e w).
Proof.
  intros Hw. pose proof (civ_coordinator w Hw) as Hco. pose proof (civ_ring w Hw) as Hm. pose proof (co_sealed w Hco) as Hse.
  assert (calm w w) as Hcw by done. assert (same_books w w) as Hbw by done.
  destruct e; try done; unfold client_coordinator_step; destruct (coordinator w) as [| |d|d|a| |hard|hard| | | | |clean| |] eqn:Hk; try done.
  - destruct (ClientLifecycle.phase (life w)) eqn:Hp; [|destruct (ClientLifecycle.drain_deadline (life w)) as [d|] eqn:Hd|..];
      apply good_move; rewrite ?Hk; try done; by intros d' [[= ?]|?]; subst.
  - pose proof (co_deadline w Hco d (or_introl Hk)) as Hd. destruct (Z.eqb_spec (ClientLifecycle.active (life w)) 0);
      apply good_move; rewrite ?Hk; try done; by intros d' [?|[= ?]]; subst.
  - pose proof (abort_step_calm a w Hm) as Ha. destruct (abort_step a w) as [[a' w']|u| |] eqn:Hst; try done.
    + destruct Ha as (? & ? & ? & _). assert (a ≠ AbortCall.Done) by (by intros ->).
      replace (match a with AbortCall.Done => _ | _ => _ end) with (Ok (E := unit) (set_coordinator (Coordinator.Expiring a') w')) by by destruct a.
      pose proof (abort_left_bounds a'). pose proof (abort_left_bounds a). apply good_move; rewrite ?Hk; cbn; try done; try lia; by intros ? [?|?].
    + subst a. apply good_move; rewrite ?Hk; try done. by intros ? [?|?].
  - apply good_move; rewrite ?Hk; try done. by intros ? [?|?].
  - apply good_move; rewrite ?Hk; try done; [apply calm_signal_stop|by destruct w as [[] ? ? ? ? ? ? ?]..|by intros ? [?|?]].
  - pose proof (co_stop w Hco) as Hstop. rewrite Hk in Hstop. apply good_move; rewrite ?Hk; try done; [apply calm_stop_tasks|..];
      destruct w as [[? ? ? ? ? ? ? ? ? ? ? dl] ? ? ? ? ? ? ?]; cbn; try done; [intros _; by apply Hstop|intros _; by destruct dl|by intros ? [?|?]].
  - pose proof (co_stop w Hco) as Hstop. pose proof (co_halted w Hco) as Hh. rewrite Hk in Hstop, Hh. destruct (ClientLifecycle.reader (life w)) as [| | |f] eqn:Hr; try done.
    destruct (task_joined_calm f w Hm) as (? & ? & ? & Hl & _). apply good_move; rewrite ?Hk, ?Hl, ?Hr; try done; first [intros _; first [by apply Hstop|by apply Hh]|by intros ? [?|?]].
  - pose proof (co_stop w Hco) as Hstop. pose proof (co_reader w Hco) as Hr. rewrite Hk in Hstop, Hr. destruct (ClientLifecycle.deadline (life w)) as [|f] eqn:Hd; try done.
    destruct (task_joined_calm f w Hm) as (? & ? & ? & Hl & _). apply good_move; rewrite ?Hk, ?Hl, ?Hd; try done; first [intros _; first [by apply Hstop|by apply Hr]|by intros ? [?|?]].
  - pose proof (co_stop w Hco) as Hstop. pose proof (co_halted w Hco) as Hh. pose proof (co_reader w Hco) as Hr. pose proof (co_ended w Hco) as Hd.
    rewrite Hk in Hstop, Hh, Hr, Hd. apply good_move; rewrite ?Hk; try done; [apply calm_disconnect|..]; destruct w; cbn in *; try done;
      first [intros _; first [by apply Hstop|by apply Hh|by apply Hr|by apply Hd]|by intros ? [?|?]].
  - apply good_close; try done. rewrite !andb_true_iff, !Z.eqb_eq. intros [[_ Ha] Hp]. split; [done|by apply pending_none].
  - by apply good_mark.
  - by apply good_complete.
  - destruct (ClientLifecycle.active_changed (life w)); [by apply good_notified|done].
  - case_match; [|done]. apply good_move; rewrite ?Hk; try done. by intros ? [?|?].
  - case_match; [|done]. apply good_move; rewrite ?Hk; try done. by intros ? [?|?].
Qed.
Lemma client_exec_good e w : client_inv w → client_step_ok e → client_good w (client_exec last e w).
Proof.
  intros Hw He. destruct e; cbn [client_exec];
    try first [by apply operation_step_good | by apply reader_step_good | by apply deadline_step_good | by apply call_step_good | by apply client_coordinator_step_good].
  destruct ((0 <=? n) && (now w + n <=? last)) eqn:Hn; [|done]. pose proof Hw as []. destruct w as [[p a d c n' x i' ca ts co r dl] m cn t os ss ab k].
  eapply good_calm; try done; [calm_fields; lia|cbn in *; lia].
Qed.
Lemma client_run_good es w : client_inv w → Forall client_step_ok es → ∃ w', client_run last es w = Ok w' ∧ client_inv w' ∧ client_later w w'.
Proof.
  intros Hw Hes. revert w Hw. induction Hes as [|e es He _ IH]; intros w Hw; [by exists w|]. cbn [client_run].
  pose proof (client_exec_good e w Hw He) as Hg. destruct (client_exec last e w) as [w1|u| |]; try done; [|by apply IH].
  destruct Hg as [Hw1 Hl1]. destruct (IH w1 Hw1) as (w' & ? & ? & ?). exists w'. split_and!; try done. by etrans.
Qed.
Lemma client_start_inv t : t ≤ last → client_inv (client_start capacity t).
Proof.
  intros Ht. unfold client_start. replace (Z.max 1 (Z.min capacity MAX_SLOTS)) with capacity by (unfold MAX_SLOTS; lia).
  split; cbn; try done; [apply ring_new|lia|change (tally Operation.holds []) with 0; lia|]. coordinator_fields.
Qed.
End ClientInvariant.

(** ** Progress

    Once the coordinator runs, its steps and those that end the reader and the
    deadline task decrease [client_remaining], and no other step increases it. While
    the coordinator waits for the operations, one notification may be stored and one
    more may come. *)
Definition reader_left (r : ReaderTask.t) : Z :=
  match r with ReaderTask.Alive _ => 3 | ReaderTask.Retiring _ => 2 | ReaderTask.Cancelling _ => 1 | ReaderTask.Ended _ => 0 end.
Definition tasks_left (l : ClientLifecycle.t) : Z :=
  reader_left (ClientLifecycle.reader l) + Z.b2z (negb (DeadlineTask.ended (ClientLifecycle.deadline l))).
Definition notifications (l : ClientLifecycle.t) : Z :=
  Z.b2z (ClientLifecycle.active_changed l) + Z.b2z (0 <? ClientLifecycle.active l).
Definition client_remaining (w : ClientWorld.t) : Z :=
  left w + tasks_left (life w) +
  match coordinator w with Coordinator.Waiting _ | Coordinator.Parked _ => 2 * notifications (life w) | _ => 0 end.
Definition client_advances (e : client_step) : bool :=
  match e with
  | CoordinatorStep | CoordinatorNotified | CoordinatorCancelled | CoordinatorLate
  | ReaderError _ _ | ReaderDisconnects | ReaderCancels | ReaderEnds | ReaderFails | DeadlineEnds | DeadlineFails => true
  | _ => false
  end.
(** A step that does not set the shutdown back *)
Definition unhurried (w w' : ClientWorld.t) : Prop :=
  coordinator w' = coordinator w ∧ tasks_left (life w') ≤ tasks_left (life w) ∧ notifications (life w') ≤ notifications (life w).
#[export] Instance unhurried_preorder : PreOrder unhurried.
Proof. split; [by intros w|]. unfold unhurried. intros w1 w2 w3 (? & ? & ?) (? & ? & ?). split_and!; [congruence|lia..]. Qed.
Lemma unhurried_remaining w w' : unhurried w w' → client_remaining w' ≤ client_remaining w.
Proof. intros (Hk & Ht & Hn). unfold client_remaining. rewrite Hk. case_match; lia. Qed.
Lemma tasks_left_nonneg l : 0 ≤ tasks_left l.
Proof. unfold tasks_left. destruct (ClientLifecycle.reader l), (ClientLifecycle.deadline l) as [|]; cbn; lia. Qed.
Lemma notifications_bounds l : 0 ≤ notifications l ≤ 2.
Proof. unfold notifications. destruct (ClientLifecycle.active_changed l), (0 <? ClientLifecycle.active l); cbn; lia. Qed.
Lemma coordinator_left_nonneg k : 0 ≤ coordinator_left k ≤ 25.
Proof. destruct k as [| | | |a| | | | | | | | | |]; cbn; try lia. pose proof (abort_left_bounds a). lia. Qed.
Lemma client_remaining_nonneg w : 0 ≤ client_remaining w.
Proof.
  unfold client_remaining. pose proof (tasks_left_nonneg (life w)). pose proof (notifications_bounds (life w)).
  pose proof (coordinator_left_nonneg (coordinator w)). case_match; lia.
Qed.

Lemma on_transactions_same o w w' : on_transactions o w = Ok w' → life w' = life w ∧ coordinator w' = coordinator w.
Proof. destruct w. cbn. destruct (exec o ring0) as [[]]; try done; by intros [= <-]. Qed.
Lemma unhurried_transactions o w w' : on_transactions o w = Ok w' → unhurried w w'.
Proof. intros [Hl Hk]%on_transactions_same. unfold unhurried. by rewrite Hl, Hk. Qed.
(** What an operation, an abort or a call changes *)
Lemma unhurried_operation i o w : unhurried w (set_operation i o w).
Proof. by destruct w. Qed.
Lemma unhurried_life f w : tasks_left (f (life w)) ≤ tasks_left (life w) → notifications (f (life w)) ≤ notifications (life w) → unhurried w (on_life f w).
Proof. by destruct w. Qed.
Lemma operation_step_unhurried e w w' : sealed w → operation_step e w = Ok w' → unhurried w w'.
Proof.
  intros Hs He. destruct e; try done; cbn [operation_step] in He; try (destruct (operations w !! i) as [x|] eqn:Hi; [|done]; destruct x; try done).
  - destruct w. by injection He as <-.
  - injection He as <-. apply unhurried_operation.
  - case_match; [injection He as <-; apply unhurried_operation|]. case_match; [|done]. injection He as <-.
    etrans; [|apply unhurried_operation]. apply unhurried_life; by destruct (life w).
  - unfold ClientLifecycle.enter_operation in He. destruct (life w) as [] eqn:Hl. rewrite bool_decide_eq_false_2 in He by done. injection He as <-.
    etrans; [|apply unhurried_operation]. apply unhurried_life; by destruct (life w).
  - case_match; [|done]. by eapply unhurried_transactions.
  - injection He as <-. by destruct w as [? [] ? ? ? ? ? ?].
  - unfold ClientLifecycle.leave_operation in He. destruct (life w) as [p a d c n x j ca ts co r dl] eqn:Hl. destruct (Z.ltb_spec 0 a) as [Ha|]; [|done].
    injection He as <-. etrans; [|apply unhurried_operation]. apply unhurried_life; rewrite Hl; [done|]. unfold notifications. cbn.
    destruct j, (Z.eqb_spec (Z.max (a - 1) 0) 0), (Z.ltb_spec 0 (Z.max (a - 1) 0)), (Z.ltb_spec 0 a); cbn; lia.
Qed.
Lemma abort_step_unhurried a w a' w' : abort_step a w = Ok (a', w') → unhurried w w'.
Proof.
  assert (∀ f, f ∈ [ClientLifecycle.cancel; ClientLifecycle.signal_cancellation; ClientLifecycle.signal_stop; ClientLifecycle.abort_tasks] →
    unhurried w (on_life f w)) as Hlife.
  { intros f Hf. rewrite !elem_of_cons in Hf. apply unhurried_life; destruct (life w) as [? ? ? ? ? ? ? ? ? ? [] []];
      by destruct Hf as [->|[->|[->|[->|[]%not_elem_of_nil]]]]. }
  destruct a; cbn [abort_step]; try done; try (intros [= <- <-]; apply Hlife; set_solver).
  - intros [= <- <-]. by destruct w as [? [] ? ? ? ? ? ?].
  - intros [= <- <-]. by destruct w.
  - destruct (on_transactions _ w) eqn:Ht; try done. intros [= <- <-]. by eapply unhurried_transactions.
Qed.
Lemma call_step_unhurried last e w w' : ClientLifecycle.coordinator_started (life w) = true → call_step last e w = Ok w' → unhurried w w'.
Proof.
  intros Hc He. destruct e; try done; cbn [call_step] in He.
  - destruct w. destruct (saturating_instant_add _ _ _) as [|[]| |]; try done. by injection He as <-.
  - destruct (shutdowns w !! i) as [[]|]; try done. injection He as <-. transitivity (on_life (ClientLifecycle.seal deadline) w); [|by destruct w].
    apply unhurried_life; destruct (life w); cbn; by case_bool_decide.
  - destruct (shutdowns w !! i) as [[]|]; try done. destruct w as [[] ? ? ? ? ? ? ?]. cbn in *. subst. rewrite orb_true_r in He. by injection He as <-.
  - destruct (shutdowns w !! i) as [[]|]; try done. case_match; [|done]. injection He as <-. by destruct w.
  - destruct w. by injection He as <-.
  - destruct (aborts w !! i) as [a|]; [|done]. destruct (abort_step a w) as [[a' w1]|u| |] eqn:Ha; try done. injection He as <-.
    etrans; [by eapply abort_step_unhurried|]. by destruct w1.
Qed.
(** The end of a background task *)
Lemma task_ends w w' : coordinator w' = coordinator w → notifications (life w') = notifications (life w) →
  tasks_left (life w') < tasks_left (life w) → client_remaining w' < client_remaining w.
Proof. intros Hk Hn Ht. unfold client_remaining. rewrite Hk, Hn. case_match; lia. Qed.
Lemma reader_step_remaining e w w' : reader_step e w = Ok w' →
  if client_advances e then client_remaining w' < client_remaining w else client_remaining w' ≤ client_remaining w.
Proof.
  intros He. destruct e; try done; cbn [reader_step] in He; destruct (ClientLifecycle.reader (life w)) as [b|x|x|b] eqn:Hr; try done; cbn [client_advances].
  - case_match; [|done]. by eapply unhurried_remaining, unhurried_transactions.
  - injection He as <-. destruct w as [[] [] ? ? ? ? ? ?]. cbn in Hr. subst. apply task_ends; try done. unfold tasks_left. cbn. lia.
  - injection He as <-. destruct w as [[] ? ? ? ? ? ? ?]. cbn in Hr. subst. apply task_ends; try done. unfold tasks_left. cbn. lia.
  - apply on_transactions_same in He as [Hl Hk]. apply task_ends; rewrite ?Hl, ?Hk; destruct w as [[] ? ? ? ? ? ? ?]; cbn in Hr; subst; try done. unfold tasks_left. cbn. lia.
  - case_match; [|done]. injection He as <-. destruct w as [[] ? ? ? ? ? ? ?]. cbn in Hr. subst. apply task_ends; try done. unfold tasks_left. cbn. lia.
  - injection He as <-. destruct w as [[] ? ? ? ? ? ? ?]. cbn in Hr. subst. apply task_ends; try done. unfold tasks_left. cbn. lia.
Qed.
Lemma deadline_step_remaining e w w' : deadline_step e w = Ok w' →
  if client_advances e then client_remaining w' < client_remaining w else client_remaining w' ≤ client_remaining w.
Proof.
  intros He. destruct e; try done; cbn [deadline_step] in He; destruct (ClientLifecycle.deadline (life w)) as [b|b] eqn:Hd; try done; cbn [client_advances].
  - by eapply unhurried_remaining, unhurried_transactions.
  - destruct b; [|done]. injection He as <-. destruct w as [[] ? ? ? ? ? ? ?]. cbn in Hd. subst. apply task_ends; try done. unfold tasks_left. cbn. lia.
  - injection He as <-. destruct w as [[] ? ? ? ? ? ? ?]. cbn in Hd. subst. apply task_ends; try done. unfold tasks_left. cbn. lia.
Qed.
(** The coordinator moves on, past the wait. *)
Lemma coordinator_moves w w1 k : coordinator_left k < left w → coordinator_left k < 18 → tasks_left (life w1) ≤ tasks_left (life w) →
  client_remaining (set_coordinator k w1) < client_remaining w.
Proof.
  intros Hk H18 Ht. pose proof (notifications_bounds (life w)). unfold client_remaining. destruct w1. cbn in *.
  destruct k; cbn in H18; try lia; destruct (coordinator w); cbn in *; lia.
Qed.
Lemma stop_tasks_left hard l : tasks_left (ClientLifecycle.stop_tasks hard l) = tasks_left l.
Proof. destruct l as [? ? ? ? ? ? ? ? ? ? [] []], hard; done. Qed.
Lemma coordinator_step_remaining e w w' : client_coordinator_step e w = Ok w' → client_remaining w' < client_remaining w.
Proof.
  intros He. pose proof (notifications_bounds (life w)) as Hn.
  destruct e; try done; unfold client_coordinator_step in He; destruct (coordinator w) as [| |d|d|a| |hard|hard| | | | |clean| |] eqn:Hk; try done.
  - destruct (ClientLifecycle.phase (life w)), (ClientLifecycle.drain_deadline (life w)); injection He as <-;
      first [by apply coordinator_moves; rewrite ?Hk | destruct w; unfold client_remaining; cbn in *; rewrite Hk; cbn; lia].
  - destruct (_ =? 0); injection He as <-; [by apply coordinator_moves; rewrite ?Hk|]. destruct w. unfold client_remaining. cbn in *. rewrite Hk. cbn. lia.
  - destruct (abort_step a w) as [[a' w1]|u| |] eqn:Ha; try (by destruct a).
    + assert (w' = set_coordinator (Coordinator.Expiring a') w1) as -> by (by destruct a; injection He as <-).
      destruct (abort_step_unhurried a w a' w1 Ha) as (_ & Ht & _).
      assert (abort_left a' < abort_left a) as Hl.
      { destruct a; cbn in Ha; try done; try (by injection Ha as <- <-). destruct (on_transactions _ w); try done. by injection Ha as <- <-. }
      pose proof (abort_left_bounds a). apply coordinator_moves; rewrite ?Hk; cbn; lia.
    + destruct a; try done. injection He as <-. by apply coordinator_moves; rewrite ?Hk.
  - injection He as <-. by apply coordinator_moves; rewrite ?Hk.
  - injection He as <-. apply coordinator_moves; rewrite ?Hk; try done. by destruct w as [[] ? ? ? ? ? ? ?].
  - injection He as <-. apply coordinator_moves; rewrite ?Hk; try done. pose proof (stop_tasks_left hard (life w)). destruct w. cbn in *. lia.
  - destruct (ClientLifecycle.reader (life w)) as [| | |f]; try done. injection He as <-. apply coordinator_moves; rewrite ?Hk; try done.
    destruct f; [|done]. by destruct w as [? [] ? ? ? ? ? ?].
  - destruct (ClientLifecycle.deadline (life w)) as [|f]; try done. injection He as <-. apply coordinator_moves; rewrite ?Hk; try done.
    destruct f; [|done]. by destruct w as [? [] ? ? ? ? ? ?].
  - injection He as <-. apply coordinator_moves; rewrite ?Hk; try done. by destruct w.
  - injection He as <-. apply coordinator_moves; rewrite ?Hk; try done. by destruct w as [[] ? ? ? ? ? ? ?].
  - injection He as <-. apply coordinator_moves; rewrite ?Hk; try done. by destruct w as [? [] ? ? ? ? ? ?].
  - injection He as <-. apply coordinator_moves; rewrite ?Hk; try done. by destruct w as [[] ? ? ? ? ? ? ?].
  - destruct (ClientLifecycle.active_changed (life w)) eqn:Hc; [|done]. injection He as <-. destruct w as [[] ? ? ? ? ? ? ?].
    unfold client_remaining, notifications, tasks_left. cbn in *. rewrite Hk, Hc. cbn. lia.
  - case_match; [|done]. injection He as <-. by apply coordinator_moves; rewrite ?Hk.
  - case_match; [|done]. injection He as <-. by apply coordinator_moves; rewrite ?Hk.
Qed.
Lemma client_exec_remaining last e w w' : sealed w → ClientLifecycle.coordinator_started (life w) = true → client_exec last e w = Ok w' →
  if client_advances e then client_remaining w' < client_remaining w else client_remaining w' ≤ client_remaining w.
Proof.
  intros Hs Hc He. destruct e; cbn [client_exec] in He;
    try first [exact (reader_step_remaining _ _ _ He) | exact (deadline_step_remaining _ _ _ He) | by eapply coordinator_step_remaining
              |by eapply unhurried_remaining, operation_step_unhurried | by eapply unhurried_remaining, call_step_unhurried].
  case_match; [|done]. destruct w. injection He as <-. by apply unhurried_remaining.
Qed.

Section Schedule.
Context (capacity last : Z) (Hcapacity : 1 ≤ capacity ≤ 16).
(** Nothing is left to wait for *)
Definition overdue (w : ClientWorld.t) : Prop :=
  ClientLifecycle.active (life w) = 0 ∨ ∀ d, ClientLifecycle.drain_deadline (life w) = Some d → d ≤ now w.
Lemma client_exec_enabled w : client_inv capacity last w → ClientLifecycle.coordinator_started (life w) = true →
  ClientLifecycle.completion (life w) = false → overdue w → ∃ e w', client_advances e = true ∧ client_exec last e w = Ok w'.
Proof.
  intros Hw Hc Hco Hd. pose proof (civ_coordinator _ _ w Hw) as Hk. pose proof (co_completion w Hk) as Hfin. pose proof (co_started w Hk) as Hst.
  assert (∀ w', client_coordinator_step CoordinatorStep w = Ok w' → ∃ e w', client_advances e = true ∧ client_exec last e w = Ok w') as Hgo
    by (intros w' Hex; by exists CoordinatorStep, w').
  pose proof (co_stop w Hk) as Hstop. pose proof (co_halted w Hk) as Hh. pose proof (co_deadline w Hk) as Hdl. pose proof (co_parked w Hk) as Hpk.
  unfold client_coordinator_step in Hgo. rewrite Hc in Hst. rewrite Hco in Hfin.
  destruct (coordinator w) as [| |d|d|a| |hard|hard| | | | |clean| |] eqn:Heq; try done; try (by eapply Hgo).
  - destruct (ClientLifecycle.phase (life w)), (ClientLifecycle.drain_deadline (life w)); by eapply Hgo.
  - destruct (ClientLifecycle.active_changed (life w)) eqn:Hn.
    { eexists CoordinatorNotified, _. split; [done|]. cbn. unfold client_coordinator_step. by rewrite Heq, Hn. }
    destruct (ClientLifecycle.cancellation (life w)) eqn:Hca.
    { eexists CoordinatorCancelled, _. split; [done|]. cbn. unfold client_coordinator_step. by rewrite Heq, Hn, Hca. }
    assert (d ≤ now w) as Hdue by (destruct Hd as [Hz|Hd]; [discriminate (Hpk d eq_refl Hz)|apply Hd, Hdl; by right]).
    eexists CoordinatorLate, _. split; [done|]. cbn. unfold client_coordinator_step. rewrite Heq, Hn, Hca.
    by replace (d <=? now w) with true by lia.
  - pose proof (abort_step_calm a w (civ_ring _ _ w Hw)) as Ha. destruct (abort_step a w) as [[a' w1]|u| |] eqn:Hst'; try done; [|by subst a; eapply Hgo].
    destruct a; try done; by eapply Hgo.
  - destruct (ClientLifecycle.reader (life w)) as [b|x|x|f] eqn:Hr.
    + eexists ReaderEnds, _. split; [done|]. cbn. rewrite Hr, (Hstop ltac:(done)). by rewrite orb_true_r.
    + eexists ReaderDisconnects, _. split; [done|]. cbn. by rewrite Hr.
    + assert (ring_ok (ring (on_life (ClientLifecycle.set_reader (ReaderTask.Ended false)) w))) as Hm
        by (pose proof (civ_ring _ _ w Hw); by destruct w).
      destruct (on_transactions_calm (on_life (ClientLifecycle.set_reader (ReaderTask.Ended false)) w) (CancelAll x) Hm) as (w' & Hw' & _); [done|intros _ _ _; by eexists|].
      eexists ReaderCancels, w'. split; [done|]. cbn. by rewrite Hr.
    + by eapply Hgo.
  - destruct (ClientLifecycle.deadline (life w)) as [b|f] eqn:Hr; [|by eapply Hgo]. specialize (Hh ltac:(done)). cbn in Hh. subst b.
    eexists DeadlineEnds, _. split; [done|]. cbn. by rewrite Hr.
Qed.
Lemma tally_zero {A} (p : A → bool) (l : list A) : (∀ i x, l !! i = Some x → p x = false) → tally p l = 0.
Proof.
  induction l as [|x l IH]; intros Hp; [done|]. rewrite tally_cons, (Hp 0%nat x eq_refl), IH; [done|]. intros i y Hi. by apply (Hp (S i)).
Qed.
Lemma overdue_later w w' : client_inv capacity last w → client_inv capacity last w' → sealed w → client_later w w' → overdue w → overdue w'.
Proof.
  intros Hw Hw' Hs Hl [Ha|Hd]; destruct (later_sealed _ _ Hl Hs) as (_ & Hdd & Hadm); [left|right].
  - rewrite (civ_active _ _ _ Hw'). apply tally_zero. intros i [] Hi; try done. pose proof (admitted_active _ _ w i Hw (Hadm i Hi)). lia.
  - intros d. rewrite Hdd. intros ?%Hd. pose proof (later_now _ _ Hl). lia.
Qed.
Lemma client_schedule k : ∀ w, client_remaining w < Z.of_nat k → client_inv capacity last w →
  ClientLifecycle.coordinator_started (life w) = true → overdue w →
  ∃ es w', Forall (λ e, client_advances e = true) es ∧ blen es ≤ client_remaining w ∧ client_run last es w = Ok w' ∧
    ClientLifecycle.completion (life w') = true.
Proof.
  induction k as [|k IH]; intros w Hk Hw Hc Hd; pose proof (client_remaining_nonneg w); [lia|].
  destruct (ClientLifecycle.completion (life w)) eqn:Ho; [by exists [], w|].
  assert (sealed w) as Hs. { pose proof (civ_coordinator _ _ w Hw) as Hco. apply (co_sealed w Hco). pose proof (co_started w Hco). lia. }
  destruct (client_exec_enabled w Hw Hc Ho Hd) as (e & w1 & He & Hex).
  pose proof (client_exec_good capacity last Hcapacity e w Hw ltac:(by destruct e)) as Hg. rewrite Hex in Hg. destruct Hg as [Hw1 Hl].
  pose proof (client_exec_remaining last e w w1 Hs Hc Hex) as Hr. rewrite He in Hr.
  destruct (IH w1) as (es & w' & Hes & Hlen & Hrun & Hout); [lia|done|by apply (later_started _ _ Hl)|by apply (overdue_later w w1)|].
  exists (e :: es), w'. split_and!; [by constructor|rewrite blen_cons; lia| |done]. cbn [client_run]. by rewrite Hex.
Qed.
End Schedule.

Lemma clamp_bounds max_in_flight : 1 ≤ Z.max 1 (Z.min max_in_flight MAX_SLOTS) ≤ 16.
Proof. unfold MAX_SLOTS. lia. Qed.
Lemma client_reaches max_in_flight last t es : t ≤ last → Forall client_step_ok es →
  ∃ w, client_run last es (client_start max_in_flight t) = Ok w ∧ client_inv (Z.max 1 (Z.min max_in_flight MAX_SLOTS)) last w.
Proof.
  intros Ht Hes. pose proof (clamp_bounds max_in_flight) as Hc. pose proof (client_start_inv _ last Hc t Ht) as Hi.
  assert (client_start (Z.max 1 (Z.min max_in_flight MAX_SLOTS)) t = client_start max_in_flight t) as Heq
    by (unfold client_start, MAX_SLOTS; do 2 f_equal; lia).
  rewrite Heq in Hi. destruct (client_run_good _ last Hc es _ Hi Hes) as (w & ? & ? & _). by exists w.
Qed.
Lemma verdict_eligible s : SessionReuseSafety.verdict s = Ok SessionReuseVerdict.ReuseEligible → s = REUSE_ELIGIBLE.
Proof.
  unfold SessionReuseSafety.verdict. destruct (Z.eqb_spec s NOT_QUIESCENT); [done|]. destruct (Z.eqb_spec s REUSE_ELIGIBLE); [done|].
  by destruct (SessionRetirementReason.from_state s).
Qed.
Lemma verdict_quiescent s : s ≠ NOT_QUIESCENT → SessionReuseSafety.verdict s ≠ Ok SessionReuseVerdict.NotQuiescent.
Proof.
  intros Hs. unfold SessionReuseSafety.verdict. destruct (Z.eqb_spec s NOT_QUIESCENT); [done|]. destruct (Z.eqb_spec s REUSE_ELIGIBLE); [done|].
  by destruct (SessionRetirementReason.from_state s).
Qed.
Lemma verdict_retired s : safety_ok s → RETIRED_BASE ≤ s ↔ ∃ r, SessionReuseSafety.verdict s = Ok (SessionReuseVerdict.Retire r).
Proof.
  intros [->|[->|[r ->]]]; [split; [done|by intros [? ?]]..|]. pose proof (state_retired r) as Hr. split; [|done]. intros _. exists r.
  unfold SessionReuseSafety.verdict. rewrite from_state_state. unfold RETIRED_BASE, NOT_QUIESCENT, REUSE_ELIGIBLE in *.
  by replace (_ =? 0) with false by lia; replace (_ =? 1) with false by lia.
Qed.
(** Everything the client owns has ended *)
Definition client_closed (w : ClientWorld.t) : Prop :=
  ClientLifecycle.phase (life w) = ClientPhase.Closed ∧ connected w = false ∧
  ReaderTask.ended (ClientLifecycle.reader (life w)) = true ∧ DeadlineTask.ended (ClientLifecycle.deadline (life w)) = true.
Lemma closed_at capacity last w : client_inv capacity last w → left w ≤ 1 → client_closed w.
Proof.
  intros Hw Hl. pose proof (civ_coordinator _ _ w Hw) as Hco. split_and!;
    [apply (co_closed w Hco)|apply (co_connected w Hco)|apply (co_reader w Hco)|apply (co_ended w Hco)]; lia.
Qed.

(** * Theorems *)

(** C8. The lifecycle of a client, under every interleaving of its callers, its
    reader, its deadline task and the coordinator: nothing panics; the count of
    active operations is the number admitted and at most the capacity; once admission
    is sealed the semaphore is closed, the deadline never changes and no operation is
    admitted. When a call of [shutdown] has returned, the client is closed and
    disconnected, both tasks have ended, and the verdict is final but for a later
    retirement. The session is eligible for reuse only when besides no operation is
    active and no transaction pending; a retirement is never taken back. *)
Theorem client_lifecycle (max_in_flight last t : Z) (before after : list client_step) :
  t ≤ last → Forall client_step_ok before → Forall client_step_ok after →
  ∃ w w', client_run last before (client_start max_in_flight t) = Ok w ∧ client_run last after w = Ok w' ∧
  let l := life w in
  let verdict w := SessionReuseSafety.verdict (TransactionManager.reuse_safety (ring w)) in
  ClientLifecycle.active l = tally Operation.admitted (operations w) ∧
  ClientLifecycle.active l ≤ Z.max 1 (Z.min max_in_flight MAX_SLOTS) ∧
  (ClientLifecycle.phase l ≠ ClientPhase.Running →
     ClientLifecycle.closed l = true ∧ ClientLifecycle.phase (life w') ≠ ClientPhase.Running ∧
     ClientLifecycle.drain_deadline (life w') = ClientLifecycle.drain_deadline l ∧
     ∀ i, operations w' !! i = Some Operation.Active → operations w !! i = Some Operation.Active) ∧
  (∀ i, shutdowns w !! i = Some ShutdownCall.Returned →
     client_closed w ∧ verdict w ≠ Ok SessionReuseVerdict.NotQuiescent ∧
     (verdict w' = verdict w ∨ ∃ r, verdict w' = Ok (SessionReuseVerdict.Retire r))) ∧
  (verdict w = Ok SessionReuseVerdict.ReuseEligible → client_closed w ∧ drained w) ∧
  (∀ r, verdict w = Ok (SessionReuseVerdict.Retire r) → ∃ r', verdict w' = Ok (SessionReuseVerdict.Retire r')).
Proof.
  intros Ht Hb Ha. destruct (client_reaches max_in_flight last t before Ht Hb) as (w & Hw & HI). pose proof (clamp_bounds max_in_flight) as Hcap.
  destruct (client_run_good _ last Hcap after w HI Ha) as (w' & Hw' & HI' & Hl). exists w, w'. split; [done|]. split; [done|]. cbn zeta.
  pose proof (civ_coordinator _ _ w HI) as Hco. pose proof (ring_safety _ (civ_ring _ _ w HI)) as Hs. pose proof (ring_safety _ (civ_ring _ _ w' HI')) as Hs'.
  split; [apply HI|]. split; [by apply (admitted_capacity _ _ w HI)|]. split_and!.
  - intros Hse. split; [|by apply (later_sealed _ _ Hl)]. rewrite (civ_semaphore _ _ w HI). unfold ClientLifecycle.is_running. by rewrite bool_decide_eq_false_2.
  - intros i Hi. pose proof (proj1 (Forall_lookup _ _) (civ_callers _ _ w HI) _ _ Hi) as Hcp. cbn in Hcp. pose proof (co_completion w Hco) as Hz.
    assert (left w ≤ 1) as Hle by (rewrite Hcp in Hz; lia). split; [by eapply closed_at|].
    split; [by apply verdict_quiescent, (co_final w Hco)|]. destruct (later_completion _ _ Hl Hcp) as [_ [->|?]]; [by left|right]. by apply verdict_retired.
  - intros He%verdict_eligible. destruct (co_eligible w Hco He). split; [by eapply closed_at|done].
  - intros r Hr. apply verdict_retired; [done|]. apply (later_retired _ _ Hl), verdict_retired; eauto.
Qed.
(** One operation, and a call of [shutdown] while it is active *)
Definition client_stopping : list client_step :=
  [OperationCalled; OperationCheck 0; OperationAcquire 0; OperationEnter 0;
   OperationRing 0 (Register 1 FunctionCode.ReadCoils 100 0); ShutdownCalled 10; ShutdownSeal 0; ShutdownCoordinate 0].
Definition client_drains : list client_step :=
  [CoordinatorStep; CoordinatorStep; OperationRing 0 (Remove 1); OperationDone 0; CoordinatorNotified; CoordinatorStep;
   CoordinatorStep; CoordinatorStep; CoordinatorStep; ReaderEnds; CoordinatorStep; DeadlineEnds; CoordinatorStep; CoordinatorStep;
   CoordinatorStep; CoordinatorStep; CoordinatorStep; ShutdownReturns 0].
Lemma client_stopping_ok : Forall client_step_ok client_stopping.
Proof. by repeat (apply List.Forall_cons; [try done; unfold client_step_ok, DURATION_MAX; lia|]). Qed.
Lemma client_lifecycle_witness : ∃ w w',
  client_run (2 ^ 63) client_stopping (client_start 4 0) = Ok w ∧ client_run (2 ^ 63) client_drains w = Ok w' ∧
  ClientLifecycle.active (life w) = 1 ∧ shutdowns w' = [ShutdownCall.Returned] ∧
  SessionReuseSafety.verdict (TransactionManager.reuse_safety (ring w')) = Ok SessionReuseVerdict.ReuseEligible.
Proof.
  destruct (client_lifecycle 4 (2 ^ 63) 0 client_stopping client_drains ltac:(lia) client_stopping_ok ltac:(repeat constructor)) as (w & w' & Hw & Hw' & _).
  exists w, w'. split; [exact Hw|]. split; [exact Hw'|]. vm_compute in Hw. injection Hw as <-. vm_compute in Hw'. injection Hw' as <-.
  split; [|split]; reflexivity.
Defined.

(** C37. A client's shutdown ends: from every state a run can reach, once a call of
    [shutdown] has started the coordinator and either no operation is active or the
    deadline has passed, at most [client_remaining] steps of the coordinator and the
    background tasks complete it, whatever the operations do; each such step
    decreases [client_remaining], and no other step increases it. *)
Theorem client_shutdown_completes (max_in_flight last t : Z) (es : list client_step) (w : ClientWorld.t) :
  t ≤ last → Forall client_step_ok es → client_run last es (client_start max_in_flight t) = Ok w →
  ClientLifecycle.coordinator_started (life w) = true →
  (overdue w → ∃ schedule w', Forall (λ e, client_advances e = true) schedule ∧ blen schedule ≤ client_remaining w ∧
     client_run last schedule w = Ok w' ∧ ClientLifecycle.completion (life w') = true) ∧
  (∀ e w', client_exec last e w = Ok w' →
     if client_advances e then client_remaining w' < client_remaining w else client_remaining w' ≤ client_remaining w).
Proof.
  intros Ht Hes Hrun Hc. destruct (client_reaches max_in_flight last t es Ht Hes) as (w1 & Hw1 & HI). rewrite Hrun in Hw1. injection Hw1 as <-.
  pose proof (clamp_bounds max_in_flight) as Hcap. split.
  - intros Hd. apply (client_schedule _ last Hcap (S (Z.to_nat (client_remaining w)))); try done. pose proof (client_remaining_nonneg w). lia.
  - intros e w' He. pose proof (civ_coordinator _ _ w HI) as Hco. apply (client_exec_remaining last); try done. apply (co_sealed w Hco).
    pose proof (co_started w Hco). lia.
Qed.
Lemma client_shutdown_completes_witness : ∃ w schedule w',
  client_run (2 ^ 63) (client_stopping ++ [TimePasses 10]) (client_start 4 0) = Ok w ∧ blen schedule ≤ 28 ∧
  client_run (2 ^ 63) schedule w = Ok w' ∧ ClientLifecycle.completion (life w') = true.
Proof.
  destruct (client_run (2 ^ 63) (client_stopping ++ [TimePasses 10]) (client_start 4 0)) as [w|e| |] eqn:Hw; try (vm_compute in Hw; discriminate).
  destruct (client_shutdown_completes 4 (2 ^ 63) 0 (client_stopping ++ [TimePasses 10]) w ltac:(lia)
    ltac:(apply Forall_app; split; [apply client_stopping_ok|repeat constructor]) Hw ltac:(vm_compute in Hw; injection Hw as <-; reflexivity)) as [Hgo _].
  destruct Hgo as (es & w' & _ & Hl & Hrun & Hout).
  { right. vm_compute in Hw. injection Hw as <-. intros d [= <-]. vm_compute. discriminate. }
  exists w, es, w'. split; [reflexivity|]. split; [|split; [exact Hrun|exact Hout]].
  etransitivity; [exact Hl|]. vm_compute in Hw. injection Hw as <-. vm_compute. discriminate.
Defined.
