(* ===== verification/Simulator.v ===== *)
(** * The simulator (crates/rusty-modbus-sim: src/config.rs, simulator.rs, scenario.rs)

    A configuration lists blocks of registers and coils with their initial values;
    the simulator checks it, fills an in-memory store and serves it. Reading YAML is
    a library's work; the parser of socket addresses is a parameter. A message of
    the source is a constructor with the values it reports. *)
From stdpp Require Import strings.
From S2P Require Import Prelude Deadlines Types CodecError Responses Pdu Stream Bits Store Memory DeviceId Handler Server Service ServerTasks Owned Session Transaction Client Methods Calls Loopback RemoteCalls.

Definition utf8 (s : string) : bytes := map (λ c, Z.of_N (Ascii.N_of_ascii c)) (String.list_ascii_of_string s).

(** ** config.rs *)
Module UpdateMode.
Inductive t : Type := Static | Random | Increment.
#[global] Instance eq_dec : EqDecision t.
Proof. solve_decision. Defined.
Definition default : t := Static.
End UpdateMode.
Module RegisterBlock.
Record t : Type := mk { address : Z; count : Z; initial : list Z; mode : UpdateMode.t; min : Z; max : Z }.
End RegisterBlock.
Module CoilBlock.
Record t : Type := mk { address : Z; count : Z; initial : list bool }.
End CoilBlock.
Module RegisterConfig.
Record t : Type := mk {
  holding : list RegisterBlock.t;
  input : list RegisterBlock.t;
  coils : list CoilBlock.t;
  discrete_inputs : list CoilBlock.t;
}.
Definition default : t := mk [] [] [] [].
End RegisterConfig.
Module FaultType.
Inductive t : Type := Exception | Delay | Timeout | Corrupt.
End FaultType.
Module FaultTrigger.
Record t : Type := mk { function : option bytes; address : option Z; unit_id : option Z }.
End FaultTrigger.
Module FaultConfig.
(** The probability by the bits of the double *)
Record t : Type := mk {
  fault_type : FaultType.t;
  trigger : FaultTrigger.t;
  exception : option bytes;
  delay_ms : option Z;
  probability : option Z;
}.
End FaultConfig.
Module DeviceConfig.
Record t : Type := mk { unit_id : Z; vendor_name : bytes; product_code : bytes; revision : bytes; listen_addr : bytes }.
(** What an empty mapping stands for; [version] is the crate version the build inserts *)
Definition default (version : bytes) : t :=
  mk 1 (utf8 "rusty-modbus-sim") (utf8 "SIM") version (utf8 "127.0.0.1:0").
End DeviceConfig.
Module SimConfig.
Record t : Type := mk { device : DeviceConfig.t; registers : RegisterConfig.t; faults : list FaultConfig.t }.
End SimConfig.

(** ** error.rs *)
Module ConfigIssue.
Inductive t : Type :=
  | UnitId (unit_id : Z)
  | ListenAddr (listen_addr : bytes)
  | Faults
  | Mode (table : string) (index : Z)
  | Bounds (table : string) (index min max : Z)
  | ZeroCount (table : string) (index : Z)
  | AddressSpace (table : string) (index address count : Z)
  | TooManyValues (table : string) (index initial_len count : Z)
  | Overlap (table : string) (previous_index previous_start previous_end index address end_ : Z).
End ConfigIssue.
Module SimError.
Inductive t : Type := ConfigParse | Config (issue : ConfigIssue.t) | Server | Store (e : StoreError.t).
End SimError.
Abbreviation config_error i := (Err (SimError.Config i)).

(** ** simulator.rs: the layout of a table *)

(** [(address..=end).find(..)] over the bitmap *)
Fixpoint find_occupied {E} (occupied : list Z) (item : Z) (n : nat) : res E (option Z) :=
  match n with
  | O => Ok None
  | S n =>
      let? word := idx occupied (item / 64) in
      if negb (Z.land word (Z.shiftl 1 (item mod 64)) =? 0) then Ok (Some item) else find_occupied occupied (item + 1) n
  end.
Fixpoint occupy {E} (occupied : list Z) (item : Z) (n : nat) : res E (list Z) :=
  match n with
  | O => Ok occupied
  | S n =>
      let? word := idx occupied (item / 64) in
      let '(r, occupied) := buf_set (item / 64) (Z.lor word (Z.shiftl 1 (item mod 64))) occupied in
      do? r in occupy occupied (item + 1) n
  end.
Section Layout.
Context {T : Type} (table : string) (fields : T → Z * Z * Z).
(** The first of the blocks that covers [overlap] *)
Fixpoint find_previous (blocks : list T) (index overlap : Z) : option (Z * Z * Z) :=
  match blocks with
  | [] => None
  | previous :: blocks =>
      let '(previous_start, previous_count, _) := fields previous in
      let previous_end := previous_start + previous_count - 1 in
      if (previous_start <=? overlap) && (overlap <=? previous_end) then Some (index, previous_start, previous_end)
      else find_previous blocks (index + 1) overlap
  end.
Fixpoint layout_loop (blocks rest : list T) (index : Z) (occupied : list Z) : res SimError.t unit :=
  match rest with
  | [] => Ok tt
  | block :: rest =>
      let '(address, count, initial_len) := fields block in
      if count =? 0 then config_error (ConfigIssue.ZeroCount table index) else
      if u16_max <? address + (count - 1) then config_error (ConfigIssue.AddressSpace table index address count) else
      if count <? initial_len then config_error (ConfigIssue.TooManyValues table index initial_len count) else
      let end_ := address + count - 1 in
      let? found := find_occupied occupied address (Z.to_nat count) in
      match found with
      | Some overlap =>
          let? before := slice_to blocks index in
          match find_previous before 0 overlap with
          | Some (previous_index, previous_start, previous_end) =>
              config_error (ConfigIssue.Overlap table previous_index previous_start previous_end index address end_)
          | None => Panic
          end
      | None => let? occupied := occupy occupied address (Z.to_nat count) in layout_loop blocks rest (index + 1) occupied
      end
  end.
Definition validate_block_layout (blocks : list T) : res SimError.t unit := layout_loop blocks blocks 0 (replicate 1024 0).
End Layout.

Fixpoint behavior_loop (table : string) (blocks : list RegisterBlock.t) (index : Z) : res SimError.t unit :=
  match blocks with
  | [] => Ok tt
  | block :: blocks =>
      if negb (bool_decide (RegisterBlock.mode block = UpdateMode.Static)) then config_error (ConfigIssue.Mode table index) else
      if negb (RegisterBlock.min block =? 0) || negb (RegisterBlock.max block =? u16_max)
      then config_error (ConfigIssue.Bounds table index (RegisterBlock.min block) (RegisterBlock.max block)) else
      behavior_loop table blocks (index + 1)
  end.
Definition validate_register_behavior (table : string) (blocks : list RegisterBlock.t) : res SimError.t unit := behavior_loop table blocks 0.
Definition register_fields (block : RegisterBlock.t) : Z * Z * Z :=
  (RegisterBlock.address block, RegisterBlock.count block, blen (RegisterBlock.initial block)).
Definition coil_fields (block : CoilBlock.t) : Z * Z * Z :=
  (CoilBlock.address block, CoilBlock.count block, blen (CoilBlock.initial block)).
Definition validate_register_config (config : RegisterConfig.t) : res SimError.t unit :=
  do? validate_block_layout "holding" register_fields (RegisterConfig.holding config) in
  do? validate_register_behavior "holding" (RegisterConfig.holding config) in
  do? validate_block_layout "input" register_fields (RegisterConfig.input config) in
  do? validate_register_behavior "input" (RegisterConfig.input config) in
  do? validate_block_layout "coils" coil_fields (RegisterConfig.coils config) in
  do? validate_block_layout "discrete_inputs" coil_fields (RegisterConfig.discrete_inputs config) in
  Ok tt.

(** ** simulator.rs: filling the store *)
Definition offset_address (address offset : Z) : option Z :=
  if u16_max <? offset then None else if u16_max <? address + offset then None else Some (address + offset).
(** [set(..).expect(..)] *)
Definition expect {S E A} (m : ST S E A) : ST S Empty_set A :=
  λ s, match m s with (Ok a, s) => (Ok a, s) | (Err _, s) | (Panic, s) => (Panic, s) | (OutOfFuel, s) => (OutOfFuel, s) end.
Section Apply.
Context {S A : Type} (set : Z → A → ST S Empty_set unit).
Fixpoint apply_values (address count i : Z) (initial : list A) : ST S Empty_set unit :=
  match initial with
  | [] => st_ret tt
  | val :: initial =>
      (if i <? count then match offset_address address i with Some a => set a val | None => st_ret tt end else st_ret tt);;;
      apply_values address count (i + 1) initial
  end.
End Apply.
Fixpoint apply_register_blocks {S} (set : Z → Z → ST S Empty_set unit) (blocks : list RegisterBlock.t) : ST S Empty_set unit :=
  match blocks with
  | [] => st_ret tt
  | block :: blocks =>
      apply_values set (RegisterBlock.address block) (RegisterBlock.count block) 0 (RegisterBlock.initial block);;;
      apply_register_blocks set blocks
  end.
Fixpoint apply_coil_blocks {S} (set : Z → bool → ST S Empty_set unit) (blocks : list CoilBlock.t) : ST S Empty_set unit :=
  match blocks with
  | [] => st_ret tt
  | block :: blocks =>
      apply_values set (CoilBlock.address block) (CoilBlock.count block) 0 (CoilBlock.initial block);;;
      apply_coil_blocks set blocks
  end.
Definition apply_register_config (config : RegisterConfig.t) : ST InMemoryStore.t Empty_set unit :=
  apply_register_blocks (λ a v, expect (InMemoryStore.set_holding_register a v)) (RegisterConfig.holding config);;;
  apply_register_blocks (λ a v, expect (InMemoryStore.set_input_register a v)) (RegisterConfig.input config);;;
  apply_coil_blocks (λ a v, expect (InMemoryStore.set_coil a v)) (RegisterConfig.coils config);;;
  apply_coil_blocks (λ a v, expect (InMemoryStore.set_discrete_input a v)) (RegisterConfig.discrete_inputs config).

(** ** simulator.rs: the simulator *)
(** The handle of the running server is left out. *)
Module ModbusSimulator.
Record t (Addr : Type) : Type := mk { config : SimConfig.t; listen_addr : Addr; store : InMemoryStore.t }.
Arguments mk {Addr}. Arguments config {Addr}. Arguments listen_addr {Addr}. Arguments store {Addr}.
Section Create.
Context {Addr : Type} (parse_addr : bytes → option Addr).
Definition validate_config (config : SimConfig.t) : res SimError.t Addr :=
  let unit_id := DeviceConfig.unit_id (SimConfig.device config) in
  if negb (UnitId.is_valid_slave unit_id) && negb (UnitId.is_tcp_device unit_id) then config_error (ConfigIssue.UnitId unit_id) else
  match parse_addr (DeviceConfig.listen_addr (SimConfig.device config)) with
  | None => config_error (ConfigIssue.ListenAddr (DeviceConfig.listen_addr (SimConfig.device config)))
  | Some listen_addr =>
      if negb (is_empty (SimConfig.faults config)) then config_error ConfigIssue.Faults else
      do? validate_register_config (SimConfig.registers config) in
      Ok listen_addr
  end.
Definition from_config (config : SimConfig.t) : res SimError.t (t Addr) :=
  let? listen_addr := validate_config config in
  match InMemoryStore.try_new StoreConfig.default with
  | Ok store =>
      let '(r, store) := apply_register_config (SimConfig.registers config) store in
      do? Prelude.infallible r in
      Ok (mk config listen_addr store)
  | Err e => Err (SimError.Store e)
  | Panic => Panic
  | OutOfFuel => OutOfFuel
  end.
End Create.
(** The configuration [start] gives the server *)
Definition server_config {Addr} (version : bytes) (self : t Addr) : ServerConfig.t :=
  let d := SimConfig.device (config self) in
  let '(ServerConfig.mk _ mc mt st _) := ServerConfig.default version in
  let '(DeviceIdentification.mk _ _ _ url name model app) := DeviceIdentification.default version in
  ServerConfig.mk (DeviceConfig.unit_id d) mc mt st
    (DeviceIdentification.mk (DeviceConfig.vendor_name d) (DeviceConfig.product_code d) (DeviceConfig.revision d) url name model app).
(** Updates while it runs *)
Definition on_store {Addr A} (m : ST InMemoryStore.t StoreError.t A) : ST (t Addr) SimError.t A :=
  λ '(mk c l s), let '(r, s) := m s in
    (match r with Ok a => Ok a | Err e => Err (SimError.Store e) | Panic => Panic | OutOfFuel => OutOfFuel end, mk c l s).
Definition set_holding_register {Addr} (address value : Z) : ST (t Addr) SimError.t unit := on_store (InMemoryStore.set_holding_register address value).
Definition set_input_register {Addr} (address value : Z) : ST (t Addr) SimError.t unit := on_store (InMemoryStore.set_input_register address value).
Definition set_coil {Addr} (address : Z) (value : bool) : ST (t Addr) SimError.t unit := on_store (InMemoryStore.set_coil address value).
End ModbusSimulator.

(** ** scenario.rs *)
Definition static_block (address count : Z) (initial : list Z) : RegisterBlock.t :=
  RegisterBlock.mk address count initial UpdateMode.Static 0 u16_max.
Definition hvac_controller : SimConfig.t :=
  SimConfig.mk (DeviceConfig.mk 1 (utf8 "Acme Controls") (utf8 "ACM-HVAC-100") (utf8 "2.1.0") (utf8 "127.0.0.1:0"))
    (RegisterConfig.mk [static_block 0 10 [720; 680; 760; 50; 100; 20; 5; 0; 0; 0]]
       [static_block 0 8 [721; 450; 1013; 0; 0; 0; 0; 0]]
       [CoilBlock.mk 0 8 [true; false; true; false; false; false; false; false]] []) [].
Definition power_meter : SimConfig.t :=
  SimConfig.mk (DeviceConfig.mk 2 (utf8 "PowerCo") (utf8 "PM-3000") (utf8 "1.0.0") (utf8 "127.0.0.1:0"))
    (RegisterConfig.mk [] [static_block 0 10 [2400; 2390; 2410; 150; 148; 152; 3600; 100; 0; 0]] [] []) [].
Definition vfd_drive : SimConfig.t :=
  SimConfig.mk (DeviceConfig.mk 3 (utf8 "DriveTech") (utf8 "VFD-500") (utf8 "3.2.1") (utf8 "127.0.0.1:0"))
    (RegisterConfig.mk [static_block 0 6 [1500; 10; 10; 0; 0; 0]] [static_block 0 4 [0; 0; 480; 25]]
       [CoilBlock.mk 0 4 [false; false; false; false]] [CoilBlock.mk 0 4 [true; false; false; false]]) [].
Definition generic_io : SimConfig.t :=
  SimConfig.mk (DeviceConfig.mk 1 (utf8 "Generic") (utf8 "IO-16") (utf8 "1.0.0") (utf8 "127.0.0.1:0"))
    (RegisterConfig.mk [static_block 0 16 (replicate 16 0)] [static_block 0 16 (replicate 16 0)]
       [CoilBlock.mk 0 16 (replicate 16 false)] [CoilBlock.mk 0 16 (replicate 16 false)]) [].

(** * Lemmas *)

(** ** The bitmap *)
Definition marked (occupied : list Z) (x : Z) : bool := Z.testbit (nth (Z.to_nat (x / 64)) occupied 0) (x mod 64).
Definition bitmap_ok (occupied : list Z) : Prop := length occupied = 1024%nat ∧ Forall (λ w, 0 ≤ w < 2 ^ 64) occupied.
Lemma word_index x : 0 ≤ x < 65536 → 0 ≤ x / 64 < 1024 ∧ 0 ≤ x mod 64 < 64.
Proof. intros. split; [split; [by apply Z.div_pos; lia|apply Z.div_lt_upper_bound; lia]|apply Z.mod_pos_bound; lia]. Qed.
Lemma bitmap_idx {E} occupied x : bitmap_ok occupied → 0 ≤ x < 65536 →
  idx (E := E) occupied (x / 64) = Ok (nth (Z.to_nat (x / 64)) occupied 0).
Proof.
  intros [Hl _] Hx. destruct (word_index x Hx) as [Hi _]. unfold idx, get. replace (0 <=? x / 64) with true by lia.
  destruct (nth_lookup_or_length occupied (Z.to_nat (x / 64)) 0) as [->|]; [done|lia].
Qed.
Lemma single_bit w k : 0 ≤ k → negb (Z.land w (Z.shiftl 1 k) =? 0) = Z.testbit w k.
Proof.
  intros Hk. rewrite Z.shiftl_1_l. destruct (Z.testbit w k) eqn:Hb.
  - assert (Z.testbit (Z.land w (2 ^ k)) k = true) as Ht by (rewrite Z.land_spec, Hb, Z.pow2_bits_true; done).
    destruct (Z.eqb_spec (Z.land w (2 ^ k)) 0) as [H0|]; [|done]. by rewrite H0, Z.bits_0 in Ht.
  - replace (Z.land w (2 ^ k)) with 0; [done|]. symmetry. apply Z.bits_inj_0. intros n. rewrite Z.land_spec, Z.pow2_bits_eqb by done.
    destruct (Z.eqb_spec k n) as [->|]; [by rewrite Hb|apply andb_false_r].
Qed.
Lemma marked_set occupied x y : bitmap_ok occupied → 0 ≤ x < 65536 → 0 ≤ y < 65536 →
  marked (<[Z.to_nat (x / 64) := Z.lor (nth (Z.to_nat (x / 64)) occupied 0) (Z.shiftl 1 (x mod 64))]> occupied) y = marked occupied y || (y =? x).
Proof.
  intros [Hl _] Hx Hy. destruct (word_index x Hx) as [Hxi Hxb], (word_index y Hy) as [Hyi Hyb]. unfold marked.
  pose proof (Z.div_mod x 64 ltac:(done)) as Hdx. pose proof (Z.div_mod y 64 ltac:(done)) as Hdy. rewrite Z.shiftl_1_l.
  destruct (decide (x / 64 = y / 64)) as [He|He].
  - rewrite <-He, (nth_lookup (<[_ := _]> _)), list_lookup_insert_eq by lia. cbn [from_option id]. rewrite Z.lor_spec, Z.pow2_bits_eqb by lia. f_equal. lia.
  - rewrite !nth_lookup, list_lookup_insert_ne by lia. replace (y =? x) with false by (symmetry; apply Z.eqb_neq; congruence).
    by rewrite orb_false_r.
Qed.
Lemma bitmap_set occupied x : bitmap_ok occupied → 0 ≤ x < 65536 →
  bitmap_ok (<[Z.to_nat (x / 64) := Z.lor (nth (Z.to_nat (x / 64)) occupied 0) (Z.shiftl 1 (x mod 64))]> occupied).
Proof.
  intros [Hl Hw] Hx. destruct (word_index x Hx) as [Hxi Hxb]. split; [by rewrite length_insert|]. apply Forall_insert; [done|].
  destruct (nth_lookup_or_length occupied (Z.to_nat (x / 64)) 0) as [Hn|]; [|lia].
  pose proof (proj1 (Forall_lookup _ _) Hw _ _ Hn) as Hr. cbn beta in Hr. split; [apply Z.lor_nonneg; split; [lia|]; by rewrite Z.shiftl_1_l; lia|].
  rewrite Z.shiftl_1_l. apply Z.log2_lt_pow2. 1: { pose proof (Z.pow_pos_nonneg 2 (x mod 64)). pose proof (Z.lor_nonneg (nth (Z.to_nat (x / 64)) occupied 0) (2 ^ (x mod 64))).
    assert (Z.lor (nth (Z.to_nat (x / 64)) occupied 0) (2 ^ (x mod 64)) ≠ 0) by (intros [_ Hz]%Z.lor_eq_0_iff; lia). lia. }
  rewrite Z.log2_lor, Z.log2_pow2 by lia. apply Z.max_lub_lt; [|lia]. destruct (decide (nth (Z.to_nat (x / 64)) occupied 0 = 0)) as [->|]; [done|].
  apply Z.log2_lt_pow2; lia.
Qed.
Lemma find_occupied_spec {E} occupied n : bitmap_ok occupied → ∀ x, 0 ≤ x → x + Z.of_nat n ≤ 65536 →
  ∃ o, find_occupied (E := E) occupied x n = Ok o ∧
  match o with
  | Some y => x ≤ y < x + Z.of_nat n ∧ marked occupied y = true ∧ ∀ z, x ≤ z < y → marked occupied z = false
  | None => ∀ z, x ≤ z < x + Z.of_nat n → marked occupied z = false
  end.
Proof.
  intros Ho. induction n as [|n IH]; intros x Hx Hn; [exists None; split; [done|lia]|]. cbn [find_occupied].
  rewrite bitmap_idx by (done || lia). cbn [rbind]. rewrite single_bit by (apply word_index; lia). fold (marked occupied x).
  destruct (marked occupied x) eqn:Hm.
  - exists (Some x). split; [done|]. split_and!; [lia|lia|done|lia].
  - destruct (IH (x + 1)) as (o & -> & Hs); [lia|lia|]. exists o. split; [done|].
    assert (∀ z, z = x ∨ x + 1 ≤ z ↔ x ≤ z) as Hz by lia. destruct o as [y|].
    + destruct Hs as (? & ? & Hs). split; [lia|]. split; [done|]. intros z ?. destruct (decide (z = x)) as [->|]; [done|]. apply Hs. lia.
    + intros z ?. destruct (decide (z = x)) as [->|]; [done|]. apply Hs. lia.
Qed.
Lemma occupy_spec {E} n : ∀ occupied x, bitmap_ok occupied → 0 ≤ x → x + Z.of_nat n ≤ 65536 →
  ∃ occupied', occupy (E := E) occupied x n = Ok occupied' ∧ bitmap_ok occupied' ∧
  ∀ y, 0 ≤ y < 65536 → marked occupied' y = marked occupied y || ((x <=? y) && (y <? x + Z.of_nat n)).
Proof.
  induction n as [|n IH]; intros occupied x Ho Hx Hn.
  { exists occupied. split_and!; [done..|]. intros y Hy. replace ((x <=? y) && _) with false by lia. by rewrite orb_false_r. }
  cbn [occupy]. rewrite bitmap_idx by (done || lia). cbn [rbind]. unfold buf_set. destruct (word_index x ltac:(lia)) as [Hi _].
  replace ((0 <=? x / 64) && (x / 64 <? blen occupied)) with true by (destruct Ho as [Hl _]; unfold blen; rewrite Hl; lia). cbn [rbind].
  destruct (IH _ (x + 1) (bitmap_set occupied x Ho ltac:(lia))) as (o' & -> & Ho' & Hm); [lia|lia|]. exists o'. split; [done|]. split; [done|].
  intros y Hy. rewrite Hm, marked_set by (done || lia). destruct (marked occupied y); [done|]. cbn [orb].
  destruct (Z.eqb_spec y x), (Z.leb_spec (x + 1) y), (Z.leb_spec x y), (Z.ltb_spec y (x + 1 + Z.of_nat n)), (Z.ltb_spec y (x + Z.of_nat (S n))); cbn; lia || done.
Qed.

(** ** Layouts *)
Definition spans (b : Z * Z * Z) (x : Z) : Prop := let '(a, n, _) := b in a ≤ x < a + n.
Definition block_fits (b : Z * Z * Z) : Prop := let '(a, n, k) := b in 0 < n ∧ a + n ≤ 65536 ∧ k ≤ n.
Definition apart (bs : list (Z * Z * Z)) : Prop :=
  ∀ i j b c x, (i < j)%nat → bs !! i = Some b → bs !! j = Some c → spans b x → ¬ spans c x.
(** Blocks of at least one entry, within the address space, with no more values than
    entries, no two of them overlapping *)
Definition layout_ok (bs : list (Z * Z * Z)) : Prop := Forall block_fits bs ∧ apart bs.
Definition raw_ok (b : Z * Z * Z) : Prop := let '(a, n, k) := b in is_u16 a ∧ is_u16 n ∧ 0 ≤ k.
(** The first block that breaks the layout, and how; an overlap is reported at the
    lowest shared address, with the first block that has it. *)
Inductive layout_fault (table : string) (bs : list (Z * Z * Z)) (j : nat) : ConfigIssue.t → Prop :=
  | fault_zero a k : bs !! j = Some (a, 0, k) → layout_fault table bs j (ConfigIssue.ZeroCount table (Z.of_nat j))
  | fault_space a n k : bs !! j = Some (a, n, k) → n ≠ 0 → 65536 < a + n →
      layout_fault table bs j (ConfigIssue.AddressSpace table (Z.of_nat j) a n)
  | fault_values a n k : bs !! j = Some (a, n, k) → n ≠ 0 → a + n ≤ 65536 → n < k →
      layout_fault table bs j (ConfigIssue.TooManyValues table (Z.of_nat j) k n)
  | fault_overlap i a n k a' n' k' x : bs !! j = Some (a, n, k) → bs !! i = Some (a', n', k') → (i < j)%nat → block_fits (a, n, k) →
      spans (a, n, k) x → spans (a', n', k') x →
      (∀ i' b, (i' < i)%nat → bs !! i' = Some b → ¬ spans b x) →
      (∀ y i' b, a ≤ y < x → (i' < j)%nat → bs !! i' = Some b → ¬ spans b y) →
      layout_fault table bs j (ConfigIssue.Overlap table (Z.of_nat i) a' (a' + n' - 1) (Z.of_nat j) a (a + n - 1)).
Lemma layout_fault_bad table bs j i : layout_fault table bs j i → ¬ layout_ok bs.
Proof.
  intros Hf [Hfit Hap]. destruct Hf as [a k Hj|a n k Hj Hn Ha|a n k Hj Hn Ha Hk|i a n k a' n' k' x Hj Hi Hij _ Hx Hx' _ _].
  4: { by apply (Hap i j _ _ x Hij Hi Hj). }
  all: pose proof (proj1 (Forall_lookup _ _) Hfit _ _ Hj) as (? & ? & ?); lia.
Qed.
Section LayoutSpec.
Context {T : Type} (table : string) (fields : T → Z * Z * Z).
Lemma find_previous_spec pre x : ∀ i0, (∃ i b, (fields <$> pre) !! i = Some b ∧ spans b x) →
  ∃ i a n k, find_previous fields pre i0 x = Some (i0 + Z.of_nat i, a, a + n - 1) ∧ (fields <$> pre) !! i = Some (a, n, k) ∧ spans (a, n, k) x ∧
    ∀ i' b, (i' < i)%nat → (fields <$> pre) !! i' = Some b → ¬ spans b x.
Proof.
  induction pre as [|p pre IH]; intros i0 (i & b & Hi & Hb); [done|]. cbn [find_previous]. destruct (fields p) as [[a n] k] eqn:Hp.
  destruct ((a <=? x) && (x <=? a + n - 1)) eqn:Hin.
  - exists 0%nat, a, n, k. split; [by rewrite Z.add_0_r|]. cbn. rewrite Hp. split_and!; [done|lia|lia|lia].
  - destruct (IH (i0 + 1)) as (i1 & a1 & n1 & k1 & -> & Hl & Hs & Hf).
    { destruct i as [|i]; [cbn in Hi; injection Hi as <-; rewrite Hp in Hb; cbn in Hb; lia|]. by exists i, b. }
    exists (S i1), a1, n1, k1. split; [do 3 f_equal; lia|]. split; [done|]. split; [done|].
    intros [|i'] b' Hlt Hb'; [cbn in Hb'; injection Hb' as <-; rewrite Hp; cbn; lia|]. apply (Hf i' b'); [lia|done].
Qed.
Lemma layout_snoc bs b : layout_ok bs → block_fits b → (∀ i c x, bs !! i = Some c → spans b x → ¬ spans c x) → layout_ok (bs ++ [b]).
Proof.
  intros [Hf Ha] Hb Hx. split; [apply Forall_app; by repeat constructor|]. intros i j c d x Hij Hi Hj Hc.
  apply lookup_app_Some in Hj as [Hj|[Hge Hj]].
  - apply lookup_app_Some in Hi as [Hi|[Hge Hi]]; [by apply (Ha i j c d x)|]. apply lookup_lt_Some in Hj. lia.
  - apply list_lookup_singleton_Some in Hj as [Hj <-]. apply lookup_app_Some in Hi as [Hi|[Hge' Hi]]; [|lia]. intros Hs. by apply (Hx i c x Hi Hs).
Qed.
Definition depicts (occupied : list Z) (bs : list (Z * Z * Z)) : Prop :=
  bitmap_ok occupied ∧ ∀ x, 0 ≤ x < 65536 → marked occupied x = true ↔ ∃ i b, bs !! i = Some b ∧ spans b x.
Lemma depicts_snoc occupied occupied' bs a n k : depicts occupied bs → block_fits (a, n, k) → 0 ≤ a → bitmap_ok occupied' →
  (∀ y, 0 ≤ y < 65536 → marked occupied' y = marked occupied y || ((a <=? y) && (y <? a + Z.of_nat (Z.to_nat n)))) →
  depicts occupied' (bs ++ [(a, n, k)]).
Proof.
  intros [_ Hd] (Hn & _) Ha Ho Hm. split; [done|]. intros x Hx. rewrite Hm, orb_true_iff, (Hd x Hx) by done. split.
  - intros [(i & b & Hi & Hb)|Hin]; [exists i, b; split; [by apply lookup_app_l_Some|done]|].
    exists (length bs), (a, n, k). split; [by rewrite lookup_app_r, Nat.sub_diag by lia|cbn; lia].
  - intros (i & b & Hi & Hb). apply lookup_app_Some in Hi as [Hi|[_ Hi]]; [left; by exists i, b|right].
    apply list_lookup_singleton_Some in Hi as [_ <-]. cbn in Hb. lia.
Qed.
Definition layout_verdict (bs : list (Z * Z * Z)) (r : res SimError.t unit) : Prop :=
  match r with
  | Ok _ => layout_ok bs
  | Err (SimError.Config issue) => ∃ j, layout_ok (take j bs) ∧ layout_fault table bs j issue
  | _ => False
  end.
Lemma layout_loop_spec rest : ∀ pre occupied, Forall raw_ok (fields <$> rest) → layout_ok (fields <$> pre) → depicts occupied (fields <$> pre) →
  layout_verdict (fields <$> (pre ++ rest)) (layout_loop table fields (pre ++ rest) rest (blen pre) occupied).
Proof.
  induction rest as [|p rest IH]; intros pre occupied Hraw Hpre Hocc; [by rewrite app_nil_r|].
  cbn [layout_loop]. destruct (fields p) as [[a n] k] eqn:Hp. apply Forall_cons in Hraw as [Hr Hraw]. rewrite Hp in Hr. destruct Hr as (Ha & Hn & Hk).
  set (bs := fields <$> pre ++ p :: rest).
  assert (bs !! length pre = Some (a, n, k)) as Hj.
  { unfold bs. rewrite list_lookup_fmap, lookup_app_r, Nat.sub_diag by lia. cbn. by rewrite Hp. }
  assert (take (length pre) bs = fields <$> pre) as Htake by (unfold bs; rewrite fmap_app, take_app_length' by (by rewrite length_fmap); done).
  assert (∀ issue, layout_fault table bs (length pre) issue → layout_verdict bs (config_error issue)) as Hfault
    by (intros issue Hf; exists (length pre); by rewrite Htake).
  change (blen pre) with (Z.of_nat (length pre)). change u16_max with 65535.
  destruct (Z.eqb_spec n 0) as [->|Hn0]; [apply Hfault; by econstructor|].
  destruct (Z.ltb_spec 65535 (a + (n - 1))); [apply Hfault; econstructor; [done..|lia]|].
  destruct (Z.ltb_spec n k); [apply Hfault; econstructor; try done; lia|].
  assert (block_fits (a, n, k)) as Hfit by (cbn; lia). pose proof Hocc as [Hbm Hmk].
  destruct (find_occupied_spec (E := SimError.t) occupied (Z.to_nat n) Hbm a) as (o & -> & Hs); [lia|lia|]. cbn [rbind]. destruct o as [x|].
  - destruct Hs as (Hx & Hmx & Hlow). apply Hmk in Hmx; [|lia].
    assert (∀ i b, (fields <$> pre) !! i = Some b → bs !! i = Some b) as Hsub by (intros i b Hi; unfold bs; rewrite fmap_app; by apply lookup_app_l_Some).
    rewrite slice_to_Ok by (unfold blen; rewrite length_app; lia). cbn [rbind]. rewrite Nat2Z.id, take_app_length.
    destruct (find_previous_spec pre x 0 Hmx) as (i & a' & n' & k' & -> & Hi & Hsp & Hfirst). rewrite Z.add_0_l. apply Hfault.
    pose proof (lookup_lt_Some _ _ _ Hi) as Hlt. rewrite length_fmap in Hlt.
    assert (∀ i' b, (i' < length pre)%nat → bs !! i' = Some b → (fields <$> pre) !! i' = Some b) as Hback
      by (intros i' b Hi' Hb; unfold bs in Hb; rewrite fmap_app, lookup_app_l in Hb by (by rewrite length_fmap); done).
    apply (fault_overlap _ _ _ i a n k a' n' k' x); [exact Hj|by apply Hsub|done|done|cbn; lia|done| |].
    + intros i' b Hi' Hb. apply (Hfirst i'); [done|]. apply Hback; [lia|done].
    + intros y i' b Hy Hi' Hb Hsy. assert (marked occupied y = true) as Hmy by (apply Hmk; [lia|]; exists i', b; auto). by rewrite Hlow in Hmy by lia.
  - destruct (occupy_spec (E := SimError.t) (Z.to_nat n) occupied a Hbm) as (occupied' & -> & Hbm' & Hmk'); [lia|lia|]. cbn [rbind].
    specialize (IH (pre ++ [p]) occupied' Hraw). rewrite fmap_app in IH. cbn [fmap list_fmap] in IH. rewrite Hp in IH.
    rewrite <-app_assoc in IH. cbn [app] in IH. replace (Z.of_nat (length pre) + 1) with (blen (pre ++ [p])) by (unfold blen; rewrite length_app; cbn; lia).
    apply IH; [|eapply depicts_snoc; try done; lia]. apply layout_snoc; [done..|]. intros i c x Hi Hsx Hsc.
    assert (marked occupied x = true) as Hm by (apply Hmk; [cbn in Hsx; lia|by exists i, c]). rewrite Hs in Hm; [done|]. cbn in Hsx. lia.
Qed.
Lemma validate_block_layout_spec blocks : Forall raw_ok (fields <$> blocks) →
  layout_verdict (fields <$> blocks) (validate_block_layout table fields blocks).
Proof.
  intros Hraw. apply (layout_loop_spec blocks [] (replicate 1024 0)); [done| |].
  - split; [constructor|]. by intros ? ? ? ? ? ? ?.
  - split; [split; [done|]; by apply Forall_replicate|]. intros x Hx. split; [|by intros (? & ? & ? & _)].
    unfold marked. rewrite nth_lookup, lookup_replicate_2 by (destruct (word_index x Hx); lia). cbn [from_option id]. by rewrite Z.bits_0.
Qed.
End LayoutSpec.

(** ** Behaviour *)
Definition static (block : RegisterBlock.t) : Prop :=
  RegisterBlock.mode block = UpdateMode.Static ∧ RegisterBlock.min block = 0 ∧ RegisterBlock.max block = u16_max.
Inductive behavior_fault (table : string) (blocks : list RegisterBlock.t) (j : nat) : ConfigIssue.t → Prop :=
  | fault_mode b : blocks !! j = Some b → RegisterBlock.mode b ≠ UpdateMode.Static → behavior_fault table blocks j (ConfigIssue.Mode table (Z.of_nat j))
  | fault_bounds b : blocks !! j = Some b → RegisterBlock.mode b = UpdateMode.Static →
      RegisterBlock.min b ≠ 0 ∨ RegisterBlock.max b ≠ u16_max →
      behavior_fault table blocks j (ConfigIssue.Bounds table (Z.of_nat j) (RegisterBlock.min b) (RegisterBlock.max b)).
Definition behavior_verdict (table : string) (blocks : list RegisterBlock.t) (r : res SimError.t unit) : Prop :=
  match r with
  | Ok _ => Forall static blocks
  | Err (SimError.Config issue) => ∃ j, Forall static (take j blocks) ∧ behavior_fault table blocks j issue
  | _ => False
  end.
Lemma behavior_fault_bad table blocks j i : behavior_fault table blocks j i → ¬ Forall static blocks.
Proof.
  intros [b Hj Hm|b Hj Hm Hb] Hs; pose proof (proj1 (Forall_lookup _ _) Hs _ _ Hj) as (? & ? & ?); [done|]. by destruct Hb.
Qed.
Lemma behavior_loop_spec table rest : ∀ pre, Forall static pre →
  behavior_verdict table (pre ++ rest) (behavior_loop table rest (blen pre)).
Proof.
  induction rest as [|b rest IH]; intros pre Hpre; [by rewrite app_nil_r|]. cbn [behavior_loop].
  assert ((pre ++ b :: rest) !! length pre = Some b) as Hj by (by rewrite lookup_app_r, Nat.sub_diag by lia).
  case_bool_decide as Hm; cbn [negb]; [|exists (length pre); rewrite take_app_length; split; [done|by econstructor]].
  destruct (negb (RegisterBlock.min b =? 0) || negb (RegisterBlock.max b =? u16_max)) eqn:Hb.
  - exists (length pre). rewrite take_app_length. split; [done|]. econstructor; try done. lia.
  - specialize (IH (pre ++ [b])). rewrite <-app_assoc in IH. cbn [app] in IH.
    replace (blen pre + 1) with (blen (pre ++ [b])) by (rewrite blen_app; done). apply IH. apply Forall_app. split; [done|].
    repeat constructor; [done|lia|lia].
Qed.

(** ** Filling a table *)
(** A table of the store, as the list of its entries *)
Record view (A : Type) : Type := View { entries : Tables.t → list A; update : list A → Tables.t → Tables.t }.
Arguments View {A}. Arguments entries {A}. Arguments update {A}.
Definition coil_view : view bool := View Tables.coils Tables.set_coils.
Definition discrete_view : view bool :=
  View Tables.discrete_inputs (λ x '(Tables.mk c d h i fs q e sid), Tables.mk c x h i fs q e sid).
Definition holding_view : view Z := View Tables.holding_registers Tables.set_holding.
Definition input_view : view Z := View Tables.input_registers (λ x '(Tables.mk c d h i fs q e sid), Tables.mk c d h x fs q e sid).
Class ViewLaws {A} (v : view A) : Prop := {
  entries_update l T : entries v (update v l T) = l;
  update_entries T : update v (entries v T) T = T;
  update_update l k T : update v l (update v k T) = update v l T;
}.
#[export] Instance coil_view_laws : ViewLaws coil_view.
Proof. by split; intros; destruct T. Qed.
#[export] Instance discrete_view_laws : ViewLaws discrete_view.
Proof. by split; intros; destruct T. Qed.
#[export] Instance holding_view_laws : ViewLaws holding_view.
Proof. by split; intros; destruct T. Qed.
#[export] Instance input_view_laws : ViewLaws input_view.
Proof. by split; intros; destruct T. Qed.
(** A setter stores one entry of the table. *)
Definition stores {A} (v : view A) (val_ok : A → Prop) (set : Z → A → ST InMemoryStore.t Empty_set unit) : Prop :=
  ∀ s a x, store_ok s → 0 ≤ a < blen (entries v (tables_of s)) → val_ok x →
  ∃ s', set a x s = (Ok tt, s') ∧ store_ok s' ∧ tables_of s' = update v (splice a [x] (entries v (tables_of s))) (tables_of s).
Lemma word_stored (h : list Z) (a x : Z) : u16s h → 0 ≤ a < blen h → is_u16 x →
  buf_set (E := StoreError.t) a x h = (Ok tt, splice a [x] h) ∧ u16s (splice a [x] h) ∧ blen (splice a [x] h) = blen h.
Proof.
  intros Hh Ha Hx. split; [by apply buf_set_splice|]. split; [by apply splice_Forall; [|constructor]|].
  apply blen_splice; change (blen [x]) with 1; lia.
Qed.
Lemma bit_stored (c : BitTable.t) (a : Z) (x : bool) : table_ok c → 0 ≤ a < BitTable.len c →
  ∃ c', BitTable.set (E := StoreError.t) a x c = (Ok tt, c') ∧ table_ok c' ∧ BitTable.len c' = BitTable.len c ∧ bits_of c' = splice a [x] (bits_of c).
Proof.
  intros Hc Ha. destruct (set_list c Hc a ltac:(lia) (E := StoreError.t) x) as (c' & Heq & Hok & Hb); [lia|]. exists c'. split_and!; try done.
  rewrite <-!blen_bits_of, Hb, blen_splice by (rewrite ?blen_bits_of; change (blen [x]) with 1; done || lia). done.
Qed.
Lemma stores_holding : stores holding_view (λ x, is_u16 x) (λ a v, expect (InMemoryStore.set_holding_register a v)).
Proof.
  intros [c d h i fs q y sid] a x Hs Ha Hx. cbn in Ha. pose proof Hs as (? & ? & [Hh ?] & ? & ?). destruct (word_stored h a x Hh Ha Hx) as (Heq & ? & Hl).
  exists (InMemoryStore.mk c d (splice a [x] h) i fs q y sid). split; [|split; [|done]].
  - unfold expect, InMemoryStore.set_holding_register, InMemoryStore.on_holding_registers, zoom, check_setup_address. cbn [InMemoryStore.holding_registers].
    rewrite st_bind_get, st_bind_lift. replace (blen h <=? a) with false by lia. by rewrite Heq.
  - cbn. rewrite Hl. by split_and!; destruct_and!.
Qed.
Lemma stores_input : stores input_view (λ x, is_u16 x) (λ a v, expect (InMemoryStore.set_input_register a v)).
Proof.
  intros [c d h i fs q y sid] a x Hs Ha Hx. cbn in Ha. pose proof Hs as (? & ? & [? Hh] & ? & ?). destruct (word_stored i a x Hh Ha Hx) as (Heq & ? & Hl).
  exists (InMemoryStore.mk c d h (splice a [x] i) fs q y sid). split; [|split; [|done]].
  - unfold expect, InMemoryStore.set_input_register, InMemoryStore.on_input_registers, zoom, check_setup_address. cbn [InMemoryStore.input_registers].
    rewrite st_bind_get, st_bind_lift. replace (blen i <=? a) with false by lia. by rewrite Heq.
  - cbn. rewrite Hl. by split_and!; destruct_and!.
Qed.
Lemma stores_coil : stores coil_view (λ _, True) (λ a v, expect (InMemoryStore.set_coil a v)).
Proof.
  intros [c d h i fs q y sid] a x Hs Ha _. cbn in Ha. pose proof Hs as ([Hc ?] & ? & ? & ? & ?). rewrite blen_bits_of in Ha by done.
  destruct (bit_stored c a x Hc Ha) as (c' & Heq & ? & Hl & Hb). exists (InMemoryStore.mk c' d h i fs q y sid). split; [|split].
  - unfold expect, InMemoryStore.set_coil, InMemoryStore.on_coils, zoom, check_setup_address. cbn [InMemoryStore.coils].
    rewrite st_bind_get, st_bind_lift. replace (BitTable.len c <=? a) with false by lia. by rewrite Heq.
  - cbn. rewrite Hl. by split_and!; destruct_and!.
  - cbn. by rewrite Hb.
Qed.
Lemma stores_discrete : stores discrete_view (λ _, True) (λ a v, expect (InMemoryStore.set_discrete_input a v)).
Proof.
  intros [c d h i fs q y sid] a x Hs Ha _. cbn in Ha. pose proof Hs as ([? Hc] & ? & ? & ? & ?). rewrite blen_bits_of in Ha by done.
  destruct (bit_stored d a x Hc Ha) as (d' & Heq & ? & Hl & Hb). exists (InMemoryStore.mk c d' h i fs q y sid). split; [|split].
  - unfold expect, InMemoryStore.set_discrete_input, InMemoryStore.on_discrete_inputs, zoom, check_setup_address. cbn [InMemoryStore.discrete_inputs].
    rewrite st_bind_get, st_bind_lift. replace (BitTable.len d <=? a) with false by lia. by rewrite Heq.
  - cbn. rewrite Hl. by split_and!; destruct_and!.
  - cbn. by rewrite Hb.
Qed.

(** The table with every block's values written over it, and the value at one
    address: that of the block there, or the value the table had *)
Definition paint {A} (blocks : list (Z * Z * list A)) (table : list A) : list A :=
  foldl (λ table '(a, _, v), splice a v table) table blocks.
Fixpoint configured {A} (base : A) (blocks : list (Z * Z * list A)) (x : Z) : A :=
  match blocks with
  | [] => base
  | (a, n, v) :: blocks => if (a <=? x) && (x <? a + n) then default base (get v (x - a)) else configured base blocks x
  end.
Definition shape {A} : Z * Z * list A → Z * Z * Z := λ '(a, n, v), (a, n, blen v).
Section Fill.
Context {A : Type}.
Implicit Types (blocks : list (Z * Z * list A)).
Lemma layout_cons b bs : layout_ok (b :: bs) → block_fits b ∧ layout_ok bs ∧ ∀ x c, spans b x → c ∈ bs → ¬ spans c x.
Proof.
  intros [Hf Ha]. apply Forall_cons in Hf as [Hb Hf]. split; [done|]. split; [split; [done|]|].
  - intros i j c d x Hij Hi Hj. apply (Ha (S i) (S j) c d x); [lia|done|done].
  - intros x c Hx [j Hj]%list_elem_of_lookup. apply (Ha 0%nat (S j) b c x); [lia|done|done|done].
Qed.
Lemma configured_none base blocks x : (∀ c, c ∈ shape <$> blocks → ¬ spans c x) → configured base blocks x = base.
Proof.
  induction blocks as [|[[a n] v] blocks IH]; intros Hno; [done|]. cbn [configured].
  assert (¬ spans (a, n, blen v) x) as Hs by (apply Hno; left). cbn in Hs. replace ((a <=? x) && (x <? a + n)) with false by lia.
  apply IH. intros c Hc. apply Hno. by right.
Qed.
Lemma blen_paint blocks : ∀ t, layout_ok (shape <$> blocks) → Forall (λ b, 0 ≤ b.1.1) blocks → blen t = 65536 → blen (paint blocks t) = 65536.
Proof.
  induction blocks as [|[[a n] v] blocks IH]; intros t Hl Ha Ht; [done|]. apply layout_cons in Hl as ((? & ? & ?) & Hl & _). apply Forall_cons in Ha as [? Ha].
  cbn in *. apply IH; [done..|]. rewrite blen_splice by (cbn in *; lia). done.
Qed.
Lemma get_paint blocks : ∀ t base x, layout_ok (shape <$> blocks) → Forall (λ b, 0 ≤ b.1.1) blocks → blen t = 65536 → 0 ≤ x →
  get t x = Some base → get (paint blocks t) x = Some (configured base blocks x).
Proof.
  induction blocks as [|[[a n] v] blocks IH]; intros t base x Hl Ha Ht Hx Hbase; [done|].
  apply layout_cons in Hl as ((Hn & Han & Hv) & Hl & Hapart). apply Forall_cons in Ha as [Ha0 Ha]. cbn [fst] in Ha0.
  change (paint ((a, n, v) :: blocks) t) with (paint blocks (splice a v t)). cbn [configured].
  pose proof (blen_nonneg v). assert (blen (splice a v t) = 65536) as Ht' by (rewrite blen_splice by lia; done).
  pose proof (get_splice a v t x Ha0 ltac:(lia) Hx) as Hg. destruct ((a <=? x) && (x <? a + n)) eqn:Hin.
  - rewrite (IH _ (default base (get v (x - a))) x Hl Ha Ht' Hx).
    + rewrite configured_none; [done|]. intros c Hc. apply (Hapart x c); [cbn; lia|done].
    + rewrite Hg. destruct ((a <=? x) && (x <? a + blen v)) eqn:Hv'.
      * destruct (get_lt_is_Some v (x - a)) as [y Hy]; [lia|]. by rewrite Hy.
      * destruct (get v (x - a)) eqn:Hy; [apply get_Some_lt in Hy; lia|done].
  - apply IH; try done. rewrite Hg. by replace ((a <=? x) && (x <? a + blen v)) with false by lia.
Qed.
Lemma splice_cons (a : Z) (x : A) (vals l : list A) : 0 ≤ a → a + 1 + blen vals ≤ blen l →
  splice (a + 1) vals (splice a [x] l) = splice a (x :: vals) l.
Proof.
  intros Ha Hl. pose proof (blen_nonneg vals). assert (blen (splice a [x] l) = blen l) as H1 by (apply blen_splice; change (blen [x]) with 1; lia).
  apply splice_get; rewrite ?blen_cons; try lia; [by rewrite blen_splice by lia|]. intros y Hy. rewrite !get_splice by (change (blen [x]) with 1; lia).
  change (blen [x]) with 1. destruct (Z.leb_spec (a + 1) y), (Z.ltb_spec y (a + 1 + blen vals)), (Z.leb_spec a y), (Z.ltb_spec y (a + 1)),
    (Z.ltb_spec y (a + (1 + blen vals))); cbn [andb]; try lia; try done.
  - by rewrite get_cons_later by lia.
  - replace (y - a) with 0 by lia. by rewrite !get_cons_0.
Qed.
(** Runs of a setter *)
Context (v : view A) `{!ViewLaws v} (val_ok : A → Prop) (set : Z → A → ST InMemoryStore.t Empty_set unit) (Hset : stores v val_ok set).
Lemma apply_values_spec a n vals : ∀ i s, store_ok s → blen (entries v (tables_of s)) = 65536 → Forall val_ok vals →
  0 ≤ a → 0 ≤ i → i + blen vals ≤ n → a + n ≤ 65536 →
  ∃ s', apply_values set a n i vals s = (Ok tt, s') ∧ store_ok s' ∧
    tables_of s' = update v (splice (a + i) vals (entries v (tables_of s))) (tables_of s).
Proof.
  induction vals as [|x vals IH]; intros i s Hs Hl Hv Ha Hi Hn Han; cbn [apply_values].
  - exists s. split_and!; [done..|]. unfold splice. rewrite blen_nil, Z.add_0_r. cbn [app]. by rewrite take_drop, update_entries.
  - rewrite blen_cons in Hn. pose proof (blen_nonneg vals). apply Forall_cons in Hv as [Hx Hv]. replace (i <? n) with true by lia.
    unfold offset_address. change u16_max with 65535. replace (65535 <? i) with false by lia. replace (65535 <? a + i) with false by lia.
    destruct (Hset s (a + i) x Hs ltac:(lia) Hx) as (s1 & Heq & Hs1 & HT1). rewrite (st_bind_Ok _ _ _ _ _ Heq).
    destruct (IH (i + 1) s1) as (s' & -> & Hs' & HT'); try done; try lia.
    { rewrite HT1, entries_update, blen_splice by (change (blen [x]) with 1; lia). done. }
    exists s'. split_and!; [done..|]. rewrite HT', HT1, entries_update, update_update, Z.add_assoc. by rewrite splice_cons by lia.
Qed.
End Fill.
Definition register_block (b : RegisterBlock.t) : Z * Z * list Z := (RegisterBlock.address b, RegisterBlock.count b, RegisterBlock.initial b).
Definition coil_block (b : CoilBlock.t) : Z * Z * list bool := (CoilBlock.address b, CoilBlock.count b, CoilBlock.initial b).
Section Blocks.
Context {A : Type} (v : view A) `{!ViewLaws v} (val_ok : A → Prop) (set : Z → A → ST InMemoryStore.t Empty_set unit) (Hset : stores v val_ok set).
Fixpoint apply_all (blocks : list (Z * Z * list A)) : ST InMemoryStore.t Empty_set unit :=
  match blocks with [] => st_ret tt | (a, n, vals) :: blocks => apply_values set a n 0 vals;;; apply_all blocks end.
Lemma apply_all_spec blocks : ∀ s, store_ok s → blen (entries v (tables_of s)) = 65536 → layout_ok (shape <$> blocks) →
  Forall (λ b, 0 ≤ b.1.1 ∧ Forall val_ok b.2) blocks →
  ∃ s', apply_all blocks s = (Ok tt, s') ∧ store_ok s' ∧ tables_of s' = update v (paint blocks (entries v (tables_of s))) (tables_of s).
Proof.
  induction blocks as [|[[a n] vals] blocks IH]; intros s Hs Hl Hlay Hok; cbn [apply_all].
  - exists s. split_and!; [done..|]. symmetry. apply update_entries.
  - apply layout_cons in Hlay as ((Hn & Han & Hv) & Hlay & _). apply Forall_cons in Hok as [[Ha Hvals] Hok]. cbn [fst snd] in Ha, Hvals.
    destruct (apply_values_spec v val_ok set Hset a n vals 0 s) as (s1 & Heq & Hs1 & HT1); try done; try lia. rewrite Z.add_0_r in HT1.
    rewrite (st_bind_Ok _ _ _ _ _ Heq). destruct (IH s1) as (s' & -> & Hs' & HT'); try done.
    { rewrite HT1, entries_update, blen_splice by lia. done. }
    exists s'. split_and!; [done..|]. by rewrite HT', HT1, entries_update, update_update.
Qed.
End Blocks.
Lemma apply_register_blocks_all set blocks s : apply_register_blocks set blocks s = apply_all set (register_block <$> blocks) s.
Proof. revert s. induction blocks as [|b blocks IH]; intros s; [done|]. cbn. unfold st_bind. destruct (apply_values _ _ _ _ _ s) as [[]]; by rewrite ?IH. Qed.
Lemma apply_coil_blocks_all set blocks s : apply_coil_blocks set blocks s = apply_all set (coil_block <$> blocks) s.
Proof. revert s. induction blocks as [|b blocks IH]; intros s; [done|]. cbn. unfold st_bind. destruct (apply_values _ _ _ _ _ s) as [[]]; by rewrite ?IH. Qed.

(** ** Configurations *)
(** What the types of the source allow *)
Definition raw_registers (c : RegisterConfig.t) : Prop :=
  Forall (λ b, raw_ok (register_fields b) ∧ u16s (RegisterBlock.initial b)) (RegisterConfig.holding c) ∧
  Forall (λ b, raw_ok (register_fields b) ∧ u16s (RegisterBlock.initial b)) (RegisterConfig.input c) ∧
  Forall (λ b, raw_ok (coil_fields b)) (RegisterConfig.coils c) ∧ Forall (λ b, raw_ok (coil_fields b)) (RegisterConfig.discrete_inputs c).
Definition registers_ok (c : RegisterConfig.t) : Prop :=
  layout_ok (register_fields <$> RegisterConfig.holding c) ∧ Forall static (RegisterConfig.holding c) ∧
  layout_ok (register_fields <$> RegisterConfig.input c) ∧ Forall static (RegisterConfig.input c) ∧
  layout_ok (coil_fields <$> RegisterConfig.coils c) ∧ layout_ok (coil_fields <$> RegisterConfig.discrete_inputs c).
Definition unit_ok (u : Z) : Prop := 1 ≤ u ≤ 247 ∨ u = 255.
Inductive registers_fault (c : RegisterConfig.t) : ConfigIssue.t → Prop :=
  | holding_layout j i : layout_fault "holding" (register_fields <$> RegisterConfig.holding c) j i →
      layout_ok (take j (register_fields <$> RegisterConfig.holding c)) → registers_fault c i
  | holding_behavior j i : behavior_fault "holding" (RegisterConfig.holding c) j i → Forall static (take j (RegisterConfig.holding c)) → registers_fault c i
  | input_layout j i : layout_fault "input" (register_fields <$> RegisterConfig.input c) j i →
      layout_ok (take j (register_fields <$> RegisterConfig.input c)) → registers_fault c i
  | input_behavior j i : behavior_fault "input" (RegisterConfig.input c) j i → Forall static (take j (RegisterConfig.input c)) → registers_fault c i
  | coils_layout j i : layout_fault "coils" (coil_fields <$> RegisterConfig.coils c) j i →
      layout_ok (take j (coil_fields <$> RegisterConfig.coils c)) → registers_fault c i
  | discrete_layout j i : layout_fault "discrete_inputs" (coil_fields <$> RegisterConfig.discrete_inputs c) j i →
      layout_ok (take j (coil_fields <$> RegisterConfig.discrete_inputs c)) → registers_fault c i.
Lemma registers_fault_bad c i : registers_fault c i → ¬ registers_ok c.
Proof.
  intros Hf (H1 & H2 & H3 & H4 & H5 & H6). destruct Hf as [j i Hf _|j i Hf _|j i Hf _|j i Hf _|j i Hf _|j i Hf _];
    first [by apply layout_fault_bad in Hf | by apply behavior_fault_bad in Hf].
Qed.
Lemma validate_register_config_spec c : raw_registers c →
  match validate_register_config c with
  | Ok _ => registers_ok c
  | Err (SimError.Config issue) => registers_fault c issue
  | _ => False
  end.
Proof.
  intros (Hh & Hi & Hc & Hd). assert (∀ bs, Forall (λ b, raw_ok (register_fields b) ∧ u16s (RegisterBlock.initial b)) bs → Forall raw_ok (register_fields <$> bs)) as Hraw.
  { intros bs Hbs. apply Forall_fmap. eapply Forall_impl; [exact Hbs|]. by intros b [? _]. }
  unfold validate_register_config.
  pose proof (validate_block_layout_spec "holding" register_fields (RegisterConfig.holding c) (Hraw _ Hh)) as H1.
  destruct (validate_block_layout "holding" _ _) as [[]|[]| |]; try done; [|destruct H1 as (j & ? & ?); by eapply holding_layout]. cbn [rbind].
  pose proof (behavior_loop_spec "holding" (RegisterConfig.holding c) [] ltac:(constructor)) as H2. change (blen (@nil RegisterBlock.t)) with 0 in H2.
  unfold validate_register_behavior. destruct (behavior_loop "holding" _ 0) as [[]|[]| |]; try done; [|destruct H2 as (j & ? & ?); by eapply holding_behavior]. cbn [rbind].
  pose proof (validate_block_layout_spec "input" register_fields (RegisterConfig.input c) (Hraw _ Hi)) as H3.
  destruct (validate_block_layout "input" _ _) as [[]|[]| |]; try done; [|destruct H3 as (j & ? & ?); by eapply input_layout]. cbn [rbind].
  pose proof (behavior_loop_spec "input" (RegisterConfig.input c) [] ltac:(constructor)) as H4. change (blen (@nil RegisterBlock.t)) with 0 in H4.
  destruct (behavior_loop "input" _ 0) as [[]|[]| |]; try done; [|destruct H4 as (j & ? & ?); by eapply input_behavior]. cbn [rbind].
  pose proof (validate_block_layout_spec "coils" coil_fields (RegisterConfig.coils c) ltac:(by apply Forall_fmap)) as H5.
  destruct (validate_block_layout "coils" _ _) as [[]|[]| |]; try done; [|destruct H5 as (j & ? & ?); by eapply coils_layout]. cbn [rbind].
  pose proof (validate_block_layout_spec "discrete_inputs" coil_fields (RegisterConfig.discrete_inputs c) ltac:(by apply Forall_fmap)) as H6.
  destruct (validate_block_layout "discrete_inputs" _ _) as [[]|[]| |]; try done. destruct H6 as (j & ? & ?). by eapply discrete_layout.
Qed.

(** A table before anything is written to it *)
Definition blank {A} (x : A) : list A := replicate (Z.to_nat 65536) x.
Lemma blen_blank {A} (x : A) : blen (blank x) = 65536.
Proof. unfold blank. rewrite blen_replicate. lia. Qed.
Lemma get_blank {A} (x : A) i : 0 ≤ i < 65536 → get (blank x) i = Some x.
Proof. intros Hi. unfold get, blank. replace (0 <=? i) with true by lia. apply lookup_replicate_2. lia. Qed.
(** What the store holds then *)
Definition simulated (c : RegisterConfig.t) : Tables.t :=
  Tables.mk (paint (coil_block <$> RegisterConfig.coils c) (blank false))
    (paint (coil_block <$> RegisterConfig.discrete_inputs c) (blank false))
    (paint (register_block <$> RegisterConfig.holding c) (blank 0))
    (paint (register_block <$> RegisterConfig.input c) (blank 0)) ∅ ∅ 0 InMemoryStore.default_server_id.
Lemma shape_register (bs : list RegisterBlock.t) : shape <$> (register_block <$> bs) = register_fields <$> bs.
Proof. by rewrite <-list_fmap_compose. Qed.
Lemma shape_coil (bs : list CoilBlock.t) : shape <$> (coil_block <$> bs) = coil_fields <$> bs.
Proof. by rewrite <-list_fmap_compose. Qed.
Lemma raw_register_blocks bs : Forall (λ b, raw_ok (register_fields b) ∧ u16s (RegisterBlock.initial b)) bs →
  Forall (λ b : Z * Z * list Z, 0 ≤ b.1.1 ∧ Forall (λ x, is_u16 x) b.2) (register_block <$> bs).
Proof. intros Hbs. apply Forall_fmap. eapply Forall_impl; [exact Hbs|]. intros b [(? & _) ?]. cbn. split; [lia|done]. Qed.
Lemma raw_coil_blocks bs : Forall (λ b, raw_ok (coil_fields b)) bs →
  Forall (λ b : Z * Z * list bool, 0 ≤ b.1.1 ∧ Forall (λ _, True) b.2) (coil_block <$> bs).
Proof. intros Hbs. apply Forall_fmap. eapply Forall_impl; [exact Hbs|]. intros b (? & _). cbn. split; [lia|]. by apply Forall_true. Qed.
Definition empty_store : InMemoryStore.t :=
  InMemoryStore.mk (BitTable.new 65536) (BitTable.new 65536) (replicate (Z.to_nat 65536) 0) (replicate (Z.to_nat 65536) 0) ∅ ∅ 0 InMemoryStore.default_server_id.
Lemma empty_store_spec : InMemoryStore.try_new StoreConfig.default = Ok empty_store ∧ store_ok empty_store ∧
  tables_of empty_store = simulated RegisterConfig.default.
Proof.
  assert (InMemoryStore.try_new StoreConfig.default = Ok empty_store) as He by done. destruct (try_new_ok StoreConfig.default) as (s & Hs & Hok & _).
  { unfold Memory.config_ok, StoreConfig.default, MAX_TABLE_SIZE. cbn. lia. }
  rewrite He in Hs. injection Hs as <-. split_and!; [done..|]. unfold tables_of, empty_store, simulated. by rewrite empty_bits by (unfold MAX_TABLE_SIZE; lia).
Qed.
#[global] Opaque blank empty_store.
Lemma apply_register_config_spec c : raw_registers c → registers_ok c → ∃ s, apply_register_config c empty_store = (Ok tt, s) ∧ store_ok s ∧
  tables_of s = simulated c.
Proof.
  intros (Hh & Hi & Hc & Hd) (Lh & _ & Li & _ & Lc & Ld). destruct empty_store_spec as (_ & Hs & HT). unfold apply_register_config.
  destruct (apply_all_spec holding_view (λ x, is_u16 x) _ stores_holding (register_block <$> RegisterConfig.holding c) empty_store) as (s1 & H1 & Hs1 & HT1);
    [done|rewrite HT; apply blen_blank|by rewrite shape_register|by apply raw_register_blocks|]. rewrite <-apply_register_blocks_all in H1. rewrite (st_bind_Ok _ _ _ _ _ H1).
  rewrite HT in HT1. cbn in HT1.
  destruct (apply_all_spec input_view (λ x, is_u16 x) _ stores_input (register_block <$> RegisterConfig.input c) s1) as (s2 & H2 & Hs2 & HT2);
    [done|rewrite HT1; apply blen_blank|by rewrite shape_register|by apply raw_register_blocks|]. rewrite <-apply_register_blocks_all in H2. rewrite (st_bind_Ok _ _ _ _ _ H2).
  rewrite HT1 in HT2. cbn in HT2.
  destruct (apply_all_spec coil_view (λ _, True) _ stores_coil (coil_block <$> RegisterConfig.coils c) s2) as (s3 & H3 & Hs3 & HT3);
    [done|rewrite HT2; apply blen_blank|by rewrite shape_coil|by apply raw_coil_blocks|]. rewrite <-apply_coil_blocks_all in H3. rewrite (st_bind_Ok _ _ _ _ _ H3).
  rewrite HT2 in HT3. cbn in HT3.
  destruct (apply_all_spec discrete_view (λ _, True) _ stores_discrete (coil_block <$> RegisterConfig.discrete_inputs c) s3) as (s4 & H4 & Hs4 & HT4);
    [done|rewrite HT3; apply blen_blank|by rewrite shape_coil|by apply raw_coil_blocks|]. rewrite <-apply_coil_blocks_all in H4.
  exists s4. split_and!; [exact H4|done|]. rewrite HT4, HT3. done.
Qed.

Section Simulators.
Context {Addr : Type} (parse_addr : bytes → option Addr).
Implicit Types (config : SimConfig.t) (sim : ModbusSimulator.t Addr).
Abbreviation unit_of config := (DeviceConfig.unit_id (SimConfig.device config)).
Abbreviation addr_of config := (DeviceConfig.listen_addr (SimConfig.device config)).
Definition sim_valid config : Prop :=
  unit_ok (unit_of config) ∧ is_Some (parse_addr (addr_of config)) ∧ SimConfig.faults config = [] ∧ registers_ok (SimConfig.registers config).
(** The first check that fails, and what is wrong *)
Inductive config_fault config : ConfigIssue.t → Prop :=
  | unit_fault : ¬ unit_ok (unit_of config) → config_fault config (ConfigIssue.UnitId (unit_of config))
  | addr_fault : unit_ok (unit_of config) → parse_addr (addr_of config) = None → config_fault config (ConfigIssue.ListenAddr (addr_of config))
  | faults_fault : unit_ok (unit_of config) → is_Some (parse_addr (addr_of config)) → SimConfig.faults config ≠ [] →
      config_fault config ConfigIssue.Faults
  | table_fault i : unit_ok (unit_of config) → is_Some (parse_addr (addr_of config)) → SimConfig.faults config = [] →
      registers_fault (SimConfig.registers config) i → config_fault config i.
Lemma config_fault_bad config i : config_fault config i → ¬ sim_valid config.
Proof.
  intros Hf (Hu & [x Ha] & Hno & Hr). destruct Hf as [?|? Hp|? ? ?|i ? ? ? Hi]; [done|congruence|done|]. by apply registers_fault_bad in Hi.
Qed.
Lemma unit_check u : negb (UnitId.is_valid_slave u) && negb (UnitId.is_tcp_device u) = false ↔ unit_ok u.
Proof.
  unfold unit_ok, UnitId.is_valid_slave, UnitId.is_tcp_device, UNIT_ID_MIN_SLAVE, UNIT_ID_MAX_SLAVE, UNIT_ID_TCP_DEVICE. lia.
Qed.
Lemma from_config_spec config : raw_registers (SimConfig.registers config) →
  match ModbusSimulator.from_config parse_addr config with
  | Ok sim => sim_valid config ∧ parse_addr (addr_of config) = Some (ModbusSimulator.listen_addr sim) ∧ ModbusSimulator.config sim = config ∧
      store_ok (ModbusSimulator.store sim) ∧ tables_of (ModbusSimulator.store sim) = simulated (SimConfig.registers config)
  | Err (SimError.Config issue) => config_fault config issue
  | _ => False
  end.
Proof.
  intros Hraw. unfold ModbusSimulator.from_config, ModbusSimulator.validate_config.
  destruct (negb (UnitId.is_valid_slave (unit_of config)) && negb (UnitId.is_tcp_device (unit_of config))) eqn:Hu.
  { cbn [rbind]. constructor. intros Hok%unit_check. congruence. }
  apply unit_check in Hu. destruct (parse_addr (addr_of config)) as [addr|] eqn:Ha; [|by constructor]. cbn [rbind].
  destruct (SimConfig.faults config) as [|f fs] eqn:Hf; [|cbn [is_empty negb]; constructor; [done|by rewrite Ha|by rewrite Hf]].
  cbn [is_empty negb blen length]. change (negb (is_empty [])) with false. cbv iota.
  pose proof (validate_register_config_spec (SimConfig.registers config) Hraw) as Hv.
  destruct (validate_register_config (SimConfig.registers config)) as [[]|[]| |]; try done; [|cbn [rbind]; apply table_fault; try done; by rewrite Ha].
  cbn [rbind]. destruct empty_store_spec as (-> & _). destruct (apply_register_config_spec _ Hraw Hv) as (s & -> & Hs & HT). cbn [rbind infallible].
  by split_and!.
Qed.
Lemma from_config_valid config : raw_registers (SimConfig.registers config) → sim_valid config →
  ∃ sim, ModbusSimulator.from_config parse_addr config = Ok sim.
Proof.
  intros Hraw Hv. pose proof (from_config_spec config Hraw) as Hs. destruct (ModbusSimulator.from_config parse_addr config) as [sim|[]| |]; try done; [by exists sim|].
  by apply config_fault_bad in Hs.
Qed.
Lemma validated config addr : raw_registers (SimConfig.registers config) → ModbusSimulator.validate_config parse_addr config = Ok addr → sim_valid config.
Proof.
  intros Hraw Hv. pose proof (from_config_spec config Hraw) as Hs. unfold ModbusSimulator.from_config in Hs. rewrite Hv in Hs. cbn [rbind] in Hs.
  destruct empty_store_spec as (Hnew & _). rewrite Hnew in Hs. destruct (apply_register_config _ _) as [[u|[]| |] s']; cbn [rbind Prelude.infallible] in Hs; [apply Hs|destruct Hs..].
Qed.
End Simulators.

(** ** Reading a simulator *)
Definition addresses (a q : Z) : list Z := map (λ i, a + Z.of_nat i) (seq 0 (Z.to_nat q)).
Lemma get_map {A B} (f : A → B) l i : get (map f l) i = f <$> get l i.
Proof. unfold get. case_match; [apply list_lookup_fmap|done]. Qed.
Lemma get_addresses a q i : 0 ≤ i < q → get (addresses a q) i = Some (a + i).
Proof.
  intros Hi. unfold addresses. rewrite get_map. unfold get. replace (0 <=? i) with true by lia. rewrite lookup_seq_lt by lia. cbn. do 2 f_equal. lia.
Qed.
Lemma select_configured {A} (base : A) (blocks : list (Z * Z * list A)) a q : layout_ok (shape <$> blocks) → Forall (λ b, 0 ≤ b.1.1) blocks →
  0 ≤ a → 0 ≤ q → a + q ≤ 65536 →
  select (paint blocks (blank base)) a q = Ok (map (configured base blocks) (addresses a q)).
Proof.
  intros Hl Hb Ha Hq Haq. pose proof (blen_blank base) as Ht.
  pose proof (blen_paint blocks _ Hl Hb Ht) as Hp. unfold select. rewrite Hp. replace (65536 <? a + q) with false by lia. f_equal.
  assert (blen (map (configured base blocks) (addresses a q)) = q) as Hlen by (unfold blen, addresses; rewrite !length_map, length_seq; lia).
  apply list_eq_get; rewrite blen_sublist by lia; [done|]. intros i Hi. rewrite get_sublist, get_map, get_addresses by lia. cbn [fmap option_fmap option_map].
  apply (get_paint blocks _ base (a + i) Hl Hb Ht); [lia|apply get_blank; lia].
Qed.
Section Served.
Context (unit_id : Z) (dev : DeviceIdentification.t) (Hdev : device_ok dev) (last : Z).
Context (config : ClientConfig.t) (Hconfig : Client.config_ok config) (Htime : 1 ≤ ClientConfig.timeout config).
(** A read over the loop returns what the operation on the tables returns. *)
Lemma read_served {A} (c : Call.t A) u s t v : store_ok s → t < last → answering unit_id u → Call.args_ok c → Call.valid c →
  call_spec (tables_of s) c = Ok (v, tables_of s) →
  ∃ w', @perform _ (@client_connection _ (@loop_runtime _ (server_peer unit_id dev) last) config) A u c (Loop.mk TransactionManager.new t s) = (Ok v, w') ∧
    tables_of (Loop.server w') = tables_of s.
Proof.
  intros Hs Ht Hu Ha Hv Hspec.
  assert (loop_ok store_ok last (Loop.mk TransactionManager.new t s)) as Hw.
  { split; [done|exact idle_ring| |done]. intros p Hp. by apply list_elem_of_In in Hp; repeat (destruct Hp as [Hp|Hp]; [done|]). }
  destruct (@remote_call _ store_ok (answering unit_id) _ (server_peer_laws unit_id dev Hdev) last config Hconfig Htime A u c _ Hw Ha (or_introl Hu))
    as (r & w' & Hp & _ & _ & He). exists w'. pose proof Hu as (_ & Hb & _). cbn in He.
  inversion He as [Hb'|e Hv'|v' Hb'|v' T' _ _ Hspec'|ec _ _ Hspec']; subst; [congruence|done|congruence| |rewrite Hspec in Hspec'; done].
  rewrite Hspec in Hspec'. by injection Hspec' as -> <-.
Qed.
End Served.

Lemma simulated_reads c : raw_registers c → registers_ok c → ∀ a q, 0 ≤ a → 0 ≤ q → a + q ≤ 65536 →
  select (Tables.holding_registers (simulated c)) a q = Ok (map (configured 0 (register_block <$> RegisterConfig.holding c)) (addresses a q)) ∧
  select (Tables.input_registers (simulated c)) a q = Ok (map (configured 0 (register_block <$> RegisterConfig.input c)) (addresses a q)) ∧
  select (Tables.coils (simulated c)) a q = Ok (map (configured false (coil_block <$> RegisterConfig.coils c)) (addresses a q)) ∧
  select (Tables.discrete_inputs (simulated c)) a q = Ok (map (configured false (coil_block <$> RegisterConfig.discrete_inputs c)) (addresses a q)).
Proof.
  intros (Rh & Ri & Rc & Rd) (Lh & _ & Li & _ & Lc & Ld) a q Ha Hq Haq.
  assert (∀ {A} (P : A → Prop) (bs : list (Z * Z * list A)), Forall (λ b, 0 ≤ b.1.1 ∧ Forall P b.2) bs → Forall (λ b, 0 ≤ b.1.1) bs) as Hfst
    by (intros A P bs Hbs; eapply Forall_impl; [exact Hbs|by intros b []]).
  split_and!; (apply select_configured; [by rewrite ?shape_register, ?shape_coil| |done..]);
    first [by eapply Hfst, raw_register_blocks | by eapply Hfst, raw_coil_blocks].
Qed.

(** * Theorems *)

(** A simulator can be made from a configuration exactly when the unit is 1 to 247
    or 255, the address parses, no faults are listed and the blocks of each table
    are nonempty, within the address space, with no more values than entries, static
    and disjoint; every address then holds the value of the block it is in, and zero
    or [false] otherwise. Otherwise the error is the first check that failed, an
    overlap being reported at its lowest address with the first block that has it.
    Nothing panics. *)
Theorem simulator_exact (Addr : Type) (parse_addr : bytes → option Addr) (config : SimConfig.t) :
  raw_registers (SimConfig.registers config) →
  let c := SimConfig.registers config in
  match ModbusSimulator.from_config parse_addr config with
  | Ok sim =>
      let T := tables_of (ModbusSimulator.store sim) in
      sim_valid parse_addr config ∧ parse_addr (DeviceConfig.listen_addr (SimConfig.device config)) = Some (ModbusSimulator.listen_addr sim) ∧
      store_ok (ModbusSimulator.store sim) ∧
      (∀ a q, 0 ≤ a → 0 ≤ q → a + q ≤ 65536 →
         select (Tables.holding_registers T) a q = Ok (map (configured 0 (register_block <$> RegisterConfig.holding c)) (addresses a q)) ∧
         select (Tables.input_registers T) a q = Ok (map (configured 0 (register_block <$> RegisterConfig.input c)) (addresses a q)) ∧
         select (Tables.coils T) a q = Ok (map (configured false (coil_block <$> RegisterConfig.coils c)) (addresses a q)) ∧
         select (Tables.discrete_inputs T) a q = Ok (map (configured false (coil_block <$> RegisterConfig.discrete_inputs c)) (addresses a q)))
  | Err (SimError.Config issue) => ¬ sim_valid parse_addr config ∧ config_fault parse_addr config issue
  | _ => False
  end.
Proof.
  intros Hraw c. pose proof (from_config_spec parse_addr config Hraw) as Hs. destruct (ModbusSimulator.from_config parse_addr config) as [sim|[]| |]; try done.
  - destruct Hs as (Hv & Ha & _ & Hs & HT). cbn zeta. rewrite HT. split_and!; [done..|]. apply simulated_reads; [done|apply Hv].
  - split; [by eapply config_fault_bad|done].
Qed.
(** The source's own profiles can be made. *)
Definition profiles : list SimConfig.t := [hvac_controller; power_meter; vfd_drive; generic_io].
Lemma profiles_raw : Forall (λ c, raw_registers (SimConfig.registers c)) profiles.
Proof. repeat (apply conj || apply List.Forall_nil || apply List.Forall_cons); first [apply blen_nonneg | cbn; lia]. Qed.
Lemma profiles_made : Forall (λ c, ∃ sim, ModbusSimulator.from_config (λ s, Some s) c = Ok sim) profiles.
Proof.
  apply Forall_lookup. intros i c Hi. pose proof (proj1 (Forall_lookup _ _) profiles_raw i c Hi) as Hraw. apply from_config_valid; [exact Hraw|].
  apply (validated _ _ (utf8 "127.0.0.1:0") Hraw). do 4 (destruct i as [|i]; [injection Hi as <-; vm_compute; reflexivity|]). done.
Qed.
Lemma hvac_raw : raw_registers (SimConfig.registers hvac_controller).
Proof. by pose proof profiles_raw as [? _]%Forall_cons. Qed.
Lemma hvac_made : ∃ sim, ModbusSimulator.from_config (λ s, Some s) hvac_controller = Ok sim.
Proof. by pose proof profiles_made as [? _]%Forall_cons. Qed.
Lemma simulator_exact_witness : ∃ sim,
  ModbusSimulator.from_config (λ s, Some s) hvac_controller = Ok sim ∧
  select (Tables.holding_registers (tables_of (ModbusSimulator.store sim))) 0 4 = Ok [720; 680; 760; 50].
Proof.
  destruct hvac_made as [sim Hsim]. exists sim. split; [exact Hsim|]. pose proof (simulator_exact _ (λ s, Some s) hvac_controller hvac_raw) as Hs.
  rewrite Hsim in Hs. destruct Hs as (_ & _ & _ & Ht). destruct (Ht 0 4 ltac:(lia) ltac:(lia) ltac:(lia)) as (Hh & _). exact Hh.
Defined.

(** C10. A client of a running simulator: every read within the protocol's limits, of
    any table and at any addresses, returns the values the configuration lists there,
    with zero or [false] where it lists none, and changes nothing. *)
Theorem simulator_serves (Addr : Type) (parse_addr : bytes → option Addr) (config : SimConfig.t) (sim : ModbusSimulator.t Addr) (version : bytes)
    (last t : Z) (client : ClientConfig.t) (a q n : Z) :
  let d := SimConfig.device config in
  let c := SimConfig.registers config in
  raw_registers c → bytes_ok (DeviceConfig.vendor_name d) → bytes_ok (DeviceConfig.product_code d) → bytes_ok (DeviceConfig.revision d) →
  ModbusSimulator.from_config parse_addr config = Ok sim →
  Client.config_ok client → 1 ≤ ClientConfig.timeout client → t < last →
  0 ≤ a → 1 ≤ q ≤ 125 → a + q ≤ 65536 → 1 ≤ n ≤ 2000 → a + n ≤ 65536 →
  let server := ModbusSimulator.server_config version sim in
  let peer := server_peer (ServerConfig.unit_id server) (ServerConfig.device_id server) in
  let w := Loop.mk TransactionManager.new t (ModbusSimulator.store sim) in
  let reads {A} (call : Call.t A) (values : A) := ∃ w',
    @perform _ (@client_connection _ (@loop_runtime _ peer last) client) A (DeviceConfig.unit_id d) call w = (Ok values, w') ∧
    tables_of (Loop.server w') = tables_of (ModbusSimulator.store sim) in
  reads (Call.ReadHoldingRegisters a q) (map (configured 0 (register_block <$> RegisterConfig.holding c)) (addresses a q)) ∧
  reads (Call.ReadInputRegisters a q) (map (configured 0 (register_block <$> RegisterConfig.input c)) (addresses a q)) ∧
  reads (Call.ReadCoils a n) (map (configured false (coil_block <$> RegisterConfig.coils c)) (addresses a n)) ∧
  reads (Call.ReadDiscreteInputs a n) (map (configured false (coil_block <$> RegisterConfig.discrete_inputs c)) (addresses a n)).
Proof.
  intros d c Hraw Hb1 Hb2 Hb3 Hsim Hc Ht Hlast Ha Hq Haq Hn Han server peer w reads.
  pose proof (from_config_spec parse_addr config Hraw) as Hs. rewrite Hsim in Hs. destruct Hs as ((Hu & _ & _ & Hv) & _ & Hcfg & Hok & HT).
  assert (ServerConfig.unit_id server = DeviceConfig.unit_id d) as Hunit by (unfold server; destruct sim; cbn in Hcfg; by subst).
  assert (device_ok (ServerConfig.device_id server)) as Hdev by (unfold server; destruct sim; cbn in Hcfg; subst; by repeat constructor).
  assert (answering (ServerConfig.unit_id server) (DeviceConfig.unit_id d)) as Hans.
  { fold d in Hu. unfold unit_ok in Hu. split; [lia|]. split; [unfold UnitId.is_broadcast, UNIT_ID_BROADCAST; lia|by left]. }
  pose proof (simulated_reads c Hraw Hv) as Hsel. fold c in HT.
  destruct (Hsel a q Ha ltac:(lia) Haq) as (Hh & Hi & _), (Hsel a n Ha ltac:(lia) Han) as (_ & _ & Hco & Hd).
  split_and!; (apply read_served; [done..|split; lia|split; [split; hnf; cbn; lia|done]|]); rewrite HT; cbn [call_spec];
    rewrite ?Hh, ?Hi, ?Hco, ?Hd; reflexivity.
Qed.
Lemma simulator_serves_witness : ∃ sim w',
  ModbusSimulator.from_config (λ s, Some s) hvac_controller = Ok sim ∧
  let server := ModbusSimulator.server_config [49] sim in
  @perform _ (@client_connection _ (@loop_runtime _ (server_peer (ServerConfig.unit_id server) (ServerConfig.device_id server)) 10000000000000) ClientConfig.default)
    _ 1 (Call.ReadHoldingRegisters 0 4) (Loop.mk TransactionManager.new 0 (ModbusSimulator.store sim)) = (Ok [720; 680; 760; 50], w').
Proof.
  destruct hvac_made as [sim Hsim].
  destruct (simulator_serves _ (λ s, Some s) hvac_controller sim [49] 10000000000000 0 ClientConfig.default 0 4 4 hvac_raw) as ((w' & Hp & _) & _).
  - repeat constructor; lia.
  - repeat constructor; lia.
  - repeat constructor; lia.
  - exact Hsim.
  - repeat split; vm_compute; discriminate.
  - vm_compute. discriminate.
  - lia.
  - lia.
  - lia.
  - lia.
  - lia.
  - lia.
  - exists sim, w'. split; [exact Hsim|]. exact Hp.
Defined.
