(* ===== verification/Discover.v ===== *)
(** * Discovery (crates/rusty-modbus-cli: src/discover.rs)

    Which addresses and unit IDs a scan covers, how one unit is probed with the methods of
    the client, and the report. What the network does is a [Network]: which addresses
    accept a connection, and the connection a client gets there; time limits are up
    to the class [Patience]. The parser of CIDR ranges, the parser and printer of
    IPv6 addresses and the JSON printer are parameters. An error is a constructor with
    the values its message reports. *)
From Stdlib Require Import Sorted.
From stdpp Require Import strings.
From S2P Require Import Prelude Text Types CodecError Requests Responses Pdu Deadlines Session Transaction Bits Store Memory DeviceId Handler Server Service Client Methods Calls Loopback RemoteCalls Identification.
#[local] Open Scope Z_scope.

Module OutputFormat.
Inductive t : Type := Human | Json.
End OutputFormat.

Module DiscoverConfig.
Record t : Type := mk {
  range : option text; host : option text; port : Z; unit_id_range : text;
  timeout : Z; concurrency : Z; format : OutputFormat.t
}.
End DiscoverConfig.
(** Strings of the device are UTF-8 bytes *)
Module DiscoveredDevice.
Record t : Type := mk { unit_id : Z; vendor_name : option bytes; product_code : option bytes; revision : option bytes }.
End DiscoveredDevice.
Module HostResult.
Record t : Type := mk { address : text; devices : list DiscoveredDevice.t }.
End HostResult.
Module DiscoveryReport.
Record t : Type := mk { hosts_scanned : Z; results : list HostResult.t }.
End DiscoveryReport.
Module DiscoverError.
Inductive t : Type :=
  | HostAndRange
  | TargetRequired
  | ZeroConcurrency
  | Integer (e : ParseIntError.t)
  | Address
  | Network
  | InvalidRange (range : text)
  | ReversedRange (start end_ : Z)
  | ReversedUnitIds (start end_ : Z).
End DiscoverError.

(** Addresses of [std::net]; an IPv4 address is its 32 bits *)
Module IpAddr.
Inductive t : Type := V4 (ip : Z) | V6 (ip : Z).
End IpAddr.
Module SocketAddr.
Record t : Type := mk { ip : IpAddr.t; port : Z }.
End SocketAddr.

(** [str::split(c)] *)
Fixpoint split_on (c : Z) (word s : text) : list text :=
  match s with
  | [] => [word]
  | x :: s => if x =? c then word :: split_on c [] s else split_on c (word ++ [x]) s
  end.
(** [Ipv4Addr::from_str]: four decimal octets of up to three digits, no leading zero *)
Definition parse_octet (s : text) : option Z :=
  if (blen s <=? 3) && forallb (λ c, (48 <=? c) && (c <=? 57)) s && ((blen s =? 1) || negb (bool_decide (head s = Some 48)))
  then match parse_uint u8_max s with Ok n => Some n | _ => None end else None.
Definition parse_ipv4 (s : text) : option Z :=
  match map parse_octet (split_on 46 [] s) with
  | [Some a; Some b; Some c; Some d] => Some (((a * 256 + b) * 256 + c) * 256 + d)
  | _ => None
  end.
(** Its [Display] *)
Definition show_ipv4 (ip : Z) : text :=
  to_string (ip / 16777216) ++ [46] ++ to_string (ip / 65536 mod 256) ++ [46] ++ to_string (ip / 256 mod 256) ++ [46] ++ to_string (ip mod 256).

(** Stable insertion sort, in place of [sort] and [sort_by_key] *)
Section Sorting.
Context {A : Type} (key : A → Z).
Fixpoint insert_by (x : A) (l : list A) : list A :=
  match l with
  | [] => [x]
  | y :: l' => if key x <=? key y then x :: l else y :: insert_by x l'
  end.
Definition sort_by_key (l : list A) : list A := foldr insert_by [] l.
End Sorting.

(** [tokio::sync::Semaphore::MAX_PERMITS]; [Semaphore::new] panics above it *)
Definition MAX_PERMITS : Z := u64_max / 8.

(** ** Ranges *)
Definition number {A} (r : res ParseIntError.t A) : res DiscoverError.t A :=
  match r with Ok a => Ok a | Err e => Err (DiscoverError.Integer e) | Panic => Panic | OutOfFuel => OutOfFuel end.
Definition parse_unit_id_range (range : text) : res DiscoverError.t (list Z) :=
  if contains MINUS range then
    let parts := splitn_2 MINUS range in
    let? first := idx parts 0 in
    let? start := number (parse_uint u8_max first) in
    let? second := idx parts 1 in
    let? end_ := number (parse_uint u8_max second) in
    if end_ <? start then Err (DiscoverError.ReversedUnitIds start end_) else
    Ok (seqZ start (end_ - start + 1))
  else
    let? id := number (parse_uint u8_max range) in
    Ok [id].

Definition validate_targets (config : DiscoverConfig.t) : res DiscoverError.t unit :=
  match DiscoverConfig.host config, DiscoverConfig.range config with
  | Some _, Some _ => Err DiscoverError.HostAndRange
  | None, None => Err DiscoverError.TargetRequired
  | _, _ => Ok tt
  end.
Definition validate_concurrency (concurrency : Z) : res DiscoverError.t unit :=
  if concurrency =? 0 then Err DiscoverError.ZeroConcurrency else Ok tt.
Definition new_semaphore (permits : Z) : res DiscoverError.t unit := if MAX_PERMITS <? permits then Panic else Ok tt.

(** What a client connected to a device may do within a time limit: [None] when the limit is reached first *)
Class Patience (D : Type) : Type := within : ∀ {A : Type}, ST D ClientError.t A → D → option (res ClientError.t A) * D.
(** The network during a scan: the addresses that accept a connection in time, and the
    connection a client for a unit gets, if it gets one in time *)
Module Network.
Record t (D : Type) : Type := mk { listening : SocketAddr.t → bool; dial : SocketAddr.t → Z → option D }.
Arguments mk {D}.
Arguments listening {D}.
Arguments dial {D}.
End Network.

Section Discover.
Context (parse_net : text → option (list Z)) (parse_ipv6 : text → option Z) (show_ipv6 : Z → text).
Context (json : list HostResult.t → text).

Definition parse_ip (s : text) : option IpAddr.t :=
  match parse_ipv4 s with Some ip => Some (IpAddr.V4 ip) | None => option_map IpAddr.V6 (parse_ipv6 s) end.
Definition show_address (a : SocketAddr.t) : text :=
  match SocketAddr.ip a with
  | IpAddr.V4 ip => show_ipv4 ip ++ chars ":" ++ to_string (SocketAddr.port a)
  | IpAddr.V6 ip => chars "[" ++ show_ipv6 ip ++ chars "]:" ++ to_string (SocketAddr.port a)
  end.

Definition expand_range (range : text) : res DiscoverError.t (list Z) :=
  if contains 47 range then ok_or (parse_net range) DiscoverError.Network
  else if contains MINUS range then
    let parts := splitn_2 MINUS range in
    if negb (blen parts =? 2) then Err (DiscoverError.InvalidRange range) else
    let? first := idx parts 0 in
    let? start := ok_or (parse_ipv4 first) DiscoverError.Address in
    let? second := idx parts 1 in
    let? end_ := ok_or (parse_ipv4 second) DiscoverError.Address in
    if end_ <? start then Err (DiscoverError.ReversedRange start end_) else
    Ok (seqZ start (end_ - start + 1))
  else
    let? ip := ok_or (parse_ipv4 range) DiscoverError.Address in
    Ok [ip].

(** ** Scanning *)
Context {D : Type} `{Connection D} `{Patience D} (net : Network.t D).

(** One task per address; those found are sorted, by address as the port is the same. *)
Definition ip_key (a : SocketAddr.t) : Z := match SocketAddr.ip a with IpAddr.V4 ip | IpAddr.V6 ip => ip end.
Definition sweep_hosts (ips : list Z) (port : Z) : list SocketAddr.t :=
  sort_by_key ip_key (List.filter (Network.listening net) (map (λ ip, SocketAddr.mk (IpAddr.V4 ip) port) ips)).

(** The task that probes one unit; one that panics counts as not found *)
Definition probe_unit (addr : SocketAddr.t) (uid : Z) : option DiscoveredDevice.t :=
  match Network.dial net addr uid with
  | None => None
  | Some client =>
      let '(probe, client) := within (read_holding_registers uid 0 1) client in
      let alive := match probe with Some (Ok _) | Some (Err (ClientError.Exception _)) => true | _ => false end in
      if negb alive then None else
      let '(dev_id, _) := within (read_device_identification uid) client in
      match dev_id with
      | Some Panic | Some OutOfFuel => None
      | _ =>
          let dev_id := match dev_id with Some (Ok d) => Some d | _ => None end in
          Some (DiscoveredDevice.mk uid
                  (dev_id ≫= OwnedDeviceIdentification.vendor_name)
                  (dev_id ≫= OwnedDeviceIdentification.product_code)
                  (dev_id ≫= OwnedDeviceIdentification.major_minor_revision))
      end
  end.
Definition probe_host (addr : SocketAddr.t) (unit_ids : list Z) : list DiscoveredDevice.t :=
  sort_by_key DiscoveredDevice.unit_id (omap (probe_unit addr) unit_ids).

Definition scan (config : DiscoverConfig.t) : res DiscoverError.t DiscoveryReport.t :=
  do? validate_targets config in
  do? validate_concurrency (DiscoverConfig.concurrency config) in
  let? unit_ids := parse_unit_id_range (DiscoverConfig.unit_id_range config) in
  do? new_semaphore (DiscoverConfig.concurrency config) in
  let? targets :=
    match DiscoverConfig.host config, DiscoverConfig.range config with
    | Some host, _ =>
        let? ip := ok_or (parse_ip host) DiscoverError.Address in
        Ok (1, [SocketAddr.mk ip (DiscoverConfig.port config)])
    | None, Some range =>
        let? ips := expand_range range in
        Ok (blen ips, sweep_hosts ips (DiscoverConfig.port config))
    | None, None => Err DiscoverError.TargetRequired
    end in
  let '(hosts_scanned, hosts) := targets in
  if is_empty hosts then Ok (DiscoveryReport.mk hosts_scanned []) else
  Ok (DiscoveryReport.mk hosts_scanned (map (λ addr, HostResult.mk (show_address addr) (probe_host addr unit_ids)) hosts)).

(** ** The report, as UTF-8 *)
Definition device_line (dev : DiscoveredDevice.t) : bytes :=
  let unit_ := chars "  Unit " ++ right_aligned 3 (to_string (DiscoveredDevice.unit_id dev)) in
  match DiscoveredDevice.vendor_name dev, DiscoveredDevice.product_code dev, DiscoveredDevice.revision dev with
  | Some vendor, Some product, Some rev => unit_ ++ chars ": [" ++ vendor ++ chars "] " ++ product ++ chars " rev " ++ rev ++ [10]
  | _, _, _ => unit_ ++ chars ": (no device identification)" ++ [10]
  end.
(** The loop over the hosts: the text so far and the devices counted *)
Fixpoint format_hosts (results : list HostResult.t) (output : bytes) (total_devices : Z) : bytes * Z :=
  match results with
  | [] => (output, total_devices)
  | result :: results =>
      let output := output ++ HostResult.address result ++ [10] in
      if is_empty (HostResult.devices result) then format_hosts results (output ++ chars "  No responding unit IDs" ++ [10]) total_devices
      else format_hosts results (output ++ concat (map device_line (HostResult.devices result))) (total_devices + blen (HostResult.devices result))
  end.
Definition format_human (report : DiscoveryReport.t) : bytes :=
  if is_empty (DiscoveryReport.results report) then
    chars "No hosts found with open Modbus port. Scanned " ++ to_string (DiscoveryReport.hosts_scanned report) ++ chars " hosts." ++ [10]
  else
    let '(output, total_devices) := format_hosts (DiscoveryReport.results report) [] 0 in
    output ++ [10] ++ chars "Scan complete: " ++ to_string (blen (DiscoveryReport.results report)) ++ chars " hosts, " ++ to_string total_devices ++ chars " devices" ++ [10].

(** What [run] prints *)
Definition run (config : DiscoverConfig.t) : res DiscoverError.t bytes :=
  let? report := scan config in
  Ok match DiscoverConfig.format config with
     | OutputFormat.Human => format_human report
     | OutputFormat.Json => json (DiscoveryReport.results report) ++ [10]
     end.
End Discover.

(** * Specifications *)

(** The unit IDs a range stands for: a number, or two with a dash between *)
Definition unit_range (s : text) (lo hi : Z) : Prop :=
  hi ≤ u8_max ∧ lo ≤ hi ∧
  ((∃ a b, s = a ++ MINUS :: b ∧ numeral 10 a lo ∧ numeral 10 b hi) ∨ (numeral 10 s lo ∧ hi = lo)).
Abbreviation is_ipv4 ip := (0 ≤ ip < 4294967296).
(** The addresses a range stands for, in dotted decimal; the networks are those of the parser. *)
Inductive address_range (parse_net : text → option (list Z)) : text → list Z → Prop :=
  | range_net s ips : 47 ∈ s → parse_net s = Some ips → address_range parse_net s ips
  | range_dash a b : is_ipv4 a → is_ipv4 b → a ≤ b →
      address_range parse_net (show_ipv4 a ++ MINUS :: show_ipv4 b) (seqZ a (b - a + 1))
  | range_one ip : is_ipv4 ip → address_range parse_net (show_ipv4 ip) [ip].

(** * Lemmas *)

Section SortLemmas.
Context {A : Type} (key : A → Z).
Lemma insert_by_perm x l : insert_by key x l ≡ₚ x :: l.
Proof. induction l as [|y l IH]; cbn; [done|]. case_match; [done|]. rewrite IH. constructor. Qed.
Lemma sort_by_key_perm l : sort_by_key key l ≡ₚ l.
Proof. induction l as [|x l IH]; cbn; [done|]. by rewrite insert_by_perm, IH. Qed.
Lemma insert_by_sorted x l : StronglySorted (λ a b, key a ≤ key b) l → StronglySorted (λ a b, key a ≤ key b) (insert_by key x l).
Proof.
  induction 1 as [|y l Hl IH Hy]; cbn; [repeat constructor|]. destruct (Z.leb_spec (key x) (key y)) as [Hle|Hlt].
  - constructor; [by constructor|]. constructor; [done|]. eapply Forall_impl; [exact Hy|]. cbn. lia.
  - constructor; [done|]. rewrite insert_by_perm. constructor; [lia|done].
Qed.
Lemma sort_by_key_sorted l : StronglySorted (λ a b, key a ≤ key b) (sort_by_key key l).
Proof. induction l as [|x l IH]; cbn; [constructor|]. by apply insert_by_sorted. Qed.
(** Distinct keys come out in strictly ascending order. *)
Lemma sort_by_key_strict l : NoDup (key <$> l) → StronglySorted (λ a b, key a < key b) (sort_by_key key l).
Proof.
  intros Hnd. rewrite <-sort_by_key_perm in Hnd. pose proof (sort_by_key_sorted l) as Hs. revert Hs Hnd.
  induction 1 as [|x s Hs IH Hx]; cbn; [constructor|]. intros [Hni Hnd]%NoDup_cons. constructor; [by apply IH|].
  rewrite Forall_forall in Hx |- *. intros y Hy. specialize (Hx y Hy). cut (key x ≠ key y); [lia|]. intros Heq. apply Hni. rewrite Heq. by apply list_elem_of_fmap_2.
Qed.
End SortLemmas.

Lemma number_Ok {A} (r : res ParseIntError.t A) a : number r = Ok a ↔ r = Ok a.
Proof. destruct r; naive_solver. Qed.
Lemma number_returns {A} (r : res ParseIntError.t A) : returns r → returns (number r).
Proof. by destruct r. Qed.
Lemma parse_u8_numeral s n : parse_uint u8_max s = Ok n ↔ numeral 10 s n ∧ n ≤ u8_max.
Proof. apply from_str_radix_Ok; [lia|done]. Qed.
Lemma parse_u8_ends s : returns (number (parse_uint u8_max s)).
Proof. apply number_returns, from_str_radix_returns; [lia|done]. Qed.
(** A numeral has no minus sign. *)
Lemma numeral_no_minus s n : numeral 10 s n → MINUS ∉ s.
Proof.
  intros (body & ds & Hs & _ & Hds & _). assert (MINUS ∉ body) as Hb.
  { clear -Hds. induction Hds as [|c d body ds Hd _ IH]; [set_solver|]. apply not_elem_of_cons. split; [|done]. by intros <-. }
  destruct Hs as [->| ->]; [done|]. by apply not_elem_of_cons.
Qed.
Lemma splitn_2_minus a b : MINUS ∉ a → splitn_2 MINUS (a ++ MINUS :: b) = [a; b].
Proof. intros Ha. unfold splitn_2. by rewrite split_once_first. Qed.
Lemma splitn_2_contains c s : contains c s = true → ∃ a b, s = a ++ c :: b ∧ (c ∉ a) ∧ splitn_2 c s = [a; b].
Proof.
  intros Hc%contains_elem. unfold splitn_2. destruct (split_once c s) as [[a b]|] eqn:Hs.
  - apply split_once_Some in Hs as [-> Ha]. eauto.
  - by apply split_once_None in Hs.
Qed.
Lemma not_contains c s : contains c s = false ↔ c ∉ s.
Proof. rewrite <-contains_elem. by destruct (contains c s). Qed.

Lemma parse_unit_id_range_exact s ids :
  parse_unit_id_range s = Ok ids ↔ ∃ lo hi, unit_range s lo hi ∧ ids = seqZ lo (hi - lo + 1).
Proof.
  unfold parse_unit_id_range. destruct (contains MINUS s) eqn:Hc.
  - destruct (splitn_2_contains _ _ Hc) as (a & b & -> & Ha & ->).
    change (idx [a; b] 0) with (@Ok DiscoverError.t _ a). change (idx [a; b] 1) with (@Ok DiscoverError.t _ b). cbn [rbind]. split.
    + intros (lo & Hlo%number_Ok%parse_u8_numeral & (hi & Hhi%number_Ok%parse_u8_numeral & H)%rbind_Ok)%rbind_Ok.
      destruct (Z.ltb_spec hi lo); [done|]. injection H as <-. exists lo, hi. split; [|done]. destruct Hlo, Hhi. split_and!; [done..|]. left. eauto.
    + intros (lo & hi & (Hhi & Hle & [(a' & b' & Heq & Hna & Hnb)|[Hn _]]) & ->).
      * pose proof (numeral_no_minus _ _ Hna). assert (a' = a ∧ b' = b) as [-> ->].
        { pose proof (split_once_first MINUS a b Ha) as H1. rewrite Heq, split_once_first in H1 by done. by injection H1 as -> ->. }
        rewrite (proj2 (parse_u8_numeral a lo)) by (split; [done|lia]). cbn [number rbind].
        rewrite (proj2 (parse_u8_numeral b hi)) by done. cbn [number rbind]. by rewrite (proj2 (Z.ltb_ge hi lo)).
      * apply numeral_no_minus in Hn. set_solver.
  - apply not_contains in Hc. rewrite rbind_Ok. setoid_rewrite number_Ok. setoid_rewrite parse_u8_numeral. split.
    + intros (n & [Hn Hle] & [= <-]). exists n, n. split; [|by rewrite Z.sub_diag]. split_and!; [done..|]. by right.
    + intros (lo & hi & (Hhi & Hle & [(a & b & -> & _)|[Hn ->]]) & ->); [set_solver|]. exists lo. split; [done|]. by rewrite Z.sub_diag.
Qed.
Lemma parse_unit_id_range_returns s : returns (parse_unit_id_range s).
Proof.
  unfold parse_unit_id_range. destruct (contains MINUS s) eqn:Hc.
  - destruct (splitn_2_contains _ _ Hc) as (a & b & -> & Ha & ->).
    change (idx [a; b] 0) with (@Ok DiscoverError.t _ a). change (idx [a; b] 1) with (@Ok DiscoverError.t _ b). cbn [rbind].
    do 2 (apply rbind_returns; [apply parse_u8_ends|intros ? _]). by case_match.
  - apply rbind_returns; [apply parse_u8_ends|done].
Qed.

(** ** Dotted decimal *)
Section Ipv4.

Lemma forallb_seqZ (P : Z → bool) lo n : forallb P (seqZ lo n) = true → ∀ i, lo ≤ i < lo + n → P i = true.
Proof. intros H i Hi. rewrite forallb_forall in H. apply H. apply list_elem_of_In. by apply elem_of_seqZ. Qed.
(** Checked for each of the 256 octets *)
Lemma parse_octet_to_string n : is_u8 n → parse_octet (to_string n) = Some n.
Proof.
  intros Hn. assert (forallb (λ n, bool_decide (parse_octet (to_string n) = Some n)) (seqZ 0 256) = true) as Hall by (vm_compute; reflexivity).
  pose proof (forallb_seqZ _ _ _ Hall n ltac:(lia)) as Hp. by apply bool_decide_eq_true in Hp.
Qed.
(** and for each string of up to three digits *)
Definition octet_spelling (s : text) : bool := match parse_octet s with Some n => bool_decide (s = to_string n) | None => true end.
Lemma octet_spellings s : parse_octet s ≠ None → octet_spelling s = true.
Proof.
  unfold parse_octet at 1. destruct (_ && _) eqn:Hb; [|done]. intros _. apply andb_prop in Hb as [[Hlen Hd]%andb_prop _].
  assert (∀ c, (48 <=? c) && (c <=? 57) = true → 48 ≤ c < 48 + 10) as Hdigit by lia.
  destruct s as [|c [|d [|e [|x s]]]]; cbn [forallb] in Hd; [done|..|unfold blen in Hlen; cbn [length] in Hlen; lia];
    repeat match goal with H : (_ && _) && _ = true |- _ => apply andb_prop in H as [?%Hdigit H] end.
  - by apply (forallb_seqZ (λ c, octet_spelling [c]) 48 10); [vm_compute|].
  - apply (forallb_seqZ (λ d, octet_spelling [c; d]) 48 10); [|done].
    by apply (forallb_seqZ (λ c, forallb (λ d, octet_spelling [c; d]) (seqZ 48 10)) 48 10); [vm_compute|].
  - apply (forallb_seqZ (λ e, octet_spelling [c; d; e]) 48 10); [|done].
    apply (forallb_seqZ (λ d, forallb (λ e, octet_spelling [c; d; e]) (seqZ 48 10)) 48 10); [|done].
    by apply (forallb_seqZ (λ c, forallb (λ d, forallb (λ e, octet_spelling [c; d; e]) (seqZ 48 10)) (seqZ 48 10)) 48 10); [vm_compute|].
Qed.
Lemma parse_octet_Some s n : parse_octet s = Some n ↔ is_u8 n ∧ s = to_string n.
Proof.
  split; [|intros [Hn ->]; by apply parse_octet_to_string]. intros Hs. assert (octet_spelling s = true) as Ho by (apply octet_spellings; congruence).
  unfold octet_spelling in Ho. rewrite Hs in Ho. apply bool_decide_eq_true in Ho. split; [|done].
  unfold parse_octet in Hs. destruct (_ && _); [|done]. destruct (parse_uint u8_max s) as [m|?| |] eqn:Hp; try done. injection Hs as ->.
  apply parse_u8_numeral in Hp as [(body & ds & _ & _ & Hds & ->) Hle]. apply positional_nonneg in Hds; [|lia]. unfold u8_max in Hle. lia.
Qed.
Lemma to_string_digits n : 0 ≤ n < 10 ^ 20 → Forall (λ c, 48 ≤ c ≤ 57) (to_string n).
Proof.
  intros Hn. destruct (to_digits_digits 10 ltac:(lia) 20 n Hn) as (ds & Hds & _). fold (to_string n) in Hds.
  induction Hds as [|c d s ds Hd _ IH]; constructor; [|done]. unfold to_digit in Hd. repeat case_match; simplify_eq; lia.
Qed.
Lemma octet_no c n : is_u8 n → ¬ 48 ≤ c ≤ 57 → c ∉ to_string n.
Proof. intros Hn Hc Hin. pose proof (to_string_digits n ltac:(lia)) as Hd. rewrite Forall_forall in Hd. by apply Hc, Hd. Qed.

Lemma split_on_first c w a s : c ∉ a → split_on c w (a ++ c :: s) = (w ++ a) :: split_on c [] s.
Proof.
  revert w. induction a as [|x a IH]; intros w; cbn; [by rewrite Z.eqb_refl, app_nil_r|].
  intros [Hx Ha]%not_elem_of_cons. rewrite (proj2 (Z.eqb_neq x c)) by congruence. by rewrite IH, <-app_assoc.
Qed.
Lemma split_on_last c w a : c ∉ a → split_on c w a = [w ++ a].
Proof.
  revert w. induction a as [|x a IH]; intros w; cbn; [by rewrite app_nil_r|].
  intros [Hx Ha]%not_elem_of_cons. rewrite (proj2 (Z.eqb_neq x c)) by congruence. by rewrite IH, <-app_assoc.
Qed.
Lemma join_split_on c w s : join [c] (split_on c w s) = w ++ s.
Proof.
  revert w. induction s as [|x s IH]; intros w; cbn [split_on]; [cbn; by rewrite app_nil_r|]. destruct (Z.eqb_spec x c) as [->|Hx].
  - specialize (IH []). destruct (split_on c [] s) as [|y l] eqn:Hs; [destruct s; cbn in Hs; by repeat case_match|].
    change (join [c] (w :: y :: l)) with (w ++ [c] ++ join [c] (y :: l)). by rewrite IH.
  - rewrite IH. by rewrite <-app_assoc.
Qed.

Lemma ipv4_octets a b c d : is_u8 a → is_u8 b → is_u8 c → is_u8 d → let ip := ((a * 256 + b) * 256 + c) * 256 + d in
  is_ipv4 ip ∧ ip / 16777216 = a ∧ ip / 65536 mod 256 = b ∧ ip / 256 mod 256 = c ∧ ip mod 256 = d.
Proof. intros. unfold ip. split; [lia|]. split_and!; Z.to_euclidean_division_equations; lia. Qed.
(** An address has one spelling, the one it is printed with. *)
Lemma parse_ipv4_Some s ip : parse_ipv4 s = Some ip ↔ is_ipv4 ip ∧ s = show_ipv4 ip.
Proof.
  unfold parse_ipv4. split.
  - pose proof (join_split_on 46 [] s) as Hj. change ([] ++ s) with s in Hj. destruct (split_on 46 [] s) as [|w1 [|w2 [|w3 [|w4 [|w5 l]]]]]; cbn [map]; try done; repeat case_match; try done.
    intros [= <-]. repeat match goal with H : parse_octet _ = Some _ |- _ => apply parse_octet_Some in H as [? ->] end.
    match goal with H1 : _ |- is_ipv4 (((?a * 256 + ?b) * 256 + ?c) * 256 + ?d) ∧ _ => destruct (ipv4_octets a b c d) as (Hip & Ha & Hb & Hc & Hd); try done end.
    split; [done|]. unfold show_ipv4. rewrite Ha, Hb, Hc, Hd. rewrite <-Hj. cbn [join app]. by rewrite <-?app_assoc.
  - intros [Hip ->]. unfold show_ipv4.
    assert (is_u8 (ip / 16777216) ∧ is_u8 (ip / 65536 mod 256) ∧ is_u8 (ip / 256 mod 256) ∧ is_u8 (ip mod 256)) as (Ha & Hb & Hc & Hd)
      by (split_and!; Z.to_euclidean_division_equations; lia).
    assert (∀ n, is_u8 n → 46 ∉ to_string n) as Hdot by (intros; apply octet_no; lia).
    cbn [app]. rewrite 3!split_on_first, split_on_last by auto. cbn [app map]. rewrite !parse_octet_to_string by done. f_equal. Z.to_euclidean_division_equations; lia.
Qed.
Lemma show_ipv4_no c ip : is_ipv4 ip → c < 46 ∨ 57 < c ∨ c = 47 → c ∉ show_ipv4 ip.
Proof.
  intros Hip Hc. unfold show_ipv4. rewrite !not_elem_of_app, !list_elem_of_singleton.
  split_and!; try lia; apply octet_no; try lia; Z.to_euclidean_division_equations; lia.
Qed.
End Ipv4.

Section Scan.
Context (parse_net : text → option (list Z)) (parse_ipv6 : text → option Z) (show_ipv6 : Z → text).

Lemma expand_range_exact s ips : expand_range parse_net s = Ok ips ↔ address_range parse_net s ips.
Proof.
  unfold expand_range. split.
  - destruct (contains 47 s) eqn:Hn; [intros Hp%ok_or_Ok; apply contains_elem in Hn; by constructor|].
    destruct (contains MINUS s) eqn:Hm.
    + destruct (splitn_2_contains _ _ Hm) as (a & b & -> & _ & ->). change (negb (blen [a; b] =? 2)) with false.
      change (idx [a; b] 0) with (@Ok DiscoverError.t _ a). change (idx [a; b] 1) with (@Ok DiscoverError.t _ b). cbn [rbind].
      intros (x & [Hx ->]%ok_or_Ok%parse_ipv4_Some & (y & [Hy ->]%ok_or_Ok%parse_ipv4_Some & H)%rbind_Ok)%rbind_Ok.
      destruct (Z.ltb_spec y x); [done|]. injection H as <-. by constructor.
    + intros (ip & [Hip ->]%ok_or_Ok%parse_ipv4_Some & [= <-])%rbind_Ok. by constructor.
  - destruct 1 as [s ips Hs Hp|a b Ha Hb Hle|ip Hip].
    + apply contains_elem in Hs. rewrite Hs. by apply ok_or_Ok.
    + pose proof (show_ipv4_no MINUS a Ha ltac:(unfold MINUS; lia)) as Hna. assert (contains 47 (show_ipv4 a ++ MINUS :: show_ipv4 b) = false) as ->.
      { apply not_contains. rewrite not_elem_of_app, not_elem_of_cons. split_and!; [apply show_ipv4_no; lia|done|apply show_ipv4_no; lia]. }
      assert (contains MINUS (show_ipv4 a ++ MINUS :: show_ipv4 b) = true) as -> by (apply contains_elem, elem_of_app; right; constructor).
      rewrite splitn_2_minus by done. change (negb (blen [show_ipv4 a; show_ipv4 b] =? 2)) with false.
      change (idx [show_ipv4 a; show_ipv4 b] 0) with (@Ok DiscoverError.t _ (show_ipv4 a)). change (idx [show_ipv4 a; show_ipv4 b] 1) with (@Ok DiscoverError.t _ (show_ipv4 b)).
      cbn [rbind]. rewrite (proj2 (parse_ipv4_Some (show_ipv4 a) a)), (proj2 (parse_ipv4_Some (show_ipv4 b) b)) by done. cbn [ok_or rbind].
      by rewrite (proj2 (Z.ltb_ge b a)).
    + rewrite (proj2 (not_contains 47 _)), (proj2 (not_contains MINUS _)) by (apply show_ipv4_no; unfold MINUS; lia).
      by rewrite (proj2 (parse_ipv4_Some (show_ipv4 ip) ip)).
Qed.
Lemma expand_range_returns s : returns (expand_range parse_net s).
Proof.
  unfold expand_range. destruct (contains 47 s); [apply ok_or_returns|]. destruct (contains MINUS s) eqn:Hm.
  - destruct (splitn_2_contains _ _ Hm) as (a & b & -> & _ & ->). change (negb (blen [a; b] =? 2)) with false.
    change (idx [a; b] 0) with (@Ok DiscoverError.t _ a). change (idx [a; b] 1) with (@Ok DiscoverError.t _ b). cbn [rbind].
    do 2 (apply rbind_returns; [apply ok_or_returns|intros ? _]). by case_match.
  - apply rbind_returns; [apply ok_or_returns|done].
Qed.

Context {D : Type} `{Connection D} `{Patience D} (net : Network.t D).

(** The targets of a scan: how many were considered, and those that are probed *)
Inductive scan_targets (config : DiscoverConfig.t) : Z → list SocketAddr.t → Prop :=
  | target_host host ip : DiscoverConfig.host config = Some host → DiscoverConfig.range config = None → parse_ip parse_ipv6 host = Some ip →
      scan_targets config 1 [SocketAddr.mk ip (DiscoverConfig.port config)]
  | target_range range ips hosts : DiscoverConfig.host config = None → DiscoverConfig.range config = Some range → address_range parse_net range ips →
      hosts ≡ₚ List.filter (Network.listening net) (map (λ ip, SocketAddr.mk (IpAddr.V4 ip) (DiscoverConfig.port config)) ips) →
      StronglySorted (λ a b, ip_key a ≤ ip_key b) hosts →
      scan_targets config (blen ips) hosts.
(** A unit answers when a connection to it is made and, in time, reading its first holding register
    gives a value or a Modbus exception; [w] is the client afterwards. *)
Inductive answered (addr : SocketAddr.t) (uid : Z) : D → Prop :=
  | answered_value client w values : Network.dial net addr uid = Some client →
      within (read_holding_registers uid 0 1) client = (Some (Ok values), w) → answered addr uid w
  | answered_exception client w e : Network.dial net addr uid = Some client →
      within (read_holding_registers uid 0 1) client = (Some (Err (ClientError.Exception e)), w) → answered addr uid w.
(** The identification it then gives, or none if asking for it fails or takes too long *)
Inductive identified (uid : Z) (w : D) : option OwnedDeviceIdentification.t → Prop :=
  | identified_as d w' : within (read_device_identification uid) w = (Some (Ok d), w') → identified uid w (Some d)
  | identified_error e w' : within (read_device_identification uid) w = (Some (Err e), w') → identified uid w None
  | identified_late w' : within (read_device_identification uid) w = (None, w') → identified uid w None.
Definition responds (addr : SocketAddr.t) (d : DiscoveredDevice.t) : Prop :=
  ∃ w id, answered addr (DiscoveredDevice.unit_id d) w ∧ identified (DiscoveredDevice.unit_id d) w id ∧
    DiscoveredDevice.vendor_name d = id ≫= OwnedDeviceIdentification.vendor_name ∧
    DiscoveredDevice.product_code d = id ≫= OwnedDeviceIdentification.product_code ∧
    DiscoveredDevice.revision d = id ≫= OwnedDeviceIdentification.major_minor_revision.
(** What the report says of a host: every unit in the range that answers, in order *)
Record host_report (lo hi : Z) (addr : SocketAddr.t) (r : HostResult.t) : Prop := {
  report_address : HostResult.address r = show_address show_ipv6 addr;
  report_sorted : StronglySorted (λ a b, DiscoveredDevice.unit_id a < DiscoveredDevice.unit_id b) (HostResult.devices r);
  report_devices d : d ∈ HostResult.devices r ↔
    lo ≤ DiscoveredDevice.unit_id d ≤ hi ∧ responds addr d;
}.

Lemma probe_unit_id addr uid d : probe_unit net addr uid = Some d → DiscoveredDevice.unit_id d = uid.
Proof. unfold probe_unit. intros Hp. repeat case_match; by simplify_eq. Qed.
Lemma probe_unit_exact addr d : probe_unit net addr (DiscoveredDevice.unit_id d) = Some d ↔ responds addr d.
Proof.
  unfold probe_unit, responds. split.
  - destruct (Network.dial _ _ _) as [client|] eqn:Hdial; [|done]. destruct (within (read_holding_registers _ 0 1) client) as [probe w] eqn:Hprobe.
    destruct (match probe with Some (Ok _) | Some (Err (ClientError.Exception _)) => true | _ => false end) eqn:Halive; [|done]. cbn [negb].
    destruct (within (read_device_identification _) w) as [id w'] eqn:Hid. intros Hd. exists w, (match id with Some (Ok i) => Some i | _ => None end). split.
    + destruct probe as [[v|[]| |]|]; try done; [by eapply answered_value|by eapply answered_exception].
    + destruct id as [[i|e| |]|]; try done; injection Hd as Hd; rewrite <-Hd;
        (split; [first [by eapply identified_as|by eapply identified_error|by eapply identified_late]|done]).
  - intros (w & id & Ha & Hi & Hv & Hp & Hr). destruct d as [uid v p rev]. cbn [DiscoveredDevice.unit_id DiscoveredDevice.vendor_name DiscoveredDevice.product_code DiscoveredDevice.revision] in *. subst.
    destruct Ha as [client w values -> -> | client w e -> ->]; cbn [negb]; by destruct Hi as [? ? ->|? ? ->|? ->].
Qed.
Lemma probe_host_report lo hi addr :
  host_report lo hi addr (HostResult.mk (show_address show_ipv6 addr) (probe_host net addr (seqZ lo (hi - lo + 1)))).
Proof.
  split; [done|..]; cbn [HostResult.devices]; unfold probe_host.
  - apply sort_by_key_strict. generalize (NoDup_seqZ lo (hi - lo + 1)). induction (seqZ lo (hi - lo + 1)) as [|u l IH]; [constructor|].
    intros [Hu Hl]%NoDup_cons. cbn. destruct (probe_unit net addr u) as [d|] eqn:Hd; [|by apply IH]. cbn. apply NoDup_cons. split; [|by apply IH].
    rewrite (probe_unit_id _ _ _ Hd). intros (d' & -> & (u' & Hu' & Hd')%list_elem_of_omap)%list_elem_of_fmap.
    by rewrite (probe_unit_id _ _ _ Hd') in Hu.
  - intros d. rewrite (sort_by_key_perm DiscoveredDevice.unit_id), list_elem_of_omap. setoid_rewrite elem_of_seqZ. rewrite <-probe_unit_exact. split.
    + intros (u & Hu & Hd). rewrite (probe_unit_id _ _ _ Hd). split; [lia|done].
    + intros [Hr Hd]. eexists. split; [|done]. lia.
Qed.

(** The targets as the code computes them *)
Definition computed_targets (config : DiscoverConfig.t) : res DiscoverError.t (Z * list SocketAddr.t) :=
  match DiscoverConfig.host config, DiscoverConfig.range config with
  | Some host, _ => let? ip := ok_or (parse_ip parse_ipv6 host) DiscoverError.Address in Ok (1, [SocketAddr.mk ip (DiscoverConfig.port config)])
  | None, Some range => let? ips := expand_range parse_net range in Ok (blen ips, sweep_hosts net ips (DiscoverConfig.port config))
  | None, None => Err DiscoverError.TargetRequired
  end.
Lemma scan_eq config : DiscoverConfig.concurrency config ≤ MAX_PERMITS →
  scan parse_net parse_ipv6 show_ipv6 net config =
  do? validate_targets config in
  do? validate_concurrency (DiscoverConfig.concurrency config) in
  let? unit_ids := parse_unit_id_range (DiscoverConfig.unit_id_range config) in
  let? targets := computed_targets config in
  Ok (DiscoveryReport.mk targets.1 (map (λ addr, HostResult.mk (show_address show_ipv6 addr) (probe_host net addr unit_ids)) targets.2)).
Proof.
  intros Hc. unfold scan, new_semaphore. rewrite (proj2 (Z.ltb_ge MAX_PERMITS _)) by done. cbn [rbind].
  destruct (validate_targets config) as [[]|?| |]; [|done..]. destruct (validate_concurrency _) as [[]|?| |]; [|done..]. cbn [rbind].
  destruct (parse_unit_id_range _) as [ids|?| |]; [|done..]. cbn [rbind]. unfold computed_targets.
  destruct (match DiscoverConfig.host config with Some _ => _ | None => _ end) as [[n hosts]|?| |]; [|done..]. cbn [rbind fst snd]. by destruct hosts.
Qed.
Lemma computed_targets_Ok config n hosts : validate_targets config = Ok tt → computed_targets config = Ok (n, hosts) → scan_targets config n hosts.
Proof.
  unfold validate_targets, computed_targets. intros Hv Ht. destruct (DiscoverConfig.host config) as [host|] eqn:Hh, (DiscoverConfig.range config) as [range|] eqn:Hr; try done.
  - apply rbind_Ok in Ht as (ip & Hip%ok_or_Ok & [= <- <-]). by econstructor.
  - apply rbind_Ok in Ht as (ips & Hip%expand_range_exact & [= <- <-]). econstructor; [done..|apply sort_by_key_perm|apply sort_by_key_sorted].
Qed.
Lemma scan_targets_computed config n hosts : scan_targets config n hosts → validate_targets config = Ok tt ∧ ∃ t, computed_targets config = Ok t.
Proof.
  unfold validate_targets, computed_targets. destruct 1 as [host ip -> -> Hip|range ips hosts -> -> Hr%expand_range_exact _ _].
  - rewrite Hip. by eauto.
  - rewrite Hr. by eauto.
Qed.
Lemma computed_targets_returns config : returns (computed_targets config).
Proof. unfold computed_targets. repeat case_match; try done; apply rbind_returns; try done; [apply ok_or_returns|apply expand_range_returns]. Qed.

(** A scan whose arguments make sense *)
Definition sensible (config : DiscoverConfig.t) (lo hi n : Z) (hosts : list SocketAddr.t) : Prop :=
  DiscoverConfig.concurrency config ≠ 0 ∧ unit_range (DiscoverConfig.unit_id_range config) lo hi ∧ scan_targets config n hosts.
Lemma scan_spec config : DiscoverConfig.concurrency config ≤ MAX_PERMITS →
  let r := scan parse_net parse_ipv6 show_ipv6 net config in
  returns r ∧ ((∃ report, r = Ok report) ↔ ∃ lo hi n hosts, sensible config lo hi n hosts) ∧
  ∀ report, r = Ok report → ∃ lo hi hosts, sensible config lo hi (DiscoveryReport.hosts_scanned report) hosts ∧
    Forall2 (host_report lo hi) hosts (DiscoveryReport.results report).
Proof.
  intros Hc r. unfold r. rewrite scan_eq by done.
  assert (∀ report, rbind (validate_targets config) (λ _, rbind (validate_concurrency (DiscoverConfig.concurrency config)) (λ _, 
    rbind (parse_unit_id_range (DiscoverConfig.unit_id_range config)) (λ ids, rbind (computed_targets config) (λ targets,
    Ok (DiscoveryReport.mk targets.1 (map (λ addr, HostResult.mk (show_address show_ipv6 addr) (probe_host net addr ids)) targets.2)))))) = Ok report →
    ∃ lo hi hosts, sensible config lo hi (DiscoveryReport.hosts_scanned report) hosts ∧ Forall2 (host_report lo hi) hosts (DiscoveryReport.results report)) as Hok.
  { intros report ([] & Hv & ([] & Hz & (ids & Hids%parse_unit_id_range_exact & ([n hosts] & Ht & [= <-])%rbind_Ok)%rbind_Ok)%rbind_Ok)%rbind_Ok.
    destruct Hids as (lo & hi & Hr & ->). exists lo, hi, hosts. cbn. split; [split_and!; [|done|by apply computed_targets_Ok]|].
    - unfold validate_concurrency in Hz. by destruct (Z.eqb_spec (DiscoverConfig.concurrency config) 0).
    - clear Ht. induction hosts; constructor; [apply probe_host_report|done]. }
  split; [|split; [split|exact Hok]].
  - apply rbind_returns; [by unfold validate_targets; repeat case_match|intros _ _].
    apply rbind_returns; [by unfold validate_concurrency; case_match|intros _ _].
    apply rbind_returns; [apply parse_unit_id_range_returns|intros ? _]. apply rbind_returns; [apply computed_targets_returns|done].
  - intros [report Hr]. destruct (Hok report Hr) as (lo & hi & hosts & Hs & _). eauto.
  - intros (lo & hi & n & hosts & Hz & Hr & Ht). destruct (scan_targets_computed _ _ _ Ht) as [-> [t ->]].
    unfold validate_concurrency. rewrite (proj2 (Z.eqb_neq _ 0)) by done. cbn [rbind].
    rewrite (proj2 (parse_unit_id_range_exact _ (seqZ lo (hi - lo + 1)))) by eauto. cbn [rbind]. eauto.
Qed.
End Scan.

(** ** A server is found *)
(** No time limit is reached. *)
Definition unhurried_patience {D} : Patience D := λ A m w, let '(r, w') := m w in (Some r, w').
Section Found.
Context (unit_id : Z) (dev : DeviceIdentification.t) (Hdev : device_ok dev) (last : Z).
Context (config : ClientConfig.t) (Hconfig : config_ok config) (Htime : 1 ≤ ClientConfig.timeout config).
Local Instance found_connection : Connection (Loop.t InMemoryStore.t) := @client_connection _ (@loop_runtime _ (server_peer unit_id dev) last) config.
Local Instance found_patience : Patience (Loop.t InMemoryStore.t) := unhurried_patience.

(** What the report says of the server *)
Definition discovered (uid : Z) : DiscoveredDevice.t :=
  let names := match identification_spec dev with Ok d => Some d | _ => None end in
  DiscoveredDevice.mk uid (names ≫= OwnedDeviceIdentification.vendor_name) (names ≫= OwnedDeviceIdentification.product_code)
    (names ≫= OwnedDeviceIdentification.major_minor_revision).
Lemma probe_server net addr uid w : answering unit_id uid → Network.dial net addr uid = Some w → loop_ok store_ok last w →
  probe_unit net addr uid = Some (discovered uid).
Proof using Hdev Hconfig Htime.
  intros Hu Hdial Hw. unfold probe_unit. rewrite Hdial. unfold within, found_patience, unhurried_patience.
  destruct (@remote_call _ store_ok (answering unit_id) _ (server_peer_laws unit_id dev Hdev) last config Hconfig Htime _ uid (Call.ReadHoldingRegisters 0 1) w Hw)
    as (r & w1 & Heq & Hw1 & _ & Hend); [by cbn; lia|by left|]. change (perform uid (Call.ReadHoldingRegisters 0 1)) with (read_holding_registers uid 0 1) in Heq.
  change (@client_connection _ _ config) with found_connection in Heq. rewrite Heq.
  assert (match Some r with Some (Ok _) | Some (Err (ClientError.Exception _)) => true | _ => false end = true) as Halive.
  { destruct Hu as (_ & Hbc & _). destruct Hend as [Hb|e Hv|? Hb|? ? _ _ _|ec _ _ _]; try done; try congruence.
    destruct Hv. split; [|done]. split; vm_compute; repeat split; discriminate. }
  rewrite Halive. cbn [negb].
  destruct (identification_served unit_id dev Hdev last config Hconfig Htime uid w1 Hw1 Hu) as (w2 & Hid & _).
  change (read_device_identification uid w1) with (@read_device_identification _ found_connection uid w1) in Hid. rewrite Hid. unfold discovered, identification_spec.
  by destruct (existsb too_long _).
Qed.
End Found.

(** * Theorems *)


(** The server of [idle_loop] at one address, with a unit that answers *)
Definition one_server : Network.t (Loop.t InMemoryStore.t) := Network.mk (λ _, true) (λ _ uid, if uid =? 1 then Some idle_loop else None).
Definition local_scan : DiscoverConfig.t :=
  DiscoverConfig.mk (Some (chars "127.0.0.1-127.0.0.2")) None 502 (chars "1-3") 1 4 OutputFormat.Human.

(** A client that is reported answers with the identification of its server. *)
Theorem server_reported (unit_id : Z) (dev : DeviceIdentification.t) (last : Z) (config : ClientConfig.t) (show_ipv6 : Z → text)
    (net : Network.t (Loop.t InMemoryStore.t)) (lo hi uid : Z) (addr : SocketAddr.t) (r : HostResult.t) (w : Loop.t InMemoryStore.t) :
  device_ok dev → config_ok config → 1 ≤ ClientConfig.timeout config →
  @host_report show_ipv6 _ (found_connection unit_id dev last config) found_patience net lo hi addr r →
  lo ≤ uid ≤ hi → answering unit_id uid → Network.dial net addr uid = Some w → loop_ok store_ok last w →
  discovered dev uid ∈ HostResult.devices r.
Proof.
  intros Hdev Hc Ht Hr Huid Hu Hdial Hw. apply (report_devices _ _ _ _ _ _ Hr). split; [done|]. apply probe_unit_exact.
  by apply (probe_server unit_id dev Hdev last config Hc Ht net addr uid w).
Qed.

(** The check of the concurrency lets through numbers the semaphore refuses with a panic. *)
Theorem concurrency_panics (parse_net : text → option (list Z)) (parse_ipv6 : text → option Z) (show_ipv6 : Z → text)
    (D : Type) `{Connection D} `{Patience D} (net : Network.t D) :
  scan parse_net parse_ipv6 show_ipv6 net (DiscoverConfig.mk None (Some (chars "127.0.0.1")) 502 (chars "1-247") 2 u64_max OutputFormat.Human) = Panic.
Proof. reflexivity. Qed.
