(* ===== verification/Listener.v ===== *)
(** * The TCP listener (crates/rusty-modbus-tcp: src/listener.rs and src/config.rs)

    Admission of sockets: the access rules, the reservation of a place in one atomic counter
    that every acceptor and every connection of the process shares, and the guards that
    give the place back. The calls of [accept_socket] and the connections they return are
    tasks whose atomic accesses interleave freely, with the spurious failures that
    [compare_exchange_weak] allows. *)
From stdpp Require Import strings.
From S2P Require Import Prelude Text Bits ServerTasks Discover.
#[local] Open Scope Z_scope.

(** ** config.rs *)
#[global] Instance ip_addr_eq_dec : EqDecision IpAddr.t.
Proof. solve_decision. Defined.
Module AccessMode.
Inductive t : Type := Allow | Deny.
#[global] Instance eq_dec : EqDecision t.
Proof. solve_decision. Defined.
End AccessMode.
Module AccessControl.
Record t : Type := mk { default_mode : AccessMode.t; rules : list (IpAddr.t * AccessMode.t) }.
Fixpoint first_rule (rules : list (IpAddr.t * AccessMode.t)) (ip : IpAddr.t) : option AccessMode.t :=
  match rules with
  | [] => None
  | (rule_ip, mode) :: rules => if bool_decide (rule_ip = ip) then Some mode else first_rule rules ip
  end.
Definition is_allowed (self : t) (ip : IpAddr.t) : bool :=
  match first_rule (rules self) ip with
  | Some mode => bool_decide (mode = AccessMode.Allow)
  | None => bool_decide (default_mode self = AccessMode.Allow)
  end.
End AccessControl.
(** Durations are nanoseconds. *)
Module TcpConfig.
Record t : Type := mk {
  connect_timeout : Z; read_timeout : option Z; write_timeout : option Z; tcp_nodelay : bool; keepalive : option Z; port : Z
}.
Definition default : t := mk 5000000000 (Some 30000000000) (Some 30000000000) true (Some 60000000000) 502.
End TcpConfig.
Module TcpServerConfig.
Record t : Type := mk { tcp : TcpConfig.t; max_connections : Z; access_control : option AccessControl.t }.
Definition default : t := mk TcpConfig.default 64 None.
End TcpServerConfig.

(** ** Counters *)
Definition increment_saturating (counter : Z) : Z := Z.min (counter + 1) usize_max.
(** [fetch_sub(1)] *)
Definition fetch_decrement (counter : Z) : Z := (counter - 1) mod (usize_max + 1).
Module TcpServerMetrics.
Record t : Type := mk {
  active_connections : Z; accepted_connections : Z; access_denied_connections : Z; connection_limit_rejections : Z
}.
Definition new : t := mk 0 0 0 0.
Definition set_active (n : Z) (self : t) : t := let '(mk _ a d l) := self in mk n a d l.
Definition record_accepted (self : t) : t := let '(mk n a d l) := self in mk n (increment_saturating a) d l.
Definition record_access_denied (self : t) : t := let '(mk n a d l) := self in mk n a (increment_saturating d) l.
Definition record_limit_rejection (self : t) : t := let '(mk n a d l) := self in mk n a d (increment_saturating l).
(** The effect of a call no other task disturbs; [true] is the guard *)
Definition reserve_connection (maximum : Z) (self : t) : bool * t :=
  if maximum <=? active_connections self then (false, record_limit_rejection self)
  else (true, set_active (active_connections self + 1) self).
(** [ConnectionGuard::drop] *)
Definition release_connection (self : t) : t := set_active (fetch_decrement (active_connections self)) self.
End TcpServerMetrics.

(** ** Acceptors and connections

    A call of [accept_socket] waiting for a socket, with one before the access check, before the
    load, in the loop with the value it last observed, with the guard before the socket is
    configured; a connection that it returned; and the end of either *)
Module Acceptor.
Inductive t : Type :=
  | Waiting
  | Checking (ip : IpAddr.t)
  | Reserving (ip : IpAddr.t)
  | Exchanging (ip : IpAddr.t) (current : Z)
  | Configuring (ip : IpAddr.t)
  | Connected (ip : IpAddr.t)
  | Ended.
(** The task holds a [ConnectionGuard] *)
Definition guards (c : t) : bool := match c with Configuring _ | Connected _ => true | _ => false end.
End Acceptor.
Module Admission.
Record t : Type := mk { metrics : TcpServerMetrics.t; tasks : list Acceptor.t }.
Definition start : t := mk TcpServerMetrics.new [].
End Admission.
(** One access of one task; [weak] is a spurious failure of the exchange *)
Inductive access : Type :=
  | Called | SocketArrived (i : nat) (ip : IpAddr.t) | AcceptFailed (i : nat) | Checked (i : nat) | Loaded (i : nat)
  | Exchanged (i : nat) (weak : bool) | Configured (i : nat) (ok : bool) | Dropped (i : nat).

Section Admit.
Context (config : TcpServerConfig.t).
Definition allowed (ip : IpAddr.t) : bool :=
  match TcpServerConfig.access_control config with Some ac => AccessControl.is_allowed ac ip | None => true end.
(** [Err tt]: the access is not enabled *)
Definition admit_step (e : access) (w : Admission.t) : res unit Admission.t :=
  let '(Admission.mk m ts) := w in
  match e with
  | Called => Ok (Admission.mk m (ts ++ [Acceptor.Waiting]))
  | SocketArrived i ip =>
      match ts !! i with Some Acceptor.Waiting => Ok (Admission.mk m (<[i:=Acceptor.Checking ip]> ts)) | _ => Err tt end
  | AcceptFailed i =>
      match ts !! i with Some Acceptor.Waiting => Ok (Admission.mk m (<[i:=Acceptor.Ended]> ts)) | _ => Err tt end
  | Checked i =>
      match ts !! i with
      | Some (Acceptor.Checking ip) =>
          if allowed ip then Ok (Admission.mk m (<[i:=Acceptor.Reserving ip]> ts))
          else Ok (Admission.mk (TcpServerMetrics.record_access_denied m) (<[i:=Acceptor.Waiting]> ts))
      | _ => Err tt
      end
  | Loaded i =>
      match ts !! i with
      | Some (Acceptor.Reserving ip) => Ok (Admission.mk m (<[i:=Acceptor.Exchanging ip (TcpServerMetrics.active_connections m)]> ts))
      | _ => Err tt
      end
  | Exchanged i weak =>
      match ts !! i with
      | Some (Acceptor.Exchanging ip current) =>
          if TcpServerConfig.max_connections config <=? current
          then Ok (Admission.mk (TcpServerMetrics.record_limit_rejection m) (<[i:=Acceptor.Waiting]> ts))
          else if negb weak && (TcpServerMetrics.active_connections m =? current)
          then Ok (Admission.mk (TcpServerMetrics.set_active (current + 1) m) (<[i:=Acceptor.Configuring ip]> ts))
          else Ok (Admission.mk m (<[i:=Acceptor.Exchanging ip (TcpServerMetrics.active_connections m)]> ts))
      | _ => Err tt
      end
  | Configured i ok =>
      match ts !! i with
      | Some (Acceptor.Configuring ip) =>
          if ok : bool then Ok (Admission.mk (TcpServerMetrics.record_accepted m) (<[i:=Acceptor.Connected ip]> ts))
          else Ok (Admission.mk (TcpServerMetrics.release_connection m) (<[i:=Acceptor.Ended]> ts))
      | _ => Err tt
      end
  | Dropped i =>
      match ts !! i with
      | Some (Acceptor.Connected ip) => Ok (Admission.mk (TcpServerMetrics.release_connection m) (<[i:=Acceptor.Ended]> ts))
      | _ => Err tt
      end
  end.
(** Accesses that are not enabled are skipped. *)
Fixpoint admit_run (es : list access) (w : Admission.t) : res unit Admission.t :=
  match es with
  | [] => Ok w
  | e :: es => match admit_step e w with Ok w => admit_run es w | Err _ => admit_run es w | Panic => Panic | OutOfFuel => OutOfFuel end
  end.

(** [accept_socket] when no other task disturbs it: what it does with one socket. [None]: the
    socket is dropped and the loop goes on; otherwise whether it is returned, or its setup
    failed *)
Definition accept_socket (ip : IpAddr.t) (ok : bool) (m : TcpServerMetrics.t) : option bool * TcpServerMetrics.t :=
  if negb (allowed ip) then (None, TcpServerMetrics.record_access_denied m) else
  let '(guard, m) := TcpServerMetrics.reserve_connection (TcpServerConfig.max_connections config) m in
  if negb guard then (None, m) else
  if negb ok then (Some false, TcpServerMetrics.release_connection m) else
  (Some true, TcpServerMetrics.record_accepted m).
End Admit.

(** * Lemmas *)

Lemma first_rule_spec rules ip :
  match AccessControl.first_rule rules ip with
  | Some mode => ∃ before after, rules = before ++ (ip, mode) :: after ∧ ∀ m, (ip, m) ∉ before
  | None => ∀ m, (ip, m) ∉ rules
  end.
Proof.
  induction rules as [|[rule_ip mode] rules IH]; cbn [AccessControl.first_rule]; [intros m; apply not_elem_of_nil|].
  case_bool_decide as Hip; [subst; exists [], rules; split; [done|]; intros m; apply not_elem_of_nil|].
  destruct (AccessControl.first_rule rules ip) as [m|].
  - destruct IH as (before & after & -> & Hno). exists ((rule_ip, mode) :: before), after. split; [done|].
    intros m'. rewrite not_elem_of_cons. split; [congruence|done].
  - intros m'. rewrite not_elem_of_cons. split; [congruence|done].
Qed.

Section Invariant.
Context (config : TcpServerConfig.t) (Hmax : 0 ≤ TcpServerConfig.max_connections config ≤ usize_max).
Record admitted (w : Admission.t) : Prop := {
  inv_guards : TcpServerMetrics.active_connections (Admission.metrics w) = tally Acceptor.guards (Admission.tasks w);
  inv_limit : tally Acceptor.guards (Admission.tasks w) ≤ TcpServerConfig.max_connections config;
  inv_allowed : ∀ i c ip, Admission.tasks w !! i = Some c →
    c = Acceptor.Reserving ip ∨ (∃ n, c = Acceptor.Exchanging ip n) ∨ c = Acceptor.Configuring ip ∨ c = Acceptor.Connected ip → allowed config ip = true;
}.
(** A task goes on, with the counter as it was or as the change of its guard makes it *)
Lemma task_goes_on m m' ts i c c' : admitted (Admission.mk m ts) → ts !! i = Some c →
  (∀ ip, c' = Acceptor.Reserving ip ∨ (∃ n, c' = Acceptor.Exchanging ip n) ∨ c' = Acceptor.Configuring ip ∨ c' = Acceptor.Connected ip → allowed config ip = true) →
  TcpServerMetrics.active_connections m' = TcpServerMetrics.active_connections m - Z.b2z (Acceptor.guards c) + Z.b2z (Acceptor.guards c') →
  (Acceptor.guards c = false → Acceptor.guards c' = true → TcpServerMetrics.active_connections m < TcpServerConfig.max_connections config) →
  admitted (Admission.mk m' (<[i:=c']> ts)).
Proof.
  intros [Hg Hl Ha] Hi Hc' Hm Hroom. cbn in *. pose proof (tally_insert Acceptor.guards ts i c c' Hi) as Ht. split; cbn.
  - lia.
  - rewrite Ht. destruct (Acceptor.guards c), (Acceptor.guards c'); cbn in *; lia.
  - intros j d ip Hj. destruct (decide (i = j)) as [<-|Hne].
    + rewrite list_lookup_insert_eq in Hj by (by eapply lookup_lt_Some). injection Hj as <-. apply Hc'.
    + rewrite list_lookup_insert_ne in Hj by done. by eapply Ha.
Qed.
Lemma guard_positive m ts i c : admitted (Admission.mk m ts) → ts !! i = Some c → Acceptor.guards c = true →
  fetch_decrement (TcpServerMetrics.active_connections m) = TcpServerMetrics.active_connections m - 1.
Proof using Hmax.
  intros [Hg Hl _] Hi Hc. cbn in *. pose proof (tally_delete Acceptor.guards ts i c Hi) as Hd. rewrite Hc in Hd. cbn in Hd.
  pose proof (tally_bounds Acceptor.guards (delete i ts)). unfold fetch_decrement. rewrite Z.mod_small; lia.
Qed.
Lemma admit_step_inv e w w' : admitted w → admit_step config e w = Ok w' → admitted w'.
Proof using Hmax.
  intros Hw. destruct w as [m ts]. pose proof Hw as [Hg Hl Ha]. cbn in Hg, Hl, Ha.
  destruct e as [|i ip|i|i|i|i weak|i ok|i]; cbn [admit_step]; [|destruct (ts !! i) as [[|ip'|ip'|ip' n|ip'|ip'|]|] eqn:Hi; try done..].
  - intros [= <-]. split; cbn; rewrite ?tally_app; change (tally Acceptor.guards [Acceptor.Waiting]) with 0; [lia..|].
    intros i c ip Hi Hc. apply lookup_app_Some in Hi as [Hi|[_ Hi]]; [by eapply Ha|]. apply list_lookup_singleton_Some in Hi as [_ <-]. by destruct Hc as [|[[]|[|]]].
  - intros [= <-]. eapply task_goes_on; [exact Hw|exact Hi|by intros ? [|[[]|[|]]]|cbn; lia|done].
  - intros [= <-]. eapply task_goes_on; [exact Hw|exact Hi|by intros ? [|[[]|[|]]]|cbn; lia|done].
  - destruct (allowed config ip') eqn:Hal; intros [= <-].
    + eapply task_goes_on; [exact Hw|exact Hi| |cbn; lia|done]. intros ip [[= ->]|[[]|[|]]]; done.
    + eapply task_goes_on; [exact Hw|exact Hi|by intros ? [|[[]|[|]]]|by destruct m; cbn; lia|done].
  - intros [= <-]. eapply task_goes_on; [exact Hw|exact Hi| |cbn; lia|done]. intros ip [|[[? [= ->]]|[|]]]; try done. eapply Ha; [exact Hi|by left].
  - destruct (Z.leb_spec (TcpServerConfig.max_connections config) n) as [Hn|Hn].
    { intros [= <-]. eapply task_goes_on; [exact Hw|exact Hi|by intros ? [|[[]|[|]]]|by destruct m; cbn; lia|done]. }
    assert (allowed config ip' = true) as Hal by (eapply Ha; [exact Hi|right; left; by eexists]).
    destruct (negb weak && (TcpServerMetrics.active_connections m =? n)) eqn:Hx; intros [= <-].
    + eapply task_goes_on; [exact Hw|exact Hi|by intros ? [|[[]|[[= ->]|]]]|destruct m; cbn in *; lia|lia].
    + eapply task_goes_on; [exact Hw|exact Hi|by intros ? [|[[? [= ->]]|[|]]]|cbn; lia|done].
  - assert (allowed config ip' = true) as Hal by (eapply Ha; [exact Hi|right; right; by left]). destruct ok; intros [= <-].
    + eapply task_goes_on; [exact Hw|exact Hi|by intros ? [|[[]|[|[= ->]]]]|by destruct m; cbn; lia|done].
    + eapply task_goes_on; [exact Hw|exact Hi|by intros ? [|[[]|[|]]]| |done]. pose proof (guard_positive m ts i _ Hw Hi eq_refl). destruct m; cbn in *; lia.
  - intros [= <-]. eapply task_goes_on; [exact Hw|exact Hi|by intros ? [|[[]|[|]]]| |done]. pose proof (guard_positive m ts i _ Hw Hi eq_refl). destruct m; cbn in *; lia.
Qed.
Lemma admit_run_inv es : ∀ w, admitted w → ∃ w', admit_run config es w = Ok w' ∧ admitted w'.
Proof using Hmax.
  induction es as [|e es IH]; intros w Hw; [by exists w|]. cbn [admit_run]. pose proof (admit_step_inv e w) as Hs.
  assert (returns (admit_step config e w)) as Hr by (destruct w; destruct e; cbn [admit_step]; repeat case_match; done).
  destruct (admit_step config e w) as [w'|[]| |]; try done; [by eauto|by apply IH].
Qed.
Lemma admitted_start : admitted Admission.start.
Proof using Hmax. split; cbn; [done|change (tally Acceptor.guards []) with 0; lia|done]. Qed.
End Invariant.

(** * Theorems *)

(** Access control: the first rule for an address decides, and without one the default does. *)
Theorem access_control_exact (ac : AccessControl.t) (ip : IpAddr.t) :
  AccessControl.is_allowed ac ip = true ↔
  (∃ before after, AccessControl.rules ac = before ++ (ip, AccessMode.Allow) :: after ∧ ∀ m, (ip, m) ∉ before) ∨
  (∀ m, (ip, m) ∉ AccessControl.rules ac) ∧ AccessControl.default_mode ac = AccessMode.Allow.
Proof.
  unfold AccessControl.is_allowed. pose proof (first_rule_spec (AccessControl.rules ac) ip) as Hf.
  destruct (AccessControl.first_rule (AccessControl.rules ac) ip) as [mode|]; rewrite bool_decide_eq_true; split.
  - intros ->. by left.
  - destruct Hf as (before & after & Hr & Hno). intros [(b & a & Hr' & Hno')|[Hno' _]].
    + rewrite Hr in Hr'. clear Hr. revert before Hno Hr'. induction b as [|x b IH]; intros [|y before] Hno [= ? Heq]; subst; try done.
      * destruct (Hno AccessMode.Allow). constructor.
      * destruct (Hno' mode). constructor.
      * eapply IH; [|intros m Hm; apply (Hno m); by constructor|exact Heq]. intros m Hm. apply (Hno' m). by constructor.
    + destruct (Hno' mode). rewrite Hr. apply elem_of_app. right. constructor.
  - intros Hd. by right.
  - intros [(b & a & Hr & _)|[_ Hd]]; [|done]. destruct (Hf AccessMode.Allow). rewrite Hr. apply elem_of_app. right. constructor.
Qed.

(** Admission, whatever the interleaving of acceptors, connections that end and spurious
    failures of the exchange: the counter of active connections is the number of guards
    that are held, which never exceeds the limit, it never wraps around, and every
    connection that is handed out is from an address the access rules allow. *)
Theorem admission_bounded (config : TcpServerConfig.t) (es : list access) :
  0 ≤ TcpServerConfig.max_connections config ≤ usize_max →
  ∃ w, admit_run config es Admission.start = Ok w ∧
    TcpServerMetrics.active_connections (Admission.metrics w) = tally Acceptor.guards (Admission.tasks w) ∧
    tally Acceptor.guards (Admission.tasks w) ≤ TcpServerConfig.max_connections config ∧
    (∀ i ip, Admission.tasks w !! i = Some (Acceptor.Connected ip) → allowed config ip = true).
Proof.
  intros Hmax. destruct (admit_run_inv config Hmax es Admission.start (admitted_start config Hmax)) as (w & Heq & [Hg Hl Ha]).
  exists w. split_and!; [done..|]. intros i ip Hi. eapply Ha; [exact Hi|auto].
Qed.
Definition two_places : TcpServerConfig.t := TcpServerConfig.mk TcpConfig.default 2 (Some (AccessControl.mk AccessMode.Allow [(IpAddr.V4 1, AccessMode.Deny)])).
(** Three acceptors race for two places: the second fails once and then sees the first's; the third is refused. *)
Lemma admission_bounded_witness : ∃ w,
  admit_run two_places [Called; Called; Called; SocketArrived 0 (IpAddr.V4 7); SocketArrived 1 (IpAddr.V4 8); SocketArrived 2 (IpAddr.V4 9);
    Checked 0; Checked 1; Checked 2; Loaded 0; Loaded 1; Exchanged 0 false; Exchanged 1 false; Exchanged 1 false; Loaded 2; Exchanged 2 false;
    Configured 0 true; Configured 1 true] Admission.start = Ok w ∧
  TcpServerMetrics.active_connections (Admission.metrics w) = 2 ∧ TcpServerMetrics.connection_limit_rejections (Admission.metrics w) = 1.
Proof.
  match goal with |- ∃ w, admit_run _ ?es _ = _ ∧ _ => destruct (admission_bounded two_places es) as (w & Heq & _) end; [cbn; unfold usize_max; lia|].
  exists w. rewrite Heq. vm_compute in Heq. injection Heq as <-. split; [reflexivity|]. split; reflexivity.
Defined.

(** A socket accepted without disturbance is handled as the sequential reading of the code: an
    acceptor's accesses, one after the other, are [accept_socket]. *)
Theorem accept_sequential (config : TcpServerConfig.t) (ip : IpAddr.t) (ok : bool) (m : TcpServerMetrics.t) (ts : list Acceptor.t) (i : nat) :
  ts !! i = Some Acceptor.Waiting →
  admit_run config [SocketArrived i ip; Checked i; Loaded i; Exchanged i false; Configured i ok] (Admission.mk m ts) =
  let '(r, m') := accept_socket config ip ok m in
  Ok (Admission.mk m' (<[i:=match r with Some true => Acceptor.Connected ip | Some false => Acceptor.Ended | None => Acceptor.Waiting end]> ts)).
Proof.
  intros Hi. pose proof (lookup_lt_Some _ _ _ Hi) as Hlt.
  assert (∀ c l, length l = length ts → (<[i:=c]> l : list Acceptor.t) !! i = Some c) as Hget by (intros c l Hl; apply list_lookup_insert_eq; lia).
  cbn [admit_run admit_step]. rewrite Hi. cbn [admit_run admit_step]. rewrite Hget by done. unfold accept_socket, TcpServerMetrics.reserve_connection.
  destruct (allowed config ip); cbn [negb]; [|repeat (cbn [admit_run admit_step]; rewrite Hget by by rewrite ?length_insert); by rewrite list_insert_insert_eq].
  cbn [admit_run admit_step]. rewrite Hget by by rewrite length_insert. cbn [admit_run admit_step]. rewrite Hget by by rewrite !length_insert.
  destruct (TcpServerConfig.max_connections config <=? TcpServerMetrics.active_connections m); cbn [negb];
    [repeat (cbn [admit_run admit_step]; rewrite Hget by by rewrite ?length_insert); by rewrite !list_insert_insert_eq|].
  rewrite Z.eqb_refl. cbn [andb]. cbn [admit_run admit_step]. rewrite Hget by by rewrite !length_insert. destruct ok; cbn [negb]; by rewrite !list_insert_insert_eq.
Qed.
