(* ===== verification/TlsServer.v ===== *)
(** * The TLS server (crates/rusty-modbus-server/src/tls.rs)

    The server that upgrades every admitted socket to TLS before it serves it: the profile it
    accepts, the bounds on connections and handshakes, the supervisor and one task per
    socket. The handshake itself succeeds or fails at some time; a session is the
    connection task of [ServerTasks], of which only the beginning and the end matter
    here. The lifecycle is that of [ServerTasks]; of its use, the seal by a caller of
    [stop] is here. *)
From stdpp Require Import strings.
From S2P Require Import Prelude Text Types Bits Store Memory DeviceId Deadlines ServerTasks Discover Listener.
#[local] Open Scope Z_scope.

Module IdentityTlsConfigError.
Inductive t : Type := MutualTlsRequired | AuthorizationUnsupported | ZeroLimit (name : string) | CapacityTooLarge (name : string).
End IdentityTlsConfigError.
Module TlsServerStartError.
Inductive t : Type := InvalidConfig (e : IdentityTlsConfigError.t) | Tls (e : text) | Transport (e : text).
End TlsServerStartError.

(** What the server uses of the certificate configuration: whether clients need a certificate,
    whether a callback is set, and the limit *)
Module TlsServerConfig.
Record t : Type := mk { require_client_cert : bool; authz_callback : bool; max_connections : Z }.
End TlsServerConfig.
Module TlsModbusServerConfig.
Record t : Type := mk {
  tls : TlsServerConfig.t; unit_id : Z; max_connections : Z; max_handshakes : Z; handshake_timeout : Z; shutdown_timeout : Z;
  read_timeout : option Z; write_timeout : option Z; tcp_nodelay : bool; access_control : option AccessControl.t; device_id : DeviceIdentification.t
}.
Definition new (version : bytes) (tls : TlsServerConfig.t) : t :=
  mk tls 1 64 16 5000000000 10000000000 (Some 30000000000) (Some 30000000000) true None (DeviceIdentification.default version).
Fixpoint check_limits (limits : list (string * Z)) : res IdentityTlsConfigError.t unit :=
  match limits with
  | [] => Ok tt
  | (name, limit) :: limits =>
      if limit =? 0 then Err (IdentityTlsConfigError.ZeroLimit name) else
      if MAX_PERMITS <? limit then Err (IdentityTlsConfigError.CapacityTooLarge name) else check_limits limits
  end.
Fixpoint check_timeouts (timeouts : list (string * option Z)) : res IdentityTlsConfigError.t unit :=
  match timeouts with
  | [] => Ok tt
  | (name, timeout) :: timeouts =>
      if match timeout with Some value => value =? 0 | None => false end then Err (IdentityTlsConfigError.ZeroLimit name) else check_timeouts timeouts
  end.
Definition validate (self : t) : res IdentityTlsConfigError.t unit :=
  if negb (TlsServerConfig.require_client_cert (tls self)) then Err IdentityTlsConfigError.MutualTlsRequired else
  if TlsServerConfig.authz_callback (tls self) then Err IdentityTlsConfigError.AuthorizationUnsupported else
  do? check_limits [("max_connections"%string, max_connections self); ("tls.max_connections"%string, TlsServerConfig.max_connections (tls self));
                    ("max_handshakes"%string, max_handshakes self)] in
  check_timeouts [("handshake_timeout"%string, Some (handshake_timeout self)); ("shutdown_timeout"%string, Some (shutdown_timeout self));
                  ("read_timeout"%string, read_timeout self); ("write_timeout"%string, write_timeout self)].
Definition connection_limit (self : t) : Z := Z.min (max_connections self) (TlsServerConfig.max_connections (tls self)).
Definition handshake_limit (self : t) : Z := Z.min (max_handshakes self) (connection_limit self).
Definition listener_config (self : t) : TcpServerConfig.t :=
  let d := TcpConfig.default in
  TcpServerConfig.mk (TcpConfig.mk (TcpConfig.connect_timeout d) (TcpConfig.read_timeout d) (TcpConfig.write_timeout d) (tcp_nodelay self) (TcpConfig.keepalive d) (TcpConfig.port d))
    (connection_limit self) (access_control self).
End TlsModbusServerConfig.

(** ** Counters and guards *)
Module TlsCounters.
Record t : Type := mk {
  active_handshakes : Z; active_sessions : Z; started : Z; succeeded : Z; failed : Z; timed_out : Z; cancelled : Z; rejected : Z
}.
Definition default : t := mk 0 0 0 0 0 0 0 0.
Definition reject (self : t) : t := let '(mk h s st su f t c r) := self in mk h s st su f t c (increment_saturating r).
(** [HandshakeGuard::new] *)
Definition begin_handshake (self : t) : t :=
  let '(mk h s st su f t c r) := self in mk ((h + 1) mod (usize_max + 1)) s (increment_saturating st) su f t c r.
(** [HandshakeGuard::drop], after [finish] with the counter of an outcome, or without it *)
Definition end_handshake (outcome : option (t → t)) (self : t) : t :=
  let '(mk h s st su f t c r) := match outcome with Some finish => finish self | None => let '(mk h s st su f t c r) := self in mk h s st su f t (increment_saturating c) r end in
  mk (fetch_decrement h) s st su f t c r.
Definition finish_succeeded (self : t) : t := let '(mk h s st su f t c r) := self in mk h s st (increment_saturating su) f t c r.
Definition finish_failed (self : t) : t := let '(mk h s st su f t c r) := self in mk h s st su (increment_saturating f) t c r.
Definition finish_timed_out (self : t) : t := let '(mk h s st su f t c r) := self in mk h s st su f (increment_saturating t) c r.
Definition begin_session (self : t) : t := let '(mk h s st su f t c r) := self in mk h ((s + 1) mod (usize_max + 1)) st su f t c r.
(** [SessionGuard::drop] *)
Definition end_session (self : t) : t := let '(mk h s st su f t c r) := self in mk h (fetch_decrement s) st su f t c r.
End TlsCounters.

(** ** The tasks

    A connection task: spawned and not polled yet, in the [select!] around the handshake, serving;
    or it has ended *)
Module TlsTask.
Inductive t : Type := Spawned (ip : IpAddr.t) (deadline : Z) | Handshaking (ip : IpAddr.t) (deadline : Z) | Serving (ip : IpAddr.t) | Ended.
(** What the task holds: a [HandshakeGuard] with its permit, a [SessionGuard], a [ConnectionGuard] *)
Definition handshakes (c : t) : bool := match c with Spawned _ _ | Handshaking _ _ => true | _ => false end.
Definition serves (c : t) : bool := match c with Serving _ => true | _ => false end.
Definition connected (c : t) : bool := match c with Ended => false | _ => true end.
Definition peer (c : t) : option IpAddr.t := match c with Spawned ip _ | Handshaking ip _ | Serving ip => Some ip | Ended => None end.
End TlsTask.
Module TlsWorld.
Record t : Type := mk {
  lifecycle : ServerLifecycle.t; metrics : TcpServerMetrics.t; counters : TlsCounters.t; permits : Z;
  now : Z; backoff : Z; supervisor : Supervisor.t; tasks : list TlsTask.t
}.
End TlsWorld.
Inductive tls_step : Type :=
  | TlsCheck | TlsWoken | TlsJoined (i : nat) | TlsSocket (ip : IpAddr.t) (ok : bool) | TlsAcceptFailed | TlsBackoffOver
  | TlsDrainedAll | TlsDeadlineElapsed | TlsAbortJoined (i : nat) | TlsAbortedAll
  | TlsPolled (i : nat) | TlsSignalled (i : nat) | TlsTimedOut (i : nat) | TlsUpgraded (i : nat) (ok : bool) | TlsSessionEnded (i : nat)
  | TlsStop | TlsElapsed (n : Z).

Section Tls.
Context (config : TlsModbusServerConfig.t) (instant_max : Z).
Import TlsWorld.
Abbreviation outcome := (res unit TlsWorld.t).

Definition sealed (w : TlsWorld.t) : bool := is_set (ServerLifecycle.shutdown_deadline (lifecycle w)).
Definition set_tls_supervisor (s : Supervisor.t) (w : TlsWorld.t) : TlsWorld.t := let '(mk l m c p n b _ ts) := w in mk l m c p n b s ts.
Definition set_task (i : nat) (x : TlsTask.t) (w : TlsWorld.t) : TlsWorld.t := let '(mk l m c p n b s ts) := w in mk l m c p n b s (<[i:=x]> ts).
Definition remove_task (i : nat) (w : TlsWorld.t) : TlsWorld.t := let '(mk l m c p n b s ts) := w in mk l m c p n b s (delete i ts).
(** The guards of a handshake are dropped: its permit is free again *)
Definition leave_handshake (outcome : option (TlsCounters.t → TlsCounters.t)) (w : TlsWorld.t) : TlsWorld.t :=
  let '(mk l m c p n b s ts) := w in mk l m (TlsCounters.end_handshake outcome c) (p + 1) n b s ts.
Definition leave_session (w : TlsWorld.t) : TlsWorld.t := let '(mk l m c p n b s ts) := w in mk l m (TlsCounters.end_session c) p n b s ts.
Definition disconnect (w : TlsWorld.t) : TlsWorld.t := let '(mk l m c p n b s ts) := w in mk l (TcpServerMetrics.release_connection m) c p n b s ts.
(** The task is dropped where it is *)
Definition drop_task (c : TlsTask.t) (w : TlsWorld.t) : TlsWorld.t :=
  match c with
  | TlsTask.Spawned _ _ | TlsTask.Handshaking _ _ => disconnect (leave_handshake None w)
  | TlsTask.Serving _ => disconnect (leave_session w)
  | TlsTask.Ended => w
  end.

(** The arm of the supervisor's [select!] for an accepted socket; the guard of the connection is
    dropped when the loop goes on without a task. It is one step, at the read of the shutdown deadline (under
    the lock of the seal): what follows the read touches nothing the seal writes *)
Definition admit_socket (ip : IpAddr.t) (ok : bool) (w : TlsWorld.t) : outcome :=
  let '(mk l m c p n b s ts) := w in
  match accept_socket (TlsModbusServerConfig.listener_config config) ip ok m with
  | (None, m) => Ok (mk l m c p n b s ts)
  | (Some false, m) => Ok (mk (ServerLifecycle.record_accept_error l) m c p n (AcceptBackoff.failure_delay b).2 Supervisor.BackingOff ts)
  | (Some true, m) =>
      let w := mk l m c p n (AcceptBackoff.reset b) Supervisor.Top ts in
      if sealed w then Ok (disconnect w) else
      if p =? 0 then Ok (disconnect (mk l m (TlsCounters.reject c) p n (AcceptBackoff.reset b) Supervisor.Top ts)) else
      let? deadline := Prelude.infallible (saturating_instant_add instant_max n (TlsModbusServerConfig.handshake_timeout config)) in
      Ok (mk l m (TlsCounters.begin_handshake c) (p - 1) n (AcceptBackoff.reset b) Supervisor.Top (ts ++ [TlsTask.Spawned ip deadline]))
  end.
Definition tls_supervisor_step (e : tls_step) (w : TlsWorld.t) : outcome :=
  match e, supervisor w with
  | TlsCheck, Supervisor.Top =>
      match ServerLifecycle.shutdown_deadline (lifecycle w) with
      | Some deadline => Ok (set_tls_supervisor (Supervisor.Draining deadline) w)
      | None => Ok (set_tls_supervisor Supervisor.Selecting w)
      end
  | TlsWoken, Supervisor.Selecting => if is_set (ServerLifecycle.shutdown_tx (lifecycle w)) then Ok (set_tls_supervisor Supervisor.Top w) else Err tt
  | TlsJoined i, Supervisor.Selecting =>
      match tasks w !! i with Some TlsTask.Ended => Ok (remove_task i (set_tls_supervisor Supervisor.Top w)) | _ => Err tt end
  | TlsSocket ip ok, Supervisor.Selecting => admit_socket ip ok w
  | TlsAcceptFailed, Supervisor.Selecting =>
      let '(mk l m c p n b s ts) := w in
      Ok (mk (ServerLifecycle.record_accept_error l) m c p n (AcceptBackoff.failure_delay b).2 Supervisor.BackingOff ts)
  | TlsBackoffOver, Supervisor.BackingOff => Ok (set_tls_supervisor Supervisor.Top w)
  | TlsDrainedAll, Supervisor.Draining _ =>
      if is_empty (tasks w) then Ok (set_tls_supervisor (Supervisor.Returned ShutdownOutcome.Drained) w) else Err tt
  | TlsDeadlineElapsed, Supervisor.Draining deadline =>
      if is_empty (tasks w) then Err tt else if deadline <=? now w then Ok (set_tls_supervisor Supervisor.Aborting w) else Err tt
  | TlsJoined i, Supervisor.Draining deadline =>
      if deadline <=? now w then Err tt else
      match tasks w !! i with Some TlsTask.Ended => Ok (remove_task i w) | _ => Err tt end
  | TlsAbortJoined i, Supervisor.Aborting =>
      match tasks w !! i with Some c => Ok (remove_task i (drop_task c w)) | None => Err tt end
  | TlsAbortedAll, Supervisor.Aborting =>
      if is_empty (tasks w) then Ok (set_tls_supervisor (Supervisor.Returned ShutdownOutcome.Forced) w) else Err tt
  | _, _ => Err tt
  end.
(** [serve_connection]. The arms of its [select!] are looked at in order, one after the other: an earlier one can
    become ready just after it was found not to be, so that a handshake can be over, or its time, when the
    server has just been sealed *)
Definition serve_connection (e : tls_step) (w : TlsWorld.t) : outcome :=
  match e with
  | TlsPolled i =>
      match tasks w !! i with
      | Some (TlsTask.Spawned ip deadline as c) =>
          if sealed w then Ok (set_task i TlsTask.Ended (drop_task c w)) else Ok (set_task i (TlsTask.Handshaking ip deadline) w)
      | _ => Err tt
      end
  | TlsSignalled i =>
      match tasks w !! i with
      | Some (TlsTask.Handshaking ip deadline as c) => if sealed w then Ok (set_task i TlsTask.Ended (drop_task c w)) else Err tt
      | _ => Err tt
      end
  | TlsTimedOut i =>
      match tasks w !! i with
      | Some (TlsTask.Handshaking ip deadline) =>
          if deadline <=? now w
          then Ok (set_task i TlsTask.Ended (disconnect (leave_handshake (Some TlsCounters.finish_timed_out) w))) else Err tt
      | _ => Err tt
      end
  | TlsUpgraded i ok =>
      match tasks w !! i with
      | Some (TlsTask.Handshaking ip deadline) =>
          if negb ok then Ok (set_task i TlsTask.Ended (disconnect (leave_handshake (Some TlsCounters.finish_failed) w))) else
          let '(mk l m c p n b s ts) := leave_handshake (Some TlsCounters.finish_succeeded) w in
          Ok (set_task i (TlsTask.Serving ip) (mk l m (TlsCounters.begin_session c) p n b s ts))
      | _ => Err tt
      end
  | TlsSessionEnded i =>
      match tasks w !! i with
      | Some (TlsTask.Serving ip as c) => Ok (set_task i TlsTask.Ended (drop_task c w))
      | _ => Err tt
      end
  | _ => Err tt
  end.
(** A step of the system; [Err tt]: it is not enabled *)
Definition tls_exec (e : tls_step) (w : TlsWorld.t) : outcome :=
  match e with
  | TlsPolled _ | TlsSignalled _ | TlsTimedOut _ | TlsUpgraded _ _ | TlsSessionEnded _ => serve_connection e w
  | TlsStop =>
      let? l := Prelude.infallible (ServerLifecycle.seal instant_max (TlsModbusServerConfig.shutdown_timeout config) (now w) (lifecycle w)) in
      let '(mk _ m c p n b s ts) := w in
      Ok (mk l m c p n b s ts)
  | TlsElapsed n => if (0 <=? n) && (now w + n <=? instant_max) then let '(mk l m c p t b s ts) := w in Ok (mk l m c p (t + n) b s ts) else Err tt
  | _ => tls_supervisor_step e w
  end.
Fixpoint tls_run (es : list tls_step) (w : TlsWorld.t) : outcome :=
  match es with
  | [] => Ok w
  | e :: es => match tls_exec e w with Ok w => tls_run es w | Err _ => tls_run es w | Panic => Panic | OutOfFuel => OutOfFuel end
  end.
(** [TlsModbusServer::start], with the certificates loaded or not, and the listener bound or not *)
Definition tls_start (acceptor bound : option text) (now : Z) : res TlsServerStartError.t TlsWorld.t :=
  let? _ := match TlsModbusServerConfig.validate config with
            | Ok _ => Ok tt | Err e => Err (TlsServerStartError.InvalidConfig e) | Panic => Panic | OutOfFuel => OutOfFuel
            end in
  match acceptor, bound with
  | Some e, _ => Err (TlsServerStartError.Tls e)
  | None, Some e => Err (TlsServerStartError.Transport e)
  | None, None =>
      if MAX_PERMITS <? TlsModbusServerConfig.handshake_limit config then Panic else
      Ok (mk (ServerLifecycle.install_supervisor ServerLifecycle.new) TcpServerMetrics.new TlsCounters.default
            (TlsModbusServerConfig.handshake_limit config) now AcceptBackoff.new Supervisor.Top [])
  end.
End Tls.

(** * Specification *)

Section Bounds.
Context (config : TlsModbusServerConfig.t).
(** The fields are values of their Rust types. *)
Definition tls_config_ok : Prop :=
  0 ≤ TlsModbusServerConfig.max_connections config ∧ 0 ≤ TlsServerConfig.max_connections (TlsModbusServerConfig.tls config) ∧
  0 ≤ TlsModbusServerConfig.max_handshakes config ∧ 0 ≤ TlsModbusServerConfig.handshake_timeout config ≤ DURATION_MAX ∧
  0 ≤ TlsModbusServerConfig.shutdown_timeout config ≤ DURATION_MAX.
(** What the profile asks for *)
Definition tls_profile : Prop :=
  let capacity n := n ≠ 0 ∧ n ≤ MAX_PERMITS in
  TlsServerConfig.require_client_cert (TlsModbusServerConfig.tls config) = true ∧ TlsServerConfig.authz_callback (TlsModbusServerConfig.tls config) = false ∧
  capacity (TlsModbusServerConfig.max_connections config) ∧ capacity (TlsServerConfig.max_connections (TlsModbusServerConfig.tls config)) ∧
  capacity (TlsModbusServerConfig.max_handshakes config) ∧
  TlsModbusServerConfig.handshake_timeout config ≠ 0 ∧ TlsModbusServerConfig.shutdown_timeout config ≠ 0 ∧
  TlsModbusServerConfig.read_timeout config ≠ Some 0 ∧ TlsModbusServerConfig.write_timeout config ≠ Some 0.
End Bounds.
Definition finished (c : TlsCounters.t) : Z :=
  TlsCounters.succeeded c + TlsCounters.failed c + TlsCounters.timed_out c + TlsCounters.cancelled c.
Definition counters_ok (c : TlsCounters.t) : Prop :=
  let ok n := 0 ≤ n ≤ usize_max in
  ok (TlsCounters.active_handshakes c) ∧ ok (TlsCounters.active_sessions c) ∧ ok (TlsCounters.started c) ∧ ok (TlsCounters.succeeded c) ∧
  ok (TlsCounters.failed c) ∧ ok (TlsCounters.timed_out c) ∧ ok (TlsCounters.cancelled c).
(** Every handshake that began is accounted for, as long as the counter can tell *)
Definition handshakes_counted (c : TlsCounters.t) : Prop :=
  TlsCounters.started c < usize_max → TlsCounters.started c = finished c + TlsCounters.active_handshakes c.

(** * Lemmas *)

Lemma check_limits_spec limits : match TlsModbusServerConfig.check_limits limits with
  | Ok _ => Forall (λ l, l.2 ≠ 0 ∧ l.2 ≤ MAX_PERMITS) limits
  | Err _ => ¬ Forall (λ l, l.2 ≠ 0 ∧ l.2 ≤ MAX_PERMITS) limits
  | _ => False
  end.
Proof.
  induction limits as [|[name limit] limits IH]; cbn [TlsModbusServerConfig.check_limits]; [constructor|].
  destruct (Z.eqb_spec limit 0); [intros [[] _]%Forall_cons; by cbn in *|]. destruct (Z.ltb_spec MAX_PERMITS limit); [intros [[] _]%Forall_cons; cbn in *; lia|].
  destruct (TlsModbusServerConfig.check_limits limits); try done; [by constructor|by intros [_ ?]%Forall_cons].
Qed.
Lemma check_timeouts_spec timeouts : match TlsModbusServerConfig.check_timeouts timeouts with
  | Ok _ => Forall (λ t, t.2 ≠ Some 0) timeouts
  | Err _ => ¬ Forall (λ t, t.2 ≠ Some 0) timeouts
  | _ => False
  end.
Proof.
  induction timeouts as [|[name timeout] timeouts IH]; cbn [TlsModbusServerConfig.check_timeouts]; [constructor|].
  destruct timeout as [v|]; [destruct (Z.eqb_spec v 0); [intros [[] _]%Forall_cons; cbn; by subst|]|];
    destruct (TlsModbusServerConfig.check_timeouts timeouts); try done; solve [constructor; [cbn; congruence|done]|by intros [_ ?]%Forall_cons].
Qed.
Lemma some_differs (x y : Z) : Some x ≠ Some y ↔ x ≠ y.
Proof. split; congruence. Qed.
Lemma validate_profile config : match TlsModbusServerConfig.validate config with
  | Ok _ => tls_profile config
  | Err _ => ¬ tls_profile config
  | _ => False
  end.
Proof.
  unfold TlsModbusServerConfig.validate, tls_profile. destruct (TlsServerConfig.require_client_cert _); cbn [negb]; [|by intros [? _]].
  destruct (TlsServerConfig.authz_callback _); [by intros (_ & ? & _)|].
  match goal with |- context [TlsModbusServerConfig.check_limits ?l] => pose proof (check_limits_spec l) as Hl; destruct (TlsModbusServerConfig.check_limits l) as [[]|e| |] end; try done; cbn [rbind];
    rewrite 2!Forall_cons, Forall_singleton in Hl; cbn [snd] in Hl; [|by intros (_ & _ & ? & ? & ? & _); apply Hl].
  match goal with |- context [TlsModbusServerConfig.check_timeouts ?l] => pose proof (check_timeouts_spec l) as Ht; destruct (TlsModbusServerConfig.check_timeouts l) as [[]|e| |] end; try done;
    rewrite 3!Forall_cons, Forall_singleton in Ht; cbn [snd] in Ht; rewrite 2!some_differs in Ht.
  - destruct_and!. by split_and!.
  - intros (_ & _ & _ & _ & _ & ? & ? & ? & ?). by apply Ht.
Qed.

(** ** Counters *)
Definition outcomes : list (option (TlsCounters.t → TlsCounters.t)) :=
  [None; Some TlsCounters.finish_succeeded; Some TlsCounters.finish_failed; Some TlsCounters.finish_timed_out].
Lemma end_handshake_spec o c : o ∈ outcomes → counters_ok c → 1 ≤ TlsCounters.active_handshakes c → handshakes_counted c →
  let c' := TlsCounters.end_handshake o c in
  counters_ok c' ∧ handshakes_counted c' ∧ TlsCounters.active_handshakes c' = TlsCounters.active_handshakes c - 1 ∧
  TlsCounters.active_sessions c' = TlsCounters.active_sessions c ∧ TlsCounters.started c' = TlsCounters.started c.
Proof.
  intros Ho Hok Hh Hc. destruct c as [h s st su f t ca r]. unfold counters_ok, handshakes_counted, finished in *. cbn in *.
  assert (fetch_decrement h = h - 1) as Hd by (unfold fetch_decrement; rewrite Z.mod_small; lia).
  unfold outcomes in Ho. rewrite !elem_of_cons, elem_of_nil in Ho.
  destruct Ho as [->|[->|[->|[->|[]]]]]; cbn; rewrite Hd; unfold increment_saturating; (split; [lia|]); (split; [lia|]); split_and!; done.
Qed.
Lemma begin_handshake_spec c : counters_ok c → TlsCounters.active_handshakes c < usize_max → handshakes_counted c →
  let c' := TlsCounters.begin_handshake c in
  counters_ok c' ∧ handshakes_counted c' ∧ TlsCounters.active_handshakes c' = TlsCounters.active_handshakes c + 1 ∧
  TlsCounters.active_sessions c' = TlsCounters.active_sessions c.
Proof.
  intros Hok Hh Hc. destruct c as [h s st su f t ca r]. unfold counters_ok, handshakes_counted, finished in *. cbn in *.
  rewrite Z.mod_small by lia. unfold increment_saturating. split; [lia|]. split; [lia|done].
Qed.
Lemma begin_session_spec c : counters_ok c → TlsCounters.active_sessions c < usize_max → handshakes_counted c →
  let c' := TlsCounters.begin_session c in
  counters_ok c' ∧ handshakes_counted c' ∧ TlsCounters.active_handshakes c' = TlsCounters.active_handshakes c ∧
  TlsCounters.active_sessions c' = TlsCounters.active_sessions c + 1 ∧ TlsCounters.started c' = TlsCounters.started c.
Proof.
  intros Hok Hh Hc. destruct c as [h s st su f t ca r]. unfold counters_ok, handshakes_counted, finished in *. cbn in *.
  rewrite Z.mod_small by lia. split; [lia|]. split; [lia|done].
Qed.
Lemma end_session_spec c : counters_ok c → 1 ≤ TlsCounters.active_sessions c → handshakes_counted c →
  let c' := TlsCounters.end_session c in
  counters_ok c' ∧ handshakes_counted c' ∧ TlsCounters.active_handshakes c' = TlsCounters.active_handshakes c ∧
  TlsCounters.active_sessions c' = TlsCounters.active_sessions c - 1 ∧ TlsCounters.started c' = TlsCounters.started c ∧ TlsCounters.succeeded c' = TlsCounters.succeeded c.
Proof.
  intros Hok Hh Hc. destruct c as [h s st su f t ca r]. unfold counters_ok, handshakes_counted, finished in *. cbn in *.
  assert (fetch_decrement s = s - 1) as -> by (unfold fetch_decrement; rewrite Z.mod_small; lia). split; [lia|]. split; [lia|done].
Qed.

(** ** The invariant *)
Section Invariant.
Context (config : TlsModbusServerConfig.t) (Hok : tls_config_ok config) (Hprofile : tls_profile config) (last : Z).
Import TlsWorld.
Abbreviation limit := (TlsModbusServerConfig.connection_limit config).
Abbreviation slots := (TlsModbusServerConfig.handshake_limit config).
Abbreviation listening := (TlsModbusServerConfig.listener_config config).
Lemma limits_ok : 1 ≤ limit < usize_max ∧ 1 ≤ slots ≤ limit.
Proof using Hok Hprofile.
  destruct Hok as (? & ? & ? & _), Hprofile as (_ & _ & [] & [] & [] & _). unfold TlsModbusServerConfig.handshake_limit, TlsModbusServerConfig.connection_limit.
  assert (MAX_PERMITS < usize_max) by (unfold MAX_PERMITS, usize_max; by vm_compute). lia.
Qed.
Definition draining (s : Supervisor.t) : bool := match s with Supervisor.Draining _ | Supervisor.Aborting | Supervisor.Returned _ => true | _ => false end.
Record TlsInv (w : TlsWorld.t) : Prop := {
  tls_connections : TcpServerMetrics.active_connections (metrics w) = tally TlsTask.connected (tasks w);
  tls_limit : tally TlsTask.connected (tasks w) ≤ limit;
  tls_handshakes : TlsCounters.active_handshakes (counters w) = tally TlsTask.handshakes (tasks w);
  tls_permits : permits w = slots - tally TlsTask.handshakes (tasks w);
  tls_slots : tally TlsTask.handshakes (tasks w) ≤ slots;
  tls_sessions : TlsCounters.active_sessions (counters w) = tally TlsTask.serves (tasks w);
  tls_peers : Forall (λ c, match TlsTask.peer c with Some ip => allowed listening ip = true | None => True end) (tasks w);
  tls_counters : counters_ok (counters w);
  tls_counted : handshakes_counted (counters w);
  tls_lifecycle : state_ok (lifecycle w);
  tls_draining : draining (supervisor w) = true → is_Some (ServerLifecycle.deadline (lifecycle w));
  tls_returned : ∀ o, supervisor w = Supervisor.Returned o → tasks w = [];
  tls_now : now w ≤ last;
}.
Lemma sum_of_tasks ts : tally TlsTask.connected ts = tally TlsTask.handshakes ts + tally TlsTask.serves ts.
Proof. induction ts as [|c ts IH]; [done|]. rewrite !tally_cons, IH. destruct c; cbn; lia. Qed.
(** A task of the list goes on as [y], with the counters that hold then *)
Lemma tls_task_changes l m c p n b s ts i x y m' c' p' : TlsInv (mk l m c p n b s ts) → ts !! i = Some x →
  (TlsTask.connected y = true → TlsTask.connected x = true ∧ TlsTask.peer y = TlsTask.peer x) → (TlsTask.handshakes y = true → TlsTask.handshakes x = true) →
  TcpServerMetrics.active_connections m' = TcpServerMetrics.active_connections m - Z.b2z (TlsTask.connected x) + Z.b2z (TlsTask.connected y) →
  counters_ok c' → handshakes_counted c' →
  TlsCounters.active_handshakes c' = TlsCounters.active_handshakes c - Z.b2z (TlsTask.handshakes x) + Z.b2z (TlsTask.handshakes y) →
  p' = p + Z.b2z (TlsTask.handshakes x) - Z.b2z (TlsTask.handshakes y) →
  TlsCounters.active_sessions c' = TlsCounters.active_sessions c - Z.b2z (TlsTask.serves x) + Z.b2z (TlsTask.serves y) →
  TlsInv (mk l m' c' p' n b s (<[i:=y]> ts)).
Proof.
  intros [Hc Hl Hh Hp Hsl Hs Hpe Hco Hct Hst Hdr Hre Hn] Hi Hcx Hhx Hm Hco' Hct' Hh' Hp' Hs'. cbn in *.
  pose proof (tally_insert TlsTask.connected ts i x y Hi). pose proof (tally_insert TlsTask.handshakes ts i x y Hi). pose proof (tally_insert TlsTask.serves ts i x y Hi).
  assert (Z.b2z (TlsTask.connected y) ≤ Z.b2z (TlsTask.connected x)) by (destruct (TlsTask.connected y); [by destruct Hcx as [-> _]|by destruct (TlsTask.connected x)]).
  assert (Z.b2z (TlsTask.handshakes y) ≤ Z.b2z (TlsTask.handshakes x)) by (destruct (TlsTask.handshakes y); [by rewrite Hhx|by destruct (TlsTask.handshakes x)]).
  split; cbn; try done; try lia.
  - apply Forall_insert; [done|]. destruct (TlsTask.peer y) as [ip|] eqn:Hy; [|done]. destruct Hcx as [_ Hpx]; [by destruct y|].
    pose proof (Forall_lookup_1 _ _ _ _ Hpe Hi) as Hpi. cbn beta in Hpi. rewrite <-Hpx in Hpi. by rewrite ?Hy in Hpi.
  - intros o Ho. rewrite (Hre o Ho) in Hi. by rewrite lookup_nil in Hi.
Qed.
Lemma tls_positive l m c p n b s ts i x (f : TlsTask.t → bool) : TlsInv (mk l m c p n b s ts) → ts !! i = Some x → f x = true → 1 ≤ tally f ts.
Proof. intros _ Hi Hx. pose proof (tally_delete f ts i x Hi) as Hd. rewrite Hx in Hd. cbn in Hd. pose proof (tally_bounds f (delete i ts)). lia. Qed.
Lemma release_exact m ts : TcpServerMetrics.active_connections m = tally TlsTask.connected ts → 1 ≤ tally TlsTask.connected ts ≤ limit →
  TcpServerMetrics.active_connections (TcpServerMetrics.release_connection m) = TcpServerMetrics.active_connections m - 1.
Proof using Hok Hprofile. intros Hm Ht. pose proof limits_ok. destruct m; cbn in *. unfold fetch_decrement. rewrite Z.mod_small; lia. Qed.
Lemma handshake_ends o w i x : TlsInv w → tasks w !! i = Some x → TlsTask.handshakes x = true → o ∈ outcomes →
  TlsInv (set_task i TlsTask.Ended (disconnect (leave_handshake o w))).
Proof using Hok Hprofile.
  destruct w as [l m c p n b s ts]. intros Hw Hi Hx Ho. pose proof Hw as [Hc Hl Hh Hp Hsl Hs Hpe Hco Hct Hst Hdr Hre Hn]. cbn in *.
  pose proof (tls_positive _ _ _ _ _ _ _ _ _ _ TlsTask.handshakes Hw Hi Hx). assert (TlsTask.connected x = true) as Hcx by by destruct x.
  assert (TlsTask.serves x = false) as Hsx by by destruct x.
  pose proof (tls_positive _ _ _ _ _ _ _ _ _ _ TlsTask.connected Hw Hi Hcx).
  destruct (end_handshake_spec o c Ho Hco ltac:(lia) Hct) as (? & ? & ? & ? & _).
  eapply tls_task_changes; [exact Hw|exact Hi|done|done|rewrite (release_exact m ts) by (done || lia); rewrite Hcx; cbn; lia|done|done|rewrite Hx; cbn; lia|rewrite Hx; cbn; lia|rewrite Hsx; cbn; lia].
Qed.
Lemma task_dropped w i x : TlsInv w → tasks w !! i = Some x → TlsInv (set_task i TlsTask.Ended (drop_task x w)).
Proof using Hok Hprofile.
  intros Hw Hi. destruct x as [ip d|ip d|ip|]; cbn [drop_task].
  - eapply handshake_ends; [done|exact Hi|done|]. constructor.
  - eapply handshake_ends; [done|exact Hi|done|]. constructor.
  - destruct w as [l m c p n b s ts]. pose proof Hw as [Hc Hl Hh Hp Hsl Hs Hpe Hco Hct Hst Hdr Hre Hn]. cbn in *.
    pose proof (tls_positive _ _ _ _ _ _ _ _ _ _ TlsTask.serves Hw Hi eq_refl). pose proof (tls_positive _ _ _ _ _ _ _ _ _ _ TlsTask.connected Hw Hi eq_refl).
    destruct (end_session_spec c Hco ltac:(lia) Hct) as (? & ? & ? & ? & _).
    eapply tls_task_changes; [exact Hw|exact Hi|done|done|rewrite (release_exact m ts) by (done || lia); cbn; lia|done|done|cbn; lia|cbn; lia|cbn; lia].
  - destruct w as [l m c p n b s ts]. cbn in *. by rewrite list_insert_id.
Qed.
(** A task that has ended is removed *)
Lemma task_removed w i : TlsInv w → tasks w !! i = Some TlsTask.Ended → TlsInv (remove_task i w).
Proof.
  destruct w as [l m c p n b s ts]. intros [Hc Hl Hh Hp Hsl Hs Hpe Hco Hct Hst Hdr Hre Hn] Hi. cbn in *.
  pose proof (tally_delete TlsTask.connected ts i _ Hi) as H1. pose proof (tally_delete TlsTask.handshakes ts i _ Hi) as H2. pose proof (tally_delete TlsTask.serves ts i _ Hi) as H3. cbn in H1, H2, H3.
  split; cbn; try done; try lia; [by apply Forall_delete|]. intros o Ho. rewrite (Hre o Ho) in Hi. by rewrite lookup_nil in Hi.
Qed.
Lemma supervisor_moves s' w : TlsInv w → (draining s' = true → is_Some (ServerLifecycle.deadline (lifecycle w))) → (∀ o, s' = Supervisor.Returned o → tasks w = []) →
  TlsInv (set_tls_supervisor s' w).
Proof. destruct w. by intros [] ? ?. Qed.
(** What a step keeps once the server is sealed: no handshake begins and no connection is added *)
Definition tls_later (w w' : TlsWorld.t) : Prop :=
  is_Some (ServerLifecycle.deadline (lifecycle w)) →
  ServerLifecycle.deadline (lifecycle w') = ServerLifecycle.deadline (lifecycle w) ∧ TlsCounters.started (counters w') = TlsCounters.started (counters w) ∧
  tally TlsTask.connected (tasks w') ≤ tally TlsTask.connected (tasks w).
Definition tls_outcome (w : TlsWorld.t) (r : res unit TlsWorld.t) : Prop :=
  match r with Ok w' => TlsInv w' ∧ tls_later w w' | Err _ => True | Panic | OutOfFuel => False end.
Lemma later_refl w : tls_later w w.
Proof. by intros _. Qed.
Lemma sealed_spec w : sealed w = bool_decide (is_Some (ServerLifecycle.deadline (lifecycle w))).
Proof. unfold sealed, ServerLifecycle.shutdown_deadline. destruct (ServerLifecycle.deadline _) as [d|]; case_bool_decide as Hd; try done; by destruct Hd. Qed.
Lemma dropped_later w i x : TlsInv w → tasks w !! i = Some x → tls_later w (set_task i TlsTask.Ended (drop_task x w)).
Proof using Hok Hprofile.
  destruct w as [l m c p n b s ts]. intros Hw Hi _. pose proof Hw as [Hc Hl Hh Hp Hsl Hs Hpe Hco Hct Hst Hdr Hre Hn]. cbn in *.
  assert (tally TlsTask.connected (<[i:=TlsTask.Ended]> ts) ≤ tally TlsTask.connected ts) as Hle by (rewrite (tally_insert _ _ _ x) by done; destruct (TlsTask.connected x); cbn; lia).
  destruct x as [ip d|ip d|ip|]; cbn [drop_task].
  - pose proof (tls_positive _ _ _ _ _ _ _ _ _ _ TlsTask.handshakes Hw Hi eq_refl). destruct (end_handshake_spec None c ltac:(constructor) Hco ltac:(lia) Hct) as (_ & _ & _ & _ & ?). cbn. split_and!; try done; by destruct c.
  - pose proof (tls_positive _ _ _ _ _ _ _ _ _ _ TlsTask.handshakes Hw Hi eq_refl). destruct (end_handshake_spec None c ltac:(constructor) Hco ltac:(lia) Hct) as (_ & _ & _ & _ & ?). cbn. split_and!; try done; by destruct c.
  - pose proof (tls_positive _ _ _ _ _ _ _ _ _ _ TlsTask.serves Hw Hi eq_refl). destruct (end_session_spec c Hco ltac:(lia) Hct) as (_ & _ & _ & _ & ? & ?). cbn. by split_and!.
  - cbn. by split_and!.
Qed.
Lemma accept_socket_spec ip ok m : TcpServerMetrics.active_connections m ≤ limit → 0 ≤ TcpServerMetrics.active_connections m →
  match accept_socket listening ip ok m with
  | (Some true, m') => TcpServerMetrics.active_connections m' = TcpServerMetrics.active_connections m + 1 ∧ TcpServerMetrics.active_connections m < limit ∧ allowed listening ip = true
  | (_, m') => TcpServerMetrics.active_connections m' = TcpServerMetrics.active_connections m
  end.
Proof using Hok Hprofile.
  intros Hm H0. pose proof limits_ok as [Hlim _]. unfold accept_socket, TcpServerMetrics.reserve_connection. destruct (allowed listening ip); cbn [negb]; [|by destruct m].
  change (TcpServerConfig.max_connections listening) with limit. destruct (Z.leb_spec limit (TcpServerMetrics.active_connections m)); cbn [negb]; [by destruct m|].
  destruct ok; cbn [negb]; destruct m; cbn in *; [by split_and!|]. unfold fetch_decrement. rewrite Z.mod_small; lia.
Qed.
Lemma admit_socket_spec ip ok w : TlsInv w → supervisor w = Supervisor.Selecting → tls_outcome w (admit_socket config last ip ok w).
Proof using Hok Hprofile.
  destruct w as [l m c p n b s ts]. intros Hw Hsel. cbn in Hsel. subst s. pose proof Hw as [Hc Hl Hh Hp Hsl Hs Hpe Hco Hct Hst Hdr Hre Hn]. cbn in *.
  pose proof limits_ok as [Hlim Hslots]. pose proof (tally_bounds TlsTask.connected ts). pose proof (accept_socket_spec ip ok m ltac:(lia) ltac:(lia)) as Hacc.
  destruct (accept_socket listening ip ok m) as [[[]|] m'].
  - destruct Hacc as (Hm & Hroom & Hal). unfold disconnect. rewrite sealed_spec. cbn [lifecycle]. case_bool_decide as Hseal.
    { assert (TcpServerMetrics.active_connections (TcpServerMetrics.release_connection m') = TcpServerMetrics.active_connections m) as Hm' by (destruct m'; cbn in *; unfold fetch_decrement; rewrite Z.mod_small; lia).
      split; [|by intros _]. split; cbn; try done; try lia. }
    destruct (Z.eqb_spec p 0).
    { assert (TcpServerMetrics.active_connections (TcpServerMetrics.release_connection m') = TcpServerMetrics.active_connections m) as Hm' by (destruct m'; cbn in *; unfold fetch_decrement; rewrite Z.mod_small; lia).
      split; [|by intros ?; cbn in *]. split; cbn; try done; try lia; by destruct c. }
    destruct Hok as (_ & _ & _ & Ht & _). rewrite saturating_instant_add_spec by done. cbn [Prelude.infallible rbind].
    pose proof (tally_bounds TlsTask.handshakes ts). destruct (begin_handshake_spec c Hco ltac:(lia) Hct) as (? & ? & ? & ?).
    split; [|by intros ?; cbn in *]. split; cbn; rewrite ?tally_app; try done.
    all: repeat match goal with |- context [tally ?f [?x]] => let v := eval vm_compute in (tally f [TlsTask.Spawned (IpAddr.V4 0) 0]) in change (tally f [x]) with v end; try lia.
    apply Forall_app. split; [done|]. by constructor.
  - split; [|by intros _; destruct l]. split; cbn; try done; try lia; by destruct l.
  - split; [|by intros _]. split; cbn; try done; lia.
Qed.
Lemma delete_insert {A} (l : list A) : ∀ i y, delete i (<[i:=y]> l) = delete i l.
Proof. induction l as [|x l IH]; intros [|i] y; try done. cbn. f_equal. apply IH. Qed.
Lemma supervisor_spec e w : TlsInv w → tls_outcome w (tls_supervisor_step config last e w).
Proof using Hok Hprofile.
  intros Hw. assert (∀ s', (draining s' = true → is_Some (ServerLifecycle.deadline (lifecycle w))) → (∀ o, s' = Supervisor.Returned o → tasks w = []) →
    tls_outcome w (Ok (set_tls_supervisor s' w))) as Hmove by (intros s' ? ?; split; [by apply supervisor_moves|by destruct w; intros _]).
  assert (∀ i s', tasks w !! i = Some TlsTask.Ended → draining s' = false ∨ s' = supervisor w → (∀ o, s' ≠ Supervisor.Returned o) →
    tls_outcome w (Ok (remove_task i (set_tls_supervisor s' w)))) as Hjoin.
  { intros i s' Hi Hs' Hno. split.
    - apply task_removed; [|by destruct w]. apply supervisor_moves; [done| |by intros o ->; destruct (Hno o)]. intros Hd. destruct Hs' as [?| ->]; [congruence|]. by apply tls_draining.
    - destruct w as [l m c p n b s ts]. intros _. cbn in *. split_and!; try done. rewrite (tally_delete _ _ _ _ Hi). cbn. lia. }
  destruct e, (supervisor w) as [| | |d| |o] eqn:Hs; cbn [tls_supervisor_step]; rewrite ?Hs; try done.
  - unfold ServerLifecycle.shutdown_deadline. destruct (ServerLifecycle.deadline (lifecycle w)) as [d|] eqn:Hd; by apply Hmove.
  - destruct (is_set _); [|done]. by apply Hmove.
  - destruct (tasks w !! i) as [[]|] eqn:Hi; try done. apply Hjoin; [done|by left|done].
  - destruct (d <=? now w); [done|]. destruct (tasks w !! i) as [[]|] eqn:Hi; try done.
    pose proof (Hjoin i (Supervisor.Draining d) Hi (or_intror eq_refl) ltac:(done)) as Hj. destruct w as [l m c p n b s ts]. cbn in Hs. by subst s.
  - by apply admit_socket_spec.
  - destruct w as [l m c p n b s ts]. destruct Hw as [Hc Hl Hh Hp Hsl Hse Hpe Hco Hct Hst Hdr Hre Hn]. split; [split; cbn; try done; by destruct l|by intros _; destruct l].
  - by apply Hmove.
  - destruct (is_empty (tasks w)) eqn:He; [|done]. apply is_empty_true in He. apply Hmove; [|done]. intros _. by apply tls_draining; rewrite ?Hs.
  - destruct (is_empty (tasks w)); [done|]. destruct (d <=? now w); [|done]. apply Hmove; [|done]. intros _. by apply tls_draining; rewrite ?Hs.
  - destruct (tasks w !! i) as [x|] eqn:Hi; [|done]. assert (remove_task i (drop_task x w) = remove_task i (set_task i TlsTask.Ended (drop_task x w))) as ->.
    { destruct w as [l m c p n b s ts]; destruct x; cbn; by rewrite delete_insert. }
    pose proof (task_dropped w i x Hw Hi) as Hd. pose proof (dropped_later w i x Hw Hi) as Hl.
    assert (tasks (set_task i TlsTask.Ended (drop_task x w)) !! i = Some TlsTask.Ended) as He.
    { destruct w as [l m c p n b s ts]; destruct x; cbn in *; by apply list_lookup_insert_eq; eapply lookup_lt_Some. }
    split; [by apply task_removed|]. intros Hse. destruct (Hl Hse) as (? & ? & ?). destruct (set_task i TlsTask.Ended (drop_task x w)) as [l m c p n b s ts]. cbn in *. split_and!; try done.
    rewrite (tally_delete _ _ _ _ He). cbn. lia.
  - destruct (is_empty (tasks w)) eqn:He; [|done]. apply is_empty_true in He. apply Hmove; [|done]. intros _. by apply tls_draining; rewrite ?Hs.
Qed.
Lemma serve_connection_spec e w : TlsInv w → tls_outcome w (serve_connection e w).
Proof using Hok Hprofile.
  intros Hw. assert (∀ i x, tasks w !! i = Some x → tls_outcome w (Ok (set_task i TlsTask.Ended (drop_task x w)))) as Hdrop
    by (intros i x Hi; split; [by apply task_dropped|by apply dropped_later]).
  assert (∀ i ip d o, o ∈ outcomes → tasks w !! i = Some (TlsTask.Handshaking ip d) →
    tls_outcome w (Ok (set_task i TlsTask.Ended (disconnect (leave_handshake o w))))) as Hend.
  { intros i ip d o Ho Hi. split; [by eapply handshake_ends|]. intros _. destruct w as [l m c p n b s ts]. pose proof Hw as [Hc Hl Hh Hp Hsl Hs Hpe Hco Hct Hst Hdr Hre Hn]. cbn in *.
    pose proof (tls_positive _ _ _ _ _ _ _ _ _ _ TlsTask.handshakes Hw Hi eq_refl). destruct (end_handshake_spec o c Ho Hco ltac:(lia) Hct) as (_ & _ & _ & _ & ?).
    split_and!; try done. rewrite (tally_insert _ _ _ _ _ Hi). cbn. lia. }
  destruct e; cbn [serve_connection]; try done; destruct (tasks w !! i) as [[ip d|ip d|ip|]|] eqn:Hi; try done.
  - destruct (sealed w); [by apply Hdrop|]. destruct w as [l m c p n b s ts]. pose proof Hw as [Hc Hl Hh Hp Hsl Hs Hpe Hco Hct Hst Hdr Hre Hn]. cbn in *. split.
    + eapply tls_task_changes; [exact Hw|exact Hi|done|done|cbn; lia|done|done|cbn; lia|cbn; lia|cbn; lia].
    + intros _. cbn. rewrite (tally_insert _ _ _ _ _ Hi). cbn. split_and!; (done || lia).
  - destruct (sealed w); [by apply Hdrop|done].
  - destruct (d <=? now w); [|done]. eapply Hend; [|exact Hi]. do 3 apply list_elem_of_further. apply list_elem_of_here.
  - destruct ok; cbn [negb].
    + destruct w as [l m c p n b s ts]. pose proof Hw as [Hc Hl Hh Hp Hsl Hs Hpe Hco Hct Hst Hdr Hre Hn]. cbn in *.
      pose proof (tls_positive _ _ _ _ _ _ _ _ _ _ TlsTask.handshakes Hw Hi eq_refl).
      destruct (end_handshake_spec (Some TlsCounters.finish_succeeded) c ltac:(repeat constructor) Hco ltac:(lia) Hct) as (H1 & H2 & H3 & H4 & H5).
      pose proof limits_ok as [Hlim _]. pose proof (sum_of_tasks ts). pose proof (tally_bounds TlsTask.handshakes ts).
      destruct (begin_session_spec _ H1 ltac:(lia) H2) as (H1' & H2' & H3' & H4' & H5').
      split; [|intros _; cbn; rewrite (tally_insert _ _ _ _ _ Hi); cbn in *; split_and!; (congruence || lia)].
      eapply tls_task_changes; [exact Hw|exact Hi|done|done|cbn; lia|done|done|cbn [TlsTask.handshakes Z.b2z] in *; lia|cbn; lia|cbn [TlsTask.serves Z.b2z] in *; lia].
    + eapply Hend; [|exact Hi]. do 2 apply list_elem_of_further. apply list_elem_of_here.
  - by apply Hdrop.
Qed.
Lemma tls_exec_spec e w : TlsInv w → tls_outcome w (tls_exec config last e w).
Proof using Hok Hprofile.
  intros Hw. destruct e as [| |i|ip b| | | | |i| |i|i|i|i b|i| |n]; cbn [tls_exec]; try (by apply supervisor_spec); try (by apply serve_connection_spec).
  - destruct w as [l m c p n b s ts]. destruct Hw as [Hc Hl Hh Hp Hsl Hs Hpe Hco Hct Hst Hdr Hre Hn]. cbn in *. destruct Hok as (_ & _ & _ & _ & Ht).
    destruct (seal_spec last (TlsModbusServerConfig.shutdown_timeout config) n l Hn Ht Hst) as (l' & -> & Hst' & Hk & Hd & _). cbn [Prelude.infallible rbind].
    split; [split; by cbn|]. intros [d Hdl]. cbn in *. split_and!; try done. rewrite Hdl. by apply Hk.
  - destruct w as [l m c p t b s ts]. destruct Hw as [Hc Hl Hh Hp Hsl Hs Hpe Hco Hct Hst Hdr Hre Hn]. cbn in *. case_match eqn:Hb; [|done].
    split; [split; cbn; try done; lia|by intros _].
Qed.
Lemma later_trans w1 w2 w3 : tls_later w1 w2 → tls_later w2 w3 → tls_later w1 w3.
Proof.
  intros H12 H23 Hs. destruct (H12 Hs) as (Hd & ? & ?). destruct H23 as (? & ? & ?); [by rewrite Hd|]. split_and!; congruence || lia.
Qed.
Lemma tls_run_spec es : ∀ w, TlsInv w → ∃ w', tls_run config last es w = Ok w' ∧ TlsInv w' ∧ tls_later w w'.
Proof using Hok Hprofile.
  induction es as [|e es IH]; intros w Hw; [exists w; split_and!; [done..|apply later_refl]|]. cbn [tls_run]. pose proof (tls_exec_spec e w Hw) as He.
  destruct (tls_exec config last e w) as [w1|[]| |]; try done; [|by apply IH]. destruct He as [Hw1 Hl1]. destruct (IH w1 Hw1) as (w' & ? & ? & ?).
  exists w'. split_and!; [done..|by eapply later_trans].
Qed.
Lemma tls_start_spec now : now ≤ last → ∃ w, tls_start config None None now = Ok w ∧ TlsInv w.
Proof using Hok Hprofile.
  intros Hn. unfold tls_start. pose proof (validate_profile config) as Hv. destruct (TlsModbusServerConfig.validate config) as [[]|e| |]; try done. cbn [rbind].
  pose proof limits_ok as [Hlim Hslots]. assert (slots ≤ MAX_PERMITS) by (destruct Hprofile as (_ & _ & _ & _ & [_ ?] & _); unfold TlsModbusServerConfig.handshake_limit; lia).
  replace (MAX_PERMITS <? slots) with false by lia. eexists. split; [done|].
  split; cbn; try done; change (tally TlsTask.connected []) with 0; change (tally TlsTask.handshakes []) with 0; try lia; try (constructor; fail).
  unfold state_ok. cbn. split_and!; try done; by split; [|intros [? ?]].
Qed.
End Invariant.

(** * Theorems *)

(** The identity-only profile: a configuration is accepted exactly when client certificates are
    required, no authorization callback is set, the three limits are between one and what
    a semaphore can hold, and no timeout that is set is zero. Starting with it never
    panics. *)
Theorem tls_profile_exact (config : TlsModbusServerConfig.t) (acceptor bound : option text) (now : Z) :
  returns (tls_start config acceptor bound now) ∧
  (TlsModbusServerConfig.validate config = Ok tt ↔ tls_profile config) ∧
  (∀ e, tls_start config acceptor bound now = Err (TlsServerStartError.InvalidConfig e) → ¬ tls_profile config).
Proof.
  unfold tls_start. pose proof (validate_profile config) as Hv. destruct (TlsModbusServerConfig.validate config) as [[]|e| |]; try done; cbn [rbind].
  split; [|split; [done|by destruct acceptor, bound; try done; case_match]]. destruct acceptor, bound; try done.
  destruct Hv as (_ & _ & _ & _ & [_ ?] & _). unfold TlsModbusServerConfig.handshake_limit. case_match; [lia|done].
Qed.

(** C21. The TLS server, under every interleaving of the supervisor, the connection tasks, the callers
    of [stop] and the clock: nothing panics; the active connections, the active handshakes and
    the active sessions are exactly the tasks that hold the guards, within the limits
    configured; every task's peer is one the access rules allow; and every handshake that
    began is active or has succeeded, failed, timed out or been cancelled, once. After the
    server is sealed no handshake begins and no connection is added. When the supervisor has
    returned no task is left. *)
Theorem tls_server_accounting (config : TlsModbusServerConfig.t) (last start : Z) (es : list tls_step) :
  tls_config_ok config → tls_profile config → start ≤ last →
  ∃ w0 w, tls_start config None None start = Ok w0 ∧ tls_run config last es w0 = Ok w ∧
    TcpServerMetrics.active_connections (TlsWorld.metrics w) = tally TlsTask.connected (TlsWorld.tasks w) ∧
    tally TlsTask.connected (TlsWorld.tasks w) ≤ TlsModbusServerConfig.connection_limit config ∧
    TlsCounters.active_handshakes (TlsWorld.counters w) = tally TlsTask.handshakes (TlsWorld.tasks w) ∧
    tally TlsTask.handshakes (TlsWorld.tasks w) ≤ TlsModbusServerConfig.handshake_limit config ∧
    TlsCounters.active_sessions (TlsWorld.counters w) = tally TlsTask.serves (TlsWorld.tasks w) ∧
    (∀ i c ip, TlsWorld.tasks w !! i = Some c → TlsTask.peer c = Some ip → allowed (TlsModbusServerConfig.listener_config config) ip = true) ∧
    handshakes_counted (TlsWorld.counters w) ∧
    (∀ o, TlsWorld.supervisor w = Supervisor.Returned o → TlsWorld.tasks w = []) ∧
    (sealed w = true → ∀ later, ∃ w', tls_run config last later w = Ok w' ∧ sealed w' = true ∧
       TlsCounters.started (TlsWorld.counters w') = TlsCounters.started (TlsWorld.counters w) ∧
       tally TlsTask.connected (TlsWorld.tasks w') ≤ tally TlsTask.connected (TlsWorld.tasks w)).
Proof.
  intros Hok Hp Hn. destruct (tls_start_spec config Hok Hp last start Hn) as (w0 & Hw0 & Hi0). destruct (tls_run_spec config Hok Hp last es w0 Hi0) as (w & Hw & Hi & _).
  exists w0, w. pose proof Hi as [Hc Hl Hh Hpm Hsl Hs Hpe Hco Hct Hst Hdr Hre _]. split_and!; try done.
  - intros i c ip Hc' Hip. pose proof (Forall_lookup_1 _ _ _ _ Hpe Hc') as Hpi. cbn beta in Hpi. by rewrite Hip in Hpi.
  - intros Hse later. destruct (tls_run_spec config Hok Hp last later w Hi) as (w' & Hw' & Hi' & Hl'). exists w'. rewrite sealed_spec in Hse. apply bool_decide_eq_true in Hse.
    destruct (Hl' Hse) as (Hd & ? & ?). split_and!; try done. rewrite sealed_spec. apply bool_decide_eq_true. by rewrite Hd.
Qed.
Definition small_tls : TlsModbusServerConfig.t :=
  TlsModbusServerConfig.mk (TlsServerConfig.mk true false 4) 1 3 1 5000000000 10000000000 None None true None (DeviceIdentification.default [49]).
(** One handshake at a time: the second socket is turned away while the first is in its handshake; a
    stop cancels the third. *)
Lemma tls_server_accounting_witness : ∃ w0 w, tls_start small_tls None None 0 = Ok w0 ∧
  tls_run small_tls 1000000000000 [TlsCheck; TlsSocket (IpAddr.V4 7) true; TlsCheck; TlsSocket (IpAddr.V4 8) true; TlsPolled 0; TlsUpgraded 0 true;
    TlsCheck; TlsSocket (IpAddr.V4 9) true; TlsStop; TlsPolled 1] w0 = Ok w ∧
  TlsWorld.tasks w = [TlsTask.Serving (IpAddr.V4 7); TlsTask.Ended] ∧
  TlsWorld.counters w = TlsCounters.mk 0 1 2 1 0 0 1 1.
Proof.
  match goal with |- ∃ w0 w, _ ∧ tls_run _ _ ?es _ = _ ∧ _ => destruct (tls_server_accounting small_tls 1000000000000 0 es) as (w0 & w & Hw0 & Hw & _) end.
  - repeat split; vm_compute; discriminate.
  - repeat split; vm_compute; discriminate.
  - lia.
  - exists w0, w. split; [exact Hw0|]. split; [exact Hw|]. vm_compute in Hw0. injection Hw0 as <-. vm_compute in Hw. injection Hw as <-. split; reflexivity.
Defined.
