(* ===== verification/Shell.v ===== *)
(** * The command line (crates/rusty-modbus-cli: src/output.rs, commands.rs, shell.rs and the
    commands of main.rs that talk to a device)

    What the tool does with a connection and what it prints. Standard output is the bytes
    written to it. A line on standard error is its text, or a client error after a
    prefix, since how errors are displayed is not modelled. Connecting, resolving names and
    the JSON printer are parameters; the editor yields lines and interruptions, and the
    end of the list is the end of the input. *)
From stdpp Require Import strings.
From S2P Require Import Prelude Text ShellParser Types CodecError FileRecords Requests Responses MeiResponses Pdu Stream Mbap Owned Session Deadlines Transaction.
From S2P Require Import Bits Store Memory DeviceId Handler Server Service ServerTasks Client Methods Calls Loopback RemoteCalls Identification Discover.
#[local] Open Scope Z_scope.

(** ** output.rs *)
Module JsonOutput.
Inductive t : Type :=
  | RegisterOutput (function : text) (address : Z) (values : list Z)
  | CoilOutput (function : text) (address : Z) (values : list bool).
End JsonOutput.

Definition u32_max : Z := 4294967295.
Definition display_address (address offset : Z) : Z :=
  Z.min u32_max (address + (if offset <=? u32_max then offset else u32_max)).

Module Diagnostic.
Inductive t : Type :=
  | Line (line : text)
  | Failure (prefix : text) (e : ClientError.t)
  | DiscoverFailure (prefix : text) (e : DiscoverError.t).
End Diagnostic.
Module Console.
Record t (W : Type) : Type := mk { world : W; stdout : bytes; stderr : list Diagnostic.t }.
Arguments mk {W}.
Arguments world {W}.
Arguments stdout {W}.
Arguments stderr {W}.
Section Operations.
Context {W E : Type}.
Definition print (output : bytes) : ST (t W) E unit := st_modify (λ c, mk (world c) (stdout c ++ output) (stderr c)).
Definition println (line : bytes) : ST (t W) E unit := print (line ++ [10]).
Definition eprintln (d : Diagnostic.t) : ST (t W) E unit := st_modify (λ c, mk (world c) (stdout c) (stderr c ++ [d])).
(** A call of the client *)
Definition on_world {A} (m : ST W E A) : ST (t W) E A :=
  λ c, let '(r, w) := m (world c) in (r, mk w (stdout c) (stderr c)).
End Operations.
End Console.

Section Output.
Context (json : JsonOutput.t → bytes) {W E : Type}.

(** [for (i, &v) in values.iter().enumerate() { println!(...) }] *)
Fixpoint print_each {A} (line : Z → A → bytes) (i : Z) (values : list A) : ST (Console.t W) E unit :=
  match values with
  | [] => st_ret tt
  | v :: values => Console.println (line i v);;; print_each line (i + 1) values
  end.
Definition register_line (address i v : Z) : bytes :=
  chars "Register " ++ right_aligned 5 (to_string (display_address address i)) ++ chars ": " ++ hex_06 v ++ chars " (" ++ to_string v ++ chars ")".
Definition print_registers (address : Z) (values : list Z) (format : OutputFormat.t) : ST (Console.t W) E unit :=
  match format with
  | OutputFormat.Human => print_each (register_line address) 0 values
  | OutputFormat.Json => Console.println (json (JsonOutput.RegisterOutput (chars "read_registers") address values))
  end.
Definition coil_line (address : Z) (kind : text) (i : Z) (v : bool) : bytes :=
  kind ++ chars " " ++ right_aligned 5 (to_string (display_address address i)) ++ chars ": " ++ (if v then chars "ON" else chars "OFF").
Definition print_coils (address : Z) (values : list bool) (kind : text) (format : OutputFormat.t) : ST (Console.t W) E unit :=
  match format with
  | OutputFormat.Human => print_each (coil_line address kind) 0 values
  | OutputFormat.Json => Console.println (json (JsonOutput.CoilOutput kind address values))
  end.
(** [{"status": "ok"}] *)
Definition status_ok : bytes := [123; 34] ++ chars "status" ++ [34; 58; 32; 34] ++ chars "ok" ++ [34; 125].
Definition print_write_ok (format : OutputFormat.t) : ST (Console.t W) E unit :=
  match format with
  | OutputFormat.Human => Console.println (chars "OK")
  | OutputFormat.Json => Console.println status_ok
  end.
End Output.

(** ** commands.rs *)
Module ReadArgs.
Record t : Type := mk { register_type : text; address : Z; quantity : Z }.
End ReadArgs.
Module WriteArgs.
Record t : Type := mk { register_type : text; address : Z; values : list text }.
End WriteArgs.

(** ** shell.rs *)
Module ShellConfig.
Record t : Type := mk { addr : SocketAddr.t; unit_id : Z; timeout : Z; format : OutputFormat.t }.
End ShellConfig.
Definition DISCOVERY_CONCURRENCY : Z := 64.
Definition HELP_LINES : list text :=
  [chars "read <type> <addr> <qty>; types: coils, discrete-inputs";
   chars "read types: holding-registers, input-registers";
   chars "write <type> <addr> <values>; types: coil, coils, register, registers";
   chars "set unit-id <id> | discover units [range] | status | help | exit"].

Module Readline.
Inductive t : Type := Line (line : text) | Interrupted | Failed (e : text).
End Readline.

(** What the tool needs of the world beside an open connection: a new connection in the place of
    the one it has, whether it is up, and the network the discovery scans *)
Class Endpoint (W D : Type) : Type := {
  connect_client : SocketAddr.t → ClientConfig.t → ST W ClientError.t unit;
  is_connected : W → bool;
  network_of : W → Network.t D;
}.

Module Shell.
Record t (W : Type) : Type := mk { unit_id : Z; console : Console.t W; history : list text }.
Arguments mk {W}.
Arguments unit_id {W}.
Arguments console {W}.
Arguments history {W}.
End Shell.

Section Tool.
Context (json : JsonOutput.t → bytes) (json_results : list HostResult.t → bytes).
Context (parse_net : text → option (list Z)) (parse_ipv6 : text → option Z) (show_ipv6 : Z → text).
Context {W D : Type} `{Connection W} `{Connection D} `{Patience D} `{Endpoint W D}.
Abbreviation C A := (ST (Console.t W) ClientError.t A).

(** [eprintln!("Error: {}", message); ClientError::NotConnected] *)
Definition cli_parse_error {A} (message : text) : C A :=
  Console.eprintln (Diagnostic.Line (chars "Error: " ++ message));;; st_err ClientError.NotConnected.
Definition parse_non_empty (values : list text) : C unit :=
  if is_empty values then cli_parse_error (chars "at least one value is required for write commands") else st_ret tt.
Definition register_value (value : text) : res text Z :=
  let invalid (r : res ParseIntError.t Z) :=
    match r with
    | Ok v => Ok v
    | Err e => Err (chars "invalid register value '" ++ value ++ chars "': " ++ ParseIntError.fmt e)
    | Panic => Panic
    | OutOfFuel => OutOfFuel
    end in
  match strip_hex value with
  | Some hex => invalid (from_str_radix 16 u16_max hex)
  | None => invalid (parse_uint u16_max value)
  end.
Definition coil_value (value : text) : res text bool :=
  let lower := to_ascii_lowercase value in
  if decide (lower ∈ on_words) then Ok true
  else if decide (lower ∈ off_words) then Ok false
  else Err (chars "invalid coil value '" ++ value ++ chars "'. Use: on/off, true/false, 1/0").
(** [iter().map(|value| parse(value).map_err(cli_parse_error)).collect()]: the first error is printed *)
Fixpoint parse_values {A} (parse : text → res text A) (values : list text) : C (list A) :=
  match values with
  | [] => st_ret []
  | value :: values =>
      v <- match parse value with Ok v => st_ret v | Err e => cli_parse_error e | Panic => st_panic | OutOfFuel => st_lift OutOfFuel end;;
      vs <- parse_values parse values;;
      st_ret (v :: vs)
  end.
Definition parse_register_values (values : list text) : C (list Z) := parse_non_empty values;;; parse_values register_value values.
Definition parse_coil_values (values : list text) : C (list bool) := parse_non_empty values;;; parse_values coil_value values.

Definition handle_read (unit_ : Z) (args : ReadArgs.t) (fmt : OutputFormat.t) : C unit :=
  let '(ReadArgs.mk register_type address quantity) := args in
  if decide (register_type ∈ [chars "hr"; chars "holding"]) then
    regs <- Console.on_world (read_holding_registers unit_ address quantity);;
    print_registers json address regs fmt
  else if decide (register_type ∈ [chars "ir"; chars "input"]) then
    regs <- Console.on_world (read_input_registers unit_ address quantity);;
    print_registers json address regs fmt
  else if decide (register_type ∈ [chars "co"; chars "coils"]) then
    coils <- Console.on_world (read_coils unit_ address quantity);;
    print_coils json address coils (chars "Coil") fmt
  else if decide (register_type ∈ [chars "di"; chars "discrete"]) then
    inputs <- Console.on_world (read_discrete_inputs unit_ address quantity);;
    print_coils json address inputs (chars "Discrete") fmt
  else
    Console.eprintln (Diagnostic.Line (chars "Unknown register type: '" ++ register_type ++ chars "'. Use: hr, ir, co, di"));;;
    st_err ClientError.NotConnected.

Definition handle_write (unit_ : Z) (args : WriteArgs.t) (fmt : OutputFormat.t) : C unit :=
  let '(WriteArgs.mk register_type address values) := args in
  if decide (register_type ∈ [chars "hr"; chars "holding"]) then
    values <- parse_register_values values;;
    (if blen values =? 1
     then value <- st_lift (idx values 0);; Console.on_world (write_single_register unit_ address value)
     else Console.on_world (write_multiple_registers unit_ address values));;;
    print_write_ok fmt
  else if decide (register_type ∈ [chars "co"; chars "coil"; chars "coils"]) then
    values <- parse_coil_values values;;
    (if blen values =? 1
     then value <- st_lift (idx values 0);; Console.on_world (write_single_coil unit_ address value)
     else Console.on_world (write_multiple_coils unit_ address values));;;
    print_write_ok fmt
  else
    Console.eprintln (Diagnostic.Line (chars "Unknown register type: '" ++ register_type ++ chars "'. Use: hr, co"));;;
    st_err ClientError.NotConnected.

(** ** main.rs: the commands [read] and [write], to their exit codes *)
Definition handle_command (command : ReadArgs.t + WriteArgs.t) (fmt : OutputFormat.t) (unit_ : Z) : C unit :=
  match command with inl args => handle_read unit_ args fmt | inr args => handle_write unit_ args fmt end.
Definition client_unit_id (unit_id : option Z) : Z := default 255 unit_id.
Definition server_unit_id (unit_id : option Z) : Z := default 1 unit_id.
(** [ClientConfig { unit_id, timeout: Duration::from_secs(timeout), ..ClientConfig::default() }] *)
Definition client_config (unit_id timeout : Z) : ClientConfig.t :=
  let d := ClientConfig.default in
  ClientConfig.mk unit_id (timeout * 1000000000) (ClientConfig.max_in_flight d) (ClientConfig.retry d) (ClientConfig.shutdown_timeout d).
(** The address of the host: the one given, or what the name resolves to, with the port if it has none *)
Section Resolve.
Context (parse_socket_addr : text → option SocketAddr.t) (lookup_host : text → option (list SocketAddr.t)).
Definition host_has_port (host : text) : bool :=
  match parse_socket_addr host with
  | Some _ => true
  | None =>
      match rsplit_once 58 host with
      | Some (_, maybe_port) => match parse_uint u16_max maybe_port with Ok _ => true | _ => false end
      | None => false
      end
  end.
Definition host_endpoint (host : text) (port : Z) : text :=
  if host_has_port host then host else host ++ chars ":" ++ to_string port.
(** The address, or the exit code and the line on standard error *)
Definition resolve_addr (host : option text) (port : Z) : SocketAddr.t + (Z * text) :=
  match host with
  | None => inr (2, chars "Error: --host is required")
  | Some host =>
      match parse_socket_addr host with
      | Some addr => inl addr
      | None =>
          let endpoint := host_endpoint host port in
          match lookup_host endpoint with
          | None => inr (2, chars "Error: failed to resolve address '" ++ endpoint ++ chars "'")
          | Some [] => inr (2, chars "Error: address '" ++ endpoint ++ chars "' resolved to no socket addresses")
          | Some (addr :: _) => inl addr
          end
      end
  end.
End Resolve.

(** What connecting and the handler make of the exit code, once the address is known *)
Definition run_command (handle : Z → C unit) (addr : SocketAddr.t) (unit_id : option Z) (timeout : Z) : ST (Console.t W) Empty_set Z :=
  λ c,
    let unit_ := client_unit_id unit_id in
    let '(r, c) := (Console.on_world (connect_client (D := D) addr (client_config unit_ timeout)) : C unit) c in
    match r with
    | Err e => (Console.eprintln (Diagnostic.Failure (chars "Error: connection failed: ") e);;; st_ret 2) c
    | Ok _ =>
        let '(r, c) := handle unit_ c in
        match r with
        | Ok _ => (Ok 0, c)
        | Err (ClientError.Exception _) => (Ok 1, c)
        | Err e => (Console.eprintln (Diagnostic.Failure (chars "Error: ") e);;; st_ret 2) c
        | Panic => (Panic, c)
        | OutOfFuel => (OutOfFuel, c)
        end
    | Panic => (Panic, c)
    | OutOfFuel => (OutOfFuel, c)
    end.

(** [Commands::Read] and [Commands::Write] of [main] *)
Definition main_command (parse_socket_addr : text → option SocketAddr.t) (lookup_host : text → option (list SocketAddr.t))
    (command : ReadArgs.t + WriteArgs.t) (host : option text) (port : Z) (unit_id : option Z) (timeout : Z) (fmt : OutputFormat.t)
    : ST (Console.t W) Empty_set Z :=
  match resolve_addr parse_socket_addr lookup_host host port with
  | inr (code, message) => Console.eprintln (Diagnostic.Line message);;; st_ret code
  | inl addr => run_command (handle_command command fmt) addr unit_id timeout
  end.

(** ** shell.rs *)
Definition execute_command (unit_id : Z) (cmd : ShellCommand.t) (fmt : OutputFormat.t) : C unit :=
  match cmd with
  | ShellCommand.ReadCoils address quantity =>
      coils <- Console.on_world (read_coils unit_id address quantity);;
      print_coils json address coils (chars "Coil") fmt
  | ShellCommand.ReadDiscreteInputs address quantity =>
      inputs <- Console.on_world (read_discrete_inputs unit_id address quantity);;
      print_coils json address inputs (chars "Discrete") fmt
  | ShellCommand.ReadHoldingRegisters address quantity =>
      regs <- Console.on_world (read_holding_registers unit_id address quantity);;
      print_registers json address regs fmt
  | ShellCommand.ReadInputRegisters address quantity =>
      regs <- Console.on_world (read_input_registers unit_id address quantity);;
      print_registers json address regs fmt
  | ShellCommand.WriteCoil address value =>
      Console.on_world (write_single_coil unit_id address value);;; print_write_ok fmt
  | ShellCommand.WriteCoils address values =>
      Console.on_world (write_multiple_coils unit_id address values);;; print_write_ok fmt
  | ShellCommand.WriteRegister address value =>
      Console.on_world (write_single_register unit_id address value);;; print_write_ok fmt
  | ShellCommand.WriteRegisters address values =>
      Console.on_world (write_multiple_registers unit_id address values);;; print_write_ok fmt
  | _ => st_ret tt
  end.

Definition connect (config : ShellConfig.t) (unit_id : Z) : C unit :=
  Console.on_world (connect_client (D := D) (ShellConfig.addr config) (client_config unit_id (ShellConfig.timeout config))).

Fixpoint print_lines {E} (lines : list bytes) : ST (Console.t W) E unit :=
  match lines with
  | [] => st_ret tt
  | line :: lines => Console.println (chars "  " ++ line);;; print_lines lines
  end.
Definition print_help {E} : ST (Console.t W) E unit := Console.println (chars "Commands:");;; print_lines HELP_LINES.
Definition show_bool (b : bool) : bytes := if b then chars "true" else chars "false".

(** After a lost connection: a new one, and the command once more *)
Definition reconnect_and_execute (config : ShellConfig.t) (unit_id : Z) (cmd : ShellCommand.t) : ST (Console.t W) Empty_set unit :=
  λ c,
    let '(_, c) := Console.eprintln (E := Empty_set) (Diagnostic.Line (chars "Connection lost. Reconnecting...")) c in
    let '(r, c) := connect config unit_id c in
    match r with
    | Ok _ =>
        let '(_, c) := Console.println (E := Empty_set) (chars "Reconnected.") c in
        let '(r, c) := execute_command unit_id cmd (ShellConfig.format config) c in
        match r with
        | Ok _ => (Ok tt, c)
        | Err e => Console.eprintln (Diagnostic.Failure (chars "Error: ") e) c
        | Panic => (Panic, c)
        | OutOfFuel => (OutOfFuel, c)
        end
    | Err e => Console.eprintln (Diagnostic.Failure (chars "Reconnect failed: ") e) c
    | Panic => (Panic, c)
    | OutOfFuel => (OutOfFuel, c)
    end.
Definition run_on_device (config : ShellConfig.t) (unit_id : Z) (cmd : ShellCommand.t) : ST (Console.t W) Empty_set unit :=
  λ c,
    let '(r, c) := execute_command unit_id cmd (ShellConfig.format config) c in
    match r with
    | Ok _ => (Ok tt, c)
    | Err (ClientError.Transport _) | Err ClientError.NotConnected => reconnect_and_execute config unit_id cmd c
    | Err e => Console.eprintln (Diagnostic.Failure (chars "Error: ") e) c
    | Panic => (Panic, c)
    | OutOfFuel => (OutOfFuel, c)
    end.

(** [addr.ip().to_string()] *)
Definition show_ip (ip : IpAddr.t) : text := match ip with IpAddr.V4 ip => show_ipv4 ip | IpAddr.V6 ip => show_ipv6 ip end.
Definition discover_units (config : ShellConfig.t) (unit_id_range : text) : ST (Console.t W) Empty_set unit :=
  λ c,
    let discover_config := DiscoverConfig.mk None (Some (show_ip (SocketAddr.ip (ShellConfig.addr config)))) (SocketAddr.port (ShellConfig.addr config))
                             unit_id_range (ShellConfig.timeout config) DISCOVERY_CONCURRENCY (ShellConfig.format config) in
    match Discover.run parse_net parse_ipv6 show_ipv6 json_results (network_of (Console.world c)) discover_config with
    | Ok output => Console.print output c
    | Err e => Console.eprintln (Diagnostic.DiscoverFailure (chars "Error: ") e) c
    | Panic => (Panic, c)
    | OutOfFuel => (OutOfFuel, c)
    end.

(** One command: whether the loop goes on, and the unit ID from then on *)
Definition run_line (config : ShellConfig.t) (unit_id : Z) (cmd : ShellCommand.t) : ST (Console.t W) Empty_set (bool * Z) :=
  match cmd with
  | ShellCommand.Exit => st_ret (false, unit_id)
  | ShellCommand.Empty => st_ret (true, unit_id)
  | ShellCommand.Help => print_help;;; st_ret (true, unit_id)
  | ShellCommand.Status =>
      c <- st_get;;
      Console.println (chars "Host:      " ++ show_address show_ipv6 (ShellConfig.addr config));;;
      Console.println (chars "Unit ID:   " ++ to_string unit_id);;;
      Console.println (chars "Connected: " ++ show_bool (is_connected (D := D) (Console.world c)));;;
      st_ret (true, unit_id)
  | ShellCommand.SetUnitId id =>
      Console.println (chars "Unit ID set to " ++ to_string id);;;
      st_ret (true, id)
  | ShellCommand.DiscoverUnits unit_id_range => discover_units config unit_id_range;;; st_ret (true, unit_id)
  | _ => run_on_device config unit_id cmd;;; st_ret (true, unit_id)
  end.
Definition enter_line (config : ShellConfig.t) (line : text) : ST (Shell.t W) Empty_set bool :=
  λ s,
    let '(Shell.mk unit_id console history) := s in
    let trimmed := trim line in
    if is_empty trimmed then (Ok true, s) else
    let history := history ++ [trimmed] in
    match parse_command trimmed with
    | Err e =>
        let '(_, console) := Console.eprintln (E := Empty_set) (Diagnostic.Line (ParseError.message e)) console in
        (Ok true, Shell.mk unit_id console history)
    | Ok cmd =>
        let '(r, console) := run_line config unit_id cmd console in
        match r with
        | Ok (go_on, unit_id) => (Ok go_on, Shell.mk unit_id console history)
        | Err e => match e with end
        | Panic => (Panic, Shell.mk unit_id console history)
        | OutOfFuel => (OutOfFuel, Shell.mk unit_id console history)
        end
    | Panic => (Panic, Shell.mk unit_id console history)
    | OutOfFuel => (OutOfFuel, Shell.mk unit_id console history)
    end.
Definition on_console {E A} (m : ST (Console.t W) E A) : ST (Shell.t W) E A :=
  λ s, let '(r, c) := m (Shell.console s) in (r, Shell.mk (Shell.unit_id s) c (Shell.history s)).
Fixpoint shell_loop (config : ShellConfig.t) (input : list Readline.t) : ST (Shell.t W) Empty_set unit :=
  match input with
  | [] => st_ret tt
  | Readline.Interrupted :: input => shell_loop config input
  | Readline.Failed e :: _ => on_console (Console.eprintln (Diagnostic.Line (chars "Error: " ++ e)))
  | Readline.Line line :: input =>
      go_on <- enter_line config line;;
      if go_on then shell_loop config input else st_ret tt
  end.
Definition run_shell (config : ShellConfig.t) (input : list Readline.t) : ST (Shell.t W) ClientError.t unit :=
  on_console (Console.println (chars "Connecting to " ++ show_address show_ipv6 (ShellConfig.addr config) ++ chars "..."));;;
  on_console (connect config (ShellConfig.unit_id config));;;
  on_console (Console.println (chars "Connected. Type 'help' for commands, 'exit' to quit." ++ [10]));;;
  st_modify (λ s, Shell.mk (ShellConfig.unit_id config) (Shell.console s) (Shell.history s));;;
  (λ s, let '(r, s) := shell_loop config input s in (Prelude.infallible r, s));;;
  on_console (Console.println (chars "Goodbye.")).
End Tool.

(** * Specification *)

(** What is printed for a result *)
Fixpoint lines_of {A} (line : Z → A → bytes) (i : Z) (values : list A) : bytes :=
  match values with
  | [] => []
  | v :: values => line i v ++ [10] ++ lines_of line (i + 1) values
  end.
Section Shown.
Context (json : JsonOutput.t → bytes) (fmt : OutputFormat.t).
Definition shown_registers (address : Z) (values : list Z) : bytes :=
  match fmt with
  | OutputFormat.Human => lines_of (register_line address) 0 values
  | OutputFormat.Json => json (JsonOutput.RegisterOutput (chars "read_registers") address values) ++ [10]
  end.
Definition shown_coils (address : Z) (kind : text) (values : list bool) : bytes :=
  match fmt with
  | OutputFormat.Human => lines_of (coil_line address kind) 0 values
  | OutputFormat.Json => json (JsonOutput.CoilOutput kind address values) ++ [10]
  end.
Definition shown_ok (_ : unit) : bytes := match fmt with OutputFormat.Human => chars "OK" ++ [10] | OutputFormat.Json => status_ok ++ [10] end.

(** A call of the client and what is printed for its result *)
Record device_call : Type := DeviceCall { result : Type; call : Call.t result; shown : result → bytes }.
(** The commands that are one, in the shell *)
Definition shell_call (cmd : ShellCommand.t) : option device_call :=
  match cmd with
  | ShellCommand.ReadCoils a q => Some (DeviceCall _ (Call.ReadCoils a q) (shown_coils a (chars "Coil")))
  | ShellCommand.ReadDiscreteInputs a q => Some (DeviceCall _ (Call.ReadDiscreteInputs a q) (shown_coils a (chars "Discrete")))
  | ShellCommand.ReadHoldingRegisters a q => Some (DeviceCall _ (Call.ReadHoldingRegisters a q) (shown_registers a))
  | ShellCommand.ReadInputRegisters a q => Some (DeviceCall _ (Call.ReadInputRegisters a q) (shown_registers a))
  | ShellCommand.WriteCoil a v => Some (DeviceCall _ (Call.WriteSingleCoil a v) shown_ok)
  | ShellCommand.WriteCoils a vs => Some (DeviceCall _ (Call.WriteMultipleCoils a vs) shown_ok)
  | ShellCommand.WriteRegister a v => Some (DeviceCall _ (Call.WriteSingleRegister a v) shown_ok)
  | ShellCommand.WriteRegisters a vs => Some (DeviceCall _ (Call.WriteMultipleRegisters a vs) shown_ok)
  | _ => None
  end.
(** and on the command line *)
Inductive cli_read_call : ReadArgs.t → device_call → Prop :=
  | cli_holding t a q : t ∈ [chars "hr"; chars "holding"] → cli_read_call (ReadArgs.mk t a q) (DeviceCall _ (Call.ReadHoldingRegisters a q) (shown_registers a))
  | cli_input t a q : t ∈ [chars "ir"; chars "input"] → cli_read_call (ReadArgs.mk t a q) (DeviceCall _ (Call.ReadInputRegisters a q) (shown_registers a))
  | cli_coils t a q : t ∈ [chars "co"; chars "coils"] → cli_read_call (ReadArgs.mk t a q) (DeviceCall _ (Call.ReadCoils a q) (shown_coils a (chars "Coil")))
  | cli_discrete t a q : t ∈ [chars "di"; chars "discrete"] → cli_read_call (ReadArgs.mk t a q) (DeviceCall _ (Call.ReadDiscreteInputs a q) (shown_coils a (chars "Discrete"))).
Inductive cli_write_call : WriteArgs.t → device_call → Prop :=
  | cli_register t a w v : t ∈ [chars "hr"; chars "holding"] → writes_u16 w v →
      cli_write_call (WriteArgs.mk t a [w]) (DeviceCall _ (Call.WriteSingleRegister a v) shown_ok)
  | cli_registers t a ws vs : t ∈ [chars "hr"; chars "holding"] → 2 ≤ blen ws → Forall2 writes_u16 ws vs →
      cli_write_call (WriteArgs.mk t a ws) (DeviceCall _ (Call.WriteMultipleRegisters a vs) shown_ok)
  | cli_coil t a w v : t ∈ [chars "co"; chars "coil"; chars "coils"] → writes_bool w v →
      cli_write_call (WriteArgs.mk t a [w]) (DeviceCall _ (Call.WriteSingleCoil a v) shown_ok)
  | cli_coils_write t a ws vs : t ∈ [chars "co"; chars "coil"; chars "coils"] → 2 ≤ blen ws → Forall2 writes_bool ws vs →
      cli_write_call (WriteArgs.mk t a ws) (DeviceCall _ (Call.WriteMultipleCoils a vs) shown_ok).
End Shown.

(** * Lemmas *)

Section Running.
Context (json : JsonOutput.t → bytes) (json_results : list HostResult.t → bytes).
Context (parse_net : text → option (list Z)) (parse_ipv6 : text → option Z) (show_ipv6 : Z → text).
Context {W D : Type} `{Connection W} `{Connection D} `{Patience D} `{Endpoint W D}.
Implicit Types (c : Console.t W) (fmt : OutputFormat.t).

Lemma print_each_run {E A} (line : Z → A → bytes) vs : ∀ i c,
  print_each (E:=E) line i vs c = (Ok tt, Console.mk (Console.world c) (Console.stdout c ++ lines_of line i vs) (Console.stderr c)).
Proof.
  induction vs as [|v vs IH]; intros i c; cbn [print_each lines_of]; [by destruct c; rewrite app_nil_r|].
  unfold st_bind, Console.println, Console.print, st_modify. rewrite IH. cbn. by rewrite <-!app_assoc.
Qed.
(** A call followed by the printing of its result *)
Definition calls (u : Z) (d : device_call) c : res ClientError.t unit * Console.t W :=
  let '(r, w) := perform u (call d) (Console.world c) in
  match r with
  | Ok v => (Ok tt, Console.mk w (Console.stdout c ++ shown d v) (Console.stderr c))
  | Err e => (Err e, Console.mk w (Console.stdout c) (Console.stderr c))
  | Panic => (Panic, Console.mk w (Console.stdout c) (Console.stderr c))
  | OutOfFuel => (OutOfFuel, Console.mk w (Console.stdout c) (Console.stderr c))
  end.
Lemma run_calls {A} u (k : Call.t A) (show : A → bytes) (pr : A → ST (Console.t W) ClientError.t unit) c :
  (∀ v c, pr v c = (Ok tt, Console.mk (Console.world c) (Console.stdout c ++ show v) (Console.stderr c))) →
  (v <- Console.on_world (perform u k);; pr v) c = calls u (DeviceCall A k show) c.
Proof.
  intros Hpr. unfold calls, st_bind, Console.on_world. cbn [call shown result]. destruct (perform u k (Console.world c)) as [[v|e| |] w]; try done. by rewrite Hpr.
Qed.
Lemma print_registers_run fmt a v c : print_registers json (E:=ClientError.t) a v fmt c =
  (Ok tt, Console.mk (Console.world c) (Console.stdout c ++ shown_registers json fmt a v) (Console.stderr c)).
Proof. destruct fmt; [apply print_each_run|done]. Qed.
Lemma print_coils_run fmt a k v c : print_coils json (E:=ClientError.t) a v k fmt c =
  (Ok tt, Console.mk (Console.world c) (Console.stdout c ++ shown_coils json fmt a k v) (Console.stderr c)).
Proof. destruct fmt; [apply print_each_run|done]. Qed.
Lemma print_write_ok_run fmt v c : print_write_ok (E:=ClientError.t) fmt c =
  (Ok tt, Console.mk (Console.world c) (Console.stdout c ++ shown_ok fmt v) (Console.stderr c)).
Proof. by destruct fmt. Qed.
Lemma execute_calls u cmd fmt d c : shell_call json fmt cmd = Some d → execute_command json u cmd fmt c = calls u d c.
Proof.
  destruct cmd; intros [= <-];
    lazymatch goal with |- _ = calls _ (DeviceCall _ ?k ?show) _ => refine (run_calls u k show _ c _) end;
    intros v c'; (apply print_registers_run || apply print_coils_run || apply (print_write_ok_run fmt v)).
Qed.
Lemma shell_call_args fmt cmd d : command_ok cmd → shell_call json fmt cmd = Some d → Call.args_ok (call d).
Proof. destruct cmd; intros Hok [= <-]; cbn [Call.args_ok call command_ok] in *; try done; try (by destruct Hok). by destruct Hok as (? & _ & ?). Qed.

Lemma other_command fmt cmd u c : shell_call json fmt cmd = None → execute_command json u cmd fmt c = (Ok tt, c).
Proof. by destruct cmd. Qed.
Lemma discover_runs config range c : ∃ out err, discover_units json_results parse_net parse_ipv6 show_ipv6 config range c =
  (Ok tt, Console.mk (Console.world c) (Console.stdout c ++ out) (Console.stderr c ++ err)).
Proof.
  unfold discover_units, Discover.run. set (dc := DiscoverConfig.mk _ _ _ _ _ _ _).
  destruct (scan_spec parse_net parse_ipv6 show_ipv6 (network_of (Console.world c)) dc) as [Hret _]; [vm_compute; discriminate|].
  destruct (scan _ _ _ _ dc) as [report|e| |]; try done; cbn [rbind].
  - eexists _, []. rewrite (app_nil_r (Console.stderr c)). reflexivity.
  - eexists [], [_]. rewrite (app_nil_r (Console.stdout c)). reflexivity.
Qed.
Lemma print_lines_run {E} lines c : ∃ out, print_lines (E:=E) lines c = (Ok tt, Console.mk (Console.world c) (Console.stdout c ++ out) (Console.stderr c)).
Proof.
  revert c. induction lines as [|l lines IH]; intros c; cbn [print_lines]; [exists []; by destruct c; rewrite app_nil_r|].
  unfold st_bind, Console.println, Console.print, st_modify. edestruct IH as [out ->]. eexists. cbn. by rewrite <-app_assoc.
Qed.
(** The commands that leave the device alone: what they print, and what they return *)
Definition local_command (unit_id : Z) (cmd : ShellCommand.t) (r : bool * Z) : Prop :=
  match cmd with
  | ShellCommand.Exit => r = (false, unit_id)
  | ShellCommand.SetUnitId id => r = (true, id)
  | _ => r = (true, unit_id)
  end.
Lemma run_line_local config fmt u cmd c : shell_call json fmt cmd = None → ∃ r out err,
  run_line json json_results parse_net parse_ipv6 show_ipv6 (D := D) config u cmd c =
  (Ok r, Console.mk (Console.world c) (Console.stdout c ++ out) (Console.stderr c ++ err)) ∧ local_command u cmd r.
Proof.
  assert (c = Console.mk (Console.world c) (Console.stdout c ++ []) (Console.stderr c ++ [])) as Hc by (by destruct c; rewrite !app_nil_r).
  destruct cmd; try done; intros _; cbn [run_line local_command].
  - destruct (discover_runs config unit_id_range c) as (out & err & Heq). exists (true, u), out, err. unfold st_bind. by rewrite Heq.
  - exists (true, id). eexists _, []. rewrite (app_nil_r (Console.stderr c)). split; reflexivity.
  - exists (true, u). eexists _, []. rewrite (app_nil_r (Console.stderr c)). split; [|done].
    unfold st_bind, st_get, Console.println, Console.print, st_modify, st_ret. cbn [Console.world Console.stdout Console.stderr]. rewrite <-!app_assoc. reflexivity.
  - unfold print_help, st_bind, Console.println, Console.print, st_modify. edestruct (print_lines_run (E:=Empty_set) HELP_LINES) as [out ->]. exists (true, u). eexists _, [].
    rewrite (app_nil_r (Console.stderr c)). split; [|done]. cbn [Console.world Console.stdout Console.stderr]. rewrite <-!app_assoc. reflexivity.
  - exists (false, u), [], []. split; [|done]. by rewrite <-Hc.
  - exists (true, u), [], []. split; [|done]. by rewrite <-Hc.
Qed.
Lemma run_line_device config fmt u cmd c d : shell_call json fmt cmd = Some d →
  run_line json json_results parse_net parse_ipv6 show_ipv6 (D := D) config u cmd c = (run_on_device json (D := D) config u cmd;;; st_ret (true, u)) c.
Proof. by destruct cmd. Qed.

(** ** The commands [read] and [write] *)
Lemma handle_read_calls u args fmt d c : cli_read_call json fmt args d → handle_read json u args fmt c = calls u d c.
Proof.
  destruct 1 as [t a q Ht|t a q Ht|t a q Ht|t a q Ht]; unfold handle_read; rewrite !elem_of_cons, elem_of_nil in Ht; destruct Ht as [->|[->|[]]]; literals;
    lazymatch goal with |- _ = calls _ (DeviceCall _ ?k ?show) _ => refine (run_calls u k show _ c _) end;
    intros v c'; (apply print_registers_run || apply print_coils_run).
Qed.
Lemma handle_read_unknown u args fmt c : (∀ d, ¬ cli_read_call json fmt args d) →
  ∃ message, handle_read json u args fmt c = (Err ClientError.NotConnected, Console.mk (Console.world c) (Console.stdout c) (Console.stderr c ++ [Diagnostic.Line message])).
Proof.
  destruct args as [t a q]. intros Hno. unfold handle_read. repeat case_decide; try (by exfalso; eapply Hno; constructor). by eexists.
Qed.
Lemma register_value_Ok w v : register_value w = Ok v ↔ writes_u16 w v.
Proof.
  rewrite <-parse_u16_Ok. unfold register_value, parse_u16. destruct (strip_hex w) as [hex|]; [destruct (from_str_radix 16 u16_max hex)|destruct (parse_uint u16_max w)]; cbn [invalid_number]; split; intros [=]; by subst.
Qed.
Lemma register_value_returns w : returns (register_value w).
Proof.
  pose proof (parse_u16_returns w) as Hr. unfold register_value, parse_u16 in *. destruct (strip_hex w) as [hex|]; [destruct (from_str_radix 16 u16_max hex)|destruct (parse_uint u16_max w)]; done.
Qed.
Lemma coil_value_Ok w v : coil_value w = Ok v ↔ writes_bool w v.
Proof. rewrite <-parse_bool_Ok. unfold coil_value, parse_bool. repeat case_decide; split; intros [=]; by subst. Qed.
Lemma coil_value_returns w : returns (coil_value w).
Proof. unfold coil_value. by repeat case_decide. Qed.
(** A refusal: a line on standard error, and nothing is sent. *)
Definition refuses {A} (o : res ClientError.t A * Console.t W) c : Prop :=
  ∃ message, o = (Err ClientError.NotConnected, Console.mk (Console.world c) (Console.stdout c) (Console.stderr c ++ [Diagnostic.Line message])).
Lemma parse_values_spec {A} (parse : text → res text A) (writes : text → A → Prop) ws c :
  (∀ w v, parse w = Ok v ↔ writes w v) → (∀ w, returns (parse w)) →
  (∃ vs, Forall2 writes ws vs ∧ parse_values parse ws c = (Ok vs, c)) ∨ ((∀ vs, ¬ Forall2 writes ws vs) ∧ refuses (parse_values parse ws c) c).
Proof.
  intros Hok Hret. induction ws as [|w ws IH]; [left; exists []; by split; [constructor|]|]. cbn [parse_values]. specialize (Hret w).
  destruct (parse w) as [v|e| |] eqn:Hp; try done.
  - apply Hok in Hp. destruct IH as [(vs & Hvs & Heq)|[Hno (m & Heq)]].
    + left. exists (v :: vs). split; [by constructor|]. unfold st_bind, st_ret. by rewrite Heq.
    + right. split; [|exists m; unfold st_bind, st_ret; by rewrite Heq]. intros vs'. inversion 1 as [|? ? ? vs Hv Hvs]; subst. by eapply Hno.
  - right. split; [|by eexists]. intros vs'. inversion 1 as [|? v' ? ? Hv]; subst. apply Hok in Hv. congruence.
Qed.
Lemma single_value {A} (l : list A) : blen l = 1 → ∃ x, l = [x].
Proof. destruct l as [|x [|y l]]; unfold blen; cbn [length]; [lia|eauto|lia]. Qed.
(** One kind of write: the values are refused, or one is written by itself and more together. *)
Lemma write_values {A} (parse : text → res text A) (writes : text → A → Prop) u (one : A → Call.t unit) (many : list A → Call.t unit) ws fmt c :
  (∀ w v, parse w = Ok v ↔ writes w v) → (∀ w, returns (parse w)) →
  let o := (values <- (parse_non_empty ws;;; parse_values parse ws);;
    (if blen values =? 1 then value <- st_lift (idx values 0);; Console.on_world (perform u (one value)) else Console.on_world (perform u (many values)));;;
    print_write_ok fmt) c in
  (∃ w v, ws = [w] ∧ writes w v ∧ o = calls u (DeviceCall _ (one v) (shown_ok fmt)) c) ∨
  (∃ vs, 2 ≤ blen ws ∧ Forall2 writes ws vs ∧ o = calls u (DeviceCall _ (many vs) (shown_ok fmt)) c) ∨
  ((∀ vs, ws = [] ∨ ¬ Forall2 writes ws vs) ∧ refuses o c).
Proof.
  intros Hok Hret o. destruct ws as [|w ws]; [right; right; split; [by left|by eexists]|].
  destruct (parse_values_spec parse writes (w :: ws) c Hok Hret) as [(vs & Hvs & Heq)|[Hno (m & Heq)]].
  - assert (o = ((if blen vs =? 1 then value <- st_lift (idx vs 0);; Console.on_world (perform u (one value)) else Console.on_world (perform u (many vs)));;;
      print_write_ok fmt) c) as ->.
    { assert ((parse_non_empty (w :: ws);;; parse_values parse (w :: ws)) c = (Ok vs, c)) as Hp by (unfold st_bind, parse_non_empty; by rewrite is_empty_cons).
      unfold o. unfold st_bind at 1. by rewrite Hp. }
    pose proof (Forall2_length _ _ _ Hvs) as Hlen. destruct (Z.eqb_spec (blen vs) 1) as [Hone|Hone].
    + destruct (single_value vs Hone) as [v ->]. left. inversion Hvs as [|? ? ? ? Hv Htl]; subst. inversion Htl; subst. exists w, v. split_and!; [done|done|].
      refine (run_calls u (one v) (shown_ok fmt) (λ _, print_write_ok fmt) c _). intros x c'. apply (print_write_ok_run fmt x).
    + right. left. exists vs. split_and!; [unfold blen in *; rewrite Hlen; destruct vs; cbn [length] in *; lia|done|].
      refine (run_calls u (many vs) (shown_ok fmt) (λ _, print_write_ok fmt) c _). intros x c'. apply (print_write_ok_run fmt x).
  - right. right. split; [by right|]. exists m. unfold o. unfold st_bind, parse_non_empty. rewrite is_empty_cons. unfold st_ret. by rewrite Heq.
Qed.
Lemma write_types_disjoint t : t ∈ [chars "hr"; chars "holding"] → t ∈ [chars "co"; chars "coil"; chars "coils"] → False.
Proof. rewrite !elem_of_cons, !elem_of_nil. intros [->|[->|[]]]; by intros [?|[?|[?|?]]]. Qed.
Lemma handle_write_spec u args fmt c :
  (∃ d, cli_write_call fmt args d ∧ handle_write u args fmt c = calls u d c) ∨
  ((∀ d, ¬ cli_write_call fmt args d) ∧ refuses (handle_write u args fmt c) c).
Proof.
  destruct args as [t a ws]. unfold handle_write. case_decide as Hr; [|case_decide as Hb].
  - destruct (write_values register_value writes_u16 u (Call.WriteSingleRegister a) (Call.WriteMultipleRegisters a) ws fmt c register_value_Ok register_value_returns)
      as [(w & v & -> & Hw & Heq)|[(vs & Hl & Hvs & Heq)|[Hno Heq]]].
    + left. eexists. split; [by apply cli_register|exact Heq].
    + left. eexists. split; [by apply cli_registers|exact Heq].
    + right. split; [|exact Heq]. intros d Hd. inversion Hd as [? ? w v _ Hw|? ? ? vs _ Hl Hvs|? ? ? ? Hc|? ? ? ? Hc]; subst; try (by eapply write_types_disjoint).
      * destruct (Hno [v]) as [|Hf]; [done|]. apply Hf. by constructor; [|constructor].
      * destruct (Hno vs) as [->|?]; [by unfold blen in Hl; cbn in Hl|done].
  - destruct (write_values coil_value writes_bool u (Call.WriteSingleCoil a) (Call.WriteMultipleCoils a) ws fmt c coil_value_Ok coil_value_returns)
      as [(w & v & -> & Hw & Heq)|[(vs & Hl & Hvs & Heq)|[Hno Heq]]].
    + left. eexists. split; [by apply cli_coil|exact Heq].
    + left. eexists. split; [by apply cli_coils_write|exact Heq].
    + right. split; [|exact Heq]. intros d Hd. inversion Hd as [| |? ? w v _ Hw|? ? ? vs _ Hl Hvs]; subst; try done.
      * destruct (Hno [v]) as [|Hf]; [done|]. apply Hf. by constructor; [|constructor].
      * destruct (Hno vs) as [->|?]; [by unfold blen in Hl; cbn in Hl|done].
  - right. split; [|by eexists]. intros d Hd. by inversion Hd.
Qed.

(** ** Over any connection *)
Class EndpointLaws (inv : W → Prop) : Prop :=
  connect_law addr config w : inv w → returns (connect_client (D := D) addr config w).1 ∧ inv (connect_client (D := D) addr config w).2.
Section Total.
Context (inv : W → Prop) `{!ConnectionLaws W inv} `{!EndpointLaws inv}.

Lemma calls_end u d c : inv (Console.world c) → Call.args_ok (call d) → ∃ r c', calls u d c = (r, c') ∧ returns r ∧ inv (Console.world c').
Proof.
  intros Hw Ha. unfold calls. destruct (perform_end inv u (call d) (Console.world c) Hw Ha) as (r & w' & -> & Hr & Hw' & _).
  destruct r; try done; do 2 eexists; by split_and!.
Qed.
Lemma reconnect_ends config u cmd d c : inv (Console.world c) → Call.args_ok (call d) → shell_call json (ShellConfig.format config) cmd = Some d →
  ∃ c', reconnect_and_execute json (D := D) config u cmd c = (Ok tt, c') ∧ inv (Console.world c').
Proof.
  intros Hw Ha Hd. unfold reconnect_and_execute, connect, Console.on_world, Console.eprintln, st_modify. cbn [Console.world Console.stdout Console.stderr].
  match goal with |- context [connect_client ?a ?k ?w] => destruct (connect_law a k w Hw) as [Hcr Hcw]; destruct (connect_client a k w) as [[[]|e| |] w2] end;
    cbn [fst snd] in Hcr, Hcw; try done; [|by eexists].
  unfold Console.println, Console.print, st_modify. rewrite (execute_calls _ _ _ _ _ Hd).
  match goal with |- context [calls u d ?c2] => destruct (calls_end u d c2 Hcw Ha) as (r2 & c3 & -> & Hr2 & Hw3) end.
  destruct r2 as [[]|e| |]; try done; by eexists.
Qed.
Lemma run_on_device_ends config u cmd d c : inv (Console.world c) → command_ok cmd → shell_call json (ShellConfig.format config) cmd = Some d →
  ∃ c', run_on_device json (D := D) config u cmd c = (Ok tt, c') ∧ inv (Console.world c').
Proof.
  intros Hw Hok Hd. pose proof (shell_call_args _ _ _ Hok Hd) as Ha. unfold run_on_device. rewrite (execute_calls _ _ _ _ c Hd).
  destruct (calls_end u d c Hw Ha) as (r & c1 & -> & Hr & Hw1).
  assert (∀ e, ∃ c', Console.eprintln (E:=Empty_set) (Diagnostic.Failure (chars "Error: ") e) c1 = (Ok tt, c') ∧ inv (Console.world c')) as Hfail by (intros; by eexists).
  pose proof (reconnect_ends config u cmd d c1 Hw1 Ha Hd).
  destruct r as [[]|[]| |]; try done; by eauto.
Qed.
Lemma run_line_ends config u cmd c : inv (Console.world c) → command_ok cmd →
  ∃ r c', run_line json json_results parse_net parse_ipv6 show_ipv6 (D := D) config u cmd c = (Ok r, c') ∧ inv (Console.world c').
Proof.
  intros Hw Hok. destruct (shell_call json (ShellConfig.format config) cmd) as [d|] eqn:Hd.
  - rewrite (run_line_device _ _ _ _ _ _ Hd). destruct (run_on_device_ends config u cmd d c Hw Hok Hd) as (c' & Heq & Hw'). unfold st_bind. rewrite Heq. by do 2 eexists.
  - destruct (run_line_local config _ u cmd c Hd) as (r & out & err & -> & _). by do 2 eexists.
Qed.
Lemma enter_line_ends config line s : inv (Console.world (Shell.console s)) →
  ∃ b s', enter_line json json_results parse_net parse_ipv6 show_ipv6 (D := D) config line s = (Ok b, s') ∧ inv (Console.world (Shell.console s')).
Proof.
  destruct s as [u c h]. intros Hw. unfold enter_line. case_match; [by do 2 eexists|].
  destruct (parse_command_spec (trim line)) as (Hret & _ & Hok).
  destruct (parse_command (trim line)) as [cmd|e| |]; try done; [|by do 2 eexists].
  destruct (run_line_ends config u cmd c Hw (Hok cmd eq_refl)) as ([b u'] & c' & -> & Hw'). by do 2 eexists.
Qed.
End Total.
End Running.

(** ** Over the server *)

(** What a result leaves on standard output and on standard error *)
Definition reported (d : device_call) (r : res ClientError.t (result d)) : bytes := match r with Ok v => shown d v | _ => [] end.
Definition complained {A} (r : res ClientError.t A) : list Diagnostic.t := match r with Err e => [Diagnostic.Failure (chars "Error: ") e] | _ => [] end.
Definition exit_code {A} (r : res ClientError.t A) : Z :=
  match r with Ok _ => 0 | Err (ClientError.Exception _) => 1 | _ => 2 end.
(** On the command line an exception is only the exit code. *)
Definition complained_cli {A} (r : res ClientError.t A) : list Diagnostic.t := if exit_code r =? 2 then complained r else [].

(** What entering a line does: whether the shell goes on, the unit ID and the tables after it,
    and what is printed *)
Inductive shell_effect (json : JsonOutput.t → bytes) (fmt : OutputFormat.t) (u : Z) (T : Tables.t) (line : text)
    : bool → Z → Tables.t → bytes → list Diagnostic.t → Prop :=
  | effect_blank : laid_out line [] → shell_effect json fmt u T line true u T [] []
  | effect_refused ws message : laid_out line ws → (∀ cmd, ¬ command_form ws cmd) →
      shell_effect json fmt u T line true u T [] [Diagnostic.Line message]
  | effect_device ws cmd d r T' : laid_out line ws → command_form ws cmd → shell_call json fmt cmd = Some d →
      remote_end u (call d) T r T' → shell_effect json fmt u T line true u T' (reported d r) (complained r)
  | effect_local ws cmd go_on u' out err : laid_out line ws → command_form ws cmd → shell_call json fmt cmd = None →
      local_command u cmd (go_on, u') → shell_effect json fmt u T line go_on u' T out err.

(** What a command on the command line does, to its exit code *)
Inductive command_effect (is_call : device_call → Prop) (u : Z) (T : Tables.t) : Z → Tables.t → bytes → list Diagnostic.t → Prop :=
  | command_runs d r T' : is_call d → remote_end u (call d) T r T' →
      command_effect is_call u T (exit_code r) T' (reported d r) (complained_cli r)
  | command_refused message : (∀ d, ¬ is_call d) →
      command_effect is_call u T 2 T [] [Diagnostic.Line message; Diagnostic.Failure (chars "Error: ") ClientError.NotConnected].
Definition cli_call (json : JsonOutput.t → bytes) (fmt : OutputFormat.t) (command : ReadArgs.t + WriteArgs.t) : device_call → Prop :=
  match command with inl args => cli_read_call json fmt args | inr args => cli_write_call fmt args end.
(** The arguments as they are parsed from the command line *)
Definition cli_args_ok (command : ReadArgs.t + WriteArgs.t) : Prop :=
  match command with
  | inl args => is_u16 (ReadArgs.address args) ∧ is_u16 (ReadArgs.quantity args)
  | inr args => is_u16 (WriteArgs.address args)
  end.
Lemma cli_call_args json fmt command d : cli_args_ok command → cli_call json fmt command d → Call.args_ok (call d).
Proof.
  destruct command as [args|args]; cbn [cli_call]; intros Ha Hd; destruct Hd as [? ? ? _|? ? ? _|? ? ? _|? ? ? _] || destruct Hd as [? ? w v _ Hw|? ? ws vs _ _ Hvs|? ? w v _ _|? ? ws vs _ _ _]; cbn in *; try done.
  - by apply writes_u16_range in Hw.
  - split; [done|]. clear -Hvs. induction Hvs as [|w v ws vs Hv _ IH]; constructor; [by apply writes_u16_range in Hv|done].
Qed.
Lemma handle_command_spec {W} `{Connection W} json fmt command u (c : Console.t W) :
  (∃ d, cli_call json fmt command d ∧ handle_command json command fmt u c = calls u d c) ∨
  (∀ d, ¬ cli_call json fmt command d) ∧ refuses (handle_command json command fmt u c) c.
Proof.
  destruct command as [[t a q]|args]; cbn [cli_call handle_command]; [|apply handle_write_spec].
  assert ((∃ d, cli_read_call json fmt (ReadArgs.mk t a q) d) ∨ (∀ d, ¬ cli_read_call json fmt (ReadArgs.mk t a q) d)) as [[d Hd]|Hno].
  { destruct (decide (t ∈ [chars "hr"; chars "holding"])); [left; eexists; by apply cli_holding|]. destruct (decide (t ∈ [chars "ir"; chars "input"])); [left; eexists; by apply cli_input|].
    destruct (decide (t ∈ [chars "co"; chars "coils"])); [left; eexists; by apply cli_coils|]. destruct (decide (t ∈ [chars "di"; chars "discrete"])); [left; eexists; by apply cli_discrete|].
    right. intros d Hd. by inversion Hd. }
  - left. exists d. split; [done|]. by apply handle_read_calls.
  - right. split; [done|]. by apply handle_read_unknown.
Qed.

Section Serving.
Context (json : JsonOutput.t → bytes) (json_results : list HostResult.t → bytes).
Context (parse_net : text → option (list Z)) (parse_ipv6 : text → option Z) (show_ipv6 : Z → text).
Context (unit_id : Z) (dev : DeviceIdentification.t) (Hdev : device_ok dev) (last : Z).
Context (config : ClientConfig.t) (Hconfig : config_ok config) (Htime : 1 ≤ ClientConfig.timeout config).
Context {D : Type} `{Connection D} `{Patience D} `{Endpoint (Loop.t InMemoryStore.t) D}.
Local Instance serving : Connection (Loop.t InMemoryStore.t) := found_connection unit_id dev last config.
Abbreviation console := (Console.t (Loop.t InMemoryStore.t)).
Implicit Types (c : console).
Definition tables c : Tables.t := tables_of (Loop.server (Console.world c)).
Definition ready c : Prop := loop_ok store_ok last (Console.world c).

(** A call of the client, from the console *)
Lemma calls_served u d c : ready c → Call.args_ok (call d) → answering unit_id u ∨ u = 0 →
  ∃ r c', calls u d c = (rmap (λ _, tt) r, c') ∧ ready c' ∧ remote_end u (call d) (tables c) r (tables c') ∧
    Console.stdout c' = Console.stdout c ++ reported d r ∧ Console.stderr c' = Console.stderr c.
Proof using Hdev Hconfig Htime.
  intros Hc Ha Hu. unfold calls.
  destruct (@remote_call _ store_ok (answering unit_id) _ (server_peer_laws unit_id dev Hdev) last config Hconfig Htime _ u (call d) (Console.world c) Hc Ha Hu)
    as (r & w' & Hp & Hw' & _ & He). change (perform u (call d) (Console.world c) = (r, w')) in Hp. rewrite Hp.
  exists r. destruct r as [v|e| |]; eexists; (split; [reflexivity|]); split_and!; try done; cbn [reported Console.stdout]; by rewrite ?app_nil_r.
Qed.
(** The errors a server can cause do not look like a lost connection. *)
Lemma remote_errors {A} u (k : Call.t A) T r T' : remote_end u k T r T' →
  match r with Err (ClientError.Transport _) | Err ClientError.NotConnected | Panic | OutOfFuel => False | _ => True end.
Proof. by destruct 1. Qed.

Lemma run_on_device_served sc u cmd d c : ready c → Call.args_ok (call d) → shell_call json (ShellConfig.format sc) cmd = Some d → answering unit_id u ∨ u = 0 →
  ∃ r c', run_on_device json (D := D) sc u cmd c = (Ok tt, c') ∧ ready c' ∧ remote_end u (call d) (tables c) r (tables c') ∧
    Console.stdout c' = Console.stdout c ++ reported d r ∧ Console.stderr c' = Console.stderr c ++ complained r.
Proof using Hdev Hconfig Htime.
  intros Hc Ha Hd Hu. unfold run_on_device. rewrite (execute_calls json u cmd _ d c Hd).
  destruct (calls_served u d c Hc Ha Hu) as (r & c' & -> & Hc' & He & Hout & Herr). pose proof (remote_errors _ _ _ _ _ He) as Hno.
  exists r. destruct r as [v|e| |]; try done; cbn [rmap rbind].
  - exists c'. cbn [complained]. by rewrite app_nil_r.
  - destruct e; try done; (eexists; split; [reflexivity|]; split; [exact Hc'|]; split; [exact He|]; split; [exact Hout|]; cbn; by rewrite Herr).
Qed.
Lemma enter_line_served sc line s : ready (Shell.console s) → answering unit_id (Shell.unit_id s) ∨ Shell.unit_id s = 0 →
  ∃ go_on s' out err, enter_line json json_results parse_net parse_ipv6 show_ipv6 (D := D) sc line s = (Ok go_on, s') ∧
    ready (Shell.console s') ∧
    shell_effect json (ShellConfig.format sc) (Shell.unit_id s) (tables (Shell.console s)) line go_on (Shell.unit_id s') (tables (Shell.console s')) out err ∧
    Console.stdout (Shell.console s') = Console.stdout (Shell.console s) ++ out ∧
    Console.stderr (Shell.console s') = Console.stderr (Shell.console s) ++ err.
Proof using Hdev Hconfig Htime.
  destruct s as [u c h]. cbn [Shell.console Shell.unit_id]. intros Hc Hu. unfold enter_line.
  assert (laid_out line (split_whitespace line)) as Hl by by apply split_whitespace_exact.
  destruct (is_empty (trim line)) eqn:Hempty.
  { apply is_empty_true, trim_empty in Hempty. rewrite Hempty in Hl. exists true. do 3 eexists. split; [reflexivity|]. split; [done|].
    split; [by constructor|]. by rewrite !app_nil_r. }
  destruct (parse_command_spec (trim line)) as (Hret & Hform & Hok). setoid_rewrite <-split_whitespace_exact in Hform. rewrite split_whitespace_trim in Hform.
  destruct (parse_command (trim line)) as [cmd|e| |]; try done.
  2:{ exists true. do 3 eexists. split; [reflexivity|]. split; [done|]. split; [|by rewrite app_nil_r].
      eapply effect_refused; [done|]. intros cmd Hf. by assert (Err e = Ok cmd) as [=] by (apply Hform; eauto). }
  specialize (Hok cmd eq_refl). destruct (proj1 (Hform cmd) eq_refl) as (ws & <- & Hf).
  destruct (shell_call json (ShellConfig.format sc) cmd) as [d|] eqn:Hd.
  - rewrite (run_line_device json json_results parse_net parse_ipv6 show_ipv6 sc _ u cmd c d Hd). unfold st_bind.
    destruct (run_on_device_served sc u cmd d c Hc (shell_call_args json _ _ _ Hok Hd) Hd Hu) as (r & c' & -> & Hc' & He & Hout & Herr).
    exists true. do 3 eexists. split; [reflexivity|]. split; [done|]. split; [by eapply effect_device|done].
  - destruct (run_line_local json json_results parse_net parse_ipv6 show_ipv6 sc _ u cmd c Hd) as ([b u'] & out & err & -> & Hloc).
    exists b, (Shell.mk u' (Console.mk (Console.world c) (Console.stdout c ++ out) (Console.stderr c ++ err)) (h ++ [trim line])), out, err.
    split; [done|]. split; [done|]. split; [by eapply effect_local|done].
Qed.

Lemma run_command_served (handle : Z → ST console ClientError.t unit) (is_call : device_call → Prop) addr u timeout c w :
  connect_client (D := D) addr (client_config (client_unit_id u) timeout) (Console.world c) = (Ok tt, w) → loop_ok store_ok last w →
  answering unit_id (client_unit_id u) ∨ client_unit_id u = 0 →
  (∀ d, is_call d → Call.args_ok (call d)) →
  (∀ c, (∃ d, is_call d ∧ handle (client_unit_id u) c = calls (client_unit_id u) d c) ∨ (∀ d, ¬ is_call d) ∧ refuses (handle (client_unit_id u) c) c) →
  ∃ code c' out err, run_command (D := D) handle addr u timeout c = (Ok code, c') ∧ ready c' ∧
    command_effect is_call (client_unit_id u) (tables_of (Loop.server w)) code (tables c') out err ∧
    Console.stdout c' = Console.stdout c ++ out ∧ Console.stderr c' = Console.stderr c ++ err.
Proof using Hdev Hconfig Htime.
  intros Hconn Hw Hu Hargs Hhandle. unfold run_command, Console.on_world. rewrite Hconn.
  set (c0 := Console.mk w (Console.stdout c) (Console.stderr c)). destruct (Hhandle c0) as [(d & Hd & Heq)|[Hno (m & Heq)]]; rewrite Heq.
  - destruct (calls_served _ d c0 Hw (Hargs d Hd) Hu) as (r & c' & -> & Hc' & He & Hout & Herr). pose proof (remote_errors _ _ _ _ _ He) as Hno.
    pose proof (command_runs is_call _ _ d r _ Hd He) as Heff. destruct r as [v|e| |]; try done; cbn [rmap rbind].
    + do 4 eexists. split; [reflexivity|]. split; [done|]. split; [exact Heff|]. split; [done|]. by rewrite Herr, app_nil_r.
    + destruct e; try done; do 4 eexists; (split; [reflexivity|]); (split; [exact Hc'|]); (split; [exact Heff|]); (split; [exact Hout|]); cbn; by rewrite Herr, ?app_nil_r.
  - do 4 eexists. split; [reflexivity|]. split; [done|]. split; [by apply (command_refused is_call _ _ m)|]. cbn. by rewrite app_nil_r, <-app_assoc.
Qed.
End Serving.

(** * Theorems *)

(** The shell, over any connection whose replies are decoded PDUs: whatever is typed, a line is
    handled to the end, without a panic, also when the connection is lost and made again. *)
Theorem shell_total (json : JsonOutput.t → bytes) (json_results : list HostResult.t → bytes)
    (parse_net : text → option (list Z)) (parse_ipv6 : text → option Z) (show_ipv6 : Z → text)
    (W D : Type) `{Connection W} `{Connection D} `{Patience D} `{Endpoint W D} (inv : W → Prop) `{!ConnectionLaws W inv} `{!EndpointLaws (D := D) inv}
    (config : ShellConfig.t) (line : text) (s : Shell.t W) :
  inv (Console.world (Shell.console s)) →
  ∃ go_on s', enter_line json json_results parse_net parse_ipv6 show_ipv6 (D := D) config line s = (Ok go_on, s') ∧ inv (Console.world (Shell.console s')).
Proof. by apply (enter_line_ends json json_results parse_net parse_ipv6 show_ipv6 inv). Qed.

(** C20. The shell connected to the server: entering a line does what its words say. A line of
    blanks does nothing; one that is no command prints a message; a read or a write is the
    plain operation on the server's tables, with its result printed on standard output or
    its error on standard error; the others leave the tables alone, and only [set] changes
    the unit ID and only [exit] and [quit] leave the shell. *)
Theorem shell_serves (json : JsonOutput.t → bytes) (json_results : list HostResult.t → bytes)
    (parse_net : text → option (list Z)) (parse_ipv6 : text → option Z) (show_ipv6 : Z → text)
    (unit_id : Z) (dev : DeviceIdentification.t) (last : Z) (config : ClientConfig.t)
    (D : Type) `{Connection D} `{Patience D} `{Endpoint (Loop.t InMemoryStore.t) D} (sc : ShellConfig.t) (line : text) (s : Shell.t (Loop.t InMemoryStore.t)) :
  device_ok dev → config_ok config → 1 ≤ ClientConfig.timeout config →
  ready last (Shell.console s) → answering unit_id (Shell.unit_id s) ∨ Shell.unit_id s = 0 →
  ∃ go_on s' out err,
    @enter_line json json_results parse_net parse_ipv6 show_ipv6 _ D (found_connection unit_id dev last config) _ _ _ sc line s = (Ok go_on, s') ∧
    ready last (Shell.console s') ∧
    shell_effect json (ShellConfig.format sc) (Shell.unit_id s) (tables (Shell.console s)) line go_on (Shell.unit_id s') (tables (Shell.console s')) out err ∧
    Console.stdout (Shell.console s') = Console.stdout (Shell.console s) ++ out ∧
    Console.stderr (Shell.console s') = Console.stderr (Shell.console s) ++ err.
Proof. intros Hdev Hc Ht Hs Hu. by apply (enter_line_served json json_results parse_net parse_ipv6 show_ipv6 unit_id dev Hdev last config Hc Ht). Qed.

(** A world in which a new connection is to the same server *)
Definition same_server : Endpoint (Loop.t InMemoryStore.t) (Loop.t InMemoryStore.t) := {|
  connect_client _ _ w := (Ok tt, w); is_connected _ := true; network_of _ := one_server;
|}.
Definition local_shell : ShellConfig.t := ShellConfig.mk (SocketAddr.mk (IpAddr.V4 2130706433) 502) 1 5 OutputFormat.Human.
Definition new_shell : Shell.t (Loop.t InMemoryStore.t) := Shell.mk 1 (Console.mk idle_loop [] []) [].
Lemma shell_serves_witness : ∃ s',
  @enter_line (λ _, []) (λ _, []) (λ _, None) (λ _, None) (λ _, []) _ (Loop.t InMemoryStore.t)
    (found_connection 1 small_device 10000000000000 ClientConfig.default) (found_connection 1 small_device 10000000000000 ClientConfig.default)
    found_patience same_server local_shell (chars " write registers 0x3  258 0X304 ") new_shell = (Ok true, s') ∧
  Console.stdout (Shell.console s') = chars "OK" ++ [10] ∧ Console.stderr (Shell.console s') = [] ∧
  Tables.holding_registers (tables (Shell.console s')) = [0; 0; 0; 258; 772; 0; 0; 0; 0; 0].
Proof.
  destruct (@shell_serves (λ _, []) (λ _, []) (λ _, None) (λ _, None) (λ _, []) 1 small_device 10000000000000 ClientConfig.default (Loop.t InMemoryStore.t)
    (found_connection 1 small_device 10000000000000 ClientConfig.default) found_patience same_server local_shell (chars " write registers 0x3  258 0X304 ") new_shell)
    as (go_on & s' & out & err & Heq & _).
  - exact small_device_ok.
  - repeat split; vm_compute; discriminate.
  - vm_compute. discriminate.
  - apply idle_loop_ok. lia.
  - left. split; [cbn; lia|]. split; [reflexivity|]. left. reflexivity.
  - exists s'. rewrite Heq. vm_compute in Heq. injection Heq as <- <-. split; [reflexivity|]. split; [reflexivity|]. split; reflexivity.
Defined.

(** The commands [read] and [write], once connected to the server: the exit code is 0 exactly when
    the operation on the server's tables succeeds, with its result printed; 1 for a Modbus
    exception; 2 when the client refuses the request, or when the arguments name no operation,
    and then nothing is sent. *)
Theorem command_line_exact (json : JsonOutput.t → bytes) (unit_id : Z) (dev : DeviceIdentification.t) (last : Z) (config : ClientConfig.t)
    (D : Type) `{Endpoint (Loop.t InMemoryStore.t) D} (command : ReadArgs.t + WriteArgs.t) (fmt : OutputFormat.t)
    (addr : SocketAddr.t) (u : option Z) (timeout : Z) (c : Console.t (Loop.t InMemoryStore.t)) (w : Loop.t InMemoryStore.t) :
  device_ok dev → config_ok config → 1 ≤ ClientConfig.timeout config → cli_args_ok command →
  connect_client (D := D) addr (client_config (client_unit_id u) timeout) (Console.world c) = (Ok tt, w) → loop_ok store_ok last w →
  answering unit_id (client_unit_id u) ∨ client_unit_id u = 0 →
  ∃ code c' out err,
    run_command (D := D) (@handle_command json _ (found_connection unit_id dev last config) command fmt) addr u timeout c = (Ok code, c') ∧
    ready last c' ∧ command_effect (cli_call json fmt command) (client_unit_id u) (tables_of (Loop.server w)) code (tables c') out err ∧
    Console.stdout c' = Console.stdout c ++ out ∧ Console.stderr c' = Console.stderr c ++ err.
Proof.
  intros Hdev Hc Ht Ha Hconn Hw Hu. eapply (run_command_served unit_id dev Hdev last config Hc Ht); [done..| |].
  - intros d. by apply cli_call_args.
  - intros c'. apply handle_command_spec.
Qed.
Lemma command_line_exact_witness : ∃ c',
  run_command (@handle_command (λ _, []) _ (found_connection 1 small_device 10000000000000 ClientConfig.default) (inl (ReadArgs.mk (chars "hr") 2 2)) OutputFormat.Human)
    (H2 := same_server) (SocketAddr.mk (IpAddr.V4 2130706433) 502) (Some 1) 5 (Console.mk idle_loop [] []) = (Ok 0, c') ∧
  Console.stdout c' = chars "Register     2: 0x0000 (0)" ++ [10] ++ chars "Register     3: 0x0000 (0)" ++ [10].
Proof.
  destruct (@command_line_exact (λ _, []) 1 small_device 10000000000000 ClientConfig.default _ same_server (inl (ReadArgs.mk (chars "hr") 2 2)) OutputFormat.Human
    (SocketAddr.mk (IpAddr.V4 2130706433) 502) (Some 1) 5 (Console.mk idle_loop [] []) idle_loop) as (code & c' & out & err & Heq & _).
  - exact small_device_ok.
  - repeat split; vm_compute; discriminate.
  - vm_compute. discriminate.
  - split; cbn; lia.
  - reflexivity.
  - apply idle_loop_ok. lia.
  - left. split; [cbn; lia|]. split; [reflexivity|]. left. reflexivity.
  - exists c'. rewrite Heq. vm_compute in Heq. injection Heq as <- <-. split; reflexivity.
Defined.

(** A name without a colon gets the port; what is then looked up has one. *)
Theorem host_endpoint_complete (parse_socket_addr : text → option SocketAddr.t) (host : text) (port : Z) :
  is_u16 port → 58 ∉ host → parse_socket_addr host = None →
  host_endpoint parse_socket_addr host port = host ++ chars ":" ++ to_string port ∧
  host_has_port parse_socket_addr (host_endpoint parse_socket_addr host port) = true.
Proof.
  intros Hp Hc Hn. assert (host_endpoint parse_socket_addr host port = host ++ chars ":" ++ to_string port) as Heq.
  { unfold host_endpoint, host_has_port. rewrite Hn. destruct (rsplit_once 58 host) as [[a b]|] eqn:Hr; [|done].
    apply rsplit_once_Some in Hr as [-> _]. destruct Hc. apply elem_of_app. right. constructor. }
  split; [done|]. rewrite Heq. unfold host_has_port. destruct (parse_socket_addr (host ++ _)); [done|].
  assert (rsplit_once 58 (host ++ chars ":" ++ to_string port) = Some (host, to_string port)) as ->.
  { apply rsplit_once_Some. split; [done|]. intros Hin. pose proof (to_string_digits port ltac:(lia)) as Hd. rewrite Forall_forall in Hd. specialize (Hd _ Hin). lia. }
  assert (parse_uint u16_max (to_string port) = Ok port) as ->; [|done].
  apply from_str_radix_Ok; [lia|unfold u16_max; lia|]. split; [apply to_string_numeral; lia|unfold u16_max; lia].
Qed.
(** An IPv6 address without a port is taken for a name with one: the port is not added. *)
Theorem bare_ipv6_keeps_no_port (parse_socket_addr : text → option SocketAddr.t) (port : Z) :
  host_endpoint parse_socket_addr (chars "::1") port = chars "::1".
Proof. unfold host_endpoint, host_has_port. by destruct (parse_socket_addr (chars "::1")). Qed.
