(* ===== verification/Dashboard.v ===== *)
(** * The dashboard (crates/rusty-modbus-cli: src/dashboard.rs, src/dashboard/commands.rs and the
    table of src/dashboard/render.rs)

    An application that shows a range of one of the four tables of a device and reads it
    again after every key that moves it, after commands and from time to time. Times are
    readings of the clock in nanoseconds, given to the operations that look at it. Drawing
    succeeds or fails; of what it draws, the rows of the table are modelled. A message is a
    text, or an error after a prefix. *)
From stdpp Require Import strings.
From S2P Require Import Prelude Text ShellParser Types CodecError FileRecords Requests Responses MeiResponses Pdu Stream Mbap Owned Session Deadlines Transaction.
From S2P Require Import Bits Store Memory DeviceId Handler Server Service ServerTasks Client Methods Calls Loopback RemoteCalls Identification Discover Shell.
#[local] Open Scope Z_scope.

Definition MAX_COMMAND_LOG : Z := 8.
Definition MAX_COMMAND_HISTORY : Z := 32.
Definition DISCOVERY_LOG_LIMIT : nat := 6.

(** ** The table that is shown *)
Module DashboardTarget.
Inductive t : Type := HoldingRegisters | InputRegisters | Coils | DiscreteInputs.
#[global] Instance t_eq_dec : EqDecision t.
Proof. solve_decision. Defined.
Definition ALL : list t := [HoldingRegisters; InputRegisters; Coils; DiscreteInputs].
Definition label (self : t) : text :=
  match self with
  | HoldingRegisters => chars "Holding Registers"
  | InputRegisters => chars "Input Registers"
  | Coils => chars "Coils"
  | DiscreteInputs => chars "Discrete Inputs"
  end.
Definition short_label (self : t) : text :=
  match self with
  | HoldingRegisters => chars "HR"
  | InputRegisters => chars "IR"
  | Coils => chars "CO"
  | DiscreteInputs => chars "DI"
  end.
Definition function_code (self : t) : text :=
  match self with
  | HoldingRegisters => chars "0x03"
  | InputRegisters => chars "0x04"
  | Coils => chars "0x01"
  | DiscreteInputs => chars "0x02"
  end.
Definition max_quantity (self : t) : Z :=
  match self with HoldingRegisters | InputRegisters => 125 | Coils | DiscreteInputs => 2000 end.
Definition tab_index (self : t) : Z := default 0 (position (λ candidate, bool_decide (candidate = self)) ALL).
Definition next {E} (self : t) : res E t := idx ALL ((tab_index self + 1) mod blen ALL).
(** [checked_sub(1).unwrap_or(len - 1)] *)
Definition previous {E} (self : t) : res E t := idx ALL (if 1 <=? tab_index self then tab_index self - 1 else blen ALL - 1).
End DashboardTarget.

Module DashboardConfig.
Record t : Type := mk {
  addr : SocketAddr.t; unit_id : Z; timeout : Z; address : Z; quantity : Z; target : DashboardTarget.t; refresh_interval : Z
}.
End DashboardConfig.
Module CommandMode.
Inductive t : Type := Idle | Editing.
#[global] Instance t_eq_dec : EqDecision t.
Proof. solve_decision. Defined.
End CommandMode.
Module CommandLogStatus.
Inductive t : Type := Info | Success | Error.
End CommandLogStatus.
Module CommandLogEntry.
Record t : Type := mk { status : CommandLogStatus.t; text : Diagnostic.t }.
Definition info (text : Diagnostic.t) : t := mk CommandLogStatus.Info text.
Definition success (text : Diagnostic.t) : t := mk CommandLogStatus.Success text.
Definition error (text : Diagnostic.t) : t := mk CommandLogStatus.Error text.
End CommandLogEntry.
Module DashboardStatus.
Inductive t : Type := Connected | Error.
#[global] Instance t_eq_dec : EqDecision t.
Proof. solve_decision. Defined.
End DashboardStatus.
Module DashboardData.
Inductive t : Type := Registers (values : list Z) | Bits (values : list bool) | Empty.
Definition len (self : t) : Z := match self with Registers values => blen values | Bits values => blen values | Empty => 0 end.
End DashboardData.

Module DashboardView.
Record t : Type := mk {
  endpoint : text; unit_id : Z; timeout_secs : Z; target : DashboardTarget.t; address : Z; quantity : Z;
  data : DashboardData.t; status : DashboardStatus.t; refresh_count : Z; refresh_age : text; message : Diagnostic.t;
  command_mode : CommandMode.t; command_input : text; command_log : list CommandLogEntry.t
}.
(** What is read: the unit, the table and the range of it *)
Definition set_range (t : DashboardTarget.t) (a q : Z) (v : DashboardView.t) : DashboardView.t :=
  let '(mk e u ts _ _ _ d s c g m k i l) := v in mk e u ts t a q d s c g m k i l.
Definition set_unit_id (u : Z) (v : DashboardView.t) : DashboardView.t :=
  let '(mk e _ ts t a q d s c g m k i l) := v in mk e u ts t a q d s c g m k i l.
Definition set_data (d : DashboardData.t) (v : DashboardView.t) : DashboardView.t :=
  let '(mk e u ts t a q _ s c g m k i l) := v in mk e u ts t a q d s c g m k i l.
Definition set_status (s : DashboardStatus.t) (m : Diagnostic.t) (v : DashboardView.t) : DashboardView.t :=
  let '(mk e u ts t a q d _ c g _ k i l) := v in mk e u ts t a q d s c g m k i l.
Definition set_refreshed (c : Z) (g : text) (v : DashboardView.t) : DashboardView.t :=
  let '(mk e u ts t a q d s _ _ m k i l) := v in mk e u ts t a q d s c g m k i l.
Definition set_command (k : CommandMode.t) (i : text) (v : DashboardView.t) : DashboardView.t :=
  let '(mk e u ts t a q d s c g m _ _ l) := v in mk e u ts t a q d s c g m k i l.
Definition set_log (l : list CommandLogEntry.t) (v : DashboardView.t) : DashboardView.t :=
  let '(mk e u ts t a q d s c g m k i _) := v in mk e u ts t a q d s c g m k i l.
Definition set_input (i : text) (v : DashboardView.t) : DashboardView.t := set_command (command_mode v) i v.
(** [clamp(1, self.target.max_quantity())] *)
Definition clamp_quantity (v : DashboardView.t) : DashboardView.t :=
  set_range (target v) (address v) (Z.max 1 (Z.min (DashboardTarget.max_quantity (target v)) (quantity v))) v.
End DashboardView.

Module DashboardApp.
Record t (W : Type) : Type := mk {
  addr : SocketAddr.t; client : W; view : DashboardView.t; refresh_interval : Z; last_refresh : option Z;
  command_history : list text; command_history_cursor : option Z; should_quit : bool
}.
Arguments mk {W}.
Arguments addr {W}.
Arguments client {W}.
Arguments view {W}.
Arguments refresh_interval {W}.
Arguments last_refresh {W}.
Arguments command_history {W}.
Arguments command_history_cursor {W}.
Arguments should_quit {W}.
Section Updates.
Context {W : Type}.
Definition set_client (w : W) (s : t W) : t W := let '(mk a _ v i l h c q) := s in mk a w v i l h c q.
Definition on_view (f : DashboardView.t → DashboardView.t) (s : t W) : t W := let '(mk a w v i l h c q) := s in mk a w (f v) i l h c q.
Definition set_last_refresh (l : option Z) (s : t W) : t W := let '(mk a w v i _ h c q) := s in mk a w v i l h c q.
Definition set_history (h : list text) (s : t W) : t W := let '(mk a w v i l _ c q) := s in mk a w v i l h c q.
Definition set_cursor (c : option Z) (s : t W) : t W := let '(mk a w v i l h _ q) := s in mk a w v i l h c q.
Definition quit (s : t W) : t W := let '(mk a w v i l h c _) := s in mk a w v i l h c true.
End Updates.
End DashboardApp.

(** ** Keys *)
Module KeyCode.
Inductive t : Type := Char (c : Z) | Esc | Enter | Tab | BackTab | Up | Down | Left | Right | PageUp | PageDown | Backspace | Other.
End KeyCode.
(** A key that is pressed, or any other event *)
Module Event.
Inductive t : Type := Press (code : KeyCode.t) | Other.
End Event.
(** One turn of the event loop: the clock when the turn starts and when it refreshes, the
    error if the frame could not be drawn, and what the terminal gives when it is asked for an event:
    an error, nothing in time, or an event *)
Module Turn.
Record t : Type := mk { now : Z; later : Z; drawn : option text; event : text + option Event.t }.
End Turn.
Definition is_char (c : Z) (s : string) : bool := bool_decide ([c] = chars s).

(** [Result] as a value *)
Definition outcome {S E E' A} (m : ST S E A) : ST S E' (res E A) :=
  λ s, let '(r, s) := m s in
       match r with
       | Ok _ | Err _ => (Ok r, s)
       | Panic => (Panic, s)
       | OutOfFuel => (OutOfFuel, s)
       end.

Section Dashboard.
Context (parse_net : text → option (list Z)) (parse_ipv6 : text → option Z) (show_ipv6 : Z → text).
Context {W D : Type} `{Connection W} `{Connection D} `{Patience D} `{Endpoint W D}.
Abbreviation App := (DashboardApp.t W).

Definition new_app (config : DashboardConfig.t) (client : W) : App :=
  let '(DashboardConfig.mk addr unit_id timeout address quantity target refresh_interval) := config in
  let view := DashboardView.mk (show_address show_ipv6 addr) unit_id timeout target address quantity
    DashboardData.Empty DashboardStatus.Connected 0 (chars "not refreshed") (Diagnostic.Line (chars "Ready")) CommandMode.Idle []
    [CommandLogEntry.info (Diagnostic.Line (chars "Press ':' to run read/write/status/help commands."))] in
  DashboardApp.mk addr client (DashboardView.clamp_quantity view) refresh_interval None [] None false.

(** A call of the client *)
Definition on_client {E A} (m : ST W E A) : ST App E A :=
  λ s, let '(r, w) := m (DashboardApp.client s) in (r, DashboardApp.set_client w s).
Definition read_current_target : ST App ClientError.t DashboardData.t :=
  s <- st_get;;
  let v := DashboardApp.view s in
  let unit_ := DashboardView.unit_id v in
  let address := DashboardView.address v in
  let quantity := DashboardView.quantity v in
  match DashboardView.target v with
  | DashboardTarget.HoldingRegisters => values <- on_client (read_holding_registers unit_ address quantity);; st_ret (DashboardData.Registers values)
  | DashboardTarget.InputRegisters => values <- on_client (read_input_registers unit_ address quantity);; st_ret (DashboardData.Registers values)
  | DashboardTarget.Coils => values <- on_client (read_coils unit_ address quantity);; st_ret (DashboardData.Bits values)
  | DashboardTarget.DiscreteInputs => values <- on_client (read_discrete_inputs unit_ address quantity);; st_ret (DashboardData.Bits values)
  end.
Definition refresh (now : Z) : ST App ClientError.t Z :=
  result <- outcome read_current_target;;
  st_modify (λ s, DashboardApp.set_last_refresh (Some now)
    (DashboardApp.on_view (λ v, DashboardView.set_refreshed (Z.min u64_max (DashboardView.refresh_count v + 1)) (chars "now") v) s));;;
  match result with
  | Ok data =>
      let rows := DashboardData.len data in
      st_modify (DashboardApp.on_view (λ v,
        DashboardView.set_status DashboardStatus.Connected (Diagnostic.Line (chars "Refresh OK: " ++ to_string rows ++ chars " values")) (DashboardView.set_data data v)));;;
      st_ret rows
  | Err error =>
      st_modify (DashboardApp.on_view (DashboardView.set_status DashboardStatus.Error (Diagnostic.Failure (chars "Refresh failed: ") error)));;;
      st_err error
  | Panic => st_panic
  | OutOfFuel => st_lift OutOfFuel
  end.

(** [last_refresh.elapsed()], which saturates at zero *)
Definition elapsed (now instant : Z) : Z := Z.max 0 (now - instant).
Definition should_auto_refresh (now : Z) (s : App) : bool :=
  if DashboardApp.refresh_interval s =? 0 then false
  else match DashboardApp.last_refresh s with Some last => DashboardApp.refresh_interval s <=? elapsed now last | None => false end.
Definition needs_initial_refresh (s : App) : bool := match DashboardApp.last_refresh s with None => true | Some _ => false end.
Definition format_elapsed (now instant : Z) : text :=
  let secs := elapsed now instant / 1000000000 in
  if secs =? 0 then chars "now" else to_string secs ++ chars "s ago".
Definition update_refresh_age (now : Z) (s : App) : App :=
  let age := match DashboardApp.last_refresh s with Some last => format_elapsed now last | None => chars "not refreshed" end in
  DashboardApp.on_view (λ v, DashboardView.set_refreshed (DashboardView.refresh_count v) age v) s.

(** ** The log and the history *)
Definition push_log (entry : CommandLogEntry.t) (s : App) : App :=
  DashboardApp.on_view (λ v,
    let log := DashboardView.command_log v in
    DashboardView.set_log ((if blen log =? MAX_COMMAND_LOG then tail log else log) ++ [entry]) v) s.
Definition push_history (command : text) (s : App) : App :=
  let h := DashboardApp.command_history s in
  if bool_decide (last h = Some command) then s
  else DashboardApp.set_history ((if blen h =? MAX_COMMAND_HISTORY then tail h else h) ++ [command]) s.
(** The cursor is put on an entry, and the entry on the input line. *)
Definition recall {E} (index : Z) : ST App E unit :=
  s <- st_get;;
  st_modify (DashboardApp.set_cursor (Some index));;;
  command <- st_lift (idx (DashboardApp.command_history s) index);;
  st_modify (DashboardApp.on_view (DashboardView.set_input command)).
Definition recall_previous_command {E} : ST App E unit :=
  s <- st_get;;
  if is_empty (DashboardApp.command_history s) then st_ret tt else
  recall (match DashboardApp.command_history_cursor s with
          | None => blen (DashboardApp.command_history s) - 1
          | Some index => Z.max 0 (index - 1)
          end).
Definition recall_next_command {E} : ST App E unit :=
  s <- st_get;;
  match DashboardApp.command_history_cursor s with
  | None => st_ret tt
  | Some index =>
      if index + 1 =? blen (DashboardApp.command_history s)
      then st_modify (λ s, DashboardApp.on_view (DashboardView.set_input []) (DashboardApp.set_cursor None s))
      else recall (index + 1)
  end.
Definition set_target (target : DashboardTarget.t) : ST App Empty_set bool :=
  s <- st_get;;
  let v := DashboardApp.view s in
  if bool_decide (DashboardView.target v = target) then st_ret false else
  st_modify (DashboardApp.on_view (λ v,
    DashboardView.clamp_quantity (DashboardView.set_range target (DashboardView.address v) (DashboardView.quantity v) v)));;;
  st_ret true.

(** ** Commands (dashboard/commands.rs) *)
Definition log (entry : CommandLogEntry.t) : ST App Empty_set unit := st_modify (push_log entry).
Definition record_error (message : Diagnostic.t) : ST App Empty_set unit :=
  st_modify (DashboardApp.on_view (DashboardView.set_status DashboardStatus.Error message));;;
  log (CommandLogEntry.error message).
(** [let _ = self.refresh().await] *)
Definition refresh_anyway {E} (now : Z) : ST App E unit := outcome (refresh now);;; st_ret tt.
Definition read_target (now : Z) (target : DashboardTarget.t) (address quantity : Z) : ST App Empty_set unit :=
  st_modify (DashboardApp.on_view (λ v, DashboardView.clamp_quantity (DashboardView.set_range target address quantity v)));;;
  result <- outcome (refresh now);;
  match result with
  | Ok rows => log (CommandLogEntry.success (Diagnostic.Line
      (chars "Read " ++ to_string rows ++ chars " " ++ DashboardTarget.short_label target ++ chars " values from " ++ to_string address)))
  | Err error => log (CommandLogEntry.error (Diagnostic.Failure (chars "Read failed: ") error))
  | Panic => st_panic
  | OutOfFuel => st_lift OutOfFuel
  end.
Definition finish_write (now : Z) (result : res ClientError.t unit) (target : DashboardTarget.t) (address quantity : Z) : ST App Empty_set unit :=
  match result with
  | Ok _ =>
      log (CommandLogEntry.success (Diagnostic.Line
        (chars "Write OK: " ++ to_string quantity ++ chars " " ++ DashboardTarget.short_label target ++ chars " values at " ++ to_string address)));;;
      st_modify (DashboardApp.on_view (λ v, DashboardView.clamp_quantity (DashboardView.set_range target address (Z.max quantity 1) v)));;;
      refresh_anyway now
  | Err error => record_error (Diagnostic.Failure (chars "Write failed: ") error)
  | Panic => st_panic
  | OutOfFuel => st_lift OutOfFuel
  end.
Definition format_device (device : DiscoveredDevice.t) : text :=
  let unit_ := chars "Unit " ++ right_aligned 3 (to_string (DiscoveredDevice.unit_id device)) in
  match DiscoveredDevice.vendor_name device, DiscoveredDevice.product_code device, DiscoveredDevice.revision device with
  | Some vendor, Some product, Some rev => unit_ ++ chars ": [" ++ vendor ++ chars "] " ++ product ++ chars " rev " ++ rev
  | _, _, _ => unit_ ++ chars ": (no device identification)"
  end.
(** [for x in xs { self.push_log(entry(x)) }] *)
Definition log_each {A} (entry : A → CommandLogEntry.t) (xs : list A) : ST App Empty_set unit :=
  st_modify (λ s, foldl (λ s x, push_log (entry x) s) s xs).
Definition record_discovery (report : DiscoveryReport.t) : ST App Empty_set unit :=
  s <- st_get;;
  let endpoint := DashboardView.endpoint (DashboardApp.view s) in
  let devices := concat (map HostResult.devices (DiscoveryReport.results report)) in
  if is_empty devices then log (CommandLogEntry.info (Diagnostic.Line (chars "Discovery OK: no responding unit IDs on " ++ endpoint))) else
  log (CommandLogEntry.success (Diagnostic.Line
    (chars "Discovery OK: " ++ to_string (blen devices) ++ chars " responding unit IDs on " ++ endpoint)));;;
  log_each (λ device, CommandLogEntry.info (Diagnostic.Line (format_device device))) (take DISCOVERY_LOG_LIMIT devices).
Definition discover_on_host (unit_id_range : text) : ST App Empty_set unit :=
  s <- st_get;;
  let addr := DashboardApp.addr s in
  let config := DiscoverConfig.mk None (Some (show_ip show_ipv6 (SocketAddr.ip addr))) (SocketAddr.port addr) unit_id_range
    (DashboardView.timeout_secs (DashboardApp.view s)) DISCOVERY_CONCURRENCY OutputFormat.Human in
  match scan parse_net parse_ipv6 show_ipv6 (network_of (DashboardApp.client s)) config with
  | Ok report => record_discovery report
  | Err error => record_error (Diagnostic.DiscoverFailure (chars "Discovery failed: ") error)
  | Panic => st_panic
  | OutOfFuel => st_lift OutOfFuel
  end.
(** [u16::try_from(values.len()).unwrap_or(u16::MAX)] *)
Definition quantity_of {A} (values : list A) : Z := if blen values <=? u16_max then blen values else u16_max.
(** A write with the unit ID of the view *)
Definition write_unit (write : Z → ST W ClientError.t unit) : ST App Empty_set (res ClientError.t unit) :=
  s <- st_get;; outcome (on_client (write (DashboardView.unit_id (DashboardApp.view s)))).
Definition execute_shell_command (now : Z) (command : ShellCommand.t) : ST App Empty_set unit :=
  match command with
  | ShellCommand.ReadCoils address quantity => read_target now DashboardTarget.Coils address quantity
  | ShellCommand.ReadDiscreteInputs address quantity => read_target now DashboardTarget.DiscreteInputs address quantity
  | ShellCommand.ReadHoldingRegisters address quantity => read_target now DashboardTarget.HoldingRegisters address quantity
  | ShellCommand.ReadInputRegisters address quantity => read_target now DashboardTarget.InputRegisters address quantity
  | ShellCommand.WriteCoil address value =>
      result <- write_unit (λ unit_, write_single_coil unit_ address value);;
      finish_write now result DashboardTarget.Coils address 1
  | ShellCommand.WriteCoils address values =>
      result <- write_unit (λ unit_, write_multiple_coils unit_ address values);;
      finish_write now result DashboardTarget.Coils address (quantity_of values)
  | ShellCommand.WriteRegister address value =>
      result <- write_unit (λ unit_, write_single_register unit_ address value);;
      finish_write now result DashboardTarget.HoldingRegisters address 1
  | ShellCommand.WriteRegisters address values =>
      result <- write_unit (λ unit_, write_multiple_registers unit_ address values);;
      finish_write now result DashboardTarget.HoldingRegisters address (quantity_of values)
  | ShellCommand.SetUnitId id =>
      st_modify (DashboardApp.on_view (DashboardView.set_unit_id id));;;
      log (CommandLogEntry.success (Diagnostic.Line (chars "Unit ID set to " ++ to_string id)));;;
      refresh_anyway now
  | ShellCommand.DiscoverUnits unit_id_range => discover_on_host unit_id_range
  | ShellCommand.Status =>
      s <- st_get;;
      log (CommandLogEntry.info (Diagnostic.Line
        (chars "Endpoint " ++ DashboardView.endpoint (DashboardApp.view s) ++ chars " unit " ++ to_string (DashboardView.unit_id (DashboardApp.view s)) ++
         chars " connected " ++ show_bool (is_connected (D := D) (DashboardApp.client s)))))
  | ShellCommand.Help => log_each (λ line, CommandLogEntry.info (Diagnostic.Line line)) HELP_LINES
  | ShellCommand.Exit => st_modify DashboardApp.quit
  | ShellCommand.Empty => st_ret tt
  end.
Definition execute_command_line (now : Z) (line : text) : ST App Empty_set unit :=
  let trimmed := trim line in
  if is_empty trimmed then st_ret tt else
  st_modify (push_history trimmed);;;
  log (CommandLogEntry.info (Diagnostic.Line (chars "> " ++ trimmed)));;;
  match parse_command trimmed with
  | Ok command => execute_shell_command now command
  | Err error => record_error (Diagnostic.Line (chars "Parse error: " ++ ParseError.message error))
  | Panic => st_panic
  | OutOfFuel => st_lift OutOfFuel
  end.

(** ** Key handling *)
Definition complete_command_input : ST App Empty_set unit :=
  s <- st_get;;
  completion <- st_lift (complete_command (DashboardView.command_input (DashboardApp.view s)));;
  match completion with
  | Some completion => st_modify (λ s, DashboardApp.set_cursor None (DashboardApp.on_view (DashboardView.set_input completion) s))
  | None => st_ret tt
  end.
Definition handle_command_key (now : Z) (code : KeyCode.t) : ST App Empty_set unit :=
  match code with
  | KeyCode.Esc =>
      st_modify (λ s, DashboardApp.set_cursor None (DashboardApp.on_view (DashboardView.set_command CommandMode.Idle []) s))
  | KeyCode.Enter =>
      s <- st_get;;
      let command := DashboardView.command_input (DashboardApp.view s) in
      st_modify (λ s, DashboardApp.set_cursor None (DashboardApp.on_view (DashboardView.set_command CommandMode.Idle []) s));;;
      execute_command_line now command
  | KeyCode.Up => recall_previous_command
  | KeyCode.Down => recall_next_command
  | KeyCode.Tab => complete_command_input
  | KeyCode.Backspace =>
      st_modify (λ s, DashboardApp.set_cursor None (DashboardApp.on_view (λ v, DashboardView.set_input (removelast (DashboardView.command_input v)) v) s))
  | KeyCode.Char c =>
      st_modify (λ s, DashboardApp.set_cursor None (DashboardApp.on_view (λ v, DashboardView.set_input (DashboardView.command_input v ++ [c]) v) s))
  | _ => st_ret tt
  end.
(** A key that moves or resizes the range *)
Definition move_range (address quantity : Z → Z → Z) : ST App Empty_set bool :=
  st_modify (DashboardApp.on_view (λ v,
    let a := DashboardView.address v in
    let q := DashboardView.quantity v in
    DashboardView.set_range (DashboardView.target v) (address a q) (quantity a q) v));;;
  st_ret true.
Definition handle_key (now : Z) (code : KeyCode.t) : ST App Empty_set bool :=
  s <- st_get;;
  let target := DashboardView.target (DashboardApp.view s) in
  if bool_decide (DashboardView.command_mode (DashboardApp.view s) = CommandMode.Editing) then handle_command_key now code;;; st_ret false else
  match code with
  | KeyCode.Esc => st_modify DashboardApp.quit;;; st_ret false
  | KeyCode.Char c =>
      if is_char c "q" then st_modify DashboardApp.quit;;; st_ret false
      else if is_char c ":" then st_modify (DashboardApp.on_view (DashboardView.set_command CommandMode.Editing []));;; st_ret false
      else if is_char c "r" then st_ret true
      else if is_char c "1" then set_target DashboardTarget.HoldingRegisters
      else if is_char c "2" then set_target DashboardTarget.InputRegisters
      else if is_char c "3" then set_target DashboardTarget.Coils
      else if is_char c "4" then set_target DashboardTarget.DiscreteInputs
      else if is_char c "+" || is_char c "=" then
        st_modify (DashboardApp.on_view (λ v, DashboardView.clamp_quantity
          (DashboardView.set_range (DashboardView.target v) (DashboardView.address v) (Z.min u16_max (DashboardView.quantity v + 1)) v)));;;
        st_ret true
      else if is_char c "-" then move_range (λ a _, a) (λ _ q, Z.max (Z.max 0 (q - 1)) 1)
      else st_ret false
  | KeyCode.Tab | KeyCode.Down => target <- st_lift (DashboardTarget.next target);; set_target target
  | KeyCode.BackTab | KeyCode.Up => target <- st_lift (DashboardTarget.previous target);; set_target target
  | KeyCode.PageDown | KeyCode.Right => move_range (λ a q, Z.min u16_max (a + Z.max q 1)) (λ _ q, q)
  | KeyCode.PageUp | KeyCode.Left => move_range (λ a q, Z.max 0 (a - Z.max q 1)) (λ _ q, q)
  | _ => st_ret false
  end.

(** ** The event loop *)
Definition never_fails {E A} (m : ST App Empty_set A) : ST App E A :=
  λ s, let '(r, s) := m s in (Prelude.infallible r, s).
Definition loop_turn (turn : Turn.t) : ST App text unit :=
  st_modify (update_refresh_age (Turn.now turn));;;
  match Turn.drawn turn with Some error => st_err error | None => st_ret tt end;;;
  s <- st_get;;
  if needs_initial_refresh s || should_auto_refresh (Turn.now turn) s then refresh_anyway (Turn.later turn) else
  match Turn.event turn with
  | inl error => st_err error
  | inr (Some (Event.Press code)) =>
      moved <- never_fails (handle_key (Turn.later turn) code);;
      if moved : bool then refresh_anyway (Turn.later turn) else st_ret tt
  | inr _ => st_ret tt
  end.
Fixpoint run_loop (turns : list Turn.t) : ST App text unit :=
  match turns with
  | [] => st_ret tt
  | turn :: turns =>
      s <- st_get;;
      if DashboardApp.should_quit s then st_ret tt else loop_turn turn;;; run_loop turns
  end.
End Dashboard.

(** ** The rows of the table (dashboard/render.rs) *)
Fixpoint rows_from {A} (row : A → list text) (address offset : Z) (values : list A) : list (list text) :=
  match values with
  | [] => []
  | v :: values => (to_string (display_address address offset) :: row v) :: rows_from row address (offset + 1) values
  end.
Definition data_rows (view : DashboardView.t) : list (list text) :=
  match DashboardView.data view with
  | DashboardData.Registers values =>
      rows_from (λ v, [hex_06 v; to_string v; chars "register"]) (DashboardView.address view) 0 values
  | DashboardData.Bits values =>
      rows_from (λ v : bool, [if v then chars "1" else chars "0"; if v then chars "1" else chars "0"; if v then chars "ON" else chars "OFF"])
        (DashboardView.address view) 0 values
  | DashboardData.Empty => [[chars "-"; chars "-"; chars "-"; chars "no data"]]
  end.

(** * Specification *)

(** The call that reads the range that is shown, and what is shown of its result *)
Record reading : Type := Reading { reading_result : Type; reading_call : Call.t reading_result; reading_data : reading_result → DashboardData.t }.
Definition reading_of (v : DashboardView.t) : reading :=
  let a := DashboardView.address v in
  let q := DashboardView.quantity v in
  match DashboardView.target v with
  | DashboardTarget.HoldingRegisters => Reading _ (Call.ReadHoldingRegisters a q) DashboardData.Registers
  | DashboardTarget.InputRegisters => Reading _ (Call.ReadInputRegisters a q) DashboardData.Registers
  | DashboardTarget.Coils => Reading _ (Call.ReadCoils a q) DashboardData.Bits
  | DashboardTarget.DiscreteInputs => Reading _ (Call.ReadDiscreteInputs a q) DashboardData.Bits
  end.
(** The commands that write *)
Definition write_call (cmd : ShellCommand.t) : option (Call.t unit) :=
  match cmd with
  | ShellCommand.WriteCoil a v => Some (Call.WriteSingleCoil a v)
  | ShellCommand.WriteCoils a vs => Some (Call.WriteMultipleCoils a vs)
  | ShellCommand.WriteRegister a v => Some (Call.WriteSingleRegister a v)
  | ShellCommand.WriteRegisters a vs => Some (Call.WriteMultipleRegisters a vs)
  | _ => None
  end.
(** The commands that choose what is shown *)
Definition names_range (cmd : ShellCommand.t) : bool :=
  match cmd with
  | ShellCommand.ReadCoils _ _ | ShellCommand.ReadDiscreteInputs _ _ | ShellCommand.ReadHoldingRegisters _ _ | ShellCommand.ReadInputRegisters _ _
  | ShellCommand.SetUnitId _ => true
  | _ => false
  end.
(** The command a key enters *)
Definition enters {W} (s : DashboardApp.t W) (code : KeyCode.t) (cmd : ShellCommand.t) : Prop :=
  DashboardView.command_mode (DashboardApp.view s) = CommandMode.Editing ∧ code = KeyCode.Enter ∧
  ∃ ws, laid_out (DashboardView.command_input (DashboardApp.view s)) ws ∧ command_form ws cmd.

Record app_ok {W} (s : DashboardApp.t W) : Prop := {
  ok_unit : is_u8 (DashboardView.unit_id (DashboardApp.view s));
  ok_address : is_u16 (DashboardView.address (DashboardApp.view s));
  ok_quantity : 1 ≤ DashboardView.quantity (DashboardApp.view s) ≤ DashboardTarget.max_quantity (DashboardView.target (DashboardApp.view s));
  ok_count : 0 ≤ DashboardView.refresh_count (DashboardApp.view s) ≤ u64_max;
  ok_log : 1 ≤ blen (DashboardView.command_log (DashboardApp.view s)) ≤ MAX_COMMAND_LOG;
  ok_history : blen (DashboardApp.command_history s) ≤ MAX_COMMAND_HISTORY;
  ok_commands : Forall (λ c, ∃ w ws, laid_out c (w :: ws)) (DashboardApp.command_history s);
  (** no command twice in a row *)
  ok_distinct : ∀ i c, DashboardApp.command_history s !! i = Some c → DashboardApp.command_history s !! S i ≠ Some c;
  (** the cursor is on the command that is on the input line *)
  ok_cursor : ∀ i, DashboardApp.command_history_cursor s = Some i →
    DashboardView.command_mode (DashboardApp.view s) = CommandMode.Editing ∧
    get (DashboardApp.command_history s) i = Some (DashboardView.command_input (DashboardApp.view s));
  ok_idle : DashboardView.command_mode (DashboardApp.view s) = CommandMode.Idle → DashboardView.command_input (DashboardApp.view s) = [];
}.

(** ** The range that is shown: unit, table, address and quantity *)
Definition table_limit (t : DashboardTarget.t) : Z :=
  match t with DashboardTarget.HoldingRegisters | DashboardTarget.InputRegisters => 125 | DashboardTarget.Coils | DashboardTarget.DiscreteInputs => 2000 end.
Definition within (u : Z) (t : DashboardTarget.t) (a q : Z) : Z * DashboardTarget.t * Z * Z := (u, t, a, Z.max 1 (Z.min (table_limit t) q)).
Definition turned (forward : bool) (t : DashboardTarget.t) : DashboardTarget.t :=
  match t with
  | DashboardTarget.HoldingRegisters => if forward then DashboardTarget.InputRegisters else DashboardTarget.DiscreteInputs
  | DashboardTarget.InputRegisters => if forward then DashboardTarget.Coils else DashboardTarget.HoldingRegisters
  | DashboardTarget.Coils => if forward then DashboardTarget.DiscreteInputs else DashboardTarget.InputRegisters
  | DashboardTarget.DiscreteInputs => if forward then DashboardTarget.HoldingRegisters else DashboardTarget.Coils
  end.
(** What a key does to it while no command is being edited *)
Definition pressed (code : KeyCode.t) (r : Z * DashboardTarget.t * Z * Z) : Z * DashboardTarget.t * Z * Z :=
  let '(u, t, a, q) := r in
  match code with
  | KeyCode.Tab | KeyCode.Down => within u (turned true t) a q
  | KeyCode.BackTab | KeyCode.Up => within u (turned false t) a q
  | KeyCode.PageDown | KeyCode.Right => (u, t, Z.min 65535 (a + q), q)
  | KeyCode.PageUp | KeyCode.Left => (u, t, Z.max 0 (a - q), q)
  | KeyCode.Char c =>
      if c =? 49 then within u DashboardTarget.HoldingRegisters a q
      else if c =? 50 then within u DashboardTarget.InputRegisters a q
      else if c =? 51 then within u DashboardTarget.Coils a q
      else if c =? 52 then within u DashboardTarget.DiscreteInputs a q
      else if (c =? 43) || (c =? 61) then within u t a (q + 1)
      else if c =? 45 then within u t a (q - 1)
      else r
  | _ => r
  end.
(** What a command makes of it; a write that fails leaves it as it is *)
Definition command_range (cmd : ShellCommand.t) (r r' : Z * DashboardTarget.t * Z * Z) : Prop :=
  let '(u, t, a, q) := r in
  match cmd with
  | ShellCommand.ReadCoils a q => r' = within u DashboardTarget.Coils a q
  | ShellCommand.ReadDiscreteInputs a q => r' = within u DashboardTarget.DiscreteInputs a q
  | ShellCommand.ReadHoldingRegisters a q => r' = within u DashboardTarget.HoldingRegisters a q
  | ShellCommand.ReadInputRegisters a q => r' = within u DashboardTarget.InputRegisters a q
  | ShellCommand.WriteCoil a _ => r' = r ∨ r' = within u DashboardTarget.Coils a 1
  | ShellCommand.WriteCoils a values => r' = r ∨ r' = within u DashboardTarget.Coils a (blen values)
  | ShellCommand.WriteRegister a _ => r' = r ∨ r' = within u DashboardTarget.HoldingRegisters a 1
  | ShellCommand.WriteRegisters a values => r' = r ∨ r' = within u DashboardTarget.HoldingRegisters a (blen values)
  | ShellCommand.SetUnitId id => r' = (id, t, a, q)
  | ShellCommand.DiscoverUnits _ | ShellCommand.Status | ShellCommand.Help | ShellCommand.Exit | ShellCommand.Empty => r' = r
  end.

Definition written_range (u : Z) (cmd : ShellCommand.t) : option (Z * DashboardTarget.t * Z * Z) :=
  match cmd with
  | ShellCommand.WriteCoil a _ => Some (within u DashboardTarget.Coils a 1)
  | ShellCommand.WriteCoils a values => Some (within u DashboardTarget.Coils a (blen values))
  | ShellCommand.WriteRegister a _ => Some (within u DashboardTarget.HoldingRegisters a 1)
  | ShellCommand.WriteRegisters a values => Some (within u DashboardTarget.HoldingRegisters a (blen values))
  | _ => None
  end.

(** ** What a turn does, over any client

    [inv] is the invariant of the client, [reach] the units it can talk to, and [ending] how
    its calls end. *)
Class Served {W} `{Connection W} (inv : W → Prop) (reach : Z → Prop) (ending : ∀ A, Z → Call.t A → W → res ClientError.t A → W → Prop) : Prop :=
  call_ends A u (k : Call.t A) w : inv w → Call.args_ok k → reach u →
    ∃ r w', perform u k w = (r, w') ∧ returns r ∧ inv w' ∧ ending A u k w r w'.

Section Effects.
Context {W : Type} (ending : ∀ A, Z → Call.t A → W → res ClientError.t A → W → Prop).
Implicit Types s : DashboardApp.t W.
Definition range_of s : Z * DashboardTarget.t * Z * Z :=
  let v := DashboardApp.view s in (DashboardView.unit_id v, DashboardView.target v, DashboardView.address v, DashboardView.quantity v).
Definition unit_of s : Z := DashboardView.unit_id (DashboardApp.view s).
Definition data_of s : DashboardData.t := DashboardView.data (DashboardApp.view s).
Definition status_of s : DashboardStatus.t := DashboardView.status (DashboardApp.view s).
(** Nothing that the data depends on changes. *)
Definition still s s' : Prop := range_of s' = range_of s ∧ data_of s' = data_of s ∧ DashboardApp.last_refresh s' = DashboardApp.last_refresh s.
Definition quiet s s' : Prop := still s s' ∧ DashboardApp.client s' = DashboardApp.client s ∧ status_of s' = status_of s.
(** The range of [s'] was read, from the client [w] *)
Definition refreshes (w : W) s' : Prop :=
  let g := reading_of (DashboardApp.view s') in
  ∃ r, ending _ (unit_of s') (reading_call g) w r (DashboardApp.client s') ∧ DashboardApp.last_refresh s' ≠ None ∧
    match r with
    | Ok x => status_of s' = DashboardStatus.Connected ∧ data_of s' = reading_data g x
    | _ => status_of s' = DashboardStatus.Error
    end.
Inductive effect (entered : ShellCommand.t → Prop) s s' : Prop :=
  | effect_quiet : quiet s s' → effect entered s s'
  | effect_failed : still s s' → DashboardApp.client s' = DashboardApp.client s → status_of s' = DashboardStatus.Error → effect entered s s'
  | effect_refreshed : unit_of s' = unit_of s ∨ entered (ShellCommand.SetUnitId (unit_of s')) → refreshes (DashboardApp.client s) s' → effect entered s s'
  | effect_write_failed cmd k e : entered cmd → write_call cmd = Some k → still s s' → status_of s' = DashboardStatus.Error →
      ending _ (unit_of s) k (DashboardApp.client s) (Err e) (DashboardApp.client s') → effect entered s s'
  | effect_written cmd k w : entered cmd → write_call cmd = Some k → unit_of s' = unit_of s →
      ending _ (unit_of s) k (DashboardApp.client s) (Ok tt) w → refreshes w s' → effect entered s s'.
(** What an entered command does: a write is sent, and unless it fails the range that was
    written is read; the commands that name a range or a unit read it. *)
Definition written (cmd : ShellCommand.t) (k : Call.t unit) s s' : Prop :=
  (∃ e, still s s' ∧ status_of s' = DashboardStatus.Error ∧ ending _ (unit_of s) k (DashboardApp.client s) (Err e) (DashboardApp.client s')) ∨
  ∃ w, ending _ (unit_of s) k (DashboardApp.client s) (Ok tt) w ∧ refreshes w s' ∧ written_range (unit_of s) cmd = Some (range_of s').
Definition answers (cmd : ShellCommand.t) s s' : Prop :=
  match write_call cmd with
  | Some k => written cmd k s s'
  | None => names_range cmd = true → refreshes (DashboardApp.client s) s'
  end.
End Effects.

(** * Lemmas *)

Lemma effect_mono {W} ending (P Q : ShellCommand.t → Prop) (s s' : DashboardApp.t W) : (∀ cmd, P cmd → Q cmd) → effect ending P s s' → effect ending Q s s'.
Proof.
  intros HPQ He. destruct He as [?|? ? ?|[?|?] ?|? ? ? ? ? ? ? ?|? ? ? ? ? ? ? ?];
    [by apply effect_quiet|by apply effect_failed|by apply effect_refreshed; [left|]|by apply effect_refreshed; [right; auto|]|by eapply effect_write_failed; eauto|by eapply effect_written; eauto].
Qed.
Section State.
Context {W : Type}.
Implicit Types (s : DashboardApp.t W) (v : DashboardView.t).

(** ** The invariant and the parts of the state *)
Lemma app_ok_range t a q s : app_ok s → is_u16 a → 1 ≤ q ≤ DashboardTarget.max_quantity t →
  app_ok (DashboardApp.on_view (DashboardView.set_range t a q) s).
Proof. destruct s as [? ? [] ? ? ? ? ?]. by intros [] ? ?. Qed.
Lemma app_ok_clamped t a q s : app_ok s → is_u16 a →
  app_ok (DashboardApp.on_view (λ v, DashboardView.clamp_quantity (DashboardView.set_range t a q v)) s).
Proof.
  intros Hs Ha. pose proof (app_ok_range t a (Z.max 1 (Z.min (DashboardTarget.max_quantity t) q)) s Hs Ha) as Hok.
  destruct s as [? ? [] ? ? ? ? ?]. apply Hok. destruct t; cbn; lia.
Qed.
Lemma app_ok_unit u s : app_ok s → is_u8 u → app_ok (DashboardApp.on_view (DashboardView.set_unit_id u) s).
Proof. destruct s as [? ? [] ? ? ? ? ?]. by intros [] ?. Qed.
Lemma app_ok_status st m s : app_ok s → app_ok (DashboardApp.on_view (DashboardView.set_status st m) s).
Proof. destruct s as [? ? [] ? ? ? ? ?]. by intros []. Qed.
Lemma app_ok_data d s : app_ok s → app_ok (DashboardApp.on_view (DashboardView.set_data d) s).
Proof. destruct s as [? ? [] ? ? ? ? ?]. by intros []. Qed.
Lemma app_ok_refreshed (c : Z → Z) g s : app_ok s → (∀ n, 0 ≤ n ≤ u64_max → 0 ≤ c n ≤ u64_max) →
  app_ok (DashboardApp.on_view (λ v, DashboardView.set_refreshed (c (DashboardView.refresh_count v)) g v) s).
Proof. destruct s as [? ? [] ? ? ? ? ?]. intros [] Hc. split; try done. by apply Hc. Qed.
Lemma app_ok_client w s : app_ok s → app_ok (DashboardApp.set_client w s).
Proof. destruct s as [? ? [] ? ? ? ? ?]. by intros []. Qed.
Lemma app_ok_last l s : app_ok s → app_ok (DashboardApp.set_last_refresh l s).
Proof. destruct s as [? ? [] ? ? ? ? ?]. by intros []. Qed.
Lemma app_ok_quit s : app_ok s → app_ok (DashboardApp.quit s).
Proof. destruct s as [? ? [] ? ? ? ? ?]. by intros []. Qed.
(** The input line, with the cursor off the history *)
Lemma app_ok_command k i s : app_ok s → (k = CommandMode.Idle → i = []) →
  app_ok (DashboardApp.set_cursor None (DashboardApp.on_view (DashboardView.set_command k i) s)).
Proof. destruct s as [? ? [] ? ? ? ? ?]. by intros [] ?. Qed.
Lemma app_ok_input (i : DashboardView.t → text) s : app_ok s → DashboardView.command_mode (DashboardApp.view s) = CommandMode.Editing →
  app_ok (DashboardApp.set_cursor None (DashboardApp.on_view (λ v, DashboardView.set_input (i v) v) s)).
Proof. destruct s as [? ? [] ? ? ? ? ?]. cbn. intros [] Hk. split; try done. cbn in *. congruence. Qed.
Lemma app_ok_editing s : app_ok s → DashboardView.command_mode (DashboardApp.view s) ≠ CommandMode.Editing →
  app_ok (DashboardApp.on_view (DashboardView.set_command CommandMode.Editing []) s).
Proof. destruct s as [? ? [] ? ? ? ? ?]. cbn. intros [] Hk. split; try done. intros i Hi. by destruct (ok_cursor0 i Hi). Qed.

Lemma blen_tail {A} (l : list A) : l ≠ [] → blen (tail l) = blen l - 1.
Proof. destruct l; [done|]. intros _. rewrite blen_cons. cbn [tail]. lia. Qed.
Lemma blen_pushed {A} (l : list A) (m : Z) x : 1 ≤ m → blen l ≤ m → 1 ≤ blen ((if blen l =? m then tail l else l) ++ [x]) ≤ m.
Proof.
  intros Hm Hl. rewrite blen_app. pose proof (blen_nonneg l). change (blen [x]) with 1. destruct (Z.eqb_spec (blen l) m) as [Heq|Hne]; [|lia].
  rewrite blen_tail; [lia|]. intros ->. unfold blen in Heq. cbn in Heq. lia.
Qed.
Lemma push_log_ok entry s : app_ok s → app_ok (push_log entry s).
Proof.
  destruct s as [? ? [] ? ? ? ? ?]. intros []. split; try done. cbn in *. apply blen_pushed; unfold MAX_COMMAND_LOG in *; lia.
Qed.
Lemma log_each_ok {A} (entry : A → CommandLogEntry.t) xs s : app_ok s → app_ok (foldl (λ s x, push_log (entry x) s) s xs).
Proof. revert s. induction xs as [|x xs IH]; intros s Hs; [done|]. by apply IH, push_log_ok. Qed.
(** No entry twice in a row *)
Lemma distinct_tail {A} (h : list A) : (∀ i c, h !! i = Some c → h !! S i ≠ Some c) → ∀ i c, tail h !! i = Some c → tail h !! S i ≠ Some c.
Proof. destruct h as [|x h]; [done|]. intros Hd i c. exact (Hd (S i) c). Qed.
Lemma distinct_snoc {A} (h : list A) x : (∀ i c, h !! i = Some c → h !! S i ≠ Some c) → last h ≠ Some x →
  ∀ i c, (h ++ [x]) !! i = Some c → (h ++ [x]) !! S i ≠ Some c.
Proof.
  intros Hd Hl i c Hi Hs. apply lookup_app_Some in Hs as [Hs|[Hge Hs]].
  - rewrite lookup_app_l in Hi by (apply lookup_lt_Some in Hs; lia). by destruct (Hd i c).
  - apply list_lookup_singleton_Some in Hs as [Hz <-]. rewrite lookup_app_l in Hi by lia. apply Hl.
    rewrite last_lookup. by replace (pred (length h)) with i by lia.
Qed.
Lemma last_tail {A} (h : list A) x : last (tail h) = Some x → last h = Some x.
Proof. destruct h as [|y [|z h]]; done. Qed.
Lemma Forall_tail {A} (P : A → Prop) (h : list A) : Forall P h → Forall P (tail h).
Proof. by destruct 1. Qed.
Lemma push_history_ok command s : app_ok s → split_whitespace command ≠ [] → DashboardApp.command_history_cursor s = None → app_ok (push_history command s).
Proof.
  intros Hs Hc Hcur. unfold push_history. case_bool_decide as Hl; [done|].
  destruct s as [? ? [] ? ? h cur ?]. cbn in Hcur, Hl. subst cur. destruct Hs as [? ? ? ? ? Hlen Hall Hd ? ?]. cbn [DashboardApp.command_history DashboardApp.set_history] in *.
  split; try done; cbn [DashboardApp.command_history].
  - apply blen_pushed; unfold MAX_COMMAND_HISTORY in *; lia.
  - apply Forall_app. split; [case_match; [by apply Forall_tail|done]|]. constructor; [|constructor].
    destruct (split_whitespace command) as [|w ws] eqn:Hw; [done|]. exists w, ws. by apply split_whitespace_exact.
  - apply distinct_snoc; [case_match; [by apply distinct_tail|done]|]. case_match; [|done]. intros Ht. by apply Hl, last_tail.
Qed.
End State.

Lemma within_quantity {A} u t a (values : list A) : within u t a (Z.max (quantity_of values) 1) = within u t a (blen values).
Proof. unfold within, quantity_of, u16_max. pose proof (blen_nonneg values). f_equal. destruct t; cbn; case_match; lia. Qed.
Lemma clamped_range {W} t a q (s : DashboardApp.t W) : range_of (DashboardApp.on_view (λ v, DashboardView.clamp_quantity (DashboardView.set_range t a q v)) s) = within (unit_of s) t a q.
Proof. destruct s as [? ? [] ? ? ? ? ?]. cbn. unfold range_of, within. cbn. by destruct t. Qed.

(** ** Command lines *)
Lemma is_empty_nil {A} (l : list A) : is_empty l = true → l = [].
Proof. destruct l as [|x l]; [done|]. unfold is_empty. rewrite blen_cons. pose proof (blen_nonneg l). lia. Qed.
Lemma parse_command_trim line ws cmd : laid_out line ws → command_form ws cmd → parse_command (trim line) = Ok cmd.
Proof.
  intros Hws Hf. destruct (parse_command_spec (trim line)) as (_ & Hform & _). apply Hform. exists ws. split; [|done].
  apply split_whitespace_exact. rewrite split_whitespace_trim. by apply split_whitespace_exact.
Qed.

Section Turns.
Context (parse_net : text → option (list Z)) (parse_ipv6 : text → option Z) (show_ipv6 : Z → text).
Context {W D : Type} `{Connection W} `{Connection D} `{Patience D} `{Endpoint W D}.
Context (inv : W → Prop) (reach : Z → Prop) (ending : ∀ A, Z → Call.t A → W → res ClientError.t A → W → Prop) `{!Served inv reach ending}.
Implicit Types s : DashboardApp.t W.

Definition good s : Prop := app_ok s ∧ inv (DashboardApp.client s).

(** ** Quiet operations *)
Lemma quiet_refl s : quiet s s.
Proof. done. Qed.
Lemma quiet_trans s1 s2 s3 : quiet s1 s2 → quiet s2 s3 → quiet s1 s3.
Proof. unfold quiet, still. intros ((? & ? & ?) & ? & ?) ((? & ? & ?) & ? & ?). split_and!; congruence. Qed.
Lemma quiet_good s s' : quiet s s' → good s → app_ok s' → good s'.
Proof. intros (_ & Hc & _) [_ Hi] Hok. split; [done|]. by rewrite Hc. Qed.
Lemma quiet_log entry s : quiet s (push_log entry s).
Proof. by destruct s as [? ? [] ? ? ? ? ?]. Qed.
Lemma quiet_log_each {A} (entry : A → CommandLogEntry.t) xs s : quiet s (foldl (λ s x, push_log (entry x) s) s xs).
Proof. revert s. induction xs as [|x xs IH]; intros s; [done|]. eapply quiet_trans; [apply quiet_log|apply IH]. Qed.
Lemma quiet_history command s : quiet s (push_history command s).
Proof. unfold push_history. case_bool_decide; [done|]. by destruct s as [? ? [] ? ? ? ? ?]. Qed.
Lemma quiet_command k i s : quiet s (DashboardApp.set_cursor None (DashboardApp.on_view (DashboardView.set_command k i) s)).
Proof. by destruct s as [? ? [] ? ? ? ? ?]. Qed.
Lemma quiet_age now s : quiet s (update_refresh_age now s).
Proof. by destruct s as [? ? [] ? ? ? ? ?]. Qed.

Lemma refreshes_quiet w s s' : refreshes ending w s → quiet s s' → refreshes ending w s'.
Proof.
  intros (r & He & Hl & Hr) ((Hrange & Hd & Hlast) & Hc & Hst). unfold refreshes, unit_of, reading_of. unfold range_of in Hrange. cbn zeta in Hrange.
  injection Hrange as -> -> -> ->. exists r. rewrite Hc, Hlast, Hst, Hd. done.
Qed.
Lemma answers_after cmd s s1 s' : quiet s s1 → answers ending cmd s1 s' → answers ending cmd s s'.
Proof.
  intros ((Hrange & Hd & Hl) & Hc & Hst). unfold answers, written, still. assert (unit_of s1 = unit_of s) as -> by (unfold range_of in Hrange; cbn zeta in Hrange; by injection Hrange).
  rewrite Hrange, Hd, Hl, Hc. done.
Qed.
Lemma effect_after (entered : ShellCommand.t → Prop) s s1 s' : quiet s s1 → effect ending entered s1 s' → effect ending entered s s'.
Proof.
  intros Hq He. pose proof Hq as ((Hrange & Hd & Hl) & Hc & Hst).
  assert (unit_of s1 = unit_of s) as Hu by (unfold range_of in Hrange; cbn zeta in Hrange; by injection Hrange).
  assert (still s1 s' → still s s') as Hstill by (intros (? & ? & ?); split_and!; congruence).
  destruct He as [?|? ? ?|? ?|cmd k e ? ? ? ? ?|cmd k w ? ? ? ? ?]; rewrite ?Hu, ?Hc in *.
  - apply effect_quiet. by eapply quiet_trans.
  - apply effect_failed; [by apply Hstill|congruence|done].
  - by apply effect_refreshed.
  - eapply effect_write_failed; [done..|by apply Hstill|done|done].
  - by eapply effect_written.
Qed.

(** ** Reading *)
Lemma reading_args s : app_ok s → Call.args_ok (reading_call (reading_of (DashboardApp.view s))).
Proof.
  intros [_ Ha Hq _ _ _ _ _ _ _]. unfold reading_of. destruct (DashboardView.target _); cbn in *; lia.
Qed.
Lemma read_current_target_run s :
  let g := reading_of (DashboardApp.view s) in
  read_current_target s = let '(r, w) := perform (unit_of s) (reading_call g) (DashboardApp.client s) in (rmap (reading_data g) r, DashboardApp.set_client w s).
Proof.
  unfold read_current_target, reading_of, unit_of, st_bind, st_get, on_client. cbv zeta.
  destruct (DashboardView.target _); cbn [reading_result reading_call reading_data perform];
    lazymatch goal with |- context [match ?m (DashboardApp.client s) with pair _ _ => _ end] => destruct (m (DashboardApp.client s)) as [[] ?] end; reflexivity.
Qed.
Lemma refresh_run now s : good s → reach (unit_of s) → ∃ r s', refresh now s = (r, s') ∧ returns r ∧ good s' ∧
  range_of s' = range_of s ∧ refreshes ending (DashboardApp.client s) s'.
Proof.
  intros [Hok Hi] Hu. destruct (call_ends _ (unit_of s) (reading_call (reading_of (DashboardApp.view s))) (DashboardApp.client s) Hi (reading_args s Hok) Hu)
    as (r & w' & Hp & Hr & Hi' & He).
  unfold refresh, outcome, st_bind. rewrite read_current_target_run. cbv zeta. rewrite Hp.
  assert (∀ n, 0 ≤ n ≤ u64_max → 0 ≤ Z.min u64_max (n + 1) ≤ u64_max) as Hcount by (unfold u64_max; lia).
  pose proof (app_ok_last (Some now) _ (app_ok_refreshed _ (chars "now") _ (app_ok_client w' s Hok) Hcount)) as Hok1.
  destruct r as [x|e| |]; try done; cbn [rmap rbind]; unfold st_modify, st_ret, st_err; do 2 eexists; (split; [reflexivity|]).
  - split_and!; [done| |by destruct s as [? ? [] ? ? ? ? ?]|].
    + split; [|by destruct s as [? ? [] ? ? ? ? ?]].
      pose proof (app_ok_status DashboardStatus.Connected (Diagnostic.Line (chars "Refresh OK: " ++ to_string (DashboardData.len (reading_data _ x)) ++ chars " values")) _ (app_ok_data (reading_data _ x) _ Hok1)) as Hok2.
      by destruct s as [? ? [] ? ? ? ? ?].
    + destruct s as [? ? [] ? ? ? ? ?]. exists (Ok x). split_and!; done.
  - split_and!; [done| |by destruct s as [? ? [] ? ? ? ? ?]|].
    + split; [|by destruct s as [? ? [] ? ? ? ? ?]]. by apply app_ok_status.
    + destruct s as [? ? [] ? ? ? ? ?]. exists (Err e). split_and!; done.
Qed.
Lemma refresh_anyway_run {E} now s : good s → reach (unit_of s) → ∃ s', refresh_anyway (E := E) now s = (Ok tt, s') ∧ good s' ∧
  range_of s' = range_of s ∧ refreshes ending (DashboardApp.client s) s'.
Proof.
  intros Hs Hu. destruct (refresh_run now s Hs Hu) as (r & s' & Heq & Hr & Hs' & ? & ?). exists s'. unfold refresh_anyway, outcome, st_bind. rewrite Heq.
  by destruct r.
Qed.
Lemma range_unit s s' : range_of s' = range_of s → unit_of s' = unit_of s.
Proof. unfold range_of. cbn zeta. by intros [= ? ? ? ?]. Qed.

(** ** Commands *)
Context (now : Z).
Lemma record_error_run message s : good s → ∃ s', record_error message s = (Ok tt, s') ∧ good s' ∧ still s s' ∧
  DashboardApp.client s' = DashboardApp.client s ∧ status_of s' = DashboardStatus.Error.
Proof.
  intros [Hok Hi]. eexists. split; [reflexivity|]. set (s1 := DashboardApp.on_view _ s).
  assert (app_ok s1) as Hok1 by by apply app_ok_status. destruct (quiet_log (CommandLogEntry.error message) s1) as ((Hr & Hd & Hl) & Hc & Hst).
  rewrite Hc, Hst. split; [split; [by apply push_log_ok|rewrite Hc; by destruct s as [? ? [] ? ? ? ? ?]]|].
  unfold still. rewrite Hr, Hd, Hl. by destruct s as [? ? [] ? ? ? ? ?].
Qed.
Lemma log_run entry s : good s → ∃ s', log entry s = (Ok tt, s') ∧ good s' ∧ quiet s s'.
Proof. intros Hs. eexists. split; [reflexivity|]. pose proof (quiet_log entry s). split; [|done]. eapply quiet_good; [done..|]. apply push_log_ok, Hs. Qed.
Lemma log_each_run {A} (entry : A → CommandLogEntry.t) xs s : good s → ∃ s', log_each entry xs s = (Ok tt, s') ∧ good s' ∧ quiet s s'.
Proof. intros Hs. eexists. split; [reflexivity|]. pose proof (quiet_log_each entry xs s). split; [|done]. eapply quiet_good; [done..|]. apply log_each_ok, Hs. Qed.

Lemma read_target_run entered target a q s : good s → reach (unit_of s) → is_u16 a →
  ∃ s', read_target now target a q s = (Ok tt, s') ∧ good s' ∧ effect ending entered s s' ∧ refreshes ending (DashboardApp.client s) s'.
Proof.
  intros [Hok Hi] Hu Ha. unfold read_target, st_bind at 1, st_modify. set (s1 := DashboardApp.on_view _ s).
  assert (good s1) as Hs1 by (split; [by apply app_ok_clamped|by destruct s as [? ? [] ? ? ? ? ?]]).
  assert (unit_of s1 = unit_of s) as Hu1 by (by destruct s as [? ? [] ? ? ? ? ?]).
  assert (DashboardApp.client s1 = DashboardApp.client s) as Hc1 by (by destruct s as [? ? [] ? ? ? ? ?]).
  destruct (refresh_run now s1 Hs1 ltac:(by rewrite Hu1)) as (r & s2 & Heq & Hr & Hs2 & Hrange & Href). unfold outcome, st_bind. rewrite Heq.
  destruct r as [rows|e| |]; try done.
  all: match goal with |- context [log ?entry _] => destruct (log_run entry s2 Hs2) as (s3 & Hlog & Hs3 & Hq) end; exists s3; (split; [exact Hlog|]); (split; [done|]).
  all: assert (unit_of s3 = unit_of s) as Hu3 by (rewrite (range_unit s2 s3) by apply Hq; by rewrite (range_unit s1 s2)).
  all: rewrite Hc1 in Href; pose proof (refreshes_quiet _ _ _ Href Hq); split; [apply effect_refreshed; [by left|]|]; done.
Qed.

Lemma write_run (entered : ShellCommand.t → Prop) cmd k target a q s : good s → reach (unit_of s) → Call.args_ok k → is_u16 a → entered cmd → write_call cmd = Some k →
  written_range (unit_of s) cmd = Some (within (unit_of s) target a (Z.max q 1)) →
  ∃ s', (result <- write_unit (λ u, perform u k);; finish_write now result target a q) s = (Ok tt, s') ∧ good s' ∧ effect ending entered s s' ∧ answers ending cmd s s'.
Proof.
  intros [Hok Hi] Hu Hk Ha Hcmd Hw Hplace. destruct (call_ends _ (unit_of s) k (DashboardApp.client s) Hi Hk Hu) as (r & w & Hp & Hr & Hi' & He).
  unfold write_unit, outcome, on_client, st_bind at 1 2, st_get. fold (unit_of s). rewrite Hp. set (s1 := DashboardApp.set_client w s).
  assert (good s1) as Hs1 by (split; [by apply app_ok_client|by destruct s]). assert (still s s1) as Hst1 by by destruct s.
  assert (unit_of s1 = unit_of s) as Hu1 by by destruct s. assert (DashboardApp.client s1 = w) as Hc1 by by destruct s.
  destruct r as [[]|e| |]; try done; cbn [finish_write].
  - match goal with |- context [log ?entry] => destruct (log_run entry s1 Hs1) as (s2 & Hlog & [Hok2 Hi2] & Hq) end.
    unfold st_bind at 1. rewrite Hlog. unfold st_bind, st_modify. set (s3 := DashboardApp.on_view _ s2). pose proof Hq as (Hst2 & Hc2 & _).
    assert (good s3) as Hs3 by (split; [by apply app_ok_clamped|by destruct s2 as [? ? [] ? ? ? ? ?]]).
    assert (unit_of s3 = unit_of s) as Hu3 by (rewrite <-Hu1, <-(range_unit s1 s2) by apply Hst2; by destruct s2 as [? ? [] ? ? ? ? ?]).
    assert (DashboardApp.client s3 = w) as Hc3 by (rewrite <-Hc1, <-Hc2; by destruct s2 as [? ? [] ? ? ? ? ?]).
    destruct (refresh_anyway_run (E := Empty_set) now s3 Hs3 ltac:(by rewrite Hu3)) as (s4 & Heq & Hs4 & Hrange & Href). exists s4. split; [done|]. split; [done|].
    rewrite Hc3 in Href. unfold answers. rewrite Hw. assert (unit_of s2 = unit_of s) as Hu2 by (rewrite <-Hu3; by destruct s2 as [? ? [] ? ? ? ? ?]).
    split; [|right; exists w; rewrite Hrange; unfold s3; by rewrite clamped_range, Hu2]. eapply effect_written; [done..| |done|done]. by rewrite (range_unit s3 s4).
  - destruct (record_error_run (Diagnostic.Failure (chars "Write failed: ") e) s1 Hs1) as (s2 & Heq & Hs2 & (? & ? & ?) & Hc2 & Hst2). exists s2. split; [done|]. split; [done|].
    assert (still s s2) as Hst by (destruct Hst1 as (? & ? & ?); split_and!; congruence). rewrite <-Hc1, <-Hc2 in He.
    unfold answers. rewrite Hw. split; [|by left; exists e]. by eapply effect_write_failed.
Qed.
Lemma discover_run (entered : ShellCommand.t → Prop) range s : good s →
  ∃ s', discover_on_host parse_net parse_ipv6 show_ipv6 range s = (Ok tt, s') ∧ good s' ∧ effect ending entered s s'.
Proof.
  intros Hs. unfold discover_on_host, st_bind, st_get. set (dc := DiscoverConfig.mk _ _ _ _ _ _ _).
  destruct (scan_spec parse_net parse_ipv6 show_ipv6 (network_of (DashboardApp.client s)) dc) as [Hret _]; [vm_compute; discriminate|].
  destruct (scan _ _ _ _ dc) as [report|e| |]; try done.
  - unfold record_discovery, st_bind at 1, st_get. cbv zeta. case_match.
    + match goal with |- context [log ?entry] => destruct (log_run entry s Hs) as (s2 & Hlog & Hs2 & Hq) end. exists s2. split; [done|]. split; [done|]. by apply effect_quiet.
    + match goal with |- context [st_bind (log ?entry)] => destruct (log_run entry s Hs) as (s2 & Hlog & Hs2 & Hq) end. unfold st_bind. rewrite Hlog.
      match goal with |- context [log_each ?entry ?xs] => destruct (log_each_run entry xs s2 Hs2) as (s3 & Hlog3 & Hs3 & Hq3) end.
      exists s3. split; [done|]. split; [done|]. apply effect_quiet. by eapply quiet_trans.
  - destruct (record_error_run (Diagnostic.DiscoverFailure (chars "Discovery failed: ") e) s Hs) as (s2 & Heq & Hs2 & ? & ? & ?).
    exists s2. split; [done|]. split; [done|]. by apply effect_failed.
Qed.
Lemma set_unit_run (entered : ShellCommand.t → Prop) id s : good s → is_u8 id → entered (ShellCommand.SetUnitId id) → reach id →
  ∃ s', execute_shell_command parse_net parse_ipv6 show_ipv6 (D := D) now (ShellCommand.SetUnitId id) s = (Ok tt, s') ∧ good s' ∧
    effect ending entered s s' ∧ refreshes ending (DashboardApp.client s) s'.
Proof.
  intros [Hok Hi] Hid Hcmd Hu. cbn [execute_shell_command]. unfold st_bind at 1, st_modify. set (s1 := DashboardApp.on_view _ s).
  assert (good s1) as Hs1 by (split; [by apply app_ok_unit|by destruct s as [? ? [] ? ? ? ? ?]]).
  assert (unit_of s1 = id) as Hu1 by (by destruct s as [? ? [] ? ? ? ? ?]).
  assert (DashboardApp.client s1 = DashboardApp.client s) as Hc1 by (by destruct s as [? ? [] ? ? ? ? ?]).
  match goal with |- context [log ?entry] => destruct (log_run entry s1 Hs1) as (s2 & Hlog & Hs2 & Hq) end. unfold st_bind. rewrite Hlog.
  assert (unit_of s2 = id) as Hu2 by (rewrite (range_unit s1 s2) by apply Hq; done). destruct Hq as (_ & Hc2 & _).
  destruct (refresh_anyway_run (E := Empty_set) now s2 Hs2 ltac:(by rewrite Hu2)) as (s3 & Heq & Hs3 & Hrange & Href). exists s3. split; [done|]. split; [done|].
  assert (unit_of s3 = id) as Hu3 by by rewrite (range_unit s2 s3). rewrite Hc2, Hc1 in Href. split; [|done]. apply effect_refreshed; [right; by rewrite Hu3|done].
Qed.
Lemma execute_run (entered : ShellCommand.t → Prop) cmd s : good s → reach (unit_of s) → command_ok cmd → entered cmd →
  (∀ id, entered (ShellCommand.SetUnitId id) → reach id) →
  ∃ s', execute_shell_command parse_net parse_ipv6 show_ipv6 (D := D) now cmd s = (Ok tt, s') ∧ good s' ∧
    effect ending entered s s' ∧ answers ending cmd s s'.
Proof.
  intros Hs Hu Hok Hcmd Hset. destruct cmd; cbn [command_ok] in Hok.
  5-8: lazymatch goal with |- context [execute_shell_command _ _ _ _ ?cmd] =>
    lazymatch eval cbn in (write_call cmd) with Some ?k => refine (write_run entered cmd k _ _ _ s Hs Hu _ _ Hcmd eq_refl _) end end.
  all: try (cbn; tauto); try reflexivity; try (by rewrite within_quantity).
  1-4: cbn [execute_shell_command]; match goal with |- context [read_target now ?target] =>
    destruct (read_target_run entered target address quantity s Hs Hu (proj1 Hok)) as (s2 & Heq & Hs2 & He & Href); exists s2; split_and!; [done..|] end; by intros _.
  - destruct (discover_run entered unit_id_range s Hs) as (s2 & Heq & Hs2 & He). by exists s2; split_and!.
  - destruct (set_unit_run entered id s Hs Hok Hcmd (Hset id Hcmd)) as (s2 & Heq & Hs2 & He & Href). exists s2. split_and!; [done..|]. by intros _.
  - cbn [execute_shell_command]. unfold st_bind at 1, st_get.
    match goal with |- context [log ?entry] => destruct (log_run entry s Hs) as (s2 & Hlog & Hs2 & Hq) end.
    exists s2. split_and!; [done..|by apply effect_quiet|done].
  - cbn [execute_shell_command]. match goal with |- context [log_each ?entry ?xs] => destruct (log_each_run entry xs s Hs) as (s2 & Hlog & Hs2 & Hq) end.
    exists s2. split_and!; [done..|by apply effect_quiet|done].
  - destruct Hs as [? ?]. eexists. split; [reflexivity|]. split; [split; [by apply app_ok_quit|by destruct s]|]. split; [|done]. apply effect_quiet. by destruct s.
  - eexists. split_and!; [reflexivity|done|by apply effect_quiet|done].
Qed.
Lemma execute_line_run (entered : ShellCommand.t → Prop) line s : good s → reach (unit_of s) → DashboardApp.command_history_cursor s = None →
  (∀ ws cmd, laid_out line ws → command_form ws cmd → entered cmd) → (∀ id, entered (ShellCommand.SetUnitId id) → reach id) →
  ∃ s', execute_command_line parse_net parse_ipv6 show_ipv6 (D := D) now line s = (Ok tt, s') ∧ good s' ∧ effect ending entered s s' ∧
    ∀ ws cmd, laid_out line ws → command_form ws cmd → answers ending cmd s s'.
Proof.
  intros Hs Hu Hcur Hent Hset. unfold execute_command_line.
  assert (∀ ws cmd, laid_out line ws → command_form ws cmd → parse_command (trim line) = Ok cmd) as Hparsed by (intros ws cmd; apply parse_command_trim).
  destruct (is_empty (trim line)) eqn:Hempty.
  { exists s. split_and!; [done..|by apply effect_quiet|]. intros ws cmd Hws Hf. specialize (Hparsed ws cmd Hws Hf). rewrite (is_empty_nil _ Hempty) in Hparsed. by injection Hparsed as <-. }
  unfold st_bind at 1, st_modify. set (s1 := push_history (trim line) s). pose proof (quiet_history (trim line) s) as Hq1. fold s1 in Hq1.
  assert (split_whitespace line ≠ []) as Hne by (intros Hl; apply trim_empty in Hl; by rewrite Hl in Hempty).
  assert (good s1) as Hs1 by (eapply quiet_good; [done..|]; apply push_history_ok; [apply Hs|by rewrite split_whitespace_trim|done]).
  match goal with |- context [st_bind (log ?entry)] => destruct (log_run entry s1 Hs1) as (s2 & Hlog & Hs2 & Hq2) end. unfold st_bind. rewrite Hlog.
  pose proof (quiet_trans _ _ _ Hq1 Hq2) as Hq. assert (unit_of s2 = unit_of s) as Hu2 by (apply range_unit, Hq).
  destruct (parse_command_spec (trim line)) as (Hret & Hform & Hok). destruct (parse_command (trim line)) as [cmd|e| |]; try done.
  - destruct (proj1 (Hform cmd) eq_refl) as (ws & Hws & Hf). apply split_whitespace_exact in Hws. rewrite split_whitespace_trim in Hws. apply split_whitespace_exact in Hws.
    destruct (execute_run entered cmd s2 Hs2 ltac:(by rewrite Hu2) (Hok cmd eq_refl) (Hent ws cmd Hws Hf) Hset) as (s3 & Heq & Hs3 & He & Ha).
    exists s3. split_and!; [done..|by eapply effect_after|]. intros ws' cmd' Hws' Hf'. specialize (Hparsed ws' cmd' Hws' Hf'). injection Hparsed as <-. by eapply answers_after.
  - destruct (record_error_run (Diagnostic.Line (chars "Parse error: " ++ ParseError.message e)) s2 Hs2) as (s3 & Heq & Hs3 & ? & ? & ?).
    exists s3. split_and!; [done..|eapply effect_after; [exact Hq|]; by apply effect_failed|]. intros ws cmd Hws Hf. by specialize (Hparsed ws cmd Hws Hf).
Qed.
(** Enter on the command line *)
Lemma enter_run s : good s → reach (unit_of s) → DashboardView.command_mode (DashboardApp.view s) = CommandMode.Editing →
  (∀ id, enters s KeyCode.Enter (ShellCommand.SetUnitId id) → reach id) →
  ∃ s', handle_command_key parse_net parse_ipv6 show_ipv6 (D := D) now KeyCode.Enter s = (Ok tt, s') ∧ good s' ∧ effect ending (enters s KeyCode.Enter) s s' ∧
    ∀ cmd, enters s KeyCode.Enter cmd → answers ending cmd s s'.
Proof.
  intros Hs Hu Hmode Hset. cbn [handle_command_key]. unfold st_bind, st_get, st_modify. pose proof (quiet_command CommandMode.Idle [] s) as Hq. set (s1 := DashboardApp.set_cursor None _) in *.
  assert (good s1) as Hs1 by (eapply quiet_good; [exact Hq|done|]; apply app_ok_command; [apply Hs|done]).
  destruct (execute_line_run (enters s KeyCode.Enter) (DashboardView.command_input (DashboardApp.view s)) s1 Hs1) as (s2 & Heq & Hs2 & He & Ha).
  - by rewrite (range_unit s s1) by apply Hq.
  - by destruct s.
  - intros ws cmd Hws Hf. split; [done|]. eauto.
  - done.
  - exists s2. split_and!; [done..|by eapply effect_after|]. intros cmd (_ & _ & ws & Hws & Hf). eapply answers_after; [exact Hq|]. by apply (Ha ws).
Qed.

(** ** Keys *)
Lemma recall_run (entered : ShellCommand.t → Prop) i s : good s → DashboardView.command_mode (DashboardApp.view s) = CommandMode.Editing →
  0 ≤ i < blen (DashboardApp.command_history s) → ∃ s', recall (E := Empty_set) i s = (Ok tt, s') ∧ good s' ∧ effect ending entered s s'.
Proof.
  intros [Hok Hi] Hmode Hr. destruct (get_lt_is_Some (DashboardApp.command_history s) i Hr) as [c Hc].
  unfold recall, st_bind, st_get, st_modify, st_lift, idx. rewrite Hc. eexists. split; [reflexivity|].
  destruct s as [? ? [] ? ? ? ? ?]. cbn in Hmode, Hc, Hi. subst. split; [|by apply effect_quiet]. split; [|done]. destruct Hok. split; try done. intros j [= <-]. done.
Qed.
Lemma command_key_run code s : good s → reach (unit_of s) → DashboardView.command_mode (DashboardApp.view s) = CommandMode.Editing →
  (∀ id, enters s code (ShellCommand.SetUnitId id) → reach id) →
  ∃ s', handle_command_key parse_net parse_ipv6 show_ipv6 (D := D) now code s = (Ok tt, s') ∧ good s' ∧ effect ending (enters s code) s s'.
Proof.
  intros Hs Hu Hmode Hset. assert (∃ s', (Ok tt : res Empty_set unit, s) = (Ok tt, s') ∧ good s' ∧ effect ending (enters s code) s s') as Hnone.
  { exists s. split; [done|]. split; [done|]. by apply effect_quiet. }
  assert (∀ f : DashboardView.t → text, quiet s (DashboardApp.set_cursor None (DashboardApp.on_view (λ v, DashboardView.set_input (f v) v) s))) as Hqi by (by destruct s as [? ? [] ? ? ? ? ?]).
  assert (∀ f : DashboardView.t → text, good (DashboardApp.set_cursor None (DashboardApp.on_view (λ v, DashboardView.set_input (f v) v) s))) as Hgi.
  { intros f. eapply quiet_good; [apply Hqi|done|]. apply app_ok_input; [apply Hs|done]. }
  destruct code as [c| | | | | | | | | | | |]; cbn [handle_command_key]; try exact Hnone.
  - eexists. split; [reflexivity|]. split; [apply (Hgi (λ v, DashboardView.command_input v ++ [c]))|]. apply effect_quiet, (Hqi (λ v, DashboardView.command_input v ++ [c])).
  - pose proof (quiet_command CommandMode.Idle [] s) as Hq. eexists. split; [reflexivity|].
    split; [eapply quiet_good; [exact Hq|done|]; apply app_ok_command; [apply Hs|done]|by apply effect_quiet].
  - destruct (enter_run s Hs Hu Hmode Hset) as (s2 & Heq & Hs2 & He & _). by exists s2.
  - unfold complete_command_input, st_bind, st_get, st_lift.
    destruct (complete_command_spec (E := Empty_set) (DashboardView.command_input (DashboardApp.view s))) as ([completion|] & -> & _); [|exact Hnone].
    eexists. split; [reflexivity|]. split; [apply (Hgi (λ _, completion))|]. apply effect_quiet, (Hqi (λ _, completion)).
  - unfold recall_previous_command, st_bind at 1, st_get. destruct (is_empty (DashboardApp.command_history s)) eqn:Hh; [exact Hnone|].
    assert (1 ≤ blen (DashboardApp.command_history s)) as Hlen by (unfold is_empty in Hh; pose proof (blen_nonneg (DashboardApp.command_history s)); lia).
    apply recall_run; [done..|]. destruct (DashboardApp.command_history_cursor s) as [i|] eqn:Hcur; [|lia].
    destruct Hs as [Hok _]. destruct (ok_cursor s Hok i Hcur) as [_ Hget]. apply get_Some_lt in Hget. lia.
  - unfold recall_next_command, st_bind at 1, st_get. destruct (DashboardApp.command_history_cursor s) as [i|] eqn:Hcur; [|exact Hnone].
    pose proof Hs as [Hok _]. destruct (ok_cursor s Hok i Hcur) as [_ Hget]. apply get_Some_lt in Hget.
    case_match eqn:Hend; [|apply recall_run; [done..|]; lia].
    eexists. split; [reflexivity|]. pose proof (Hgi (λ _, [])) as Hg. pose proof (Hqi (λ _, [])) as Hq'.
    destruct s as [? ? [] ? ? ? ? ?]. split; [exact Hg|]. by apply effect_quiet.
  - eexists. split; [reflexivity|]. split; [apply (Hgi (λ v, removelast (DashboardView.command_input v)))|]. apply effect_quiet, (Hqi (λ v, removelast (DashboardView.command_input v))).
Qed.
(** A key that moves the range asks for a refresh; any other has its effect. *)
Definition key_effect code (b : bool) s s' : Prop :=
  if b then DashboardApp.client s' = DashboardApp.client s ∧ unit_of s' = unit_of s else effect ending (enters s code) s s'.
Lemma key_nothing code s : good s → ∃ b s', (Ok false : res Empty_set bool, s) = (Ok b, s') ∧ good s' ∧ key_effect code b s s'.
Proof. intros Hs. exists false, s. split; [done|]. split; [done|]. by apply effect_quiet. Qed.
(** A new range *)
Lemma key_range code t (a q : DashboardView.t → Z) s : good s → (∀ v, v = DashboardApp.view s → is_u16 (a v) ∧ 1 ≤ q v ≤ DashboardTarget.max_quantity t) →
  let s1 := DashboardApp.on_view (λ v, DashboardView.set_range t (a v) (q v) v) s in
  ∃ b s', (Ok true : res Empty_set bool, s1) = (Ok b, s') ∧ good s' ∧ key_effect code b s s'.
Proof.
  intros [Hok Hi] Hr. destruct (Hr (DashboardApp.view s) eq_refl) as [Ha Hq]. pose proof (app_ok_range t (a (DashboardApp.view s)) (q (DashboardApp.view s)) s Hok Ha Hq) as Hok1.
  eexists true, _. split; [reflexivity|]. destruct s as [? ? [] ? ? ? ? ?]. done.
Qed.
Lemma set_target_run code target s : good s → ∃ b s', set_target target s = (Ok b, s') ∧ good s' ∧ key_effect code b s s'.
Proof.
  intros Hs. unfold set_target, st_bind, st_get, st_modify. cbv zeta. case_bool_decide; [by apply key_nothing|].
  destruct Hs as [Hok Hi]. pose proof (app_ok_clamped target (DashboardView.address (DashboardApp.view s)) (DashboardView.quantity (DashboardApp.view s)) s Hok (ok_address s Hok)) as Hok1.
  eexists true, _. split; [reflexivity|]. destruct s as [? ? [] ? ? ? ? ?]. done.
Qed.
Lemma quit_run code s : good s → ∃ b s', (Ok false : res Empty_set bool, DashboardApp.quit s) = (Ok b, s') ∧ good s' ∧ key_effect code b s s'.
Proof.
  intros [Hok Hi]. eexists false, _. split; [reflexivity|]. split; [split; [by apply app_ok_quit|by destruct s]|]. apply effect_quiet. by destruct s.
Qed.
Lemma target_next (t : DashboardTarget.t) : (∃ t', DashboardTarget.next (E := Empty_set) t = Ok t') ∧ ∃ t', DashboardTarget.previous (E := Empty_set) t = Ok t'.
Proof. destruct t; split; by eexists. Qed.
Lemma char_key_run c s : good s → DashboardView.command_mode (DashboardApp.view s) ≠ CommandMode.Editing →
  ∃ b s', handle_key parse_net parse_ipv6 show_ipv6 (D := D) now (KeyCode.Char c) s = (Ok b, s') ∧ good s' ∧ key_effect (KeyCode.Char c) b s s'.
Proof.
  intros Hs Hmode. pose proof Hs as [Hok Hi]. unfold handle_key, st_bind at 1, st_get. cbv zeta. rewrite bool_decide_false by done.
  destruct (is_char c "q"); [by apply quit_run|].
  destruct (is_char c ":").
  { eexists false, _. split; [reflexivity|]. split; [split; [by apply app_ok_editing|by destruct s]|]. apply effect_quiet. by destruct s as [? ? [] ? ? ? ? ?]. }
  destruct (is_char c "r"); [exists true, s; by split_and!|].
  destruct (is_char c "1"); [by apply set_target_run|]. destruct (is_char c "2"); [by apply set_target_run|].
  destruct (is_char c "3"); [by apply set_target_run|]. destruct (is_char c "4"); [by apply set_target_run|].
  pose proof (ok_address s Hok) as Ha. pose proof (ok_quantity s Hok) as Hq.
  destruct (is_char c "+" || is_char c "=").
  { pose proof (app_ok_clamped (DashboardView.target (DashboardApp.view s)) (DashboardView.address (DashboardApp.view s))
      (Z.min u16_max (DashboardView.quantity (DashboardApp.view s) + 1)) s Hok Ha) as Hok1.
    eexists true, _. split; [reflexivity|]. destruct s as [? ? [] ? ? ? ? ?]. done. }
  destruct (is_char c "-"); [|by apply key_nothing].
  pose proof (key_range (KeyCode.Char c) (DashboardView.target (DashboardApp.view s)) DashboardView.address (λ v, Z.max (Z.max 0 (DashboardView.quantity v - 1)) 1) s Hs) as Hk.
  destruct s as [? ? [] ? ? ? ? ?]. apply Hk. intros v ->. cbn in *. lia.
Qed.
Lemma handle_key_run code s : good s → reach (unit_of s) → (∀ id, enters s code (ShellCommand.SetUnitId id) → reach id) →
  ∃ b s', handle_key parse_net parse_ipv6 show_ipv6 (D := D) now code s = (Ok b, s') ∧ good s' ∧ key_effect code b s s'.
Proof.
  intros Hs Hu Hset. destruct (decide (DashboardView.command_mode (DashboardApp.view s) = CommandMode.Editing)) as [Hmode|Hmode].
  { destruct (command_key_run code s Hs Hu Hmode Hset) as (s' & Heq & Hs' & He). exists false, s'. unfold handle_key, st_bind, st_get. cbv zeta.
    rewrite bool_decide_true by done. by rewrite Heq. }
  destruct (target_next (DashboardView.target (DashboardApp.view s))) as [[next Hnext] [previous Hprev]].
  assert (∀ a : Z → Z → Z, (∀ x q, is_u16 x → 0 ≤ q → is_u16 (a x q)) → ∃ b s', move_range a (λ _ q, q) s = (Ok b, s') ∧ good s' ∧ key_effect code b s s') as Hmove.
  { intros a Ha. pose proof Hs as [Hok _]. pose proof (ok_address s Hok) as Hx. pose proof (ok_quantity s Hok) as Hq.
    pose proof (key_range code (DashboardView.target (DashboardApp.view s)) (λ v, a (DashboardView.address v) (DashboardView.quantity v)) DashboardView.quantity s Hs) as Hk.
    unfold move_range, st_bind, st_modify. destruct s as [? ? [] ? ? ? ? ?]. apply Hk. intros v ->. split; [apply Ha; cbn in *; lia|done]. }
  destruct code as [c| | | | | | | | | | | |]; [by apply char_key_run|..];
    unfold handle_key, st_bind at 1, st_get; cbv zeta; rewrite bool_decide_false by done.
  - by apply quit_run.
  - by apply key_nothing.
  - unfold st_bind, st_lift. rewrite Hnext. by apply set_target_run.
  - unfold st_bind, st_lift. rewrite Hprev. by apply set_target_run.
  - unfold st_bind, st_lift. rewrite Hprev. by apply set_target_run.
  - unfold st_bind, st_lift. rewrite Hnext. by apply set_target_run.
  - apply Hmove. intros. lia.
  - apply Hmove. unfold u16_max. intros. lia.
  - apply Hmove. intros. lia.
  - apply Hmove. unfold u16_max. intros. lia.
  - by apply key_nothing.
  - by apply key_nothing.
Qed.
End Turns.

(** ** What becomes of the range *)
Section Ranges.
Context (parse_net : text → option (list Z)) (parse_ipv6 : text → option Z) (show_ipv6 : Z → text).
Context {W D : Type} `{Connection W} `{Connection D} `{Patience D} `{Endpoint W D}.
Implicit Types s : DashboardApp.t W.

Definition keeps {E A} (m : ST (DashboardApp.t W) E A) : Prop := ∀ s, range_of (m s).2 = range_of s.
Lemma keeps_bind {E A B} (m : ST (DashboardApp.t W) E A) (k : A → ST (DashboardApp.t W) E B) : keeps m → (∀ a, keeps (k a)) → keeps (st_bind m k).
Proof. intros Hm Hk s. unfold st_bind. specialize (Hm s). destruct (m s) as [[a|e| |] s']; try done. cbn in *. by rewrite Hk. Qed.
Lemma keeps_outcome {E E' A} (m : ST (DashboardApp.t W) E A) : keeps m → keeps (outcome (E' := E') m).
Proof. intros Hm s. unfold outcome. specialize (Hm s). by destruct (m s) as [[a|e| |] s']. Qed.
Lemma keeps_client {E A} (m : ST W E A) : keeps (on_client m).
Proof. intros s. unfold on_client. destruct (m (DashboardApp.client s)). by destruct s. Qed.
Lemma keeps_log entry : keeps (log entry).
Proof. intros s. by destruct s as [? ? [] ? ? ? ? ?]. Qed.
Lemma keeps_log_each {A} (entry : A → CommandLogEntry.t) xs : keeps (log_each entry xs).
Proof. intros s. apply (quiet_log_each entry xs s). Qed.
Lemma keeps_error message : keeps (record_error message).
Proof. apply keeps_bind; [|intros; apply keeps_log]. intros s. by destruct s as [? ? [] ? ? ? ? ?]. Qed.
Lemma keeps_refresh now : keeps (refresh now).
Proof.
  apply keeps_bind; [apply keeps_outcome|].
  - apply keeps_bind; [done|]. intros s0. cbv zeta.
    destruct (DashboardView.target _); (apply keeps_bind; [apply keeps_client|done]).
  - intros result. apply keeps_bind; [intros s; by destruct s as [? ? [] ? ? ? ? ?]|]. intros _.
    destruct result; try done; (apply keeps_bind; [intros s; by destruct s as [? ? [] ? ? ? ? ?]|done]).
Qed.
Lemma keeps_refresh_anyway {E} now : keeps (refresh_anyway (E := E) now).
Proof. apply keeps_bind; [apply keeps_outcome, keeps_refresh|done]. Qed.
Lemma keeps_discover range : keeps (discover_on_host parse_net parse_ipv6 show_ipv6 range).
Proof.
  apply keeps_bind; [done|]. intros s0. cbv zeta. destruct (scan _ _ _ _ _); try done; [|apply keeps_error].
  apply keeps_bind; [done|]. intros s1. cbv zeta. case_match; [apply keeps_log|]. apply keeps_bind; [apply keeps_log|intros; apply keeps_log_each].
Qed.

Lemma read_target_range now t a q s : range_of (read_target now t a q s).2 = within (unit_of s) t a q.
Proof.
  rewrite <-clamped_range. unfold read_target. unfold st_bind at 1, st_modify. apply keeps_bind; [apply keeps_outcome, keeps_refresh|].
  intros [rows|e| |]; try apply keeps_log; done.
Qed.
Lemma write_range now k t a q s : let r' := range_of ((result <- write_unit k;; finish_write now result t a q) s).2 in
  r' = range_of s ∨ r' = within (unit_of s) t a (Z.max q 1).
Proof.
  cbv zeta. unfold write_unit, st_bind, st_get. cbv zeta.
  match goal with |- context [outcome (on_client ?m) s] => pose proof (keeps_outcome (E' := Empty_set) (on_client m) (keeps_client m) s) as Hk end.
  destruct (outcome _ s) as [[result|[]| |] s1]; cbn [snd] in Hk |- *; [|by left..].
  assert (unit_of s1 = unit_of s) as Hu by (unfold range_of in Hk; cbn zeta in Hk; by injection Hk).
  destruct result as [[]|e| |]; cbn [finish_write]; [|left; by rewrite (keeps_error _ s1)|by left..].
  right. unfold st_bind at 1. pose proof (keeps_log (CommandLogEntry.success (Diagnostic.Line
        (chars "Write OK: " ++ to_string q ++ chars " " ++ DashboardTarget.short_label t ++ chars " values at " ++ to_string a))) s1) as Hl.
  destruct (log _ s1) as [[[]|[]| |] s2] eqn:Hlog; try done. cbn [snd] in Hl. unfold st_bind, st_modify. rewrite (keeps_refresh_anyway now _), clamped_range. f_equal.
  assert (unit_of s2 = unit_of s1) as Hu2 by (unfold range_of in Hl; cbn zeta in Hl; by injection Hl). congruence.
Qed.
Lemma execute_range now cmd s : command_range cmd (range_of s) (range_of (execute_shell_command parse_net parse_ipv6 show_ipv6 (D := D) now cmd s).2).
Proof.
  unfold range_of at 1. cbn zeta. fold (unit_of s). destruct cmd; cbn [command_range execute_shell_command]; try (by apply read_target_range).
  - exact (write_range now _ DashboardTarget.Coils address 1 s).
  - rewrite <-within_quantity. exact (write_range now _ DashboardTarget.Coils address (quantity_of values) s).
  - exact (write_range now _ DashboardTarget.HoldingRegisters address 1 s).
  - rewrite <-within_quantity. exact (write_range now _ DashboardTarget.HoldingRegisters address (quantity_of values) s).
  - apply keeps_discover.
  - unfold st_bind at 1, st_modify. rewrite (keeps_bind _ _ (keeps_log _) (λ _, keeps_refresh_anyway now) _). by destruct s as [? ? [] ? ? ? ? ?].
  - unfold st_bind, st_get. apply keeps_log.
  - apply keeps_log_each.
  - by destruct s as [? ? [] ? ? ? ? ?].
  - done.
Qed.
Lemma line_range now line s ws cmd : laid_out line ws → command_form ws cmd →
  command_range cmd (range_of s) (range_of (execute_command_line parse_net parse_ipv6 show_ipv6 (D := D) now line s).2).
Proof.
  intros Hws Hf. pose proof (parse_command_trim line ws cmd Hws Hf) as Hp.
  unfold execute_command_line. destruct (is_empty (trim line)) eqn:Hempty.
  { rewrite (is_empty_nil _ Hempty) in Hp. injection Hp as <-. unfold range_of. by destruct s as [? ? [] ? ? ? ? ?]. }
  rewrite Hp. unfold st_bind at 1, st_modify. destruct (quiet_history (trim line) s) as ((Hr & _) & _). rewrite <-Hr. generalize (push_history (trim line) s). clear. intros s.
  unfold st_bind. match goal with |- context [log ?entry s] => pose proof (keeps_log entry s) as Hl; destruct (log entry s) as [[[]|[]| |] s1] eqn:He end; try done.
  cbn [snd] in Hl. rewrite <-Hl. apply execute_range.
Qed.
Lemma command_key_range now code s cmd : enters s code cmd →
  command_range cmd (range_of s) (range_of (handle_command_key parse_net parse_ipv6 show_ipv6 (D := D) now code s).2).
Proof.
  intros (Hmode & -> & ws & Hws & Hf). cbn [handle_command_key]. unfold st_bind, st_get, st_modify.
  destruct (quiet_command CommandMode.Idle [] s) as ((Hr & _) & _). rewrite <-Hr. by eapply line_range.
Qed.

(** A key outside the command line *)
Lemma is_char_code c (x : string) n : chars x = [n] → is_char c x = (c =? n).
Proof. intros Hx. unfold is_char. rewrite Hx. case_bool_decide as Hc; [injection Hc as ->; lia|]. destruct (Z.eqb_spec c n); [congruence|done]. Qed.
Lemma target_turned (t : DashboardTarget.t) :
  DashboardTarget.next (E := Empty_set) t = Ok (turned true t) ∧ DashboardTarget.previous (E := Empty_set) t = Ok (turned false t).
Proof. by destruct t. Qed.
Lemma set_target_range target s : app_ok s → range_of (set_target target s).2 = within (unit_of s) target (DashboardView.address (DashboardApp.view s)) (DashboardView.quantity (DashboardApp.view s)).
Proof.
  intros Hok. unfold set_target, st_bind, st_get, st_modify. cbv zeta. case_bool_decide as Ht; cbn [snd st_ret].
  - pose proof (ok_quantity s Hok) as Hq. subst target. unfold range_of, within. fold (unit_of s). cbn zeta. f_equal. destruct (DashboardView.target (DashboardApp.view s)); cbn in Hq |- *; lia.
  - destruct s as [? ? [] ? ? ? ? ?]. unfold range_of, within. cbn. by destruct target.
Qed.
Lemma idle_key_range now code s : app_ok s → DashboardView.command_mode (DashboardApp.view s) = CommandMode.Idle →
  range_of (handle_key parse_net parse_ipv6 show_ipv6 (D := D) now code s).2 = pressed code (range_of s).
Proof.
  intros Hok Hmode. unfold handle_key, st_bind at 1, st_get. cbv zeta. rewrite Hmode, bool_decide_false by done.
  destruct (target_turned (DashboardView.target (DashboardApp.view s))) as [Hnext Hprev]. pose proof (ok_quantity s Hok) as Hq.
  assert (pressed code (range_of s) = pressed code (unit_of s, DashboardView.target (DashboardApp.view s), DashboardView.address (DashboardApp.view s), DashboardView.quantity (DashboardApp.view s))) as -> by done.
  destruct code as [c| | | | | | | | | | | |]; cbn [pressed]; try done.
  - rewrite !(is_char_code c "q" 113), !(is_char_code c ":" 58), !(is_char_code c "r" 114), !(is_char_code c "1" 49), !(is_char_code c "2" 50),
      !(is_char_code c "3" 51), !(is_char_code c "4" 52), !(is_char_code c "+" 43), !(is_char_code c "=" 61), !(is_char_code c "-" 45) by done.
    destruct (Z.eqb_spec c 113) as [->|]; [by destruct s|]. destruct (Z.eqb_spec c 58) as [->|]; [by destruct s as [? ? [] ? ? ? ? ?]|]. destruct (Z.eqb_spec c 114) as [->|]; [done|].
    destruct (c =? 49); [by apply set_target_range|]. destruct (c =? 50); [by apply set_target_range|]. destruct (c =? 51); [by apply set_target_range|]. destruct (c =? 52); [by apply set_target_range|].
    destruct ((c =? 43) || (c =? 61)).
    { destruct s as [? ? [] ? ? ? ? ?]. unfold range_of, within, st_bind, st_modify. cbn in *. f_equal. destruct target; cbn in *; unfold u16_max; lia. }
    destruct (c =? 45); [|done]. destruct s as [? ? [] ? ? ? ? ?]. unfold range_of, within, st_bind, st_modify. cbn in *. f_equal. destruct target; cbn in *; lia.
  - by destruct s.
  - unfold st_bind, st_lift. rewrite Hnext. by apply set_target_range.
  - unfold st_bind, st_lift. rewrite Hprev. by apply set_target_range.
  - unfold st_bind, st_lift. rewrite Hprev. by apply set_target_range.
  - unfold st_bind, st_lift. rewrite Hnext. by apply set_target_range.
  - destruct s as [? ? [] ? ? ? ? ?]. unfold range_of, move_range, st_bind, st_modify. cbn in *. do 2 f_equal. lia.
  - destruct s as [? ? [] ? ? ? ? ?]. unfold range_of, move_range, st_bind, st_modify. cbn in *. unfold u16_max. do 2 f_equal. lia.
  - destruct s as [? ? [] ? ? ? ? ?]. unfold range_of, move_range, st_bind, st_modify. cbn in *. do 2 f_equal. lia.
  - destruct s as [? ? [] ? ? ? ? ?]. unfold range_of, move_range, st_bind, st_modify. cbn in *. unfold u16_max. do 2 f_equal. lia.
Qed.
End Ranges.

(** ** A turn of the loop *)
Definition turn_enters {W} (s : DashboardApp.t W) (turn : Turn.t) (cmd : ShellCommand.t) : Prop :=
  ∃ code, Turn.event turn = inr (Some (Event.Press code)) ∧ enters s code cmd.
(** The first turn refreshes, and later one when the interval has passed since the last refresh. *)
Definition refresh_due {W} (s : DashboardApp.t W) (turn : Turn.t) : Prop :=
  Turn.drawn turn = None ∧
  match DashboardApp.last_refresh s with
  | None => True
  | Some t => DashboardApp.refresh_interval s ≠ 0 ∧ DashboardApp.refresh_interval s ≤ Z.max 0 (Turn.now turn - t)
  end.
Lemma refresh_due_code {W} (s : DashboardApp.t W) turn : Turn.drawn turn = None →
  refresh_due s turn ↔ (needs_initial_refresh s || should_auto_refresh (Turn.now turn) s) = true.
Proof.
  intros Hd. unfold refresh_due, needs_initial_refresh, should_auto_refresh, elapsed. destruct (DashboardApp.last_refresh s) as [t|]; [|done]. cbn [orb].
  destruct (Z.eqb_spec (DashboardApp.refresh_interval s) 0); [naive_solver|]. rewrite Z.leb_le. naive_solver.
Qed.
(** The key the turn handles *)
Definition turn_key {W} (s : DashboardApp.t W) (turn : Turn.t) (code : KeyCode.t) : Prop :=
  Turn.drawn turn = None ∧ ¬ refresh_due s turn ∧ Turn.event turn = inr (Some (Event.Press code)).
Definition idle {W} (s : DashboardApp.t W) : Prop := DashboardView.command_mode (DashboardApp.view s) = CommandMode.Idle.
(** What it does to the range; "r" (114) refreshes *)
Definition key_turn {W} (ending : ∀ A, Z → Call.t A → W → res ClientError.t A → W → Prop) (s : DashboardApp.t W) (turn : Turn.t) (s' : DashboardApp.t W) : Prop :=
  ∀ code, turn_key s turn code →
    (idle s → range_of s' = pressed code (range_of s) ∧ (code = KeyCode.Char 114 → refreshes ending (DashboardApp.client s) s')) ∧
    (∀ cmd, enters s code cmd → command_range cmd (range_of s) (range_of s') ∧ answers ending cmd s s').
Section Loop.
Context (parse_net : text → option (list Z)) (parse_ipv6 : text → option Z) (show_ipv6 : Z → text).
Context {W D : Type} `{Connection W} `{Connection D} `{Patience D} `{Endpoint W D}.
Context (inv : W → Prop) (reach : Z → Prop) (ending : ∀ A, Z → Call.t A → W → res ClientError.t A → W → Prop) `{!Served inv reach ending}.
Implicit Types s : DashboardApp.t W.

Lemma loop_turn_run turn s : good inv s → reach (unit_of s) → (∀ id, turn_enters s turn (ShellCommand.SetUnitId id) → reach id) →
  ∃ r s', loop_turn parse_net parse_ipv6 show_ipv6 (D := D) turn s = (r, s') ∧ returns r ∧ good inv s' ∧
    effect ending (turn_enters s turn) s s' ∧ (refresh_due s turn → refreshes ending (DashboardApp.client s) s') ∧ key_turn ending s turn s'.
Proof.
  intros Hs Hu Hset. unfold loop_turn, st_bind at 1, st_modify. pose proof (quiet_age (Turn.now turn) s) as Hq. set (s1 := update_refresh_age (Turn.now turn) s) in *.
  assert (good inv s1) as Hs1.
  { eapply quiet_good; [done..|]. unfold s1, update_refresh_age. by apply (app_ok_refreshed (λ n, n)); [apply Hs|]. }
  assert (unit_of s1 = unit_of s) as Hu1 by (apply range_unit, Hq). assert (DashboardApp.client s1 = DashboardApp.client s) as Hc1 by apply Hq.
  assert ((needs_initial_refresh s1 || should_auto_refresh (Turn.now turn) s1) = (needs_initial_refresh s || should_auto_refresh (Turn.now turn) s)) as Hdue
    by by destruct s.
  assert (∀ code cmd, enters s1 code cmd ↔ enters s code cmd) as Hent by (by destruct s as [? ? [] ? ? ? ? ?]).
  unfold st_bind at 1.
  destruct (Turn.drawn turn) as [e|] eqn:Hdrawn; [exists (Err e), s1; split_and!; [done..|by apply effect_quiet|unfold refresh_due; rewrite Hdrawn; by intros [? _]|intros code [Hd _]; congruence]|].
  pose proof (refresh_due_code s turn Hdrawn) as Hiff. rewrite <-Hdue in Hiff. clear Hdue.
  unfold st_ret at 1, st_bind at 1, st_get. destruct (needs_initial_refresh s1 || should_auto_refresh (Turn.now turn) s1).
  { pose proof (proj2 Hiff eq_refl) as Hd. destruct (refresh_anyway_run inv reach ending (E := text) (Turn.later turn) s1 Hs1 ltac:(by rewrite Hu1)) as (s2 & -> & Hs2 & Hrange & Href). rewrite Hc1 in Href.
    exists (Ok tt), s2. split_and!; [done..| |done|by intros code (_ & ? & _)]. apply effect_refreshed; [left; by rewrite (range_unit s1 s2)|done]. }
  assert (¬ refresh_due s turn) as Hnot by by rewrite Hiff. assert (range_of s1 = range_of s) as Hr1 by apply Hq.
  destruct (Turn.event turn) as [e|[[code|]|]] eqn:Hev.
  - exists (Err e), s1. split_and!; [done..|by apply effect_quiet|done|]. intros code (_ & _ & ?). congruence.
  - destruct (handle_key_run parse_net parse_ipv6 show_ipv6 inv reach ending (Turn.later turn) code s1 Hs1 ltac:(by rewrite Hu1)) as (b & s2 & Heq & Hs2 & He).
    { intros id Hid. apply Hset. exists code. split; [done|]. by apply Hent. }
    assert (range_of s2 = range_of (handle_key parse_net parse_ipv6 show_ipv6 (D := D) (Turn.later turn) code s1).2) as Hr2 by by rewrite Heq.
    assert (idle s → range_of s2 = pressed code (range_of s)) as Hidle.
    { intros Hm. rewrite Hr2, <-Hr1. apply idle_key_range; [apply Hs1|]. by destruct s as [? ? [] ? ? ? ? ?]. }
    assert (∀ cmd, enters s code cmd → command_range cmd (range_of s) (range_of s2)) as Hcmds.
    { intros cmd Hcmd. apply Hent in Hcmd. rewrite <-Hr1, Hr2. pose proof (command_key_range parse_net parse_ipv6 show_ipv6 (D := D) (Turn.later turn) code s1 cmd Hcmd) as Hrange.
      destruct Hcmd as (Hmode & _). unfold handle_key, st_bind at 1, st_get. cbv zeta. rewrite bool_decide_true by done. unfold st_bind.
      by destruct (handle_command_key _ _ _ _ _ _) as [[]]. }
    assert (∀ cmd, enters s code cmd → b = false ∧ answers ending cmd s s2) as Hans.
    { intros cmd Hcmd. apply Hent in Hcmd. destruct Hcmd as (Hmode & -> & Hcmd).
      destruct (enter_run parse_net parse_ipv6 show_ipv6 inv reach ending (Turn.later turn) s1 Hs1 ltac:(by rewrite Hu1) Hmode) as (s3 & Heq3 & _ & _ & Ha).
      { intros id Hid. apply Hset. exists KeyCode.Enter. split; [done|]. by apply Hent. }
      unfold handle_key, st_bind, st_get in Heq. cbv zeta in Heq. rewrite bool_decide_true, Heq3 in Heq by done. injection Heq as <- <-.
      split; [done|]. eapply answers_after; [exact Hq|]. by apply Ha. }
    assert (idle s → code = KeyCode.Char 114 → b = true) as Hr.
    { intros Hm ->. assert (DashboardView.command_mode (DashboardApp.view s1) = CommandMode.Idle) as Hm1 by by destruct s as [? ? [] ? ? ? ? ?].
      unfold handle_key, st_bind, st_get in Heq. cbv zeta in Heq. rewrite Hm1, bool_decide_false in Heq by done. by injection Heq. }
    unfold st_bind, never_fails. rewrite Heq. cbn [Prelude.infallible]. destruct b; cbn [key_effect] in He.
    + destruct He as [Hc2 Hu2].
      destruct (refresh_anyway_run inv reach ending (E := text) (Turn.later turn) s2 Hs2 ltac:(by rewrite Hu2, Hu1)) as (s3 & Hr3 & Hs3 & Hrange & Href). rewrite Hc2, Hc1 in Href.
      exists (Ok tt), s3. split_and!; [done..| |done|intros code' (_ & _ & Hev'); rewrite Hev in Hev'; injection Hev' as <-; rewrite Hrange; split; [by auto|]; intros cmd Hcmd; by destruct (Hans cmd Hcmd)]. apply effect_refreshed; [left; by rewrite (range_unit s2 s3), Hu2|done].
    + exists (Ok tt), s2. split_and!; [done..| |done|].
      2: { intros code' (_ & _ & Hev'). rewrite Hev in Hev'. injection Hev' as <-. split; [|intros cmd Hcmd; split; [by apply Hcmds|by apply Hans]]. intros Hm. split; [by apply Hidle|]. intros ->. by specialize (Hr Hm eq_refl). }
      eapply effect_after; [exact Hq|]. eapply effect_mono; [|exact He].
      intros cmd Hcmd. exists code. split; [done|]. by apply Hent.
  - exists (Ok tt), s1. split_and!; [done..|by apply effect_quiet|done|]. intros code (_ & _ & ?). congruence.
  - exists (Ok tt), s1. split_and!; [done..|by apply effect_quiet|done|]. intros code (_ & _ & ?). congruence.
Qed.
End Loop.

(** ** The server *)
#[export] Instance any_client_served {W} `{Connection W} (inv : W → Prop) `{!ConnectionLaws W inv} : Served inv (λ _, True) (λ _ _ _ _ _ _, True).
Proof. intros A u k w Hi Hk _. destruct (perform_end inv u k w Hi Hk) as (r & w' & ? & ? & ? & _). by exists r, w'. Qed.

Definition tables_in (s : DashboardApp.t (Loop.t InMemoryStore.t)) : Tables.t := tables_of (Loop.server (DashboardApp.client s)).
(** What the view ought to show *)
Definition expected (v : DashboardView.t) (T : Tables.t) : option DashboardData.t :=
  let a := DashboardView.address v in
  let q := DashboardView.quantity v in
  let registers (r : res Exc (list Z)) := match r with Ok values => Some (DashboardData.Registers values) | _ => None end in
  let bits (r : res Exc (list bool)) := match r with Ok values => Some (DashboardData.Bits values) | _ => None end in
  if UnitId.is_broadcast (DashboardView.unit_id v) then None else
  match DashboardView.target v with
  | DashboardTarget.HoldingRegisters => registers (select (Tables.holding_registers T) a q)
  | DashboardTarget.InputRegisters => registers (select (Tables.input_registers T) a q)
  | DashboardTarget.Coils => bits (select (Tables.coils T) a q)
  | DashboardTarget.DiscreteInputs => bits (select (Tables.discrete_inputs T) a q)
  end.
Definition accurate (s : DashboardApp.t (Loop.t InMemoryStore.t)) : Prop :=
  match expected (DashboardApp.view s) (tables_in s) with
  | Some data => status_of s = DashboardStatus.Connected ∧ data_of s = data
  | None => status_of s = DashboardStatus.Error
  end.
(** Unless an error is reported, what is shown is in the tables. *)
Definition settled (s : DashboardApp.t (Loop.t InMemoryStore.t)) : Prop :=
  DashboardApp.last_refresh s ≠ None → status_of s = DashboardStatus.Connected → expected (DashboardApp.view s) (tables_in s) = Some (data_of s).
(** The rows of the table on the screen: one for each entry of the range, with its address and its value *)
Definition lists {A} (cells : A → list text) (table : list A) (a q : Z) (rows : list (list text)) : Prop :=
  blen rows = q ∧ ∀ i, 0 ≤ i < q → ∃ x, get table (a + i) = Some x ∧ get rows i = Some (to_string (a + i) :: cells x).
Definition register_cells (x : Z) : list text := [hex_06 x; to_string x; chars "register"].
Definition bit_cells (b : bool) : list text := map chars (if b then ["1"; "1"; "ON"] else ["0"; "0"; "OFF"])%string.
Definition tabulated (s : DashboardApp.t (Loop.t InMemoryStore.t)) : Prop :=
  let v := DashboardApp.view s in
  let T := tables_in s in
  DashboardApp.last_refresh s ≠ None → status_of s = DashboardStatus.Connected →
  match DashboardView.target v with
  | DashboardTarget.HoldingRegisters => lists register_cells (Tables.holding_registers T) (DashboardView.address v) (DashboardView.quantity v) (data_rows v)
  | DashboardTarget.InputRegisters => lists register_cells (Tables.input_registers T) (DashboardView.address v) (DashboardView.quantity v) (data_rows v)
  | DashboardTarget.Coils => lists bit_cells (Tables.coils T) (DashboardView.address v) (DashboardView.quantity v) (data_rows v)
  | DashboardTarget.DiscreteInputs => lists bit_cells (Tables.discrete_inputs T) (DashboardView.address v) (DashboardView.quantity v) (data_rows v)
  end.
(** A turn that reads the range: a refresh that is due, a key or a command that changes the
    range, the key r, and the commands that name a range *)
Definition rereads (s : DashboardApp.t (Loop.t InMemoryStore.t)) (turn : Turn.t) (s' : DashboardApp.t (Loop.t InMemoryStore.t)) : Prop :=
  refresh_due s turn ∨ range_of s' ≠ range_of s ∨
  ∃ code, turn_key s turn code ∧ (idle s ∧ code = KeyCode.Char 114 ∨ ∃ cmd, enters s code cmd ∧ names_range cmd = true).
(** What the key of a turn does *)
Definition handled (s : DashboardApp.t (Loop.t InMemoryStore.t)) (turn : Turn.t) (s' : DashboardApp.t (Loop.t InMemoryStore.t)) : Prop :=
  ∀ code, turn_key s turn code →
    (idle s → range_of s' = pressed code (range_of s)) ∧
    ∀ cmd, enters s code cmd → command_range cmd (range_of s) (range_of s') ∧
      ∀ k, write_call cmd = Some k → ∃ r, remote_end (unit_of s) k (tables_in s) r (tables_in s') ∧
        match r with
        | Ok _ => written_range (unit_of s) cmd = Some (range_of s') ∧ accurate s'
        | _ => range_of s' = range_of s ∧ status_of s' = DashboardStatus.Error
        end.
Definition at_server {A} (u : Z) (k : Call.t A) (w : Loop.t InMemoryStore.t) (r : res ClientError.t A) (w' : Loop.t InMemoryStore.t) : Prop :=
  remote_end u k (tables_of (Loop.server w)) r (tables_of (Loop.server w')).

Lemma reading_valid s : app_ok (W := Loop.t InMemoryStore.t) s → Call.valid (reading_call (reading_of (DashboardApp.view s))).
Proof.
  intros Hok. pose proof (ok_address s Hok). pose proof (ok_quantity s Hok). unfold reading_of.
  destruct (DashboardView.target _); cbn in *; (split; [split; hnf; cbn; lia|done]).
Qed.
Lemma reads_keep v (T : Tables.t) x T' : call_spec T (reading_call (reading_of v)) = Ok (x, T') → T' = T.
Proof. unfold reading_of in *. destruct (DashboardView.target v); cbn; destruct (select _ _ _); by intros [= _ <-]. Qed.
Lemma reading_expected v T : UnitId.is_broadcast (DashboardView.unit_id v) = false →
  expected v T = match call_spec T (reading_call (reading_of v)) with Ok (x, _) => Some (reading_data (reading_of v) x) | _ => None end.
Proof. intros Hb. unfold expected, reading_of. rewrite Hb. destruct (DashboardView.target v); cbn; by destruct (select _ _ _). Qed.
Lemma refreshes_accurate w s : app_ok s → refreshes (@at_server) w s → accurate s ∧ tables_in s = tables_of (Loop.server w).
Proof.
  intros Hok (r & He & _ & Hr). unfold at_server in He. fold (tables_in s) in He. set (T := tables_of (Loop.server w)) in *. unfold accurate.
  set (g := reading_of (DashboardApp.view s)) in *. assert (Call.reads (reading_call g) = true) as Hreads by (unfold g, reading_of; by destruct (DashboardView.target _)).
  remember (tables_in s) as T' eqn:HT'. destruct He as [Hb _|e Hv|v Hb Hno _|v T' Hb _ Hspec|ec Hb _ Hspec].
  - split; [|done]. unfold expected. fold (unit_of s). by rewrite Hb.
  - destruct Hv. by apply reading_valid.
  - congruence.
  - pose proof (reads_keep _ _ _ _ Hspec) as HT. split; [|done]. rewrite reading_expected by exact Hb. rewrite HT. fold g. by rewrite Hspec.
  - split; [|done]. rewrite reading_expected by exact Hb. fold g. by rewrite Hspec.
Qed.
Lemma accurate_settled s : accurate s → settled s.
Proof. unfold accurate, settled. destruct (expected _ _); [by intros [_ ->]|]. intros -> _ [=]. Qed.
Lemma settled_still s s' : still s s' → tables_in s' = tables_in s → status_of s' = status_of s → settled s → settled s'.
Proof.
  intros (Hrange & Hd & Hl) HT Hst Hs. unfold settled, expected. rewrite HT, Hst, Hd, Hl. unfold range_of in Hrange. cbn zeta in Hrange. injection Hrange as -> -> -> ->. exact Hs.
Qed.
(** What the effect of a turn is on the tables and on what is shown *)
Lemma effect_server (entered : ShellCommand.t → Prop) s s' : app_ok s' → effect (@at_server) entered s s' →
  (settled s → settled s') ∧ (range_of s' ≠ range_of s → accurate s') ∧
  (tables_in s' = tables_in s ∨ ∃ cmd k r, entered cmd ∧ write_call cmd = Some k ∧ remote_end (unit_of s) k (tables_in s) r (tables_in s')).
Proof.
  intros Hok He. assert (status_of s' = DashboardStatus.Error → settled s') as Herr by (intros Hst _; by rewrite Hst).
  destruct He as [(Hst & Hc & Hs)|Hst Hc Hs|_ Href|cmd k e Hcmd Hk Hst Hs He|cmd k w Hcmd Hk _ He Href].
  - assert (tables_in s' = tables_in s) as HT by (unfold tables_in; by rewrite Hc). split; [by apply settled_still|]. split; [by intros []; apply Hst|by left].
  - assert (tables_in s' = tables_in s) as HT by (unfold tables_in; by rewrite Hc). split; [by intros _; apply Herr|]. split; [by intros []; apply Hst|by left].
  - destruct (refreshes_accurate _ _ Hok Href) as [Hacc HT]. split; [by intros _; apply accurate_settled|]. split; [done|by left].
  - split; [by intros _; apply Herr|]. split; [by intros []; apply Hst|]. right. by exists cmd, k, (Err e).
  - destruct (refreshes_accurate _ _ Hok Href) as [Hacc HT]. split; [by intros _; apply accurate_settled|]. split; [done|]. right. exists cmd, k, (Ok tt).
    split_and!; [done..|]. rewrite HT. exact He.
Qed.
Lemma rows_listed {A} (row : A → list text) a o (values : list A) : 0 ≤ a → 0 ≤ o → a + o + blen values ≤ u32_max →
  blen (rows_from row a o values) = blen values ∧
  ∀ i, 0 ≤ i < blen values → ∃ x, get values i = Some x ∧ get (rows_from row a o values) i = Some (to_string (a + (o + i)) :: row x).
Proof.
  revert o. induction values as [|v values IH]; intros o Ha Ho Hmax; [split; [done|]; intros i Hi; change (blen (@nil A)) with 0 in Hi; lia|].
  rewrite blen_cons in *. pose proof (blen_nonneg values). cbn [rows_from]. destruct (IH (o + 1)) as [Hlen Hrows]; [lia..|]. rewrite blen_cons, Hlen. split; [done|].
  intros i Hi. destruct (Z.eq_dec i 0) as [->|Hne].
  - exists v. rewrite !get_cons_0. split; [done|]. do 3 f_equal. unfold display_address. replace (o <=? u32_max) with true by lia. lia.
  - destruct (Hrows (i - 1)) as (x & Hx & Hrow); [lia|]. exists x. pose proof (get_cons_later v values 0 i ltac:(lia)) as Hv.
    pose proof (get_cons_later (to_string (display_address a o) :: row v) (rows_from row a (o + 1) values) 0 i ltac:(lia)) as Hr.
    rewrite Z.sub_0_r in Hv, Hr. change (0 + 1) with 1 in Hv, Hr. rewrite Hv, Hr. split; [done|]. by replace (o + i) with (o + 1 + (i - 1)) by lia.
Qed.
Lemma lists_selected {A} (cells : A → list text) (table values : list A) a q : is_u16 a → 1 ≤ q ≤ 2000 → select table a q = Ok values →
  lists cells table a q (rows_from cells a 0 values).
Proof.
  intros Ha Hq. unfold select. destruct (Z.ltb_spec (blen table) (a + q)); [done|]. intros [= <-].
  destruct (rows_listed cells a 0 (sublist a q table)) as [Hlen Hrows]; [lia..|rewrite blen_sublist by lia; unfold u32_max; lia|].
  rewrite blen_sublist in Hlen, Hrows by lia. split; [done|]. intros i Hi. destruct (Hrows i Hi) as (x & Hx & Hrow). exists x.
  split; [|by rewrite Hrow]. by rewrite get_sublist in Hx by lia.
Qed.
Lemma rows_from_ext {A} (f g : A → list text) a o values : (∀ x, f x = g x) → rows_from f a o values = rows_from g a o values.
Proof. intros Hfg. revert o. induction values as [|v values IH]; intros o; [done|]. cbn [rows_from]. by rewrite Hfg, IH. Qed.
Lemma settled_tabulated s : app_ok s → settled s → tabulated s.
Proof.
  intros Hok Hs Hl Hst. specialize (Hs Hl Hst). pose proof (ok_address s Hok) as Ha. pose proof (ok_quantity s Hok) as Hq. revert Hs.
  unfold expected, data_of, data_rows. destruct (UnitId.is_broadcast _); [done|]. destruct (DashboardView.target _); cbn [DashboardTarget.max_quantity] in Hq.
  all: destruct (select _ _ _) eqn:Hsel; [|done..]; intros [= <-].
  1,2: apply lists_selected; done || lia.
  all: rewrite (rows_from_ext _ bit_cells) by (by intros []); apply lists_selected; done || lia.
Qed.
Lemma key_turn_handled s turn s' : app_ok s' → key_turn (@at_server) s turn s' → handled s turn s'.
Proof.
  intros Hok Hkey code Hcode. destruct (Hkey code Hcode) as [Hidle Hcmds]. split; [intros Hi; by apply Hidle|]. intros cmd Hcmd.
  destruct (Hcmds cmd Hcmd) as [Hrange Hans]. split; [done|]. intros k Hk. unfold answers in Hans. rewrite Hk in Hans.
  destruct Hans as [(e & (Hstill & _) & Hst & He)|(w & He & Href & Hplace)]; [by exists (Err e)|].
  destruct (refreshes_accurate _ _ Hok Href) as [Hacc HT]. exists (Ok tt). rewrite HT. done.
Qed.
Lemma rereads_accurate s turn s' : app_ok s' → (range_of s' ≠ range_of s → accurate s') → (refresh_due s turn → refreshes (@at_server) (DashboardApp.client s) s') →
  key_turn (@at_server) s turn s' → rereads s turn s' → accurate s'.
Proof.
  intros Hok Hrange Hdue Hkey [Hd|[Hd|(code & Hcode & Hc)]]; [|by apply Hrange|]; [by apply (refreshes_accurate _ _ Hok (Hdue Hd))|].
  destruct (Hkey code Hcode) as [Hidle Hcmds]. destruct Hc as [[Hi Hc]|(cmd & Hcmd & Hn)].
  - destruct (Hidle Hi) as [_ Href]. by apply (refreshes_accurate _ _ Hok (Href Hc)).
  - destruct (Hcmds cmd Hcmd) as [_ Hans]. apply (refreshes_accurate (DashboardApp.client s) _ Hok). unfold answers in Hans. destruct cmd; try done; by apply Hans.
Qed.
Lemma remote_returns {A} u (k : Call.t A) T r T' : remote_end u k T r T' → returns r.
Proof. by destruct 1. Qed.

(** * Theorems *)

Section Session.
Context (parse_net : text → option (list Z)) (parse_ipv6 : text → option Z) (show_ipv6 : Z → text).
Context (unit_id : Z) (dev : DeviceIdentification.t) (last : Z) (config : ClientConfig.t).
Context {D : Type} `{Connection D} `{Patience D} `{Endpoint (Loop.t InMemoryStore.t) D}.
(** The dashboard connected to the server, with units that the server answers *)
Local Instance session_connection : Connection (Loop.t InMemoryStore.t) := found_connection unit_id dev last config.
Definition reached (u : Z) : Prop := answering unit_id u ∨ u = 0.
Inductive session : DashboardApp.t (Loop.t InMemoryStore.t) → Prop :=
  | session_start dc w : loop_ok store_ok last w → reached (DashboardConfig.unit_id dc) → is_u8 (DashboardConfig.unit_id dc) → is_u16 (DashboardConfig.address dc) →
      session (new_app show_ipv6 dc w)
  | session_turn s turn s' : session s → (∀ id, turn_enters s turn (ShellCommand.SetUnitId id) → reached id) →
      loop_turn parse_net parse_ipv6 show_ipv6 (D := D) turn s = (Ok tt, s') → session s'.

Context (Hdev : device_ok dev) (Hconfig : config_ok config) (Htime : 1 ≤ ClientConfig.timeout config).
Local Instance session_served : Served (loop_ok store_ok last) reached (@at_server).
Proof using Hdev Hconfig Htime.
  intros A u k w Hw Hk Hu.
  destruct (@remote_call _ store_ok (answering unit_id) _ (server_peer_laws unit_id dev Hdev) last config Hconfig Htime _ u k w Hw Hk Hu) as (r & w' & Hp & Hw' & _ & He).
  exists r, w'. split_and!; [exact Hp|by eapply remote_returns|done|done].
Qed.
Lemma new_app_ok {W} dc (w : W) : is_u8 (DashboardConfig.unit_id dc) → is_u16 (DashboardConfig.address dc) → app_ok (new_app show_ipv6 dc w).
Proof.
  destruct dc as [addr u t a q target ri]. cbn. intros. split; cbn; try done.
  destruct target; cbn; lia.
Qed.
Lemma session_spec s : session s → good (loop_ok store_ok last) s ∧ reached (unit_of s) ∧ settled s.
Proof using Hdev Hconfig Htime.
  induction 1 as [dc w Hw Hr Hu Ha|s turn s' _ (Hs & Hu & Hset) Hids Heq].
  - split; [split; [by apply new_app_ok|by destruct dc]|]. split; [by destruct dc|]. destruct dc. intros Hn. by destruct Hn.
  - destruct (loop_turn_run parse_net parse_ipv6 show_ipv6 (loop_ok store_ok last) reached (@at_server) turn s Hs Hu Hids) as (r & s2 & Heq2 & _ & Hs2 & He & _).
    rewrite Heq in Heq2. injection Heq2 as <- <-. split; [done|]. split; [|by apply (effect_server _ _ _ (proj1 Hs2) He)].
    destruct He as [((Hr & _) & _)|(Hr & _) _ _|[Hr|Hid] _|cmd k e _ _ (Hr & _) _ _|cmd k w _ _ Hr _ _].
    + by rewrite (range_unit s s').
    + by rewrite (range_unit s s').
    + by rewrite Hr.
    + by apply Hids.
    + by rewrite (range_unit s s').
    + by rewrite Hr.
Qed.
End Session.

(** The dashboard over any connection whose replies are decoded PDUs: from a fresh
    application, whatever is pressed and whatever the device answers, every turn of the
    loop ends without a panic, and then the unit ID, the address and the quantity are
    ones a request can have, the log holds at most 8 entries and the history at most 32
    commands, none blank or twice in a row, and the history cursor is on the command that
    is on the input line. *)
Theorem dashboard_safe (parse_net : text → option (list Z)) (parse_ipv6 : text → option Z) (show_ipv6 : Z → text)
    (W D : Type) `{Connection W} `{Connection D} `{Patience D} `{Endpoint W D} (inv : W → Prop) `{!ConnectionLaws W inv}
    (dc : DashboardConfig.t) (w : W) (turns : list Turn.t) :
  inv w → is_u8 (DashboardConfig.unit_id dc) → is_u16 (DashboardConfig.address dc) →
  ∃ r s, run_loop parse_net parse_ipv6 show_ipv6 (D := D) turns (new_app show_ipv6 dc w) = (r, s) ∧ returns r ∧ app_ok s ∧ inv (DashboardApp.client s).
Proof.
  intros Hw Hu Ha. assert (good inv (new_app show_ipv6 dc w)) as Hs by (split; [by apply new_app_ok|by destruct dc]).
  revert Hs. generalize (new_app show_ipv6 dc w) as s. clear Hw. induction turns as [|turn turns IH]; intros s Hs; [by exists (Ok tt), s; split_and!; try apply Hs|].
  cbn [run_loop]. unfold st_bind at 1, st_get. destruct (DashboardApp.should_quit s); [by exists (Ok tt), s; split_and!; try apply Hs|].
  destruct (loop_turn_run parse_net parse_ipv6 show_ipv6 inv (λ _, True) (λ _ _ _ _ _ _, True) turn s Hs I (λ _ _, I)) as (r & s' & Heq & Hr & Hs' & _).
  unfold st_bind. rewrite Heq. destruct r as [[]|e| |]; try done; [by apply IH|]. exists (Err e), s'. split_and!; try done; apply Hs'.
Qed.

(** A dashboard on the registers 6 to 9 of a server with ten *)
Definition small_dashboard : DashboardConfig.t :=
  DashboardConfig.mk (SocketAddr.mk (IpAddr.V4 2130706433) 502) 1 5 6 4 DashboardTarget.HoldingRegisters 2000000000.
Definition opened : DashboardApp.t (Loop.t InMemoryStore.t) := new_app (λ _, []) small_dashboard idle_loop.
Definition first_turn : Turn.t := Turn.mk 0 1 None (inr None).

(** After a refresh that fails the old values stay, and the table labels them with the new addresses:
    moved past the end of the ten registers, the dashboard lists the values of the
    registers 6 to 9 as those of 10 to 13. *)
Theorem stale_rows_relabelled : ∃ s,
  @run_loop (λ _, None) (λ _, None) (λ _, []) _ (Loop.t InMemoryStore.t) (found_connection 1 small_device 10000000000000 ClientConfig.default)
    (found_connection 1 small_device 10000000000000 ClientConfig.default) found_patience same_server
    [first_turn; Turn.mk 2 3 None (inr (Some (Event.Press KeyCode.Right)))] opened = (Ok tt, s) ∧
  status_of s = DashboardStatus.Error ∧ length (Tables.holding_registers (tables_in s)) = 10%nat ∧
  map (take 2) (data_rows (DashboardApp.view s)) =
    [[chars "10"; chars "0x0000"]; [chars "11"; chars "0x0000"]; [chars "12"; chars "0x0000"]; [chars "13"; chars "0x0000"]].
Proof. eexists. split; [vm_compute; reflexivity|]. split; [reflexivity|]. split; reflexivity. Qed.
