(* ===== verification/Serve.v ===== *)
(** * The server command (crates/rusty-modbus-cli: src/server.rs)

    What [modbus server] starts: a store with tables of the size asked for, the seeds of the
    command line in it, and the configuration of the server. Listening and waiting for a
    signal are not modelled. *)
From stdpp Require Import strings.
From S2P Require Import Prelude Text ShellParser Types CodecError FileRecords Requests Responses MeiResponses Pdu Stream Mbap Owned Session Deadlines Transaction.
From S2P Require Import Bits Store Memory DeviceId Handler Server Service ServerTasks Client Methods Calls Loopback RemoteCalls Simulator.
#[local] Open Scope Z_scope.

Module ServerCommandConfig.
Record t : Type := mk {
  unit_id : Z; max_connections : Z; max_transactions : Z; shutdown_timeout : Z; table_size : Z;
  holding : list text; input : list text; coil : list text; discrete : list text
}.
End ServerCommandConfig.

(** The messages of the command, as what they say *)
Module ServeError.
Inductive t : Type :=
  | InvalidStore (e : StoreError.t)
  | NotAnAssignment (raw : text)
  | InvalidNumber (value : text) (e : ParseIntError.t)
  | InvalidBoolean (value : text)
  | InvalidSeed (kind : string) (raw : text) (e : StoreError.t)
  | StartFailed (e : ServerConfigError.t).
End ServeError.

Definition map_err {E E' A} (f : E → E') (r : res E A) : res E' A :=
  match r with Ok a => Ok a | Err e => Err (f e) | Panic => Panic | OutOfFuel => OutOfFuel end.
Definition st_map_err {S E E' A} (f : E → E') (m : ST S E A) : ST S E' A := λ s, let '(r, s) := m s in (map_err f r, s).

Definition seed_u16 (value : text) : res ServeError.t Z :=
  match strip_hex value with
  | Some hex => map_err (ServeError.InvalidNumber value) (from_str_radix 16 u16_max hex)
  | None => map_err (ServeError.InvalidNumber value) (parse_uint u16_max value)
  end.
Definition seed_bool (value : text) : res ServeError.t bool :=
  let lower := to_ascii_lowercase value in
  if decide (lower ∈ on_words) then Ok true
  else if decide (lower ∈ off_words) then Ok false
  else Err (ServeError.InvalidBoolean value).
Definition EQUALS : Z := 61.
Definition parse_assignment {T} (raw : text) (parse_value : text → res ServeError.t T) : res ServeError.t (Z * T) :=
  match split_once EQUALS raw with
  | None => Err (ServeError.NotAnAssignment raw)
  | Some (address, value) =>
      let? address := seed_u16 address in
      let? value := parse_value value in
      Ok (address, value)
  end.
(** [seed_registers] and [seed_bits], which differ in how a value is parsed *)
Fixpoint seed {T} (parse_value : text → res ServeError.t T) (kind : string) (values : list text) (set : Z → T → ST InMemoryStore.t StoreError.t unit)
    : ST InMemoryStore.t ServeError.t unit :=
  match values with
  | [] => st_ret tt
  | raw :: values =>
      assignment <- st_lift (parse_assignment raw parse_value);;
      st_map_err (ServeError.InvalidSeed kind raw) (set assignment.1 assignment.2);;;
      seed parse_value kind values set
  end.
Definition seed_registers : string → list text → (Z → Z → ST InMemoryStore.t StoreError.t unit) → ST InMemoryStore.t ServeError.t unit := seed seed_u16.
Definition seed_bits : string → list text → (Z → bool → ST InMemoryStore.t StoreError.t unit) → ST InMemoryStore.t ServeError.t unit := seed seed_bool.
(** What [run] starts the server with *)
Definition set_up (version : bytes) (config : ServerCommandConfig.t) : res ServeError.t (ServerConfig.t * InMemoryStore.t) :=
  let '(ServerCommandConfig.mk unit_id max_connections max_transactions shutdown_timeout table_size holding input coil discrete) := config in
  let? store := map_err ServeError.InvalidStore (InMemoryStore.try_new (StoreConfig.mk table_size table_size table_size table_size)) in
  let '(r, store) :=
    (seed_registers "holding" holding InMemoryStore.set_holding_register;;;
     seed_registers "input" input InMemoryStore.set_input_register;;;
     seed_bits "coil" coil InMemoryStore.set_coil;;;
     seed_bits "discrete" discrete InMemoryStore.set_discrete_input) store in
  do? r in
  let server := ServerConfig.mk unit_id max_connections max_transactions shutdown_timeout (ServerConfig.device_id (ServerConfig.default version)) in
  do? (map_err ServeError.StartFailed (ServerConfig.validate server)) in
  Ok (server, store).

(** * Specification *)

(** [ADDR=VALUE] *)
Definition assigns {T} (writes : text → T → Prop) (raw : text) (seed : Z * T) : Prop :=
  ∃ address value, raw = address ++ EQUALS :: value ∧ (EQUALS ∉ address) ∧ writes_u16 address seed.1 ∧ writes value seed.2.
(** The value at an address after the seeds: that of the last one for it *)
Definition planted {T} (base : T) (seeds : list (Z * T)) (x : Z) : T := foldl (λ y '(a, v), if a =? x then v else y) base seeds.
Definition table_of {T} (base : T) (size : Z) (seeds : list (Z * T)) : list T := map (planted base seeds) (addresses 0 size).
Record seeds : Type := Seeds { seeds_holding : list (Z * Z); seeds_input : list (Z * Z); seeds_coil : list (Z * bool); seeds_discrete : list (Z * bool) }.
Definition seeded (config : ServerCommandConfig.t) (d : seeds) : Prop :=
  let size := ServerCommandConfig.table_size config in
  let given {T} (writes : text → T → Prop) raws (ss : list (Z * T)) := Forall2 (assigns writes) raws ss ∧ Forall (λ s, s.1 < size) ss in
  given writes_u16 (ServerCommandConfig.holding config) (seeds_holding d) ∧ given writes_u16 (ServerCommandConfig.input config) (seeds_input d) ∧
  given writes_bool (ServerCommandConfig.coil config) (seeds_coil d) ∧ given writes_bool (ServerCommandConfig.discrete config) (seeds_discrete d).
Definition can_start (config : ServerCommandConfig.t) : Prop :=
  ServerCommandConfig.table_size config ≤ MAX_TABLE_SIZE ∧ ServerCommandConfig.max_connections config ≠ 0 ∧
  ServerCommandConfig.max_transactions config ≠ 0 ∧ ServerCommandConfig.shutdown_timeout config ≠ 0.
Definition seeded_tables (size : Z) (d : seeds) : Tables.t :=
  Tables.mk (table_of false size (seeds_coil d)) (table_of false size (seeds_discrete d)) (table_of 0 size (seeds_holding d)) (table_of 0 size (seeds_input d))
    ∅ ∅ 0 InMemoryStore.default_server_id.

(** * Lemmas *)

Lemma seed_u16_Ok w n : seed_u16 w = Ok n ↔ writes_u16 w n.
Proof.
  rewrite <-parse_u16_Ok. unfold seed_u16, parse_u16. destruct (strip_hex w) as [hex|]; [destruct (from_str_radix 16 u16_max hex)|destruct (parse_uint u16_max w)]; cbn; split; intros [=]; by subst.
Qed.
Lemma seed_u16_returns w : returns (seed_u16 w).
Proof.
  pose proof (parse_u16_returns w) as Hr. unfold seed_u16, parse_u16 in *. destruct (strip_hex w) as [hex|]; [destruct (from_str_radix 16 u16_max hex)|destruct (parse_uint u16_max w)]; done.
Qed.
Lemma seed_bool_Ok w b : seed_bool w = Ok b ↔ writes_bool w b.
Proof. rewrite <-parse_bool_Ok. unfold seed_bool, parse_bool. repeat case_decide; split; intros [=]; by subst. Qed.
Lemma seed_bool_returns w : returns (seed_bool w).
Proof. unfold seed_bool. by repeat case_decide. Qed.

Section Assignments.
Context {T : Type} (parse_value : text → res ServeError.t T) (writes : text → T → Prop).
Context (Hok : ∀ w v, parse_value w = Ok v ↔ writes w v) (Hret : ∀ w, returns (parse_value w)).
Lemma parse_assignment_Ok raw x : parse_assignment raw parse_value = Ok x ↔ assigns writes raw x.
Proof using Hok.
  unfold parse_assignment, assigns. destruct x as [a v]. cbn [fst snd]. setoid_rewrite <-seed_u16_Ok. setoid_rewrite <-Hok.
  destruct (split_once EQUALS raw) as [[l r]|] eqn:Hs.
  - apply split_once_Some in Hs as [-> Hl]. split.
    + destruct (seed_u16 l) eqn:Ha; try done. cbn [rbind]. destruct (parse_value r) eqn:Hv; try done. intros [= -> ->]. by exists l, r.
    + intros (l' & r' & Heq & Hl' & Ha & Hv). assert (split_once EQUALS (l ++ EQUALS :: r) = Some (l', r')) as Hs by by apply split_once_Some.
      rewrite split_once_first in Hs by done. injection Hs as -> ->. rewrite Ha. cbn [rbind]. by rewrite Hv.
  - apply split_once_None in Hs. split; [done|]. intros (l & r & -> & _). destruct Hs. apply elem_of_app. right. constructor.
Qed.
Lemma parse_assignment_returns raw : returns (parse_assignment raw parse_value).
Proof using Hret.
  unfold parse_assignment. destruct (split_once _ _) as [[l r]|]; [|done]. pose proof (seed_u16_returns l). destruct (seed_u16 l); try done. cbn [rbind].
  pose proof (Hret r). by destruct (parse_value r).
Qed.
End Assignments.

(** ** One table *)
Section Table.
Context {T : Type} (v : view T) `{!ViewLaws v} (val_ok : T → Prop) (set : Z → T → ST InMemoryStore.t StoreError.t unit).
Context (Hset : stores v val_ok (λ a x, expect (set a x))).
Context (Hout : ∀ s a x, store_ok s → blen (entries v (tables_of s)) ≤ a → ∃ e, set a x s = (Err e, s)).
Context (parse_value : text → res ServeError.t T) (writes : text → T → Prop).
Context (Hok : ∀ w x, parse_value w = Ok x ↔ writes w x) (Hret : ∀ w, returns (parse_value w)) (Hval : ∀ w x, writes w x → val_ok x).

Lemma set_in_range s a x : store_ok s → 0 ≤ a < blen (entries v (tables_of s)) → val_ok x →
  ∃ s', set a x s = (Ok tt, s') ∧ store_ok s' ∧ tables_of s' = update v (splice a [x] (entries v (tables_of s))) (tables_of s).
Proof using Hset.
  intros Hs Ha Hx. destruct (Hset s a x Hs Ha Hx) as (s' & Heq & ? & ?). exists s'. split; [|done]. unfold expect in Heq.
  by destruct (set a x s) as [[[]|?| |] ?]; simplify_eq.
Qed.
Definition plant (t : list T) (ss : list (Z * T)) : list T := foldl (λ t '(a, x), splice a [x] t) t ss.
Definition seeds_given (size : Z) (raws : list text) (ss : list (Z * T)) : Prop := Forall2 (assigns writes) raws ss ∧ Forall (λ s, s.1 < size) ss.
Lemma seed_spec kind size raws : ∀ s, store_ok s → blen (entries v (tables_of s)) = size →
  (∃ ss s', seeds_given size raws ss ∧ seed parse_value kind raws set s = (Ok tt, s') ∧ store_ok s' ∧
     tables_of s' = update v (plant (entries v (tables_of s)) ss) (tables_of s)) ∨
  (∀ ss, ¬ seeds_given size raws ss) ∧ ∃ e s', seed parse_value kind raws set s = (Err e, s').
Proof using Hset Hout Hok Hret Hval ViewLaws0.
  induction raws as [|raw raws IH]; intros s Hs Hsize.
  { left. exists [], s. split; [by split; constructor|]. split; [done|]. split; [done|]. unfold plant. cbn [foldl]. by rewrite update_entries. }
  cbn [seed]. unfold st_bind at 1, st_lift. pose proof (parse_assignment_returns parse_value Hret raw) as Hr.
  pose proof (λ x, parse_assignment_Ok parse_value writes Hok raw x) as Hp. destruct (parse_assignment raw parse_value) as [[a x]|e| |]; try done.
  2:{ right. split; [|by eauto]. intros ss [Hf _]. inversion Hf as [|? y ? ? Hy]; subst. by apply Hp in Hy. }
  pose proof (proj1 (Hp (a, x)) eq_refl) as Hax. assert (0 ≤ a ∧ val_ok x) as [Ha Hx].
  { destruct Hax as (la & lx & _ & _ & Hwa & Hwx). apply writes_u16_range in Hwa. cbn in *. split; [lia|by eapply Hval]. }
  assert (∀ ss, seeds_given size (raw :: raws) ss → ∃ ss', ss = (a, x) :: ss' ∧ a < size ∧ seeds_given size raws ss') as Hinv.
  { intros ss [Hf Hlt]. inversion Hf as [|? y ? ss' Hy Hf']; subst. inversion Hlt; subst. apply Hp in Hy. injection Hy as <-. by exists ss'. }
  cbn [fst snd]. destruct (decide (a < size)) as [Hlt|Hge].
  - destruct (set_in_range s a x Hs ltac:(lia) Hx) as (s1 & Heq & Hs1 & HT1). unfold st_bind, st_map_err. cbn [fst snd]. rewrite Heq. cbn [map_err].
    assert (blen (entries v (tables_of s1)) = size) as Hsize1 by (rewrite HT1, entries_update; rewrite blen_splice; change (blen [x]) with 1; lia).
    destruct (IH s1 Hs1 Hsize1) as [(ss & s' & [Hf Hall] & Hseed & Hs' & HT')|[Hno He]].
    + left. exists ((a, x) :: ss), s'. split; [by split; constructor|]. split; [done|]. split; [done|]. rewrite HT', HT1, entries_update, update_update. done.
    + right. split; [|exact He]. intros ss Hss. apply Hinv in Hss as (ss' & -> & _ & Hss'). by apply (Hno ss').
  - destruct (Hout s a x Hs ltac:(lia)) as [e Heq]. unfold st_bind, st_map_err. cbn [fst snd]. rewrite Heq. cbn [map_err]. right. split; [|by eauto].
    intros ss Hss. apply Hinv in Hss as (ss' & _ & ? & _). lia.
Qed.
End Table.

Lemma blen_addresses a q : 0 ≤ q → blen (addresses a q) = q.
Proof. intros. unfold addresses, blen. rewrite length_map, length_seq. lia. Qed.
Lemma plant_table {T} size ss : ∀ (t : list T) (f : Z → T), 0 ≤ size → t = map f (addresses 0 size) → Forall (λ s, 0 ≤ s.1 < size) ss →
  plant t ss = map (λ x, foldl (λ y '(a, v), if a =? x then v else y) (f x) ss) (addresses 0 size).
Proof.
  induction ss as [|[a x] ss IH]; intros t f Hsize -> Hss; [done|]. apply Forall_cons in Hss as [Ha Hss]. cbn [fst] in Ha.
  refine (IH _ (λ y, if a =? y then x else f y) Hsize _ Hss).
  assert (blen (map f (addresses 0 size)) = size) as Hl by (unfold blen; rewrite length_map; by apply blen_addresses).
  assert (blen (map (λ y, if a =? y then x else f y) (addresses 0 size)) = size) as Hl' by (unfold blen; rewrite length_map; by apply blen_addresses).
  apply list_eq_get; rewrite blen_splice by (change (blen [x]) with 1; lia); [lia|]. rewrite Hl. intros i Hi.
  rewrite get_splice, !get_map, get_addresses by (change (blen [x]) with 1; lia). change (blen [x]) with 1. cbn [fmap option_fmap option_map].
  destruct (Z.eqb_spec a (0 + i)) as [->|Hne].
  - replace (0 + i <=? i) with true by lia. replace (i <? 0 + i + 1) with true by lia. cbn [andb]. by replace (i - (0 + i)) with 0 by lia.
  - destruct ((a <=? i) && (i <? a + 1)) eqn:Hb; [lia|]. done.
Qed.
Lemma planted_table {T} (base : T) size ss : 0 ≤ size → Forall (λ s, 0 ≤ s.1 < size) ss → plant (table_of base size []) ss = table_of base size ss.
Proof. intros Hs Hss. exact (plant_table size ss _ (λ _, base) Hs eq_refl Hss). Qed.
Lemma blank_table {T} (base : T) size : 0 ≤ size → replicate (Z.to_nat size) base = table_of base size [].
Proof.
  intros Hs. assert (blen (table_of base size []) = size) as Hl by (unfold table_of, blen; rewrite length_map; by apply blen_addresses).
  apply list_eq_get; rewrite blen_replicate; [lia|]. intros i Hi. unfold table_of. rewrite get_map, get_addresses by lia. cbn.
  unfold get. replace (0 <=? i) with true by lia. by rewrite lookup_replicate_2 by lia.
Qed.
Lemma blen_table_of {T} (base : T) size ss : 0 ≤ size → blen (table_of base size ss) = size.
Proof. intros Hs. unfold table_of, blen. rewrite length_map. by apply blen_addresses. Qed.
(** The addresses of the seeds are not negative. *)
Lemma seeds_in_range {T} (writes : text → T → Prop) size raws ss : seeds_given writes size raws ss → Forall (λ s, 0 ≤ s.1 < size) ss.
Proof.
  intros [Hf Hlt]. induction Hf as [|raw s raws ss Hs Hf IH]; [constructor|]. apply Forall_cons in Hlt as [H1 H2]. constructor; [|by apply IH].
  destruct Hs as (l & r & _ & _ & Ha & _). apply writes_u16_range in Ha. lia.
Qed.

(** ** The four tables *)
Ltac out_of_range :=
  intros Hs Ha; pose proof Hs as ([Hc Hd] & ?); cbn in Ha; rewrite ?blen_bits_of in Ha by done;
  unfold InMemoryStore.set_holding_register, InMemoryStore.set_input_register, InMemoryStore.set_coil, InMemoryStore.set_discrete_input,
    InMemoryStore.on_holding_registers, InMemoryStore.on_input_registers, InMemoryStore.on_coils, InMemoryStore.on_discrete_inputs, zoom, check_setup_address;
  cbn [InMemoryStore.holding_registers InMemoryStore.input_registers InMemoryStore.coils InMemoryStore.discrete_inputs];
  rewrite st_bind_get, st_bind_lift; rewrite (proj2 (Z.leb_le _ _)) by lia; by eexists.
Lemma holding_out s a x : store_ok s → blen (entries holding_view (tables_of s)) ≤ a → ∃ e, InMemoryStore.set_holding_register a x s = (Err e, s).
Proof. destruct s. out_of_range. Qed.
Lemma input_out s a x : store_ok s → blen (entries input_view (tables_of s)) ≤ a → ∃ e, InMemoryStore.set_input_register a x s = (Err e, s).
Proof. destruct s. out_of_range. Qed.
Lemma coil_out s a x : store_ok s → blen (entries coil_view (tables_of s)) ≤ a → ∃ e, InMemoryStore.set_coil a x s = (Err e, s).
Proof. destruct s. out_of_range. Qed.
Lemma discrete_out s a x : store_ok s → blen (entries discrete_view (tables_of s)) ≤ a → ∃ e, InMemoryStore.set_discrete_input a x s = (Err e, s).
Proof. destruct s. out_of_range. Qed.

Section Commands.
Context (version : bytes) (config : ServerCommandConfig.t).
Abbreviation size := (ServerCommandConfig.table_size config).
Context (Hsize : 0 ≤ size).

Lemma new_tables s : InMemoryStore.try_new (StoreConfig.mk size size size size) = Ok s → size ≤ MAX_TABLE_SIZE ∧ store_ok s ∧ tables_of s = seeded_tables size (Seeds [] [] [] []).
Proof using Hsize.
  intros Hnew. destruct (decide (size ≤ MAX_TABLE_SIZE)) as [Hmax|Hmax].
  - split; [done|]. destruct (try_new_ok (StoreConfig.mk size size size size)) as (s' & Hs' & Hok & _); [by unfold Memory.config_ok; cbn|].
    rewrite Hnew in Hs'. injection Hs' as <-. split; [done|]. revert Hnew. unfold InMemoryStore.try_new. destruct (StoreConfig.validate _); [|done..]. intros [= <-].
    unfold tables_of, seeded_tables. cbn. by rewrite !empty_bits, !(blank_table _ size) by lia.
  - destruct (try_new_err (StoreConfig.mk size size size size)) as (table & n & He & _); cbn; try lia; [|congruence]. unfold Memory.config_ok. cbn. lia.
Qed.
(** Seeding, table by table *)
Lemma seed_all_spec s : store_ok s → tables_of s = seeded_tables size (Seeds [] [] [] []) →
  let m := (seed_registers "holding" (ServerCommandConfig.holding config) InMemoryStore.set_holding_register;;;
            seed_registers "input" (ServerCommandConfig.input config) InMemoryStore.set_input_register;;;
            seed_bits "coil" (ServerCommandConfig.coil config) InMemoryStore.set_coil;;;
            seed_bits "discrete" (ServerCommandConfig.discrete config) InMemoryStore.set_discrete_input) in
  (∃ d s', seeded config d ∧ m s = (Ok tt, s') ∧ store_ok s' ∧ tables_of s' = seeded_tables size d) ∨
  (∀ d, ¬ seeded config d) ∧ ∃ e s', m s = (Err e, s').
Proof using Hsize.
  intros Hs HT m. unfold m, st_bind, seed_registers, seed_bits.
  assert (∀ w x, writes_u16 w x → is_u16 x) as Hu16 by (intros w x Hw; by apply writes_u16_range in Hw).
  destruct (seed_spec holding_view _ _ stores_holding holding_out seed_u16 writes_u16 seed_u16_Ok seed_u16_returns Hu16 "holding" size (ServerCommandConfig.holding config) s Hs)
    as [(hs & s1 & Hh & -> & Hs1 & HT1)|[Hno (e & s' & ->)]]; [by rewrite HT; apply blen_table_of| |right; split; [intros d (? & _); by eapply Hno|by eauto]].
  rewrite HT in HT1. cbn in HT1. rewrite planted_table in HT1 by (done || by eapply seeds_in_range).
  destruct (seed_spec input_view _ _ stores_input input_out seed_u16 writes_u16 seed_u16_Ok seed_u16_returns Hu16 "input" size (ServerCommandConfig.input config) s1 Hs1)
    as [(ins & s2 & Hi & -> & Hs2 & HT2)|[Hno (e & s' & ->)]]; [by rewrite HT1; apply blen_table_of| |right; split; [intros d (_ & ? & _); by eapply Hno|by eauto]].
  rewrite HT1 in HT2. cbn in HT2. rewrite planted_table in HT2 by (done || by eapply seeds_in_range).
  destruct (seed_spec coil_view _ _ stores_coil coil_out seed_bool writes_bool seed_bool_Ok seed_bool_returns (λ _ _ _, I) "coil" size (ServerCommandConfig.coil config) s2 Hs2)
    as [(cs & s3 & Hc & -> & Hs3 & HT3)|[Hno (e & s' & ->)]]; [by rewrite HT2; apply blen_table_of| |right; split; [intros d (_ & _ & ? & _); by eapply Hno|by eauto]].
  rewrite HT2 in HT3. cbn in HT3. rewrite planted_table in HT3 by (done || by eapply seeds_in_range).
  destruct (seed_spec discrete_view _ _ stores_discrete discrete_out seed_bool writes_bool seed_bool_Ok seed_bool_returns (λ _ _ _, I) "discrete" size (ServerCommandConfig.discrete config) s3 Hs3)
    as [(ds & s4 & Hd & -> & Hs4 & HT4)|[Hno (e & s' & ->)]]; [by rewrite HT3; apply blen_table_of| |right; split; [intros d (_ & _ & _ & ?); by eapply Hno|by eauto]].
  rewrite HT3 in HT4. cbn in HT4. rewrite planted_table in HT4 by (done || by eapply seeds_in_range).
  left. exists (Seeds hs ins cs ds), s4. split; [exact (conj Hh (conj Hi (conj Hc Hd)))|]. by split_and!.
Qed.
(** A seed has one reading. *)
Lemma assigns_functional {T} (parse_value : text → res ServeError.t T) (writes : text → T → Prop) raws ss ss' :
  (∀ w v, parse_value w = Ok v ↔ writes w v) → Forall2 (assigns writes) raws ss → Forall2 (assigns writes) raws ss' → ss = ss'.
Proof.
  intros Hok Hf. revert ss'. induction Hf as [|raw s raws ss Hs Hf IH]; intros ss' Hf'; inversion Hf' as [|? s' ? ? Hs' Hf'']; subst; [done|].
  apply (parse_assignment_Ok parse_value writes Hok) in Hs, Hs'. f_equal; [congruence|by apply IH].
Qed.
Lemma seeded_functional d d' : seeded config d → seeded config d' → d = d'.
Proof.
  destruct d, d'. intros ([H1 _] & [H2 _] & [H3 _] & [H4 _]) ([H1' _] & [H2' _] & [H3' _] & [H4' _]). cbn in *.
  f_equal; eauto using assigns_functional, seed_u16_Ok, seed_bool_Ok.
Qed.
Abbreviation server_config := (ServerConfig.mk (ServerCommandConfig.unit_id config) (ServerCommandConfig.max_connections config)
  (ServerCommandConfig.max_transactions config) (ServerCommandConfig.shutdown_timeout config) (ServerConfig.device_id (ServerConfig.default version))).
Lemma validate_spec : (ServerConfig.validate server_config = Ok tt ∧ ServerCommandConfig.max_connections config ≠ 0 ∧
    ServerCommandConfig.max_transactions config ≠ 0 ∧ ServerCommandConfig.shutdown_timeout config ≠ 0) ∨
  (∃ e, ServerConfig.validate server_config = Err e) ∧ ¬ can_start config.
Proof.
  unfold ServerConfig.validate, can_start. cbn. destruct (Z.eqb_spec (ServerCommandConfig.max_connections config) 0); [right; split; [by eexists|tauto]|].
  destruct (Z.eqb_spec (ServerCommandConfig.max_transactions config) 0); [right; split; [by eexists|tauto]|].
  destruct (Z.eqb_spec (ServerCommandConfig.shutdown_timeout config) 0); [right; split; [by eexists|tauto]|]. by left.
Qed.
Lemma set_up_spec :
  (∃ d s, can_start config ∧ seeded config d ∧ set_up version config = Ok (server_config, s) ∧ store_ok s ∧ tables_of s = seeded_tables size d) ∨
  (∃ e, set_up version config = Err e) ∧ ∀ d, can_start config → ¬ seeded config d.
Proof using Hsize.
  assert (size ≤ MAX_TABLE_SIZE ∨ ∃ e, InMemoryStore.try_new (StoreConfig.mk size size size size) = Err e) as Hnew.
  { destruct (decide (size ≤ MAX_TABLE_SIZE)); [by left|right]. destruct (try_new_err (StoreConfig.mk size size size size)) as (table & count & He & _); cbn; try lia; [|by eauto].
    unfold Memory.config_ok. cbn. lia. }
  pose proof new_tables as Htables. pose proof seed_all_spec as Hseed. pose proof validate_spec as Hv.
  unfold set_up. destruct config as [u mc mt st sz h i c dd]. cbn [ServerCommandConfig.table_size ServerCommandConfig.holding ServerCommandConfig.input ServerCommandConfig.coil ServerCommandConfig.discrete] in *.
  destruct (InMemoryStore.try_new _) as [s0|e| |] eqn:Htry.
  2:{ right. split; [by eexists|]. intros d [Hmax _] _. destruct (try_new_ok (StoreConfig.mk sz sz sz sz)) as (s' & Hs' & _); [by unfold Memory.config_ok; cbn in *|congruence]. }
  2,3: destruct (decide (sz ≤ MAX_TABLE_SIZE)); [destruct (try_new_ok (StoreConfig.mk sz sz sz sz)) as (s' & Hs' & _); [by unfold Memory.config_ok; cbn in *|congruence]|
         destruct Hnew as [?|[e He]]; [done|congruence]].
  cbn [map_err rbind]. destruct (Htables s0 eq_refl) as (Hmax & Hs0 & HT0). destruct (Hseed s0 Hs0 HT0) as [(d & s & Hd & Heq & Hs & HT)|[Hno (e & s & Heq)]]; rewrite Heq; cbn [rbind].
  - destruct Hv as [(Hval & H1 & H2 & H3)|[[e Hval] Hno]]; cbn [ServerCommandConfig.unit_id ServerCommandConfig.max_connections ServerCommandConfig.max_transactions ServerCommandConfig.shutdown_timeout] in Hval; rewrite Hval; cbn [map_err rbind].
    + left. exists d, s. by split_and!.
    + right. split; [by eexists|]. done.
  - right. split; [by eexists|]. intros d _. apply Hno.
Qed.
End Commands.

(** * Theorems *)

(** The server command: it starts a server exactly when the table size is at most 65536,
    every seed reads [ADDR=VALUE] with an address in the table and a value of its kind, and
    neither limit nor the shutdown timeout is zero. The store it serves then holds, at every
    address, the value of the last seed for it, and zero or [false] where there is none.
    Otherwise it reports an error; it never panics. *)
Theorem server_command_exact (version : bytes) (config : ServerCommandConfig.t) :
  0 ≤ ServerCommandConfig.table_size config →
  returns (set_up version config) ∧
  (∀ server store, set_up version config = Ok (server, store) →
     ServerConfig.unit_id server = ServerCommandConfig.unit_id config ∧ store_ok store ∧ can_start config ∧
     ∃ d, seeded config d ∧ tables_of store = seeded_tables (ServerCommandConfig.table_size config) d) ∧
  (∀ d, can_start config → seeded config d → ∃ server store, set_up version config = Ok (server, store) ∧
     tables_of store = seeded_tables (ServerCommandConfig.table_size config) d).
Proof.
  intros Hsize. destruct (set_up_spec version config Hsize) as [(d & s & Hc & Hd & Heq & Hs & HT)|[[e Heq] Hno]]; rewrite Heq.
  - split; [done|]. split.
    + intros server store [= <- <-]. split_and!; [done..|by eauto].
    + intros d' _ Hd'. rewrite (seeded_functional config d' d Hd' Hd). by eauto.
  - split; [done|]. split; [done|]. intros d Hc Hd. by destruct (Hno d).
Qed.
(** Two seeds for one register, and one for a coil *)
Definition seeded_command : ServerCommandConfig.t :=
  ServerCommandConfig.mk 1 64 16 10000000000 8 [chars "3=258"; chars "0x3=0X304"] [] [chars "7=on"] [].
Lemma server_command_exact_witness : ∃ server store, set_up [49] seeded_command = Ok (server, store) ∧
  Tables.holding_registers (tables_of store) = [0; 0; 0; 772; 0; 0; 0; 0] ∧
  Tables.coils (tables_of store) = [false; false; false; false; false; false; false; true].
Proof.
  destruct (server_command_exact [49] seeded_command) as (_ & Hok & _); [cbn; lia|].
  destruct (set_up [49] seeded_command) as [[server store]|e| |] eqn:Heq; [|vm_compute in Heq; discriminate Heq..].
  destruct (Hok server store eq_refl) as (_ & _ & _ & d & _ & HT). exists server, store. split; [reflexivity|].
  vm_compute in Heq. injection Heq as <- <-. split; reflexivity.
Defined.
