(* ===== verification/Transports.v ===== *)
(** * The transports (crates/rusty-modbus-tcp: src/connect.rs, src/transport.rs;
    crates/rusty-modbus-tls: src/connect.rs; crates/rusty-modbus-rtu: src/serial.rs, src/rtu_tcp.rs, src/error.rs)

    The halves that a client or a server sends and receives frames with, over TCP, TLS, a serial
    line and RTU over TCP, and how a connection is made and an idle one inspected. A half
    is a timeout around tokio_util's [Framed], which is the class [Framed] here; [FramedLaws]
    is what its documentation says for a codec, and [Port] is one that keeps them. *)
From stdpp Require Import strings.
From S2P Require Import Prelude Types CodecError Crc Stream Mbap Rtu RtuTcp RtuConfig Deadlines Seconds LegacyTiming Session Transaction DeviceId Pool ServerTasks Discover Listener Serve.
#[local] Open Scope Z_scope.

(** [tokio::time::timeout] around a future *)
Module Timed.
Inductive t (A : Type) : Type := Completed (a : A) | Elapsed.
Arguments Completed {A}. Arguments Elapsed {A}.
Definition is_elapsed {A} (o : t A) : bool := match o with Elapsed => true | Completed _ => false end.
End Timed.
(** What a read of the stream brings, and a write that was completed: when it began, when it was over *)
Module Read.
Inductive t : Type := Bytes (piece : bytes) | Failure.
End Read.
Module Burst.
Record t : Type := mk { from : Z; until : Z; content : bytes }.
End Burst.

(** A stream with a codec, and the clock. A limit of [None] is an await without a timeout. *)
Class Framed (W : Type) : Type := {
  instant_now : W → Z;
  sleep : Z → W → W;
  sink_send : option Z → Frame.t → W → Timed.t (res FrameError.t unit) * W;
  stream_next : option Z → W → Timed.t (option (res FrameError.t Frame.t)) * W;
  read_buffer : W → bytes;
  write_buffer : W → bytes;
  (** what the reads to come bring, until the end of the stream; what was written; whether
      the decoder or a read has failed *)
  incoming : W → list Read.t;
  written : W → list Burst.t;
  failed : W → bool;
}.

(** ** The halves *)
Section Halves.
Context {W : Type} `{Framed W}.

Definition timed_send (write_timeout : option Z) (frame : Frame.t) : ST W TransportError.t unit :=
  λ w, match sink_send write_timeout frame w with
       | (Timed.Completed r, w) => (map_err TransportError.Frame r, w)
       | (Timed.Elapsed, w) => (Err TransportError.Timeout, w)
       end.
Definition timed_recv (read_timeout : option Z) : ST W TransportError.t Frame.t :=
  λ w, match stream_next read_timeout w with
       | (Timed.Elapsed, w) => (Err TransportError.Timeout, w)
       | (Timed.Completed (Some r), w) => (map_err TransportError.Frame r, w)
       | (Timed.Completed None, w) => (Err TransportError.Disconnected, w)
       end.
End Halves.

Module TcpSink.
Record t : Type := mk { inner : Z; write_timeout : option Z }.
Definition send {W} `{Framed W} (self : t) (frame : Frame.t) : ST W TransportError.t unit := timed_send (write_timeout self) frame.
End TcpSink.
Module TcpRecvStream.
Record t : Type := mk { inner : Z; read_timeout : option Z }.
Definition recv {W} `{Framed W} (self : t) : ST W TransportError.t Frame.t := timed_recv (read_timeout self).
End TcpRecvStream.
Module TlsSink.
Record t : Type := mk { inner : Z; write_timeout : option Z }.
Definition send {W} `{Framed W} (self : t) (frame : Frame.t) : ST W TransportError.t unit := timed_send (write_timeout self) frame.
End TlsSink.
Module TlsRecvStream.
Record t : Type := mk { inner : Z; read_timeout : option Z }.
Definition recv {W} `{Framed W} (self : t) : ST W TransportError.t Frame.t := timed_recv (read_timeout self).
End TlsRecvStream.
Module RtuTcpSink.
Record t : Type := mk { inner : Z; write_timeout : option Z }.
Definition send {W} `{Framed W} (self : t) (frame : Frame.t) : ST W TransportError.t unit := timed_send (write_timeout self) frame.
End RtuTcpSink.
Module RtuTcpRecvStream.
Record t : Type := mk { inner : Z; read_timeout : option Z }.
Definition recv {W} `{Framed W} (self : t) : ST W TransportError.t Frame.t := timed_recv (read_timeout self).
End RtuTcpRecvStream.

(** ** The serial line *)
Module ErrorKind.
Inductive t : Type := InvalidInput | InvalidData.
End ErrorKind.
(** A transport error, where the I/O error made here keeps its kind and its source *)
Module SerialError.
Inductive t : Type := Transport (e : TransportError.t) | UnitId (kind : ErrorKind.t) (source : RtuUnitIdRole.error).
Definition transport (self : t) : TransportError.t := match self with Transport e => e | UnitId _ _ => TransportError.Io end.
End SerialError.

Definition validate_strict_frame_unit_id (frame : Frame.t) (role : RtuUnitIdRole.t) : res SerialError.t unit :=
  map_err (λ error,
    let kind := match role with
                | RtuUnitIdRole.ClientDestination => ErrorKind.InvalidInput
                | RtuUnitIdRole.ResponderSource => ErrorKind.InvalidData
                end in
    SerialError.UnitId kind error) (RtuUnitIdRole.validate role (Frame.unit_id frame)).
(** Durations and instants do not go below zero. *)
Definition remaining_interframe_delay (last_tx_end : option Z) (now interframe_delay : Z) : Z :=
  match last_tx_end with
  | None => 0
  | Some last_tx_end => Z.max 0 (interframe_delay - Z.max 0 (now - last_tx_end))
  end.
Definition wait_for_interframe_silence {W} `{Framed W} (last_tx_end : option Z) (interframe_delay : Z) (w : W) : W :=
  let remaining := remaining_interframe_delay last_tx_end (instant_now w) interframe_delay in
  if negb (remaining =? 0) then sleep remaining w else w.

Module SerialSink.
Record t : Type := mk {
  inner : Z; write_timeout : option Z; interframe_delay : Z; last_tx_end : option Z; resolved_config : option ResolvedRtuConfig.t
}.
Definition set_last_tx_end (now : Z) (self : t) : t :=
  mk (inner self) (write_timeout self) (interframe_delay self) (Some now) (resolved_config self).
(** The sink is behind an exclusive reference. *)
Definition send {W} `{Framed W} (frame : Frame.t) : ST (t * W) SerialError.t unit :=
  λ '(self, w),
    match (if is_some (resolved_config self) then validate_strict_frame_unit_id frame RtuUnitIdRole.ClientDestination else Ok tt) with
    | Ok _ =>
        let w := wait_for_interframe_silence (last_tx_end self) (interframe_delay self) w in
        let '(result, w) := timed_send (write_timeout self) frame w in
        (map_err SerialError.Transport result,
         (match result with Ok _ => set_last_tx_end (instant_now w) self | _ => self end, w))
    | Err e => (Err e, (self, w))
    | Panic => (Panic, (self, w))
    | OutOfFuel => (OutOfFuel, (self, w))
    end.
End SerialSink.
Module SerialRecvStream.
Record t : Type := mk { inner : Z; read_timeout : option Z; resolved_config : option ResolvedRtuConfig.t }.
Definition recv {W} `{Framed W} (self : t) : ST W SerialError.t Frame.t :=
  λ w, match timed_recv (read_timeout self) w with
       | (Ok frame, w) =>
           (let? _ := (if is_some (resolved_config self) then validate_strict_frame_unit_id frame RtuUnitIdRole.ResponderSource else Ok tt) in
            Ok frame, w)
       | (r, w) => (map_err SerialError.Transport r, w)
       end.
End SerialRecvStream.

(** The settings of the serial driver; [tokio_serial]'s enumerations are those of [RtuConfig]. *)
Module NativeSerialSettings.
Record t : Type := mk { baud_rate : Z; data_bits : DataBits.t; parity : Parity.t; stop_bits : StopBits.t }.
Definition from (config : ResolvedRtuConfig.t) : t :=
  mk (ResolvedRtuConfig.baud_rate config) (ResolvedRtuConfig.data_bits config) (ResolvedRtuConfig.parity config)
    (ResolvedRtuConfig.stop_bits config).
End NativeSerialSettings.
Definition split_serial_stream (port response_timeout interframe_delay : Z) (resolved_config : option ResolvedRtuConfig.t)
    : SerialSink.t * SerialRecvStream.t :=
  (SerialSink.mk port (Some response_timeout) interframe_delay None resolved_config,
   SerialRecvStream.mk port (Some response_timeout) resolved_config).

Module RtuError.
Inductive t : Type := Io | Frame (e : FrameError.t) | Timeout | Disconnected | SerialPort (message : string).
(** [From<RtuError> for TransportError] *)
Definition into (self : t) : TransportError.t :=
  match self with
  | Io => TransportError.Io
  | Frame e => TransportError.Frame e
  | Timeout => TransportError.Timeout
  | Disconnected => TransportError.Disconnected
  | SerialPort _ => TransportError.Io
  end.
End RtuError.
Module SerialTransport.
Section Open.
(** The serial driver: a port, or a message *)
Context (open_native_async : string → NativeSerialSettings.t → res string Z).
Definition open (path : string) (config : RtuConfig.t) : res RtuError.t (SerialSink.t * SerialRecvStream.t) :=
  let settings := NativeSerialSettings.mk (RtuConfig.baud_rate config) (RtuConfig.data_bits config) (RtuConfig.parity config)
                    (RtuConfig.stop_bits config) in
  let? port := map_err RtuError.SerialPort (open_native_async path settings) in
  let? delay := infallible (interframe_delay config) in
  Ok (split_serial_stream port (RtuConfig.response_timeout config) delay None).
Definition open_strict (path : string) (config : StrictRtuConfig.t) : res RtuError.t (SerialSink.t * SerialRecvStream.t) :=
  let resolved := ResolvedRtuConfig.from config in
  let settings := NativeSerialSettings.from resolved in
  let? port := map_err RtuError.SerialPort (open_native_async path settings) in
  Ok (split_serial_stream port (ResolvedRtuConfig.response_timeout resolved) (ResolvedRtuConfig.t3_5 resolved) (Some resolved)).
End Open.
End SerialTransport.

(** ** Connecting *)

(** Sockets, each a number: connecting within a time, and the options that are set. An I/O
    error is [tt]. *)
Class Sockets (W Addr : Type) : Type := {
  tcp_connect : Z → Addr → W → Timed.t (res unit Z) * W;
  set_nodelay : Z → bool → ST W unit unit;
  set_tcp_keepalive : Z → Z → option Z → ST W unit unit;
}.
Definition KEEPALIVE_PROBE_INTERVAL : Z := 10000000000.

Section Connect.
Context {W Addr : Type} `{Sockets W Addr}.
(** [timeout(limit, TcpStream::connect(addr)).await] with the two errors it has *)
Definition connect_within {E} (timeout io : E) (limit : Z) (addr : Addr) : ST W E Z :=
  λ w, match tcp_connect limit addr w with
       | (Timed.Elapsed, w) => (Err timeout, w)
       | (Timed.Completed r, w) => (map_err (λ _, io) r, w)
       end.
Definition configure_socket (stream : Z) (config : TcpConfig.t) : ST W TransportError.t unit :=
  st_map_err (λ _, TransportError.Io) (set_nodelay stream (TcpConfig.tcp_nodelay config));;;
  match TcpConfig.keepalive config with
  | Some keepalive_duration =>
      st_map_err (λ _, TransportError.Io) (set_tcp_keepalive stream keepalive_duration (Some KEEPALIVE_PROBE_INTERVAL))
  | None => st_ret tt
  end.
End Connect.
Module TcpTransport.
Definition connect {W Addr} `{Sockets W Addr} (config : TcpConfig.t) (addr : Addr) : ST W TransportError.t (TcpSink.t * TcpRecvStream.t) :=
  stream <- connect_within TransportError.Timeout TransportError.Io (TcpConfig.connect_timeout config) addr;;
  configure_socket stream config;;;
  st_ret (TcpSink.mk stream (TcpConfig.write_timeout config), TcpRecvStream.mk stream (TcpConfig.read_timeout config)).
End TcpTransport.

Section RtuConnect.
Context {W Addr : Type} `{Sockets W Addr}.
Definition rtu_configure_socket (stream : Z) (config : TcpConfig.t) : ST W RtuError.t unit :=
  st_map_err (λ _, RtuError.Io) (set_nodelay stream (TcpConfig.tcp_nodelay config));;;
  match TcpConfig.keepalive config with
  | Some keepalive_duration => st_map_err (λ _, RtuError.Io) (set_tcp_keepalive stream keepalive_duration None)
  | None => st_ret tt
  end.
(** The halves, with the codec of the connection *)
Definition connect_with_framing_policy (addr : Addr) (config : TcpConfig.t) (policy : RtuOverTcpFramingPolicy.t)
    : ST W RtuError.t (RtuTcpSink.t * RtuTcpRecvStream.t * ConfiguredRtuOverTcpCodec.t) :=
  stream <- connect_within RtuError.Timeout RtuError.Io (TcpConfig.connect_timeout config) addr;;
  rtu_configure_socket stream config;;;
  let codec := RtuOverTcpCodec.with_policy policy RtuOverTcpDirection.Response in
  st_ret (RtuTcpSink.mk stream (TcpConfig.write_timeout config), RtuTcpRecvStream.mk stream (TcpConfig.read_timeout config), codec).
End RtuConnect.
Module RtuOverTcpTransport.
Definition connect {W Addr} `{Sockets W Addr} (addr : Addr) (config : TcpConfig.t)
    : ST W RtuError.t (RtuTcpSink.t * RtuTcpRecvStream.t * ConfiguredRtuOverTcpCodec.t) :=
  connect_with_framing_policy addr config RtuOverTcpFramingPolicy.CrcScanCompatibility.
End RtuOverTcpTransport.

(** ** Inspecting an idle connection

    The halves of one split have the same number. [poll_peek] is [None] while nothing is
    there, or the number of bytes, or the kind of the error. *)
Definition classify_peek (result : option (Z + Z)) : TcpIdleObservation.t :=
  match result with
  | None => TcpIdleObservation.NoAdverseSignal
  | Some (inl n) => if n =? 0 then TcpIdleObservation.PeerClosed else TcpIdleObservation.QueuedInput
  | Some (inr kind) => TcpIdleObservation.SocketError kind
  end.
Section Inspect.
Context {W : Type} `{Framed W} (poll_peek : W → option (Z + Z)).
Definition observe_idle_framed (w : W) : TcpIdleObservation.t :=
  if negb (blen (read_buffer w) =? 0) then TcpIdleObservation.QueuedInput else classify_peek (poll_peek w).
Definition inspect_idle_tcp (sink : TcpSink.t) (stream : TcpRecvStream.t) (w : W) : TcpSink.t * TcpRecvStream.t * TcpIdleObservation.t :=
  let '(TcpSink.mk sink write_timeout) := sink in
  let '(TcpRecvStream.mk stream read_timeout) := stream in
  if sink =? stream then
    let observation := observe_idle_framed w in
    (TcpSink.mk sink write_timeout, TcpRecvStream.mk sink read_timeout, observation)
  else (TcpSink.mk sink write_timeout, TcpRecvStream.mk stream read_timeout, TcpIdleObservation.MismatchedHalves).
End Inspect.

(** ** What [Framed] is documented to do with a codec *)

(** A call of [decode] that ends the stream *)
Definition decoding_failure (r : res FrameError.t (option Frame.t)) : option (res FrameError.t Frame.t) :=
  match r with Ok _ => None | Err e => Some (Err e) | Panic => Some Panic | OutOfFuel => Some OutOfFuel end.
(** One item: the buffer is decoded; while that gives nothing, a read is appended to it and it is decoded again,
    unless the time is over first. At the end of the stream, bytes left over are an error. *)
Inductive Next (decode : ST bytes FrameError.t (option Frame.t))
    : bytes → list Read.t → Timed.t (option (res FrameError.t Frame.t)) → bytes → list Read.t → Prop :=
  | next_frame buf reads f buf' : decode buf = (Ok (Some f), buf') →
      Next decode buf reads (Timed.Completed (Some (Ok f))) buf' reads
  | next_failure buf reads r o buf' : decode buf = (r, buf') → decoding_failure r = Some o →
      Next decode buf reads (Timed.Completed (Some o)) buf' reads
  | next_read buf piece reads o buf1 buf' reads' : decode buf = (Ok None, buf1) → Next decode (buf1 ++ piece) reads o buf' reads' →
      Next decode buf (Read.Bytes piece :: reads) o buf' reads'
  | next_read_failure buf reads buf' : decode buf = (Ok None, buf') →
      Next decode buf (Read.Failure :: reads) (Timed.Completed (Some (Err FrameError.Io))) buf' reads
  | next_end buf : decode buf = (Ok None, []) → Next decode buf [] (Timed.Completed None) [] []
  | next_left_over buf buf' : decode buf = (Ok None, buf') → buf' ≠ [] →
      Next decode buf [] (Timed.Completed (Some (Err FrameError.Io))) buf' []
  | next_elapsed buf reads buf' : decode buf = (Ok None, buf') → Next decode buf reads Timed.Elapsed buf' reads.
Definition ends_stream (o : Timed.t (option (res FrameError.t Frame.t))) : bool :=
  match o with Timed.Completed (Some (Ok _)) | Timed.Completed None | Timed.Elapsed => false | _ => true end.

(** What the receiving side and the sending side of a stream have in common before and after *)
Definition same_reading {W} `{Framed W} (w w' : W) : Prop :=
  read_buffer w' = read_buffer w ∧ incoming w' = incoming w ∧ failed w' = failed w.
Definition same_writing {W} `{Framed W} (w w' : W) : Prop := write_buffer w' = write_buffer w ∧ written w' = written w.

(** [SinkExt::send] when nothing is left over from before: what the codec refuses is an error at
    once; after a success everything was written. Otherwise nothing is known. *)
Definition sent {W} `{Framed W} (encode : Frame.t → ST bytes FrameError.t unit) (f : Frame.t) (w : W)
    (o : Timed.t (res FrameError.t unit)) (w' : W) : Prop :=
  match encode f [] with
  | (Ok _, content) =>
      match o with
      | Timed.Completed (Ok _) => write_buffer w' = [] ∧ ∃ from until,
          instant_now w ≤ from ∧ from ≤ until ∧ until ≤ instant_now w' ∧ written w' = written w ++ [Burst.mk from until content]
      | Timed.Completed (Err e) => e = FrameError.Io
      | Timed.Completed _ => False
      | Timed.Elapsed => True
      end
  | (r, _) => o = Timed.Completed r ∧ same_writing w w'
  end.

Class FramedLaws (W : Type) `{Framed W} (decode : ST bytes FrameError.t (option Frame.t))
    (encode : Frame.t → ST bytes FrameError.t unit) : Prop := {
  sleep_lasts d w : 0 ≤ d → instant_now w + d ≤ instant_now (sleep d w);
  sleep_same d w : same_reading w (sleep d w) ∧ same_writing w (sleep d w);
  send_untimed f w : Timed.is_elapsed (sink_send None f w).1 = false;
  send_clock limit f w : instant_now w ≤ instant_now (sink_send limit f w).2;
  send_same limit f w : same_reading w (sink_send limit f w).2;
  send_sent limit f w : write_buffer w = [] → sent encode f w (sink_send limit f w).1 (sink_send limit f w).2;
  next_untimed w : Timed.is_elapsed (stream_next None w).1 = false;
  next_same limit w : same_writing w (stream_next limit w).2;
  next_item limit w : failed w = false →
    Next decode (read_buffer w) (incoming w) (stream_next limit w).1 (read_buffer (stream_next limit w).2) (incoming (stream_next limit w).2)
    ∧ failed (stream_next limit w).2 = ends_stream (stream_next limit w).1;
}.

(** * Specification *)

(** [n] calls of [recv], one after the other *)
Fixpoint receive {W E} (recv : ST W E Frame.t) (n : nat) (w : W) : list (res E Frame.t) * W :=
  match n with
  | O => ([], w)
  | S n => let '(r, w) := recv w in let '(rs, w) := receive recv n w in (r :: rs, w)
  end.
Definition timed_out (r : res TransportError.t Frame.t) : bool :=
  match r with Err TransportError.Timeout => true | _ => false end.
Definition not_timeouts (rs : list (res TransportError.t Frame.t)) : list (res TransportError.t Frame.t) :=
  List.filter (λ r, negb (timed_out r)) rs.
(** Apart from timeouts, of which there are none without a limit, the calls give the frames in their order and then
    the end of the stream. *)
Definition delivers {W} (recv : ST W TransportError.t Frame.t) (limit : option Z) (w : W) (fs : list Frame.t) : Prop :=
  ∀ n, let rs := (receive recv n w).1 in
    not_timeouts rs `prefix_of` map Ok fs ++ replicate n (Err TransportError.Disconnected) ∧
    (limit = None → not_timeouts rs = rs).
(** The frames [fs] are in the buffer and on the way, in any pieces. *)
Definition arriving {W} `{Framed W} (image : Frame.t → bytes) (frame_ok : Frame.t → Prop) (fs : list Frame.t) (w : W) : Prop :=
  Forall frame_ok fs ∧ failed w = false ∧
  ∃ pieces, incoming w = map Read.Bytes pieces ∧ concat (map image fs) = read_buffer w ++ concat pieces.

(** Frames sent one after the other until one fails *)
Fixpoint send_all {W E} (send : Frame.t → ST W E unit) (fs : list Frame.t) : ST W E unit :=
  match fs with [] => st_ret tt | f :: fs => send f;;; send_all send fs end.
(** Each write begins at least [d] after the end of the one before. *)
Fixpoint spaced (d : Z) (bursts : list Burst.t) : Prop :=
  match bursts with
  | b :: ((c :: _) as rest) => Burst.until b + d ≤ Burst.from c ∧ spaced d rest
  | _ => True
  end.
(** Nothing is left to be written, and the sink knows when the last write was over. *)
Definition ready {W} `{Framed W} (s : SerialSink.t) (w : W) : Prop :=
  write_buffer w = [] ∧
  ∀ b, last (written w) = Some b → ∃ t, SerialSink.last_tx_end s = Some t ∧ Burst.until b ≤ t ∧ t ≤ instant_now w.
(** What a frame is on a serial line *)
Definition serial_adu (f : Frame.t) : bytes := rtu_adu (Frame.unit_id f) (Frame.pdu f).

(** * Lemmas *)
Section Receiving.
Context {W : Type} `{Framed W} {decode : ST bytes FrameError.t (option Frame.t)} {encode : Frame.t → ST bytes FrameError.t unit}.
Context `{!FramedLaws W decode encode} (image : Frame.t → bytes) (frame_ok : Frame.t → Prop) `{!StreamDecoder decode image frame_ok}.

(** What the decoder makes of a buffer at the front of the stream *)
Lemma decode_arriving fs buf rest : Forall frame_ok fs → concat (map image fs) = buf ++ rest →
  (∃ f fs' q, fs = f :: fs' ∧ decode buf = (Ok (Some f), q) ∧ concat (map image fs') = q ++ rest)
  ∨ (decode buf = (Ok None, buf) ∧ (rest = [] → fs = [] ∧ buf = [])).
Proof.
  intros Hok Heq.
  destruct (images_prefix image frame_ok fs buf rest Hok Heq) as (fs1 & fs2 & r & -> & -> & Hp & H2).
  apply Forall_app in Hok as [Hok1 Hok2]. destruct fs1 as [|f fs1].
  - right. simpl. split; [by eapply decode_partial|]. intros ->. rewrite app_nil_r in H2.
    destruct fs2 as [|f fs2]; [by simpl in *; subst|]. destruct Hp as (q & Hq & Hne). simpl in H2.
    rewrite Hq, <-app_assoc in H2. rewrite <-(app_nil_r r) in H2 at 2. apply app_inv_head in H2. by apply app_eq_nil in H2 as [? _].
  - left. apply Forall_cons in Hok1 as [Hf Hok1]. exists f, (fs1 ++ fs2), (concat (map image fs1) ++ r). split; [done|].
    cbn [map concat]. rewrite <-app_assoc, stream_frame by done. split; [done|].
    by rewrite map_app, concat_app, H2, app_assoc.
Qed.
(** What the next item of a stream of frames can be *)
Lemma next_arriving buf reads o buf' reads' fs : Next decode buf reads o buf' reads' → Forall frame_ok fs →
  ∀ pieces, reads = map Read.Bytes pieces → concat (map image fs) = buf ++ concat pieces →
  ∃ pieces', reads' = map Read.Bytes pieces' ∧
    ((∃ f fs', fs = f :: fs' ∧ o = Timed.Completed (Some (Ok f)) ∧ concat (map image fs') = buf' ++ concat pieces')
     ∨ (o = Timed.Elapsed ∧ concat (map image fs) = buf' ++ concat pieces')
     ∨ (fs = [] ∧ o = Timed.Completed None ∧ [] = buf' ++ concat pieces')).
Proof.
  intros Hn Hok. induction Hn as [buf reads f buf' Hd|buf reads r o buf' Hd Hf|buf piece reads o buf1 buf' reads' Hd Hn IH|buf reads buf' Hd
    |buf Hd|buf buf' Hd Hne|buf reads buf' Hd]; intros pieces Hr Heq.
  all: destruct (decode_arriving _ _ _ Hok Heq) as [(g & fs' & q & -> & Hg & Hq)|[Hg Hend]]; rewrite Hg in Hd; simplify_eq/=.
  - exists pieces. split; [done|]. left. by eexists _, _.
  - destruct pieces as [|c pieces]; simplify_eq/=. apply (IH pieces); [done|]. by rewrite <-app_assoc.
  - by destruct pieces.
  - destruct pieces; [|done]. destruct (Hend eq_refl) as [-> _]. exists []. split; [done|]. right; right. done.
  - destruct pieces; [|done]. by destruct (Hend eq_refl).
  - exists pieces. split; [done|]. right; left. done.
Qed.
Lemma recv_arriving limit fs w : arriving image frame_ok fs w →
  match timed_recv limit w with
  | (Ok f, w') => ∃ fs', fs = f :: fs' ∧ arriving image frame_ok fs' w'
  | (Err TransportError.Timeout, w') => limit ≠ None ∧ arriving image frame_ok fs w'
  | (Err TransportError.Disconnected, w') => fs = [] ∧ arriving image frame_ok [] w'
  | _ => False
  end.
Proof.
  intros (Hok & Hf & pieces & Hi & Heq). unfold timed_recv.
  destruct (next_item limit w Hf) as [Hn Hf']. pose proof (next_untimed (decode:=decode) (encode:=encode) w) as Hu.
  destruct (next_arriving _ _ _ _ _ fs Hn Hok pieces Hi Heq) as (pieces' & Hi' & Hcase).
  assert (limit = None → (stream_next limit w).1 ≠ Timed.Elapsed) as Hlim by (intros ->; by destruct (stream_next None w).1).
  destruct (stream_next limit w) as [o w']. cbn [fst snd] in *.
  destruct Hcase as [(f & fs' & -> & -> & Hq)|[[-> Hq]|(-> & -> & Hq)]]; cbn in *.
  - exists fs'. split; [done|]. apply Forall_cons in Hok as [_ Hok]. split_and!; try done. by exists pieces'.
  - split; [naive_solver|]. split_and!; try done. by exists pieces'.
  - split; [done|]. split_and!; try done. by exists pieces'.
Qed.
Lemma replicate_prefix {A} n (x : A) : replicate n x `prefix_of` replicate (S n) x.
Proof. exists [x]. by rewrite <-replicate_cons_app. Qed.
Lemma delivers_arriving limit fs w : arriving image frame_ok fs w → delivers (timed_recv limit) limit w fs.
Proof.
  intros Ha n. revert fs w Ha. induction n as [|n IH]; intros fs w Ha; [by split; [apply prefix_nil|]|]. cbn [receive].
  pose proof (recv_arriving limit fs w Ha) as Hr. destruct (timed_recv limit w) as [r w'].
  destruct (receive (timed_recv limit) n w') as [rs w''] eqn:Hrs.
  destruct r as [f|[]| |]; try done.
  - destruct Hr as (fs' & -> & Ha'). destruct (IH fs' w' Ha') as [IH1 IH2]. rewrite Hrs in IH1, IH2. cbn in *.
    split; [|intros ?; f_equal; auto]. apply prefix_cons. etrans; [exact IH1|]. apply prefix_app, replicate_prefix.
  - destruct Hr as [Hl Ha']. destruct (IH fs w' Ha') as [IH1 IH2]. rewrite Hrs in IH1, IH2. cbn in *. split; [|done].
    etrans; [exact IH1|]. apply prefix_app, replicate_prefix.
  - destruct Hr as [-> Ha']. destruct (IH [] w' Ha') as [IH1 IH2]. rewrite Hrs in IH1, IH2. cbn in *.
    split; [|intros ?; f_equal; auto]. by apply prefix_cons.
Qed.
End Receiving.

Section Sending.
Context {W : Type} `{Framed W} {decode : ST bytes FrameError.t (option Frame.t)} {encode : Frame.t → ST bytes FrameError.t unit}.
Context `{!FramedLaws W decode encode}.

(** A send that succeeds with nothing left over from before has written what the codec makes of the frame. *)
Lemma timed_send_written limit f w w' : write_buffer w = [] → timed_send limit f w = (Ok tt, w') →
  write_buffer w' = [] ∧ instant_now w ≤ instant_now w' ∧
  ∃ b, written w' = written w ++ [b] ∧ encode f [] = (Ok tt, Burst.content b) ∧
    instant_now w ≤ Burst.from b ∧ Burst.until b ≤ instant_now w'.
Proof.
  intros Hb. unfold timed_send. pose proof (send_sent limit f w Hb) as Hs. pose proof (send_clock limit f w) as Hc.
  destruct (sink_send limit f w) as [o w1]. cbn [fst snd] in *. intros Heq.
  destruct o as [[[]|e| |]|]; try done. injection Heq as ->. unfold sent in Hs.
  destruct (encode f []) as [[[]|e| |] content]; try by destruct Hs.
  destruct Hs as (? & from & until & ? & ? & ? & Hw). split_and!; try done. by exists (Burst.mk from until content).
Qed.
Lemma send_all_written limit fs w w' : write_buffer w = [] → send_all (timed_send limit) fs w = (Ok tt, w') →
  ∃ bursts, written w' = written w ++ bursts ∧ Forall2 (λ f b, encode f [] = (Ok tt, Burst.content b)) fs bursts.
Proof.
  revert w. induction fs as [|f fs IH]; intros w Hb; cbn [send_all].
  - intros [= ->]. exists []. by rewrite app_nil_r.
  - intros Heq. unfold st_bind in Heq. destruct (timed_send limit f w) as [[[]|e| |] w1] eqn:Hf; try done.
    destruct (timed_send_written _ _ _ _ Hb Hf) as (Hb1 & _ & b & Hw1 & He & _).
    destruct (IH w1 Hb1 Heq) as (bursts & Hw & Hall). exists (b :: bursts). split; [by rewrite Hw, Hw1, <-app_assoc|by constructor].
Qed.

(** Waiting ends no earlier than the delay after the last transmission. *)
Lemma wait_spec last delay w : 0 ≤ delay →
  let w' := wait_for_interframe_silence last delay w in
  instant_now w ≤ instant_now w' ∧ same_writing w w' ∧ ∀ t, last = Some t → t ≤ instant_now w → t + delay ≤ instant_now w'.
Proof.
  intros Hd. cbv zeta. unfold wait_for_interframe_silence.
  assert (0 ≤ remaining_interframe_delay last (instant_now w) delay) as Hr by (destruct last; simpl; lia).
  destruct (_ =? 0) eqn:H0; cbn [negb].
  - split_and!; [done|done|]. intros t -> Ht. simpl in H0. lia.
  - pose proof (sleep_lasts _ w Hr) as Hl. pose proof (proj2 (sleep_same (remaining_interframe_delay last (instant_now w) delay) w)) as Hs.
    split_and!; [lia|done|]. intros t -> Ht. simpl in *. lia.
Qed.
Lemma serial_send_step f s w s' w' : 0 ≤ SerialSink.interframe_delay s → ready s w → SerialSink.send f (s, w) = (Ok tt, (s', w')) →
  ready s' w' ∧ SerialSink.interframe_delay s' = SerialSink.interframe_delay s ∧
  SerialSink.resolved_config s' = SerialSink.resolved_config s ∧
  ∃ b, written w' = written w ++ [b] ∧ encode f [] = (Ok tt, Burst.content b) ∧
    ∀ a, last (written w) = Some a → Burst.until a + SerialSink.interframe_delay s ≤ Burst.from b.
Proof.
  intros Hd [Hb Hlast]. unfold SerialSink.send. destruct (if is_some _ then _ else _) as [[]|e| |]; try done.
  destruct (wait_spec (SerialSink.last_tx_end s) _ w Hd) as (Hc & [Hwb Hww] & Hwait). set (w1 := wait_for_interframe_silence _ _ _) in *.
  destruct (timed_send (SerialSink.write_timeout s) f w1) as [[[]|e| |] w2] eqn:Hs; intros [= <- <-].
  destruct (timed_send_written _ _ w1 _ ltac:(congruence) Hs) as (Hb2 & Hc2 & b & Hw2 & He & Hfrom & Huntil).
  split_and!; try done.
  - split; [done|]. intros b' Hb'. rewrite Hw2, last_snoc in Hb'. injection Hb' as <-. by exists (instant_now w2).
  - exists b. rewrite Hw2, Hww. split_and!; try done. intros a Ha. destruct (Hlast a Ha) as (t & Ht & Hu & Hn).
    specialize (Hwait t Ht Hn). lia.
Qed.
Lemma spaced_snoc d bursts b : spaced d bursts → (∀ a, last bursts = Some a → Burst.until a + d ≤ Burst.from b) → spaced d (bursts ++ [b]).
Proof.
  induction bursts as [|a bursts IH]; intros Hs Hl; [done|]. destruct bursts as [|c bursts]; [split; [by apply Hl|done]|].
  destruct Hs as [? Hs]. split; [done|]. by apply IH.
Qed.
Lemma serial_send_all fs s w s' w' : 0 ≤ SerialSink.interframe_delay s → ready s w → spaced (SerialSink.interframe_delay s) (written w) →
  send_all SerialSink.send fs (s, w) = (Ok tt, (s', w')) →
  ready s' w' ∧ spaced (SerialSink.interframe_delay s) (written w') ∧
  SerialSink.resolved_config s' = SerialSink.resolved_config s ∧
  ∃ bursts, written w' = written w ++ bursts ∧ Forall2 (λ f b, encode f [] = (Ok tt, Burst.content b)) fs bursts.
Proof.
  revert s w. induction fs as [|f fs IH]; intros s w Hd Hr Hsp; cbn [send_all].
  - intros [= <- <-]. split_and!; try done. exists []. by rewrite app_nil_r.
  - intros Heq. unfold st_bind in Heq. destruct (SerialSink.send f (s, w)) as [[[]|e| |] [s1 w1]] eqn:Hf; try done.
    destruct (serial_send_step _ _ _ _ _ Hd Hr Hf) as (Hr1 & Hd1 & Hc1 & b & Hw1 & He & Hab).
    destruct (IH s1 w1) as (Hr' & Hsp' & Hc' & bursts & Hw & Hall); try done; [by rewrite Hd1|rewrite Hd1, Hw1; by apply spaced_snoc|].
    rewrite Hd1 in Hsp'. split_and!; try done; [congruence|]. exists (b :: bursts). split; [by rewrite Hw, Hw1, <-app_assoc|by constructor].
Qed.
End Sending.

(** The images of what the codecs accept *)
Lemma mbap_encode_ok f content : (∀ h, Frame.header f = FrameHeader.Mbap h → MbapHeader.ok h) →
  MbapEncoder.encode f [] = (Ok tt, content) → mbap_ok f ∧ content = mbap_image f.
Proof.
  destruct f as [[h|u] pdu]; intros Hh; [|done]. specialize (Hh h eq_refl).
  change (Frame.mk (FrameHeader.Mbap h) pdu) with (mbap_frame h pdu). rewrite mbap_encode_frame.
  destruct (validate_outgoing_header h (blen pdu)) as [[]| | |] eqn:Hv; intros [= <-].
  apply validate_outgoing_header_Ok in Hv as (? & ? & ?); [|done|apply blen_nonneg]. split; [split_and!; simpl; done || lia|done].
Qed.
Lemma rtu_encode_ok f content : RtuCodec.encode f [] = (Ok tt, content) → content = serial_adu f.
Proof. rewrite rtu_encode_adu. by destruct (validate_outgoing_pdu _); intros [= <-]. Qed.
Lemma encoded_contents (encode : Frame.t → ST bytes FrameError.t unit) (image : Frame.t → bytes) (P : Frame.t → Prop) fs bursts :
  (∀ f content, P f → encode f [] = (Ok tt, content) → content = image f) → Forall P fs →
  Forall2 (λ f b, encode f [] = (Ok tt, Burst.content b)) fs bursts → map Burst.content bursts = map image fs.
Proof.
  intros Hi Hp Hall. induction Hall as [|f b fs bursts He Hall IH]; [done|]. apply Forall_cons in Hp as [? ?].
  cbn [map]. f_equal; eauto.
Qed.

(** What is sent through [send] over one stream arrives through [recv] at the end of another, in whatever pieces. *)
Definition carries {W W'} `{Framed W, Framed W'} (send : Frame.t → ST W TransportError.t unit) (recv : ST W' TransportError.t Frame.t)
    (limit : option Z) (valid : Frame.t → Prop) : Prop :=
  ∀ fs ws ws' wr pieces, Forall valid fs → write_buffer ws = [] → written ws = [] → send_all send fs ws = (Ok tt, ws') →
    failed wr = false → read_buffer wr = [] → incoming wr = map Read.Bytes pieces →
    concat pieces = concat (map Burst.content (written ws')) → delivers recv limit wr fs.
Definition mbap_typed (f : Frame.t) : Prop := ∀ h, Frame.header f = FrameHeader.Mbap h → MbapHeader.ok h.

Lemma timed_carries {W W'} `{Framed W, Framed W'} decode encode image frame_ok valid limit limit' :
  FramedLaws W decode encode → FramedLaws W' decode encode → StreamDecoder decode image frame_ok →
  (∀ f content, valid f → encode f [] = (Ok tt, content) → frame_ok f ∧ content = image f) →
  carries (W:=W) (W':=W') (timed_send limit) (timed_recv limit') limit' valid.
Proof.
  intros HW HW' Hd He fs ws ws' wr pieces Hv Hb Hw Hs Hf Hr Hi Hc.
  destruct (send_all_written (decode:=decode) (encode:=encode) _ _ _ _ Hb Hs) as (bursts & Hw' & Hall).
  rewrite Hw in Hw'. cbn in Hw'.
  apply (delivers_arriving (decode:=decode) (encode:=encode) image frame_ok). split_and!; [|done|].
  - clear -Hv Hall He. induction Hall; [done|]. apply Forall_cons in Hv as [? ?]. constructor; [by eapply He|auto].
  - exists pieces. split; [done|]. rewrite Hr, Hc, Hw'. cbn. f_equal. symmetry.
    eapply encoded_contents; [|exact Hv|exact Hall]. intros f content ? ?. by eapply He.
Qed.

(** What a serial stream does with an empty buffer *)
Section SerialReceiving.
Context {W : Type} `{Framed W} `{!FramedLaws W RtuCodec.decode RtuCodec.encode}.
Lemma serial_next limit w piece reads : failed w = false → read_buffer w = [] → incoming w = Read.Bytes piece :: reads →
  let '(o, w') := stream_next limit w in
  (o = Timed.Elapsed ∧ limit ≠ None ∧ incoming w' = incoming w ∧ read_buffer w' = [])
  ∨ Next RtuCodec.decode piece reads o (read_buffer w') (incoming w').
Proof.
  intros Hf Hb Hi. destruct (next_item limit w Hf) as [Hn _]. pose proof (next_untimed (decode:=RtuCodec.decode) (encode:=RtuCodec.encode) w) as Hu.
  assert (limit = None → (stream_next limit w).1 ≠ Timed.Elapsed) as Hlim by (intros ->; by destruct (stream_next None w).1).
  destruct (stream_next limit w) as [o w']. cbn [fst snd] in *. rewrite Hb, Hi in Hn.
  assert (RtuCodec.decode [] = (Ok None, [])) as Hnil by done.
  inversion Hn as [? ? ? ? Hd|? ? ? ? ? Hd Hx|? ? ? ? ? ? ? Hd Hn'|? ? ? Hd|? Hd|? ? Hd|? ? ? Hd]; subst; rewrite Hnil in Hd; simplify_eq.
  - right. done.
  - left. rewrite Hi. split_and!; [done|naive_solver|congruence..].
Qed.
(** A buffer that the codec does not wait with decides the item. *)
Lemma next_decided buf reads o buf' reads' r rest : RtuCodec.decode buf = (r, rest) → r ≠ Ok None → Next RtuCodec.decode buf reads o buf' reads' →
  buf' = rest ∧ reads' = reads ∧
  o = Timed.Completed (Some (match r with Ok (Some f) => Ok f | Err e => Err e | OutOfFuel => OutOfFuel | _ => Panic end)).
Proof.
  intros Hd Hr Hn. inversion Hn as [? ? ? ? Hd'|? ? ? ? ? Hd' Hx|? ? ? ? ? ? ? Hd' Hn'|? ? ? Hd'|? Hd'|? ? Hd'|? ? ? Hd']; subst;
    rewrite Hd in Hd'; simplify_eq; split_and!; try done. by destruct r0; simplify_eq/=.
Qed.
End SerialReceiving.

Lemma t3_5_nonneg config : 0 < StrictRtuConfig.baud_rate config → 0 ≤ ResolvedRtuConfig.t3_5 (ResolvedRtuConfig.from config).
Proof.
  intros Hb. unfold ResolvedRtuConfig.from. destruct (StrictRtuConfig.serial_format config), (_ <=? _); cbn; try done.
  all: unfold duration_from_ratio_ceiling, ResolvedRtuConfig.T3_5_NANOSECOND_NUMERATOR.
  all: apply Z.lt_le_incl, div_ceil_lower; lia.
Qed.

Lemma rtu_decode_adu u pdu : rtu_adu_ok u pdu → RtuCodec.decode (rtu_adu u pdu) = (Ok (Some (rtu_frame u pdu)), []).
Proof.
  intros (Hu & Hp & Hl). unfold rtu_adu. destruct (crc16_u16 (u :: pdu)) as [? ?]; [by apply bytes_ok_cons|].
  unfold to_le_bytes. rewrite rtu_decode_cells by done. fold (to_le_bytes (crc16 (u :: pdu))).
  rewrite (proj2 (Z.eqb_eq _ _)); [done|]. symmetry. apply from_to_le_bytes. split; lia.
Qed.
(** A part of a frame is decoded as if it were one. *)
Lemma rtu_decode_prefix u pdu p q : is_u8 u → bytes_ok pdu → 1 ≤ blen pdu ≤ 253 → rtu_adu u pdu = p ++ q → q ≠ [] → 4 ≤ blen p →
  ∃ u' pdu' a b, RtuCodec.decode p =
      (if crc16 (u' :: pdu') =? from_le_bytes a b then (Ok (Some (rtu_frame u' pdu')), [])
       else (Err (FrameError.CrcMismatch (crc16 (u' :: pdu')) (from_le_bytes a b)), p)) ∧
    (u' = u → pdu' ≠ pdu) ∧ verify_crc p = Ok (crc16 (u' :: pdu') =? from_le_bytes a b).
Proof.
  intros Hu Hp Hl Heq Hq Hp4. assert (bytes_ok (p ++ q)) as Hbytes by (rewrite <-Heq; by apply rtu_adu_ok_bytes).
  apply bytes_ok_app in Hbytes as [Hbp _]. assert (blen p + blen q = blen pdu + 3) as Hlen by by rewrite <-(rtu_adu_length u), Heq, blen_app.
  assert (0 < blen q) by (destruct q; [done|]; rewrite blen_cons; pose proof (blen_nonneg q); lia).
  destruct (rtu_adu_split p Hbp) as (u' & pdu' & a & b & -> & _); [lia|].
  rewrite blen_app, blen_cons in Hlen, Hp4. change (blen [a; b]) with 2 in *.
  exists u', pdu', a, b. split; [apply rtu_decode_cells; lia|]. split; [intros -> ->; lia|by apply verify_crc_app].
Qed.

(** ** A stream that keeps the laws

    It delivers pieces and silences longer than any limit; every write takes a millisecond, and may be slow enough to
    time out. *)
Module Port.
Record t : Type := mk {
  time : Z; rbuf : bytes; arrivals : list (option Read.t); broken : bool; wbuf : bytes; slow : list bool; out : list Burst.t
}.
Section Codec.
Context (decode : ST bytes FrameError.t (option Frame.t)) (encode : Frame.t → ST bytes FrameError.t unit).
(** The item, the buffer and the arrivals left, with and without a limit on the time *)
Fixpoint item (timed : bool) (buf : bytes) (arrivals : list (option Read.t))
    : Timed.t (option (res FrameError.t Frame.t)) * bytes * list (option Read.t) :=
  match decode buf with
  | (Ok (Some f), buf) => (Timed.Completed (Some (Ok f)), buf, arrivals)
  | (Ok None, buf1) =>
      match arrivals with
      | [] => (Timed.Completed (if decide (buf1 = []) then None else Some (Err FrameError.Io)), buf1, [])
      | Some (Read.Bytes piece) :: arrivals => item timed (buf1 ++ piece) arrivals
      | Some Read.Failure :: arrivals => (Timed.Completed (Some (Err FrameError.Io)), buf1, arrivals)
      | None :: arrivals => if timed then (Timed.Elapsed, buf1, arrivals) else item timed buf1 arrivals
      end
  | (r, buf) => (Timed.Completed (decoding_failure r), buf, arrivals)
  end.
Definition next (limit : option Z) (w : t) : Timed.t (option (res FrameError.t Frame.t)) * t :=
  let '(o, buf, arrivals) := item (is_some limit) (rbuf w) (arrivals w) in
  (o, mk (time w) buf arrivals (ends_stream o) (wbuf w) (slow w) (out w)).
Definition send (limit : option Z) (f : Frame.t) (w : t) : Timed.t (res FrameError.t unit) * t :=
  match encode f [] with
  | (Ok _, content) =>
      let content := wbuf w ++ content in
      if is_some limit && bool_decide (head (slow w) = Some true) then
        (Timed.Elapsed, mk (time w + 1000000) (rbuf w) (arrivals w) (broken w) content (tail (slow w)) (out w))
      else
        (Timed.Completed (Ok tt), mk (time w + 1000000) (rbuf w) (arrivals w) (broken w) [] (tail (slow w))
                                    (out w ++ [Burst.mk (time w) (time w + 1000000) content]))
  | (r, _) => (Timed.Completed r, w)
  end.
#[export] Instance framed : Framed t := {|
  instant_now := time;
  sleep d w := mk (time w + Z.max 0 d) (rbuf w) (arrivals w) (broken w) (wbuf w) (slow w) (out w);
  sink_send := send;
  stream_next := next;
  read_buffer := rbuf;
  write_buffer := wbuf;
  incoming w := omap id (arrivals w);
  written := out;
  failed := broken;
|}.

(** Silence makes no difference to the decoder. *)
Definition quiet : Prop := ∀ buf buf', decode buf = (Ok None, buf') → buf' = buf.
Lemma item_next timed buf arrivals : quiet →
  let '(o, buf', arrivals') := item timed buf arrivals in
  Next decode buf (omap id arrivals) o buf' (omap id arrivals') ∧ (timed = false → Timed.is_elapsed o = false).
Proof.
  intros Hq. revert buf. induction arrivals as [|[[piece|]|] arrivals IH]; intros buf; cbn [item].
  all: destruct (decode buf) as [[[f|]|e| |] buf1] eqn:Hd; try (split; [by econstructor|done]).
  - split; [|done]. case_decide; subst; by econstructor.
  - cbn [omap list_omap id]. specialize (IH (buf1 ++ piece)). destruct (item timed _ _) as [[o buf'] arrivals']. destruct IH. split; [by econstructor|done].
  - cbn [omap list_omap id]. destruct timed; [split; [by econstructor|done]|]. rewrite (Hq _ _ Hd). specialize (IH buf).
    by destruct (item false _ _) as [[o buf'] arrivals'].
Qed.
Lemma laws : quiet → FramedLaws t decode encode.
Proof.
  intros Hq. split; cbn.
  - intros. lia.
  - done.
  - intros f w. unfold send. by destruct (encode f []) as [[[]| | |] c].
  - intros limit f w. unfold send. destruct (encode f []) as [[[]| | |] c]; try done. case_match; cbn; lia.
  - intros limit f w. unfold send. destruct (encode f []) as [[[]| | |] c]; try done. by case_match.
  - intros limit f w Hb. unfold send, sent. destruct (encode f []) as [[[]| | |] c]; try done. cbn in Hb. rewrite Hb.
    destruct (_ && _); [exact I|]. split; [done|]. exists (time w), (time w + 1000000). split_and!; try done; lia.
  - intros w. unfold next. pose proof (item_next false (rbuf w) (arrivals w) Hq). destruct (item _ _ _) as [[o b] a]. naive_solver.
  - intros limit w. unfold next. by destruct (item _ _ _) as [[o b] a].
  - intros limit w _. unfold next. pose proof (item_next (is_some limit) (rbuf w) (arrivals w) Hq) as Hn. destruct (item _ _ _) as [[o b] a]. by destruct Hn.
Qed.
End Codec.
Definition fresh (arrivals : list (option Read.t)) (slow : list bool) : t := mk 0 [] arrivals false [] slow [].
End Port.

(** The codecs leave the buffer alone while they wait. *)
Lemma mbap_quiet : Port.quiet MbapCodec.decode.
Proof.
  intros buf buf'. unfold MbapCodec.decode, st_bind, st_get, st_lift, st_ret, st_err.
  repeat (case_match; simplify_eq/=; try done); by intros [= ->].
Qed.
Lemma rtu_quiet : Port.quiet RtuCodec.decode.
Proof.
  intros buf buf'. unfold RtuCodec.decode, st_bind, st_get, st_lift, st_ret, st_err.
  repeat (case_match; simplify_eq/=; try done); by intros [= ->].
Qed.
Lemma strict_quiet : Port.quiet (decode_strict RtuOverTcpDirection.Response).
Proof.
  intros buf buf'. unfold decode_strict, st_bind, st_get, st_lift, st_ret, st_err.
  repeat (case_match; simplify_eq/=; try done); by intros [= ->].
Qed.

(** * Theorems *)

(** C24. What one side of a transport sends the other side receives: over TCP and TLS, and over TCP with RTU frames and the strict
    policy for the responses it is meant for, the calls of [recv] give, apart from timeouts, exactly the frames that
    were sent, in their order, and then the end of the stream; however the bytes are cut into pieces and whenever a
    call times out, nothing is lost, doubled or reordered. *)
Theorem transports_carry {W W' V V'} `{Framed W, Framed W', Framed V, Framed V'} :
  FramedLaws W MbapCodec.decode MbapEncoder.encode → FramedLaws W' MbapCodec.decode MbapEncoder.encode →
  FramedLaws V (ConfiguredRtuOverTcpCodec.decode (RtuOverTcpCodec.with_policy RtuOverTcpFramingPolicy.FunctionAwareStrict RtuOverTcpDirection.Response)) encode_frame →
  FramedLaws V' (ConfiguredRtuOverTcpCodec.decode (RtuOverTcpCodec.with_policy RtuOverTcpFramingPolicy.FunctionAwareStrict RtuOverTcpDirection.Response)) encode_frame →
  (∀ sink stream, carries (W:=W) (W':=W') (TcpSink.send sink) (TcpRecvStream.recv stream) (TcpRecvStream.read_timeout stream) mbap_typed) ∧
  (∀ sink stream, carries (W:=W) (W':=W') (TlsSink.send sink) (TlsRecvStream.recv stream) (TlsRecvStream.read_timeout stream) mbap_typed) ∧
  (∀ sink stream, carries (W:=V) (W':=V') (RtuTcpSink.send sink) (RtuTcpRecvStream.recv stream) (RtuTcpRecvStream.read_timeout stream)
    (RtuTcp.strict_ok RtuOverTcpDirection.Response)).
Proof.
  intros HW HW' HV HV'. split_and!; intros sink stream.
  - eapply timed_carries; [exact HW|exact HW'|apply mbap_stream|]. intros. by apply mbap_encode_ok.
  - eapply timed_carries; [exact HW|exact HW'|apply mbap_stream|]. intros. by apply mbap_encode_ok.
  - eapply timed_carries; [exact HV|exact HV'|apply strict_stream|]. intros f content Hf He. split; [done|].
    apply (rtu_encode_ok f) in He. subst content. destruct f as [[h|u] pdu]; [by destruct Hf|done].
Qed.
Lemma transports_carry_witness :
  let fs := [mbap_frame (MbapHeader.mk 1 0 6 255) [3; 0; 0; 0; 2]; mbap_frame (MbapHeader.mk 2 0 2 1) [7]] in
  delivers (W:=Port.t) (TcpRecvStream.recv (H:=Port.framed MbapCodec.decode MbapEncoder.encode) (TcpRecvStream.mk 5 (Some 30))) (Some 30)
    (Port.fresh [Some (Read.Bytes [0; 1; 0; 0]); None; Some (Read.Bytes [0; 6; 255; 3; 0; 0; 0; 2; 0; 2; 0]); None; Some (Read.Bytes [0; 0; 2; 1; 7])] []) fs.
Proof.
  cbv zeta. set (mbap := Port.framed MbapCodec.decode MbapEncoder.encode).
  set (rtu := Port.framed (decode_strict RtuOverTcpDirection.Response) encode_frame).
  destruct (transports_carry (H:=mbap) (H0:=mbap) (H1:=rtu) (H2:=rtu)) as [Htcp _].
  - apply Port.laws, mbap_quiet.
  - apply Port.laws, mbap_quiet.
  - apply Port.laws, strict_quiet.
  - apply Port.laws, strict_quiet.
  - refine (Htcp (TcpSink.mk 4 None) (TcpRecvStream.mk 5 (Some 30))
      [mbap_frame (MbapHeader.mk 1 0 6 255) [3; 0; 0; 0; 2]; mbap_frame (MbapHeader.mk 2 0 2 1) [7]] (Port.fresh [] [])
      (Port.mk 2000000 [] [] false [] [] [Burst.mk 0 1000000 [0; 1; 0; 0; 0; 6; 255; 3; 0; 0; 0; 2]; Burst.mk 1000000 2000000 [0; 2; 0; 0; 0; 2; 1; 7]]) _
      [[0; 1; 0; 0]; [0; 6; 255; 3; 0; 0; 0; 2; 0; 2; 0]; [0; 0; 2; 1; 7]] _ _ _ _ _ _ _ _); try reflexivity.
    apply Forall_forall. intros f [-> | [-> | []%elem_of_nil]%elem_of_cons]%elem_of_cons h [= <-]; repeat split; vm_compute; discriminate.
Defined.

(** C25. The sending half of a serial port opened with a strict configuration, whatever is sent with it: a unit ID above 247 is refused
    before anything else happens; as long as the sends succeed, what is written is exactly the RTU frames in their order, and
    each write begins at least t3.5 after the end of the one before. *)
Theorem serial_send_exact {W} `{Framed W} `{!FramedLaws W RtuCodec.decode RtuCodec.encode} open path config sink stream (w : W) :
  0 < StrictRtuConfig.baud_rate config → SerialTransport.open_strict open path config = Ok (sink, stream) →
  write_buffer w = [] → written w = [] →
  let delay := ResolvedRtuConfig.t3_5 (ResolvedRtuConfig.from config) in
  ∀ fs s' w', send_all SerialSink.send fs (sink, w) = (Ok tt, (s', w')) →
    map Burst.content (written w') = map serial_adu fs ∧ spaced delay (written w') ∧ write_buffer w' = [] ∧
    ∀ f, 247 < Frame.unit_id f →
      SerialSink.send f (s', w') =
        (Err (SerialError.UnitId ErrorKind.InvalidInput (RtuUnitIdRole.mk_error (Frame.unit_id f) RtuUnitIdRole.ClientDestination)), (s', w')).
Proof.
  intros Hbaud Ho Hb Hw. cbv zeta. unfold SerialTransport.open_strict in Ho.
  destruct (open path _) as [port|e| |]; try done. injection Ho as <- <-. intros fs s' w' Hs.
  apply (serial_send_all (decode:=RtuCodec.decode) (encode:=RtuCodec.encode)) in Hs as ([Hb' _] & Hsp & Hc & bursts & Hw' & Hall);
    [|by apply t3_5_nonneg|split; [done|intros b; by rewrite Hw]|by rewrite Hw].
  split_and!; [|done|done|].
  - rewrite Hw', Hw. eapply (encoded_contents _ serial_adu (λ _, True)); [|by apply Forall_true|exact Hall].
    intros f content _. apply rtu_encode_ok.
  - intros f Hf. unfold SerialSink.send. rewrite Hc. cbn [is_some SerialSink.resolved_config].
    unfold validate_strict_frame_unit_id. cbn [RtuUnitIdRole.validate]. by replace (_ <=? 247) with false by lia.
Qed.

Lemma serial_send_exact_witness :
  let port := Port.framed RtuCodec.decode RtuCodec.encode in
  let sink := SerialSink.mk 3 (Some 1000000000) 2005209 None (Some (ResolvedRtuConfig.from StrictRtuConfig.default)) in
  let w' := (send_all (SerialSink.send (H:=port)) [rtu_frame 1 [4; 2; 255; 255]; rtu_frame 2 [7]] (sink, Port.fresh [] [])).2.2 in
  map Burst.content (Port.out w') = [[1; 4; 2; 255; 255; 184; 128]; [2; 7; 65; 18]] ∧ spaced 2005209 (Port.out w').
Proof.
  cbv zeta. set (port := Port.framed RtuCodec.decode RtuCodec.encode).
  pose proof (serial_send_exact (H:=port) (FramedLaws0:=Port.laws _ _ rtu_quiet) (λ _ _, Ok 3) "tty" StrictRtuConfig.default
    (SerialSink.mk 3 (Some 1000000000) 2005209 None (Some (ResolvedRtuConfig.from StrictRtuConfig.default)))
    (SerialRecvStream.mk 3 (Some 1000000000) (Some (ResolvedRtuConfig.from StrictRtuConfig.default)))
    (Port.fresh [] []) ltac:(vm_compute; reflexivity) ltac:(vm_compute; reflexivity) eq_refl eq_refl
    [rtu_frame 1 [4; 2; 255; 255]; rtu_frame 2 [7]] _ _ ltac:(vm_compute; reflexivity)) as (Hc & Hs & _).
  split; [exact Hc|exact Hs].
Defined.

(** C26. What the receiving half of a serial port with a strict configuration makes of one frame, unless the call times
    out. Read in one piece, the frame is returned, or refused when
    its unit ID is not one a device has. Read in two pieces of which the first has at least four bytes, it is never
    returned: unless that piece happens to end in its own checksum, it is a checksum error, which ends the stream. *)
Theorem serial_receive_exact {W} `{Framed W} `{!FramedLaws W RtuCodec.decode RtuCodec.encode} config port (w : W) u pdu reads :
  rtu_adu_ok u pdu → failed w = false → read_buffer w = [] →
  let stream := (split_serial_stream port (ResolvedRtuConfig.response_timeout config) (ResolvedRtuConfig.t3_5 config) (Some config)).2 in
  let timed_out := Err (SerialError.Transport TransportError.Timeout) in
  (incoming w = Read.Bytes (rtu_adu u pdu) :: reads →
   let '(r, w') := SerialRecvStream.recv stream w in
   (r = timed_out ∧ incoming w' = incoming w ∧ read_buffer w' = []) ∨
   (incoming w' = reads ∧ read_buffer w' = [] ∧
    r = if (1 <=? u) && (u <=? 247) then Ok (rtu_frame u pdu)
        else Err (SerialError.UnitId ErrorKind.InvalidData (RtuUnitIdRole.mk_error u RtuUnitIdRole.ResponderSource)))) ∧
  (∀ p q, rtu_adu u pdu = p ++ q → q ≠ [] → 4 ≤ blen p → incoming w = Read.Bytes p :: reads →
   let '(r, w') := SerialRecvStream.recv stream w in
   r ≠ Ok (rtu_frame u pdu) ∧
   (verify_crc p = Ok false → r = timed_out ∨ (failed w' = true ∧ ∃ expected actual, r = Err (SerialError.Transport (TransportError.Frame (FrameError.CrcMismatch expected actual)))))).
Proof.
  intros (Hu & Hp & Hl) Hf Hb. cbv zeta. cbn [split_serial_stream snd]. unfold SerialRecvStream.recv, timed_recv.
  cbn [SerialRecvStream.read_timeout SerialRecvStream.resolved_config is_some]. split.
  - intros Hi. pose proof (serial_next (Some (ResolvedRtuConfig.response_timeout config)) w _ _ Hf Hb Hi) as Hn.
    destruct (stream_next _ w) as [o w']. destruct Hn as [(-> & _ & ? & ?)|Hn]; [by cbn; left|].
    eapply next_decided in Hn as (Hb' & Hi' & ->); [|by apply rtu_decode_adu|done].
    cbn. right. split_and!; try done. unfold validate_strict_frame_unit_id. cbn. by destruct (_ && _).
  - intros p q Heq Hq Hp4 Hi. pose proof (serial_next (Some (ResolvedRtuConfig.response_timeout config)) w _ _ Hf Hb Hi) as Hn.
    pose proof (proj2 (next_item (decode:=RtuCodec.decode) (encode:=RtuCodec.encode) (Some (ResolvedRtuConfig.response_timeout config)) w Hf)) as Hend.
    destruct (stream_next _ w) as [o w']. cbn [fst snd] in Hend. destruct Hn as [(-> & _ & ? & ?)|Hn]; [cbn; split; [done|by left]|].
    destruct (rtu_decode_prefix u pdu p q) as (u' & pdu' & a & b & Hd & Hne & Hv); [done..|].
    rewrite Hv. destruct (crc16 (u' :: pdu') =? from_le_bytes a b); (eapply next_decided in Hn as (Hb' & Hi' & Ho); [|exact Hd|done]); subst o; cbn.
    + split; [|done]. unfold validate_strict_frame_unit_id. cbn. destruct (_ && _); cbn; [|done]. intros [= ? ?]. by apply Hne.
    + split; [done|]. intros _. right. split; [exact Hend|]. by eexists _, _.
Qed.
Lemma serial_receive_exact_witness :
  let port := Port.framed RtuCodec.decode RtuCodec.encode in
  let stream := SerialRecvStream.mk 3 (Some 1000000000) (Some (ResolvedRtuConfig.from StrictRtuConfig.default)) in
  let '(r, w') := SerialRecvStream.recv (H:=port) stream
                    (Port.fresh [Some (Read.Bytes [1; 4; 2; 255; 255]); Some (Read.Bytes [184; 128])] []) in
  r ≠ Ok (rtu_frame 1 [4; 2; 255; 255]).
Proof.
  cbv zeta. set (port := Port.framed RtuCodec.decode RtuCodec.encode).
  refine (proj1 (proj2 (serial_receive_exact (H:=port) (FramedLaws0:=Port.laws _ _ rtu_quiet) (ResolvedRtuConfig.from StrictRtuConfig.default) 3
    (Port.fresh [Some (Read.Bytes [1; 4; 2; 255; 255]); Some (Read.Bytes [184; 128])] []) 1 [4; 2; 255; 255]
    [Read.Bytes [184; 128]] _ eq_refl eq_refl) [1; 4; 2; 255; 255] [184; 128] _ _ _ eq_refl)).
  - split_and!; [lia|lia|repeat constructor; lia|vm_compute; discriminate|vm_compute; discriminate].
  - vm_compute. reflexivity.
  - discriminate.
  - vm_compute. discriminate.
Defined.

(** The inspection of an idle connection gives the halves back as they were, and reports no adverse signal exactly when they belong
    together, the decoder has nothing buffered and the socket has nothing to say. *)
Theorem inspect_idle_exact {W} `{Framed W} peek sink stream (w : W) :
  let '(sink', stream', observation) := inspect_idle_tcp peek sink stream w in
  sink' = sink ∧ stream' = stream ∧
  (observation = TcpIdleObservation.MismatchedHalves ↔ TcpSink.inner sink ≠ TcpRecvStream.inner stream) ∧
  (observation = TcpIdleObservation.NoAdverseSignal ↔
    TcpSink.inner sink = TcpRecvStream.inner stream ∧ read_buffer w = [] ∧ peek w = None).
Proof.
  destruct sink as [i wt], stream as [j rt]. unfold inspect_idle_tcp, observe_idle_framed. cbn [TcpSink.inner TcpRecvStream.inner].
  destruct (Z.eqb_spec i j) as [<-|Hne]; [|split_and!; try done; naive_solver].
  assert (blen (read_buffer w) = 0 ↔ read_buffer w = []) as Hb by (unfold blen; destruct (read_buffer w); simpl; split; intros; done || lia).
  destruct (Z.eqb_spec (blen (read_buffer w)) 0); cbn [negb]; [|split_and!; try done; naive_solver].
  unfold classify_peek. destruct (peek w) as [[n|k]|]; [destruct (n =? 0)|..]; split_and!; try done; naive_solver.
Qed.

(** What connecting returns: the halves of one socket with the timeouts of the configuration, on which both options were set,
    a timeout when the time was over, and otherwise an I/O error; over RTU the same calls are made, less the interval
    of the probes. *)
Theorem connect_exact {W Addr} `{Sockets W Addr} config addr (w : W) :
  match TcpTransport.connect config addr w with
  | (Ok (sink, stream), w') => ∃ socket w1 w2,
      sink = TcpSink.mk socket (TcpConfig.write_timeout config) ∧ stream = TcpRecvStream.mk socket (TcpConfig.read_timeout config) ∧
      tcp_connect (TcpConfig.connect_timeout config) addr w = (Timed.Completed (Ok socket), w1) ∧
      set_nodelay socket (TcpConfig.tcp_nodelay config) w1 = (Ok tt, w2) ∧
      match TcpConfig.keepalive config with
      | Some time => set_tcp_keepalive socket time (Some 10000000000) w2 = (Ok tt, w')
      | None => w' = w2
      end
  | (Err TransportError.Timeout, w') => tcp_connect (TcpConfig.connect_timeout config) addr w = (Timed.Elapsed, w')
  | (Err e, _) => e = TransportError.Io
  | _ => True
  end ∧
  (TcpConfig.keepalive config = None →
   let '(r, w') := RtuOverTcpTransport.connect addr config w in
   TcpTransport.connect config addr w =
     (map_err RtuError.into (rmap (λ '(RtuTcpSink.mk i wt, RtuTcpRecvStream.mk j rt, _), (TcpSink.mk i wt, TcpRecvStream.mk j rt)) r), w')).
Proof.
  unfold TcpTransport.connect, RtuOverTcpTransport.connect, connect_with_framing_policy, configure_socket, rtu_configure_socket, connect_within, st_bind, st_map_err, st_ret.
  destruct (tcp_connect _ addr w) as [[[socket|[]| |]|] w1] eqn:Hc; cbn; try done.
  destruct (set_nodelay socket _ w1) as [[[]|[]| |] w2] eqn:Hn; cbn; try done.
  destruct (TcpConfig.keepalive config) as [time|] eqn:Hk; [|split; [by exists socket, w1, w2|done]].
  unfold KEEPALIVE_PROBE_INTERVAL. destruct (set_tcp_keepalive socket time _ w2) as [[[]|[]| |] w3] eqn:Ha; cbn; split; try done. by exists socket, w1, w2.
Qed.
