(* ===== verification/Tls.v ===== *)
(** * The TLS transport (crates/rusty-modbus-tls: src/config.rs, tls_config.rs, role.rs, connect.rs, acceptor.rs, listener.rs, error.rs)

    How certificates become the configuration of a TLS stack, how a connection is made and accepted with it, and how the
    role of a client is found in its certificate. Parsing files and certificates and the handshake are up to rustls and
    x509-parser: they are the parameters of the sections and the class [TlsStack]. The halves of a connection are those of
    [Transports]. A message of an error is a constructor with the values it reports. *)
From stdpp Require Import strings.
From S2P Require Import Prelude Text Types CodecError Stream Mbap Deadlines Session Transaction DeviceId Pool ServerTasks Discover Listener Serve Transports.
#[local] Open Scope Z_scope.

(** ** Configuration *)
Module TlsClientConfig.
Record t : Type := mk {
  ca_cert : string; client_cert : string; client_key : string; server_name : option string;
  connect_timeout : Z; read_timeout : option Z; write_timeout : option Z
}.
Definition default : t := mk "" "" "" None 5000000000 (Some 30000000000) (Some 30000000000).
End TlsClientConfig.
Module AuthzRequest.
Record t : Type := mk { role : option string; function_code : FunctionCode.t; unit_id : Z; address : option Z; quantity : option Z }.
End AuthzRequest.
Module AuthzDecision.
Inductive t : Type := Authorized | NotAuthorized.
End AuthzDecision.
Module TlsServerConfig.
Record t : Type := mk {
  server_cert : string; server_key : string; ca_cert : string; require_client_cert : bool;
  authz_callback : option (AuthzRequest.t → AuthzDecision.t); max_connections : Z
}.
Definition default : t := mk "" "" "" true None 64.
Definition authorize (self : t) (request : AuthzRequest.t) : AuthzDecision.t :=
  match authz_callback self with Some callback => callback request | None => AuthzDecision.Authorized end.
End TlsServerConfig.

(** ** Errors *)
Module CertificateError.
Inductive t : Type :=
  | CannotOpenCert (path : string) | CannotParseCert (path : string) | NoCertificates (path : string)
  | CannotOpenKey (path : string) | CannotParseKey (path : string) | NoPrivateKey (path : string)
  | CaCert | ClientCaCert | ClientAuth | ClientVerifier | ServerCert | InvalidServerName (name : string).
End CertificateError.
Module TlsError.
Inductive t : Type :=
  | Handshake (message : string) | Certificate (e : CertificateError.t) | AuthorizationDenied (message : string) | Io
  | Frame (e : FrameError.t) | Rustls (message : string) | Timeout | Disconnected.
(** [From<TlsError> for TransportError]; [message] displays a certificate error *)
Definition into (message : CertificateError.t → string) (self : t) : TransportError.t :=
  match self with
  | Io => TransportError.Io
  | Frame f => TransportError.Frame f
  | Timeout => TransportError.Timeout
  | Disconnected => TransportError.Disconnected
  | Rustls e => TransportError.TlsHandshake e
  | Handshake msg | AuthorizationDenied msg => TransportError.TlsHandshake msg
  | Certificate e => TransportError.TlsHandshake (message e)
  end.
End TlsError.

(** ** Building the configurations of rustls *)
Definition MODBUS_TLS_MAX_FRAGMENT_SIZE : Z := 512.
Module ProtocolVersion.
Inductive t : Type := TLS12 | TLS13.
End ProtocolVersion.
(** What the builders are given. *)
Module RustlsClientConfig.
Record t {Cert Key : Type} : Type := mk {
  versions : list ProtocolVersion.t; roots : list Cert; chain : list Cert; key : Key; max_fragment_size : option Z
}.
Arguments t : clear implicits.
Arguments mk {Cert Key}.
End RustlsClientConfig.
Module RustlsServerConfig.
Record t {Cert Key : Type} : Type := mk {
  versions : list ProtocolVersion.t; client_roots : list Cert; unauthenticated : bool; chain : list Cert; key : Key; max_fragment_size : option Z
}.
Arguments t : clear implicits.
Arguments mk {Cert Key}.
End RustlsServerConfig.

Section Build.
Context {Cert Key : Type}.
(** Files and PEM sections *)
Context (open_file : string → option bytes) (pem_certs : bytes → option (list Cert)) (pem_private_key : bytes → option (option Key)).
(** What rustls accepts: a trust anchor, the anchors of a verifier, a certificate chain with its key *)
Context (anchor_ok : Cert → bool) (verifier_ok : list Cert → bool) (chain_ok : list Cert → Key → bool).

Definition load_certs (path : string) : res TlsError.t (list Cert) :=
  let? file := ok_or (open_file path) (TlsError.Certificate (CertificateError.CannotOpenCert path)) in
  let? certs := ok_or (pem_certs file) (TlsError.Certificate (CertificateError.CannotParseCert path)) in
  match certs with [] => Err (TlsError.Certificate (CertificateError.NoCertificates path)) | _ => Ok certs end.
Definition load_private_key (path : string) : res TlsError.t Key :=
  let? file := ok_or (open_file path) (TlsError.Certificate (CertificateError.CannotOpenKey path)) in
  let? key := ok_or (pem_private_key file) (TlsError.Certificate (CertificateError.CannotParseKey path)) in
  ok_or key (TlsError.Certificate (CertificateError.NoPrivateKey path)).
(** [for cert in &ca_certs { root_store.add(cert.clone())? }] *)
Fixpoint add_roots (error : CertificateError.t) (root_store certs : list Cert) : res TlsError.t (list Cert) :=
  match certs with
  | [] => Ok root_store
  | cert :: certs => if anchor_ok cert then add_roots error (root_store ++ [cert]) certs else Err (TlsError.Certificate error)
  end.
Definition build_client_config (config : TlsClientConfig.t) : res TlsError.t (RustlsClientConfig.t Cert Key) :=
  let? ca_certs := load_certs (TlsClientConfig.ca_cert config) in
  let? client_certs := load_certs (TlsClientConfig.client_cert config) in
  let? client_key := load_private_key (TlsClientConfig.client_key config) in
  let? root_store := add_roots CertificateError.CaCert [] ca_certs in
  if negb (chain_ok client_certs client_key) then Err (TlsError.Certificate CertificateError.ClientAuth) else
  Ok (RustlsClientConfig.mk [ProtocolVersion.TLS13] root_store client_certs client_key (Some MODBUS_TLS_MAX_FRAGMENT_SIZE)).
Definition build_server_config (config : TlsServerConfig.t) : res TlsError.t (RustlsServerConfig.t Cert Key) :=
  let? server_certs := load_certs (TlsServerConfig.server_cert config) in
  let? server_key := load_private_key (TlsServerConfig.server_key config) in
  let? ca_certs := load_certs (TlsServerConfig.ca_cert config) in
  let? client_root_store := add_roots CertificateError.ClientCaCert [] ca_certs in
  if negb (verifier_ok client_root_store) then Err (TlsError.Certificate CertificateError.ClientVerifier) else
  let unauthenticated := negb (TlsServerConfig.require_client_cert config) in
  if negb (chain_ok server_certs server_key) then Err (TlsError.Certificate CertificateError.ServerCert) else
  Ok (RustlsServerConfig.mk [ProtocolVersion.TLS13] client_root_store unauthenticated server_certs server_key (Some MODBUS_TLS_MAX_FRAGMENT_SIZE)).
End Build.

(** ** Roles *)
Definition MODBUS_ROLE_OID_STR : string := "1.3.6.1.4.1.50316.802.1".
Module Extension.
Record t : Type := mk { oid : string; value : bytes }.
End Extension.
Section Role.
(** The extensions of a DER certificate, and the DER UTF8String at the front of some bytes with the bytes after it *)
Context (x509_extensions : bytes → option (list Extension.t)) (utf8_string : bytes → option (bytes * string)).
Definition parse_role_value (value : bytes) : option string :=
  match utf8_string value with
  | None => None
  | Some (rest, s) =>
      if negb (blen rest =? 0) then None else
      if decide (s = ""%string) then None else Some s
  end.
Fixpoint find_role (extensions : list Extension.t) : option string :=
  match extensions with
  | [] => None
  | ext :: extensions =>
      if decide (Extension.oid ext = MODBUS_ROLE_OID_STR) then parse_role_value (Extension.value ext) else find_role extensions
  end.
Definition extract_role (cert_der : bytes) : option string :=
  match x509_extensions cert_der with None => None | Some extensions => find_role extensions end.
End Role.

(** ** Connecting and accepting *)
Module ServerName.
Inductive t : Type := DnsName (name : string) | IpAddress (ip : IpAddr.t).
End ServerName.
(** The stack of the other side: certificates are DER bytes, a socket is a number, and an I/O error is [tt]. A handshake fails
    with a message; on the server it yields the certificates of the client, if it sent any. *)
Class TlsStack (W Key : Type) : Type := {
  client_handshake : RustlsClientConfig.t bytes Key → ServerName.t → Z → ST W string unit;
  server_handshake : RustlsServerConfig.t bytes Key → Z → ST W string (option (list bytes));
  tcp_bind : SocketAddr.t → ST W unit Z;
  tcp_accept : Z → ST W unit (Z * SocketAddr.t);
  (** [TcpListener::local_addr], and whether a [debug!] record is written, so that its fields are evaluated *)
  local_addr : W → Z → res unit SocketAddr.t;
  debug_enabled : W → bool;
}.
(** The parsers of the libraries *)
Module Parsers.
Record t {Key : Type} : Type := mk {
  open_file : string → option bytes; pem_certs : bytes → option (list bytes); pem_private_key : bytes → option (option Key);
  anchor_ok : bytes → bool; verifier_ok : list bytes → bool; chain_ok : list bytes → Key → bool;
  x509_extensions : bytes → option (list Extension.t); utf8_string : bytes → option (bytes * string);
  server_name_try_from : string → option ServerName.t;
}.
Arguments t : clear implicits.
Definition client_config {Key} (p : t Key) : TlsClientConfig.t → res TlsError.t (RustlsClientConfig.t bytes Key) :=
  build_client_config (open_file p) (pem_certs p) (pem_private_key p) (anchor_ok p) (chain_ok p).
Definition server_config {Key} (p : t Key) : TlsServerConfig.t → res TlsError.t (RustlsServerConfig.t bytes Key) :=
  build_server_config (open_file p) (pem_certs p) (pem_private_key p) (anchor_ok p) (verifier_ok p) (chain_ok p).
Definition role {Key} (p : t Key) : bytes → option string := extract_role (x509_extensions p) (utf8_string p).
End Parsers.

Section Halves.
Context {W Key : Type} `{Sockets W SocketAddr.t, TlsStack W Key} (p : Parsers.t Key).

Definition connect (addr : SocketAddr.t) (config : TlsClientConfig.t) : ST W TlsError.t (TlsSink.t * TlsRecvStream.t) :=
  rustls_config <- st_lift (Parsers.client_config p config);;
  tcp_stream <- connect_within TlsError.Timeout TlsError.Io (TlsClientConfig.connect_timeout config) addr;;
  st_map_err (λ _, TlsError.Io) (set_nodelay tcp_stream true);;;
  server_name <- st_lift (match TlsClientConfig.server_name config with
                          | Some name => ok_or (Parsers.server_name_try_from p name) (TlsError.Certificate (CertificateError.InvalidServerName name))
                          | None => Ok (ServerName.IpAddress (SocketAddr.ip addr))
                          end);;
  st_map_err TlsError.Handshake (client_handshake rustls_config server_name tcp_stream);;;
  st_ret (TlsSink.mk tcp_stream (TlsClientConfig.write_timeout config), TlsRecvStream.mk tcp_stream (TlsClientConfig.read_timeout config)).

Definition server_halves (stream : Z) (read_timeout write_timeout : option Z) : TlsSink.t * TlsRecvStream.t :=
  (TlsSink.mk stream write_timeout, TlsRecvStream.mk stream read_timeout).
(** [TlsServerAcceptor] is the configuration it was built with. *)
Definition acceptor_new (config : TlsServerConfig.t) : res TlsError.t (RustlsServerConfig.t bytes Key) := Parsers.server_config p config.
Definition acceptor_accept (inner : RustlsServerConfig.t bytes Key) (socket : Z) (read_timeout write_timeout : option Z)
    : ST W TlsError.t (TlsSink.t * TlsRecvStream.t * option string) :=
  peer_certificates <- st_map_err TlsError.Handshake (server_handshake inner socket);;
  let role := match peer_certificates with Some (cert :: _) => Parsers.role p cert | _ => None end in
  let '(sink, stream) := server_halves socket read_timeout write_timeout in
  st_ret (sink, stream, role).

Definition listener_bind (addr : SocketAddr.t) (config : TlsServerConfig.t) : ST W TlsError.t (Z * RustlsServerConfig.t bytes Key) :=
  tls_acceptor <- st_lift (acceptor_new config);;
  tcp_listener <- st_map_err (λ _, TlsError.Io) (tcp_bind addr);;
  w <- st_get;;
  (if debug_enabled w then st_map_err (λ _, TlsError.Io) (st_lift (local_addr w tcp_listener));;; st_ret tt else st_ret tt);;;
  st_ret (tcp_listener, tls_acceptor).
Definition listener_accept (self : Z * RustlsServerConfig.t bytes Key) : ST W TlsError.t (TlsSink.t * TlsRecvStream.t * SocketAddr.t * option string) :=
  let '(tcp_listener, tls_acceptor) := self in
  accepted <- st_map_err (λ _, TlsError.Io) (tcp_accept tcp_listener);;
  let '(tcp_stream, addr) := accepted in
  st_map_err (λ _, TlsError.Io) (set_nodelay tcp_stream true);;;
  halves <- acceptor_accept tls_acceptor tcp_stream None None;;
  let '(sink, stream, role) := halves in
  st_ret (sink, stream, addr, role).
End Halves.

(** * Specification *)
Section Spec.
Context {Key : Type} (p : Parsers.t Key).
(** The certificates of a file, of which there is at least one, and its key *)
Definition certs_at (path : string) (certs : list bytes) : Prop :=
  certs ≠ [] ∧ ∃ file, Parsers.open_file p path = Some file ∧ Parsers.pem_certs p file = Some certs.
Definition key_at (path : string) (key : Key) : Prop :=
  ∃ file, Parsers.open_file p path = Some file ∧ Parsers.pem_private_key p file = Some (Some key).
(** TLS 1.3 only, the peer is checked against the certificates of the CA file and no others, and the chain of the
    configuration is shown with its key; fragments have at most 512 bytes. *)
Definition client_profile (config : TlsClientConfig.t) (conf : RustlsClientConfig.t bytes Key) : Prop :=
  ∃ ca chain key, certs_at (TlsClientConfig.ca_cert config) ca ∧ certs_at (TlsClientConfig.client_cert config) chain ∧
    key_at (TlsClientConfig.client_key config) key ∧ Forall (λ c, Parsers.anchor_ok p c = true) ca ∧ Parsers.chain_ok p chain key = true ∧
    conf = RustlsClientConfig.mk [ProtocolVersion.TLS13] ca chain key (Some 512).
Definition server_profile (config : TlsServerConfig.t) (conf : RustlsServerConfig.t bytes Key) : Prop :=
  ∃ ca chain key, certs_at (TlsServerConfig.ca_cert config) ca ∧ certs_at (TlsServerConfig.server_cert config) chain ∧
    key_at (TlsServerConfig.server_key config) key ∧ Forall (λ c, Parsers.anchor_ok p c = true) ca ∧ Parsers.verifier_ok p ca = true ∧
    Parsers.chain_ok p chain key = true ∧
    conf = RustlsServerConfig.mk [ProtocolVersion.TLS13] ca (negb (TlsServerConfig.require_client_cert config)) chain key (Some 512).
(** A certificate grants a role when the first extension with the Modbus identifier holds a UTF8String that is not empty, and
    nothing else. *)
Definition grants (cert : bytes) (role : string) : Prop :=
  ∃ before ext after, Parsers.x509_extensions p cert = Some (before ++ ext :: after) ∧
    Forall (λ e, Extension.oid e ≠ MODBUS_ROLE_OID_STR) before ∧ Extension.oid ext = MODBUS_ROLE_OID_STR ∧
    Parsers.utf8_string p (Extension.value ext) = Some ([], role) ∧ role ≠ ""%string.
End Spec.

(** * Lemmas *)
Lemma rbind_iff {E A B} (r : res E A) (k : A → res E B) b : rbind r k = Ok b ↔ ∃ a, r = Ok a ∧ k a = Ok b.
Proof. destruct r; cbn; naive_solver. Qed.
Lemma ok_or_iff {E A} (o : option A) (e : E) a : ok_or o e = Ok a ↔ o = Some a.
Proof. destruct o; cbn; naive_solver. Qed.
Lemma st_bind_iff {S E A B} (m : ST S E A) (k : A → ST S E B) s b s' :
  st_bind m k s = (Ok b, s') ↔ ∃ a s1, m s = (Ok a, s1) ∧ k a s1 = (Ok b, s').
Proof. unfold st_bind. destruct (m s) as [[] s1]; naive_solver. Qed.
Lemma st_map_err_iff {S E E' A} (f : E → E') (m : ST S E A) s a s' : st_map_err f m s = (Ok a, s') ↔ m s = (Ok a, s').
Proof. unfold st_map_err. destruct (m s) as [[] s1]; cbn; naive_solver. Qed.
Lemma st_lift_iff {S E A} (r : res E A) (s s' : S) a : st_lift r s = (Ok a, s') ↔ r = Ok a ∧ s' = s.
Proof. unfold st_lift. naive_solver. Qed.
Lemma st_ret_iff {S E A} (a b : A) (s s' : S) : st_ret (E:=E) a s = (Ok b, s') ↔ b = a ∧ s' = s.
Proof. unfold st_ret. naive_solver. Qed.

Section Lemmas.
Context {Key : Type} (p : Parsers.t Key).
Lemma load_certs_iff path certs : load_certs (Parsers.open_file p) (Parsers.pem_certs p) path = Ok certs ↔ certs_at p path certs.
Proof.
  unfold load_certs, certs_at. rewrite rbind_iff. setoid_rewrite rbind_iff. setoid_rewrite ok_or_iff. split.
  - intros (file & Hf & cs & Hc & Hm). destruct cs; [done|]. injection Hm as <-. eauto.
  - intros [Hne (file & Hf & Hc)]. exists file. split; [done|]. exists certs. split; [done|]. by destruct certs.
Qed.
Lemma load_private_key_iff path key : load_private_key (Parsers.open_file p) (Parsers.pem_private_key p) path = Ok key ↔ key_at p path key.
Proof.
  unfold load_private_key, key_at. rewrite rbind_iff. setoid_rewrite rbind_iff. setoid_rewrite ok_or_iff. naive_solver.
Qed.
Lemma add_roots_iff error store certs roots : add_roots (Parsers.anchor_ok p) error store certs = Ok roots ↔
  Forall (λ c, Parsers.anchor_ok p c = true) certs ∧ roots = store ++ certs.
Proof.
  revert store. induction certs as [|c certs IH]; intros store; cbn [add_roots].
  - rewrite app_nil_r. split; [intros [= <-]; by split|by intros [_ ->]].
  - rewrite Forall_cons. destruct (Parsers.anchor_ok p c) eqn:Ha; [|split; [done|by intros [[??] _]]].
    rewrite IH, <-app_assoc. naive_solver.
Qed.
Lemma client_config_iff config conf : Parsers.client_config p config = Ok conf ↔ client_profile p config conf.
Proof.
  unfold Parsers.client_config, build_client_config, client_profile. rewrite rbind_iff. split.
  - intros (ca & Hca & Hr). apply rbind_iff in Hr as (chain & Hch & Hr). apply rbind_iff in Hr as (key & Hk & Hr).
    apply rbind_iff in Hr as (roots & Hro & Hr). apply load_certs_iff in Hca, Hch. apply load_private_key_iff in Hk.
    apply add_roots_iff in Hro as [? ->]. destruct (Parsers.chain_ok p chain key) eqn:Hok; [|done]. injection Hr as <-.
    exists ca, chain, key. split_and!; done.
  - intros (ca & chain & key & Hca & Hch & Hk & Ha & Hok & ->). apply load_certs_iff in Hca, Hch. apply load_private_key_iff in Hk.
    exists ca. split; [done|]. rewrite Hch. cbn. rewrite Hk. cbn.
    rewrite (proj2 (add_roots_iff CertificateError.CaCert [] ca ca) (conj Ha eq_refl)). cbn. by rewrite Hok.
Qed.
Lemma server_config_iff config conf : Parsers.server_config p config = Ok conf ↔ server_profile p config conf.
Proof.
  unfold Parsers.server_config, build_server_config, server_profile. rewrite rbind_iff. split.
  - intros (chain & Hch & Hr). apply rbind_iff in Hr as (key & Hk & Hr). apply rbind_iff in Hr as (ca & Hca & Hr).
    apply rbind_iff in Hr as (roots & Hro & Hr). apply load_certs_iff in Hca, Hch. apply load_private_key_iff in Hk.
    apply add_roots_iff in Hro as [? ->]. cbn [app] in Hr. destruct (Parsers.verifier_ok p ca) eqn:Hv; [|done].
    destruct (Parsers.chain_ok p chain key) eqn:Hok; [|done]. injection Hr as <-. exists ca, chain, key. split_and!; done.
  - intros (ca & chain & key & Hca & Hch & Hk & Ha & Hv & Hok & ->). apply load_certs_iff in Hca, Hch. apply load_private_key_iff in Hk.
    exists chain. split; [done|]. rewrite Hk. cbn. rewrite Hca. cbn.
    rewrite (proj2 (add_roots_iff CertificateError.ClientCaCert [] ca ca) (conj Ha eq_refl)). cbn. by rewrite Hv, Hok.
Qed.
Lemma role_iff cert role : Parsers.role p cert = Some role ↔ grants p cert role.
Proof.
  unfold Parsers.role, extract_role, grants. destruct (Parsers.x509_extensions p cert) as [es|]; [|naive_solver].
  assert (∀ value, parse_role_value (Parsers.utf8_string p) value = Some role ↔ Parsers.utf8_string p value = Some ([], role) ∧ role ≠ ""%string) as Hv.
  { intros value. unfold parse_role_value. destruct (Parsers.utf8_string p value) as [[rest s]|]; [|naive_solver].
    destruct rest as [|b rest]; cbn [blen length].
    - cbn. case_decide; naive_solver.
    - replace (blen (b :: rest) =? 0) with false by (unfold blen; cbn [length]; lia). cbn. naive_solver. }
  induction es as [|e es IH]; cbn [find_role].
  - split; [done|]. intros (b & ext & a & He & _). by destruct b.
  - case_decide as Ho.
    + rewrite Hv. split; [intros [? ?]; by exists [], e, es|]. intros (b & ext & a & [= He] & Hb & Hx & ? & ?).
      destruct b as [|x b]; simplify_eq/=; [done|]. by apply Forall_cons in Hb as [? _].
    + rewrite IH. split; intros (b & ext & a & [= He] & Hb & Hx & ?).
      * exists (e :: b), ext, a. rewrite He. split_and!; try done; [by constructor|naive_solver..].
      * destruct b as [|x b]; simplify_eq/=. apply Forall_cons in Hb as [? ?]. by exists b, ext, a.
Qed.
End Lemmas.

(** * Theorems *)

(** C27. A TLS connection is made, and returned with the timeouts of its configuration, exactly when the files of the configuration hold
    what they should, the socket connects in time, and the handshake succeeds with TLS 1.3, the certificates of the CA file
    as the only anchors, the configured chain and key and the configured name of the server or else its address; with
    unusable files nothing is sent. A server listens exactly when its files hold what they should, the address can be bound
    and, when debug records are written, the address it got can be read; it accepts a connection exactly when the handshake with its own profile
    succeeds, where a client needs a certificate unless the configuration waives it, and the role it reports is the one
    that the first certificate of the client grants. *)
Theorem tls_connections_exact {W Key} `{Sockets W SocketAddr.t, TlsStack W Key} (p : Parsers.t Key) :
  (∀ addr config w sink stream w', connect p addr config w = (Ok (sink, stream), w') ↔
    ∃ conf name socket w1 w2, client_profile p config conf ∧
      tcp_connect (TlsClientConfig.connect_timeout config) addr w = (Timed.Completed (Ok socket), w1) ∧
      set_nodelay socket true w1 = (Ok tt, w2) ∧
      match TlsClientConfig.server_name config with
      | Some n => Parsers.server_name_try_from p n = Some name
      | None => name = ServerName.IpAddress (SocketAddr.ip addr)
      end ∧
      client_handshake conf name socket w2 = (Ok tt, w') ∧
      sink = TlsSink.mk socket (TlsClientConfig.write_timeout config) ∧ stream = TlsRecvStream.mk socket (TlsClientConfig.read_timeout config)) ∧
  (∀ addr config (w : W), (∀ conf, ¬ client_profile p config conf) → (connect p addr config w).2 = w) ∧
  (∀ addr config w listener w1, listener_bind p addr config w = (Ok listener, w1) ↔
    ∃ conf l, server_profile p config conf ∧ tcp_bind addr w = (Ok l, w1) ∧
      (debug_enabled w1 = true → ∃ bound, local_addr w1 l = Ok bound) ∧ listener = (l, conf)) ∧
  (∀ l conf w sink stream addr role w', listener_accept p (l, conf) w = (Ok (sink, stream, addr, role), w') ↔
    ∃ socket w1 w2 certs, tcp_accept l w = (Ok (socket, addr), w1) ∧ set_nodelay socket true w1 = (Ok tt, w2) ∧
      server_handshake conf socket w2 = (Ok certs, w') ∧ sink = TlsSink.mk socket None ∧ stream = TlsRecvStream.mk socket None ∧
      role = match certs with Some (cert :: _) => Parsers.role p cert | _ => None end) ∧
  (∀ cert role, Parsers.role p cert = Some role ↔ grants p cert role).
Proof.
  split_and!; [..|apply role_iff].
  - intros addr config w sink stream w'. unfold connect. split.
    + intros (conf & w0 & [Hconf%client_config_iff ->]%st_lift_iff & Hr)%st_bind_iff.
      apply st_bind_iff in Hr as (socket & w1 & Hc & Hr). apply st_bind_iff in Hr as ([] & w2 & Hn%st_map_err_iff & Hr).
      apply st_bind_iff in Hr as (name & w3 & [Hname ->]%st_lift_iff & Hr). apply st_bind_iff in Hr as ([] & w4 & Hh%st_map_err_iff & Hr).
      apply st_ret_iff in Hr as [[= -> ->] ->]. exists conf, name, socket, w1, w2. unfold connect_within in Hc.
      destruct (tcp_connect _ addr w) as [[[]|] w5]; simplify_eq/=. split_and!; try done.
      destruct (TlsClientConfig.server_name config); [by apply ok_or_iff in Hname|by simplify_eq].
    + intros (conf & name & socket & w1 & w2 & Hconf & Hc & Hn & Hname & Hh & -> & ->).
      apply client_config_iff in Hconf. apply st_bind_iff. exists conf, w. split; [by apply st_lift_iff|].
      apply st_bind_iff. exists socket, w1. split; [unfold connect_within; by rewrite Hc|].
      apply st_bind_iff. exists tt, w2. split; [by apply st_map_err_iff|].
      apply st_bind_iff. exists name, w2. split; [apply st_lift_iff; split; [|done]; destruct (TlsClientConfig.server_name config); [by apply ok_or_iff|by subst]|].
      apply st_bind_iff. exists tt, w'. split; [by apply st_map_err_iff|by apply st_ret_iff].
  - intros addr config w Hno. unfold connect. rewrite st_bind_lift.
    destruct (Parsers.client_config p config) eqn:Hc; try done. apply client_config_iff in Hc. by destruct (Hno a).
  - intros addr config w listener w1. unfold listener_bind, acceptor_new. split.
    + intros (conf & w0 & [Hconf%server_config_iff ->]%st_lift_iff & Hr)%st_bind_iff.
      apply st_bind_iff in Hr as (l & w2 & Hb%st_map_err_iff & Hr). exists conf, l. unfold st_bind at 1, st_get in Hr.
      destruct (debug_enabled w2) eqn:Hd.
      * unfold st_bind, st_map_err, st_lift in Hr. destruct (local_addr w2 l) as [bound|[]| |] eqn:Hl; try done.
        apply st_ret_iff in Hr as [-> ->]. split_and!; try done. intros _. by exists bound.
      * apply st_ret_iff in Hr as [-> ->]. split_and!; try done. by rewrite Hd.
    + intros (conf & l & Hconf%server_config_iff & Hb & Hl & ->). apply st_bind_iff. exists conf, w. split; [by apply st_lift_iff|].
      apply st_bind_iff. exists l, w1. split; [by apply st_map_err_iff|]. unfold st_bind at 1, st_get. destruct (debug_enabled w1); [|done].
      destruct (Hl eq_refl) as [bound Hbound]. unfold st_bind, st_map_err, st_lift. by rewrite Hbound.
  - intros l conf w sink stream addr role w'. unfold listener_accept, acceptor_accept, server_halves. split.
    + intros ([socket a] & w1 & Ha%st_map_err_iff & Hr)%st_bind_iff. apply st_bind_iff in Hr as ([] & w2 & Hn%st_map_err_iff & Hr).
      apply st_bind_iff in Hr as ([[s r] o] & w3 & Hh & [[= -> -> -> ->] ->]%st_ret_iff).
      apply st_bind_iff in Hh as (certs & w4 & Hh%st_map_err_iff & [[= -> -> ->] ->]%st_ret_iff). by exists socket, w1, w2, certs.
    + intros (socket & w1 & w2 & certs & Ha & Hn & Hh & -> & -> & ->). apply st_bind_iff. exists (socket, addr), w1. split; [by apply st_map_err_iff|].
      apply st_bind_iff. exists tt, w2. split; [by apply st_map_err_iff|]. apply st_bind_iff.
      eexists (_, _, _), w'. split; [|by apply st_ret_iff].
      apply st_bind_iff. exists certs, w'. split; [by apply st_map_err_iff|by apply st_ret_iff].
Qed.

(** A device at one address, with a client certificate that grants a role *)
Module Bench.
Definition name_of (s : string) : bytes := chars s.
Definition parsers : Parsers.t Z := {|
  Parsers.open_file path := Some (name_of path);
  Parsers.pem_certs file := Some [file];
  Parsers.pem_private_key file := Some (Some (blen file));
  Parsers.anchor_ok _ := true;
  Parsers.verifier_ok roots := negb (blen roots =? 0);
  Parsers.chain_ok _ key := key =? 3;
  Parsers.x509_extensions cert := Some [Extension.mk "2.5.29.15" [3]; Extension.mk MODBUS_ROLE_OID_STR cert];
  Parsers.utf8_string value := match value with 12 :: n :: rest => Some (drop (Z.to_nat n) rest, "operator"%string) | _ => None end;
  Parsers.server_name_try_from name := Some (ServerName.DnsName name);
|}.
(** The world counts the handshakes. *)
#[export] Instance sockets : Sockets Z SocketAddr.t := {|
  tcp_connect limit addr w := (if limit =? 0 then Timed.Elapsed else Timed.Completed (Ok (SocketAddr.port addr)), w);
  set_nodelay _ _ := st_ret tt;
  set_tcp_keepalive _ _ _ := st_ret tt;
|}.
#[export] Instance stack : TlsStack Z Z := {|
  client_handshake _ _ _ w := (Ok tt, w + 1);
  server_handshake conf _ w := (Ok (if RustlsServerConfig.unauthenticated conf then None else Some [[12; 8; 111; 112; 101; 114; 97; 116; 111; 114]]), w + 1);
  tcp_bind addr := st_ret (SocketAddr.port addr);
  tcp_accept l := st_ret (l + 1, SocketAddr.mk (IpAddr.V4 1) 40000);
  local_addr _ l := Ok (SocketAddr.mk (IpAddr.V4 2130706433) l);
  debug_enabled _ := true;
|}.
Definition here : SocketAddr.t := SocketAddr.mk (IpAddr.V4 2130706433) 802.
Definition server : TlsServerConfig.t := TlsServerConfig.mk "chain" "key" "ca" true None 64.
End Bench.
Lemma tls_connections_exact_witness :
  let config := TlsClientConfig.mk "ca" "chain" "key" None 5 None None in
  (∃ conf, client_profile Bench.parsers config conf) ∧ (∃ conf, server_profile Bench.parsers Bench.server conf) ∧
  grants Bench.parsers [12; 8; 111; 112; 101; 114; 97; 116; 111; 114] "operator".
Proof.
  destruct (tls_connections_exact (W:=Z) (H:=Bench.sockets) (H0:=Bench.stack) Bench.parsers) as (Hc & _ & Hb & _ & Hr). cbv zeta. split_and!.
  - destruct (proj1 (Hc Bench.here (TlsClientConfig.mk "ca" "chain" "key" None 5 None None) 0 (TlsSink.mk 802 None) (TlsRecvStream.mk 802 None) 1) eq_refl)
      as (conf & _ & _ & _ & _ & Hp & _). by exists conf.
  - destruct (proj1 (Hb Bench.here Bench.server 0 (802, RustlsServerConfig.mk [ProtocolVersion.TLS13] [chars "ca"] false [chars "chain"] 3 (Some 512)) 0) eq_refl)
      as (conf & _ & Hp & _). by exists conf.
  - apply Hr. reflexivity.
Defined.
