(* ===== verification/PythonClient.v ===== *)
(** * The Python classes (crates/rusty-modbus-python: src/config.rs, errors.rs, client.rs, sync_client.rs, server.rs, types.rs)

    The configuration classes with their checks and conversions, the exceptions that the errors of
    the client and the server become, the methods of the clients, and the setup of stores and
    servers. A Python float is an IEEE 754 number; the classes turn seconds into durations in
    whole nanoseconds.

    The awaitable and the blocking client make the same calls of the Rust client, over TCP or TLS; the runtime
    that drives them is Tokio. *)
From Stdlib Require Import SpecFloat.
From stdpp Require Import strings.
From S2P Require Import Prelude Tls Deadlines Seconds Types CodecError Responses Requests Pdu Stream Bits Store Memory DeviceId Handler Server Service Owned Session Transaction Client Methods Calls Loopback ServerTasks RemoteCalls Serve PythonStore Identification.
#[local] Open Scope Z_scope.

(** ** Configuration classes *)
Definition value_error : PyErr.t := PyErr.new_err PyClass.ValueError.
Module PyRetryConfig.
Record t : Type := mk { max_retries : Z; retry_delay_ms : Z }.
Definition to_rust (self : t) : RetryConfig.t :=
  RetryConfig.mk (max_retries self) (retry_delay_ms self * 1000000) (RetryConfig.retryable_exceptions RetryConfig.default).
End PyRetryConfig.
Module PyClientConfig.
Record t : Type := mk { unit_id : Z; timeout_secs : f64; max_in_flight : Z; retry : option PyRetryConfig.t; shutdown_timeout_secs : f64 }.
Definition new (unit_id : Z) (timeout_secs : f64) (max_in_flight : Z) (retry : option PyRetryConfig.t) (shutdown_timeout_secs : f64) : res PyErr.t t :=
  if negb (is_finite timeout_secs) || SFleb timeout_secs zero then Err value_error else
  if max_in_flight =? 0 then Err value_error else
  if negb (is_finite shutdown_timeout_secs) || SFleb shutdown_timeout_secs zero then Err value_error else
  Ok (mk unit_id timeout_secs max_in_flight retry shutdown_timeout_secs).
Definition to_rust {E} (self : t) : res E ClientConfig.t :=
  let retry := match retry self with Some r => PyRetryConfig.to_rust r | None => RetryConfig.default end in
  let? timeout := from_secs_f64 (timeout_secs self) in
  let? shutdown_timeout := from_secs_f64 (shutdown_timeout_secs self) in
  Ok (ClientConfig.mk (unit_id self) timeout (max_in_flight self) retry shutdown_timeout).
End PyClientConfig.
Module PyTlsConfig.
Record t : Type := mk { ca_cert : string; client_cert : string; client_key : string; timeout_secs : f64 }.
Definition new (ca_cert client_cert client_key : string) (timeout_secs : f64) : res PyErr.t t :=
  if SFleb timeout_secs zero then Err value_error else Ok (mk ca_cert client_cert client_key timeout_secs).
End PyTlsConfig.
Definition tls_to_rust {E} (self : PyTlsConfig.t) : res E TlsClientConfig.t :=
  let '(PyTlsConfig.mk ca_cert client_cert client_key timeout_secs) := self in
  let? timeout := from_secs_f64 timeout_secs in
  Ok (TlsClientConfig.mk ca_cert client_cert client_key None timeout (Some timeout) (Some timeout)).
Module PyStoreConfig.
Definition new (coil_count discrete_input_count holding_register_count input_register_count : Z) : res PyErr.t StoreConfig.t :=
  let config := StoreConfig.mk coil_count discrete_input_count holding_register_count input_register_count in
  do? map_err (λ _, value_error) (StoreConfig.validate config) in
  Ok config.
End PyStoreConfig.

(** ** Errors *)
Module ServerError.
Inductive t : Type := InvalidConfig (e : ServerConfigError.t) | Transport (e : TransportError.t) | Bind | AlreadyRunning.
End ServerError.
Definition client_error_to_pyerr (err : ClientError.t) : PyErr.t :=
  match err with
  | ClientError.Timeout => PyErr.new_err PyClass.TimeoutError
  | ClientError.Exception exc => PyErr.with_number PyClass.ModbusExceptionError (Some (ExceptionCode.code (ExceptionResponse.exception_code exc)))
  | ClientError.Transport _ => PyErr.new_err PyClass.ConnectionError
  | ClientError.NotConnected => PyErr.new_err PyClass.ConnectionError
  | ClientError.ShuttingDown => PyErr.new_err PyClass.ConnectionError
  | ClientError.RetriesExhausted attempts _ => PyErr.with_number PyClass.RetryError (Some attempts)
  | ClientError.Codec _ | ClientError.Encode _ | ClientError.BroadcastReadNotAllowed | ClientError.TransactionConflict _
  | ClientError.UnexpectedResponseUnitId _ _ | ClientError.UnexpectedResponse _ _ | ClientError.UnexpectedResponseEcho _ _ _
  | ClientError.ShortResponse _ _ | ClientError.UnexpectedResponseLength _ _ _ | ClientError.UnexpectedResponsePadding _ _ _
  | ClientError.UnexpectedFileRecordSubResponseCount _ _ | ClientError.InvalidDeviceIdentificationContinuation _ _
  | ClientError.DeviceIdentificationPaginationLimit _ => PyErr.new_err PyClass.ModbusError
  end.
Definition server_error_to_pyerr (err : ServerError.t) : PyErr.t :=
  match err with
  | ServerError.InvalidConfig _ => PyErr.new_err PyClass.ValueError
  | ServerError.Bind => PyErr.new_err PyClass.ConnectionError
  | ServerError.Transport _ => PyErr.new_err PyClass.ConnectionError
  | ServerError.AlreadyRunning => PyErr.new_err PyClass.ModbusError
  end.
Definition store_error_to_pyerr (err : StoreError.t) : PyErr.t := PyErr.new_err PyClass.ValueError.

(** ** The clients *)
Module PyClient.
Section Methods.
Context {W : Type} `{Connection W}.
(** [result.map_err(errors::client_error_to_pyerr)] *)
Definition raised {A} (m : ST W ClientError.t A) : ST W PyErr.t A := st_map_err client_error_to_pyerr m.
Definition read_holding_registers (unit_id address quantity : Z) : ST W PyErr.t (list Z) := raised (Methods.read_holding_registers unit_id address quantity).
Definition read_input_registers (unit_id address quantity : Z) : ST W PyErr.t (list Z) := raised (Methods.read_input_registers unit_id address quantity).
Definition write_single_register (unit_id address value : Z) : ST W PyErr.t unit := raised (Methods.write_single_register unit_id address value).
Definition write_multiple_registers (unit_id address : Z) (values : list Z) : ST W PyErr.t unit := raised (Methods.write_multiple_registers unit_id address values).
Definition mask_write_register (unit_id address and_mask or_mask : Z) : ST W PyErr.t unit := raised (Methods.mask_write_register unit_id address and_mask or_mask).
Definition read_write_multiple_registers (unit_id read_address read_quantity write_address : Z) (write_values : list Z) : ST W PyErr.t (list Z) :=
  raised (Methods.read_write_multiple_registers unit_id read_address read_quantity write_address write_values).
Definition read_coils (unit_id address quantity : Z) : ST W PyErr.t (list bool) := raised (Methods.read_coils unit_id address quantity).
Definition read_discrete_inputs (unit_id address quantity : Z) : ST W PyErr.t (list bool) := raised (Methods.read_discrete_inputs unit_id address quantity).
Definition write_single_coil (unit_id address : Z) (value : bool) : ST W PyErr.t unit := raised (Methods.write_single_coil unit_id address value).
Definition write_multiple_coils (unit_id address : Z) (values : list bool) : ST W PyErr.t unit := raised (Methods.write_multiple_coils unit_id address values).
Definition read_fifo_queue (unit_id pointer_address : Z) : ST W PyErr.t (list Z) := raised (Methods.read_fifo_queue unit_id pointer_address).
Definition read_file_record (unit_id : Z) (sub_request_data : bytes) : ST W PyErr.t bytes :=
  raised (r <- Methods.read_file_record unit_id sub_request_data;; st_ret (OwnedReadFileRecordResponse.data r)).
Definition write_file_record (unit_id : Z) (sub_request_data : bytes) : ST W PyErr.t bytes :=
  raised (r <- Methods.write_file_record unit_id sub_request_data;; st_ret (OwnedWriteFileRecordResponse.data r)).
Definition read_device_identification (unit_id : Z) : ST W PyErr.t OwnedDeviceIdentification.t := raised (Methods.read_device_identification unit_id).
End Methods.
End PyClient.
(** The blocking client *)
Module PySyncClient.
Section Methods.
Context {W : Type} `{Connection W}.
Definition read_holding_registers (unit_id address quantity : Z) : ST W PyErr.t (list Z) := PyClient.raised (Methods.read_holding_registers unit_id address quantity).
Definition read_input_registers (unit_id address quantity : Z) : ST W PyErr.t (list Z) := PyClient.raised (Methods.read_input_registers unit_id address quantity).
Definition write_single_register (unit_id address value : Z) : ST W PyErr.t unit := PyClient.raised (Methods.write_single_register unit_id address value).
Definition write_multiple_registers (unit_id address : Z) (values : list Z) : ST W PyErr.t unit := PyClient.raised (Methods.write_multiple_registers unit_id address values).
Definition mask_write_register (unit_id address and_mask or_mask : Z) : ST W PyErr.t unit := PyClient.raised (Methods.mask_write_register unit_id address and_mask or_mask).
Definition read_write_multiple_registers (unit_id read_address read_quantity write_address : Z) (write_values : list Z) : ST W PyErr.t (list Z) :=
  PyClient.raised (Methods.read_write_multiple_registers unit_id read_address read_quantity write_address write_values).
Definition read_coils (unit_id address quantity : Z) : ST W PyErr.t (list bool) := PyClient.raised (Methods.read_coils unit_id address quantity).
Definition read_discrete_inputs (unit_id address quantity : Z) : ST W PyErr.t (list bool) := PyClient.raised (Methods.read_discrete_inputs unit_id address quantity).
Definition write_single_coil (unit_id address : Z) (value : bool) : ST W PyErr.t unit := PyClient.raised (Methods.write_single_coil unit_id address value).
Definition write_multiple_coils (unit_id address : Z) (values : list bool) : ST W PyErr.t unit := PyClient.raised (Methods.write_multiple_coils unit_id address values).
Definition read_fifo_queue (unit_id pointer_address : Z) : ST W PyErr.t (list Z) := PyClient.raised (Methods.read_fifo_queue unit_id pointer_address).
Definition read_file_record (unit_id : Z) (sub_request_data : bytes) : ST W PyErr.t bytes :=
  PyClient.raised (r <- Methods.read_file_record unit_id sub_request_data;; st_ret (OwnedReadFileRecordResponse.data r)).
Definition write_file_record (unit_id : Z) (sub_request_data : bytes) : ST W PyErr.t bytes :=
  PyClient.raised (r <- Methods.write_file_record unit_id sub_request_data;; st_ret (OwnedWriteFileRecordResponse.data r)).
Definition read_device_identification (unit_id : Z) : ST W PyErr.t OwnedDeviceIdentification.t := PyClient.raised (Methods.read_device_identification unit_id).
End Methods.
End PySyncClient.

(** ** Stores and servers *)
Module PyInMemoryStore.
Definition new (config : option StoreConfig.t) : res PyErr.t InMemoryStore.t :=
  map_err store_error_to_pyerr (InMemoryStore.try_new (default StoreConfig.default config)).
Definition set_coil (address : Z) (value : bool) : ST InMemoryStore.t PyErr.t unit := st_map_err store_error_to_pyerr (InMemoryStore.set_coil address value).
Definition set_discrete_input (address : Z) (value : bool) : ST InMemoryStore.t PyErr.t unit := st_map_err store_error_to_pyerr (InMemoryStore.set_discrete_input address value).
Definition set_holding_register (address value : Z) : ST InMemoryStore.t PyErr.t unit := st_map_err store_error_to_pyerr (InMemoryStore.set_holding_register address value).
Definition set_input_register (address value : Z) : ST InMemoryStore.t PyErr.t unit := st_map_err store_error_to_pyerr (InMemoryStore.set_input_register address value).
Definition set_file_record (file_number record_number value : Z) : ST InMemoryStore.t PyErr.t unit :=
  st_map_err store_error_to_pyerr (InMemoryStore.set_file_record file_number record_number value).
Definition set_fifo_queue (address : Z) (values : list Z) : ST InMemoryStore.t PyErr.t unit := InMemoryStore.set_fifo_queue address values.
Definition set_exception_status (status : Z) : ST InMemoryStore.t PyErr.t unit := InMemoryStore.set_exception_status status.
Definition set_server_id (data : bytes) : ST InMemoryStore.t PyErr.t unit := InMemoryStore.set_server_id data.
End PyInMemoryStore.

(** The configuration of a server; [parse_addr] is the parser of socket addresses *)
Module PyServerConfig.
Section Config.
Context {Addr : Type} (parse_addr : string → option Addr) (version : bytes).
Record t : Type := mk { listen_addr : string; unit_id : Z; max_connections : Z; max_transactions : Z; shutdown_timeout_secs : f64 }.
Definition new (listen_addr : string) (unit_id max_connections max_transactions : Z) (shutdown_timeout_secs : f64) : res PyErr.t t :=
  match parse_addr listen_addr with
  | None => Err value_error
  | Some _ =>
      if max_connections =? 0 then Err value_error else
      if max_transactions =? 0 then Err value_error else
      if negb (is_finite shutdown_timeout_secs) || SFleb shutdown_timeout_secs zero then Err value_error else
      do? map_err (λ _, value_error) (try_from_secs_f64 shutdown_timeout_secs) in
      Ok (mk listen_addr unit_id max_connections max_transactions shutdown_timeout_secs)
  end.
Definition to_rust (self : t) : res PyErr.t (Addr * ServerConfig.t) :=
  let? addr := ok_or (parse_addr (listen_addr self)) value_error in
  let? shutdown_timeout := map_err (λ _, value_error) (try_from_secs_f64 (shutdown_timeout_secs self)) in
  Ok (addr, ServerConfig.mk (unit_id self) (max_connections self) (max_transactions self) shutdown_timeout (ServerConfig.device_id (ServerConfig.default version))).
End Config.
End PyServerConfig.
(** Ten seconds: 5 * 2 ^ 50 units of 2 ^ -49 *)
Definition ten : f64 := S754_finite false 5629499534213120 (-49).
Definition default_server_config : PyServerConfig.t := PyServerConfig.mk "127.0.0.1:0" 1 64 16 ten.

(** The store handed to [start]: an [InMemoryStore] of the package, or any other object *)
Module ServerInner.
Inductive t (O : Type) : Type := Memory (store : InMemoryStore.t) | Python (obj : O).
Arguments Memory {O}.
Arguments Python {O}.
End ServerInner.
Section Start.
Context {Addr O : Type} (parse_addr : string → option Addr) (version : bytes).
(** Binding a listener, and whether a runtime can be had *)
Context (bind : Addr → res TransportError.t unit) (runtime : bool).
(** [ModbusServer::start] of the server crate, up to the spawned tasks *)
Definition rust_start (addr : Addr) (config : ServerConfig.t) : res ServerError.t unit :=
  do? map_err ServerError.InvalidConfig (ServerConfig.validate config) in
  map_err (λ e, match e with TransportError.Io => ServerError.Bind | other => ServerError.Transport other end) (bind addr).
Definition start (config : option PyServerConfig.t) (store : option (ServerInner.t O)) : res PyErr.t (ServerConfig.t * ServerInner.t O) :=
  let config := default default_server_config config in
  let? rust := PyServerConfig.to_rust parse_addr version config in
  let '(addr, config) := rust in
  if negb runtime then Err (PyErr.new_err PyClass.RuntimeError) else
  let? inner := match store with
                | Some store => Ok store
                | None => rmap ServerInner.Memory (map_err store_error_to_pyerr (InMemoryStore.try_new StoreConfig.default))
                end in
  do? map_err server_error_to_pyerr (rust_start addr config) in
  Ok (config, inner).
End Start.
Definition shutdown_outcome_name (outcome : ShutdownOutcome.t) : string := match outcome with ShutdownOutcome.Drained => "drained" | ShutdownOutcome.Forced => "forced" end.
(** [unwrap] *)
Definition unwrapped {S E A} (m : ST S E A) : ST S Empty_set A := λ s, match m s with (Ok a, s') => (Ok a, s') | (Err _, s') => (Panic, s') | (Panic, s') => (Panic, s') | (OutOfFuel, s') => (OutOfFuel, s') end.
Definition seed_test_store : ST InMemoryStore.t Empty_set unit :=
  unwrapped (InMemoryStore.set_holding_register 0 1);;;
  unwrapped (InMemoryStore.set_holding_register 1 2);;;
  unwrapped (InMemoryStore.set_input_register 0 1);;;
  unwrapped (InMemoryStore.set_input_register 1 2);;;
  unwrapped (InMemoryStore.set_coil 0 true);;;
  unwrapped (InMemoryStore.set_coil 1 false);;;
  unwrapped (InMemoryStore.set_coil 2 true);;;
  unwrapped (InMemoryStore.set_discrete_input 0 true);;;
  unwrapped (InMemoryStore.set_discrete_input 1 false);;;
  unwrapped (InMemoryStore.set_discrete_input 2 true);;;
  InMemoryStore.set_fifo_queue 0 [10; 11].

(** * Lemmas *)
Lemma accepted_seconds x : negb (is_finite x) || SFleb x zero = false ↔ is_finite x = true ∧ positive x.
Proof. destruct x as [| | |[]]; cbn; naive_solver. Qed.

(** ** The methods of a client as calls *)
Module PyCall.
Inductive t : Type → Type :=
  | ReadCoils (address quantity : Z) : t (list bool)
  | ReadDiscreteInputs (address quantity : Z) : t (list bool)
  | ReadHoldingRegisters (address quantity : Z) : t (list Z)
  | ReadInputRegisters (address quantity : Z) : t (list Z)
  | WriteSingleCoil (address : Z) (value : bool) : t unit
  | WriteSingleRegister (address value : Z) : t unit
  | WriteMultipleCoils (address : Z) (values : list bool) : t unit
  | WriteMultipleRegisters (address : Z) (values : list Z) : t unit
  | MaskWriteRegister (address and_mask or_mask : Z) : t unit
  | ReadWriteMultipleRegisters (read_address read_quantity write_address : Z) (write_values : list Z) : t (list Z)
  | ReadFileRecord (sub_request_data : bytes) : t bytes
  | WriteFileRecord (sub_request_data : bytes) : t bytes
  | ReadFifoQueue (pointer_address : Z) : t (list Z).
Definition perform {W} `{Connection W} (sync : bool) {B} (u : Z) (c : t B) : ST W PyErr.t B :=
  match c in t B return ST W PyErr.t B with
  | ReadCoils a q => (if sync then PySyncClient.read_coils else PyClient.read_coils) u a q
  | ReadDiscreteInputs a q => (if sync then PySyncClient.read_discrete_inputs else PyClient.read_discrete_inputs) u a q
  | ReadHoldingRegisters a q => (if sync then PySyncClient.read_holding_registers else PyClient.read_holding_registers) u a q
  | ReadInputRegisters a q => (if sync then PySyncClient.read_input_registers else PyClient.read_input_registers) u a q
  | WriteSingleCoil a v => (if sync then PySyncClient.write_single_coil else PyClient.write_single_coil) u a v
  | WriteSingleRegister a v => (if sync then PySyncClient.write_single_register else PyClient.write_single_register) u a v
  | WriteMultipleCoils a vs => (if sync then PySyncClient.write_multiple_coils else PyClient.write_multiple_coils) u a vs
  | WriteMultipleRegisters a vs => (if sync then PySyncClient.write_multiple_registers else PyClient.write_multiple_registers) u a vs
  | MaskWriteRegister a am om => (if sync then PySyncClient.mask_write_register else PyClient.mask_write_register) u a am om
  | ReadWriteMultipleRegisters ra rq wa vs => (if sync then PySyncClient.read_write_multiple_registers else PyClient.read_write_multiple_registers) u ra rq wa vs
  | ReadFileRecord data => (if sync then PySyncClient.read_file_record else PyClient.read_file_record) u data
  | WriteFileRecord data => (if sync then PySyncClient.write_file_record else PyClient.write_file_record) u data
  | ReadFifoQueue a => (if sync then PySyncClient.read_fifo_queue else PyClient.read_fifo_queue) u a
  end.
(** The call of the Rust client, and the part of its result that is returned *)
Record inner (B : Type) : Type := Inner { result : Type; call : Call.t result; part : result → B }.
Arguments Inner {B}.
Arguments result {B}.
Arguments call {B}.
Arguments part {B}.
Definition rust {B} (c : t B) : inner B :=
  match c in t B return inner B with
  | ReadCoils a q => Inner _ (Call.ReadCoils a q) id
  | ReadDiscreteInputs a q => Inner _ (Call.ReadDiscreteInputs a q) id
  | ReadHoldingRegisters a q => Inner _ (Call.ReadHoldingRegisters a q) id
  | ReadInputRegisters a q => Inner _ (Call.ReadInputRegisters a q) id
  | WriteSingleCoil a v => Inner _ (Call.WriteSingleCoil a v) id
  | WriteSingleRegister a v => Inner _ (Call.WriteSingleRegister a v) id
  | WriteMultipleCoils a vs => Inner _ (Call.WriteMultipleCoils a vs) id
  | WriteMultipleRegisters a vs => Inner _ (Call.WriteMultipleRegisters a vs) id
  | MaskWriteRegister a am om => Inner _ (Call.MaskWriteRegister a am om) id
  | ReadWriteMultipleRegisters ra rq wa vs => Inner _ (Call.ReadWriteMultipleRegisters ra rq wa vs) id
  | ReadFileRecord data => Inner _ (Call.ReadFileRecord data) OwnedReadFileRecordResponse.data
  | WriteFileRecord data => Inner _ (Call.WriteFileRecord data) OwnedWriteFileRecordResponse.data
  | ReadFifoQueue a => Inner _ (Call.ReadFifoQueue a) id
  end.
(** The operation on the tables that a call stands for *)
Definition spec {B} (T : Tables.t) (c : t B) : res Exc (B * Tables.t) := let? r := call_spec T (call (rust c)) in Ok (part (rust c) r.1, r.2).
End PyCall.
(** How a call ends: what it returns or raises, and the tables after it *)
Inductive py_end {B} (u : Z) (c : PyCall.t B) (T : Tables.t) : res PyErr.t B → Tables.t → Prop :=
  | py_no_broadcast : UnitId.is_broadcast u = true → Call.reads (PyCall.call (PyCall.rust c)) = true → py_end u c T (Err (PyErr.new_err PyClass.ModbusError)) T
  | py_invalid : ¬ Call.valid (PyCall.call (PyCall.rust c)) → py_end u c T (Err (PyErr.new_err PyClass.ModbusError)) T
  | py_broadcast v : UnitId.is_broadcast u = true → Call.reads (PyCall.call (PyCall.rust c)) = false → Call.valid (PyCall.call (PyCall.rust c)) →
      py_end u c T (Ok v) (match PyCall.spec T c with Ok (_, T') => T' | _ => T end)
  | py_returned v T' : UnitId.is_broadcast u = false → Call.valid (PyCall.call (PyCall.rust c)) → PyCall.spec T c = Ok (v, T') → py_end u c T (Ok v) T'
  | py_raised ec : UnitId.is_broadcast u = false → Call.valid (PyCall.call (PyCall.rust c)) → PyCall.spec T c = Err ec →
      py_end u c T (Err (PyErr.with_number PyClass.ModbusExceptionError (Some (ExceptionCode.code ec)))) T.

Lemma py_perform {W} `{Connection W} sync {B} u (c : PyCall.t B) w :
  PyCall.perform sync u c w = let '(r, w') := perform u (PyCall.call (PyCall.rust c)) w in (map_err client_error_to_pyerr (rmap (PyCall.part (PyCall.rust c)) r), w').
Proof.
  destruct c, sync; cbn [PyCall.perform PyCall.rust PyCall.call PyCall.part perform]; unfold PyClient.read_coils, PyClient.read_discrete_inputs, PyClient.read_holding_registers, PyClient.read_input_registers,
    PyClient.write_single_coil, PyClient.write_single_register, PyClient.write_multiple_coils, PyClient.write_multiple_registers, PyClient.mask_write_register, PyClient.read_write_multiple_registers,
    PyClient.read_file_record, PyClient.write_file_record, PyClient.read_fifo_queue,
    PySyncClient.read_coils, PySyncClient.read_discrete_inputs, PySyncClient.read_holding_registers, PySyncClient.read_input_registers, PySyncClient.write_single_coil, PySyncClient.write_single_register, PySyncClient.write_multiple_coils, PySyncClient.write_multiple_registers, PySyncClient.mask_write_register, PySyncClient.read_write_multiple_registers, PySyncClient.read_file_record, PySyncClient.write_file_record, PySyncClient.read_fifo_queue, PyClient.raised, st_map_err, st_bind, st_ret;
    match goal with |- context [?m w] => destruct (m w) as [[] ?] end; done.
Qed.
Lemma py_ends {B} u (c : PyCall.t B) T r T' : remote_end u (PyCall.call (PyCall.rust c)) T r T' →
  py_end u c T (map_err client_error_to_pyerr (rmap (PyCall.part (PyCall.rust c)) r)) T'.
Proof.
  intros He. destruct He as [Hb Hr|e Hv|v Hb Hr Hv|v T1 Hb Hv Hs|ec Hb Hv Hs]; cbn.
  - by apply py_no_broadcast.
  - by apply py_invalid.
  - eassert (match call_spec T (PyCall.call (PyCall.rust c)) with Ok (_, T') => T' | _ => T end = match PyCall.spec T c with Ok (_, T') => T' | _ => T end) as ->; [|by apply py_broadcast].
    unfold PyCall.spec. by destruct (call_spec _ _) as [[]|?| |].
  - apply py_returned; [done..|]. unfold PyCall.spec. by rewrite Hs.
  - apply (py_raised u c T ec); [done..|]. unfold PyCall.spec. by rewrite Hs.
Qed.

(** What the configuration classes accept *)
Lemma client_config_accepts u t n r s c : PyClientConfig.new u t n r s = Ok c ↔
  is_finite t = true ∧ positive t ∧ n ≠ 0 ∧ is_finite s = true ∧ positive s ∧ c = PyClientConfig.mk u t n r s.
Proof.
  unfold PyClientConfig.new. pose proof (accepted_seconds t) as Ht. pose proof (accepted_seconds s) as Hs.
  destruct (negb (is_finite t) || SFleb t zero); [naive_solver|]. destruct (Z.eqb_spec n 0); [naive_solver|].
  destruct (negb (is_finite s) || SFleb s zero); naive_solver.
Qed.
Lemma client_config_converts {E} u t n r s : f64_ok t → f64_ok s → is_finite t = true → positive t → is_finite s = true → positive s →
  ((reaches t (2 ^ 64) ∨ reaches s (2 ^ 64)) ∧ PyClientConfig.to_rust (E := E) (PyClientConfig.mk u t n r s) = Panic) ∨
  (¬ reaches t (2 ^ 64) ∧ ¬ reaches s (2 ^ 64) ∧ ∃ d d', 0 ≤ d ≤ DURATION_MAX ∧ nearest t d ∧ 0 ≤ d' ≤ DURATION_MAX ∧ nearest s d' ∧
   PyClientConfig.to_rust (E := E) (PyClientConfig.mk u t n r s) = Ok (ClientConfig.mk u d n (from_option PyRetryConfig.to_rust RetryConfig.default r) d')).
Proof.
  intros Ht Hs Hft Hpt Hfs Hps. unfold PyClientConfig.to_rust, from_secs_f64. cbn [PyClientConfig.timeout_secs PyClientConfig.shutdown_timeout_secs].
  destruct (seconds_exact t Ht Hft Hpt) as [[Hr ->]|(Hr & d & -> & Hd & Hn)]; [left; by split; [left|]|]. cbn [rbind].
  destruct (seconds_exact s Hs Hfs Hps) as [[Hr' ->]|(Hr' & d' & -> & Hd' & Hn')]; [left; by split; [right|]|]. right. split_and!; [done..|]. exists d, d'. by destruct r.
Qed.
(** The values of a Python retry configuration are of their Rust types. *)
Definition retry_ok (r : option PyRetryConfig.t) : Prop :=
  match r with Some r => 0 ≤ PyRetryConfig.max_retries r ≤ u32_max ∧ 0 ≤ PyRetryConfig.retry_delay_ms r ≤ u64_max | None => True end.
Lemma retry_config_ok r u d n d' : 0 ≤ d ≤ DURATION_MAX → retry_ok r → Client.config_ok (ClientConfig.mk u d n (from_option PyRetryConfig.to_rust RetryConfig.default r) d').
Proof.
  intros Hd Hr. unfold Client.config_ok. cbn [ClientConfig.timeout ClientConfig.retry]. split; [done|]. destruct r as [[mr ms]|]; cbn in Hr |- *; [|by repeat split].
  unfold u64_max in *. change DURATION_MAX with 18446744073709551615999999999. split; lia.
Qed.

Lemma py_identification {W} `{Connection W} (sync : bool) u dev (w w' : W) : Methods.read_device_identification u w = (identification_spec dev, w') →
  (if sync then PySyncClient.read_device_identification u w else PyClient.read_device_identification u w) =
  (if (244 <? blen (DeviceIdentification.vendor_name dev)) || (244 <? blen (DeviceIdentification.product_code dev))
      || (244 <? blen (DeviceIdentification.major_minor_revision dev))
   then Err (PyErr.with_number PyClass.ModbusExceptionError (Some 4)) else Ok (identified dev), w').
Proof.
  intros Hid. assert (PyClient.read_device_identification u w = (map_err client_error_to_pyerr (identification_spec dev), w')) as Hp.
  { unfold PyClient.read_device_identification, PyClient.raised, st_map_err. by rewrite Hid. }
  assert (∀ x y : res PyErr.t OwnedDeviceIdentification.t * W, (if sync then x else x) = y ↔ x = y) as Hif by by destruct sync.
  change (PySyncClient.read_device_identification u w) with (PyClient.read_device_identification u w). rewrite Hif, Hp. f_equal.
  unfold identification_spec. destruct dev as [v p m x1 x2 x3 x4]. cbn. unfold too_long. cbn. rewrite orb_false_r, orb_assoc. change MAX_DEVICE_ID_OBJECT_VALUE_LEN with 244. by destruct (_ || _).
Qed.

(** * Theorems *)

(** The configuration classes: each accepts exactly the values it documents, and turns an
    accepted number of seconds into the nearest duration. A server configuration that
    was accepted always converts. A client configuration with a timeout of 2^64 seconds or more is
    accepted as well and panics when it is converted; so does a TLS configuration, for which NaN and infinity are
    accepted too. *)
Theorem python_configs_exact {Addr} (parse_addr : string → option Addr) (version : bytes) (addr : string) (u n k : Z) (t s : f64) (r : option PyRetryConfig.t) :
  f64_ok t → f64_ok s → retry_ok r →
  ((∃ c, PyClientConfig.new u t n r s = Ok c) ↔ is_finite t = true ∧ positive t ∧ n ≠ 0 ∧ is_finite s = true ∧ positive s) ∧
  (∀ c, PyClientConfig.new u t n r s = Ok c →
     ((reaches t (2 ^ 64) ∨ reaches s (2 ^ 64)) ∧ PyClientConfig.to_rust (E := PyErr.t) c = Panic) ∨
     (∃ config, PyClientConfig.to_rust (E := PyErr.t) c = Ok config ∧ Client.config_ok config ∧ nearest t (ClientConfig.timeout config) ∧ nearest s (ClientConfig.shutdown_timeout config))) ∧
  ((∃ c, PyServerConfig.new parse_addr addr u n k s = Ok c) ↔
     parse_addr addr ≠ None ∧ n ≠ 0 ∧ k ≠ 0 ∧ is_finite s = true ∧ positive s ∧ ¬ reaches s (2 ^ 64)) ∧
  (∀ c, PyServerConfig.new parse_addr addr u n k s = Ok c →
     ∃ a config, PyServerConfig.to_rust parse_addr version c = Ok (a, config) ∧ parse_addr addr = Some a ∧
       0 ≤ ServerConfig.shutdown_timeout config ≤ DURATION_MAX ∧ nearest s (ServerConfig.shutdown_timeout config)) ∧
  (∀ ca cert key c, PyTlsConfig.new ca cert key t = Ok c →
     (tls_to_rust (E := PyErr.t) c = Panic ↔ t = S754_nan ∨ reaches t (2 ^ 64))).
Proof.
  intros Ht Hs Hr. split_and!.
  - split; [intros [c Hc%client_config_accepts]; naive_solver|]. intros (? & ? & ? & ? & ?). eexists. by apply client_config_accepts.
  - intros c (Hft & Hpt & Hn & Hfs & Hps & ->)%client_config_accepts.
    destruct (client_config_converts (E := PyErr.t) u t n r s Ht Hs Hft Hpt Hfs Hps) as [[? ?]|(_ & _ & d & d' & Hd & Hnd & Hd' & Hnd' & Heq)]; [by left|right].
    eexists. split; [exact Heq|]. split; [by apply retry_config_ok|done].
  - unfold PyServerConfig.new. destruct (parse_addr addr); [|split; [intros [c ?]; done|naive_solver]].
    destruct (Z.eqb_spec n 0); [split; [intros [c ?]; done|naive_solver]|]. destruct (Z.eqb_spec k 0); [split; [intros [c ?]; done|naive_solver]|].
    pose proof (accepted_seconds s) as Ha. destruct (negb (is_finite s) || SFleb s zero); [split; [intros [c ?]; done|naive_solver]|]. destruct (proj1 Ha eq_refl) as [Hf Hp].
    destruct (seconds_exact s Hs Hf Hp) as [[Hre ->]|(Hre & d & -> & _)]; cbn [map_err rbind]; [split; [intros [c ?]; done|naive_solver]|]. split; [by intros|by eexists].
  - intros c. unfold PyServerConfig.new, PyServerConfig.to_rust. destruct (parse_addr addr) as [a|] eqn:Hp; [|done]. do 2 (case_match; [done|]).
    destruct (negb (is_finite s) || SFleb s zero) eqn:Hc; [done|]. apply accepted_seconds in Hc as [Hf Hpos].
    destruct (seconds_exact s Hs Hf Hpos) as [[Hre He]|(Hre & d & He & Hd & Hn)]; rewrite He; [done|]. cbn [map_err rbind]. intros [= <-].
    cbn [PyServerConfig.listen_addr PyServerConfig.shutdown_timeout_secs]. rewrite Hp, He. cbn. by do 2 eexists.
  - intros ca cert key c. unfold PyTlsConfig.new. destruct (SFleb t zero) eqn:Hc; [done|]. intros [= <-]. unfold tls_to_rust, from_secs_f64.
    destruct (is_finite t) eqn:Hf.
    + assert (positive t) as Hp by (apply accepted_seconds; by rewrite Hf, Hc).
      destruct (seconds_exact t Ht Hf Hp) as [[Hre ->]|(Hre & d & -> & _)]; cbn; [naive_solver|]. split; [done|]. intros [->|?]; done.
    + destruct t as [|[]| |]; try done; cbn; naive_solver.
Qed.
(** A whole number of seconds: one, and 2^64 *)
Definition one : f64 := S754_finite false 4503599627370496 (-52).
Definition ages : f64 := S754_finite false 4503599627370496 12.
Lemma python_configs_exact_witness :
  (∃ c, PyClientConfig.new 1 ages 16 None one = Ok c ∧ PyClientConfig.to_rust (E := PyErr.t) c = Panic) ∧
  (∃ c config, PyClientConfig.new 1 one 16 None one = Ok c ∧ PyClientConfig.to_rust (E := PyErr.t) c = Ok config ∧ ClientConfig.timeout config = 1000000000).
Proof.
  destruct (python_configs_exact (Addr := unit) (λ _, Some tt) [] "" 1 16 16 ages one None eq_refl eq_refl I) as ([_ H1] & H2 & _).
  destruct (python_configs_exact (Addr := unit) (λ _, Some tt) [] "" 1 16 16 one one None eq_refl eq_refl I) as ([_ H3] & H4 & _).
  split.
  - destruct H1 as [c Hc]; [repeat split; discriminate|]. exists c. split; [exact Hc|]. destruct (H2 c Hc) as [[_ H]|(config & H & _)]; [exact H|].
    exfalso. apply client_config_accepts in Hc as (_ & _ & _ & _ & _ & ->). vm_compute in H. discriminate H.
  - destruct H3 as [c Hc]; [repeat split; discriminate|]. destruct (H4 c Hc) as [[_ H]|(config & H & _)].
    + exfalso. apply client_config_accepts in Hc as (_ & _ & _ & _ & _ & ->). vm_compute in H. discriminate H.
    + exists c, config. split; [exact Hc|]. split; [exact H|]. apply client_config_accepts in Hc as (_ & _ & _ & _ & _ & ->). vm_compute in H. injection H as <-. reflexivity.
Defined.

(** Errors: every error of the client is raised as a [ModbusError], the code of an exception response and the
    attempts of an exhausted request go with it; and what a Python store raises for a Modbus exception is that exception
    on the wire, which the Python client raises with its code again. *)
Theorem python_errors_exact (err : ClientError.t) (fc : FunctionCode.t) (e : PyErr.t) :
  PyErr.is_instance_of PyClass.ModbusError (client_error_to_pyerr err) = true ∧
  PyErr.number (client_error_to_pyerr err) =
    match err with ClientError.Exception exc => Some (ExceptionCode.code (ExceptionResponse.exception_code exc)) | ClientError.RetriesExhausted n _ => Some n | _ => None end ∧
  (PyErr.is_instance_of PyClass.ModbusExceptionError (client_error_to_pyerr err) = true ↔ ∃ exc, err = ClientError.Exception exc) ∧
  pyerr_to_exception_code <$> (PyErr.new_err <$> [PyClass.IllegalFunctionError; PyClass.IllegalDataAddressError; PyClass.IllegalDataValueError; PyClass.ServerDeviceFailureError; PyClass.AcknowledgeError;
     PyClass.ServerDeviceBusyError; PyClass.NegativeAcknowledgeError; PyClass.MemoryParityError; PyClass.GatewayPathUnavailableError; PyClass.GatewayTargetDeviceFailedToRespondError; PyClass.RuntimeError]) =
   [ExceptionCode.IllegalFunction; ExceptionCode.IllegalDataAddress; ExceptionCode.IllegalDataValue; ExceptionCode.ServerDeviceFailure; ExceptionCode.Acknowledge;
     ExceptionCode.ServerDeviceBusy; ExceptionCode.NegativeAcknowledge; ExceptionCode.MemoryParityError; ExceptionCode.GatewayPathUnavailable; ExceptionCode.GatewayTargetDeviceFailedToRespond; ExceptionCode.ServerDeviceFailure] ∧
  (∃ n, PyErr.number (client_error_to_pyerr (ClientError.Exception (ExceptionResponse.mk fc (pyerr_to_exception_code e)))) = Some n ∧
     n = ExceptionCode.code (pyerr_to_exception_code e) ∧ is_u8 n).
Proof.
  split_and!; [by destruct err|by destruct err| |done|].
  - split; [|by intros [exc ->]]. destruct err; try done. by eexists.
  - eexists. split; [done|]. split; [done|]. apply exception_code_u8.
Qed.

(** C40. A Python client, awaitable or blocking, connected to a server over an in-memory store, with a configuration that is
    accepted, converts without a panic and has a timeout of at least a nanosecond: for every method and arguments, the call
    returns what the operation on the server's tables
    returns and leaves the tables it leaves, or raises a [ModbusExceptionError] with the code of its exception;
    arguments outside the limits of the protocol and reads of the broadcast address raise a [ModbusError] and
    change nothing. Reading the device identification of a unit that answers gives the names the server is configured
    with, or raises a [ModbusExceptionError] with code 4 when one of them does not fit in a response; it
    changes nothing either. *)
Theorem python_client_exact (unit_id : Z) (dev : DeviceIdentification.t) (last : Z) (cu : Z) (t s : f64) (n : Z) (retry : option PyRetryConfig.t)
    (c : PyClientConfig.t) (config : ClientConfig.t) (B : Type) (sync : bool) (u : Z) (call : PyCall.t B) (w : Loop.t InMemoryStore.t) :
  f64_ok t → f64_ok s → retry_ok retry → PyClientConfig.new cu t n retry s = Ok c → PyClientConfig.to_rust (E := PyErr.t) c = Ok config → 1 ≤ ClientConfig.timeout config →
  device_ok dev → loop_ok store_ok last w → Call.args_ok (PyCall.call (PyCall.rust call)) → answering unit_id u ∨ u = 0 →
  ∃ r w', @PyCall.perform _ (@client_connection _ (@loop_runtime _ (server_peer unit_id dev) last) config) sync _ u call w = (r, w') ∧ loop_ok store_ok last w' ∧
    TransactionManager.reuse_safety (Loop.ring w') = TransactionManager.reuse_safety (Loop.ring w) ∧
    py_end u call (tables_of (Loop.server w)) r (tables_of (Loop.server w')) ∧
  (answering unit_id u →
   ∃ w', (if sync then @PySyncClient.read_device_identification _ (@client_connection _ (@loop_runtime _ (server_peer unit_id dev) last) config) u w
          else @PyClient.read_device_identification _ (@client_connection _ (@loop_runtime _ (server_peer unit_id dev) last) config) u w) =
     (if (244 <? blen (DeviceIdentification.vendor_name dev)) || (244 <? blen (DeviceIdentification.product_code dev))
         || (244 <? blen (DeviceIdentification.major_minor_revision dev))
      then Err (PyErr.with_number PyClass.ModbusExceptionError (Some 4)) else Ok (identified dev), w') ∧
     loop_ok store_ok last w' ∧ tables_of (Loop.server w') = tables_of (Loop.server w) ∧
     TransactionManager.reuse_safety (Loop.ring w') = TransactionManager.reuse_safety (Loop.ring w)).
Proof.
  intros Ht Hs Hr (Hft & Hpt & _ & Hfs & Hps & ->)%client_config_accepts Hto Htime Hdev Hw Ha Hu.
  assert (Client.config_ok config) as Hc.
  { destruct (client_config_converts (E := PyErr.t) cu t n retry s Ht Hs Hft Hpt Hfs Hps) as [[_ He]|(_ & _ & d & d' & Hd & _ & _ & _ & He)]; rewrite He in Hto; [done|].
    injection Hto as <-. by apply retry_config_ok. }
  destruct (@remote_call _ store_ok (answering unit_id) _ (server_peer_laws unit_id dev Hdev) last config Hc Htime _ u (PyCall.call (PyCall.rust call)) w Hw Ha Hu) as (r & w' & Hp & Hw' & Hre & He).
  cbn in He. exists (map_err client_error_to_pyerr (rmap (PyCall.part (PyCall.rust call)) r)), w'. split_and!; [|done|done|by apply py_ends|].
  { rewrite py_perform. match goal with |- (let '(_, _) := ?x in _) = _ => replace x with (r, w') by (symmetry; exact Hp) end. done. }
  intros Hans. destruct (identification_served unit_id dev Hdev last config Hc Htime u w Hw Hans) as (w1 & Hid & Hw1 & HT & Hre1).
  exists w1. split_and!; [|done..]. by apply py_identification.
Qed.
Lemma python_client_exact_witness : ∃ w',
  @PyCall.perform _ (@client_connection _ (@loop_runtime _ (server_peer 1 small_device) 10000000000000) (ClientConfig.mk 255 1000000000 16 RetryConfig.default 1000000000)) true _
    1 (PyCall.ReadHoldingRegisters 9 2) idle_loop = (Err (PyErr.with_number PyClass.ModbusExceptionError (Some 2)), w').
Proof.
  destruct (python_client_exact 1 small_device 10000000000000 255 one one 16 None (PyClientConfig.mk 255 one 16 None one) (ClientConfig.mk 255 1000000000 16 RetryConfig.default 1000000000)
    _ true 1 (PyCall.ReadHoldingRegisters 9 2) idle_loop) as (r & w' & Hp & _).
  - reflexivity.
  - reflexivity.
  - exact I.
  - reflexivity.
  - reflexivity.
  - cbn. lia.
  - exact small_device_ok.
  - apply idle_loop_ok. lia.
  - cbn. lia.
  - left. split; [lia|]. split; [reflexivity|]. left. reflexivity.
  - exists w'. assert (r = Err (PyErr.with_number PyClass.ModbusExceptionError (Some 2))) as -> by (apply (f_equal fst) in Hp; vm_compute in Hp; symmetry; exact Hp). exact Hp.
Defined.

(** Starting a server: it returns whatever it is given; what it starts with has passed the checks of the server, and
    is the store that was handed over, or a fresh one with all addresses. *)
Theorem python_start_exact {Addr O} (parse_addr : string → option Addr) (version : bytes) (bind : Addr → res TransportError.t unit) (runtime : bool)
    (config : option PyServerConfig.t) (store : option (ServerInner.t O)) :
  (∀ a, returns (bind a)) →
  match start parse_addr version bind runtime config store with
  | Ok (rust, inner) => ServerConfig.validate rust = Ok tt ∧
      match store with
      | Some store => inner = store
      | None => ∃ s, inner = ServerInner.Memory s ∧ store_ok s ∧ sizes s = (65536, 65536, 65536, 65536)
      end
  | Err e => PyErr.number e = None ∧ Exists (λ c, PyErr.is_instance_of c e = true) [PyClass.ValueError; PyClass.RuntimeError; PyClass.ConnectionError]
  | Panic | OutOfFuel => False
  end.
Proof.
  intros Hb. unfold start, PyServerConfig.to_rust. destruct (parse_addr _) as [a|]; cbn [ok_or rbind]; [|by split; [|left]].
  assert (∀ x, match try_from_secs_f64 x with Ok _ | Err _ => True | _ => False end) as Hx
    by (intros x; unfold try_from_secs_f64; destruct (SFltb x zero); [done|]; destruct x; try done; cbv zeta; by destruct (_ <? _)).
  specialize (Hx (PyServerConfig.shutdown_timeout_secs (default default_server_config config))). destruct (try_from_secs_f64 _) as [d|e| |]; try done; cbn [map_err rbind]; [|by split; [|left]].
  destruct runtime; cbn [negb]; [|by split; [|right; left]].
  set (rust := ServerConfig.mk _ _ _ _ _). destruct (try_new_ok StoreConfig.default) as (s & Hn & Hs & Hz); [by repeat split|]. rewrite Hn. clear Hn.
  assert (∀ inner : ServerInner.t O,
    (match store with Some store => inner = store | None => ∃ s, inner = ServerInner.Memory s ∧ store_ok s ∧ sizes s = (65536, 65536, 65536, 65536) end) →
    match (do? map_err server_error_to_pyerr (rust_start bind a rust) in Ok (rust, inner)) with
    | Ok (rust, inner) => ServerConfig.validate rust = Ok tt ∧ match store with Some store => inner = store | None => ∃ s, inner = ServerInner.Memory s ∧ store_ok s ∧ sizes s = (65536, 65536, 65536, 65536) end
    | Err e => PyErr.number e = None ∧ Exists (λ c, PyErr.is_instance_of c e = true) [PyClass.ValueError; PyClass.RuntimeError; PyClass.ConnectionError]
    | Panic | OutOfFuel => False
    end) as Hend.
  { intros inner Hi. unfold rust_start. destruct (ServerConfig.validate rust) as [[]|e| |] eqn:Hv; cbn [map_err rbind]; try (by split; [|left]).
    - specialize (Hb a). destruct (bind a) as [[]|e| |]; try done. by destruct e; (split; [|right; right; left]).
    - unfold ServerConfig.validate in Hv. by repeat case_match.
    - unfold ServerConfig.validate in Hv. by repeat case_match. }
  destruct store as [store|]; [by apply Hend|]. apply Hend. by exists s.
Qed.
Lemma python_start_exact_witness : ∃ inner : ServerInner.t unit,
  start (Addr := unit) (λ _, Some tt) [] (λ _, Ok tt) true (Some (PyServerConfig.mk "" 1 8 8 one)) (Some (ServerInner.Python tt)) =
    Ok (ServerConfig.mk 1 8 8 1000000000 (DeviceIdentification.default []), inner) ∧ inner = ServerInner.Python tt.
Proof.
  pose proof (python_start_exact (Addr := unit) (λ _, Some tt) [] (λ _, Ok tt) true (Some (PyServerConfig.mk "" 1 8 8 one)) (Some (ServerInner.Python tt)) (λ _, I)) as H.
  exists (ServerInner.Python tt). split; [|reflexivity]. vm_compute in H |- *. reflexivity.
Defined.
